(* ===== verification/_CoqProject ===== *)
-Q . S2P
Prelude.v
Sha256.v
GoTime.v
Json.v
GoStrings.v
Base64.v
TimeParse.v
JsonFacts.v
GoFloat.v
Events.v
MemStore.v
MemStoreProps.v
ProofChain.v
JobFsm.v
JobQueue.v
StepResult.v
Scheduler.v
Ledger.v
LedgerProps.v
Identity.v
Replay.v
ReplayProps.v
TaskGraph.v
EventSink.v
Redaction.v
Evidence.v
EvidenceProps.v
EvidenceServer.v
RateLimit.v
CallLimits.v
Gatekeeper.v
SchemaValidator.v
JobStore.v
ShardedStore.v
EmbeddedStore.v
JsonPrint.v
Messaging.v
Gc.v
FairQueue.v
AccessControl.v
HttpLimits.v
JobApi.v
JobApiProps.v
RunStore.v
AgentState.v
AgentScheduler.v
Effects.v
JobSubmit.v
Telemetry.v
Verification.v
Trace.v
Narrative.v
JobViews.v
Worker.v
Executor.v
ExecutorProps.v
Crash.v
ToolNode.v
ToolNodeProps.v
NodeAdapters.v
GoFloatOps.v
Routing.v
Failover.v
RouteAdvisor.v
AgentRouting.v
Config.v
WorkerOps.v
Memory.v
Forensics.v
Anomalies.v
DomainGraph.v
RequestSigner.v
OrgVerifier.v
AgentApi.v
Reporter.v
Splitter.v
ContentStores.v
Durability.v
DurabilityProps.v
DurabilityTool.v
