(* ===== verification/Prelude.v ===== *)
(** Aetheris: the durable execution of agent jobs, modelled and verified.

    Aetheris runs agents as jobs.  A job is a record in a job store and an
    append-only event stream in an event store; a scheduler or a worker claims
    jobs and hands them to an executor, which runs the steps of a task graph,
    records what it did as events, guards each tool call by a ledger so that
    the call takes effect at most once, and after a crash rebuilds its context
    from the stream.  The streams are hash-chained so that they can be exported
    as evidence, and redacted before they are stored.  Calls to tools and
    models pass a gatekeeper, rate limiters and a router.  An HTTP interface
    submits, steers and shows jobs, under roles and tenants.
    [sdk/durability] is a second, self-contained runner with the same ideas.

    The development models these parts from the Go code under src/, with the
    handlers, middleware and maintenance loops around them.  SQL, the agent
    frameworks, document pipelines and the wiring of the programs are outside.

    * Files and what they model

    Every definition keeps the name of its Go function or type where it can;
    a record field [job_Status] is the field [Status] of the Go struct.

    Foundations.
    - [Prelude] (this file): results, panics, notations in [go_scope], tactics,
      the hint databases [go] and [gorw], list, string and map lemmas.
    - [Sha256], [GoTime], [TimeParse], [Json], [JsonFacts], [JsonPrint],
      [GoStrings], [Base64], [GoFloat], [GoFloatOps]: SHA-256, time.Time with
      its RFC 3339 texts, encoding/json, strings, base64, float64 and its
      arithmetic, numbers in texts and the contract of package sort, as the
      code uses them, all executable.
    - [Events]: internal/runtime/jobstore/event.go.

    Event store and evidence.
    - [MemStore]: internal/runtime/jobstore/{store,memory_store,snapshot}.go,
      one definition per operation on the record [memoryStore].
    - [MemStoreProps]: workers interleaved on that store as a step relation,
      the invariants, watch channels and the properties.
    - [JobStore]: the interface of store.go as a class with a specification
      [JobStoreSpec] in terms of what a store says of each job; the in-memory
      store is an instance.  [ShardedStore]: sharded_store.go over any
      instance.  [EmbeddedStore]: embedded_store.go, an instance with a file.
    - [Gc]: gc.go and archive.go of the same package, collection and archiving
      over stores with laws.
    - [ProofChain]: pkg/proof/{types,hash}.go and the event adapter of
      internal/api/http/forensics.go.
    - [Redaction]: pkg/redaction/{engine,policy}.go, the
      default policy and the redacting wrapper of the event store.
    - [Evidence], [EvidenceProps]: pkg/proof/{export,verify,signature}.go.
      [EvidenceServer]: the ledger and package of
      internal/api/http/forensics.go.  [OrgVerifier]:
      pkg/signature/keystore.go and pkg/distributed.
    - [Verification]: internal/agent/verify and the checks of
      internal/agent/replay before a replay is confirmed.
    - [Forensics], [Anomalies]: queries,
      batch exports, anomaly detector and evidence graph over stored jobs
      (forensics_query.go, pkg/ai_forensics, pkg/evidence).

    Admission of calls.
    - [RateLimit]: the pattern both limiters follow, callers interleaved on a
      shared store of limiters and channels; the class [Limiter] with its
      specification [LimiterSpec].  [CallLimits]:
      internal/agent/runtime/executor/rate_limiter.go and
      internal/model/llm/{rate_limiter,rate_limited_client}.go.  The package
      golang.org/x/time/rate is the class [RateOps].
    - [Gatekeeper]: internal/tool/gatekeeper/gatekeeper.go
      and the tools/call of internal/tool/mcp/server.go.
    - [SchemaValidator]: schema_validator.go of the same package.
    - [Routing], [Failover], [RouteAdvisor]: pkg/routing, the choice of a
      model, its retries, and the advisor with its hashes.  [AgentRouting]:
      internal/agent/routing.

    Jobs, scheduling and workers.
    - [JobFsm]: internal/agent/job/{job,state}.go, the transitions of a job and
      the status derived from its stream.
    - [JobQueue]: job_store.go, queue.go, wakeup.go and embedded_store.go of
      the same package.
    - [StepResult]: error values and ClassifyError of
      internal/agent/runtime/executor/{runner,retry}.go.
    - [Scheduler]: scheduler.go, reclaim.go and job_runner.go of
      internal/agent/job, on top of the three files above and [MemStore].
      [FairQueue]: internal/agent/scheduler/queue_scheduler.go.
    - [Worker], [WorkerOps]: internal/app/worker and the job
      callback of internal/app/api/app.go; its snapshots and collection.
      [Config]: the checks of configuration both programs start with.
    - [Messaging]: internal/agent/messaging, internal/agent/signal and the
      inbox loop.

    Agents.
    - [AgentState], [AgentScheduler]: sessions, saved state,
      the manager, the schedulers of one process and of many (Redis is a class
      with the laws of its commands), leader election.
    - [Memory]: internal/agent/memory.
    - [Effects]: pkg/effects and what runs through it.
    - [DomainGraph]: the aggregates of internal/agent/domain,
      on heaps, since their slices and pointers are shared.

    The HTTP interface.
    - [AccessControl]: roles, middleware, chains and route table.
      [HttpLimits]: CORS, the limit of requests, the limit per tenant and the
      list of addresses.  [RequestSigner]: signed requests, over HMAC.
    - [JobApi], [JobApiProps]: approvals and the handlers that
      steer a job, over the class [JobRepo] of job stores.  [JobSubmit]:
      a message to an agent becomes a job.  [AgentApi]: the
      handlers of agents and the summary for operators, and the tree of a
      call chain (chain_handler.go).
    - [RunStore]: internal/runtime/eino runs and internal/api/http/runs.go.
    - [Telemetry]: events reported by the SDKs.  [Reporter]: the Go SDK's side
      of it, sdk/durability/reporting.
    - [Trace], [Narrative], [JobViews]: the tree and the
      story of a stream, and the views and page that show them.

    Documents.
    - [Splitter]: internal/pipeline/ingest/splitter.go and internal/splitter,
      texts into chunks.
    - [ContentStores]: the in-memory stores of internal/storage.

    Tool calls and replay.
    - [Ledger]: the invocation stores, ledger_store.go, atomic_commit.go of
      internal/agent/runtime/executor; the class [ToolInvocationStore] with its
      specification [ToolInvocationStoreSpec] is the interface, the in-memory
      and the embedded store are instances.  [LedgerProps]: executors
      interleaved on any such store.
    - [Identity]: idempotency keys, step ids, the effect journal, state diffs.
    - [Replay], [ReplayProps]: internal/agent/replay/replay.go.

    The executor.
    - [TaskGraph]: internal/agent/planner/task_graph.go and the graph part of
      internal/agent/runtime/executor/steppable.go.
    - [EventSink]: the executor's events, internal/app/api/node_sink.go.
    - [Executor], [ExecutorProps]: runner.go, CompileSteppable of steppable.go
      and the policy of internal/agent/replay/sandbox/policy.go: [RunForJob]
      goes by the job's cursor to [run_from_cursor] or [run_from_events], and
      from there to [advance_loop], which alternates [Advance] with a rebuild
      of the replay context, or to [run_loop].  A node's [Run] is a function
      in the step, the node adapters are the argument [rn_registry].
    - [ToolNode], [ToolNodeProps]: the tool adapter of node_adapter.go over
      the ledger, the effect journal and the sink; [runNode] has the order of
      the Go function, its branches are the definitions it calls.
      [NodeAdapters]: the adapters of all other nodes.

    The standalone runner.
    - [Crash]: computations over a store that a crash can cut off, and triples
      for them; also used by [ToolNode] and [NodeAdapters].
    - [Durability]: sdk/durability/core and idempotent/tool.go over the class
      [Store] with its specification [StoreSpec].
    - [DurabilityProps], [DurabilityTool]: crash recovery and at-most-once.

    * How code becomes definitions

    An operation under one lock is one function from state to state.  Where
    the code releases the lock in between (Append of the event store, Acquire
    of the ledger, a handler between two calls of a store) the parts are
    separate functions and a step relation, or an argument that says what
    others do in between, interleaves them.  Go maps are [gmap]; a map that can
    be nil is an option and a write to nil, a send on or a close of a closed
    channel is a [Panic].  Slices and pointers that are shared live in heaps.
    time.Now, uuid.New and the iteration order of a map are arguments wherever
    they can be observed, so theorems hold for all of them; so are
    time.ParseDuration, url.Parse, ed25519 and what a machine makes of a float
    outside the range of int.  Errors are values of [result].  Integers are
    [Z]; the ones that grow (versions, retry counters, attempt counters) are
    bounded by stream lengths or by configuration, not by the width of int,
    and where a product or a difference can leave int64 it wraps ([wrap64]).
    Byte slices are strings.

    The scanner of [Json] takes fuel, and [fuel_for] gives it twice the length
    of the input plus two, which suffices since every call consumes a byte or
    returns; [JsonFacts] proves it for the objects the code prints, compact
    and indented.  The shortest decimal of a float64 is searched with 17
    digits, which always suffice.  [ValidateSchema] has the depth of the schema
    as fuel ([ValidateSchema_terminates]).  [TimeParse] reads the RFC 3339
    layouts and leaves out time.Parse's lenient fallback.
    [WaitNextPending] of [JobQueue] is one pass of its blocking loop.  The
    computations of [Crash] take the number of store writes before a
    crash; [resume_equals_uninterrupted] proves how many are enough.  The loop
    of [TopoOrder] gets one turn per node and one more, which [TopoOrder_spec]
    proves enough: it has no fuel of its own.  [run_loop] needs one turn per
    open step and one more ([run_loop_once_in_order]).  [advance_loop] can go
    on for ever when the sink refuses every append, so its fuel is an argument
    of [RunForJob] and running out of it is an error value.

    The loop of [Splitter] over a long text takes fuel as an argument: it ends
    when chunks overlap less than they are long ([document_is_split]), and
    [full_overlap_never_ends] shows that it need not.

    Further bounds are the code's own or lengths of data.  A call chain is
    walked for the 100 jobs the code allows and shown to the depth asked for, at
    most 100, a telemetry append for its 11
    rounds, a failover for its retries and one attempt more, the other tiers
    from the target down.  The collection of [Gc] is fuelled by its batches
    ([gc_ends_clean]).  A walk of a trace tree has one unit per node and
    reports its overflow, which stands for a tree with a cycle.  The rounds of
    [DomainGraph] have one unit per node or pending node and one more, of which
    each round uses up a node.

    * What is proved

    - Event store: optimistic concurrency, lease exclusivity, fencing of
      superseded attempts, complete claiming, appends that do not panic
      ([append_version_exclusive], [lease_exclusive], [superseded_fenced],
      [Claim_spec], [append_never_panics]).
    - Evidence: all reachable streams validate, and the last hash of a chain
      without separators determines every event up to a SHA-256 collision
      ([reachable_streams_validate], [last_hash_tamper_evident]); exported
      packages are accepted, the server's too, and the manifest fixes the
      files ([EvidenceProps], [EvidenceServer]); a signed package verifies
      ([signed_package_verifies]), organisations agree exactly on one root
      ([consensus_is_one_root]), and the checks of an execution decide what
      they say ([Verification]).
    - Redaction: a masked field leaves no trace in the store, and what is
      stored is redacted ([Redaction]).
    - Other stores: shards behave as one store, a restart of the store on disk
      cannot be observed ([sharding_is_invisible], [sharded_claim_finds_work],
      [restart_is_invisible]); collection ends, keeps a copy of what it deletes
      and deletes only that ([Gc]).
    - Forensics: a query answers exactly the matching jobs of the tenant it
      names, up to a page; the detector reports exactly the anomalies it
      defines; the edges of the evidence graph are data flow
      ([Forensics], [Anomalies]).
    - Admission: configured concurrency is never exceeded, the sliding window
      is exact, a call that does not conform has no effect, the schema
      validator ends and decides conformance ([CallLimits],
      [Gatekeeper], [SchemaValidator]).
    - Routing: strategies choose the best model, failover serves or exhausts
      its tries, decisions hash independently of their order ([Routing],
      [Failover], [RouteAdvisor]).
    - Jobs: the choice a claim makes, no lost pending job, no double claim,
      wake-up as the inverse of waiting, terminal statuses absorbing, status
      derivations that agree with the transitions ([JobQueue], [JobFsm]).
    - Scheduling: bounds on retries and concurrency in every run, a failing
      job ends after its retries, the exact effect of reclaiming
      ([Scheduler]); every round of tickets is fair ([FairQueue]).
    - Workers: status and stream agree after every execution under a live
      lease, but for the last event of a run whose context has ended, and a
      worker that lost its lease appends nothing ([Worker]);
      a quiet job gets the snapshot it is due ([WorkerOps]); the production
      gate refuses exactly the unsafe configurations ([Config]).
    - Agents: no two runs of an agent at once, in one process or in many whose
      renewals are not too late ([agent_runs_exclude_each_other]); a leader keeps its term
      ([leader_keeps_its_term]); what a session hands on to another worker; recorded
      effects run once ([effects_run_once]); memories keep the last entries
      and recall them ([Memory]); the graph aggregate runs a node after its
      dependencies and sorts exactly the acyclic graphs ([DomainGraph]).
    - Access: role changes need the administrator, and no request of the program
      as it is wired changes one ([AccessControl]), a signed
      request is accepted and a signature fixes what it signs
      ([signed_request_is_accepted], [signature_fixes_request]), and tenants do
      not use up each other's limit ([tenants_are_limited_apart]); a network
      holds the addresses with its first bits ([network_holds_its_addresses])
      and the list passes whom it should ([passes_iff]).
    - The job interface: tenants are kept apart, racing signals resume a wait
      once, decisions are final ([JobApiProps]); call chains have no cycle and
      a bounded depth, a submitted job starts with its plan
      ([JobSubmit]); an inbox becomes jobs ([Messaging]); a run is read
      once by its followers ([RunStore]); a reported event lands once
      ([Telemetry]), and every event of a reporter is accounted for
      ([events_are_accounted_for]); jobs and agents are listed by tenant
      ([AgentApi]); the tree of a chain shows exactly the descendants
      ([chain_shows_descendants]).
    - Documents: a text is split to the end, its chunks numbered and bounded,
      and no paragraph, sentence or token lost ([document_is_split],
      [semantic_keeps_sentences], [tokens_are_split]); the engine agrees with
      the splitter it replaces ([engine_agrees]); a search answers the best
      vectors ([search_answers_the_best]); a listing stays within its tenant
      ([listing_stays_within_the_tenant]).
    - Views: the trace shows each span once, the narrative keeps the order of
      events, views stay within the tenant, and data cannot leave the script
      of the page ([Trace], [Narrative], [JobViews]).
    - Ledger: at-most-once execution with atomic acquisition, committed
      results that are not empty never re-executed under any interleaving,
      crash safety of the commit protocol, by the record and by the stream
      alone, orphan detection ([LedgerProps]); keys identify calls
      ([Identity]).
    - Replay: from a snapshot and from the start alike, where the snapshot can
      hold the context and be written to, total and monotone, an
      exact barrier for unfinished tool calls ([ReplayProps]).
    - Tool node: one call per key runs the tool, whatever crashes, and what a
      finished call returned is what later ones return; the ledger's record of
      an interrupted one is never closed ([ToolNodeProps]).  The answer of a
      model is final in the same way ([NodeAdapters]).
    - Executor: the order and the levels of a task graph are correct and
      complete, a batch is ready to run, the run loop runs every open step once
      and in order and leaves a status that fits how it ended ([TaskGraph],
      [ExecutorProps]).
    - Standalone runner: crashes and failures do not change the result, and a
      wrapped tool succeeds at most once ([DurabilityProps],
      [DurabilityTool]).

    Theorems named after a defect show where the code stops short of its
    contract, and mark the hypotheses the positive theorems need:
    - stores and evidence: [fencing_gap], [slow_watcher_cancel_panics],
      [failed_write_keeps_event], [older_snapshot_wins],
      [adapter_always_validates], [separator_ambiguity],
      [stripped_package_passes_any_key], [redacted_result_replays_as_marker],
      [redaction_rounds_integers], [encrypt_without_key_keeps_value],
      [command_result_is_not_masked], [regenerated_key_orphans_signatures],
      [hashes_are_not_recomputed], [in_flight_change_is_restored],
      [confirmed_context_completes_nothing],
      [root_ignores_job_and_missing_id],
      [execution_hash_confuses_plan_and_path], [cursor_never_advances],
      [query_reads_any_tenant], [completed_export_keeps_nothing],
      [consistency_check_never_complains], [bypassed_approval_is_not_reported],
      [later_output_feeds_earlier_step];
    - admission and routing: [every_origin_is_allowed],
      [header_replaces_the_peer], [two_first_requests],
      [a_rate_that_is_lost], [first_calls_exceed_limit],
      [oversized_request_always_refused], [tokens_counted_twice], [ssrf_gaps],
      [command_gaps], [null_passes_every_check], [validator_gaps], [stale_tier_entry],
      [required_capability_is_ignored], [other_tiers_never_searched],
      [quality_falls_back_upwards], [failed_model_is_not_reported],
      [rate_limited_model_is_kept], [racing_requests_pass_together],
      [unranked_candidates_are_scored], [empty_metadata_breaks_the_hash],
      [fallback_reasons_are_not_hashed], [valid_remote_mode_is_refused],
      [unprintable_decisions_share_a_hash];
    - jobs and workers: [reclaimed_job_stranded], [wakeup_resurrects_terminal],
      [restart_keeps_jobs_loses_waits], [suspended_job_treated_as_failure],
      [idle_queue_starves_others], [send_options_ignored],
      [unsaved_event_duplicates_job], [unwritten_end_runs_again],
      [shutdown_cancels_jobs],
      [late_cancel_overrides_completion], [waiting_job_is_claimed_again],
      [refused_lease_uses_up_attempts],
      [superseded_worker_overwrites_status],
      [waiting_job_is_recorded_as_failed], [racing_snapshot_skips_events],
      [racing_snapshot_forgets_finished_node], [later_wildcard_is_accepted],
      [strict_mode_is_not_production_mode], [bare_variable_is_not_replaced];
    - agents: [resume_starts_second_run], [short_lock_is_not_renewed],
      [late_renewal_runs_twice],
      [short_term_is_lost], [memory_blocks_are_not_saved],
      [emptied_state_keeps_old_messages], [namespaces_hide_each_other],
      [failed_call_answers_empty], [racing_effects_run_twice],
      [replayed_time_is_refused], [replayed_random_is_new],
      [unprintable_arguments_share_a_result], [ledger_keys_differ],
      [recording_again_forgets], [grown_graph_splits],
      [failed_graph_is_completed], [unknown_target_is_a_cycle],
      [second_step_never_starts], [failed_runner_goes_on],
      [restored_runner_has_no_work_left], [finished_runner_cannot_be_saved];
    - the interface: [header_names_the_user], [auditor_may_delete],
      [access_log_names_nobody], [headerless_signature_is_refused],
      [access_key_is_not_signed], [header_moves_into_body],
      [distant_past_is_recent], [configured_signer_has_no_skew],
      [resume_wakes_foreign_job], [resume_reopens_finished_job],
      [repeated_signal_is_refused], [signalled_job_is_not_claimable],
      [paused_job_cannot_be_signalled], [anyone_decides_expired_request],
      [racing_decisions_both_stand], [rejection_counts_as_approval],
      [approval_starts_unknown_stream],
      [long_expiry_is_in_the_past], [repeated_resume_conflicts],
      [idempotency_key_makes_two_runs], [racing_submissions_make_two_jobs],
      [failed_plan_leaves_pending_job], [foreign_agent_is_stopped],
      [created_agent_is_hidden], [unknown_agent_has_job_list],
      [late_event_lands_after_the_end], [keys_of_tenants_collide],
      [telemetry_completes_foreign_job], [resent_report_lands_twice],
      [large_flush_is_lost], [unsent_batch_is_lost],
      [same_instant_is_a_duplicate], [rejected_event_counts_as_sent],
      [foreign_jobs_of_chain], [refusal_reveals_job], [cycle_fills_the_depth],
      [crowd_hides_children],
      [cognition_view_shows_foreign_jobs], [waiting_phase_is_unknown],
      [node_named_plan_hides_the_trace], [overlapping_calls_swap_outputs],
      [nested_list_is_not_escaped], [tool_of_tree_has_no_step],
      [node_end_closes_open_tool];
    - documents: [full_overlap_never_ends], [larger_overlap_panics],
      [nil_metadata_panics], [metadata_is_not_filtered],
      [failed_add_keeps_the_first],
      [overflowing_vector_passes_the_threshold];
    - calls, replay and executor: [acquire_not_atomic],
      [abandoned_execution_blocks], [empty_result_reexecutes],
      [snapshot_without_timers_panics], [nested_empty_object_is_null],
      [interrupted_call_is_lost], [approval_request_panics],
      [approval_never_runs], [replayed_answer_is_another_prompt],
      [recorded_result_lacks_evidence], [wrap_crash_blocks],
      [checkpointed_job_never_continues].

    * What is not modelled

    - The PostgreSQL stores, the PostgreSQL inbox and the migrations: their
      behaviour is that of SQL statements.  Where the code relies on such a
      store beside the in-memory ones, the model has a class with laws.
    - The agent frameworks (Eino, ADK, LangGraph bridges), the streaming and
      checkpoint calls over them, the planner that asks a model, and the model
      clients: they pass values to code that is not under src/.
    - Loading, parsing and embedding of documents, retrieval and the handlers
      around them: file formats and calls to models.
    - The wiring of the programs, gRPC, the command line, metrics, tracing and
      logging: construction and presentation without state of their own.
    - The PII detector and the compensation and validator hooks of the
      executor, which nothing calls; the parallel level of the executor, which
      no program switches on, and its fallback without stores.
    - OIDC and SAML, which verify tokens by third-party libraries. *)

From stdpp Require Export base gmap strings list fin_maps sets.
From Stdlib Require Export ZArith Lia Ascii.

#[global] Open Scope Z_scope.

(** stdpp freezes [String.append]; the string lemmas below compute with it. *)
#[global] Arguments String.append !_ _ / : simpl nomatch.

(** ** Results

    A Go function returning [(T, error)] is a [result E T]; an operation that
    can crash the process (nil-map write, double close) is an [outcome]. *)

Inductive result (E A : Type) : Type :=
| Ok (a : A)
| Err (e : E).
Arguments Ok {E A} a.
Arguments Err {E A} e.

Inductive outcome (A : Type) : Type :=
| Ret (a : A)
| Panic (msg : string).
Arguments Ret {A} a.
Arguments Panic {A} msg.

Declare Scope go_scope.
Delimit Scope go_scope with go.

Definition result_bind {E A B} (m : result E A) (f : A -> result E B) : result E B :=
  match m with Ok a => f a | Err e => Err e end.

Definition outcome_bind {A B} (m : outcome A) (f : A -> outcome B) : outcome B :=
  match m with Ret a => f a | Panic msg => Panic msg end.

Notation "'try' x <- m ;; k" := (result_bind m (fun x => k))
  (at level 60, x name, m at next level, right associativity) : go_scope.
Notation "'run' x <- m ;; k" := (outcome_bind m (fun x => k))
  (at level 60, x name, m at next level, right associativity) : go_scope.
#[global] Open Scope go_scope.

Definition is_ok {E A} (r : result E A) : bool :=
  match r with Ok _ => true | Err _ => false end.

Lemma is_ok_spec {E A} (r : result E A) : is_ok r = true <-> exists a, r = Ok a.
Proof. destruct r; split; [eauto | done | done | intros [? ?]; done]. Qed.

Lemma result_bind_ok {E A B} (m : result E A) (f : A -> result E B) b :
  result_bind m f = Ok b <-> exists a, m = Ok a /\ f a = Ok b.
Proof. destruct m; split; [eauto | by intros (? & [= ->] & ?) | done | by intros (? & ? & ?)]. Qed.

Lemma outcome_bind_ret {A B} (m : outcome A) (f : A -> outcome B) b :
  outcome_bind m f = Ret b <-> exists a, m = Ret a /\ f a = Ret b.
Proof. destruct m; split; [eauto | by intros (? & [= ->] & ?) | done | by intros (? & ? & ?)]. Qed.

(** ** Automation *)

(** Break every [match] and [if] of the goal or of a hypothesis, closing the
    branches that contradict the context. *)
Ltac go_break_goal :=
  repeat (case_match; simplify_eq/=; try done).

Ltac go_break H :=
  repeat (match type of H with
          | context [match ?x with _ => _ end] => destruct x eqn:?; simplify_eq/=
          end; try done).

Ltac bool_hyps :=
  repeat match goal with
  | H : (_ && _)%bool = true |- _ => apply andb_prop in H; destruct H
  | H : (_ || _)%bool = false |- _ => apply orb_false_elim in H; destruct H
  | H : negb _ = true |- _ => apply negb_true_iff in H
  | H : negb _ = false |- _ => apply negb_false_iff in H
  | H : (_ =? _)%Z = true |- _ => apply Z.eqb_eq in H
  | H : (_ =? _)%Z = false |- _ => apply Z.eqb_neq in H
  | H : (_ <? _)%Z = true |- _ => apply Z.ltb_lt in H
  | H : (_ <? _)%Z = false |- _ => apply Z.ltb_ge in H
  | H : (_ <=? _)%Z = true |- _ => apply Z.leb_le in H
  | H : (_ <=? _)%Z = false |- _ => apply Z.leb_gt in H
  | H : (_ =? _)%nat = true |- _ => apply Nat.eqb_eq in H
  | H : (_ =? _)%nat = false |- _ => apply Nat.eqb_neq in H
  | H : bool_decide _ = true |- _ => apply bool_decide_eq_true in H
  | H : bool_decide _ = false |- _ => apply bool_decide_eq_false in H
  end.

(** ** Lists *)


(** [splice i l] is Go's [append(l[:i], l[i+1:]...)]. *)
Definition splice {A} (i : nat) (l : list A) : list A := take i l ++ drop (S i) l.

Section lists.
Context {A : Type}.
Implicit Types l : list A.


Lemma splice_perm l i x : l !! i = Some x -> l ≡ₚ x :: splice i l.
Proof.
  intros H. unfold splice.
  rewrite <- (take_drop_middle l i x H) at 1. by rewrite Permutation_middle.
Qed.

Lemma elem_of_splice l i x y : l !! i = Some x -> y ∈ splice i l -> y ∈ l.
Proof. intros H Hy. rewrite (splice_perm l i x H). by constructor. Qed.

Lemma length_splice l i x : l !! i = Some x -> length l = S (length (splice i l)).
Proof. intros H. exact (Permutation_length (splice_perm l i x H)). Qed.

Lemma last_snoc_inv l x : last l = Some x -> exists l', l = l' ++ [x].
Proof.
  destruct l as [|y l'] using rev_ind; [done|].
  rewrite last_snoc. intros [= ->]. eauto.
Qed.
End lists.

Lemma rtc_preserves {A} (P : A -> Prop) (R : relation A) x y :
  rtc R x y -> (forall a b, P a -> R a b -> P b) -> P x -> P y.
Proof. induction 1; eauto. Qed.

Lemma existsb_exists_elem {A} `{EqDecision A} (l : list A) x :
  existsb (fun y => bool_decide (y = x)) l = true <-> x ∈ l.
Proof.
  rewrite existsb_exists. setoid_rewrite bool_decide_eq_true.
  setoid_rewrite <- list_elem_of_In. split; [by intros (? & ? & <-)|by exists x].
Qed.

(** A key determines its association when the keys are distinct. *)
Lemma nodup_snd_inj {A B} (l : list (A * B)) a a' b :
  NoDup (map snd l) -> (a, b) ∈ l -> (a', b) ∈ l -> a = a'.
Proof.
  induction l as [|[x y] l IH]; cbn; [by intros _ ?%elem_of_nil|].
  intros [Hy Hnd]%NoDup_cons H H'.
  apply elem_of_cons in H as [[= -> ->]|H]; apply elem_of_cons in H' as [H'|H'].
  - by injection H'.
  - exfalso. apply Hy. by apply (list_elem_of_fmap_2 snd) in H'.
  - injection H' as -> ->. exfalso. apply Hy. by apply (list_elem_of_fmap_2 snd) in H.
  - by auto.
Qed.

Lemma nodup_map_inj {A B} (f : A -> B) (l : list A) x y :
  NoDup (map f l) -> x ∈ l -> y ∈ l -> f x = f y -> x = y.
Proof.
  induction l as [|z l IH]; cbn; [by intros _ ?%elem_of_nil|].
  intros [Hz Hn]%NoDup_cons [->|Hx]%elem_of_cons [->|Hy]%elem_of_cons Hf; [done|..].
  - destruct Hz. rewrite Hf. by apply (list_elem_of_fmap_2 f).
  - destruct Hz. rewrite <- Hf. by apply (list_elem_of_fmap_2 f).
  - by apply IH.
Qed.

Lemma sublist_elem_of {A} (l k : list A) x : l `sublist_of` k -> x ∈ l -> x ∈ k.
Proof. induction 1; rewrite ?elem_of_cons; naive_solver. Qed.

Lemma sublist_nodup {A} (l k : list A) : l `sublist_of` k -> NoDup k -> NoDup l.
Proof.
  induction 1; rewrite ?NoDup_cons; [done|intros [Hx Hn]; split|naive_solver]; [|auto].
  intros Hx'. apply Hx. by eapply sublist_elem_of.
Qed.

Lemma nodup_splice {A} (l : list A) i x : l !! i = Some x -> NoDup l -> NoDup (x :: splice i l).
Proof. intros H Hn. by rewrite <- (splice_perm l i x H). Qed.

(** ** Strings as Go byte strings *)

Definition bar : ascii := "|"%char.

Fixpoint str_in (c : ascii) (s : string) : bool :=
  match s with
  | EmptyString => false
  | String a s' => Ascii.eqb a c || str_in c s'
  end.

(** [strings.Contains] *)
Fixpoint str_contains (s sub : string) : bool :=
  String.prefix sub s ||
  match s with
  | EmptyString => false
  | String _ s' => str_contains s' sub
  end.

(** [strings.Split(s, sep)] for a one-byte separator. *)
Fixpoint split_on (sep : ascii) (s : string) : list string :=
  match s with
  | EmptyString => [EmptyString]
  | String c s' =>
      if Ascii.eqb c sep then EmptyString :: split_on sep s'
      else match split_on sep s' with
           | w :: ws => String c w :: ws
           | [] => [String c EmptyString]
           end
  end.

Fixpoint str_all (f : ascii -> bool) (s : string) : bool :=
  match s with EmptyString => true | String c r => f c && str_all f r end.

Lemma str_all_app f s t : str_all f (s +:+ t) = str_all f s && str_all f t.
Proof. induction s as [|c s IH]; cbn; [done|]. by rewrite IH, andb_assoc. Qed.

Lemma str_in_app c s t : str_in c (s +:+ t) = str_in c s || str_in c t.
Proof. induction s as [|a s IH]; simpl; [done|]. by rewrite IH, orb_assoc. Qed.

Lemma str_app_assoc (s t u : string) : (s +:+ t) +:+ u = s +:+ (t +:+ u).
Proof. induction s as [|a s IH]; simpl; [done|]. by rewrite IH. Qed.

Lemma str_app_nil_r (s : string) : s +:+ "" = s.
Proof. induction s as [|a s IH]; simpl; [done|]. by rewrite IH. Qed.

Lemma str_app_inj_l (s t u : string) : s +:+ t = s +:+ u -> t = u.
Proof. induction s; simpl; [done|]. intros [= H]; auto. Qed.

(** The field in front of the first separator is determined by the text. *)
Lemma first_sep_inj c s1 s2 t1 t2 :
  str_in c s1 = false -> str_in c s2 = false ->
  s1 +:+ String c t1 = s2 +:+ String c t2 -> s1 = s2 /\ t1 = t2.
Proof.
  revert s2. induction s1 as [|a s1 IH]; intros [|b s2]; simpl; intros H1 H2 [= ].
  - done.
  - subst. by rewrite Ascii.eqb_refl in H2.
  - subst. by rewrite Ascii.eqb_refl in H1.
  - subst. apply orb_false_elim in H1 as [_ H1]. apply orb_false_elim in H2 as [_ H2].
    destruct (IH s2 H1 H2) as [-> ->]; done.
Qed.

(** The field behind the last separator is determined by the text. *)
Lemma last_sep_inj c s1 s2 t1 t2 :
  str_in c t1 = false -> str_in c t2 = false ->
  s1 +:+ String c t1 = s2 +:+ String c t2 -> s1 = s2 /\ t1 = t2.
Proof.
  intros H1 H2. revert s2. induction s1 as [|a s1 IH]; intros [|b s2]; simpl; intros [= ].
  - done.
  - subst. by rewrite str_in_app in H1; simpl in H1; rewrite Ascii.eqb_refl, orb_true_r in H1.
  - subst. by rewrite str_in_app in H2; simpl in H2; rewrite Ascii.eqb_refl, orb_true_r in H2.
  - destruct (IH s2) as [-> ->]; [done|]. split; congruence.
Qed.

Create HintDb go discriminated.
Create Rewrite HintDb gorw.
#[export] Hint Resolve elem_of_splice : go.
#[export] Hint Rewrite @result_bind_ok @outcome_bind_ret : gorw.

(** ** Maps *)

Section maps.
Context {K V : Type} `{Countable K}.

(** Reading a Go map whose zero value is [d]. *)
Definition get_default (d : V) (m : gmap K V) (k : K) : V := default d (m !! k).

Lemma get_default_insert d m k v k' :
  get_default d (<[k := v]> m) k' = if decide (k = k') then v else get_default d m k'.
Proof. unfold get_default. rewrite lookup_insert. by case_decide. Qed.
End maps.
