(* ===== verification/Sha256.v ===== *)
(** SHA-256 and lower-case hex, as crypto/sha256 and encoding/hex compute
    them: every hash of the repository is [hex_sha256] of a byte string. *)

From S2P Require Import Prelude.

(** ** 32-bit words *)

Definition mask32 : Z := 4294967295.
Definition w32 (x : Z) : Z := Z.land x mask32.
Definition add32 (x y : Z) : Z := w32 (x + y).
Definition not32 (x : Z) : Z := Z.lxor x mask32.
Definition rotr (n x : Z) : Z := w32 (Z.lor (Z.shiftr x n) (Z.shiftl x (32 - n))).

Definition big_sigma0 x := Z.lxor (Z.lxor (rotr 2 x) (rotr 13 x)) (rotr 22 x).
Definition big_sigma1 x := Z.lxor (Z.lxor (rotr 6 x) (rotr 11 x)) (rotr 25 x).
Definition small_sigma0 x := Z.lxor (Z.lxor (rotr 7 x) (rotr 18 x)) (Z.shiftr x 3).
Definition small_sigma1 x := Z.lxor (Z.lxor (rotr 17 x) (rotr 19 x)) (Z.shiftr x 10).
Definition ch x y z := Z.lxor (Z.land x y) (Z.land (not32 x) z).
Definition maj x y z := Z.lxor (Z.lxor (Z.land x y) (Z.land x z)) (Z.land y z).

Definition round_constants : list Z :=
  [1116352408; 1899447441; 3049323471; 3921009573; 961987163; 1508970993; 2453635748; 2870763221;
   3624381080; 310598401; 607225278; 1426881987; 1925078388; 2162078206; 2614888103; 3248222580;
   3835390401; 4022224774; 264347078; 604807628; 770255983; 1249150122; 1555081692; 1996064986;
   2554220882; 2821834349; 2952996808; 3210313671; 3336571891; 3584528711; 113926993; 338241895;
   666307205; 773529912; 1294757372; 1396182291; 1695183700; 1986661051; 2177026350; 2456956037;
   2730485921; 2820302411; 3259730800; 3345764771; 3516065817; 3600352804; 4094571909; 275423344;
   430227734; 506948616; 659060556; 883997877; 958139571; 1322822218; 1537002063; 1747873779;
   1955562222; 2024104815; 2227730452; 2361852424; 2428436474; 2756734187; 3204031479; 3329325298].

Record digest := Digest { ha : Z; hb : Z; hc : Z; hd : Z; he : Z; hf : Z; hg : Z; hh : Z }.

Definition initial_digest : digest :=
  Digest 1779033703 3144134277 1013904242 2773480762 1359893119 2600822924 528734635 1541459225.

(** ** Message schedule and compression *)

Fixpoint bytes_of (s : string) : list Z :=
  match s with
  | EmptyString => []
  | String c s' => Z.of_nat (Ascii.nat_of_ascii c) :: bytes_of s'
  end.

Definition be_bytes (n : nat) (x : Z) : list Z :=
  map (fun i => Z.land (Z.shiftr x (8 * Z.of_nat (n - 1 - i))) 255) (seq 0 n).

Definition padding (len : nat) : list Z :=
  128 :: replicate (Z.to_nat ((55 - Z.of_nat len) mod 64)) 0 ++ be_bytes 8 (8 * Z.of_nat len).

Fixpoint words_of (bs : list Z) : list Z :=
  match bs with
  | a :: b :: c :: d :: r =>
      Z.lor (Z.shiftl a 24) (Z.lor (Z.shiftl b 16) (Z.lor (Z.shiftl c 8) d)) :: words_of r
  | _ => []
  end.

(** [extend n w] appends [n] schedule words; [w] is kept newest first. *)
Fixpoint extend (n : nat) (w : list Z) : list Z :=
  match n with
  | O => w
  | S n' =>
      let at_ i := default 0 (w !! i) in
      extend n' (add32 (add32 (small_sigma1 (at_ 1%nat)) (at_ 6%nat))
                       (add32 (small_sigma0 (at_ 14%nat)) (at_ 15%nat)) :: w)
  end.

Definition schedule (block : list Z) : list Z := reverse (extend 48 (reverse block)).

Definition sha_round (d : digest) (kw : Z * Z) : digest :=
  let t1 := add32 (add32 (hh d) (big_sigma1 (he d)))
                  (add32 (ch (he d) (hf d) (hg d)) (add32 (fst kw) (snd kw))) in
  let t2 := add32 (big_sigma0 (ha d)) (maj (ha d) (hb d) (hc d)) in
  Digest (add32 t1 t2) (ha d) (hb d) (hc d) (add32 (hd d) t1) (he d) (hf d) (hg d).

Definition compress (d : digest) (block : list Z) : digest :=
  let e := foldl sha_round d (zip round_constants (schedule block)) in
  Digest (add32 (ha d) (ha e)) (add32 (hb d) (hb e)) (add32 (hc d) (hc e)) (add32 (hd d) (hd e))
         (add32 (he d) (he e)) (add32 (hf d) (hf e)) (add32 (hg d) (hg e)) (add32 (hh d) (hh e)).

Fixpoint blocks (n : nat) (ws : list Z) (d : digest) : digest :=
  match n with
  | O => d
  | S n' => match ws with
            | [] => d
            | _ => blocks n' (drop 16 ws) (compress d (take 16 ws))
            end
  end.

Definition sha256_words (msg : string) : digest :=
  let bs := bytes_of msg in
  let ws := words_of (bs ++ padding (length bs)) in
  blocks (length ws) ws initial_digest.

(** ** Hex *)

Definition hex_alphabet : list ascii :=
  ["0"; "1"; "2"; "3"; "4"; "5"; "6"; "7"; "8"; "9"; "a"; "b"; "c"; "d"; "e"; "f"]%char.

Definition hex_digit (n : Z) : ascii := nth (Z.to_nat (Z.land n 15)) hex_alphabet "0"%char.

Definition hex_word (w : Z) (rest : string) : string :=
  String (hex_digit (Z.shiftr w 28)) (String (hex_digit (Z.shiftr w 24))
  (String (hex_digit (Z.shiftr w 20)) (String (hex_digit (Z.shiftr w 16))
  (String (hex_digit (Z.shiftr w 12)) (String (hex_digit (Z.shiftr w 8))
  (String (hex_digit (Z.shiftr w 4)) (String (hex_digit w) rest))))))).

(** [hex.EncodeToString(sha256.Sum256(msg))] *)
Definition hex_sha256 (msg : string) : string :=
  let d := sha256_words msg in
  hex_word (ha d) (hex_word (hb d) (hex_word (hc d) (hex_word (hd d)
  (hex_word (he d) (hex_word (hf d) (hex_word (hg d) (hex_word (hh d) EmptyString))))))).

(** ** Test vectors and the shape of a digest *)

Example sha256_abc :
  hex_sha256 "abc" = "ba7816bf8f01cfea414140de5dae2223b00361a396177a9cb410ff61f20015ad".
Proof. vm_compute. reflexivity. Qed.

Example sha256_two_blocks :
  hex_sha256 "abcdbcdecdefdefgefghfghighijhijkijkljklmklmnlmnomnopnopq" =
  "248d6a61d20638b8e5c026930c3e6039a33ce45964ff2167f6ecedd419db06c1".
Proof. vm_compute. reflexivity. Qed.

Lemma hex_digit_ne (c : ascii) (n : Z) : c ∉ hex_alphabet -> Ascii.eqb (hex_digit n) c = false.
Proof.
  intros Hc. apply Ascii.eqb_neq. intros <-. apply Hc.
  unfold hex_digit. apply list_elem_of_In.
  destruct (nth_in_or_default (Z.to_nat (Z.land n 15)) hex_alphabet "0"%char) as [H| ->]; [done|].
  by left.
Qed.

Lemma str_in_hex_word c w rest :
  c ∉ hex_alphabet -> str_in c (hex_word w rest) = str_in c rest.
Proof. intros Hc. unfold hex_word. cbn [str_in]. by rewrite !(hex_digit_ne c _ Hc). Qed.

Lemma bar_not_hex : bar ∉ hex_alphabet.
Proof. apply (bool_decide_unpack _). vm_compute. exact I. Qed.

Lemma hex_sha256_no_bar msg : str_in bar (hex_sha256 msg) = false.
Proof. unfold hex_sha256. rewrite !str_in_hex_word by apply bar_not_hex. reflexivity. Qed.

(** A property of all hexadecimal digits holds of every byte of a digest. *)
Lemma hex_digit_all f n : forallb f hex_alphabet = true -> f (hex_digit n) = true.
Proof.
  intros Hf. apply (proj1 (forallb_forall _ _) Hf), nth_In. cbn.
  pose proof (Z.land_ones n 4 ltac:(lia)) as Hl. change (Z.ones 4) with 15 in Hl. rewrite Hl.
  pose proof (Z.mod_pos_bound n (2 ^ 4) ltac:(lia)). lia.
Qed.

Lemma str_all_hex_word f w rest :
  forallb f hex_alphabet = true -> str_all f (hex_word w rest) = str_all f rest.
Proof. intros Hf. unfold hex_word. cbn [str_all]. by rewrite !hex_digit_all. Qed.

Lemma hex_sha256_all f msg : forallb f hex_alphabet = true -> str_all f (hex_sha256 msg) = true.
Proof. intros Hf. unfold hex_sha256. by rewrite !str_all_hex_word. Qed.

Lemma length_hex_word w rest :
  String.length (hex_word w rest) = (8 + String.length rest)%nat.
Proof. reflexivity. Qed.

Lemma hex_sha256_length msg : String.length (hex_sha256 msg) = 64%nat.
Proof. unfold hex_sha256. rewrite !length_hex_word. reflexivity. Qed.

Lemma hex_sha256_nonempty msg : hex_sha256 msg <> EmptyString.
Proof. intros H. pose proof (hex_sha256_length msg) as Hl. rewrite H in Hl. discriminate. Qed.

#[export] Hint Resolve hex_sha256_no_bar hex_sha256_nonempty : go.
#[global] Opaque hex_sha256.
