(* ===== verification/GoTime.v ===== *)
(** Instants and their RFC 3339 rendering: [time.Time] as the repository uses
    it (comparison, [Add], [IsZero], [Format]). *)

From S2P Require Import Prelude Sha256.

(** An instant in nanoseconds since the Unix epoch and the zone offset, in
    seconds east of UTC, it is displayed in. *)
Record time := Time { unix_nano : Z; zone : Z }.

#[export] Instance time_eq_dec : EqDecision time.
Proof. solve_decision. Defined.

Definition second : Z := 1000000000.
Definition minute : Z := 60 * second.
Definition hour : Z := 60 * minute.

Definition t_before (a b : time) : bool := unix_nano a <? unix_nano b.
Definition t_after (a b : time) : bool := unix_nano b <? unix_nano a.
Definition t_equal (a b : time) : bool := unix_nano a =? unix_nano b.
Definition t_add (a : time) (d : Z) : time := Time (unix_nano a + d) (zone a).

(** The zero [time.Time]: January 1, year 1, 00:00:00 UTC. *)
Definition zero_time : time := Time (-62135596800 * second) 0.
Definition is_zero (t : time) : bool := unix_nano t =? unix_nano zero_time.

Lemma t_after_before a b : t_after a b = t_before b a.
Proof. done. Qed.

(** ** Civil dates (proleptic Gregorian) *)

Definition civil_from_days (z0 : Z) : Z * Z * Z :=
  let z := z0 + 719468 in
  let era := z / 146097 in
  let doe := z mod 146097 in
  let yoe := (doe - doe / 1460 + doe / 36524 - doe / 146096) / 365 in
  let doy := doe - (365 * yoe + yoe / 4 - yoe / 100) in
  let mp := (5 * doy + 2) / 153 in
  let d := doy - (153 * mp + 2) / 5 + 1 in
  let m := if mp <? 10 then mp + 3 else mp - 9 in
  (yoe + era * 400 + (if m <=? 2 then 1 else 0), m, d).

(** ** Decimal fields *)

Fixpoint dec_fixed (width : nat) (x : Z) (acc : string) : string :=
  match width with
  | O => acc
  | S w => dec_fixed w (x / 10) (String (hex_digit (x mod 10)) acc)
  end.

Fixpoint dec_width (fuel : nat) (x : Z) : nat :=
  match fuel with
  | O => 1
  | S f => if x <? 10 then 1 else S (dec_width f (x / 10))
  end.

(** [strconv.Itoa]: [Z.log2] bounds the number of decimal digits. *)
Definition dec_nonneg (x : Z) (acc : string) : string :=
  dec_fixed (dec_width (S (Z.to_nat (Z.log2 x))) x) x acc.

Definition itoa (x : Z) : string :=
  if x <? 0 then String "-" (dec_nonneg (- x) EmptyString) else dec_nonneg x EmptyString.

Definition year_field (y : Z) (acc : string) : string :=
  if y <? 0 then String "-" (dec_fixed (Nat.max 4 (dec_width 20 (- y))) (- y) acc)
  else dec_fixed (Nat.max 4 (dec_width 20 y)) y acc.

Fixpoint trim_zeros (s : string) : string :=
  match s with
  | EmptyString => EmptyString
  | String c s' =>
      match trim_zeros s' with
      | EmptyString => if Ascii.eqb c "0" then EmptyString else String c EmptyString
      | t => String c t
      end
  end.

Definition frac_field (ns : Z) : string :=
  if ns =? 0 then EmptyString else String "." (trim_zeros (dec_fixed 9 ns EmptyString)).

Definition zone_field (off : Z) : string :=
  if off =? 0 then "Z" else
  let m := Z.abs off / 60 in
  String (if off <? 0 then "-"%char else "+"%char)
    (dec_fixed 2 (m / 60) (String ":" (dec_fixed 2 (m mod 60) EmptyString))).

Definition format_with (frac : Z -> string) (t : time) : string :=
  let sec := unix_nano t / second + zone t in
  let '(y, m, d) := civil_from_days (sec / 86400) in
  let r := sec mod 86400 in
  year_field y (String "-" (dec_fixed 2 m (String "-" (dec_fixed 2 d (String "T"
    (dec_fixed 2 (r / 3600) (String ":" (dec_fixed 2 (r / 60 mod 60) (String ":"
      (dec_fixed 2 (r mod 60) (frac (unix_nano t mod second) +:+ zone_field (zone t)))))))))))).

(** Layout ["2006-01-02T15:04:05.999999999Z07:00"]. *)
Definition format_rfc3339nano (t : time) : string := format_with frac_field t.

(** Layout ["2006-01-02T15:04:05Z07:00"]. *)
Definition format_rfc3339 (t : time) : string := format_with (fun _ => EmptyString) t.

Definition t_utc (t : time) : time := Time (unix_nano t) 0.

Example format_epoch : format_rfc3339nano (Time 0 0) = "1970-01-01T00:00:00Z".
Proof. reflexivity. Qed.

Example format_frac :
  format_rfc3339nano (Time 1767323045120000000 19800) = "2026-01-02T08:34:05.12+05:30".
Proof. reflexivity. Qed.

Example format_zero : format_rfc3339 zero_time = "0001-01-01T00:00:00Z".
Proof. reflexivity. Qed.

Example format_leap : format_rfc3339 (Time (1709164800 * second) (-3600)) = "2024-02-28T23:00:00-01:00".
Proof. reflexivity. Qed.

(** ** The rendering never contains the proof chain's separator *)

Lemma str_in_dec_fixed c w x acc :
  c ∉ hex_alphabet -> str_in c (dec_fixed w x acc) = str_in c acc.
Proof.
  intros Hc. revert x acc. induction w as [|w IH]; intros x acc; [done|].
  cbn [dec_fixed]. rewrite IH. cbn [str_in]. by rewrite hex_digit_ne.
Qed.

Lemma str_in_trim_zeros c s : str_in c s = false -> str_in c (trim_zeros s) = false.
Proof.
  induction s as [|a s IH]; [done|]. cbn [str_in trim_zeros].
  intros [Ha Hs]%orb_false_elim. specialize (IH Hs).
  destruct (trim_zeros s) as [|b t].
  - case_match; cbn [str_in]; [done|]. by rewrite Ha.
  - cbn [str_in] in *. by rewrite Ha.
Qed.

Lemma frac_field_no_bar ns : str_in bar (frac_field ns) = false.
Proof.
  unfold frac_field. case_match; [done|]. cbn [str_in].
  rewrite str_in_trim_zeros; [done|]. by rewrite str_in_dec_fixed by apply bar_not_hex.
Qed.

Lemma zone_field_no_bar off : str_in bar (zone_field off) = false.
Proof.
  unfold zone_field. case_match; [done|]. cbn [str_in].
  rewrite str_in_dec_fixed by apply bar_not_hex. cbn [str_in].
  rewrite str_in_dec_fixed by apply bar_not_hex. by destruct (off <? 0).
Qed.

Lemma year_field_no_bar y acc : str_in bar (year_field y acc) = str_in bar acc.
Proof.
  unfold year_field. case_match; cbn [str_in]; by rewrite str_in_dec_fixed by apply bar_not_hex.
Qed.

Lemma format_rfc3339nano_no_bar t : str_in bar (format_rfc3339nano t) = false.
Proof.
  unfold format_rfc3339nano, format_with. destruct (civil_from_days _) as [[y m] d].
  rewrite year_field_no_bar.
  repeat (cbn [str_in]; rewrite str_in_dec_fixed by apply bar_not_hex).
  rewrite str_in_app, frac_field_no_bar, zone_field_no_bar. done.
Qed.
#[export] Hint Resolve format_rfc3339nano_no_bar : go.
