(* ===== verification/Json.v ===== *)
(** encoding/json as the repository uses it: the string quoting and map
    printing of [Marshal], the scanner behind [Unmarshal] into [any], and the
    field lookup of [Unmarshal] into a struct (case-folded names, last
    duplicate wins, [null] leaves the field alone, a type mismatch is
    reported after the other fields are set).

    Number literals are kept as text.  The nesting limit of 10000 is not
    modelled. *)

From S2P Require Import Prelude Sha256 GoTime.

#[local] Set Warnings "-register-all".

Inductive json :=
| JNull
| JBool (b : bool)
| JNum (lit : string)
| JStr (s : string)
| JArr (l : list json)
| JObj (l : list (string * json)).

Definition dquote : ascii := "034".
Definition byte (c : ascii) : Z := Z.of_nat (nat_of_ascii c).
Definition of_byte (z : Z) : ascii := ascii_of_nat (Z.to_nat z).

(** ** UTF-8 *)

Definition in_range (lo hi x : Z) : bool := (lo <=? x) && (x <=? hi).
Definition cont (c : ascii) : bool := in_range 128 191 (byte c).

(** Length of the well-formed multi-byte sequence at the head, 0 if none. *)
Definition rune_len (s : string) : nat :=
  match s with
  | String c0 (String c1 r) =>
      let b0 := byte c0 in let b1 := byte c1 in
      if in_range 194 223 b0 then (if cont c1 then 2 else 0)%nat
      else match r with
      | String c2 r' =>
          if in_range 224 239 b0 then
            (if in_range (if b0 =? 224 then 160 else 128) (if b0 =? 237 then 159 else 191) b1 && cont c2
             then 3%nat else 0%nat)
          else match r' with
          | String c3 _ =>
              if in_range 240 244 b0 then
                (if in_range (if b0 =? 240 then 144 else 128) (if b0 =? 244 then 143 else 191) b1
                    && cont c2 && cont c3 then 4%nat else 0%nat)
              else 0%nat
          | _ => 0%nat
          end
      | _ => 0%nat
      end
  | _ => 0%nat
  end.

Definition utf8_encode (r : Z) (rest : string) : string :=
  if r <? 128 then String (of_byte r) rest
  else if r <? 2048 then
    String (of_byte (192 + r / 64)) (String (of_byte (128 + r mod 64)) rest)
  else if r <? 65536 then
    String (of_byte (224 + r / 4096)) (String (of_byte (128 + r / 64 mod 64))
      (String (of_byte (128 + r mod 64)) rest))
  else
    String (of_byte (240 + r / 262144)) (String (of_byte (128 + r / 4096 mod 64))
      (String (of_byte (128 + r / 64 mod 64)) (String (of_byte (128 + r mod 64)) rest))).

(** ** Marshal: strings *)

Definition u_escape (hi lo : Z) (rest : string) : string :=
  String "\" (String "u" (String (hex_digit (hi / 16)) (String (hex_digit hi)
    (String (hex_digit (lo / 16)) (String (hex_digit lo) rest))))).

Definition escape (c : ascii) (rest : string) : string :=
  let b := byte c in
  if (b =? 34) || (b =? 92) then String "\" (String c rest)
  else if b =? 8 then String "\" (String "b" rest)
  else if b =? 12 then String "\" (String "f" rest)
  else if b =? 10 then String "\" (String "n" rest)
  else if b =? 13 then String "\" (String "r" rest)
  else if b =? 9 then String "\" (String "t" rest)
  else if (b <? 32) || (b =? 60) || (b =? 62) || (b =? 38) then u_escape 0 b rest
  else String c rest.

(** [skip] bytes of the sequence at the head are still to be handled;
    [copy] says whether they are printed (U+2028 and U+2029 are escaped). *)
Fixpoint quote_body (skip : nat) (copy : bool) (s : string) (rest : string) : string :=
  match s with
  | EmptyString => rest
  | String c r =>
      match skip with
      | S k => if copy then String c (quote_body k copy r rest) else quote_body k copy r rest
      | O =>
          if byte c <? 128 then escape c (quote_body 0 true r rest)
          else match rune_len s with
          | S (S k) =>
              if String.prefix (String "226" (String "128" (String "168" EmptyString))) s
              then u_escape 32 40 (quote_body 2 false r rest)
              else if String.prefix (String "226" (String "128" (String "169" EmptyString))) s
              then u_escape 32 41 (quote_body 2 false r rest)
              else String c (quote_body (S k) true r rest)
          | _ => u_escape 255 253 (quote_body 0 true r rest)
          end
      end
  end.

Definition quote_onto (s rest : string) : string :=
  String dquote (quote_body 0 true s (String dquote rest)).
Definition quote (s : string) : string := quote_onto s EmptyString.

(** ** Marshal: values.  A map prints its keys in byte order. *)

Fixpoint insert_field {A} (k : string) (v : A) (l : list (string * A)) : list (string * A) :=
  match l with
  | [] => [(k, v)]
  | (k', v') :: r =>
      if String.ltb k k' then (k, v) :: l
      else if String.eqb k k' then (k, v) :: r
      else (k', v') :: insert_field k v r
  end.

(** The entries of a Go map in key order; of duplicates the last one counts. *)
Definition sort_fields {A} (l : list (string * A)) : list (string * A) :=
  foldl (fun acc kv => insert_field (fst kv) (snd kv) acc) [] l.

Fixpoint join (sep : string) (l : list string) : string :=
  match l with
  | [] => EmptyString
  | [x] => x
  | x :: r => x +:+ (sep +:+ join sep r)
  end.

(** A JSON object from member names and the raw text of their values. *)
Definition obj_text (fields : list (string * string)) : string :=
  "{" +:+ (join "," (map (fun '(k, raw) => quote_onto k (":" +:+ raw)) fields) +:+ "}").

(** [json.MarshalIndent(v, "", "  ")]: an object at nesting depth [d] has its
    members on lines of their own; an empty one stays [{}]. *)
Fixpoint spaces (n : nat) : string :=
  match n with O => EmptyString | S n' => String " " (spaces n') end.
Definition newline (d : nat) : string := String "010" (spaces (2 * d)).

Definition obj_text_with (open close sp : string) (fields : list (string * string)) : string :=
  "{" +:+ (open +:+ (join ("," +:+ open)
     (map (fun '(k, raw) => quote_onto k (":" +:+ (sp +:+ raw))) fields) +:+ (close +:+ "}"))).

Definition obj_indent (d : nat) (fields : list (string * string)) : string :=
  match fields with
  | [] => "{}"
  | _ => obj_text_with (newline (S d)) (newline d) " " fields
  end.

Fixpoint print (v : json) : string :=
  match v with
  | JNull => "null"
  | JBool true => "true"
  | JBool false => "false"
  | JNum lit => lit
  | JStr s => quote s
  | JArr l => "[" +:+ (join "," (map print l) +:+ "]")
  | JObj l => obj_text (sort_fields (map (fun '(k, x) => (k, print x)) l))
  end.

(** ** Unmarshal: the scanner *)

Definition hex_value (c : ascii) : option Z :=
  let b := byte c in
  if in_range 48 57 b then Some (b - 48)
  else if in_range 97 102 b then Some (b - 87)
  else if in_range 65 70 b then Some (b - 55)
  else None.

Definition hex4 (a b c d : ascii) : option Z :=
  match hex_value a, hex_value b, hex_value c, hex_value d with
  | Some w, Some x, Some y, Some z => Some (4096 * w + 256 * x + 16 * y + z)
  | _, _, _, _ => None
  end.

Definition cons_char (c : ascii) (r : option (string * string)) : option (string * string) :=
  match r with Some (s, rest) => Some (String c s, rest) | None => None end.
Definition cons_rune (z : Z) (r : option (string * string)) : option (string * string) :=
  match r with Some (s, rest) => Some (utf8_encode z s, rest) | None => None end.

Definition simple_escape (c : ascii) : option ascii :=
  let b := byte c in
  if (b =? 34) || (b =? 92) || (b =? 47) then Some c
  else if b =? 98 then Some "008"%char
  else if b =? 102 then Some "012"%char
  else if b =? 110 then Some "010"%char
  else if b =? 114 then Some "013"%char
  else if b =? 116 then Some "009"%char
  else None.

(** Scan the body of a string literal, after its opening quote. *)
Fixpoint scan_str (copy : nat) (s : string) : option (string * string) :=
  match s with
  | EmptyString => None
  | String c r =>
      match copy with
      | S k => cons_char c (scan_str k r)
      | O =>
          let b := byte c in
          if b =? 34 then Some (EmptyString, r)
          else if b <? 32 then None
          else if b <? 128 then
            if negb (b =? 92) then cons_char c (scan_str 0 r)
            else match r with
            | String e r' =>
                if byte e =? 117 then
                  match r' with
                  | String h1 (String h2 (String h3 (String h4 r4))) =>
                      match hex4 h1 h2 h3 h4 with
                      | None => None
                      | Some u =>
                          let single := if in_range 55296 57343 u then cons_rune 65533 (scan_str 0 r4)
                                        else cons_rune u (scan_str 0 r4) in
                          if in_range 55296 56319 u then
                            match r4 with
                            | String b1 (String b2 (String k1 (String k2 (String k3 (String k4 r6))))) =>
                                if (byte b1 =? 92) && (byte b2 =? 117) then
                                  match hex4 k1 k2 k3 k4 with
                                  | Some l => if in_range 56320 57343 l
                                              then cons_rune (65536 + (u - 55296) * 1024 + (l - 56320))
                                                     (scan_str 0 r6)
                                              else single
                                  | None => single
                                  end
                                else single
                            | _ => single
                            end
                          else single
                      end
                  | _ => None
                  end
                else match simple_escape e with
                     | Some x => cons_char x (scan_str 0 r')
                     | None => None
                     end
            | EmptyString => None
            end
          else match rune_len s with
               | S (S k) => cons_char c (scan_str (S k) r)
               | _ => cons_rune 65533 (scan_str 0 r)
               end
      end
  end.

Definition is_ws (c : ascii) : bool :=
  (byte c =? 32) || (byte c =? 9) || (byte c =? 10) || (byte c =? 13).

Fixpoint skip_ws (s : string) : string :=
  match s with
  | String c r => if is_ws c then skip_ws r else s
  | EmptyString => EmptyString
  end.

Definition is_digit (c : ascii) : bool := in_range 48 57 (byte c).

Fixpoint span_digits (s : string) : string * string :=
  match s with
  | String c r => if is_digit c then let '(d, t) := span_digits r in (String c d, t) else (EmptyString, s)
  | EmptyString => (EmptyString, EmptyString)
  end.

Definition scan_frac (s : string) : option (string * string) :=
  match s with
  | String "." r => match span_digits r with
                    | (EmptyString, _) => None
                    | (d, t) => Some (String "." d, t)
                    end
  | _ => Some (EmptyString, s)
  end.

Definition scan_exp (s : string) : option (string * string) :=
  match s with
  | String e r =>
      if (byte e =? 101) || (byte e =? 69) then
        let '(sg, r') := match r with
                         | String c r2 => if (byte c =? 43) || (byte c =? 45)
                                          then (String c EmptyString, r2) else (EmptyString, r)
                         | EmptyString => (EmptyString, r)
                         end in
        match span_digits r' with
        | (EmptyString, _) => None
        | (d, t) => Some (String e (sg +:+ d), t)
        end
      else Some (EmptyString, s)
  | EmptyString => Some (EmptyString, EmptyString)
  end.

Definition scan_num (s : string) : option (string * string) :=
  let '(sg, r) := match s with
                  | String "-" r => (String "-" EmptyString, r)
                  | _ => (EmptyString, s)
                  end in
  let int := match r with
             | String "0" t => Some (String "0" EmptyString, t)
             | _ => match span_digits r with
                    | (EmptyString, _) => None
                    | dt => Some dt
                    end
             end in
  match int with
  | None => None
  | Some (d, t) =>
      match scan_frac t with
      | None => None
      | Some (f, t') =>
          match scan_exp t' with
          | None => None
          | Some (e, t'') => Some (sg +:+ (d +:+ (f +:+ e)), t'')
          end
      end
  end.

Fixpoint str_drop (n : nat) (s : string) : string :=
  match n, s with
  | S k, String _ r => str_drop k r
  | _, _ => s
  end.

Fixpoint str_take (n : nat) (s : string) : string :=
  match n, s with
  | S k, String c r => String c (str_take k r)
  | _, _ => EmptyString
  end.

(** The text consumed between [s] and its suffix [rest]. *)
Definition consumed (s rest : string) : string :=
  str_take (String.length s - String.length rest) s.

Definition member : Type := string * (string * json).

(** [scan_value] reads one value; [scan_members] and [scan_elems] read the
    inside of an object or array up to its closing bracket, the members with
    the raw text of their values.  Every call consumes a byte, so a fuel of
    twice the text's length is never exhausted. *)
Fixpoint scan_value (fuel : nat) (s : string) : option (json * string) :=
  match fuel with
  | O => None
  | S f =>
      match s with
      | EmptyString => None
      | String c r =>
          if byte c =? 34 then
            match scan_str 0 r with Some (t, rest) => Some (JStr t, rest) | None => None end
          else if Ascii.eqb c "{" then
            match skip_ws r with
            | String "}" rest => Some (JObj [], rest)
            | _ => match scan_members f (skip_ws r) with
                   | Some (ms, rest) => Some (JObj (map (fun m => (fst m, snd (snd m))) ms), rest)
                   | None => None
                   end
            end
          else if Ascii.eqb c "[" then
            match skip_ws r with
            | String "]" rest => Some (JArr [], rest)
            | _ => match scan_elems f (skip_ws r) with
                   | Some (l, rest) => Some (JArr l, rest)
                   | None => None
                   end
            end
          else if String.prefix "null" s then Some (JNull, str_drop 4 s)
          else if String.prefix "true" s then Some (JBool true, str_drop 4 s)
          else if String.prefix "false" s then Some (JBool false, str_drop 5 s)
          else match scan_num s with Some (lit, rest) => Some (JNum lit, rest) | None => None end
      end
  end
with scan_members (fuel : nat) (s : string) : option (list member * string) :=
  match fuel with
  | O => None
  | S f =>
      match s with
      | String c r =>
          if byte c =? 34 then
            match scan_str 0 r with
            | None => None
            | Some (k, r1) =>
                match skip_ws r1 with
                | String ":" r2 =>
                    let r3 := skip_ws r2 in
                    match scan_value f r3 with
                    | None => None
                    | Some (v, r4) =>
                        let m := (k, (consumed r3 r4, v)) in
                        match skip_ws r4 with
                        | String "," r5 =>
                            match scan_members f (skip_ws r5) with
                            | Some (ms, rest) => Some (m :: ms, rest)
                            | None => None
                            end
                        | String "}" rest => Some ([m], rest)
                        | _ => None
                        end
                    end
                | _ => None
                end
            end
          else None
      | EmptyString => None
      end
  end
with scan_elems (fuel : nat) (s : string) : option (list json * string) :=
  match fuel with
  | O => None
  | S f =>
      match scan_value f s with
      | None => None
      | Some (v, r) =>
          match skip_ws r with
          | String "," r' =>
              match scan_elems f (skip_ws r') with
              | Some (l, rest) => Some (v :: l, rest)
              | None => None
              end
          | String "]" rest => Some ([v], rest)
          | _ => None
          end
      end
  end.

Definition fuel_for (s : string) : nat := 2 * String.length s + 2.

(** [json.Unmarshal(data, &v)] for [v any]; [None] is a syntax error. *)
Definition unmarshal (s : string) : option json :=
  match scan_value (fuel_for s) (skip_ws s) with
  | Some (v, rest) => match skip_ws rest with EmptyString => Some v | _ => None end
  | None => None
  end.

(** The top-level value as the struct and map decoders see it. *)
Inductive doc :=
| DocObject (ms : list member)
| DocNull
| DocOther
| DocSyntaxError.

Definition unmarshal_doc (s : string) : doc :=
  match unmarshal s with
  | None => DocSyntaxError
  | Some JNull => DocNull
  | Some (JObj _) =>
      match skip_ws s with
      | String _ r =>
          match skip_ws r with
          | String "}" _ => DocObject []
          | r' => match scan_members (fuel_for s) r' with
                  | Some (ms, _) => DocObject ms
                  | None => DocSyntaxError
                  end
          end
      | EmptyString => DocSyntaxError
      end
  | Some _ => DocOther
  end.

(** ** Unmarshal: struct fields *)

Definition lower (c : ascii) : ascii :=
  if in_range 65 90 (byte c) then of_byte (byte c + 32) else c.
Fixpoint lower_str (s : string) : string :=
  match s with
  | String c r => String (lower c) (lower_str r)
  | EmptyString => EmptyString
  end.

Definition named (name : string) (ms : list member) : list member :=
  filter (fun m => lower_str (fst m) = lower_str name) ms.

(** Each decoder returns the field's value and whether a value of the wrong
    type was met on the way. *)
Definition dec_str (name : string) (ms : list member) : string * bool :=
  foldl (fun acc m => match snd (snd m) with
                      | JStr s => (s, snd acc)
                      | JNull => acc
                      | _ => (fst acc, true)
                      end) (EmptyString, false) (named name ms).

Definition dec_bool (name : string) (ms : list member) : bool * bool :=
  foldl (fun acc m => match snd (snd m) with
                      | JBool b => (b, snd acc)
                      | JNull => acc
                      | _ => (fst acc, true)
                      end) (false, false) (named name ms).

(** [json.RawMessage]: the raw text, the four bytes [null] included. *)
Definition dec_raw (name : string) (ms : list member) : string :=
  foldl (fun _ m => fst (snd m)) EmptyString (named name ms).

Fixpoint digits_value (acc : Z) (s : string) : option Z :=
  match s with
  | EmptyString => Some acc
  | String c r => if is_digit c then digits_value (10 * acc + (byte c - 48)) r else None
  end.

(** [strconv.ParseInt(lit, 10, 64)] on a JSON number literal. *)
Definition parse_int64 (lit : string) : option Z :=
  let z := match lit with
           | String "-" r => match digits_value 0 r with Some n => Some (- n) | None => None end
           | _ => digits_value 0 lit
           end in
  match z with
  | Some n => if in_range (- 2 ^ 63) (2 ^ 63 - 1) n then Some n else None
  | None => None
  end.

Definition dec_int (name : string) (ms : list member) : Z * bool :=
  foldl (fun acc m => match snd (snd m) with
                      | JNum lit => match parse_int64 lit with
                                    | Some n => (n, snd acc)
                                    | None => (fst acc, true)
                                    end
                      | JNull => acc
                      | _ => (fst acc, true)
                      end) (0, false) (named name ms).

(** A map read back: [obj[name]] of a decoded [map[string]any]. *)
Definition lookup_field {A} (name : string) (l : list (string * A)) : option A :=
  foldl (fun acc kv => if String.eqb (fst kv) name then Some (snd kv) else acc) None l.
