(* ===== verification/GoStrings.v ===== *)
(** strings.TrimSpace and the lines of a text, as several packages use them. *)

From S2P Require Import Prelude Json.

(** The white space of [strings.TrimSpace], in UTF-8. *)
Definition blanks : list string :=
  let b := map (fun z => ascii_of_nat z) in
  map String.string_of_list_ascii
    (map (fun z => b [z]) [9; 10; 11; 12; 13; 32]%nat
     ++ [b [194; 133]; b [194; 160]; b [225; 154; 128]; b [227; 128; 128]; b [226; 129; 159]]%nat
     ++ map (fun z => b [226; 128; z]%nat) ([128; 129; 130; 131; 132; 133; 134; 135; 136; 137; 138; 168; 169; 175]%nat)).

Definition of_bytes (l : list Z) : string := String.string_of_list_ascii (map of_byte l).

Definition str_rev (s : string) : string := String.string_of_list_ascii (rev (String.list_ascii_of_string s)).

Fixpoint trim_blanks (fuel : nat) (ws : list string) (s : string) : string :=
  match fuel with
  | O => s
  | Datatypes.S f => match head (filter (fun w => String.prefix w s = true) ws) with
                     | Some w => trim_blanks f ws (str_drop (String.length w) s)
                     | None => s
                     end
  end.

Definition TrimSpace (s : string) : string :=
  let l := trim_blanks (String.length s) blanks s in
  str_rev (trim_blanks (String.length l) (map str_rev blanks) (str_rev l)).

Example trim_space_ex : TrimSpace (String "009" (" a b" +:+ String "226" (String "128" (String "131" EmptyString)))) = "a b".
Proof. vm_compute. reflexivity. Qed.

(** ** A text with nothing to trim *)

Lemma str_rev_app s t : str_rev (s +:+ t) = str_rev t +:+ str_rev s.
Proof.
  unfold str_rev.
  assert (Ha : forall a b, String.list_ascii_of_string (a +:+ b)
    = String.list_ascii_of_string a ++ String.list_ascii_of_string b).
  { induction a as [|c a IH]; intros b; cbn; [done|]. by rewrite IH. }
  assert (Hb : forall a b, String.string_of_list_ascii (a ++ b)
    = String.string_of_list_ascii a +:+ String.string_of_list_ascii b).
  { induction a as [|c a IH]; intros b; cbn; [done|]. by rewrite IH. }
  by rewrite Ha, rev_app_distr, Hb.
Qed.

Lemma str_rev_rev s : str_rev (str_rev s) = s.
Proof.
  unfold str_rev. rewrite String.list_ascii_of_string_of_list_ascii, rev_involutive.
  apply String.string_of_list_ascii_of_string.
Qed.

(** No blank starts, or ends, with the byte [c]. *)
Definition plain (c : ascii) : bool :=
  forallb (fun w => match w with String a _ => negb (Ascii.eqb a c) | _ => false end)
    (blanks ++ map str_rev blanks).

Lemma trim_blanks_plain fuel ws c s :
  forallb (fun w => match w with String a _ => negb (Ascii.eqb a c) | _ => false end) ws = true ->
  trim_blanks fuel ws (String c s) = String c s.
Proof.
  intros H. destruct fuel as [|f]; [done|]. cbn [trim_blanks].
  replace (head _) with (@None string); [done|].
  induction ws as [|w ws IH]; [done|]. cbn [forallb] in H. apply andb_prop in H as [Hw H].
  rewrite filter_cons. destruct w as [|a w]; [done|]. cbn [String.prefix].
  destruct (ascii_dec a c) as [->|]; [by rewrite Ascii.eqb_refl in Hw|]. by apply IH.
Qed.

Lemma TrimSpace_plain c s d :
  plain c = true -> plain d = true -> TrimSpace (String c (s +:+ String d EmptyString)) = String c (s +:+ String d EmptyString).
Proof.
  unfold plain. rewrite !forallb_app. intros [Hc _]%andb_prop [_ Hd]%andb_prop.
  unfold TrimSpace. rewrite trim_blanks_plain by done.
  change (String c (s +:+ String d EmptyString)) with (String c s +:+ String d EmptyString).
  rewrite str_rev_app. change (str_rev (String d EmptyString) +:+ str_rev (String c s))
    with (String d (str_rev (String c s))).
  rewrite trim_blanks_plain by done.
  change (String d (str_rev (String c s))) with (str_rev (String d EmptyString) +:+ str_rev (String c s)).
  by rewrite <- str_rev_app, str_rev_rev.
Qed.

(** ** Lines *)

Definition lf : ascii := "010".

(** Each text followed by a line feed. *)
Fixpoint unlines (ls : list string) : string :=
  match ls with
  | [] => EmptyString
  | l :: r => l +:+ String lf (unlines r)
  end.

Lemma split_on_app c s t : str_in c s = false -> split_on c (s +:+ String c t) = s :: split_on c t.
Proof.
  induction s as [|a s IH]; cbn; [by rewrite Ascii.eqb_refl|].
  intros [-> Hs]%orb_false_elim. by rewrite IH.
Qed.

Lemma split_unlines ls :
  Forall (fun l => str_in lf l = false) ls -> split_on lf (unlines ls) = ls ++ [EmptyString].
Proof. induction 1 as [|l ls Hl Hls IH]; [done|]. cbn [unlines app]. by rewrite split_on_app, IH. Qed.

(** ** Prefixes, suffixes and letters *)

Definition HasPrefix (s p : string) : bool := String.prefix p s.

Definition HasSuffix (s suffix : string) : bool := String.prefix (str_rev suffix) (str_rev s).

Definition TrimPrefix (s p : string) : string := if HasPrefix s p then str_drop (String.length p) s else s.

Definition TrimSuffix (s suffix : string) : string :=
  if HasSuffix s suffix then str_rev (TrimPrefix (str_rev s) (str_rev suffix)) else s.

Definition upper (c : ascii) : ascii := if in_range 97 122 (byte c) then of_byte (byte c - 32) else c.

(** [strings.ToLower] and [strings.ToUpper] as a search for ASCII text sees
    them: an ASCII letter changes, and so do the runes beyond ASCII that have
    an ASCII letter as their other case; the rest keeps its bytes, where Go has
    other bytes beyond ASCII. *)
Definition utf8_kelvin : string := of_bytes [226; 132; 170].
Definition utf8_dotted_I : string := of_bytes [196; 176].
Definition utf8_dotless_i : string := of_bytes [196; 177].
Definition utf8_long_s : string := of_bytes [197; 191].

Fixpoint map_runes (f : ascii -> ascii) (special : list (string * ascii)) (skip : nat) (s : string) : string :=
  match s with
  | EmptyString => EmptyString
  | String c r =>
      match skip with
      | S n => map_runes f special n r
      | O => match List.find (fun p => HasPrefix s (fst p)) special with
             | Some (p, a) => String a (map_runes f special (String.length p - 1) r)
             | None => String (f c) (map_runes f special 0 r)
             end
      end
  end.

Definition ToLower (s : string) : string :=
  map_runes lower [(utf8_kelvin, "k"%char); (utf8_dotted_I, "i"%char)] 0 s.

Definition ToUpper (s : string) : string :=
  map_runes upper [(utf8_dotless_i, "I"%char); (utf8_long_s, "S"%char)] 0 s.

Example cases : ToUpper ("drop" +:+ of_bytes [197; 191]) = "DROPS" /\ ToLower "JavaScript:" = "javascript:"
  /\ TrimPrefix "http://a" "https://" = "http://a" /\ HasSuffix "api.example.com" ".example.com" = true.
Proof. vm_compute. done. Qed.

(** ** The first colon *)

(** [strings.SplitN(s, ":", 2)]: the two parts, if there are two. *)
Fixpoint cut_colon (s : string) : option (string * string) :=
  match s with
  | EmptyString => None
  | String c r => if Ascii.eqb c ":" then Some (EmptyString, r)
                  else match cut_colon r with Some (a, b) => Some (String c a, b) | None => None end
  end.

Lemma cut_colon_no_colon s a b : cut_colon s = Some (a, b) -> str_in ":" a = false.
Proof.
  revert a b. induction s as [|c s IH]; intros a b; cbn [cut_colon]; [done|]. destruct (Ascii.eqb c ":") eqn:Hc.
  - by intros [= <- _].
  - destruct (cut_colon s) as [[a' b']|] eqn:Hs; [|done]. intros [= <- _]. cbn [str_in]. by rewrite Hc, (IH _ _ eq_refl).
Qed.

Lemma cut_colon_app s t : str_in ":" s = false -> cut_colon (s +:+ String ":" t) = Some (s, t).
Proof.
  induction s as [|c s IH]; [reflexivity|]. cbn [str_in]. intros [Hc Hs]%orb_false_elim.
  cbn [String.append cut_colon]. by rewrite Hc, IH.
Qed.

Lemma cut_colon_in s t : str_in ":" s = true -> exists a b, cut_colon (s +:+ t) = Some (a, b +:+ t).
Proof.
  induction s as [|c s IH]; [done|]. cbn [str_in String.append cut_colon]. destruct (Ascii.eqb c ":") eqn:Hc.
  - intros _. by exists EmptyString, s.
  - cbn [orb]. intros Hs. destruct (IH Hs) as (a & b & ->). by exists (String c a), b.
Qed.
