(* ===== verification/Base64.v ===== *)
(** encoding/base64, the standard alphabet with padding: [EncodeToString] and
    [DecodeString], which skips carriage returns and line feeds, and their
    round trip. *)

From S2P Require Import Prelude Json.

Definition sextet_char (n : Z) : ascii :=
  if n <? 26 then of_byte (65 + n)
  else if n <? 52 then of_byte (71 + n)
  else if n <? 62 then of_byte (n - 4)
  else if n =? 62 then "+"%char else "/"%char.

Definition sextet_of (c : ascii) : option Z :=
  let b := byte c in
  if in_range 65 90 b then Some (b - 65)
  else if in_range 97 122 b then Some (b - 71)
  else if in_range 48 57 b then Some (b + 4)
  else if b =? 43 then Some 62
  else if b =? 47 then Some 63
  else None.

Definition pad : ascii := "="%char.

Fixpoint b64_encode (s : string) : string :=
  match s with
  | EmptyString => EmptyString
  | String a EmptyString =>
      String (sextet_char (byte a / 4)) (String (sextet_char (byte a mod 4 * 16))
        (String pad (String pad EmptyString)))
  | String a (String b EmptyString) =>
      String (sextet_char (byte a / 4)) (String (sextet_char (byte a mod 4 * 16 + byte b / 16))
        (String (sextet_char (byte b mod 16 * 4)) (String pad EmptyString)))
  | String a (String b (String c r)) =>
      String (sextet_char (byte a / 4)) (String (sextet_char (byte a mod 4 * 16 + byte b / 16))
        (String (sextet_char (byte b mod 16 * 4 + byte c / 64)) (String (sextet_char (byte c mod 64))
          (b64_encode r))))
  end.

Fixpoint strip_crlf (s : string) : string :=
  match s with
  | EmptyString => EmptyString
  | String c r => if (byte c =? 10) || (byte c =? 13) then strip_crlf r else String c (strip_crlf r)
  end.

(** Quanta of four; padding ends the text.  The unused bits of a last quantum
    are not checked. *)
Fixpoint decode_quanta (s : string) : option string :=
  match s with
  | EmptyString => Some EmptyString
  | String c0 (String c1 (String c2 (String c3 r))) =>
      x0 ← sextet_of c0; x1 ← sextet_of c1;
      match sextet_of c2 with
      | None =>
          if Ascii.eqb c2 pad && Ascii.eqb c3 pad then
            match r with
            | EmptyString => Some (String (of_byte (x0 * 4 + x1 / 16)) EmptyString)
            | _ => None
            end
          else None
      | Some x2 =>
          match sextet_of c3 with
          | None =>
              if Ascii.eqb c3 pad then
                match r with
                | EmptyString => Some (String (of_byte (x0 * 4 + x1 / 16))
                                         (String (of_byte (x1 mod 16 * 16 + x2 / 4)) EmptyString))
                | _ => None
                end
              else None
          | Some x3 =>
              t ← decode_quanta r;
              Some (String (of_byte (x0 * 4 + x1 / 16)) (String (of_byte (x1 mod 16 * 16 + x2 / 4))
                (String (of_byte (x2 mod 4 * 64 + x3)) t)))
          end
      end
  | _ => None
  end.

Definition b64_decode (s : string) : option string := decode_quanta (strip_crlf s).

Example b64_rfc : map b64_encode ["";"f";"fo";"foo";"foob";"fooba";"foobar"]
  = ["";"Zg==";"Zm8=";"Zm9v";"Zm9vYg==";"Zm9vYmE=";"Zm9vYmFy"].
Proof. reflexivity. Qed.

(** ** Round trip *)

Definition sextets : list Z := map Z.of_nat (seq 0 64).

Lemma sextet_table :
  forallb (fun n => bool_decide (sextet_of (sextet_char n) = Some n)
    && negb ((byte (sextet_char n) =? 10) || (byte (sextet_char n) =? 13))) sextets = true.
Proof. vm_compute. reflexivity. Qed.

Lemma sextet_round n :
  0 <= n < 64 -> sextet_of (sextet_char n) = Some n
    /\ ((byte (sextet_char n) =? 10) || (byte (sextet_char n) =? 13)) = false.
Proof.
  intros H. pose proof (proj1 (forallb_forall _ _) sextet_table n) as Ht.
  assert (Hin : List.In n sextets).
  { unfold sextets. apply in_map_iff. exists (Z.to_nat n). split; [lia|]. apply in_seq. lia. }
  specialize (Ht Hin). cbv beta in Ht. apply andb_prop in Ht as [Ha Hb].
  apply bool_decide_eq_true in Ha. by apply negb_true_iff in Hb.
Qed.

Lemma byte_bounds c : 0 <= byte c < 256.
Proof. unfold byte. pose proof (nat_ascii_bounded c). lia. Qed.

Lemma of_byte_byte c z : z = byte c -> of_byte z = c.
Proof. intros ->. unfold of_byte, byte. rewrite Nat2Z.id. apply ascii_nat_embedding. Qed.

Ltac sextet :=
  match goal with
  | |- context [sextet_of (sextet_char ?n)] =>
      rewrite (proj1 (sextet_round n ltac:(Z.to_euclidean_division_equations; lia)))
  | |- context [(byte (sextet_char ?n) =? 10) || _] =>
      rewrite (proj2 (sextet_round n ltac:(Z.to_euclidean_division_equations; lia)))
  end.

Lemma strip_encode n s : (String.length s <= n)%nat -> strip_crlf (b64_encode s) = b64_encode s.
Proof.
  revert s. induction n as [|n IH]; intros [|a [|b [|c r]]] Hn; cbn in Hn; try lia; try done.
  - pose proof (byte_bounds a). cbn [b64_encode strip_crlf]. by repeat sextet.
  - pose proof (byte_bounds a). pose proof (byte_bounds b).
    cbn [b64_encode strip_crlf]. by repeat sextet.
  - pose proof (byte_bounds a). pose proof (byte_bounds b). pose proof (byte_bounds c).
    cbn [b64_encode strip_crlf]. repeat sextet. by rewrite IH by lia.
Qed.

Lemma decode_encode n s : (String.length s <= n)%nat -> decode_quanta (b64_encode s) = Some s.
Proof.
  revert s. induction n as [|n IH]; intros [|a [|b [|c r]]] Hn; cbn in Hn; try lia; try done.
  - pose proof (byte_bounds a). cbn [b64_encode decode_quanta]. repeat sextet. cbn [mbind option_bind].
    cbn. rewrite (of_byte_byte a); [done|]. Z.to_euclidean_division_equations; lia.
  - pose proof (byte_bounds a). pose proof (byte_bounds b).
    cbn [b64_encode decode_quanta]. repeat sextet. cbn [mbind option_bind]. cbn -[Z.div Z.modulo Z.mul Z.add].
    rewrite (of_byte_byte a), (of_byte_byte b); [done|..]; Z.to_euclidean_division_equations; lia.
  - pose proof (byte_bounds a). pose proof (byte_bounds b). pose proof (byte_bounds c).
    cbn [b64_encode decode_quanta]. repeat sextet. cbn [mbind option_bind].
    rewrite IH by lia. cbn [mbind option_bind].
    rewrite (of_byte_byte a), (of_byte_byte b), (of_byte_byte c); [done|..];
      Z.to_euclidean_division_equations; lia.
Qed.

Lemma b64_round_trip s : b64_decode (b64_encode s) = Some s.
Proof. unfold b64_decode. rewrite (strip_encode (String.length s)), (decode_encode (String.length s)); done. Qed.

Lemma b64_encode_empty s : b64_encode s = EmptyString <-> s = EmptyString.
Proof. by destruct s as [|a [|b [|c r]]]. Qed.
