(* ===== verification/TimeParse.v ===== *)
(** The parser behind [time.Time.UnmarshalJSON] for RFC 3339 text
    ([parseRFC3339] of the Go library) and its round trip with the printer of
    [GoTime].  The library's second attempt with the general layout parser,
    which lets one-digit hours and a decimal comma through, is left out: such
    text is an error here. *)

From S2P Require Import Prelude Sha256 GoTime Json.

(** ** Civil dates, the other way *)

Definition is_leap (y : Z) : bool :=
  (y mod 4 =? 0) && (negb (y mod 100 =? 0) || (y mod 400 =? 0)).

Definition daysIn (m y : Z) : Z :=
  if m =? 2 then (if is_leap y then 29 else 28)
  else if (m =? 4) || (m =? 6) || (m =? 9) || (m =? 11) then 30 else 31.

(** Days since the Unix epoch. *)
Definition days_from_civil (y0 m d : Z) : Z :=
  let y := if m <=? 2 then y0 - 1 else y0 in
  let era := y / 400 in
  let yoe := y mod 400 in
  let doy := (153 * (if 2 <? m then m - 3 else m + 9) + 2) / 5 + d - 1 in
  let doe := yoe * 365 + yoe / 4 - yoe / 100 + doy in
  era * 146097 + doe - 719468.

(** ** Fields *)

(** The number in the first [w] bytes, all of them digits, and the rest. *)
Fixpoint take_uint (w : nat) (acc : Z) (s : string) : option (Z * string) :=
  match w with
  | O => Some (acc, s)
  | S w' => match s with
            | String c r => if is_digit c then take_uint w' (10 * acc + (byte c - 48)) r else None
            | EmptyString => None
            end
  end.

Definition field (w : nat) (lo hi : Z) (s : string) : option (Z * string) :=
  match take_uint w 0 s with
  | Some (x, r) => if in_range lo hi x then Some (x, r) else None
  | None => None
  end.

Definition expect (c : ascii) (s : string) : option string :=
  match s with
  | String a r => if Ascii.eqb a c then Some r else None
  | EmptyString => None
  end.

(** Digits beyond the ninth are dropped. *)
Definition parseNanoseconds (digits : string) : Z :=
  let d := str_take 9 digits in
  match digits_value 0 d with
  | Some n => n * 10 ^ (9 - Z.of_nat (String.length d))
  | None => 0
  end.

Definition parse_frac (s : string) : Z * string :=
  match s with
  | String "." r => match span_digits r with
                    | (EmptyString, _) => (0, s)
                    | (d, t) => (parseNanoseconds d, t)
                    end
  | _ => (0, s)
  end.

(** The offset in seconds; the text must end with it. *)
Definition parse_zone (s : string) : option Z :=
  match s with
  | String "Z" EmptyString => Some 0
  | String sign r =>
      if Ascii.eqb sign "+" || Ascii.eqb sign "-" then
        '(hr, r) ← field 2 0 23 r;
        r ← expect ":" r;
        '(mm, r) ← field 2 0 59 r;
        match r with
        | EmptyString => Some (let off := (hr * 60 + mm) * 60 in
                               if Ascii.eqb sign "-" then - off else off)
        | _ => None
        end
      else None
  | EmptyString => None
  end.

Definition parseRFC3339 (s : string) : option time :=
  '(y, s) ← field 4 0 9999 s;
  s ← expect "-" s;
  '(m, s) ← field 2 1 12 s;
  s ← expect "-" s;
  '(d, s) ← field 2 1 (daysIn m y) s;
  s ← expect "T" s;
  '(h, s) ← field 2 0 23 s;
  s ← expect ":" s;
  '(mi, s) ← field 2 0 59 s;
  s ← expect ":" s;
  '(sec, s) ← field 2 0 59 s;
  let '(ns, s) := parse_frac s in
  off ← parse_zone s;
  Some (Time (((days_from_civil y m d * 86400 + h * 3600 + mi * 60 + sec) - off) * second + ns) off).

Example parse_epoch : parseRFC3339 "1970-01-01T00:00:00Z" = Some (Time 0 0).
Proof. reflexivity. Qed.

Example parse_offset :
  parseRFC3339 "2026-01-02T08:34:05.12+05:30" = Some (Time 1767323045120000000 19800).
Proof. reflexivity. Qed.

Example parse_no_leap_day : parseRFC3339 "2026-02-29T00:00:00Z" = None.
Proof. reflexivity. Qed.

(** [Time.MarshalJSON] refuses years outside [0, 9999] and offsets of a day
    or more; offsets with seconds are printed without them. *)
Definition local_year (t : time) : Z :=
  fst (fst (civil_from_days ((unix_nano t / second + zone t) / 86400))).

Definition marshalable (t : time) : bool :=
  in_range 0 9999 (local_year t) && (Z.abs (zone t) <? 86400).

(** ** The calendar *)

Lemma is_leap_shift y k : is_leap (y + k * 400) = is_leap y.
Proof.
  unfold is_leap.
  replace (y + k * 400) with (y + (k * 100) * 4) at 1 by lia. rewrite Z_mod_plus_full.
  replace (y + k * 400) with (y + (k * 4) * 100) at 1 by lia. rewrite Z_mod_plus_full.
  by rewrite Z_mod_plus_full.
Qed.

Lemma daysIn_shift m y k : daysIn m (y + k * 400) = daysIn m y.
Proof. unfold daysIn. by rewrite is_leap_shift. Qed.

(** The year of era and the day of year that [civil_from_days] computes. *)
Definition yoe_of (doe : Z) : Z := (doe - doe / 1460 + doe / 36524 - doe / 146096) / 365.
Definition doy_of (doe : Z) : Z := doe - (365 * yoe_of doe + yoe_of doe / 4 - yoe_of doe / 100).

Lemma yoe_doy_bounds doe :
  0 <= doe < 146097 -> 0 <= yoe_of doe < 400 /\ 0 <= doy_of doe <= 365.
Proof. unfold doy_of, yoe_of. Z.to_euclidean_division_equations; lia. Qed.

Lemma doy_leap doe : 0 <= doe < 146097 -> doy_of doe = 365 -> is_leap (yoe_of doe + 1) = true.
Proof.
  intros H Hd.
  assert ((yoe_of doe + 1) mod 4 = 0
          /\ ((yoe_of doe + 1) mod 100 <> 0 \/ (yoe_of doe + 1) mod 400 = 0)) as [H4 H100].
  { revert Hd. unfold doy_of, yoe_of. Z.to_euclidean_division_equations; lia. }
  unfold is_leap. rewrite H4. cbn.
  destruct H100 as [Hn|Hz]; apply orb_true_iff; [left|right; by rewrite Hz].
  apply negb_true_iff. by apply Z.eqb_neq.
Qed.

(** Month and day of a day of the year that starts on March 1. *)
Lemma month_day doy y :
  0 <= doy <= 365 -> (doy = 365 -> is_leap (y + 1) = true) ->
  let mp := (5 * doy + 2) / 153 in
  let d := doy - (153 * mp + 2) / 5 + 1 in
  0 <= mp <= 11 /\ 1 <= d /\
  d <= daysIn (if mp <? 10 then mp + 3 else mp - 9) (if mp <? 10 then y else y + 1).
Proof.
  intros H Hl mp d.
  assert (Hmp : 0 <= mp <= 11) by (unfold mp; Z.to_euclidean_division_equations; lia).
  assert (Hlo : 153 * mp <= 5 * doy + 2 < 153 * mp + 153)
    by (unfold mp; Z.to_euclidean_division_equations; lia).
  clearbody mp. unfold d, daysIn. clear d.
  assert (Hl' : is_leap (y + 1) = true \/ doy <> 365) by (destruct (decide (doy = 365)); auto).
  assert (mp = 0 \/ mp = 1 \/ mp = 2 \/ mp = 3 \/ mp = 4 \/ mp = 5 \/ mp = 6 \/ mp = 7 \/ mp = 8
          \/ mp = 9 \/ mp = 10 \/ mp = 11) as Hc by lia.
  repeat (destruct Hc as [->|Hc]); try subst mp; simpl; split_and!;
    try (Z.to_euclidean_division_equations; lia).
  destruct Hl' as [->|Hn]; [|destruct (is_leap _)]; Z.to_euclidean_division_equations; lia.
Qed.

Lemma civil_shift z k :
  civil_from_days (z + k * 146097) =
  let '(y, m, d) := civil_from_days z in (y + k * 400, m, d).
Proof.
  unfold civil_from_days.
  replace (z + k * 146097 + 719468) with ((z + 719468) + k * 146097) by lia.
  rewrite Z_mod_plus_full, Z_div_plus_full by lia. cbv zeta.
  f_equal; f_equal; lia.
Qed.

Lemma days_shift y m d k : days_from_civil (y + k * 400) m d = days_from_civil y m d + k * 146097.
Proof.
  unfold days_from_civil.
  assert (H : (if m <=? 2 then y + k * 400 - 1 else y + k * 400)
              = (if m <=? 2 then y - 1 else y) + k * 400) by (destruct (m <=? 2); lia).
  rewrite H, Z_mod_plus_full, Z_div_plus_full by lia. lia.
Qed.

(** Every day has a valid date that leads back to it. *)
Lemma civil_correct z y m d :
  civil_from_days z = (y, m, d) ->
  days_from_civil y m d = z /\ 1 <= m <= 12 /\ 1 <= d <= daysIn m y.
Proof.
  set (k := (z + 719468) / 146097). set (r := (z + 719468) mod 146097).
  assert (Hz : z = (r - 719468) + k * 146097)
    by (pose proof (Z.div_mod (z + 719468) 146097 ltac:(lia)); lia).
  assert (Hr : 0 <= r < 146097) by (apply Z.mod_pos_bound; lia).
  rewrite Hz, civil_shift. clearbody k r. clear Hz z.
  destruct (civil_from_days (r - 719468)) as [[y' m'] d'] eqn:He.
  intros [= <- <- <-]. rewrite days_shift, daysIn_shift.
  revert He. unfold civil_from_days. rewrite Z.sub_add.
  replace (r / 146097) with 0 by (symmetry; by apply Z.div_small).
  rewrite (Z.mod_small r) by done. cbv zeta. fold (yoe_of r). fold (doy_of r).
  destruct (yoe_doy_bounds r Hr) as [Hy Hd].
  destruct (month_day (doy_of r) (yoe_of r) Hd (doy_leap r Hr)) as (Hm & Hd1 & Hd2).
  revert Hm Hd1 Hd2. set (mp := (5 * doy_of r + 2) / 153). intros Hm Hd1 Hd2 [= <- <- <-].
  unfold days_from_civil.
  destruct (Z.ltb_spec mp 10) as [Hmp|Hmp].
  - replace (mp + 3 <=? 2) with false by (symmetry; apply Z.leb_gt; lia).
    replace (2 <? mp + 3) with true by (symmetry; apply Z.ltb_lt; lia).
    replace (mp + 3 - 3) with mp by lia. cbv iota in *.
    replace (yoe_of r + 0 * 400 + 0) with (yoe_of r) by lia.
    rewrite Z.mod_small, Z.div_small by lia. unfold doy_of in *. lia.
  - replace (mp - 9 <=? 2) with true by (symmetry; apply Z.leb_le; lia).
    replace (2 <? mp - 9) with false by (symmetry; apply Z.ltb_ge; lia).
    replace (mp - 9 + 9) with mp by lia. cbv iota in *.
    replace (yoe_of r + 0 * 400 + 1 - 1) with (yoe_of r) by lia.
    rewrite Z.mod_small, Z.div_small by lia.
    replace (yoe_of r + 0 * 400 + 1) with (yoe_of r + 1) by lia. unfold doy_of in *. lia.
Qed.

(** ** Fields read back *)

Lemma hex_digit_dec d : 0 <= d < 10 -> is_digit (hex_digit d) = true /\ byte (hex_digit d) - 48 = d.
Proof.
  intros H.
  assert (d = 0 \/ d = 1 \/ d = 2 \/ d = 3 \/ d = 4 \/ d = 5 \/ d = 6 \/ d = 7 \/ d = 8 \/ d = 9)
    as Hc by lia.
  repeat (destruct Hc as [->|Hc]); try subst d; by vm_compute.
Qed.

Lemma div10_bound w x : 0 <= x < 10 ^ Z.of_nat (S w) -> 0 <= x / 10 < 10 ^ Z.of_nat w.
Proof.
  rewrite Nat2Z.inj_succ, Z.pow_succ_r by lia. intros H.
  split; [apply Z.div_pos; lia|apply Z.div_lt_upper_bound; lia].
Qed.

Lemma take_uint_dec w k a x r :
  0 <= x < 10 ^ Z.of_nat w ->
  take_uint (w + k) a (dec_fixed w x r) = take_uint k (a * 10 ^ Z.of_nat w + x) r.
Proof.
  revert k x r. induction w as [|w IH]; intros k x r Hx.
  - cbn -[Z.mul]. f_equal. cbn in Hx. lia.
  - cbn [dec_fixed]. replace (S w + k)%nat with (w + S k)%nat by lia.
    rewrite IH by by apply div10_bound. cbn [take_uint].
    destruct (hex_digit_dec (x mod 10)) as [-> ->]; [by apply Z.mod_pos_bound|].
    f_equal. rewrite Nat2Z.inj_succ, Z.pow_succ_r by lia.
    pose proof (Z.div_mod x 10 ltac:(lia)). lia.
Qed.

Lemma field_dec w lo hi x r :
  0 <= x < 10 ^ Z.of_nat w -> lo <= x <= hi -> field w lo hi (dec_fixed w x r) = Some (x, r).
Proof.
  intros Hx Hb. unfold field.
  replace w with (w + 0)%nat at 1 by lia. rewrite take_uint_dec by done.
  cbn [take_uint]. rewrite Z.mul_0_l, Z.add_0_l. unfold in_range.
  by rewrite (proj2 (Z.leb_le lo x)), (proj2 (Z.leb_le x hi)) by lia.
Qed.

Lemma digits_value_dec w a x :
  0 <= x < 10 ^ Z.of_nat w ->
  digits_value a (dec_fixed w x EmptyString) = Some (a * 10 ^ Z.of_nat w + x).
Proof.
  enough (H : forall r, 0 <= x < 10 ^ Z.of_nat w ->
    digits_value a (dec_fixed w x r) = digits_value (a * 10 ^ Z.of_nat w + x) r)
    by (intros Hx; by rewrite H).
  revert x. induction w as [|w IH]; intros x r Hx.
  - cbn -[Z.mul] in *. f_equal. lia.
  - cbn [dec_fixed]. rewrite IH by by apply div10_bound. cbn [digits_value].
    destruct (hex_digit_dec (x mod 10)) as [-> ->]; [by apply Z.mod_pos_bound|].
    f_equal. rewrite Nat2Z.inj_succ, Z.pow_succ_r by lia.
    pose proof (Z.div_mod x 10 ltac:(lia)). lia.
Qed.

Lemma length_dec_fixed w x r : String.length (dec_fixed w x r) = (w + String.length r)%nat.
Proof. revert x r. induction w as [|w IH]; intros x r; [done|]. cbn. rewrite IH. cbn. lia. Qed.

Fixpoint all_digits (s : string) : bool :=
  match s with EmptyString => true | String c r => is_digit c && all_digits r end.

Lemma all_digits_dec w x r :
  0 <= x -> all_digits r = true -> all_digits (dec_fixed w x r) = true.
Proof.
  revert x r. induction w as [|w IH]; intros x r Hx Hr; [done|]. cbn [dec_fixed].
  apply IH; [by apply Z.div_pos|]. cbn [all_digits].
  destruct (hex_digit_dec (x mod 10)) as [-> _]; [by apply Z.mod_pos_bound|done].
Qed.

Lemma trim_zeros_facts s a v :
  digits_value a s = Some v ->
  all_digits (trim_zeros s) = true /\
  (String.length (trim_zeros s) <= String.length s)%nat /\
  exists v', digits_value a (trim_zeros s) = Some v' /\
    v = v' * 10 ^ (Z.of_nat (String.length s) - Z.of_nat (String.length (trim_zeros s))).
Proof.
  revert a. induction s as [|c s IH]; intros a; cbn [digits_value trim_zeros String.length].
  - intros [= <-]. split_and!; [done..|]. exists a. split; [done|]. cbn. lia.
  - destruct (is_digit c) eqn:Hc; [|done]. intros H.
    destruct (IH _ H) as (Hd & Hl & v' & Hv' & ->).
    destruct (trim_zeros s) as [|c' t] eqn:Ht.
    + destruct (Ascii.eqb_spec c "0") as [->|Hn]; cbn [all_digits String.length digits_value].
      * split_and!; [done|lia|]. exists a. split; [done|]. cbn in Hv'. injection Hv' as <-.
        change (byte "0" - 48) with 0. cbn [String.length].
        replace (Z.of_nat (S (String.length s)) - Z.of_nat 0)
          with (Z.succ (Z.of_nat (String.length s))) by lia.
        rewrite Z.pow_succ_r by lia. rewrite Z.sub_0_r. lia.
      * rewrite Hc. split_and!; [done|lia|]. cbn in Hv'. eexists. split; [exact Hv'|].
        f_equal. f_equal. cbn. lia.
    + split_and!.
      * cbn [all_digits] in *. by rewrite Hc.
      * cbn [String.length] in *. lia.
      * exists v'. split; [cbn [digits_value]; by rewrite Hc|].
        f_equal. f_equal. cbn [String.length]. lia.
Qed.

Definition no_digit_head (s : string) : bool :=
  match s with EmptyString => true | String c _ => negb (is_digit c) end.

Lemma span_digits_app d t :
  all_digits d = true -> no_digit_head t = true -> span_digits (d +:+ t) = (d, t).
Proof.
  induction d as [|c d IH]; cbn [String.append all_digits span_digits]; intros Hd Ht.
  - destruct t as [|c t]; [done|]. cbn in *. by destruct (is_digit c).
  - apply andb_prop in Hd as [-> Hd]. by rewrite IH.
Qed.

Lemma str_take_all n s : (String.length s <= n)%nat -> str_take n s = s.
Proof.
  revert s. induction n as [|n IH]; intros [|c s] H; cbn in *; [done|lia|done|].
  rewrite IH; [done|lia].
Qed.

Lemma parse_frac_field ns t :
  0 <= ns < second -> no_digit_head t = true -> (forall r, t <> String "." r) ->
  parse_frac (frac_field ns +:+ t) = (ns, t).
Proof.
  intros Hns Ht Hdot. unfold frac_field. destruct (Z.eqb_spec ns 0) as [->|Hnz].
  - cbn [String.append]. unfold parse_frac. destruct t as [|c r]; [done|].
    destruct (Ascii.eqb_spec c ".") as [->|Hc]; [by edestruct Hdot|].
    destruct c as [[] [] [] [] [] [] [] []]; try done.
  - pose proof (digits_value_dec 9 0 ns ltac:(unfold second in *; cbn; lia)) as Hv.
    rewrite Z.mul_0_l, Z.add_0_l in Hv.
    destruct (trim_zeros_facts _ _ _ Hv) as (Hd & Hl & v' & Hv' & Hn).
    rewrite length_dec_fixed in Hl, Hn. cbn [String.length] in Hl, Hn.
    cbn [String.append parse_frac]. rewrite span_digits_app by done.
    destruct (trim_zeros _) as [|c r] eqn:Htz; [cbn in Hv', Hn; injection Hv' as <-; lia|].
    unfold parseNanoseconds. rewrite str_take_all by lia. rewrite Hv'. f_equal.
    rewrite Hn. f_equal.
Qed.

Lemma expect_hit c r : expect c (String c r) = Some r.
Proof. cbn. by rewrite Ascii.eqb_refl. Qed.

Lemma parse_zone_field off :
  off mod 60 = 0 -> Z.abs off < 86400 -> parse_zone (zone_field off) = Some off.
Proof.
  intros Hm Ha. unfold zone_field. destruct (Z.eqb_spec off 0) as [->|Hnz]; [done|].
  set (m := Z.abs off / 60).
  assert (Hoff : Z.abs off = m * 60) by (unfold m; Z.to_euclidean_division_equations; lia).
  assert (Hh : 0 <= m / 60 <= 23) by (unfold m; Z.to_euclidean_division_equations; lia).
  assert (Hmm : 0 <= m mod 60 <= 59) by (pose proof (Z.mod_pos_bound m 60); lia).
  assert (Hsum : (m / 60 * 60 + m mod 60) * 60 = Z.abs off)
    by (pose proof (Z.div_mod m 60 ltac:(lia)); lia).
  destruct (Z.ltb_spec off 0); unfold parse_zone; cbn [Ascii.eqb orb];
    rewrite field_dec by (cbn; lia); cbn [mbind option_bind];
    rewrite expect_hit; cbn [mbind option_bind];
    rewrite field_dec by (cbn; lia); cbn -[Z.mul Z.add]; f_equal; lia.
Qed.

Lemma zone_field_head off :
  no_digit_head (zone_field off) = true /\ (forall r, zone_field off <> String "." r).
Proof. unfold zone_field. destruct (off =? 0); [done|]. by destruct (off <? 0). Qed.

Lemma year_field_four y acc : 0 <= y <= 9999 -> year_field y acc = dec_fixed 4 y acc.
Proof.
  intros H. unfold year_field. destruct (Z.ltb_spec y 0); [lia|].
  replace (Nat.max 4 (dec_width 20 y)) with 4%nat; [done|].
  cbn [dec_width]. repeat (match goal with |- context [?a <? ?b] => destruct (Z.ltb_spec a b) end; [cbn; lia|]).
  exfalso. Z.to_euclidean_division_equations; lia.
Qed.

(** The offsets [Format] prints exactly. *)
Definition whole_minutes (t : time) : bool := zone t mod 60 =? 0.

Lemma daysIn_le m y : daysIn m y <= 31.
Proof. unfold daysIn. repeat case_match; lia. Qed.

Theorem parse_format t :
  marshalable t = true -> whole_minutes t = true -> parseRFC3339 (format_rfc3339nano t) = Some t.
Proof.
  unfold marshalable, whole_minutes, local_year, format_rfc3339nano, format_with, in_range.
  intros H Hz. set (sec := unix_nano t / second + zone t) in *.
  destruct (civil_from_days (sec / 86400)) as [[y m] d] eqn:Hc. cbn [fst] in H. bool_hyps.
  destruct (civil_correct _ _ _ _ Hc) as (Hd & Hm & Hday). pose proof (daysIn_le m y).
  set (r := sec mod 86400).
  assert (Hr : 0 <= r < 86400) by (apply Z.mod_pos_bound; lia).
  assert (Hh : 0 <= r / 3600 <= 23) by (Z.to_euclidean_division_equations; lia).
  assert (Hmi : 0 <= r / 60 mod 60 <= 59) by (Z.to_euclidean_division_equations; lia).
  assert (Hs : 0 <= r mod 60 <= 59) by (Z.to_euclidean_division_equations; lia).
  assert (Hsum : r / 3600 * 3600 + r / 60 mod 60 * 60 + r mod 60 = r)
    by (Z.to_euclidean_division_equations; lia).
  assert (Hns : 0 <= unix_nano t mod second < second) by (apply Z.mod_pos_bound; done).
  destruct (zone_field_head (zone t)) as [Hzh Hzd].
  rewrite year_field_four by done. unfold parseRFC3339.
  repeat (rewrite field_dec by (cbn; lia); cbn [mbind option_bind];
          try (rewrite expect_hit; cbn [mbind option_bind])).
  rewrite parse_frac_field by done. rewrite parse_zone_field by done. cbn [mbind option_bind].
  f_equal. rewrite Hd. destruct t as [u z]. cbn [unix_nano zone] in *. f_equal.
  pose proof (Z.div_mod u second ltac:(done)).
  pose proof (Z.div_mod sec 86400 ltac:(done)) as Hsec. fold r in Hsec. assert (sec / 86400 * 86400 + r / 3600 * 3600 + r / 60 mod 60 * 60 + r mod 60 - z
    = u / second) as -> by (unfold sec in *; lia). lia.
Qed.
