(* ===== verification/JsonFacts.v ===== *)
(** Round trips of the JSON model: a string of valid UTF-8 survives quoting and
    scanning, a printed integer is read back, and an object printed from
    name/value pairs, compact or indented, is decoded to exactly these
    members. *)

From S2P Require Import Prelude Sha256 GoTime Json TimeParse.

(** [utf8.ValidString]; [skip] bytes of a sequence are already accounted for. *)
Fixpoint utf8_from (skip : nat) (s : string) : bool :=
  match s with
  | EmptyString => match skip with O => true | S _ => false end
  | String c r =>
      match skip with
      | S k => utf8_from k r
      | O => if byte c <? 128 then utf8_from 0 r
             else match rune_len s with S (S k) => utf8_from (S k) r | _ => false end
      end
  end.
Definition utf8_valid (s : string) : bool := utf8_from 0 s.

Lemma length_app_str (s t : string) :
  String.length (s +:+ t) = (String.length s + String.length t)%nat.
Proof. induction s as [|a s IH]; cbn; [done|]. by rewrite IH. Qed.

Lemma str_take_app s t : str_take (String.length s) (s +:+ t) = s.
Proof. induction s as [|a s IH]; cbn; [by destruct t|]. by rewrite IH. Qed.

Lemma consumed_app s t : consumed (s +:+ t) t = s.
Proof.
  unfold consumed. rewrite length_app_str.
  replace (_ + _ - _)%nat with (String.length s) by lia. apply str_take_app.
Qed.

(** ** Strings *)

Lemma scan_escape c rest :
  (byte c <? 128) = true -> scan_str 0 (escape c rest) = cons_char c (scan_str 0 rest).
Proof.
  destruct c as [[] [] [] [] [] [] [] []]; intros H; try discriminate H; reflexivity.
Qed.

Lemma str_take_drop k s : str_take k s +:+ str_drop k s = s.
Proof.
  revert s. induction k as [|k IH]; intros [|c s]; cbn; [done..|]. by rewrite IH.
Qed.

Lemma quote_body_copy copy s rest : quote_body 0 copy s rest = quote_body 0 true s rest.
Proof. by destruct s. Qed.

Lemma utf8_from_length k s : utf8_from k s = true -> (k <= String.length s)%nat.
Proof.
  revert s. induction k as [|k IH]; intros [|c s]; cbn; [lia|lia|done|].
  intros H. specialize (IH _ H). lia.
Qed.

Lemma quote_body_take k s rest :
  (k <= String.length s)%nat ->
  quote_body k true s rest = str_take k s +:+ quote_body 0 true (str_drop k s) rest.
Proof.
  revert s. induction k as [|k IH]; intros [|c s] Hk; cbn in Hk; [done|done|lia|].
  cbn [quote_body str_take str_drop String.append]. rewrite IH by lia. done.
Qed.

(** A sequence is recognised by its own bytes. *)
Lemma rune_len_local c k r t :
  rune_len (String c r) = S (S k) -> rune_len (String c (str_take (S k) r +:+ t)) = S (S k).
Proof.
  destruct r as [|c1 r]; [done|]. cbn [rune_len str_take String.append].
  destruct (in_range 194 223 (byte c)); [by destruct (cont c1); intros [= <-]|].
  destruct r as [|c2 r]; [done|].
  destruct (in_range 224 239 (byte c)).
  { destruct (_ && _)%bool eqn:Hb; [|done]. intros [= <-]. cbn [str_take String.append]. by rewrite Hb. }
  destruct r as [|c3 r]; [done|].
  destruct (in_range 240 244 (byte c)); [|done].
  destruct (_ && _)%bool eqn:Hb; [|done]. intros [= <-]. cbn [str_take String.append]. by rewrite Hb.
Qed.

Definition line_sep (last : ascii) : string :=
  String "226" (String "128" (String last EmptyString)).

Lemma prefix_split p s : String.prefix p s = true -> exists r, s = p +:+ r.
Proof.
  revert s. induction p as [|c p IH]; intros [|c' s]; cbn; [eauto|eauto|done|].
  destruct (ascii_dec c c') as [->|]; [|done]. intros H.
  destruct (IH _ H) as [r ->]. by exists r.
Qed.

Lemma scan_quote_from n : forall s skip rest,
  (String.length s <= n)%nat -> utf8_from skip s = true ->
  scan_str skip (quote_body skip true s (String dquote rest)) = Some (s, rest).
Proof.
  induction n as [|n IH]; intros [|c s] skip rest Hn Hs; cbn in Hn; try lia.
  1,2: by destruct skip.
  destruct skip as [|k]; [|cbn [quote_body scan_str]; rewrite IH by (done || lia); done].
  cbn [utf8_from] in Hs. destruct (byte c <? 128) eqn:Hc.
  { cbn [quote_body]. rewrite Hc, (scan_escape c _ Hc), IH by (done || lia). done. }
  destruct (rune_len (String c s)) as [|[|k]] eqn:Hr; try done.
  cbn [quote_body]. rewrite Hc, Hr.
  assert (Hsep : forall b hi lo, String.prefix (line_sep b) (String c s) = true ->
    utf8_from 2 s = true ->
    (forall t, scan_str 0 (u_escape hi lo t) = match scan_str 0 t with
       | Some (x, y) => Some (line_sep b +:+ x, y) | None => None end) ->
    scan_str 0 (u_escape hi lo (quote_body 2 false s (String dquote rest))) = Some (String c s, rest)).
  { intros b hi lo [t Ht]%prefix_split Hu He. rewrite He. injection Ht as -> ->.
    cbn [quote_body String.append] in *. rewrite quote_body_copy.
    cbn [utf8_from] in Hu. rewrite IH by (done || (cbn in Hn; lia)). done. }
  destruct (String.prefix _ (String c s)) eqn:Hp1.
  { apply (Hsep "168"%char); [done| |done].
    apply prefix_split in Hp1 as [t [= -> ->]]. cbn in Hr. injection Hr as <-. done. }
  clear Hp1. destruct (String.prefix _ (String c s)) eqn:Hp2.
  { apply (Hsep "169"%char); [done| |done].
    apply prefix_split in Hp2 as [t [= -> ->]]. cbn in Hr. injection Hr as <-. done. }
  clear Hp2 Hsep.
  assert (Hrl : rune_len (String c (quote_body (S k) true s (String dquote rest))) = S (S k)).
  { rewrite quote_body_take by by apply utf8_from_length. by apply rune_len_local. }
  cbn [scan_str]. unfold byte in *.
  destruct (Z.eqb_spec (Z.of_nat (nat_of_ascii c)) 34) as [He|_];
    [rewrite He in Hc; done|].
  destruct (Z.ltb_spec (Z.of_nat (nat_of_ascii c)) 32) as [Hlt|_];
    [apply Z.ltb_ge in Hc; lia|].
  rewrite Hc, Hrl, IH by (done || lia). done.
Qed.

Lemma scan_quote_body s rest :
  utf8_valid s = true ->
  scan_str 0 (quote_body 0 true s (String dquote rest)) = Some (s, rest).
Proof. by apply (scan_quote_from (String.length s)). Qed.

Lemma scan_value_quote f s rest :
  utf8_valid s = true -> scan_value (S f) (quote_onto s rest) = Some (JStr s, rest).
Proof. intros Hs. cbn -[scan_str quote_body]. by rewrite scan_quote_body. Qed.

(** ** Values *)

Fixpoint all_ws (s : string) : bool :=
  match s with EmptyString => true | String c r => is_ws c && all_ws r end.

Lemma skip_ws_app w s : all_ws w = true -> skip_ws (w +:+ s) = skip_ws s.
Proof. induction w as [|c w IH]; cbn; [done|]. intros [-> Hw]%andb_prop. auto. Qed.

Lemma skip_ws_all w : all_ws w = true -> skip_ws w = EmptyString.
Proof. intros H. rewrite <- (str_app_nil_r w), skip_ws_app by done. done. Qed.

(** What can follow a value: white space, a separator, a bracket, the end. *)
Definition stops (s : string) : bool :=
  match s with
  | EmptyString => true
  | String c _ => is_ws c || Ascii.eqb c "," || Ascii.eqb c "}" || Ascii.eqb c "]"
  end.

Lemma stops_ws w s : all_ws w = true -> stops s = true -> stops (w +:+ s) = true.
Proof. destruct w as [|c w]; [done|]. cbn. by intros [-> _]%andb_prop. Qed.

(** [raw] is the text of the value [v] wherever a value can end. *)
Definition scans (raw : string) (v : json) : Prop :=
  forall f rest, (2 * String.length raw + 2 <= f)%nat -> stops rest = true ->
    scan_value f (raw +:+ rest) = Some (v, rest) /\ skip_ws (raw +:+ rest) = raw +:+ rest.

Lemma quote_body_app skip copy s r t :
  quote_body skip copy s (r +:+ t) = quote_body skip copy s r +:+ t.
Proof.
  revert skip copy. induction s as [|c s IH]; intros skip copy; [done|]. cbn [quote_body].
  destruct skip as [|k]; [|destruct copy; cbn; by rewrite IH].
  repeat case_match; rewrite ?IH; try done; cbn; rewrite ?IH; try done.
  unfold escape. repeat case_match; done.
Qed.

Lemma quote_onto_app s r t : quote_onto s (r +:+ t) = quote_onto s r +:+ t.
Proof. unfold quote_onto. cbn. by rewrite <- (quote_body_app 0 true s (String dquote r) t). Qed.

Lemma quote_onto_eq s r : quote_onto s r = quote s +:+ r.
Proof. apply (quote_onto_app s EmptyString r). Qed.

Lemma scans_quote s : utf8_valid s = true -> scans (quote s) (JStr s).
Proof.
  intros Hs f rest Hf _. rewrite <- quote_onto_eq. destruct f as [|f]; [lia|].
  split; [by apply scan_value_quote | done].
Qed.

Definition bool_text (b : bool) : string := if b then "true" else "false".

Lemma scans_bool b : scans (bool_text b) (JBool b).
Proof. intros f rest Hf _. destruct f as [|f]; [lia|]. destruct b, rest; split; reflexivity. Qed.

(** ** Integers *)

Lemma dec_width_spec fuel x :
  0 <= x < 10 ^ Z.of_nat (S fuel) ->
  x < 10 ^ Z.of_nat (dec_width fuel x) /\ (1 <= dec_width fuel x)%nat
  /\ (dec_width fuel x = 1%nat \/ 10 ^ (Z.of_nat (dec_width fuel x) - 1) <= x).
Proof.
  revert x. induction fuel as [|f IH]; intros x Hx; cbn [dec_width].
  { cbn in *. split_and!; [lia|lia|by left]. }
  destruct (Z.ltb_spec x 10) as [Hlt|Hge]; [cbn; split_and!; [lia|lia|by left]|].
  destruct (IH (x / 10)) as (Hu & H1 & Hl); [by apply div10_bound|].
  set (w := dec_width f (x / 10)) in *.
  rewrite Nat2Z.inj_succ, Z.pow_succ_r by lia. split_and!; [|lia|right].
  - Z.to_euclidean_division_equations; lia.
  - replace (Z.succ (Z.of_nat w) - 1) with (Z.succ (Z.of_nat w - 1)) by lia.
    rewrite Z.pow_succ_r by lia. destruct Hl as [->|Hl]; [cbn; lia|].
    Z.to_euclidean_division_equations; lia.
Qed.

Lemma log2_fuel x : 0 <= x -> x < 10 ^ Z.of_nat (S (S (Z.to_nat (Z.log2 x)))).
Proof.
  intros Hx. destruct (Z.eq_dec x 0) as [->|Hn]; [done|].
  pose proof (Z.log2_spec x ltac:(lia)) as [_ Hlt]. pose proof (Z.log2_nonneg x).
  eapply Z.lt_le_trans; [exact Hlt|].
  rewrite !Nat2Z.inj_succ, Z2Nat.id by done.
  transitivity (10 ^ (Z.succ (Z.log2 x))); [apply Z.pow_le_mono_l; lia|apply Z.pow_le_mono_r; lia].
Qed.

(** The first digit of a number of [S w] digits is not zero. *)
Lemma dec_fixed_head w x r :
  10 ^ Z.of_nat w <= x < 10 ^ Z.of_nat (S w) ->
  exists d t, dec_fixed (S w) x r = String (hex_digit d) t /\ 1 <= d < 10.
Proof.
  revert x r. induction w as [|w IH]; intros x r Hx.
  - cbn [dec_fixed]. exists (x mod 10), r. split; [done|]. cbn in Hx.
    rewrite Z.mod_small; lia.
  - cbn [dec_fixed]. apply (IH (x / 10)).
    rewrite !Nat2Z.inj_succ, !Z.pow_succ_r in * by lia. Z.to_euclidean_division_equations; lia.
Qed.

Definition number_end (s : string) : bool :=
  match s with
  | EmptyString => true
  | String c _ => negb (is_digit c) && negb (Ascii.eqb c ".") && negb ((byte c =? 101) || (byte c =? 69))
  end.

Lemma stops_number s : stops s = true -> number_end s = true.
Proof. destruct s as [|[[] [] [] [] [] [] [] []] s]; intros H; try discriminate H; reflexivity. Qed.

Lemma scan_frac_exp_none s :
  number_end s = true -> scan_frac s = Some (EmptyString, s) /\ scan_exp s = Some (EmptyString, s).
Proof.
  destruct s as [|c s]; [done|]. cbn [number_end].
  intros [[_ Hdot]%andb_prop He]%andb_prop.
  apply negb_true_iff in Hdot. apply negb_true_iff in He. split.
  - destruct c as [[] [] [] [] [] [] [] []]; first [reflexivity | discriminate Hdot].
  - unfold scan_exp. by rewrite He.
Qed.

Lemma number_end_no_digit s : number_end s = true -> no_digit_head s = true.
Proof. destruct s; [done|]. cbn. by intros [[? _]%andb_prop _]%andb_prop. Qed.

Lemma digit_head d s : 0 <= d < 10 ->
  scan_value 1 (String (hex_digit d) s) =
    match scan_num (String (hex_digit d) s) with Some (lit, rest) => Some (JNum lit, rest) | None => None end
  /\ skip_ws (String (hex_digit d) s) = String (hex_digit d) s.
Proof.
  intros H.
  assert (d = 0 \/ d = 1 \/ d = 2 \/ d = 3 \/ d = 4 \/ d = 5 \/ d = 6 \/ d = 7 \/ d = 8 \/ d = 9)
    as Hc by lia.
  repeat (destruct Hc as [->|Hc]); try subst d; by destruct s.
Qed.

Lemma scan_value_num f c s :
  scan_value 1 (String c s) =
    match scan_num (String c s) with Some (lit, rest) => Some (JNum lit, rest) | None => None end ->
  scan_num (String c s) <> None ->
  scan_value (S f) (String c s) = scan_value 1 (String c s).
Proof.
  intros H1 H2. rewrite H1. cbn [scan_value] in *. revert H1.
  destruct (byte c =? 34); [done|]. destruct (Ascii.eqb c "{").
  { destruct (skip_ws s) as [|[[] [] [] [] [] [] [] []] ?]; by destruct (scan_num _) as [[]|]. }
  destruct (Ascii.eqb c "[").
  { destruct (skip_ws s) as [|[[] [] [] [] [] [] [] []] ?]; by destruct (scan_num _) as [[]|]. }
  done.
Qed.

Lemma dec_nonneg_eq x acc :
  0 <= x -> exists w, dec_nonneg x acc = dec_fixed (S w) x acc /\ 0 <= x < 10 ^ Z.of_nat (S w)
    /\ (w = O \/ 10 ^ Z.of_nat w <= x).
Proof.
  intros Hx. unfold dec_nonneg. set (fuel := S (Z.to_nat (Z.log2 x))).
  destruct (dec_width_spec fuel x) as (Hu & H1 & Hl); [split; [done|by apply log2_fuel]|].
  destruct (dec_width fuel x) as [|w] eqn:Hw; [lia|]. exists w. split_and!; [done|done|done|].
  destruct Hl as [Hl|Hl]; [left; lia|right]. replace (Z.of_nat w) with (Z.of_nat (S w) - 1) by lia. done.
Qed.

(** A number without fraction and exponent that starts with a digit other
    than zero. *)
Lemma scan_num_span c t d rest :
  is_digit c = true -> Ascii.eqb c "0" = false -> number_end rest = true ->
  span_digits (String c t) = (d, rest) -> d <> EmptyString ->
  scan_num (String c t) = Some (d, rest) /\
  scan_num (String "-" (String c t)) = Some (String "-" d, rest).
Proof.
  intros Hc H0 Hend Hs Hd. destruct (scan_frac_exp_none rest Hend) as [Hf He].
  assert (Hint : forall sg,
    match match span_digits (String c t) with (EmptyString, _) => None | dt => Some dt end with
    | Some (d, t) => match scan_frac t with
                     | Some (f, t') => match scan_exp t' with
                                       | Some (e, t'') => Some (sg +:+ (d +:+ (f +:+ e)), t'')
                                       | None => None
                                       end
                     | None => None
                     end
    | None => None
    end = Some (sg +:+ d, rest)).
  { intros sg. rewrite Hs. destruct d as [|a d]; [done|]. rewrite Hf, He.
    cbn [String.append]. by rewrite str_app_nil_r. }
  split; (etransitivity; [|first [exact (Hint EmptyString) | exact (Hint (String "-" EmptyString))]]);
    destruct c as [[] [] [] [] [] [] [] []]; try discriminate Hc; try discriminate H0;
    unfold scan_num; by destruct (span_digits _) as [[|a d'] ?].
Qed.

Lemma hex_digit_nonzero d : 1 <= d < 10 -> Ascii.eqb (hex_digit d) "0" = false.
Proof.
  intros H. destruct (Ascii.eqb_spec (hex_digit d) "0") as [He|]; [|done].
  destruct (hex_digit_dec d ltac:(lia)) as [_ Hb]. rewrite He in Hb. change (byte "0" - 48) with 0 in Hb. lia.
Qed.

Lemma dec_fixed_app n y r t : dec_fixed n y (r +:+ t) = dec_fixed n y r +:+ t.
Proof. revert y r. induction n as [|n IH]; intros y r; [done|]. cbn [dec_fixed]. by rewrite <- IH. Qed.

Lemma scan_num_dec w x rest :
  0 <= x < 10 ^ Z.of_nat (S w) -> (w = O \/ 10 ^ Z.of_nat w <= x) -> number_end rest = true ->
  scan_num (dec_fixed (S w) x rest) = Some (dec_fixed (S w) x EmptyString, rest)
  /\ scan_num (String "-" (dec_fixed (S w) x rest))
     = Some (String "-" (dec_fixed (S w) x EmptyString), rest).
Proof.
  intros Hx Hw Hend.
  destruct (Z.eq_dec x 0) as [->|Hnz].
  { destruct Hw as [->|Hw]; [|pose proof (Z.pow_pos_nonneg 10 (Z.of_nat w)); lia].
    destruct (scan_frac_exp_none rest Hend) as [Hf He].
    change (dec_fixed 1 0 rest) with (String "0" rest).
    change (dec_fixed 1 0 EmptyString) with "0". unfold scan_num. cbn -[scan_frac scan_exp].
    by rewrite Hf, He. }
  assert (Hspan : span_digits (dec_fixed (S w) x rest) = (dec_fixed (S w) x EmptyString, rest)).
  { change rest with (EmptyString +:+ rest) at 1. rewrite dec_fixed_app.
    apply span_digits_app; [apply all_digits_dec; [lia|done]|by apply number_end_no_digit]. }
  assert (Hhead : exists d t, dec_fixed (S w) x rest = String (hex_digit d) t /\ 1 <= d < 10).
  { apply dec_fixed_head. destruct Hw as [->|Hw]; [cbn in *; lia|lia]. }
  assert (Hne : dec_fixed (S w) x EmptyString <> EmptyString).
  { intros He'. pose proof (length_dec_fixed (S w) x EmptyString) as Hl. rewrite He' in Hl. done. }
  destruct Hhead as (d & t & Ht & Hd). rewrite Ht in *.
  apply scan_num_span; [apply hex_digit_dec; lia|by apply hex_digit_nonzero|done..].
Qed.

Lemma itoa_nat x : 0 <= x -> itoa x = dec_nonneg x EmptyString.
Proof. intros H. unfold itoa. destruct (Z.ltb_spec x 0); [lia|done]. Qed.

Lemma scans_itoa x : 0 <= x -> scans (itoa x) (JNum (itoa x)).
Proof.
  intros Hx. rewrite itoa_nat by done. destruct (dec_nonneg_eq x EmptyString Hx) as (w & -> & Hb & Hw).
  intros f rest Hf Hstop. destruct f as [|f]; [lia|].
  rewrite <- dec_fixed_app. cbn [String.append].
  destruct (scan_num_dec w x rest Hb Hw (stops_number _ Hstop)) as [Hs _].
  assert (Hh : exists d t, dec_fixed (S w) x rest = String (hex_digit d) t /\ 0 <= d < 10).
  { destruct (decide (10 ^ Z.of_nat w <= x)) as [Hge|Hlt].
    - destruct (dec_fixed_head w x rest ltac:(lia)) as (d & t & ? & ?). exists d, t. split; [done|lia].
    - destruct Hw as [->|Hw]; [|lia]. exists (x mod 10), rest. split; [done|by apply Z.mod_pos_bound]. }
  destruct Hh as (d & t & Ht & Hd). rewrite Ht in *.
  destruct (digit_head d t Hd) as [H1 Hsk]. split; [|done].
  rewrite scan_value_num by (done || by rewrite Hs). by rewrite H1, Hs.
Qed.

Lemma parse_int64_itoa x : 0 <= x < 2 ^ 63 -> parse_int64 (itoa x) = Some x.
Proof.
  intros Hx. rewrite itoa_nat by lia.
  destruct (dec_nonneg_eq x EmptyString ltac:(lia)) as (w & -> & Hb & Hw).
  pose proof (digits_value_dec (S w) 0 x Hb) as Hv. rewrite Z.mul_0_l, Z.add_0_l in Hv.
  unfold parse_int64. assert (Hr : in_range (- 2 ^ 63) (2 ^ 63 - 1) x = true).
  { unfold in_range. apply andb_true_iff. split; apply Z.leb_le; lia. }
  pose proof (all_digits_dec (S w) x EmptyString ltac:(lia) eq_refl) as Hd.
  destruct (dec_fixed (S w) x EmptyString) as [|c r]; [by rewrite Hv, Hr|].
  destruct c as [[] [] [] [] [] [] [] []]; try discriminate Hd; by rewrite Hv, Hr.
Qed.

(** ** Objects *)

Definition members_of (fs : list (string * string * json)) : list member :=
  map (fun x => (fst (fst x), (snd (fst x), snd x))) fs.

Definition fields_of (fs : list (string * string * json)) : list (string * string) := map fst fs.

Definition printable_field (x : string * string * json) : Prop :=
  utf8_valid (fst (fst x)) = true /\ scans (snd (fst x)) (snd x).

Lemma length_quote_onto s r : (2 + String.length r <= String.length (quote_onto s r))%nat.
Proof.
  rewrite quote_onto_eq, length_app_str. unfold quote, quote_onto. cbn.
  change (String dquote EmptyString) with (EmptyString +:+ String dquote EmptyString).
  rewrite quote_body_app, length_app_str. cbn. lia.
Qed.

Section object_text.
(** The white space after the opening bracket and each comma, before the
    closing bracket, and after a colon. *)
Context (open close sp : string).
Context (Hopen : all_ws open = true) (Hclose : all_ws close = true) (Hsp : all_ws sp = true).

Definition member_text (kr : string * string) : string :=
  quote_onto (fst kr) (":" +:+ (sp +:+ snd kr)).

Lemma member_text_length k raw : (String.length raw + 3 <= String.length (member_text (k, raw)))%nat.
Proof.
  unfold member_text. cbn [fst snd].
  pose proof (length_quote_onto k (":" +:+ (sp +:+ raw))) as H.
  cbn [String.append String.length] in *. rewrite length_app_str in H. lia.
Qed.

Lemma skip_ws_member k raw rest : skip_ws (member_text (k, raw) +:+ rest) = member_text (k, raw) +:+ rest.
Proof. done. Qed.

Lemma scan_members_one f k raw v c rest :
  utf8_valid k = true -> scans raw v -> (2 * String.length raw + 2 <= f)%nat ->
  c = ","%char \/ c = "}"%char ->
  forall w, all_ws w = true ->
  scan_members (S f) (member_text (k, raw) +:+ (w +:+ String c rest)) =
    match c with
    | ","%char => match scan_members f (skip_ws rest) with
                  | Some (ms, rest) => Some ((k, (raw, v)) :: ms, rest)
                  | None => None
                  end
    | _ => Some ([(k, (raw, v))], rest)
    end.
Proof.
  intros Hk Hv Hf Hc w Hw. unfold member_text. cbn [fst snd].
  rewrite <- quote_onto_app. unfold quote_onto.
  cbn [scan_members]. change (byte dquote =? 34) with true. cbn match.
  rewrite scan_quote_body by done. cbn [String.append skip_ws].
  change (is_ws ":") with false. cbn match.
  rewrite str_app_assoc, skip_ws_app by done.
  destruct (Hv f (w +:+ String c rest) Hf) as [Hscan Hskip].
  { apply stops_ws; [done|]. by destruct Hc as [-> | ->]. }
  rewrite Hskip, Hscan, consumed_app, skip_ws_app by done.
  destruct Hc as [-> | ->]; reflexivity.
Qed.

Definition body_text (fs : list (string * string * json)) : string :=
  join ("," +:+ open) (map member_text (fields_of fs)).

Lemma body_text_cons x y fs :
  body_text (x :: y :: fs) = member_text (fst x) +:+ (String "," (open +:+ body_text (y :: fs))).
Proof. unfold body_text. cbn [fields_of map join]. by rewrite str_app_assoc. Qed.

Lemma body_text_length x fs :
  (String.length (member_text (fst x)) <= String.length (body_text (x :: fs)))%nat.
Proof.
  destruct fs as [|y fs]; [done|]. rewrite body_text_cons, length_app_str. lia.
Qed.

Lemma skip_ws_body fs t : fs <> [] -> exists r,
  body_text fs +:+ t = String dquote r /\ skip_ws (String dquote r) = String dquote r.
Proof.
  destruct fs as [|[[k raw] v] [|y fs]]; [done|..]; intros _;
    rewrite ?body_text_cons; eexists; split; cbn; reflexivity.
Qed.

Lemma scan_members_join fs f rest :
  fs <> [] -> Forall printable_field fs -> (2 * String.length (body_text fs) + 2 <= f)%nat ->
  scan_members f (body_text fs +:+ (close +:+ String "}" rest)) = Some (members_of fs, rest).
Proof.
  intros Hne Hall. revert f. induction Hall as [|[[k raw] v] fs [Hk Hv] Hall IH]; [done|].
  cbn [fst snd] in Hk, Hv. intros f Hf. destruct f as [|f]; [lia|].
  pose proof (body_text_length (k, raw, v) fs) as Hl. cbn [fst] in Hl.
  pose proof (member_text_length k raw) as Hm.
  destruct fs as [|y fs'].
  - unfold body_text. cbn [fields_of map join fst].
    rewrite (scan_members_one f k raw v) by (eauto; lia). reflexivity.
  - rewrite body_text_cons, str_app_assoc. cbn [String.append fst].
    change (String "," ((open +:+ body_text (y :: fs')) +:+ (close +:+ String "}" rest)))
      with (EmptyString +:+ String "," ((open +:+ body_text (y :: fs')) +:+ (close +:+ String "}" rest))).
    rewrite (scan_members_one f k raw v) by (eauto; lia). cbn match.
    rewrite str_app_assoc, skip_ws_app by done.
    destruct (skip_ws_body (y :: fs') (close +:+ String "}" rest) ltac:(done)) as (r & Hr & Hs).
    rewrite Hr, Hs, <- Hr. rewrite IH; [done|done|].
    rewrite body_text_cons, length_app_str in Hf. cbn [String.length] in Hf.
    rewrite length_app_str in Hf. lia.
Qed.

Lemma obj_text_with_eq fs rest :
  obj_text_with open close sp (fields_of fs) +:+ rest
  = String "{" (open +:+ (body_text fs +:+ (close +:+ String "}" rest))).
Proof.
  unfold obj_text_with, body_text.
  assert (map (fun '(k, raw) => quote_onto k (":" +:+ (sp +:+ raw))) (fields_of fs)
          = map member_text (fields_of fs)) as -> by (apply map_ext; by intros []).
  cbn [String.append]. by rewrite !str_app_assoc.
Qed.

Lemma scans_object fs :
  fs <> [] -> Forall printable_field fs ->
  scans (obj_text_with open close sp (fields_of fs)) (JObj (map (fun x => (fst (fst x), snd x)) fs)).
Proof.
  intros Hne Hall f rest Hf _. rewrite obj_text_with_eq.
  destruct (skip_ws_body fs (close +:+ String "}" rest) Hne) as (r & Hr & Hs).
  assert (Hlen : (S (String.length (body_text fs)) <= String.length (obj_text_with open close sp (fields_of fs)))%nat).
  { rewrite <- (str_app_nil_r (obj_text_with _ _ _ _)), obj_text_with_eq. cbn [String.length].
    rewrite !length_app_str. lia. }
  destruct f as [|f]; [lia|]. split; [|done].
  cbn [scan_value]. change (byte "{" =? 34) with false. change (Ascii.eqb "{" "{") with true.
  cbn match. rewrite skip_ws_app, Hr, Hs by done. unfold dquote. cbn match.
  fold dquote. rewrite <- Hr, scan_members_join by (done || lia).
  f_equal. f_equal. f_equal. unfold members_of. rewrite map_map. done.
Qed.

(** An object printed from its members is decoded to exactly these members. *)
Lemma unmarshal_doc_with fs :
  fs <> [] -> Forall printable_field fs ->
  unmarshal_doc (obj_text_with open close sp (fields_of fs)) = DocObject (members_of fs).
Proof.
  intros Hne Hall. set (text := obj_text_with _ _ _ _).
  assert (Htext : text = String "{" (open +:+ (body_text fs +:+ (close +:+ "}")))).
  { unfold text. rewrite <- (str_app_nil_r (obj_text_with _ _ _ _)). apply obj_text_with_eq. }
  destruct (skip_ws_body fs (close +:+ "}") Hne) as (r & Hr & Hs).
  assert (Hlen : (String.length (body_text fs) <= String.length text)%nat)
    by (rewrite Htext; cbn [String.length]; rewrite !length_app_str; lia).
  destruct (scans_object fs Hne Hall (fuel_for text) EmptyString) as [Hscan Hsk];
    [unfold fuel_for, text; lia|done|].
  rewrite str_app_nil_r in Hscan, Hsk. fold text in Hscan, Hsk.
  unfold unmarshal_doc, unmarshal. rewrite Hsk, Hscan. cbn match. cbn [skip_ws].
  rewrite Htext at 1. rewrite skip_ws_app, Hr, Hs by done. unfold dquote. cbn match. fold dquote.
  rewrite <- Hr. change "}" with (String "}" EmptyString).
  rewrite scan_members_join by (done || (unfold fuel_for; lia)). done.
Qed.
End object_text.

Lemma obj_text_compact fields : obj_text fields = obj_text_with EmptyString EmptyString EmptyString fields.
Proof. done. Qed.

Lemma obj_text_unfold fields :
  obj_text fields = String "{" (join "," (map (fun '(k, raw) => quote_onto k (":" +:+ raw)) fields) +:+ "}").
Proof. done. Qed.

Lemma unmarshal_doc_obj fs :
  fs <> [] -> Forall printable_field fs ->
  unmarshal_doc (obj_text (fields_of fs)) = DocObject (members_of fs).
Proof. intros. rewrite obj_text_compact. by apply unmarshal_doc_with. Qed.

Lemma all_ws_newline d : all_ws (newline d) = true.
Proof. unfold newline. cbn [all_ws]. induction (2 * d)%nat; [done|]. done. Qed.

Lemma unmarshal_doc_indent d fs :
  fs <> [] -> Forall printable_field fs ->
  unmarshal_doc (obj_indent d (fields_of fs)) = DocObject (members_of fs).
Proof.
  intros Hne Hall. unfold obj_indent. destruct fs as [|x fs]; [done|].
  apply (unmarshal_doc_with (newline (S d)) (newline d) " " (all_ws_newline _) (all_ws_newline _) eq_refl
    (x :: fs)); auto.
Qed.

Lemma scans_empty_object : scans "{}" (JObj []).
Proof. intros f rest Hf _. destruct f as [|f]; [lia|]. by destruct rest. Qed.

Lemma scans_indent d fs :
  Forall printable_field fs ->
  scans (obj_indent d (fields_of fs)) (JObj (map (fun x => (fst (fst x), snd x)) fs)).
Proof.
  intros Hall. destruct fs as [|x fs]; [apply scans_empty_object|].
  apply (scans_object (newline (S d)) (newline d) " " (all_ws_newline _) (all_ws_newline _) eq_refl
    (x :: fs)); auto.
Qed.

Lemma scans_obj_text fs :
  Forall printable_field fs ->
  scans (obj_text (fields_of fs)) (JObj (map (fun x => (fst (fst x), snd x)) fs)).
Proof.
  intros Hall. destruct fs as [|x fs]; [apply scans_empty_object|].
  by apply (scans_object EmptyString EmptyString EmptyString eq_refl eq_refl eq_refl (x :: fs)).
Qed.

Lemma scans_unmarshal raw v : scans raw v -> unmarshal raw = Some v.
Proof.
  intros H. destruct (H (fuel_for raw) EmptyString) as [Hs Hw]; [unfold fuel_for; lia|done|].
  rewrite str_app_nil_r in Hs, Hw. unfold unmarshal. by rewrite Hw, Hs.
Qed.

(** ** Texts without line feeds or escapes *)

Lemma rune_tail_no_lf c r k a :
  rune_len (String c r) = S (S k) -> byte a < 128 -> str_in a (str_take (S k) r) = false.
Proof.
  assert (Hne : forall lo hi b, 128 <= lo -> byte a < 128 -> in_range lo hi (byte b) = true -> Ascii.eqb b a = false).
  { intros lo hi b Hlo Ha Hb. destruct (Ascii.eqb_spec b a) as [->|]; [|done].
    unfold in_range in Hb. bool_hyps. lia. }
  intros Hr Ha. revert Hr. destruct r as [|c1 r]; [done|]. cbn [rune_len].
  destruct (in_range 194 223 (byte c)).
  { destruct (cont c1) eqn:H1; [|done]. intros [= <-]. cbn. unfold cont in H1.
    rewrite (Hne 128 191 c1) by (done || lia). by destruct r. }
  destruct r as [|c2 r]; [done|].
  destruct (in_range 224 239 (byte c)).
  { destruct (_ && _)%bool eqn:Hb; [|done]. apply andb_prop in Hb as [H1 H2].
    intros [= <-]. cbn. unfold cont in H2. rewrite (Hne 128 191 c2) by (done || lia).
    eapply Hne in H1; [|repeat case_match; lia|done]. rewrite H1. by destruct r. }
  destruct r as [|c3 r]; [done|].
  destruct (in_range 240 244 (byte c)); [|done].
  destruct (_ && _)%bool eqn:Hb; [|done]. apply andb_prop in Hb as [Hb H3].
  apply andb_prop in Hb as [H1 H2]. intros [= <-]. cbn. unfold cont in *.
  rewrite (Hne 128 191 c2), (Hne 128 191 c3) by (done || lia).
  eapply Hne in H1; [|repeat case_match; lia|done]. rewrite H1. by destruct r.
Qed.

(** The line feed and what would be markup never occur in printed text. *)
Definition never_printed : list ascii := ["010"; "<"; ">"; "&"]%char.

Section unprinted.
Variables (a : ascii) (Ha : a ∈ never_printed).

Ltac each_unprinted :=
  let H := fresh in pose proof Ha as H; unfold never_printed in H;
  repeat (apply elem_of_cons in H as [->|H]); [..|by apply elem_of_nil in H].

Lemma hex_digit_free n : Ascii.eqb (hex_digit n) a = false.
Proof.
  each_unprinted; apply hex_digit_ne; unfold hex_alphabet; intros Hn;
    repeat (apply elem_of_cons in Hn as [Hn|Hn]; [discriminate Hn|]); by apply elem_of_nil in Hn.
Qed.

Lemma escape_free c rest : (byte c <? 128) = true -> str_in a (escape c rest) = str_in a rest.
Proof. intros H. each_unprinted; destruct c as [[] [] [] [] [] [] [] []]; try discriminate H; reflexivity. Qed.

Lemma unprinted_ascii : byte a < 128.
Proof. each_unprinted; done. Qed.

Lemma u_escape_free hi lo t : str_in a (u_escape hi lo t) = str_in a t.
Proof. unfold u_escape. cbn [str_in]. rewrite !hex_digit_free. each_unprinted; done. Qed.

Lemma quote_body_free n : forall s rest,
  (String.length s <= n)%nat ->
  str_in a (quote_body 0 true s rest) = str_in a rest.
Proof.
  assert (Hdrop : forall k s, (String.length (str_drop k s) <= String.length s)%nat).
  { induction k as [|k IH]; intros [|c s]; cbn; [lia..|]. specialize (IH s). lia. }
  assert (Hskip : forall k s rest, (k <= String.length s)%nat ->
    quote_body k false s rest = quote_body 0 true (str_drop k s) rest).
  { clear. induction k as [|k IH]; intros [|c s] rest Hk; cbn in Hk; [done..|lia|]. apply IH. lia. }
  assert (Hrl : forall s k, rune_len s = S k -> (S k <= String.length s)%nat).
  { clear. intros s k. destruct s as [|c0 [|c1 [|c2 [|c3 s]]]]; cbn; repeat case_match;
      try done; try lia; intros [= <-]; lia. }
  induction n as [|n IH]; intros [|c s] rest Hn; cbn in Hn; try lia; try done.
  cbn [quote_body]. destruct (byte c <? 128) eqn:Hc.
  { rewrite escape_free by done. apply IH. lia. }
  destruct (rune_len (String c s)) as [|[|k]] eqn:Hr.
  1,2: rewrite u_escape_free; apply IH; lia.
  destruct (String.prefix _ (String c s)) eqn:Hp.
  { apply prefix_split in Hp as [t [= -> ->]].
    rewrite u_escape_free, Hskip by (cbn; lia). cbn [str_drop]. apply IH. cbn in Hn. lia. }
  clear Hp. destruct (String.prefix _ (String c s)) eqn:Hp.
  { apply prefix_split in Hp as [t [= -> ->]].
    rewrite u_escape_free, Hskip by (cbn; lia). cbn [str_drop]. apply IH. cbn in Hn. lia. }
  pose proof (Hrl _ _ Hr) as Hl. cbn in Hl. cbn [str_in]. pose proof unprinted_ascii as H128.
  destruct (Ascii.eqb_spec c a) as [->|_]; [apply Z.ltb_ge in Hc; lia|]. cbn [orb].
  rewrite quote_body_take by lia. rewrite str_in_app, (rune_tail_no_lf c s k a Hr) by done.
  cbn [orb]. apply IH. specialize (Hdrop (S k) s). lia.
Qed.

Lemma quote_free s : str_in a (quote s) = false.
Proof.
  unfold quote, quote_onto. cbn [str_in]. rewrite (quote_body_free (String.length s)) by done.
  cbn [str_in]. each_unprinted; done.
Qed.

Lemma join_cons sep x y l : join sep (x :: y :: l) = x +:+ (sep +:+ join sep (y :: l)).
Proof. done. Qed.

Lemma join_free sep l :
  str_in a sep = false -> Forall (fun x => str_in a x = false) l ->
  str_in a (join sep l) = false.
Proof.
  intros Hs. induction 1 as [|x l Hx Hl IH]; [done|]. destruct l as [|y l]; [done|].
  rewrite join_cons, !str_in_app, Hx, Hs. done.
Qed.

Lemma obj_text_free fs :
  Forall (fun kr => str_in a (snd kr) = false) fs -> str_in a (obj_text fs) = false.
Proof.
  intros H. rewrite obj_text_unfold. cbn [str_in]. rewrite str_in_app, join_free.
  - each_unprinted; done.
  - each_unprinted; done.
  - induction H as [|[k raw] fs Hr Hf IH]; constructor; [|done].
    rewrite quote_onto_eq, !str_in_app, quote_free. cbn [snd] in Hr. rewrite Hr. each_unprinted; done.
Qed.
End unprinted.

Lemma quote_no_lf s : str_in "010" (quote s) = false.
Proof. apply quote_free. by left. Qed.

Lemma obj_text_no_lf fs :
  Forall (fun kr => str_in "010" (snd kr) = false) fs -> str_in "010" (obj_text fs) = false.
Proof. apply obj_text_free. by left. Qed.

(** Texts of bytes that are printed as they are. *)
Definition verbatim (c : ascii) : bool :=
  (32 <=? byte c) && (byte c <? 128) && negb (byte c =? 34) && negb (byte c =? 92)
  && negb (byte c =? 60) && negb (byte c =? 62) && negb (byte c =? 38).

Lemma quote_verbatim s rest : str_all verbatim s = true -> quote_onto s rest = String dquote (s +:+ String dquote rest).
Proof.
  unfold quote_onto. intros H. f_equal. induction s as [|c s IH]; [done|].
  cbn [str_all] in H. apply andb_prop in H as [Hc Hs]. cbn [quote_body String.append].
  rewrite <- (IH Hs). unfold verbatim in Hc.
  apply andb_prop in Hc as [Hc H38]; apply andb_prop in Hc as [Hc H62];
    apply andb_prop in Hc as [Hc H60]; apply andb_prop in Hc as [Hc H92];
    apply andb_prop in Hc as [Hc H34]; apply andb_prop in Hc as [H32 H128].
  rewrite H128. unfold escape.
  apply negb_true_iff in H38, H62, H60, H92, H34. rewrite H34, H92, H60, H62, H38.
  apply Z.leb_le in H32.
  rewrite !(proj2 (Z.eqb_neq _ _)) by lia. rewrite (proj2 (Z.ltb_ge _ _)) by lia. done.
Qed.

Lemma verbatim_utf8 s : str_all verbatim s = true -> utf8_valid s = true.
Proof.
  unfold utf8_valid. induction s as [|c s IH]; [done|]. cbn [str_all utf8_from].
  intros [Hc Hs]%andb_prop. unfold verbatim in Hc.
  do 5 apply andb_prop in Hc as [Hc _]. apply andb_prop in Hc as [_ ->]. auto.
Qed.

Lemma str_all_dec f w x acc :
  forallb f hex_alphabet = true -> str_all f (dec_fixed w x acc) = str_all f acc.
Proof.
  intros Hf.
  revert x acc. induction w as [|w IH]; intros x acc; [done|]. cbn [dec_fixed].
  rewrite IH. cbn [str_all]. by rewrite hex_digit_all.
Qed.

Lemma str_all_trim f s : str_all f s = true -> str_all f (trim_zeros s) = true.
Proof.
  induction s as [|c s IH]; [done|]. cbn [str_all trim_zeros]. intros [Hc Hs]%andb_prop.
  specialize (IH Hs). destruct (trim_zeros s); [case_match; [done|]; cbn; by rewrite Hc|].
  cbn [str_all] in *. by rewrite Hc.
Qed.

Lemma format_with_verbatim frac t :
  (forall ns, str_all verbatim (frac ns) = true) -> str_all verbatim (format_with frac t) = true.
Proof.
  intros Hf. assert (Hx : forallb verbatim hex_alphabet = true) by reflexivity.
  unfold format_with. destruct (civil_from_days _) as [[y m] d].
  assert (Hz : forall off, str_all verbatim (zone_field off) = true).
  { intros off. unfold zone_field. case_match; [done|]. cbn [str_all].
    rewrite str_all_dec by done. cbn [str_all]. rewrite str_all_dec by done. by case_match. }
  assert (Hy : forall acc, str_all verbatim acc = true -> str_all verbatim (year_field y acc) = true).
  { intros acc Ha. unfold year_field. case_match; cbn [str_all]; rewrite str_all_dec by done; done. }
  apply Hy. repeat (cbn [str_all]; rewrite str_all_dec by done). rewrite str_all_app, Hf, Hz. done.
Qed.

Lemma format_verbatim t : str_all verbatim (format_rfc3339nano t) = true.
Proof.
  apply format_with_verbatim. intros ns. unfold frac_field. case_match; [done|]. cbn [str_all].
  rewrite str_all_trim; [done|]. by rewrite str_all_dec.
Qed.
