(* ===== verification/GoFloat.v ===== *)
(** float64 as encoding/json and fmt use it: a number literal decoded to the
    nearest double (ties to even, an error beyond the largest one), the
    shortest decimal that identifies a double, and its three layouts
    ([%e], [%f], [%g]).  All of it is exact integer arithmetic. *)

From S2P Require Import Prelude Sha256 GoTime Json.

(** The value [(-1)^neg * mant * 2^exp]; [exp >= -1074], and [mant] has 53
    bits or [exp = -1074]. *)
Record float64 := mkFloat { fl_neg : bool; fl_mant : Z; fl_exp : Z }.

#[export] Instance float64_eq_dec : EqDecision float64.
Proof. solve_decision. Defined.

Definition min_exp : Z := -1074.
Definition max_exp : Z := 971.
Definition full_mant : Z := 2 ^ 52.

(** ** strconv.ParseFloat on a JSON number literal *)

(** Integer nearest to [a / b], ties to even. *)
Definition round_div (a b : Z) : Z :=
  let q := a / b in
  let r := a mod b in
  if (b <? 2 * r) || ((b =? 2 * r) && Z.odd q) then q + 1 else q.

(** [a * 2^n / b] as a fraction, for [n] of either sign. *)
Definition scale2 (a b n : Z) : Z * Z := if 0 <=? n then (a * 2 ^ n, b) else (a, b * 2 ^ (- n)).
Definition scale10 (a b n : Z) : Z * Z := if 0 <=? n then (a * 10 ^ n, b) else (a, b * 10 ^ (- n)).

(** The double nearest to [a / b], both positive. *)
Definition nearest (a b : Z) : option (Z * Z) :=
  let k0 := Z.log2 a - Z.log2 b in
  let '(c, d) := scale2 a b (- k0) in
  let k := if c <? d then k0 - 1 else k0 in
  let e := Z.max (k - 52) min_exp in
  let '(c, d) := scale2 a b (- e) in
  let m := round_div c d in
  let '(m, e) := if m =? 2 * full_mant then (full_mant, e + 1) else (m, e) in
  if max_exp <? e then None else Some (m, e).

(** Sign, digits and decimal exponent of a literal. *)
Definition literal_parts (lit : string) : bool * Z * Z :=
  let '(neg, s) := match lit with String "-" r => (true, r) | _ => (false, lit) end in
  let '(int, s) := span_digits s in
  let '(frac, s) := match s with String "." r => span_digits r | _ => (EmptyString, s) end in
  let e := match s with
           | String _ r =>
               match r with
               | String "-" d => - default 0 (digits_value 0 d)
               | String "+" d => default 0 (digits_value 0 d)
               | _ => default 0 (digits_value 0 r)
               end
           | EmptyString => 0
           end in
  (neg, default 0 (digits_value 0 (int +:+ frac)), e - Z.of_nat (String.length frac)).

Definition ParseFloat (lit : string) : option float64 :=
  let '(neg, n, e) := literal_parts lit in
  if n =? 0 then Some (mkFloat neg 0 min_exp)
  else let '(a, b) := scale10 n 1 e in
       match nearest a b with
       | Some (m, e) => Some (mkFloat neg m e)
       | None => None
       end.

(** ** Shortest digits *)

(** The digits [d] and the point [dp] of the value [0.d * 10^dp]. *)
Fixpoint find_point (fuel : nat) (v den dp : Z) : Z :=
  match fuel with
  | O => dp
  | S f => let '(a, b) := scale10 den 1 dp in
           if v * b <? a then dp else find_point f v den (dp + 1)
  end.

(** From [n] digits on: the first length at which rounding down or up stays
    in the interval that rounds to the value. *)
Fixpoint shortest (fuel : nat) (n v lo hi den dp : Z) (incl : bool) : Z * Z :=
  match fuel with
  | O => (0, n)
  | S f =>
      let '(u, w) := scale10 den 1 (dp - n) in
      let down := v * w / u in
      let up := down + 1 in
      let okdown := if incl then lo * w <=? down * u else lo * w <? down * u in
      let okup := if incl then up * u <=? hi * w else up * u <? hi * w in
      if okdown && okup then (round_div (v * w) u, n)
      else if okdown then (down, n)
      else if okup then (up, n)
      else shortest f (n + 1) v lo hi den dp incl
  end.

(** Seventeen digits always identify a double.  Rounding up to [10^n] carries
    into the digit before. *)
Definition shortest_digits (m e : Z) : string * Z :=
  let '(p, den) := scale2 1 1 (e - 2) in
  let v := 4 * m * p in
  let lo := (if (m =? full_mant) && (min_exp <? e) then 4 * m - 1 else 4 * m - 2) * p in
  let hi := (4 * m + 2) * p in
  let dp := find_point 6 v den ((Z.log2 v - Z.log2 den) * 30103 / 100000 - 1) in
  let '(d, n) := shortest 17 1 v lo hi den dp (Z.even m) in
  (trim_zeros (dec_nonneg d EmptyString), if d =? 10 ^ n then dp + 1 else dp).

(** ** Layouts *)

Fixpoint zeros (n : nat) : string := match n with O => EmptyString | S n' => String "0" (zeros n') end.

Definition sign_text (neg : bool) (s : string) : string := if neg then String "-" s else s.

(** [%f] with the shortest precision. *)
Definition layout_f (digits : string) (dp : Z) : string :=
  let nd := Z.of_nat (String.length digits) in
  if dp <=? 0 then "0" +:+ (String "." (zeros (Z.to_nat (- dp)) +:+ digits))
  else if nd <=? dp then digits +:+ zeros (Z.to_nat (dp - nd))
  else str_take (Z.to_nat dp) digits +:+ String "." (str_drop (Z.to_nat dp) digits).

(** [%e]; encoding/json prints the exponent without its leading zero when it
    is negative, fmt with two digits. *)
Definition layout_e (two_digits : bool) (digits : string) (dp : Z) : string :=
  let x := dp - 1 in
  let a := Z.abs x in
  let sign := if x <? 0 then "-"%char else "+"%char in
  let pad := (a <? 10) && (two_digits || (0 <=? x)) in
  match digits with
  | String d r =>
      String d ((match r with EmptyString => EmptyString | _ => String "." r end)
        +:+ String "e" (String sign ((if pad then "0" else EmptyString) +:+ itoa a)))
  | EmptyString => EmptyString
  end.

(** encoding/json: [%e] below 1e-6 and from 1e21. *)
Definition json_float (f : float64) : string :=
  sign_text (fl_neg f)
    (if fl_mant f =? 0 then "0" else
     let '(digits, dp) := shortest_digits (fl_mant f) (fl_exp f) in
     if (dp <? -5) || (21 <? dp) then layout_e false digits dp else layout_f digits dp).

(** [fmt.Sprintf("%v", f)]: [%g], which is [%e] for exponents below -4 and
    from 6 on. *)
Definition fmt_float (f : float64) : string :=
  sign_text (fl_neg f)
    (if fl_mant f =? 0 then "0" else
     let '(digits, dp) := shortest_digits (fl_mant f) (fl_exp f) in
     if (dp <? -3) || (6 <? dp) then layout_e true digits dp else layout_f digits dp).

(** ** What decoding into [any] does to numbers *)

(** [json.Unmarshal] reports a number beyond the largest double. *)
Fixpoint numbers_in_range (v : json) : bool :=
  match v with
  | JNum lit => match ParseFloat lit with Some _ => true | None => false end
  | JArr l => forallb numbers_in_range l
  | JObj l => forallb (fun '(_, x) => numbers_in_range x) l
  | _ => true
  end.

Definition with_float (f : float64 -> string) (lit : string) : string :=
  match ParseFloat lit with Some x => f x | None => lit end.

(** Every literal replaced by the text [json.Marshal] prints its double with. *)
Fixpoint reprint_numbers (v : json) : json :=
  match v with
  | JNum lit => JNum (with_float json_float lit)
  | JArr l => JArr (map reprint_numbers l)
  | JObj l => JObj (map (fun '(k, x) => (k, reprint_numbers x)) l)
  | _ => v
  end.

(** A Go map has one value per key: of duplicates the last one counts. *)
Fixpoint go_maps (v : json) : json :=
  match v with
  | JArr l => JArr (map go_maps l)
  | JObj l => JObj (sort_fields (map (fun '(k, x) => (k, go_maps x)) l))
  | _ => v
  end.

(** [json.Unmarshal(data, &obj)] for [obj map[string]any]: [null] leaves the
    map nil, which reads and prints like [None] here. *)
Inductive unmarshal_error := SyntaxError | TypeError | RangeError.

Definition unmarshal_map (data : string) : result unmarshal_error (option (list (string * json))) :=
  match unmarshal data with
  | None => Err SyntaxError
  | Some JNull => Ok None
  | Some v => match go_maps v with
              | JObj l => if numbers_in_range v then Ok (Some l) else Err RangeError
              | _ => Err TypeError
              end
  end.

Definition marshal_map (obj : option (list (string * json))) : string :=
  match obj with Some l => print (reprint_numbers (JObj l)) | None => "null" end.

(** [fmt.Sprintf("%v", v)] of a decoded value. *)
Fixpoint fmt_value (v : json) : string :=
  match v with
  | JNull => "<nil>"
  | JBool true => "true"
  | JBool false => "false"
  | JNum lit => with_float fmt_float lit
  | JStr s => s
  | JArr l => "[" +:+ (join " " (map fmt_value l) +:+ "]")
  | JObj l => "map[" +:+ (join " " (map (fun '(k, x) => k +:+ String ":" (fmt_value x)) l) +:+ "]")
  end.

Example float_exact : option_map json_float (ParseFloat "9007199254740993") = Some "9007199254740992".
Proof. vm_compute. reflexivity. Qed.

Example float_short : option_map json_float (ParseFloat "0.30000000000000004") = Some "0.30000000000000004".
Proof. vm_compute. reflexivity. Qed.

Example float_small : option_map json_float (ParseFloat "4.9406564584124654e-324") = Some "5e-324".
Proof. vm_compute. reflexivity. Qed.

Example float_carry : option_map json_float (ParseFloat "9.999999999999999e22") = Some "1e+23".
Proof. vm_compute. reflexivity. Qed.

Example float_v : option_map fmt_float (ParseFloat "1234567") = Some "1.234567e+06".
Proof. vm_compute. reflexivity. Qed.

Example float_range : ParseFloat "1e309" = None.
Proof. vm_compute. reflexivity. Qed.

(** ** Conversions and comparisons

    [float64(z)] for an int, and [int(f)]: truncation, where Go leaves the
    result for a value outside the range of int to the machine. *)
Definition float_of_int (z : Z) : float64 :=
  if z =? 0 then mkFloat false 0 min_exp
  else match nearest (Z.abs z) 1 with
       | Some (m, e) => mkFloat (z <? 0) m e
       | None => mkFloat (z <? 0) full_mant max_exp
       end.

Definition trunc (f : float64) : Z :=
  let '(a, b) := scale2 (fl_mant f) 1 (fl_exp f) in
  if fl_neg f then - (a / b) else a / b.

Definition min_int64 : Z := - 2 ^ 63.
Definition max_int64 : Z := 2 ^ 63 - 1.

(** A sum or product of int64 values, as the machine keeps it. *)
Definition wrap64 (z : Z) : Z := (z + 2 ^ 63) mod 2 ^ 64 - 2 ^ 63.

Lemma wrap64_id z : - 2 ^ 63 <= z < 2 ^ 63 -> wrap64 z = z.
Proof. intros H. unfold wrap64. rewrite Z.mod_small; lia. Qed.

Definition int_of_float (overflow : float64 -> Z) (f : float64) : Z :=
  if in_range min_int64 max_int64 (trunc f) then trunc f else overflow f.

(** The value as a multiple of the smallest positive double. *)
Definition scaled (f : float64) : Z :=
  (if fl_neg f then -1 else 1) * fl_mant f * 2 ^ (fl_exp f - min_exp).

Definition float_ltb (f g : float64) : bool := scaled f <? scaled g.
Definition float_eqb (f g : float64) : bool := scaled f =? scaled g.
Definition float_pos (f : float64) : bool := 0 <? scaled f.

(** [f / n] for a positive int constant, and [2 * f]. *)
Definition float_quot (f : float64) (n : Z) : float64 :=
  if fl_mant f =? 0 then f
  else let '(a, b) := scale2 (fl_mant f) 1 (fl_exp f) in
       match nearest a (b * n) with
       | Some (m, e) => mkFloat (fl_neg f) m e
       | None => f
       end.

Definition float_twice (f : float64) : float64 :=
  if fl_mant f <? full_mant then mkFloat (fl_neg f) (2 * fl_mant f) (fl_exp f)
  else mkFloat (fl_neg f) (fl_mant f) (fl_exp f + 1).

Example conversions :
  map (int_of_float (fun _ => 0)) [float_of_int 100; float_of_int (-7); float_quot (float_of_int 3500) 60;
    float_twice (float_quot (float_of_int 3500) 60); float_of_int (2 ^ 63)] = [100; -7; 58; 116; 0].
Proof. vm_compute. reflexivity. Qed.
