(* ===== verification/Events.v ===== *)
(** internal/runtime/jobstore/event.go: event types, the immutable [JobEvent],
    the event payloads, their constructors and decoders.

    [Payload] is a byte string in which Go's [nil] and the empty slice
    coincide: the constructors never build an empty payload. *)

From S2P Require Import Prelude Sha256 GoTime Json JsonFacts.

(** ** Event types (event.go:23-130) *)

Inductive EventType :=
| JobCreated
| PlanGenerated
| NodeStarted
| NodeFinished
| CommandEmitted
| CommandCommitted
| ToolCalled
| ToolReturned
| ToolInvocationStarted
| ToolInvocationFinished
| StepCommitted
| JobCompleted
| JobFailed
| JobCancelled
| JobQueued
| JobLeased
| JobRunning
| JobWaiting
| JobRequeued
| JobRetrying
| WaitCompleted
| JobParked
| JobResumed
| StepStarted
| StepFinished
| StepFailed
| StepRetried
| CheckpointSaved
| TimerFired
| RandomRecorded
| UUIDRecorded
| HTTPRecorded
| AgentMessage
| StateCheckpointed
| AgentThoughtRecorded
| DecisionMade
| ToolSelected
| ToolResultSummarized
| RecoveryStarted
| RecoveryCompleted
| StepCompensated
| StateChanged
| ReasoningSnapshot
| DecisionSnapshot
| MemoryRead
| MemoryWrite
| PlanEvolution
| JobArchived
| JobDeleted
| AccessAudited
| CriticalDecisionMade
| HumanApprovalGiven
| PaymentExecuted
| EmailSent
| EvidenceExportRequested
| EvidenceExportCompleted
| ApprovalRequested
| ApprovalCompleted
| LedgerAcquired
| LedgerCommitted
| RouteDecisionRecorded
| JobStarted
| StepSkipped
| EffectRecorded
| UnknownEvent (name : string).

Definition known_event_types : list EventType :=
  [JobCreated; PlanGenerated; NodeStarted; NodeFinished;
   CommandEmitted; CommandCommitted; ToolCalled; ToolReturned;
   ToolInvocationStarted; ToolInvocationFinished; StepCommitted; JobCompleted;
   JobFailed; JobCancelled; JobQueued; JobLeased;
   JobRunning; JobWaiting; JobRequeued; JobRetrying;
   WaitCompleted; JobParked; JobResumed; StepStarted;
   StepFinished; StepFailed; StepRetried; CheckpointSaved;
   TimerFired; RandomRecorded; UUIDRecorded; HTTPRecorded;
   AgentMessage; StateCheckpointed; AgentThoughtRecorded; DecisionMade;
   ToolSelected; ToolResultSummarized; RecoveryStarted; RecoveryCompleted;
   StepCompensated; StateChanged; ReasoningSnapshot; DecisionSnapshot;
   MemoryRead; MemoryWrite; PlanEvolution; JobArchived;
   JobDeleted; AccessAudited; CriticalDecisionMade; HumanApprovalGiven;
   PaymentExecuted; EmailSent; EvidenceExportRequested; EvidenceExportCompleted;
   ApprovalRequested; ApprovalCompleted; LedgerAcquired; LedgerCommitted;
   RouteDecisionRecorded; JobStarted; StepSkipped; EffectRecorded].

Definition event_type_string (t : EventType) : string :=
  match t with
  | JobCreated => "job_created"
  | PlanGenerated => "plan_generated"
  | NodeStarted => "node_started"
  | NodeFinished => "node_finished"
  | CommandEmitted => "command_emitted"
  | CommandCommitted => "command_committed"
  | ToolCalled => "tool_called"
  | ToolReturned => "tool_returned"
  | ToolInvocationStarted => "tool_invocation_started"
  | ToolInvocationFinished => "tool_invocation_finished"
  | StepCommitted => "step_committed"
  | JobCompleted => "job_completed"
  | JobFailed => "job_failed"
  | JobCancelled => "job_cancelled"
  | JobQueued => "job_queued"
  | JobLeased => "job_leased"
  | JobRunning => "job_running"
  | JobWaiting => "job_waiting"
  | JobRequeued => "job_requeued"
  | JobRetrying => "job_retrying"
  | WaitCompleted => "wait_completed"
  | JobParked => "job_parked"
  | JobResumed => "job_resumed"
  | StepStarted => "step_started"
  | StepFinished => "step_finished"
  | StepFailed => "step_failed"
  | StepRetried => "step_retried"
  | CheckpointSaved => "checkpoint_saved"
  | TimerFired => "timer_fired"
  | RandomRecorded => "random_recorded"
  | UUIDRecorded => "uuid_recorded"
  | HTTPRecorded => "http_recorded"
  | AgentMessage => "agent_message"
  | StateCheckpointed => "state_checkpointed"
  | AgentThoughtRecorded => "agent_thought_recorded"
  | DecisionMade => "decision_made"
  | ToolSelected => "tool_selected"
  | ToolResultSummarized => "tool_result_summarized"
  | RecoveryStarted => "recovery_started"
  | RecoveryCompleted => "recovery_completed"
  | StepCompensated => "step_compensated"
  | StateChanged => "state_changed"
  | ReasoningSnapshot => "reasoning_snapshot"
  | DecisionSnapshot => "decision_snapshot"
  | MemoryRead => "memory_read"
  | MemoryWrite => "memory_write"
  | PlanEvolution => "plan_evolution"
  | JobArchived => "job_archived"
  | JobDeleted => "job_deleted"
  | AccessAudited => "access_audited"
  | CriticalDecisionMade => "critical_decision_made"
  | HumanApprovalGiven => "human_approval_given"
  | PaymentExecuted => "payment_executed"
  | EmailSent => "email_sent"
  | EvidenceExportRequested => "evidence_export_requested"
  | EvidenceExportCompleted => "evidence_export_completed"
  | ApprovalRequested => "approval_requested"
  | ApprovalCompleted => "approval_completed"
  | LedgerAcquired => "ledger_acquired"
  | LedgerCommitted => "ledger_committed"
  | RouteDecisionRecorded => "route_decision_recorded"
  | JobStarted => "job_started"
  | StepSkipped => "step_skipped"
  | EffectRecorded => "effect_recorded"
  | UnknownEvent name => name
  end.

#[export] Instance event_type_eq_dec : EqDecision EventType.
Proof. solve_decision. Defined.

(** The event type a stored or transported name denotes. *)
Definition event_type_of_string (s : string) : EventType :=
  default (UnknownEvent s)
    (snd <$> list_find (fun t => event_type_string t = s) known_event_types).

(** ** Events (event.go:187-205) *)

Record JobEvent := mkJobEvent {
  ev_ID : string;
  ev_JobID : string;
  ev_Type : EventType;
  ev_Payload : string;
  ev_CreatedAt : time;
  ev_PrevHash : string;
  ev_Hash : string;
}.

#[export] Instance job_event_eq_dec : EqDecision JobEvent.
Proof. solve_decision. Defined.

Definition new_event (now : time) (jobID : string) (t : EventType) (payload : string) : JobEvent :=
  mkJobEvent EmptyString jobID t payload now EmptyString EmptyString.

(** ** Struct printing: members in declaration order, [omitempty] members
    dropped when empty. *)

Definition m_str (name v : string) : list (string * string) := [(name, quote v)].
Definition m_int (name : string) (v : Z) : list (string * string) := [(name, itoa v)].
Definition m_bool (name : string) (v : bool) : list (string * string) :=
  [(name, if v then "true" else "false")].
Definition m_str_omit (name v : string) : list (string * string) :=
  match v with EmptyString => [] | _ => m_str name v end.

(** [time.Time.MarshalJSON] refuses a year outside [0, 9999]. *)
Definition marshal_time (t : time) : option string :=
  let '(y, _, _) := civil_from_days ((unix_nano t / second + zone t) / 86400) in
  if in_range 0 9999 y then Some (quote (format_rfc3339nano t)) else None.

(** ** Payloads (event.go:133-268) *)

Record JobWaitingPayload := mkJobWaiting {
  jw_NodeID : string; jw_WaitType : string; jw_CorrelationKey : string; jw_WaitKind : string;
  jw_Reason : string; jw_ExpiresAtRFC3339 : string; jw_ResumptionContext : string;
}.

Definition empty_JobWaiting : JobWaitingPayload :=
  mkJobWaiting EmptyString EmptyString EmptyString EmptyString EmptyString EmptyString EmptyString.

(** The payload and whether decoding reported an error. *)
Definition ParseJobWaitingPayload (payload : string) : JobWaitingPayload * bool :=
  match payload with
  | EmptyString => (empty_JobWaiting, false)
  | _ =>
      match unmarshal_doc payload with
      | DocObject ms =>
          let f name := dec_str name ms in
          let err := snd (f "node_id") || snd (f "wait_type") || snd (f "correlation_key")
                     || snd (f "wait_kind") || snd (f "reason") || snd (f "expires_at") in
          (mkJobWaiting (fst (f "node_id")) (fst (f "wait_type")) (fst (f "correlation_key"))
             (fst (f "wait_kind")) (fst (f "reason")) (fst (f "expires_at"))
             (dec_raw "resumption_context" ms), err)
      | DocNull => (empty_JobWaiting, false)
      | DocOther | DocSyntaxError => (empty_JobWaiting, true)
      end
  end.

Definition JobParkedPayload (reason correlationKey waitType : string) : list (string * string) :=
  m_str "reason" reason ++ m_str "correlation_key" correlationKey ++ m_str "wait_type" waitType.

Definition JobResumedPayload (correlationKey resumedBy : string) : list (string * string) :=
  m_str "correlation_key" correlationKey ++ m_str "resumed_by" resumedBy.

Definition StepStartedPayload (stepID nodeID : string) (stepIndex : Z) (input : string) :=
  m_str "step_id" stepID ++ m_str "node_id" nodeID ++ m_int "step_index" stepIndex
  ++ m_str_omit "input" input.

Definition StepFinishedPayload (stepID nodeID : string) (stepIndex : Z) (output : string)
    (durationMs : Z) :=
  m_str "step_id" stepID ++ m_str "node_id" nodeID ++ m_int "step_index" stepIndex
  ++ m_str_omit "output" output ++ m_int "duration_ms" durationMs.

Definition StepFailedPayload (stepID nodeID : string) (stepIndex : Z) (errMsg : string)
    (retryable : bool) :=
  m_str "step_id" stepID ++ m_str "node_id" nodeID ++ m_int "step_index" stepIndex
  ++ m_str "error" errMsg ++ m_bool "retryable" retryable.

Definition StepRetriedPayload (stepID nodeID : string) (stepIndex retryCount : Z)
    (prevError : string) (maxRetries : Z) :=
  m_str "step_id" stepID ++ m_str "node_id" nodeID ++ m_int "step_index" stepIndex
  ++ m_int "retry_count" retryCount ++ m_str "prev_error" prevError ++ m_int "max_retries" maxRetries.

Definition CheckpointSavedPayload (checkpointID jobID sessionID cursor : string)
    (stepIndex snapshotSize : Z) :=
  m_str "checkpoint_id" checkpointID ++ m_str "job_id" jobID ++ m_str "session_id" sessionID
  ++ m_str "cursor" cursor ++ m_int "step_index" stepIndex ++ m_int "snapshot_size" snapshotSize.

(** ** Constructors (event.go:271-411).  [Marshal] of strings, integers and
    booleans does not fail. *)

Definition NewJobParkedEvent (now : time) (jobID reason correlationKey waitType : string) : JobEvent :=
  new_event now jobID JobParked (obj_text (JobParkedPayload reason correlationKey waitType)).

Definition NewJobResumedEvent (now : time) (jobID correlationKey resumedBy : string) : JobEvent :=
  new_event now jobID JobResumed (obj_text (JobResumedPayload correlationKey resumedBy)).

Definition NewStepStartedEvent (now : time) (jobID stepID nodeID : string) (stepIndex : Z)
    (input : string) : JobEvent :=
  new_event now jobID StepStarted (obj_text (StepStartedPayload stepID nodeID stepIndex input)).

Definition NewStepFinishedEvent (now : time) (jobID stepID nodeID : string) (stepIndex : Z)
    (output : string) (durationMs : Z) : JobEvent :=
  new_event now jobID StepFinished
    (obj_text (StepFinishedPayload stepID nodeID stepIndex output durationMs)).

Definition NewStepFailedEvent (now : time) (jobID stepID nodeID : string) (stepIndex : Z)
    (errMsg : string) (retryable : bool) : JobEvent :=
  new_event now jobID StepFailed
    (obj_text (StepFailedPayload stepID nodeID stepIndex errMsg retryable)).

Definition NewStepRetriedEvent (now : time) (jobID stepID nodeID : string)
    (stepIndex retryCount maxRetries : Z) (prevError : string) : JobEvent :=
  new_event now jobID StepRetried
    (obj_text (StepRetriedPayload stepID nodeID stepIndex retryCount prevError maxRetries)).

Definition NewCheckpointSavedEvent (now : time) (jobID checkpointID sessionID cursor : string)
    (stepIndex snapshotSize : Z) : JobEvent :=
  new_event now jobID CheckpointSaved
    (obj_text (CheckpointSavedPayload checkpointID jobID sessionID cursor stepIndex snapshotSize)).

(** ** Approvals (event.go:414-493) *)

Definition m_time (name : string) (t : time) : option (list (string * string)) :=
  (fun raw => [(name, raw)]) <$> marshal_time t.

Definition ApprovalRequestedPayload (approvalID jobID nodeID correlationKey approverType approverID
    role title description : string) (payload : list (string * json)) (expiresAt : option time)
    (createdAt : time) : option (list (string * string)) :=
  expires ← match expiresAt with Some t => m_time "expires_at" t | None => Some [] end;
  created ← m_time "created_at" createdAt;
  Some (m_str "approval_id" approvalID ++ m_str "job_id" jobID ++ m_str "node_id" nodeID
    ++ m_str "correlation_key" correlationKey ++ m_str "approver_type" approverType
    ++ m_str_omit "approver_id" approverID ++ m_str_omit "role" role
    ++ m_str "title" title ++ m_str "description" description
    ++ (match payload with [] => [] | _ => [("payload", print (JObj payload))] end)
    ++ expires ++ created).

Definition ApprovalCompletedPayload (approvalID jobID nodeID correlationKey decision approverID
    approverName comment delegatedTo : string) (completedAt : time) : option (list (string * string)) :=
  completed ← m_time "completed_at" completedAt;
  Some (m_str "approval_id" approvalID ++ m_str "job_id" jobID ++ m_str "node_id" nodeID
    ++ m_str "correlation_key" correlationKey ++ m_str "decision" decision
    ++ m_str_omit "approver_id" approverID ++ m_str_omit "approver_name" approverName
    ++ m_str_omit "comment" comment ++ m_str_omit "delegated_to" delegatedTo ++ completed).

Definition NewApprovalRequestedEvent (now : time) (jobID approvalID nodeID correlationKey
    approverType title description : string) (payload : list (string * json))
    (expiresAt : option time) : result string JobEvent :=
  match ApprovalRequestedPayload approvalID jobID nodeID correlationKey approverType EmptyString
          EmptyString title description payload expiresAt now with
  | Some fields => Ok (new_event now jobID ApprovalRequested (obj_text fields))
  | None => Err "Time.MarshalJSON: year outside of range [0,9999]"
  end.

Definition NewApprovalCompletedEvent (now : time) (jobID approvalID nodeID correlationKey decision
    approverID approverName comment delegatedTo : string) : result string JobEvent :=
  match ApprovalCompletedPayload approvalID jobID nodeID correlationKey decision approverID
          approverName comment delegatedTo now with
  | Some fields => Ok (new_event now jobID ApprovalCompleted (obj_text fields))
  | None => Err "Time.MarshalJSON: year outside of range [0,9999]"
  end.

(** ** The ledger's atomic-commit events (event.go:496-553) *)

Record LedgerPayload := mkLedgerPayload {
  lp_InvocationID : string; lp_JobID : string; lp_StepID : string; lp_ToolName : string;
  lp_IdempotencyKey : string;
}.

(** [LedgerAcquiredPayload] and [LedgerCommittedPayload] have the same members. *)
Definition marshal_ledger_payload (p : LedgerPayload) : string :=
  obj_text (m_str "invocation_id" (lp_InvocationID p) ++ m_str "job_id" (lp_JobID p)
    ++ m_str "step_id" (lp_StepID p) ++ m_str "tool_name" (lp_ToolName p)
    ++ m_str "idempotency_key" (lp_IdempotencyKey p)).

Definition empty_LedgerPayload : LedgerPayload :=
  mkLedgerPayload EmptyString EmptyString EmptyString EmptyString EmptyString.

(** [e.UnmarshalPayload(&payload)] (event.go:200-205). *)
Definition unmarshal_ledger_payload (payload : string) : LedgerPayload * bool :=
  match payload with
  | EmptyString => (empty_LedgerPayload, false)
  | _ =>
      match unmarshal_doc payload with
      | DocObject ms =>
          let f name := dec_str name ms in
          (mkLedgerPayload (fst (f "invocation_id")) (fst (f "job_id")) (fst (f "step_id"))
             (fst (f "tool_name")) (fst (f "idempotency_key")),
           snd (f "invocation_id") || snd (f "job_id") || snd (f "step_id")
           || snd (f "tool_name") || snd (f "idempotency_key"))
      | DocNull => (empty_LedgerPayload, false)
      | DocOther | DocSyntaxError => (empty_LedgerPayload, true)
      end
  end.

Definition NewLedgerAcquiredEvent (now : time) (p : LedgerPayload) : JobEvent :=
  new_event now (lp_JobID p) LedgerAcquired (marshal_ledger_payload p).

Definition NewLedgerCommittedEvent (now : time) (p : LedgerPayload) : JobEvent :=
  new_event now (lp_JobID p) LedgerCommitted (marshal_ledger_payload p).

(** ** Facts *)

Lemma known_event_types_nodup : NoDup known_event_types.
Proof. apply (bool_decide_unpack _). vm_compute. exact I. Qed.

Lemma event_names_nodup : NoDup (map event_type_string known_event_types).
Proof. apply (bool_decide_unpack _). vm_compute. exact I. Qed.

Lemma event_type_of_string_known t :
  t ∈ known_event_types -> event_type_of_string (event_type_string t) = t.
Proof.
  intros H. repeat (apply elem_of_cons in H as [->|H]; [vm_compute; reflexivity|]).
  by apply elem_of_nil in H.
Qed.

Lemma known_event_name_no_bar t :
  t ∈ known_event_types -> str_in bar (event_type_string t) = false.
Proof.
  intros H. repeat (apply elem_of_cons in H as [->|H]; [vm_compute; reflexivity|]).
  by apply elem_of_nil in H.
Qed.

Definition ledger_payload_utf8 (p : LedgerPayload) : bool :=
  utf8_valid (lp_InvocationID p) && utf8_valid (lp_JobID p) && utf8_valid (lp_StepID p)
  && utf8_valid (lp_ToolName p) && utf8_valid (lp_IdempotencyKey p).

(** A ledger payload of valid UTF-8 is read back from the event it was written to. *)
Lemma unmarshal_marshal_ledger p :
  ledger_payload_utf8 p = true ->
  unmarshal_ledger_payload (marshal_ledger_payload p) = (p, false).
Proof.
  destruct p as [i j s t k]. unfold ledger_payload_utf8.
  cbn [lp_InvocationID lp_JobID lp_StepID lp_ToolName lp_IdempotencyKey]. intros H. bool_hyps.
  set (fs := [("invocation_id", quote i, JStr i); ("job_id", quote j, JStr j);
              ("step_id", quote s, JStr s); ("tool_name", quote t, JStr t);
              ("idempotency_key", quote k, JStr k)] : list (string * string * json)).
  change (marshal_ledger_payload _) with (obj_text (fields_of fs)).
  unfold unmarshal_ledger_payload. rewrite unmarshal_doc_obj; [|unfold fs; discriminate|].
  - rewrite obj_text_unfold. lazy. reflexivity.
  - repeat constructor; by apply scans_quote.
Qed.
