(* ===== verification/MemStore.v ===== *)
(** internal/runtime/jobstore/{store,memory_store,snapshot}.go: the in-memory
    event store with versioned append, claim leases, attempt fencing and
    watch channels.

    [time.Now()] and [uuid.New()] are arguments.  Go iterates a map in an
    arbitrary order: [Claim] takes the order it visits the jobs in.  [Append]
    checks the attempt under a read lock and appends under a second, separate
    write lock, so it is two operations here; [Append] itself is their
    uninterrupted composition. *)

From S2P Require Import Prelude Sha256 GoTime Json Events.

Inductive jobstore_error :=
| ErrNoJob
| ErrVersionMismatch
| ErrClaimNotFound
| ErrStaleAttempt
| ErrStaleLease.

#[export] Instance jobstore_error_eq_dec : EqDecision jobstore_error.
Proof. solve_decision. Defined.

Definition leaseDuration : Z := 30 * second.
Definition watchChanBuffer : nat := 16.

Record claimRecord := mkClaim { cl_WorkerID : string; cl_ExpiresAt : time; cl_AttemptID : string }.

(** A Go channel of events: buffered values and the closed flag. *)
Record channel := mkChan { ch_buf : list JobEvent; ch_closed : bool }.

Record memoryStore := mkStore {
  byJob : gmap string (list JobEvent);
  claims : gmap string claimRecord;
  watchers : gmap string (list nat);
  chans : gmap nat channel;
  next_chan : nat;
}.

Definition NewMemoryStore : memoryStore := mkStore ∅ ∅ ∅ ∅ 0.

Definition set_byJob m s := mkStore m (claims s) (watchers s) (chans s) (next_chan s).
Definition set_claims m s := mkStore (byJob s) m (watchers s) (chans s) (next_chan s).
Definition set_watch w c s := mkStore (byJob s) (claims s) w c (next_chan s).

(** ** Reading (memory_store.go:55-73) *)

Definition events_of (s : memoryStore) (jobID : string) : list JobEvent :=
  get_default [] (byJob s) jobID.

Definition ListEvents (s : memoryStore) (jobID : string) : list JobEvent * Z :=
  (events_of s jobID, Z.of_nat (length (events_of s jobID))).

(** ** Append (memory_store.go:75-144) *)

Definition computeMemEventHash (jobID : string) (eventType : EventType) (payload : string)
    (timestamp : time) (prevHash : string) : string :=
  hex_sha256 (jobID +:+ (String bar (event_type_string eventType +:+ (String bar
    (payload +:+ (String bar (format_rfc3339nano timestamp +:+ (String bar prevHash)))))))).

(** Lines 76-88; an empty [attemptID] means the context carries none. *)
Definition append_check (now : time) (attemptID jobID : string) (s : memoryStore)
    : result jobstore_error unit :=
  if String.eqb jobID EmptyString then Err ErrVersionMismatch
  else if String.eqb attemptID EmptyString then Ok tt
  else match claims s !! jobID with
       | Some claim =>
           if t_before (cl_ExpiresAt claim) now || negb (String.eqb (cl_AttemptID claim) attemptID)
           then Err ErrStaleAttempt else Ok tt
       | None => Err ErrStaleAttempt
       end.

(** Lines 89-100: the identity, job and time of the event are filled in. *)
Definition prepare_event (now : time) (uuid jobID : string) (e : JobEvent) : JobEvent :=
  mkJobEvent (if String.eqb (ev_ID e) EmptyString then "ev-" +:+ uuid else ev_ID e) jobID
    (ev_Type e) (ev_Payload e) (if is_zero (ev_CreatedAt e) then now else ev_CreatedAt e)
    (ev_PrevHash e) (ev_Hash e).

(** Lines 124-144: a full channel is closed and dropped; a send on a closed
    channel panics. *)
Fixpoint notify_loop (cs : list nat) (e : JobEvent) (heap : gmap nat channel)
    : outcome (gmap nat channel * list nat) :=
  match cs with
  | [] => Ret (heap, [])
  | c :: cs' =>
      match heap !! c with
      | None => notify_loop cs' e heap
      | Some ch =>
          if ch_closed ch then Panic "send on closed channel"
          else if (length (ch_buf ch) <? watchChanBuffer)%nat then
            run r <- notify_loop cs' e (<[c := mkChan (ch_buf ch ++ [e]) false]> heap) ;;
            Ret (fst r, c :: snd r)
          else notify_loop cs' e (<[c := mkChan (ch_buf ch) true]> heap)
      end
  end.

Definition notifyWatchersLocked (jobID : string) (e : JobEvent) (s : memoryStore)
    : outcome memoryStore :=
  match get_default [] (watchers s) jobID with
  | [] => Ret s
  | cs => run r <- notify_loop cs e (chans s) ;;
          Ret (set_watch (<[jobID := snd r]> (watchers s)) (fst r) s)
  end.

Definition prev_hash_of (current : list JobEvent) (expectedVersion : Z) : string :=
  match last current with
  | Some e => if 0 <? expectedVersion then ev_Hash e else EmptyString
  | None => EmptyString
  end.

Definition seal_event (jobID prevHash : string) (e : JobEvent) : JobEvent :=
  mkJobEvent (ev_ID e) (ev_JobID e) (ev_Type e) (ev_Payload e) (ev_CreatedAt e) prevHash
    (computeMemEventHash jobID (ev_Type e) (ev_Payload e) (ev_CreatedAt e) prevHash).

(** Lines 102-121, under the write lock. *)
Definition append_commit (jobID : string) (expectedVersion : Z) (e : JobEvent) (s : memoryStore)
    : result jobstore_error (outcome (memoryStore * Z)) :=
  let current := events_of s jobID in
  if negb (Z.of_nat (length current) =? expectedVersion) then Err ErrVersionMismatch
  else
    let e' := seal_event jobID (prev_hash_of current expectedVersion) e in
    let es := current ++ [e'] in
    Ok (run s' <- notifyWatchersLocked jobID e' (set_byJob (<[jobID := es]> (byJob s)) s) ;;
        Ret (s', Z.of_nat (length es))).

Definition Append (now : time) (uuid attemptID jobID : string) (expectedVersion : Z) (e : JobEvent)
    (s : memoryStore) : result jobstore_error (outcome (memoryStore * Z)) :=
  try _ <- append_check now attemptID jobID s ;;
  append_commit jobID expectedVersion (prepare_event now uuid jobID e) s.

(** ** Claims (memory_store.go:146-221) *)

Definition is_terminal (t : EventType) : bool :=
  match t with JobCompleted | JobFailed | JobCancelled => true | _ => false end.

Definition lease_live (now : time) (s : memoryStore) (jobID : string) : bool :=
  match claims s !! jobID with
  | Some c => t_after (cl_ExpiresAt c) now
  | None => false
  end.

Definition claimable (now : time) (s : memoryStore) (jobID : string) : bool :=
  match last (events_of s jobID) with
  | None => false
  | Some e => negb (is_terminal (ev_Type e)) && negb (lease_live now s jobID)
  end.

Definition take_lease (now : time) (workerID attemptID jobID : string) (s : memoryStore) : memoryStore :=
  set_claims (<[jobID := mkClaim workerID (t_add now leaseDuration) attemptID]> (claims s)) s.

(** Lines 146-167; [order] is the order the map is visited in. *)
Definition Claim (order : list string) (now : time) (uuid workerID : string) (s : memoryStore)
    : result jobstore_error (memoryStore * (string * Z * string)) :=
  let attemptID := "attempt-" +:+ uuid in
  match list_find (fun j => claimable now s j = true) order with
  | Some (_, jobID) =>
      Ok (take_lease now workerID attemptID jobID s,
          (jobID, Z.of_nat (length (events_of s jobID)), attemptID))
  | None => Err ErrNoJob
  end.

Definition ClaimJob (now : time) (uuid workerID jobID : string) (s : memoryStore)
    : result jobstore_error (memoryStore * (Z * string)) :=
  match last (events_of s jobID) with
  | None => Err ErrNoJob
  | Some e =>
      if is_terminal (ev_Type e) then Err ErrNoJob
      else if lease_live now s jobID then Err ErrClaimNotFound
      else let attemptID := "attempt-" +:+ uuid in
           Ok (take_lease now workerID attemptID jobID s,
               (Z.of_nat (length (events_of s jobID)), attemptID))
  end.

Definition Heartbeat (now : time) (workerID jobID : string) (s : memoryStore)
    : result jobstore_error memoryStore :=
  match claims s !! jobID with
  | Some c =>
      if negb (String.eqb (cl_WorkerID c) workerID) || t_before (cl_ExpiresAt c) now
      then Err ErrClaimNotFound
      else Ok (take_lease now workerID (cl_AttemptID c) jobID s)
  | None => Err ErrClaimNotFound
  end.

Definition GetCurrentAttemptID (now : time) (jobID : string) (s : memoryStore) : string :=
  match claims s !! jobID with
  | Some c => if t_before (cl_ExpiresAt c) now then EmptyString else cl_AttemptID c
  | None => EmptyString
  end.

(** The order of the result is the map's; it is immaterial to the callers. *)
Definition ListJobIDsWithExpiredClaim (now : time) (s : memoryStore) : list string :=
  map fst (filter (fun jc => t_before (cl_ExpiresAt (snd jc)) now = true
                             \/ t_equal (cl_ExpiresAt (snd jc)) now = true)
             (map_to_list (claims s))).

(** ** Watch (memory_store.go:223-245) *)

Definition Watch (jobID : string) (s : memoryStore) : memoryStore * nat :=
  let c := next_chan s in
  (mkStore (byJob s) (claims s) (<[jobID := get_default [] (watchers s) jobID ++ [c]]> (watchers s))
     (<[c := mkChan [] false]> (chans s)) (S c), c).

Definition close_chan (c : nat) (s : memoryStore) : outcome memoryStore :=
  match chans s !! c with
  | None => Panic "close of nil channel"
  | Some ch => if ch_closed ch then Panic "close of closed channel"
               else Ret (set_watch (watchers s) (<[c := mkChan (ch_buf ch) true]> (chans s)) s)
  end.

(** The goroutine [Watch] starts, once its context is done (lines 229-242). *)
Definition watch_cancel (jobID : string) (c : nat) (s : memoryStore) : outcome memoryStore :=
  let cs := get_default [] (watchers s) jobID in
  let w := match list_find (fun x => x = c) cs with
           | None => watchers s
           | Some (i, _) =>
               match splice i cs with
               | [] => delete jobID (watchers s)
               | cs' => <[jobID := cs']> (watchers s)
               end
           end in
  close_chan c (set_watch w (chans s) s).

(** A receive by the subscriber. *)
Definition chan_receive (c : nat) (s : memoryStore) : option (memoryStore * JobEvent) :=
  ch ← chans s !! c;
  match ch_buf ch with
  | [] => None
  | e :: b => Some (set_watch (watchers s) (<[c := mkChan b (ch_closed ch)]> (chans s)) s, e)
  end.

(** ** Snapshots: the memory store keeps none (memory_store.go:247-261). *)

Record JobSnapshot := mkSnapshot {
  sn_JobID : string; sn_Version : Z; sn_Snapshot : string; sn_CreatedAt : time;
}.

Definition CreateSnapshot (jobID : string) (upToVersion : Z) (snapshot : string) (s : memoryStore)
    : memoryStore := s.
Definition GetLatestSnapshot (jobID : string) (s : memoryStore) : option JobSnapshot := None.
Definition DeleteSnapshotsBefore (jobID : string) (beforeVersion : Z) (s : memoryStore)
    : memoryStore := s.
