(* ===== verification/MemStoreProps.v ===== *)
(** The in-memory event store under concurrency: workers whose [Append] calls
    are between the attempt check and the commit, a clock, claims with fresh
    attempt ids, and watch channels.  Invariants by induction on the steps:
    sealed hash chains, append-only streams, lease exclusivity, fencing of
    superseded attempts, open registered channels.

    After the invariants come watch channels, and the properties. *)

From S2P Require Import Prelude Sha256 GoTime Json Events MemStore.

(** ** The transition system *)

Record append_req := mkReq {
  rq_Attempt : string; rq_JobID : string; rq_Version : Z; rq_Event : JobEvent;
}.

Record system := mkSys {
  sys_store : memoryStore;
  sys_inflight : list append_req;
  sys_clock : time;
  sys_used : gset string;              (* attempt ids issued so far *)
  sys_subs : list (string * nat);      (* Watch goroutines waiting for their context *)
}.

Definition with_store s y := mkSys s (sys_inflight y) (sys_clock y) (sys_used y) (sys_subs y).
Definition with_append s l y := mkSys s l (sys_clock y) (sys_used y) (sys_subs y).
Definition with_claim s a y :=
  mkSys s (sys_inflight y) (sys_clock y) ({[a]} ∪ sys_used y) (sys_subs y).
Definition with_subs s l y := mkSys s (sys_inflight y) (sys_clock y) (sys_used y) l.
Definition with_clock t y := mkSys (sys_store y) (sys_inflight y) t (sys_used y) (sys_subs y).

Inductive step (y : system) : system -> Prop :=
| step_check att job v e uuid :
    append_check (sys_clock y) att job (sys_store y) = Ok tt ->
    step y (with_append (sys_store y)
      (mkReq att job v (prepare_event (sys_clock y) uuid job e) :: sys_inflight y) y)
| step_commit i rq s' n :
    sys_inflight y !! i = Some rq ->
    append_commit (rq_JobID rq) (rq_Version rq) (rq_Event rq) (sys_store y) = Ok (Ret (s', n)) ->
    step y (with_append s' (splice i (sys_inflight y)) y)
| step_reject i rq err :
    sys_inflight y !! i = Some rq ->
    append_commit (rq_JobID rq) (rq_Version rq) (rq_Event rq) (sys_store y) = Err err ->
    step y (with_append (sys_store y) (splice i (sys_inflight y)) y)
| step_claim order uuid worker s' job v att :
    Claim order (sys_clock y) uuid worker (sys_store y) = Ok (s', (job, v, att)) ->
    att ∉ sys_used y -> step y (with_claim s' att y)
| step_claim_job uuid worker job s' v att :
    ClaimJob (sys_clock y) uuid worker job (sys_store y) = Ok (s', (v, att)) ->
    att ∉ sys_used y -> step y (with_claim s' att y)
| step_heartbeat worker job s' :
    Heartbeat (sys_clock y) worker job (sys_store y) = Ok s' -> step y (with_store s' y)
| step_watch job s' c :
    Watch job (sys_store y) = (s', c) -> step y (with_subs s' ((job, c) :: sys_subs y) y)
| step_cancel i job c s' :
    sys_subs y !! i = Some (job, c) ->
    watch_cancel job c (sys_store y) = Ret s' -> step y (with_subs s' (splice i (sys_subs y)) y)
| step_receive c s' e :
    chan_receive c (sys_store y) = Some (s', e) -> step y (with_store s' y)
| step_tick d :
    0 <= d -> step y (with_clock (t_add (sys_clock y) d) y).

Definition initial (y : system) : Prop :=
  sys_store y = NewMemoryStore /\ sys_inflight y = [] /\ sys_used y = ∅ /\ sys_subs y = [].

Definition reachable (y : system) : Prop := exists y0, initial y0 /\ rtc step y0 y.

(** Invariants are proved once for the initial states and once per step. *)
Definition inductive_invariant (P : system -> Prop) : Prop :=
  (forall y, initial y -> P y) /\ (forall y y', P y -> step y y' -> P y').

Lemma reachable_invariant P y : inductive_invariant P -> reachable y -> P y.
Proof.
  intros [Hi Hs] (y0 & H0 & Hr). apply Hi in H0.
  induction Hr as [|y0 y1 y2 H01 _ IH]; [done|]. apply IH. eauto.
Qed.

(** ** What each operation changes *)

Lemma notify_keeps job e s s' :
  notifyWatchersLocked job e s = Ret s' -> byJob s' = byJob s /\ claims s' = claims s.
Proof.
  unfold notifyWatchersLocked. case_match; [by intros [= <-]|].
  rewrite outcome_bind_ret. by intros (? & _ & [= <-]).
Qed.

Lemma append_commit_effect job v e s s' n :
  append_commit job v e s = Ok (Ret (s', n)) ->
  v = Z.of_nat (length (events_of s job)) /\ n = v + 1 /\ claims s' = claims s /\
  byJob s' = <[job := events_of s job ++ [seal_event job (prev_hash_of (events_of s job) v) e]]> (byJob s).
Proof.
  unfold append_commit. case_match eqn:Hv; [done|]. bool_hyps. intros [= Hb].
  rewrite outcome_bind_ret in Hb. destruct Hb as (s1 & H1 & [= <- <-]).
  apply notify_keeps in H1 as [-> ->]. rewrite length_app. cbn. split_and!; [done|lia|done..].
Qed.

Lemma append_commit_reject job v e s err :
  append_commit job v e s = Err err ->
  err = ErrVersionMismatch /\ v <> Z.of_nat (length (events_of s job)).
Proof. unfold append_commit. case_match; [|done]. intros [= <-]. bool_hyps. done. Qed.

Lemma ClaimJob_ok now uuid w job s s' v att :
  ClaimJob now uuid w job s = Ok (s', (v, att)) <->
  claimable now s job = true /\ att = "attempt-" +:+ uuid /\
  v = Z.of_nat (length (events_of s job)) /\ s' = take_lease now w att job s.
Proof.
  unfold ClaimJob, claimable. destruct (last _) as [e|]; [|split; [done|by intros [? _]]].
  destruct (is_terminal _), (lease_live _ _ _); cbn; split; intros H; destruct_and?; by simplify_eq.
Qed.

Lemma Claim_ok order now uuid w s s' job v att :
  Claim order now uuid w s = Ok (s', (job, v, att)) ->
  job ∈ order /\ ClaimJob now uuid w job s = Ok (s', (v, att)).
Proof.
  unfold Claim. destruct (list_find _ order) as [[i j]|] eqn:Hf; [|done].
  intros [= <- <- <- <-]. apply list_find_Some in Hf as (Hi & Hc & _).
  split; [by eapply list_elem_of_lookup_2|]. by apply ClaimJob_ok.
Qed.

Lemma Heartbeat_ok now w job s s' :
  Heartbeat now w job s = Ok s' ->
  exists c, claims s !! job = Some c /\ cl_WorkerID c = w /\
    t_before (cl_ExpiresAt c) now = false /\ s' = take_lease now w (cl_AttemptID c) job s.
Proof.
  unfold Heartbeat. destruct (claims s !! job) as [c|]; [|done].
  case_match eqn:Hb; [done|]. intros [= <-]. bool_hyps. exists c.
  split_and!; [done| by apply String.eqb_eq |done|done].
Qed.

Lemma watch_cancel_keeps job c s s' :
  watch_cancel job c s = Ret s' -> byJob s' = byJob s /\ claims s' = claims s.
Proof. unfold watch_cancel, close_chan. cbn. intros H. go_break H; by simplify_eq/=. Qed.

Lemma chan_receive_keeps c s s' e :
  chan_receive c s = Some (s', e) -> byJob s' = byJob s /\ claims s' = claims s.
Proof.
  unfold chan_receive. destruct (chans s !! c); cbn; [|done]. case_match; [done|].
  by intros [= <- <-].
Qed.

Lemma events_of_insert s job es j :
  get_default [] (<[job := es]> (byJob s)) j = if decide (job = j) then es else events_of s j.
Proof. apply get_default_insert. Qed.

(** The streams of a step: unchanged, or one stream extended by a sealed event. *)
Lemma step_streams y y' :
  step y y' ->
  byJob (sys_store y') = byJob (sys_store y) \/
  exists rq, rq ∈ sys_inflight y /\
    rq_Version rq = Z.of_nat (length (events_of (sys_store y) (rq_JobID rq))) /\
    byJob (sys_store y') = <[rq_JobID rq := events_of (sys_store y) (rq_JobID rq) ++
       [seal_event (rq_JobID rq) (prev_hash_of (events_of (sys_store y) (rq_JobID rq)) (rq_Version rq))
          (rq_Event rq)]]> (byJob (sys_store y)).
Proof.
  destruct 1 as [| i rq s' n Hi Hc | | ??????? Hc ? | ?????? Hc ? | ??? Hc | ??? Hc | ????? Hc | ??? Hc |];
    cbn; auto.
  - right. exists rq. apply append_commit_effect in Hc as (Hv & _ & _ & Hb).
    split_and!; [by eapply list_elem_of_lookup_2|done|done].
  - apply Claim_ok in Hc as [_ Hc]. apply ClaimJob_ok in Hc as (_ & _ & _ & ->). by left.
  - apply ClaimJob_ok in Hc as (_ & _ & _ & ->). by left.
  - apply Heartbeat_ok in Hc as (? & _ & _ & _ & ->). by left.
  - left. unfold Watch in Hc. by simplify_eq/=.
  - left. by eapply watch_cancel_keeps.
  - left. by eapply chan_receive_keeps.
Qed.

(** The claims of a step: unchanged; a fresh attempt on a job without a live
    lease; or the holder's own extension. *)
Inductive claims_step (y : system) (m : gmap string claimRecord) (used : gset string) : Prop :=
| claims_same : m = claims (sys_store y) -> used = sys_used y -> claims_step y m used
| claims_taken job c :
    lease_live (sys_clock y) (sys_store y) job = false ->
    cl_AttemptID c ∉ sys_used y -> used = {[cl_AttemptID c]} ∪ sys_used y ->
    cl_ExpiresAt c = t_add (sys_clock y) leaseDuration ->
    m = <[job := c]> (claims (sys_store y)) -> claims_step y m used
| claims_extended job c :
    claims (sys_store y) !! job = Some c -> t_before (cl_ExpiresAt c) (sys_clock y) = false ->
    used = sys_used y ->
    m = <[job := mkClaim (cl_WorkerID c) (t_add (sys_clock y) leaseDuration) (cl_AttemptID c)]>
          (claims (sys_store y)) -> claims_step y m used.

Lemma claimable_not_live now s job : claimable now s job = true -> lease_live now s job = false.
Proof. unfold claimable. case_match; [|done]. intros Hb. by bool_hyps. Qed.

Lemma step_claims y y' : step y y' -> claims_step y (claims (sys_store y')) (sys_used y').
Proof.
  destruct 1 as [| i rq s' n Hi Hc | | ?? w ? job ?? Hc Hu | ? w job ??? Hc Hu | ??? Hc | ??? Hc | ????? Hc | ??? Hc |];
    cbn; try (by apply claims_same).
  - apply append_commit_effect in Hc as (_ & _ & Hc & _). by apply claims_same.
  - apply Claim_ok in Hc as [_ Hc]. apply ClaimJob_ok in Hc as (Hl & -> & _ & ->).
    refine (claims_taken y _ _ job (mkClaim w (t_add (sys_clock y) leaseDuration) _)
      _ Hu eq_refl eq_refl eq_refl). by apply claimable_not_live.
  - apply ClaimJob_ok in Hc as (Hl & -> & _ & ->).
    refine (claims_taken y _ _ job (mkClaim w (t_add (sys_clock y) leaseDuration) _)
      _ Hu eq_refl eq_refl eq_refl). by apply claimable_not_live.
  - apply Heartbeat_ok in Hc as (c & Hj & <- & Hb & ->). by eapply claims_extended.
  - apply claims_same; [|done]. unfold Watch in Hc. by simplify_eq/=.
  - apply claims_same; [|done]. by apply watch_cancel_keeps in Hc as [_ ->].
  - apply claims_same; [|done]. by apply chan_receive_keeps in Hc as [_ ->].
Qed.

(** ** Sealed chains *)

Fixpoint sealed (jobID prev : string) (es : list JobEvent) : Prop :=
  match es with
  | [] => True
  | e :: r =>
      ev_JobID e = jobID /\ ev_PrevHash e = prev /\
      ev_Hash e = computeMemEventHash jobID (ev_Type e) (ev_Payload e) (ev_CreatedAt e) prev /\
      sealed jobID (ev_Hash e) r
  end.

Definition tip (prev : string) (es : list JobEvent) : string :=
  match last es with Some e => ev_Hash e | None => prev end.

Lemma tip_cons prev e es : tip prev (e :: es) = tip (ev_Hash e) es.
Proof. unfold tip. rewrite last_cons. by destruct (last es). Qed.

Lemma sealed_snoc job prev es e :
  sealed job prev es -> ev_JobID e = job -> ev_PrevHash e = tip prev es ->
  ev_Hash e = computeMemEventHash job (ev_Type e) (ev_Payload e) (ev_CreatedAt e) (tip prev es) ->
  sealed job prev (es ++ [e]).
Proof.
  revert prev. induction es as [|x es IH]; intros prev Hs Hj Hp Hh; cbn in *; [done|].
  destruct Hs as (H1 & H2 & H3 & H4). split_and!; try done.
  rewrite tip_cons in Hp, Hh. by apply IH.
Qed.

Lemma prev_hash_of_tip es : prev_hash_of es (Z.of_nat (length es)) = tip EmptyString es.
Proof.
  unfold prev_hash_of, tip. destruct (last es) eqn:Hl; [|done].
  destruct es; [done|]. by cbn [length].
Qed.

Definition streams_sealed (y : system) : Prop :=
  (forall j, sealed j EmptyString (events_of (sys_store y) j)) /\
  (forall rq, rq ∈ sys_inflight y -> ev_JobID (rq_Event rq) = rq_JobID rq).

Lemma step_inflight y y' rq :
  step y y' -> rq ∈ sys_inflight y' ->
  rq ∈ sys_inflight y \/ ev_JobID (rq_Event rq) = rq_JobID rq.
Proof.
  destruct 1; cbn; intros Hin; auto.
  - apply elem_of_cons in Hin as [->|?]; auto.
  - left. eauto using elem_of_splice.
  - left. eauto using elem_of_splice.
Qed.

Lemma streams_sealed_invariant : inductive_invariant streams_sealed.
Proof.
  split.
  - intros y (H0 & Hi & _). unfold streams_sealed. rewrite H0, Hi.
    split; [by intros j|by intros rq ?%elem_of_nil].
  - intros y y' [Hs Hf] Hstep. split.
    + intros j. destruct (step_streams y y' Hstep) as [Hb|(rq & Hin & Hv & Hb)];
        unfold events_of in *; rewrite Hb; [apply Hs|].
      rewrite get_default_insert. case_decide as Hj; [|apply Hs]. subst j.
      specialize (Hs (rq_JobID rq)). unfold events_of in Hs |- *.
      rewrite Hv, prev_hash_of_tip. by apply sealed_snoc; cbn; auto.
    + intros rq Hin. destruct (step_inflight y y' rq Hstep Hin); auto.
Qed.

(** ** Append-only streams *)

Lemma step_append_only y y' j :
  step y y' -> events_of (sys_store y) j `prefix_of` events_of (sys_store y') j.
Proof.
  intros Hstep. destruct (step_streams y y' Hstep) as [Hb|(rq & Hin & Hv & Hb)];
    unfold events_of at 2; rewrite Hb; [done|].
  rewrite events_of_insert. case_decide; subst; [by eexists|done].
Qed.

Lemma star_append_only y y' j :
  rtc step y y' -> events_of (sys_store y) j `prefix_of` events_of (sys_store y') j.
Proof. induction 1; [done|]. etrans; [by eapply step_append_only|done]. Qed.

Lemma star_length_mono y y' j :
  rtc step y y' ->
  (length (events_of (sys_store y) j) <= length (events_of (sys_store y') j))%nat.
Proof. intros H. by apply prefix_length, star_append_only. Qed.

(** ** Clock *)

Lemma step_clock y y' : step y y' -> unix_nano (sys_clock y) <= unix_nano (sys_clock y').
Proof. destruct 1; cbn; lia. Qed.

Lemma star_clock y y' : rtc step y y' -> unix_nano (sys_clock y) <= unix_nano (sys_clock y').
Proof. induction 1 as [|??? H]; [lia|]. apply step_clock in H. lia. Qed.

(** ** Leases and fencing *)

(** Until it expires a lease stays with its worker and attempt; its expiry
    only moves forward. *)
Definition holds (j w a : string) (exp : Z) (y : system) : Prop :=
  exists c, claims (sys_store y) !! j = Some c /\ cl_WorkerID c = w /\ cl_AttemptID c = a /\
    exp <= unix_nano (cl_ExpiresAt c).

Definition leases_bounded (y : system) : Prop :=
  forall j c, claims (sys_store y) !! j = Some c ->
    unix_nano (cl_ExpiresAt c) <= unix_nano (sys_clock y) + leaseDuration.

Lemma leases_bounded_step y y' : leases_bounded y -> step y y' -> leases_bounded y'.
Proof.
  intros Hb Hstep j c. pose proof (step_clock y y' Hstep).
  destruct (step_claims y y' Hstep) as [Hm _ | job c' _ _ _ He Hm | job c' _ _ _ Hm]; rewrite Hm.
  - intros Hc. specialize (Hb j c Hc). lia.
  - rewrite lookup_insert. case_decide; intros Hc.
    + injection Hc as <-. rewrite He. cbn. lia.
    + specialize (Hb j c Hc). lia.
  - rewrite lookup_insert. case_decide; intros Hc.
    + injection Hc as <-. cbn. lia.
    + specialize (Hb j c Hc). lia.
Qed.

Lemma leases_bounded_invariant : inductive_invariant leases_bounded.
Proof.
  split; [|apply leases_bounded_step].
  intros y (H0 & _ & _) j c. rewrite H0. cbn. by rewrite lookup_empty.
Qed.

Lemma step_holds y y' j w a exp :
  leases_bounded y -> step y y' -> unix_nano (sys_clock y) < exp ->
  holds j w a exp y -> holds j w a exp y'.
Proof.
  intros Hbd Hstep Hlt (c & Hc & Hw & Ha & He). specialize (Hbd j c Hc).
  destruct (step_claims y y' Hstep) as [Hm _ | job c' Hl _ _ _ Hm | job c' Hj Hb _ Hm];
    unfold holds; rewrite Hm; [by eauto|..].
  - exists c. destruct (decide (job = j)) as [->|]; [|by rewrite lookup_insert_ne].
    unfold lease_live, t_after in Hl. rewrite Hc in Hl. bool_hyps. lia.
  - destruct (decide (job = j)) as [->|Hne]; [|rewrite lookup_insert_ne by done; by eauto].
    rewrite lookup_insert_eq. rewrite Hc in Hj. injection Hj as <-.
    eexists. split_and!; [done|done|done|]. cbn. lia.
Qed.

Lemma star_holds y y' j w a exp :
  leases_bounded y -> rtc step y y' -> unix_nano (sys_clock y') < exp ->
  holds j w a exp y -> holds j w a exp y'.
Proof.
  intros Hbd Hr Hlt Hh. induction Hr as [|y0 y1 y2 H01 H12 IH]; [done|].
  pose proof (star_clock _ _ H12). pose proof (step_clock _ _ H01).
  apply IH; [by eapply leases_bounded_invariant|done|].
  by eapply step_holds; eauto; lia.
Qed.

(** An attempt that was issued and no longer holds the job's lease never
    holds it again: [uuid.New()] does not repeat. *)
Definition superseded (j a : string) (y : system) : Prop :=
  a ∈ sys_used y /\ forall c, claims (sys_store y) !! j = Some c -> cl_AttemptID c <> a.

Lemma step_superseded j a y y' : superseded j a y -> step y y' -> superseded j a y'.
Proof.
  intros [Hu Hc] Hstep.
  destruct (step_claims y y' Hstep) as [Hm Hus | job c' Hl Hf Hus _ Hm | job c' Hj Hb Hus Hm];
    unfold superseded; rewrite Hm, ?Hus; [done|(split; [set_solver|]; intros c)..].
  - destruct (decide (job = j)) as [->|]; [|rewrite lookup_insert_ne by done; apply Hc].
    rewrite lookup_insert_eq. intros [= <-] Ha. apply Hf. by rewrite Ha.
  - destruct (decide (job = j)) as [->|]; [|rewrite lookup_insert_ne by done; apply Hc].
    rewrite lookup_insert_eq. intros [= <-]. cbn. by apply Hc.
Qed.

Lemma superseded_rejected j a now y :
  superseded j a y -> a <> EmptyString -> j <> EmptyString ->
  append_check now a j (sys_store y) = Err ErrStaleAttempt.
Proof.
  intros [_ Hc] Ha Hj. unfold append_check.
  rewrite (proj2 (String.eqb_neq j EmptyString) Hj), (proj2 (String.eqb_neq a EmptyString) Ha).
  destruct (claims _ !! j) as [c|] eqn:He; [|done].
  by rewrite (proj2 (String.eqb_neq (cl_AttemptID c) a) (Hc c eq_refl)), orb_true_r.
Qed.

(** Watch channels of the in-memory store: a registered channel is open in
    every reachable state, so no append can send on a closed channel; the
    goroutine of a subscriber whose buffer overflowed closes its channel a
    second time. *)

Definition watch_list (s : memoryStore) (j : string) : list nat := get_default [] (watchers s) j.

Definition chan_open (s : memoryStore) (c : nat) : Prop :=
  exists ch, chans s !! c = Some ch /\ ch_closed ch = false.

Record watch_ok (s : memoryStore) (subs : list (string * nat)) : Prop := {
  wo_open : forall j c, c ∈ watch_list s j -> chan_open s c;
  wo_nodup : forall j, NoDup (watch_list s j);
  wo_sub : forall j c, c ∈ watch_list s j -> (j, c) ∈ subs;
  wo_subs_nodup : NoDup (map snd subs);
  wo_fresh : forall j c, (j, c) ∈ subs -> (c < next_chan s)%nat;
}.

(** ** Notification *)

(** Distinct open channels: the loop returns, only closes channels it drops,
    and does not touch the others. *)
Lemma notify_loop_ok cs e heap :
  NoDup cs -> (forall c, c ∈ cs -> exists ch, heap !! c = Some ch /\ ch_closed ch = false) ->
  exists heap' still, notify_loop cs e heap = Ret (heap', still) /\ still `sublist_of` cs /\
    (forall c, c ∈ still -> exists ch, heap' !! c = Some ch /\ ch_closed ch = false) /\
    (forall c, c ∉ cs -> heap' !! c = heap !! c).
Proof.
  intros Hnd. revert heap. induction Hnd as [|c cs Hc Hnd IH]; intros heap Hopen.
  { exists heap, []. split_and!; try done; by intros c ?%elem_of_nil. }
  destruct (Hopen c) as (ch & Hch & Hcl); [by left|].
  cbn [notify_loop]. rewrite Hch, Hcl.
  assert (Hrest : forall v c', c' ∈ cs ->
    exists ch, <[c := v]> heap !! c' = Some ch /\ ch_closed ch = false).
  { intros v c' Hin. rewrite lookup_insert_ne by (intros ->; done). apply Hopen. by right. }
  case_match.
  - destruct (IH _ (Hrest (mkChan (ch_buf ch ++ [e]) false))) as (h' & still & -> & Hsub & Hst & Hout).
    exists h', (c :: still). split_and!; [done|by constructor|..].
    + intros c' [->|Hin]%elem_of_cons; [|by auto].
      rewrite Hout, lookup_insert_eq by done. by eexists.
    + intros c' [Hne Hnin]%not_elem_of_cons. rewrite Hout by done. by rewrite lookup_insert_ne.
  - destruct (IH _ (Hrest (mkChan (ch_buf ch) true))) as (h' & still & -> & Hsub & Hst & Hout).
    exists h', still. split_and!; [done|by constructor|done|].
    intros c' [Hne Hnin]%not_elem_of_cons. rewrite Hout by done. by rewrite lookup_insert_ne.
Qed.

Lemma notify_ok job e s subs :
  watch_ok s subs ->
  exists s', notifyWatchersLocked job e s = Ret s' /\ watch_ok s' subs /\ next_chan s' = next_chan s.
Proof.
  intros [Ho Hn Hsb Hsn Hf]. unfold notifyWatchersLocked. fold (watch_list s job).
  destruct (notify_loop_ok (watch_list s job) e (chans s) (Hn job) (Ho job))
    as (h' & still & Heq & Hsub & Hst & Hout).
  destruct (watch_list s job) as [|c0 cs] eqn:Hwl; [by exists s|]. rewrite <- Hwl in *.
  rewrite Heq. cbn. eexists. split_and!; [done| |done].
  assert (Hl : forall j, watch_list (set_watch (<[job := still]> (watchers s)) h' s) j
                         = if decide (job = j) then still else watch_list s j).
  { intros j. unfold watch_list. apply get_default_insert. }
  assert (Hin : forall j c, c ∈ watch_list (set_watch (<[job := still]> (watchers s)) h' s) j ->
                  c ∈ watch_list s j).
  { intros j c. rewrite Hl. case_decide; [subst j|done]. intros Hc. by eapply sublist_elem_of. }
  split; [..|done|done]; intros j.
  - intros c Hc. unfold chan_open. cbn. rewrite Hl in Hc. case_decide as Hj; [by auto|].
    rewrite Hout; [by apply (Ho j)|].
    intros Hc'. apply Hj. assert (Hp := Hsb j c Hc). assert (Hp' := Hsb job c Hc').
    by eapply nodup_snd_inj.
  - rewrite Hl. case_decide; [|done]. by eapply sublist_nodup.
  - intros c Hc. by apply Hsb, Hin.
Qed.

(** ** Subscribing, receiving, cancelling *)

Lemma Watch_ok job s subs s' c :
  watch_ok s subs -> Watch job s = (s', c) -> watch_ok s' ((job, c) :: subs).
Proof.
  intros [Ho Hn Hsb Hsn Hf] [= <- <-].
  assert (Hnew : next_chan s ∉ map snd subs).
  { intros ([j' c'] & Hc & Hin)%list_elem_of_fmap. cbn in Hc. subst c'. specialize (Hf _ _ Hin). lia. }
  assert (Hl : forall j, watch_list (fst (Watch job s)) j
      = if decide (job = j) then watch_list s job ++ [next_chan s] else watch_list s j).
  { intros j. apply get_default_insert. }
  assert (Hcase : forall j c, c ∈ watch_list (fst (Watch job s)) j ->
      (c = next_chan s /\ j = job) \/ c ∈ watch_list s j).
  { intros j c. rewrite Hl. case_decide; [subst j|by right].
    rewrite elem_of_app, list_elem_of_singleton. tauto. }
  split.
  - intros j c Hc. unfold chan_open. cbn. apply Hcase in Hc as [[-> ->]|Hc].
    + rewrite lookup_insert_eq. by eexists.
    + rewrite lookup_insert_ne; [by apply (Ho j)|].
      intros <-. apply Hnew. by apply Hsb, (list_elem_of_fmap_2 snd) in Hc.
  - intros j. change (NoDup (watch_list (fst (Watch job s)) j)). rewrite Hl. case_decide; [|done].
    apply NoDup_app. split_and!; [done| |by apply NoDup_singleton].
    intros c Hc ->%list_elem_of_singleton. apply Hnew. by apply Hsb, (list_elem_of_fmap_2 snd) in Hc.
  - intros j c Hc. apply Hcase in Hc as [[-> ->]|Hc]; [by left|right; by apply Hsb].
  - cbn. by constructor.
  - intros j c [[= -> ->]|Hin]%elem_of_cons; cbn; [lia|]. specialize (Hf _ _ Hin). lia.
Qed.

Lemma receive_ok c s s' e subs :
  watch_ok s subs -> chan_receive c s = Some (s', e) -> watch_ok s' subs.
Proof.
  intros [Ho Hn Hsb Hsn Hf]. unfold chan_receive.
  destruct (chans s !! c) as [ch|] eqn:Hc; cbn; [|done]. case_match; [done|]. intros [= <- <-].
  split; try done. intros job c' Hin. destruct (Ho job c' Hin) as (ch' & Hc' & Hcl).
  unfold chan_open. cbn. rewrite lookup_insert. case_decide; [|by eexists].
  subst c'. rewrite Hc in Hc'. injection Hc' as <-. by eexists.
Qed.

Lemma cancel_ok i job c s s' subs :
  watch_ok s subs -> subs !! i = Some (job, c) -> watch_cancel job c s = Ret s' ->
  watch_ok s' (splice i subs).
Proof.
  intros [Ho Hn Hsb Hsn Hf] Hi. unfold watch_cancel. fold (watch_list s job).
  assert (Hperm := splice_perm subs i _ Hi).
  assert (Hsn' : (c ∉ map snd (splice i subs)) /\ NoDup (map snd (splice i subs))).
  { rewrite Hperm in Hsn. cbn in Hsn. by apply NoDup_cons in Hsn. }
  set (w := match list_find _ (watch_list s job) with None => _ | Some _ => _ end).
  assert (Hw : forall j c', c' ∈ get_default [] w j -> c' ∈ watch_list s j /\ c' <> c).
  { intros j c'. unfold w. destruct (list_find _ _) as [[k x]|] eqn:Hfind.
    - apply list_find_Some in Hfind as (Hk & -> & _).
      assert (Hspl := splice_perm _ _ _ Hk). assert (Hnj := Hn job). rewrite Hspl in Hnj.
      apply NoDup_cons in Hnj as [Hcn _].
      assert (Hgd : forall m : gmap string (list nat),
        (forall j', get_default [] m j' = if decide (job = j') then splice k (watch_list s job)
                                       else watch_list s j') ->
        c' ∈ get_default [] m j -> c' ∈ watch_list s j /\ c' <> c).
      { intros m Hm. rewrite Hm. case_decide.
        - subst j. intros Hc'. split; [rewrite Hspl; by right|congruence].
        - intros Hc'. split; [done|]. intros ->. apply Hsb in Hc'.
          assert ((job, c) ∈ subs) by (by eapply list_elem_of_lookup_2).
          assert (j = job) by (by eapply nodup_snd_inj). congruence. }
      apply Hgd. intros j'. destruct (splice k (watch_list s job)) eqn:Hs.
      + unfold get_default. rewrite lookup_delete. by case_decide.
      + apply get_default_insert.
    - intros Hc'. split; [done|]. intros ->. apply Hsb in Hc' as Hsub.
      assert ((job, c) ∈ subs) by (by eapply list_elem_of_lookup_2).
      assert (j = job) as -> by (by eapply nodup_snd_inj).
      apply list_find_None in Hfind. rewrite Forall_forall in Hfind. by apply (Hfind c). }
  unfold close_chan. cbn. destruct (chans s !! c) as [ch|] eqn:Hch; [|done].
  case_match; [done|]. intros [= <-]. split.
  - intros j c' Hc'. apply Hw in Hc' as [Hc' Hne]. unfold chan_open. cbn.
    rewrite lookup_insert_ne by done. by apply (Ho j).
  - intros j. unfold watch_list. cbn. unfold w. destruct (list_find _ _) as [[k x]|] eqn:Hfind; [|apply Hn].
    apply list_find_Some in Hfind as (Hk & -> & _).
    assert (Hsp := nodup_splice _ _ _ Hk (Hn job)). apply NoDup_cons in Hsp as [_ Hsp].
    destruct (splice k (watch_list s job)) eqn:Hs.
    + unfold get_default. rewrite lookup_delete. case_decide; [constructor|apply Hn].
    + rewrite get_default_insert. case_decide; [done|apply Hn].
  - intros j c' Hc'. apply Hw in Hc' as [Hc' Hne]. apply Hsb in Hc'. rewrite Hperm in Hc'.
    apply elem_of_cons in Hc' as [[= -> ->]|]; done.
  - apply Hsn'.
  - intros j c' Hin. cbn. apply (Hf j). by eapply elem_of_splice.
Qed.

Lemma watch_ok_same s s' subs :
  watchers s' = watchers s -> chans s' = chans s -> next_chan s' = next_chan s ->
  watch_ok s subs -> watch_ok s' subs.
Proof.
  intros Hw Hc Hn [H1 H2 H3 H4 H5].
  split; unfold chan_open, watch_list in *; rewrite ?Hw, ?Hc, ?Hn; done.
Qed.

Lemma append_commit_watch job v e s subs :
  watch_ok s subs -> Z.of_nat (length (events_of s job)) = v ->
  exists s' n, append_commit job v e s = Ok (Ret (s', n)) /\ watch_ok s' subs.
Proof.
  intros Hok Hv. unfold append_commit. rewrite (proj2 (Z.eqb_eq _ _) Hv). cbn [negb].
  set (e' := seal_event job (prev_hash_of (events_of s job) v) e).
  set (s1 := set_byJob (<[job := events_of s job ++ [e']]> (byJob s)) s).
  assert (Hok1 : watch_ok s1 subs) by (by eapply watch_ok_same; [..|exact Hok]).
  destruct (notify_ok job e' s1 subs Hok1) as (s' & Heq & Hok' & _).
  fold s1. rewrite Heq. cbn. by eexists _, _.
Qed.

Definition watchers_open (y : system) : Prop := watch_ok (sys_store y) (sys_subs y).

Lemma watchers_open_step y y' : watchers_open y -> step y y' -> watchers_open y'.
Proof.
  unfold watchers_open. intros Hok.
  destruct 1 as [| i rq s' n Hi Hc | | ??????? Hc ? | ?????? Hc ? | ??? Hc | ??? Hc | ????? Hc | ??? Hc |];
    cbn; try done.
  - pose proof (append_commit_effect _ _ _ _ _ _ Hc) as (Hv & _).
    destruct (append_commit_watch (rq_JobID rq) (rq_Version rq) (rq_Event rq) _ _ Hok (eq_sym Hv))
      as (s1 & n1 & Hc1 & Hok1). rewrite Hc in Hc1. by injection Hc1 as <- <-.
  - apply Claim_ok in Hc as [_ Hc]. apply ClaimJob_ok in Hc as (_ & _ & _ & ->).
    by eapply watch_ok_same; [..|exact Hok].
  - apply ClaimJob_ok in Hc as (_ & _ & _ & ->). by eapply watch_ok_same; [..|exact Hok].
  - apply Heartbeat_ok in Hc as (? & _ & _ & _ & ->). by eapply watch_ok_same; [..|exact Hok].
  - by eapply Watch_ok.
  - by eapply cancel_ok.
  - by eapply receive_ok.
Qed.

Lemma watchers_open_invariant : inductive_invariant watchers_open.
Proof.
  split; [|apply watchers_open_step].
  intros y (H0 & _ & _ & Hs). unfold watchers_open. rewrite H0, Hs.
  split; try (by intros ?? ?%elem_of_nil); try (by intros j; constructor). constructor.
Qed.

(** What the in-memory event store guarantees: optimistic concurrency, lease
    exclusivity, fencing, complete claiming, panic freedom of appends, and the
    two places where the implementation falls short of its contract. *)

(** ** Optimistic concurrency *)

(** C1: [Append] on the same expected version succeeds at most once: after a commit, and
    whatever the workers do next, a second commit of any event at that
    version is refused with [ErrVersionMismatch], and the first event stays
    in the stream at its position. *)
Theorem append_version_exclusive y job v e1 e2 s' n y' :
  append_commit job v e1 (sys_store y) = Ok (Ret (s', n)) ->
  rtc step (with_store s' y) y' ->
  append_commit job v e2 (sys_store y') = Err ErrVersionMismatch /\
  events_of (sys_store y') job !! Z.to_nat v =
    Some (seal_event job (prev_hash_of (events_of (sys_store y) job) v) e1).
Proof.
  intros Hc Hr. apply append_commit_effect in Hc as (Hv & _ & _ & Hb).
  apply star_append_only with (j := job) in Hr. cbn [sys_store with_store] in Hr.
  unfold events_of at 1 in Hr. rewrite Hb, events_of_insert, decide_True in Hr by done.
  destruct Hr as [k Hk]. split.
  - unfold append_commit. rewrite Hk, !length_app. cbn [length].
    rewrite (proj2 (Z.eqb_neq _ _)); [done|lia].
  - rewrite Hk, Hv, Nat2Z.id, lookup_app_l, list_lookup_middle by (rewrite ?length_app; cbn; lia).
    done.
Qed.

(** ** Leases *)

(** C8: a lease that has not expired is exclusive: through any run of the
    store that stays before its expiry, the job's claim keeps the same worker
    and attempt, and nobody can claim the job. *)
Theorem lease_exclusive y y' j c :
  reachable y -> claims (sys_store y) !! j = Some c -> rtc step y y' ->
  t_before (sys_clock y') (cl_ExpiresAt c) = true ->
  (exists c', claims (sys_store y') !! j = Some c' /\ cl_WorkerID c' = cl_WorkerID c /\
     cl_AttemptID c' = cl_AttemptID c) /\
  forall uuid w, is_ok (ClaimJob (sys_clock y') uuid w j (sys_store y')) = false.
Proof.
  intros Hre Hc Hr Hlt. unfold t_before in Hlt. bool_hyps.
  assert (Hh : holds j (cl_WorkerID c) (cl_AttemptID c) (unix_nano (cl_ExpiresAt c)) y')
    by (eapply star_holds;
        [by apply (reachable_invariant _ _ leases_bounded_invariant)|done|done|by exists c]).
  destruct Hh as (c' & Hc' & Hw & Ha & He). split; [by exists c'|]. intros uuid w.
  destruct (ClaimJob _ _ _ _ _) as [[s' [v att]]|] eqn:Hcl; [|done].
  apply ClaimJob_ok in Hcl as (Hcl & _). apply claimable_not_live in Hcl.
  unfold lease_live, t_after in Hcl. rewrite Hc' in Hcl. bool_hyps. lia.
Qed.

(** C9: an attempt that was issued and is no longer the holder of the job's
    lease is fenced off for good: in every later state the attempt check of
    [Append] answers [ErrStaleAttempt], and [GetCurrentAttemptID] (the check
    of the tool ledger's commits) never names it. *)
Theorem superseded_fenced y y' j a now :
  a ∈ sys_used y -> (forall c, claims (sys_store y) !! j = Some c -> cl_AttemptID c <> a) ->
  a <> EmptyString -> j <> EmptyString -> rtc step y y' ->
  append_check now a j (sys_store y') = Err ErrStaleAttempt /\
  GetCurrentAttemptID now j (sys_store y') <> a.
Proof.
  intros Hu Hc Ha Hj Hr.
  assert (Hs : superseded j a y').
  { apply (rtc_preserves (superseded j a) _ _ _ Hr); [apply step_superseded|by split]. }
  split; [by apply superseded_rejected|]. unfold GetCurrentAttemptID.
  destruct Hs as [_ Hs]. destruct (claims (sys_store y') !! j) as [c|]; [|by apply not_eq_sym].
  case_match; [by apply not_eq_sym|by apply Hs].
Qed.

(** [Claim] is complete and sound, whatever order the job map is visited
    in: it fails, with [ErrNoJob], exactly when no job is claimable (has
    events, a last event that is not terminal, and no live lease); otherwise
    the job it returns was claimable, its version is the stream length, the
    worker holds it for 30 seconds, and no other job's claim changes. *)
Theorem Claim_spec order now uuid w s :
  order ≡ₚ map fst (map_to_list (byJob s)) ->
  match Claim order now uuid w s with
  | Err e => e = ErrNoJob /\ forall j, claimable now s j = false
  | Ok (s', (job, v, att)) =>
      claimable now s job = true /\ v = Z.of_nat (length (events_of s job)) /\
      claims s' !! job = Some (mkClaim w (t_add now leaseDuration) att) /\
      (forall j, j <> job -> claims s' !! j = claims s !! j) /\ byJob s' = byJob s
  end.
Proof.
  intros Hord. destruct (Claim order now uuid w s) as [[s' [[job v] att]]|e] eqn:Hc.
  - apply Claim_ok in Hc as [_ Hc]. apply ClaimJob_ok in Hc as (Hcl & _ & -> & ->).
    split_and!; try done; cbn; [by rewrite lookup_insert_eq|].
    intros j Hne. by rewrite lookup_insert_ne.
  - unfold Claim in Hc. destruct (list_find _ order) as [[i j]|] eqn:Hf; [done|].
    injection Hc as <-. split; [done|]. intros j. apply not_true_is_false. intros Hcl.
    apply list_find_None in Hf. rewrite Forall_forall in Hf. apply (Hf j); [|done].
    rewrite Hord. unfold claimable, events_of, get_default in Hcl.
    destruct (byJob s !! j) as [es|] eqn:Hj; [|done].
    apply elem_of_map_to_list in Hj. by apply (list_elem_of_fmap_2 fst) in Hj.
Qed.

(** ** Panics *)

Lemma commit_returns y job e :
  reachable y ->
  exists s' n, append_commit job (Z.of_nat (length (events_of (sys_store y) job))) e (sys_store y)
               = Ok (Ret (s', n)).
Proof.
  intros Hr. pose proof (reachable_invariant _ _ watchers_open_invariant Hr) as Hok.
  destruct (append_commit_watch job _ e _ _ Hok eq_refl) as (s' & n & H & _). by exists s', n.
Qed.

(** In every reachable state, committing an append at the current version
    returns normally: the notification of the watchers never sends on a
    closed channel. *)
Theorem append_never_panics y job v e :
  reachable y ->
  match append_commit job v e (sys_store y) with
  | Ok (Ret (s', n)) => v = Z.of_nat (length (events_of (sys_store y) job)) /\ n = v + 1
  | Ok (Panic _) => False
  | Err err => err = ErrVersionMismatch /\ v <> Z.of_nat (length (events_of (sys_store y) job))
  end.
Proof.
  intros Hr. destruct (append_commit job v e (sys_store y)) as [[[s' n]|msg]|err] eqn:Hc.
  - apply append_commit_effect in Hc. tauto.
  - destruct (commit_returns y job e Hr) as (s' & n & Hok). unfold append_commit in Hc, Hok.
    destruct (Z.of_nat _ =? v) eqn:Hv; [|done]. bool_hyps. subst v.
    rewrite Z.eqb_refl in Hok. cbn [negb] in Hok, Hc. congruence.
  - by apply append_commit_reject in Hc.
Qed.

(** A subscriber that lets its 16-event buffer fill up crashes the
    process: the append that finds the buffer full closes the channel, and
    the goroutine that runs when the subscriber's context ends closes it
    again, which panics. *)
Theorem slow_watcher_cancel_panics s job v e c ch s' n :
  watch_list s job = [c] -> chans s !! c = Some ch -> ch_closed ch = false ->
  length (ch_buf ch) = watchChanBuffer ->
  append_commit job v e s = Ok (Ret (s', n)) ->
  watch_cancel job c s' = Panic "close of closed channel".
Proof.
  intros Hw Hc Hcl Hlen. unfold append_commit. case_match; [done|]. intros [= Hb].
  rewrite outcome_bind_ret in Hb. destruct Hb as (s1 & Hn & [= <- _]).
  unfold notifyWatchersLocked in Hn. cbn [watchers set_byJob chans] in Hn.
  unfold watch_list in Hw. rewrite Hw in Hn. cbn [notify_loop] in Hn.
  rewrite Hc, Hcl, Hlen in Hn. cbn in Hn. injection Hn as <-.
  unfold watch_cancel, close_chan. cbn. rewrite get_default_insert, decide_True by done. cbn.
  by rewrite lookup_insert_eq.
Qed.

(** ** The fencing gap *)

Section gap_run.
Let t0 : time := Time 0 0.
Let ev : JobEvent := new_event t0 "j" JobRunning "{}".

Definition gap_start : system := mkSys NewMemoryStore [] t0 ∅ [].

(** The run: create the job, worker 1 claims it and passes the attempt
    check, its lease runs out, worker 2 claims the job. *)
Definition gap_created : memoryStore :=
  match Append t0 "e" EmptyString "j" 0 ev NewMemoryStore with
  | Ok (Ret (s, _)) => s | _ => NewMemoryStore end.
Definition gap_claimed (now : time) (uuid w : string) (s : memoryStore) : memoryStore :=
  match ClaimJob now uuid w "j" s with Ok (s', _) => s' | Err _ => s end.
Definition gap_t1 : time := t_add t0 (31 * second).
Definition gap_store : memoryStore := gap_claimed gap_t1 "2" "w2" (gap_claimed t0 "1" "w1" gap_created).
Definition gap_req : append_req := mkReq "attempt-1" "j" 1 (prepare_event t0 "u" "j" ev).
Definition gap_end : system :=
  mkSys gap_store [gap_req] gap_t1 {["attempt-2"; "attempt-1"]} [].

Lemma gap_reachable : reachable gap_end.
Proof.
  exists gap_start. split; [by split_and!|].
  eapply rtc_l; [apply (step_check _ EmptyString "j" 0 ev "e"); vm_compute; reflexivity|].
  eapply rtc_l; [eapply (step_commit _ 0); [vm_compute; reflexivity|vm_compute; reflexivity]|].
  eapply rtc_l; [eapply (step_claim_job _ "1" "w1" "j");
    [vm_compute; reflexivity|apply (bool_decide_unpack _); vm_compute; exact I]|].
  eapply rtc_l; [apply (step_check _ "attempt-1" "j" 1 ev "u"); vm_compute; reflexivity|].
  eapply rtc_l; [apply (step_tick _ (31 * second)); vm_compute; discriminate|].
  eapply rtc_l; [eapply (step_claim_job _ "2" "w2" "j");
    [vm_compute; reflexivity|apply (bool_decide_unpack _); vm_compute; exact I]|].
  match goal with |- rtc step ?y _ => replace y with gap_end end; [done|].
  vm_compute. reflexivity.
Qed.
End gap_run.

(** The attempt check and the append are not one atomic operation: there
    is a reachable state in which worker 2 holds the job's live lease,
    worker 1's attempt is already refused by the attempt check, and yet the
    append worker 1 started earlier still commits its event. *)
Theorem fencing_gap :
  exists y rq c s' n,
    reachable y /\ rq ∈ sys_inflight y /\
    claims (sys_store y) !! rq_JobID rq = Some c /\
    lease_live (sys_clock y) (sys_store y) (rq_JobID rq) = true /\
    cl_AttemptID c <> rq_Attempt rq /\
    append_check (sys_clock y) (rq_Attempt rq) (rq_JobID rq) (sys_store y) = Err ErrStaleAttempt /\
    append_commit (rq_JobID rq) (rq_Version rq) (rq_Event rq) (sys_store y) = Ok (Ret (s', n)).
Proof.
  pose proof gap_reachable as Hr.
  destruct (commit_returns gap_end "j" (rq_Event gap_req) Hr) as (s' & n & Hc).
  exists gap_end, gap_req, (mkClaim "w2" (t_add gap_t1 leaseDuration) "attempt-2"), s', n.
  split_and!; try (vm_compute; reflexivity).
  - exact Hr.
  - by left.
  - discriminate.
  - exact Hc.
Qed.

(** ** Witnesses *)

Definition demo_event : JobEvent := new_event (Time 0 0) "j" JobRunning "{}".

Lemma append_version_exclusive_witness :
  exists v s, append_commit "j" v demo_event s = Err ErrVersionMismatch.
Proof.
  destruct (commit_returns gap_end "j" demo_event gap_reachable) as (s' & n & Hc).
  eexists _, _.
  exact (proj1 (append_version_exclusive gap_end "j" _ demo_event demo_event s' n _ Hc (rtc_refl _ _))).
Defined.

Lemma lease_exclusive_witness :
  is_ok (ClaimJob gap_t1 "3" "w3" "j" gap_store) = false.
Proof.
  refine (proj2 (lease_exclusive gap_end gap_end "j" (mkClaim "w2" (t_add gap_t1 leaseDuration) "attempt-2")
    gap_reachable _ (rtc_refl _ _) _) "3" "w3"); vm_compute; reflexivity.
Defined.

Lemma superseded_fenced_witness :
  append_check gap_t1 "attempt-1" "j" gap_store = Err ErrStaleAttempt.
Proof.
  refine (proj1 (superseded_fenced gap_end gap_end "j" "attempt-1" gap_t1 _ _ _ _ (rtc_refl _ _))).
  - apply (bool_decide_unpack _). vm_compute. exact I.
  - intros c Hc. vm_compute in Hc. injection Hc as <-. discriminate.
  - discriminate.
  - discriminate.
Defined.

Lemma Claim_spec_witness :
  exists s', Claim ["j"] gap_t1 "3" "w3" gap_created = Ok (s', ("j", 1, "attempt-3")) /\
    claimable gap_t1 gap_created "j" = true.
Proof.
  pose proof (Claim_spec ["j"] gap_t1 "3" "w3" gap_created) as H.
  destruct (Claim ["j"] gap_t1 "3" "w3" gap_created) as [[s' [[job v] att]]|e] eqn:Hc.
  - exists s'. assert (Hv : (job, v, att) = ("j", 1, "attempt-3")).
    { vm_compute in Hc. injection Hc as _ <- <- <-. reflexivity. }
    injection Hv as -> -> ->. split; [reflexivity|]. apply H. vm_compute. reflexivity.
  - exfalso. vm_compute in Hc. discriminate.
Defined.

Lemma append_never_panics_witness :
  match append_commit "j" 7 demo_event (sys_store gap_end) with
  | Ok (Ret _) => False
  | Ok (Panic _) => False
  | Err err => err = ErrVersionMismatch
  end.
Proof.
  pose proof (append_never_panics gap_end "j" 7 demo_event gap_reachable) as H.
  destruct (append_commit "j" 7 demo_event (sys_store gap_end)) as [[[s' n]|msg]|err].
  - destruct H as [H _]. vm_compute in H. discriminate.
  - exact H.
  - exact (proj1 H).
Defined.

Definition full_store : memoryStore :=
  mkStore ∅ ∅ {["j" := [0%nat]]} {[0%nat := mkChan (replicate 16 demo_event) false]} 1.

Lemma slow_watcher_cancel_panics_witness :
  exists s', watch_cancel "j" 0 s' = Panic "close of closed channel".
Proof.
  destruct (append_commit "j" 0 demo_event full_store) as [[[s' n]|msg]|err] eqn:Hc.
  - exists s'. refine (slow_watcher_cancel_panics full_store "j" 0 demo_event 0
      (mkChan (replicate 16 demo_event) false) s' n _ _ _ _ Hc); vm_compute; reflexivity.
  - exfalso. vm_compute in Hc. discriminate.
  - exfalso. vm_compute in Hc. discriminate.
Defined.
