(* ===== verification/ProofChain.v ===== *)
(** pkg/proof/{hash,types}.go and the event adapter of
    internal/api/http/forensics.go: the SHA-256 proof chain over the events of
    a job, its validation, and what it does and does not protect. *)

From S2P Require Import Prelude Sha256 GoTime Json JsonFacts Events MemStore MemStoreProps.

(** ** Events of an evidence package (types.go:58-67) *)

Record Event := mkEvent {
  pe_ID : string;
  pe_JobID : string;
  pe_Type : string;
  pe_Payload : string;
  pe_CreatedAt : time;
  pe_PrevHash : string;
  pe_Hash : string;
}.

#[export] Instance event_eq_dec : EqDecision Event.
Proof. solve_decision. Defined.

(** ** Hashing and validation (hash.go) *)

Definition event_preimage (e : Event) : string :=
  pe_JobID e +:+ (String bar (pe_Type e +:+ (String bar
    (pe_Payload e +:+ (String bar (format_rfc3339nano (pe_CreatedAt e) +:+
      (String bar (pe_PrevHash e)))))))).

Definition ComputeEventHash (e : Event) : string := hex_sha256 (event_preimage e).

Inductive chain_error :=
| FirstPrevHashNotEmpty (got : string)
| EventHashMismatch (i : nat) (expected got : string)
| HashChainBroken (i : nat) (prev expected : string).

(** The loop over events 1, 2, ...; [prev] is the event before index [i]. *)
Fixpoint validate_from (i : nat) (prev : Event) (es : list Event) : result chain_error unit :=
  match es with
  | [] => Ok tt
  | e :: r =>
      if negb (String.eqb (pe_PrevHash e) (pe_Hash prev))
      then Err (HashChainBroken i (pe_PrevHash e) (pe_Hash prev))
      else if negb (String.eqb (ComputeEventHash e) (pe_Hash e))
      then Err (EventHashMismatch i (ComputeEventHash e) (pe_Hash e))
      else validate_from (S i) e r
  end.

Definition ValidateChain (events : list Event) : result chain_error unit :=
  match events with
  | [] => Ok tt
  | e :: r =>
      if negb (String.eqb (pe_PrevHash e) EmptyString) then Err (FirstPrevHashNotEmpty (pe_PrevHash e))
      else if negb (String.eqb (ComputeEventHash e) (pe_Hash e))
      then Err (EventHashMismatch 0 (ComputeEventHash e) (pe_Hash e))
      else validate_from 1 e r
  end.

(** ** The store's events as evidence (forensics.go:107-147) *)

Definition proof_event (e : JobEvent) : Event :=
  mkEvent (ev_ID e) (ev_JobID e) (event_type_string (ev_Type e)) (ev_Payload e) (ev_CreatedAt e)
    (ev_PrevHash e) (ev_Hash e).

Definition relink (prev : string) (e : Event) : Event :=
  let e1 := mkEvent (pe_ID e) (pe_JobID e) (pe_Type e) (pe_Payload e) (pe_CreatedAt e) prev (pe_Hash e) in
  mkEvent (pe_ID e) (pe_JobID e) (pe_Type e) (pe_Payload e) (pe_CreatedAt e) prev (ComputeEventHash e1).

Fixpoint relink_from (prev : string) (es : list Event) : list Event :=
  match es with
  | [] => []
  | e :: r => let e' := relink prev e in e' :: relink_from (pe_Hash e') r
  end.

Definition normalizeProofEventHashes (events : list Event) : list Event := relink_from EmptyString events.

(** [proofJobStoreAdapter.ListEvents] on the store's stream. *)
Definition adapter_ListEvents (events : list JobEvent) : list Event :=
  let out := map proof_event events in
  if is_ok (ValidateChain out) then out else normalizeProofEventHashes out.

(** ** The chain as a relation *)

Fixpoint chained (prev : string) (es : list Event) : Prop :=
  match es with
  | [] => True
  | e :: r => pe_PrevHash e = prev /\ pe_Hash e = ComputeEventHash e /\ chained (pe_Hash e) r
  end.

Lemma validate_from_spec i prev es :
  validate_from i prev es = Ok tt <-> chained (pe_Hash prev) es.
Proof.
  revert i prev. induction es as [|e es IH]; intros i prev; cbn; [done|].
  destruct (String.eqb_spec (pe_PrevHash e) (pe_Hash prev)) as [Hp|Hp]; cbn; [|naive_solver].
  destruct (String.eqb_spec (ComputeEventHash e) (pe_Hash e)) as [Hh|Hh]; cbn; [|naive_solver].
  rewrite IH. naive_solver.
Qed.

Lemma ValidateChain_spec es : ValidateChain es = Ok tt <-> chained EmptyString es.
Proof.
  destruct es as [|e es]; cbn; [done|].
  destruct (String.eqb_spec (pe_PrevHash e) EmptyString) as [Hp|Hp]; cbn; [|naive_solver].
  destruct (String.eqb_spec (ComputeEventHash e) (pe_Hash e)) as [Hh|Hh]; cbn; [|naive_solver].
  rewrite validate_from_spec. naive_solver.
Qed.

Lemma computeMemEventHash_proof j e :
  ev_JobID e = j ->
  computeMemEventHash j (ev_Type e) (ev_Payload e) (ev_CreatedAt e) (ev_PrevHash e)
  = ComputeEventHash (proof_event e).
Proof. by intros <-. Qed.

Lemma sealed_chained j prev es : sealed j prev es -> chained prev (map proof_event es).
Proof.
  revert prev. induction es as [|e es IH]; intros prev; cbn; [done|].
  intros (Hj & Hp & Hh & Hr). split_and!; [done| |by apply IH].
  rewrite Hh, <- Hp. by apply computeMemEventHash_proof.
Qed.

Lemma relink_hash prev e : pe_Hash (relink prev e) = ComputeEventHash (relink prev e).
Proof. done. Qed.

Lemma relink_chained prev es : chained prev (relink_from prev es).
Proof.
  revert prev. induction es as [|e es IH]; intros prev; cbn [relink_from chained]; [done|].
  split_and!; [done|done|apply IH].
Qed.

(** Everything of an event but its two hashes. *)
Definition identity_of (e : Event) : string * string * string * string * time :=
  (pe_ID e, pe_JobID e, pe_Type e, pe_Payload e, pe_CreatedAt e).

Lemma relink_preserves prev es : map identity_of (relink_from prev es) = map identity_of es.
Proof. revert prev. induction es as [|e es IH]; intros prev; cbn; [done|]. by rewrite IH. Qed.

(** ** What a hash determines *)

(** The fields covered by the hash, the instant in its printed form. *)
Definition content (e : Event) : string * string * string * string * string :=
  (pe_JobID e, pe_Type e, pe_Payload e, format_rfc3339nano (pe_CreatedAt e), pe_PrevHash e).

Definition unambiguous (e : Event) : bool :=
  negb (str_in bar (pe_JobID e)) && negb (str_in bar (pe_Type e)) && negb (str_in bar (pe_PrevHash e)).

Lemma preimage_inj e1 e2 :
  unambiguous e1 = true -> unambiguous e2 = true ->
  event_preimage e1 = event_preimage e2 -> content e1 = content e2.
Proof.
  unfold unambiguous, event_preimage, content. intros H1 H2 He. bool_hyps.
  apply first_sep_inj in He as [-> He]; [|done..].
  apply first_sep_inj in He as [-> He]; [|done..].
  assert (Hs : forall p t q, p +:+ String bar (t +:+ String bar q)
                         = (p +:+ String bar t) +:+ String bar q).
  { intros p t q. by rewrite str_app_assoc. }
  rewrite !Hs in He. apply last_sep_inj in He as [He ->]; [|done..].
  apply last_sep_inj in He as [-> ->]; [done|auto with go..].
Qed.

(** Two events of the given lists with the same hash and different contents. *)
Definition collision (es1 es2 : list Event) : Prop :=
  exists e1 e2, e1 ∈ es1 /\ e2 ∈ es2 /\ event_preimage e1 <> event_preimage e2 /\
    hex_sha256 (event_preimage e1) = hex_sha256 (event_preimage e2).

Lemma chained_app prev es1 es2 :
  chained prev (es1 ++ es2) <->
  chained prev es1 /\ chained (match last es1 with Some e => pe_Hash e | None => prev end) es2.
Proof.
  revert prev. induction es1 as [|e es1 IH]; intros prev; cbn; [naive_solver|].
  rewrite IH. destruct es1 as [|e' es1]; [naive_solver|]. cbn [last].
  destruct (last (e' :: es1)) eqn:Hl; [naive_solver|]. by apply last_None in Hl.
Qed.

Lemma chained_snoc prev es e :
  chained prev (es ++ [e]) <->
  chained prev es /\ pe_PrevHash e = match last es with Some x => pe_Hash x | None => prev end
  /\ pe_Hash e = ComputeEventHash e.
Proof. rewrite chained_app. cbn. naive_solver. Qed.

Lemma chained_hash_nonempty prev es e : chained prev es -> e ∈ es -> pe_Hash e <> EmptyString.
Proof.
  revert prev. induction es as [|x es IH]; intros prev; [by intros _ ?%elem_of_nil|].
  cbn. intros (_ & Hh & Hr) [->|Hin]%elem_of_cons; [|by eapply IH].
  rewrite Hh. apply hex_sha256_nonempty.
Qed.

Lemma elem_of_snoc {A} (l : list A) x : x ∈ l ++ [x].
Proof. apply elem_of_app. right. by left. Qed.

Lemma collision_mono es1 es2 k1 k2 :
  es1 ⊆ k1 -> es2 ⊆ k2 -> collision es1 es2 -> collision k1 k2.
Proof. intros H1 H2 (e1 & e2 & Hi1 & Hi2 & Hc). exists e1, e2. split_and!; [by apply H1|by apply H2|apply Hc..]. Qed.

Lemma last_hash_determines es1 es2 :
  Forall (fun e => unambiguous e = true) es1 -> Forall (fun e => unambiguous e = true) es2 ->
  chained EmptyString es1 -> chained EmptyString es2 ->
  pe_Hash <$> last es1 = pe_Hash <$> last es2 ->
  map content es1 = map content es2 \/ collision es1 es2.
Proof.
  revert es2. induction es1 as [|e1 es1 IH] using rev_ind; intros es2 Hu1 Hu2 Hc1 Hc2 Hl.
  { destruct es2 as [|? ? _] using rev_ind; [by left|]. by rewrite last_snoc in Hl. }
  destruct es2 as [|e2 es2 _] using rev_ind; [by rewrite last_snoc in Hl|].
  rewrite !last_snoc in Hl. injection Hl as Hl.
  apply Forall_app in Hu1 as [Hu1 He1]. apply (Forall_singleton (fun e => unambiguous e = true)) in He1.
  apply Forall_app in Hu2 as [Hu2 He2]. apply (Forall_singleton (fun e => unambiguous e = true)) in He2.
  apply chained_snoc in Hc1 as (Hc1 & Hp1 & Hh1). apply chained_snoc in Hc2 as (Hc2 & Hp2 & Hh2).
  destruct (decide (event_preimage e1 = event_preimage e2)) as [Heq|Hne].
  2:{ right. exists e1, e2. unfold ComputeEventHash in *. split_and!;
      [by apply elem_of_snoc|by apply elem_of_snoc|done|congruence]. }
  apply preimage_inj in Heq; [|exact He1|exact He2].
  assert (Hprev : pe_Hash <$> last es1 = pe_Hash <$> last es2).
  { assert (Hp : pe_PrevHash e1 = pe_PrevHash e2) by (unfold content in Heq; congruence).
    rewrite Hp1, Hp2 in Hp.
    destruct (last es1) as [x1|] eqn:Hl1, (last es2) as [x2|] eqn:Hl2; cbn; try congruence.
    - exfalso. apply last_Some_elem_of in Hl1. by apply (chained_hash_nonempty _ _ _ Hc1 Hl1).
    - exfalso. apply last_Some_elem_of in Hl2. by apply (chained_hash_nonempty _ _ _ Hc2 Hl2). }
  destruct (IH es2 Hu1 Hu2 Hc1 Hc2 Hprev) as [Hm|Hcol].
  - left. rewrite !map_app. cbn. by rewrite Hm, Heq.
  - right. eapply collision_mono; [..|exact Hcol]; intros x Hx; apply elem_of_app; by left.
Qed.

(** ** Properties *)

(** C21: in every state the store can reach, [ValidateChain] accepts the
    stream of every job: the store's sealing and the proof package's
    validation agree. *)
Theorem reachable_streams_validate y j :
  reachable y -> ValidateChain (map proof_event (events_of (sys_store y) j)) = Ok tt.
Proof.
  intros Hr. apply ValidateChain_spec, sealed_chained with (j := j).
  by apply (reachable_invariant _ _ streams_sealed_invariant Hr).
Qed.

(** C22: the last hash of a validated chain determines the whole chain, where
    the hashed fields can be told apart: two chains with the same last hash,
    whose job ids, types and previous hashes contain no separator, agree on
    every hashed field of every event (all but its id), unless they exhibit a
    SHA-256 collision.  With separators they need not ([separator_ambiguity]). *)
Theorem last_hash_tamper_evident es1 es2 :
  Forall (fun e => unambiguous e = true) es1 -> Forall (fun e => unambiguous e = true) es2 ->
  ValidateChain es1 = Ok tt -> ValidateChain es2 = Ok tt ->
  pe_Hash <$> last es1 = pe_Hash <$> last es2 ->
  map content es1 = map content es2 \/ collision es1 es2.
Proof. rewrite !ValidateChain_spec. apply last_hash_determines. Qed.

(** The export adapter validates whatever the store holds: the events it
    hands to the evidence package always form a valid chain with the stored
    contents, so a stream whose stored hashes were tampered with is re-linked
    and exported as intact. *)
Theorem adapter_always_validates es :
  ValidateChain (adapter_ListEvents es) = Ok tt /\
  map identity_of (adapter_ListEvents es)
  = map (fun e => (ev_ID e, ev_JobID e, event_type_string (ev_Type e), ev_Payload e, ev_CreatedAt e)) es.
Proof.
  unfold adapter_ListEvents. destruct (is_ok _) eqn:Hok.
  - apply is_ok_spec in Hok as [[] Hok]. by rewrite Hok, map_map.
  - unfold normalizeProofEventHashes. rewrite ValidateChain_spec, relink_preserves, map_map.
    split; [apply relink_chained|done].
Qed.

(** The fields of the hash input are joined without escaping: two events
    with different types and payloads, accepted by [ValidateChain] each, have
    the same hash. *)
Theorem separator_ambiguity :
  exists e1 e2, ValidateChain [e1] = Ok tt /\ ValidateChain [e2] = Ok tt /\
    pe_Hash e1 = pe_Hash e2 /\ content e1 <> content e2.
Proof.
  exists (relink EmptyString (mkEvent "1" "j" "a" "b|c" (Time 0 0) EmptyString EmptyString)),
    (relink EmptyString (mkEvent "1" "j" "a|b" "c" (Time 0 0) EmptyString EmptyString)).
  split_and!; [by vm_compute..|discriminate].
Qed.

(** ** Witnesses *)

Lemma reachable_streams_validate_witness :
  ValidateChain (map proof_event (events_of (sys_store gap_end) "j")) = Ok tt.
Proof. exact (reachable_streams_validate gap_end "j" gap_reachable). Defined.

Definition demo_chain : list Event :=
  relink_from EmptyString [mkEvent "1" "j" "a" "{}" (Time 0 0) EmptyString EmptyString;
                           mkEvent "2" "j" "b" "{}" (Time 7 0) EmptyString EmptyString].

(** The same events under other ids. *)
Definition renamed_chain : list Event :=
  relink_from EmptyString [mkEvent "x" "j" "a" "{}" (Time 0 0) EmptyString EmptyString;
                           mkEvent "y" "j" "b" "{}" (Time 7 0) EmptyString EmptyString].

Lemma last_hash_tamper_evident_witness :
  demo_chain <> renamed_chain /\
  (map content demo_chain = map content renamed_chain \/ collision demo_chain renamed_chain).
Proof.
  split; [discriminate|].
  assert (Hu : Forall (fun e => unambiguous e = true) demo_chain)
    by (apply (bool_decide_unpack _); vm_compute; exact I).
  assert (Hv : Forall (fun e => unambiguous e = true) renamed_chain)
    by (apply (bool_decide_unpack _); vm_compute; exact I).
  refine (last_hash_tamper_evident demo_chain renamed_chain Hu Hv _ _ _); vm_compute; reflexivity.
Defined.
