(* ===== verification/JobFsm.v ===== *)
(** internal/agent/job/{job,state}.go: the job entity, its guarded state
    transitions with the domain event each one emits, and the status derived
    from the event stream.

    [time.Now()] is an argument; [Cancel], which reads the clock twice, gets
    one reading.  [RetryCount] is a machine integer the model leaves unbounded:
    it is bounded by the scheduler's [RetryMax] (Scheduler.v). *)

From S2P Require Import Prelude GoTime Json Events.

(** ** Status and entity (job.go:24-122) *)

Inductive JobStatus :=
| StatusPending
| StatusRunning
| StatusCompleted
| StatusFailed
| StatusCancelled
| StatusWaiting
| StatusParked
| StatusRetrying
| StatusOther (n : Z).

#[export] Instance job_status_eq_dec : EqDecision JobStatus.
Proof. solve_decision. Defined.

Definition status_string (s : JobStatus) : string :=
  match s with
  | StatusPending => "pending"
  | StatusRunning => "running"
  | StatusCompleted => "completed"
  | StatusFailed => "failed"
  | StatusCancelled => "cancelled"
  | StatusWaiting => "waiting"
  | StatusParked => "parked"
  | StatusRetrying => "retrying"
  | StatusOther _ => "unknown"
  end.

(** The agent job. *)
Record Job := mkJob {
  job_ID : string;
  job_AgentID : string;
  job_TenantID : string;
  job_Goal : string;
  job_Status : JobStatus;
  job_CreatedAt : time;
  job_UpdatedAt : time;
  job_Cursor : string;
  job_RetryCount : Z;
  job_SessionID : string;
  job_CancelRequestedAt : time;
  job_IdempotencyKey : string;
  job_Priority : Z;
  job_QueueClass : string;
  job_RequiredCapabilities : list string;
  job_ExecutionVersion : string;
  job_PlannerVersion : string;
  job_ParentJobID : string;
  job_RootJobID : string;
  job_ParentAgentID : string;
  job_ParentSpanID : string;
  job_pendingEvent : option JobEvent;
}.

Definition set_job_ID (v : string) (r : Job) : Job :=
  mkJob v (job_AgentID r) (job_TenantID r) (job_Goal r) (job_Status r) (job_CreatedAt r)
    (job_UpdatedAt r) (job_Cursor r) (job_RetryCount r) (job_SessionID r)
    (job_CancelRequestedAt r) (job_IdempotencyKey r) (job_Priority r) (job_QueueClass r)
    (job_RequiredCapabilities r) (job_ExecutionVersion r) (job_PlannerVersion r)
    (job_ParentJobID r) (job_RootJobID r) (job_ParentAgentID r) (job_ParentSpanID r)
    (job_pendingEvent r).
Definition set_job_TenantID (v : string) (r : Job) : Job :=
  mkJob (job_ID r) (job_AgentID r) v (job_Goal r) (job_Status r) (job_CreatedAt r)
    (job_UpdatedAt r) (job_Cursor r) (job_RetryCount r) (job_SessionID r)
    (job_CancelRequestedAt r) (job_IdempotencyKey r) (job_Priority r) (job_QueueClass r)
    (job_RequiredCapabilities r) (job_ExecutionVersion r) (job_PlannerVersion r)
    (job_ParentJobID r) (job_RootJobID r) (job_ParentAgentID r) (job_ParentSpanID r)
    (job_pendingEvent r).
Definition set_job_Status (v : JobStatus) (r : Job) : Job :=
  mkJob (job_ID r) (job_AgentID r) (job_TenantID r) (job_Goal r) v (job_CreatedAt r)
    (job_UpdatedAt r) (job_Cursor r) (job_RetryCount r) (job_SessionID r)
    (job_CancelRequestedAt r) (job_IdempotencyKey r) (job_Priority r) (job_QueueClass r)
    (job_RequiredCapabilities r) (job_ExecutionVersion r) (job_PlannerVersion r)
    (job_ParentJobID r) (job_RootJobID r) (job_ParentAgentID r) (job_ParentSpanID r)
    (job_pendingEvent r).
Definition set_job_CreatedAt (v : time) (r : Job) : Job :=
  mkJob (job_ID r) (job_AgentID r) (job_TenantID r) (job_Goal r) (job_Status r) v
    (job_UpdatedAt r) (job_Cursor r) (job_RetryCount r) (job_SessionID r)
    (job_CancelRequestedAt r) (job_IdempotencyKey r) (job_Priority r) (job_QueueClass r)
    (job_RequiredCapabilities r) (job_ExecutionVersion r) (job_PlannerVersion r)
    (job_ParentJobID r) (job_RootJobID r) (job_ParentAgentID r) (job_ParentSpanID r)
    (job_pendingEvent r).
Definition set_job_UpdatedAt (v : time) (r : Job) : Job :=
  mkJob (job_ID r) (job_AgentID r) (job_TenantID r) (job_Goal r) (job_Status r)
    (job_CreatedAt r) v (job_Cursor r) (job_RetryCount r) (job_SessionID r)
    (job_CancelRequestedAt r) (job_IdempotencyKey r) (job_Priority r) (job_QueueClass r)
    (job_RequiredCapabilities r) (job_ExecutionVersion r) (job_PlannerVersion r)
    (job_ParentJobID r) (job_RootJobID r) (job_ParentAgentID r) (job_ParentSpanID r)
    (job_pendingEvent r).
Definition set_job_Cursor (v : string) (r : Job) : Job :=
  mkJob (job_ID r) (job_AgentID r) (job_TenantID r) (job_Goal r) (job_Status r)
    (job_CreatedAt r) (job_UpdatedAt r) v (job_RetryCount r) (job_SessionID r)
    (job_CancelRequestedAt r) (job_IdempotencyKey r) (job_Priority r) (job_QueueClass r)
    (job_RequiredCapabilities r) (job_ExecutionVersion r) (job_PlannerVersion r)
    (job_ParentJobID r) (job_RootJobID r) (job_ParentAgentID r) (job_ParentSpanID r)
    (job_pendingEvent r).
Definition set_job_RetryCount (v : Z) (r : Job) : Job :=
  mkJob (job_ID r) (job_AgentID r) (job_TenantID r) (job_Goal r) (job_Status r)
    (job_CreatedAt r) (job_UpdatedAt r) (job_Cursor r) v (job_SessionID r)
    (job_CancelRequestedAt r) (job_IdempotencyKey r) (job_Priority r) (job_QueueClass r)
    (job_RequiredCapabilities r) (job_ExecutionVersion r) (job_PlannerVersion r)
    (job_ParentJobID r) (job_RootJobID r) (job_ParentAgentID r) (job_ParentSpanID r)
    (job_pendingEvent r).
Definition set_job_CancelRequestedAt (v : time) (r : Job) : Job :=
  mkJob (job_ID r) (job_AgentID r) (job_TenantID r) (job_Goal r) (job_Status r)
    (job_CreatedAt r) (job_UpdatedAt r) (job_Cursor r) (job_RetryCount r) (job_SessionID r) v
    (job_IdempotencyKey r) (job_Priority r) (job_QueueClass r) (job_RequiredCapabilities r)
    (job_ExecutionVersion r) (job_PlannerVersion r) (job_ParentJobID r) (job_RootJobID r)
    (job_ParentAgentID r) (job_ParentSpanID r) (job_pendingEvent r).
Definition set_job_pendingEvent (v : option JobEvent) (r : Job) : Job :=
  mkJob (job_ID r) (job_AgentID r) (job_TenantID r) (job_Goal r) (job_Status r)
    (job_CreatedAt r) (job_UpdatedAt r) (job_Cursor r) (job_RetryCount r) (job_SessionID r)
    (job_CancelRequestedAt r) (job_IdempotencyKey r) (job_Priority r) (job_QueueClass r)
    (job_RequiredCapabilities r) (job_ExecutionVersion r) (job_PlannerVersion r)
    (job_ParentJobID r) (job_RootJobID r) (job_ParentAgentID r) (job_ParentSpanID r) v.

(** [errors.As] finds the record: every error below is one. *)
Record InvalidStateTransitionError := mkIST { ist_From : JobStatus; ist_To : JobStatus; ist_Reason : string }.

Definition ist_message (e : InvalidStateTransitionError) : string :=
  "invalid state transition: cannot transition from " +:+ status_string (ist_From e) +:+ " to "
  +:+ status_string (ist_To e) +:+ ": " +:+ ist_Reason e.

(** ** Transitions (job.go:131-313) *)

Definition validTransitions (s : JobStatus) : option (list JobStatus) :=
  match s with
  | StatusPending => Some [StatusRunning; StatusCancelled; StatusWaiting; StatusParked]
  | StatusRunning => Some [StatusCompleted; StatusFailed; StatusWaiting; StatusParked;
                           StatusRetrying; StatusCancelled]
  | StatusWaiting => Some [StatusRunning; StatusFailed; StatusCancelled; StatusParked]
  | StatusParked => Some [StatusWaiting; StatusRunning; StatusCancelled]
  | StatusRetrying => Some [StatusRunning; StatusFailed; StatusCancelled]
  | StatusCompleted | StatusFailed | StatusCancelled => Some []
  | StatusOther _ => None
  end.

Definition CanTransitionTo (j : Job) (target : JobStatus) : result InvalidStateTransitionError unit :=
  match validTransitions (job_Status j) with
  | None => Err (mkIST (job_Status j) target "unknown source status")
  | Some allowed =>
      if existsb (fun s => bool_decide (s = target)) allowed then Ok tt
      else Err (mkIST (job_Status j) target "target status not in allowed transitions")
  end.

(** The assignments every transition ends with. *)
Definition enter (now : time) (s : JobStatus) (t : EventType) (j : Job) : Job :=
  set_job_pendingEvent (Some (mkJobEvent EmptyString (job_ID j) t EmptyString zero_time EmptyString EmptyString))
    (set_job_UpdatedAt now (set_job_Status s j)).

Definition Start (now : time) (j : Job) : result InvalidStateTransitionError Job :=
  try _ <- CanTransitionTo j StatusRunning ;; Ok (enter now StatusRunning JobRunning j).

Definition Complete (now : time) (j : Job) : result InvalidStateTransitionError Job :=
  try _ <- CanTransitionTo j StatusCompleted ;; Ok (enter now StatusCompleted JobCompleted j).

Definition Fail (now : time) (j : Job) : result InvalidStateTransitionError Job :=
  try _ <- CanTransitionTo j StatusFailed ;; Ok (enter now StatusFailed JobFailed j).

Definition Cancel (now : time) (j : Job) : result InvalidStateTransitionError Job :=
  try _ <- CanTransitionTo j StatusCancelled ;;
  Ok (enter now StatusCancelled JobCancelled (set_job_CancelRequestedAt now j)).

(** The [reason] argument is not used. *)
Definition Park (now : time) (reason : string) (j : Job) : result InvalidStateTransitionError Job :=
  try _ <- CanTransitionTo j StatusParked ;; Ok (enter now StatusParked JobWaiting j).

Definition Resume (now : time) (j : Job) : result InvalidStateTransitionError Job :=
  try _ <- CanTransitionTo j StatusRunning ;; Ok (enter now StatusRunning JobRunning j).

Definition Wait (now : time) (j : Job) : result InvalidStateTransitionError Job :=
  try _ <- CanTransitionTo j StatusWaiting ;; Ok (enter now StatusWaiting JobWaiting j).

Definition Retry (now : time) (j : Job) : result InvalidStateTransitionError Job :=
  try _ <- CanTransitionTo j StatusRetrying ;;
  Ok (enter now StatusRetrying JobRequeued (set_job_RetryCount (job_RetryCount j + 1) j)).

Definition Requeue (now : time) (j : Job) : result InvalidStateTransitionError Job :=
  if negb (bool_decide (job_Status j = StatusRetrying)) && negb (bool_decide (job_Status j = StatusWaiting))
  then Err (mkIST (job_Status j) StatusPending "can only requeue from Retrying or Waiting")
  else Ok (enter now StatusPending JobRequeued j).

Definition PendingEvent (j : Job) : Job * option JobEvent :=
  (set_job_pendingEvent None j, job_pendingEvent j).

Definition NewJob (now : time) (id agentID tenantID goal : string) : Job :=
  mkJob id agentID tenantID goal StatusPending now now EmptyString 0 EmptyString zero_time EmptyString
    0 EmptyString [] EmptyString EmptyString EmptyString EmptyString EmptyString EmptyString None.

(** ** Status from events (state.go) *)

(** The [switch] of the loop body: [None] leaves the status alone. *)
Definition status_of_event (t : EventType) : option JobStatus :=
  match t with
  | JobCreated | JobQueued | JobRequeued => Some StatusPending
  | JobLeased | JobRunning => Some StatusRunning
  | JobWaiting => Some StatusWaiting
  | JobParked => Some StatusParked
  | JobRetrying => Some StatusRetrying
  | JobResumed => Some StatusPending
  | WaitCompleted => Some StatusPending
  | JobCompleted => Some StatusCompleted
  | JobFailed => Some StatusFailed
  | JobCancelled => Some StatusCancelled
  | _ => None
  end.

Definition DeriveStatusFromEvents (events : list JobEvent) : JobStatus :=
  fold_left (fun status e => default status (status_of_event (ev_Type e))) events StatusPending.

(** The [switch] of [IsJobBlocked]: decide, or look further back. *)
Definition blocked_by_event (t : EventType) : option bool :=
  match t with
  | JobWaiting | JobParked => Some true
  | JobCreated | JobQueued | JobRequeued | JobRetrying | JobLeased | JobRunning
  | WaitCompleted | JobCompleted | JobFailed | JobCancelled | JobResumed => Some false
  | _ => None
  end.

Fixpoint blocked_backward (revents : list JobEvent) : bool :=
  match revents with
  | [] => false
  | e :: r => match blocked_by_event (ev_Type e) with Some b => b | None => blocked_backward r end
  end.

Definition IsJobBlocked (events : list JobEvent) : bool := blocked_backward (rev events).

(** ** Facts *)

Definition is_blocked_status (s : JobStatus) : bool :=
  match s with StatusWaiting | StatusParked => true | _ => false end.

Definition is_terminal_status (s : JobStatus) : bool :=
  match s with StatusCompleted | StatusFailed | StatusCancelled => true | _ => false end.

Lemma derive_snoc es e :
  DeriveStatusFromEvents (es ++ [e])
  = default (DeriveStatusFromEvents es) (status_of_event (ev_Type e)).
Proof. unfold DeriveStatusFromEvents. by rewrite fold_left_app. Qed.

Lemma blocked_snoc es e :
  IsJobBlocked (es ++ [e]) = default (IsJobBlocked es) (blocked_by_event (ev_Type e)).
Proof. unfold IsJobBlocked. rewrite rev_app_distr. cbn. by destruct (blocked_by_event _). Qed.

Lemma blocked_by_event_spec t : blocked_by_event t = is_blocked_status <$> status_of_event t.
Proof. by destruct t. Qed.

Lemma blocked_derive es : IsJobBlocked es = is_blocked_status (DeriveStatusFromEvents es).
Proof.
  induction es as [|e es IH] using rev_ind; [done|].
  rewrite blocked_snoc, derive_snoc, blocked_by_event_spec, IH.
  by destruct (status_of_event _).
Qed.

(** ** The entity as a state machine *)

Inductive job_op :=
| OpStart | OpComplete | OpFail | OpCancel | OpPark (reason : string) | OpResume | OpWait | OpRetry
| OpRequeue.

Definition run_op (op : job_op) (now : time) (j : Job) : result InvalidStateTransitionError Job :=
  match op with
  | OpStart => Start now j
  | OpComplete => Complete now j
  | OpFail => Fail now j
  | OpCancel => Cancel now j
  | OpPark reason => Park now reason j
  | OpResume => Resume now j
  | OpWait => Wait now j
  | OpRetry => Retry now j
  | OpRequeue => Requeue now j
  end.

Inductive job_step (j : Job) : Job -> Prop :=
| job_step_op op now j' : run_op op now j = Ok j' -> job_step j j'
| job_step_drain : job_step j (fst (PendingEvent j)).

Definition op_target (op : job_op) : JobStatus :=
  match op with
  | OpStart | OpResume => StatusRunning
  | OpComplete => StatusCompleted
  | OpFail => StatusFailed
  | OpCancel => StatusCancelled
  | OpPark _ => StatusParked
  | OpWait => StatusWaiting
  | OpRetry => StatusRetrying
  | OpRequeue => StatusPending
  end.

(** The edges of the machine: the table, and [Requeue]'s own test. *)
Definition edge (op : job_op) (s : JobStatus) : bool :=
  match op with
  | OpRequeue => bool_decide (s = StatusRetrying) || bool_decide (s = StatusWaiting)
  | _ => bool_decide (op_target op ∈ default [] (validTransitions s))
  end.

Lemma CanTransitionTo_ok j s u :
  CanTransitionTo j s = Ok u <-> s ∈ default [] (validTransitions (job_Status j)).
Proof.
  unfold CanTransitionTo. destruct u. destruct (validTransitions _) as [l|]; cbn.
  - rewrite <- existsb_exists_elem. destruct (existsb _ _) eqn:He.
    + split; [|done]. by intros _.
    + split; [done|]. intros H. congruence.
  - split; [done|]. by intros ?%elem_of_nil.
Qed.

Lemma run_op_ok op now j j' :
  run_op op now j = Ok j' ->
  edge op (job_Status j) = true /\ job_Status j' = op_target op /\ job_UpdatedAt j' = now /\
  job_RetryCount j' = job_RetryCount j + (match op with OpRetry => 1 | _ => 0 end).
Proof.
  destruct op; cbn [run_op edge op_target];
    unfold Start, Complete, Fail, Cancel, Park, Resume, Wait, Retry, Requeue;
    rewrite ?result_bind_ok; intros H.
  all: try (destruct H as (u & Hc & [= <-]); apply CanTransitionTo_ok in Hc;
            rewrite bool_decide_eq_true; cbn; split_and!; try done; lia).
  case_match eqn:Hb; [done|]. injection H as <-. cbn. split_and!; try done; [|lia].
  do 2 case_bool_decide; done.
Qed.

(** ** Properties *)

Lemma edge_terminal op s : is_terminal_status s = true -> edge op s = false.
Proof. by destruct s, op. Qed.

Lemma terminal_star j j' :
  rtc job_step j j' -> is_terminal_status (job_Status j) = true ->
  j' = j \/ j' = set_job_pendingEvent None j.
Proof.
  intros Hr Ht. induction Hr as [j|j j1 j' Hs Hr IH]; [by left|].
  destruct Hs as [op now j1 Hop|].
  - apply run_op_ok in Hop as [He _]. by rewrite edge_terminal in He.
  - cbn [PendingEvent fst] in *. specialize (IH Ht). right. by destruct IH as [->| ->].
Qed.

(** Completed, failed and cancelled are absorbing: no sequence of calls on
    a job in such a state changes anything but the drained pending event, and
    every transition answers an invalid-transition error (so a failed job
    cannot be retried, whatever the comment of [Retry] says). *)
Theorem terminal_absorbing j j' :
  is_terminal_status (job_Status j) = true -> rtc job_step j j' ->
  (j' = j \/ j' = set_job_pendingEvent None j) /\
  forall op now, exists e, run_op op now j' = Err e /\ ist_From e = job_Status j /\
                           ist_To e = op_target op.
Proof.
  intros Ht Hr. pose proof (terminal_star _ _ Hr Ht) as Hj. split; [done|].
  intros op now. assert (Hst : job_Status j' = job_Status j) by by destruct Hj as [->| ->].
  destruct (run_op op now j') as [j2|e] eqn:Hop.
  - apply run_op_ok in Hop as [He _]. by rewrite Hst, edge_terminal in He.
  - exists e. split; [done|]. rewrite <- Hst in *. clear Hj Hr Hst.
    destruct op; cbn in Hop;
      unfold Start, Complete, Fail, Cancel, Park, Resume, Wait, Retry, Requeue, CanTransitionTo in Hop;
      destruct (job_Status j'); by simplify_eq/=.
Qed.

(** [IsJobBlocked], which scans backwards and stops early, agrees with the
    status the forward scan of [DeriveStatusFromEvents] computes: a job is
    blocked exactly when its derived status is waiting or parked. *)
Theorem IsJobBlocked_derived es :
  IsJobBlocked es = true <->
  DeriveStatusFromEvents es = StatusWaiting \/ DeriveStatusFromEvents es = StatusParked.
Proof. rewrite blocked_derive. destruct (DeriveStatusFromEvents es); naive_solver. Qed.

(** The event a successful transition leaves pending tells the event
    stream the right thing: appended to any stream it derives the job's new
    status, except that a parked job derives as waiting and a retrying one as
    pending; the blocked verdict is the job's in every case. *)
Theorem transition_event_agrees op now j j' es e :
  run_op op now j = Ok j' -> snd (PendingEvent j') = Some e ->
  ev_JobID e = job_ID j /\
  DeriveStatusFromEvents (es ++ [e]) =
    (match op with OpPark _ => StatusWaiting | OpRetry => StatusPending | _ => job_Status j' end) /\
  IsJobBlocked (es ++ [e]) = is_blocked_status (job_Status j').
Proof.
  intros Hop He. rewrite blocked_derive, derive_snoc.
  destruct op; cbn [run_op] in Hop;
    unfold Start, Complete, Fail, Cancel, Park, Resume, Wait, Retry, Requeue in Hop;
    rewrite ?result_bind_ok in Hop;
    first [destruct Hop as (_ & _ & [= <-]) | case_match; simplify_eq/=]; by simplify_eq/=.
Qed.

(** ** Witnesses *)

Definition demo_job : Job := NewJob (Time 5 0) "j" "a" "t" "g".

Lemma terminal_absorbing_witness :
  exists e, run_op OpRetry (Time 6 0) (set_job_Status StatusFailed demo_job) = Err e /\
    ist_From e = StatusFailed /\ ist_To e = StatusRetrying.
Proof.
  exact (proj2 (terminal_absorbing (set_job_Status StatusFailed demo_job) _ eq_refl (rtc_refl _ _))
           OpRetry (Time 6 0)).
Defined.

Lemma transition_event_agrees_witness :
  IsJobBlocked ([] ++ [mkJobEvent EmptyString "j" JobWaiting EmptyString zero_time EmptyString EmptyString])
  = true.
Proof.
  exact (proj2 (proj2 (transition_event_agrees (OpPark "r") (Time 6 0) demo_job _ [] _ eq_refl eq_refl))).
Defined.
