(* ===== verification/JobQueue.v ===== *)
(** internal/agent/job/{job_store,queue,wakeup,embedded_store}.go: the
    in-memory job store with its pending queue and wait tracking, the wake-up
    queue, and the store persisted to a JSON file.

    Every operation of [JobStoreMem] runs under one mutex, so an operation is
    one step.  Stored jobs and wait records are never shared with a caller
    (the code copies them) and wait records are not mutated, so they are
    values here.  [time.Now()] and [uuid.New()] are arguments; a Go map is
    visited in an order that is an argument where it can be observed. *)

From S2P Require Import Prelude GoTime Json Events JobFsm.

(** ** Queue classes (queue.go) *)

Definition PriorityRealtime : Z := 10.
Definition PriorityDefault : Z := 0.
Definition PriorityBackground : Z := -5.
Definition PriorityHeavy : Z := -10.

Definition PriorityForQueue (queueClass : string) : Z :=
  if String.eqb queueClass "realtime" then PriorityRealtime
  else if String.eqb queueClass "background" then PriorityBackground
  else if String.eqb queueClass "heavy" then PriorityHeavy
  else PriorityDefault.

(** ** State (job_store.go:26-127) *)

Record TimeRange := mkRange { tr_Start : time; tr_End : time }.

Definition jobMatchesCapabilities (jobRequired workerCapabilities : list string) : bool :=
  match jobRequired, workerCapabilities with
  | [], _ => true
  | _, [] => true
  | _, _ => forallb (fun r => existsb (fun c => bool_decide (c = r)) workerCapabilities) jobRequired
  end.

Record waitingInfo := mkWait {
  wi_jobID : string; wi_correlationKey : string; wi_waitType : string; wi_reason : string;
  wi_status : JobStatus; wi_setAt : time;
}.

Record JobStoreMem := mkMem {
  jm_byID : gmap string Job;
  jm_pending : list string;
  jm_waiting : gmap string waitingInfo;
  jm_waitingByKey : gmap string waitingInfo;
}.

Definition NewJobStoreMem : JobStoreMem := mkMem ∅ [] ∅ ∅.

Definition set_byID m s := mkMem m (jm_pending s) (jm_waiting s) (jm_waitingByKey s).
Definition set_pending l s := mkMem (jm_byID s) l (jm_waiting s) (jm_waitingByKey s).
Definition set_tracking w k s := mkMem (jm_byID s) (jm_pending s) w k.

Definition put (id : string) (j : Job) (s : JobStoreMem) : JobStoreMem :=
  set_byID (<[id := j]> (jm_byID s)) s.

(** [j.Status = st; j.UpdatedAt = time.Now()] *)
Definition stamp (now : time) (st : JobStatus) (j : Job) : Job :=
  set_job_UpdatedAt now (set_job_Status st j).

(** ** Creation and queries (job_store.go:129-246) *)

Definition Create (now : time) (uuid : string) (job : Job) (s : JobStoreMem) : JobStoreMem * Job :=
  let id := if String.eqb (job_ID job) EmptyString then "job-" +:+ uuid else job_ID job in
  let tenant := if String.eqb (job_TenantID job) EmptyString then "default" else job_TenantID job in
  let job' := set_job_UpdatedAt now (set_job_CreatedAt now (set_job_Status StatusPending
                (set_job_TenantID tenant (set_job_ID id job)))) in
  (set_pending (jm_pending s ++ [id]) (put id job' s), job').

Definition Get (jobID : string) (s : JobStoreMem) : option Job := jm_byID s !! jobID.

Definition find_job (order : list string) (p : Job -> bool) (s : JobStoreMem) : option Job :=
  list_find (fun j => p j = true) (omap (fun id => jm_byID s !! id) order) ≫= fun r => Some (snd r).

Definition GetByAgentAndIdempotencyKey (order : list string) (agentID key : string) (s : JobStoreMem)
    : option Job :=
  if String.eqb key EmptyString then None
  else find_job order (fun j => String.eqb (job_AgentID j) agentID
                                && String.eqb (job_IdempotencyKey j) key) s.

Definition GetByAgentTenantAndIdempotencyKey (order : list string) (agentID tenantID key : string)
    (s : JobStoreMem) : option Job :=
  if String.eqb key EmptyString then None
  else
    let tenantID := if String.eqb tenantID EmptyString then "default" else tenantID in
    find_job order (fun j => String.eqb (job_AgentID j) agentID && String.eqb (job_TenantID j) tenantID
                             && String.eqb (job_IdempotencyKey j) key) s.

Definition tenant_match (tenantID : string) (j : Job) : bool :=
  String.eqb tenantID EmptyString || String.eqb (job_TenantID j) tenantID.

Definition ListByAgent (order : list string) (agentID tenantID : string) (s : JobStoreMem) : list Job :=
  filter (fun j => String.eqb (job_AgentID j) agentID && tenant_match tenantID j = true)
    (omap (fun id => jm_byID s !! id) order).

Definition in_time_range (r : TimeRange) (j : Job) : bool :=
  negb (negb (is_zero (tr_Start r)) && t_before (job_CreatedAt j) (tr_Start r))
  && negb (negb (is_zero (tr_End r)) && t_after (job_CreatedAt j) (tr_End r)).

Definition ListByTenant (order : list string) (tenantID : string) (agentIDs : list string)
    (timeRange : TimeRange) (limit : Z) (s : JobStoreMem) : list Job :=
  let ok j := tenant_match tenantID j
              && match agentIDs with
                 | [] => true
                 | _ => existsb (fun a => bool_decide (a = job_AgentID j)) agentIDs
                 end
              && in_time_range timeRange j in
  let l := filter (fun j => ok j = true) (omap (fun id => jm_byID s !! id) order) in
  if 0 <? limit then take (Z.to_nat limit) l else l.

(** ** Updates (job_store.go:248-270, 318-352) *)

Definition UpdateStatus (now : time) (jobID : string) (status : JobStatus) (s : JobStoreMem)
    : JobStoreMem :=
  match jm_byID s !! jobID with
  | None => s
  | Some j => put jobID (stamp now status j) s
  end.

Definition UpdateCursor (now : time) (jobID cursor : string) (s : JobStoreMem) : JobStoreMem :=
  match jm_byID s !! jobID with
  | None => s
  | Some j => put jobID (set_job_UpdatedAt now (set_job_Cursor cursor j)) s
  end.

Definition requeue_job (now : time) (job : Job) (s : JobStoreMem) : JobStoreMem :=
  match jm_byID s !! job_ID job with
  | None => s
  | Some j =>
      set_pending (jm_pending s ++ [job_ID job])
        (put (job_ID job) (stamp now StatusPending (set_job_RetryCount (job_RetryCount job + 1) j)) s)
  end.

Definition RequestCancel (now : time) (jobID : string) (s : JobStoreMem) : JobStoreMem :=
  match jm_byID s !! jobID with
  | None => s
  | Some j => put jobID (set_job_UpdatedAt now (set_job_CancelRequestedAt now j)) s
  end.

Definition ReclaimOrphanedJobs (olderThan : Z) (s : JobStoreMem) : JobStoreMem * Z := (s, 0).

(** ** Claiming (job_store.go:272-316, 354-385) *)

(** The three [continue] tests and the status test of the loop. *)
Definition eligible (queueClass : string) (caps : list string) (tenantID : string) (j : Job) : bool :=
  bool_decide (job_Status j = StatusPending)
  && tenant_match tenantID j
  && (String.eqb queueClass EmptyString || String.eqb (job_QueueClass j) EmptyString
      || String.eqb (job_QueueClass j) queueClass)
  && jobMatchesCapabilities (job_RequiredCapabilities j) caps.

(** The scan: index, id and priority of the best entry so far. *)
Fixpoint claim_scan (ok : Job -> bool) (byID : gmap string Job) (idx : nat) (ids : list string)
    (best : option (nat * string * Z)) : option (nat * string * Z) :=
  match ids with
  | [] => best
  | id :: rest =>
      claim_scan ok byID (S idx) rest
        match byID !! id with
        | Some j =>
            if ok j then
              match best with
              | None => Some (idx, id, job_Priority j)
              | Some (_, _, p) => if p <? job_Priority j then Some (idx, id, job_Priority j) else best
              end
            else best
        | None => best
        end
  end.

Definition ClaimNextPendingForWorker (now : time) (queueClass : string) (caps : list string)
    (tenantID : string) (s : JobStoreMem) : JobStoreMem * option Job :=
  match claim_scan (eligible queueClass caps tenantID) (jm_byID s) 0 (jm_pending s) None with
  | None => (s, None)
  | Some (i, id, _) =>
      match jm_byID s !! id with
      | None => (s, None)
      | Some j =>
          let j' := stamp now StatusRunning j in
          (put id j' (set_pending (splice i (jm_pending s)) s), Some j')
      end
  end.

Definition ClaimNextPendingFromQueue (now : time) (queueClass : string) (s : JobStoreMem) :=
  ClaimNextPendingForWorker now queueClass [] EmptyString s.

Definition ClaimNextPending (now : time) (s : JobStoreMem) :=
  ClaimNextPendingFromQueue now EmptyString s.

(** One pass of the blocking loop: [None] when it drains the queue and waits
    again. *)
Fixpoint wait_next (byID : gmap string Job) (ids : list string) : list string * option (string * Job) :=
  match ids with
  | [] => ([], None)
  | id :: rest =>
      match byID !! id with
      | Some j => if bool_decide (job_Status j = StatusPending) then (rest, Some (id, j))
                  else wait_next byID rest
      | None => wait_next byID rest
      end
  end.

Definition WaitNextPending (now : time) (s : JobStoreMem) : JobStoreMem * option Job :=
  match wait_next (jm_byID s) (jm_pending s) with
  | (rest, None) => (set_pending rest s, None)
  | (rest, Some (id, j)) =>
      let j' := stamp now StatusRunning j in (put id j' (set_pending rest s), Some j')
  end.

(** ** Waiting and parking (job_store.go:387-502) *)

Definition track (now : time) (st : JobStatus) (jobID key waitType reason : string) (s : JobStoreMem)
    : JobStoreMem :=
  match jm_byID s !! jobID with
  | None => s
  | Some j =>
      let info := mkWait jobID key waitType reason st now in
      set_tracking (<[jobID := info]> (jm_waiting s))
        (if String.eqb key EmptyString then jm_waitingByKey s else <[key := info]> (jm_waitingByKey s))
        (put jobID (stamp now st j) s)
  end.

Definition SetWaiting (now : time) (jobID key waitType reason : string) (s : JobStoreMem) :=
  track now StatusWaiting jobID key waitType reason s.

Definition SetParked (now : time) (jobID key waitType reason : string) (s : JobStoreMem) :=
  track now StatusParked jobID key waitType reason s.

Definition WakeupJob (now : time) (key : string) (s : JobStoreMem) : JobStoreMem * option Job :=
  match jm_waitingByKey s !! key with
  | None => (s, None)
  | Some info =>
      let s1 := set_tracking (delete (wi_jobID info) (jm_waiting s))
                  (delete key (jm_waitingByKey s)) s in
      match jm_byID s !! wi_jobID info with
      | None => (s1, None)
      | Some j =>
          let j' := stamp now StatusPending j in
          (set_pending (jm_pending s ++ [job_ID j']) (put (wi_jobID info) j' s1), Some j')
      end
  end.

Definition ClaimParkedJob (now : time) (jobID : string) (s : JobStoreMem) : JobStoreMem * option Job :=
  match jm_byID s !! jobID with
  | None => (s, None)
  | Some j =>
      if negb (bool_decide (job_Status j = StatusParked)) && negb (bool_decide (job_Status j = StatusWaiting))
      then (s, None)
      else
        let s1 := match jm_waiting s !! jobID with
                  | Some info =>
                      set_tracking (delete jobID (jm_waiting s))
                        (if String.eqb (wi_correlationKey info) EmptyString then jm_waitingByKey s
                         else delete (wi_correlationKey info) (jm_waitingByKey s)) s
                  | None => s
                  end in
        let j' := stamp now StatusRunning j in
        (put jobID j' s1, Some j')
  end.

(** ** The wake-up queue (wakeup.go): a buffered channel of job ids *)

Record WakeupQueueMem := mkWakeup { wq_cap : nat; wq_buf : list string }.

Definition NewWakeupQueueMem (bufSize : Z) : WakeupQueueMem :=
  mkWakeup (if bufSize <=? 0 then 256%nat else Z.to_nat bufSize) [].

(** The context is not done: a full channel drops the notification. *)
Definition NotifyReady (jobID : string) (q : WakeupQueueMem) : WakeupQueueMem :=
  if String.eqb jobID EmptyString then q
  else if (length (wq_buf q) <? wq_cap q)%nat then mkWakeup (wq_cap q) (wq_buf q ++ [jobID])
  else q.

(** [None] when nothing arrives before the timeout. *)
Definition Receive (q : WakeupQueueMem) : WakeupQueueMem * option string :=
  match wq_buf q with
  | [] => (q, None)
  | id :: b => (mkWakeup (wq_cap q) b, Some id)
  end.

(** ** The persisted store (embedded_store.go; internal/storage/embedded) *)

(** What [json.Marshal] writes of a wait record and of a job: unexported
    fields are left out, so they come back as zero values. *)
Definition json_waitingInfo (_ : waitingInfo) : waitingInfo :=
  mkWait EmptyString EmptyString EmptyString EmptyString StatusPending zero_time.
Definition json_Job (j : Job) : Job := set_job_pendingEvent None j.

Definition embedded_image (s : JobStoreMem) : JobStoreMem :=
  mkMem (json_Job <$> jm_byID s) (jm_pending s) (json_waitingInfo <$> jm_waiting s)
    (json_waitingInfo <$> jm_waitingByKey s).

(** [em_disk] is the decoded contents of the file, absent before the first save. *)
Record JobStoreEmbedded := mkEmbedded { em_mem : JobStoreMem; em_disk : option JobStoreMem }.

(** [io] tells whether the write succeeds; the memory is changed either way. *)
Definition persist (io : bool) (s : JobStoreEmbedded) : JobStoreEmbedded * bool :=
  if io then (mkEmbedded (em_mem s) (Some (embedded_image (em_mem s))), true) else (s, false).

Definition load (disk : option JobStoreMem) : JobStoreEmbedded :=
  mkEmbedded (default NewJobStoreMem disk) disk.

(** Operations that always persist. *)
Definition embedded_update (io : bool) (f : JobStoreMem -> JobStoreMem) (s : JobStoreEmbedded)
    : JobStoreEmbedded * bool :=
  persist io (mkEmbedded (f (em_mem s)) (em_disk s)).

(** Operations that persist when they return a job. *)
Definition embedded_claim (io : bool) (f : JobStoreMem -> JobStoreMem * option Job)
    (s : JobStoreEmbedded) : JobStoreEmbedded * option Job * bool :=
  let '(m, r) := f (em_mem s) in
  match r with
  | None => (mkEmbedded m (em_disk s), None, true)
  | Some j => let '(s', ok) := persist io (mkEmbedded m (em_disk s)) in (s', Some j, ok)
  end.

Definition Embedded_Create io now uuid j s :=
  let '(m, j') := Create now uuid j (em_mem s) in
  (persist io (mkEmbedded m (em_disk s)), job_ID j').
Definition Embedded_UpdateStatus io now id st := embedded_update io (UpdateStatus now id st).
Definition Embedded_UpdateCursor io now id cursor := embedded_update io (UpdateCursor now id cursor).
Definition Embedded_ClaimNextPending io now := embedded_claim io (ClaimNextPending now).
Definition Embedded_ClaimNextPendingFromQueue io now q := embedded_claim io (ClaimNextPendingFromQueue now q).
Definition Embedded_ClaimNextPendingForWorker io now q caps t :=
  embedded_claim io (ClaimNextPendingForWorker now q caps t).
Definition Embedded_Requeue io now job := embedded_update io (requeue_job now job).
Definition Embedded_RequestCancel io now id := embedded_update io (RequestCancel now id).
Definition Embedded_SetWaiting io now id key wt reason := embedded_update io (SetWaiting now id key wt reason).
Definition Embedded_SetParked io now id key wt reason := embedded_update io (SetParked now id key wt reason).
Definition Embedded_WakeupJob io now key := embedded_claim io (WakeupJob now key).
Definition Embedded_ClaimParkedJob io now id := embedded_claim io (ClaimParkedJob now id).
Definition Embedded_ReclaimOrphanedJobs io older s :=
  (persist io s, snd (ReclaimOrphanedJobs older (em_mem s))).

(** ** The claim scan *)

Section scan.
Context (ok : Job -> bool) (byID : gmap string Job).

(** The id names an eligible job of priority at most (below) [p]. *)
Definition at_most (p : Z) (id : string) : Prop :=
  forall j, byID !! id = Some j -> ok j = true -> job_Priority j <= p.
Definition below (p : Z) (id : string) : Prop :=
  forall j, byID !! id = Some j -> ok j = true -> job_Priority j < p.
Definition not_eligible (id : string) : Prop :=
  forall j, byID !! id = Some j -> ok j = false.

Definition scan_found (k : nat) (ids : list string) (i : nat) (id : string) (p : Z) : Prop :=
  exists l1 l2 j, ids = l1 ++ id :: l2 /\ i = (k + length l1)%nat /\ byID !! id = Some j /\
    ok j = true /\ job_Priority j = p /\ Forall (below p) l1 /\ Forall (at_most p) l2.

Lemma scan_found_cons k x ids i id p :
  scan_found (S k) ids i id p -> below p x -> scan_found k (x :: ids) i id p.
Proof.
  intros (l1 & l2 & j & -> & -> & ? & ? & ? & ? & ?) Hx.
  exists (x :: l1), l2, j. split_and!; try done; [cbn; lia|by constructor].
Qed.

Definition scan_result (k : nat) (ids : list string) (best r : option (nat * string * Z)) : Prop :=
  match r with
  | None => best = None /\ Forall not_eligible ids
  | Some (i, id, p) =>
      (best = Some (i, id, p) /\ Forall (at_most p) ids) \/
      (scan_found k ids i id p /\ forall i' id' p', best = Some (i', id', p') -> p' < p)
  end.

Lemma claim_scan_spec k ids best :
  scan_result k ids best (claim_scan ok byID k ids best).
Proof.
  revert k best. induction ids as [|x ids IH]; intros k best; cbn [claim_scan].
  { destruct best as [[[i id] p]|]; cbn; [left|]; by split. }
  set (best' := match byID !! x with Some _ => _ | None => _ end).
  specialize (IH (S k) best').
  destruct (claim_scan ok byID (S k) ids best') as [[[i id] p]|] eqn:Hr; cbn in *.
  2:{ destruct IH as [Hb Hn]. subst best'.
      assert (Hbn : best = None /\ not_eligible x).
      { unfold not_eligible. destruct (byID !! x) as [j|]; [|naive_solver].
        destruct (ok j) eqn:Hj; [|naive_solver].
        destruct best as [[[? ?] p]|]; [by destruct (p <? job_Priority j)|done]. }
      destruct Hbn as [-> Hx]. split; [done|by constructor]. }
  destruct IH as [[Hb Ha]|[Hf Hlt]].
  - destruct (byID !! x) as [j|] eqn:Hx; [destruct (ok j) eqn:Hj|].
    + assert (Hnew : Some (k, x, job_Priority j) = Some (i, id, p) ->
                     scan_found k (x :: ids) i id p).
      { intros [= <- <- <-]. exists [], ids, j. by split_and!. }
      destruct best as [[[i0 id0] p0]|]; [destruct (p0 <? job_Priority j) eqn:Hp|]; subst best'.
      * right. split; [by apply Hnew|]. intros ??? [= <- <- <-]. bool_hyps. congruence.
      * left. split; [done|]. constructor; [|done]. intros j' ??. bool_hyps. simplify_eq. lia.
      * right. split; [by apply Hnew|done].
    + left. split; [done|]. constructor; [|done]. intros j' ??. congruence.
    + left. split; [done|]. constructor; [|done]. intros j' ??. congruence.
  - right. subst best'. destruct (byID !! x) as [j|] eqn:Hx; [destruct (ok j) eqn:Hj|].
    + destruct best as [[[i0 id0] p0]|]; [destruct (p0 <? job_Priority j) eqn:Hp|].
      * pose proof (Hlt _ _ _ eq_refl). bool_hyps. split.
        -- apply scan_found_cons; [done|]. intros j' ??. simplify_eq. lia.
        -- intros ??? [= <- <- <-]. lia.
      * pose proof (Hlt _ _ _ eq_refl). bool_hyps. split.
        -- apply scan_found_cons; [done|]. intros j' ??. simplify_eq. lia.
        -- intros ??? [= <- <- <-]. lia.
      * pose proof (Hlt _ _ _ eq_refl). split; [|done].
        apply scan_found_cons; [done|]. intros j' ??. simplify_eq. lia.
    + split; [|done]. apply scan_found_cons; [done|]. intros j' ??. congruence.
    + split; [|done]. apply scan_found_cons; [done|]. intros j' ??. congruence.
Qed.
End scan.

(** ** Runs of the store *)

Inductive store_op :=
| SCreate (uuid : string) (job : Job)
| SUpdateStatus (id : string) (st : JobStatus)
| SUpdateCursor (id cursor : string)
| SRequeue (job : Job)
| SRequestCancel (id : string)
| SClaim (queueClass : string) (caps : list string) (tenantID : string)
| SWaitNext
| SSetWaiting (id key waitType reason : string)
| SSetParked (id key waitType reason : string)
| SWakeup (key : string)
| SClaimParked (id : string).

Definition run_store (now : time) (op : store_op) (s : JobStoreMem) : JobStoreMem * option Job :=
  match op with
  | SCreate uuid job => let '(s', j) := Create now uuid job s in (s', Some j)
  | SUpdateStatus id st => (UpdateStatus now id st s, None)
  | SUpdateCursor id c => (UpdateCursor now id c s, None)
  | SRequeue job => (requeue_job now job s, None)
  | SRequestCancel id => (RequestCancel now id s, None)
  | SClaim q caps t => ClaimNextPendingForWorker now q caps t s
  | SWaitNext => WaitNextPending now s
  | SSetWaiting id k w r => (SetWaiting now id k w r s, None)
  | SSetParked id k w r => (SetParked now id k w r s, None)
  | SWakeup k => WakeupJob now k s
  | SClaimParked id => ClaimParkedJob now id s
  end.

Definition run_all (ops : list (time * store_op)) (s : JobStoreMem) : JobStoreMem :=
  fold_left (fun s o => fst (run_store o.1 o.2 s)) ops s.

(** Every job is stored under its own id. *)
Definition keys_ok (s : JobStoreMem) : Prop := map_Forall (fun id j => job_ID j = id) (jm_byID s).

(** No pending job is missing from the queue. *)
Definition enqueued (s : JobStoreMem) : Prop :=
  map_Forall (fun id j => job_Status j = StatusPending -> id ∈ jm_pending s) (jm_byID s).

Definition store_inv (s : JobStoreMem) : Prop := keys_ok s /\ enqueued s.

(** Writing one job keeps the invariant when the queue keeps the other ids. *)
Lemma store_inv_put s id j l w k :
  store_inv s -> job_ID j = id ->
  (job_Status j = StatusPending -> id ∈ l) ->
  (forall x, x ∈ jm_pending s -> x = id \/ x ∈ l) ->
  store_inv (mkMem (<[id := j]> (jm_byID s)) l w k).
Proof.
  intros [Hk He] Hid Hp Hl. split; intros x jx Hx; cbn in *.
  - apply lookup_insert_Some in Hx as [[<- <-]|[Hne Hx]]; [done|by apply Hk].
  - apply lookup_insert_Some in Hx as [[<- <-]|[Hne Hx]]; [done|]. intros Hs.
    destruct (Hl x (He x jx Hx Hs)); [by subst|done].
Qed.

Lemma claim_scan_found ok s i id p :
  claim_scan ok (jm_byID s) 0 (jm_pending s) None = Some (i, id, p) ->
  scan_found ok (jm_byID s) 0 (jm_pending s) i id p.
Proof.
  intros H. pose proof (claim_scan_spec ok (jm_byID s) 0 (jm_pending s) None) as Hs.
  rewrite H in Hs. cbn in Hs. naive_solver.
Qed.

Lemma scan_found_lookup ok m ids i id p :
  scan_found ok m 0 ids i id p -> ids !! i = Some id /\ exists j, m !! id = Some j /\ ok j = true.
Proof.
  intros (l1 & l2 & j & -> & -> & ? & ? & _). split; [|by exists j].
  by rewrite lookup_app_r, Nat.add_0_l, Nat.sub_diag by lia.
Qed.

(** The job a claim returns, and what is left of the store. *)
Lemma claim_effect now q caps t s s' r :
  ClaimNextPendingForWorker now q caps t s = (s', r) ->
  (r = None /\ s' = s) \/
  exists i id p j,
    claim_scan (eligible q caps t) (jm_byID s) 0 (jm_pending s) None = Some (i, id, p) /\
    jm_pending s !! i = Some id /\ jm_byID s !! id = Some j /\ eligible q caps t j = true /\
    r = Some (stamp now StatusRunning j) /\
    s' = put id (stamp now StatusRunning j) (set_pending (splice i (jm_pending s)) s).
Proof.
  unfold ClaimNextPendingForWorker.
  destruct (claim_scan _ _ _ _ _) as [[[i id] p]|] eqn:Hc; [|intros [= <- <-]; by left].
  pose proof (claim_scan_found _ _ _ _ _ Hc) as Hf.
  apply scan_found_lookup in Hf as (Hi & j & Hj & Hok). rewrite Hj. intros [= <- <-].
  right. exists i, id, p, j. by split_and!.
Qed.

Lemma wait_next_effect byID ids rest r :
  wait_next byID ids = (rest, r) ->
  match r with
  | Some (id, j) => byID !! id = Some j /\ job_Status j = StatusPending
  | None => True
  end /\
  forall x j, x ∈ ids -> byID !! x = Some j -> job_Status j = StatusPending ->
    x ∈ rest \/ exists j', r = Some (x, j').
Proof.
  revert rest r. induction ids as [|y ids IH]; intros rest r; cbn.
  { intros [= <- <-]. split; [done|]. by intros ?? ?%elem_of_nil. }
  destruct (byID !! y) as [jy|] eqn:Hy; [case_bool_decide as Hs|].
  - intros [= <- <-]. split; [done|]. intros x j [->|Hx]%elem_of_cons _ _; [right; by exists jy|by left].
  - intros Hr. destruct (IH _ _ Hr) as [H1 H2]. split; [done|].
    intros x j [->|Hx]%elem_of_cons Hj Hst; [congruence|by eapply H2].
  - intros Hr. destruct (IH _ _ Hr) as [H1 H2]. split; [done|].
    intros x j [->|Hx]%elem_of_cons Hj Hst; [congruence|by eapply H2].
Qed.

Lemma splice_others {A} (l : list A) i x y : l !! i = Some x -> y ∈ l -> y = x \/ y ∈ splice i l.
Proof.
  intros H Hy. apply (splice_perm l i x) in H. rewrite H in Hy. by apply elem_of_cons in Hy.
Qed.

(** The operations other than setting the status to pending directly. *)
Definition enqueues (op : store_op) : bool :=
  match op with SUpdateStatus _ StatusPending => false | _ => true end.

Lemma elem_of_snoc_or (l : list string) x : x ∈ l ++ [x] /\ forall y, y ∈ l -> y = x \/ y ∈ l ++ [x].
Proof. split; [|intros y Hy; right]; apply elem_of_app; [right; by left|by left]. Qed.

Lemma run_store_inv now op s :
  enqueues op = true -> store_inv s -> store_inv (fst (run_store now op s)).
Proof.
  intros Hop Hi. pose proof Hi as [Hk He].
  destruct op as [uuid job|id st|id c|job|id|q caps t| |id k w r|id k w r|k|id]; cbn in Hop |- *.
  - apply (store_inv_put s); [done|done|intros _|]; apply elem_of_snoc_or.
  - unfold UpdateStatus. destruct (_ !! id) as [j|] eqn:Hj; [|done].
    apply (store_inv_put s); [done|exact (Hk _ _ Hj)|cbn; by intros ->|by right].
  - unfold UpdateCursor. destruct (_ !! id) as [j|] eqn:Hj; [|done].
    apply (store_inv_put s); [done|exact (Hk _ _ Hj)|exact (He _ _ Hj)|by right].
  - unfold requeue_job. destruct (_ !! job_ID job) as [j|] eqn:Hj; [|done].
    apply (store_inv_put s); [done|exact (Hk _ _ Hj)|intros _|]; apply elem_of_snoc_or.
  - unfold RequestCancel. destruct (_ !! id) as [j|] eqn:Hj; [|done].
    apply (store_inv_put s); [done|exact (Hk _ _ Hj)|exact (He _ _ Hj)|by right].
  - destruct (ClaimNextPendingForWorker now q caps t s) as [s' r'] eqn:Hc.
    apply claim_effect in Hc as [[-> ->]|(i & id & p & j & _ & Hp & Hj & _ & -> & ->)]; [done|].
    apply (store_inv_put s); [done|exact (Hk _ _ Hj)|discriminate|]. intros x. by apply splice_others.
  - unfold WaitNextPending. destruct (wait_next _ _) as [rest r'] eqn:Hw.
    apply wait_next_effect in Hw as [Hr Hl]. destruct r' as [[id j]|]; cbn.
    + destruct Hr as [Hj Hs]. split; intros x jx Hx; cbn in *.
      * apply lookup_insert_Some in Hx as [[<- <-]|[_ Hx]]; [exact (Hk _ _ Hj)|by apply Hk].
      * apply lookup_insert_Some in Hx as [[<- <-]|[Hne Hx]]; [done|]. intros Hst.
        destruct (Hl x jx (He _ _ Hx Hst) Hx Hst) as [?|(? & [= Heq _])]; done.
    + split; [done|]. intros x jx Hx Hst. cbn in *.
      destruct (Hl x jx (He _ _ Hx Hst) Hx Hst) as [?|(? & ?)]; done.
  - unfold SetWaiting, track. destruct (_ !! id) as [j|] eqn:Hj; [|done].
    apply (store_inv_put s); [done|exact (Hk _ _ Hj)|discriminate|by right].
  - unfold SetParked, track. destruct (_ !! id) as [j|] eqn:Hj; [|done].
    apply (store_inv_put s); [done|exact (Hk _ _ Hj)|discriminate|by right].
  - unfold WakeupJob. destruct (_ !! k) as [info|]; [|done].
    destruct (_ !! wi_jobID info) as [j|] eqn:Hj; [|done]. pose proof (Hk _ _ Hj) as Hid. cbn in Hid.
    cbn [fst set_pending put set_byID set_tracking jm_byID jm_pending jm_waiting jm_waitingByKey].
    replace (job_ID (stamp now StatusPending j)) with (wi_jobID info) by done.
    apply (store_inv_put s); [done|done|intros _|]; apply elem_of_snoc_or.
  - unfold ClaimParkedJob. destruct (_ !! id) as [j|] eqn:Hj; [|done].
    case_match; [done|].
    destruct (jm_waiting s !! id) as [info|];
      (apply (store_inv_put s); [done|exact (Hk _ _ Hj)|discriminate|by right]).
Qed.

Lemma run_all_inv ops s :
  Forall (fun o => enqueues o.2 = true) ops -> store_inv s -> store_inv (run_all ops s).
Proof.
  revert s. induction ops as [|[now op] ops IH]; intros s Ho Hs; [done|].
  apply Forall_cons in Ho as [Ho Hr]. apply IH; [done|]. by apply run_store_inv.
Qed.

(** ** Properties *)

(** C38: claiming is exact.  Without an answer no queued job is eligible
    (pending, in the tenant and queue, capabilities covered); otherwise the
    queue is [l1 ++ id :: l2] where [id]'s job is eligible, no eligible job
    has a higher priority and none in front of it has the same one, that
    entry alone leaves the queue, and the job alone changes, to running. *)
Theorem ClaimNextPendingForWorker_spec now q caps t s :
  match ClaimNextPendingForWorker now q caps t s with
  | (s', None) => s' = s /\ Forall (not_eligible (eligible q caps t) (jm_byID s)) (jm_pending s)
  | (s', Some j') =>
      exists l1 id l2 j, jm_pending s = l1 ++ id :: l2 /\ jm_byID s !! id = Some j /\
        eligible q caps t j = true /\
        Forall (below (eligible q caps t) (jm_byID s) (job_Priority j)) l1 /\
        Forall (at_most (eligible q caps t) (jm_byID s) (job_Priority j)) l2 /\
        j' = stamp now StatusRunning j /\ jm_pending s' = l1 ++ l2 /\
        jm_byID s' = <[id := j']> (jm_byID s)
  end.
Proof.
  destruct (ClaimNextPendingForWorker now q caps t s) as [s' r] eqn:Hc.
  pose proof (claim_effect _ _ _ _ _ _ _ Hc) as [[-> ->]|(i & id & p & j & Hs & Hp & Hj & Hok & -> & ->)].
  - split; [done|]. unfold ClaimNextPendingForWorker in Hc.
    pose proof (claim_scan_spec (eligible q caps t) (jm_byID s) 0 (jm_pending s) None) as Hspec.
    destruct (claim_scan _ _ _ _ _) as [[[i id] p]|] eqn:Hcs; [|apply Hspec].
    apply claim_scan_found, scan_found_lookup in Hcs as (_ & j & Hj & _). by rewrite Hj in Hc.
  - apply claim_scan_found in Hs as (l1 & l2 & j2 & Hl & Hi & Hj2 & _ & <- & H1 & H2).
    rewrite Hj in Hj2. injection Hj2 as <-. exists l1, id, l2, j. split_and!; try done.
    cbn. rewrite Hl, Hi. unfold splice. cbn [Nat.add].
    by rewrite take_app_length, drop_app_ge, Nat.sub_succ_l, Nat.sub_diag by lia.
Qed.

(** No pending job is lost: from an empty store, whatever operations run
    except setting a status to pending by [UpdateStatus], every job is stored
    under its own id and every pending job is in the queue, so a claim
    without filters finds a job whenever a pending one exists. *)
Theorem pending_jobs_claimable ops now id j :
  Forall (fun o => enqueues o.2 = true) ops ->
  jm_byID (run_all ops NewJobStoreMem) !! id = Some j -> job_Status j = StatusPending ->
  job_ID j = id /\ id ∈ jm_pending (run_all ops NewJobStoreMem) /\
  exists s' j', ClaimNextPending now (run_all ops NewJobStoreMem) = (s', Some j').
Proof.
  intros Ho Hj Hst. set (s := run_all ops NewJobStoreMem) in *.
  assert (Hinv : store_inv s).
  { apply run_all_inv; [done|]. split; apply map_Forall_empty. }
  destruct Hinv as [Hk He]. pose proof (He _ _ Hj Hst) as Hin. split_and!; [by apply Hk|done|].
  unfold ClaimNextPending, ClaimNextPendingFromQueue, ClaimNextPendingForWorker.
  pose proof (claim_scan_spec (eligible EmptyString [] EmptyString) (jm_byID s) 0 (jm_pending s) None)
    as Hspec.
  destruct (claim_scan _ _ _ _ _) as [[[i x] p]|] eqn:Hcs.
  - apply claim_scan_found, scan_found_lookup in Hcs as (_ & jx & Hjx & _). rewrite Hjx. eauto.
  - destruct Hspec as [_ Hn]. rewrite Forall_forall in Hn. specialize (Hn _ Hin _ Hj).
    unfold eligible, tenant_match in Hn. rewrite Hst, bool_decide_true in Hn by done. cbn in Hn.
    by destruct (job_RequiredCapabilities j).
Qed.

(** The operation sets the job's status again, or creates it anew. *)
Definition touches (id : string) (s : JobStoreMem) (op : store_op) : bool :=
  match op with
  | SCreate uuid job => true
  | SUpdateStatus x _ | SSetWaiting x _ _ _ | SSetParked x _ _ _ => bool_decide (x = id)
  | SRequeue job => bool_decide (job_ID job = id)
  | SWakeup k => bool_decide (wi_jobID <$> jm_waitingByKey s !! k = Some id)
  | _ => false
  end.

(** No operation of the run touches the job. *)
Fixpoint leaves_alone (id : string) (ops : list (time * store_op)) (s : JobStoreMem) : bool :=
  match ops with
  | [] => true
  | (now, op) :: r => negb (touches id s op) && leaves_alone id r (fst (run_store now op s))
  end.

Definition is_running (id : string) (s : JobStoreMem) : Prop :=
  exists j, jm_byID s !! id = Some j /\ job_Status j = StatusRunning.

Lemma is_running_put id x j s :
  is_running id s -> (x = id -> job_Status j = StatusRunning) -> is_running id (put x j s).
Proof.
  intros (j0 & Hj & Hs) Hx. unfold is_running, put. cbn.
  destruct (decide (x = id)) as [->|Hne]; [rewrite lookup_insert_eq|rewrite lookup_insert_ne by done];
    eauto.
Qed.

(** While a job runs, an operation that does not touch it neither changes its
    status nor hands it out. *)
Lemma run_store_running id now op s :
  is_running id s -> touches id s op = false ->
  is_running id (fst (run_store now op s)) /\
  forall s' j, run_store now op s = (s', Some j) -> keys_ok s -> job_ID j <> id.
Proof.
  intros Hrun Ht. pose proof Hrun as (j0 & Hj0 & Hs0).
  assert (Hput : forall x j, x <> id -> forall l w k, is_running id (mkMem (<[x := j]> (jm_byID s)) l w k)).
  { intros x j Hne l w k. exists j0. cbn. by rewrite lookup_insert_ne. }
  assert (Hrunning : forall j l w k, job_Status j = StatusRunning ->
            is_running id (mkMem (<[id := j]> (jm_byID s)) l w k)).
  { intros j l w k Hst. exists j. cbn. by rewrite lookup_insert_eq. }
  destruct op as [uuid job|x st|x c|job|x|q caps t| |x k w r|x k w r|k|x]; cbn in Ht |- *;
    [done|..]; bool_hyps.
  - unfold UpdateStatus. destruct (_ !! x); split; [by apply Hput|done|done|done].
  - unfold UpdateCursor. destruct (_ !! x) as [jx|] eqn:Hx; split; [|done|done|done].
    destruct (decide (x = id)) as [->|]; [|by apply Hput]. apply Hrunning. cbn. congruence.
  - unfold requeue_job. destruct (_ !! job_ID job); split; [by apply Hput|done|done|done].
  - unfold RequestCancel. destruct (_ !! x) as [jx|] eqn:Hx; split; [|done|done|done].
    destruct (decide (x = id)) as [->|]; [|by apply Hput]. apply Hrunning. cbn. congruence.
  - destruct (ClaimNextPendingForWorker now q caps t s) as [s1 r] eqn:Hc.
    apply claim_effect in Hc as [[-> ->]|(i & x & p & j & _ & _ & Hx & Hok & -> & ->)]; [done|].
    assert (Hne : x <> id).
    { intros ->. unfold eligible in Hok. bool_hyps. congruence. }
    split; [by apply Hput|]. intros s' j' [= _ <-] Hk. cbn. by rewrite (Hk _ _ Hx).
  - unfold WaitNextPending. destruct (wait_next _ _) as [rest [[x j]|]] eqn:Hw; [|done].
    apply wait_next_effect in Hw as [[Hx Hst] _].
    assert (Hne : x <> id) by (intros ->; congruence).
    split; [by apply Hput|]. intros s' j' [= _ <-] Hk. cbn. by rewrite (Hk _ _ Hx).
  - unfold SetWaiting, track. destruct (_ !! x); split; [by apply Hput|done|done|done].
  - unfold SetParked, track. destruct (_ !! x); split; [by apply Hput|done|done|done].
  - unfold WakeupJob. destruct (_ !! k) as [info|]; [|done]. cbn in Ht.
    assert (Hne : wi_jobID info <> id) by congruence.
    destruct (_ !! wi_jobID info) as [j|] eqn:Hj; [|done].
    split; [by apply Hput|]. intros s' j' [= _ <-] Hk. cbn. by rewrite (Hk _ _ Hj).
  - unfold ClaimParkedJob. destruct (_ !! x) as [j|] eqn:Hj; [|done]. case_match eqn:Hb; [done|].
    assert (Hne : x <> id).
    { intros ->. simplify_eq. rewrite Hs0 in Hb. by cbn in Hb. }
    split; [destruct (jm_waiting s !! x); by apply Hput|].
    intros s' j' [= _ <-] Hk. cbn. by rewrite (Hk _ _ Hj).
Qed.

Lemma keys_put s id j l w k :
  keys_ok s -> job_ID j = id -> keys_ok (mkMem (<[id := j]> (jm_byID s)) l w k).
Proof. intros Hk Hid. by apply map_Forall_insert_2. Qed.

Lemma run_store_keys now op s : keys_ok s -> keys_ok (fst (run_store now op s)).
Proof.
  intros Hk.
  destruct op as [uuid job|x st|x c|job|x|q caps t| |x k w r|x k w r|k|x]; cbn.
  - by apply (keys_put s).
  - unfold UpdateStatus. destruct (_ !! x) as [j|] eqn:Hj; [|done].
    apply (keys_put s); [done|exact (Hk _ _ Hj)].
  - unfold UpdateCursor. destruct (_ !! x) as [j|] eqn:Hj; [|done].
    apply (keys_put s); [done|exact (Hk _ _ Hj)].
  - unfold requeue_job. destruct (_ !! job_ID job) as [j|] eqn:Hj; [|done].
    apply (keys_put s); [done|exact (Hk _ _ Hj)].
  - unfold RequestCancel. destruct (_ !! x) as [j|] eqn:Hj; [|done].
    apply (keys_put s); [done|exact (Hk _ _ Hj)].
  - destruct (ClaimNextPendingForWorker now q caps t s) as [s1 r] eqn:Hc.
    apply claim_effect in Hc as [[-> ->]|(i & x & p & j & _ & _ & Hj & _ & -> & ->)]; [done|].
    apply (keys_put s); [done|exact (Hk _ _ Hj)].
  - unfold WaitNextPending. destruct (wait_next _ _) as [rest [[x j]|]] eqn:Hw; [|done].
    apply wait_next_effect in Hw as [[Hj _] _]. apply (keys_put s); [done|exact (Hk _ _ Hj)].
  - unfold SetWaiting, track. destruct (_ !! x) as [j|] eqn:Hj; [|done].
    apply (keys_put s); [done|exact (Hk _ _ Hj)].
  - unfold SetParked, track. destruct (_ !! x) as [j|] eqn:Hj; [|done].
    apply (keys_put s); [done|exact (Hk _ _ Hj)].
  - unfold WakeupJob. destruct (_ !! k) as [info|]; [|done].
    destruct (_ !! wi_jobID info) as [j|] eqn:Hj; [|done].
    apply (keys_put s); [done|exact (Hk _ _ Hj)].
  - unfold ClaimParkedJob. destruct (_ !! x) as [j|] eqn:Hj; [|done]. case_match; [done|].
    destruct (jm_waiting s !! x); (apply (keys_put s); [done|exact (Hk _ _ Hj)]).
Qed.

Lemma run_all_running id ops s :
  keys_ok s -> is_running id s -> leaves_alone id ops s = true ->
  keys_ok (run_all ops s) /\ is_running id (run_all ops s).
Proof.
  revert s. induction ops as [|[now op] ops IH]; intros s Hk Hr Ha; [done|]. cbn in Ha. bool_hyps.
  apply IH; [by apply run_store_keys|by apply run_store_running|done].
Qed.

(** A claimed job belongs to its claimer: as long as no operation sets its
    status, requeues or recreates it or wakes its wait key, no claim, waiting
    claim or parked claim hands it out a second time, although duplicates of
    its id may sit in the queue. *)
Theorem claimed_job_exclusive now q caps t s s1 j ops now' op s3 j' :
  keys_ok s -> ClaimNextPendingForWorker now q caps t s = (s1, Some j) ->
  leaves_alone (job_ID j) ops s1 = true -> touches (job_ID j) (run_all ops s1) op = false ->
  run_store now' op (run_all ops s1) = (s3, Some j') -> job_ID j' <> job_ID j.
Proof.
  intros Hk Hc Ha Ht Hr.
  assert (Hk1 : keys_ok s1).
  { pose proof (run_store_keys now (SClaim q caps t) s Hk) as H. cbn in H. by rewrite Hc in H. }
  apply claim_effect in Hc as [[? _]|(i & id & p & j0 & _ & _ & Hj & _ & [= ->] & ->)]; [done|].
  assert (Hrun : is_running (job_ID (stamp now StatusRunning j0))
                   (put id (stamp now StatusRunning j0) (set_pending (splice i (jm_pending s)) s))).
  { exists (stamp now StatusRunning j0). cbn. by rewrite (Hk _ _ Hj), lookup_insert_eq. }
  destruct (run_all_running _ ops _ Hk1 Hrun Ha) as [Hk2 Hrun2].
  by eapply run_store_running.
Qed.

(** Waiting and waking are inverse: after [SetWaiting] or [SetParked] with
    a correlation key, [WakeupJob] on that key returns the job, pending and
    queued, and leaves no trace in either wait table. *)
Theorem wakeup_after_wait now now' st id key wt reason s j :
  keys_ok s -> jm_byID s !! id = Some j -> key <> EmptyString ->
  exists s', WakeupJob now' key (track now st id key wt reason s) = (s', Some (stamp now' StatusPending (stamp now st j))) /\
    jm_byID s' = <[id := stamp now' StatusPending (stamp now st j)]> (jm_byID s) /\
    jm_pending s' = jm_pending s ++ [id] /\
    jm_waiting s' = delete id (jm_waiting s) /\
    jm_waitingByKey s' = delete key (jm_waitingByKey s).
Proof.
  intros Hk Hj Hkey. unfold track, WakeupJob. rewrite Hj, (proj2 (String.eqb_neq key EmptyString) Hkey).
  cbn. rewrite lookup_insert_eq. cbn. rewrite lookup_insert_eq. eexists. split; [done|]. cbn.
  rewrite insert_insert_eq, (Hk _ _ Hj), !delete_insert_eq. by split_and!.
Qed.

(** A signal resurrects a finished job: [UpdateStatus] to a terminal status
    leaves the job's wait key in place, and waking the key makes the job
    pending and claimable again. *)
Theorem wakeup_resurrects_terminal now st id key wt reason s j :
  keys_ok s -> jm_byID s !! id = Some j -> key <> EmptyString -> is_terminal_status st = true ->
  exists s' j', WakeupJob now key (UpdateStatus now id st (SetWaiting now id key wt reason s)) = (s', Some j') /\
    job_ID j' = id /\ job_Status j' = StatusPending /\ id ∈ jm_pending s'.
Proof.
  intros Hk Hj Hkey _. unfold SetWaiting, track, UpdateStatus, WakeupJob.
  rewrite Hj, (proj2 (String.eqb_neq key EmptyString) Hkey).
  cbn. rewrite lookup_insert_eq. cbn. rewrite lookup_insert_eq. cbn. rewrite lookup_insert_eq.
  eexists _, _. cbn. pose proof (Hk _ _ Hj) as Hid. cbn in Hid.
  split_and!; [done|done|done|]. rewrite Hid. apply elem_of_snoc_or.
Qed.

(** A restart of the persisted store keeps every job (but for its pending
    event), its status and the queue, and loses every wait: the wait records
    come back blank, so no correlation key wakes a job any more and parked
    jobs stay parked. *)
Theorem restart_keeps_jobs_loses_waits s now key :
  jm_byID (em_mem s) !! EmptyString = None ->
  exists s', persist true s = (s', true) /\
    let r := em_mem (load (em_disk s')) in
    jm_byID r = json_Job <$> jm_byID (em_mem s) /\ jm_pending r = jm_pending (em_mem s) /\
    snd (WakeupJob now key r) = None /\
    jm_byID (fst (WakeupJob now key r)) = jm_byID r.
Proof.
  intros H0. eexists. split; [done|]. cbn. split_and!; [done|done|..].
  all: unfold WakeupJob; cbn; rewrite lookup_fmap;
    destruct (jm_waitingByKey (em_mem s) !! key); [|done]; cbn;
    by rewrite lookup_fmap, H0.
Qed.

(** ** Witnesses *)

Definition demo_store : JobStoreMem :=
  run_all [(Time 1 0, SCreate "u" demo_job); (Time 1 0, SCreate "v" (set_job_ID "k" demo_job))] NewJobStoreMem.

Lemma demo_keys : keys_ok demo_store.
Proof. apply (bool_decide_unpack _). vm_compute. exact I. Qed.

Lemma pending_jobs_claimable_witness :
  exists s' j', ClaimNextPending (Time 9 0) demo_store = (s', Some j').
Proof.
  refine (proj2 (proj2 (pending_jobs_claimable
    [(Time 1 0, SCreate "u" demo_job); (Time 1 0, SCreate "v" (set_job_ID "k" demo_job))]
    (Time 9 0) "k" (set_job_UpdatedAt (Time 1 0) (set_job_CreatedAt (Time 1 0) (set_job_ID "k" demo_job))) _ _ _))).
  - repeat constructor.
  - vm_compute. reflexivity.
  - reflexivity.
Defined.

Lemma claimed_job_exclusive_witness : "k" <> "j".
Proof.
  refine (claimed_job_exclusive (Time 2 0) EmptyString [] EmptyString demo_store _
    (stamp (Time 2 0) StatusRunning (set_job_CreatedAt (Time 1 0) demo_job))
    [(Time 3 0, SUpdateCursor "j" "c")] (Time 4 0) (SClaim EmptyString [] EmptyString) _
    (stamp (Time 4 0) StatusRunning (set_job_CreatedAt (Time 1 0) (set_job_ID "k" demo_job)))
    demo_keys _ _ _ _); vm_compute; reflexivity.
Defined.

Lemma wakeup_after_wait_witness :
  exists s', snd (WakeupJob (Time 3 0) "key" (SetParked (Time 2 0) "j" "key" "human" "r" demo_store)) = Some s'.
Proof.
  destruct (wakeup_after_wait (Time 2 0) (Time 3 0) StatusParked "j" "key" "human" "r" demo_store
    (set_job_UpdatedAt (Time 1 0) (set_job_CreatedAt (Time 1 0) demo_job)) demo_keys) as (s' & H & _);
    [vm_compute; reflexivity|discriminate|].
  eexists. unfold SetParked. rewrite H. reflexivity.
Defined.

Lemma wakeup_resurrects_terminal_witness :
  exists j', job_ID j' = "j" /\ job_Status j' = StatusPending.
Proof.
  destruct (wakeup_resurrects_terminal (Time 2 0) StatusCancelled "j" "key" "human" "r" demo_store
    (set_job_UpdatedAt (Time 1 0) (set_job_CreatedAt (Time 1 0) demo_job)) demo_keys)
    as (s' & j' & _ & H1 & H2 & _); [vm_compute; reflexivity|discriminate|reflexivity|].
  exists j'. split; assumption.
Defined.

Lemma restart_keeps_jobs_loses_waits_witness :
  snd (WakeupJob (Time 3 0) "key"
    (em_mem (load (Some (embedded_image (SetParked (Time 2 0) "j" "key" "human" "r" demo_store)))))) = None.
Proof.
  destruct (restart_keeps_jobs_loses_waits
    (mkEmbedded (SetParked (Time 2 0) "j" "key" "human" "r" demo_store) None) (Time 3 0) "key")
    as (s' & Hp & _ & _ & H & _); [vm_compute; reflexivity|].
  cbn in Hp. injection Hp as <-. exact H.
Defined.
