(* ===== verification/StepResult.v ===== *)
(** internal/agent/runtime/executor/{runner,retry,wait_signal}.go: Go error values as the
    executor classifies them: wrapping, [errors.Is], [errors.As] for
    [StepFailure], the step result types and the retry test. *)

From S2P Require Import Prelude.

(** ** Result types (runner.go:38-49) *)

Inductive StepResultType :=
| StepResultSuccess
| StepResultPure
| StepResultSideEffectCommitted
| StepResultRetryableFailure
| StepResultPermanentFailure
| StepResultCompensatableFailure
| StepResultCompensated
| StepResultOther (name : string).

#[export] Instance step_result_eq_dec : EqDecision StepResultType.
Proof. solve_decision. Defined.

Definition step_result_string (t : StepResultType) : string :=
  match t with
  | StepResultSuccess => "success"
  | StepResultPure => "pure"
  | StepResultSideEffectCommitted => "side_effect_committed"
  | StepResultRetryableFailure => "retryable_failure"
  | StepResultPermanentFailure => "permanent_failure"
  | StepResultCompensatableFailure => "compensatable_failure"
  | StepResultCompensated => "compensated"
  | StepResultOther name => name
  end.

(** ** Errors

    A sentinel ([errors.New] in a variable) is identified by its variable;
    [fmt.Errorf] with one wrapped error prefixes its text. *)

Inductive sentinel := ErrRetryable | ErrPermanent | ErrCompensatable | ErrJobWaiting | DeadlineExceeded.

#[export] Instance sentinel_eq_dec : EqDecision sentinel.
Proof. solve_decision. Defined.

Inductive go_error :=
| ESentinel (s : sentinel)
| EText (msg : string)
| EWrap (prefix : string) (inner : go_error)
| EStepFailure (ty : StepResultType) (inner : option go_error) (nodeID : string)
| ECapability (correlationKey : string)                  (* CapabilityRequiresApproval *)
| ESignalWait (correlationKey reason : string).          (* SignalWaitRequired *)

Definition sentinel_text (s : sentinel) : string :=
  match s with
  | ErrRetryable => "retryable"
  | ErrPermanent => "permanent"
  | ErrCompensatable => "compensatable"
  | ErrJobWaiting => "executor: job waiting for signal"
  | DeadlineExceeded => "context deadline exceeded"
  end.

Fixpoint error_text (e : go_error) : string :=
  match e with
  | ESentinel s => sentinel_text s
  | EText msg => msg
  | EWrap prefix inner => prefix +:+ error_text inner
  | EStepFailure ty (Some inner) _ => error_text inner
  | EStepFailure ty None _ => step_result_string ty
  | ECapability key => "capability requires approval: " +:+ key
  | ESignalWait key reason =>
      "signal wait required: " +:+ (match reason with EmptyString => "signal_wait" | _ => reason end)
      +:+ " (" +:+ key +:+ ")"
  end.

Fixpoint errors_is (s : sentinel) (e : go_error) : bool :=
  match e with
  | ESentinel s' => bool_decide (s' = s)
  | EText _ => false
  | EWrap _ inner => errors_is s inner
  | EStepFailure _ (Some inner) _ => errors_is s inner
  | EStepFailure _ None _ | ECapability _ | ESignalWait _ _ => false
  end.

(** [errors.As(err, &sf)] with [sf *StepFailure]: type and node of the
    outermost one. *)
Fixpoint as_step_failure (e : go_error) : option (StepResultType * string) :=
  match e with
  | EStepFailure ty _ nodeID => Some (ty, nodeID)
  | EWrap _ inner => as_step_failure inner
  | ESentinel _ | EText _ | ECapability _ | ESignalWait _ _ => None
  end.

(** [errors.As] for the two waiting errors: the outermost one of each. *)
Fixpoint as_capability (e : go_error) : option string :=
  match e with
  | ECapability key => Some key
  | EWrap _ inner | EStepFailure _ (Some inner) _ => as_capability inner
  | _ => None
  end.

Fixpoint as_signal_wait (e : go_error) : option (string * string) :=
  match e with
  | ESignalWait key reason => Some (key, reason)
  | EWrap _ inner | EStepFailure _ (Some inner) _ => as_signal_wait inner
  | _ => None
  end.

(** wait_signal.go: the correlation key and reason to wait for. *)
Definition signalWaitFromError (runErr : option go_error) : option (string * string) :=
  match runErr with
  | None => None
  | Some e =>
      match as_capability e with
      | Some (String _ _ as key) => Some (key, "capability_approval")
      | _ => match as_signal_wait e with
             | Some (String _ _ as key, reason) =>
                 Some (key, match reason with EmptyString => "signal_wait" | _ => reason end)
             | _ => None
             end
      end
  end.

Definition isStepFailure (t : StepResultType) : bool :=
  match t with
  | StepResultRetryableFailure | StepResultPermanentFailure | StepResultCompensatableFailure => true
  | _ => false
  end.

Definition ClassifyError (runErr : option go_error) : StepResultType * string :=
  match runErr with
  | None => (StepResultSuccess, EmptyString)
  | Some e =>
      let reason := error_text e in
      match as_step_failure e with
      | Some (ty, _) => (ty, reason)
      | None =>
          if errors_is ErrRetryable e then (StepResultRetryableFailure, reason)
          else if errors_is ErrCompensatable e then (StepResultCompensatableFailure, reason)
          else if errors_is ErrPermanent e then (StepResultPermanentFailure, reason)
          else (StepResultPermanentFailure, reason)
      end
  end.

(** ** Retry policy (retry.go) *)

Record RetryPolicy := mkRetryPolicy { rp_MaxRetries : Z; rp_Backoff : Z; rp_RetryableErrors : list string }.

Definition IsRetryable (err : option go_error) (policy : option RetryPolicy) : bool :=
  match policy, err with
  | Some p, Some e =>
      match as_step_failure e with
      | Some (StepResultRetryableFailure, _) => true
      | _ => errors_is ErrRetryable e || existsb (str_contains (error_text e)) (rp_RetryableErrors p)
      end
  | _, _ => false
  end.

Definition ToolInvocationID (invocationID idempotencyKey : string) : string :=
  if String.eqb invocationID EmptyString then idempotencyKey else invocationID.

(** An error without a step failure and without a sentinel is permanent. *)
Lemma ClassifyError_default e :
  as_step_failure e = None -> errors_is ErrRetryable e = false ->
  errors_is ErrCompensatable e = false ->
  fst (ClassifyError (Some e)) = StepResultPermanentFailure.
Proof. intros H1 H2 H3. unfold ClassifyError. rewrite H1, H2, H3. by case_match. Qed.
