(* ===== verification/Scheduler.v ===== *)
(** internal/agent/job/{scheduler,reclaim,job_runner}.go: what the scheduler
    does with a claimed job's outcome, the order it looks for work in, the
    runs of scheduler and store together, and the reclaiming of orphaned jobs
    from the event store's expired leases.

    The store's errors are I/O errors the in-memory stores do not produce; the
    scheduler only logs them.  The compensation callback and the executor are
    outside the model: an execution ends with any outcome. *)

From S2P Require Import Prelude GoTime Json Events MemStore JobFsm JobQueue StepResult.

(** ** Configuration and the claim of one loop turn (scheduler.go:35-151) *)

Record SchedulerConfig := mkSchedulerConfig {
  sc_MaxConcurrency : Z; sc_RetryMax : Z; sc_Queues : list string; sc_Capabilities : list string;
}.

(** The capacity of the limiter channel. *)
Definition limiter_cap (c : SchedulerConfig) : nat :=
  if sc_MaxConcurrency c <=? 0 then 1%nat else Z.to_nat (sc_MaxConcurrency c).

Definition claim_from (now : time) (c : SchedulerConfig) (q : string) (s : JobStoreMem)
    : JobStoreMem * option Job :=
  match sc_Capabilities c with
  | [] => ClaimNextPendingFromQueue now q s
  | caps => ClaimNextPendingForWorker now q caps EmptyString s
  end.

Fixpoint claim_queues (now : time) (c : SchedulerConfig) (qs : list string) (s : JobStoreMem)
    : JobStoreMem * option Job :=
  match qs with
  | [] => (s, None)
  | q :: qs' => match claim_from now c q s with
                | (s', Some j) => (s', Some j)
                | (s', None) => claim_queues now c qs' s'
                end
  end.

(** [woken] is what the wake-up queue delivered before its timeout. *)
Definition next_job (now : time) (c : SchedulerConfig) (woken : option string) (s : JobStoreMem)
    : JobStoreMem * option Job :=
  let '(s1, j) := match woken with
                  | Some id => if String.eqb id EmptyString then (s, None) else ClaimParkedJob now id s
                  | None => (s, None)
                  end in
  match j with
  | Some j => (s1, Some j)
  | None => match sc_Queues c with
            | [] => claim_from now c EmptyString s1
            | qs => claim_queues now c qs s1
            end
  end.

(** ** The outcome of a run (scheduler.go:165-226) *)

Definition retry_or_fail (now : time) (c : SchedulerConfig) (job : Job) (s : JobStoreMem) : JobStoreMem :=
  if job_RetryCount job <? sc_RetryMax c then requeue_job now job s
  else UpdateStatus now (job_ID job) StatusFailed s.

Definition handle_outcome (now : time) (c : SchedulerConfig) (job : Job) (err : option go_error)
    (s : JobStoreMem) : JobStoreMem :=
  match err with
  | None => UpdateStatus now (job_ID job) StatusCompleted s
  | Some e =>
      match as_step_failure e with
      | Some (StepResultRetryableFailure, _) => retry_or_fail now c job s
      | Some _ => UpdateStatus now (job_ID job) StatusFailed s
      | None => retry_or_fail now c job s
      end
  end.

(** The node handed to the compensation callback, when there is one. *)
Definition compensated_node (err : option go_error) : option string :=
  match err ≫= as_step_failure with
  | Some (StepResultCompensatableFailure, nodeID) => Some nodeID
  | _ => None
  end.

(** ** The simple runner (job_runner.go:64-97) *)

(** [agent_found]: the manager knows the agent; [err]: the executor's result. *)
Definition runner_turn (now : time) (agent_found : bool) (err : option go_error) (s : JobStoreMem)
    : JobStoreMem * option Job :=
  let '(s1, j) := ClaimNextPending now s in
  match j with
  | None => (s1, None)
  | Some j =>
      (UpdateStatus now (job_ID j)
         (if negb agent_found then StatusFailed
          else match err with Some _ => StatusFailed | None => StatusCompleted end) s1, Some j)
  end.

(** ** Reclaiming (reclaim.go) *)

(** What reclaiming needs of a metadata store. *)
Class MetadataStore (M : Type) := {
  md_get : string -> M -> option Job;
  md_update : time -> string -> JobStatus -> M -> M * bool;
}.

Class MetadataLaws (M : Type) `{MetadataStore M} := {
  md_update_get now id st m id' :
    md_get id' (fst (md_update now id st m))
    = if decide (id = id') then stamp now st <$> md_get id' m else md_get id' m;
}.

#[export] Instance mem_metadata : MetadataStore JobStoreMem := {
  md_get := Get;
  md_update now id st m := (UpdateStatus now id st m, true);
}.

(** The persisted store: a failed write is reported, the memory is changed. *)
#[export] Instance embedded_metadata (io : bool) : MetadataStore JobStoreEmbedded | 10 := {
  md_get id m := Get id (em_mem m);
  md_update now id st m := Embedded_UpdateStatus io now id st m;
}.

Lemma UpdateStatus_get now id st s id' :
  jm_byID (UpdateStatus now id st s) !! id'
  = if decide (id = id') then stamp now st <$> jm_byID s !! id' else jm_byID s !! id'.
Proof.
  unfold UpdateStatus. destruct (jm_byID s !! id) as [j|] eqn:Hj; case_decide as Heq; subst; cbn.
  - by rewrite lookup_insert_eq, Hj.
  - by rewrite lookup_insert_ne.
  - by rewrite Hj.
  - done.
Qed.

#[export] Instance mem_metadata_laws : MetadataLaws JobStoreMem.
Proof. constructor. intros. apply UpdateStatus_get. Qed.

#[export] Instance embedded_metadata_laws io : @MetadataLaws JobStoreEmbedded (embedded_metadata io).
Proof.
  constructor. intros. cbn. unfold Embedded_UpdateStatus, embedded_update, persist, Get.
  destruct io; apply UpdateStatus_get.
Qed.

Section reclaim.
Context {M : Type} `{MetadataLaws M}.

(** The body of the loop for one job with the given stream. *)
Definition reclaim_job (now : time) (events : list JobEvent) (jobID : string) (m : M) : M * bool :=
  let derived := DeriveStatusFromEvents events in
  match derived with
  | StatusCompleted | StatusFailed | StatusCancelled =>
      match md_get jobID m with
      | None => (m, false)
      | Some j => if bool_decide (job_Status j = derived) then (m, false)
                  else (fst (md_update now jobID derived m), false)
      end
  | StatusWaiting | StatusParked => (m, false)
  | _ =>
      match md_get jobID m with
      | None => (m, false)
      | Some j => if negb (bool_decide (job_Status j = StatusRunning)) then (m, false)
                  else md_update now jobID StatusPending m
      end
  end.

Definition reclaim_one (now : time) (es : memoryStore) (jobID : string) (m : M) : M * bool :=
  reclaim_job now (fst (ListEvents es jobID)) jobID m.

Fixpoint reclaim_loop (now : time) (es : memoryStore) (ids : list string) (m : M) : M * nat :=
  match ids with
  | [] => (m, 0%nat)
  | id :: r => let '(m1, b) := reclaim_one now es id m in
               let '(m2, n) := reclaim_loop now es r m1 in
               (m2, if b then S n else n)
  end.

Definition ReclaimOrphanedFromEventStore (now : time) (es : memoryStore) (m : M) : M * nat :=
  reclaim_loop now es (ListJobIDsWithExpiredClaim now es) m.

(** The status reclaiming leaves a job in. *)
Definition reclaimed_status (es : memoryStore) (id : string) (st : JobStatus) : JobStatus :=
  let d := DeriveStatusFromEvents (fst (ListEvents es id)) in
  if is_terminal_status d then d
  else if is_blocked_status d then st
  else if bool_decide (st = StatusRunning) then StatusPending else st.

Lemma reclaim_one_get now es id m id' :
  job_Status <$> md_get id' (fst (reclaim_one now es id m))
  = if decide (id = id') then reclaimed_status es id' <$> (job_Status <$> md_get id' m)
    else job_Status <$> md_get id' m.
Proof.
  unfold reclaim_one, reclaim_job, reclaimed_status.
  destruct (DeriveStatusFromEvents (fst (ListEvents es id))) eqn:Hd;
    destruct (decide (id = id')) as [<-|Hne]; rewrite ?Hd; cbn [is_terminal_status is_blocked_status];
    destruct (md_get id m) as [j|] eqn:Hj; cbn [fst];
    repeat case_bool_decide; cbn [negb fst];
    rewrite ?md_update_get, ?decide_True, ?decide_False, ?Hj by done; cbn;
    rewrite ?bool_decide_true, ?bool_decide_false by done; congruence.
Qed.
End reclaim.

Section reclaim_facts.
Context {M : Type} `{MetadataLaws M}.

Lemma reclaim_loop_get now es ids m id :
  job_Status <$> md_get id (fst (reclaim_loop now es ids m))
  = if decide (id ∈ ids) then reclaimed_status es id <$> (job_Status <$> md_get id m)
    else job_Status <$> md_get id m.
Proof.
  revert m. induction ids as [|x ids IH]; intros m; cbn [reclaim_loop].
  { by rewrite decide_False by apply not_elem_of_nil. }
  destruct (reclaim_one now es x m) as [m1 b] eqn:Hr.
  assert (Hm1 := reclaim_one_get now es x m id). rewrite Hr in Hm1. cbn in Hm1.
  specialize (IH m1). destruct (reclaim_loop now es ids m1) as [m2 n]. cbn in IH |- *.
  rewrite IH, Hm1. destruct (decide (x = id)) as [->|Hne].
  - rewrite (decide_True (P := id ∈ id :: ids)) by by left.
    case_decide; [|done]. destruct (md_get id m) as [j|]; [|done]. cbn. f_equal.
    unfold reclaimed_status. destruct (DeriveStatusFromEvents _); cbn; try done;
      repeat case_bool_decide; done.
  - rewrite (decide_ext (id ∈ x :: ids) (id ∈ ids)); [done|].
    rewrite elem_of_cons. naive_solver.
Qed.

(** A second pass over jobs none of which is running reclaims nothing. *)
Lemma reclaim_loop_idle now es ids m :
  (forall id, id ∈ ids -> reclaimed_status es id StatusRunning = StatusPending ->
     job_Status <$> md_get id m <> Some StatusRunning) ->
  snd (reclaim_loop now es ids m) = 0%nat.
Proof.
  revert m. induction ids as [|x ids IH]; intros m Hm; [done|]. cbn [reclaim_loop].
  destruct (reclaim_one now es x m) as [m1 b] eqn:Hr.
  assert (Hb : b = false).
  { specialize (Hm x (list_elem_of_here _ _)). unfold reclaim_one, reclaim_job, reclaimed_status in Hr, Hm.
    destruct (DeriveStatusFromEvents _) eqn:Hd; cbn in Hr, Hm; go_break Hr; simplify_eq/=; try done;
      repeat case_bool_decide; simplify_eq/=; try done; exfalso; by apply Hm; [|congruence]. }
  subst b.
  assert (Hn : snd (reclaim_loop now es ids m1) = 0%nat).
  { apply IH. intros id Hid Hs Hrun. assert (Hm1 := reclaim_one_get now es x m id).
    rewrite Hr in Hm1. cbn in Hm1. rewrite Hrun in Hm1.
    apply (Hm id); [by right|done|]. case_decide as Heq; [|done]. subst id.
    destruct (job_Status <$> md_get x m) as [st|] eqn:Hst; [|done]. cbn in Hm1.
    injection Hm1 as Hm1. unfold reclaimed_status in Hs, Hm1.
    destruct (DeriveStatusFromEvents _); cbn in Hs, Hm1; repeat case_bool_decide; congruence. }
  destruct (reclaim_loop now es ids m1). by cbn in *.
Qed.
End reclaim_facts.

(** ** Runs of the scheduler *)

(** The store and the jobs being executed, as the claims returned them. *)
Record sched := mkSched { sd_store : JobStoreMem; sd_running : list Job }.

(** Store operations other components perform while jobs run; jobs are
    created with a zero retry count. *)
Definition external (op : store_op) : bool :=
  match op with
  | SCreate _ job => bool_decide (job_RetryCount job = 0)
  | SRequeue _ | SClaim _ _ _ | SWaitNext | SClaimParked _ => false
  | _ => true
  end.

Inductive sched_step (c : SchedulerConfig) (y : sched) : sched -> Prop :=
| sched_claim now woken s' j :
    (length (sd_running y) < limiter_cap c)%nat ->
    next_job now c woken (sd_store y) = (s', Some j) ->
    sched_step c y (mkSched s' (j :: sd_running y))
| sched_idle now woken s' :
    next_job now c woken (sd_store y) = (s', None) -> sched_step c y (mkSched s' (sd_running y))
| sched_finish now i j err :
    sd_running y !! i = Some j ->
    sched_step c y (mkSched (handle_outcome now c j err (sd_store y)) (splice i (sd_running y)))
| sched_external now op :
    external op = true ->
    sched_step c y (mkSched (fst (run_store now op (sd_store y))) (sd_running y)).

Definition sched_start : sched := mkSched NewJobStoreMem [].

Section bound.
Context (c : SchedulerConfig).

Definition within (j : Job) : Prop := job_RetryCount j <= Z.max 0 (sc_RetryMax c).

Definition store_within (s : JobStoreMem) : Prop := map_Forall (fun _ j => within j) (jm_byID s).

Definition retries_within (y : sched) : Prop :=
  store_within (sd_store y) /\ Forall within (sd_running y) /\
  (length (sd_running y) <= limiter_cap c)%nat.

Lemma within_put s id j l w k :
  store_within s -> within j -> store_within (mkMem (<[id := j]> (jm_byID s)) l w k).
Proof. intros Hs Hj. by apply map_Forall_insert_2. Qed.

Lemma within_stamp now st j : within j -> within (stamp now st j).
Proof. done. Qed.

Lemma claim_within now q caps t s s' r :
  store_within s -> ClaimNextPendingForWorker now q caps t s = (s', r) ->
  store_within s' /\ (forall j, r = Some j -> within j).
Proof.
  intros Hs Hc. apply claim_effect in Hc as [[-> ->]|(i & id & p & j & _ & _ & Hj & _ & -> & ->)];
    [done|]. pose proof (Hs _ _ Hj) as Hw. split; [by apply (within_put s)|]. by intros ? [= <-].
Qed.

Lemma claim_from_within now q s s' r :
  store_within s -> claim_from now c q s = (s', r) ->
  store_within s' /\ (forall j, r = Some j -> within j).
Proof. unfold claim_from, ClaimNextPendingFromQueue. destruct (sc_Capabilities c); apply claim_within. Qed.

Lemma claim_queues_within now qs s s' r :
  store_within s -> claim_queues now c qs s = (s', r) ->
  store_within s' /\ (forall j, r = Some j -> within j).
Proof.
  revert s. induction qs as [|q qs IH]; intros s Hs; cbn [claim_queues]; [by intros [= <- <-]|].
  destruct (claim_from now c q s) as [s1 [j|]] eqn:Hc; apply claim_from_within in Hc as [H1 H2]; try done.
  - intros [= <- <-]. split; [done|]. auto.
  - by apply IH.
Qed.

Lemma parked_within now id s s' r :
  store_within s -> ClaimParkedJob now id s = (s', r) ->
  store_within s' /\ (forall j, r = Some j -> within j).
Proof.
  intros Hs. unfold ClaimParkedJob. destruct (jm_byID s !! id) as [j|] eqn:Hj; [|by intros [= <- <-]].
  case_match; [by intros [= <- <-]|]. pose proof (Hs _ _ Hj) as Hw.
  destruct (jm_waiting s !! id); intros [= <- <-]; (split; [by apply (within_put s)|by intros ? [= <-]]).
Qed.

Lemma next_job_within now woken s s' r :
  store_within s -> next_job now c woken s = (s', r) ->
  store_within s' /\ (forall j, r = Some j -> within j).
Proof.
  intros Hs. unfold next_job.
  assert (Hw : forall s1 j, match woken with
      | Some id => if String.eqb id EmptyString then (s, None) else ClaimParkedJob now id s
      | None => (s, None) end = (s1, j) -> store_within s1 /\ (forall x, j = Some x -> within x)).
  { intros s1 j. destruct woken as [id|]; [|by intros [= <- <-]].
    destruct (String.eqb id EmptyString); [by intros [= <- <-]|by apply parked_within]. }
  destruct (match woken with Some _ => _ | None => _ end) as [s1 [j|]];
    destruct (Hw _ _ eq_refl) as [H1 H2].
  - intros [= <- <-]. auto.
  - destruct (sc_Queues c); [by apply claim_from_within|by apply claim_queues_within].
Qed.

Lemma update_within now id st s : store_within s -> store_within (UpdateStatus now id st s).
Proof.
  intros Hs. unfold UpdateStatus. destruct (jm_byID s !! id) as [j|] eqn:Hj; [|done].
  pose proof (Hs _ _ Hj) as Hw. by apply (within_put s).
Qed.

Lemma handle_outcome_within now job err s :
  store_within s -> store_within (handle_outcome now c job err s).
Proof.
  intros Hs. unfold handle_outcome, retry_or_fail, requeue_job.
  repeat case_match; auto using update_within; bool_hyps;
    (apply (within_put s); [done|unfold within; cbn; lia]).
Qed.

Lemma external_within now op s :
  external op = true -> store_within s -> store_within (fst (run_store now op s)).
Proof.
  intros He Hs.
  destruct op as [uuid job|x st|x cu|job|x|q caps t| |x k w r|x k w r|k|x]; cbn in He |- *; try done.
  - bool_hyps. apply (within_put s); [done|]. unfold within. cbn. lia.
  - by apply update_within.
  - unfold UpdateCursor. destruct (jm_byID s !! x) as [j|] eqn:Hj; [|done].
    pose proof (Hs _ _ Hj) as Hw. by apply (within_put s).
  - unfold RequestCancel. destruct (jm_byID s !! x) as [j|] eqn:Hj; [|done].
    pose proof (Hs _ _ Hj) as Hw. by apply (within_put s).
  - unfold SetWaiting, track. destruct (jm_byID s !! x) as [j|] eqn:Hj; [|done].
    pose proof (Hs _ _ Hj) as Hw. by apply (within_put s).
  - unfold SetParked, track. destruct (jm_byID s !! x) as [j|] eqn:Hj; [|done].
    pose proof (Hs _ _ Hj) as Hw. by apply (within_put s).
  - unfold WakeupJob. destruct (jm_waitingByKey s !! k) as [info|]; [|done].
    destruct (jm_byID s !! wi_jobID info) as [j|] eqn:Hj; [|done].
    pose proof (Hs _ _ Hj) as Hw. by apply (within_put s).
Qed.

Lemma sched_step_within y y' : retries_within y -> sched_step c y y' -> retries_within y'.
Proof.
  intros (Hs & Hr & Hl). destruct 1 as [now woken s' j Hcap Hn|now woken s' Hn|now i j err Hi|now op He];
    unfold retries_within; cbn.
  - apply next_job_within in Hn as [H1 H2]; [|done]. split_and!; [done|by constructor; auto|lia].
  - apply next_job_within in Hn as [H1 _]; [|done]. by split_and!.
  - split_and!; [by apply handle_outcome_within| |].
    + rewrite (splice_perm _ _ _ Hi) in Hr. by apply Forall_cons in Hr as [_ Hr].
    + apply length_splice in Hi. lia.
  - split_and!; [by apply external_within|done|done].
Qed.
End bound.

(** ** Properties *)

(** Retries are bounded and so is concurrency: in every run of scheduler
    and store from the empty store, with creations, waits, wake-ups,
    cancellations and status updates interleaved, no job's retry count passes
    [RetryMax], and at most [MaxConcurrency] jobs (at least one) execute. *)
Theorem retries_and_concurrency_bounded c y :
  rtc (sched_step c) sched_start y ->
  (forall id j, jm_byID (sd_store y) !! id = Some j -> job_RetryCount j <= Z.max 0 (sc_RetryMax c)) /\
  (length (sd_running y) <= Z.to_nat (Z.max 1 (sc_MaxConcurrency c)))%nat.
Proof.
  intros Hr. assert (Hw : retries_within c y).
  { apply (rtc_preserves (retries_within c)) in Hr; [done|apply sched_step_within|].
    split_and!; [apply map_Forall_empty|constructor|cbn; lia]. }
  destruct Hw as (Hs & _ & Hl). split; [exact Hs|].
  unfold limiter_cap in Hl. case_match; bool_hyps; lia.
Qed.

(** One turn of a scheduler without a wake-up queue whose execution of the
    claimed job ends with [err] before the next turn. *)
Definition turn (now : time) (c : SchedulerConfig) (err : option go_error) (s : JobStoreMem)
    : JobStoreMem :=
  match next_job now c None s with
  | (s1, Some j) => handle_outcome now c j err s1
  | (s1, None) => s1
  end.

Definition retryable_outcome (err : option go_error) : bool :=
  match err with
  | None => false
  | Some e => match as_step_failure e with
              | Some (ty, _) => bool_decide (ty = StepResultRetryableFailure)
              | None => true
              end
  end.

Lemma handle_retryable now c job err s :
  retryable_outcome err = true -> handle_outcome now c job err s = retry_or_fail now c job s.
Proof.
  destruct err as [e|]; [|done]. unfold handle_outcome. cbn.
  destruct (as_step_failure e) as [[ty node]|]; [|done]. intros H. by apply bool_decide_eq_true in H as ->.
Qed.

(** A store whose queue holds exactly the pending job [id], tried [n] times. *)
Definition lone_pending (id : string) (n : Z) (s : JobStoreMem) : Prop :=
  jm_pending s = [id] /\ exists j, jm_byID s !! id = Some j /\ job_ID j = id /\
    job_Status j = StatusPending /\ job_RetryCount j = n.

Lemma lone_claim now c id n s :
  sc_Queues c = [] -> sc_Capabilities c = [] -> lone_pending id n s ->
  exists j, jm_byID s !! id = Some j /\ job_ID j = id /\ job_RetryCount j = n /\
    next_job now c None s
    = (put id (stamp now StatusRunning j) (set_pending [] s), Some (stamp now StatusRunning j)).
Proof.
  intros Hq Hcap (Hp & j & Hj & Hid & Hst & Hn). exists j. split_and!; try done.
  unfold next_job, claim_from. rewrite Hq, Hcap.
  unfold ClaimNextPendingFromQueue, ClaimNextPendingForWorker. rewrite Hp. cbn [claim_scan].
  rewrite Hj. unfold eligible at 1, tenant_match. rewrite Hst, bool_decide_true by done. cbn.
  replace (jobMatchesCapabilities (job_RequiredCapabilities j) []) with true
    by by destruct (job_RequiredCapabilities j).
  by rewrite Hj.
Qed.

Lemma lone_turn now c err id n s :
  sc_Queues c = [] -> sc_Capabilities c = [] -> retryable_outcome err = true ->
  lone_pending id n s -> n < sc_RetryMax c -> lone_pending id (n + 1) (turn now c err s).
Proof.
  intros Hq Hcap He Hl Hn. destruct (lone_claim now c id n s Hq Hcap Hl) as (j & Hj & Hid & Hc & Hnext).
  unfold turn. rewrite Hnext, handle_retryable by done. unfold retry_or_fail, requeue_job. cbn.
  rewrite Hc, (proj2 (Z.ltb_lt _ _) Hn), Hid, lookup_insert_eq. cbn. split; [done|].
  eexists. cbn. rewrite lookup_insert_eq. by split_and!.
Qed.

(** A job that always fails is run exactly [RetryMax + 1] times: a fresh
    job whose every execution ends in a retryable failure (or a plain error)
    is pending again after each of the first [RetryMax] turns of the
    scheduler, with its retry count one higher, and is failed, with an empty
    queue, after the next. *)
Theorem always_failing_job_ends_failed now c err id s (k : nat) :
  sc_Queues c = [] -> sc_Capabilities c = [] -> retryable_outcome err = true ->
  lone_pending id 0 s -> Z.of_nat k <= sc_RetryMax c ->
  lone_pending id (Z.of_nat k) (Nat.iter k (turn now c err) s) /\
  let s' := Nat.iter (S (Z.to_nat (sc_RetryMax c))) (turn now c err) s in
  jm_pending s' = [] /\
  exists j, jm_byID s' !! id = Some j /\ job_Status j = StatusFailed /\
            job_RetryCount j = sc_RetryMax c.
Proof.
  intros Hq Hcap He Hl Hk.
  assert (Hiter : forall n, Z.of_nat n <= sc_RetryMax c ->
            lone_pending id (Z.of_nat n) (Nat.iter n (turn now c err) s)).
  { induction n as [|n IH]; intros Hn; [done|]. cbn [Nat.iter nat_rect].
    replace (Z.of_nat (S n)) with (Z.of_nat n + 1) by lia.
    apply lone_turn; try done; [apply IH|]; lia. }
  split; [by apply Hiter|]. cbn zeta. cbn [Nat.iter nat_rect].
  assert (Hm := Hiter (Z.to_nat (sc_RetryMax c)) ltac:(lia)). rewrite Z2Nat.id in Hm by lia.
  set (t := Nat.iter _ _ _) in *. change (nat_rect _ _ _ _) with t.
  destruct (lone_claim now c id _ t Hq Hcap Hm) as (j & Hj & Hid & Hc & Hnext).
  unfold turn. rewrite Hnext, handle_retryable by done. unfold retry_or_fail. cbn.
  rewrite Hc, (proj2 (Z.ltb_ge _ _)) by lia. unfold UpdateStatus. cbn.
  rewrite Hid, lookup_insert_eq. cbn. split; [done|]. eexists. rewrite lookup_insert_eq. done.
Qed.

(** The scheduler does not know a waiting job from a failing one: when the
    executor suspends a job (status waiting or parked, result [ErrJobWaiting],
    wrapped or not), the scheduler requeues it as pending with a retry
    charged, or fails it when its retries are used up; it never stays
    waiting. *)
Theorem suspended_job_treated_as_failure now c job s j e :
  jm_byID s !! job_ID job = Some j -> is_blocked_status (job_Status j) = true ->
  as_step_failure e = None -> errors_is ErrJobWaiting e = true ->
  exists j', jm_byID (handle_outcome now c job (Some e) s) !! job_ID job = Some j' /\
    if job_RetryCount job <? sc_RetryMax c
    then job_Status j' = StatusPending /\ job_RetryCount j' = job_RetryCount job + 1 /\
         job_ID job ∈ jm_pending (handle_outcome now c job (Some e) s)
    else job_Status j' = StatusFailed.
Proof.
  intros Hj _ He _. unfold handle_outcome, retry_or_fail. rewrite He.
  destruct (job_RetryCount job <? sc_RetryMax c).
  - unfold requeue_job. rewrite Hj. cbn. rewrite lookup_insert_eq. eexists.
    split_and!; [done|done|done|]. apply elem_of_snoc_or.
  - unfold UpdateStatus. rewrite Hj. cbn. rewrite lookup_insert_eq. by eexists.
Qed.

(** Reclaiming does what the event stream says, over any metadata store:
    only jobs whose lease expired are touched; one whose stream ended gets the
    stream's terminal status, a blocked one is left alone, a running one
    becomes pending, any other keeps its status.  A second pass over the
    result reclaims nothing. *)
Theorem ReclaimOrphaned_spec {M} `{MetadataLaws M} now es (m : M) id :
  job_Status <$> md_get id (fst (ReclaimOrphanedFromEventStore now es m))
  = (if decide (id ∈ ListJobIDsWithExpiredClaim now es)
     then reclaimed_status es id <$> (job_Status <$> md_get id m)
     else job_Status <$> md_get id m) /\
  snd (ReclaimOrphanedFromEventStore now es (fst (ReclaimOrphanedFromEventStore now es m))) = 0%nat.
Proof.
  split; [apply reclaim_loop_get|]. apply reclaim_loop_idle. intros x Hx Hs.
  unfold ReclaimOrphanedFromEventStore. rewrite reclaim_loop_get, decide_True by done.
  destruct (job_Status <$> md_get x m) as [st|]; [|done]. cbn. intros [= Hst].
  unfold reclaimed_status in Hs, Hst.
  destruct (DeriveStatusFromEvents _); cbn in Hs, Hst; repeat case_bool_decide; congruence.
Qed.

(** ** Reclaimed jobs and the queue of the in-memory store *)

Section stranded.
Let t0 : time := Time 0 0.
Let t1 : time := t_add t0 (31 * second).

(** The event store: a created job whose claim runs out. *)
Definition stranded_events : memoryStore :=
  match Append t0 "e" EmptyString "j" 0 (new_event t0 "j" JobCreated "{}") NewMemoryStore with
  | Ok (Ret (s, _)) => match ClaimJob t0 "1" "w1" "j" s with Ok (s', _) => s' | Err _ => s end
  | _ => NewMemoryStore
  end.
(** The metadata store: the job created and claimed. *)
Definition stranded_jobs : JobStoreMem :=
  fst (ClaimNextPending t0 (fst (Create t0 "u" (NewJob t0 "j" "a" "t" "g") NewJobStoreMem))).
Definition stranded_end : JobStoreMem := fst (ReclaimOrphanedFromEventStore t1 stranded_events stranded_jobs).
End stranded.

(** Reclaiming a job of the in-memory store strands it: the status goes
    back to pending through [UpdateStatus], which does not enqueue, and no
    claim ever finds the job again. *)
Theorem reclaimed_job_stranded :
  job_Status <$> jm_byID stranded_end !! "j" = Some StatusPending /\
  (forall now q caps t, ClaimNextPendingForWorker now q caps t stranded_end = (stranded_end, None)) /\
  (forall now, WaitNextPending now stranded_end = (stranded_end, None)).
Proof.
  assert (Hp : jm_pending stranded_end = []) by (vm_compute; reflexivity).
  split_and!; [vm_compute; reflexivity|..].
  - intros now q caps t. unfold ClaimNextPendingForWorker. by rewrite Hp.
  - intros now. unfold WaitNextPending. rewrite Hp. cbn. unfold set_pending.
    rewrite <- Hp. by destruct stranded_end.
Qed.

(** ** Witnesses *)

Definition demo_config : SchedulerConfig := mkSchedulerConfig 2 2 [] [].

Lemma retries_and_concurrency_bounded_witness :
  (length (sd_running sched_start) <= 2)%nat.
Proof. exact (proj2 (retries_and_concurrency_bounded demo_config sched_start (rtc_refl _ _))). Defined.

Definition lone_store : JobStoreMem := fst (Create (Time 1 0) "u" demo_job NewJobStoreMem).

Lemma always_failing_job_ends_failed_witness :
  exists j, jm_byID (Nat.iter 3 (turn (Time 2 0) demo_config (Some (EText "boom"))) lone_store) !! "j" = Some j
    /\ job_Status j = StatusFailed.
Proof.
  destruct (always_failing_job_ends_failed (Time 2 0) demo_config (Some (EText "boom")) "j" lone_store 1
    eq_refl eq_refl eq_refl) as (_ & _ & j & Hj & Hs & _).
  - split; [vm_compute; reflexivity|]. eexists. split; [vm_compute; reflexivity|]. done.
  - vm_compute. discriminate.
  - exists j. split; [exact Hj|exact Hs].
Defined.

Lemma suspended_job_treated_as_failure_witness :
  exists j', jm_byID (handle_outcome (Time 3 0) demo_config demo_job (Some (ESentinel ErrJobWaiting))
    (UpdateStatus (Time 2 0) "j" StatusWaiting lone_store)) !! "j" = Some j' /\ job_Status j' = StatusPending.
Proof.
  destruct (suspended_job_treated_as_failure (Time 3 0) demo_config demo_job
    (UpdateStatus (Time 2 0) "j" StatusWaiting lone_store)
    (stamp (Time 2 0) StatusWaiting (set_job_UpdatedAt (Time 1 0) (set_job_CreatedAt (Time 1 0) demo_job)))
    (ESentinel ErrJobWaiting)) as (j' & Hj & Hs & _); [vm_compute; reflexivity..|].
  exists j'. split; [exact Hj|exact Hs].
Defined.

Lemma ReclaimOrphaned_spec_witness : job_Status <$> md_get "j" stranded_end = Some StatusPending.
Proof.
  etransitivity.
  - exact (proj1 (ReclaimOrphaned_spec (t_add (Time 0 0) (31 * second)) stranded_events stranded_jobs "j")).
  - vm_compute. reflexivity.
Defined.
