(* ===== verification/Ledger.v ===== *)
(** internal/agent/runtime/executor/{invocation_store,invocation_mem,
    invocation_embedded,ledger,ledger_store,atomic_commit}.go and
    internal/app/api/attempt_validator.go: tool invocation records, their
    stores, the ledger that decides whether a tool may run, and the commit
    protocol around one tool run.

    A store operation runs under the store's lock and is one step; [Acquire]
    reads and writes the store in two separate steps, so it is split into
    [acquire_check] and [acquire_start].  A byte slice is a string, [nil]
    being the empty one: the code only tests its length. *)

From S2P Require Import Prelude GoTime Json Events MemStore.

(** ** Records and stores (invocation_store.go) *)

Inductive invocation_status := Started | Success | Failure | Timeout | Confirmed | OtherStatus (s : string).

#[export] Instance invocation_status_eq_dec : EqDecision invocation_status.
Proof. solve_decision. Defined.

Definition invocation_status_string (s : invocation_status) : string :=
  match s with
  | Started => "started" | Success => "success" | Failure => "failure"
  | Timeout => "timeout" | Confirmed => "confirmed" | OtherStatus s => s
  end.

Record ToolInvocationRecord := mkInv {
  inv_ID : string; inv_JobID : string; inv_StepID : string; inv_ToolName : string;
  inv_ArgsHash : string; inv_Key : string; inv_Status : invocation_status; inv_Result : string;
  inv_Committed : bool; inv_CreatedAt : time; inv_UpdatedAt : time; inv_ConfirmedAt : option time;
  inv_ExternalID : string;
}.

Definition blank_record (key : string) : ToolInvocationRecord :=
  mkInv EmptyString EmptyString EmptyString EmptyString EmptyString key (OtherStatus EmptyString)
    EmptyString false zero_time zero_time None EmptyString.

Definition finish_record (st : invocation_status) (res : string) (committed : bool) (ext : string)
    (r : ToolInvocationRecord) : ToolInvocationRecord :=
  mkInv (inv_ID r) (inv_JobID r) (inv_StepID r) (inv_ToolName r) (inv_ArgsHash r) (inv_Key r) st res
    committed (inv_CreatedAt r) (inv_UpdatedAt r) (inv_ConfirmedAt r) ext.

(** What the ledger needs of a store; a write reports whether it succeeded. *)
Class ToolInvocationStore (S : Type) := {
  GetByJobAndIdempotencyKey : string -> string -> S -> option ToolInvocationRecord;
  SetStarted : ToolInvocationRecord -> S -> S * bool;
  SetFinished : string -> invocation_status -> string -> bool -> string -> S -> S * bool;
}.

(** The contract: the store is a map from keys to records.  A lookup answers
    for the record's own job only; starting never disturbs a committed record
    or the empty key; finishing creates a blank record when there is none. *)
Definition started_view (r : ToolInvocationRecord) (m : gmap string ToolInvocationRecord)
    : gmap string ToolInvocationRecord :=
  if String.eqb (inv_Key r) EmptyString then m
  else match m !! inv_Key r with
       | Some e => if inv_Committed e then m else <[inv_Key r := r]> m
       | None => <[inv_Key r := r]> m
       end.

Definition finished_view (key : string) (st : invocation_status) (res : string) (committed : bool)
    (ext : string) (m : gmap string ToolInvocationRecord) : gmap string ToolInvocationRecord :=
  <[key := finish_record st res committed ext (default (blank_record key) (m !! key))]> m.

Class ToolInvocationStoreSpec (S : Type) `{ToolInvocationStore S} (view : S -> gmap string ToolInvocationRecord) := {
  get_view job key s :
    GetByJobAndIdempotencyKey job key s
    = (r ← view s !! key; if String.eqb (inv_JobID r) job then Some r else None);
  started_view_spec r s : view (fst (SetStarted r s)) = started_view r (view s);
  finished_view_spec key st res c ext s :
    view (fst (SetFinished key st res c ext s)) = finished_view key st res c ext (view s);
}.

(** ** The in-memory store (invocation_mem.go) *)

Record ToolInvocationStoreMem := mkInvMem { im_byKey : gmap string ToolInvocationRecord }.

Definition NewToolInvocationStoreMem : ToolInvocationStoreMem := mkInvMem ∅.

Definition Mem_Get (jobID key : string) (s : ToolInvocationStoreMem) : option ToolInvocationRecord :=
  match im_byKey s !! key with
  | None => None
  | Some r => if negb (String.eqb (inv_JobID r) jobID) then None else Some r
  end.

Definition Mem_SetStarted (r : ToolInvocationRecord) (s : ToolInvocationStoreMem) : ToolInvocationStoreMem :=
  let key := inv_Key r in
  if String.eqb key EmptyString then s
  else
    let store := mkInvMem (<[key := r]> (im_byKey s)) in
    match im_byKey s !! key with
    | Some existing => if inv_Committed existing then s else store
    | None => store
    end.

Definition Mem_SetFinished (key : string) (st : invocation_status) (res : string) (committed : bool)
    (ext : string) (s : ToolInvocationStoreMem) : ToolInvocationStoreMem :=
  let r := match im_byKey s !! key with Some r => r | None => blank_record key end in
  mkInvMem (<[key := finish_record st res committed ext r]> (im_byKey s)).

(** The order of the result is the map's. *)
Definition ListByJobID (jobID : string) (s : ToolInvocationStoreMem) : list ToolInvocationRecord :=
  filter (fun r => String.eqb (inv_JobID r) jobID = true) (map snd (map_to_list (im_byKey s))).

#[export] Instance mem_invocations : ToolInvocationStore ToolInvocationStoreMem := {
  GetByJobAndIdempotencyKey := Mem_Get;
  SetStarted r s := (Mem_SetStarted r s, true);
  SetFinished key st res c ext s := (Mem_SetFinished key st res c ext s, true);
}.

#[export] Instance mem_invocations_spec : ToolInvocationStoreSpec ToolInvocationStoreMem im_byKey.
Proof.
  constructor; intros.
  - cbn. unfold Mem_Get. destruct (_ !! key) as [r|]; [|done]. cbn. by destruct (String.eqb _ _).
  - cbn. unfold Mem_SetStarted, started_view. repeat case_match; done.
  - cbn. unfold finished_view. by destruct (_ !! key).
Qed.

(** ** The persisted store (invocation_embedded.go)

    Every field of a record is exported, so the file holds the map itself.
    [io] tells whether the write succeeds. *)

Record toolInvocationStoreEmbedded := mkInvEmb {
  ie_mem : ToolInvocationStoreMem; ie_disk : option (gmap string ToolInvocationRecord);
}.

Definition invocations_load (disk : option (gmap string ToolInvocationRecord)) : toolInvocationStoreEmbedded :=
  mkInvEmb (mkInvMem (default ∅ disk)) disk.

Definition invocations_persist (io : bool) (s : toolInvocationStoreEmbedded)
    : toolInvocationStoreEmbedded * bool :=
  if io then (mkInvEmb (ie_mem s) (Some (im_byKey (ie_mem s))), true) else (s, false).

#[export] Instance embedded_invocations (io : bool) : ToolInvocationStore toolInvocationStoreEmbedded | 10 := {
  GetByJobAndIdempotencyKey job key s := Mem_Get job key (ie_mem s);
  SetStarted r s := invocations_persist io (mkInvEmb (Mem_SetStarted r (ie_mem s)) (ie_disk s));
  SetFinished key st res c ext s :=
    invocations_persist io (mkInvEmb (Mem_SetFinished key st res c ext (ie_mem s)) (ie_disk s));
}.

#[export] Instance embedded_invocations_spec io :
  @ToolInvocationStoreSpec toolInvocationStoreEmbedded (embedded_invocations io) (fun s => im_byKey (ie_mem s)).
Proof.
  constructor.
  - intros job key s. exact (get_view (view := im_byKey) job key (ie_mem s)).
  - intros r s. destruct io; exact (started_view_spec (view := im_byKey) r (ie_mem s)).
  - intros key st res c ext s.
    destruct io; exact (finished_view_spec (view := im_byKey) key st res c ext (ie_mem s)).
Qed.

(** ** The ledger (ledger.go, ledger_store.go) *)

Inductive InvocationDecision :=
| AllowExecute (r : ToolInvocationRecord)
| ReturnRecordedResult (r : ToolInvocationRecord)
| WaitOtherWorker
| Rejected.

(** [hasOrphanedAcquired]: the loop over the events, last first. *)
Fixpoint orphan_scan (key : string) (revents : list JobEvent) (acquiredFound : bool) : bool :=
  match revents with
  | [] => acquiredFound
  | e :: rest =>
      let matches := let '(p, err) := unmarshal_ledger_payload (ev_Payload e) in
                     negb err && String.eqb (lp_IdempotencyKey p) key in
      match ev_Type e with
      | LedgerCommitted => if matches then false else orphan_scan key rest acquiredFound
      | LedgerAcquired => orphan_scan key rest (matches || acquiredFound)
      | _ => orphan_scan key rest acquiredFound
      end
  end.

Definition hasOrphanedAcquired (sink : option (list JobEvent)) (key : string) : bool :=
  match sink with
  | None => false
  | Some events => orphan_scan key (rev events) false
  end.

(** attempt_validator.go: [want] is the attempt of the caller's context. *)
Definition ValidateAttempt (now : time) (want jobID : string) (es : memoryStore)
    : result jobstore_error unit :=
  if String.eqb want EmptyString then Ok tt
  else if negb (String.eqb (GetCurrentAttemptID now jobID es) want) then Err ErrStaleAttempt
  else Ok tt.

Record acquire_args := mkAcq {
  aq_JobID : string; aq_StepID : string; aq_ToolName : string; aq_ArgsHash : string;
  aq_Key : string; aq_Replay : string;
}.

Definition recorded_ok (r : ToolInvocationRecord) : bool :=
  inv_Committed r
  && (bool_decide (inv_Status r = Success) || bool_decide (inv_Status r = Confirmed))
  && negb (String.eqb (inv_Result r) EmptyString).

Definition new_record (uuid : string) (a : acquire_args) : ToolInvocationRecord :=
  mkInv uuid (aq_JobID a) (aq_StepID a) (aq_ToolName a) (aq_ArgsHash a) (aq_Key a) Started
    EmptyString false zero_time zero_time None EmptyString.

Section ledger.
Context {S : Type} `{ToolInvocationStore S}.

(** Lines 88-117: a decision, or the record to be started. *)
Definition acquire_check (uuid : string) (sink : option (list JobEvent)) (a : acquire_args) (s : S)
    : InvocationDecision :=
  if negb (String.eqb (aq_Replay a) EmptyString)
  then ReturnRecordedResult (mkInv EmptyString (aq_JobID a) (aq_StepID a) (aq_ToolName a) (aq_ArgsHash a)
         (aq_Key a) Success (aq_Replay a) true zero_time zero_time None EmptyString)
  else match GetByJobAndIdempotencyKey (aq_JobID a) (aq_Key a) s with
       | Some rec =>
           if recorded_ok rec then ReturnRecordedResult rec
           else if negb (inv_Committed rec) then WaitOtherWorker
           else if hasOrphanedAcquired sink (aq_Key a) then WaitOtherWorker
           else AllowExecute (new_record uuid a)
       | None => if hasOrphanedAcquired sink (aq_Key a) then WaitOtherWorker
                 else AllowExecute (new_record uuid a)
       end.

(** Lines 118-121. *)
Definition acquire_start (d : InvocationDecision) (s : S) : S * InvocationDecision :=
  match d with
  | AllowExecute r => let '(s', ok) := SetStarted r s in (s', if ok : bool then AllowExecute r else Rejected)
  | _ => (s, d)
  end.

Definition Acquire (uuid : string) (sink : option (list JobEvent)) (a : acquire_args) (s : S)
    : S * InvocationDecision :=
  acquire_start (acquire_check uuid sink a s) s.

(** [validate] is the attempt check on the context's job, when configured. *)
Definition Commit (validate : option (string -> result jobstore_error unit)) (ctxJob key res : string)
    (s : S) : result jobstore_error (S * bool) :=
  let finish := Ok (SetFinished key Success res true EmptyString s) in
  match validate with
  | Some v => if String.eqb ctxJob EmptyString then finish
              else match v ctxJob with Err e => Err e | Ok _ => finish end
  | None => finish
  end.

Definition Recover (jobID key : string) (s : S) : option string :=
  match GetByJobAndIdempotencyKey jobID key s with
  | Some rec => if negb (inv_Committed rec) || String.eqb (inv_Result rec) EmptyString then None
                else Some (inv_Result rec)
  | None => None
  end.

(** ** The commit protocol (atomic_commit.go:52-94)

    The sink is the list of events it holds; an append of it may fail
    ([io1], [io2]); [tool] is the result of the tool, [None] an error. *)
Record commit_run := mkCommit { cm_events : list JobEvent; cm_store : S; cm_ran : bool; cm_ok : bool }.

Definition DefaultAtomicCommit (now : time) (uuid : string) (a : acquire_args) (io1 io2 : bool)
    (tool : option string) (validate : option (string -> result jobstore_error unit)) (ctxJob : string)
    (events : list JobEvent) (s : S) : commit_run :=
  let p := mkLedgerPayload ("inv-" +:+ uuid) (aq_JobID a) (aq_StepID a) (aq_ToolName a) (aq_Key a) in
  if negb io1 then mkCommit events s false false
  else
    let events1 := events ++ [NewLedgerAcquiredEvent now p] in
    match tool with
    | None => mkCommit events1 s true false
    | Some res =>
        match Commit validate ctxJob (aq_Key a) res s with
        | Err _ => mkCommit events1 s true false
        | Ok (s', false) => mkCommit events1 s' true false
        | Ok (s', true) =>
            mkCommit (if io2 : bool then events1 ++ [NewLedgerCommittedEvent now p] else events1) s' true true
        end
    end.
End ledger.

#[global] Arguments commit_run : clear implicits.
