(* ===== verification/LedgerProps.v ===== *)
(** The ledger under concurrent executors, against the store interface: what
    is committed stays committed, atomic acquisition gives at-most-once
    execution, and the places where the promise does not hold. *)

From S2P Require Import Prelude GoTime Json JsonFacts Events MemStore Ledger.

(** ** Executors and the ledger as a transition system *)

(** [lg_pending]: records an [Acquire] decided to start and has not written
    yet.  [lg_running]: executions the ledger allowed.  [lg_grants]: every
    (job, key) ever allowed, newest first. *)
Record ledger_state (S : Type) := mkLedger {
  lg_store : S;
  lg_pending : list ToolInvocationRecord;
  lg_running : list ToolInvocationRecord;
  lg_grants : list (string * string);
}.
Arguments mkLedger {S}. Arguments lg_store {S}. Arguments lg_pending {S}.
Arguments lg_running {S}. Arguments lg_grants {S}.

Definition grant_of (r : ToolInvocationRecord) : string * string := (inv_JobID r, inv_Key r).

Section system.
Context {S : Type} `{ToolInvocationStoreSpec S view}.

(** An idempotency key belongs to one job: it is a hash over the job id. *)
Context (owner : string -> string).

Definition args_ok (a : acquire_args) : Prop := aq_Key a <> EmptyString /\ owner (aq_Key a) = aq_JobID a.

Inductive ledger_step (y : ledger_state S) : ledger_state S -> Prop :=
| lstep_check uuid sink a r :
    args_ok a -> acquire_check uuid sink a (lg_store y) = AllowExecute r ->
    ledger_step y (mkLedger (lg_store y) (r :: lg_pending y) (lg_running y) (lg_grants y))
| lstep_start i r s' :
    lg_pending y !! i = Some r -> acquire_start (AllowExecute r) (lg_store y) = (s', AllowExecute r) ->
    ledger_step y (mkLedger s' (splice i (lg_pending y)) (r :: lg_running y) (grant_of r :: lg_grants y))
| lstep_start_failed i r s' :
    lg_pending y !! i = Some r -> acquire_start (AllowExecute r) (lg_store y) = (s', Rejected) ->
    ledger_step y (mkLedger s' (splice i (lg_pending y)) (lg_running y) (lg_grants y))
| lstep_commit i r validate ctxJob res s' ok :
    lg_running y !! i = Some r -> res <> EmptyString ->
    Commit validate ctxJob (inv_Key r) res (lg_store y) = Ok (s', ok) ->
    ledger_step y (mkLedger s' (lg_pending y) (splice i (lg_running y)) (lg_grants y))
| lstep_crash i r :
    lg_running y !! i = Some r ->
    ledger_step y (mkLedger (lg_store y) (lg_pending y) (splice i (lg_running y)) (lg_grants y)).

(** A step of a system whose [Acquire] is not interleaved with anything. *)
Inductive atomic_step (y : ledger_state S) : ledger_state S -> Prop :=
| astep_acquire uuid sink a r s' :
    args_ok a -> Acquire uuid sink a (lg_store y) = (s', AllowExecute r) ->
    atomic_step y (mkLedger s' (lg_pending y) (r :: lg_running y) (grant_of r :: lg_grants y))
| astep_commit i r validate ctxJob res s' ok :
    lg_running y !! i = Some r -> res <> EmptyString ->
    Commit validate ctxJob (inv_Key r) res (lg_store y) = Ok (s', ok) ->
    atomic_step y (mkLedger s' (lg_pending y) (splice i (lg_running y)) (lg_grants y))
| astep_crash i r :
    lg_running y !! i = Some r ->
    atomic_step y (mkLedger (lg_store y) (lg_pending y) (splice i (lg_running y)) (lg_grants y)).

(** ** Lemmas on the operations *)

Lemma acquire_check_allow uuid sink a s r :
  acquire_check uuid sink a s = AllowExecute r ->
  r = new_record uuid a /\ aq_Replay a = EmptyString /\
  forall e, view s !! aq_Key a = Some e -> inv_JobID e = aq_JobID a ->
    inv_Committed e = true /\ recorded_ok e = false.
Proof.
  unfold acquire_check. rewrite get_view. case_match eqn:Hr; [done|].
  apply negb_false_iff, String.eqb_eq in Hr.
  destruct (view s !! aq_Key a) as [e|]; cbn.
  - destruct (String.eqb_spec (inv_JobID e) (aq_JobID a)) as [Hj|Hj].
    + case_match eqn:Ho; [done|]. case_match eqn:Hc; [done|]. case_match; [done|].
      intros [= <-]. bool_hyps. split_and!; try done. intros e' [= <-]. done.
    + case_match; [done|]. intros [= <-]. split_and!; try done. intros e' [= <-] He. congruence.
  - case_match; [done|]. intros [= <-]. by split_and!.
Qed.

Lemma acquire_start_view r s s' d :
  acquire_start (AllowExecute r) s = (s', d) -> view s' = started_view r (view s).
Proof.
  cbn. intros Hs. pose proof (started_view_spec r s) as Hv.
  destruct (SetStarted r s) as [s1 ok]. injection Hs as <- _. exact Hv.
Qed.

Lemma Commit_view validate ctxJob key res s s' ok :
  Commit validate ctxJob key res s = Ok (s', ok) ->
  view s' = finished_view key Success res true EmptyString (view s).
Proof.
  unfold Commit. intros Hc.
  assert (Hs : SetFinished key Success res true EmptyString s = (s', ok)).
  { destruct validate as [v|]; [|congruence]. destruct (String.eqb ctxJob EmptyString); [congruence|].
    destruct (v ctxJob); congruence. }
  pose proof (finished_view_spec key Success res true EmptyString s) as Hv. by rewrite Hs in Hv.
Qed.

Lemma started_view_lookup r m key :
  inv_Key r <> EmptyString ->
  started_view r m !! key = if decide (inv_Key r = key)
    then (match m !! key with Some e => if inv_Committed e then Some e else Some r | None => Some r end)
    else m !! key.
Proof.
  intros Hk. unfold started_view. rewrite (proj2 (String.eqb_neq _ _) Hk).
  case_decide as Heq; [subst key|].
  - destruct (m !! inv_Key r) as [e|] eqn:He; [destruct (inv_Committed e); [done|]|];
      by rewrite lookup_insert_eq.
  - destruct (m !! inv_Key r) as [e|]; [destruct (inv_Committed e); [done|]|];
      by rewrite lookup_insert_ne.
Qed.

Lemma finished_view_lookup key0 res m key :
  finished_view key0 Success res true EmptyString m !! key = if decide (key0 = key)
    then Some (finish_record Success res true EmptyString (default (blank_record key) (m !! key)))
    else m !! key.
Proof.
  unfold finished_view. case_decide as Heq; [subst|]; [by rewrite lookup_insert_eq|by rewrite lookup_insert_ne].
Qed.

(** ** Committed results *)

(** The key's record is committed for its owner with a result. *)
Definition committed_ok (key : string) (s : S) : Prop :=
  exists r, view s !! key = Some r /\ inv_JobID r = owner key /\ recorded_ok r = true.

Definition requests_ok (y : ledger_state S) : Prop :=
  Forall (fun r => inv_Key r <> EmptyString /\ inv_JobID r = owner (inv_Key r)) (lg_pending y ++ lg_running y).

Lemma recorded_ok_finish r res : res <> EmptyString -> recorded_ok (finish_record Success res true EmptyString r) = true.
Proof.
  intros Hr. unfold recorded_ok. cbn [finish_record inv_Committed inv_Status inv_Result].
  by rewrite bool_decide_true, (proj2 (String.eqb_neq _ _) Hr).
Qed.

Lemma recorded_ok_committed r : recorded_ok r = true -> inv_Committed r = true.
Proof. unfold recorded_ok. intros Hr. by bool_hyps. Qed.

Lemma committed_start key r s s' d :
  inv_Key r <> EmptyString -> committed_ok key s ->
  acquire_start (AllowExecute r) s = (s', d) -> committed_ok key s'.
Proof.
  intros Hk (e & He & Hj & Ho) Hs. exists e. split_and!; [|done|done].
  rewrite (acquire_start_view _ _ _ _ Hs), started_view_lookup by done.
  case_decide; [|done]. by rewrite He, (recorded_ok_committed _ Ho).
Qed.

Lemma committed_commit key validate ctxJob key' res s s' ok :
  res <> EmptyString -> committed_ok key s ->
  Commit validate ctxJob key' res s = Ok (s', ok) -> committed_ok key s'.
Proof.
  intros Hr (e & He & Hj & Ho) Hc. unfold committed_ok. rewrite (Commit_view _ _ _ _ _ _ _ Hc).
  rewrite finished_view_lookup. case_decide; [|by exists e]. rewrite He. eexists. cbn.
  split_and!; [done|done|by apply recorded_ok_finish].
Qed.

Lemma ledger_step_committed key y y' :
  requests_ok y -> committed_ok key (lg_store y) -> ledger_step y y' ->
  requests_ok y' /\ committed_ok key (lg_store y').
Proof.
  intros Hq Hc Hstep. unfold requests_ok in *. rewrite Forall_app in *. destruct Hq as [Hp Hr].
  assert (Hsp : forall (P : ToolInvocationRecord -> Prop) l i x, l !! i = Some x -> Forall P l ->
            P x /\ Forall P (splice i l)).
  { intros P l i x Hi Hf. rewrite (splice_perm _ _ _ Hi) in Hf. by apply Forall_cons in Hf. }
  destruct Hstep as [uuid sink a r [Ha1 Ha2] Ha | i r s' Hi Hs | i r s' Hi Hs
                    | i r validate ctxJob res s' ok Hi Hne Hco | i r Hi]; cbn.
  - apply acquire_check_allow in Ha as (-> & _). rewrite Forall_cons. by split_and!.
  - destruct (Hsp _ _ _ _ Hi Hp) as [Hx Hl]. rewrite Forall_cons.
    split_and!; [done|apply Hx|apply Hx|done|]. by eapply committed_start; [apply Hx|done|done].
  - destruct (Hsp _ _ _ _ Hi Hp) as [Hx Hl].
    split_and!; [done|done|]. by eapply committed_start; [apply Hx|done|done].
  - destruct (Hsp _ _ _ _ Hi Hr) as [Hx Hl]. split_and!; [done|done|]. by eapply committed_commit.
  - destruct (Hsp _ _ _ _ Hi Hr) as [Hx Hl]. by split_and!.
Qed.

(** ** At most once *)

(** Records belong to their owners and are uncommitted or have a result. *)
Definition store_good (s : S) : Prop :=
  forall key r, view s !! key = Some r ->
    inv_JobID r = owner key /\ (inv_Committed r = false \/ recorded_ok r = true).

(** Every granted key has a record. *)
Definition grants_recorded (y : ledger_state S) : Prop :=
  store_good (lg_store y) /\ NoDup (lg_grants y) /\
  Forall (fun r => grant_of r ∈ lg_grants y) (lg_running y) /\
  forall job key, (job, key) ∈ lg_grants y -> job = owner key /\ is_Some (view (lg_store y) !! key).

Lemma good_allow uuid sink a s r :
  store_good s -> args_ok a -> acquire_check uuid sink a s = AllowExecute r ->
  r = new_record uuid a /\ view s !! aq_Key a = None.
Proof.
  intros Hs [Hk Ho] Ha. apply acquire_check_allow in Ha as (-> & _ & Hall). split; [done|].
  destruct (view s !! aq_Key a) as [e|] eqn:He; [|done]. exfalso.
  destruct (Hs _ _ He) as [Hj Hor]. destruct (Hall e eq_refl) as [H1 H2]; [congruence|].
  destruct Hor; congruence.
Qed.

Lemma good_commit key validate ctxJob res s s' ok :
  store_good s -> is_Some (view s !! key) -> res <> EmptyString ->
  Commit validate ctxJob key res s = Ok (s', ok) ->
  store_good s' /\ forall k, is_Some (view s !! k) -> is_Some (view s' !! k).
Proof.
  intros Hs [e He] Hr Hc. apply Commit_view in Hc. split.
  - intros k r. rewrite Hc, finished_view_lookup. case_decide as Heq; [subst k|apply Hs].
    rewrite He. intros [= <-]. destruct (Hs _ _ He) as [Hj _]. cbn. split; [done|].
    right. by apply recorded_ok_finish.
  - intros k Hk. rewrite Hc, finished_view_lookup. by case_decide.
Qed.

(** Starting the record of an allowed acquisition. *)
Lemma good_start uuid sink a s r s' d :
  store_good s -> args_ok a -> acquire_check uuid sink a s = AllowExecute r ->
  acquire_start (AllowExecute r) s = (s', d) ->
  r = new_record uuid a /\ view s !! aq_Key a = None /\ store_good s' /\
  forall k, view s' !! k = if decide (aq_Key a = k) then Some r else view s !! k.
Proof.
  intros Hs Hargs Hc Ha. destruct (good_allow _ _ _ _ _ Hs Hargs Hc) as [-> Hnone].
  pose proof (acquire_start_view _ _ _ _ Ha) as Hv. destruct Hargs as [Hk Ho].
  assert (Hl : forall k, view s' !! k = if decide (aq_Key a = k) then Some (new_record uuid a) else view s !! k).
  { intros k. rewrite Hv, started_view_lookup by done. cbn. case_decide as Heq; [|done].
    subst k. by rewrite Hnone. }
  split_and!; [done|done| |done].
  intros k x. rewrite Hl. case_decide as Heq; [subst k|apply Hs]. intros [= <-]. cbn. auto.
Qed.

Lemma grants_recorded_acquire y uuid sink a r s' :
  grants_recorded y -> args_ok a -> Acquire uuid sink a (lg_store y) = (s', AllowExecute r) ->
  grants_recorded (mkLedger s' (lg_pending y) (r :: lg_running y) (grant_of r :: lg_grants y)).
Proof.
  intros (Hs & Hn & Hf & Hg) Hargs Ha. unfold Acquire in Ha.
  destruct (acquire_check uuid sink a (lg_store y)) as [r'| | |] eqn:Hc; try done.
  assert (r' = r) as ->.
  { cbn in Ha. destruct (SetStarted r' (lg_store y)) as [? []]; congruence. }
  destruct (good_start _ _ _ _ _ _ _ Hs Hargs Hc Ha) as (-> & Hnone & Hs' & Hl).
  split_and!; cbn.
  - done.
  - apply NoDup_cons. split; [|done]. intros Hin. destruct (Hg _ _ Hin) as [_ [x Hx]]. cbn in Hx.
    congruence.
  - apply Forall_cons. split; [by left|]. eapply Forall_impl; [exact Hf|]. intros x Hx. by right.
  - intros job key [[= -> ->]|Hin]%elem_of_cons.
    + destruct Hargs. split; [done|]. rewrite Hl, decide_True by done. by eexists.
    + destruct (Hg _ _ Hin) as [Hj Hx]. split; [done|]. rewrite Hl. by case_decide.
Qed.

Lemma grants_recorded_step y y' : grants_recorded y -> atomic_step y y' -> grants_recorded y'.
Proof.
  intros Hy Hstep. destruct Hstep as [uuid sink a r s' Hargs Ha | i r validate ctxJob res s' ok Hi Hne Hco | i r Hi].
  - by eapply grants_recorded_acquire.
  - destruct Hy as (Hs & Hn & Hf & Hg). rewrite (splice_perm _ _ _ Hi) in Hf.
    apply Forall_cons in Hf as [Hr Hf]. destruct (Hg _ _ Hr) as [_ Hx].
    destruct (good_commit _ _ _ _ _ _ _ Hs Hx Hne Hco) as [Hs' Hl].
    split_and!; cbn; [done|done|done|]. intros job key Hin. destruct (Hg _ _ Hin). auto.
  - destruct Hy as (Hs & Hn & Hf & Hg). rewrite (splice_perm _ _ _ Hi) in Hf.
    apply Forall_cons in Hf as [Hr Hf]. by split_and!.
Qed.
End system.

Arguments committed_ok {S} view owner key s.
Arguments store_good {S} view owner s.

(** ** Properties *)

(** A committed result is never executed again: once a key's record is
    committed with a result, then whatever executors start, commit or crash,
    interleaved in any way (half-done acquisitions included), every later
    [Acquire] for the key returns a recorded result. *)
Theorem committed_never_reexecuted {S} `{ToolInvocationStoreSpec S view} owner key (y y' : ledger_state S)
    uuid sink a :
  requests_ok owner y -> committed_ok view owner key (lg_store y) -> rtc (ledger_step owner) y y' ->
  aq_Key a = key -> aq_JobID a = owner key ->
  exists r, Acquire uuid sink a (lg_store y') = (lg_store y', ReturnRecordedResult r) /\
            inv_Committed r = true /\ inv_Result r <> EmptyString.
Proof.
  intros Hq Hc Hr Hk Hj.
  assert (Hc' : requests_ok owner y' /\ committed_ok view owner key (lg_store y')).
  { apply (rtc_preserves (fun y => requests_ok owner y /\ committed_ok view owner key (lg_store y)) _ _ _ Hr);
      [|done]. intros y1 y2 [Hq1 Hc1] Hs. by eapply ledger_step_committed. }
  destruct Hc' as [_ (e & He & Hje & Ho)].
  unfold Acquire, acquire_check. destruct (String.eqb_spec (aq_Replay a) EmptyString) as [Hre|Hre]; cbn.
  - rewrite get_view, Hk, He. cbn. rewrite Hje, Hj, String.eqb_refl, Ho. cbn. exists e.
    unfold recorded_ok in Ho. bool_hyps. split_and!; [done|done|]. by apply String.eqb_neq.
  - eexists. by split_and!.
Qed.

(** C11: executed at most once: from a store whose records belong to their
    owners and are uncommitted or have a result (the empty store), in every
    run where acquisitions are not interleaved and results are not empty, no
    (job, key) pair is allowed to execute twice, whatever executors commit or
    crash in between. *)
Theorem at_most_once {S} `{ToolInvocationStoreSpec S view} owner (s : S) y :
  store_good view owner s -> rtc (atomic_step owner) (mkLedger s [] [] []) y -> NoDup (lg_grants y).
Proof.
  intros Hs Hr. apply (rtc_preserves (grants_recorded (view := view) owner)) in Hr.
  - by destruct Hr as (_ & Hn & _).
  - intros a b. apply grants_recorded_step.
  - split_and!; cbn; [done|constructor|constructor|]. by intros ?? ?%elem_of_nil.
Qed.

(** What is committed is recovered: when an allowed execution commits a
    result, [Recover] returns exactly that result and the next [Acquire],
    by any worker, returns it without executing. *)
Theorem commit_recovered {S} `{ToolInvocationStoreSpec S view} uuid uuid' sink sink' a r res
    validate ctxJob (s s1 s2 : S) :
  aq_Key a <> EmptyString -> res <> EmptyString -> aq_Replay a = EmptyString ->
  view s !! aq_Key a = None ->
  Acquire uuid sink a s = (s1, AllowExecute r) ->
  Commit validate ctxJob (inv_Key r) res s1 = Ok (s2, true) ->
  Recover (aq_JobID a) (aq_Key a) s2 = Some res /\
  exists rec, Acquire uuid' sink' a s2 = (s2, ReturnRecordedResult rec) /\ inv_Result rec = res.
Proof.
  intros Hk Hres Hre Hnone Ha Hc. unfold Acquire in Ha.
  destruct (acquire_check uuid sink a s) as [r'| | |] eqn:Hch; try done.
  assert (r' = r) as -> by (cbn in Ha; destruct (SetStarted r' s) as [? []]; congruence).
  apply acquire_check_allow in Hch as (-> & _). pose proof (acquire_start_view _ _ _ _ Ha) as Hv1.
  pose proof (Commit_view _ _ _ _ _ _ _ Hc) as Hv2. cbn [inv_Key new_record] in Hv2.
  assert (Hl : view s2 !! aq_Key a = Some (finish_record Success res true EmptyString (new_record uuid a))).
  { rewrite Hv2, finished_view_lookup, decide_True by done.
    by rewrite Hv1, started_view_lookup, decide_True, Hnone by done. }
  pose proof (recorded_ok_finish (new_record uuid a) res Hres) as Hok.
  unfold Acquire, acquire_check, Recover. rewrite Hre, get_view, Hl. cbn [String.eqb negb mbind option_bind].
  cbn [finish_record inv_JobID new_record]. rewrite String.eqb_refl. split.
  - cbn. by rewrite (proj2 (String.eqb_neq _ _) Hres).
  - rewrite Hok. by eexists.
Qed.

(** An execution that fails or crashes after it was allowed blocks the key
    for good: nothing but a commit clears the started record, so every retry
    of [Acquire], by any worker and at any time, answers that another worker
    is busy and changes nothing. *)
Theorem abandoned_execution_blocks {S} `{ToolInvocationStoreSpec S view} uuid uuid' sink sink' a r (s s1 : S) :
  aq_Key a <> EmptyString -> aq_Replay a = EmptyString -> view s !! aq_Key a = None ->
  Acquire uuid sink a s = (s1, AllowExecute r) ->
  Acquire uuid' sink' a s1 = (s1, WaitOtherWorker) /\ Recover (aq_JobID a) (aq_Key a) s1 = None.
Proof.
  intros Hk Hre Hnone Ha. unfold Acquire in Ha.
  destruct (acquire_check uuid sink a s) as [r'| | |] eqn:Hch; try done.
  apply acquire_check_allow in Hch as (-> & _). pose proof (acquire_start_view _ _ _ _ Ha) as Hv1.
  assert (Hl : view s1 !! aq_Key a = Some (new_record uuid a))
    by by rewrite Hv1, started_view_lookup, decide_True, Hnone by done.
  unfold Acquire, acquire_check, Recover. rewrite Hre, get_view, Hl.
  cbn. rewrite String.eqb_refl. done.
Qed.

(** A committed empty result does not count: after an allowed execution
    commits the empty result, the next [Acquire] allows the tool to execute
    again. *)
Theorem empty_result_reexecutes {S} `{ToolInvocationStoreSpec S view} uuid uuid' a r validate ctxJob (s s1 s2 : S) :
  aq_Key a <> EmptyString -> aq_Replay a = EmptyString -> view s !! aq_Key a = None ->
  Acquire uuid None a s = (s1, AllowExecute r) ->
  Commit validate ctxJob (inv_Key r) EmptyString s1 = Ok (s2, true) ->
  acquire_check uuid' None a s2 = AllowExecute (new_record uuid' a).
Proof.
  intros Hk Hre Hnone Ha Hc. unfold Acquire in Ha.
  destruct (acquire_check uuid None a s) as [r'| | |] eqn:Hch; try done.
  assert (r' = r) as -> by (cbn in Ha; destruct (SetStarted r' s) as [? []]; congruence).
  apply acquire_check_allow in Hch as (-> & _). pose proof (acquire_start_view _ _ _ _ Ha) as Hv1.
  pose proof (Commit_view _ _ _ _ _ _ _ Hc) as Hv2. cbn [inv_Key new_record] in Hv2.
  assert (Hl : view s2 !! aq_Key a = Some (finish_record Success EmptyString true EmptyString (new_record uuid a))).
  { rewrite Hv2, finished_view_lookup, decide_True by done.
    by rewrite Hv1, started_view_lookup, decide_True, Hnone by done. }
  unfold acquire_check. rewrite Hre, get_view, Hl. cbn. rewrite String.eqb_refl.
  unfold recorded_ok. cbn [inv_Committed inv_Status inv_Result finish_record]. by rewrite andb_false_r.
Qed.

(** ** Orphans and the commit protocol *)

Definition ledger_event (t : EventType) (key : string) (e : JobEvent) : bool :=
  bool_decide (ev_Type e = t)
  && (let '(p, err) := unmarshal_ledger_payload (ev_Payload e) in
      negb err && String.eqb (lp_IdempotencyKey p) key).

Lemma orphan_scan_spec key res found :
  orphan_scan key res found
  = negb (existsb (ledger_event LedgerCommitted key) res)
    && (found || existsb (ledger_event LedgerAcquired key) res).
Proof.
  revert found. induction res as [|e res IH]; intros found; cbn; [by rewrite orb_false_r|].
  unfold ledger_event at 1 3. destruct (unmarshal_ledger_payload (ev_Payload e)) as [p err].
  destruct (ev_Type e); cbn; rewrite ?IH; try done.
  - by destruct (existsb _ res), (negb err && _)%bool, found.
  - by destruct (negb err && _)%bool.
Qed.

Lemma existsb_rev {A} (p : A -> bool) l : existsb p (rev l) = existsb p l.
Proof. apply eq_true_iff_eq. rewrite !existsb_exists. by setoid_rewrite <- in_rev. Qed.

Lemma existsb_snoc {A} (p : A -> bool) l x : existsb p (l ++ [x]) = existsb p l || p x.
Proof. rewrite existsb_app. cbn. by rewrite orb_false_r. Qed.

(** An orphan is an acquisition without a commit: the backward scan of
    [hasOrphanedAcquired] answers true exactly when some decodable
    ledger_acquired event carries the key and no decodable ledger_committed
    event does, wherever they are in the stream. *)
Theorem hasOrphanedAcquired_spec events key :
  hasOrphanedAcquired (Some events) key = true <->
  (exists e, e ∈ events /\ ledger_event LedgerAcquired key e = true) /\
  (forall e, e ∈ events -> ledger_event LedgerCommitted key e = false).
Proof.
  unfold hasOrphanedAcquired. rewrite orphan_scan_spec, !existsb_rev, andb_true_iff, negb_true_iff.
  cbn [orb]. rewrite existsb_exists. setoid_rewrite list_elem_of_In. split.
  - intros [Hc Ha]. split; [exact Ha|]. intros e He. apply not_true_is_false. intros Ht.
    apply not_true_iff_false in Hc. apply Hc, existsb_exists. by exists e.
  - intros [Ha Hc]. split; [|exact Ha]. apply not_true_is_false. rewrite existsb_exists.
    intros (e & He & Ht). by rewrite Hc in Ht.
Qed.

(** The record of the key, started or committed with [res] for the job. *)
Definition key_taken {S} (view : S -> gmap string ToolInvocationRecord) (a : acquire_args) (res : string)
    (s : S) : Prop :=
  exists r, view s !! aq_Key a = Some r /\ inv_JobID r = aq_JobID a /\
    (inv_Committed r = false \/ (recorded_ok r = true /\ inv_Result r = res)).

Section protocol.
Context {S : Type} `{ToolInvocationStoreSpec S view}.

Lemma acquire_taken uuid sink a res (s : S) :
  aq_Replay a = EmptyString -> key_taken view a res s ->
  Acquire uuid sink a s = (s, WaitOtherWorker) \/
  exists rec, Acquire uuid sink a s = (s, ReturnRecordedResult rec) /\ inv_Result rec = res.
Proof.
  intros Hre (r & Hr & Hj & Hor). unfold Acquire, acquire_check. rewrite Hre, get_view, Hr. cbn.
  rewrite Hj, String.eqb_refl. destruct (recorded_ok r) eqn:Ho.
  - right. exists r. split; [done|]. destruct Hor as [Hc|[_ ?]]; [|done].
    apply recorded_ok_committed in Ho. congruence.
  - destruct Hor as [Hc|[? _]]; [|congruence]. rewrite Hc. by left.
Qed.

Lemma allowed_taken uuid sink a r res (s s1 : S) :
  aq_Key a <> EmptyString -> view s !! aq_Key a = None ->
  Acquire uuid sink a s = (s1, AllowExecute r) -> key_taken view a res s1 /\ inv_Key r = aq_Key a.
Proof.
  intros Hk Hnone Ha. unfold Acquire in Ha.
  destruct (acquire_check uuid sink a s) as [r'| | |] eqn:Hch; try done.
  assert (r' = r) as -> by (cbn in Ha; destruct (SetStarted r' s) as [? []]; congruence).
  apply acquire_check_allow in Hch as (-> & _). split; [|done].
  exists (new_record uuid a). rewrite (acquire_start_view _ _ _ _ Ha).
  rewrite started_view_lookup, decide_True, Hnone by done. cbn. auto.
Qed.

Lemma commit_taken validate ctxJob a res (s s1 : S) ok :
  key_taken view a res s -> res <> EmptyString ->
  Commit validate ctxJob (aq_Key a) res s = Ok (s1, ok) ->
  exists r, view s1 !! aq_Key a = Some r /\ inv_JobID r = aq_JobID a /\ recorded_ok r = true /\ inv_Result r = res.
Proof.
  intros (r & Hr & Hj & _) Hne Hc.
  exists (finish_record Success res true EmptyString r).
  rewrite (Commit_view _ _ _ _ _ _ _ Hc), finished_view_lookup, decide_True, Hr by done.
  split_and!; [done|done|by apply recorded_ok_finish|done].
Qed.
End protocol.

(** What a run of the protocol writes into the stream: nothing unless the
    acquisition comes first, and the commit only at the end. *)
Lemma atomic_commit_events {S} `{ToolInvocationStore S} now uuid a io1 io2 tool validate ctxJob events (s : S) :
  let fin := DefaultAtomicCommit now uuid a io1 io2 tool validate ctxJob events s in
  let p := mkLedgerPayload ("inv-" +:+ uuid) (aq_JobID a) (aq_StepID a) (aq_ToolName a) (aq_Key a) in
  cm_ran fin = io1 /\
  (if io1 then cm_events fin = (events ++ [NewLedgerAcquiredEvent now p])
                 ++ (if cm_ok fin && io2 then [NewLedgerCommittedEvent now p] else [])
   else cm_events fin = events /\ cm_store fin = s /\ cm_ok fin = false).
Proof.
  cbn zeta. unfold DefaultAtomicCommit. destruct io1; cbn [negb]; [|done].
  destruct tool as [res|]; [|cbn; by rewrite app_nil_r].
  destruct (Commit _ _ _ _ _) as [[s2 []]|e]; cbn [cm_ran cm_ok cm_events andb]; [|by rewrite app_nil_r..].
  destruct io2; cbn; [done|by rewrite app_nil_r].
Qed.

(** An acquisition whose commit is missing is an orphan. *)
Lemma acquired_is_orphaned now p events key :
  ledger_payload_utf8 p = true -> lp_IdempotencyKey p = key ->
  (forall e, e ∈ events -> ledger_event LedgerCommitted key e = false) ->
  hasOrphanedAcquired (Some (events ++ [NewLedgerAcquiredEvent now p])) key = true.
Proof.
  intros Hu Hk Hno. apply hasOrphanedAcquired_spec. split.
  - exists (NewLedgerAcquiredEvent now p). split; [apply elem_of_app; right; by left|].
    unfold ledger_event. cbn [NewLedgerAcquiredEvent new_event ev_Type ev_Payload].
    rewrite unmarshal_marshal_ledger by done. rewrite Hk, String.eqb_refl. by vm_compute.
  - intros e [He|He]%elem_of_app; [by apply Hno|]. apply list_elem_of_singleton in He as ->. done.
Qed.

(** C13: the commit protocol is crash safe.  A key with no record yet is
    acquired, and [DefaultAtomicCommit] runs a tool whose result, if it has
    one, is not empty, with any event append, tool or commit failing: the
    states a crash between its steps leaves behind.  The tool runs only after
    its acquisition is in the stream.  The next [Acquire], with whatever events
    it sees, never allows a second execution: it returns the tool's own result,
    or waits when the protocol did not succeed.  Even on a store that lost the
    record it waits by the stream alone, when that holds no commit for the key:
    none before the run, and none from it. *)
Theorem atomic_commit_crash_safe {S} `{ToolInvocationStoreSpec S view} uuid uuid1 uuid2 sink sink2 now a r
    io1 io2 tool validate ctxJob events (s s1 : S) :
  aq_Key a <> EmptyString -> aq_Replay a = EmptyString -> tool <> Some EmptyString ->
  view s !! aq_Key a = None ->
  Acquire uuid sink a s = (s1, AllowExecute r) ->
  let fin := DefaultAtomicCommit now uuid1 a io1 io2 tool validate ctxJob events s1 in
  let p := mkLedgerPayload ("inv-" +:+ uuid1) (aq_JobID a) (aq_StepID a) (aq_ToolName a) (aq_Key a) in
  (cm_ran fin = true -> exists more, cm_events fin = (events ++ [NewLedgerAcquiredEvent now p]) ++ more) /\
  ((Acquire uuid2 sink2 a (cm_store fin) = (cm_store fin, WaitOtherWorker) /\ cm_ok fin = false) \/
   exists rec, Acquire uuid2 sink2 a (cm_store fin) = (cm_store fin, ReturnRecordedResult rec) /\
               cm_ran fin = true /\ tool = Some (inv_Result rec)) /\
  (ledger_payload_utf8 p = true -> (forall e, e ∈ events -> ledger_event LedgerCommitted (aq_Key a) e = false) ->
   cm_ran fin = true -> cm_ok fin && io2 = false ->
   forall lost, view lost !! aq_Key a = None ->
     Acquire uuid2 (Some (cm_events fin)) a lost = (lost, WaitOtherWorker)).
Proof.
  intros Hk Hre Hne Hnone Ha. cbn zeta.
  destruct (atomic_commit_events now uuid1 a io1 io2 tool validate ctxJob events s1) as [Hran Hev].
  split; [intros Hr; rewrite Hr in Hran; subst io1; by eexists|].
  split; [|intros Hu Hno Hr Hco lost Hl; rewrite Hr in Hran; subst io1; rewrite Hev, Hco, app_nil_r; unfold Acquire, acquire_check;
    rewrite Hre, get_view, Hl; cbn [String.eqb negb mbind option_bind]; by rewrite acquired_is_orphaned].
  clear Hran Hev.
  assert (Ht : forall res, key_taken view a res s1) by (intros res; exact (proj1 (allowed_taken _ _ _ _ res _ _ Hk Hnone Ha))).
  assert (Hw : forall sk, Acquire uuid2 sk a s1 = (s1, WaitOtherWorker)).
  { intros sk. destruct (acquire_taken uuid2 sk a EmptyString s1 Hre (Ht _)) as [?|(rec & Hr & _)]; [done|].
    exfalso. destruct (acquire_taken uuid2 sk a "x" s1 Hre (Ht _)) as [?|(rec' & Hr' & Hx)]; [congruence|].
    destruct (acquire_taken uuid2 sk a "y" s1 Hre (Ht _)) as [?|(rec2 & Hr2 & Hy)]; congruence. }
  unfold DefaultAtomicCommit. destruct io1; cbn [negb]; [|left; by split].
  destruct tool as [res|]; [|left; by split].
  destruct (Commit validate ctxJob (aq_Key a) res s1) as [[s2 ok]|e] eqn:Hc; [|left; by split].
  assert (Hres : res <> EmptyString) by congruence.
  destruct (commit_taken _ _ _ _ _ _ _ (Ht res) Hres Hc) as (x & Hx & Hj & Hok & Hr).
  right. exists x. destruct ok; cbn [cm_store cm_ran]; (split_and!; [|done|congruence]);
    unfold Acquire, acquire_check; rewrite Hre, get_view, Hx; cbn; by rewrite Hj, String.eqb_refl, Hok.
Qed.

(** ** The window inside Acquire *)

Definition race_args : acquire_args := mkAcq "j" "s" "t" "h" "key" EmptyString.
Definition race_store : ToolInvocationStoreMem := mkInvMem {["key" := new_record "2" race_args]}.

(** [Acquire] is not one atomic operation: two workers whose checks both
    run before either write are both allowed to execute the same call. *)
Theorem acquire_not_atomic :
  exists y, rtc (ledger_step (fun _ => "j")) (mkLedger NewToolInvocationStoreMem [] [] []) y /\
    lg_grants y = [("j", "key"); ("j", "key")].
Proof.
  set (r1 := new_record "1" race_args). set (r2 := new_record "2" race_args).
  exists (mkLedger race_store [] [r2; r1] [("j", "key"); ("j", "key")]). split; [|done].
  eapply rtc_l; [apply (lstep_check _ _ "1" None race_args r1); [split; [discriminate|done]|reflexivity]|].
  eapply rtc_l; [apply (lstep_check _ _ "2" None race_args r2); [split; [discriminate|done]|reflexivity]|].
  eapply rtc_l; [eapply (lstep_start _ _ 1 r1); reflexivity|].
  eapply rtc_l; [eapply (lstep_start _ _ 0 r2); reflexivity|].
  match goal with |- rtc _ ?y _ => replace y with (mkLedger race_store [] [r2; r1] [("j", "key"); ("j", "key")]) end;
    [done|]. vm_compute. reflexivity.
Qed.

(** ** Witnesses *)

Definition demo_allowed : ToolInvocationStoreMem := mkInvMem {["key" := new_record "1" race_args]}.
Definition demo_committed : ToolInvocationStoreMem :=
  mkInvMem {["key" := finish_record Success "{}" true EmptyString (new_record "1" race_args)]}.

Lemma committed_never_reexecuted_witness :
  exists r, Acquire "9" None race_args demo_committed = (demo_committed, ReturnRecordedResult r).
Proof.
  destruct (committed_never_reexecuted (fun _ => "j") "key" (mkLedger demo_committed [] [] [])
    (mkLedger demo_committed [] [] []) "9" None race_args) as (r & Hr & _).
  - constructor.
  - eexists. split_and!; vm_compute; reflexivity.
  - apply rtc_refl.
  - reflexivity.
  - reflexivity.
  - exists r. exact Hr.
Defined.

Lemma at_most_once_witness :
  NoDup (lg_grants (mkLedger demo_allowed [] [new_record "1" race_args] [("j", "key")])).
Proof.
  refine (at_most_once (fun _ => "j") NewToolInvocationStoreMem _ _ _).
  - intros key r Hr. discriminate.
  - eapply rtc_l; [eapply (astep_acquire _ _ "1" None race_args); [split; [discriminate|reflexivity]|reflexivity]|].
    apply rtc_refl.
Defined.

Lemma commit_recovered_witness : Recover "j" "key" demo_committed = Some "{}".
Proof.
  refine (proj1 (commit_recovered "1" "2" None None race_args (new_record "1" race_args) "{}" None EmptyString
    NewToolInvocationStoreMem demo_allowed demo_committed _ _ _ _ _ _));
    [discriminate|discriminate|reflexivity|reflexivity|reflexivity|reflexivity].
Defined.

Lemma abandoned_execution_blocks_witness :
  Acquire "2" None race_args demo_allowed = (demo_allowed, WaitOtherWorker).
Proof.
  refine (proj1 (abandoned_execution_blocks "1" "2" None None race_args (new_record "1" race_args)
    NewToolInvocationStoreMem demo_allowed _ _ _ _)); [discriminate|reflexivity|reflexivity|reflexivity].
Defined.

Lemma empty_result_reexecutes_witness :
  acquire_check "2" None race_args
    (mkInvMem {["key" := finish_record Success EmptyString true EmptyString (new_record "1" race_args)]})
  = AllowExecute (new_record "2" race_args).
Proof.
  refine (empty_result_reexecutes "1" "2" race_args (new_record "1" race_args) None EmptyString
    NewToolInvocationStoreMem demo_allowed _ _ _ _ _ _);
    [discriminate|reflexivity|reflexivity|reflexivity|reflexivity].
Defined.

(** A tool that commits, whose result comes back; and one whose commit is
    refused, on a store that has lost its record: the next caller waits. *)
Lemma atomic_commit_crash_safe_witness :
  let after tool validate := DefaultAtomicCommit (Time 0 0) "3" race_args true true tool validate "j" [] demo_allowed in
  (exists rec, Acquire "4" None race_args (cm_store (after (Some "{}") None)) = (cm_store (after (Some "{}") None), ReturnRecordedResult rec) /\
     inv_Result rec = "{}") /\
  Acquire "4" (Some (cm_events (after (Some "{}") (Some (fun _ => Err ErrStaleAttempt))))) race_args NewToolInvocationStoreMem
    = (NewToolInvocationStoreMem, WaitOtherWorker).
Proof.
  split.
  - destruct (atomic_commit_crash_safe "1" "3" "4" None None (Time 0 0) race_args (new_record "1" race_args)
      true true (Some "{}") None "j" [] NewToolInvocationStoreMem demo_allowed) as (_ & [[_ Hf]|(rec & Hr & _ & Ht)] & _);
      [discriminate|reflexivity|discriminate|reflexivity|reflexivity|discriminate Hf|].
    exists rec. split; [exact Hr|congruence].
  - refine (proj2 (proj2 (atomic_commit_crash_safe "1" "3" "4" None None (Time 0 0) race_args (new_record "1" race_args)
      true true (Some "{}") (Some (fun _ => Err ErrStaleAttempt)) "j" [] NewToolInvocationStoreMem demo_allowed _ _ _ _ _)) _ _ _ _ NewToolInvocationStoreMem _);
      [discriminate|reflexivity|discriminate|reflexivity|reflexivity|vm_compute; reflexivity|intros e He; by apply not_elem_of_nil in He|reflexivity..].
Defined.
