(* ===== verification/Identity.v ===== *)
(** internal/agent/runtime/executor/{invocation,step_identity,effect_store,
    effect_store_mem,effect_embedded,state_diff}.go: the keys that identify a
    tool call and a step across executions, the effect journal, and the
    comparison of checkpointed states.

    Tool arguments are a Go [map[string]any]: an association list with
    distinct keys, in any order. *)

From S2P Require Import Prelude Sha256 GoTime Json.

Definition nul : ascii := "000".

(** ** Keys (invocation.go:32-101, step_identity.go) *)

(** [canonicalizeMap] on a value: an empty map becomes [nil], which is
    printed as [null]; arrays are left alone. *)
Fixpoint canonical (v : json) : json :=
  match v with
  | JObj [] => JNull
  | JObj l => JObj (map (fun '(k, x) => (k, match x with JObj _ => canonical x | _ => x end)) l)
  | _ => v
  end.

Definition canonical_args (args : list (string * json)) : string := print (canonical (JObj args)).

Definition key_preimage (jobID nodeID toolName : string) (args : list (string * json)) : string :=
  jobID +:+ String nul (nodeID +:+ String nul (toolName +:+ String nul
    (match args with [] => EmptyString | _ => canonical_args args end))).

Definition IdempotencyKey (jobID nodeID toolName : string) (args : list (string * json)) : string :=
  hex_sha256 (key_preimage jobID nodeID toolName args).

Definition ArgumentsHash (args : list (string * json)) : string :=
  match args with
  | [] => EmptyString
  | _ => str_take 16 (hex_sha256 (canonical_args args))
  end.

Definition FormatStartedAt (t : time) : string := format_rfc3339 (t_utc t).

Definition step_preimage (jobID decisionID : string) (index : Z) (nodeType : string) : string :=
  jobID +:+ String nul (decisionID +:+ String nul (itoa index +:+ String nul nodeType)).

Definition DeterministicStepID (jobID decisionID : string) (index : Z) (nodeType : string) : string :=
  str_take 16 (hex_sha256 (step_preimage jobID decisionID index nodeType)).

Definition PlanDecisionID (taskGraphState : string) : string :=
  match taskGraphState with
  | EmptyString => EmptyString
  | _ => str_take 16 (hex_sha256 taskGraphState)
  end.

(** ** The effect journal (effect_store.go, effect_store_mem.go) *)

Record EffectRecord := mkEffect {
  ef_JobID : string; ef_CommandID : string; ef_IdempotencyKey : string; ef_Kind : string;
  ef_Input : string; ef_Output : string; ef_Error : string; ef_Metadata : list (string * json);
  ef_CreatedAt : time;
}.

Record EffectStoreMem := mkEffects {
  es_byKey : gmap string EffectRecord;
  es_byJob : gmap string (list EffectRecord);
}.

Definition NewEffectStoreMem : EffectStoreMem := mkEffects ∅ ∅.

Definition keyID (jobID idempotencyKey : string) : string := jobID +:+ String nul idempotencyKey.
Definition keyCmd (jobID commandID : string) : string :=
  jobID +:+ String nul ("cmd" +:+ String nul commandID).

(** [copyRecord] keeps every field; the copies are values here. *)
Definition PutEffect (now : time) (r : EffectRecord) (s : EffectStoreMem) : EffectStoreMem :=
  if String.eqb (ef_JobID r) EmptyString then s
  else
    let c := mkEffect (ef_JobID r) (ef_CommandID r) (ef_IdempotencyKey r) (ef_Kind r) (ef_Input r)
               (ef_Output r) (ef_Error r) (ef_Metadata r) (t_utc now) in
    let m1 := if String.eqb (ef_IdempotencyKey r) EmptyString then es_byKey s
              else <[keyID (ef_JobID r) (ef_IdempotencyKey r) := c]> (es_byKey s) in
    let m2 := if String.eqb (ef_CommandID r) EmptyString then m1
              else <[keyCmd (ef_JobID r) (ef_CommandID r) := c]> m1 in
    mkEffects m2 (<[ef_JobID r := get_default [] (es_byJob s) (ef_JobID r) ++ [c]]> (es_byJob s)).

Definition GetEffectByJobAndIdempotencyKey (jobID key : string) (s : EffectStoreMem) : option EffectRecord :=
  if String.eqb jobID EmptyString || String.eqb key EmptyString then None
  else es_byKey s !! keyID jobID key.

Definition GetEffectByJobAndCommandID (jobID commandID : string) (s : EffectStoreMem) : option EffectRecord :=
  if String.eqb jobID EmptyString || String.eqb commandID EmptyString then None
  else es_byKey s !! keyCmd jobID commandID.

(** The persisted journal: every field is exported, the file holds both maps. *)
Record effectStoreEmbedded := mkEffectsEmb { ee_mem : EffectStoreMem; ee_disk : option EffectStoreMem }.

Definition effects_load (disk : option EffectStoreMem) : effectStoreEmbedded :=
  mkEffectsEmb (default NewEffectStoreMem disk) disk.

Definition effects_persist (io : bool) (s : effectStoreEmbedded) : effectStoreEmbedded * bool :=
  if io then (mkEffectsEmb (ee_mem s) (Some (ee_mem s)), true) else (s, false).

Definition Embedded_PutEffect (io : bool) (now : time) (r : EffectRecord) (s : effectStoreEmbedded) :=
  effects_persist io (mkEffectsEmb (PutEffect now r (ee_mem s)) (ee_disk s)).

(** ** State comparison (state_diff.go:80-133) *)

(** [json.Unmarshal] into a nil map: the members, the last of duplicates; any
    other document leaves the map nil. *)
Definition state_map (doc : string) : option (list (string * json)) :=
  match unmarshal doc with
  | Some (JObj l) => Some (sort_fields l)
  | _ => None
  end.

Definition field_of (k : string) (m : list (string * json)) : option json :=
  snd <$> (list_find (fun kv => kv.1 = k) m ≫= fun r => Some (snd r)).

Definition jsonEqual (a b : json) : bool := String.eqb (print a) (print b).

(** The order of the keys is the map's; here the sorted one. *)
Definition ChangedKeysFromState (stateBefore stateAfter : string) : list string :=
  match state_map stateAfter with
  | None => []
  | Some after =>
      map fst (filter (fun kv =>
        jsonEqual (default JNull (field_of kv.1 (default [] (state_map stateBefore)))) kv.2 = false) after)
  end.

Definition extractStateKeys (before after : string) : list string * list string :=
  let b := default [] (state_map before) in
  let a := default [] (state_map after) in
  (map fst b,
   map fst (filter (fun kv => match field_of kv.1 b with
                              | None => true
                              | Some v => negb (jsonEqual v kv.2)
                              end = true) a)).

(** ** Key order does not matter *)

Lemma ltb_leb a b : String.ltb a b = negb (String.leb b a).
Proof.
  unfold String.ltb, String.leb. rewrite String.compare_antisym.
  by destruct (String.compare b a).
Qed.

Lemma leb_trans a b c : String.leb a b = true -> String.leb b c = true -> String.leb a c = true.
Proof.
  intros H1 H2. apply Is_true_true. transitivity b; by apply Is_true_true.
Qed.

Lemma leb_total a b : String.leb a b = false -> String.leb b a = true.
Proof. destruct (String.leb_total a b); congruence. Qed.

Lemma ltb_trans a b c : String.ltb a b = true -> String.ltb b c = true -> String.ltb a c = true.
Proof.
  rewrite !ltb_leb, !negb_true_iff. intros H1 H2. apply not_true_is_false. intros H3.
  apply leb_total in H1. pose proof (leb_trans _ _ _ H3 H1). congruence.
Qed.

Lemma ltb_asym a b : String.ltb a b = true -> String.ltb b a = false.
Proof. rewrite !ltb_leb, negb_true_iff, negb_false_iff. apply leb_total. Qed.

(** Two keys are ordered or equal. *)
Lemma ltb_cases a b : {String.ltb a b = true} + {a = b} + {String.ltb b a = true}.
Proof.
  destruct (String.ltb a b) eqn:H1; [by left; left|].
  destruct (String.ltb b a) eqn:H2; [by right|]. left. right.
  rewrite ltb_leb, negb_false_iff in H1, H2. by apply String.leb_antisym.
Qed.

Lemma ltb_irrefl a : String.ltb a a = false.
Proof. destruct (String.ltb a a) eqn:H; [|done]. by rewrite (ltb_asym _ _ H) in H. Qed.

Lemma ltb_ne a b : String.ltb a b = true -> String.eqb b a = false.
Proof. intros H. apply String.eqb_neq. intros ->. by rewrite ltb_irrefl in H. Qed.

Lemma insert_field_comm {A} k1 (v1 : A) k2 v2 l :
  String.ltb k1 k2 = true ->
  insert_field k1 v1 (insert_field k2 v2 l) = insert_field k2 v2 (insert_field k1 v1 l).
Proof.
  intros H12. pose proof (ltb_asym _ _ H12) as H21. pose proof (ltb_ne _ _ H12) as Hn.
  induction l as [|[h x] l IH]; cbn [insert_field].
  { cbn [insert_field]. by rewrite H12, H21, Hn. }
  destruct (ltb_cases k2 h) as [[H2h|<-]|Hh2].
  - pose proof (ltb_trans _ _ _ H12 H2h) as H1h. rewrite H2h, H1h. cbn [insert_field].
    by rewrite H12, H21, Hn, H2h.
  - rewrite ltb_irrefl, String.eqb_refl, H12. cbn [insert_field].
    by rewrite H12, H21, Hn, ltb_irrefl, String.eqb_refl.
  - rewrite (ltb_asym _ _ Hh2), (ltb_ne _ _ Hh2).
    destruct (ltb_cases k1 h) as [[H1h|<-]|Hh1]; cbn [insert_field].
    + rewrite H1h. cbn [insert_field]. by rewrite H21, Hn, (ltb_asym _ _ Hh2), (ltb_ne _ _ Hh2).
    + rewrite ltb_irrefl, String.eqb_refl. cbn [insert_field]. by rewrite H21, Hn.
    + rewrite (ltb_asym _ _ Hh1), (ltb_ne _ _ Hh1). cbn [insert_field].
      by rewrite (ltb_asym _ _ Hh2), (ltb_ne _ _ Hh2), IH.
Qed.

Lemma foldl_insert_cons {A} (l : list (string * A)) k v acc :
  k ∉ map fst l ->
  foldl (fun acc kv => insert_field (fst kv) (snd kv) acc) (insert_field k v acc) l
  = insert_field k v (foldl (fun acc kv => insert_field (fst kv) (snd kv) acc) acc l).
Proof.
  revert acc. induction l as [|[k' v'] l IH]; intros acc Hk; cbn; [done|].
  cbn in Hk. apply not_elem_of_cons in Hk as [Hne Hk]. rewrite <- IH by done. f_equal.
  destruct (ltb_cases k k') as [[H|H]|H]; [|done|];
    [symmetry|]; by rewrite insert_field_comm.
Qed.

Lemma sort_fields_perm {A} (l1 l2 : list (string * A)) :
  NoDup (map fst l1) -> l1 ≡ₚ l2 -> sort_fields l1 = sort_fields l2.
Proof.
  unfold sort_fields. generalize ([] : list (string * A)) as acc. intros acc Hn Hp. revert acc.
  induction Hp as [|[k v] l1 l2 Hp IH|[k1 v1] [k2 v2] l|l1 l2 l3 Hp1 IH1 Hp2 IH2]; intros acc; cbn in *.
  - done.
  - apply NoDup_cons in Hn as [_ Hn]. auto.
  - apply NoDup_cons in Hn as [Hk _]. f_equal. apply not_elem_of_cons in Hk as [Hne _].
    destruct (ltb_cases k1 k2) as [[H|H]|H]; [|done|];
      [|symmetry]; by rewrite insert_field_comm.
  - rewrite IH1 by done. apply IH2. by rewrite <- Hp1.
Qed.

Lemma canonical_args_perm args args' :
  NoDup (map fst args) -> args ≡ₚ args' -> canonical_args args = canonical_args args'.
Proof.
  intros Hn Hp. unfold canonical_args. destruct args as [|a args].
  { by apply Permutation_nil_l in Hp as ->. }
  destruct args' as [|a' args']; [by apply Permutation_nil_r in Hp|].
  unfold canonical. cbn [print]. f_equal. apply sort_fields_perm.
  - rewrite !map_map. by erewrite map_ext; [exact Hn|]; intros [].
  - by do 2 apply Permutation_map.
Qed.

Definition nul_free (s : string) : bool := negb (str_in nul s).

Lemma key_preimage_inj j1 n1 t1 a1 j2 n2 t2 a2 :
  nul_free j1 && nul_free n1 && nul_free t1 = true -> nul_free j2 && nul_free n2 && nul_free t2 = true ->
  key_preimage j1 n1 t1 a1 = key_preimage j2 n2 t2 a2 ->
  j1 = j2 /\ n1 = n2 /\ t1 = t2 /\
  match a1 with [] => EmptyString | _ => canonical_args a1 end
  = match a2 with [] => EmptyString | _ => canonical_args a2 end.
Proof.
  unfold nul_free, key_preimage. intros H1 H2 He. bool_hyps.
  apply first_sep_inj in He as [-> He]; [|done..].
  apply first_sep_inj in He as [-> He]; [|done..].
  by apply first_sep_inj in He as [-> He].
Qed.

(** An empty object inside the arguments is keyed like a null. *)
Lemma nested_empty_object_is_null j n t :
  IdempotencyKey j n t [("a", JObj [])] = IdempotencyKey j n t [("a", JNull)].
Proof. reflexivity. Qed.

(** The idempotency key identifies the call: it does not depend on the
    order in which the argument map is visited, and two calls with the same
    key have the same job, node and tool and the same canonical arguments,
    unless they exhibit a SHA-256 collision. *)
Theorem IdempotencyKey_identifies j1 n1 t1 a1 j2 n2 t2 a2 :
  NoDup (map fst a1) ->
  nul_free j1 && nul_free n1 && nul_free t1 = true -> nul_free j2 && nul_free n2 && nul_free t2 = true ->
  (a1 ≡ₚ a2 -> IdempotencyKey j1 n1 t1 a1 = IdempotencyKey j1 n1 t1 a2) /\
  (IdempotencyKey j1 n1 t1 a1 = IdempotencyKey j2 n2 t2 a2 ->
   (j1 = j2 /\ n1 = n2 /\ t1 = t2 /\
    match a1 with [] => EmptyString | _ => canonical_args a1 end
    = match a2 with [] => EmptyString | _ => canonical_args a2 end) \/
   (key_preimage j1 n1 t1 a1 <> key_preimage j2 n2 t2 a2 /\
    hex_sha256 (key_preimage j1 n1 t1 a1) = hex_sha256 (key_preimage j2 n2 t2 a2))).
Proof.
  intros Hn Hf1 Hf2. split.
  - intros Hp. unfold IdempotencyKey, key_preimage. do 7 f_equal.
    pose proof (canonical_args_perm _ _ Hn Hp).
    destruct a1, a2; [done|by apply Permutation_nil_cons in Hp| |done].
    by apply Permutation_sym, Permutation_nil_cons in Hp.
  - intros He. destruct (decide (key_preimage j1 n1 t1 a1 = key_preimage j2 n2 t2 a2)) as [Hd|Hd].
    + left. by apply key_preimage_inj.
    + right. by split.
Qed.

(** The effect journal returns what was put: after [PutEffect] both keys
    of the record find it, stamped with the current time, and a lookup by
    idempotency key of another call (with NUL-free ids) is unaffected. *)
Theorem effect_journal_roundtrip now r s :
  ef_JobID r <> EmptyString -> nul_free (ef_JobID r) = true -> nul_free (ef_IdempotencyKey r) = true ->
  let c := mkEffect (ef_JobID r) (ef_CommandID r) (ef_IdempotencyKey r) (ef_Kind r) (ef_Input r)
             (ef_Output r) (ef_Error r) (ef_Metadata r) (t_utc now) in
  (ef_IdempotencyKey r <> EmptyString ->
   GetEffectByJobAndIdempotencyKey (ef_JobID r) (ef_IdempotencyKey r) (PutEffect now r s) = Some c) /\
  (ef_CommandID r <> EmptyString ->
   GetEffectByJobAndCommandID (ef_JobID r) (ef_CommandID r) (PutEffect now r s) = Some c) /\
  (forall job key, nul_free job = true -> nul_free key = true ->
   (job, key) <> (ef_JobID r, ef_IdempotencyKey r) ->
   GetEffectByJobAndIdempotencyKey job key (PutEffect now r s) = GetEffectByJobAndIdempotencyKey job key s).
Proof.
  intros Hj Hjf Hkf. cbn zeta. unfold nul_free in *. apply negb_true_iff in Hjf, Hkf.
  unfold GetEffectByJobAndIdempotencyKey, GetEffectByJobAndCommandID, PutEffect.
  rewrite (proj2 (String.eqb_neq _ _) Hj). cbn [orb es_byKey]. split_and!.
  - intros Hk. rewrite (proj2 (String.eqb_neq _ _) Hk).
    destruct (String.eqb (ef_CommandID r) EmptyString); [by rewrite lookup_insert_eq|].
    rewrite lookup_insert_ne; [by rewrite lookup_insert_eq|]. unfold keyID, keyCmd. intros Heq.
    apply str_app_inj_l in Heq. injection Heq as Heq. apply (f_equal (str_in nul)) in Heq.
    rewrite Hkf in Heq. simpl in Heq. discriminate.
  - intros Hc. rewrite (proj2 (String.eqb_neq _ _) Hc). by rewrite lookup_insert_eq.
  - intros job key Hjn Hkn Hne. apply negb_true_iff in Hjn, Hkn. case_match eqn:Hem; [done|].
    assert (Hid : keyID (ef_JobID r) (ef_IdempotencyKey r) <> keyID job key).
    { unfold keyID. intros Heq. apply first_sep_inj in Heq as [H1 H2]; [congruence|done..]. }
    assert (Hcmd : keyCmd (ef_JobID r) (ef_CommandID r) <> keyID job key).
    { unfold keyID, keyCmd. intros Heq. apply first_sep_inj in Heq as [_ Heq]; [|done..].
      apply (f_equal (str_in nul)) in Heq. rewrite Hkn in Heq. simpl in Heq. discriminate. }
    destruct (String.eqb (ef_CommandID r) EmptyString), (String.eqb (ef_IdempotencyKey r) EmptyString);
      by rewrite ?lookup_insert_ne by done.
Qed.

(** ** Witnesses *)

Lemma IdempotencyKey_identifies_witness :
  IdempotencyKey "j" "n" "t" [("a", JNull); ("b", JBool true)]
  = IdempotencyKey "j" "n" "t" [("b", JBool true); ("a", JNull)].
Proof.
  refine (proj1 (IdempotencyKey_identifies "j" "n" "t" [("a", JNull); ("b", JBool true)] "j" "n" "t"
    [("b", JBool true); ("a", JNull)] _ eq_refl eq_refl) _).
  - apply (bool_decide_unpack _). vm_compute. exact I.
  - apply perm_swap.
Defined.

Lemma effect_journal_roundtrip_witness :
  exists c, GetEffectByJobAndIdempotencyKey "j" "k" (PutEffect (Time 5 0)
    (mkEffect "j" "c" "k" "tool" EmptyString "{}" EmptyString [] zero_time) NewEffectStoreMem) = Some c.
Proof.
  eexists. refine (proj1 (effect_journal_roundtrip (Time 5 0)
    (mkEffect "j" "c" "k" "tool" EmptyString "{}" EmptyString [] zero_time) NewEffectStoreMem
    _ eq_refl eq_refl) _); discriminate.
Defined.
