(* ===== verification/Replay.v ===== *)
(** internal/agent/replay/replay.go: the execution context rebuilt from the
    event stream of a job, from the start or from a snapshot and the events
    after it, and the snapshot's encoding.

    Byte slices are strings, [nil] being the empty one.  A Go map that can be
    [nil] is an option: writing to a nil map panics.  A struct member that
    occurs twice with an array is decoded from scratch the second time. *)

From S2P Require Import Prelude GoTime Json Events MemStore.

(** ** The context (replay.go:26-95) *)

Record StateChangeRecord := mkChange {
  sc_ResourceType : string; sc_ResourceID : string; sc_Operation : string; sc_StepID : string;
  sc_ToolName : string; sc_Version : string; sc_Etag : string; sc_ExternalRef : string;
}.

#[export] Instance change_eq_dec : EqDecision StateChangeRecord.
Proof. solve_decision. Defined.

Inductive ExecutionPhase :=
| PhaseUnknown | PhasePlanning | PhaseExecuting | PhaseCompleted | PhaseFailed | PhaseCancelled | PhaseWaiting.

Record ReplayContext := mkRC {
  rc_TaskGraphState : string;
  rc_CursorNode : string;
  rc_PayloadResults : string;
  rc_CompletedNodeIDs : gset string;
  rc_PayloadResultsByNode : gmap string string;
  rc_CompletedCommandIDs : gset string;
  rc_CommandResults : gmap string string;
  rc_CompletedToolInvocations : gmap string string;
  rc_PendingToolInvocations : gset string;
  rc_StateChangesByStep : gmap string (list StateChangeRecord);
  rc_ApprovedCorrelationKeys : gset string;
  rc_WorkingMemorySnapshot : string;
  rc_PendingWaitNode : string;
  rc_Phase : ExecutionPhase;
  rc_RecordedTime : option (gmap string Z);
  rc_RecordedRandom : gmap string string;
  rc_RecordedUUID : option (gmap string string);
  rc_RecordedHTTP : gmap string string;
}.

Definition set_rc_TaskGraphState (v : string) (r : ReplayContext) : ReplayContext :=
  mkRC v (rc_CursorNode r) (rc_PayloadResults r) (rc_CompletedNodeIDs r)
    (rc_PayloadResultsByNode r) (rc_CompletedCommandIDs r) (rc_CommandResults r)
    (rc_CompletedToolInvocations r) (rc_PendingToolInvocations r) (rc_StateChangesByStep r)
    (rc_ApprovedCorrelationKeys r) (rc_WorkingMemorySnapshot r) (rc_PendingWaitNode r)
    (rc_Phase r) (rc_RecordedTime r) (rc_RecordedRandom r) (rc_RecordedUUID r)
    (rc_RecordedHTTP r).
Definition set_rc_CursorNode (v : string) (r : ReplayContext) : ReplayContext :=
  mkRC (rc_TaskGraphState r) v (rc_PayloadResults r) (rc_CompletedNodeIDs r)
    (rc_PayloadResultsByNode r) (rc_CompletedCommandIDs r) (rc_CommandResults r)
    (rc_CompletedToolInvocations r) (rc_PendingToolInvocations r) (rc_StateChangesByStep r)
    (rc_ApprovedCorrelationKeys r) (rc_WorkingMemorySnapshot r) (rc_PendingWaitNode r)
    (rc_Phase r) (rc_RecordedTime r) (rc_RecordedRandom r) (rc_RecordedUUID r)
    (rc_RecordedHTTP r).
Definition set_rc_PayloadResults (v : string) (r : ReplayContext) : ReplayContext :=
  mkRC (rc_TaskGraphState r) (rc_CursorNode r) v (rc_CompletedNodeIDs r)
    (rc_PayloadResultsByNode r) (rc_CompletedCommandIDs r) (rc_CommandResults r)
    (rc_CompletedToolInvocations r) (rc_PendingToolInvocations r) (rc_StateChangesByStep r)
    (rc_ApprovedCorrelationKeys r) (rc_WorkingMemorySnapshot r) (rc_PendingWaitNode r)
    (rc_Phase r) (rc_RecordedTime r) (rc_RecordedRandom r) (rc_RecordedUUID r)
    (rc_RecordedHTTP r).
Definition set_rc_CompletedNodeIDs (v : gset string) (r : ReplayContext) : ReplayContext :=
  mkRC (rc_TaskGraphState r) (rc_CursorNode r) (rc_PayloadResults r) v
    (rc_PayloadResultsByNode r) (rc_CompletedCommandIDs r) (rc_CommandResults r)
    (rc_CompletedToolInvocations r) (rc_PendingToolInvocations r) (rc_StateChangesByStep r)
    (rc_ApprovedCorrelationKeys r) (rc_WorkingMemorySnapshot r) (rc_PendingWaitNode r)
    (rc_Phase r) (rc_RecordedTime r) (rc_RecordedRandom r) (rc_RecordedUUID r)
    (rc_RecordedHTTP r).
Definition set_rc_PayloadResultsByNode (v : gmap string string) (r : ReplayContext) : ReplayContext :=
  mkRC (rc_TaskGraphState r) (rc_CursorNode r) (rc_PayloadResults r) (rc_CompletedNodeIDs r) v
    (rc_CompletedCommandIDs r) (rc_CommandResults r) (rc_CompletedToolInvocations r)
    (rc_PendingToolInvocations r) (rc_StateChangesByStep r) (rc_ApprovedCorrelationKeys r)
    (rc_WorkingMemorySnapshot r) (rc_PendingWaitNode r) (rc_Phase r) (rc_RecordedTime r)
    (rc_RecordedRandom r) (rc_RecordedUUID r) (rc_RecordedHTTP r).
Definition set_rc_CompletedCommandIDs (v : gset string) (r : ReplayContext) : ReplayContext :=
  mkRC (rc_TaskGraphState r) (rc_CursorNode r) (rc_PayloadResults r) (rc_CompletedNodeIDs r)
    (rc_PayloadResultsByNode r) v (rc_CommandResults r) (rc_CompletedToolInvocations r)
    (rc_PendingToolInvocations r) (rc_StateChangesByStep r) (rc_ApprovedCorrelationKeys r)
    (rc_WorkingMemorySnapshot r) (rc_PendingWaitNode r) (rc_Phase r) (rc_RecordedTime r)
    (rc_RecordedRandom r) (rc_RecordedUUID r) (rc_RecordedHTTP r).
Definition set_rc_CommandResults (v : gmap string string) (r : ReplayContext) : ReplayContext :=
  mkRC (rc_TaskGraphState r) (rc_CursorNode r) (rc_PayloadResults r) (rc_CompletedNodeIDs r)
    (rc_PayloadResultsByNode r) (rc_CompletedCommandIDs r) v (rc_CompletedToolInvocations r)
    (rc_PendingToolInvocations r) (rc_StateChangesByStep r) (rc_ApprovedCorrelationKeys r)
    (rc_WorkingMemorySnapshot r) (rc_PendingWaitNode r) (rc_Phase r) (rc_RecordedTime r)
    (rc_RecordedRandom r) (rc_RecordedUUID r) (rc_RecordedHTTP r).
Definition set_rc_CompletedToolInvocations (v : gmap string string) (r : ReplayContext) : ReplayContext :=
  mkRC (rc_TaskGraphState r) (rc_CursorNode r) (rc_PayloadResults r) (rc_CompletedNodeIDs r)
    (rc_PayloadResultsByNode r) (rc_CompletedCommandIDs r) (rc_CommandResults r) v
    (rc_PendingToolInvocations r) (rc_StateChangesByStep r) (rc_ApprovedCorrelationKeys r)
    (rc_WorkingMemorySnapshot r) (rc_PendingWaitNode r) (rc_Phase r) (rc_RecordedTime r)
    (rc_RecordedRandom r) (rc_RecordedUUID r) (rc_RecordedHTTP r).
Definition set_rc_PendingToolInvocations (v : gset string) (r : ReplayContext) : ReplayContext :=
  mkRC (rc_TaskGraphState r) (rc_CursorNode r) (rc_PayloadResults r) (rc_CompletedNodeIDs r)
    (rc_PayloadResultsByNode r) (rc_CompletedCommandIDs r) (rc_CommandResults r)
    (rc_CompletedToolInvocations r) v (rc_StateChangesByStep r) (rc_ApprovedCorrelationKeys r)
    (rc_WorkingMemorySnapshot r) (rc_PendingWaitNode r) (rc_Phase r) (rc_RecordedTime r)
    (rc_RecordedRandom r) (rc_RecordedUUID r) (rc_RecordedHTTP r).
Definition set_rc_StateChangesByStep (v : gmap string (list StateChangeRecord)) (r : ReplayContext) : ReplayContext :=
  mkRC (rc_TaskGraphState r) (rc_CursorNode r) (rc_PayloadResults r) (rc_CompletedNodeIDs r)
    (rc_PayloadResultsByNode r) (rc_CompletedCommandIDs r) (rc_CommandResults r)
    (rc_CompletedToolInvocations r) (rc_PendingToolInvocations r) v
    (rc_ApprovedCorrelationKeys r) (rc_WorkingMemorySnapshot r) (rc_PendingWaitNode r)
    (rc_Phase r) (rc_RecordedTime r) (rc_RecordedRandom r) (rc_RecordedUUID r)
    (rc_RecordedHTTP r).
Definition set_rc_ApprovedCorrelationKeys (v : gset string) (r : ReplayContext) : ReplayContext :=
  mkRC (rc_TaskGraphState r) (rc_CursorNode r) (rc_PayloadResults r) (rc_CompletedNodeIDs r)
    (rc_PayloadResultsByNode r) (rc_CompletedCommandIDs r) (rc_CommandResults r)
    (rc_CompletedToolInvocations r) (rc_PendingToolInvocations r) (rc_StateChangesByStep r) v
    (rc_WorkingMemorySnapshot r) (rc_PendingWaitNode r) (rc_Phase r) (rc_RecordedTime r)
    (rc_RecordedRandom r) (rc_RecordedUUID r) (rc_RecordedHTTP r).
Definition set_rc_WorkingMemorySnapshot (v : string) (r : ReplayContext) : ReplayContext :=
  mkRC (rc_TaskGraphState r) (rc_CursorNode r) (rc_PayloadResults r) (rc_CompletedNodeIDs r)
    (rc_PayloadResultsByNode r) (rc_CompletedCommandIDs r) (rc_CommandResults r)
    (rc_CompletedToolInvocations r) (rc_PendingToolInvocations r) (rc_StateChangesByStep r)
    (rc_ApprovedCorrelationKeys r) v (rc_PendingWaitNode r) (rc_Phase r) (rc_RecordedTime r)
    (rc_RecordedRandom r) (rc_RecordedUUID r) (rc_RecordedHTTP r).
Definition set_rc_PendingWaitNode (v : string) (r : ReplayContext) : ReplayContext :=
  mkRC (rc_TaskGraphState r) (rc_CursorNode r) (rc_PayloadResults r) (rc_CompletedNodeIDs r)
    (rc_PayloadResultsByNode r) (rc_CompletedCommandIDs r) (rc_CommandResults r)
    (rc_CompletedToolInvocations r) (rc_PendingToolInvocations r) (rc_StateChangesByStep r)
    (rc_ApprovedCorrelationKeys r) (rc_WorkingMemorySnapshot r) v (rc_Phase r)
    (rc_RecordedTime r) (rc_RecordedRandom r) (rc_RecordedUUID r) (rc_RecordedHTTP r).
Definition set_rc_Phase (v : ExecutionPhase) (r : ReplayContext) : ReplayContext :=
  mkRC (rc_TaskGraphState r) (rc_CursorNode r) (rc_PayloadResults r) (rc_CompletedNodeIDs r)
    (rc_PayloadResultsByNode r) (rc_CompletedCommandIDs r) (rc_CommandResults r)
    (rc_CompletedToolInvocations r) (rc_PendingToolInvocations r) (rc_StateChangesByStep r)
    (rc_ApprovedCorrelationKeys r) (rc_WorkingMemorySnapshot r) (rc_PendingWaitNode r) v
    (rc_RecordedTime r) (rc_RecordedRandom r) (rc_RecordedUUID r) (rc_RecordedHTTP r).
Definition set_rc_RecordedTime (v : option (gmap string Z)) (r : ReplayContext) : ReplayContext :=
  mkRC (rc_TaskGraphState r) (rc_CursorNode r) (rc_PayloadResults r) (rc_CompletedNodeIDs r)
    (rc_PayloadResultsByNode r) (rc_CompletedCommandIDs r) (rc_CommandResults r)
    (rc_CompletedToolInvocations r) (rc_PendingToolInvocations r) (rc_StateChangesByStep r)
    (rc_ApprovedCorrelationKeys r) (rc_WorkingMemorySnapshot r) (rc_PendingWaitNode r)
    (rc_Phase r) v (rc_RecordedRandom r) (rc_RecordedUUID r) (rc_RecordedHTTP r).
Definition set_rc_RecordedRandom (v : gmap string string) (r : ReplayContext) : ReplayContext :=
  mkRC (rc_TaskGraphState r) (rc_CursorNode r) (rc_PayloadResults r) (rc_CompletedNodeIDs r)
    (rc_PayloadResultsByNode r) (rc_CompletedCommandIDs r) (rc_CommandResults r)
    (rc_CompletedToolInvocations r) (rc_PendingToolInvocations r) (rc_StateChangesByStep r)
    (rc_ApprovedCorrelationKeys r) (rc_WorkingMemorySnapshot r) (rc_PendingWaitNode r)
    (rc_Phase r) (rc_RecordedTime r) v (rc_RecordedUUID r) (rc_RecordedHTTP r).
Definition set_rc_RecordedUUID (v : option (gmap string string)) (r : ReplayContext) : ReplayContext :=
  mkRC (rc_TaskGraphState r) (rc_CursorNode r) (rc_PayloadResults r) (rc_CompletedNodeIDs r)
    (rc_PayloadResultsByNode r) (rc_CompletedCommandIDs r) (rc_CommandResults r)
    (rc_CompletedToolInvocations r) (rc_PendingToolInvocations r) (rc_StateChangesByStep r)
    (rc_ApprovedCorrelationKeys r) (rc_WorkingMemorySnapshot r) (rc_PendingWaitNode r)
    (rc_Phase r) (rc_RecordedTime r) (rc_RecordedRandom r) v (rc_RecordedHTTP r).
Definition set_rc_RecordedHTTP (v : gmap string string) (r : ReplayContext) : ReplayContext :=
  mkRC (rc_TaskGraphState r) (rc_CursorNode r) (rc_PayloadResults r) (rc_CompletedNodeIDs r)
    (rc_PayloadResultsByNode r) (rc_CompletedCommandIDs r) (rc_CommandResults r)
    (rc_CompletedToolInvocations r) (rc_PendingToolInvocations r) (rc_StateChangesByStep r)
    (rc_ApprovedCorrelationKeys r) (rc_WorkingMemorySnapshot r) (rc_PendingWaitNode r)
    (rc_Phase r) (rc_RecordedTime r) (rc_RecordedRandom r) (rc_RecordedUUID r) v.

Definition empty_context : ReplayContext :=
  mkRC EmptyString EmptyString EmptyString ∅ ∅ ∅ ∅ ∅ ∅ ∅ ∅ EmptyString EmptyString PhaseUnknown
    (Some ∅) ∅ (Some ∅) ∅.

(** ** Decoding payloads

    [json.Unmarshal(e.Payload, &pl)] for a struct: the members, or [None]
    when an error is reported before any field matters. *)
Definition payload_members (payload : string) : option (list member) :=
  match unmarshal_doc payload with
  | DocObject ms => Some ms
  | DocNull => Some []
  | DocOther | DocSyntaxError => None
  end.

Definition as_members (l : list (string * json)) : list member := map (fun kv => (kv.1, (EmptyString, kv.2))) l.

(** One element of [state_changes] and whether its types were right. *)
Definition dec_change (v : json) : StateChangeRecord * bool :=
  match v with
  | JObj l =>
      let f name := dec_str name (as_members l) in
      (mkChange (fst (f "resource_type")) (fst (f "resource_id")) (fst (f "operation")) (fst (f "step_id"))
         (fst (f "tool_name")) (fst (f "version")) (fst (f "etag")) (fst (f "external_ref")),
       snd (f "resource_type") || snd (f "resource_id") || snd (f "operation") || snd (f "step_id")
       || snd (f "tool_name") || snd (f "version") || snd (f "etag") || snd (f "external_ref"))
  | JNull => (mkChange EmptyString EmptyString EmptyString EmptyString EmptyString EmptyString
                EmptyString EmptyString, false)
  | _ => (mkChange EmptyString EmptyString EmptyString EmptyString EmptyString EmptyString
            EmptyString EmptyString, true)
  end.

Definition dec_change_list (v : json) : list StateChangeRecord * bool :=
  match v with
  | JArr l => (map (fun x => fst (dec_change x)) l, existsb (fun x => snd (dec_change x)) l)
  | JNull => ([], false)
  | _ => ([], true)
  end.

Definition dec_changes (name : string) (ms : list member) : list StateChangeRecord * bool :=
  foldl (fun acc m => match snd (snd m) with
                      | JNull => ([], snd acc)
                      | JArr _ => (fst (dec_change_list (snd (snd m))),
                                   snd acc || snd (dec_change_list (snd (snd m))))
                      | _ => (fst acc, true)
                      end) ([], false) (named name ms).

(** ** The handlers, one per case of the switch (replay.go:141-324, 509-689) *)

Definition on_tool_started (payload : string) (rc : ReplayContext) : ReplayContext :=
  match payload_members payload with
  | None => rc
  | Some ms =>
      let '(key, err) := dec_str "idempotency_key" ms in
      if err || String.eqb key EmptyString then rc
      else set_rc_PendingToolInvocations ({[key]} ∪ rc_PendingToolInvocations rc) rc
  end.

Definition on_plan (payload : string) (rc : ReplayContext) : ReplayContext :=
  match payload_members payload with
  | None => rc
  | Some ms =>
      match dec_raw "task_graph" ms with
      | EmptyString => rc
      | g => set_rc_TaskGraphState g rc
      end
  end.

Definition advances (result_type : string) : bool :=
  existsb (String.eqb result_type) [EmptyString; "success"; "pure"; "side_effect_committed"; "compensated"].

Definition on_node_finished (payload : string) (rc : ReplayContext) : ReplayContext :=
  match payload_members payload with
  | None => rc
  | Some ms =>
      let '(node, e1) := dec_str "node_id" ms in
      let '(stp, e2) := dec_str "step_id" ms in
      let results := dec_raw "payload_results" ms in
      let '(result_type, e3) := dec_str "result_type" ms in
      if e1 || e2 || e3 then rc
      else if negb (advances result_type) then rc
      else
        let completedKey := if String.eqb stp EmptyString then node else stp in
        let rc := set_rc_CursorNode node
                    (set_rc_CompletedNodeIDs ({[completedKey]} ∪ rc_CompletedNodeIDs rc) rc) in
        match results with
        | EmptyString => rc
        | _ => set_rc_PayloadResultsByNode (<[node := results]> (rc_PayloadResultsByNode rc))
                 (set_rc_PayloadResults results rc)
        end
  end.

Definition on_command_committed (payload : string) (rc : ReplayContext) : ReplayContext :=
  match payload_members payload with
  | None => rc
  | Some ms =>
      let '(node, e1) := dec_str "node_id" ms in
      let '(cmd, e2) := dec_str "command_id" ms in
      let res := dec_raw "result" ms in
      if e1 || e2 then rc
      else
        let cmdID := if String.eqb cmd EmptyString then node else cmd in
        let rc := set_rc_CompletedCommandIDs ({[cmdID]} ∪ rc_CompletedCommandIDs rc) rc in
        match res with
        | EmptyString => rc
        | _ => set_rc_CommandResults (<[cmdID := res]> (rc_CommandResults rc)) rc
        end
  end.

Definition on_tool_finished (payload : string) (rc : ReplayContext) : ReplayContext :=
  match payload_members payload with
  | None => rc
  | Some ms =>
      let '(key, e1) := dec_str "idempotency_key" ms in
      let '(out, e2) := dec_str "outcome" ms in
      let res := dec_raw "result" ms in
      if e1 || e2 then rc
      else
        let rc := if String.eqb key EmptyString then rc
                  else set_rc_PendingToolInvocations (rc_PendingToolInvocations rc ∖ {[key]}) rc in
        if negb (String.eqb out "success") || String.eqb key EmptyString then rc
        else set_rc_CompletedToolInvocations
               (<[key := match res with EmptyString => "{}" | _ => res end]> (rc_CompletedToolInvocations rc)) rc
  end.

Definition on_state_changed (payload : string) (rc : ReplayContext) : ReplayContext :=
  match payload_members payload with
  | None => rc
  | Some ms =>
      let '(node, e1) := dec_str "node_id" ms in
      let '(changes, e2) := dec_changes "state_changes" ms in
      if e1 || e2 then rc
      else if String.eqb node EmptyString then rc
      else match changes with
           | [] => rc
           | _ => set_rc_StateChangesByStep
                    (<[node := get_default [] (rc_StateChangesByStep rc) node ++ changes]>
                       (rc_StateChangesByStep rc)) rc
           end
  end.

(** The working memory of a resumption context: a string as it is, another
    value printed, nothing for [null]. *)
Definition working_memory (resumption : list (string * json)) : option string :=
  match lookup_field "memory_snapshot" resumption with
  | Some (JObj ms) =>
      match lookup_field "working_memory" ms with
      | None | Some JNull => None
      | Some (JStr s) => Some s
      | Some v => Some (print v)
      end
  | _ => None
  end.

Definition on_job_waiting (payload : string) (rc : ReplayContext) : ReplayContext :=
  let '(p, err) := ParseJobWaitingPayload payload in
  if err then rc
  else match jw_ResumptionContext p with
       | EmptyString => rc
       | ctx =>
           let rc := if String.eqb (jw_NodeID p) EmptyString then rc
                     else set_rc_PendingWaitNode (jw_NodeID p) rc in
           match unmarshal ctx with
           | Some (JObj l) => match working_memory l with
                              | Some wm => set_rc_WorkingMemorySnapshot wm rc
                              | None => rc
                              end
           | _ => rc
           end
       end.

Definition on_wait_completed (payload : string) (rc : ReplayContext) : ReplayContext :=
  match payload_members payload with
  | None => rc
  | Some ms =>
      let '(node, e1) := dec_str "node_id" ms in
      let pl := dec_raw "payload" ms in
      let '(corr, e2) := dec_str "correlation_key" ms in
      if e1 || e2 || String.eqb node EmptyString then rc
      else
        let rc := set_rc_CompletedNodeIDs ({[node]} ∪ rc_CompletedNodeIDs rc) rc in
        let rc := set_rc_CursorNode node rc in
        let rc := set_rc_CompletedCommandIDs ({[node]} ∪ rc_CompletedCommandIDs rc) rc in
        let rc := set_rc_PendingWaitNode EmptyString rc in
        let rc := if String.eqb corr EmptyString then rc
                  else set_rc_ApprovedCorrelationKeys ({[corr]} ∪ rc_ApprovedCorrelationKeys rc) rc in
        set_rc_CommandResults
          (<[node := match pl with EmptyString => "{}" | _ => pl end]> (rc_CommandResults rc)) rc
  end.

(** [m[k] = v] on a map that may be nil. *)
Definition map_write {V} (k : string) (v : V) (m : option (gmap string V)) : outcome (option (gmap string V)) :=
  match m with
  | Some m => Ret (Some (<[k := v]> m))
  | None => Panic "assignment to entry in nil map"
  end.

Definition on_timer_fired (payload : string) (rc : ReplayContext) : outcome ReplayContext :=
  match payload_members payload with
  | None => Ret rc
  | Some ms =>
      let '(id, e1) := dec_str "effect_id" ms in
      let '(n, e2) := dec_int "unix_nano" ms in
      if e1 || e2 || String.eqb id EmptyString then Ret rc
      else run m <- map_write id n (rc_RecordedTime rc) ;; Ret (set_rc_RecordedTime m rc)
  end.

Definition on_random (payload : string) (rc : ReplayContext) : ReplayContext :=
  match payload_members payload with
  | None => rc
  | Some ms =>
      let '(id, e1) := dec_str "effect_id" ms in
      if e1 || String.eqb id EmptyString then rc
      else set_rc_RecordedRandom (<[id := dec_raw "values" ms]> (rc_RecordedRandom rc)) rc
  end.

Definition on_uuid (payload : string) (rc : ReplayContext) : outcome ReplayContext :=
  match payload_members payload with
  | None => Ret rc
  | Some ms =>
      let '(id, e1) := dec_str "effect_id" ms in
      let '(u, e2) := dec_str "uuid" ms in
      if e1 || e2 || String.eqb id EmptyString then Ret rc
      else run m <- map_write id u (rc_RecordedUUID rc) ;; Ret (set_rc_RecordedUUID m rc)
  end.

Definition on_http (payload : string) (rc : ReplayContext) : ReplayContext :=
  match payload_members payload with
  | None => rc
  | Some ms =>
      let '(id, e1) := dec_str "effect_id" ms in
      if e1 || String.eqb id EmptyString then rc
      else set_rc_RecordedHTTP (<[id := dec_raw "response" ms]> (rc_RecordedHTTP rc)) rc
  end.

Definition apply_event (e : JobEvent) (rc : ReplayContext) : outcome ReplayContext :=
  let p := ev_Payload e in
  match ev_Type e with
  | ToolInvocationStarted => Ret (on_tool_started p rc)
  | PlanGenerated => Ret (on_plan p rc)
  | NodeFinished => Ret (on_node_finished p rc)
  | CommandCommitted => Ret (on_command_committed p rc)
  | ToolInvocationFinished => Ret (on_tool_finished p rc)
  | StateChanged => Ret (on_state_changed p rc)
  | JobWaiting => Ret (on_job_waiting p rc)
  | WaitCompleted => Ret (on_wait_completed p rc)
  | TimerFired => on_timer_fired p rc
  | RandomRecorded => Ret (on_random p rc)
  | UUIDRecorded => on_uuid p rc
  | HTTPRecorded => Ret (on_http p rc)
  | _ => Ret rc
  end.

Fixpoint apply_events (es : list JobEvent) (rc : ReplayContext) : outcome ReplayContext :=
  match es with
  | [] => Ret rc
  | e :: r => run rc' <- apply_event e rc ;; apply_events r rc'
  end.

(** The phase from the last event's type and the plan (replay.go:327-343, 693-709). *)
Definition phase_of (lastType : option EventType) (taskGraph : string) : ExecutionPhase :=
  match lastType with
  | Some JobCompleted => PhaseCompleted
  | Some JobFailed => PhaseFailed
  | Some JobCancelled => PhaseCancelled
  | Some JobWaiting => PhaseWaiting
  | _ => match taskGraph with EmptyString => PhasePlanning | _ => PhaseExecuting end
  end.

Definition with_phase (es : list JobEvent) (rc : ReplayContext) : ReplayContext :=
  set_rc_Phase (phase_of (ev_Type <$> last es) (rc_TaskGraphState rc)) rc.

Definition applyIncrementalEvents (rc : ReplayContext) (es : list JobEvent) : outcome ReplayContext :=
  run rc' <- apply_events es rc ;; Ret (with_phase es rc').

(** Without events, or without a plan, there is no context. *)
Definition BuildFromEvents (es : list JobEvent) : outcome (option ReplayContext) :=
  match es with
  | [] => Ret None
  | _ =>
      run rc <- apply_events es empty_context ;;
      Ret (match rc_TaskGraphState rc with EmptyString => None | _ => Some (with_phase es rc) end)
  end.

(** ** Snapshots (snapshot.go:32-53, replay.go:412-484, 715-780) *)

Record SnapshotPayload := mkSP {
  sp_TaskGraphState : string; sp_CursorNode : string; sp_PayloadResults : string;
  sp_CompletedNodeIDs : list string; sp_PayloadResultsByNode : gmap string string;
  sp_CompletedCommandIDs : list string; sp_CommandResults : gmap string string;
  sp_CompletedToolInvocations : gmap string string; sp_PendingToolInvocations : list string;
  sp_StateChangesByStep : gmap string string; sp_ApprovedCorrelationKeys : list string;
  sp_WorkingMemorySnapshot : string; sp_PendingWaitNode : string; sp_Phase : ExecutionPhase;
  sp_RecordedTime : option (gmap string Z); sp_RecordedRandom : gmap string string;
  sp_RecordedUUID : option (gmap string string); sp_RecordedHTTP : gmap string string;
}.

Definition marshal_change (c : StateChangeRecord) : string :=
  obj_text (m_str "resource_type" (sc_ResourceType c) ++ m_str "resource_id" (sc_ResourceID c)
    ++ m_str "operation" (sc_Operation c) ++ m_str_omit "step_id" (sc_StepID c)
    ++ m_str_omit "tool_name" (sc_ToolName c) ++ m_str_omit "version" (sc_Version c)
    ++ m_str_omit "etag" (sc_Etag c) ++ m_str_omit "external_ref" (sc_ExternalRef c)).

Definition marshal_changes (l : list StateChangeRecord) : string :=
  "[" +:+ (join "," (map marshal_change l) +:+ "]").

(** [SerializeReplayContext] up to its last line; Go lists a map's keys in
    an arbitrary order. *)
Definition snapshot_payload (rc : ReplayContext) : SnapshotPayload :=
  mkSP (rc_TaskGraphState rc) (rc_CursorNode rc) (rc_PayloadResults rc) (elements (rc_CompletedNodeIDs rc))
    (rc_PayloadResultsByNode rc) (elements (rc_CompletedCommandIDs rc)) (rc_CommandResults rc)
    (rc_CompletedToolInvocations rc) (elements (rc_PendingToolInvocations rc))
    (marshal_changes <$> rc_StateChangesByStep rc) (elements (rc_ApprovedCorrelationKeys rc))
    (rc_WorkingMemorySnapshot rc) (rc_PendingWaitNode rc) (rc_Phase rc) (rc_RecordedTime rc)
    (rc_RecordedRandom rc) (rc_RecordedUUID rc) (rc_RecordedHTTP rc).

(** [json.Compact] with HTML escaping, as [Marshal] applies it to raw messages. *)
Fixpoint compact (instr esc : bool) (s : string) : string :=
  match s with
  | EmptyString => EmptyString
  | String "226" (String "128" (String "168" r)) => u_escape 32 40 (compact instr false r)
  | String "226" (String "128" (String "169" r)) => u_escape 32 41 (compact instr false r)
  | String c r =>
      let b := byte c in
      let quote_toggles := negb esc && (b =? 34) in
      let instr' := if quote_toggles then negb instr else instr in
      let esc' := instr && negb esc && (b =? 92) in
      if (b =? 60) || (b =? 62) || (b =? 38) then u_escape 0 b (compact instr' esc' r)
      else if negb instr && is_ws c then compact instr' esc' r
      else String c (compact instr' esc' r)
  end.

(** What a raw message comes back as; [None]: [Marshal] fails on it. *)
Definition json_raw (raw : string) : option string :=
  match raw with
  | EmptyString => Some "null"
  | _ => match unmarshal raw with Some _ => Some (compact false false raw) | None => None end
  end.

(** A member with [omitempty]. *)
Definition json_raw_omit (raw : string) : option string :=
  match raw with EmptyString => Some EmptyString | _ => json_raw raw end.

Definition json_raw_map (m : gmap string string) : option (gmap string string) :=
  if forallb (fun kv => bool_decide (is_Some (json_raw kv.2))) (map_to_list m)
  then Some (omap json_raw m) else None.

(** An empty map is omitted and comes back nil. *)
Definition json_map_omit {V} (m : option (gmap string V)) : option (gmap string V) :=
  match m with
  | Some m' => if decide (m' = ∅) then None else m
  | None => None
  end.

(** [json.Unmarshal] after [json.Marshal] of a payload. *)
Definition json_payload (p : SnapshotPayload) : option SnapshotPayload :=
  g ← json_raw_omit (sp_TaskGraphState p);
  pr ← json_raw_omit (sp_PayloadResults p);
  prn ← json_raw_map (sp_PayloadResultsByNode p);
  cr ← json_raw_map (sp_CommandResults p);
  ct ← json_raw_map (sp_CompletedToolInvocations p);
  sc ← json_raw_map (sp_StateChangesByStep p);
  wm ← json_raw_omit (sp_WorkingMemorySnapshot p);
  rr ← json_raw_map (sp_RecordedRandom p);
  rh ← json_raw_map (sp_RecordedHTTP p);
  Some (mkSP g (sp_CursorNode p) pr (sp_CompletedNodeIDs p) prn (sp_CompletedCommandIDs p) cr ct
    (sp_PendingToolInvocations p) sc (sp_ApprovedCorrelationKeys p) wm (sp_PendingWaitNode p) (sp_Phase p)
    (json_map_omit (sp_RecordedTime p)) rr (json_map_omit (sp_RecordedUUID p)) rh).

(** The stored bytes, as the payload they decode to. *)
Definition SerializeReplayContext (rc : ReplayContext) : option SnapshotPayload :=
  json_payload (snapshot_payload rc).

Definition dec_change_text (raw : string) : option (list StateChangeRecord) :=
  match unmarshal raw with
  | Some v => let '(l, err) := dec_change_list v in if err then None else Some l
  | None => None
  end.

Definition deserializeSnapshot (p : SnapshotPayload) : ReplayContext :=
  mkRC (sp_TaskGraphState p) (sp_CursorNode p) (sp_PayloadResults p) (list_to_set (sp_CompletedNodeIDs p))
    (sp_PayloadResultsByNode p) (list_to_set (sp_CompletedCommandIDs p)) (sp_CommandResults p)
    (sp_CompletedToolInvocations p) (list_to_set (sp_PendingToolInvocations p))
    (omap dec_change_text (sp_StateChangesByStep p)) (list_to_set (sp_ApprovedCorrelationKeys p))
    (sp_WorkingMemorySnapshot p) (sp_PendingWaitNode p) (sp_Phase p) (sp_RecordedTime p)
    (sp_RecordedRandom p) (sp_RecordedUUID p) (sp_RecordedHTTP p).

(** [snapshot]: version and decoded contents of the latest snapshot, [None]
    when there is none or it cannot be read; the contents are [None] when
    they do not decode. *)
Definition BuildFromSnapshot (es : list JobEvent) (snapshot : option (Z * option SnapshotPayload))
    : outcome (option ReplayContext) :=
  match snapshot with
  | None | Some (_, None) => BuildFromEvents es
  | Some (v, Some p) =>
      let rc := deserializeSnapshot p in
      let v := Z.min (Z.max v 0) (Z.of_nat (length es)) in
      match drop (Z.to_nat v) es with
      | [] => Ret (Some rc)
      | inc => run rc' <- applyIncrementalEvents rc inc ;; Ret (Some rc')
      end
  end.
