(* ===== verification/ReplayProps.v ===== *)
(** Replay: rebuilding from a snapshot and the events after it agrees with
    rebuilding from all events; completed work stays completed; the activity
    barrier; and the panic on a snapshot without recorded times. *)

From S2P Require Import Prelude GoTime Json Events MemStore Replay.

(** ** Folding events *)

Lemma apply_events_app es1 es2 rc :
  apply_events (es1 ++ es2) rc = (run rc' <- apply_events es1 rc ;; apply_events es2 rc').
Proof.
  revert rc. induction es1 as [|e es1 IH]; intros rc; cbn; [done|].
  destruct (apply_event e rc); cbn; [apply IH|done].
Qed.

Ltac handler := repeat (case_match; simplify_eq/=; try done).

(** A context without its phase, the nil maps filled in. *)
Definition core (rc : ReplayContext) : ReplayContext :=
  set_rc_Phase PhaseUnknown
    (set_rc_RecordedTime (Some (default ∅ (rc_RecordedTime rc)))
      (set_rc_RecordedUUID (Some (default ∅ (rc_RecordedUUID rc))) rc)).

Lemma apply_event_core e rc r :
  apply_event e rc = Ret r -> apply_event e (core rc) = Ret (core r).
Proof.
  unfold apply_event.
  destruct (ev_Type e); try (intros [= <-]; f_equal; done).
  - intros [= <-]. f_equal. unfold on_plan. handler.
  - intros [= <-]. f_equal. unfold on_node_finished. handler.
  - intros [= <-]. f_equal. unfold on_command_committed. handler.
  - intros [= <-]. f_equal. unfold on_tool_started. handler.
  - intros [= <-]. f_equal. unfold on_tool_finished. handler.
  - intros [= <-]. f_equal. unfold on_job_waiting. handler.
  - intros [= <-]. f_equal. unfold on_wait_completed. handler.
  - unfold on_timer_fired. cbn [core rc_RecordedTime set_rc_Phase set_rc_RecordedTime].
    destruct (rc_RecordedTime rc) eqn:Hm; handler; intros [= <-]; unfold core; cbn; by rewrite ?Hm.
  - intros [= <-]. f_equal. unfold on_random. handler.
  - unfold on_uuid. cbn [core rc_RecordedUUID set_rc_Phase set_rc_RecordedTime set_rc_RecordedUUID].
    destruct (rc_RecordedUUID rc) eqn:Hm; handler; intros [= <-]; unfold core; cbn; by rewrite ?Hm.
  - intros [= <-]. f_equal. unfold on_http. handler.
  - intros [= <-]. f_equal. unfold on_state_changed. handler.
Qed.

Lemma apply_events_core es rc r : apply_events es rc = Ret r -> apply_events es (core rc) = Ret (core r).
Proof.
  revert rc. induction es as [|e es IH]; intros rc; cbn [apply_events]; [by intros [= <-]|].
  rewrite outcome_bind_ret. intros (rc1 & H1 & H2). rewrite (apply_event_core _ _ _ H1). by apply IH.
Qed.

(** The nil maps an event stream would write to are not nil. *)
Definition writable (es : list JobEvent) (rc : ReplayContext) : Prop :=
  (rc_RecordedTime rc = None -> Forall (fun e => ev_Type e <> TimerFired) es) /\
  (rc_RecordedUUID rc = None -> Forall (fun e => ev_Type e <> UUIDRecorded) es).

Lemma apply_event_ret e es rc :
  writable (e :: es) rc -> exists r, apply_event e rc = Ret r /\ writable es r.
Proof.
  intros [Ht Hu].
  assert (Hw : writable es rc).
  { split; intros Hn; [specialize (Ht Hn) as Hf|specialize (Hu Hn) as Hf]; by inversion Hf. }
  assert (Hpure : forall r, rc_RecordedTime r = rc_RecordedTime rc -> rc_RecordedUUID r = rc_RecordedUUID rc ->
            writable es r).
  { intros r H1 H2. unfold writable. by rewrite H1, H2. }
  unfold apply_event. destruct (ev_Type e) eqn:He; try (by eexists).
  - eexists. split; [done|]. apply Hpure; unfold on_plan; handler.
  - eexists. split; [done|]. apply Hpure; unfold on_node_finished; handler.
  - eexists. split; [done|]. apply Hpure; unfold on_command_committed; handler.
  - eexists. split; [done|]. apply Hpure; unfold on_tool_started; handler.
  - eexists. split; [done|]. apply Hpure; unfold on_tool_finished; handler.
  - eexists. split; [done|]. apply Hpure; unfold on_job_waiting; handler.
  - eexists. split; [done|]. apply Hpure; unfold on_wait_completed; handler.
  - unfold on_timer_fired. destruct (rc_RecordedTime rc) as [m|] eqn:Hm.
    + cbn [map_write outcome_bind]. handler; eexists; (split; [done|]); try done.
      split; cbn; [done|]. apply Hw.
    + specialize (Ht eq_refl). inversion Ht; subst. congruence.
  - eexists. split; [done|]. apply Hpure; unfold on_random; handler.
  - unfold on_uuid. destruct (rc_RecordedUUID rc) as [m|] eqn:Hm.
    + cbn [map_write outcome_bind]. handler; eexists; (split; [done|]); try done.
      split; cbn; [apply Hw|done].
    + specialize (Hu eq_refl). inversion Hu; subst. congruence.
  - eexists. split; [done|]. apply Hpure; unfold on_http; handler.
  - eexists. split; [done|]. apply Hpure; unfold on_state_changed; handler.
Qed.

Lemma apply_events_ret es rc : writable es rc -> exists r, apply_events es rc = Ret r.
Proof.
  revert rc. induction es as [|e es IH]; intros rc Hw; cbn; [by eexists|].
  destruct (apply_event_ret _ _ _ Hw) as (r & -> & Hr). cbn. by apply IH.
Qed.

Lemma writable_empty es : writable es empty_context.
Proof. by split. Qed.

(** What an event keeps: the plan stays, completed work stays, filled maps
    stay filled. *)
Definition keeps (rc r : ReplayContext) : Prop :=
  (rc_TaskGraphState rc <> EmptyString -> rc_TaskGraphState r <> EmptyString) /\
  rc_CompletedNodeIDs rc ⊆ rc_CompletedNodeIDs r /\
  rc_CompletedCommandIDs rc ⊆ rc_CompletedCommandIDs r /\
  dom (rc_CompletedToolInvocations rc) ⊆ dom (rc_CompletedToolInvocations r) /\
  rc_ApprovedCorrelationKeys rc ⊆ rc_ApprovedCorrelationKeys r.

#[export] Instance keeps_preorder : PreOrder keeps.
Proof.
  split; [by intros rc; split_and!|].
  intros a b c (H1 & H2 & H3 & H4 & H5) (G1 & G2 & G3 & G4 & G5).
  split_and!; [auto|by etrans..].
Qed.

Lemma apply_event_keeps e rc r : apply_event e rc = Ret r -> keeps rc r.
Proof.
  assert (Hsub : forall (x : string) (X : gset string), X ⊆ {[x]} ∪ X) by set_solver.
  assert (Hdom : forall k v (m : gmap string string), dom m ⊆ dom (<[k := v]> m)).
  { intros k v m. rewrite dom_insert_L. set_solver. }
  unfold apply_event. destruct (ev_Type e); try (by intros [= <-]).
  - intros [= <-]. unfold on_plan. handler; by split_and!.
  - intros [= <-]. unfold on_node_finished. handler; split_and!; cbn; auto; done.
  - intros [= <-]. unfold on_command_committed. handler; split_and!; cbn; auto; done.
  - intros [= <-]. unfold on_tool_started. handler; split_and!; cbn; auto; done.
  - intros [= <-]. unfold on_tool_finished. handler; split_and!; cbn; auto; done.
  - intros [= <-]. unfold on_job_waiting. handler; split_and!; cbn; auto; done.
  - intros [= <-]. unfold on_wait_completed. handler; split_and!; cbn; auto; done.
  - unfold on_timer_fired. handler; try (by intros [= <-]). rewrite outcome_bind_ret.
    intros (? & _ & [= <-]). by split_and!.
  - intros [= <-]. unfold on_random. handler; split_and!; cbn; auto; done.
  - unfold on_uuid. handler; try (by intros [= <-]). rewrite outcome_bind_ret.
    intros (? & _ & [= <-]). by split_and!.
  - intros [= <-]. unfold on_http. handler; split_and!; cbn; auto; done.
  - intros [= <-]. unfold on_state_changed. handler; split_and!; cbn; auto; done.
Qed.

Lemma apply_events_keeps es rc r : apply_events es rc = Ret r -> keeps rc r.
Proof.
  revert rc. induction es as [|e es IH]; intros rc; cbn [apply_events]; [by intros [= <-]|].
  rewrite outcome_bind_ret. intros (rc1 & H1 & H2). etrans; [by eapply apply_event_keeps|by apply IH].
Qed.

Lemma BuildFromEvents_some es rc :
  BuildFromEvents es = Ret (Some rc) <->
  exists r, apply_events es empty_context = Ret r /\ rc_TaskGraphState r <> EmptyString /\ rc = with_phase es r.
Proof.
  destruct es as [|e es].
  - cbn. split; [done|]. intros (r & [= <-] & H & _). done.
  - unfold BuildFromEvents. rewrite outcome_bind_ret. split.
    + intros (r & Hr & Hs). exists r. split; [done|]. destruct (rc_TaskGraphState r) eqn:Hg; [done|].
      injection Hs as <-. by split.
    + intros (r & Hr & Hg & ->). exists r. split; [done|]. by destruct (rc_TaskGraphState r).
Qed.

(** ** Snapshot round trip *)

Definition raws_stable (m : gmap string string) : Prop := map_Forall (fun _ v => json_raw v = Some v) m.

(** Every raw text of the context is compact JSON, and its state changes
    survive their own printing. *)
Definition snapshot_stable (rc : ReplayContext) : Prop :=
  json_raw_omit (rc_TaskGraphState rc) = Some (rc_TaskGraphState rc) /\
  json_raw_omit (rc_PayloadResults rc) = Some (rc_PayloadResults rc) /\
  raws_stable (rc_PayloadResultsByNode rc) /\ raws_stable (rc_CommandResults rc) /\
  raws_stable (rc_CompletedToolInvocations rc) /\
  map_Forall (fun _ l => json_raw (marshal_changes l) = Some (marshal_changes l) /\
                         dec_change_text (marshal_changes l) = Some l) (rc_StateChangesByStep rc) /\
  json_raw_omit (rc_WorkingMemorySnapshot rc) = Some (rc_WorkingMemorySnapshot rc) /\
  raws_stable (rc_RecordedRandom rc) /\ raws_stable (rc_RecordedHTTP rc).

Lemma json_raw_map_stable m : raws_stable m -> json_raw_map m = Some m.
Proof.
  intros Hs. unfold json_raw_map.
  assert (Ho : omap json_raw m = m).
  { apply map_eq. intros k. rewrite lookup_omap. destruct (m !! k) as [v|] eqn:Hk; [|done]. by apply (Hs k). }
  rewrite Ho. replace (forallb _ _) with true; [done|]. symmetry. apply forallb_forall.
  intros [k v] Hin. cbn. apply list_elem_of_In, elem_of_map_to_list in Hin.
  apply bool_decide_true. by rewrite (Hs k v Hin).
Qed.

(** What a snapshot gives back: the context itself, empty recorded maps nil. *)
Definition nil_maps (rc : ReplayContext) : ReplayContext :=
  set_rc_RecordedTime (json_map_omit (rc_RecordedTime rc))
    (set_rc_RecordedUUID (json_map_omit (rc_RecordedUUID rc)) rc).

Lemma snapshot_roundtrip rc :
  snapshot_stable rc -> deserializeSnapshot <$> SerializeReplayContext rc = Some (nil_maps rc).
Proof.
  intros (Hg & Hp & Hpn & Hc & Ht & Hsc & Hw & Hr & Hh).
  assert (Hsc1 : raws_stable (marshal_changes <$> rc_StateChangesByStep rc)).
  { intros k v. rewrite lookup_fmap. destruct (rc_StateChangesByStep rc !! k) as [l|] eqn:Hk; [|done].
    intros [= <-]. by apply (Hsc k). }
  assert (Hsc2 : omap dec_change_text (marshal_changes <$> rc_StateChangesByStep rc)
                 = rc_StateChangesByStep rc).
  { apply map_eq. intros k. rewrite lookup_omap, lookup_fmap.
    destruct (rc_StateChangesByStep rc !! k) as [l|] eqn:Hk; [|done]. by apply (Hsc k). }
  unfold SerializeReplayContext, json_payload, snapshot_payload.
  cbn [sp_TaskGraphState sp_PayloadResults sp_PayloadResultsByNode sp_CommandResults
       sp_CompletedToolInvocations sp_StateChangesByStep sp_WorkingMemorySnapshot sp_RecordedRandom
       sp_RecordedHTTP].
  rewrite Hg, Hp, !json_raw_map_stable by done. cbn [mbind option_bind].
  rewrite Hw. cbn [mbind option_bind fmap option_fmap option_map]. f_equal.
  unfold deserializeSnapshot, nil_maps. clear Hsc Hsc1. destruct rc. cbn in Hsc2 |- *.
  by rewrite Hsc2, !list_to_set_elements_L.
Qed.

Lemma core_nil_maps rc : core (nil_maps rc) = core rc.
Proof.
  destruct rc. unfold core, nil_maps. cbn. unfold json_map_omit.
  f_equal; repeat case_match; subst; done.
Qed.

Lemma core_with_phase es rc : core (with_phase es rc) = core rc.
Proof. done. Qed.

Lemma with_phase_core es rc r :
  core rc = core r -> core (with_phase es rc) = core (with_phase es r) /\
  rc_Phase (with_phase es rc) = rc_Phase (with_phase es r).
Proof.
  intros He. split; [done|]. unfold with_phase. cbn. f_equal.
  exact (f_equal rc_TaskGraphState He).
Qed.

(** ** Properties *)

(** C14: under two conditions a snapshot and the events after it rebuild the
    same context as all the events.  The first events hold a plan, and the raw
    texts of their context are compact JSON and its state changes survive their
    own printing, so that the snapshot keeps them ([snapshot_stable]); and no
    timer event follows a snapshot without timers, and no uuid event one without
    uuids, where the code panics ([writable], [snapshot_without_timers_panics]).
    Then the snapshot encodes, [BuildFromSnapshot] and [BuildFromEvents] both
    return, and their contexts are equal in every field, an absent map standing
    for an empty one. *)
Theorem snapshot_replay_equivalent es1 es2 rc1 :
  BuildFromEvents es1 = Ret (Some rc1) -> snapshot_stable rc1 -> writable es2 (nil_maps rc1) ->
  exists p rc rc', SerializeReplayContext rc1 = Some p /\
    BuildFromSnapshot (es1 ++ es2) (Some (Z.of_nat (length es1), Some p)) = Ret (Some rc) /\
    BuildFromEvents (es1 ++ es2) = Ret (Some rc') /\ core rc = core rc' /\ rc_Phase rc = rc_Phase rc'.
Proof.
  intros H1 Hs Hw. pose proof (snapshot_roundtrip _ Hs) as Hrt.
  destruct (SerializeReplayContext rc1) as [p|]; [|done].
  assert (Hp : deserializeSnapshot p = nil_maps rc1) by exact (inj Some _ _ Hrt).
  apply BuildFromEvents_some in H1 as (r1 & Hr1 & Hg1 & ->).
  destruct (apply_events_ret es2 (nil_maps (with_phase es1 r1)) Hw) as (r2 & Hr2).
  destruct (apply_events_ret es2 r1) as (r3 & Hr3).
  { split; intros Hn; [apply Hw|apply Hw]; cbn; by rewrite Hn. }
  assert (Hall : apply_events (es1 ++ es2) empty_context = Ret r3)
    by (rewrite apply_events_app, Hr1; exact Hr3).
  assert (Hg3 : rc_TaskGraphState r3 <> EmptyString) by (apply (apply_events_keeps _ _ _ Hr3); done).
  assert (Hcore : core r2 = core r3).
  { apply apply_events_core in Hr2, Hr3. rewrite core_nil_maps, core_with_phase in Hr2. congruence. }
  assert (Hbuild : BuildFromEvents (es1 ++ es2) = Ret (Some (with_phase (es1 ++ es2) r3)))
    by (apply BuildFromEvents_some; by exists r3).
  exists p. unfold BuildFromSnapshot. rewrite length_app, Hp.
  replace (Z.to_nat _) with (length es1) by lia. rewrite drop_app_length.
  destruct es2 as [|e es2].
  - injection Hr2 as <-. injection Hr3 as <-. exists (nil_maps (with_phase es1 r1)), (with_phase es1 r1).
    rewrite app_nil_r in *. split_and!; [done|done|done|by rewrite core_nil_maps|done].
  - exists (with_phase (e :: es2) r2), (with_phase (es1 ++ e :: es2) r3).
    unfold applyIncrementalEvents. rewrite Hr2. split_and!; try done.
    unfold with_phase. cbn. f_equal; [by rewrite last_app_cons|].
    exact (f_equal rc_TaskGraphState Hcore).
Qed.

(** Rebuilding from events never panics, and what a stream has completed
    no continuation of it undoes: completed nodes, committed commands,
    finished tool calls and approvals stay. *)
Theorem replay_total_and_monotone es1 es2 :
  exists o1 o2, BuildFromEvents es1 = Ret o1 /\ BuildFromEvents (es1 ++ es2) = Ret o2 /\
    forall rc1, o1 = Some rc1 -> exists rc2, o2 = Some rc2 /\
      rc_CompletedNodeIDs rc1 ⊆ rc_CompletedNodeIDs rc2 /\
      rc_CompletedCommandIDs rc1 ⊆ rc_CompletedCommandIDs rc2 /\
      dom (rc_CompletedToolInvocations rc1) ⊆ dom (rc_CompletedToolInvocations rc2) /\
      rc_ApprovedCorrelationKeys rc1 ⊆ rc_ApprovedCorrelationKeys rc2.
Proof.
  assert (Htot : forall es, exists o, BuildFromEvents es = Ret o).
  { intros [|e es]; [by eexists|]. unfold BuildFromEvents.
    destruct (apply_events_ret (e :: es) _ (writable_empty _)) as (r & ->). by eexists. }
  destruct (Htot es1) as [o1 H1], (Htot (es1 ++ es2)) as [o2 H2]. exists o1, o2.
  split_and!; [done..|]. intros rc1 ->.
  apply BuildFromEvents_some in H1 as (r1 & Hr1 & Hg1 & ->).
  destruct (apply_events_ret (es1 ++ es2) _ (writable_empty _)) as (r2 & Hr2).
  pose proof Hr2 as Hsuf. rewrite apply_events_app, Hr1 in Hsuf. cbn in Hsuf.
  apply apply_events_keeps in Hsuf as (Hg & Hk).
  assert (Hb : BuildFromEvents (es1 ++ es2) = Ret (Some (with_phase (es1 ++ es2) r2)))
    by (apply BuildFromEvents_some; exists r2; auto).
  rewrite H2 in Hb. injection Hb as ->. eexists. split; [done|]. exact Hk.
Qed.

(** ** The activity barrier *)

(** What a started or finished event says about a key. *)
Definition barrier_event (key : string) (e : JobEvent) : option bool :=
  match ev_Type e, payload_members (ev_Payload e) with
  | ToolInvocationStarted, Some ms =>
      let '(k, err) := dec_str "idempotency_key" ms in
      if negb err && String.eqb k key then Some true else None
  | ToolInvocationFinished, Some ms =>
      let '(k, e1) := dec_str "idempotency_key" ms in
      if negb (e1 || snd (dec_str "outcome" ms)) && String.eqb k key then Some false else None
  | _, _ => None
  end.

Lemma apply_event_pending key e rc r :
  key <> EmptyString -> apply_event e rc = Ret r ->
  (key ∈ rc_PendingToolInvocations r <->
   match barrier_event key e with
   | Some b => b = true
   | None => key ∈ rc_PendingToolInvocations rc
   end).
Proof.
  intros Hk. unfold apply_event, barrier_event.
  assert (Hsame : forall x, rc_PendingToolInvocations x = rc_PendingToolInvocations rc ->
     (key ∈ rc_PendingToolInvocations x <-> key ∈ rc_PendingToolInvocations rc)) by (by intros x ->).
  destruct (ev_Type e); try (by intros [= <-]).
  - intros [= <-]. apply Hsame. unfold on_plan. handler.
  - intros [= <-]. apply Hsame. unfold on_node_finished. handler.
  - intros [= <-]. apply Hsame. unfold on_command_committed. handler.
  - intros [= <-]. unfold on_tool_started. destruct (payload_members _) as [ms|]; [|done].
    destruct (dec_str _ ms) as [k err]. destruct err; cbn; [done|].
    destruct (String.eqb_spec k key) as [->|Hne].
    + rewrite (proj2 (String.eqb_neq _ _) Hk). cbn. set_solver.
    + case_match; [done|]. cbn. set_solver.
  - intros [= <-]. unfold on_tool_finished. destruct (payload_members _) as [ms|]; [|done].
    destruct (dec_str "idempotency_key" ms) as [k e1], (dec_str "outcome" ms) as [o e2]. cbn [snd].
    destruct (e1 || e2); cbn; [done|].
    destruct (String.eqb_spec k key) as [->|Hne].
    + rewrite (proj2 (String.eqb_neq _ _) Hk). case_match; cbn; set_solver.
    + destruct (String.eqb_spec k EmptyString); handler; cbn; set_solver.
  - intros [= <-]. apply Hsame. unfold on_job_waiting. handler.
  - intros [= <-]. apply Hsame. unfold on_wait_completed. handler.
  - unfold on_timer_fired. handler; try (intros [= <-]; by apply Hsame). rewrite outcome_bind_ret.
    intros (? & _ & [= <-]). by apply Hsame.
  - intros [= <-]. apply Hsame. unfold on_random. handler.
  - unfold on_uuid. handler; try (intros [= <-]; by apply Hsame). rewrite outcome_bind_ret.
    intros (? & _ & [= <-]). by apply Hsame.
  - intros [= <-]. apply Hsame. unfold on_http. handler.
  - intros [= <-]. apply Hsame. unfold on_state_changed. handler.
Qed.

(** The verdict of the last event that mentions the key. *)
Definition last_barrier (key : string) (es : list JobEvent) : bool :=
  fold_left (fun b e => default b (barrier_event key e)) es false.

(** The activity barrier is exact: after replay a tool call is pending,
    and so barred from execution, exactly when the last decodable started or
    finished event of its key is a started one. *)
Theorem pending_exactly_unfinished key es rc :
  key <> EmptyString -> BuildFromEvents es = Ret (Some rc) ->
  (key ∈ rc_PendingToolInvocations rc <-> last_barrier key es = true).
Proof.
  intros Hk Hb. apply BuildFromEvents_some in Hb as (r & Hr & _ & ->).
  change (rc_PendingToolInvocations (with_phase es r)) with (rc_PendingToolInvocations r).
  revert r Hr. induction es as [|e es IH] using rev_ind; intros r.
  - intros [= <-]. cbn. set_solver.
  - rewrite apply_events_app, outcome_bind_ret. intros (r1 & H1 & H2). cbn in H2.
    rewrite outcome_bind_ret in H2. destruct H2 as (r2 & H2 & [= <-]).
    rewrite (apply_event_pending _ _ _ _ Hk H2). unfold last_barrier. rewrite fold_left_app. cbn.
    destruct (barrier_event key e) as [b|]; [by destruct b|]. by apply IH.
Qed.

(** A snapshot taken before any timer fired cannot be continued: the
    recorded-time map is left out of the encoding and comes back nil, so the
    first decodable timer_fired event after the snapshot panics. *)
Theorem snapshot_without_timers_panics rc p es e :
  SerializeReplayContext rc = Some p -> rc_RecordedTime rc = Some ∅ -> ev_Type e = TimerFired ->
  (exists ms id n, payload_members (ev_Payload e) = Some ms /\ dec_str "effect_id" ms = (id, false) /\
     dec_int "unix_nano" ms = (n, false) /\ id <> EmptyString) ->
  BuildFromSnapshot (es ++ [e]) (Some (Z.of_nat (length es), Some p)) = Panic "assignment to entry in nil map".
Proof.
  intros Hp Ht He (ms & id & n & Hm & Hid & Hn & Hne).
  assert (Hnil : rc_RecordedTime (deserializeSnapshot p) = None).
  { unfold SerializeReplayContext, json_payload in Hp. repeat (apply bind_Some in Hp as (? & _ & Hp)).
    injection Hp as <-. cbn. by rewrite Ht. }
  unfold BuildFromSnapshot. rewrite length_app. cbn [length].
  replace (Z.to_nat _) with (length es) by lia. rewrite drop_app_length.
  unfold applyIncrementalEvents. cbn [apply_events]. unfold apply_event.
  rewrite He. unfold on_timer_fired. rewrite Hm, Hid, Hn, (proj2 (String.eqb_neq _ _) Hne).
  cbn [orb]. by rewrite Hnil.
Qed.

(** ** Witnesses *)

Definition demo_replay_event (t : EventType) (fields : list (string * string)) : JobEvent :=
  new_event (Time 0 0) "j" t (obj_text fields).

Definition demo_plan : JobEvent := demo_replay_event PlanGenerated [("task_graph", "{}")].
Definition demo_started : JobEvent := demo_replay_event ToolInvocationStarted (m_str "idempotency_key" "k").
Definition demo_finished : JobEvent :=
  demo_replay_event NodeFinished (m_str "node_id" "n" ++ [("payload_results", "[1,2]")]).
Definition demo_timer : JobEvent :=
  demo_replay_event TimerFired (m_str "effect_id" "t" ++ m_int "unix_nano" 7).

Definition demo_context : ReplayContext :=
  match BuildFromEvents [demo_plan; demo_started] with Ret (Some rc) => rc | _ => empty_context end.

Lemma demo_context_stable : snapshot_stable demo_context.
Proof.
  unfold snapshot_stable, raws_stable. apply (bool_decide_unpack _). vm_compute. exact I.
Qed.

Lemma demo_context_built : BuildFromEvents [demo_plan; demo_started] = Ret (Some demo_context).
Proof. vm_compute. reflexivity. Qed.

Lemma snapshot_replay_equivalent_witness :
  exists p rc rc', SerializeReplayContext demo_context = Some p /\
    BuildFromSnapshot [demo_plan; demo_started; demo_finished] (Some (2, Some p)) = Ret (Some rc) /\
    BuildFromEvents [demo_plan; demo_started; demo_finished] = Ret (Some rc') /\ core rc = core rc' /\ rc_Phase rc = rc_Phase rc'.
Proof.
  apply (snapshot_replay_equivalent [demo_plan; demo_started] [demo_finished] demo_context demo_context_built demo_context_stable).
  split; intros _; (constructor; [discriminate|constructor]).
Defined.

Lemma pending_exactly_unfinished_witness : "k" ∈ rc_PendingToolInvocations demo_context.
Proof.
  refine (proj2 (pending_exactly_unfinished "k" [demo_plan; demo_started] demo_context _ demo_context_built) _).
  - discriminate.
  - vm_compute. reflexivity.
Defined.

Lemma snapshot_without_timers_panics_witness :
  exists p, BuildFromSnapshot [demo_plan; demo_started; demo_timer] (Some (2, Some p))
            = Panic "assignment to entry in nil map".
Proof.
  destruct (SerializeReplayContext demo_context) as [p|] eqn:Hp.
  - exists p. refine (snapshot_without_timers_panics demo_context p [demo_plan; demo_started] demo_timer Hp _ _ _).
    + vm_compute. reflexivity.
    + reflexivity.
    + eexists _, _, _. split; [vm_compute; reflexivity|]. split; [vm_compute; reflexivity|].
      split; [vm_compute; reflexivity|discriminate].
  - exfalso. vm_compute in Hp. discriminate.
Defined.
