(* ===== verification/TaskGraph.v ===== *)
(** internal/agent/planner/task_graph.go and the graph part of
    internal/agent/runtime/executor/steppable.go: task graphs, their
    topological order and their levels.

    A Go map is iterated in any order: where the code ranges over one it sorts
    what it collected, so the order of the set's elements is not observed. *)

From S2P Require Import Prelude GoTime Json Events Replay.

(** ** Graphs (task_graph.go:63-93) *)

Record TaskNode := mkTaskNode {
  tn_ID : string; tn_Type : string; tn_Config : list (string * json);
  tn_ToolName : string; tn_Workflow : string;
}.

Record TaskEdge := mkTaskEdge { te_From : string; te_To : string }.

#[export] Instance task_edge_eq_dec : EqDecision TaskEdge.
Proof. solve_decision. Defined.

(** A nil slice of edges prints as [null]; a graph without nodes is never
    printed. *)
Record TaskGraph := mkTaskGraph { tg_Nodes : list TaskNode; tg_EdgeSlice : option (list TaskEdge) }.

Definition tg_Edges (g : TaskGraph) : list TaskEdge := default [] (tg_EdgeSlice g).

(** *** Marshal *)

Definition node_text (n : TaskNode) : string :=
  obj_text (m_str "id" (tn_ID n) ++ m_str "type" (tn_Type n)
    ++ match tn_Config n with [] => [] | c => [("config", print (JObj c))] end
    ++ m_str_omit "tool_name" (tn_ToolName n) ++ m_str_omit "workflow" (tn_Workflow n)).

Definition edge_text (e : TaskEdge) : string := obj_text (m_str "from" (te_From e) ++ m_str "to" (te_To e)).

Definition slice_text (l : list string) : string := "[" +:+ (join "," l +:+ "]").

Definition Marshal (g : TaskGraph) : string :=
  obj_text [("nodes", slice_text (map node_text (tg_Nodes g)));
            ("edges", match tg_EdgeSlice g with None => "null" | Some l => slice_text (map edge_text l) end)].

(** *** Unmarshal: [None] for an error, after which the callers drop the
    graph *)

(** The value of a field of the struct: absent and null alike. *)
Definition dec_value (name : string) (ms : list member) : json :=
  match last (named name ms) with Some (_, (_, v)) => v | None => JNull end.

Definition dec_node (v : json) : option TaskNode :=
  match v with
  | JNull => Some (mkTaskNode EmptyString EmptyString [] EmptyString EmptyString)
  | JObj l =>
      let ms := as_members l in
      let '(id, e1) := dec_str "id" ms in
      let '(ty, e2) := dec_str "type" ms in
      let '(tool, e3) := dec_str "tool_name" ms in
      let '(wf, e4) := dec_str "workflow" ms in
      if e1 || e2 || e3 || e4 then None
      else match dec_value "config" ms with
           | JNull => Some (mkTaskNode id ty [] tool wf)
           | JObj c => Some (mkTaskNode id ty (sort_fields c) tool wf)
           | _ => None
           end
  | _ => None
  end.

Definition dec_edge (v : json) : option TaskEdge :=
  match v with
  | JNull => Some (mkTaskEdge EmptyString EmptyString)
  | JObj l =>
      let ms := as_members l in
      let '(from, e1) := dec_str "from" ms in
      let '(to, e2) := dec_str "to" ms in
      if e1 || e2 then None else Some (mkTaskEdge from to)
  | _ => None
  end.

Definition dec_slice {A} (dec : json -> option A) (v : json) : option (option (list A)) :=
  match v with
  | JNull => Some None
  | JArr l => l' ← mapM dec l; Some (Some l')
  | _ => None
  end.

Definition Unmarshal (data : string) : option TaskGraph :=
  match unmarshal data with
  | Some JNull => Some (mkTaskGraph [] None)
  | Some (JObj l) =>
      let ms := as_members l in
      ns ← dec_slice dec_node (dec_value "nodes" ms);
      es ← dec_slice dec_edge (dec_value "edges" ms);
      Some (mkTaskGraph (default [] ns) es)
  | _ => None
  end.

(** ** Sorting strings: [sort.Strings] *)

Fixpoint insert_string (s : string) (l : list string) : list string :=
  match l with
  | [] => [s]
  | x :: r => if String.leb s x then s :: l else x :: insert_string s r
  end.

Definition sort_strings (l : list string) : list string := foldr insert_string [] l.

Lemma insert_string_perm s l : insert_string s l ≡ₚ s :: l.
Proof.
  induction l as [|x l IH]; cbn; [done|]. case_match; [done|]. rewrite IH. constructor.
Qed.

Lemma sort_strings_perm l : sort_strings l ≡ₚ l.
Proof. induction l as [|x l IH]; cbn; [done|]. by rewrite insert_string_perm, IH. Qed.

(** ** Topological order (steppable.go:34-82) *)

Definition node_set (g : TaskGraph) : gset string := list_to_set (map tn_ID (tg_Nodes g)).

(** The in-degrees of lines 42-50: an edge counts when its target is a node. *)
Definition in_degrees (nodes : gset string) (edges : list TaskEdge) : gmap string Z :=
  foldl (fun m e => if bool_decide (te_To e ∈ nodes) then <[te_To e := get_default 0 m (te_To e) + 1]> m else m)
    (set_to_map (fun id => (id, 0)) nodes) edges.

(** The edges of the node taken from the queue, lines 63-75. *)
Fixpoint release (nodes : gset string) (u : string) (edges : list TaskEdge) (deg : gmap string Z)
    (queue : list string) : gmap string Z * list string :=
  match edges with
  | [] => (deg, queue)
  | e :: r =>
      if String.eqb (te_From e) u && bool_decide (te_To e ∈ nodes) then
        let d := get_default 0 deg (te_To e) - 1 in
        release nodes u r (<[te_To e := d]> deg) (if d =? 0 then queue ++ [te_To e] else queue)
      else release nodes u r deg queue
  end.

(** The loop of lines 59-77: each node is taken at most once. *)
Fixpoint kahn (fuel : nat) (nodes : gset string) (edges : list TaskEdge) (deg : gmap string Z)
    (queue order : list string) : list string :=
  match fuel, queue with
  | S f, u :: q =>
      let '(deg', q') := release nodes u edges deg q in
      kahn f nodes edges deg' (sort_strings q') (order ++ [u])
  | _, _ => order
  end.

Definition initial_queue (nodes : gset string) (deg : gmap string Z) : list string :=
  sort_strings (filter (fun id => get_default 0 deg id = 0) (elements nodes)).

Definition TopoOrder (g : TaskGraph) : result string (list string) :=
  let nodes := node_set g in
  match tg_Nodes g with
  | [] => Ok []
  | _ =>
      let deg := in_degrees nodes (tg_Edges g) in
      let order := kahn (S (size nodes)) nodes (tg_Edges g) deg (initial_queue nodes deg) [] in
      if (length order =? size nodes)%nat then Ok order
      else Err "executor: TaskGraph 存在环，无法拓扑排序"
  end.

(** ** Levels (steppable.go:86-132) *)

Definition preds (nodes : gset string) (edges : list TaskEdge) (id : string) : list string :=
  if bool_decide (id ∈ nodes) then map te_From (filter (fun e => te_To e = id) edges) else [].

Definition level_from (levelOf : gmap string nat) (ps : list string) : nat :=
  foldl (fun m p => Nat.max m (get_default 0%nat levelOf p + 1)) 0%nat ps.

Definition levels (nodes : gset string) (edges : list TaskEdge) (order : list string) : gmap string nat :=
  foldl (fun m id => <[id := level_from m (preds nodes edges id)]> m) ∅ order.

Definition LevelGroups (g : TaskGraph) : result string (list (list string)) :=
  match TopoOrder g with
  | Err e => Err e
  | Ok [] => Ok []
  | Ok order =>
      let lv := levels (node_set g) (tg_Edges g) order in
      let maxLevel := foldr (fun '(_, l) m => Nat.max l m) 0%nat (map_to_list lv) in
      Ok (map (fun i => sort_strings (filter (fun id => lv !! id = Some i) (elements (dom lv))))
            (seq 0 (S maxLevel)))
  end.

(** ** What an order is *)

(** [l] lists the nodes once each, every edge's source before its target. *)
Definition respects (edges : list TaskEdge) (l : list string) : Prop :=
  forall l1 v l2 e, l = l1 ++ v :: l2 -> e ∈ edges -> te_To e = v -> te_From e ∈ l1.

Definition topo_order (g : TaskGraph) (l : list string) : Prop :=
  NoDup l /\ (forall v, v ∈ l <-> v ∈ node_set g) /\ respects (tg_Edges g) l.

Example diamond : TaskGraph :=
  mkTaskGraph (map (fun id => mkTaskNode id "tool" [] EmptyString EmptyString) ["d"; "c"; "b"; "a"])
    (Some [mkTaskEdge "a" "b"; mkTaskEdge "a" "c"; mkTaskEdge "b" "d"; mkTaskEdge "c" "d"]).

Lemma diamond_order : TopoOrder diamond = Ok ["a"; "b"; "c"; "d"] /\
  LevelGroups diamond = Ok [["a"]; ["b"; "c"]; ["d"]] /\ Unmarshal (Marshal diamond) = Some diamond.
Proof. split_and!; vm_compute; reflexivity. Qed.

(** ** Kahn's algorithm *)

Section kahn.
Variables (nodes : gset string) (edges : list TaskEdge).

(** The edges of [es] into [v] whose source is not in [done]. *)
Definition pending_edges (done : list string) (v : string) (es : list TaskEdge) : Z :=
  Z.of_nat (length (filter (fun e => te_To e = v /\ te_From e ∉ done) es)).

Lemma pending_edges_cons done v e es :
  pending_edges done v (e :: es)
  = (if decide (te_To e = v /\ te_From e ∉ done) then 1 else 0) + pending_edges done v es.
Proof. unfold pending_edges. rewrite filter_cons. case_decide; cbn [length]; lia. Qed.

Lemma pending_edges_nonneg done v es : 0 <= pending_edges done v es.
Proof. unfold pending_edges. lia. Qed.

Lemma pending_edges_zero done v es e :
  pending_edges done v es = 0 -> e ∈ es -> te_To e = v -> te_From e ∈ done.
Proof.
  unfold pending_edges. intros Hz He Hv. destruct (decide (te_From e ∈ done)) as [|Hn]; [done|].
  destruct (filter _ es) as [|x l] eqn:Hf; [|cbn in Hz; lia].
  assert (e ∈ filter (fun e => te_To e = v /\ te_From e ∉ done) es) as Hin by by apply list_elem_of_filter.
  rewrite Hf in Hin. by apply not_elem_of_nil in Hin.
Qed.

(** The nodes of degree 0 are the ones ordered or queued. *)
Definition queued_at (deg : gmap string Z) (l : list string) : Prop :=
  NoDup l /\ forall v, v ∈ nodes -> (get_default 0 deg v = 0 <-> v ∈ l).

Definition counts (c : string -> Z) (done : list string) (es : list TaskEdge) (deg : gmap string Z) : Prop :=
  forall v, v ∈ nodes -> get_default 0 deg v = c v + pending_edges done v es.

Lemma release_spec u done es deg queue c :
  u ∉ done -> (forall v, 0 <= c v) -> counts c done es deg -> queued_at deg ((done ++ [u]) ++ queue) ->
  (forall v, v ∈ queue -> v ∈ nodes) ->
  let '(deg', queue') := release nodes u es deg queue in
  counts c (done ++ [u]) es deg' /\ queued_at deg' ((done ++ [u]) ++ queue') /\
  (forall v, v ∈ queue' -> v ∈ nodes).
Proof.
  intros Hu. revert deg queue c. induction es as [|e es IH]; intros deg queue c Hc Hcnt Hq Hqn; [done|].
  cbn [release]. destruct (String.eqb_spec (te_From e) u) as [Heu|Heu]; cbn [andb].
  - destruct (decide (te_To e ∈ nodes)) as [Ht|Ht].
    + rewrite bool_decide_true by done. set (d := get_default 0 deg (te_To e) - 1).
      assert (Hd : d = c (te_To e) + pending_edges done (te_To e) es).
      { subst d. rewrite (Hcnt _ Ht), pending_edges_cons, decide_True by (split; [done|by rewrite Heu]). lia. }
      assert (Hnz : te_To e ∉ (done ++ [u]) ++ queue).
      { intros Hin. apply (proj2 Hq _ Ht) in Hin. pose proof (pending_edges_nonneg done (te_To e) es).
        specialize (Hc (te_To e)). lia. }
      specialize (IH (<[te_To e := d]> deg) (if d =? 0 then queue ++ [te_To e] else queue) c Hc).
      destruct (release _ _ _ _ _) as [deg' queue'].
      destruct IH as (H1 & H2 & H3).
      * intros v Hv. rewrite get_default_insert. case_decide as Hev; [by subst v|].
        rewrite (Hcnt _ Hv), pending_edges_cons, decide_False by tauto. lia.
      * split.
        -- destruct (d =? 0); [|apply Hq]. rewrite app_assoc. apply NoDup_app.
           split_and!; [apply Hq|by intros x Hx ->%list_elem_of_singleton|apply NoDup_singleton].
        -- intros v Hv. rewrite get_default_insert. case_decide as Hev.
           ++ subst v. destruct (Z.eqb_spec d 0) as [->|Hdz]; [|tauto].
              split; [|done]. intros _. rewrite app_assoc. apply elem_of_app. right. by left.
           ++ rewrite (proj2 Hq _ Hv). destruct (d =? 0); [|done].
              rewrite app_assoc, (elem_of_app _ [te_To e]), list_elem_of_singleton. naive_solver.
      * intros v. destruct (d =? 0); [|apply Hqn]. rewrite elem_of_app, list_elem_of_singleton.
        intros [Hv| ->]; [by apply Hqn|done].
      * split_and!; [|done|done]. intros v Hv. rewrite (H1 _ Hv), pending_edges_cons, decide_False; [lia|].
        intros [_ Hn]. apply Hn, elem_of_app. right. rewrite Heu. by left.
    + rewrite bool_decide_false by done. specialize (IH deg queue c Hc).
      destruct (release _ _ _ _ _) as [deg' queue']. destruct IH as (H1 & H2 & H3); [|done|done|].
      * intros v Hv. rewrite (Hcnt _ Hv), pending_edges_cons, decide_False; [lia|]. by intros [<- _].
      * split_and!; [|done|done]. intros v Hv. rewrite (H1 _ Hv), pending_edges_cons, decide_False; [lia|].
        by intros [<- _].
  - set (h v := if decide (te_To e = v /\ te_From e ∉ done) then 1 else 0).
    specialize (IH deg queue (fun v => c v + h v)).
    destruct (release _ _ _ _ _) as [deg' queue']. destruct IH as (H1 & H2 & H3); [| |done|done|].
    + intros v. specialize (Hc v). unfold h. case_decide; lia.
    + intros v Hv. rewrite (Hcnt _ Hv), pending_edges_cons. unfold h. lia.
    + split_and!; [|done|done]. intros v Hv. rewrite (H1 _ Hv), pending_edges_cons. unfold h.
      assert (te_From e ∉ done ++ [u] <-> te_From e ∉ done) as Hiff
        by (rewrite elem_of_app, list_elem_of_singleton; tauto).
      repeat case_decide; lia || tauto.
Qed.

Lemma respects_snoc l u :
  respects edges l -> (forall e, e ∈ edges -> te_To e = u -> te_From e ∈ l) -> respects edges (l ++ [u]).
Proof.
  intros Hl Hu l1 v l2 e Heq He Hv. destruct l2 as [|x l2 _] using rev_ind.
  - apply app_inj_tail in Heq as [-> ->]. by eapply Hu.
  - rewrite app_comm_cons, app_assoc in Heq. apply app_inj_tail in Heq as [-> _]. by eapply Hl.
Qed.

Definition kahn_state (order queue : list string) (deg : gmap string Z) : Prop :=
  counts (fun _ => 0) order edges deg /\ queued_at deg (order ++ queue) /\
  (forall v, v ∈ order ++ queue -> v ∈ nodes) /\ respects edges order.

Lemma kahn_state_sort order queue deg : kahn_state order queue deg -> kahn_state order (sort_strings queue) deg.
Proof.
  intros (Hc & [Hnd Hz] & Hn & Hr). pose proof (sort_strings_perm queue) as Hp.
  split_and!; [done| | |done].
  - split; [by rewrite Hp|]. intros v Hv. by rewrite (Hz v Hv), Hp.
  - intros v. by rewrite Hp; apply Hn.
Qed.

Lemma kahn_step u queue order deg :
  kahn_state order (u :: queue) deg ->
  let '(deg', queue') := release nodes u edges deg queue in kahn_state (order ++ [u]) queue' deg'.
Proof.
  intros (Hc & [Hnd Hz] & Hn & Hr).
  assert (Hu : u ∈ nodes) by (apply Hn, elem_of_app; right; by left).
  assert (Hu0 : get_default 0 deg u = 0) by (apply Hz; [done|]; apply elem_of_app; right; by left).
  rewrite (app_assoc order [u] queue : order ++ u :: queue = _) in Hnd.
  pose proof (release_spec u order edges deg queue (fun _ => 0)) as Hrel.
  destruct (release _ _ _ _ _) as [deg' queue']. destruct Hrel as (H1 & H2 & H3).
  - apply NoDup_app in Hnd as (Hnd & _). apply NoDup_app in Hnd as (_ & Hx & _). intros Hin.
    by apply (Hx u Hin), list_elem_of_singleton.
  - done.
  - done.
  - split; [done|]. intros v Hv. rewrite (Hz v Hv). by rewrite <- app_assoc.
  - intros v Hv. apply Hn, elem_of_app. right. by right.
  - split_and!; [done|done| |].
    + intros v [[Hv|Hv]%elem_of_app|Hv]%elem_of_app.
      * apply Hn, elem_of_app. by left.
      * by apply list_elem_of_singleton in Hv as ->.
      * by apply H3.
    + apply respects_snoc; [done|]. intros e He Ht. eapply pending_edges_zero; [|exact He|exact Ht].
      specialize (Hc u Hu). cbn beta in Hc. lia.
Qed.

Lemma kahn_spec fuel deg queue order :
  (size nodes < fuel + length order)%nat -> kahn_state order queue deg ->
  exists deg', kahn_state (kahn fuel nodes edges deg queue order) [] deg'.
Proof.
  revert deg queue order. induction fuel as [|f IH]; intros deg queue order Hf Hk.
  - exfalso. destruct Hk as (_ & [Hnd _] & Hn & _). apply NoDup_app in Hnd as (Hnd & _).
    assert (length order <= size nodes)%nat; [|lia].
    rewrite <- (size_list_to_set (C := gset string) order Hnd). apply subseteq_size.
    intros v Hv%elem_of_list_to_set. apply Hn, elem_of_app. by left.
  - destruct queue as [|u queue]; cbn [kahn]; [by exists deg|].
    pose proof (kahn_step u queue order deg Hk) as Hs. destruct (release _ _ _ _ _) as [deg' queue'].
    apply IH; [rewrite length_app; cbn; lia|by apply kahn_state_sort].
Qed.
End kahn.

Lemma in_degrees_counts nodes edges : counts nodes (fun _ => 0) [] edges (in_degrees nodes edges).
Proof.
  unfold in_degrees.
  assert (forall es m c, counts nodes c [] [] m ->
            counts nodes c [] es (foldl (fun m e => if bool_decide (te_To e ∈ nodes)
              then <[te_To e := get_default 0 m (te_To e) + 1]> m else m) m es)) as Hgen.
  { induction es as [|e es IH]; intros m c Hm; [exact Hm|]. cbn [foldl].
    set (h v := if decide (te_To e = v /\ te_From e ∉ @nil string) then 1 else 0).
    assert (counts nodes (fun v => c v + h v) [] [] (if bool_decide (te_To e ∈ nodes)
              then <[te_To e := get_default 0 m (te_To e) + 1]> m else m)) as Hm'.
    { intros v Hv. specialize (Hm v Hv). unfold h. case_bool_decide as Ht.
      - rewrite get_default_insert. case_decide as Hev.
        + subst v. rewrite decide_True by (split; [done|apply not_elem_of_nil]). lia.
        + rewrite decide_False by tauto. lia.
      - rewrite decide_False by (intros [<- _]; done). lia. }
    intros v Hv. rewrite (IH _ _ Hm' v Hv), pending_edges_cons. unfold h. lia. }
  apply Hgen. intros v Hv. unfold get_default. cbn beta.
  destruct (_ !! v) as [z|] eqn:Hl; [|done].
  apply (lookup_set_to_map (fun id : string => (id, 0))) in Hl as (x & _ & [= _ <-]); done.
Qed.

Lemma initial_kahn_state nodes edges :
  kahn_state nodes edges [] (initial_queue nodes (in_degrees nodes edges)) (in_degrees nodes edges).
Proof.
  unfold initial_queue. apply kahn_state_sort. split_and!.
  - apply in_degrees_counts.
  - split; [apply NoDup_filter, NoDup_elements|]. intros v Hv. cbn [app].
    rewrite list_elem_of_filter, elem_of_elements. tauto.
  - intros v. cbn [app]. rewrite list_elem_of_filter, elem_of_elements. tauto.
  - intros l1 v l2 e Heq. by destruct l1.
Qed.

Lemma kahn_complete nodes edges order deg l :
  kahn_state nodes edges order [] deg -> (forall v, v ∈ l <-> v ∈ nodes) -> respects edges l ->
  forall v, v ∈ nodes -> v ∈ order.
Proof.
  intros (Hc & [_ Hz] & _ & _) Hl Hr v Hv. rewrite app_nil_r in Hz.
  assert (forall k v, l !! k = Some v -> v ∈ order) as Hall;
    [|destruct (proj1 (list_elem_of_lookup _ _) (proj2 (Hl v) Hv)) as [k Hk]; by eapply Hall].
  clear v Hv. intros k. induction (lt_wf k) as [k _ IH]. intros v Hk.
  assert (v ∈ nodes) as Hv by by eapply Hl, list_elem_of_lookup_2.
  apply (Hz v Hv). rewrite (Hc v Hv). unfold pending_edges.
  destruct (filter _ edges) as [|e es] eqn:Hf; [done|]. exfalso.
  assert (e ∈ filter (fun e => te_To e = v /\ te_From e ∉ order) edges) as He by (rewrite Hf; by left).
  apply list_elem_of_filter in He as [[Ht Hn] He].
  pose proof (take_drop_middle l k v Hk) as Heq.
  pose proof (Hr _ _ _ e (eq_sym Heq) He Ht) as Hin.
  apply list_elem_of_lookup in Hin as [i Hi]. pose proof (lookup_lt_Some _ _ _ Hi) as Hlt.
  rewrite length_take in Hlt. rewrite lookup_take_lt in Hi by lia. by apply Hn, (IH i); [lia|].
Qed.

Lemma TopoOrder_correct g :
  match TopoOrder g with
  | Ok l => topo_order g l
  | Err _ => forall l, ~ topo_order g l
  end.
Proof.
  unfold TopoOrder.
  destruct (tg_Nodes g) as [|n ns] eqn:Hg.
  - assert (node_set g = ∅) as He by (unfold node_set; by rewrite Hg).
    split_and!; [constructor| |by intros [|? ?]]. intros v. rewrite He. split; [by intros ?%elem_of_nil|set_solver].
  - set (deg := in_degrees _ _).
    destruct (kahn_spec (node_set g) (tg_Edges g) (S (size (node_set g))) deg
                (initial_queue (node_set g) deg) []) as [deg' Hk];
      [cbn; lia|apply initial_kahn_state|].
    set (order := kahn _ _ _ _ _ _) in *.
    pose proof Hk as (_ & [Hnd _] & Hn & Hr). rewrite app_nil_r in Hnd, Hn.
    pose proof (size_list_to_set (C := gset string) order Hnd) as Hsize.
    assert (list_to_set order ⊆ node_set g) as Hsub by (intros v Hv%elem_of_list_to_set; by apply Hn).
    destruct (Nat.eqb_spec (length order) (size (node_set g))) as [Hlen|Hlen].
    + split_and!; [done| |done]. intros v. split; [apply Hn|]. intros Hv.
      assert (list_to_set order = node_set g) as Heq by (apply set_subseteq_size_eq; [done|lia]).
      rewrite <- Heq in Hv. by apply elem_of_list_to_set in Hv.
    + intros l (Hndl & Hl & Hrl). apply Hlen. rewrite <- Hsize. f_equal. apply set_eq. intros v.
      rewrite elem_of_list_to_set. split; [apply Hn|]. intros Hv. by eapply kahn_complete.
Qed.

(** ** Levels *)

Lemma respects_source edges l e :
  respects edges l -> e ∈ edges -> te_To e ∈ l -> te_From e ∈ l.
Proof.
  intros Hr He [k Hk]%list_elem_of_lookup.
  pose proof (Hr _ _ _ e (eq_sym (take_drop_middle _ _ _ Hk)) He eq_refl) as Hx.
  apply elem_of_take in Hx as (j & Hj & _). by eapply list_elem_of_lookup_2.
Qed.

Lemma get_default_some (d : nat) (m : gmap string nat) k x : m !! k = Some x -> get_default d m k = x.
Proof. unfold get_default. by intros ->. Qed.

Lemma level_from_ext m m' ps :
  (forall p, p ∈ ps -> m !! p = m' !! p) -> level_from m ps = level_from m' ps.
Proof.
  intros Hm. unfold level_from.
  assert (forall a, foldl (fun x p => Nat.max x (get_default 0%nat m p + 1)) a ps
                    = foldl (fun x p => Nat.max x (get_default 0%nat m' p + 1)) a ps) as Hall; [|apply Hall].
  induction ps as [|p ps IH]; intros a; [done|]. cbn [foldl]. unfold get_default at 2 4.
  rewrite (Hm p) by by left. apply IH. intros q Hq. apply Hm. by right.
Qed.

Lemma level_from_max m ps :
  (forall p, p ∈ ps -> get_default 0 m p < level_from m ps)%nat /\
  (level_from m ps = 0%nat \/ exists p, p ∈ ps /\ level_from m ps = S (get_default 0%nat m p)).
Proof.
  unfold level_from.
  assert (forall a, let r := foldl (fun m' p => Nat.max m' (get_default 0%nat m p + 1)) a ps in
            (a <= r)%nat /\ (forall p, p ∈ ps -> get_default 0 m p < r)%nat /\
            (r = a \/ exists p, p ∈ ps /\ r = S (get_default 0%nat m p))) as Hgen;
    [|destruct (Hgen 0%nat) as (_ & ? & ?); done].
  induction ps as [|p ps IH]; intros a; cbn [foldl].
  { split_and!; [done|by intros ? ?%elem_of_nil|by left]. }
  specialize (IH (Nat.max a (get_default 0%nat m p + 1))). cbn zeta in IH |- *.
  destruct IH as (H1 & H2 & H3). split_and!; [lia| |].
  - intros q [->|Hq]%elem_of_cons; [lia|by apply H2].
  - destruct H3 as [->|(q & Hq & ->)]; [|right; exists q; split; [by right|done]].
    destruct (Nat.max_spec a (get_default 0%nat m p + 1)) as [[_ ->]|[_ ->]]; [|by left].
    right. exists p. split; [by left|lia].
Qed.

Lemma elem_of_preds nodes edges v p :
  p ∈ preds nodes edges v <-> v ∈ nodes /\ exists e, e ∈ edges /\ te_To e = v /\ te_From e = p.
Proof.
  unfold preds. case_bool_decide as Hv.
  - rewrite list_elem_of_fmap. setoid_rewrite list_elem_of_filter. naive_solver.
  - split; [by intros ?%elem_of_nil|by intros [? _]].
Qed.

Lemma levels_spec nodes edges l :
  NoDup l -> respects edges l ->
  let lv := levels nodes edges l in
  (forall v, is_Some (lv !! v) <-> v ∈ l) /\
  (forall v, v ∈ l -> lv !! v = Some (level_from lv (preds nodes edges v))).
Proof.
  induction l as [|u l IH] using rev_ind; intros Hnd Hr; cbn zeta.
  { split; [|by intros v Hv%elem_of_nil]. intros v. unfold levels. cbn. rewrite lookup_empty.
    split; [by intros [? ?]|by intros ?%elem_of_nil]. }
  apply NoDup_app in Hnd as (Hnd & Hu & _).
  assert (u ∉ l) as Hul by (intros Hin; by apply (Hu u Hin); left).
  assert (respects edges l) as Hrl.
  { intros l1 v l2 e -> He Hv. apply (Hr l1 v (l2 ++ [u]) e); [by rewrite app_comm_cons, app_assoc|done|done]. }
  assert (forall v, v ∈ l ++ [u] -> forall p, p ∈ preds nodes edges v -> p ∈ l) as Hpl.
  { intros v Hv p (_ & e & He & Ht & <-)%elem_of_preds.
    apply list_elem_of_lookup in Hv as [i Hi]. pose proof (lookup_lt_Some _ _ _ Hi) as Hlt.
    rewrite length_app in Hlt. cbn in Hlt.
    pose proof (Hr _ _ _ e (eq_sym (take_drop_middle _ _ _ Hi)) He Ht) as Hin.
    rewrite take_app_le in Hin by lia. by eapply elem_of_take in Hin as (j & Hj & _); eapply list_elem_of_lookup_2. }
  unfold levels in *. rewrite foldl_app. cbn [foldl]. fold (levels nodes edges l) in *.
  destruct (IH Hnd Hrl) as [Hdom Hlv]. clear IH. set (lv := levels nodes edges l) in *.
  set (new := level_from lv (preds nodes edges u)).
  assert (forall v, v ∈ l ++ [u] ->
            level_from (<[u := new]> lv) (preds nodes edges v) = level_from lv (preds nodes edges v)) as Hext.
  { intros v Hv. apply level_from_ext. intros p Hp. apply lookup_insert_ne. intros <-.
    by apply Hul, (Hpl v). }
  split.
  - intros v. rewrite lookup_insert, elem_of_app, list_elem_of_singleton.
    case_decide as Huv; [subst v; by split; [right|eexists]|]. rewrite Hdom. naive_solver.
  - intros v Hv. rewrite (Hext v Hv). rewrite lookup_insert. case_decide as Huv; [by subst v|].
    apply Hlv. apply elem_of_app in Hv as [Hv|Hv]; [done|]. by apply list_elem_of_singleton in Hv.
Qed.

Definition group (lv : gmap string nat) (i : nat) : list string :=
  sort_strings (filter (fun id => lv !! id = Some i) (elements (dom lv))).

Lemma elem_of_group lv i v : v ∈ group lv i <-> lv !! v = Some i.
Proof.
  unfold group. rewrite sort_strings_perm, list_elem_of_filter, elem_of_elements, elem_of_dom.
  split; [by intros [? _]|]. intros Hv. by split; [|eexists].
Qed.

Lemma max_level_le (l : list (string * nat)) v i :
  (v, i) ∈ l -> (i <= foldr (fun '(_, l) m => Nat.max l m) 0%nat l)%nat.
Proof.
  induction l as [|[w j] l IH]; [by intros ?%elem_of_nil|]. cbn [foldr].
  intros [[= -> ->]|Hin]%elem_of_cons; [lia|]. specialize (IH Hin). lia.
Qed.

Lemma nodup_groups lv k n :
  NoDup (concat (map (group lv) (seq k n))) /\
  forall v, v ∈ concat (map (group lv) (seq k n)) -> exists i, lv !! v = Some i /\ (k <= i)%nat.
Proof.
  revert k. induction n as [|n IH]; intros k; cbn [seq map concat].
  { split; [constructor|by intros v ?%elem_of_nil]. }
  destruct (IH (S k)) as [Hnd Hin]. split.
  - apply NoDup_app. split_and!; [|intros v Hv Hv'|done].
    + unfold group. rewrite sort_strings_perm. apply NoDup_filter, NoDup_elements.
    + apply elem_of_group in Hv. destruct (Hin v Hv') as (i & Hi & Hle). rewrite Hv in Hi. injection Hi as <-. lia.
  - intros v [Hv%elem_of_group|Hv]%elem_of_app; [by exists k|].
    destruct (Hin v Hv) as (i & Hi & Hle). exists i. split; [done|lia].
Qed.

Lemma LevelGroups_correct g :
  match LevelGroups g with
  | Err _ => forall l, ~ topo_order g l
  | Ok groups =>
      NoDup (concat groups) /\ (forall v, v ∈ concat groups <-> v ∈ node_set g) /\
      (forall e i gi, e ∈ tg_Edges g -> groups !! i = Some gi -> te_To e ∈ gi ->
         exists j gj, (j < i)%nat /\ groups !! j = Some gj /\ te_From e ∈ gj) /\
      (forall v i gi, groups !! S i = Some gi -> v ∈ gi ->
         exists e gj, e ∈ tg_Edges g /\ te_To e = v /\ groups !! i = Some gj /\ te_From e ∈ gj)
  end.
Proof.
  pose proof (TopoOrder_correct g) as Ht. unfold LevelGroups.
  destruct (TopoOrder g) as [order|e]; [|done].
  destruct order as [|o os].
  { destruct Ht as (_ & Hn & _). split_and!; [constructor|done|by intros ? [|?]|by intros ? ? ? ?]. }
  set (order := o :: os) in *. destruct Ht as (Hnd & Hn & Hr).
  destruct (levels_spec (node_set g) (tg_Edges g) order Hnd Hr) as [Hdom Hlv].
  set (lv := levels _ _ order) in *. set (n := foldr _ _ _).
  assert (forall v i, lv !! v = Some i -> (i < S n)%nat) as Hbound.
  { intros v i Hv. apply elem_of_map_to_list, max_level_le in Hv. subst n. lia. }
  change (map _ (seq 0 (S n))) with (map (group lv) (seq 0 (S n))).
  assert (forall i gi, map (group lv) (seq 0 (S n)) !! i = Some gi <-> (i < S n)%nat /\ gi = group lv i) as Hgrp.
  { intros i gi. rewrite list_lookup_fmap. destruct (decide (i < S n)%nat) as [Hi|Hi].
    - rewrite lookup_seq_lt by done. cbn. naive_solver.
    - rewrite lookup_seq_ge by lia. cbn. naive_solver. }
  split_and!.
  - apply nodup_groups.
  - intros v. rewrite <- Hn, <- Hdom. split.
    + intros (i & Hi & _)%nodup_groups. by eexists.
    + intros [i Hi]. apply list_elem_of_In, in_concat. exists (group lv i). split.
      * apply list_elem_of_In, list_elem_of_lookup. exists i. apply Hgrp. split; [by eapply Hbound|done].
      * by apply list_elem_of_In, elem_of_group.
  - intros e i gi He [Hi ->]%Hgrp Hin%elem_of_group.
    assert (te_To e ∈ order) as Hto by (apply Hdom; by eexists).
    rewrite (Hlv _ Hto) in Hin. injection Hin as Hin.
    assert (te_From e ∈ preds (node_set g) (tg_Edges g) (te_To e)) as Hp
      by (apply elem_of_preds; split; [by apply Hn|by exists e]).
    pose proof (respects_source _ _ _ Hr He Hto) as Hfrom.
    destruct (proj2 (Hdom _) Hfrom) as [j Hj].
    pose proof (proj1 (level_from_max lv _) _ Hp) as Hlt. rewrite Hin, (get_default_some _ _ _ _ Hj) in Hlt.
    exists j, (group lv j). split_and!; [lia|apply Hgrp; split; [lia|done]|by apply elem_of_group].
  - intros v i gi [Hi ->]%Hgrp Hin%elem_of_group.
    assert (v ∈ order) as Hv by (apply Hdom; by eexists).
    rewrite (Hlv _ Hv) in Hin. injection Hin as Hin.
    destruct (proj2 (level_from_max lv (preds (node_set g) (tg_Edges g) v))) as [Hz|(p & Hp & Hs)]; [lia|].
    apply elem_of_preds in Hp as (_ & e & He & Hte & <-).
    assert (te_From e ∈ order) as Hfrom by (eapply respects_source; [exact Hr|exact He|by rewrite Hte]).
    destruct (proj2 (Hdom _) Hfrom) as [j Hj]. rewrite Hin, (get_default_some _ _ _ _ Hj) in Hs.
    exists e, (group lv i). split_and!; [done|done|apply Hgrp; split; [lia|done]|].
    apply elem_of_group. rewrite Hj. f_equal. lia.
Qed.

(** ** Properties *)

(** C39: [TopoOrder] is correct and complete: an order it returns lists every
    node of the graph once, each after the sources of all its edges, and when
    it reports a cycle no such order exists. *)
Theorem TopoOrder_spec g :
  match TopoOrder g with
  | Ok l => topo_order g l
  | Err _ => forall l, ~ topo_order g l
  end.
Proof. exact (TopoOrder_correct g). Qed.

(** [LevelGroups] is a layering: of an acyclic graph it puts every node in
    exactly one group, every edge leads from an earlier group to a later one,
    and a node is in the earliest group its predecessors allow; it fails only
    when no topological order exists. *)
Theorem LevelGroups_spec g :
  match LevelGroups g with
  | Err _ => forall l, ~ topo_order g l
  | Ok groups =>
      NoDup (concat groups) /\ (forall v, v ∈ concat groups <-> v ∈ node_set g) /\
      (forall e i gi, e ∈ tg_Edges g -> groups !! i = Some gi -> te_To e ∈ gi ->
         exists j gj, (j < i)%nat /\ groups !! j = Some gj /\ te_From e ∈ gj) /\
      (forall v i gi, groups !! S i = Some gi -> v ∈ gi ->
         exists e gj, e ∈ tg_Edges g /\ te_To e = v /\ groups !! i = Some gj /\ te_From e ∈ gj)
  end.
Proof. exact (LevelGroups_correct g). Qed.
