(* ===== verification/EventSink.v ===== *)
(** internal/app/api/node_sink.go: the events the executor writes, as the
    sink over a job store builds them.

    The sink lists the stream and appends at its length.  [append_ok] says for
    the [n]-th append of a run whether the store accepts it: it can refuse one
    by a stale attempt or by an event another process wrote in between.  An
    event of the stream has the fields the sink sets; the store adds the
    hashes (MemStore.v). *)

From S2P Require Import Prelude GoTime Json Events StepResult Replay.

(** A Go map from names to the raw text of the values. *)
Definition map_text (fields : list (string * string)) : string := obj_text (sort_fields fields).

Record stream := mkStream { sm_Events : list JobEvent; sm_Appends : nat }.

Section sink.
Variables (append_ok : nat -> bool) (now : time) (jobID : string).

(** [Append] at the version listed; the payload gets the step index. *)
Definition sink_append (t : EventType) (payload : Z -> string) (s : stream) : stream :=
  let e := new_event now jobID t (payload (Z.of_nat (length (sm_Events s)) + 1)) in
  mkStream (if append_ok (sm_Appends s) then sm_Events s ++ [e] else sm_Events s) (S (sm_Appends s)).

Definition AppendNodeStarted (nodeID : string) (attempt : Z) (workerID : string) : stream -> stream :=
  sink_append NodeStarted (fun stepIndex =>
    map_text (m_str "node_id" nodeID ++ m_str "trace_span_id" nodeID ++ m_str "parent_span_id" "plan"
      ++ m_int "step_index" stepIndex ++ (if 0 <? attempt then m_int "attempt" attempt else [])
      ++ m_str_omit "worker_id" workerID)).

Definition raw_omit (name raw : string) : list (string * string) :=
  match raw with EmptyString => [] | _ => [(name, raw)] end.

Definition AppendNodeFinished (nodeID payloadResults : string) (durationMs : Z) (state : string) (attempt : Z)
    (resultType : StepResultType) (reason stepID inputHash : string) : stream -> stream :=
  sink_append NodeFinished (fun stepIndex =>
    map_text (m_str "node_id" nodeID
      ++ m_str "step_id" (match stepID with EmptyString => nodeID | _ => stepID end)
      ++ m_str "trace_span_id" nodeID ++ m_str "parent_span_id" "plan" ++ m_int "step_index" stepIndex
      ++ m_str "result_type" (step_result_string resultType) ++ raw_omit "payload_results" payloadResults
      ++ (if 0 <? durationMs then m_int "duration_ms" durationMs else []) ++ m_str_omit "state" state
      ++ (if 0 <? attempt then m_int "attempt" attempt else []) ++ m_str_omit "reason" reason
      ++ m_str_omit "input_hash" inputHash)).

Definition AppendStepCommitted (nodeID stepID commandID idempotencyKey : string) : stream -> stream :=
  sink_append StepCommitted (fun _ =>
    let stepIDVal := match stepID with EmptyString => nodeID | _ => stepID end in
    map_text (m_str "node_id" nodeID ++ m_str "step_id" stepIDVal
      ++ m_str "command_id" (match commandID with EmptyString => stepIDVal | _ => commandID end)
      ++ m_str_omit "idempotency_key" idempotencyKey)).

Definition AppendStateCheckpointed (nodeID stateBefore stateAfter : string) (changedKeys : list string)
    : stream -> stream :=
  sink_append StateCheckpointed (fun stepIndex =>
    map_text (m_str "node_id" nodeID ++ m_int "step_index" stepIndex ++ [("state_after", stateAfter)]
      ++ raw_omit "state_before" stateBefore
      ++ match changedKeys with [] => [] | _ => [("changed_keys", print (JArr (map JStr changedKeys)))] end)).

(** The wait types the event knows; any other kind is a signal. *)
Definition wait_type (waitKind : string) : string :=
  if existsb (String.eqb waitKind) ["webhook"; "human"; "timer"; "signal"; "message"] then waitKind else "signal".

Definition AppendJobWaiting (nodeID waitKind reason : string) (expiresAt : time)
    (correlationKey resumptionContext : string) : stream -> stream :=
  sink_append JobWaiting (fun _ =>
    obj_text (m_str "node_id" nodeID ++ m_str "wait_type" (wait_type waitKind)
      ++ m_str "correlation_key" correlationKey ++ m_str "wait_kind" waitKind ++ m_str "reason" reason
      ++ m_str "expires_at" (format_rfc3339 expiresAt) ++ raw_omit "resumption_context" resumptionContext)).

Definition AppendReasoningSnapshot (payload : string) (s : stream) : stream :=
  match payload with EmptyString => s | _ => sink_append ReasoningSnapshot (fun _ => payload) s end.

Definition AppendStepCompensated (nodeID stepID commandID reason : string) : stream -> stream :=
  sink_append StepCompensated (fun _ =>
    map_text (m_str "node_id" nodeID ++ m_str "step_id" stepID ++ m_str "command_id" commandID
      ++ m_str_omit "reason" reason)).

Definition ExternalAgentCallToolName : string := "external_agent_call".

(** The answer of the last committed call of an external agent, lines
    620-650: [None] for an event that is skipped. *)
Definition committed_answer (e : JobEvent) : option string :=
  match ev_Type e, payload_members (ev_Payload e) with
  | CommandCommitted, Some ms =>
      let '(commandID, e1) := dec_str "command_id" ms in
      match last (named "result" ms) with
      | Some (_, (_, JObj l)) =>
          let '(out, e2) := dec_str "output" (as_members l) in
          if e1 || e2 || String.eqb out EmptyString || negb (String.eqb commandID ExternalAgentCallToolName)
          then None
          else Some (match unmarshal_doc out with
                     | DocObject oms =>
                         let '(answer, e3) := dec_str "answer" oms in
                         if e3 || String.eqb answer EmptyString then out else answer
                     | _ => out
                     end)
      | _ => None
      end
  | _, _ => None
  end.

Definition extractAnswerFromCommittedEvents (events : list JobEvent) : string :=
  default EmptyString (last (omap committed_answer events)).

Definition AppendJobCompleted (goal : string) (s : stream) : stream :=
  let answer := extractAnswerFromCommittedEvents (sm_Events s) in
  sink_append JobCompleted (fun _ =>
    map_text (m_str "goal" goal ++ m_str_omit "answer" answer ++ m_str_omit "result" answer)) s.

Definition AppendJobFailed (reason : string) (ty : StepResultType) (failedNodeID : string) : stream -> stream :=
  sink_append JobFailed (fun _ =>
    map_text (m_str "error" reason ++ m_str "result_type" (step_result_string ty)
      ++ m_str "node_id" failedNodeID ++ m_str "reason" reason)).
(** *** Tools and commands; the view of the run store is not modelled *)

Definition AppendToolCalled (nodeID toolName input : string) : stream -> stream :=
  sink_append ToolCalled (fun stepIndex =>
    map_text (m_str "node_id" nodeID ++ m_str "tool_name" toolName ++ [("input", input)]
      ++ m_str "trace_span_id" (nodeID +:+ ":tool:" +:+ toolName +:+ ":" +:+ itoa stepIndex)
      ++ m_str "parent_span_id" nodeID ++ m_int "step_index" stepIndex)).

Definition AppendToolReturned (nodeID output : string) : stream -> stream :=
  sink_append ToolReturned (fun stepIndex =>
    map_text (m_str "node_id" nodeID ++ [("output", output)] ++ m_str "parent_span_id" nodeID
      ++ m_int "step_index" stepIndex)).

Definition AppendToolResultSummarized (nodeID toolName summary errMsg : string) (idempotent : bool)
    : stream -> stream :=
  sink_append ToolResultSummarized (fun stepIndex =>
    map_text (m_str "node_id" nodeID ++ m_str "tool_name" toolName ++ m_int "step_index" stepIndex
      ++ m_str_omit "summary" summary ++ m_str_omit "error" errMsg
      ++ m_bool "idempotent" idempotent)).

Record ToolInvocationStartedPayload := mkToolStarted {
  ts_InvocationID : string; ts_ToolName : string; ts_ArgumentsHash : string; ts_IdempotencyKey : string;
  ts_StartedAt : string;
}.

Definition AppendToolInvocationStarted (nodeID : string) (p : ToolInvocationStartedPayload) : stream -> stream :=
  sink_append ToolInvocationStarted (fun _ =>
    map_text (m_str "node_id" nodeID ++ m_str "invocation_id" (ts_InvocationID p)
      ++ m_str "tool_name" (ts_ToolName p) ++ m_str "idempotency_key" (ts_IdempotencyKey p)
      ++ m_str "started_at" (ts_StartedAt p) ++ m_str_omit "arguments_hash" (ts_ArgumentsHash p))).

Record ToolInvocationFinishedPayload := mkToolFinished {
  tf_InvocationID : string; tf_IdempotencyKey : string; tf_Outcome : string; tf_Result : string;
  tf_Error : string; tf_FinishedAt : string;
}.

Definition AppendToolInvocationFinished (nodeID : string) (p : ToolInvocationFinishedPayload)
    : stream -> stream :=
  sink_append ToolInvocationFinished (fun _ =>
    map_text (m_str "node_id" nodeID ++ m_str "invocation_id" (tf_InvocationID p)
      ++ m_str "idempotency_key" (tf_IdempotencyKey p) ++ m_str "outcome" (tf_Outcome p)
      ++ m_str "finished_at" (tf_FinishedAt p) ++ raw_omit "result" (tf_Result p)
      ++ m_str_omit "error" (tf_Error p))).

Definition AppendCommandEmitted (nodeID commandID kind input : string) : stream -> stream :=
  sink_append CommandEmitted (fun stepIndex =>
    map_text (m_str "node_id" nodeID ++ m_str "command_id" commandID ++ m_str "kind" kind
      ++ [("input", input)] ++ m_int "step_index" stepIndex)).

Definition AppendCommandCommitted (nodeID commandID result inputHash : string) : stream -> stream :=
  sink_append CommandCommitted (fun stepIndex =>
    map_text (m_str "node_id" nodeID ++ m_str "command_id" commandID ++ m_str "step_id" commandID
      ++ [("result", result)] ++ m_int "step_index" stepIndex ++ m_str_omit "input_hash" inputHash)).
End sink.

(** An append leaves the events before it alone. *)
Lemma sink_append_prefix ok now job t p s : sm_Events s `prefix_of` sm_Events (sink_append ok now job t p s).
Proof. unfold sink_append. cbn. case_match; [by eexists|done]. Qed.
