(* ===== verification/Redaction.v ===== *)
(** pkg/redaction/{engine,policy}.go, the default policy and the redacting
    wrapper of internal/runtime/jobstore/{default_redaction_policy,
    redacting_store}.go.

    AES-GCM is an argument: [seal i key value] is the ciphertext of the [i]-th
    encryption of a call, with the nonce it drew, or [None] when the random
    source fails.

    Second half: the properties of redaction. *)

From S2P Require Import Prelude Sha256 GoTime Json TimeParse JsonFacts GoFloat Events MemStore MemStoreProps StepResult Replay EventSink.

(** ** Policies (policy.go) *)

Inductive RedactionMode :=
| RedactionModeRedact
| RedactionModeHash
| RedactionModeEncrypt
| RedactionModeRemove
| OtherMode (s : string).

Record FieldMask := mkMask { FieldPath : string; Mode : RedactionMode; Salt : string }.

(** [EventRules] in the order the map was filled: the last entry of a type counts. *)
Record RedactionPolicy := mkPolicy {
  EventRules : list (string * list FieldMask);
  GlobalRules : list FieldMask;
}.

Record FieldMaskConfig := mkMaskConfig { mc_Path : string; mc_Mode : RedactionMode; mc_Salt : string }.
Record EventPolicyConfig := mkEventConfig { ec_EventType : string; ec_Fields : list FieldMaskConfig }.
Record PolicyConfig := mkPolicyConfig { pc_Enable : bool; pc_Policies : list EventPolicyConfig }.

Definition LoadPolicyFromConfig (config : PolicyConfig) : option RedactionPolicy :=
  if negb (pc_Enable config) then None
  else Some (mkPolicy
    (map (fun ep => (ec_EventType ep,
       map (fun fc => mkMask (mc_Path fc) (mc_Mode fc) (mc_Salt fc)) (ec_Fields ep)))
       (pc_Policies config)) []).

(** ** Maps with distinct keys *)

Abbreviation fields := (list (string * json)).

Fixpoint field_get (k : string) (o : fields) : option json :=
  match o with
  | [] => None
  | (k', v) :: r => if String.eqb k' k then Some v else field_get k r
  end.

(** Assignment to a key that exists. *)
Fixpoint field_set (k : string) (v : json) (o : fields) : fields :=
  match o with
  | [] => []
  | (k', x) :: r => if String.eqb k' k then (k', v) :: r else (k', x) :: field_set k v r
  end.

Definition field_delete (k : string) (o : fields) : fields :=
  filter (fun kv => fst kv <> k) o.

(** ** The engine (engine.go) *)

Definition redacted_marker : string := "***REDACTED***".

Record Engine := NewEngine { en_policy : option RedactionPolicy; encryptKey : string }.

Definition hashValue (value salt : string) : string := "hash:" +:+ hex_sha256 (value +:+ salt).

Fixpoint hex_encode (s : string) : string :=
  match s with
  | EmptyString => EmptyString
  | String c r => String (hex_digit (byte c / 16)) (String (hex_digit (byte c)) (hex_encode r))
  end.

Section engine.
Context (seal : nat -> string -> string -> option string).

Definition encryptValue (key : string) (i : nat) (value : string) : option string :=
  if String.eqb key EmptyString then None
  else if negb (bool_decide (String.length key ∈ [16; 24; 32]%nat)) then None
  else match seal i key value with
       | Some ciphertext => Some ("enc:" +:+ hex_encode ciphertext)
       | None => None
       end.

(** The switch on the mode: [current] is the map that holds the field. *)
Definition mask_field (e : Engine) (i : nat) (mask : FieldMask) (lastKey : string) (value : json)
    (current : fields) : fields :=
  match Mode mask with
  | RedactionModeRedact => field_set lastKey (JStr redacted_marker) current
  | RedactionModeHash => field_set lastKey (JStr (hashValue (fmt_value value) (Salt mask))) current
  | RedactionModeEncrypt =>
      match encryptValue (encryptKey e) i (fmt_value value) with
      | Some encrypted => field_set lastKey (JStr encrypted) current
      | None => current
      end
  | RedactionModeRemove => field_delete lastKey current
  | OtherMode _ => current
  end.

(** The walk along the path: the maps are shared, so the change shows in [obj]. *)
Fixpoint mask_path (e : Engine) (i : nat) (mask : FieldMask) (parts : list string) (current : fields)
    : fields :=
  match parts with
  | [] => current
  | [lastKey] => match field_get lastKey current with
                 | Some value => mask_field e i mask lastKey value current
                 | None => current
                 end
  | part :: rest => match field_get part current with
                    | Some (JObj next) => field_set part (JObj (mask_path e i mask rest next)) current
                    | _ => current
                    end
  end.

Definition applyFieldMask (e : Engine) (i : nat) (obj : fields) (mask : FieldMask) : fields :=
  mask_path e i mask (split_on "." (FieldPath mask)) obj.

Fixpoint apply_rules (e : Engine) (i : nat) (rules : list FieldMask) (obj : fields) : fields :=
  match rules with
  | [] => obj
  | rule :: r => apply_rules e (S i) r (applyFieldMask e i obj rule)
  end.

Definition rules_for (p : RedactionPolicy) (eventType : string) : list FieldMask :=
  default [] (lookup_field eventType (EventRules p)) ++ GlobalRules p.

(** A nil map holds no field, so no rule touches it. *)
Definition RedactData (e : Engine) (eventType data : string) : result unmarshal_error string :=
  match en_policy e with
  | None => Ok data
  | Some p =>
      if String.eqb data EmptyString then Ok data
      else try obj <- unmarshal_map data ;;
           Ok (marshal_map (apply_rules e 0 (rules_for p eventType) <$> obj))
  end.

(** ** The redacting store (redacting_store.go) *)

Inductive redacting_error :=
| ErrRedactionFailed (cause : unmarshal_error)
| ErrInner (cause : jobstore_error).

(** [None] is a nil engine. *)
Definition redactEvent (engine : option Engine) (event : JobEvent) : result unmarshal_error JobEvent :=
  match engine with
  | None => Ok event
  | Some e =>
      if String.eqb (ev_Payload event) EmptyString then Ok event
      else try redacted <- RedactData e (event_type_string (ev_Type event)) (ev_Payload event) ;;
           Ok (mkJobEvent (ev_ID event) (ev_JobID event) (ev_Type event) redacted (ev_CreatedAt event)
                 (ev_PrevHash event) (ev_Hash event))
  end.

Definition redacting_Append (engine : option Engine) (now : time) (uuid attemptID jobID : string)
    (expectedVersion : Z) (event : JobEvent) (s : memoryStore)
    : result redacting_error (outcome (memoryStore * Z)) :=
  match redactEvent engine event with
  | Err c => Err (ErrRedactionFailed c)
  | Ok redacted =>
      match Append now uuid attemptID jobID expectedVersion redacted s with
      | Ok r => Ok r
      | Err c => Err (ErrInner c)
      end
  end.

Definition redactSnapshot (e : Engine) (snapshot : string) : result unmarshal_error string :=
  RedactData e "snapshot" snapshot.

(** The snapshot the inner store is given. *)
Definition redacting_CreateSnapshot (engine : option Engine) (snapshot : string)
    : result redacting_error string :=
  match engine with
  | None => Ok snapshot
  | Some e =>
      if String.eqb snapshot EmptyString then Ok snapshot
      else match redactSnapshot e snapshot with
           | Ok redacted => Ok redacted
           | Err c => Err (ErrRedactionFailed c)
           end
  end.
End engine.

(** ** The default policy (default_redaction_policy.go) *)

Definition DefaultRedactionPolicy : RedactionPolicy :=
  let redact p := mkMask p RedactionModeRedact EmptyString in
  let hash p := mkMask p RedactionModeHash EmptyString in
  mkPolicy
    [("step_started", [redact "input"]); ("step_finished", [redact "output"]);
     ("step_failed", [redact "error"]);
     ("decision_snapshot", [redact "goal"; hash "reasoning"]);
     ("reasoning_snapshot", [hash "reasoning"]);
     ("tool_invocation_finished", [redact "result"])]
    [redact "prompt"; redact "response"].

(** Properties of redaction: what a masked field held cannot be told from the
    output, nothing reaches the store around the engine, and what the policies
    of the program do to numbers, to encryption and to replay. *)

(** ** Fields of a map around one key *)

Section around.
Context (k : string) (pre post : fields) (Hpre : k ∉ pre.*1).

Lemma field_get_at v : field_get k (pre ++ (k, v) :: post) = Some v.
Proof.
  induction pre as [|[k' x] p IH]; cbn.
  - by rewrite String.eqb_refl.
  - apply not_elem_of_cons in Hpre as [Hk Hp]. cbn in Hk.
    destruct (String.eqb_spec k' k) as [->|]; [done|]. auto.
Qed.

Lemma field_set_at v w : field_set k w (pre ++ (k, v) :: post) = pre ++ (k, w) :: post.
Proof.
  induction pre as [|[k' x] p IH]; cbn.
  - by rewrite String.eqb_refl.
  - apply not_elem_of_cons in Hpre as [Hk Hp]. cbn in Hk.
    destruct (String.eqb_spec k' k) as [->|]; [done|]. by rewrite IH.
Qed.

Lemma field_delete_at v : field_delete k (pre ++ (k, v) :: post) = field_delete k (pre ++ post).
Proof.
  unfold field_delete. rewrite !filter_app, filter_cons. cbn.
  by destruct (decide (k <> k)).
Qed.
End around.

(** An operation on another key, whatever it does, does not look at [k]. *)
Lemma field_get_other k k' pre post v w :
  k' <> k -> field_get k' (pre ++ (k, v) :: post) = field_get k' (pre ++ (k, w) :: post).
Proof.
  intros Hk. induction pre as [|[k0 x] p IH]; cbn.
  - by destruct (String.eqb_spec k k') as [->|].
  - by rewrite IH.
Qed.

Lemma field_set_other k k' x pre post :
  k' <> k -> k ∉ pre.*1 -> exists pre' post', (k ∉ pre'.*1) /\
    forall v, field_set k' x (pre ++ (k, v) :: post) = pre' ++ (k, v) :: post'.
Proof.
  intros Hk. induction pre as [|[k0 y] p IH]; intros Hp; cbn.
  - exists [], (field_set k' x post). split; [by apply not_elem_of_nil|].
    intros v. by destruct (String.eqb_spec k k') as [->|].
  - apply not_elem_of_cons in Hp as [Hk0 Hp]. cbn in Hk0.
    destruct (String.eqb_spec k0 k') as [->|].
    + exists ((k', x) :: p), post. split; [|done]. cbn. by apply not_elem_of_cons.
    + destruct (IH Hp) as (p' & q' & Hp' & He). exists ((k0, y) :: p'), q'.
      split; [cbn; by apply not_elem_of_cons|]. intros v. by rewrite He.
Qed.

Lemma field_delete_other k k' pre post :
  k' <> k -> k ∉ pre.*1 -> exists pre' post', (k ∉ pre'.*1) /\
    forall v, field_delete k' (pre ++ (k, v) :: post) = pre' ++ (k, v) :: post'.
Proof.
  intros Hk Hp. exists (field_delete k' pre), (field_delete k' post). split.
  - intros Hin. apply Hp. apply list_elem_of_fmap in Hin as (y & -> & Hy).
    apply list_elem_of_filter in Hy as [_ Hy]. by apply list_elem_of_fmap_2.
  - intros v. unfold field_delete. rewrite filter_app, filter_cons. cbn.
    destruct (decide (k <> k')) as [|Hn]; [done|]. by destruct Hn.
Qed.

(** ** Two objects that differ in one field *)

Inductive differ_at : list string -> fields -> fields -> Prop :=
| differ_here k pre v1 v2 post :
    k ∉ pre.*1 -> differ_at [k] (pre ++ (k, v1) :: post) (pre ++ (k, v2) :: post)
| differ_below k path pre m1 m2 post :
    k ∉ pre.*1 -> path <> [] -> differ_at path m1 m2 ->
    differ_at (k :: path) (pre ++ (k, JObj m1) :: post) (pre ++ (k, JObj m2) :: post).

(** A rule whose result shows the field: a hash or a ciphertext of a part of
    the object that contains it. *)
Definition strict_prefix (p q : list string) : Prop := exists k r, q = p ++ k :: r.

Definition shows (mask : FieldMask) (path : list string) : Prop :=
  (Mode mask = RedactionModeHash \/ Mode mask = RedactionModeEncrypt) /\
  strict_prefix (split_on "." (FieldPath mask)) path.

(** A rule that takes the field's value away. *)
Definition hides (mask : FieldMask) (path : list string) : Prop :=
  (Mode mask = RedactionModeRedact \/ Mode mask = RedactionModeRemove) /\
  split_on "." (FieldPath mask) = path.

Section engine.
Context (seal : nat -> string -> string -> option string) (e : Engine).

Abbreviation seal_field := (mask_field seal).
Abbreviation seal_path := (mask_path seal).

(** The effect of a mode on the map that holds the field. *)
Lemma mask_field_cases i mask k v :
  (exists w, forall o, seal_field e i mask k v o = field_set k w o)
  \/ (forall o, seal_field e i mask k v o = field_delete k o)
  \/ (forall o, seal_field e i mask k v o = o).
Proof.
  unfold mask_field. destruct (Mode mask); eauto.
  destruct (encryptValue _ _ _ _); eauto.
Qed.

(** A rule for another key treats the two objects alike. *)
Lemma mask_other i mask k k' parts pre post :
  k' <> k -> k ∉ pre.*1 -> forall v0, exists pre' post', (k ∉ pre'.*1) /\
    forall v, field_get k' (pre ++ (k, v) :: post) = field_get k' (pre ++ (k, v0) :: post) /\
      seal_path e i mask (k' :: parts) (pre ++ (k, v) :: post) = pre' ++ (k, v) :: post'.
Proof.
  intros Hk Hp v0.
  assert (Hget : forall v, field_get k' (pre ++ (k, v) :: post) = field_get k' (pre ++ (k, v0) :: post))
    by (intros v; by apply field_get_other).
  destruct (field_get k' (pre ++ (k, v0) :: post)) as [x|] eqn:Hx.
  2:{ exists pre, post. split; [done|]. intros v. split; [done|].
      cbn. destruct parts; by rewrite Hget. }
  destruct parts as [|p2 parts].
  - destruct (mask_field_cases i mask k' x) as [[w Hw]|[Hd|Hs]].
    + destruct (field_set_other k k' w pre post Hk Hp) as (p' & q' & Hp' & He).
      exists p', q'. split; [done|]. intros v. split; [done|]. cbn. by rewrite Hget, Hw, He.
    + destruct (field_delete_other k k' pre post Hk Hp) as (p' & q' & Hp' & He).
      exists p', q'. split; [done|]. intros v. split; [done|]. cbn. by rewrite Hget, Hd, He.
    + exists pre, post. split; [done|]. intros v. split; [done|]. cbn. by rewrite Hget, Hs.
  - assert (Hun : forall v, seal_path e i mask (k' :: p2 :: parts) (pre ++ (k, v) :: post)
      = match x with
        | JObj next => field_set k' (JObj (seal_path e i mask (p2 :: parts) next)) (pre ++ (k, v) :: post)
        | _ => pre ++ (k, v) :: post
        end).
    { intros v. change (seal_path e i mask (k' :: p2 :: parts) (pre ++ (k, v) :: post)) with
        (match field_get k' (pre ++ (k, v) :: post) with
         | Some (JObj next) => field_set k' (JObj (seal_path e i mask (p2 :: parts) next)) (pre ++ (k, v) :: post)
         | _ => pre ++ (k, v) :: post
         end). rewrite Hget. by destruct x. }
    destruct x as [| | | | |next]; try (exists pre, post; split; [done|]; intros v; by rewrite Hget, Hun).
    destruct (field_set_other k k' (JObj (seal_path e i mask (p2 :: parts) next)) pre post Hk Hp)
      as (p' & q' & Hp' & He).
    exists p', q'. split; [done|]. intros v. by rewrite Hget, Hun, He.
Qed.

Lemma mask_path_below i mask k p2 parts o :
  seal_path e i mask (k :: p2 :: parts) o =
    match field_get k o with
    | Some (JObj next) => field_set k (JObj (seal_path e i mask (p2 :: parts) next)) o
    | _ => o
    end.
Proof. done. Qed.

(** A deletion reaches both objects or neither. *)
Lemma mask_last_alike i mask k pre post v1 v2 :
  k ∉ pre.*1 ->
  seal_path e i mask [k] (pre ++ (k, v1) :: post) = seal_path e i mask [k] (pre ++ (k, v2) :: post)
  \/ (exists w1 w2, seal_path e i mask [k] (pre ++ (k, v1) :: post) = pre ++ (k, w1) :: post
        /\ seal_path e i mask [k] (pre ++ (k, v2) :: post) = pre ++ (k, w2) :: post).
Proof.
  intros Hp. cbn. rewrite !field_get_at by done. unfold mask_field.
  destruct (Mode mask).
  - left. by rewrite !field_set_at.
  - right. do 2 eexists. by rewrite !field_set_at.
  - right. destruct (encryptValue _ _ _ (fmt_value v1)), (encryptValue _ _ _ (fmt_value v2));
      do 2 eexists; rewrite ?field_set_at by done; done.
  - left. by rewrite !field_delete_at.
  - right. eauto.
Qed.

Lemma mask_preserves i mask path o1 o2 parts :
  differ_at path o1 o2 ->
  ((Mode mask = RedactionModeHash \/ Mode mask = RedactionModeEncrypt) -> ~ strict_prefix parts path) ->
  let o1' := seal_path e i mask parts o1 in
  let o2' := seal_path e i mask parts o2 in
  o1' = o2' \/ differ_at path o1' o2'.
Proof.
  intros Hd. revert parts. induction Hd as [k pre v1 v2 post Hp|k path pre m1 m2 post Hp Hne Hd IH];
    intros parts Hs; cbv zeta.
  - destruct parts as [|k' parts]; [right; by constructor|].
    destruct (decide (k' = k)) as [->|Hk].
    + destruct parts as [|p2 parts].
      * destruct (mask_last_alike i mask k pre post v1 v2 Hp) as [|(w1 & w2 & -> & ->)]; [by left|].
        right. by constructor.
      * right. rewrite !mask_path_below, !field_get_at by done.
        destruct v1, v2; rewrite ?field_set_at by done; by constructor.
    + destruct (mask_other i mask k k' parts pre post Hk Hp v1) as (p' & q' & Hp' & He).
      destruct (He v1) as [_ ->], (He v2) as [_ ->]. right. by constructor.
  - destruct parts as [|k' parts]; [right; by constructor|].
    destruct (decide (k' = k)) as [->|Hk].
    + destruct parts as [|p2 parts].
      * cbn. rewrite !field_get_at by done. unfold mask_field.
        assert (Hsp : strict_prefix [k] (k :: path)).
        { destruct path as [|k2 p]; [done|]. by exists k2, p. }
        destruct (Mode mask).
        { left. by rewrite !field_set_at. }
        { exfalso. apply Hs; auto. }
        { exfalso. apply Hs; auto. }
        { left. by rewrite !field_delete_at. }
        { right. by constructor. }
      * rewrite !mask_path_below, !field_get_at, !field_set_at by done.
        destruct (IH (p2 :: parts)) as [->|Hd'].
        { intros Hm (k2 & r & ->). apply Hs; [done|]. by exists k2, r. }
        { by left. }
        { right. by constructor. }
    + destruct (mask_other i mask k k' parts pre post Hk Hp (JObj m1)) as (p' & q' & Hp' & He).
      destruct (He (JObj m1)) as [_ ->], (He (JObj m2)) as [_ ->]. right. by constructor.
Qed.

Lemma mask_hides i mask path o1 o2 :
  differ_at path o1 o2 -> Mode mask = RedactionModeRedact \/ Mode mask = RedactionModeRemove ->
  seal_path e i mask path o1 = seal_path e i mask path o2.
Proof.
  intros Hd Hm. induction Hd as [k pre v1 v2 post Hp|k path pre m1 m2 post Hp Hne Hd IH].
  - cbn. rewrite !field_get_at by done. unfold mask_field.
    destruct Hm as [-> | ->]; [by rewrite !field_set_at|by rewrite !field_delete_at].
  - destruct path as [|p2 path]; [done|].
    by rewrite !mask_path_below, !field_get_at, !field_set_at, IH by done.
Qed.

Lemma apply_rules_hidden path rules1 rule rules2 i o1 o2 :
  Forall (fun r => ~ shows r path) rules1 -> hides rule path -> differ_at path o1 o2 ->
  apply_rules seal e i (rules1 ++ rule :: rules2) o1 = apply_rules seal e i (rules1 ++ rule :: rules2) o2.
Proof.
  intros Hr [Hm Hpath] Hd. revert i o1 o2 Hd.
  induction Hr as [|r rs Hs Hr IH]; intros i o1 o2 Hd; cbn [apply_rules app].
  - unfold applyFieldMask. by rewrite Hpath, (mask_hides i rule path o1 o2 Hd Hm).
  - destruct (mask_preserves i r path o1 o2 (split_on "." (FieldPath r)) Hd) as [He|Hd'].
    + intros Hmode Hsp. by apply Hs.
    + unfold applyFieldMask. by rewrite He.
    + by apply IH.
Qed.

Lemma unmarshal_map_nonempty d o : unmarshal_map d = Ok o -> String.eqb d EmptyString = false.
Proof. destruct d; [done|]. done. Qed.

Lemma RedactData_hidden p eventType rules1 rule rules2 path d1 d2 o1 o2 :
  en_policy e = Some p -> rules_for p eventType = rules1 ++ rule :: rules2 ->
  Forall (fun r => ~ shows r path) rules1 -> hides rule path ->
  unmarshal_map d1 = Ok (Some o1) -> unmarshal_map d2 = Ok (Some o2) -> differ_at path o1 o2 ->
  RedactData seal e eventType d1 = RedactData seal e eventType d2.
Proof.
  intros Hp Hrules Hr Hh H1 H2 Hd. unfold RedactData. rewrite Hp.
  rewrite (unmarshal_map_nonempty d1 _ H1), (unmarshal_map_nonempty d2 _ H2), H1, H2. cbn.
  by rewrite Hrules, (apply_rules_hidden path rules1 rule rules2 0 o1 o2).
Qed.
End engine.

(** An event with another payload. *)
Definition with_payload (d : string) (ev : JobEvent) : JobEvent :=
  mkJobEvent (ev_ID ev) (ev_JobID ev) (ev_Type ev) d (ev_CreatedAt ev) (ev_PrevHash ev) (ev_Hash ev).

(** C23: A field that a rule redacts or removes leaves no trace at rest.  Take
    two payloads that differ, below some path of keys, in the value of one
    field, and a policy with a rule that redacts or removes this field and
    that no rule before it hashes or encrypts a part containing it.  Then,
    whatever else the policy does, the two events are redacted to the same
    text, and appending one or the other through the redacting store gives
    the same answer and the same store. *)
Theorem masked_field_leaves_no_trace seal e p rules1 rule rules2 path ev d1 d2 o1 o2
    now uuid attemptID jobID expectedVersion s :
  en_policy e = Some p ->
  rules_for p (event_type_string (ev_Type ev)) = rules1 ++ rule :: rules2 ->
  Forall (fun r => ~ shows r path) rules1 -> hides rule path ->
  unmarshal_map d1 = Ok (Some o1) -> unmarshal_map d2 = Ok (Some o2) -> differ_at path o1 o2 ->
  RedactData seal e (event_type_string (ev_Type ev)) d1
    = RedactData seal e (event_type_string (ev_Type ev)) d2 /\
  redacting_Append seal (Some e) now uuid attemptID jobID expectedVersion (with_payload d1 ev) s
    = redacting_Append seal (Some e) now uuid attemptID jobID expectedVersion (with_payload d2 ev) s.
Proof.
  intros Hp Hrules Hr Hh H1 H2 Hd.
  assert (Heq : RedactData seal e (event_type_string (ev_Type ev)) d1
                = RedactData seal e (event_type_string (ev_Type ev)) d2).
  { by apply (RedactData_hidden seal e p _ rules1 rule rules2 path d1 d2 o1 o2). }
  split; [done|]. unfold redacting_Append, redactEvent. cbn [with_payload ev_Payload ev_Type].
  rewrite (unmarshal_map_nonempty d1 _ H1), (unmarshal_map_nonempty d2 _ H2), Heq. done.
Qed.

Lemma masked_field_leaves_no_trace_witness :
  let pol := mkPolicy [] [mkMask "b" RedactionModeHash "salt"; mkMask "user.email" RedactionModeRemove ""] in
  let e := NewEngine (Some pol) "" in
  let ev := mkJobEvent "1" "j" NodeFinished "" (Time 0 0) "" "" in
  let d1 := obj_text [("user", obj_text [("email", quote "a@b.c"); ("id", "7")]); ("b", "true")] in
  let d2 := obj_text [("user", obj_text [("email", "null"); ("id", "7")]); ("b", "true")] in
  redacting_Append (fun _ _ _ => None) (Some e) (Time 0 0) "u" "" "j" 0 (with_payload d1 ev) NewMemoryStore
  = redacting_Append (fun _ _ _ => None) (Some e) (Time 0 0) "u" "" "j" 0 (with_payload d2 ev) NewMemoryStore.
Proof.
  intros pol e ev d1 d2.
  apply (masked_field_leaves_no_trace (fun _ _ _ => None) e pol [mkMask "b" RedactionModeHash "salt"]
    (mkMask "user.email" RedactionModeRemove "") [] ["user"; "email"] ev d1 d2
    [("b", JBool true); ("user", JObj [("email", JStr "a@b.c"); ("id", JNum "7")])]
    [("b", JBool true); ("user", JObj [("email", JNull); ("id", JNum "7")])]).
  - reflexivity.
  - reflexivity.
  - constructor; [|constructor]. intros [_ (k & r & [=])].
  - split; [by right|reflexivity].
  - vm_compute. reflexivity.
  - vm_compute. reflexivity.
  - apply (differ_below "user" ["email"] [("b", JBool true)] _ _ []); [|done|].
    + vm_compute. intros H. inversion H as [|? ? ? H1]; inversion H1.
    + apply (differ_here "email" [] _ _ [("id", JNum "7")]). apply not_elem_of_nil.
Defined.

(** ** What is at rest *)

Lemma field_get_set k k' v o :
  field_get k (field_set k' v o) =
    if decide (k = k') then (match field_get k o with Some _ => Some v | None => None end)
    else field_get k o.
Proof.
  induction o as [|[k0 x] o IH]; cbn; [by case_decide|].
  destruct (String.eqb_spec k0 k') as [->|Hn]; cbn.
  - destruct (String.eqb_spec k' k) as [->|]; case_decide; congruence.
  - destruct (String.eqb_spec k0 k) as [->|]; [case_decide; congruence|done].
Qed.

Lemma field_get_delete k k' o :
  field_get k (field_delete k' o) = if decide (k = k') then None else field_get k o.
Proof.
  unfold field_delete. induction o as [|[k0 x] o IH]; [cbn; by case_decide|].
  rewrite filter_cons. cbn [fst field_get]. destruct (decide (k0 <> k')) as [Hn|Hn]; cbn [field_get].
  - destruct (String.eqb_spec k0 k) as [->|]; [case_decide; congruence|done].
  - rewrite IH. destruct (String.eqb_spec k0 k) as [->|]; [|done].
    case_decide; [done|]. destruct Hn; congruence.
Qed.

(** The value at the end of a path of keys. *)
Fixpoint field_at (path : list string) (o : fields) : option json :=
  match path with
  | [] => None
  | [k] => field_get k o
  | k :: rest => match field_get k o with Some (JObj m) => field_at rest m | _ => None end
  end.

Definition overlap (p q : list string) : Prop := p `prefix_of` q \/ q `prefix_of` p.

Section rest.
Context (seal : nat -> string -> string -> option string) (e : Engine).

Lemma mask_path_get k i mask k' parts o :
  k <> k' -> field_get k (mask_path seal e i mask (k' :: parts) o) = field_get k o.
Proof.
  intros Hk. destruct parts as [|p2 parts].
  - cbn. destruct (field_get k' o) as [v|]; [|done].
    destruct (mask_field_cases seal e i mask k' v) as [[w ->]|[-> | ->]];
      rewrite ?field_get_set, ?field_get_delete; try case_decide; done.
  - rewrite mask_path_below. destruct (field_get k' o) as [[]|]; try done.
    rewrite field_get_set. by case_decide.
Qed.

Lemma field_at_other i mask parts path o :
  ~ overlap parts path -> field_at path (mask_path seal e i mask parts o) = field_at path o.
Proof.
  revert parts o. induction path as [|k rest IH]; intros parts o Ho; [done|].
  destruct parts as [|k' parts]; [destruct Ho; left; apply prefix_nil|].
  destruct (decide (k = k')) as [<-|Hk].
  2:{ pose proof (mask_path_get k i mask k' parts o Hk) as Hg.
      cbn [field_at]. destruct rest; by rewrite Hg. }
  destruct rest as [|k2 rest]; [destruct Ho; right; by exists parts|].
  destruct parts as [|p2 parts]; [destruct Ho; left; by exists (k2 :: rest)|].
  rewrite mask_path_below. change (field_at (k :: k2 :: rest) ?x) with
    (match field_get k x with Some (JObj m) => field_at (k2 :: rest) m | _ => None end).
  destruct (field_get k o) as [[]|] eqn:Hg; rewrite ?Hg; try done.
  rewrite field_get_set, Hg, decide_True by done. apply IH.
  intros [[r Hr]|[r Hr]]; apply Ho; [left|right]; exists r; by rewrite Hr.
Qed.

(** What a rule leaves at its own path. *)
Definition masked_value (mask : FieldMask) (v : option json) : Prop :=
  match Mode mask with
  | RedactionModeRedact => v = None \/ v = Some (JStr redacted_marker)
  | RedactionModeRemove => v = None
  | RedactionModeHash => v = None \/ exists x, v = Some (JStr (hashValue (fmt_value x) (Salt mask)))
  | _ => True
  end.

Lemma field_at_masked i mask path o :
  path <> [] -> masked_value mask (field_at path (mask_path seal e i mask path o)).
Proof.
  revert o. induction path as [|k rest IH]; intros o Hne; [done|].
  destruct rest as [|k2 rest].
  - cbn. destruct (field_get k o) as [v|] eqn:Hg.
    2:{ rewrite Hg. unfold masked_value. destruct (Mode mask); auto. }
    unfold masked_value, mask_field. destruct (Mode mask); [right|right; eexists| | |];
      rewrite ?field_get_set, ?field_get_delete, ?Hg, ?decide_True by done; done.
  - rewrite mask_path_below. change (field_at (k :: k2 :: rest) ?x) with
      (match field_get k x with Some (JObj m) => field_at (k2 :: rest) m | _ => None end).
    assert (Hnone : masked_value mask None) by (unfold masked_value; destruct (Mode mask); auto).
    destruct (field_get k o) as [[]|] eqn:Hg; rewrite ?Hg; try done.
    rewrite field_get_set, Hg, decide_True by done. by apply IH.
Qed.

Lemma split_on_nonempty c s : split_on c s <> [].
Proof. destruct s as [|a s]; cbn; [done|]. destruct (Ascii.eqb a c); [done|]. by destruct (split_on c s). Qed.

Lemma apply_rules_masked rules1 mask rules2 i o :
  Forall (fun r => ~ overlap (split_on "." (FieldPath r)) (split_on "." (FieldPath mask))) rules2 ->
  masked_value mask (field_at (split_on "." (FieldPath mask))
    (apply_rules seal e i (rules1 ++ mask :: rules2) o)).
Proof.
  intros Hr. revert i o. induction rules1 as [|r rs IH]; intros i o; cbn [apply_rules app]; [|apply IH].
  assert (Hm := field_at_masked i mask (split_on "." (FieldPath mask)) o (split_on_nonempty _ _)).
  fold (applyFieldMask seal e i o mask) in Hm. revert Hm.
  generalize (applyFieldMask seal e i o mask), (S i). clear o i.
  induction Hr as [|r rs Ho Hr IH]; intros o i Hm; [done|]. cbn [apply_rules]. apply IH.
  unfold applyFieldMask. by rewrite field_at_other.
Qed.
End rest.

(** ** The store behind the wrapper *)

Section store.
Context (e : Engine) (p : RedactionPolicy).

(** The calls of the wrapper that change the store; each append may draw
    other random bytes. *)
Inductive redacting_step : memoryStore -> memoryStore -> Prop :=
| rs_append seal now uuid attempt job v ev s s' n :
    redacting_Append seal (Some e) now uuid attempt job v ev s = Ok (Ret (s', n)) -> redacting_step s s'
| rs_claim order now uuid worker s s' r :
    Claim order now uuid worker s = Ok (s', r) -> redacting_step s s'
| rs_claim_job now uuid worker job s s' r :
    ClaimJob now uuid worker job s = Ok (s', r) -> redacting_step s s'
| rs_heartbeat now worker job s s' :
    Heartbeat now worker job s = Ok s' -> redacting_step s s'
| rs_watch job s : redacting_step s (fst (Watch job s))
| rs_cancel job c s s' : watch_cancel job c s = Ret s' -> redacting_step s s'
| rs_receive c s s' ev : chan_receive c s = Some (s', ev) -> redacting_step s s'.

(** A payload the engine let through for an event type: empty, [null], or an
    object in which every field reads as its last rule left it. *)
Definition redacted_payload (eventType payload : string) : Prop :=
  payload = EmptyString \/ payload = "null" \/
  exists o, payload = marshal_map (Some o) /\
    forall rules1 mask rules2, rules_for p eventType = rules1 ++ mask :: rules2 ->
      Forall (fun r => ~ overlap (split_on "." (FieldPath r)) (split_on "." (FieldPath mask))) rules2 ->
      masked_value mask (field_at (split_on "." (FieldPath mask)) o).

Definition at_rest (s : memoryStore) : Prop :=
  forall job ev, ev ∈ events_of s job -> redacted_payload (event_type_string (ev_Type ev)) (ev_Payload ev).

Lemma RedactData_redacted seal eventType d d' :
  en_policy e = Some p -> RedactData seal e eventType d = Ok d' -> redacted_payload eventType d'.
Proof.
  intros Hp. unfold RedactData. rewrite Hp.
  destruct (String.eqb_spec d EmptyString) as [->|_]; [intros [= <-]; by left|].
  destruct (unmarshal_map d) as [[o|]|]; cbn -[marshal_map]; intros [= <-]; right; [right|by left].
  eexists. split; [reflexivity|]. intros rules1 mask rules2 -> Hr. by apply apply_rules_masked.
Qed.

Lemma redactEvent_redacted seal ev ev' :
  en_policy e = Some p -> redactEvent seal (Some e) ev = Ok ev' ->
  ev_Type ev' = ev_Type ev /\ redacted_payload (event_type_string (ev_Type ev)) (ev_Payload ev').
Proof.
  intros Hp. unfold redactEvent. destruct (String.eqb_spec (ev_Payload ev) EmptyString) as [He|_].
  - intros [= <-]. split; [done|by left].
  - intros (d' & Hd & [= <-])%result_bind_ok. split; [done|]. by eapply RedactData_redacted.
Qed.

(** The event [Append] stores carries the payload and type it was given. *)
Lemma Append_events now uuid attempt job v ev s s' n :
  Append now uuid attempt job v ev s = Ok (Ret (s', n)) ->
  exists ev', ev_Type ev' = ev_Type ev /\ ev_Payload ev' = ev_Payload ev /\
    byJob s' = <[job := events_of s job ++ [ev']]> (byJob s).
Proof.
  unfold Append. intros (u & _ & Hc)%result_bind_ok. revert Hc. unfold append_commit.
  destruct (negb _); [done|]. intros [= Hr].
  apply outcome_bind_ret in Hr as (s1 & Hn & [= <- _]).
  apply notify_keeps in Hn as [Hn _]. eexists. split_and!; [| |exact Hn]; done.
Qed.

Lemma at_rest_same s s' : byJob s' = byJob s -> at_rest s -> at_rest s'.
Proof. intros Hb H job ev. unfold events_of. rewrite Hb. apply H. Qed.

Lemma redacting_step_at_rest s s' :
  en_policy e = Some p -> at_rest s -> redacting_step s s' -> at_rest s'.
Proof.
  intros Hp Hs Hstep. destruct Hstep as [seal now uuid attempt job v ev s s' n H
    |order now uuid worker s s' r H|now uuid worker job s s' r H|now worker job s s' H
    |job s|job c s s' H|c s s' ev H].
  - revert H. unfold redacting_Append. destruct (redactEvent seal (Some e) ev) as [ev'|] eqn:Hr; [|done].
    destruct (Append now uuid attempt job v ev' s) as [o|] eqn:Ha; [|done]. intros [= ->].
    destruct (redactEvent_redacted seal ev ev' Hp Hr) as [Ht Hpay].
    destruct (Append_events _ _ _ _ _ _ _ _ _ Ha) as (ev2 & Ht2 & Hp2 & Hb).
    intros j x. unfold events_of. rewrite Hb, get_default_insert.
    destruct (decide (job = j)) as [<-|]; [|by apply Hs].
    intros [Hx|Hx%list_elem_of_singleton]%elem_of_app; [by apply (Hs job)|].
    subst x. by rewrite Ht2, Hp2, Ht.
  - destruct r as [[job v] att]. apply Claim_ok in H as [_ H]. apply ClaimJob_ok in H as (_ & _ & _ & ->).
    by apply (at_rest_same s).
  - destruct r as [v att]. apply ClaimJob_ok in H as (_ & _ & _ & ->). by apply (at_rest_same s).
  - apply Heartbeat_ok in H as (cl & _ & _ & _ & ->). by apply (at_rest_same s).
  - by apply (at_rest_same s).
  - apply watch_cancel_keeps in H as [Hb _]. by apply (at_rest_same s).
  - apply chan_receive_keeps in H as [Hb _]. by apply (at_rest_same s).
Qed.

(** Whatever is called on the redacting store, in any order, every payload
    at rest went through the engine: it is empty, [null] or an object in which
    each field that a rule masks, and that no later rule touches, is absent,
    or is the marker for a redacting rule, or a salted hash for a hashing one;
    a removed field is absent. *)
Theorem payloads_at_rest_are_redacted s :
  en_policy e = Some p -> rtc redacting_step NewMemoryStore s -> at_rest s.
Proof.
  intros Hp Hr. refine (rtc_preserves at_rest _ _ _ Hr _ _).
  - intros a b Ha Hab. by eapply redacting_step_at_rest.
  - intros job ev. unfold events_of, get_default. cbn. rewrite lookup_empty. by intros ?%elem_of_nil.
Qed.
End store.

Definition demo_store : memoryStore :=
  match redacting_Append (fun _ _ _ => None) (Some (NewEngine (Some DefaultRedactionPolicy) ""))
          (Time 0 0) "u" "" "j" 0 (mkJobEvent "1" "j" ToolInvocationFinished
             (obj_text [("result", quote "secret")]) (Time 0 0) "" "") NewMemoryStore with
  | Ok (Ret (s, _)) => s
  | _ => NewMemoryStore
  end.

Lemma payloads_at_rest_are_redacted_witness :
  map ev_Payload (events_of demo_store "j") = [obj_text [("result", quote redacted_marker)]] /\
  at_rest DefaultRedactionPolicy demo_store.
Proof.
  split; [vm_compute; reflexivity|].
  apply (payloads_at_rest_are_redacted (NewEngine (Some DefaultRedactionPolicy) "")); [reflexivity|].
  apply rtc_once. apply (rs_append _ (fun _ _ _ => None) (Time 0 0) "u" "" "j" 0
    (mkJobEvent "1" "j" ToolInvocationFinished (obj_text [("result", quote "secret")]) (Time 0 0) "" "")
    _ _ 1).
  vm_compute. reflexivity.
Defined.

(** ** Where the engine falls short *)

(** Encryption without a key, which is how the program builds every engine,
    leaves the field as it is and reports nothing. *)
Lemma encrypt_without_key_keeps_value seal p i mask obj :
  Mode mask = RedactionModeEncrypt -> applyFieldMask seal (NewEngine p "") i obj mask = obj.
Proof.
  intros Hm. unfold applyFieldMask. generalize (split_on "." (FieldPath mask)) as path. intros path.
  revert obj. induction path as [|k rest IH]; intros obj; [done|].
  assert (Hset : forall o v, field_get k o = Some v -> field_set k v o = o).
  { clear. induction o as [|[k' x] o IH]; intros v; [done|]. cbn.
    destruct (String.eqb k' k); [by intros [= ->]|]. intros H. by rewrite (IH v H). }
  destruct rest as [|k2 rest].
  - cbn. destruct (field_get k obj); [|done]. unfold mask_field. rewrite Hm. done.
  - rewrite mask_path_below. destruct (field_get k obj) as [[]|] eqn:Hg; try done.
    rewrite IH. by apply Hset.
Qed.

(** Numbers pass through float64: an integer that no rule names comes out as
    another one. *)
Example redaction_rounds_integers :
  RedactData (fun _ _ _ => None) (NewEngine (Some DefaultRedactionPolicy) "") "node_finished"
    (obj_text [("amount", "9007199254740993")])
  = Ok (obj_text [("amount", "9007199254740992")]).
Proof. vm_compute. reflexivity. Qed.

(** The default policy masks the result of a tool call in one event and lets
    the same result through in another. *)
Example command_result_is_not_masked :
  let e := NewEngine (Some DefaultRedactionPolicy) "" in
  let seal := fun _ _ _ => None in
  let result := obj_text [("result", quote "secret")] in
  RedactData seal e "tool_invocation_finished" result = Ok (obj_text [("result", quote redacted_marker)])
  /\ RedactData seal e "command_committed" result = Ok result.
Proof. vm_compute. done. Qed.

Section replayed.
Context (nodeID : string) (p : ToolInvocationFinishedPayload) (v : json).

Definition finished_fields (text : string) (w : json) : list (string * string * json) :=
  [("finished_at", quote (tf_FinishedAt p), JStr (tf_FinishedAt p));
   ("idempotency_key", quote (tf_IdempotencyKey p), JStr (tf_IdempotencyKey p));
   ("invocation_id", quote (tf_InvocationID p), JStr (tf_InvocationID p));
   ("node_id", quote nodeID, JStr nodeID);
   ("outcome", quote (tf_Outcome p), JStr (tf_Outcome p));
   ("result", text, w)].

Definition finished_text (text : string) (w : json) : string := obj_text (fields_of (finished_fields text w)).

Lemma finished_event_payload now jobID s :
  tf_Result p <> EmptyString -> tf_Error p = EmptyString ->
  sm_Events (AppendToolInvocationFinished (fun _ => true) now jobID nodeID p s)
  = sm_Events s ++ [new_event now jobID ToolInvocationFinished (finished_text (tf_Result p) v)].
Proof.
  intros Hr He. unfold AppendToolInvocationFinished, sink_append. cbn [sm_Events]. f_equal. f_equal. f_equal.
  unfold raw_omit, m_str_omit. rewrite He. destruct (tf_Result p) eqn:Ht; [done|]. reflexivity.
Qed.

Context (Hutf : utf8_valid nodeID = true /\ utf8_valid (tf_InvocationID p) = true /\
  utf8_valid (tf_IdempotencyKey p) = true /\ utf8_valid (tf_Outcome p) = true /\
  utf8_valid (tf_FinishedAt p) = true).

Lemma finished_printable text w : scans text w -> Forall printable_field (finished_fields text w).
Proof.
  destruct Hutf as (? & ? & ? & ? & ?). intros Hs.
  unfold finished_fields. rewrite !Forall_cons, Forall_nil. unfold printable_field. cbn [fst snd].
  split_and!; auto using scans_quote.
Qed.

Lemma RedactData_finished seal key :
  scans (tf_Result p) v -> numbers_in_range v = true ->
  RedactData seal (NewEngine (Some DefaultRedactionPolicy) key) "tool_invocation_finished"
    (finished_text (tf_Result p) v)
  = Ok (finished_text (quote redacted_marker) (JStr redacted_marker)).
Proof.
  intros Hs Hn. unfold RedactData. cbn [en_policy].
  assert (Hu : unmarshal (finished_text (tf_Result p) v)
               = Some (JObj (map (fun x => (fst (fst x), snd x)) (finished_fields (tf_Result p) v)))).
  { apply scans_unmarshal, scans_obj_text. by apply finished_printable. }
  assert (Hm : unmarshal_map (finished_text (tf_Result p) v)
               = Ok (Some (map (fun x => (fst (fst x), snd x)) (finished_fields (tf_Result p) (go_maps v))))).
  { unfold unmarshal_map. rewrite Hu. cbn -[quote]. by rewrite Hn. }
  rewrite (unmarshal_map_nonempty _ _ Hm), Hm. cbn [result_bind fmap option_fmap option_map].
  assert (apply_rules seal (NewEngine (Some DefaultRedactionPolicy) key) 0
            (rules_for DefaultRedactionPolicy "tool_invocation_finished")
            (map (fun x => (fst (fst x), snd x)) (finished_fields (tf_Result p) (go_maps v)))
          = map (fun x => (fst (fst x), snd x)) (finished_fields (tf_Result p) (JStr redacted_marker)))
    as -> by reflexivity.
  unfold marshal_map, finished_text. cbn [finished_fields map fst snd fields_of reprint_numbers print].
  by f_equal.
Qed.

(** Redaction at rest takes the recorded result away from replay.  With
    the default policy the event of a successful tool call, as the sink
    writes it, reaches the store with the marker as its result, and replay
    rebuilds a context that answers the call with the marker. *)
Theorem redacted_result_replays_as_marker seal key rc :
  scans (tf_Result p) v -> numbers_in_range v = true ->
  tf_Outcome p = "success" -> tf_IdempotencyKey p <> EmptyString ->
  exists payload,
    RedactData seal (NewEngine (Some DefaultRedactionPolicy) key) "tool_invocation_finished"
      (finished_text (tf_Result p) v) = Ok payload /\
    rc_CompletedToolInvocations (on_tool_finished payload rc) !! tf_IdempotencyKey p
      = Some (quote redacted_marker).
Proof.
  intros Hs Hn Ho Hk. eexists. split; [by apply RedactData_finished|].
  unfold on_tool_finished, payload_members, finished_text.
  rewrite unmarshal_doc_obj; [|done|by apply finished_printable, scans_quote].
  set (ms := members_of _).
  assert (dec_str "idempotency_key" ms = (tf_IdempotencyKey p, false)) as -> by reflexivity.
  assert (dec_str "outcome" ms = (tf_Outcome p, false)) as -> by reflexivity.
  assert (dec_raw "result" ms = quote redacted_marker) as -> by reflexivity.
  rewrite Ho. cbn [orb]. destruct (String.eqb_spec (tf_IdempotencyKey p) EmptyString) as [|_]; [done|].
  cbn [negb orb String.eqb Ascii.eqb Bool.eqb]. cbv iota. apply lookup_insert_eq.
Qed.
End replayed.

Lemma redacted_result_replays_as_marker_witness :
  let p := mkToolFinished "inv" "key" "success" (obj_text [("temp", "21")]) "" "now" in
  exists payload,
    RedactData (fun _ _ _ => None) (NewEngine (Some DefaultRedactionPolicy) "") "tool_invocation_finished"
      (finished_text "n" p (obj_text [("temp", "21")]) (JObj [("temp", JNum "21")])) = Ok payload /\
    rc_CompletedToolInvocations (on_tool_finished payload empty_context) !! "key"
      = Some (quote redacted_marker).
Proof.
  intros p. apply (redacted_result_replays_as_marker "n" p (JObj [("temp", JNum "21")])).
  - repeat split; reflexivity.
  - apply (scans_obj_text [("temp", "21", JNum "21")]). constructor; [|constructor].
    split; [reflexivity|]. apply (scans_itoa 21). lia.
  - reflexivity.
  - reflexivity.
  - discriminate.
Defined.
