(* ===== verification/Evidence.v ===== *)
(** pkg/proof/{types,export,verify,signature}.go and the ledger adapter of
    internal/api/http/forensics.go: evidence packages, how they are written,
    signed and verified.

    An archive is the list of its entries, [None] for one that cannot be read:
    the container format of archive/zip is not modelled.  The signatures of
    crypto/ed25519 are arguments: [sign] and [verify].  [time.Now()] is an argument,
    and so is the order in which a Go map is written. *)

From S2P Require Import Prelude Sha256 GoTime Json GoStrings Base64 TimeParse GoFloat Events MemStore MemStoreProps ProofChain Redaction.

(** ** Data (types.go) *)

Record ToolInvocation := mkInvocation {
  ti_ID : string; ti_JobID : string; ti_IdempotencyKey : string; ti_StepID : string;
  ti_ToolName : string; ti_ArgsHash : string; ti_Status : string; ti_Result : string;
  ti_Committed : bool; ti_Timestamp : string; ti_ExternalID : string;
}.

(** A nil map of hashes is [None]. *)
Record Manifest := mkManifest {
  mf_Version : string; mf_JobID : string; mf_ExportedAt : time; mf_EventCount : Z;
  mf_LedgerCount : Z; mf_FirstEventHash : string; mf_LastEventHash : string;
  mf_FileHashes : option (list (string * string)); mf_RuntimeVersion : string;
  mf_SchemaVersion : string;
}.

Record ProofSummary := mkSummary {
  ps_JobID : string; ps_RootHash : string; ps_ChainValidated : bool; ps_LedgerValidated : bool;
  ps_GeneratedBy : string;
}.

(** The outer [Signature] hides the one of the embedded summary. *)
Record SignedProof := mkSigned {
  sp_Summary : ProofSummary; sp_Signature : string; sp_SignedAt : string; sp_SignerKeyID : string;
}.

Record JobMetadata := mkMetadata {
  md_JobID : string; md_AgentID : string; md_Goal : string; md_Status : string;
  md_CreatedAt : time; md_UpdatedAt : time; md_RetryCount : Z;
}.

Record ExportOptions := mkOptions {
  eo_RuntimeVersion : string; eo_SchemaVersion : string; eo_RedactionEnabled : bool;
  eo_RedactionSalt : string; eo_PrivateKey : string; eo_KeyID : string;
}.

(** ** JSON texts *)

Definition bool_raw (b : bool) : string := if b then "true" else "false".
Definition time_raw (t : time) : string := quote (format_rfc3339nano t).

Definition event_fields (e : Event) : list (string * string) :=
  [("id", quote (pe_ID e)); ("job_id", quote (pe_JobID e)); ("type", quote (pe_Type e));
   ("payload", quote (pe_Payload e)); ("created_at", time_raw (pe_CreatedAt e));
   ("prev_hash", quote (pe_PrevHash e)); ("hash", quote (pe_Hash e))].

Definition marshal_event (e : Event) : option string :=
  if marshalable (pe_CreatedAt e) then Some (obj_text (event_fields e)) else None.

Definition invocation_fields (i : ToolInvocation) : list (string * string) :=
  [("id", quote (ti_ID i)); ("job_id", quote (ti_JobID i));
   ("idempotency_key", quote (ti_IdempotencyKey i)); ("step_id", quote (ti_StepID i));
   ("tool_name", quote (ti_ToolName i)); ("args_hash", quote (ti_ArgsHash i));
   ("status", quote (ti_Status i)); ("result", quote (ti_Result i));
   ("committed", bool_raw (ti_Committed i)); ("timestamp", quote (ti_Timestamp i))]
  ++ m_str_omit "external_id" (ti_ExternalID i).

(** The members of a manifest around the text of its map of hashes. *)
Definition manifest_fields (hashes : string) (m : Manifest) : list (string * string) :=
  [("version", quote (mf_Version m)); ("job_id", quote (mf_JobID m));
   ("exported_at", time_raw (mf_ExportedAt m)); ("event_count", itoa (mf_EventCount m));
   ("ledger_count", itoa (mf_LedgerCount m)); ("first_event_hash", quote (mf_FirstEventHash m));
   ("last_event_hash", quote (mf_LastEventHash m)); ("file_hashes", hashes);
   ("runtime_version", quote (mf_RuntimeVersion m)); ("schema_version", quote (mf_SchemaVersion m))].

Definition hash_fields (m : Manifest) : option (list (string * string)) :=
  map (fun kv => (fst kv, quote (snd kv))) <$> (sort_fields <$> mf_FileHashes m).

(** [json.Marshal] and [json.MarshalIndent(v, "", "  ")] *)
Definition marshal_manifest (m : Manifest) : option string :=
  if marshalable (mf_ExportedAt m) then
    Some (obj_text (manifest_fields (match hash_fields m with Some fs => obj_text fs | None => "null" end) m))
  else None.
Definition indent_manifest (m : Manifest) : option string :=
  if marshalable (mf_ExportedAt m) then
    Some (obj_indent 0 (manifest_fields (match hash_fields m with Some fs => obj_indent 1 fs | None => "null" end) m))
  else None.

Definition summary_fields (p : ProofSummary) : list (string * string) :=
  [("job_id", quote (ps_JobID p)); ("root_hash", quote (ps_RootHash p));
   ("chain_validated", bool_raw (ps_ChainValidated p));
   ("ledger_validated", bool_raw (ps_LedgerValidated p));
   ("generated_by", quote (ps_GeneratedBy p))].

Definition signed_fields (p : SignedProof) : list (string * string) :=
  summary_fields (sp_Summary p) ++ m_str_omit "signature" (sp_Signature p)
  ++ m_str_omit "signed_at" (sp_SignedAt p) ++ m_str_omit "signer_key_id" (sp_SignerKeyID p).

Definition indent_metadata (m : JobMetadata) : option string :=
  if marshalable (md_CreatedAt m) && marshalable (md_UpdatedAt m) then
    Some (obj_indent 0
      [("job_id", quote (md_JobID m)); ("agent_id", quote (md_AgentID m)); ("goal", quote (md_Goal m));
       ("status", quote (md_Status m)); ("created_at", time_raw (md_CreatedAt m));
       ("updated_at", time_raw (md_UpdatedAt m)); ("retry_count", itoa (md_RetryCount m))])
  else None.

(** ** Reading them *)

(** [Time.UnmarshalJSON]: the text between the quotes, escapes unresolved. *)
Definition inner_text (raw : string) : string :=
  match raw with String _ r => str_take (String.length r - 1) r | EmptyString => EmptyString end.

Definition dec_time (name : string) (ms : list member) : time * bool :=
  foldl (fun acc m => match snd (snd m) with
                      | JNull => acc
                      | JStr _ => match parseRFC3339 (inner_text (fst (snd m))) with
                                  | Some t => (t, snd acc)
                                  | None => (fst acc, true)
                                  end
                      | _ => (fst acc, true)
                      end) (zero_time, false) (named name ms).

(** A [map[string]string] member: entries add up, [null] is an empty text. *)
Definition dec_str_map (name : string) (ms : list member) : option (list (string * string)) * bool :=
  foldl (fun acc m => match snd (snd m) with
                      | JNull => (None, snd acc)
                      | JObj l =>
                          (Some (default [] (fst acc)
                             ++ map (fun kv => (fst kv, match snd kv with JStr s => s | _ => EmptyString end)) l),
                           snd acc || existsb (fun kv => match snd kv with JStr _ | JNull => false | _ => true end) l)
                      | _ => (fst acc, true)
                      end) (None, false) (named name ms).

Definition decode_struct {A} (f : list member -> A * bool) (text : string) : option A :=
  let '(a, err) := match unmarshal_doc text with
                   | DocObject ms => f ms
                   | DocNull => (fst (f []), false)
                   | DocOther | DocSyntaxError => (fst (f []), true)
                   end in
  if err then None else Some a.

Definition decode_event (ms : list member) : Event * bool :=
  let s n := dec_str n ms in
  let t := dec_time "created_at" ms in
  (mkEvent (fst (s "id")) (fst (s "job_id")) (fst (s "type")) (fst (s "payload")) (fst t)
     (fst (s "prev_hash")) (fst (s "hash")),
   snd (s "id") || snd (s "job_id") || snd (s "type") || snd (s "payload") || snd t
   || snd (s "prev_hash") || snd (s "hash")).

Definition decode_invocation (ms : list member) : ToolInvocation * bool :=
  let s n := dec_str n ms in
  let c := dec_bool "committed" ms in
  (mkInvocation (fst (s "id")) (fst (s "job_id")) (fst (s "idempotency_key")) (fst (s "step_id"))
     (fst (s "tool_name")) (fst (s "args_hash")) (fst (s "status")) (fst (s "result")) (fst c)
     (fst (s "timestamp")) (fst (s "external_id")),
   snd (s "id") || snd (s "job_id") || snd (s "idempotency_key") || snd (s "step_id")
   || snd (s "tool_name") || snd (s "args_hash") || snd (s "status") || snd (s "result") || snd c
   || snd (s "timestamp") || snd (s "external_id")).

Definition decode_manifest (ms : list member) : Manifest * bool :=
  let s n := dec_str n ms in
  let t := dec_time "exported_at" ms in
  let n1 := dec_int "event_count" ms in
  let n2 := dec_int "ledger_count" ms in
  let h := dec_str_map "file_hashes" ms in
  (mkManifest (fst (s "version")) (fst (s "job_id")) (fst t) (fst n1) (fst n2)
     (fst (s "first_event_hash")) (fst (s "last_event_hash")) (fst h)
     (fst (s "runtime_version")) (fst (s "schema_version")),
   snd (s "version") || snd (s "job_id") || snd t || snd n1 || snd n2 || snd (s "first_event_hash")
   || snd (s "last_event_hash") || snd h || snd (s "runtime_version") || snd (s "schema_version")).

Definition decode_proof (ms : list member) : SignedProof * bool :=
  let s n := dec_str n ms in
  let b n := dec_bool n ms in
  (mkSigned (mkSummary (fst (s "job_id")) (fst (s "root_hash")) (fst (b "chain_validated"))
               (fst (b "ledger_validated")) (fst (s "generated_by")))
     (fst (s "signature")) (fst (s "signed_at")) (fst (s "signer_key_id")),
   snd (s "job_id") || snd (s "root_hash") || snd (b "chain_validated") || snd (b "ledger_validated")
   || snd (s "generated_by") || snd (s "signature") || snd (s "signed_at") || snd (s "signer_key_id")).

(** [parseEventsNDJSON] and [parseLedgerNDJSON]: the error is the line's number. *)
Fixpoint parse_lines {A} (decode : string -> option A) (i : Z) (lines : list string) : result Z (list A) :=
  match lines with
  | [] => Ok []
  | line :: r =>
      match TrimSpace line with
      | EmptyString => parse_lines decode (i + 1) r
      | text => match decode text with
                | None => Err i
                | Some a => try rest <- parse_lines decode (i + 1) r ;; Ok (a :: rest)
                end
      end
  end.

Definition parseEventsNDJSON (data : string) : result Z (list Event) :=
  parse_lines (decode_struct decode_event) 1 (split_on lf data).
Definition parseLedgerNDJSON (data : string) : result Z (list ToolInvocation) :=
  parse_lines (decode_struct decode_invocation) 1 (split_on lf data).

Definition eventsToNDJSON (events : list Event) : option string := unlines <$> mapM marshal_event events.
Definition ledgerToNDJSON (ledger : list ToolInvocation) : string :=
  unlines (map (fun i => obj_text (invocation_fields i)) ledger).

(** ** Consistency of ledger and events (verify.go:180-242) *)

(** A member of a decoded payload that is a string. *)
Definition get_str (name : string) (o : fields) : option string :=
  match field_get name o with Some (JStr s) => Some s | _ => None end.

Definition payload_object (payload : string) : option fields :=
  match unmarshal_map payload with Ok o => Some (default [] o) | Err _ => None end.

(** The key of an event of the given type and its payload. *)
Definition keyed_payload (ty : string) (e : Event) : option (string * fields) :=
  if String.eqb (pe_Type e) ty then
    o ← payload_object (pe_Payload e);
    key ← get_str "idempotency_key" o;
    if String.eqb key EmptyString then None else Some (key, o)
  else None.

Definition finished_map (events : list Event) : gmap string fields :=
  foldl (fun m e => match keyed_payload "tool_invocation_finished" e with
                    | Some (key, o) => <[key := o]> m
                    | None => m
                    end) ∅ events.

Definition ledger_map (ledger : list ToolInvocation) : gmap string ToolInvocation :=
  foldl (fun m i => <[ti_IdempotencyKey i := i]> m) ∅ ledger.

Inductive ledger_error :=
| MissingInLedger (key : string)
| ToolNameMismatch (key : string)
| NotCommitted (key : string)
| NoFinishedEvent (key : string).

Definition check_finished (lm : gmap string ToolInvocation) (key : string) (o : fields)
    : result ledger_error unit :=
  match lm !! key with
  | None => Err (MissingInLedger key)
  | Some inv =>
      let name_differs := match get_str "tool_name" o with
                          | Some n => negb (String.eqb n EmptyString) && negb (String.eqb n (ti_ToolName inv))
                          | None => false
                          end in
      let not_committed := match get_str "outcome" o with
                           | Some out => String.eqb out "success" && negb (ti_Committed inv)
                           | None => false
                           end in
      if name_differs then Err (ToolNameMismatch key)
      else if not_committed then Err (NotCommitted key)
      else Ok tt
  end.

Fixpoint check_each {A} (f : A -> result ledger_error unit) (l : list A) : result ledger_error unit :=
  match l with
  | [] => Ok tt
  | x :: r => try _ <- f x ;; check_each f r
  end.

(** The finished events are visited in the order of a Go map, here that of
    [map_to_list]; it decides only which error is reported. *)
Definition ValidateLedgerConsistency (events : list Event) (ledger : list ToolInvocation)
    : result ledger_error unit :=
  let fm := finished_map events in
  let lm := ledger_map ledger in
  try _ <- check_each (fun kv => check_finished lm (fst kv) (snd kv)) (map_to_list fm) ;;
  check_each (fun inv =>
    if ti_Committed inv then
      match fm !! ti_IdempotencyKey inv with
      | None => Err (NoFinishedEvent (ti_IdempotencyKey inv))
      | Some _ => Ok tt
      end
    else Ok tt) ledger.

(** ** Export (export.go) *)

(** forensics.go:274-279; the defaults of the manifest are set the same way. *)
Definition fallback (v d : string) : string := match v with EmptyString => d | _ => v end.

Definition ComputeFileHash (data : string) : string := hex_sha256 data.

Definition export_rules (salt : string) : RedactionPolicy :=
  let hash p := mkMask p RedactionModeHash salt in
  let redact p := mkMask p RedactionModeRedact EmptyString in
  let remove p := mkMask p RedactionModeRemove EmptyString in
  mkPolicy [] [hash "email"; hash "phone"; redact "ssn"; redact "credit_card"; remove "api_key";
               remove "token"; remove "password"; remove "secret"].

Definition with_pe_Payload (payload : string) (e : Event) : Event :=
  mkEvent (pe_ID e) (pe_JobID e) (pe_Type e) payload (pe_CreatedAt e) (pe_PrevHash e) (pe_Hash e).

(** No rule encrypts, so the engine draws no random bytes. *)
Definition redact_payload (salt : string) (e : Event) : result unmarshal_error string :=
  if String.eqb (TrimSpace (pe_Payload e)) EmptyString then Ok (pe_Payload e)
  else RedactData (fun _ _ _ => None) (NewEngine (Some (export_rules salt)) EmptyString)
         (pe_Type e) (pe_Payload e).

Fixpoint redact_from (salt prevHash : string) (events : list Event) : result unmarshal_error (list Event) :=
  match events with
  | [] => Ok []
  | e :: r =>
      try payload <- redact_payload salt e ;;
      let redacted := relink prevHash (with_pe_Payload payload e) in
      try rest <- redact_from salt (pe_Hash redacted) r ;;
      Ok (redacted :: rest)
  end.

Definition redactEventsForExport (events : list Event) (salt : string) : result unmarshal_error (list Event) :=
  redact_from salt EmptyString events.

Definition set_status (st : string) (m : JobMetadata) : JobMetadata :=
  mkMetadata (md_JobID m) (md_AgentID m) (md_Goal m) st (md_CreatedAt m) (md_UpdatedAt m) (md_RetryCount m).

(** A member of the creation event that is a string with more than blanks. *)
Definition nonblank_str (name : string) (o : fields) : option string :=
  match get_str name o with
  | Some s => if String.eqb (TrimSpace s) EmptyString then None else Some s
  | None => None
  end.

Definition metadata_event (m : JobMetadata) (e : Event) : JobMetadata :=
  let typed t := String.eqb (pe_Type e) t in
  if typed "job_completed" then set_status "completed" m
  else if typed "job_failed" then set_status "failed" m
  else if typed "job_cancelled" then set_status "cancelled" m
  else if typed "job_running" then
    (if String.eqb (md_Status m) "unknown" then set_status "running" m else m)
  else if typed "job_created" then
    match payload_object (pe_Payload e) with
    | Some o => mkMetadata (md_JobID m) (default (md_AgentID m) (nonblank_str "agent_id" o))
                  (default (md_Goal m) (nonblank_str "goal" o)) (md_Status m) (md_CreatedAt m)
                  (md_UpdatedAt m) (md_RetryCount m)
    | None => m
    end
  else if typed "job_requeued" then
    mkMetadata (md_JobID m) (md_AgentID m) (md_Goal m) (md_Status m) (md_CreatedAt m) (md_UpdatedAt m)
      (md_RetryCount m + 1)
  else m.

Definition extractJobMetadata (jobID : string) (first : Event) (events : list Event) : JobMetadata :=
  foldl metadata_event
    (mkMetadata jobID EmptyString EmptyString "unknown" (pe_CreatedAt first)
       (pe_CreatedAt (default first (last events))) 0) events.

Inductive export_error :=
| JobIDRequired | ListEventsFailed | NoEvents | ChainFailed (e : chain_error) | SaltRequired
| RedactionFailed (e : unmarshal_error) | ListLedgerFailed | SerializeFailed | SigningKeyInvalid.

Section keys.
Context (sign : string -> string -> string) (verify : string -> string -> string -> bool).

Definition PrivateKeySize : nat := 64.
Definition PublicKeySize : nat := 32.

Definition signed_payload (m : Manifest) (events : list Event) (ledger : list ToolInvocation) : string :=
  default EmptyString (marshal_manifest m)
  +:+ (default EmptyString (eventsToNDJSON events) +:+ ledgerToNDJSON ledger).

(** [ed25519.Sign] and [ed25519.Verify] panic on a key of the wrong length. *)
Definition SignEvidence (privateKey : string) (m : Manifest) (events : list Event)
    (ledger : list ToolInvocation) : outcome string :=
  if (String.length privateKey =? PrivateKeySize)%nat
  then Ret (b64_encode (sign privateKey (signed_payload m events ledger)))
  else Panic "ed25519: bad private key length".

Definition VerifySignature (publicKey : string) (m : Manifest) (events : list Event)
    (ledger : list ToolInvocation) (signature : string) : outcome bool :=
  match b64_decode signature with
  | None => Ret false
  | Some sig =>
      if (String.length publicKey =? PublicKeySize)%nat
      then Ret (verify publicKey (signed_payload m events ledger) sig)
      else Panic "ed25519: bad public key length"
  end.

(** The manifest that is signed: the hash of the proof file is added to its
    map only later, after the manifest was printed. *)
Definition export_manifest (now : time) (jobID : string) (first : Event) (events : list Event)
    (ledger : list ToolInvocation) (hashes : list (string * string)) (opts : ExportOptions) : Manifest :=
  mkManifest "2.0" jobID (t_utc now) (Z.of_nat (length events)) (Z.of_nat (length ledger))
    (pe_Hash first) (pe_Hash (default first (last events))) (Some hashes)
    (fallback (eo_RuntimeVersion opts) "2.0.0") (fallback (eo_SchemaVersion opts) "2.0").

Definition export_proof (now : time) (jobID : string) (m : Manifest) (first : Event) (events : list Event)
    (ledger : list ToolInvocation) (opts : ExportOptions) : outcome string :=
  let summary := mkSummary jobID (pe_Hash (default first (last events))) true true
                   ("aetheris " +:+ eo_RuntimeVersion opts) in
  match eo_PrivateKey opts with
  | EmptyString => Ret (obj_indent 0 (summary_fields summary))
  | key => run sig <- SignEvidence key m events ledger ;;
           Ret (obj_indent 0 (signed_fields (mkSigned summary sig (format_rfc3339 (t_utc now))
                                               (fallback (eo_KeyID opts) "default"))))
  end.

(** From the events to the files, once they are validated and redacted. *)
Definition package (now : time) (jobID : string) (first : Event) (events : list Event)
    (ledger : list ToolInvocation) (opts : ExportOptions)
    : outcome (result export_error (list (string * string))) :=
  match eventsToNDJSON events, indent_metadata (extractJobMetadata jobID first events) with
  | Some ed, Some meta =>
      let ld := ledgerToNDJSON ledger in
      let hashes := [("events.ndjson", ComputeFileHash ed); ("ledger.ndjson", ComputeFileHash ld);
                     ("metadata.json", ComputeFileHash meta)] in
      let m := export_manifest now jobID first events ledger hashes opts in
      match indent_manifest m with
      | Some md =>
          run proof <- export_proof now jobID m first events ledger opts ;;
          Ret (Ok [("manifest.json", md); ("events.ndjson", ed); ("ledger.ndjson", ld);
                   ("proof.json", proof); ("metadata.json", meta)])
      | None => Ret (Err SerializeFailed)
      end
  | _, _ => Ret (Err SerializeFailed)
  end.

(** [listed] is what the job store returned, [None] an error; [ledger] is nil
    as [None], and [Some None] is an error. *)
Definition ExportEvidenceZip (now : time) (jobID : string) (listed : option (list Event))
    (ledger : option (option (list ToolInvocation))) (opts : ExportOptions)
    : outcome (result export_error (list (string * string))) :=
  if String.eqb jobID EmptyString then Ret (Err JobIDRequired)
  else match listed with
  | None => Ret (Err ListEventsFailed)
  | Some events =>
      if bool_decide (events = []) then Ret (Err NoEvents)
      else match ValidateChain events with
      | Err e => Ret (Err (ChainFailed e))
      | Ok _ =>
          if eo_RedactionEnabled opts && String.eqb (TrimSpace (eo_RedactionSalt opts)) EmptyString
          then Ret (Err SaltRequired)
          else match (if eo_RedactionEnabled opts then redactEventsForExport events (eo_RedactionSalt opts)
                      else Ok events) with
          | Err e => Ret (Err (RedactionFailed e))
          | Ok events =>
              match ledger with
              | Some None => Ret (Err ListLedgerFailed)
              | _ => match events with
                     | [] => Ret (Err NoEvents)
                     | first :: _ => package now jobID first events (default [] (default None ledger)) opts
                     end
              end
          end
      end
  end.

(** ** Verification (verify.go) *)

Inductive verify_error :=
| ZipUnreadable
| EntryUnreadable (name : string)
| FileNotFound (name : string)
| ParseFailed (name : string)
| LineFailed (name : string) (line : Z)
| FileHashMismatch (name : string)
| DeclaredFileMissing (name : string)
| ChainInvalid (e : chain_error)
| LedgerInconsistent (e : ledger_error)
| RootHashMismatch
| ProofUnsigned
| SignatureFailed.

Record VerifyResult := mkVerify {
  vr_OK : bool; vr_Errors : list verify_error; vr_Events : list Event; vr_EventsValid : bool;
  vr_LedgerValid : bool; vr_HashChainValid : bool; vr_ManifestValid : bool; vr_SignatureValid : bool;
}.

Definition init_result : VerifyResult := mkVerify true [] [] false false false false false.

Definition fail (e : verify_error) (r : VerifyResult) : VerifyResult :=
  mkVerify false (vr_Errors r ++ [e]) (vr_Events r) (vr_EventsValid r) (vr_LedgerValid r)
    (vr_HashChainValid r) (vr_ManifestValid r) (vr_SignatureValid r).
Definition set_manifest_valid (r : VerifyResult) : VerifyResult :=
  mkVerify (vr_OK r) (vr_Errors r) (vr_Events r) (vr_EventsValid r) (vr_LedgerValid r)
    (vr_HashChainValid r) true (vr_SignatureValid r).
Definition set_events (es : list Event) (r : VerifyResult) : VerifyResult :=
  mkVerify (vr_OK r) (vr_Errors r) es (vr_EventsValid r) (vr_LedgerValid r)
    (vr_HashChainValid r) (vr_ManifestValid r) (vr_SignatureValid r).
Definition set_chain_valid (r : VerifyResult) : VerifyResult :=
  mkVerify (vr_OK r) (vr_Errors r) (vr_Events r) true (vr_LedgerValid r) true (vr_ManifestValid r)
    (vr_SignatureValid r).
Definition set_ledger_valid (r : VerifyResult) : VerifyResult :=
  mkVerify (vr_OK r) (vr_Errors r) (vr_Events r) (vr_EventsValid r) true (vr_HashChainValid r)
    (vr_ManifestValid r) (vr_SignatureValid r).
Definition set_signature_valid (r : VerifyResult) : VerifyResult :=
  mkVerify (vr_OK r) (vr_Errors r) (vr_Events r) (vr_EventsValid r) (vr_LedgerValid r)
    (vr_HashChainValid r) (vr_ManifestValid r) true.

(** Lines 51-68: an entry that cannot be read is reported and left out; of
    entries with one name the last counts. *)
Definition read_entry (acc : gmap string string * VerifyResult) (entry : string * option string)
    : gmap string string * VerifyResult :=
  match snd entry with
  | Some data => (<[fst entry := data]> (fst acc), snd acc)
  | None => (fst acc, fail (EntryUnreadable (fst entry)) (snd acc))
  end.

(** Lines 85-98 *)
Definition check_hash (files : gmap string string) (r : VerifyResult) (kv : string * string) : VerifyResult :=
  match files !! fst kv with
  | Some data => if String.eqb (ComputeFileHash data) (snd kv) then r else fail (FileHashMismatch (fst kv)) r
  | None => fail (DeclaredFileMissing (fst kv)) r
  end.

(** Lines 126-143 *)
Definition check_ledger (files : gmap string string) (events : list Event) (r : VerifyResult) : VerifyResult :=
  match files !! "ledger.ndjson" with
  | None => r
  | Some data =>
      match parseLedgerNDJSON data with
      | Err line => fail (LineFailed "ledger.ndjson" line) r
      | Ok ledger => match ValidateLedgerConsistency events ledger with
                     | Err e => fail (LedgerInconsistent e) r
                     | Ok _ => set_ledger_valid r
                     end
      end
  end.

(** [VerifySignatureFromZipWithKey] reads the package's files again. *)
Definition VerifySignatureFromZipWithKey (files : gmap string string) (signature publicKey : string)
    : outcome bool :=
  match files !! "manifest.json" with
  | None => Ret false
  | Some md =>
      match decode_struct decode_manifest md with
      | None => Ret false
      | Some m =>
          match files !! "events.ndjson" with
          | None => Ret false
          | Some ed =>
              match parseEventsNDJSON ed with
              | Err _ => Ret false
              | Ok events =>
                  match (match files !! "ledger.ndjson" with
                         | Some ld => parseLedgerNDJSON ld
                         | None => Ok []
                         end) with
                  | Err _ => Ret false
                  | Ok ledger => VerifySignature publicKey m events ledger signature
                  end
              end
          end
      end
  end.

(** Lines 145-177; [pubKey] is nil as [None]. *)
Definition check_proof (files : gmap string string) (pubKey : option string) (events : list Event)
    (r : VerifyResult) : outcome VerifyResult :=
  match files !! "proof.json" with
  | None => Ret r
  | Some data =>
      match decode_struct decode_proof data with
      | None => Ret (fail (ParseFailed "proof.json") r)
      | Some sp =>
          let r := match last events with
                   | Some e => if String.eqb (ps_RootHash (sp_Summary sp)) (pe_Hash e) then r
                               else fail RootHashMismatch r
                   | None => r
                   end in
          match pubKey with
          | None => Ret r
          | Some pk =>
              if String.eqb (sp_Signature sp) EmptyString then Ret (fail ProofUnsigned r)
              else run ok <- VerifySignatureFromZipWithKey files (sp_Signature sp) pk ;;
                   Ret (if ok then set_signature_valid r else fail SignatureFailed r)
          end
      end
  end.

Definition VerifyEvidenceZip (zip : option (list (string * option string))) (pubKey : option string)
    : outcome VerifyResult :=
  match zip with
  | None => Ret (fail ZipUnreadable init_result)
  | Some entries =>
      let '(files, r) := foldl read_entry (∅, init_result) entries in
      match files !! "manifest.json" with
      | None => Ret (fail (FileNotFound "manifest.json") r)
      | Some md =>
          match decode_struct decode_manifest md with
          | None => Ret (fail (ParseFailed "manifest.json") r)
          | Some m =>
              let r := foldl (check_hash files) (set_manifest_valid r)
                         (sort_fields (default [] (mf_FileHashes m))) in
              match files !! "events.ndjson" with
              | None => Ret (fail (FileNotFound "events.ndjson") r)
              | Some ed =>
                  match parseEventsNDJSON ed with
                  | Err line => Ret (fail (LineFailed "events.ndjson" line) r)
                  | Ok events =>
                      let r := set_events events r in
                      let r := match ValidateChain events with
                               | Err e => fail (ChainInvalid e) r
                               | Ok _ => set_chain_valid r
                               end in
                      check_proof files pubKey events (check_ledger files events r)
                  end
              end
          end
      end
  end.
End keys.

(** ** The ledger of the server's packages (forensics.go:152-279) *)

Record invocationAcc := mkAcc {
  ia_invocationID : string; ia_stepID : string; ia_toolName : string; ia_argsHash : string;
  ia_outcome : string; ia_result : string; ia_timestamp : string;
}.

Definition getString (o : fields) (key : string) : string := default EmptyString (get_str key o).

Definition acc_event (finished : bool) (o : fields) (acc : invocationAcc) : invocationAcc :=
  let upd name old := fallback (getString o name) old in
  let ts := match ia_timestamp acc with EmptyString => getString o "started_at" | t => t end in
  mkAcc (upd "invocation_id" (ia_invocationID acc)) (upd "step_id" (ia_stepID acc))
    (upd "tool_name" (ia_toolName acc)) (upd "arguments_hash" (ia_argsHash acc))
    (if finished then getString o "outcome" else ia_outcome acc)
    (if finished then match field_get "result" o with
                      | Some v => print (reprint_numbers v)
                      | None => ia_result acc
                      end
     else ia_result acc)
    (fallback (getString o "finished_at") ts).

Definition empty_acc : invocationAcc :=
  mkAcc EmptyString EmptyString EmptyString EmptyString EmptyString EmptyString EmptyString.

Definition ledger_event (byKey : gmap string invocationAcc) (e : JobEvent) : gmap string invocationAcc :=
  let started := bool_decide (ev_Type e = ToolInvocationStarted) in
  let finished := bool_decide (ev_Type e = ToolInvocationFinished) in
  if started || finished then
    match payload_object (ev_Payload e) with
    | None => byKey
    | Some o =>
        let key := getString o "idempotency_key" in
        if String.eqb key EmptyString then byKey
        else <[key := acc_event finished o (default empty_acc (byKey !! key))]> byKey
    end
  else byKey.

Definition invocation_of (jobID : string) (kv : string * invocationAcc) : ToolInvocation :=
  let '(key, acc) := kv in
  let has := negb (String.eqb (ia_outcome acc) EmptyString) in
  mkInvocation (fallback (ia_invocationID acc) key) jobID key (ia_stepID acc) (ia_toolName acc)
    (ia_argsHash acc) (if has then ia_outcome acc else "started") (ia_result acc)
    (has && String.eqb (ia_outcome acc) "success") (ia_timestamp acc) EmptyString.

(** The keys are sorted. *)
Definition ListToolInvocations (events : list JobEvent) (jobID : string) : list ToolInvocation :=
  map (invocation_of jobID) (sort_fields (map_to_list (foldl ledger_event ∅ events))).

(** [buildForensicsPackage] over the store's stream (forensics.go:77-101);
    [signing] is the key and its name when signing is enabled. *)
Definition buildForensicsPackage (sign : string -> string -> string) (now : time) (jobID : string)
    (stream : list JobEvent) (signing : option (string * string))
    : outcome (result export_error (list (string * string))) :=
  if match signing with
     | Some (key, _) => negb (String.length key =? PrivateKeySize)%nat
     | None => false
     end
  then Ret (Err SigningKeyInvalid)
  else ExportEvidenceZip sign now jobID (Some (adapter_ListEvents stream))
    (Some (Some (ListToolInvocations stream jobID)))
    (mkOptions "2.0.0" "2.0" false EmptyString (default EmptyString (fst <$> signing))
       (default EmptyString (snd <$> signing))).
