(* ===== verification/EvidenceProps.v ===== *)
(** Properties of evidence packages: what is exported is accepted, what an
    accepted package is tied to, when ledger and events agree, and what the
    verification does not cover. *)

From S2P Require Import Prelude Sha256 GoTime Json GoStrings Base64 TimeParse JsonFacts GoFloat Events MemStore MemStoreProps ProofChain Redaction Evidence.

(** ** The parts of a package read back *)

Definition printable_time (t : time) : bool := marshalable t && whole_minutes t.

Definition printable_event (e : Event) : bool :=
  utf8_valid (pe_ID e) && utf8_valid (pe_JobID e) && utf8_valid (pe_Type e) && utf8_valid (pe_Payload e)
  && utf8_valid (pe_PrevHash e) && utf8_valid (pe_Hash e) && printable_time (pe_CreatedAt e).

Definition printable_invocation (i : ToolInvocation) : bool :=
  utf8_valid (ti_ID i) && utf8_valid (ti_JobID i) && utf8_valid (ti_IdempotencyKey i)
  && utf8_valid (ti_StepID i) && utf8_valid (ti_ToolName i) && utf8_valid (ti_ArgsHash i)
  && utf8_valid (ti_Status i) && utf8_valid (ti_Result i) && utf8_valid (ti_Timestamp i)
  && utf8_valid (ti_ExternalID i).

Lemma inner_text_quote s : str_all verbatim s = true -> inner_text (quote s) = s.
Proof.
  intros H. unfold quote. rewrite quote_verbatim by done. cbn [inner_text].
  rewrite length_app_str. cbn [String.length].
  replace (String.length s + 1 - 1)%nat with (String.length s) by lia. apply str_take_app.
Qed.

Lemma parse_time_raw t :
  printable_time t = true -> parseRFC3339 (inner_text (time_raw t)) = Some t.
Proof.
  unfold printable_time, time_raw. intros [Hm Hw]%andb_prop.
  rewrite inner_text_quote by apply format_verbatim. by apply parse_format.
Qed.

Lemma scans_time t : scans (time_raw t) (JStr (format_rfc3339nano t)).
Proof. apply scans_quote, verbatim_utf8, format_verbatim. Qed.
Create HintDb json discriminated.
#[local] Hint Resolve scans_quote scans_time : json.

Lemma scans_bool_raw b : scans (bool_raw b) (JBool b).
Proof. apply scans_bool. Qed.
#[local] Hint Resolve scans_bool_raw : json.

Ltac printable :=
  rewrite ?Forall_app, ?Forall_cons, ?Forall_nil; unfold printable_field; cbn [fst snd];
  split_and?; try done; try (exact I); auto with json.

(** The only member with a name, as the decoders find it. *)
Lemma decode_event_line e :
  printable_event e = true ->
  decode_struct decode_event (obj_text (event_fields e)) = Some e.
Proof.
  destruct e as [i j ty p t ph h]. unfold printable_event. intros H.
  cbn [pe_ID pe_JobID pe_Type pe_Payload pe_CreatedAt pe_PrevHash pe_Hash] in H. bool_hyps.
  set (fs := [("id", quote i, JStr i); ("job_id", quote j, JStr j); ("type", quote ty, JStr ty);
    ("payload", quote p, JStr p); ("created_at", time_raw t, JStr (format_rfc3339nano t));
    ("prev_hash", quote ph, JStr ph); ("hash", quote h, JStr h)] : list (string * string * json)).
  change (event_fields _) with (fields_of fs).
  unfold decode_struct. rewrite unmarshal_doc_obj; [|done|unfold fs; printable].
  assert (dec_time "created_at" (members_of fs) = (t, false)) as Ht.
  { change (dec_time "created_at" (members_of fs)) with
      (match parseRFC3339 (inner_text (time_raw t)) with Some t => (t, false) | None => (zero_time, true) end).
    by rewrite parse_time_raw. }
  unfold decode_event. rewrite Ht. reflexivity.
Qed.

Lemma decode_invocation_line x :
  printable_invocation x = true ->
  decode_struct decode_invocation (obj_text (invocation_fields x)) = Some x.
Proof.
  destruct x as [i j k st tn ah ss r c ts ex]. unfold printable_invocation. intros H.
  cbn [ti_ID ti_JobID ti_IdempotencyKey ti_StepID ti_ToolName ti_ArgsHash ti_Status ti_Result ti_Committed
       ti_Timestamp ti_ExternalID] in H. bool_hyps.
  set (fs := [("id", quote i, JStr i); ("job_id", quote j, JStr j); ("idempotency_key", quote k, JStr k);
    ("step_id", quote st, JStr st); ("tool_name", quote tn, JStr tn); ("args_hash", quote ah, JStr ah);
    ("status", quote ss, JStr ss); ("result", quote r, JStr r); ("committed", bool_raw c, JBool c);
    ("timestamp", quote ts, JStr ts)] : list (string * string * json)).
  set (fs' := fs ++ match ex with EmptyString => [] | _ => [("external_id", quote ex, JStr ex)] end).
  assert (invocation_fields (mkInvocation i j k st tn ah ss r c ts ex) = fields_of fs') as ->
    by (unfold fs'; by destruct ex).
  assert (Hfs : Forall printable_field fs') by (unfold fs', fs; destruct ex; printable).
  unfold decode_struct. rewrite unmarshal_doc_obj; [|done|done].
  unfold decode_invocation. unfold fs'. destruct ex; reflexivity.
Qed.

(** ** Lines *)

Lemma obj_text_line fs :
  Forall (fun kr => str_in lf (snd kr) = false) fs ->
  str_in lf (obj_text fs) = false /\ TrimSpace (obj_text fs) = obj_text fs.
Proof.
  intros H. split; [by apply obj_text_no_lf|]. rewrite obj_text_unfold.
  by apply (TrimSpace_plain "{" _ "}").
Qed.

Lemma bool_raw_no_lf b : str_in lf (bool_raw b) = false.
Proof. by destruct b. Qed.

Lemma parse_lines_round {A} (decode : string -> option A) (text : A -> string) xs i :
  Forall (fun x => decode (text x) = Some x /\ text x <> EmptyString /\ TrimSpace (text x) = text x) xs ->
  parse_lines decode i (map text xs ++ [EmptyString]) = Ok xs.
Proof.
  intros H. revert i. induction H as [|x xs (Hd & Hne & Ht) Hxs IH]; intros i; [done|].
  cbn [map app parse_lines]. rewrite Ht. destruct (text x) eqn:Hx; [done|]. by rewrite <- Hx, Hd, IH in *.
Qed.

Lemma event_line_plain e : Forall (fun kr => str_in lf (snd kr) = false) (event_fields e).
Proof. unfold event_fields. repeat constructor; cbn [snd]; apply quote_no_lf. Qed.

Lemma invocation_line_plain x : Forall (fun kr => str_in lf (snd kr) = false) (invocation_fields x).
Proof.
  unfold invocation_fields. apply Forall_app. split.
  - repeat constructor; cbn [snd]; first [apply quote_no_lf | apply bool_raw_no_lf].
  - unfold m_str_omit, m_str. destruct (ti_ExternalID x); repeat constructor. apply quote_no_lf.
Qed.

Lemma eventsToNDJSON_some es :
  Forall (fun e => printable_event e = true) es ->
  eventsToNDJSON es = Some (unlines (map (fun e => obj_text (event_fields e)) es)).
Proof.
  intros H. unfold eventsToNDJSON. assert (mapM marshal_event es = Some (map (fun e => obj_text (event_fields e)) es))
    as ->; [|done].
  apply mapM_Some, Forall2_fmap_r, Forall_Forall2_diag. eapply Forall_impl; [exact H|]. intros e He.
  unfold marshal_event. unfold printable_event, printable_time in He.
  apply andb_prop in He as [_ He]. by apply andb_prop in He as [-> _].
Qed.

Lemma parse_events es :
  Forall (fun e => printable_event e = true) es ->
  parseEventsNDJSON (unlines (map (fun e => obj_text (event_fields e)) es)) = Ok es.
Proof.
  intros H. unfold parseEventsNDJSON. rewrite split_unlines.
  - apply parse_lines_round. eapply Forall_impl; [exact H|]. intros e He. cbn beta.
    split_and!; [by apply decode_event_line|done|by apply obj_text_line, event_line_plain].
  - apply Forall_map, Forall_forall. intros e _. by apply obj_text_line, event_line_plain.
Qed.

Lemma parse_ledger xs :
  Forall (fun x => printable_invocation x = true) xs -> parseLedgerNDJSON (ledgerToNDJSON xs) = Ok xs.
Proof.
  intros H. unfold parseLedgerNDJSON, ledgerToNDJSON. rewrite split_unlines.
  - apply parse_lines_round. eapply Forall_impl; [exact H|]. intros x Hx. cbn beta.
    split_and!; [by apply decode_invocation_line|done|by apply obj_text_line, invocation_line_plain].
  - apply Forall_map, Forall_forall. intros x _. by apply obj_text_line, invocation_line_plain.
Qed.

(** ** Manifest and proof *)

Definition printable_hashes (hs : list (string * string)) : bool :=
  forallb (fun kv => utf8_valid (fst kv) && utf8_valid (snd kv)) hs && bool_decide (sort_fields hs = hs).

Definition printable_manifest (m : Manifest) : bool :=
  utf8_valid (mf_Version m) && utf8_valid (mf_JobID m) && printable_time (mf_ExportedAt m)
  && in_range 0 (2 ^ 63 - 1) (mf_EventCount m) && in_range 0 (2 ^ 63 - 1) (mf_LedgerCount m)
  && utf8_valid (mf_FirstEventHash m) && utf8_valid (mf_LastEventHash m)
  && match mf_FileHashes m with Some hs => printable_hashes hs | None => false end
  && utf8_valid (mf_RuntimeVersion m) && utf8_valid (mf_SchemaVersion m).

Definition hash_members (hs : list (string * string)) : list (string * string * json) :=
  map (fun kv => (fst kv, quote (snd kv), JStr (snd kv))) hs.

Lemma hash_members_fields hs : fields_of (hash_members hs) = map (fun kv => (fst kv, quote (snd kv))) hs.
Proof. unfold fields_of, hash_members. by rewrite map_map. Qed.

Lemma hash_members_printable hs :
  forallb (fun kv => utf8_valid (fst kv) && utf8_valid (snd kv)) hs = true ->
  Forall printable_field (hash_members hs).
Proof.
  intros H. apply Forall_map, Forall_forall. intros [k v] Hin%list_elem_of_In.
  pose proof (proj1 (forallb_forall _ _) H _ Hin) as Hkv. cbn in Hkv. bool_hyps.
  split; [done|]. by apply scans_quote.
Qed.

Lemma scans_itoa_range n : in_range 0 (2 ^ 63 - 1) n = true -> scans (itoa n) (JNum (itoa n)).
Proof. unfold in_range. intros H. bool_hyps. by apply scans_itoa. Qed.

Lemma parse_itoa_range n : in_range 0 (2 ^ 63 - 1) n = true -> parse_int64 (itoa n) = Some n.
Proof. unfold in_range. intros H. bool_hyps. apply parse_int64_itoa. lia. Qed.

Lemma decode_manifest_text m :
  printable_manifest m = true ->
  exists text, indent_manifest m = Some text /\ decode_struct decode_manifest text = Some m.
Proof.
  destruct m as [v j t ec lc fh lh hs rv sv]. unfold printable_manifest. intros H.
  cbn [mf_Version mf_JobID mf_ExportedAt mf_EventCount mf_LedgerCount mf_FirstEventHash mf_LastEventHash
       mf_FileHashes mf_RuntimeVersion mf_SchemaVersion] in H.
  destruct hs as [hs|]; [|by rewrite ?andb_false_r, ?andb_false_l in H].
  bool_hyps. unfold printable_hashes in *. bool_hyps.
  match goal with Hs : sort_fields hs = hs |- _ => rename Hs into Hsort end.
  unfold indent_manifest, hash_fields. cbn [mf_ExportedAt mf_FileHashes fmap option_fmap option_map].
  assert (Hm : marshalable t = true) by (unfold printable_time in *; by bool_hyps).
  rewrite Hm, Hsort, <- hash_members_fields. eexists. split; [done|].
  set (ht := obj_indent 1 (fields_of (hash_members hs))).
  set (hv := JObj (map (fun x => (fst (fst x), snd x)) (hash_members hs))).
  assert (Hh : scans ht hv) by (by apply scans_indent, hash_members_printable).
  set (fs := [("version", quote v, JStr v); ("job_id", quote j, JStr j);
    ("exported_at", time_raw t, JStr (format_rfc3339nano t)); ("event_count", itoa ec, JNum (itoa ec));
    ("ledger_count", itoa lc, JNum (itoa lc)); ("first_event_hash", quote fh, JStr fh);
    ("last_event_hash", quote lh, JStr lh); ("file_hashes", ht, hv);
    ("runtime_version", quote rv, JStr rv); ("schema_version", quote sv, JStr sv)]
    : list (string * string * json)).
  change (manifest_fields _ _) with (fields_of fs).
  unfold decode_struct. rewrite unmarshal_doc_indent; [|done|].
  2:{ unfold fs; printable; by apply scans_itoa_range. }
  unfold decode_manifest.
  assert (dec_time "exported_at" (members_of fs) = (t, false)) as ->.
  { change (dec_time "exported_at" (members_of fs)) with
      (match parseRFC3339 (inner_text (time_raw t)) with Some t => (t, false) | None => (zero_time, true) end).
    by rewrite parse_time_raw. }
  assert (dec_int "event_count" (members_of fs) = (ec, false)) as ->.
  { change (dec_int "event_count" (members_of fs)) with
      (match parse_int64 (itoa ec) with Some n => (n, false) | None => (0, true) end).
    by rewrite parse_itoa_range. }
  assert (dec_int "ledger_count" (members_of fs) = (lc, false)) as ->.
  { change (dec_int "ledger_count" (members_of fs)) with
      (match parse_int64 (itoa lc) with Some n => (n, false) | None => (0, true) end).
    by rewrite parse_itoa_range. }
  assert (dec_str_map "file_hashes" (members_of fs) = (Some hs, false)) as ->; [|reflexivity].
  change (dec_str_map "file_hashes" (members_of fs)) with
    (Some ([] ++ map (fun kv => (fst kv, match snd kv with JStr s => s | _ => EmptyString end))
       (map (fun x => (fst (fst x), snd x)) (hash_members hs))),
     false || existsb (fun kv => match snd kv with JStr _ | JNull => false | _ => true end)
       (map (fun x => (fst (fst x), snd x)) (hash_members hs))).
  clear. cbn [app orb]. unfold hash_members. rewrite !map_map. cbn [fst snd]. f_equal.
  - f_equal. rewrite <- (map_id hs) at 2. apply map_ext. by intros [].
  - induction hs as [|x hs IH]; [done|]. cbn. done.
Qed.

Definition printable_proof (p : SignedProof) : bool :=
  utf8_valid (ps_JobID (sp_Summary p)) && utf8_valid (ps_RootHash (sp_Summary p))
  && utf8_valid (ps_GeneratedBy (sp_Summary p)) && utf8_valid (sp_Signature p)
  && utf8_valid (sp_SignedAt p) && utf8_valid (sp_SignerKeyID p).

Definition omit_member (name s : string) : list (string * string * json) :=
  match s with EmptyString => [] | _ => [(name, quote s, JStr s)] end.

Lemma decode_proof_text p :
  printable_proof p = true ->
  decode_struct decode_proof (obj_indent 0 (signed_fields p)) = Some p.
Proof.
  destruct p as [[j rh cv lv gb] sg sa sk]. unfold printable_proof. intros H.
  cbn [sp_Summary sp_Signature sp_SignedAt sp_SignerKeyID ps_JobID ps_RootHash ps_GeneratedBy] in H. bool_hyps.
  set (fs := [("job_id", quote j, JStr j); ("root_hash", quote rh, JStr rh);
     ("chain_validated", bool_raw cv, JBool cv); ("ledger_validated", bool_raw lv, JBool lv);
     ("generated_by", quote gb, JStr gb)] : list (string * string * json)).
  set (fs' := fs ++ omit_member "signature" sg ++ omit_member "signed_at" sa ++ omit_member "signer_key_id" sk).
  assert (signed_fields (mkSigned (mkSummary j rh cv lv gb) sg sa sk) = fields_of fs') as ->
    by (unfold fs'; by destruct sg, sa, sk).
  unfold decode_struct. rewrite unmarshal_doc_indent; [|done|].
  2:{ unfold fs', fs, omit_member. destruct sg, sa, sk; printable. }
  unfold decode_proof, fs', omit_member. destruct sg, sa, sk; reflexivity.
Qed.

(** ** Texts that are plain ASCII *)

Lemma hex_sha256_utf8 msg : utf8_valid (hex_sha256 msg) = true.
Proof. by apply verbatim_utf8, hex_sha256_all. Qed.

Lemma sextet_verbatim n : 0 <= n < 64 -> verbatim (sextet_char n) = true.
Proof.
  intros H. assert (Ht : forallb (fun n => verbatim (sextet_char n)) sextets = true) by reflexivity.
  apply (proj1 (forallb_forall _ _) Ht). unfold sextets. apply in_map_iff.
  exists (Z.to_nat n). split; [lia|]. apply in_seq. lia.
Qed.

Lemma b64_verbatim n s : (String.length s <= n)%nat -> str_all verbatim (b64_encode s) = true.
Proof.
  revert s. induction n as [|n IH]; intros [|a [|b [|c r]]] Hn; cbn in Hn; try lia; try done;
    cbn [b64_encode str_all]; pose proof (byte_bounds a).
  - by rewrite !sextet_verbatim by (Z.to_euclidean_division_equations; lia).
  - pose proof (byte_bounds b). by rewrite !sextet_verbatim by (Z.to_euclidean_division_equations; lia).
  - pose proof (byte_bounds b). pose proof (byte_bounds c).
    rewrite !sextet_verbatim by (Z.to_euclidean_division_equations; lia). cbn [andb]. apply IH. lia.
Qed.

Lemma b64_utf8 s : utf8_valid (b64_encode s) = true.
Proof. by apply verbatim_utf8, (b64_verbatim (String.length s)). Qed.

(** ** Entries of an archive *)

Definition entries (files : list (string * string)) : list (string * option string) :=
  map (fun kv => (fst kv, Some (snd kv))) files.

Lemma read_entries fs m r :
  foldl read_entry (m, r) (entries fs) = (list_to_map (rev fs) ∪ m, r).
Proof.
  unfold entries. revert m. induction fs as [|[k v] fs IH]; intros m; cbn [map foldl rev fst snd].
  - f_equal. by rewrite list_to_map_nil, (left_id_L ∅ (∪)).
  - change (read_entry (m, r) (k, Some v)) with (<[k := v]> m, r).
    rewrite IH. f_equal.
    rewrite list_to_map_app, <- (assoc_L (∪)). f_equal. cbn. by rewrite <- insert_union_l, (left_id_L ∅ (∪)).
Qed.

Lemma read_permuted fs fs' :
  NoDup fs.*1 -> Permutation fs' fs ->
  foldl read_entry (∅, init_result) (entries fs') = (list_to_map fs, init_result).
Proof.
  intros Hn Hp. rewrite read_entries, (right_id_L ∅ (∪)). f_equal.
  assert (Hr : Permutation (rev fs') fs) by (by rewrite <- Permutation_rev).
  apply list_to_map_proper; [|done].
  by rewrite Hr.
Qed.

(** ** Export *)

Lemma redact_from_chained salt prev es es' :
  redact_from salt prev es = Ok es' -> chained prev es'.
Proof.
  revert prev es'. induction es as [|e es IH]; intros prev es'; cbn [redact_from]; [by intros [= <-]|].
  intros (p & _ & H)%result_bind_ok. apply result_bind_ok in H as (rest & Hr & [= <-]).
  split_and!; [done|done|by apply IH].
Qed.

Lemma itoa_counts {A} (l : list A) :
  (Z.of_nat (length l) <=? 2 ^ 63 - 1) = true -> in_range 0 (2 ^ 63 - 1) (Z.of_nat (length l)) = true.
Proof. unfold in_range. intros ->. rewrite andb_true_r. apply Z.leb_le. lia. Qed.

(** What must be printable for a package to be read back: valid UTF-8, times
    within the years JSON allows and whole minutes of offset, and fewer than
    2^63 lines. *)
Definition exportable (jobID : string) (opts : ExportOptions) (events : list Event)
    (ledger : list ToolInvocation) : bool :=
  utf8_valid jobID && utf8_valid (eo_RuntimeVersion opts) && utf8_valid (eo_SchemaVersion opts)
  && utf8_valid (eo_KeyID opts) && forallb printable_event events && forallb printable_invocation ledger
  && (Z.of_nat (length events) <=? 2 ^ 63 - 1) && (Z.of_nat (length ledger) <=? 2 ^ 63 - 1).

Lemma forallb_Forall_true {A} (f : A -> bool) l : forallb f l = true -> Forall (fun x => f x = true) l.
Proof. intros H. apply Forall_forall. intros x Hx%list_elem_of_In. by apply (proj1 (forallb_forall _ _) H). Qed.

Lemma fallback_utf8 a b : utf8_valid a = true -> utf8_valid b = true -> utf8_valid (fallback a b) = true.
Proof. by destruct a. Qed.

Lemma utf8_app s t : utf8_valid s = true -> utf8_valid t = true -> utf8_valid (s +:+ t) = true.
Proof.
  unfold utf8_valid. intros Hs Ht. assert (H : forall k, utf8_from k s = true -> utf8_from k (s +:+ t) = true).
  2:{ by apply H. }
  clear Hs. induction s as [|c s IH]; intros k; cbn [utf8_from String.append].
  - by destruct k.
  - destruct k as [|k]; [|apply IH]. destruct (byte c <? 128); [apply IH|].
    destruct (rune_len (String c s)) as [|[|k]] eqn:Hr; try done. intros Hs.
    assert (rune_len (String c (s +:+ t)) = S (S k)) as ->; [|by apply IH].
    rewrite <- (str_take_drop (S k) s), str_app_assoc. by apply rune_len_local.
Qed.

Section accepted.
Context (sign : string -> string -> string) (verify : string -> string -> string -> bool).
Context (now : time) (jobID : string) (first : Event) (events : list Event)
  (ledger : list ToolInvocation) (opts : ExportOptions).
Context (Hexp : exportable jobID opts events ledger = true) (Hin : head events = Some first).

Lemma exportable_events : Forall (fun e => printable_event e = true) events.
Proof using Hexp. unfold exportable in Hexp. bool_hyps. by apply forallb_Forall_true. Qed.

Lemma exportable_ledger : Forall (fun x => printable_invocation x = true) ledger.
Proof using Hexp. unfold exportable in Hexp. bool_hyps. by apply forallb_Forall_true. Qed.

Lemma event_hash_utf8 e : printable_event e = true -> utf8_valid (pe_Hash e) = true.
Proof. unfold printable_event. intros H. by bool_hyps. Qed.

Lemma last_hash_utf8 : utf8_valid (pe_Hash (default first (last events))) = true.
Proof using Hexp Hin.
  pose proof exportable_events as H. apply event_hash_utf8.
  assert (Hf : first ∈ events) by (destruct events; [done|]; cbn in Hin; injection Hin as ->; by left).
  destruct (last events) as [e|] eqn:Hl; cbn; rewrite Forall_forall in H; apply H; [|done].
  by apply last_Some_elem_of.
Qed.

Lemma first_hash_utf8 : utf8_valid (pe_Hash first) = true.
Proof using Hexp Hin.
  pose proof exportable_events as H. rewrite Forall_forall in H. apply event_hash_utf8, H.
  destruct events; [done|]. cbn in Hin. injection Hin as ->. by left.
Qed.

Lemma export_manifest_printable hashes :
  marshalable (t_utc now) = true -> printable_hashes hashes = true ->
  printable_manifest (export_manifest now jobID first events ledger hashes opts) = true.
Proof using Hexp Hin.
  intros Ht Hh. unfold printable_manifest, export_manifest.
  cbn [mf_Version mf_JobID mf_ExportedAt mf_EventCount mf_LedgerCount mf_FirstEventHash mf_LastEventHash
       mf_FileHashes mf_RuntimeVersion mf_SchemaVersion].
  rewrite first_hash_utf8, last_hash_utf8, Hh. unfold exportable in Hexp.
  apply andb_prop in Hexp as [Hx Hl]. apply andb_prop in Hx as [Hx He]. bool_hyps.
  rewrite !itoa_counts by (by apply Z.leb_le). rewrite !fallback_utf8 by done.
  unfold printable_time, whole_minutes. cbn [t_utc zone]. rewrite Ht.
  repeat match goal with H : utf8_valid ?s = true |- context [utf8_valid ?s] => rewrite H end. done.
Qed.

Abbreviation last_hash := (pe_Hash (default first (last events))).

Lemma last_is_last : exists e, last events = Some e /\ pe_Hash e = last_hash.
Proof using Hin.
  clear Hexp. destruct events as [|e r]; [done|].
  destruct (last (e :: r)) as [x|] eqn:Hl; [by exists x|]. by apply last_None in Hl.
Qed.

(** The laws of a pair of keys. *)
Definition key_pair (sk pk : string) : Prop :=
  String.length sk = PrivateKeySize /\ String.length pk = PublicKeySize /\
  (forall msg, verify pk msg (sign sk msg) = true) /\ (forall msg, sign sk msg <> EmptyString).

(** The keys an exporter and a verifier may use together: no key for either,
    or a pair of which the verifier may leave out his. *)
Definition keys_match (pubKey : option string) : Prop :=
  (eo_PrivateKey opts = EmptyString /\ pubKey = None) \/
  exists pk, key_pair (eo_PrivateKey opts) pk /\ (pubKey = None \/ pubKey = Some pk).

Definition accepted_result (pubKey : option string) : VerifyResult :=
  mkVerify true [] events true true true true (bool_decide (is_Some pubKey)).

Context (pubKey : option string) (Hkeys : keys_match pubKey).
Context (Hchain : ValidateChain events = Ok tt) (Hcons : ValidateLedgerConsistency events ledger = Ok tt).

(** The proof file of a package is accepted next to its other files. *)
Lemma check_proof_accepts files m proof r :
  export_proof sign now jobID m first events ledger opts = Ret proof ->
  files !! "proof.json" = Some proof ->
  (exists md, files !! "manifest.json" = Some md /\ decode_struct decode_manifest md = Some m) ->
  (exists ed, files !! "events.ndjson" = Some ed /\ parseEventsNDJSON ed = Ok events) ->
  (exists ld, files !! "ledger.ndjson" = Some ld /\ parseLedgerNDJSON ld = Ok ledger) ->
  check_proof verify files pubKey events r
  = Ret (if bool_decide (is_Some pubKey) then set_signature_valid r else r).
Proof using Hexp Hin Hkeys.
  intros Hp Hf (md & Hmd & Hm) (ed & Hed & He) (ld & Hld & Hl).
  assert (Hutf : utf8_valid jobID = true /\ utf8_valid (eo_RuntimeVersion opts) = true
                 /\ utf8_valid (eo_KeyID opts) = true) by (unfold exportable in Hexp; by bool_hyps).
  destruct Hutf as (Hj & Hrv & Hk). destruct last_is_last as (le & Hlast & Hlh).
  set (summary := mkSummary jobID last_hash true true ("aetheris " +:+ eo_RuntimeVersion opts)).
  assert (Hproof : exists sp, proof = obj_indent 0 (signed_fields sp) /\ printable_proof sp = true /\
    sp_Summary sp = summary /\
    (forall pk, pubKey = Some pk -> sp_Signature sp = b64_encode (sign (eo_PrivateKey opts)
        (signed_payload m events ledger)) /\ sp_Signature sp <> EmptyString)).
  { unfold export_proof in Hp. fold summary in Hp.
    destruct (eo_PrivateKey opts) as [|a key] eqn:Hkey.
    - injection Hp as <-. exists (mkSigned summary EmptyString EmptyString EmptyString).
      split_and!; [done| |done|].
      + unfold printable_proof, summary. cbn [sp_Summary sp_Signature sp_SignedAt sp_SignerKeyID
          ps_JobID ps_RootHash ps_GeneratedBy]. by rewrite Hj, last_hash_utf8, utf8_app.
      + intros pk Hpk. destruct Hkeys as [[_ Hn]|(pk' & (Hlen & _) & _)]; [congruence|].
        by rewrite Hkey in Hlen.
    - unfold SignEvidence in Hp. destruct (_ =? _)%nat; [|done]. injection Hp as <-.
      eexists. split; [reflexivity|]. cbn [sp_Summary sp_Signature]. split_and!; [|done|].
      + unfold printable_proof, summary. cbn [sp_Summary sp_Signature sp_SignedAt sp_SignerKeyID
          ps_JobID ps_RootHash ps_GeneratedBy].
        rewrite Hj, last_hash_utf8, utf8_app, b64_utf8 by done. cbn [andb].
        rewrite verbatim_utf8 by (by apply format_with_verbatim). by apply fallback_utf8.
      + intros pk Hpk. split; [done|]. rewrite b64_encode_empty.
        destruct Hkeys as [[Hn _]|(pk' & (_ & _ & _ & Hne) & _)]; [by rewrite Hkey in Hn|].
        rewrite Hkey in Hne. apply Hne. }
  destruct Hproof as (sp & -> & Hpp & Hsum & Hsig).
  unfold check_proof. rewrite Hf, decode_proof_text by done. rewrite Hlast, Hsum.
  change (ps_RootHash summary) with last_hash. rewrite Hlh, String.eqb_refl.
  destruct pubKey as [pk|]; [|reflexivity].
  destruct (Hsig pk eq_refl) as [Hs Hne].
  destruct (String.eqb_spec (sp_Signature sp) EmptyString) as [|_]; [done|].
  unfold VerifySignatureFromZipWithKey. rewrite Hmd, Hm, Hed, He, Hld, Hl.
  unfold VerifySignature. rewrite Hs, b64_round_trip.
  destruct Hkeys as [[_ ?]|(pk' & (_ & Hlen & Hver & _) & [?|[= <-]])]; [done|done|].
  rewrite Hlen, Nat.eqb_refl. cbn [outcome_bind]. by rewrite Hver.
Qed.

Lemma package_accepted files files' :
  package sign now jobID first events ledger opts = Ret (Ok files) -> Permutation files' files ->
  VerifyEvidenceZip verify (Some (entries files')) pubKey = Ret (accepted_result pubKey).
Proof using Hexp Hin Hkeys Hchain Hcons.
  unfold package. rewrite eventsToNDJSON_some by apply exportable_events.
  set (ed := unlines _). set (ld := ledgerToNDJSON ledger).
  destruct (indent_metadata _) as [meta|]; [|done].
  set (hashes := [("events.ndjson", ComputeFileHash ed); ("ledger.ndjson", ComputeFileHash ld);
                  ("metadata.json", ComputeFileHash meta)]).
  set (m := export_manifest now jobID first events ledger hashes opts).
  destruct (indent_manifest m) as [md|] eqn:Hmd; [|done].
  intros (proof & Hproof & [= <-])%outcome_bind_ret Hperm.
  assert (Ht : marshalable (t_utc now) = true).
  { unfold indent_manifest in Hmd. cbn [m export_manifest mf_ExportedAt] in Hmd. by destruct (marshalable _). }
  assert (Hsort : sort_fields hashes = hashes) by reflexivity.
  assert (Hhash : printable_hashes hashes = true).
  { unfold printable_hashes. rewrite bool_decide_eq_true_2 by done. unfold hashes, ComputeFileHash.
    cbn [forallb fst snd]. by rewrite !hex_sha256_utf8. }
  destruct (decode_manifest_text m) as (md' & Hmd' & Hdec);
    [by apply export_manifest_printable|]. rewrite Hmd in Hmd'. injection Hmd' as <-.
  set (files := [("manifest.json", md); _; _; _; _]) in *.
  unfold VerifyEvidenceZip. rewrite (read_permuted files files'); [|by apply (bool_decide_unpack _)|done].
  assert (Hm : list_to_map (M := gmap string string) files !! "manifest.json" = Some md) by reflexivity.
  assert (He : list_to_map (M := gmap string string) files !! "events.ndjson" = Some ed) by reflexivity.
  assert (Hl : list_to_map (M := gmap string string) files !! "ledger.ndjson" = Some ld) by reflexivity.
  assert (Hp : list_to_map (M := gmap string string) files !! "proof.json" = Some proof) by reflexivity.
  assert (Ha : list_to_map (M := gmap string string) files !! "metadata.json" = Some meta) by reflexivity.
  rewrite Hm, Hdec. change (default [] (mf_FileHashes m)) with hashes. rewrite Hsort.
  assert (foldl (check_hash (list_to_map files)) (set_manifest_valid init_result) hashes
          = set_manifest_valid init_result) as ->.
  { unfold hashes. cbn [foldl]. unfold check_hash. cbn [fst snd].
    by rewrite He, String.eqb_refl, Hl, String.eqb_refl, Ha, String.eqb_refl. }
  assert (Hpe : parseEventsNDJSON ed = Ok events) by (apply parse_events, exportable_events).
  assert (Hpl : parseLedgerNDJSON ld = Ok ledger) by (apply parse_ledger, exportable_ledger).
  rewrite He, Hpe, Hchain. unfold check_ledger. rewrite Hl, Hpl, Hcons.
  rewrite (check_proof_accepts _ m proof) by eauto.
  unfold accepted_result. by destruct (bool_decide _).
Qed.
End accepted.

(** C24: What is exported is accepted.  When the export of a job's events
    returns a package, whose exported events and ledger are printable and
    agree with each other, then its five files, packed in any order, are
    accepted: the verifier reads back exactly the exported events, reports no
    error and finds chain, ledger and manifest valid, whether or not the
    events were redacted, and the signature too when the package is signed
    and he holds the other half of the signer's key. *)
Theorem exported_package_is_accepted sign verify now jobID listed ledger opts events files files' pubKey :
  ExportEvidenceZip sign now jobID (Some listed) (Some (Some ledger)) opts = Ret (Ok files) ->
  (if eo_RedactionEnabled opts then redactEventsForExport listed (eo_RedactionSalt opts) else Ok listed)
    = Ok events ->
  exportable jobID opts events ledger = true ->
  ValidateLedgerConsistency events ledger = Ok tt ->
  keys_match sign verify opts pubKey -> Permutation files' files ->
  VerifyEvidenceZip verify (Some (entries files')) pubKey = Ret (accepted_result events pubKey).
Proof.
  intros H Hred Hexp Hcons Hkeys Hperm. revert H. unfold ExportEvidenceZip.
  destruct (String.eqb jobID EmptyString); [done|]. destruct (bool_decide (listed = [])); [done|].
  destruct (ValidateChain listed) as [[]|] eqn:Hv; [|done]. destruct (_ && _)%bool; [done|].
  rewrite Hred. destruct events as [|first rest]; [done|]. intros Hp.
  eapply package_accepted; [exact Hexp|done|done| |done|exact Hp|done].
  destruct (eo_RedactionEnabled opts); [|by injection Hred as <-].
  apply ValidateChain_spec. by apply (redact_from_chained (eo_RedactionSalt opts) _ listed).
Qed.

Definition toy_sign (key msg : string) : string := hex_sha256 msg.
Definition toy_verify (key msg sig : string) : bool := String.eqb sig (hex_sha256 msg).

Lemma toy_keys sk pk :
  String.length sk = PrivateKeySize -> String.length pk = PublicKeySize -> key_pair toy_sign toy_verify sk pk.
Proof.
  intros Hs Hp. split_and!; [done|done|..]; intros msg; [apply String.eqb_refl|].
  apply hex_sha256_nonempty.
Qed.

Definition sk64 : string := zeros 64.
Definition pk32 : string := zeros 32.
Definition demo_event : Event :=
  relink EmptyString (mkEvent "e1" "j" "tool_invocation_finished"
    (obj_text [("idempotency_key", quote "k"); ("outcome", quote "success"); ("email", quote "a@b.c")])
    (Time 1767323045120000000 19800) "" "").
Definition demo_invocation : ToolInvocation := mkInvocation "k" "j" "k" "s" "t" "h" "success" "{}" true "now" "".
Definition demo_options : ExportOptions := mkOptions "" "" true "salt" sk64 "".
Definition demo_files : list (string * string) :=
  match ExportEvidenceZip toy_sign (Time 0 3600) "j" (Some [demo_event]) (Some (Some [demo_invocation])) demo_options with
  | Ret (Ok fs) => fs
  | _ => []
  end.
Definition demo_exported : list Event :=
  match redactEventsForExport [demo_event] "salt" with Ok es => es | Err _ => [] end.

Lemma exported_package_is_accepted_witness :
  length demo_files = 5%nat /\
  VerifyEvidenceZip toy_verify (Some (entries (rev demo_files))) (Some pk32)
  = Ret (accepted_result demo_exported (Some pk32)).
Proof.
  split; [vm_compute; reflexivity|].
  apply (exported_package_is_accepted toy_sign toy_verify (Time 0 3600) "j" [demo_event] [demo_invocation]
    demo_options demo_exported demo_files).
  - vm_compute. reflexivity.
  - vm_compute. reflexivity.
  - vm_compute. reflexivity.
  - vm_compute. reflexivity.
  - right. exists pk32. split; [by apply toy_keys|by right].
  - symmetry. apply Permutation_rev.
Defined.

(** ** When ledger and events agree *)

(** The payload of the last finished event of a key, the last record of a key. *)
Definition last_finished (events : list Event) (key : string) : option fields :=
  snd <$> last (filter (fun ko => fst ko = key) (omap (keyed_payload "tool_invocation_finished") events)).
Definition last_record (ledger : list ToolInvocation) (key : string) : option ToolInvocation :=
  last (filter (fun i => ti_IdempotencyKey i = key) ledger).

Lemma finished_map_last events key : finished_map events !! key = last_finished events key.
Proof.
  unfold finished_map, last_finished. induction events as [|e es IH] using rev_ind; [done|].
  rewrite foldl_app, omap_app, filter_app, last_app. cbn [foldl omap list_omap].
  destruct (keyed_payload _ e) as [[k o]|]; [|done].
  rewrite filter_cons. cbn [fst]. rewrite lookup_insert. by destruct (decide (k = key)).
Qed.

Lemma ledger_map_last ledger key : ledger_map ledger !! key = last_record ledger key.
Proof.
  unfold ledger_map, last_record. induction ledger as [|i l IH] using rev_ind; [done|].
  rewrite foldl_app, filter_app, last_app. cbn [foldl].
  rewrite filter_cons. rewrite lookup_insert. by destruct (decide (_ = key)).
Qed.

Lemma check_each_ok {A} (f : A -> result ledger_error unit) l :
  check_each f l = Ok tt <-> Forall (fun x => f x = Ok tt) l.
Proof.
  induction l as [|x l IH]; cbn [check_each]; [by rewrite Forall_nil|].
  rewrite Forall_cons, result_bind_ok. split.
  - intros ([] & Hx & Hl). by apply IH in Hl.
  - intros [Hx Hl]. exists tt. by apply IH in Hl.
Qed.

Lemma check_finished_ok lm key o :
  check_finished lm key o = Ok tt <-> exists inv, lm !! key = Some inv /\
    (forall n, get_str "tool_name" o = Some n -> n <> EmptyString -> n = ti_ToolName inv) /\
    (get_str "outcome" o = Some "success" -> ti_Committed inv = true).
Proof.
  unfold check_finished. destruct (lm !! key) as [inv|]; [|split; [done|by intros (? & ? & _)]].
  set (nd := match get_str "tool_name" o with Some _ => _ | None => _ end).
  set (nc := match get_str "outcome" o with Some _ => _ | None => _ end).
  assert (Hnd : nd = false <-> forall n, get_str "tool_name" o = Some n -> n <> EmptyString -> n = ti_ToolName inv).
  { unfold nd. destruct (get_str "tool_name" o) as [n|]; [|naive_solver].
    rewrite andb_false_iff, !negb_false_iff, !String.eqb_eq. split.
    - intros [->| ->] n' [= <-] Hn; done.
    - intros H. destruct (decide (n = EmptyString)); [by left|right; by apply H]. }
  assert (Hnc : nc = false <-> (get_str "outcome" o = Some "success" -> ti_Committed inv = true)).
  { unfold nc. destruct (get_str "outcome" o) as [out|]; [|naive_solver].
    rewrite andb_false_iff, negb_false_iff, String.eqb_neq. split.
    - intros [Hn|Hc] [= ->]; done.
    - intros H. destruct (decide (out = "success")) as [->|]; [right; by apply H|by left]. }
  clearbody nd nc. split.
  - intros H. exists inv. split; [done|]. rewrite <- Hnd, <- Hnc. by destruct nd, nc.
  - intros (? & [= <-] & Hn & Hc). apply Hnd in Hn as ->. by apply Hnc in Hc as ->.
Qed.

Lemma ledger_consistency_correct events ledger :
  ValidateLedgerConsistency events ledger = Ok tt <->
  (forall key o, last_finished events key = Some o -> exists inv, last_record ledger key = Some inv /\
     (forall n, get_str "tool_name" o = Some n -> n <> EmptyString -> n = ti_ToolName inv) /\
     (get_str "outcome" o = Some "success" -> ti_Committed inv = true)) /\
  (forall inv, inv ∈ ledger -> ti_Committed inv = true ->
     exists o, last_finished events (ti_IdempotencyKey inv) = Some o).
Proof.
  unfold ValidateLedgerConsistency. cbv zeta. rewrite result_bind_ok.
  assert (H1 : (forall kv, kv ∈ map_to_list (finished_map events) ->
      check_finished (ledger_map ledger) (fst kv) (snd kv) = Ok tt) <->
    forall key o, last_finished events key = Some o -> exists inv, last_record ledger key = Some inv /\
     (forall n, get_str "tool_name" o = Some n -> n <> EmptyString -> n = ti_ToolName inv) /\
     (get_str "outcome" o = Some "success" -> ti_Committed inv = true)).
  { split.
    - intros H key o Ho. rewrite <- finished_map_last in Ho. apply elem_of_map_to_list in Ho.
      specialize (H _ Ho). apply check_finished_ok in H. by setoid_rewrite ledger_map_last in H.
    - intros H [key o] Ho%elem_of_map_to_list. rewrite finished_map_last in Ho.
      apply check_finished_ok. setoid_rewrite ledger_map_last. by apply H. }
  rewrite <- H1. clear H1. split.
  - intros ([] & Ha & Hb). apply check_each_ok in Ha, Hb. rewrite Forall_forall in Ha. rewrite Forall_forall in Hb.
    split; [exact Ha|]. intros inv Hin Hc. specialize (Hb inv Hin). cbv beta in Hb. rewrite Hc, finished_map_last in Hb. destruct (last_finished _ _) as [o|]; [by exists o|done].
  - intros [Ha Hb]. exists tt. rewrite !check_each_ok, !Forall_forall.
    split; [exact Ha|]. intros inv Hin. destruct (ti_Committed inv) eqn:Hc; [|done].
    destruct (Hb inv Hin Hc) as [o Ho]. by rewrite finished_map_last, Ho.
Qed.

(** The consistency check accepts exactly the ledgers that agree with the
    events: the last finished event of every key has a record, whose last
    copy names the same tool if the event names one, and is committed if the
    event reports success; and every committed record has a finished event.
    The order in which keys are visited does not matter. *)
Theorem ValidateLedgerConsistency_spec events ledger :
  ValidateLedgerConsistency events ledger = Ok tt <->
  (forall key o, last_finished events key = Some o -> exists inv, last_record ledger key = Some inv /\
     (forall n, get_str "tool_name" o = Some n -> n <> EmptyString -> n = ti_ToolName inv) /\
     (get_str "outcome" o = Some "success" -> ti_Committed inv = true)) /\
  (forall inv, inv ∈ ledger -> ti_Committed inv = true ->
     exists o, last_finished events (ti_IdempotencyKey inv) = Some o).
Proof. apply ledger_consistency_correct. Qed.

(** ** What an accepted package satisfies *)

Section verification.
Context (verify : string -> string -> string -> bool).

Definition files_of (es : list (string * option string)) : gmap string string :=
  fst (foldl read_entry (∅, init_result) es).

Definition ledger_ok (files : gmap string string) (events : list Event) : Prop :=
  forall data, files !! "ledger.ndjson" = Some data ->
    exists ledger, parseLedgerNDJSON data = Ok ledger /\ ValidateLedgerConsistency events ledger = Ok tt.

Definition proof_ok (files : gmap string string) (pubKey : option string) (events : list Event) : Prop :=
  forall data, files !! "proof.json" = Some data ->
    exists sp, decode_struct decode_proof data = Some sp /\
      (forall e, last events = Some e -> ps_RootHash (sp_Summary sp) = pe_Hash e) /\
      (forall pk, pubKey = Some pk -> sp_Signature sp <> EmptyString /\
         VerifySignatureFromZipWithKey verify files (sp_Signature sp) pk = Ret true).

Definition hashes_ok (files : gmap string string) (m : Manifest) : Prop :=
  forall name h, (name, h) ∈ sort_fields (default [] (mf_FileHashes m)) ->
    exists data, files !! name = Some data /\ ComputeFileHash data = h.

Definition acceptable (zip : option (list (string * option string))) (pubKey : option string)
    (events : list Event) : Prop :=
  exists es md m ed, zip = Some es /\ Forall (fun x => is_Some (snd x)) es /\
    files_of es !! "manifest.json" = Some md /\ decode_struct decode_manifest md = Some m /\
    hashes_ok (files_of es) m /\
    files_of es !! "events.ndjson" = Some ed /\ parseEventsNDJSON ed = Ok events /\
    ValidateChain events = Ok tt /\ ledger_ok (files_of es) events /\ proof_ok (files_of es) pubKey events.

Lemma read_entry_ok es m r :
  vr_OK (snd (foldl read_entry (m, r) es)) = true <->
  vr_OK r = true /\ Forall (fun x => is_Some (snd x)) es.
Proof.
  revert m r. induction es as [|[k [v|]] es IH]; intros m r; cbn [foldl].
  - rewrite Forall_nil. naive_solver.
  - change (read_entry (m, r) (k, Some v)) with (<[k := v]> m, r). rewrite IH, Forall_cons. naive_solver.
  - change (read_entry (m, r) (k, None)) with (m, fail (EntryUnreadable k) r). rewrite IH, Forall_cons.
    cbn. split; [by intros [? _]|]. intros (_ & [? ?] & _). done.
Qed.

Lemma check_hashes_ok files l r :
  vr_OK (foldl (check_hash files) r l) = true <->
  vr_OK r = true /\ forall name h, (name, h) ∈ l -> exists data, files !! name = Some data /\ ComputeFileHash data = h.
Proof.
  revert r. induction l as [|[n h] l IH]; intros r; cbn [foldl].
  { split; [intros H; split; [done|]; by intros ? ? ?%elem_of_nil|by intros [? _]]. }
  rewrite IH. unfold check_hash. cbn [fst snd]. setoid_rewrite elem_of_cons.
  destruct (files !! n) as [d|] eqn:Hd.
  - destruct (String.eqb_spec (ComputeFileHash d) h) as [He|He]; cbn [vr_OK fail]; split.
    + intros [Hr Hl]. split; [done|]. intros n' h' [[= -> ->]|Hin]; [by exists d|by apply Hl].
    + intros [Hr Hl]. split; [done|]. intros n' h' Hin. apply Hl. by right.
    + by intros [? _].
    + intros [_ Hl]. destruct (Hl n h) as (d' & Hd' & Hh); [by left|]. congruence.
  - cbn [vr_OK fail]. split; [by intros [? _]|]. intros [_ Hl].
    destruct (Hl n h) as (d' & Hd' & _); [by left|]. congruence.
Qed.

Lemma check_ledger_ok files events r :
  vr_OK (check_ledger files events r) = true <-> vr_OK r = true /\ ledger_ok files events.
Proof.
  unfold check_ledger, ledger_ok. destruct (files !! "ledger.ndjson") as [d|]; [|naive_solver].
  destruct (parseLedgerNDJSON d) as [l|] eqn:Hl.
  - destruct (ValidateLedgerConsistency events l) as [[]|] eqn:Hv; cbn.
    + split; [intros H; split; [done|]; intros ? [= <-]; eauto|by intros [? _]].
    + split; [done|]. intros [_ H]. destruct (H d eq_refl) as (l' & Hl' & Hv'). congruence.
  - cbn. split; [done|]. intros [_ H]. destruct (H d eq_refl) as (l' & Hl' & Hv'). congruence.
Qed.

Lemma check_proof_ok files pubKey events r r' :
  check_proof verify files pubKey events r = Ret r' ->
  vr_OK r' = true <-> vr_OK r = true /\ proof_ok files pubKey events.
Proof.
  unfold check_proof, proof_ok. destruct (files !! "proof.json") as [d|]; [|intros [= ->]; naive_solver].
  destruct (decode_struct decode_proof d) as [sp|] eqn:Hsp.
  2:{ intros [= <-]. cbn. split; [done|]. intros [_ H]. destruct (H d eq_refl) as (? & ? & _). congruence. }
  set (r1 := match last events with Some _ => _ | None => _ end).
  assert (H1 : vr_OK r1 = true <-> vr_OK r = true /\
    forall e, last events = Some e -> ps_RootHash (sp_Summary sp) = pe_Hash e).
  { unfold r1. destruct (last events) as [e|]; [|naive_solver].
    destruct (String.eqb_spec (ps_RootHash (sp_Summary sp)) (pe_Hash e)) as [He|He]; cbn.
    - split; [intros H; split; [done|]; by intros ? [= <-]|by intros [? _]].
    - split; [done|]. intros [_ H]. by destruct (He (H e eq_refl)). }
  clearbody r1. intros Hc.
  assert (Hiff : vr_OK r' = true <-> vr_OK r1 = true /\ forall pk, pubKey = Some pk ->
    sp_Signature sp <> EmptyString /\ VerifySignatureFromZipWithKey verify files (sp_Signature sp) pk = Ret true).
  { destruct pubKey as [pk|]; [|injection Hc as ->; naive_solver].
    destruct (String.eqb_spec (sp_Signature sp) EmptyString) as [He|He].
    - injection Hc as <-. cbn. split; [done|]. intros [_ H]. by destruct (H pk eq_refl).
    - apply outcome_bind_ret in Hc as (ok & Hok & [= <-]). destruct ok; cbn; split.
      + intros H. split; [done|]. by intros ? [= <-].
      + by intros [? _].
      + done.
      + intros [_ H]. destruct (H pk eq_refl) as [_ Hv]. congruence. }
  rewrite Hiff, H1. split.
  - intros [[Hr Hroot] Hs]. split; [done|]. intros ? [= <-]. by exists sp.
  - intros [Hr Hp]. destruct (Hp d eq_refl) as (sp' & Hd & Hroot & Hs).
    assert (sp' = sp) as -> by congruence. done.
Qed.

Lemma check_ledger_events files events r : vr_Events (check_ledger files events r) = vr_Events r.
Proof. unfold check_ledger. by repeat case_match. Qed.

Lemma check_proof_events files pubKey events r r' :
  check_proof verify files pubKey events r = Ret r' -> vr_Events r' = vr_Events r.
Proof.
  unfold check_proof. destruct (files !! "proof.json"); [|by intros [= ->]].
  destruct (decode_struct decode_proof s) as [sp|]; [|by intros [= <-]].
  set (r1 := match last events with Some _ => _ | None => _ end).
  assert (H1 : vr_Events r1 = vr_Events r) by (unfold r1; by repeat case_match).
  destruct pubKey; [|by intros [= <-]]. destruct (String.eqb _ _); [by intros [= <-]|].
  intros (ok & _ & [= <-])%outcome_bind_ret. by destruct ok.
Qed.

(** The verdict, whatever the archive: accepted is exactly acceptable. *)
Lemma VerifyEvidenceZip_ok zip pubKey r :
  VerifyEvidenceZip verify zip pubKey = Ret r ->
  vr_OK r = true <-> acceptable zip pubKey (vr_Events r).
Proof.
  assert (Hno : forall e r0, vr_OK (fail e r0) = true <-> False) by done.
  unfold VerifyEvidenceZip, acceptable. destruct zip as [es|].
  2:{ intros [= <-]. rewrite Hno. split; [done|]. by intros (? & ? & ? & ? & ? & _). }
  destruct (foldl read_entry (∅, init_result) es) as [files r0] eqn:Hread.
  assert (Hf : files_of es = files) by (unfold files_of; by rewrite Hread).
  pose proof (read_entry_ok es ∅ init_result) as Hr0. rewrite Hread in Hr0. cbn [snd] in Hr0.
  destruct (files !! "manifest.json") as [md|] eqn:Hmd.
  2:{ intros [= <-]. rewrite Hno. split; [done|]. intros (? & ? & ? & ? & [= <-] & _ & ? & _). congruence. }
  destruct (decode_struct decode_manifest md) as [m|] eqn:Hm.
  2:{ intros [= <-]. rewrite Hno. split; [done|].
      intros (? & ? & ? & ? & [= <-] & _ & Hm' & Hdec & _). congruence. }
  set (r1 := foldl (check_hash files) _ _).
  assert (Hr1 : vr_OK r1 = true <-> Forall (fun x => is_Some (snd x)) es /\ hashes_ok files m).
  { unfold r1. rewrite check_hashes_ok. cbn [vr_OK set_manifest_valid]. rewrite Hr0. unfold hashes_ok. naive_solver. }
  clearbody r1. destruct (files !! "events.ndjson") as [ed|] eqn:Hed.
  2:{ intros [= <-]. rewrite Hno. split; [done|].
      intros (? & ? & ? & ? & [= <-] & _ & _ & _ & _ & He & _). congruence. }
  destruct (parseEventsNDJSON ed) as [events|] eqn:Hev.
  2:{ intros [= <-]. rewrite Hno. split; [done|].
      intros (? & ? & ? & ? & [= <-] & _ & _ & _ & _ & He & Hev' & _). congruence. }
  set (r2 := match ValidateChain events with Ok _ => _ | Err _ => _ end).
  assert (Hr2 : vr_OK r2 = true <-> vr_OK r1 = true /\ ValidateChain events = Ok tt).
  { unfold r2. destruct (ValidateChain events) as [[]|]; cbn; naive_solver. }
  assert (He2 : vr_Events r2 = events) by (unfold r2; by destruct (ValidateChain events)).
  clearbody r2. intros Hc.
  pose proof (check_proof_events _ _ _ _ _ Hc) as Hevents. rewrite check_ledger_events, He2 in Hevents.
  rewrite (check_proof_ok _ _ _ _ _ Hc), check_ledger_ok, Hr2, Hr1, Hevents. split.
  - intros [[[[Hes Hh] Hv] Hl] Hp]. exists es, md, m, ed. rewrite Hf. done.
  - intros (es' & md' & m' & ed' & [= <-] & Hes & Hmd' & Hm' & Hh & _ & _ & Hv & Hl & Hp).
    rewrite Hf in *. assert (m' = m) as -> by congruence. done.
Qed.
End verification.

(** Two different texts with the same SHA-256 hash. *)
Definition file_collision : Prop := exists d1 d2 : string, d1 <> d2 /\ hex_sha256 d1 = hex_sha256 d2.

(** Tamper evidence of a package: two accepted packages with the same
    manifest file, checked with whatever keys, hold the same text in every
    file whose hash the manifest lists, and the verifier returned the same
    events for both, or a SHA-256 collision is found.  The order and the
    other files of the two archives may differ. *)
Theorem manifest_fixes_files verify1 verify2 zip1 zip2 pk1 pk2 r1 r2 md m :
  VerifyEvidenceZip verify1 (Some zip1) pk1 = Ret r1 -> vr_OK r1 = true ->
  VerifyEvidenceZip verify2 (Some zip2) pk2 = Ret r2 -> vr_OK r2 = true ->
  files_of zip1 !! "manifest.json" = Some md -> files_of zip2 !! "manifest.json" = Some md ->
  decode_struct decode_manifest md = Some m ->
  file_collision \/
  (forall name h, (name, h) ∈ sort_fields (default [] (mf_FileHashes m)) ->
     files_of zip1 !! name = files_of zip2 !! name /\ (name = "events.ndjson" -> vr_Events r1 = vr_Events r2)).
Proof.
  intros H1 Hok1 H2 Hok2 Hm1 Hm2 Hm.
  apply (VerifyEvidenceZip_ok verify1 _ _ _ H1) in Hok1.
  apply (VerifyEvidenceZip_ok verify2 _ _ _ H2) in Hok2.
  destruct Hok1 as (? & ? & m1 & ed1 & [= <-] & _ & Hmd1 & Hd1 & Hh1 & He1 & Hp1 & _).
  destruct Hok2 as (? & ? & m2 & ed2 & [= <-] & _ & Hmd2 & Hd2 & Hh2 & He2 & Hp2 & _).
  assert (m1 = m) as -> by congruence. assert (m2 = m) as -> by congruence.
  destruct (decide (Forall (fun kv => files_of zip1 !! fst kv = files_of zip2 !! fst kv)
    (sort_fields (default [] (mf_FileHashes m))))) as [Hall|Hn].
  - right. intros name h Hin. rewrite Forall_forall in Hall. pose proof (Hall _ Hin) as He. cbn in He.
    split; [done|]. intros ->. congruence.
  - left. apply not_Forall_Exists, Exists_exists in Hn as ([name h] & Hin & Hne); [|apply _].
    destruct (Hh1 name h Hin) as (d1 & Hf1 & Hx1), (Hh2 name h Hin) as (d2 & Hf2 & Hx2).
    exists d1, d2. unfold ComputeFileHash in *. split; [|congruence]. intros ->. cbn in Hne. congruence.
Qed.

(** ** What verification does not cover *)

Lemma files_of_filter name zip :
  files_of (filter (fun x => fst x <> name) zip) = delete name (files_of zip).
Proof.
  unfold files_of.
  assert (Hm : forall es m m' r r', m' = delete name m ->
    fst (foldl read_entry (m', r') (filter (fun x => fst x <> name) es))
    = delete name (fst (foldl read_entry (m, r) es))).
  { induction es as [|[k [v|]] es IH]; intros m m' r r' Hm; [exact Hm|..];
      rewrite filter_cons; cbn [fst]; destruct (decide (k <> name)) as [Hk|Hk]; cbn [foldl].
    - apply (IH (<[k := v]> m) (<[k := v]> m') r r'). by rewrite Hm, delete_insert_ne.
    - apply (IH (<[k := v]> m) m' r r'). apply dec_stable in Hk as ->. by rewrite delete_insert_eq.
    - by apply (IH m m' (fail (EntryUnreadable k) r) (fail (EntryUnreadable k) r')).
    - by apply (IH m m' (fail (EntryUnreadable k) r) r'). }
  apply Hm. by rewrite delete_empty.
Qed.

Section stripped.
Context (verify : string -> string -> string -> bool) (zip : list (string * option string)) (pubKey : option string).
Context (Hnone : files_of zip !! "proof.json" = None).

Lemma check_hashes_signature files l r :
  vr_SignatureValid (foldl (check_hash files) r l) = vr_SignatureValid r.
Proof.
  revert r. induction l as [|x l IH]; intros r; [done|]. cbn [foldl]. rewrite IH.
  unfold check_hash. by repeat case_match.
Qed.

Lemma read_entries_signature es m r :
  vr_SignatureValid (snd (foldl read_entry (m, r) es)) = vr_SignatureValid r.
Proof.
  revert m r. induction es as [|[k [v|]] es IH]; intros m r; cbn [foldl]; [done|..].
  - apply (IH (<[k := v]> m) r).
  - apply (IH m (fail (EntryUnreadable k) r)).
Qed.

(** Without a proof file the verifier never looks at the key. *)
Lemma verify_without_proof md m ed events :
  files_of zip !! "manifest.json" = Some md -> decode_struct decode_manifest md = Some m ->
  files_of zip !! "events.ndjson" = Some ed -> parseEventsNDJSON ed = Ok events ->
  exists r, VerifyEvidenceZip verify (Some zip) pubKey = Ret r /\ vr_Events r = events /\
    vr_SignatureValid r = false.
Proof using Hnone.
  intros Hmd Hm Hed Hev. unfold VerifyEvidenceZip.
  destruct (foldl read_entry (∅, init_result) zip) as [files r0] eqn:Hread.
  assert (Hf : files_of zip = files) by (unfold files_of; by rewrite Hread).
  pose proof (read_entries_signature zip ∅ init_result) as Hs. rewrite Hread in Hs. cbn in Hs.
  rewrite Hf in *. rewrite Hmd, Hm, Hed, Hev. unfold check_proof. rewrite Hnone.
  eexists. split; [reflexivity|]. rewrite check_ledger_events. split; [by destruct (ValidateChain events)|].
  unfold check_ledger. set (r1 := foldl (check_hash files) _ _).
  assert (Hr1 : vr_SignatureValid r1 = false) by (unfold r1; rewrite check_hashes_signature; exact Hs).
  repeat case_match; exact Hr1.
Qed.
End stripped.

(** The proof file is optional, whatever key is asked for.  Take any
    package that is accepted without a key, signed or not, genuine or made
    up, whose manifest does not list the proof file, as those of the exporter
    never do.  With the proof file left out it is accepted under every public
    key, and no signature is ever checked. *)
Theorem stripped_package_passes_any_key verify zip r m md pk :
  VerifyEvidenceZip verify (Some zip) None = Ret r -> vr_OK r = true ->
  files_of zip !! "manifest.json" = Some md -> decode_struct decode_manifest md = Some m ->
  (forall h, ("proof.json", h) ∉ sort_fields (default [] (mf_FileHashes m))) ->
  exists r', VerifyEvidenceZip verify (Some (filter (fun x => fst x <> "proof.json") zip)) (Some pk) = Ret r' /\
    vr_OK r' = true /\ vr_Events r' = vr_Events r /\ vr_SignatureValid r' = false.
Proof.
  intros H Hok Hmd Hm Hno. apply (VerifyEvidenceZip_ok verify _ _ _ H) in Hok.
  destruct Hok as (? & md' & m' & ed & [= <-] & Hes & Hmd' & Hm' & Hh & Hed & Hev & Hc & Hl & _).
  assert (md' = md) as -> by congruence. assert (m' = m) as -> by congruence.
  set (zip' := filter _ zip).
  assert (Hfiles : files_of zip' = delete "proof.json" (files_of zip)) by apply files_of_filter.
  assert (Hne : forall name, name <> "proof.json" -> files_of zip' !! name = files_of zip !! name).
  { intros name Hn. by rewrite Hfiles, lookup_delete_ne. }
  assert (Hnone : files_of zip' !! "proof.json" = None) by (by rewrite Hfiles, lookup_delete_eq).
  destruct (verify_without_proof verify zip' (Some pk) Hnone md m ed (vr_Events r)) as (r' & Hr' & He & Hs);
    [by rewrite Hne|done|by rewrite Hne|done|].
  exists r'. split_and!; [done| |done|done].
  apply (VerifyEvidenceZip_ok verify _ _ _ Hr'). rewrite He. exists zip', md, m, ed.
  split_and!; try done; try (by rewrite Hne).
  - unfold zip'. apply Forall_forall. intros x [_ Hx]%list_elem_of_filter. by rewrite Forall_forall in Hes; apply Hes.
  - intros name h Hin. rewrite Hne; [by apply Hh|]. intros ->. by apply (Hno h).
  - intros d Hd. rewrite Hne in Hd by done. by apply Hl.
  - intros d Hd. congruence.
Qed.

Definition demo_zip : list (string * option string) := entries demo_files.
Definition demo_md : string := default EmptyString (files_of demo_zip !! "manifest.json").
Definition demo_m : Manifest :=
  default (mkManifest "" "" zero_time 0 0 "" "" None "" "") (decode_struct decode_manifest demo_md).

Lemma demo_md_found : files_of demo_zip !! "manifest.json" = Some demo_md.
Proof. vm_compute. reflexivity. Qed.
Lemma demo_md_found_rev : files_of (rev demo_zip) !! "manifest.json" = Some demo_md.
Proof. vm_compute. reflexivity. Qed.
Lemma demo_m_decoded : decode_struct decode_manifest demo_md = Some demo_m.
Proof. vm_compute. reflexivity. Qed.
Lemma demo_m_names : map fst (sort_fields (default [] (mf_FileHashes demo_m)))
  = ["events.ndjson"; "ledger.ndjson"; "metadata.json"].
Proof. vm_compute. reflexivity. Qed.
Lemma demo_accepted : VerifyEvidenceZip toy_verify (Some demo_zip) None = Ret (accepted_result demo_exported None).
Proof. vm_compute. reflexivity. Qed.
Lemma demo_accepted_signed :
  VerifyEvidenceZip toy_verify (Some (rev demo_zip)) (Some pk32) = Ret (accepted_result demo_exported (Some pk32)).
Proof. vm_compute. reflexivity. Qed.

Lemma manifest_fixes_files_witness :
  file_collision \/
  forall name h, (name, h) ∈ sort_fields (default [] (mf_FileHashes demo_m)) ->
    files_of demo_zip !! name = files_of (rev demo_zip) !! name /\
    (name = "events.ndjson" -> demo_exported = demo_exported).
Proof.
  exact (manifest_fixes_files toy_verify toy_verify demo_zip (rev demo_zip) None (Some pk32)
    (accepted_result demo_exported None) (accepted_result demo_exported (Some pk32)) demo_md demo_m
    demo_accepted eq_refl demo_accepted_signed eq_refl demo_md_found demo_md_found_rev demo_m_decoded).
Defined.

Lemma stripped_package_passes_any_key_witness :
  exists r', VerifyEvidenceZip toy_verify (Some (filter (fun x => fst x <> "proof.json") demo_zip)) (Some "forged")
    = Ret r' /\ vr_OK r' = true /\ vr_Events r' = demo_exported /\ vr_SignatureValid r' = false.
Proof.
  apply (stripped_package_passes_any_key toy_verify demo_zip (accepted_result demo_exported None) demo_m demo_md
    "forged" demo_accepted eq_refl demo_md_found demo_m_decoded).
  intros h Hin. apply (list_elem_of_fmap_2 fst) in Hin. cbn [fst] in Hin.
  change (fst <$> ?l) with (map fst l) in Hin. rewrite demo_m_names in Hin.
  repeat (apply elem_of_cons in Hin as [Hin|Hin]; [discriminate Hin|]). by apply elem_of_nil in Hin.
Defined.
