(* ===== verification/EvidenceServer.v ===== *)
(** The server's evidence packages: the ledger it rebuilds from a job's event
    stream agrees with the stream, so the package it builds is accepted. *)

From S2P Require Import Prelude Sha256 GoTime Json GoStrings Base64 TimeParse JsonFacts GoFloat Events MemStore MemStoreProps ProofChain Redaction Evidence EvidenceProps.

(** ** The rebuilt ledger *)

Definition rebuilt (stream : list JobEvent) : gmap string invocationAcc := foldl ledger_event ∅ stream.

Lemma insert_field_same_entries {A} k (v : A) l :
  k ∉ l.*1 -> Permutation (insert_field k v l) ((k, v) :: l).
Proof.
  induction l as [|[k' v'] l IH]; cbn; [done|]. intros [Hk Hl]%not_elem_of_cons.
  destruct (String.ltb k k'); [done|]. destruct (String.eqb_spec k k') as [->|]; [done|].
  rewrite IH by done. apply Permutation_swap.
Qed.

Lemma sort_fields_same_entries {A} (l : list (string * A)) :
  NoDup l.*1 -> Permutation (sort_fields l) l.
Proof.
  unfold sort_fields. intros Hn.
  assert (H : forall acc, NoDup (acc.*1 ++ l.*1) ->
    Permutation (foldl (fun acc kv => insert_field (fst kv) (snd kv) acc) acc l) (acc ++ l)).
  2:{ by apply (H []). }
  clear Hn. induction l as [|[k v] l IH]; intros acc Hn; cbn [foldl]; [by rewrite app_nil_r|].
  assert (Hk : k ∉ acc.*1).
  { intros Hin. apply NoDup_app in Hn as (_ & Hd & _). apply (Hd k Hin). cbn. by left. }
  pose proof (insert_field_same_entries k v acc Hk) as Hp. cbn [fst snd].
  rewrite IH; rewrite Hp; cbn; [by rewrite Permutation_middle|].
  by rewrite Permutation_middle.
Qed.

Lemma ListToolInvocations_perm stream jobID :
  Permutation (ListToolInvocations stream jobID) (map (invocation_of jobID) (map_to_list (rebuilt stream))).
Proof.
  unfold ListToolInvocations. apply Permutation_map, sort_fields_same_entries, NoDup_fst_map_to_list.
Qed.

Lemma invocation_of_key jobID kv : ti_IdempotencyKey (invocation_of jobID kv) = fst kv.
Proof. by destruct kv. Qed.

Lemma ledger_keys_nodup stream jobID : NoDup (map ti_IdempotencyKey (ListToolInvocations stream jobID)).
Proof.
  rewrite (ListToolInvocations_perm stream jobID), map_map.
  rewrite (map_ext _ fst); [|apply invocation_of_key]. apply NoDup_fst_map_to_list.
Qed.

Lemma last_record_unique ledger key inv :
  NoDup (map ti_IdempotencyKey ledger) -> inv ∈ ledger -> ti_IdempotencyKey inv = key ->
  last_record ledger key = Some inv.
Proof.
  unfold last_record. intros Hn Hin Hk.
  assert (Hf : inv ∈ filter (fun i => ti_IdempotencyKey i = key) ledger) by (by apply list_elem_of_filter).
  destruct (last _) as [y|] eqn:Hl.
  - apply last_Some_elem_of, list_elem_of_filter in Hl as [Hky Hy].
    f_equal. apply (nodup_map_inj ti_IdempotencyKey ledger); congruence.
  - apply last_None in Hl. rewrite Hl in Hf. by apply elem_of_nil in Hf.
Qed.

(** Events as the program writes them: a type of the list, and no tool name
    in a finished call. *)
Definition as_written (e : JobEvent) : bool :=
  bool_decide (event_type_of_string (event_type_string (ev_Type e)) = ev_Type e) &&
  match keyed_payload "tool_invocation_finished" (proof_event e) with
  | Some (_, o) => match get_str "tool_name" o with Some n => String.eqb n EmptyString | None => true end
  | None => true
  end.

Lemma finished_keyed e key o :
  as_written e = true -> keyed_payload "tool_invocation_finished" (proof_event e) = Some (key, o) ->
  ev_Type e = ToolInvocationFinished /\ payload_object (ev_Payload e) = Some o /\
  get_str "idempotency_key" o = Some key /\ key <> EmptyString.
Proof.
  unfold as_written, keyed_payload. intros [Ht _]%andb_prop. apply bool_decide_eq_true in Ht.
  cbn [proof_event pe_Type pe_Payload].
  destruct (String.eqb_spec (event_type_string (ev_Type e)) "tool_invocation_finished") as [He|]; [|done].
  rewrite He in Ht. destruct (payload_object (ev_Payload e)) as [o'|]; [|done]. cbn.
  destruct (get_str "idempotency_key" o') as [k|] eqn:Hk; [|done]. cbn.
  destruct (String.eqb_spec k EmptyString); [done|]. intros [= <- <-].
  split_and!; [by rewrite <- Ht|done|done|done].
Qed.

(** A record has been finished exactly if its key is among the finished
    events, and then with the outcome of the last one. *)
Definition tracks (fm : gmap string fields) (acc : gmap string invocationAcc) : Prop :=
  (forall key o, fm !! key = Some o -> exists a, acc !! key = Some a /\
     ia_outcome a = getString o "outcome" /\
     (forall n, get_str "tool_name" o = Some n -> n = EmptyString)) /\
  (forall key a, acc !! key = Some a -> ia_outcome a <> EmptyString -> is_Some (fm !! key)).

Lemma tracks_step fm acc e :
  as_written e = true -> tracks fm acc ->
  tracks (match keyed_payload "tool_invocation_finished" (proof_event e) with
          | Some (key, o) => <[key := o]> fm | None => fm end) (ledger_event acc e).
Proof.
  intros Hc [Hf Ha].
  destruct (keyed_payload "tool_invocation_finished" (proof_event e)) as [[key o]|] eqn:Hk.
  - assert (Hname : forall n, get_str "tool_name" o = Some n -> n = EmptyString).
    { intros n Hn. unfold as_written in Hc. rewrite Hk, Hn in Hc. apply andb_prop in Hc as [_ Hc].
      by apply String.eqb_eq. }
    destruct (finished_keyed e key o Hc Hk) as (Ht & Hp & Hkey & Hne).
    assert (Hg : getString o "idempotency_key" = key) by (unfold getString; by rewrite Hkey).
    unfold ledger_event. rewrite Ht.
    rewrite (bool_decide_eq_true_2 (ToolInvocationFinished = ToolInvocationFinished)) by done.
    rewrite orb_true_r, Hp, Hg. destruct (String.eqb_spec key EmptyString); [done|]. split.
    + intros k o'. rewrite !lookup_insert. destruct (decide (key = k)) as [->|]; [|apply Hf].
      intros [= <-]. eexists. split; [done|]. split; [done|exact Hname].
    + intros k a. rewrite !lookup_insert. destruct (decide (key = k)) as [->|]; [by eexists|apply Ha].
  - unfold ledger_event. destruct (_ || _)%bool eqn:Hty; [|done].
    destruct (payload_object (ev_Payload e)) as [o|] eqn:Hp; [|done].
    destruct (String.eqb_spec (getString o "idempotency_key") EmptyString) as [|Hne]; [done|].
    assert (Hnf : bool_decide (ev_Type e = ToolInvocationFinished) = false).
    { apply bool_decide_eq_false. intros Ht. unfold keyed_payload in Hk.
      cbn [proof_event pe_Type pe_Payload] in Hk. rewrite Ht, Hp in Hk. cbn in Hk.
      unfold getString in Hne. destruct (get_str "idempotency_key" o) as [k|]; [|done]. cbn in Hk, Hne.
      by destruct (String.eqb_spec k EmptyString). }
    rewrite Hnf. set (k0 := getString o "idempotency_key") in *. split.
    + intros k o' Ho'. destruct (Hf k o' Ho') as (a & Hka & Hout & Hn). rewrite lookup_insert.
      destruct (decide (k0 = k)) as [->|]; [|by exists a].
      rewrite Hka. eexists. split; [done|]. by split.
    + intros k a. rewrite lookup_insert. destruct (decide (k0 = k)) as [->|]; [|apply Ha].
      intros [= <-]. cbn [acc_event ia_outcome]. destruct (acc !! k) as [a0|] eqn:Hka; [|done].
      by apply (Ha k a0).
Qed.

Lemma tracks_stream stream :
  forallb as_written stream = true -> tracks (finished_map (map proof_event stream)) (rebuilt stream).
Proof.
  induction stream as [|e es IH] using rev_ind.
  - intros _. split; intros ? ? H; unfold finished_map, rebuilt in H; cbn in H; by rewrite lookup_empty in H.
  - rewrite forallb_app. intros [Hes He]%andb_prop. cbn in He. rewrite andb_true_r in He.
    unfold finished_map, rebuilt. rewrite map_app, !foldl_app. cbn [map foldl].
    pose proof (tracks_step _ _ e He (IH Hes)) as H. unfold finished_map, rebuilt in H.
    by destruct (keyed_payload _ (proof_event e)) as [[? ?]|].
Qed.

(** The check passes on the stream and the ledger rebuilt from it. *)
Lemma rebuilt_consistent stream jobID :
  forallb as_written stream = true ->
  ValidateLedgerConsistency (map proof_event stream) (ListToolInvocations stream jobID) = Ok tt.
Proof.
  intros Hc. destruct (tracks_stream stream Hc) as [Hf Ha].
  assert (Hin : forall inv, inv ∈ ListToolInvocations stream jobID <->
    exists key a, rebuilt stream !! key = Some a /\ inv = invocation_of jobID (key, a)).
  { intros inv. rewrite (ListToolInvocations_perm stream jobID), list_elem_of_fmap. split.
    - intros ([k a] & -> & Hka). apply elem_of_map_to_list in Hka. by exists k, a.
    - intros (k & a & Hka & ->). exists (k, a). split; [done|]. by apply elem_of_map_to_list. }
  apply ledger_consistency_correct. split.
  - intros key o Ho. rewrite <- finished_map_last in Ho. destruct (Hf key o Ho) as (a & Hka & Hout & Hn).
    exists (invocation_of jobID (key, a)). split_and!.
    + apply last_record_unique; [apply ledger_keys_nodup|apply Hin; by exists key, a|done].
    + intros n Hn' Hne. by destruct Hne; apply Hn.
    + intros Hs. unfold getString in Hout. rewrite Hs in Hout. cbn in Hout.
      cbn [invocation_of ti_Committed]. rewrite Hout. done.
  - intros inv (key & a & Hka & ->)%Hin Hcom. rewrite <- finished_map_last. rewrite invocation_of_key.
    cbn [fst]. destruct (Ha key a Hka) as [o Ho]; [|by exists o].
    cbn [invocation_of ti_Committed] in Hcom. apply andb_prop in Hcom as [Hne _].
    apply negb_true_iff in Hne. by apply String.eqb_neq.
Qed.

(** ** The package is built *)

Lemma metadata_times es m :
  md_CreatedAt (foldl metadata_event m es) = md_CreatedAt m /\
  md_UpdatedAt (foldl metadata_event m es) = md_UpdatedAt m.
Proof.
  revert m. induction es as [|e es IH]; intros m; [done|]. cbn [foldl].
  destruct (IH (metadata_event m e)) as [-> ->]. unfold metadata_event. by repeat case_match.
Qed.

Lemma printable_marshalable e : printable_event e = true -> marshalable (pe_CreatedAt e) = true.
Proof.
  unfold printable_event, printable_time. intros H. apply andb_prop in H as [_ H]. by apply andb_prop in H as [? _].
Qed.

Lemma package_built sign now jobID first rest ledger opts :
  Forall (fun e => printable_event e = true) (first :: rest) -> marshalable (t_utc now) = true ->
  (eo_PrivateKey opts = EmptyString \/ String.length (eo_PrivateKey opts) = PrivateKeySize) ->
  exists files, package sign now jobID first (first :: rest) ledger opts = Ret (Ok files).
Proof.
  intros He Hnow Hkey. unfold package. rewrite eventsToNDJSON_some by done.
  assert (Hlast : marshalable (pe_CreatedAt (default first (last (first :: rest)))) = true).
  { apply printable_marshalable. rewrite Forall_forall in He. apply He.
    destruct (last (first :: rest)) as [x|] eqn:Hl; cbn; [by apply last_Some_elem_of|by left]. }
  assert (Hmeta : exists meta, indent_metadata (extractJobMetadata jobID first (first :: rest)) = Some meta).
  { unfold indent_metadata, extractJobMetadata.
    match goal with |- context [foldl metadata_event ?m ?es] => destruct (metadata_times es m) as [-> ->] end.
    cbn [md_CreatedAt md_UpdatedAt]. rewrite Hlast. inversion He; subst.
    rewrite printable_marshalable by done. by eexists. }
  destruct Hmeta as [meta ->]. unfold indent_manifest. cbn [export_manifest mf_ExportedAt]. rewrite Hnow.
  unfold export_proof, SignEvidence. destruct (eo_PrivateKey opts) as [|a k] eqn:Hk.
  - eexists. reflexivity.
  - destruct Hkey as [?|Hlen]; [done|]. rewrite Hlen, Nat.eqb_refl. eexists. reflexivity.
Qed.

(** ** The adapter's events *)

Lemma adapter_valid stream : ValidateChain (adapter_ListEvents stream) = Ok tt.
Proof.
  unfold adapter_ListEvents. destruct (ValidateChain (map proof_event stream)) as [[]|] eqn:Hv; cbn [is_ok]; [done|].
  apply ValidateChain_spec, relink_chained.
Qed.

Lemma adapter_identity stream : map identity_of (adapter_ListEvents stream) = map identity_of (map proof_event stream).
Proof. unfold adapter_ListEvents. destruct (is_ok _); [done|]. apply relink_preserves. Qed.

Lemma finished_map_identity es es' :
  map identity_of es = map identity_of es' -> finished_map es = finished_map es'.
Proof.
  unfold finished_map. generalize (∅ : gmap string fields). revert es'.
  induction es as [|e es IH]; intros [|e' es'] m H; cbn in H; try done.
  injection H as Hi Ht Hty Hp Hc H. cbn [foldl].
  assert (keyed_payload "tool_invocation_finished" e = keyed_payload "tool_invocation_finished" e') as ->.
  { unfold keyed_payload. by rewrite Hty, Hp. }
  by apply IH.
Qed.

Lemma relink_printable prev es :
  utf8_valid prev = true -> Forall (fun e => printable_event e = true) es ->
  Forall (fun e => printable_event e = true) (relink_from prev es).
Proof.
  intros Hprev H. revert prev Hprev. induction H as [|e es He Hes IH]; intros prev Hprev; cbn [relink_from]; [done|].
  constructor; [|apply IH, hex_sha256_utf8].
  unfold printable_event in *. cbn [relink pe_ID pe_JobID pe_Type pe_Payload pe_CreatedAt pe_PrevHash pe_Hash].
  bool_hyps. unfold ComputeEventHash. rewrite hex_sha256_utf8, Hprev.
  repeat match goal with H : ?b = true |- context [?b] => rewrite H end. done.
Qed.

(** What the stream must satisfy to be printed: see [exportable]. *)
Definition exportable_stream (jobID keyID : string) (stream : list JobEvent) : bool :=
  utf8_valid jobID && utf8_valid keyID && forallb as_written stream
  && forallb (fun e => printable_event (proof_event e)) stream
  && forallb printable_invocation (ListToolInvocations stream jobID)
  && (Z.of_nat (length stream) <=? 2 ^ 63 - 1)
  && (Z.of_nat (length (ListToolInvocations stream jobID)) <=? 2 ^ 63 - 1).

Lemma adapter_printable stream :
  forallb (fun e => printable_event (proof_event e)) stream = true ->
  Forall (fun e => printable_event e = true) (adapter_ListEvents stream).
Proof.
  intros H. assert (Hp : Forall (fun e => printable_event e = true) (map proof_event stream)).
  { apply Forall_map. by apply (forallb_Forall_true (fun e => printable_event (proof_event e))). }
  unfold adapter_ListEvents. destruct (is_ok _); [done|]. by apply relink_printable.
Qed.

Lemma adapter_length stream : length (adapter_ListEvents stream) = length stream.
Proof.
  rewrite <- (length_map identity_of (adapter_ListEvents stream)), adapter_identity. by rewrite !length_map.
Qed.

(** The server's package of any job is accepted.  Whatever the store holds
    for a job, even a stream whose hashes do not fit, if it is not empty and
    printable, then the server builds a package, and the verifier accepts it
    with every check passed, in whatever order its files are packed: the
    ledger it rebuilds from the started and finished events always agrees
    with them.  With signing enabled the signature is accepted too under the
    signer's public key. *)
Theorem server_package_is_accepted sign verify now jobID stream signing pubKey :
  exportable_stream jobID (default EmptyString (snd <$> signing)) stream = true ->
  jobID <> EmptyString -> stream <> [] -> marshalable (t_utc now) = true ->
  match signing with
  | None => pubKey = None
  | Some (sk, _) => exists pk, key_pair sign verify sk pk /\ (pubKey = None \/ pubKey = Some pk)
  end ->
  exists files, buildForensicsPackage sign now jobID stream signing = Ret (Ok files) /\
    forall files', Permutation files' files ->
      VerifyEvidenceZip verify (Some (entries files')) pubKey
      = Ret (accepted_result (adapter_ListEvents stream) pubKey).
Proof.
  intros Hexp Hjob Hne Hnow Hkeys.
  set (opts := mkOptions "2.0.0" "2.0" false EmptyString (default EmptyString (fst <$> signing))
                 (default EmptyString (snd <$> signing))).
  set (events := adapter_ListEvents stream). set (ledger := ListToolInvocations stream jobID).
  unfold exportable_stream in Hexp. fold ledger in Hexp.
  apply andb_prop in Hexp as [Hexp Hll]; apply andb_prop in Hexp as [Hexp Hsl];
    apply andb_prop in Hexp as [Hexp Hli]; apply andb_prop in Hexp as [Hexp Hpe];
    apply andb_prop in Hexp as [Hexp Hcan]; apply andb_prop in Hexp as [Hj Hk].
  pose proof (adapter_printable stream Hpe) as Hprint. fold events in Hprint.
  assert (Hexport : exportable jobID opts events ledger = true).
  { unfold exportable, opts. cbn [eo_RuntimeVersion eo_SchemaVersion eo_KeyID].
    rewrite Hj, Hk, Hli, Hll. unfold events. rewrite adapter_length, Hsl. fold events.
    assert (forallb printable_event events = true) as ->; [|done].
    apply forallb_forall. intros e He%list_elem_of_In. rewrite Forall_forall in Hprint. by apply Hprint. }
  assert (Hcons : ValidateLedgerConsistency events ledger = Ok tt).
  { pose proof (rebuilt_consistent stream jobID Hcan) as Hc. fold ledger in Hc.
    unfold ValidateLedgerConsistency in *. unfold events.
    by rewrite (finished_map_identity _ _ (adapter_identity stream)). }
  assert (Hmatch : keys_match sign verify opts pubKey).
  { destruct signing as [[sk kid]|]; [right|left]; [|done]. exact Hkeys. }
  destruct events as [|first rest] eqn:Hev.
  { exfalso. apply Hne. apply length_zero_iff_nil. rewrite <- adapter_length. fold events. by rewrite Hev. }
  assert (Hlen : eo_PrivateKey opts = EmptyString \/ String.length (eo_PrivateKey opts) = PrivateKeySize).
  { destruct signing as [[sk kid]|]; [right|by left]. destruct Hkeys as (pk & (Hl & _) & _). exact Hl. }
  destruct (package_built sign now jobID first rest ledger opts Hprint Hnow Hlen) as [files Hfiles].
  exists files. split.
  - unfold buildForensicsPackage.
    assert (match signing with Some (key, _) => negb (String.length key =? PrivateKeySize)%nat | None => false end
            = false) as ->.
    { destruct signing as [[sk kid]|]; [|done]. destruct Hkeys as (pk & (Hl & _) & _). by rewrite Hl, Nat.eqb_refl. }
    unfold ExportEvidenceZip. fold opts ledger. destruct (String.eqb_spec jobID EmptyString); [done|].
    unfold events in Hev. rewrite Hev. rewrite bool_decide_eq_false_2 by done.
    rewrite <- Hev, adapter_valid, Hev. exact Hfiles.
  - intros files' Hperm. eapply package_accepted; [exact Hexport|done|exact Hmatch| |exact Hcons|exact Hfiles|done].
    unfold events in Hev. rewrite <- Hev. apply adapter_valid.
Qed.

Definition demo_stream : list JobEvent :=
  [mkJobEvent "1" "j" ToolInvocationStarted
     (obj_text [("idempotency_key", quote "k"); ("tool_name", quote "t"); ("started_at", quote "now")])
     (Time 0 0) "" "altered";
   mkJobEvent "2" "j" ToolInvocationFinished
     (obj_text [("idempotency_key", quote "k"); ("outcome", quote "success"); ("result", "{}")])
     (Time 1 0) "" ""].

Lemma server_package_is_accepted_witness :
  map ti_Committed (ListToolInvocations demo_stream "j") = [true] /\
  exists files, buildForensicsPackage toy_sign (Time 0 0) "j" demo_stream (Some (sk64, "kid")) = Ret (Ok files) /\
    forall files', Permutation files' files ->
      VerifyEvidenceZip toy_verify (Some (entries files')) (Some pk32)
      = Ret (accepted_result (adapter_ListEvents demo_stream) (Some pk32)).
Proof.
  split; [vm_compute; reflexivity|].
  apply server_package_is_accepted.
  - vm_compute. reflexivity.
  - discriminate.
  - discriminate.
  - reflexivity.
  - exists pk32. split; [by apply toy_keys|by right].
Defined.
