(* ===== verification/RateLimit.v ===== *)
(** Limiters keyed by a name: the part that the tool limiter of
    internal/agent/runtime/executor/rate_limiter.go and the provider limiter of
    internal/model/llm/rate_limiter.go share (a map from names to limiters, a
    buffered channel as semaphore, callers that wait, run and release in any
    interleaving).

    golang.org/x/time/rate is third-party code: the class [RateOps] has its
    operations, its documented behaviour is stated where it is used. *)

From S2P Require Import Prelude GoFloat.

(** ** Channels used as semaphores

    [chan struct{}] of capacity [ch_cap]; of its contents only the number of
    elements can be observed. *)
Record chan := mkChan { ch_cap : Z; ch_len : Z }.

(** [make(chan struct{}, n)] *)
Definition make_chan (n : Z) : chan := mkChan n 0.

(** A send, [None] where it would block. *)
Definition try_send (c : chan) : option chan :=
  if ch_len c <? ch_cap c then Some (mkChan (ch_cap c) (ch_len c + 1)) else None.

(** A receive, [None] where it would block. *)
Definition try_recv (c : chan) : option chan :=
  if 0 <? ch_len c then Some (mkChan (ch_cap c) (ch_len c - 1)) else None.

(** ** golang.org/x/time/rate

    A [Moment] is what a call depends on besides its arguments: when it is
    made and how its context ends. *)
Class RateOps := {
  Rate : Type;
  Moment : Type;
  NewRate : float64 -> Z -> Rate;
  WaitN : Rate -> Moment -> Z -> Rate * option string;
  AllowN : Rate -> Moment -> Z -> Rate * bool;
}.

(** ** Maps of limiters

    A limiter is used through a pointer: [ls_heap] holds the limiters ever
    allocated, [ls_map] the pointers in the map. *)
Record limiters (L : Type) := mkLimiters { ls_map : gmap string nat; ls_heap : list L }.
Arguments mkLimiters {L}. Arguments ls_map {L}. Arguments ls_heap {L}.

(** The semaphore of a limiter of type [L]. *)
Class Semaphored (L : Type) := {
  semaphore : L -> option chan;
  set_semaphore : chan -> L -> L;
}.

(** The waits in front of it, the update behind it, and what a lookup that
    misses does. *)
Class Limiter (L Req Mom : Type) := {
  (** the waits of one call, in order; an error ends the call *)
  stages : list (L -> Req -> Mom -> L * option string);
  (** what a call that got its slot records *)
  admitted : Req -> Mom -> L -> L;
  (** the slow path, with the pointer it goes on with, or none when it looks
      the name up again *)
  miss : string -> Mom -> limiters L -> limiters L * option nat;
}.

Section semaphores.
Context {L : Type} `{!Semaphored L}.

Definition alloc (name : string) (l : L) (s : limiters L) : limiters L :=
  mkLimiters (<[name := length (ls_heap s)]> (ls_map s)) (ls_heap s ++ [l]).

Definition update (p : nat) (l : L) (s : limiters L) : limiters L :=
  mkLimiters (ls_map s) (<[p := l]> (ls_heap s)).

(** The select of Wait: [None] while the channel is full. *)
Definition acquire (p : nat) (s : limiters L) : option (limiters L) :=
  match ls_heap s !! p with
  | Some l =>
      match semaphore l with
      | Some c => (fun c' => update p (set_semaphore c' l) s) <$> try_send c
      | None => Some s
      end
  | None => Some s
  end.

(** The select of Release, which has a default branch. *)
Definition release (p : nat) (s : limiters L) : limiters L :=
  match ls_heap s !! p with
  | Some l =>
      match semaphore l with
      | Some c => match try_recv c with Some c' => update p (set_semaphore c' l) s | None => s end
      | None => s
      end
  | None => s
  end.

Lemma lookup_update p q l s : p <> q -> ls_heap (update q l s) !! p = ls_heap s !! p.
Proof. intros Hp. cbn. by rewrite list_lookup_insert_ne. Qed.
End semaphores.

Section operations.
Context {L Req Mom : Type} `{!Semaphored L} `{!Limiter L Req Mom}.

(** One wait in front of the semaphore. *)
Definition stage_step (k : nat) (p : nat) (r : Req) (m : Mom) (s : limiters L)
  : option (limiters L * option string) :=
  match stages !! k, ls_heap s !! p with
  | Some f, Some l => let '(l', e) := f l r m in Some (update p l' s, e)
  | _, _ => None
  end.

Definition record_admitted (p : nat) (r : Req) (m : Mom) (s : limiters L) : limiters L :=
  match ls_heap s !! p with Some l => update p (admitted r m l) s | None => s end.

(** A call of Wait that nobody interrupts: granted with the limiter it got a
    slot of, refused by a wait, or blocked at a full semaphore. *)
Inductive wait_result := Granted (p : nat) | Refused (e : string) | Blocked.

Fixpoint run_stages (ks : list nat) (p : nat) (r : Req) (m : Mom) (s : limiters L)
  : limiters L * option string :=
  match ks with
  | [] => (s, None)
  | k :: ks' =>
      match stage_step k p r m s with
      | Some (s', None) => run_stages ks' p r m s'
      | Some (s', Some e) => (s', Some e)
      | None => (s, None)
      end
  end.

Definition find_limiter (name : string) (m : Mom) (s : limiters L) : limiters L * option nat :=
  match ls_map s !! name with
  | Some p => (s, Some p)
  | None => let '(s', o) := miss name m s in (s', match o with Some p => Some p | None => ls_map s' !! name end)
  end.

Definition Wait (name : string) (r : Req) (m : Mom) (s : limiters L) : limiters L * wait_result :=
  match find_limiter name m s with
  | (s1, Some p) =>
      match run_stages (seq 0 (length stages)) p r m s1 with
      | (s2, Some e) => (s2, Refused e)
      | (s2, None) =>
          match acquire p s2 with
          | Some s3 => (record_admitted p r m s3, Granted p)
          | None => (s2, Blocked)
          end
      end
  | (s1, None) => (s1, Blocked)
  end.

(** ** Callers

    Where a call of Wait, the work behind it and Release stand. *)
Inductive caller :=
| Missing (name : string) (r : Req)
| Reread (name : string) (r : Req)
| Waiting (k : nat) (name : string) (p : nat) (r : Req)
| Slotted (name : string) (p : nat) (r : Req)
| Running (name : string) (p : nat)
| Releasing (name : string) (p : nat).

Record limiter_system := mkSystem { sy_limiters : limiters L; sy_callers : list caller }.

Definition looked_up (name : string) (r : Req) (o : option nat) : caller :=
  match o with Some p => Waiting 0 name p r | None => Missing name r end.

Definition after_miss (name : string) (r : Req) (o : option nat) : caller :=
  match o with Some p => Waiting 0 name p r | None => Reread name r end.

(** Any caller may take the next step of its call; a step under one lock, or
    on one channel, is atomic. *)
Inductive limiter_step (y : limiter_system) : limiter_system -> Prop :=
| step_enter name r :
    limiter_step y (mkSystem (sy_limiters y) (looked_up name r (ls_map (sy_limiters y) !! name) :: sy_callers y))
| step_miss i name r m s' o :
    sy_callers y !! i = Some (Missing name r) -> miss name m (sy_limiters y) = (s', o) ->
    limiter_step y (mkSystem s' (after_miss name r o :: splice i (sy_callers y)))
| step_reread i name r p :
    sy_callers y !! i = Some (Reread name r) -> ls_map (sy_limiters y) !! name = Some p ->
    limiter_step y (mkSystem (sy_limiters y) (Waiting 0 name p r :: splice i (sy_callers y)))
| step_stage i k name p r m s' :
    sy_callers y !! i = Some (Waiting k name p r) ->
    stage_step k p r m (sy_limiters y) = Some (s', None) ->
    limiter_step y (mkSystem s' (Waiting (S k) name p r :: splice i (sy_callers y)))
| step_refused i k name p r m s' e :
    sy_callers y !! i = Some (Waiting k name p r) ->
    stage_step k p r m (sy_limiters y) = Some (s', Some e) ->
    limiter_step y (mkSystem s' (splice i (sy_callers y)))
| step_acquire i name p r s' :
    sy_callers y !! i = Some (Waiting (length stages) name p r) ->
    acquire p (sy_limiters y) = Some s' ->
    limiter_step y (mkSystem s' (Slotted name p r :: splice i (sy_callers y)))
| step_cancelled i name p r :
    sy_callers y !! i = Some (Waiting (length stages) name p r) ->
    limiter_step y (mkSystem (sy_limiters y) (splice i (sy_callers y)))
| step_admitted i name p r m :
    sy_callers y !! i = Some (Slotted name p r) ->
    limiter_step y (mkSystem (record_admitted p r m (sy_limiters y)) (Running name p :: splice i (sy_callers y)))
| step_return i name p q :
    sy_callers y !! i = Some (Running name p) -> ls_map (sy_limiters y) !! name = Some q ->
    limiter_step y (mkSystem (sy_limiters y) (Releasing name q :: splice i (sy_callers y)))
| step_release i name p :
    sy_callers y !! i = Some (Releasing name p) ->
    limiter_step y (mkSystem (release p (sy_limiters y)) (splice i (sy_callers y))).

Definition limiter_reaches : limiter_system -> limiter_system -> Prop := rtc limiter_step.

Definition name_of (t : caller) : string :=
  match t with
  | Missing name _ | Reread name _ | Waiting _ name _ _ | Slotted name _ _
  | Running name _ | Releasing name _ => name
  end.

Definition pointer_of (t : caller) : option nat :=
  match t with
  | Missing _ _ | Reread _ _ => None
  | Waiting _ _ p _ | Slotted _ p _ | Running _ p | Releasing _ p => Some p
  end.

Definition no_limiter_yet (t : caller) : bool := match pointer_of t with None => true | Some _ => false end.

(** The caller has a slot of its limiter. *)
Definition has_slot (t : caller) : bool :=
  match t with Slotted _ _ _ | Running _ _ | Releasing _ _ => true | _ => false end.

Definition count_callers (f : caller -> bool) (ts : list caller) : Z :=
  Z.of_nat (length (filter (fun t => f t = true) ts)).

(** Calls for [name] between the acquisition of their slot and its release. *)
Definition slots_used (name : string) (y : limiter_system) : Z :=
  count_callers (fun t => has_slot t && String.eqb (name_of t) name) (sy_callers y).

(** ** Lemmas *)

Lemma count_callers_cons f t ts : count_callers f (t :: ts) = (if f t then 1 else 0) + count_callers f ts.
Proof. unfold count_callers. rewrite filter_cons. case_decide; destruct (f t); cbn [length]; first [done | lia]. Qed.

Lemma count_callers_splice f ts i t :
  ts !! i = Some t -> count_callers f ts = (if f t then 1 else 0) + count_callers f (splice i ts).
Proof.
  intros Hi. rewrite <- count_callers_cons. unfold count_callers. f_equal.
  apply Permutation_length, filter_Permutation, splice_perm, Hi.
Qed.

Lemma count_callers_app f ts us : count_callers f (ts ++ us) = count_callers f ts + count_callers f us.
Proof. unfold count_callers. rewrite filter_app, length_app. lia. Qed.

Lemma count_callers_nonneg f ts : 0 <= count_callers f ts.
Proof. unfold count_callers. lia. Qed.

End operations.
#[export] Hint Resolve count_callers_nonneg : go.
Arguments caller : clear implicits.
Arguments limiter_system : clear implicits.

(** ** The bound of a semaphore *)

(** What the operations of a limiter have in common. *)
Class LimiterSpec (L Req Mom : Type) `{!Semaphored L} `{!Limiter L Req Mom} := {
  semaphore_set c l : semaphore (set_semaphore c l) = Some c;
  stage_semaphore f l r m : f ∈ stages -> semaphore (fst (f l r m)) = semaphore l;
  admitted_semaphore r m l : semaphore (admitted r m l) = semaphore l;
  (** the slow path changes the entry of its name at most, to a new limiter *)
  miss_allocates name m s s' o :
    miss name m s = (s', o) ->
    exists new, ls_heap s' = ls_heap s ++ new /\
    (ls_map s' = ls_map s \/ new <> [] /\ ls_map s' = <[name := length (ls_heap s)]> (ls_map s)) /\
    (forall p, o = Some p -> ls_map s' !! name = Some p);
}.

Section uninterrupted.
Context {L Req Mom : Type} `{!Semaphored L} `{!Limiter L Req Mom}.
Implicit Types (s : limiters L) (ts : list (caller Req)).

Lemma run_stages_reaches name p r m ts n k s s' :
  (exists l, ls_heap s !! p = Some l) -> (k + n = length stages)%nat ->
  run_stages (seq k n) p r m s = (s', None) ->
  limiter_reaches (mkSystem s (Waiting k name p r :: ts)) (mkSystem s' (Waiting (length stages) name p r :: ts)).
Proof.
  revert k s. induction n as [|n IH]; intros k s [l Hl] Hk; cbn [seq run_stages].
  - intros [= <-]. replace k with (length stages) by lia. constructor.
  - destruct (stage_step k p r m s) as [[s1 [e|]]|] eqn:Hst; [done| |].
    + intros Hr. eapply rtc_l; [by eapply (step_stage _ 0)|]. cbn. apply (IH (S k) s1); [|lia|done].
      unfold stage_step in Hst. rewrite Hl in Hst. case_match; [|done]. case_match. injection Hst as <- _.
      cbn. eexists. apply list_lookup_insert_eq. by eapply lookup_lt_Some.
    + exfalso. unfold stage_step in Hst. rewrite Hl in Hst. case_match eqn:Hs; [by case_match|].
      apply lookup_ge_None in Hs. lia.
Qed.

(** A granted call is a run of one caller. *)
Lemma Wait_reaches name r m s s' p ts :
  (forall q, ls_map s !! name = Some q -> exists l, ls_heap s !! q = Some l) ->
  (forall s1 o, ls_map s !! name = None -> miss name m s = (s1, o) ->
     exists q l, ls_map s1 !! name = Some q /\ ls_heap s1 !! q = Some l /\ (o = None \/ o = Some q)) ->
  Wait name r m s = (s', Granted p) ->
  limiter_reaches (mkSystem s ts) (mkSystem s' (Running name p :: ts)).
Proof.
  intros Hmap Hmiss. unfold Wait, find_limiter.
  assert (forall q s1, (exists l, ls_heap s1 !! q = Some l) ->
    match run_stages (seq 0 (length stages)) q r m s1 with
    | (s2, Some e) => (s2, Refused e)
    | (s2, None) => match acquire q s2 with
                    | Some s3 => (record_admitted q r m s3, Granted q)
                    | None => (s2, Blocked)
                    end
    end = (s', Granted p) ->
    limiter_reaches (mkSystem s1 (Waiting 0 name q r :: ts)) (mkSystem s' (Running name p :: ts))) as Hrest.
  { intros q s1 Hl. destruct (run_stages _ _ _ _ s1) as [s2 [e|]] eqn:Hr; [done|].
    destruct (acquire q s2) as [s3|] eqn:Ha; [|done]. intros [= <- <-].
    etrans; [by eapply (run_stages_reaches name q r m ts (length stages) 0)|].
    eapply rtc_l; [by eapply (step_acquire _ 0)|]. eapply rtc_l; [by eapply (step_admitted _ 0)|]. constructor. }
  destruct (ls_map s !! name) as [q|] eqn:Hq.
  - intros Hw. eapply rtc_l; [apply (step_enter _ name r)|]. cbn [sy_limiters sy_callers]. rewrite Hq. by apply Hrest; auto.
  - destruct (miss name m s) as [s1 o] eqn:Hm. destruct (Hmiss s1 o eq_refl eq_refl) as (q & l & Hq1 & Hl & Ho).
    intros Hw. eapply rtc_l; [apply (step_enter _ name r)|]. cbn [sy_limiters sy_callers]. rewrite Hq. cbn [looked_up].
    eapply rtc_l; [by eapply (step_miss _ 0)|]. destruct Ho as [-> | ->]; cbn.
    + rewrite Hq1 in Hw. eapply rtc_l; [by eapply (step_reread _ 0)|]. cbn. by apply Hrest; eauto.
    + by apply Hrest; eauto.
Qed.
End uninterrupted.

Section bound.
Context {L Req Mom : Type} `{!Semaphored L} `{!Limiter L Req Mom} `{!LimiterSpec L Req Mom}.
Implicit Types (s : limiters L) (y : limiter_system L Req).

(** A second creation of a limiter for [name] does nothing. *)
Definition created_once (name : string) : Prop :=
  forall m s p, ls_map s !! name = Some p -> miss name m s = (s, Some p).

(** The semaphore at [p] has capacity [cap] and [n] slots in use. *)
Definition in_use (p : nat) (cap n : Z) s : Prop :=
  exists l, ls_heap s !! p = Some l /\ semaphore l = Some (mkChan cap n).

Definition caller_ok (name : string) (p : nat) (t : caller Req) : Prop :=
  (name_of t = name -> match t with
                       | Missing _ _ => created_once name
                       | _ => pointer_of t = None \/ pointer_of t = Some p
                       end) /\
  (pointer_of t = Some p -> name_of t = name).

Record guarded (name : string) (p : nat) (cap : Z) y : Prop := {
  gd_map : ls_map (sy_limiters y) !! name = Some p;
  gd_only : forall n, ls_map (sy_limiters y) !! n = Some p -> n = name;
  gd_in_use : in_use p cap (slots_used name y) (sy_limiters y);
  gd_bound : slots_used name y <= cap;
  gd_callers : Forall (caller_ok name p) (sy_callers y);
}.

Lemma in_use_update p cap n q l l' s :
  ls_heap s !! q = Some l -> semaphore l' = semaphore l ->
  in_use p cap n s -> in_use p cap n (update q l' s).
Proof.
  intros Hq Hl (l0 & Hp & Hs). destruct (decide (p = q)) as [->|Hne].
  - exists l'. rewrite Hq in Hp. injection Hp as ->. cbn.
    rewrite list_lookup_insert_eq by (by eapply lookup_lt_Some). by rewrite Hl.
  - exists l0. by rewrite lookup_update.
Qed.

Lemma in_use_app p cap n s s' new :
  ls_heap s' = ls_heap s ++ new -> in_use p cap n s -> in_use p cap n s'.
Proof. intros Hs (l & Hp & Hl). exists l. rewrite Hs. split; [by apply lookup_app_l_Some|done]. Qed.

Lemma in_use_acquire p cap n q s s' :
  in_use p cap n s -> acquire q s = Some s' ->
  ls_map s' = ls_map s /\
  if decide (q = p) then in_use p cap (n + 1) s' /\ n + 1 <= cap else in_use p cap n s'.
Proof.
  intros (l & Hp & Hl) Ha. unfold acquire in Ha. case_decide as Hq; [subst q|].
  - rewrite Hp, Hl in Ha. unfold try_send in Ha. cbn in Ha. destruct (Z.ltb_spec n cap); [|done].
    injection Ha as <-. split; [done|]. split; [|lia].
    eexists. cbn. rewrite list_lookup_insert_eq by (by eapply lookup_lt_Some).
    split; [done|]. by rewrite semaphore_set.
  - destruct (ls_heap s !! q) as [lq|] eqn:Hlq; [|by injection Ha as <-; split; [|exists l]].
    destruct (semaphore lq) as [c|]; [|by injection Ha as <-; split; [done|exists l]].
    destruct (try_send c); [|done]. injection Ha as <-. split; [done|].
    exists l. by rewrite lookup_update.
Qed.

Lemma in_use_release p cap n q s :
  in_use p cap n s ->
  ls_map (release q s) = ls_map s /\
  if decide (q = p) then 0 < n -> in_use p cap (n - 1) (release q s) else in_use p cap n (release q s).
Proof.
  intros (l & Hp & Hl). unfold release. case_decide as Hq; [subst q|].
  - rewrite Hp, Hl. unfold try_recv. cbn. destruct (Z.ltb_spec 0 n); [|split; [done|intros; lia]].
    split; [done|]. intros _. eexists. cbn.
    rewrite list_lookup_insert_eq by (by eapply lookup_lt_Some). split; [done|]. by rewrite semaphore_set.
  - destruct (ls_heap s !! q) as [lq|]; [|by split; [|exists l]].
    destruct (semaphore lq) as [c|]; [|by split; [|exists l]].
    destruct (try_recv c); [|by split; [|exists l]].
    split; [done|]. exists l. by rewrite lookup_update.
Qed.

Lemma stage_step_in_use p cap n k q r m s s' e :
  stage_step k q r m s = Some (s', e) -> in_use p cap n s -> ls_map s' = ls_map s /\ in_use p cap n s'.
Proof.
  unfold stage_step. destruct (stages !! k) as [f|] eqn:Hf; [|done].
  destruct (ls_heap s !! q) as [l|] eqn:Hl; [|done]. destruct (f l r m) as [l' e'] eqn:Hfl.
  intros [= <- <-] Hu. split; [done|]. eapply in_use_update; [done| |done].
  replace l' with (fst (f l r m)) by by rewrite Hfl. apply stage_semaphore. by eapply list_elem_of_lookup_2.
Qed.

Lemma record_admitted_in_use p cap n q r m s :
  in_use p cap n s ->
  ls_map (record_admitted q r m s) = ls_map s /\ in_use p cap n (record_admitted q r m s).
Proof.
  intros Hu. unfold record_admitted. destruct (ls_heap s !! q) as [l|] eqn:Hl; [|done].
  split; [done|]. eapply in_use_update; [done|apply admitted_semaphore|done].
Qed.

Definition slot_at (name : string) (t : caller Req) : bool := has_slot t && String.eqb (name_of t) name.

Definition slots_of (name : string) (ts : list (caller Req)) : Z := count_callers (slot_at name) ts.

(** One caller takes a step: it is replaced by the callers [t'] (one or none). *)
Lemma guarded_replace name p cap s ts s' i t t' :
  guarded name p cap (mkSystem s ts) -> ts !! i = Some t ->
  ls_map s' !! name = Some p -> (forall n, ls_map s' !! n = Some p -> n = name) ->
  Forall (caller_ok name p) t' ->
  let n := slots_used name (mkSystem s ts) + slots_of name t' - slots_of name [t] in
  in_use p cap n s' -> n <= cap ->
  guarded name p cap (mkSystem s' (t' ++ splice i ts)).
Proof.
  intros [_ _ _ _ Hc] Hi Hm Ho Ht n Hu Hn.
  assert (slots_used name (mkSystem s' (t' ++ splice i ts)) = n) as Heq.
  { subst n. unfold slots_used, slots_of, slot_at. cbn [sy_callers].
    rewrite count_callers_app, (count_callers_splice _ ts i t Hi), (count_callers_cons _ t []).
    change (count_callers _ []) with 0. lia. }
  split; cbn [sy_limiters sy_callers]; rewrite ?Heq; try done.
  apply Forall_app. split; [done|]. cbn in Hc.
  rewrite (splice_perm ts i t Hi) in Hc. by apply Forall_cons in Hc as [_ Hc].
Qed.

Lemma slots_of_one name t : slots_of name [t] = if slot_at name t then 1 else 0.
Proof. unfold slots_of. rewrite count_callers_cons. change (count_callers _ []) with 0. lia. Qed.

Lemma slots_of_none name : slots_of name [] = 0.
Proof. done. Qed.

(** The number of slots that a caller with [p] leaves is positive. *)
Lemma slots_used_pos name s i t ts : ts !! i = Some t -> slot_at name t = true -> 0 < slots_used name (mkSystem s ts).
Proof.
  intros Hi Ht. unfold slots_used. cbn [sy_callers]. rewrite (count_callers_splice _ ts i t Hi).
  unfold slot_at in Ht. rewrite Ht. pose proof (count_callers_nonneg (fun t => has_slot t && String.eqb (name_of t) name) (splice i ts)). lia.
Qed.

(** A step that neither touches the map nor a slot. *)
Lemma guarded_same name p cap s ts s' i t t' :
  guarded name p cap (mkSystem s ts) -> ts !! i = Some t ->
  ls_map s' = ls_map s -> slots_of name t' = slots_of name [t] ->
  (forall n, in_use p cap n s -> in_use p cap n s') -> Forall (caller_ok name p) t' ->
  guarded name p cap (mkSystem s' (t' ++ splice i ts)).
Proof.
  intros Hg Hi Hm Hn Hu Ht. pose proof Hg as [Hgm Ho Hgu Hb _]. cbn [sy_limiters] in *.
  apply (guarded_replace name p cap s ts s' i t t'); rewrite ?Hm, ?Hn; try done; [|lia].
  apply Hu. by replace (_ + _ - _) with (slots_used name (mkSystem s ts)) by lia.
Qed.

Lemma guarded_caller name p cap s ts i t :
  guarded name p cap (mkSystem s ts) -> ts !! i = Some t -> caller_ok name p t.
Proof. intros [_ _ _ _ Hc] Hi. eapply Forall_forall in Hc; [done|by eapply list_elem_of_lookup_2]. Qed.

Ltac one_caller := apply Forall_singleton; split; cbn.

Lemma guarded_enter name p cap s ts t :
  guarded name p cap (mkSystem s ts) -> has_slot t = false -> caller_ok name p t ->
  guarded name p cap (mkSystem s (t :: ts)).
Proof.
  intros [Hm Ho Hu Hb Hc] Ht Hok.
  assert (slots_used name (mkSystem s (t :: ts)) = slots_used name (mkSystem s ts)) as Heq.
  { unfold slots_used. cbn [sy_callers]. by rewrite count_callers_cons, Ht. }
  split; cbn [sy_limiters sy_callers] in *; rewrite ?Heq; auto.
Qed.

Lemma guarded_miss name p cap s ts i n r m s' o :
  guarded name p cap (mkSystem s ts) -> ts !! i = Some (Missing n r) -> miss n m s = (s', o) ->
  guarded name p cap (mkSystem s' (after_miss n r o :: splice i ts)).
Proof.
  intros Hg Hi Hmiss. pose proof Hg as [Hm Ho Hu Hb _]. cbn [sy_limiters sy_callers] in *.
  destruct (guarded_caller _ _ _ _ _ _ _ Hg Hi) as [Hc _]. cbn in Hc.
  destruct (decide (n = name)) as [->|Hne].
  { rewrite (Hc eq_refl m s p Hm) in Hmiss. injection Hmiss as <- <-.
    apply (guarded_same name p cap s ts s i _ [_] Hg Hi); [done..|].
    one_caller; auto. }
  destruct (miss_allocates _ _ _ _ _ Hmiss) as (new & Hnew & Hmap & Hp).
  assert (p < length (ls_heap s))%nat as Hlt by (destruct Hu as (l & Hl & _); by eapply lookup_lt_Some).
  assert (forall k, ls_map s' !! k = Some p -> k = name) as Ho'.
  { intros k. destruct Hmap as [-> | [_ ->]]; [apply Ho|]. destruct (decide (n = k)) as [->|Hk].
    - rewrite lookup_insert_eq. intros [= Hl]. lia.
    - rewrite lookup_insert_ne by done. apply Ho. }
  apply (guarded_replace name p cap s ts s' i _ [_] Hg Hi).
  - destruct Hmap as [-> | [_ ->]]; [done|]. by rewrite lookup_insert_ne.
  - done.
  - constructor; [|constructor]. split.
    + intros Hn. destruct o; cbn in Hn; congruence.
    + destruct o as [q|]; cbn; [|done]. intros [= ->]. by apply Ho', Hp.
  - rewrite !slots_of_one. replace (slot_at name (after_miss n r o)) with false by (by destruct o). cbn.
    eapply in_use_app; [done|]. by replace (_ + 0 - 0) with (slots_used name (mkSystem s ts)) by lia.
  - rewrite !slots_of_one. replace (slot_at name (after_miss n r o)) with false by (by destruct o). cbn. lia.
Qed.

Lemma guarded_acquire name p cap s ts i n q r s' :
  guarded name p cap (mkSystem s ts) -> ts !! i = Some (Waiting (length stages) n q r) ->
  acquire q s = Some s' ->
  guarded name p cap (mkSystem s' (Slotted n q r :: splice i ts)).
Proof.
  intros Hg Hi Ha. pose proof Hg as [Hm Ho Hu Hb _]. cbn [sy_limiters sy_callers] in *.
  destruct (guarded_caller _ _ _ _ _ _ _ Hg Hi) as [Hc1 Hc2]. cbn in Hc1, Hc2.
  destruct (in_use_acquire _ _ _ _ _ _ Hu Ha) as [Hs Hin].
  apply (guarded_replace name p cap s ts s' i _ [_] Hg Hi); rewrite ?Hs; [done..| | |].
  { one_caller; auto. }
  all: rewrite !slots_of_one; cbn; case_decide as Hq.
  - subst q. destruct Hin as [Hin _]. rewrite (Hc2 eq_refl), String.eqb_refl.
    by replace (_ + 1 - 0) with (slots_used name (mkSystem s ts) + 1) by lia.
  - replace (String.eqb n name) with false.
    2: { symmetry. apply String.eqb_neq. intros ->. destruct (Hc1 eq_refl); congruence. }
    by replace (_ + 0 - 0) with (slots_used name (mkSystem s ts)) by lia.
  - subst q. destruct Hin as [_ Hin]. rewrite (Hc2 eq_refl), String.eqb_refl. lia.
  - replace (String.eqb n name) with false; [lia|].
    symmetry. apply String.eqb_neq. intros ->. destruct (Hc1 eq_refl); congruence.
Qed.

Lemma guarded_release name p cap s ts i n q :
  guarded name p cap (mkSystem s ts) -> ts !! i = Some (Releasing n q) ->
  guarded name p cap (mkSystem (release q s) (splice i ts)).
Proof.
  intros Hg Hi. pose proof Hg as [Hm Ho Hu Hb _]. cbn [sy_limiters sy_callers] in *.
  destruct (guarded_caller _ _ _ _ _ _ _ Hg Hi) as [Hc1 Hc2]. cbn in Hc1, Hc2.
  destruct (in_use_release p cap _ q s Hu) as [Hs Hin].
  apply (guarded_replace name p cap s ts (release q s) i _ [] Hg Hi); rewrite ?Hs; [done..| |];
    rewrite slots_of_one, slots_of_none; unfold slot_at; cbn [has_slot name_of andb].
  - case_decide as Hq.
    + subst q. pose proof (Hc2 eq_refl) as ->. rewrite String.eqb_refl.
      replace (_ + 0 - 1) with (slots_used name (mkSystem s ts) - 1) by lia.
      apply Hin. eapply slots_used_pos; [done|]. unfold slot_at. cbn. apply String.eqb_refl.
    + replace (String.eqb n name) with false.
      2: { symmetry. apply String.eqb_neq. intros ->. destruct (Hc1 eq_refl); congruence. }
      by replace (_ + 0 - 0) with (slots_used name (mkSystem s ts)) by lia.
  - destruct (String.eqb n name); lia.
Qed.

Lemma guarded_step name p cap y y' : guarded name p cap y -> limiter_step y y' -> guarded name p cap y'.
Proof.
  intros Hg Hs. destruct y as [s ts]. pose proof Hg as [Hm Ho Hu Hb _].
  inversion Hs as [n r|i n r m s' o Hi Hmiss|i n r q Hi Hq|i k n q r m s' Hi Hst|i k n q r m s' e Hi Hst
    |i n q r s' Hi Ha|i n q r Hi|i n q r m Hi|i n q q' Hi Hq|i n q Hi]; subst; cbn [sy_limiters sy_callers] in *;
    try pose proof (guarded_caller _ _ _ _ _ _ _ Hg Hi) as Hc.
  - apply guarded_enter; [done|by destruct (_ !! _)|].
    destruct (ls_map s !! n) as [q|] eqn:Hn; split; cbn; try done; try congruence.
    + intros ->. right. congruence.
    + intros [= ->]. by apply Ho.
  - by eapply guarded_miss.
  - apply (guarded_same name p cap s ts s i _ [_] Hg Hi); [done..|].
    one_caller; intros; [right; congruence|apply Ho; congruence].
  - apply (guarded_same name p cap s ts s' i _ [_] Hg Hi); [by eapply (stage_step_in_use p cap)|done| |apply Forall_singleton; exact Hc].
    intros n0 Hn0. by eapply (stage_step_in_use p cap n0 _ _ _ _ _ _ _ Hst Hn0).
  - apply (guarded_same name p cap s ts s' i _ [] Hg Hi); [by eapply (stage_step_in_use p cap)|done| |constructor].
    intros n0 Hn0. by eapply (stage_step_in_use p cap n0 _ _ _ _ _ _ _ Hst Hn0).
  - by eapply guarded_acquire.
  - by apply (guarded_same name p cap s ts s i _ [] Hg Hi).
  - apply (guarded_same name p cap s ts _ i _ [_] Hg Hi); [by eapply (record_admitted_in_use p cap)|by rewrite !slots_of_one| |apply Forall_singleton; exact Hc].
    intros n0 Hn0. by apply record_admitted_in_use.
  - apply (guarded_same name p cap s ts s i _ [_] Hg Hi); [done|by rewrite !slots_of_one|done|].
    one_caller; intros; [right; congruence|apply Ho; congruence].
  - by eapply guarded_release.
Qed.

Lemma guarded_reaches name p cap y y' : guarded name p cap y -> limiter_reaches y y' -> guarded name p cap y'.
Proof. intros Hg Hr. eapply rtc_preserves; [done|apply guarded_step|done]. Qed.
End bound.

(** ** What holds of every limiter *)

Section every_limiter.
Context {L Req Mom : Type} `{!Semaphored L} `{!Limiter L Req Mom} `{!LimiterSpec L Req Mom}.
Context (P : L -> Prop).
Hypothesis P_semaphore : forall c l, P l -> P (set_semaphore c l).
Hypothesis P_stage : forall f l r m, f ∈ stages -> P l -> P (fst (f l r m)).
Hypothesis P_admitted : forall r m l, P l -> P (admitted r m l).
Hypothesis P_miss : forall name m s, Forall P (ls_heap s) -> Forall P (ls_heap (fst (miss name m s))).

Lemma Forall_update p l (s : limiters L) : Forall P (ls_heap s) -> P l -> Forall P (ls_heap (update p l s)).
Proof. intros Hs Hl. cbn. by apply Forall_insert. Qed.

Lemma every_lookup p l (s : limiters L) : Forall P (ls_heap s) -> ls_heap s !! p = Some l -> P l.
Proof. intros Hs Hl. by eapply Forall_lookup_1. Qed.

Lemma every_stage_step k p r m s s' e :
  stage_step k p r m s = Some (s', e) -> Forall P (ls_heap s) -> Forall P (ls_heap s').
Proof.
  unfold stage_step. destruct (stages !! k) as [f|] eqn:Hf; [|done].
  destruct (ls_heap s !! p) as [l|] eqn:Hl; [|done]. destruct (f l r m) as [l' e'] eqn:Hfl.
  intros [= <- <-] Hs. apply Forall_update; [done|]. replace l' with (fst (f l r m)) by by rewrite Hfl.
  apply P_stage; [by eapply list_elem_of_lookup_2|by eapply every_lookup].
Qed.

Lemma every_step (y y' : limiter_system L Req) :
  Forall P (ls_heap (sy_limiters y)) -> limiter_step y y' -> Forall P (ls_heap (sy_limiters y')).
Proof.
  intros Hy. destruct 1 as [n r|i n r m s' o Hi Hmiss|i n r q Hi Hq|i k n q r m s' Hi Hst|i k n q r m s' e Hi Hst
    |i n q r s' Hi Ha|i n q r Hi|i n q r m Hi|i n q q' Hi Hq|i n q Hi]; cbn [sy_limiters]; try done.
  - replace s' with (fst (miss n m (sy_limiters y))) by by rewrite Hmiss. by apply P_miss.
  - by eapply every_stage_step.
  - by eapply every_stage_step.
  - unfold acquire in Ha. destruct (_ !! q) as [l|] eqn:Hl; [|by injection Ha as <-].
    destruct (semaphore l); [|by injection Ha as <-]. destruct (try_send _); [|done].
    injection Ha as <-. apply Forall_update; [done|]. apply P_semaphore. by eapply every_lookup.
  - unfold record_admitted. destruct (_ !! q) as [l|] eqn:Hl; [|done].
    apply Forall_update; [done|]. apply P_admitted. by eapply every_lookup.
  - unfold release. destruct (_ !! q) as [l|] eqn:Hl; [|done]. destruct (semaphore l); [|done].
    destruct (try_recv _); [|done]. apply Forall_update; [done|]. apply P_semaphore. by eapply every_lookup.
Qed.

Lemma every_reaches (y y' : limiter_system L Req) :
  Forall P (ls_heap (sy_limiters y)) -> limiter_reaches y y' -> Forall P (ls_heap (sy_limiters y')).
Proof. intros Hy Hr. eapply (rtc_preserves (fun y => Forall P (ls_heap (sy_limiters y)))); [done|apply every_step|done]. Qed.
End every_limiter.

(** ** Limiters created by the first call *)

Section lazily.
Context {L Req Mom : Type} `{!Semaphored L} `{!Limiter L Req Mom} `{!LimiterSpec L Req Mom}.
Implicit Types (s : limiters L) (y : limiter_system L Req).

Definition below (b : nat) (o : option nat) : Prop := forall p, o = Some p -> (p < b)%nat.

(** Every pointer is one that was allocated. *)
Definition pointers_ok y : Prop :=
  (forall n, below (length (ls_heap (sy_limiters y))) (ls_map (sy_limiters y) !! n)) /\
  Forall (fun t => below (length (ls_heap (sy_limiters y))) (pointer_of t)) (sy_callers y).

Lemma below_mono b c o : (b <= c)%nat -> below b o -> below c o.
Proof. intros Hle Hb p Hp. specialize (Hb p Hp). lia. Qed.

Lemma acquire_shape q s s' :
  acquire q s = Some s' -> ls_map s' = ls_map s /\ length (ls_heap s') = length (ls_heap s).
Proof.
  unfold acquire. destruct (ls_heap s !! q); [|by intros [= <-]].
  destruct (semaphore _); [|by intros [= <-]]. destruct (try_send _); [|done].
  intros [= <-]. cbn. by rewrite length_insert.
Qed.

Lemma release_shape q s :
  ls_map (release q s) = ls_map s /\ length (ls_heap (release q s)) = length (ls_heap s).
Proof. unfold release. repeat case_match; cbn; by rewrite ?length_insert. Qed.

Lemma stage_step_shape k q r m s s' e :
  stage_step k q r m s = Some (s', e) -> ls_map s' = ls_map s /\ length (ls_heap s') = length (ls_heap s).
Proof. unfold stage_step. intros H. repeat case_match; try done; simplify_eq/=; by rewrite length_insert. Qed.

Lemma record_admitted_shape q r m s :
  ls_map (record_admitted q r m s) = ls_map s /\
  length (ls_heap (record_admitted q r m s)) = length (ls_heap s).
Proof. unfold record_admitted. case_match; cbn; by rewrite ?length_insert. Qed.

(** What a step does to the callers: one enters, or one is replaced; and to
    the map: nothing, unless a name is missed. *)
Lemma limiter_step_shape y y' :
  limiter_step y y' ->
  (exists n r, y' = mkSystem (sy_limiters y) (looked_up n r (ls_map (sy_limiters y) !! n) :: sy_callers y)) \/
  (exists i n r m s' o, sy_callers y !! i = Some (Missing n r) /\ miss n m (sy_limiters y) = (s', o) /\
     y' = mkSystem s' (after_miss n r o :: splice i (sy_callers y))) \/
  (exists i t ts s', sy_callers y !! i = Some t /\ y' = mkSystem s' (ts ++ splice i (sy_callers y)) /\
     ls_map s' = ls_map (sy_limiters y) /\ length (ls_heap s') = length (ls_heap (sy_limiters y)) /\
     (pointer_of t = None -> is_Some (ls_map (sy_limiters y) !! name_of t)) /\
     Forall (fun t' => name_of t' = name_of t /\
       (pointer_of t' = pointer_of t \/ pointer_of t' = ls_map (sy_limiters y) !! name_of t)) ts).
Proof.
  destruct 1 as [n r|i n r m s' o Hi Hmiss|i n r q Hi Hq|i k n q r m s' Hi Hst|i k n q r m s' e Hi Hst
    |i n q r s' Hi Ha|i n q r Hi|i n q r m Hi|i n q q' Hi Hq|i n q Hi];
    [left; eauto|right; left; naive_solver|right; right..].
  - exists i, (Reread n r), [Waiting 0 n q r], (sy_limiters y). rewrite Forall_singleton. cbn. rewrite Hq.
    split_and!; eauto.
  - destruct (stage_step_shape _ _ _ _ _ _ _ Hst). eexists i, _, [_], s'. rewrite Forall_singleton.
    split_and!; eauto; done.
  - destruct (stage_step_shape _ _ _ _ _ _ _ Hst). eexists i, _, [], s'. rewrite Forall_nil. split_and!; eauto; done.
  - destruct (acquire_shape _ _ _ Ha). eexists i, _, [_], s'. rewrite Forall_singleton. split_and!; eauto; done.
  - eexists i, _, [], _. rewrite Forall_nil. split_and!; eauto; done.
  - destruct (record_admitted_shape q r m (sy_limiters y)). eexists i, _, [_], _. rewrite Forall_singleton.
    split_and!; eauto; done.
  - eexists i, (Running n q), [Releasing n q'], _. rewrite Forall_singleton. cbn. rewrite Hq. split_and!; eauto; done.
  - destruct (release_shape q (sy_limiters y)). eexists i, _, [], _. rewrite Forall_nil. split_and!; eauto; done.
Qed.

Lemma miss_pointers name m s s' o :
  miss name m s = (s', o) -> (forall n, below (length (ls_heap s)) (ls_map s !! n)) ->
  (length (ls_heap s) <= length (ls_heap s'))%nat /\
  (forall n, below (length (ls_heap s')) (ls_map s' !! n)) /\ below (length (ls_heap s')) o.
Proof.
  intros Hmiss Hm. destruct (miss_allocates _ _ _ _ _ Hmiss) as (new & Hnew & Hmap & Ho).
  assert (length (ls_heap s') = length (ls_heap s) + length new)%nat as Hlen by (rewrite Hnew; apply length_app).
  assert (forall n, below (length (ls_heap s')) (ls_map s' !! n)) as Hb.
  { intros n. destruct Hmap as [-> | [Hne ->]]; [eapply below_mono; [|apply Hm]; lia|].
    rewrite lookup_insert. case_decide; [|eapply below_mono; [|apply Hm]; lia].
    intros p [= <-]. destruct new; [done|]. cbn in Hlen. lia. }
  split; [lia|]. split; [done|]. intros p Hp. apply (Hb name). by apply Ho.
Qed.

Lemma pointers_ok_step y y' : pointers_ok y -> limiter_step y y' -> pointers_ok y'.
Proof.
  intros [Hm Hc] Hs.
  destruct (limiter_step_shape _ _ Hs) as [(n & r & ->)|[(i & n & r & m & s' & o & Hi & Hmiss & ->)|
    (i & t & ts & s' & Hi & -> & Hmap & Hlen & _ & Hts)]]; unfold pointers_ok; cbn [sy_limiters sy_callers] in *.
  - split; [done|]. constructor; [|done].
    destruct (ls_map _ !! n) as [p|] eqn:Hp; cbn; [|done]. intros q [= <-]. by apply (Hm n).
  - destruct (miss_pointers _ _ _ _ _ Hmiss Hm) as (Hle & Hm' & Ho). split; [done|].
    rewrite (splice_perm _ _ _ Hi) in Hc. apply Forall_cons in Hc as [_ Hc]. constructor.
    + by destruct o.
    + eapply Forall_impl; [done|]. intros t. by apply below_mono.
  - rewrite Hlen, Hmap. split; [done|]. apply Forall_app.
    rewrite (splice_perm _ _ _ Hi) in Hc. apply Forall_cons in Hc as [Ht Hc].
    split; [|done]. eapply Forall_impl; [done|]. intros t' [_ [-> | ->]]; [done|apply Hm].
Qed.

(** ** A limiter made at the first call is made once *)

Context (name : string) (cap : Z).
Hypothesis cap_nonneg : 0 <= cap.
Hypothesis once : created_once (L:=L) (Req:=Req) (Mom:=Mom) name.
Hypothesis makes : forall m s, ls_map s !! name = None ->
  exists l, miss name m s = (alloc name l s, Some (length (ls_heap s))) /\ semaphore l = Some (make_chan cap).

(** Nobody has a limiter for [name]: the calls for it are about to make one. *)
Definition unmade y : Prop :=
  ls_map (sy_limiters y) !! name = None /\
  Forall (fun t => name_of t = name -> match t with Missing _ _ => True | _ => False end) (sy_callers y).

Definition makes_inv y : Prop := pointers_ok y /\ (unmade y \/ exists p, guarded name p cap y).

Lemma unmade_slots y : unmade y -> slots_used name y = 0.
Proof.
  intros [_ Hc]. unfold slots_used. induction (sy_callers y) as [|t ts IH]; [done|].
  apply Forall_cons in Hc as [Ht Hc]. rewrite count_callers_cons, IH by done.
  destruct (String.eqb_spec (name_of t) name) as [Hn|Hn].
  - specialize (Ht Hn). by destruct t.
  - by rewrite andb_false_r.
Qed.

Lemma unmade_makes y i r m :
  pointers_ok y -> unmade y -> sy_callers y !! i = Some (Missing name r) ->
  exists l, miss name m (sy_limiters y) = (alloc name l (sy_limiters y), Some (length (ls_heap (sy_limiters y)))) /\
  guarded name (length (ls_heap (sy_limiters y))) cap
    (mkSystem (alloc name l (sy_limiters y)) (Waiting 0 name (length (ls_heap (sy_limiters y))) r :: splice i (sy_callers y))).
Proof.
  intros [Hm Hp] [Hn Hc] Hi. destruct (makes m _ Hn) as (l & Hmiss & Hl). exists l. split; [done|].
  pose proof (unmade_slots y (conj Hn Hc)) as Hz. unfold slots_used in Hz.
  rewrite (count_callers_splice _ _ _ _ Hi) in Hz. cbn in Hz.
  rewrite (splice_perm _ _ _ Hi) in Hc, Hp. apply Forall_cons in Hc as [_ Hc]. apply Forall_cons in Hp as [_ Hp].
  assert (slots_used name (mkSystem (alloc name l (sy_limiters y))
    (Waiting 0 name (length (ls_heap (sy_limiters y))) r :: splice i (sy_callers y))) = 0) as Hs.
  { unfold slots_used. cbn [sy_callers]. rewrite count_callers_cons. exact Hz. }
  split; cbn [sy_limiters sy_callers]; rewrite ?Hs; cbn.
  - by rewrite lookup_insert_eq.
  - intros n. rewrite lookup_insert. case_decide; [done|]. intros Hx. specialize (Hm n _ Hx). lia.
  - exists l. cbn. by rewrite list_lookup_middle.
  - done.
  - constructor; [split; cbn; auto|]. apply Forall_forall. intros t Ht. eapply Forall_forall in Hc, Hp; [|done..].
    split; [intros Hx; specialize (Hc Hx); by destruct t|]. intros Hx. specialize (Hp _ Hx). lia.
Qed.

Lemma makes_step y y' : makes_inv y -> limiter_step y y' -> makes_inv y'.
Proof.
  intros [Hp Hy] Hs. split; [by eapply pointers_ok_step|].
  destruct Hy as [Hu|(p & Hg)]; [|right; exists p; by eapply guarded_step].
  pose proof Hu as [Hn Hc].
  destruct (limiter_step_shape _ _ Hs) as [(n & r & ->)|[(i & n & r & m & s' & o & Hi & Hmiss & ->)|
    (i & t & ts & s' & Hi & -> & Hmap & _ & Hnone & Hts)]].
  - left. split; [done|]. constructor; [|done]. intros Hx.
    destruct (ls_map _ !! n) eqn:Hl; cbn in Hx; [|done]. congruence.
  - destruct (decide (n = name)) as [->|Hne].
    + destruct (unmade_makes y i r m Hp Hu Hi) as (l & Hl & Hg). rewrite Hl in Hmiss.
      injection Hmiss as <- <-. right. by eexists.
    + left. destruct (miss_allocates _ _ _ _ _ Hmiss) as (new & _ & Hmap & _).
      rewrite (splice_perm _ _ _ Hi) in Hc. apply Forall_cons in Hc as [_ Hc].
      split; cbn [sy_limiters sy_callers].
      * destruct Hmap as [-> | [_ ->]]; [done|]. by rewrite lookup_insert_ne.
      * constructor; [|done]. by destruct o.
  - left. rewrite (splice_perm _ _ _ Hi) in Hc. apply Forall_cons in Hc as [Ht Hc].
    split; cbn [sy_limiters sy_callers]; [by rewrite Hmap|]. apply Forall_app. split; [|done].
    eapply Forall_impl; [done|]. intros t' [Hx _] Hx'. rewrite Hx in Hx'. specialize (Ht Hx').
    destruct t as [n r| | | | |]; try done. cbn in Hnone, Hx'. destruct (Hnone eq_refl) as [q Hq]. congruence.
Qed.

Lemma makes_reaches y y' : makes_inv y -> limiter_reaches y y' -> makes_inv y'.
Proof. intros Hy Hr. eapply rtc_preserves; [done|apply makes_step|done]. Qed.
End lazily.

(** ** Limiters made from a configuration *)

Section configured.
Context {L C : Type} (mk : C -> L).

Definition build (configs : list (string * C)) : limiters L :=
  foldl (fun s nc => alloc (fst nc) (mk (snd nc)) s) (mkLimiters ∅ []) configs.

Lemma build_snoc configs n c : build (configs ++ [(n, c)]) = alloc n (mk c) (build configs).
Proof. unfold build. by rewrite foldl_app. Qed.

Lemma build_names configs n p : ls_map (build configs) !! n = Some p -> n ∈ configs.*1 /\ (p < length (ls_heap (build configs)))%nat.
Proof.
  induction configs as [|[n' c] configs IH] using rev_ind; [cbn; by rewrite lookup_empty|].
  rewrite build_snoc, fmap_app, elem_of_app. cbn. rewrite length_app, lookup_insert. cbn. case_decide as Hn.
  - subst. intros [= <-]. rewrite elem_of_cons. split; [auto|lia].
  - intros Hp. destruct (IH Hp). split; [auto|lia].
Qed.

Lemma build_inj configs n n' p :
  ls_map (build configs) !! n = Some p -> ls_map (build configs) !! n' = Some p -> n = n'.
Proof.
  induction configs as [|[k c] configs IH] using rev_ind; [cbn; by rewrite lookup_empty|].
  rewrite build_snoc. cbn. rewrite !lookup_insert. repeat case_decide; subst; auto.
  - intros [= <-] Ha. apply build_names in Ha as [_ Hl]. lia.
  - intros Ha [= <-]. apply build_names in Ha as [_ Hl]. lia.
Qed.

Lemma build_configured configs n c :
  NoDup configs.*1 -> (n, c) ∈ configs ->
  exists p, ls_map (build configs) !! n = Some p /\ ls_heap (build configs) !! p = Some (mk c).
Proof.
  induction configs as [|[k d] configs IH] using rev_ind; [by intros _ ?%elem_of_nil|].
  rewrite fmap_app, NoDup_app, elem_of_app, build_snoc. intros (Hnd & Hk & _) [Hin|Hin].
  - destruct (IH Hnd Hin) as (p & Hp & Hl). exists p. cbn. rewrite lookup_insert_ne.
    + split; [done|]. by apply lookup_app_l_Some.
    + intros ->. apply (Hk n); [by apply (list_elem_of_fmap_2 fst) in Hin|]. by left.
  - apply list_elem_of_singleton in Hin as [= -> ->]. eexists. cbn. rewrite lookup_insert_eq.
    split; [done|]. by apply list_lookup_middle.
Qed.

Lemma build_every (P : L -> Prop) configs : (forall c, P (mk c)) -> Forall P (ls_heap (build configs)).
Proof.
  intros Hmk. induction configs as [|[n c] configs IH] using rev_ind; [constructor|].
  rewrite build_snoc. cbn. by apply Forall_app_2; [|apply Forall_singleton].
Qed.

Context {Req Mom : Type} `{!Semaphored L} `{!Limiter L Req Mom} `{!LimiterSpec L Req Mom}.

Lemma build_guarded configs n c cap :
  NoDup configs.*1 -> (n, c) ∈ configs -> semaphore (mk c) = Some (make_chan cap) -> 0 <= cap ->
  exists p, guarded n p cap (mkSystem (L:=L) (Req:=Req) (build configs) []).
Proof.
  intros Hnd Hin Hs Hcap. destruct (build_configured _ _ _ Hnd Hin) as (p & Hp & Hl). exists p.
  split; cbn [sy_limiters sy_callers].
  - done.
  - intros n' Hn'. by eapply build_inj.
  - by exists (mk c).
  - done.
  - constructor.
Qed.

Lemma build_unmade configs n :
  n ∉ configs.*1 -> pointers_ok (mkSystem (L:=L) (Req:=Req) (build configs) []) /\ unmade n (mkSystem (L:=L) (Req:=Req) (build configs) []).
Proof.
  intros Hn. split; split; cbn [sy_limiters sy_callers]; [|constructor| |constructor].
  - intros k p Hp. by apply build_names in Hp as [_ Hp].
  - destruct (_ !! n) eqn:Hp; [|done]. by apply build_names in Hp as [? _].
Qed.
End configured.

(** ** A token bucket

    A concrete limiter for the witnesses: its burst and the tokens left; the
    moment of a call is the number of tokens that have come in before it.  A
    call that waits takes its tokens in advance. *)
Definition bucket : RateOps := {|
  Rate := Z * Z;
  Moment := Z;
  NewRate _ burst := (burst, burst);
  WaitN r m n :=
    let t := Z.min (fst r) (snd r + m) in
    if fst r <? n then ((fst r, t), Some "rate: Wait(n) exceeds limiter's burst") else ((fst r, t - n), None);
  AllowN r m n :=
    let t := Z.min (fst r) (snd r + m) in
    if n <=? t then ((fst r, t - n), true) else ((fst r, t), false);
|}.
