(* ===== verification/CallLimits.v ===== *)
(** The tool limiter: internal/agent/runtime/executor/rate_limiter.go, which
    bounds the rate and the number of concurrent calls of every tool.

    Second half: the provider limiter of internal/model/llm/rate_limiter.go and
    the client around it. *)

From S2P Require Import Prelude Sha256 GoTime Json GoFloat RateLimit.

Record ToolLimitConfig := mkToolLimitConfig {
  tlc_QPS : float64; tlc_MaxConcurrent : Z; tlc_Burst : Z;
}.

Section tool.
Context {ops : RateOps} (overflow : float64 -> Z).

Record toolLimiter := mkToolLimiter {
  tl_rateLimiter : option Rate; tl_semaphore : option chan; tl_config : ToolLimitConfig;
}.

(** The defaults of NewToolRateLimiter when it is given none. *)
Definition tool_defaults : ToolLimitConfig := mkToolLimitConfig (float_of_int 100) 10 100.

Definition fill_burst (c : ToolLimitConfig) : ToolLimitConfig :=
  if tlc_Burst c =? 0 then mkToolLimitConfig (tlc_QPS c) (tlc_MaxConcurrent c) (int_of_float overflow (tlc_QPS c))
  else c.

Definition newToolLimiter (config : ToolLimitConfig) : toolLimiter :=
  let c := fill_burst config in
  mkToolLimiter
    (if float_pos (tlc_QPS c) then Some (NewRate (tlc_QPS c) (tlc_Burst c)) else None)
    (if 0 <? tlc_MaxConcurrent c then Some (make_chan (tlc_MaxConcurrent c)) else None)
    c.

Definition addToolLimiter (name : string) (config : ToolLimitConfig) (s : limiters toolLimiter) :=
  alloc name (newToolLimiter config) s.

(** [configs] in the order in which the map is ranged over. *)
Definition NewToolRateLimiter (configs : list (string * ToolLimitConfig)) : limiters toolLimiter :=
  foldl (fun s nc => addToolLimiter (fst nc) (snd nc) s) (mkLimiters ∅ []) configs.

Definition defaults_or (defaults : option ToolLimitConfig) : ToolLimitConfig := default tool_defaults defaults.

Definition rate_failed (e : string) : string := "rate limit wait failed: " +:+ e.

(** The QPS wait of Wait; [rate.Limiter.Wait] is [WaitN] for one. *)
Definition tool_rate_wait (l : toolLimiter) (_ : unit) (m : Moment) : toolLimiter * option string :=
  match tl_rateLimiter l with
  | Some r =>
      let '(r', e) := WaitN r m 1 in
      (mkToolLimiter (Some r') (tl_semaphore l) (tl_config l), rate_failed <$> e)
  | None => (l, None)
  end.

(** The slow path of Wait: the lookup is repeated under the write lock. *)
Definition tool_miss (defaults : option ToolLimitConfig) (name : string) (_ : Moment) (s : limiters toolLimiter)
  : limiters toolLimiter * option nat :=
  match ls_map s !! name with
  | Some p => (s, Some p)
  | None => (alloc name (newToolLimiter (defaults_or defaults)) s, Some (length (ls_heap s)))
  end.

#[export] Instance tool_semaphore : Semaphored toolLimiter := {
  semaphore := tl_semaphore;
  set_semaphore c l := mkToolLimiter (tl_rateLimiter l) (Some c) (tl_config l);
}.

#[export] Instance tool_limiter (defaults : option ToolLimitConfig) : Limiter toolLimiter unit Moment := {
  stages := [tool_rate_wait];
  admitted _ _ l := l;
  miss := tool_miss defaults;
}.

(** Release looks the limiter up and receives, if it can. *)
Definition tool_Release (name : string) (s : limiters toolLimiter) : limiters toolLimiter :=
  match ls_map s !! name with Some p => release p s | None => s end.

Definition tool_Allow (name : string) (m : Moment) (s : limiters toolLimiter) : limiters toolLimiter * bool :=
  match ls_map s !! name with
  | None => (s, true)
  | Some p =>
      match ls_heap s !! p with
      | None => (s, true)
      | Some l =>
          let '(s1, ok) := match tl_rateLimiter l with
                           | Some r => let '(r', ok) := AllowN r m 1 in
                                       (update p (mkToolLimiter (Some r') (tl_semaphore l) (tl_config l)) s, ok)
                           | None => (s, true)
                           end in
          if negb ok then (s1, false)
          else match tl_semaphore l with
               | None => (s1, true)
               | Some _ => match acquire p s1 with
                           | Some s2 => (s2, true)
                           | None => (s1, false)
                           end
               end
      end
  end.

(** The configured limits and, with a semaphore, the slots in use and free. *)
Definition tool_GetStats (name : string) (s : limiters toolLimiter) : option (float64 * Z * option (Z * Z)) :=
  match ls_map s !! name with
  | None => None
  | Some p =>
      match ls_heap s !! p with
      | None => None
      | Some l => Some (tlc_QPS (tl_config l), tlc_MaxConcurrent (tl_config l),
                        (fun c => (ch_len c, ch_cap c - ch_len c)) <$> tl_semaphore l)
      end
  end.

(** ** Correctness *)

#[export] Instance tool_limiter_spec defaults :
  LimiterSpec toolLimiter unit Moment (Limiter0:=tool_limiter defaults).
Proof.
  split; cbn.
  - done.
  - intros f l r m ->%list_elem_of_singleton. unfold tool_rate_wait.
    destruct (tl_rateLimiter l); [|done]. by destruct (WaitN _ _ _).
  - done.
  - intros name m s s' o. unfold tool_miss. destruct (ls_map s !! name) as [p|] eqn:Hp; intros [= <- <-].
    + exists []. rewrite app_nil_r. split_and!; [done|by left|by intros ? [= <-]].
    + eexists [_]. cbn. split_and!; [done|by right|]. intros p [= <-]. by rewrite lookup_insert_eq.
Qed.

Lemma tool_Wait_reaches defaults name m s s' p ts :
  (forall q, ls_map s !! name = Some q -> exists l, ls_heap s !! q = Some l) ->
  Wait (Limiter0:=tool_limiter defaults) name tt m s = (s', Granted p) ->
  limiter_reaches (Limiter0:=tool_limiter defaults) (mkSystem s ts) (mkSystem s' (Running name p :: ts)).
Proof.
  intros Hmap. apply Wait_reaches; [done|]. intros s1 o Hn. cbn. unfold tool_miss. rewrite Hn. intros [= <- <-].
  eexists _, _. cbn. rewrite lookup_insert_eq. split_and!; [done|by apply list_lookup_middle|auto].
Qed.

(** The limits in force for a tool: its own, or else the defaults. *)
Definition limits_of (configs : list (string * ToolLimitConfig)) (defaults : option ToolLimitConfig) (name : string)
  : ToolLimitConfig :=
  default (defaults_or defaults) ((list_to_map configs : gmap string ToolLimitConfig) !! name).

Lemma newToolLimiter_semaphore c :
  0 < tlc_MaxConcurrent c -> tl_semaphore (newToolLimiter c) = Some (make_chan (tlc_MaxConcurrent c)).
Proof.
  intros Hc. unfold newToolLimiter. cbn [tl_semaphore].
  replace (tlc_MaxConcurrent (fill_burst c)) with (tlc_MaxConcurrent c) by (unfold fill_burst; by case_match).
  by rewrite (proj2 (Z.ltb_lt _ _) Hc).
Qed.

Definition tool_start (configs : list (string * ToolLimitConfig)) : limiter_system toolLimiter unit :=
  mkSystem (NewToolRateLimiter configs) [].

Lemma tool_guarded configs defaults name y :
  NoDup configs.*1 -> 0 < tlc_MaxConcurrent (limits_of configs defaults name) ->
  limiter_reaches (Limiter0:=tool_limiter defaults) (tool_start configs) y ->
  unmade name y \/ exists p, guarded (Limiter0:=tool_limiter defaults) name p (tlc_MaxConcurrent (limits_of configs defaults name)) y.
Proof.
  intros Hnd Hcap Hr. unfold limits_of in *.
  destruct ((list_to_map configs : gmap string ToolLimitConfig) !! name) as [c|] eqn:Hc; cbn [from_option id] in *.
  - right. apply elem_of_list_to_map_2 in Hc.
    destruct (build_guarded (Limiter0:=tool_limiter defaults) newToolLimiter configs name c (tlc_MaxConcurrent c))
      as [p Hp]; [done..|by apply newToolLimiter_semaphore|lia|].
    exists p. by eapply guarded_reaches.
  - apply not_elem_of_list_to_map_2 in Hc.
    pose proof (build_unmade (Req:=unit) newToolLimiter configs name Hc) as [Hp Hu].
    apply (makes_reaches (Limiter0:=tool_limiter defaults) name (tlc_MaxConcurrent (defaults_or defaults))) in Hr; [apply Hr|lia|..].
    + intros m s p Hs. cbn. unfold tool_miss. by rewrite Hs.
    + intros m s Hs. eexists. cbn. unfold tool_miss. rewrite Hs. split; [done|]. by apply newToolLimiter_semaphore.
    + split; [done|by left].
Qed.

(** C35: in every interleaving of calls to Wait and Release, first calls to a
    tool without a limiter included, no tool ever has more calls between the
    two than its MaxConcurrent; the slots of its limiter in use are exactly
    those calls, so that none is lost or freed twice. *)
Theorem tool_concurrency_bounded configs defaults name y :
  NoDup configs.*1 -> 0 < tlc_MaxConcurrent (limits_of configs defaults name) ->
  limiter_reaches (Limiter0:=tool_limiter defaults) (tool_start configs) y ->
  slots_used name y <= tlc_MaxConcurrent (limits_of configs defaults name) /\
  match tool_GetStats name (sy_limiters y) with
  | Some (_, _, slots) =>
      slots = Some (slots_used name y, tlc_MaxConcurrent (limits_of configs defaults name) - slots_used name y)
  | None => slots_used name y = 0
  end.
Proof.
  intros Hnd Hcap Hr. destruct (tool_guarded _ _ _ _ Hnd Hcap Hr) as [Hu|(p & [Hm _ (l & Hl & Hs) Hb _])].
  - rewrite (unmade_slots _ _ Hu). split; [lia|]. destruct Hu as [Hn _]. unfold tool_GetStats. by rewrite Hn.
  - split; [done|]. unfold tool_GetStats. rewrite Hm, Hl. cbn in Hs. by rewrite Hs.
Qed.
End tool.

(** Two tools with one call each; the second one has the default limits. *)
Definition search_config : list (string * ToolLimitConfig) := [("search", mkToolLimitConfig (float_of_int 2) 1 0)].

Definition bucket_limiter : Limiter (toolLimiter (ops:=bucket)) unit Z := tool_limiter (ops:=bucket) (fun _ => 0) None.

Lemma two_calls : exists y,
  limiter_reaches (Limiter0:=bucket_limiter) (tool_start (ops:=bucket) (fun _ => 0) search_config) y /\
  slots_used "search" y = 1 /\ slots_used "fetch" y = 1.
Proof.
  eexists. split_and!.
  - etrans.
    + eapply (tool_Wait_reaches (ops:=bucket) (fun _ => 0) None "search" 0); [|vm_compute; reflexivity].
      intros q Hq. vm_compute in Hq. injection Hq as <-. by eexists.
    + eapply (tool_Wait_reaches (ops:=bucket) (fun _ => 0) None "fetch" 0); [done|vm_compute; reflexivity].
  - reflexivity.
  - reflexivity.
Qed.

Lemma tool_concurrency_bounded_witness : exists y,
  limiter_reaches (Limiter0:=bucket_limiter) (tool_start (ops:=bucket) (fun _ => 0) search_config) y /\
  slots_used "search" y = 1 /\ slots_used "fetch" y = 1 /\ slots_used "fetch" y <= 10.
Proof.
  destruct two_calls as (y & Hr & Hs & Hf). exists y. split_and!; [done..|].
  apply (tool_concurrency_bounded (ops:=bucket) (fun _ => 0) search_config None "fetch" y).
  - apply (NoDup_singleton "search").
  - reflexivity.
  - exact Hr.
Defined.

(** The provider limiter of internal/model/llm/rate_limiter.go and the client
    around it, rate_limited_client.go: requests per minute, a token budget and
    a number of concurrent requests for every provider.

    The slow path of its Wait adds a limiter without looking again whether
    there is one, so the bound on concurrent requests holds for the providers
    of the configuration only. *)

Record LLMLimitConfig := mkLLMLimitConfig {
  llc_TokensPerMinute : Z; llc_RequestsPerMinute : float64; llc_MaxConcurrent : Z;
}.

(** A request as Wait sees it; a call happens at a moment of the rate limiters
    and at a time of the clock. *)
Section llm.
Context {ops : RateOps} (overflow : float64 -> Z).

Record llmLimiter := mkLlmLimiter {
  ll_requestLimiter : option Rate; ll_tokenLimiter : option Rate; ll_semaphore : option chan;
  ll_config : LLMLimitConfig; ll_tokensUsedMinute : Z; ll_minuteStart : Z;
}.

Definition llm_defaults : LLMLimitConfig := mkLLMLimitConfig 90000 (float_of_int 3500) 50.

Definition at_least_1 (n : Z) : Z := if n <? 1 then 1 else n.

Definition request_burst (rpm : float64) : Z := at_least_1 (int_of_float overflow (float_twice (float_quot rpm 60))).

(** Two seconds of the budget, by integer division. *)
Definition token_burst (tpm : Z) : Z := at_least_1 (Z.quot tpm 60 * 2).

Definition newProviderLimiter (now : Z) (c : LLMLimitConfig) : llmLimiter :=
  mkLlmLimiter
    (if float_pos (llc_RequestsPerMinute c)
     then Some (NewRate (float_quot (llc_RequestsPerMinute c) 60) (request_burst (llc_RequestsPerMinute c))) else None)
    (if 0 <? llc_TokensPerMinute c
     then Some (NewRate (float_quot (float_of_int (llc_TokensPerMinute c)) 60) (token_burst (llc_TokensPerMinute c)))
     else None)
    (if 0 <? llc_MaxConcurrent c then Some (make_chan (llc_MaxConcurrent c)) else None)
    c 0 now.

Definition addProviderLimiter (now : Z) (provider : string) (c : LLMLimitConfig) (s : limiters llmLimiter) :=
  alloc provider (newProviderLimiter now c) s.

Definition NewLLMRateLimiter (now : Z) (configs : list (string * LLMLimitConfig)) : limiters llmLimiter :=
  foldl (fun s pc => addProviderLimiter now (fst pc) (snd pc) s) (mkLimiters ∅ []) configs.

Definition llm_moment : Type := Moment * Z.

(** The waits of Wait for a request of [est] estimated tokens. *)
Definition request_wait (l : llmLimiter) (est : Z) (m : llm_moment) : llmLimiter * option string :=
  match ll_requestLimiter l with
  | Some r =>
      let '(r', e) := WaitN r (fst m) 1 in
      (mkLlmLimiter (Some r') (ll_tokenLimiter l) (ll_semaphore l) (ll_config l) (ll_tokensUsedMinute l) (ll_minuteStart l),
       (fun e => "request rate limit wait failed: " +:+ e) <$> e)
  | None => (l, None)
  end.

Definition token_wait (l : llmLimiter) (est : Z) (m : llm_moment) : llmLimiter * option string :=
  match ll_tokenLimiter l with
  | Some r =>
      if 0 <? est then
        let '(r', e) := WaitN r (fst m) est in
        (mkLlmLimiter (ll_requestLimiter l) (Some r') (ll_semaphore l) (ll_config l) (ll_tokensUsedMinute l) (ll_minuteStart l),
         (fun e => "token budget wait failed: " +:+ e) <$> e)
      else (l, None)
  | None => (l, None)
  end.

(** Tokens are added to the running minute or start a new one. *)
Definition count_tokens (n now : Z) (l : llmLimiter) : llmLimiter :=
  let fresh := minute <? now - ll_minuteStart l in
  mkLlmLimiter (ll_requestLimiter l) (ll_tokenLimiter l) (ll_semaphore l) (ll_config l)
    (if fresh then n else ll_tokensUsedMinute l + n) (if fresh then now else ll_minuteStart l).

#[export] Instance llm_semaphore : Semaphored llmLimiter := {
  semaphore := ll_semaphore;
  set_semaphore c l := mkLlmLimiter (ll_requestLimiter l) (ll_tokenLimiter l) (Some c) (ll_config l)
    (ll_tokensUsedMinute l) (ll_minuteStart l);
}.

(** The slow path: add a limiter, then look the name up again. *)
Definition llm_miss (defaults : option LLMLimitConfig) (provider : string) (m : llm_moment) (s : limiters llmLimiter)
  : limiters llmLimiter * option nat :=
  (addProviderLimiter (snd m) provider (default llm_defaults defaults) s, None).

#[export] Instance llm_limiter (defaults : option LLMLimitConfig) : Limiter llmLimiter Z llm_moment := {
  stages := [request_wait; token_wait];
  admitted est m l := count_tokens est (snd m) l;
  miss := llm_miss defaults;
}.

Definition llm_Release (provider : string) (s : limiters llmLimiter) : limiters llmLimiter :=
  match ls_map s !! provider with Some p => release p s | None => s end.

Definition set_rates (rq tk : option Rate) (l : llmLimiter) : llmLimiter :=
  mkLlmLimiter rq tk (ll_semaphore l) (ll_config l) (ll_tokensUsedMinute l) (ll_minuteStart l).

(** The non-blocking test: the limiters lose what an earlier test took even
    when a later one refuses. *)
Definition llm_Allow (provider : string) (est : Z) (m : Moment) (s : limiters llmLimiter) : limiters llmLimiter * bool :=
  match ls_map s !! provider with
  | None => (s, true)
  | Some p =>
      match ls_heap s !! p with
      | None => (s, true)
      | Some l =>
          let '(rq, ok1) := match ll_requestLimiter l with
                            | Some r => let '(r', ok) := AllowN r m 1 in (Some r', ok)
                            | None => (None, true)
                            end in
          let '(tk, ok2) := match ll_tokenLimiter l with
                            | Some r => if ok1 && (0 <? est) then let '(r', ok) := AllowN r m est in (Some r', ok)
                                        else (Some r, true)
                            | None => (None, true)
                            end in
          let s1 := update p (set_rates rq tk l) s in
          if negb (ok1 && ok2) then (s1, false)
          else match ll_semaphore l with
               | None => (s1, true)
               | Some _ => match acquire p s1 with Some s2 => (s2, true) | None => (s1, false) end
               end
      end
  end.

Definition llm_GetStats (provider : string) (s : limiters llmLimiter) : option (LLMLimitConfig * Z * option (Z * Z)) :=
  match ls_map s !! provider with
  | None => None
  | Some p =>
      (fun l => (ll_config l, ll_tokensUsedMinute l, (fun c => (ch_len c, ch_cap c - ch_len c)) <$> ll_semaphore l))
        <$> (ls_heap s !! p)
  end.

Definition RecordTokenUsage (provider : string) (actualTokens now : Z) (s : limiters llmLimiter) : limiters llmLimiter :=
  match ls_map s !! provider with
  | Some p =>
      match ls_heap s !! p with
      | Some l => update p (count_tokens actualTokens now l) s
      | None => s
      end
  | None => s
  end.

(** The tokens counted for the running minute, as GetStats reports them. *)
Definition tokens_used_minute (provider : string) (s : limiters llmLimiter) : option Z :=
  match ls_map s !! provider with
  | Some p => ll_tokensUsedMinute <$> (ls_heap s !! p)
  | None => None
  end.

(** ** The client *)

(** Four bytes are about one token. *)
Definition estimateTokens (text : string) (maxTokens : Z) : Z :=
  let estimated := Z.quot (Z.of_nat (String.length text)) 4 in
  let estimated := if 0 <? maxTokens then estimated + maxTokens else estimated in
  if estimated <? 1 then 1 else estimated.

Definition messagesText (contents : list string) : string := String.concat "" contents.

(** One call of the client, from state to state: [inner] is what the wrapped
    client answers, [later] when it does.  [None] while it waits for a slot. *)
Definition GenerateWithContext (defaults : option LLMLimitConfig) (provider prompt : string) (maxTokens : Z)
    (inner : result string string) (m : llm_moment) (later : Z) (s : limiters llmLimiter)
  : limiters llmLimiter * option (result string string) :=
  match Wait (Limiter0:=llm_limiter defaults) provider (estimateTokens prompt maxTokens) m s with
  | (s1, Blocked) => (s1, None)
  | (s1, Refused e) => (s1, Some (Err e))
  | (s1, Granted _) =>
      match inner with
      | Err e => (llm_Release provider s1, Some (Err e))
      | Ok text => (llm_Release provider (RecordTokenUsage provider maxTokens later s1), Some (Ok text))
      end
  end.

Definition ChatWithContext (defaults : option LLMLimitConfig) (provider : string) (contents : list string) (maxTokens : Z)
    (inner : result string string) (m : llm_moment) (later : Z) (s : limiters llmLimiter)
  : limiters llmLimiter * option (result string string) :=
  GenerateWithContext defaults provider (messagesText contents) maxTokens inner m later s.

(** ** Concurrency *)

#[export] Instance llm_limiter_spec defaults :
  LimiterSpec llmLimiter Z llm_moment (Limiter0:=llm_limiter defaults).
Proof.
  split; cbn.
  - done.
  - intros f l r m. rewrite elem_of_cons, list_elem_of_singleton. intros [-> | ->].
    + unfold request_wait. destruct (ll_requestLimiter l); [|done]. by destruct (WaitN _ _ _).
    + unfold token_wait. destruct (ll_tokenLimiter l); [|done]. case_match; [|done]. by destruct (WaitN _ _ _).
  - done.
  - intros name m s s' o [= <- <-]. eexists [_]. cbn. split_and!; [done|by right|done].
Qed.

Lemma newProviderLimiter_semaphore now c :
  0 < llc_MaxConcurrent c -> ll_semaphore (newProviderLimiter now c) = Some (make_chan (llc_MaxConcurrent c)).
Proof. intros Hc. unfold newProviderLimiter. cbn [ll_semaphore]. by rewrite (proj2 (Z.ltb_lt _ _) Hc). Qed.

Definition llm_start (now : Z) (configs : list (string * LLMLimitConfig)) : limiter_system llmLimiter Z :=
  mkSystem (NewLLMRateLimiter now configs) [].

(** A provider of the configuration never has more requests between Wait
    and Release than its MaxConcurrent, in every interleaving of requests to
    any providers. *)
Theorem configured_provider_bounded defaults now configs provider c y :
  NoDup configs.*1 -> (provider, c) ∈ configs -> 0 < llc_MaxConcurrent c ->
  limiter_reaches (Limiter0:=llm_limiter defaults) (llm_start now configs) y ->
  slots_used provider y <= llc_MaxConcurrent c.
Proof.
  intros Hnd Hin Hc Hr.
  destruct (build_guarded (Limiter0:=llm_limiter defaults) (newProviderLimiter now) configs provider c (llc_MaxConcurrent c))
    as [p Hp]; [done..|by apply newProviderLimiter_semaphore|lia|].
  assert (guarded (Limiter0:=llm_limiter defaults) provider p (llc_MaxConcurrent c) y) as [_ _ _ Hb _]; [|done].
  by eapply guarded_reaches.
Qed.

(** ** The token budget

    What the documentation of [WaitN] says: a limiter keeps its burst, and a
    request for more than the burst is an error at once. *)
Class RateSpec := {
  burst : Rate -> Z;
  burst_New limit n : burst (NewRate limit n) = n;
  burst_WaitN r m n : burst (fst (WaitN r m n)) = burst r;
  WaitN_exceeds r m n : burst r < n -> exists e, snd (WaitN r m n) = Some e;
}.
Context `{!RateSpec}.

Definition budget_ok (l : llmLimiter) : Prop :=
  0 < llc_TokensPerMinute (ll_config l) ->
  exists r, ll_tokenLimiter l = Some r /\ burst r = token_burst (llc_TokensPerMinute (ll_config l)).

(** The limits a request for [provider] meets. *)
Definition limits_in_force (defaults : option LLMLimitConfig) (provider : string) (s : limiters llmLimiter) : LLMLimitConfig :=
  match ls_map s !! provider with
  | Some p => match ls_heap s !! p with Some l => ll_config l | None => llm_defaults end
  | None => default llm_defaults defaults
  end.

Lemma new_budget_ok now c : budget_ok (newProviderLimiter now c).
Proof.
  unfold budget_ok, newProviderLimiter. cbn. intros Hc. rewrite (proj2 (Z.ltb_lt _ _) Hc).
  eexists. split; [done|]. apply burst_New.
Qed.

Lemma stage_budget_ok f l est m : f ∈ [request_wait; token_wait] -> budget_ok l -> budget_ok (fst (f l est m)).
Proof.
  rewrite elem_of_cons, list_elem_of_singleton. intros [-> | ->] Hl.
  - unfold request_wait. destruct (ll_requestLimiter l); [|done]. by destruct (WaitN _ _ _).
  - unfold token_wait. destruct (ll_tokenLimiter l) as [r|] eqn:Hr; [|done]. case_match; [|done].
    pose proof (burst_WaitN r (fst m) est) as Hb. destruct (WaitN _ _ _) as [r' e]. cbn in *.
    intros Hc. destruct (Hl Hc) as (r0 & Hr0 & Hb0). cbn. exists r'. split; [done|]. congruence.
Qed.

Lemma budgets_ok defaults now configs y :
  limiter_reaches (Limiter0:=llm_limiter defaults) (llm_start now configs) y ->
  Forall budget_ok (ls_heap (sy_limiters y)).
Proof.
  intros Hr. eapply (every_reaches (Limiter0:=llm_limiter defaults) budget_ok); [..|exact Hr].
  - intros c l Hl. exact Hl.
  - apply stage_budget_ok.
  - intros r m l Hl. exact Hl.
  - intros name m s Hs. cbn. apply Forall_app_2; [done|]. apply Forall_singleton, new_budget_ok.
  - apply (build_every (newProviderLimiter now)). apply new_budget_ok.
Qed.

Lemma find_limiter_limits defaults provider m s :
  Forall budget_ok (ls_heap s) -> (forall n, below (length (ls_heap s)) (ls_map s !! n)) ->
  exists s1 p l, find_limiter (Limiter0:=llm_limiter defaults) provider m s = (s1, Some p) /\
    ls_heap s1 !! p = Some l /\ budget_ok l /\ ll_config l = limits_in_force defaults provider s.
Proof.
  intros Hs Hb. unfold find_limiter, limits_in_force. destruct (ls_map s !! provider) as [p|] eqn:Hp.
  - destruct (lookup_lt_is_Some_2 (ls_heap s) p (Hb _ _ Hp)) as [l Hl]. exists s, p, l. rewrite Hl.
    split_and!; [done..| |done]. by eapply Forall_lookup_1.
  - cbn. rewrite lookup_insert_eq. eexists _, _, _. split_and!; [done|by apply list_lookup_middle|apply new_budget_ok|done].
Qed.

Lemma token_burst_pos tpm : 0 < token_burst tpm.
Proof. unfold token_burst, at_least_1. case_match; bool_hyps; lia. Qed.

Lemma request_wait_tokens l est m :
  ll_tokenLimiter (fst (request_wait l est m)) = ll_tokenLimiter l.
Proof. unfold request_wait. destruct (ll_requestLimiter l); [|done]. by destruct (WaitN _ _ _). Qed.

Lemma oversized_stages defaults p l est m s :
  ls_heap s !! p = Some l -> budget_ok l -> 0 < llc_TokensPerMinute (ll_config l) ->
  token_burst (llc_TokensPerMinute (ll_config l)) < est ->
  exists s' e, run_stages (Limiter0:=llm_limiter defaults) 
    (seq 0 (length (@stages _ _ _ (llm_limiter defaults)))) p est m s = (s', Some e).
Proof.
  intros Hl Hok Htpm Hest. destruct (Hok Htpm) as (r & Hr & Hb).
  cbn. rewrite Hl. pose proof (request_wait_tokens l est m) as Ht.
  destruct (request_wait l est m) as [l1 [e|]]; [by eexists _, _|]. cbn in Ht.
  cbn. rewrite list_lookup_insert_eq by (by eapply lookup_lt_Some).
  unfold token_wait. rewrite Ht, Hr. pose proof (token_burst_pos (llc_TokensPerMinute (ll_config l))).
  rewrite (proj2 (Z.ltb_lt 0 est)) by lia.
  destruct (WaitN_exceeds r (fst m) est) as [e He]; [lia|].
  destruct (WaitN r (fst m) est) as [r' e']. cbn in *. subst e'. by eexists _, _.
Qed.

(** A request of more estimated tokens than two seconds of the budget is
    refused whenever it is made, in every reachable state: waiting does not
    help, since the token limiter's burst is all it can ever hand out. *)
Theorem oversized_request_always_refused defaults now configs provider est m y :
  limiter_reaches (Limiter0:=llm_limiter defaults) (llm_start now configs) y ->
  let tpm := llc_TokensPerMinute (limits_in_force defaults provider (sy_limiters y)) in
  0 < tpm -> token_burst tpm < est ->
  exists s' e, Wait (Limiter0:=llm_limiter defaults) provider est m (sy_limiters y) = (s', Refused e).
Proof.
  intros Hr tpm Htpm Hest.
  assert (pointers_ok (Req:=Z) y) as [Hb _].
  { eapply rtc_preserves; [exact Hr|apply pointers_ok_step|]. split; [|constructor].
    intros n p Hp. by apply (build_names (newProviderLimiter now)) in Hp as [_ Hp]. }
  destruct (find_limiter_limits defaults provider m _ (budgets_ok _ _ _ _ Hr) Hb) as (s1 & p & l & Hf & Hl & Hok & Hc).
  unfold Wait. rewrite Hf. unfold tpm in *. rewrite <- Hc in Htpm, Hest.
  destruct (oversized_stages defaults p l est m s1 Hl Hok Htpm Hest) as (s' & e & ->). eauto.
Qed.
End llm.

(** ** The slot and the tokens of one request *)

Section client.
Context {ops : RateOps} (overflow : float64 -> Z).

Lemma run_stages_in_use defaults p cap n q est m ks s s' e :
  run_stages (Limiter0:=llm_limiter overflow defaults) ks q est m s = (s', e) ->
  in_use p cap n s -> ls_map s' = ls_map s /\ in_use p cap n s'.
Proof.
  revert s. induction ks as [|k ks IH]; intros s; cbn [run_stages]; [by intros [= <- <-]|].
  destruct (stage_step k q est m s) as [[s1 [e1|]]|] eqn:Hst; [..|by intros [= <- <-]].
  - intros [= <- <-] Hu. by eapply (stage_step_in_use (Limiter0:=llm_limiter overflow defaults)).
  - intros Hr Hu.
    destruct (stage_step_in_use (Limiter0:=llm_limiter overflow defaults) p cap n _ _ _ _ _ _ _ Hst Hu) as [<- Hu1].
    by apply (IH s1).
Qed.

Lemma Wait_in_use defaults provider p cap n est m s s' w :
  ls_map s !! provider = Some p -> in_use p cap n s ->
  Wait (Limiter0:=llm_limiter overflow defaults) provider est m s = (s', w) ->
  ls_map s' !! provider = Some p /\
  match w with Granted _ => in_use p cap (n + 1) s' | _ => in_use p cap n s' end.
Proof.
  intros Hp Hu. unfold Wait, find_limiter. rewrite Hp.
  destruct (run_stages _ _ _ _ s) as [s1 e] eqn:Hr.
  destruct (run_stages_in_use defaults p cap n _ _ _ _ _ _ _ Hr Hu) as [Hm Hu1].
  destruct e as [e|]; [intros [= <- <-]; by rewrite Hm|].
  destruct (acquire p s1) as [s2|] eqn:Ha; [|intros [= <- <-]; by rewrite Hm].
  destruct (in_use_acquire (Limiter0:=llm_limiter overflow defaults) p cap n p s1 s2 Hu1 Ha) as [Hm2 Hu2].
  intros [= <- <-]. rewrite decide_True in Hu2 by done. destruct Hu2 as [Hu2 _].
  destruct (record_admitted_in_use (Limiter0:=llm_limiter overflow defaults) p cap (n + 1) p est m s2 Hu2) as [Hm3 Hu3].
  by rewrite Hm3, Hm2, Hm.
Qed.

Lemma Release_in_use provider p cap n s :
  ls_map s !! provider = Some p -> 0 <= n -> in_use p cap (n + 1) s -> in_use p cap n (llm_Release provider s).
Proof.
  intros Hp Hn Hu. unfold llm_Release. rewrite Hp.
  destruct (in_use_release (Limiter0:=llm_limiter overflow None) p cap (n + 1) p s Hu) as [_ Hr].
  rewrite decide_True in Hr by done. replace n with (n + 1 - 1) at 1 by lia. apply Hr. lia.
Qed.

(** A request that ends, in a refusal, an error of the model or an answer,
    leaves exactly the slots in use that it found. *)
Theorem client_returns_slot defaults provider p cap n prompt maxTokens inner m later s s' res :
  ls_map s !! provider = Some p -> in_use p cap n s -> 0 <= n ->
  GenerateWithContext overflow defaults provider prompt maxTokens inner m later s = (s', Some res) ->
  in_use p cap n s'.
Proof.
  intros Hp Hu Hn. unfold GenerateWithContext.
  destruct (Wait _ _ _ s) as [s1 [q|e|]] eqn:Hw; destruct (Wait_in_use _ _ _ _ _ _ _ _ _ _ Hp Hu Hw) as [Hp1 Hu1];
    [destruct inner|..]; intros [= <- <-]; [|by eapply Release_in_use|done].
  eapply Release_in_use; [|done|].
  - unfold RecordTokenUsage. rewrite Hp1. by case_match.
  - unfold RecordTokenUsage. rewrite Hp1. destruct Hu1 as (l & Hl & Hs). rewrite Hl.
    eapply in_use_update; [done| |by exists l]. done.
Qed.
End client.

(** ** Where the limiter stops short *)

#[export] Instance bucket_spec : RateSpec (ops:=bucket).
Proof.
  refine {| burst := fst : Rate (RateOps:=bucket) -> Z |}; cbn.
  - done.
  - intros r m n. by case_match.
  - intros r m n Hn. rewrite (proj2 (Z.ltb_lt _ _) Hn). by eexists.
Defined.

Definition no_overflow : float64 -> Z := fun _ => 0.
Definition bucket_llm (c : LLMLimitConfig) : Limiter (llmLimiter (ops:=bucket)) Z (Z * Z) :=
  llm_limiter (ops:=bucket) no_overflow (Some c).

(** One request at a time, and no other limit. *)
Definition one_at_a_time : LLMLimitConfig := mkLLMLimitConfig 0 (float_of_int 0) 1.

(** Two first requests for a provider without a limiter: each adds one, and
    each gets the only slot of its own. *)
Lemma first_calls_exceed_limit : exists y,
  limiter_reaches (Limiter0:=bucket_llm one_at_a_time) (llm_start (ops:=bucket) no_overflow 0 []) y /\
  slots_used "openai" y = 2 /\ llc_MaxConcurrent one_at_a_time = 1.
Proof.
  assert (forall k p (s : limiters (llmLimiter (ops:=bucket))) l, ls_heap s !! p = Some l ->
    ll_requestLimiter l = None -> ll_tokenLimiter l = None -> (k = 0%nat \/ k = 1%nat) ->
    stage_step (Limiter0:=bucket_llm one_at_a_time) k p 1 (0, 0) s = Some (update p l s, None)) as Hstage.
  { intros k p s l Hl Hr Ht [-> | ->]; unfold stage_step; cbn; rewrite Hl; unfold request_wait, token_wait;
      by rewrite ?Hr, ?Ht. }
  eexists. split_and!.
  { eapply rtc_l; [apply (step_enter _ "openai" 1)|]. eapply rtc_l; [apply (step_enter _ "openai" 1)|]. cbn.
  eapply rtc_l; [by eapply (step_miss _ 0 _ _ (0, 0))|]. cbn.
  eapply rtc_l; [by eapply (step_reread _ 0)|]. cbn.
  eapply rtc_l; [eapply (step_stage _ 0); [done|by apply Hstage; auto]|]. cbn.
  eapply rtc_l; [eapply (step_stage _ 0); [done|by apply Hstage; auto]|]. cbn.
  eapply rtc_l; [by eapply (step_acquire _ 0)|]. cbn.
  eapply rtc_l; [by eapply (step_miss _ 1 _ _ (0, 0))|]. cbn.
  eapply rtc_l; [by eapply (step_reread _ 0)|]. cbn.
  eapply rtc_l; [eapply (step_stage _ 0); [done|by apply Hstage; auto]|]. cbn.
  eapply rtc_l; [eapply (step_stage _ 0); [done|by apply Hstage; auto]|]. cbn.
  eapply rtc_l; [by eapply (step_acquire _ 0)|]. cbn. constructor. }
  all: reflexivity.
Qed.

(** The shipped limits: 90000 tokens and 3500 requests a minute. *)
Definition shipped : limiters (llmLimiter (ops:=bucket)) := NewLLMRateLimiter no_overflow 0 [("openai", llm_defaults)].

(** A request is counted when it is admitted, with the tokens it may produce,
    and these are counted again when it returns. *)
Lemma tokens_counted_twice :
  let s := fst (GenerateWithContext (ops:=bucket) no_overflow None "openai" "Say hello to everybody." 1000 (Ok "hello") (0, 5) 9 shipped) in
  estimateTokens "Say hello to everybody." 1000 = 1005 /\ tokens_used_minute "openai" s = Some 2005.
Proof. vm_compute. done. Qed.

(** Other witnesses: the LLM node of internal/app/api/agent_dag.go asks for
    4096 tokens. *)
Lemma oversized_request_always_refused_witness : exists s' e,
  Wait (Limiter0:=llm_limiter (ops:=bucket) no_overflow None) "openai" (estimateTokens "" 4096) (0, 0) shipped = (s', Refused e).
Proof.
  apply (oversized_request_always_refused (ops:=bucket) no_overflow None 0 [("openai", llm_defaults)] "openai" _ (0, 0)
    (llm_start no_overflow 0 [("openai", llm_defaults)])).
  - constructor.
  - vm_compute. reflexivity.
  - vm_compute. reflexivity.
Defined.

Lemma configured_provider_bounded_witness :
  slots_used "openai" (llm_start (ops:=bucket) no_overflow 0 [("openai", llm_defaults)]) <= 50.
Proof.
  apply (configured_provider_bounded (ops:=bucket) no_overflow None 0 [("openai", llm_defaults)] "openai" llm_defaults).
  - apply (NoDup_singleton "openai").
  - by apply list_elem_of_singleton.
  - reflexivity.
  - constructor.
Defined.

Definition after_failure : limiters (llmLimiter (ops:=bucket)) :=
  fst (GenerateWithContext (ops:=bucket) no_overflow None "openai" "Hi" 100 (Err "quota") (0, 5) 9 shipped).

Lemma client_returns_slot_witness : in_use 0 50 0 after_failure.
Proof.
  apply (client_returns_slot (ops:=bucket) no_overflow None "openai" 0 50 0 "Hi" 100 (Err "quota") (0, 5) 9 shipped
    after_failure (Err "quota")).
  - vm_compute. reflexivity.
  - eexists. split; vm_compute; reflexivity.
  - done.
  - vm_compute. reflexivity.
Defined.
