(* ===== verification/Gatekeeper.v ===== *)
(** The tool gatekeeper: internal/tool/gatekeeper/gatekeeper.go, its use by the
    MCP server (CallTool of internal/tool/mcp/server.go) and the tool registry
    (internal/tool/registry/registry.go).

    Arguments are decoded JSON.  The order in which a map is ranged over is
    the argument [rng].

    Second half: the theorems. *)

From stdpp Require Import sorting.
From S2P Require Import Prelude Sha256 GoTime Json GoStrings GoFloat.

(** ** Errors (internal/tool/types/errors.go) *)

Inductive tool_error :=
| ValidationError (field message : string)
| MissingParameterError (parameter : string)
| InvalidTypeError (parameter expected actual : string).

Definition tool_error_text (e : tool_error) : string :=
  match e with
  | ValidationError f m => f +:+ ": " +:+ m
  | MissingParameterError p => "missing required parameter: " +:+ p
  | InvalidTypeError p e a => "invalid type for parameter " +:+ p +:+ ": expected " +:+ e +:+ ", got " +:+ a
  end.

(** ** The rate limiter: a window of the last minute *)

Record RateLimiter := mkRateLimiter { rl_requests : list time; rl_maxRequests : Z; rl_windowSize : Z }.

Definition NewRateLimiter (requestsPerMinute : Z) : RateLimiter := mkRateLimiter [] requestsPerMinute minute.

Definition RateLimiter_Allow (now : time) (rl : RateLimiter) : RateLimiter * bool :=
  let cutoff := t_add now (- rl_windowSize rl) in
  let validRequests := filter (fun t => t_after t cutoff = true) (rl_requests rl) in
  if rl_maxRequests rl <=? Z.of_nat (length validRequests)
  then (mkRateLimiter validRequests (rl_maxRequests rl) (rl_windowSize rl), false)
  else (mkRateLimiter (validRequests ++ [now]) (rl_maxRequests rl) (rl_windowSize rl), true).

Definition RateLimiter_Reset (rl : RateLimiter) : RateLimiter :=
  mkRateLimiter [] (rl_maxRequests rl) (rl_windowSize rl).

(** ** Gatekeepers *)

Record Gatekeeper := mkGatekeeper {
  gk_allowedHosts : list string;
  gk_blockedPatterns : list string;
  gk_enableNetworkValidation : bool;
  gk_enableTypeValidation : bool;
  gk_enableCommandValidation : bool;
  gk_enableRateLimiting : bool;
  gk_rateLimiter : option RateLimiter;
  gk_maxRequestSize : Z;
}.

Inductive Option :=
| WithAllowedHosts (hosts : list string)
| WithBlockedPatterns (patterns : list string)
| WithNetworkValidation (enable : bool)
| WithTypeValidation (enable : bool)
| WithCommandValidation (enable : bool)
| WithRateLimiting (requestsPerMinute : Z)
| WithMaxRequestSize (size : Z).

Definition apply_option (g : Gatekeeper) (o : Option) : Gatekeeper :=
  let 'mkGatekeeper h p n t c r l m := g in
  match o with
  | WithAllowedHosts hosts => mkGatekeeper hosts p n t c r l m
  | WithBlockedPatterns patterns => mkGatekeeper h patterns n t c r l m
  | WithNetworkValidation e => mkGatekeeper h p e t c r l m
  | WithTypeValidation e => mkGatekeeper h p n e c r l m
  | WithCommandValidation e => mkGatekeeper h p n t e r l m
  | WithRateLimiting k => mkGatekeeper h p n t c true (Some (NewRateLimiter k)) m
  | WithMaxRequestSize s => mkGatekeeper h p n t c r l s
  end.

Definition New (opts : list Option) : Gatekeeper :=
  foldl apply_option (mkGatekeeper [] [] true true true false None (10 * 1024 * 1024)) opts.

(** ** Checks of strings *)

Definition check := result tool_error unit.
Definition accept : check := Ok tt.
Definition invalid (field message : string) : check := Err (ValidationError field message).

(** The first element that satisfies [f] decides. *)
Definition first_match {A} (f : A -> bool) (reject : A -> check) (l : list A) (k : check) : check :=
  match List.find f l with Some a => reject a | None => k end.

Definition extractHost (urlStr : string) : string :=
  let u := TrimPrefix urlStr "https://" in
  let u := TrimPrefix u "http://" in
  let u := TrimPrefix u "ftp://" in
  default EmptyString (head (split_on "/" u)).

Definition matchesPattern (url pattern : string) : bool :=
  if HasPrefix pattern "*." then
    let suffix := TrimPrefix pattern "*." in
    HasSuffix url suffix || str_contains url ("/" +:+ suffix)
  else str_contains url pattern.

Definition localhostPatterns : list string :=
  ["localhost"; "127.0.0.1"; "::1"; "0.0.0.0"; "127.0.0.2"; "127.0.0.3"; "127.0.0.4"; "127.0.0.5";
   "127.0.0.6"; "127.0.0.7"; "127.0.0.8"; "127.0.0.9"].

Definition metadataEndpoints : list string := ["169.254.169.254"; "metadata.google.internal"; "metadata.google"].

Definition privateIPPatterns : list string :=
  ["10."; "172.16."; "172.17."; "172.18."; "172.19."; "172.20."; "172.21."; "172.22."; "172.23."; "172.24.";
   "172.25."; "172.26."; "172.27."; "172.28."; "172.29."; "172.30."; "172.31."; "192.168."].

Definition validateSSRF (urlStr : string) : check :=
  let host := extractHost urlStr in
  first_match (fun p => HasPrefix host p || String.eqb host p)
    (fun _ => invalid "url" "localhost access not allowed (SSRF protection)") localhostPatterns
  (first_match (fun p => HasPrefix host p)
    (fun _ => invalid "url" "cloud metadata endpoint access not allowed (SSRF protection)") metadataEndpoints
  (first_match (fun p => HasPrefix host p)
    (fun _ => invalid "url" "private IP access not allowed (SSRF protection)") privateIPPatterns
  accept)).

Definition isHostAllowed (allowedHosts : list string) (urlStr : string) : bool :=
  let host := extractHost urlStr in
  existsb (fun allowed => String.eqb host allowed || HasSuffix host ("." +:+ allowed)) allowedHosts.

(** ** Checks of arguments *)

Definition params : Type := gmap string json.

(** [params[k].(string)] with the test for the empty string. *)
Definition string_param (ps : params) (k : string) (f : string -> check) : check :=
  match ps !! k with
  | Some (JStr s) => if String.eqb s EmptyString then invalid k (k +:+ " is required and must be a string") else f s
  | _ => invalid k (k +:+ " is required and must be a string")
  end.

Definition validateHTTPRequest (g : Gatekeeper) (ps : params) : check :=
  if negb (gk_enableNetworkValidation g) then accept
  else string_param ps "url" (fun url =>
    try _ <- validateSSRF url ;;
    if (0 <? Z.of_nat (length (gk_allowedHosts g))) && negb (isHostAllowed (gk_allowedHosts g) url)
    then invalid "url" ("host not allowed: " +:+ extractHost url +:+ " (allowed: ["
           +:+ join " " (gk_allowedHosts g) +:+ "])")
    else first_match (matchesPattern url) (fun p => invalid "url" ("url matches blocked pattern: " +:+ p))
           (gk_blockedPatterns g) accept).

Definition no_traversal (path : string) (k : check) : check :=
  if str_contains path ".." then invalid "path" "path traversal not allowed" else k.

Definition validateFileRead (ps : params) : check := string_param ps "path" (fun path => no_traversal path accept).

Definition writeProtected : list string :=
  ["/etc/"; "/usr/bin/"; "/usr/sbin/"; "C:\Windows\"; "/proc/"; "/sys/"].

Definition validateFileWrite (ps : params) : check :=
  string_param ps "path" (fun path => no_traversal path
    (first_match (HasPrefix path) (fun dp => invalid "path" ("cannot write to system directory: " +:+ dp))
       writeProtected accept)).

Definition deleteProtected : list string :=
  ["/etc/"; "/usr/bin/"; "/usr/sbin/"; "C:\Windows\"; "C:\Program Files\"; "/proc/"; "/sys/"].

Definition validateFileDelete (ps : params) : check :=
  string_param ps "path" (fun path => no_traversal path
    (first_match (HasPrefix path) (fun dp => invalid "path" ("cannot delete system directory: " +:+ dp))
       deleteProtected accept)).

Definition dangerousSQL : list string :=
  ["DROP "; "DELETE "; "TRUNCATE "; "ALTER "; "CREATE "; "GRANT "; "REVOKE "].

Definition validateDBQuery (ps : params) : check :=
  string_param ps "query" (fun query =>
    first_match (str_contains (ToUpper query)) (fun d => invalid "query" ("potentially dangerous SQL command: " +:+ d))
      dangerousSQL accept).

Definition dangerousPatterns : list string :=
  [";"; "&&"; "||"; "|"; "`"; "$("; "${"; of_bytes [10]; of_bytes [13]; of_bytes [0];
   ">>"; ">"; "<"; "rm -rf"; "del /"; "format"].

Definition blacklist : list string :=
  ["curl"; "wget"; "nc"; "netcat"; "socat"; "chmod"; "chown"; "sudo"; "su"; "ssh"; "scp"; "rsync";
   "nmap"; "ping"; "traceroute"].

Definition validateShellExecute (g : Gatekeeper) (ps : params) : check :=
  if negb (gk_enableCommandValidation g) then accept
  else string_param ps "command" (fun command =>
    first_match (fun p => str_contains (ToLower command) (ToLower p))
      (fun p => invalid "command" ("potentially dangerous pattern in command: " +:+ p)) dangerousPatterns
    (first_match (fun cmd => HasPrefix (TrimSpace command) (cmd +:+ " ") || String.eqb (TrimSpace command) cmd)
      (fun cmd => invalid "command" ("command not allowed: " +:+ cmd)) blacklist accept)).

Definition validateBrowserNavigate (ps : params) : check :=
  string_param ps "url" (fun url =>
    if HasPrefix (ToLower url) "javascript:" then invalid "url" "javascript: protocol not allowed"
    else if HasPrefix (ToLower url) "data:" then invalid "url" "data: protocol not allowed"
    else validateSSRF url).

Definition validateToolSpecific (g : Gatekeeper) (toolName : string) (ps : params) : check :=
  if String.eqb toolName "http.request" then validateHTTPRequest g ps
  else if String.eqb toolName "file.read" then validateFileRead ps
  else if String.eqb toolName "file.write" then validateFileWrite ps
  else if String.eqb toolName "file.delete" then validateFileDelete ps
  else if String.eqb toolName "db.query" then validateDBQuery ps
  else if String.eqb toolName "shell.execute" then validateShellExecute g ps
  else if String.eqb toolName "browser.navigate" then validateBrowserNavigate ps
  else accept.

(** The kind of a decoded value; [None] for nil. *)
Definition kind_of (v : json) : option string :=
  match v with
  | JNull => None
  | JStr _ => Some "string"
  | JNum _ => Some "float64"
  | JBool _ => Some "bool"
  | JArr _ => Some "slice"
  | JObj _ => Some "map"
  end.

Definition expected_kind (expectedType : string) : option string :=
  if String.eqb expectedType "string" then Some "string"
  else if String.eqb expectedType "number" || String.eqb expectedType "integer" then Some "float64"
  else if String.eqb expectedType "boolean" then Some "bool"
  else if String.eqb expectedType "array" then Some "slice"
  else if String.eqb expectedType "object" then Some "map"
  else None.

Definition validateType (name : string) (value : json) (expectedType : string) : check :=
  match kind_of value with
  | None => accept
  | Some actual =>
      match expected_kind expectedType with
      | None => accept
      | Some expected =>
          if String.eqb actual expected then accept else Err (InvalidTypeError name expectedType actual)
      end
  end.

(** ** Schemas (internal/tool/interface.go) *)

Record Schema := mkSchema { sc_Properties : gmap string string; sc_Required : list string }.

Fixpoint validateRequired (required : list string) (ps : params) : check :=
  match required with
  | [] => accept
  | field :: rest => match ps !! field with
                     | Some _ => validateRequired rest ps
                     | None => Err (MissingParameterError field)
                     end
  end.

Fixpoint validateTypes (properties : gmap string string) (ps : list (string * json)) : check :=
  match ps with
  | [] => accept
  | (name, value) :: rest =>
      match properties !! name with
      | None => validateTypes properties rest
      | Some t => try _ <- validateType name value t ;; validateTypes properties rest
      end
  end.

(** ** The registry and the MCP server *)

Record ToolResult := mkToolResult { tr_Content : string; tr_Err : string }.

(** A tool with its effect on the world [W]. *)
Record Tool (W : Type) := mkTool {
  tool_Name : string; tool_Schema : Schema; tool_Execute : params -> W -> W * result string ToolResult;
}.
Arguments mkTool {W}. Arguments tool_Name {W}. Arguments tool_Schema {W}. Arguments tool_Execute {W}.

Definition Register {W} (t : Tool W) (r : gmap string (Tool W)) : gmap string (Tool W) := <[tool_Name t := t]> r.
Definition Registry_Get {W} (name : string) (r : gmap string (Tool W)) : option (Tool W) := r !! name.

Record ToolCallResult := mkCallResult { cr_Text : string; cr_IsError : bool }.

Section validate.
Context (rng : params -> list (string * json)).

(** The checks behind the rate limit. *)
Definition validateArguments (g : Gatekeeper) (toolName : string) (ps : params) (schema : Schema) : check :=
  try _ <- validateRequired (sc_Required schema) ps ;;
  try _ <- (if gk_enableTypeValidation g then validateTypes (sc_Properties schema) (rng ps) else accept) ;;
  validateToolSpecific g toolName ps.

Definition with_limiter (rl : RateLimiter) (g : Gatekeeper) : Gatekeeper :=
  let 'mkGatekeeper h p n t c r _ m := g in mkGatekeeper h p n t c r (Some rl) m.

(** Validate; a call on a nil limiter crashes. *)
Definition Validate (now : time) (toolName : string) (ps : params) (schema : Schema) (g : Gatekeeper)
  : outcome (Gatekeeper * check) :=
  if gk_enableRateLimiting g then
    match gk_rateLimiter g with
    | None => Panic "invalid memory address or nil pointer dereference"
    | Some rl =>
        match RateLimiter_Allow now rl with
        | (rl', false) =>
            Ret (with_limiter rl' g, invalid "rate_limit" "rate limit exceeded, please try again later")
        | (rl', true) => Ret (with_limiter rl' g, validateArguments g toolName ps schema)
        end
    end
  else Ret (g, validateArguments g toolName ps schema).

Definition CallTool {W} (registry : gmap string (Tool W)) (now : time) (name : string) (arguments : params)
    (gk : option Gatekeeper) (w : W) : outcome (option Gatekeeper * W * ToolCallResult) :=
  match Registry_Get name registry with
  | None => Ret (gk, w, mkCallResult ("tool not found: " +:+ name) true)
  | Some t =>
      run v <- (match gk with
                | None => Ret (None, accept)
                | Some g => run r <- Validate now name arguments (tool_Schema t) g ;; Ret (Some (fst r), snd r)
                end) ;;
      match snd v with
      | Err e => Ret (fst v, w, mkCallResult ("validation error: " +:+ tool_error_text e) true)
      | Ok _ =>
          let '(w', res) := tool_Execute t arguments w in
          Ret (fst v, w', match res with
                          | Err e => mkCallResult ("execution error: " +:+ e) true
                          | Ok r => if String.eqb (tr_Err r) EmptyString then mkCallResult (tr_Content r) false
                                    else mkCallResult (tr_Err r) true
                          end)
      end
  end.
End validate.

Lemma bind_accept (a k : check) : result_bind a (fun _ => k) = accept <-> a = accept /\ k = accept.
Proof. destruct a as [[]|]; cbn; naive_solver. Qed.

(** Properties of the gatekeeper: what an admitted call satisfies, that a
    refused one has no effect, the exact window of the rate limit, and the
    requests the checks were meant to stop and do not. *)

(** ** The rate limit *)

(** The calls of Allow at the times [ts], with the times that were granted. *)
Definition allow_call (acc : RateLimiter * list time) (now : time) : RateLimiter * list time :=
  let '(rl, ok) := RateLimiter_Allow now (fst acc) in (rl, if ok then snd acc ++ [now] else snd acc).

Definition allow_calls (max : Z) (ts : list time) : RateLimiter * list time :=
  foldl allow_call (NewRateLimiter max, []) ts.

Definition granted (max : Z) (ts : list time) : list time := snd (allow_calls max ts).

(** The granted times in the minute that ends at [t]. *)
Definition in_window (t g : time) : bool := t_after g (t_add t (- minute)) && negb (t_after g t).
Definition granted_in_window (t : time) (gs : list time) : Z := Z.of_nat (length (filter (fun g => in_window t g = true) gs)).

Definition not_before (a b : time) : Prop := unix_nano a <= unix_nano b.

Lemma filter_window_snoc f (gs : list time) g :
  Z.of_nat (length (filter (fun x => f x = true) (gs ++ [g])))
  = Z.of_nat (length (filter (fun x => f x = true) gs)) + (if f g then 1 else 0).
Proof. rewrite filter_app, length_app. unfold filter at 2. cbn. case_decide; destruct (f g); cbn; first [done|lia]. Qed.

(** What the limiter remembers after a call at [now]. *)
Definition remembers (max : Z) (now : time) (acc : RateLimiter * list time) : Prop :=
  fst acc = mkRateLimiter (filter (fun g => t_after g (t_add now (- minute)) = true) (snd acc)) max minute /\
  Forall (fun g => not_before g now) (snd acc).

Lemma Allow_remembers max last now acc :
  remembers max last acc -> not_before last now ->
  remembers max now (allow_call acc now) /\
  snd (allow_call acc now) = if granted_in_window now (snd acc) <? max then snd acc ++ [now] else snd acc.
Proof.
  destruct acc as [rl gs]. intros [Hrl Hgs] Hlast. cbn [fst snd] in *. subst rl.
  unfold allow_call, RateLimiter_Allow, granted_in_window. cbn [fst snd rl_requests rl_windowSize rl_maxRequests].
  rewrite list_filter_filter.
  assert (filter (fun g => t_after g (t_add now (- minute)) = true /\ t_after g (t_add last (- minute)) = true) gs
    = filter (fun g => t_after g (t_add now (- minute)) = true) gs) as ->.
  { apply list_filter_iff. intros g. unfold t_after, not_before in *. cbn. rewrite !Z.ltb_lt. lia. }
  assert (filter (fun g => in_window now g = true) gs = filter (fun g => t_after g (t_add now (- minute)) = true) gs) as ->.
  { clear -Hgs Hlast. induction Hgs as [|g gs Hg Hgs IH]; [done|]. rewrite !filter_cons, IH. unfold in_window.
    assert (t_after g now = false) as -> by (unfold t_after, not_before in *; apply Z.ltb_ge; lia).
    by rewrite andb_true_r. }
  set (valid := filter _ gs).
  assert (Forall (fun g => not_before g now) gs) as Hgs' by (eapply Forall_impl; [done|]; unfold not_before in *; lia).
  destruct (Z.leb_spec max (Z.of_nat (length valid))); cbn [fst snd].
  - rewrite (proj2 (Z.ltb_ge _ _)) by done. done.
  - rewrite (proj2 (Z.ltb_lt _ _)) by done. split; [|done]. split; cbn [fst snd].
    + f_equal. rewrite filter_app. f_equal. rewrite filter_cons, filter_nil, decide_True; [done|].
      unfold t_after, minute, second. cbn. apply Z.ltb_lt. lia.
    + apply Forall_app_2; [done|]. apply Forall_singleton. unfold not_before. lia.
Qed.

(** The rule the limiter stands for: a call is granted when fewer than [max]
    were granted in the minute up to it. *)
Fixpoint sliding_window (max : Z) (gs : list time) (ts : list time) : list time :=
  match ts with
  | [] => gs
  | now :: ts' => sliding_window max (if granted_in_window now gs <? max then gs ++ [now] else gs) ts'
  end.

Lemma window_snoc max now t gs :
  Forall (fun g => not_before g now) gs -> (forall u, granted_in_window u gs <= max) ->
  granted_in_window now gs < max -> granted_in_window t (gs ++ [now]) <= max.
Proof.
  intros Hgs Hmax Hnow. unfold granted_in_window in *. rewrite filter_window_snoc.
  destruct (in_window t now) eqn:Ht; [|specialize (Hmax t); lia].
  assert (length (filter (fun g => in_window t g = true) gs) <= length (filter (fun g => in_window now g = true) gs))%nat; [|lia].
  apply sublist_length. clear -Hgs Ht. induction Hgs as [|g gs Hg Hgs IH]; [done|].
  rewrite !filter_cons. unfold in_window, t_after, not_before in *. cbn in *. bool_hyps.
  repeat case_decide; bool_hyps; try (by constructor); try exact IH.
  exfalso. match goal with H : ~ _ |- _ => apply H end.
  apply andb_true_intro. split; [apply Z.ltb_lt; lia|]. apply negb_true_iff, Z.ltb_ge. lia.
Qed.

Lemma allow_calls_window max ts acc last :
  remembers max last acc -> Sorted not_before (last :: ts) -> (forall t, granted_in_window t (snd acc) <= max) ->
  snd (foldl allow_call acc ts) = sliding_window max (snd acc) ts /\
  forall t, granted_in_window t (snd (foldl allow_call acc ts)) <= max.
Proof.
  revert acc last. induction ts as [|now ts IH]; intros acc last Hr Hs Hb; [done|].
  apply Sorted_inv in Hs as [Hs Hhd]. apply HdRel_inv in Hhd.
  destruct (Allow_remembers max last now acc Hr Hhd) as [Hr' Hsnd]. cbn [foldl sliding_window].
  rewrite <- Hsnd. apply (IH _ now); [done..|]. intros t. rewrite Hsnd.
  destruct (Z.ltb_spec (granted_in_window now (snd acc)) max); [|done].
  apply window_snoc; [|done..]. destruct Hr as [_ Hg]. eapply Forall_impl; [exact Hg|]. unfold not_before in *. lia.
Qed.

(** The limiter grants a request exactly when fewer than its maximum were
    granted in the minute up to it, and so no minute, wherever it starts, has
    more granted requests than the maximum. *)
Theorem rate_window_exact max ts :
  0 <= max -> Sorted not_before ts ->
  granted max ts = sliding_window max [] ts /\ forall t, granted_in_window t (granted max ts) <= max.
Proof.
  intros Hmax Hs. destruct ts as [|now ts]; [done|].
  apply (allow_calls_window max (now :: ts) (NewRateLimiter max, []) now); [done| |done].
  constructor; [done|]. constructor. unfold not_before. lia.
Qed.

Lemma rate_window_exact_witness :
  let at_second n := Time (n * second) 0 in
  let ts := map at_second [0; 10; 20; 61; 62; 71] in
  granted 2 ts = map at_second [0; 10; 61; 71] /\ granted_in_window (at_second 70) (granted 2 ts) <= 2.
Proof.
  intros at_second ts. split; [reflexivity|]. apply rate_window_exact; [lia|].
  subst ts. cbn [map].
  repeat first [apply Sorted_nil | apply Sorted_cons | apply HdRel_nil | apply HdRel_cons; by vm_compute].
Defined.

(** ** What an admitted call satisfies

    The rules are written out here without the tables and helpers of the code. *)

Inductive has_type : json -> string -> Prop :=
| ht_nil t : has_type JNull t
| ht_string s : has_type (JStr s) "string"
| ht_number lit : has_type (JNum lit) "number"
| ht_integer lit : has_type (JNum lit) "integer"
| ht_boolean b : has_type (JBool b) "boolean"
| ht_array l : has_type (JArr l) "array"
| ht_object l : has_type (JObj l) "object"
| ht_unknown v t : (t ∉ ["string"; "number"; "integer"; "boolean"; "array"; "object"]) -> has_type v t.

Definition starts_with (s p : string) : Prop := exists r, s = p +:+ r.
Definition ends_with (s p : string) : Prop := exists r, s = r +:+ p.
Definition holds_text (s p : string) : Prop := exists a b, s = a +:+ (p +:+ b).

(** *** Hosts *)

(** A scheme in front is taken off, in the case it is written in and once. *)
Inductive unscheme (scheme : string) : string -> string -> Prop :=
| with_scheme r : unscheme scheme (scheme +:+ r) r
| without_scheme s : ~ starts_with s scheme -> unscheme scheme s s.

(** The text up to the first slash behind the scheme. *)
Definition host_of (url host : string) : Prop :=
  exists u1 u2 u3, unscheme "https://" url u1 /\ unscheme "http://" u1 u2 /\ unscheme "ftp://" u2 u3 /\
    str_in "/" host = false /\ (u3 = host \/ exists rest, u3 = host +:+ String "/" rest).

(** How the hosts begin that must not be reached. *)
Inductive internal_start : string -> Prop :=
| in_localhost : internal_start "localhost"
| in_loopback n : 1 <= n <= 9 -> internal_start ("127.0.0." +:+ itoa n)
| in_loopback6 : internal_start "::1"
| in_unspecified : internal_start "0.0.0.0"
| in_metadata : internal_start "169.254.169.254"
| in_metadata_google : internal_start "metadata.google"
| in_private10 : internal_start "10."
| in_private172 n : 16 <= n <= 31 -> internal_start ("172." +:+ (itoa n +:+ "."))
| in_private192 : internal_start "192.168.".

Definition public_host (url : string) : Prop :=
  forall host p, host_of url host -> internal_start p -> ~ starts_with host p.

Definition host_listed (hosts : list string) (url : string) : Prop :=
  hosts = [] \/ exists host a, host_of url host /\ a ∈ hosts /\ (host = a \/ ends_with host ("." +:+ a)).

(** A pattern with a star in front names a domain. *)
Definition blocked_by (url pattern : string) : Prop :=
  (exists domain, pattern = "*." +:+ domain /\ (ends_with url domain \/ holds_text url ("/" +:+ domain))) \/
  (~ starts_with pattern "*." /\ holds_text url pattern).

(** *** Paths, queries and commands *)

(** The argument [k] is a text that is not empty. *)
Definition text_param (ps : params) (k s : string) : Prop := ps !! k = Some (JStr s) /\ s <> EmptyString.

Inductive system_dir : string -> Prop :=
| unix_dir d : d ∈ ["etc"; "proc"; "sys"; "usr/bin"; "usr/sbin"] -> system_dir ("/" +:+ (d +:+ "/"))
| windows_dir : system_dir "C:\Windows\".

Inductive kept_dir : string -> Prop :=
| kept_system d : system_dir d -> kept_dir d
| kept_programs : kept_dir "C:\Program Files\".

Definition confined_path (forbidden : string -> Prop) (path : string) : Prop :=
  ~ holds_text path ".." /\ forall d, forbidden d -> ~ starts_with path d.

Definition changing_words : list string := ["ALTER"; "CREATE"; "DELETE"; "DROP"; "GRANT"; "REVOKE"; "TRUNCATE"].

Definition reading_query (query : string) : Prop :=
  forall v, v ∈ changing_words -> ~ holds_text (ToUpper query) (v +:+ " ").

(** The bytes that end a command or redirect it, and the texts that run
    another or destroy. *)
Definition shell_bytes : list ascii :=
  [";"%char; "|"%char; "`"%char; "<"%char; ">"%char; "010"%char; "013"%char; "000"%char].
Definition shell_texts : list string := ["&&"; "$("; "${"; "rm -rf"; "del /"; "format"].
Definition shell_programs : list string :=
  ["chmod"; "chown"; "curl"; "nc"; "netcat"; "nmap"; "ping"; "rsync"; "scp"; "socat"; "ssh"; "su"; "sudo"; "traceroute"; "wget"].

Definition calls_program (command program : string) : Prop :=
  TrimSpace command = program \/ starts_with (TrimSpace command) (program +:+ " ").

Definition plain_command (command : string) : Prop :=
  (forall c, c ∈ shell_bytes -> str_in c (ToLower command) = false) /\
  (forall t, t ∈ shell_texts -> ~ holds_text (ToLower command) t) /\
  forall program, program ∈ shell_programs -> ~ calls_program command program.

Definition guarded_tools : list string :=
  ["http.request"; "file.read"; "file.write"; "file.delete"; "db.query"; "shell.execute"; "browser.navigate"].

Inductive tool_ok (g : Gatekeeper) (ps : params) : string -> Prop :=
| ok_http url :
    text_param ps "url" url -> public_host url -> host_listed (gk_allowedHosts g) url ->
    (forall p, p ∈ gk_blockedPatterns g -> ~ blocked_by url p) -> tool_ok g ps "http.request"
| ok_http_off : gk_enableNetworkValidation g = false -> tool_ok g ps "http.request"
| ok_read path : text_param ps "path" path -> ~ holds_text path ".." -> tool_ok g ps "file.read"
| ok_write path : text_param ps "path" path -> confined_path system_dir path -> tool_ok g ps "file.write"
| ok_delete path : text_param ps "path" path -> confined_path kept_dir path -> tool_ok g ps "file.delete"
| ok_query query : text_param ps "query" query -> reading_query query -> tool_ok g ps "db.query"
| ok_shell command : text_param ps "command" command -> plain_command command -> tool_ok g ps "shell.execute"
| ok_shell_off : gk_enableCommandValidation g = false -> tool_ok g ps "shell.execute"
| ok_navigate url :
    text_param ps "url" url -> ~ starts_with (ToLower url) "javascript:" ->
    ~ starts_with (ToLower url) "data:" -> public_host url -> tool_ok g ps "browser.navigate"
| ok_other name : (name ∉ guarded_tools) -> tool_ok g ps name.

Definition call_conforms (g : Gatekeeper) (toolName : string) (ps : params) (schema : Schema) : Prop :=
  (forall field, field ∈ sc_Required schema -> is_Some (ps !! field)) /\
  (gk_enableTypeValidation g = true ->
   forall name v t, ps !! name = Some v -> sc_Properties schema !! name = Some t -> has_type v t) /\
  tool_ok g ps toolName.

(** *** The helpers of the code say the same *)

Lemma prefix_iff p s : String.prefix p s = true <-> starts_with s p.
Proof.
  split.
  - revert s. induction p as [|c p IH]; intros s; [by exists s|]. destruct s as [|d s]; [done|]. cbn.
    destruct (ascii_dec c d) as [->|]; [|done]. intros H. apply IH in H as [r ->]. by exists r.
  - intros [r ->]. induction p as [|c p IH]; [by destruct r|]. cbn. destruct (ascii_dec c c); [apply IH|done].
Qed.

Lemma HasPrefix_iff s p : HasPrefix s p = true <-> starts_with s p.
Proof. apply prefix_iff. Qed.

Lemma HasPrefix_false s p : HasPrefix s p = false <-> ~ starts_with s p.
Proof. by rewrite <- HasPrefix_iff, not_true_iff_false. Qed.

Lemma HasSuffix_iff s p : HasSuffix s p = true <-> ends_with s p.
Proof.
  unfold HasSuffix. rewrite prefix_iff. split.
  - intros [r Hr]. exists (str_rev r). by rewrite <- (str_rev_rev s), Hr, str_rev_app, str_rev_rev.
  - intros [r ->]. exists (str_rev r). apply str_rev_app.
Qed.

Lemma str_contains_iff s p : str_contains s p = true <-> holds_text s p.
Proof.
  induction s as [|c s IH]; cbn [str_contains]; rewrite orb_true_iff, prefix_iff.
  - split; [intros [[r ->]|]; [by exists "", r|done]|]. intros (a & b & H). destruct a; [left; by exists b|done].
  - rewrite IH. split.
    + intros [[r ->]|(a & b & ->)]; [by exists "", r|by exists (String c a), b].
    + intros (a & b & H). destruct a as [|d a]; [left; by exists b|]. injection H as <- ->. right. by exists a, b.
Qed.

Lemma str_contains_false s p : str_contains s p = false <-> ~ holds_text s p.
Proof. by rewrite <- str_contains_iff, not_true_iff_false. Qed.

Lemma starts_trans s p q : starts_with s p -> starts_with p q -> starts_with s q.
Proof. intros [r ->] [r' ->]. exists (r' +:+ r). apply str_app_assoc. Qed.

Lemma byte_held c s p : str_in c p = true -> holds_text s p -> str_in c s = true.
Proof. intros Hc (a & b & ->). rewrite !str_in_app, Hc. cbn. apply orb_true_r. Qed.

Lemma str_drop_app p r : str_drop (String.length p) (p +:+ r) = r.
Proof. induction p as [|c p IH]; cbn; [by destruct r|apply IH]. Qed.

Lemma unscheme_iff p s r : unscheme p s r <-> TrimPrefix s p = r.
Proof.
  unfold TrimPrefix. split.
  - destruct 1 as [r|s Hs]; [|by rewrite (proj2 (HasPrefix_false s p) Hs)].
    rewrite (proj2 (HasPrefix_iff _ p)) by by exists r. apply str_drop_app.
  - destruct (HasPrefix s p) eqn:Hp; intros <-.
    + apply HasPrefix_iff in Hp as [r ->]. rewrite str_drop_app. constructor.
    + by apply HasPrefix_false in Hp; constructor.
Qed.

Lemma first_field_iff c s f :
  str_in c f = false /\ (s = f \/ exists rest, s = f +:+ String c rest) <-> default EmptyString (head (split_on c s)) = f.
Proof.
  revert f. induction s as [|d s IH]; intros f; cbn [split_on].
  - cbn. split; [intros [_ [<-|[r H]]]; [done|by destruct f]|]. intros <-. split; [done|by left].
  - destruct (Ascii.eqb d c) eqn:Hd; cbn.
    + apply Ascii.eqb_eq in Hd as ->. split; [|intros <-; split; [done|right; by exists s]].
      intros [Hf [<-|[r Hr]]]; [cbn in Hf; by rewrite Ascii.eqb_refl in Hf|].
      destruct f as [|e f]; [done|]. injection Hr as <- _. cbn in Hf. by rewrite Ascii.eqb_refl in Hf.
    + destruct (split_on c s) as [|w ws] eqn:Hs; [by destruct s as [|a ?]; cbn in Hs; [|destruct (Ascii.eqb a c), (split_on c s)]|].
      specialize (IH w). cbn in IH |- *. destruct (proj2 IH eq_refl) as [Hw Hsw]. split.
      * intros [Hf [<-|[r Hr]]].
        -- cbn in Hf. apply orb_false_elim in Hf as [_ Hf]. f_equal.
           destruct Hsw as [Hsw|[r Hsw]]; [done|]. subst s. rewrite str_in_app in Hf. cbn in Hf.
           by rewrite Ascii.eqb_refl, orb_true_r in Hf.
        -- destruct f as [|e f]; [injection Hr as -> _; by rewrite Ascii.eqb_refl in Hd|]. injection Hr as <- Hr.
           cbn in Hf. apply orb_false_elim in Hf as [_ Hf]. f_equal.
           destruct Hsw as [Hsw|[r' Hsw]]; [subst w; rewrite Hr, str_in_app in Hw; cbn in Hw; by rewrite Ascii.eqb_refl, orb_true_r in Hw|].
           rewrite Hr in Hsw. by destruct (first_sep_inj c _ _ _ _ Hf Hw Hsw).
      * intros <-. cbn. rewrite Hd, Hw. split; [done|]. destruct Hsw as [->|[r ->]]; [by left|right; by exists r].
Qed.

Lemma host_iff url host : host_of url host <-> extractHost url = host.
Proof.
  unfold host_of, extractHost. split.
  - intros (u1 & u2 & u3 & H1 & H2 & H3 & H). apply unscheme_iff in H1, H2, H3. subst u1 u2 u3. by apply first_field_iff.
  - intros H. exists (TrimPrefix url "https://"), (TrimPrefix (TrimPrefix url "https://") "http://"),
      (TrimPrefix (TrimPrefix (TrimPrefix url "https://") "http://") "ftp://").
    split_and!; try by apply unscheme_iff. 1-2: apply first_field_iff in H; tauto.
Qed.

Lemma matches_iff url p : matchesPattern url p = true <-> blocked_by url p.
Proof.
  unfold matchesPattern, blocked_by. destruct (HasPrefix p "*.") eqn:Hp.
  - apply HasPrefix_iff in Hp as [d ->]. unfold TrimPrefix. rewrite (proj2 (HasPrefix_iff _ "*.")) by by exists d.
    rewrite str_drop_app, orb_true_iff, HasSuffix_iff, str_contains_iff. split; [left; by exists d|].
    intros [(d' & Hd & H)|[H _]]; [|exfalso; apply H; by exists d]. by apply str_app_inj_l in Hd as <-.
  - apply HasPrefix_false in Hp. rewrite str_contains_iff. split; [by right|].
    intros [(d & -> & _)|[_ H]]; [exfalso; apply Hp; by exists d|done].
Qed.

Lemma matches_false url p : matchesPattern url p = false <-> ~ blocked_by url p.
Proof. by rewrite <- matches_iff, not_true_iff_false. Qed.

(** *** The tables of the code are the rules *)

Ltac some_internal :=
  first [exact in_localhost|exact in_loopback6|exact in_unspecified|exact in_metadata|exact in_private10|exact in_private192
        |match goal with |- internal_start ?p =>
           let rec with_n n := first [exact (in_loopback n ltac:(lia))|exact (in_private172 n ltac:(lia))
             |lazymatch n with 31 => fail | _ => let n' := eval vm_compute in (n + 1) in with_n n' end] in with_n 1 end].

Lemma internal_table p : p ∈ localhostPatterns ++ metadataEndpoints ++ privateIPPatterns -> exists q, internal_start q /\ starts_with p q.
Proof.
  assert (Hall : Forall (fun p => exists q, internal_start q /\ starts_with p q) (localhostPatterns ++ metadataEndpoints ++ privateIPPatterns)).
  { repeat (apply Forall_cons; split;
      [first [match goal with |- context [starts_with ?p _] => exists p end; split; [some_internal|by exists ""]|exists "metadata.google"; split; [exact in_metadata_google|by eexists]]|]).
    by apply Forall_nil. }
  rewrite Forall_forall in Hall. apply Hall.
Qed.

Lemma internal_listed q : internal_start q -> q ∈ localhostPatterns ++ metadataEndpoints ++ privateIPPatterns.
Proof.
  intros H. assert (forall l p, bool_decide (p ∈ l) = true -> p ∈ (l : list string)) as Hd by (intros l p Hb; by apply bool_decide_eq_true in Hb).
  destruct H as [|n Hn| | | | | |n Hn|]; lazymatch goal with Hn : _ <= n <= _ |- _ => idtac | _ => apply Hd; vm_compute; reflexivity end.
  - assert (n = 1 \/ n = 2 \/ n = 3 \/ n = 4 \/ n = 5 \/ n = 6 \/ n = 7 \/ n = 8 \/ n = 9) as Hc by lia. clear Hn.
    repeat destruct Hc as [->|Hc]; try subst n; apply Hd; vm_compute; reflexivity.
  - assert (n = 16 \/ n = 17 \/ n = 18 \/ n = 19 \/ n = 20 \/ n = 21 \/ n = 22 \/ n = 23 \/ n = 24 \/ n = 25 \/ n = 26 \/ n = 27
      \/ n = 28 \/ n = 29 \/ n = 30 \/ n = 31) as Hc by lia. clear Hn.
    repeat destruct Hc as [->|Hc]; try subst n; apply Hd; vm_compute; reflexivity.
Qed.

Lemma public_iff url :
  (forall p, p ∈ localhostPatterns ++ metadataEndpoints ++ privateIPPatterns -> HasPrefix (extractHost url) p = false) <-> public_host url.
Proof.
  unfold public_host. split.
  - intros H host q Hh Hq. apply host_iff in Hh as <-. apply HasPrefix_false, H. by apply internal_listed.
  - intros H p Hp. apply HasPrefix_false. intros Hs. destruct (internal_table p Hp) as (q & Hq & Hpq).
    apply (H (extractHost url) q); [by apply host_iff|done|by eapply starts_trans].
Qed.

Lemma listed_all {A} (P : A -> Prop) (l : list A) : Forall P l -> forall x, x ∈ l -> P x.
Proof. intros H. by apply Forall_forall. Qed.

Lemma write_table d : d ∈ writeProtected <-> system_dir d.
Proof.
  split.
  - apply (listed_all system_dir). repeat (apply Forall_cons; split;
      [first [exact windows_dir|exact (unix_dir "etc" ltac:(set_solver))|exact (unix_dir "proc" ltac:(set_solver))
        |exact (unix_dir "sys" ltac:(set_solver))|exact (unix_dir "usr/bin" ltac:(set_solver))|exact (unix_dir "usr/sbin" ltac:(set_solver))]|]).
    by apply Forall_nil.
  - destruct 1 as [d Hd|]; [|apply (bool_decide_unpack _); by vm_compute]. revert d Hd.
    apply (listed_all (fun d => "/" +:+ (d +:+ "/") ∈ writeProtected)), (bool_decide_unpack _). by vm_compute.
Qed.

Lemma delete_table d : d ∈ deleteProtected <-> kept_dir d.
Proof.
  assert (d ∈ deleteProtected <-> d ∈ writeProtected \/ d = "C:\Program Files\") as ->.
  { unfold deleteProtected, writeProtected. set_solver. }
  rewrite write_table. split; [by intros [H| ->]; constructor|]. destruct 1; auto.
Qed.

Lemma sql_table d : d ∈ dangerousSQL <-> exists v, v ∈ changing_words /\ d = v +:+ " ".
Proof.
  split.
  - apply (listed_all (fun d => exists v, v ∈ changing_words /\ d = v +:+ " ")). unfold dangerousSQL, changing_words.
    repeat (apply Forall_cons; split; [eexists; split; [|match goal with |- ?t = _ =>
      let w := eval vm_compute in (TrimSpace t) in instantiate (1 := w) end; reflexivity]; set_solver|]). by apply Forall_nil.
  - intros (v & Hv & ->). revert v Hv. apply (listed_all (fun v => v +:+ " " ∈ dangerousSQL)), (bool_decide_unpack _). by vm_compute.
Qed.

Lemma shell_table l :
  (forall p, p ∈ dangerousPatterns -> str_contains l p = false) <->
  (forall c, c ∈ shell_bytes -> str_in c l = false) /\ forall t, t ∈ shell_texts -> ~ holds_text l t.
Proof.
  assert (Hone : forall c, str_in c l = true <-> holds_text l (String c EmptyString)).
  { intros c. split; [|by apply byte_held; cbn; rewrite Ascii.eqb_refl]. induction l as [|d l' IH]; [done|]. cbn.
    intros [H|H]%orb_true_iff; [apply Ascii.eqb_eq in H as ->; by exists "", l'|]. destruct (IH H) as (a & b & ->). by exists (String d a), b. }
  split.
  - intros H. split.
    + intros c Hc. apply not_true_iff_false. rewrite Hone. apply str_contains_false, H. revert c Hc.
      apply (listed_all (fun c => String c EmptyString ∈ dangerousPatterns)), (bool_decide_unpack _). by vm_compute.
    + intros t Ht. apply str_contains_false, H. revert t Ht.
      apply (listed_all (fun t => t ∈ dangerousPatterns)), (bool_decide_unpack _). by vm_compute.
  - intros [Hb Ht] p Hp. apply str_contains_false. intros Hh.
    assert (p ∈ shell_texts \/ Exists (fun c => str_in c p = true) shell_bytes) as [Hin|Hex]; [|by apply (Ht p)|].
    { revert p Hp Hh. apply (listed_all (fun p => holds_text l p -> p ∈ shell_texts \/ Exists (fun c => str_in c p = true) shell_bytes)).
      apply (Forall_impl (fun p => p ∈ shell_texts \/ Exists (fun c => str_in c p = true) shell_bytes)); [|by auto].
      apply (bool_decide_unpack _). by vm_compute. }
    apply Exists_exists in Hex as (c & Hc & Hcp). pose proof (byte_held c l p Hcp Hh) as Hx. by rewrite (Hb c Hc) in Hx.
Qed.

Lemma program_table p : p ∈ blacklist <-> p ∈ shell_programs.
Proof. unfold blacklist, shell_programs. set_solver. Qed.

Lemma first_match_ok {A} (f : A -> bool) reject (l : list A) k :
  (forall a, reject a <> accept) ->
  first_match f reject l k = accept <-> (forall a, a ∈ l -> f a = false) /\ k = accept.
Proof.
  intros Hr. unfold first_match. destruct (List.find f l) as [a|] eqn:Hf.
  - apply find_some in Hf as [Hin Ha]. split; [intros H; by destruct (Hr a)|].
    intros [Hall _]. rewrite (Hall a) in Ha by by apply list_elem_of_In. done.
  - split; [|by intros [_ ->]]. intros ->. split; [|done]. intros a Ha.
    by apply (find_none f l Hf), list_elem_of_In.
Qed.

Lemma string_param_ok ps k f : string_param ps k f = accept <-> exists s, text_param ps k s /\ f s = accept.
Proof.
  unfold string_param, text_param. destruct (ps !! k) as [[| | |s| |]|]; try (split; [done|naive_solver]).
  destruct (String.eqb_spec s EmptyString); split; naive_solver.
Qed.

Lemma no_traversal_ok path k : no_traversal path k = accept <-> str_contains path ".." = false /\ k = accept.
Proof. unfold no_traversal. destruct (str_contains path ".."); naive_solver. Qed.

Lemma validateSSRF_ok url : validateSSRF url = accept <-> public_host url.
Proof.
  rewrite <- public_iff. unfold validateSSRF. rewrite !first_match_ok by done. setoid_rewrite elem_of_app. setoid_rewrite elem_of_app.
  split.
  - intros (Hl & Hm & Hp & _) p [Hin|[Hin|Hin]]; auto. specialize (Hl p Hin). by apply orb_false_elim in Hl as [-> _].
  - intros H. split_and!; auto. intros p Hp. apply orb_false_intro; [auto|].
    apply String.eqb_neq. intros Heq. specialize (H p (or_introl Hp)). apply HasPrefix_false in H. apply H.
    rewrite Heq. exists EmptyString. symmetry. apply str_app_nil_r.
Qed.

Lemma isHostAllowed_ok hosts url :
  (0 <? Z.of_nat (length hosts)) && negb (isHostAllowed hosts url) = false <-> host_listed hosts url.
Proof.
  unfold host_listed, isHostAllowed. rewrite andb_false_iff, Z.ltb_ge, negb_false_iff, existsb_exists.
  setoid_rewrite orb_true_iff. setoid_rewrite String.eqb_eq. setoid_rewrite HasSuffix_iff. setoid_rewrite <- list_elem_of_In.
  split; (intros [H|H]; [left|right]).
  - destruct hosts; cbn in H; [done|lia].
  - destruct H as (a & Ha & H). exists (extractHost url), a. split; [by apply host_iff|done].
  - by subst.
  - destruct H as (host & a & Hh & Ha & H). apply host_iff in Hh as <-. by exists a.
Qed.

Lemma has_type_kind v t :
  has_type v t <-> kind_of v = None \/ expected_kind t = None \/ kind_of v = expected_kind t.
Proof.
  split.
  - destruct 1; cbn; auto. right; left. unfold expected_kind.
    repeat match goal with |- context [String.eqb ?a ?b] => destruct (String.eqb_spec a b); [set_solver|] end. done.
  - intros Hk. destruct (kind_of v) as [k|] eqn:Hv; [|destruct v; try done; constructor].
    destruct Hk as [|Hk]; [done|]. unfold expected_kind in Hk.
    repeat match type of Hk with context [String.eqb ?a ?b] => destruct (String.eqb_spec a b); [subst|] end; cbn in Hk;
      try (destruct Hk as [Hk|Hk]; simplify_eq; destruct v; simplify_eq/=; solve [constructor]).
    apply ht_unknown. set_solver.
Qed.

Lemma validateType_ok name v t : validateType name v t = accept <-> has_type v t.
Proof.
  rewrite has_type_kind. unfold validateType. destruct (kind_of v) as [k|]; [|naive_solver].
  destruct (expected_kind t) as [e|]; [|naive_solver]. destruct (String.eqb_spec k e); naive_solver.
Qed.

Lemma validateRequired_ok req ps : validateRequired req ps = accept <-> forall f, f ∈ req -> is_Some (ps !! f).
Proof.
  induction req as [|f req IH]; cbn; [split; [set_solver|done]|].
  destruct (ps !! f) as [v|] eqn:Hf.
  - rewrite IH. setoid_rewrite elem_of_cons. split; [intros H g [->|Hg]; eauto|eauto].
  - split; [done|]. intros H. destruct (H f) as [v Hv]; [left|congruence].
Qed.

Lemma validateTypes_ok props l :
  validateTypes props l = accept <-> forall name v t, (name, v) ∈ l -> props !! name = Some t -> has_type v t.
Proof.
  induction l as [|[name v] l IH]; cbn; [split; [set_solver|done]|].
  destruct (props !! name) as [t|] eqn:Ht; rewrite ?bind_accept, IH, ?validateType_ok; setoid_rewrite elem_of_cons.
  - split; [|naive_solver]. intros [Hv Hl] n' v' t' [[= -> ->]|Hin] Hp; [congruence|eauto].
  - split; [|naive_solver]. intros Hl n' v' t' [[= -> ->]|Hin] Hp; [congruence|eauto].
Qed.

Lemma dangerous_lower p : p ∈ dangerousPatterns -> ToLower p = p.
Proof.
  intros Hp. apply (proj1 (Forall_forall (fun p => ToLower p = p) dangerousPatterns)); [|done].
  repeat constructor.
Qed.

Lemma validateShell_ok g ps :
  validateShellExecute g ps = accept <->
  gk_enableCommandValidation g = false \/ exists c, text_param ps "command" c /\ plain_command c.
Proof.
  unfold validateShellExecute. destruct (gk_enableCommandValidation g); [|naive_solver]. cbn [negb].
  rewrite string_param_ok. setoid_rewrite first_match_ok; [|done]. setoid_rewrite first_match_ok; [|done].
  assert (forall c, plain_command c <->
    (forall p, p ∈ dangerousPatterns -> str_contains (ToLower c) (ToLower p) = false) /\
    (forall w, w ∈ blacklist -> HasPrefix (TrimSpace c) (w +:+ " ") || String.eqb (TrimSpace c) w = false)) as Hplain.
  { intros c. unfold plain_command. rewrite <- Logic.and_assoc, <- shell_table. setoid_rewrite program_table.
    assert (forall w, HasPrefix (TrimSpace c) (w +:+ " ") || String.eqb (TrimSpace c) w = false <-> ~ calls_program c w) as Hw.
    { intros w. rewrite orb_false_iff, HasPrefix_false, String.eqb_neq. unfold calls_program. tauto. }
    setoid_rewrite Hw. split; (intros [H1 H2]; split; [|exact H2]); intros p Hp; specialize (H1 p Hp); by rewrite (dangerous_lower p Hp) in *. }
  setoid_rewrite Hplain. split; [intros (c & Hc & H1 & H2 & _); right; by exists c|intros [H|(c & Hc & H1 & H2)]; [done|by exists c]].
Qed.

Lemma validateHTTP_ok g ps :
  validateHTTPRequest g ps = accept <->
  gk_enableNetworkValidation g = false \/
  exists url, text_param ps "url" url /\ public_host url /\ host_listed (gk_allowedHosts g) url /\
    (forall p, p ∈ gk_blockedPatterns g -> ~ blocked_by url p).
Proof.
  unfold validateHTTPRequest. destruct (gk_enableNetworkValidation g); [|naive_solver]. cbn [negb].
  rewrite string_param_ok. setoid_rewrite bind_accept. setoid_rewrite validateSSRF_ok. setoid_rewrite <- isHostAllowed_ok.
  setoid_rewrite <- matches_false.
  split; [intros (url & Hu & Hs & H)|intros [|(url & Hu & Hs & Hh & Hb)]; [done|]].
  - right. exists url. case_match; [done|]. apply first_match_ok in H as [H _]; [|done]. done.
  - exists url. rewrite Hh. rewrite first_match_ok by done. done.
Qed.

(** A path that no table forbids. *)
Lemma confined_ok (table : list string) (forbidden : string -> Prop) path :
  (forall d, d ∈ table <-> forbidden d) ->
  str_contains path ".." = false /\ (forall d, d ∈ table -> HasPrefix path d = false) <-> confined_path forbidden path.
Proof. intros Ht. unfold confined_path. rewrite str_contains_false. setoid_rewrite HasPrefix_false. by setoid_rewrite Ht. Qed.

Lemma reading_ok query : (forall d, d ∈ dangerousSQL -> str_contains (ToUpper query) d = false) <-> reading_query query.
Proof.
  unfold reading_query. setoid_rewrite str_contains_false. split.
  - intros H v Hv. apply H, sql_table. by exists v.
  - intros H d Hd. apply sql_table in Hd as (v & Hv & ->). by apply H.
Qed.

Ltac guarded_tool :=
  match goal with H : _ ∉ guarded_tools |- _ => destruct H; unfold guarded_tools; repeat constructor end.

Lemma validateToolSpecific_ok g name ps : validateToolSpecific g name ps = accept <-> tool_ok g ps name.
Proof.
  unfold validateToolSpecific.
  repeat match goal with
  | |- context [if String.eqb name ?t then _ else _] => destruct (String.eqb_spec name t); [subst name|]
  end.
  - rewrite validateHTTP_ok. split; [intros [H|(url & ? & ? & ? & ?)]; [by apply ok_http_off|by eapply ok_http]|].
    inversion 1; subst; [right; eauto|by left|guarded_tool].
  - unfold validateFileRead. rewrite string_param_ok. setoid_rewrite no_traversal_ok. setoid_rewrite str_contains_false.
    split; [intros (p & ? & ? & _); by eapply ok_read|].
    inversion 1; subst; [|guarded_tool]. by exists path.
  - unfold validateFileWrite. rewrite string_param_ok. setoid_rewrite no_traversal_ok. setoid_rewrite first_match_ok; [|done].
    split; [intros (p & ? & ? & ? & _); eapply ok_write; [done|by apply (confined_ok _ _ _ write_table)]|].
    inversion 1 as [| | |path Hp Hc| | | | | |]; subst; [|guarded_tool]. apply (confined_ok _ _ _ write_table) in Hc as [? ?]. eauto 10.
  - unfold validateFileDelete. rewrite string_param_ok. setoid_rewrite no_traversal_ok. setoid_rewrite first_match_ok; [|done].
    split; [intros (p & ? & ? & ? & _); eapply ok_delete; [done|by apply (confined_ok _ _ _ delete_table)]|].
    inversion 1 as [| | | |path Hp Hc| | | | |]; subst; [|guarded_tool]. apply (confined_ok _ _ _ delete_table) in Hc as [? ?]. eauto 10.
  - unfold validateDBQuery. rewrite string_param_ok. setoid_rewrite first_match_ok; [|done]. setoid_rewrite reading_ok.
    split; [intros (p & ? & ? & _); by eapply ok_query|]. inversion 1; subst; [|guarded_tool]. eauto 10.
  - rewrite validateShell_ok. split; [intros [H|(c & ? & ?)]; [by apply ok_shell_off|by eapply ok_shell]|].
    inversion 1; subst; [right; eauto|by left|guarded_tool].
  - unfold validateBrowserNavigate. rewrite string_param_ok. split.
    + intros (url & Hu & H). destruct (HasPrefix (ToLower url) "javascript:") eqn:Hj; [done|].
      destruct (HasPrefix (ToLower url) "data:") eqn:Hd; [done|]. apply HasPrefix_false in Hj, Hd.
      eapply ok_navigate; eauto. by apply validateSSRF_ok.
    + inversion 1 as [| | | | | | | |url Hu Hj Hd Hp|]; subst; [|guarded_tool]. exists url.
      rewrite (proj2 (HasPrefix_false _ _) Hj), (proj2 (HasPrefix_false _ _) Hd). by rewrite validateSSRF_ok.
  - split; [|done]. intros _. apply ok_other. unfold guarded_tools. set_solver.
Qed.

Section admission.
Context (rng : params -> list (string * json)) (rng_spec : forall ps, rng ps ≡ₚ map_to_list ps).

Lemma validateArguments_ok g name ps schema :
  validateArguments rng g name ps schema = accept <-> call_conforms g name ps schema.
Proof.
  unfold validateArguments, call_conforms. rewrite !bind_accept, validateRequired_ok, validateToolSpecific_ok.
  assert ((if gk_enableTypeValidation g then validateTypes (sc_Properties schema) (rng ps) else accept) = accept <->
    (gk_enableTypeValidation g = true -> forall n v t, ps !! n = Some v -> sc_Properties schema !! n = Some t -> has_type v t))
    as ->; [|tauto].
  destruct (gk_enableTypeValidation g); [|naive_solver]. rewrite validateTypes_ok.
  setoid_rewrite rng_spec. setoid_rewrite elem_of_map_to_list. naive_solver.
Qed.

(** C36: the checks behind the rate limit accept a call exactly when it
    conforms.  Every required argument is present, be it null; with type
    validation on, every declared argument that is present and not null has its
    declared type, as far as that is one of the six names of types; and the
    rule of the tool holds, which for requests and for commands is none when
    their validation is off.  The rules are written out without the tables and
    helpers of the code: no host that begins like a local, metadata or private
    one behind the scheme, the allowed hosts and no blocked pattern; no path
    with two dots in a row or in a protected directory; no query with a word
    that changes the database; no command with a byte or text of the shell or
    of a forbidden program.  The order in which maps are ranged over does not
    matter. *)
Theorem admitted_call_conforms g name ps schema :
  validateArguments rng g name ps schema = Ok tt <-> call_conforms g name ps schema.
Proof. apply validateArguments_ok. Qed.

(** The server runs a tool only for a call that conforms; any other call
    is answered with an error and leaves the world as it was. *)
Theorem nonconforming_call_has_no_effect {W} (registry : gmap string (Tool W)) now name ps g w r gk' w' t :
  Registry_Get name registry = Some t ->
  CallTool rng registry now name ps (Some g) w = Ret (gk', w', r) ->
  w' = w /\ cr_IsError r = true \/ call_conforms g name ps (tool_Schema t) /\ w' = fst (tool_Execute t ps w).
Proof.
  intros Ht. unfold CallTool. rewrite Ht. unfold Validate.
  assert (forall g' c, match c with
    | Ok _ => let '(w1, res) := tool_Execute t ps w in
        Ret (Some g', w1, match res with
                     | Ok r => if String.eqb (tr_Err r) EmptyString then mkCallResult (tr_Content r) false else mkCallResult (tr_Err r) true
                     | Err e => mkCallResult ("execution error: " +:+ e) true
                     end)
    | Err e => Ret (Some g', w, mkCallResult ("validation error: " +:+ tool_error_text e) true)
    end = Ret (gk', w', r) -> (c = accept -> call_conforms g name ps (tool_Schema t)) ->
    w' = w /\ cr_IsError r = true \/ call_conforms g name ps (tool_Schema t) /\ w' = fst (tool_Execute t ps w)) as Hrun.
  { intros g' c. destruct c as [[]|e]; [|intros [= _ <- <-] _; by left].
    destruct (tool_Execute t ps w) as [w1 res]. intros [= _ <- _] Hc. right. by auto. }
  destruct (gk_enableRateLimiting g).
  - destruct (gk_rateLimiter g) as [rl|]; [|done]. destruct (RateLimiter_Allow now rl) as [rl' [|]]; cbn.
    + intros H. eapply Hrun; [exact H|]. by rewrite validateArguments_ok.
    + intros [= _ <- <-]. by left.
  - cbn. intros H. eapply Hrun; [exact H|]. by rewrite validateArguments_ok.
Qed.
End admission.

Definition sorted_range (ps : params) : list (string * json) := map_to_list ps.

Definition fetch_schema : Schema := mkSchema {[ "url" := "string"; "retries" := "integer" ]} ["url"].
Definition fetch_params : params := {[ "url" := JStr "https://example.com/a"; "retries" := JNum "3" ]}.

Lemma admitted_call_conforms_witness :
  validateArguments sorted_range (New []) "http.request" fetch_params fetch_schema = Ok tt /\
  call_conforms (New []) "http.request" fetch_params fetch_schema.
Proof.
  split; [vm_compute; reflexivity|]. apply (admitted_call_conforms sorted_range); [done|]. vm_compute. reflexivity.
Defined.

(** A tool that counts its calls. *)
Definition counting_tool : Tool Z :=
  mkTool "http.request" fetch_schema (fun _ n => (n + 1, Ok (mkToolResult "done" ""))).

Lemma nonconforming_call_has_no_effect_witness :
  let bad : params := {[ "url" := JStr "http://10.0.0.7/admin" ]} in
  let call := CallTool sorted_range (Register counting_tool ∅) zero_time "http.request" bad (Some (New [])) 0 in
  call = Ret (Some (New []), 0,
    mkCallResult "validation error: url: private IP access not allowed (SSRF protection)" true) /\
  (0 = 0 /\ true = true \/ call_conforms (New []) "http.request" bad fetch_schema /\ 0 = 1).
Proof.
  intros bad r. assert (r = Ret (Some (New []), 0,
    mkCallResult "validation error: url: private IP access not allowed (SSRF protection)" true)) as Hr
    by (vm_compute; reflexivity).
  split; [exact Hr|].
  exact (nonconforming_call_has_no_effect sorted_range (fun _ => reflexivity _) (Register counting_tool ∅) zero_time
    "http.request" bad (New []) 0 _ _ _ counting_tool eq_refl Hr).
Defined.

(** ** Where the checks stop short *)

Definition admits (name : string) (ps : params) : bool :=
  is_ok (validateArguments sorted_range (New []) name ps (mkSchema ∅ [])).

(** A required argument may be null, and null is of every declared type: the
    type check leaves nil to the required check, which asks for the key only. *)
Lemma null_passes_every_check :
  validateArguments sorted_range (New []) "calculator" {[ "expression" := JNull ]} (mkSchema {[ "expression" := "string" ]} ["expression"])
    = Ok tt.
Proof. vm_compute. reflexivity. Qed.

(** The loopback address behind user information, behind an upper-case scheme,
    in brackets, in its short form and as a number. *)
Lemma ssrf_gaps :
  forallb (fun url => admits "http.request" {[ "url" := JStr url ]})
    ["http://user@127.0.0.1/"; "HTTP://127.0.0.1/"; "http://[::1]/"; "http://127.1/"; "http://2130706433/"] = true.
Proof. vm_compute. done. Qed.

(** A forbidden command behind its path, or with a tab behind it; a protected
    directory with a doubled slash. *)
Lemma command_gaps :
  forallb (fun c => admits "shell.execute" {[ "command" := JStr c ]})
    ["/usr/bin/curl http://a"; "curl" +:+ of_bytes [9] +:+ "http://a"; "env curl http://a"] = true /\
  admits "file.write" {[ "path" := JStr "//etc/passwd" ]} = true /\
  admits "file.delete" {[ "path" := JStr "/etc" ]} = true.
Proof. vm_compute. done. Qed.
