(* ===== verification/SchemaValidator.v ===== *)
(** The JSON Schema validator of internal/tool/gatekeeper/schema_validator.go:
    ValidateSchema decodes a value and a schema, and validateAgainstSchema
    descends into both.

    Arguments of the model: [rng], the order in which a map is ranged over;
    [overflow], what the machine makes of [int64(f)] beyond the range of
    int64; [json_error], encoding/json's message for a text it rejects.  The
    descent takes fuel, one unit per level of the schema. *)

From S2P Require Import Prelude Sha256 GoTime Json GoStrings GoFloat Gatekeeper.

(** [%T] and [%v] of a value decoded with UseNumber. *)
Definition type_name (v : json) : string :=
  match v with
  | JNull => "<nil>"
  | JBool _ => "bool"
  | JNum _ => "json.Number"
  | JStr _ => "string"
  | JArr _ => "[]interface {}"
  | JObj _ => "map[string]interface {}"
  end.

Fixpoint fmt_number_text (v : json) : string :=
  match v with
  | JNull => "<nil>"
  | JBool true => "true"
  | JBool false => "false"
  | JNum lit => lit
  | JStr s => s
  | JArr l => "[" +:+ (join " " (map fmt_number_text l) +:+ "]")
  | JObj l => "map[" +:+ (join " " (map (fun '(k, x) => k +:+ String ":" (fmt_number_text x)) l) +:+ "]")
  end.

Definition toFloat (v : json) : option float64 := match v with JNum lit => ParseFloat lit | _ => None end.

Definition jsonEqual (a b : json) : bool := String.eqb (print a) (print b).

Definition buildPath (parent field : string) : string :=
  if String.eqb parent EmptyString then field else parent +:+ "." +:+ field.

Definition elemPath (path : string) (i : nat) : string := path +:+ "[" +:+ itoa (Z.of_nat i) +:+ "]".

(** ** Loops

    A loop that ends at the first error; [None] is a descent out of fuel. *)
Fixpoint for_each {A} (f : A -> option check) (l : list A) : option check :=
  match l with
  | [] => Some accept
  | a :: r => match f a with Some (Ok _) => for_each f r | x => x end
  end.

(** One check after the other. *)
Definition and_then (c : option check) (k : option check) : option check :=
  match c with Some (Ok _) => k | x => x end.

Notation "c >>> k" := (and_then c k) (at level 60, right associativity) : go_scope.

Section validator.
Context (rng : list (string * json) -> list (string * json)) (overflow : float64 -> Z) (json_error : string -> string).

Definition mismatch (path expected : string) (v : json) : check :=
  Err (ValidationError path ("expected " +:+ expected +:+ ", got " +:+ type_name v)).

(** validateType of the schema validator. *)
Definition schema_validateType (value : json) (expectedType path : string) : check :=
  if String.eqb expectedType "string" then
    match value with JStr _ => accept | _ => mismatch path "string" value end
  else if String.eqb expectedType "number" then
    match toFloat value with Some _ => accept | None => mismatch path "number" value end
  else if String.eqb expectedType "integer" then
    match toFloat value with
    | Some f => if float_eqb f (float_of_int (int_of_float overflow f)) then accept
                else Err (ValidationError path "expected integer, got non-integer number")
    | None => mismatch path "integer" value
    end
  else if String.eqb expectedType "boolean" then
    match value with JBool _ => accept | _ => mismatch path "boolean" value end
  else if String.eqb expectedType "object" then
    match value with JObj _ => accept | _ => mismatch path "object" value end
  else if String.eqb expectedType "array" then
    match value with JArr _ => accept | _ => mismatch path "array" value end
  else if String.eqb expectedType "null" then
    match value with JNull => accept | _ => Err (ValidationError path "expected null") end
  else accept.

Definition validateEnum (value enumVal : json) (path : string) : check :=
  match enumVal with
  | JArr es => if existsb (fun e => jsonEqual e value) es then accept
               else Err (ValidationError path ("value " +:+ fmt_number_text value +:+ " not in enum"))
  | _ => accept
  end.

(** validateRequired of the schema validator. *)
Fixpoint required_fields (obj : list (string * json)) (req : list json) (path : string) : check :=
  match req with
  | [] => accept
  | JStr field :: rest =>
      match lookup_field field obj with
      | Some _ => required_fields obj rest path
      | None => Err (ValidationError (buildPath path field) "required field is missing")
      end
  | _ :: rest => required_fields obj rest path
  end.

Definition schema_validateRequired (obj : list (string * json)) (reqVal : json) (path : string) : check :=
  match reqVal with JArr req => required_fields obj req path | _ => accept end.

(** A keyword of the schema, when it is there. *)
Definition keyword (name : string) (schema : list (string * json)) (f : json -> check) : check :=
  match lookup_field name schema with Some k => f k | None => accept end.

(** A bound of the schema that is a number. *)
Definition bound (name : string) (schema : list (string * json)) (broken : float64 -> bool) (path : string)
    (message : json -> string) : check :=
  keyword name schema (fun k =>
    match toFloat k with
    | Some n => if broken n then Err (ValidationError path (message k)) else accept
    | None => accept
    end).

Definition length_float (n : nat) : float64 := float_of_int (Z.of_nat n).
Definition nat_text (n : nat) : string := itoa (Z.of_nat n).

Definition props_of (schema : list (string * json)) : option (list (string * json)) :=
  match lookup_field "properties" schema with Some (JObj props) => Some props | _ => None end.

Definition additional_allowed (obj schema : list (string * json)) (path : string) : option check :=
  match lookup_field "additionalProperties" schema with
  | Some (JBool false) =>
      for_each (fun '(key, _) =>
        Some match lookup_field key (default [] (props_of schema)) with
             | Some _ => accept
             | None => Err (ValidationError (buildPath path key) "additional property not allowed")
             end) (rng obj)
  | _ => Some accept
  end.

Definition array_bounds (arr : list json) (schema : list (string * json)) (path : string) : check :=
  bound "minItems" schema (fun n => float_ltb (length_float (length arr)) n) path
    (fun k => "array length " +:+ nat_text (length arr) +:+ " less than minItems " +:+ fmt_number_text k).

Definition string_bounds (s : string) (schema : list (string * json)) (path : string) : check :=
  try _ <- bound "minLength" schema (fun n => float_ltb (length_float (String.length s)) n) path
    (fun k => "string length " +:+ nat_text (String.length s) +:+ " less than minLength " +:+ fmt_number_text k) ;;
  bound "maxLength" schema (fun n => float_ltb n (length_float (String.length s))) path
    (fun k => "string length " +:+ nat_text (String.length s) +:+ " greater than maxLength " +:+ fmt_number_text k).

Definition number_bounds (value : json) (num : float64) (schema : list (string * json)) (path : string) : check :=
  try _ <- bound "minimum" schema (fun n => float_ltb num n) path
    (fun k => "value " +:+ fmt_number_text value +:+ " less than minimum " +:+ fmt_number_text k) ;;
  bound "maximum" schema (fun n => float_ltb n num) path
    (fun k => "value " +:+ fmt_number_text value +:+ " greater than maximum " +:+ fmt_number_text k).

Fixpoint validateAgainstSchema (fuel : nat) (value : json) (schema : list (string * json)) (path : string) {struct fuel}
  : option check :=
  match fuel with
  | O => None
  | S fuel' =>
      Some (keyword "type" schema (fun k =>
        match k with JStr t => schema_validateType value t path | _ => accept end)) >>>
      Some (keyword "enum" schema (fun k => validateEnum value k path)) >>>
      (match value with
       | JObj obj =>
           Some (keyword "required" schema (fun k => schema_validateRequired obj k path)) >>>
           for_each (fun '(key, propSchema) =>
             match lookup_field key obj, propSchema with
             | Some propVal, JObj propMap => validateAgainstSchema fuel' propVal propMap (buildPath path key)
             | _, _ => Some accept
             end) (rng (default [] (props_of schema))) >>>
           additional_allowed obj schema path
       | _ => Some accept
       end) >>>
      (match value with
       | JArr arr =>
           (match lookup_field "items" schema with
            | Some (JObj itemsSchema) =>
                for_each (fun '(i, elem) => validateAgainstSchema fuel' elem itemsSchema (elemPath path i))
                  (zip (seq 0 (length arr)) arr)
            | _ => Some accept
            end) >>>
           Some (array_bounds arr schema path)
       | _ => Some accept
       end) >>>
      Some (match value with JStr s => string_bounds s schema path | _ => accept end) >>>
      Some (match toFloat value with Some num => number_bounds value num schema path | None => accept end)
  end.

Fixpoint depth (v : json) : nat :=
  match v with
  | JArr l => S (max_list (map depth l))
  | JObj l => S (max_list (map (fun '(_, x) => depth x) l))
  | _ => 0
  end.

(** Decode with UseNumber: the first value of the text, what follows it is not
    read. *)
Definition decode_value (s : string) : option json :=
  match scan_value (fuel_for s) (skip_ws s) with Some (v, _) => Some (go_maps v) | None => None end.

Definition ValidateSchema (data schema : string) : option check :=
  if String.eqb data EmptyString then Some (Err (ValidationError "data" "data cannot be empty"))
  else match decode_value data with
  | None => Some (Err (ValidationError "data" ("invalid JSON: " +:+ json_error data)))
  | Some value =>
      if String.eqb schema EmptyString then Some accept
      else match decode_value schema with
      | Some JNull => Some accept
      | Some (JObj s) => validateAgainstSchema (S (depth (JObj s))) value s EmptyString
      | _ => Some (Err (ValidationError "schema" ("invalid schema JSON: " +:+ json_error schema)))
      end
  end.
End validator.


(** ** Conformance, without an order, a path or an error *)

Section conformance.
Context (overflow : float64 -> Z).

Inductive instance_of : json -> string -> Prop :=
| inst_string s : instance_of (JStr s) "string"
| inst_number lit f : ParseFloat lit = Some f -> instance_of (JNum lit) "number"
| inst_integer lit f :
    ParseFloat lit = Some f -> float_eqb f (float_of_int (int_of_float overflow f)) = true ->
    instance_of (JNum lit) "integer"
| inst_boolean b : instance_of (JBool b) "boolean"
| inst_object l : instance_of (JObj l) "object"
| inst_array l : instance_of (JArr l) "array"
| inst_null : instance_of JNull "null"
| inst_unknown v t :
    (t ∉ ["string"; "number"; "integer"; "boolean"; "object"; "array"; "null"]) -> instance_of v t.

(** The value of a numeric keyword. *)
Definition limit (name : string) (s : list (string * json)) (n : float64) : Prop :=
  exists k, lookup_field name s = Some k /\ toFloat k = Some n.

Inductive conforms (v : json) (s : list (string * json)) : Prop :=
| conforms_all
  (of_type : forall t, lookup_field "type" s = Some (JStr t) -> instance_of v t)
  (in_enum : forall es, lookup_field "enum" s = Some (JArr es) -> exists e, e ∈ es /\ print e = print v)
  (has_required : forall obj req f, v = JObj obj -> lookup_field "required" s = Some (JArr req) ->
     JStr f ∈ req -> is_Some (lookup_field f obj))
  (properties_ok : forall obj props key sub w, v = JObj obj -> lookup_field "properties" s = Some (JObj props) ->
     (key, JObj sub) ∈ props -> lookup_field key obj = Some w -> conforms w sub)
  (only_declared : forall obj key w, v = JObj obj -> lookup_field "additionalProperties" s = Some (JBool false) ->
     (key, w) ∈ obj -> is_Some (lookup_field key (default [] (props_of s))))
  (items_ok : forall arr sub w, v = JArr arr -> lookup_field "items" s = Some (JObj sub) -> w ∈ arr -> conforms w sub)
  (long_enough : forall arr n, v = JArr arr -> limit "minItems" s n -> float_ltb (length_float (length arr)) n = false)
  (text_min : forall t n, v = JStr t -> limit "minLength" s n -> float_ltb (length_float (String.length t)) n = false)
  (text_max : forall t n, v = JStr t -> limit "maxLength" s n -> float_ltb n (length_float (String.length t)) = false)
  (number_min : forall f n, toFloat v = Some f -> limit "minimum" s n -> float_ltb f n = false)
  (number_max : forall f n, toFloat v = Some f -> limit "maximum" s n -> float_ltb n f = false).
End conformance.

(** ** The loops *)

Lemma and_then_ok c k : c >>> k = Some accept <-> c = Some accept /\ k = Some accept.
Proof. destruct c as [[[]|]|]; cbn; naive_solver. Qed.

Lemma and_then_none c k : c >>> k = None -> c = None \/ k = None.
Proof. destruct c as [[[]|]|]; cbn; naive_solver. Qed.

Lemma for_each_ok {A} (f : A -> option check) l :
  for_each f l = Some accept <-> forall a, a ∈ l -> f a = Some accept.
Proof.
  induction l as [|a l IH]; cbn; [split; [set_solver|done]|]. setoid_rewrite elem_of_cons.
  destruct (f a) as [[[]|]|] eqn:Hf; [rewrite IH|..]; split; try naive_solver.
  all: intros H; specialize (H a (or_introl eq_refl)); congruence.
Qed.

Lemma for_each_none {A} (f : A -> option check) l : for_each f l = None -> exists a, a ∈ l /\ f a = None.
Proof.
  induction l as [|a l IH]; cbn; [done|]. destruct (f a) as [[[]|]|] eqn:Hf; [|done|].
  - intros H. destruct (IH H) as (b & Hb & Hfb). exists b. rewrite elem_of_cons. auto.
  - intros _. exists a. rewrite elem_of_cons. auto.
Qed.

Lemma lookup_field_elem {A} k (l : list (string * A)) v : lookup_field k l = Some v -> (k, v) ∈ l.
Proof.
  unfold lookup_field. assert (forall acc, foldl (fun acc kv => if String.eqb (fst kv) k then Some (snd kv) else acc) acc l = Some v ->
    (k, v) ∈ l \/ acc = Some v) as H.
  { induction l as [|[k' v'] l IH]; intros acc; cbn; [auto|]. intros Hf. destruct (IH _ Hf) as [Hin|Hacc].
    - left. by right.
    - destruct (String.eqb_spec k' k); [|auto]. subst. injection Hacc as ->. left. by left. }
  intros Hf. by destruct (H None Hf).
Qed.

(** ** Termination *)

Lemma depth_field k l v : (k, v) ∈ l -> (depth v < depth (JObj l))%nat.
Proof.
  intros Hin. cbn. apply Nat.lt_succ_r. apply max_list_elem_of_le.
  by apply (list_elem_of_fmap_2 (fun '(_, x) => depth x) l (k, v)).
Qed.

Lemma depth_nested k l v k' l' v' : (k, v) ∈ l -> v = JObj l' -> (k', v') ∈ l' -> (S (depth v') < depth (JObj l))%nat.
Proof. intros H1 -> H2. apply depth_field in H1, H2. lia. Qed.

Section correctness.
Context (rng : list (string * json) -> list (string * json)) (rng_spec : forall l, rng l ≡ₚ l).
Context (overflow : float64 -> Z) (json_error : string -> string).

Local Abbreviation validate := (validateAgainstSchema rng overflow).

Lemma props_elem s props : props_of s = Some props -> ("properties", JObj props) ∈ s.
Proof.
  unfold props_of. destruct (lookup_field "properties" s) as [[| | | | |p]|] eqn:Hp; try done.
  intros [= ->]. by apply lookup_field_elem.
Qed.

Lemma additional_total obj s path : additional_allowed rng obj s path <> None.
Proof.
  unfold additional_allowed. repeat case_match; try done.
  intros ([k w] & _ & ?)%for_each_none. done.
Qed.

Lemma validate_total fuel v s path : (depth (JObj s) < fuel)%nat -> validate fuel v s path <> None.
Proof.
  revert v s path. induction fuel as [|fuel IH]; intros v s path Hf; [lia|]. cbn [validateAgainstSchema].
  repeat (intros [Hn|Hn]%and_then_none; [|revert Hn]); try done.
  - destruct v as [| | | | |obj]; try done. apply and_then_none in Hn as [|Hn]; [done|].
    apply and_then_none in Hn as [Hn|Hn]; [|by apply additional_total in Hn].
    apply for_each_none in Hn as ([k w] & Hin & Hn). rewrite rng_spec in Hin.
    destruct (props_of s) as [props|] eqn:Hp; cbn in Hin; [|by apply elem_of_nil in Hin].
    destruct (lookup_field k obj) as [x|]; [|done]. destruct w as [| | | | |sub]; try done.
    apply (IH _ _ _) in Hn; [done|]. apply props_elem in Hp. pose proof (depth_nested _ _ _ _ _ _ Hp eq_refl Hin). lia.
  - destruct v as [| | | |arr|]; try done. apply and_then_none in Hn as [Hn|]; [|done].
    destruct (lookup_field "items" s) as [[| | | | |sub]|] eqn:Hi; try done.
    apply for_each_none in Hn as ([i w] & _ & Hn). apply (IH _ _ _) in Hn; [done|].
    apply lookup_field_elem, depth_field in Hi. lia.
Qed.

(** The descent into value and schema ends for every pair of texts: the
    fuel given, the depth of the schema, is never used up. *)
Theorem ValidateSchema_terminates data schema : ValidateSchema rng overflow json_error data schema <> None.
Proof.
  unfold ValidateSchema. repeat case_match; try done. apply validate_total. lia.
Qed.

(** ** Equivalence with conformance *)

Lemma keyword_ok name s f : keyword name s f = accept <-> forall k, lookup_field name s = Some k -> f k = accept.
Proof. unfold keyword. destruct (lookup_field name s); naive_solver. Qed.

Lemma bound_ok name s broken path msg : bound name s broken path msg = accept <-> forall n, limit name s n -> broken n = false.
Proof.
  unfold bound. rewrite keyword_ok. unfold limit. split.
  - intros H n (k & Hk & Hn). specialize (H k Hk). rewrite Hn in H. by destruct (broken n).
  - intros H k Hk. destruct (toFloat k) as [n|] eqn:Hn; [|done]. rewrite (H n); [done|]. eauto.
Qed.

Lemma schema_validateType_ok v t path : schema_validateType overflow v t path = accept <-> instance_of overflow v t.
Proof.
  unfold schema_validateType.
  repeat match goal with
  | |- context [if String.eqb t ?x then _ else _] => destruct (String.eqb_spec t x); [subst t|]
  end.
  8: { split; [|done]. intros _. apply inst_unknown. set_solver. }
  all: split; [intros H; destruct v; try done; cbn in H; repeat case_match; try done; by econstructor|].
  all: inversion 1; subst; try done; try (by (match goal with H : _ ∉ _ |- _ => destruct H; repeat constructor end)).
  all: cbn; match goal with H : ParseFloat _ = _ |- _ => rewrite H end; try done.
  by match goal with H : float_eqb _ _ = _ |- _ => rewrite H end.
Qed.

Lemma validateEnum_ok v k path :
  validateEnum v k path = accept <-> forall es, k = JArr es -> exists e, e ∈ es /\ print e = print v.
Proof.
  unfold validateEnum. destruct k as [| | | |es|]; try (split; [intros _ ? [=]|done]).
  destruct (existsb _ es) eqn:He; split; try done.
  - intros _ ? [= <-]. apply existsb_exists in He as (e & Hin & He). exists e.
    split; [by apply list_elem_of_In|by apply String.eqb_eq].
  - intros H. destruct (H es eq_refl) as (e & Hin & Heq). exfalso. apply not_true_iff_false in He. apply He.
    apply existsb_exists. exists e. split; [by apply list_elem_of_In|by apply String.eqb_eq].
Qed.

Lemma required_fields_ok obj req path :
  required_fields obj req path = accept <-> forall f, JStr f ∈ req -> is_Some (lookup_field f obj).
Proof.
  induction req as [|r req IH]; cbn; [split; [set_solver|done]|]. setoid_rewrite elem_of_cons.
  destruct r as [| | |f| |]; try (rewrite IH; naive_solver).
  destruct (lookup_field f obj) as [w|] eqn:Hf; [rewrite IH|]; split; try naive_solver.
  intros H. destruct (H f (or_introl eq_refl)). congruence.
Qed.

Lemma additional_allowed_ok obj s path :
  additional_allowed rng obj s path = Some accept <->
  (lookup_field "additionalProperties" s = Some (JBool false) ->
   forall key w, (key, w) ∈ obj -> is_Some (lookup_field key (default [] (props_of s)))).
Proof.
  unfold additional_allowed. destruct (lookup_field "additionalProperties" s) as [[|[|]| | | |]|]; try (by split).
  rewrite for_each_ok. setoid_rewrite rng_spec. split.
  - intros H _ key w Hin. specialize (H _ Hin). cbn in H. by case_match.
  - intros H [key w] Hin. destruct (H eq_refl key w Hin) as [x ->]. done.
Qed.

Lemma array_bounds_ok arr s path :
  array_bounds arr s path = accept <-> forall n, limit "minItems" s n -> float_ltb (length_float (length arr)) n = false.
Proof. apply bound_ok. Qed.

Lemma string_bounds_ok t s path :
  string_bounds t s path = accept <->
  (forall n, limit "minLength" s n -> float_ltb (length_float (String.length t)) n = false) /\
  (forall n, limit "maxLength" s n -> float_ltb n (length_float (String.length t)) = false).
Proof. unfold string_bounds. by rewrite bind_accept, !bound_ok. Qed.

Lemma number_bounds_ok v f s path :
  number_bounds v f s path = accept <->
  (forall n, limit "minimum" s n -> float_ltb f n = false) /\ (forall n, limit "maximum" s n -> float_ltb n f = false).
Proof. unfold number_bounds. by rewrite bind_accept, !bound_ok. Qed.

Lemma some_accept (c : check) : Some c = Some accept <-> c = accept.
Proof. split; [by intros [= ->]|by intros ->]. Qed.

Lemma elem_of_zip_seq {A} (l : list A) i x : (i, x) ∈ zip (seq 0 (length l)) l -> x ∈ l.
Proof. intros H. by apply elem_of_zip_r in H. Qed.

Lemma zip_seq_elem {A} (l : list A) x : x ∈ l -> exists i, (i, x) ∈ zip (seq 0 (length l)) l.
Proof.
  intros [i Hi]%list_elem_of_lookup_1. exists i. apply (list_elem_of_lookup_2 _ i).
  apply lookup_zip_with_Some. exists i, x. split_and!; [done| |done].
  apply lookup_seq. split; [lia|]. by eapply lookup_lt_Some.
Qed.

Lemma validate_sound fuel v s path : validate fuel v s path = Some accept -> conforms overflow v s.
Proof.
  revert v s path. induction fuel as [|fuel IH]; intros v s path; [done|]. cbn [validateAgainstSchema].
  rewrite !and_then_ok, !some_accept, !keyword_ok. intros (Ht & He & Ho & Ha & Hs & Hn). split.
  - intros t Hk. specialize (Ht _ Hk). cbn in Ht. by apply schema_validateType_ok in Ht.
  - intros es Hk. specialize (He _ Hk). exact (proj1 (validateEnum_ok _ _ _) He es eq_refl).
  - intros obj req f -> Hk Hin. apply and_then_ok in Ho as [Ho _]. apply some_accept in Ho.
    apply (proj1 (required_fields_ok _ _ _) (proj1 (keyword_ok _ _ _) Ho _ Hk)), Hin.
  - intros obj props key sub w -> Hk Hin Hw. apply and_then_ok in Ho as [_ [Ho _]%and_then_ok].
    assert (props_of s = Some props) as Hp by (unfold props_of; by rewrite Hk).
    rewrite Hp in Ho. cbn in Ho. apply (proj1 (for_each_ok _ _)) with (a := (key, JObj sub)) in Ho; [|by rewrite rng_spec].
    cbn in Ho. rewrite Hw in Ho. by apply IH in Ho.
  - intros obj key w -> Hk Hin. apply and_then_ok in Ho as [_ [_ Ho]%and_then_ok].
    by apply (proj1 (additional_allowed_ok _ _ _) Ho Hk key w).
  - intros arr sub w -> Hk Hin. apply and_then_ok in Ha as [Ha _]. rewrite Hk in Ha.
    destruct (zip_seq_elem arr w Hin) as [i Hi]. apply (proj1 (for_each_ok _ _)) with (a := (i, w)) in Ha; [|done].
    by apply IH in Ha.
  - intros arr n ->. apply and_then_ok in Ha as [_ Ha]. apply some_accept in Ha. exact (proj1 (array_bounds_ok _ _ _) Ha n).
  - intros t n ->. by apply string_bounds_ok in Hs as [Hs _]; apply Hs.
  - intros t n ->. by apply string_bounds_ok in Hs as [_ Hs]; apply Hs.
  - intros f n Hf. rewrite Hf in Hn. by apply number_bounds_ok in Hn as [Hn _]; apply Hn.
  - intros f n Hf. rewrite Hf in Hn. by apply number_bounds_ok in Hn as [_ Hn]; apply Hn.
Qed.

Lemma validate_complete fuel v s path :
  conforms overflow v s -> (depth (JObj s) < fuel)%nat -> validate fuel v s path = Some accept.
Proof.
  revert v s path. induction fuel as [|fuel IH]; intros v s path [] Hf; [lia|]. cbn [validateAgainstSchema].
  rewrite !and_then_ok, !some_accept, !keyword_ok. split_and!.
  - intros k Hk. destruct k as [| | |t| |]; try done. apply schema_validateType_ok. auto.
  - intros k Hk. apply validateEnum_ok. intros es ->. auto.
  - destruct v as [| | | | |obj]; try done. rewrite !and_then_ok, some_accept, keyword_ok. split_and!.
    + intros k Hk. destruct k as [| | | |req|]; try done. apply required_fields_ok. eauto.
    + apply for_each_ok. intros [key w] Hin. rewrite rng_spec in Hin.
      destruct (props_of s) as [props|] eqn:Hp; cbn in Hin; [|by apply elem_of_nil in Hin].
      destruct (lookup_field key obj) as [x|] eqn:Hx; [|done]. destruct w as [| | | | |sub]; try done.
      apply IH.
      * eapply properties_ok; [done| |done..]. unfold props_of in Hp. repeat (case_match; try done). congruence.
      * apply props_elem in Hp. pose proof (depth_nested _ _ _ _ _ _ Hp eq_refl Hin). lia.
    + apply additional_allowed_ok. eauto.
  - destruct v as [| | | |arr|]; try done. rewrite and_then_ok, some_accept. split.
    + destruct (lookup_field "items" s) as [[| | | | |sub]|] eqn:Hi; try done.
      apply for_each_ok. intros [i w] Hin. apply IH; [eapply items_ok; eauto using elem_of_zip_seq|].
      apply lookup_field_elem, depth_field in Hi. lia.
    + apply array_bounds_ok. eauto.
  - destruct v; try done. apply string_bounds_ok. eauto.
  - destruct (toFloat v) eqn:Hn; [|done]. apply number_bounds_ok. eauto.
Qed.

(** C37: for a schema that is an object, the validator accepts a text exactly
    when its first value conforms to the schema: the order in which the maps
    are ranged over decides which error is reported, not whether there is one. *)
Theorem ValidateSchema_iff_conforms data schema v s :
  data <> EmptyString -> schema <> EmptyString -> decode_value data = Some v -> decode_value schema = Some (JObj s) ->
  ValidateSchema rng overflow json_error data schema = Some (Ok tt) <-> conforms overflow v s.
Proof.
  intros Hd Hs Hv Hsch. unfold ValidateSchema.
  rewrite (proj2 (String.eqb_neq _ _) Hd), (proj2 (String.eqb_neq _ _) Hs), Hv, Hsch. split.
  - apply validate_sound.
  - intros Hc. apply validate_complete; [done|lia].
Qed.
End correctness.

(** ** Witnesses *)

(** A text with apostrophes for quotation marks. *)
Definition quoted (s : string) : string :=
  String.string_of_list_ascii (map (fun c => if Ascii.eqb c "'" then dquote else c) (String.list_ascii_of_string s)).

Definition order_schema : string := quoted
  "{'type':'object','required':['id'],'properties':{'id':{'type':'string','minLength':2},'items':{'type':'array','minItems':1,'items':{'type':'integer','minimum':1,'maximum':9}}},'additionalProperties':false}".

Definition accepts (data schema : string) : bool :=
  match ValidateSchema (fun l => l) (fun _ => 0) (fun _ => "") (quoted data) (quoted schema) with
  | Some (Ok _) => true | _ => false
  end.

Lemma ValidateSchema_terminates_witness :
  (forall l : list (string * json), l ≡ₚ l) /\
  ValidateSchema (fun l => l) (fun _ => 0) (fun _ => "") (quoted "{'items':[3,2e0],'id':'ab'}") order_schema <> None.
Proof. split; [done|]. apply (ValidateSchema_terminates (fun l => l) (fun _ => reflexivity _)). Defined.

Lemma ValidateSchema_iff_conforms_witness : exists v s,
  decode_value (quoted "{'items':[3,2e0],'id':'ab'}") = Some v /\ decode_value order_schema = Some (JObj s) /\
  conforms (fun _ => 0) v s.
Proof.
  eexists _, _. split_and!; [vm_compute; reflexivity|vm_compute; reflexivity|].
  apply (ValidateSchema_iff_conforms (fun l => l) (fun _ => reflexivity _) (fun _ => 0) (fun _ => "")
    (quoted "{'items':[3,2e0],'id':'ab'}") order_schema); [done|done|vm_compute; reflexivity..].
Defined.

(** ** Where the validator stops short

    What follows the first value is not read; numbers of an enum are compared
    as texts; the length of a text is counted in bytes. *)
Lemma validator_gaps :
  accepts "{'a':1} and more }{" "{'type':'object'}" = true /\
  accepts "1.0" "{'enum':[1]}" = false /\
  accepts (String dquote (of_bytes [195; 169; 195; 169] +:+ String dquote EmptyString)) "{'maxLength':2}" = false.
Proof. vm_compute. done. Qed.
