(* ===== verification/JobStore.v ===== *)
(** The interface [JobStore] of internal/runtime/jobstore/store.go: its
    operations as a class, what it promises about one job as a specification,
    and the in-memory store as its first instance.

    What a store knows about a job is a [job_state]; the promises say how an
    operation changes it and that it leaves the other jobs alone.  A call
    happens in a [call_env]: the clock, the next uuid, and whether a write to
    the disk succeeds. *)

From S2P Require Import Prelude Sha256 GoTime Json Events MemStore.

Record call_env := mkEnv { ce_now : time; ce_uuid : string; ce_io : bool }.

Inductive store_error := Known (e : jobstore_error) | PersistError.

(** ** One job *)

Record job_state := mkJobState { jst_events : list JobEvent; jst_claim : option claimRecord }.

Definition unknown_job : job_state := mkJobState [] None.

Definition claim_live (now : time) (j : job_state) : bool :=
  match jst_claim j with Some c => t_after (cl_ExpiresAt c) now | None => false end.

Definition open_job (j : job_state) : bool :=
  match last (jst_events j) with Some e => negb (is_terminal (ev_Type e)) | None => false end.

Definition version (j : job_state) : Z := Z.of_nat (length (jst_events j)).

(** A fenced append: the attempt, then the version. *)
Definition job_append (env : call_env) (attemptID jobID : string) (expectedVersion : Z) (e : JobEvent) (j : job_state)
  : result jobstore_error (job_state * Z) :=
  if String.eqb jobID EmptyString then Err ErrVersionMismatch
  else if negb (String.eqb attemptID EmptyString) &&
          negb (match jst_claim j with
                | Some c => negb (t_before (cl_ExpiresAt c) (ce_now env)) && String.eqb (cl_AttemptID c) attemptID
                | None => false
                end) then Err ErrStaleAttempt
  else if negb (version j =? expectedVersion) then Err ErrVersionMismatch
  else let e' := seal_event jobID (prev_hash_of (jst_events j) expectedVersion)
                   (prepare_event (ce_now env) (ce_uuid env) jobID e) in
       Ok (mkJobState (jst_events j ++ [e']) (jst_claim j), version j + 1).

Definition lease (env : call_env) (workerID attemptID : string) (j : job_state) : job_state :=
  mkJobState (jst_events j) (Some (mkClaim workerID (t_add (ce_now env) leaseDuration) attemptID)).

Definition new_attempt (env : call_env) : string := "attempt-" +:+ ce_uuid env.

Definition job_claim (env : call_env) (workerID : string) (j : job_state) : result jobstore_error (job_state * (Z * string)) :=
  if negb (open_job j) then Err ErrNoJob
  else if claim_live (ce_now env) j then Err ErrClaimNotFound
  else Ok (lease env workerID (new_attempt env) j, (version j, new_attempt env)).

Definition job_heartbeat (env : call_env) (workerID : string) (j : job_state) : result jobstore_error (job_state * unit) :=
  match jst_claim j with
  | Some c =>
      if String.eqb (cl_WorkerID c) workerID && negb (t_before (cl_ExpiresAt c) (ce_now env))
      then Ok (lease env workerID (cl_AttemptID c) j, tt) else Err ErrClaimNotFound
  | None => Err ErrClaimNotFound
  end.

Definition job_attempt (env : call_env) (j : job_state) : string :=
  match jst_claim j with
  | Some c => if t_before (cl_ExpiresAt c) (ce_now env) then EmptyString else cl_AttemptID c
  | None => EmptyString
  end.

Definition claimable_state (env : call_env) (j : job_state) : bool := open_job j && negb (claim_live (ce_now env) j).

(** ** The interface

    [Ordering] is the order in which Claim visits the jobs. *)
Class JobStore (S : Type) := {
  Ordering : Type;
  js_ListEvents : string -> S -> outcome (list JobEvent * Z);
  js_Append : call_env -> string -> string -> Z -> JobEvent -> S -> outcome (S * result store_error Z);
  js_Claim : Ordering -> call_env -> string -> S -> S * result store_error (string * Z * string);
  js_ClaimJob : call_env -> string -> string -> S -> outcome (S * result store_error (Z * string));
  js_Heartbeat : call_env -> string -> string -> S -> outcome (S * result store_error unit);
  js_GetCurrentAttemptID : call_env -> string -> S -> outcome string;
  js_ListJobIDsWithExpiredClaim : call_env -> S -> list string;
}.

Section promise.
Context {S : Type} (view : S -> string -> job_state).

Definition same_jobs (s s' : S) : Prop := forall k, view s' k = view s k.

(** [s'] knows [j] about [job], and as much as [s] about the others. *)
Definition sets_job (job : string) (j : job_state) (s s' : S) : Prop :=
  view s' job = j /\ forall k, k <> job -> view s' k = view s k.

(** An operation on one job does what [f] says; a failed write to the disk is
    reported after it, or undoes it. *)
Definition acts_as {A} (env : call_env) (job : string) (f : job_state -> result jobstore_error (job_state * A))
    (s s' : S) (r : result store_error A) : Prop :=
  match f (view s job) with
  | Err e => r = Err (Known e) /\ same_jobs s s'
  | Ok (j, a) =>
      r = Ok a /\ sets_job job j s s' \/
      ce_io env = false /\ r = Err PersistError /\ (same_jobs s s' \/ sets_job job j s s')
  end.

Lemma same_jobs_refl s : same_jobs s s.
Proof. by intros k. Qed.
End promise.
#[export] Hint Resolve same_jobs_refl : go.

Class JobStoreSpec (S : Type) `{!JobStore S} (view : S -> string -> job_state) (wf : S -> Prop) := {
  (** an order that leaves no job out *)
  complete : Ordering -> S -> Prop;
  ListEvents_view job s : wf s -> js_ListEvents job s = Ret (jst_events (view s job), version (view s job));
  Append_view env att job v e s : wf s ->
    exists s' r, js_Append env att job v e s = Ret (s', r) /\ wf s' /\
    acts_as view env job (job_append env att job v e) s s' r;
  ClaimJob_view env w job s : wf s ->
    exists s' r, js_ClaimJob env w job s = Ret (s', r) /\ wf s' /\ acts_as view env job (job_claim env w) s s' r;
  Heartbeat_view env w job s : wf s ->
    exists s' r, js_Heartbeat env w job s = Ret (s', r) /\ wf s' /\ acts_as view env job (job_heartbeat env w) s s' r;
  GetCurrentAttemptID_view env job s : wf s -> js_GetCurrentAttemptID env job s = Ret (job_attempt env (view s job));
  Claim_view o env w s s' r : wf s -> js_Claim o env w s = (s', r) ->
    wf s' /\
    match r with
    | Ok (job, v, att) =>
        claimable_state env (view s job) = true /\
        acts_as view env job (job_claim env w) s s' (Ok (v, att))
    | Err (Known e) => e = ErrNoJob /\ same_jobs view s s' /\
        (complete o s -> forall job, claimable_state env (view s job) = false)
    | Err PersistError => ce_io env = false /\
        (same_jobs view s s' \/ exists job j, claimable_state env (view s job) = true /\ sets_job view job j s s')
    end;
  ListExpired_view env job s : wf s ->
    job ∈ js_ListJobIDsWithExpiredClaim env s <->
    exists c, jst_claim (view s job) = Some c /\ t_after (cl_ExpiresAt c) (ce_now env) = false;
}.

(** ** The in-memory store *)

Definition mem_view (s : memoryStore) (job : string) : job_state := mkJobState (events_of s job) (claims s !! job).

(** A store that nobody watches: [MemStoreProps] treats the others. *)
Definition unwatched (s : memoryStore) : Prop := watchers s = ∅.

Definition lift_result {S A} (s : S) (r : result jobstore_error (S * A)) : S * result store_error A :=
  match r with Ok (s', a) => (s', Ok a) | Err e => (s, Err (Known e)) end.

Definition mem_js_Append (env : call_env) (att job : string) (v : Z) (e : JobEvent) (s : memoryStore)
  : outcome (memoryStore * result store_error Z) :=
  match Append (ce_now env) (ce_uuid env) att job v e s with
  | Ok o => run r <- o ;; Ret (fst r, Ok (snd r))
  | Err err => Ret (s, Err (Known err))
  end.

#[export] Instance mem_job_store : JobStore memoryStore := {
  Ordering := list string;
  js_ListEvents job s := Ret (ListEvents s job);
  js_Append := mem_js_Append;
  js_Claim order env w s := lift_result s (Claim order (ce_now env) (ce_uuid env) w s);
  js_ClaimJob env w job s := Ret (lift_result s (ClaimJob (ce_now env) (ce_uuid env) w job s));
  js_Heartbeat env w job s :=
    Ret match Heartbeat (ce_now env) w job s with Ok s' => (s', Ok tt) | Err e => (s, Err (Known e)) end;
  js_GetCurrentAttemptID env job s := Ret (GetCurrentAttemptID (ce_now env) job s);
  js_ListJobIDsWithExpiredClaim env s := ListJobIDsWithExpiredClaim (ce_now env) s;
}.

Lemma mem_view_lease now w att job s k :
  mem_view (take_lease now w att job s) k =
  if decide (k = job) then mkJobState (events_of s k) (Some (mkClaim w (t_add now leaseDuration) att)) else mem_view s k.
Proof.
  unfold mem_view, take_lease, set_claims, events_of. cbn. f_equal. case_decide as Hk; [subst; by rewrite lookup_insert_eq|].
  by rewrite lookup_insert_ne.
Qed.

Lemma mem_sets_lease env w att job s :
  sets_job mem_view job (lease env w att (mem_view s job)) s (take_lease (ce_now env) w att job s).
Proof. split; [|intros k Hk]; rewrite mem_view_lease; [by rewrite decide_True|by rewrite decide_False]. Qed.

Lemma mem_commit job v e s :
  unwatched s ->
  append_commit job v e s =
    (if negb (version (mem_view s job) =? v) then Err ErrVersionMismatch
     else Ok (Ret (set_byJob (<[job := events_of s job ++ [seal_event job (prev_hash_of (events_of s job) v) e]]> (byJob s)) s,
              version (mem_view s job) + 1))).
Proof.
  intros Hw. unfold append_commit, version. cbn [mem_view jst_events]. case_match; [done|].
  unfold notifyWatchersLocked, set_byJob. cbn [watchers]. rewrite Hw. unfold get_default. rewrite lookup_empty. cbn.
  rewrite length_app. cbn. do 3 f_equal. lia.
Qed.

Lemma mem_sets_events job es s :
  sets_job mem_view job (mkJobState es (claims s !! job)) s (set_byJob (<[job := es]> (byJob s)) s).
Proof.
  unfold mem_view, set_byJob, events_of. split; [|intros k Hk]; cbn; rewrite get_default_insert;
    [by rewrite decide_True|by rewrite decide_False].
Qed.

Ltac rejects := do 2 eexists; split; [reflexivity|]; split; [done|]; split; [reflexivity|apply same_jobs_refl].

Lemma mem_append env att job v e s :
  unwatched s ->
  exists s' r, mem_js_Append env att job v e s = Ret (s', r) /\ unwatched s' /\
  acts_as mem_view env job (job_append env att job v e) s s' r.
Proof.
  intros Hw. unfold mem_js_Append, Append.
  set (e' := prepare_event (ce_now env) (ce_uuid env) job e).
  assert (exists s' r, match append_commit job v e' s with Ok o => run r <- o ;; Ret (fst r, Ok (snd r)) | Err err => Ret (s, Err (Known err)) end
      = Ret (s', r) /\ unwatched s' /\
    acts_as mem_view env job (fun j => if negb (version j =? v) then Err ErrVersionMismatch
      else Ok (mkJobState (jst_events j ++ [seal_event job (prev_hash_of (jst_events j) v) e']) (jst_claim j), version j + 1)) s s' r)
    as Hcommit.
  { rewrite mem_commit by done. unfold acts_as. destruct (negb _); [rejects|]. cbn [outcome_bind fst snd].
    do 2 eexists. split_and!; [done|done|]. left. split; [done|]. apply mem_sets_events. }
  unfold append_check, acts_as, job_append in *. cbn [jst_events jst_claim mem_view] in *. fold e'.
  destruct (String.eqb job EmptyString); [rejects|].
  destruct (String.eqb att EmptyString); cbn [negb andb result_bind]; [exact Hcommit|].
  destruct (claims s !! job) as [c|] eqn:Hc; [|rejects].
  destruct (t_before (cl_ExpiresAt c) (ce_now env)); [rejects|]. cbn [negb andb orb].
  destruct (String.eqb (cl_AttemptID c) att); cbn [negb result_bind]; [exact Hcommit|rejects].
Qed.

Lemma mem_claimable env s job : claimable (ce_now env) s job = claimable_state env (mem_view s job).
Proof.
  unfold claimable, claimable_state, open_job, claim_live, lease_live. cbn.
  destruct (last (events_of s job)); [|done]. by destruct (claims s !! job).
Qed.

Lemma mem_claim_of env w job s :
  claimable_state env (mem_view s job) = true ->
  job_claim env w (mem_view s job) = Ok (lease env w (new_attempt env) (mem_view s job), (version (mem_view s job), new_attempt env)).
Proof. unfold claimable_state, job_claim. intros H. by apply andb_true_iff in H as [-> ->%negb_true_iff]. Qed.

#[export] Instance mem_job_store_spec : JobStoreSpec memoryStore mem_view unwatched.
Proof.
  refine {| complete := (fun order s => forall job, events_of s job <> [] -> job ∈ order) : Ordering -> memoryStore -> Prop |}.
  - done.
  - intros. by apply mem_append.
  - intros env w job s Hw. unfold js_ClaimJob, mem_job_store, ClaimJob, lift_result, acts_as, job_claim, open_job.
    cbn [jst_events mem_view].
    change (claim_live (ce_now env) (mem_view s job)) with (lease_live (ce_now env) s job).
    destruct (last (events_of s job)) as [e|]; [|rejects].
    destruct (is_terminal (ev_Type e)); [rejects|]. cbn [negb].
    destruct (lease_live (ce_now env) s job); [rejects|]. do 2 eexists. split; [done|]. split; [done|].
    left. split; [done|]. apply mem_sets_lease.
  - intros env w job s Hw. unfold js_Heartbeat, mem_job_store, Heartbeat, acts_as, job_heartbeat. cbn [jst_claim mem_view].
    destruct (claims s !! job) as [c|] eqn:Hc; [|rejects].
    destruct (String.eqb (cl_WorkerID c) w); cbn [negb orb andb] in *; [|rejects].
    destruct (t_before (cl_ExpiresAt c) (ce_now env)); [rejects|]. cbn [negb]. do 2 eexists. split; [done|]. split; [done|].
    left. split; [done|]. apply mem_sets_lease.
  - done.
  - intros o env w s s' r Hw Hcl. unfold js_Claim, mem_job_store, Claim, lift_result in Hcl.
    destruct (list_find _ o) as [[i job]|] eqn:Hf; injection Hcl as <- <-; (split; [done|]).
    + apply list_find_Some in Hf as (_ & Hc & _). rewrite mem_claimable in Hc. split; [done|].
      unfold acts_as. rewrite mem_claim_of by done. left. split; [done|]. apply mem_sets_lease.
    + split_and!; [done|done|]. intros Hcomp job.
      destruct (decide (events_of s job = [])) as [He|He].
      * unfold claimable_state, open_job. cbn. by rewrite He.
      * apply list_find_None in Hf. eapply Forall_forall in Hf; [|by apply Hcomp].
        rewrite <- mem_claimable. by apply not_true_iff_false.
  - intros env job s Hw. unfold js_ListJobIDsWithExpiredClaim, mem_job_store, ListJobIDsWithExpiredClaim.
    cbn [jst_claim mem_view]. rewrite list_elem_of_fmap. split.
    + intros ([j c] & -> & Hin). apply list_elem_of_filter in Hin as [Ht Hin]. apply elem_of_map_to_list in Hin.
      exists c. split; [done|]. cbn in Ht. unfold t_before, t_equal, t_after in *.
      apply Z.ltb_ge. destruct Ht as [Ht|Ht]; [apply Z.ltb_lt in Ht; lia|apply Z.eqb_eq in Ht; lia].
    + intros (c & Hc & Ht). exists (job, c). split; [done|]. apply list_elem_of_filter. split; [|by apply elem_of_map_to_list].
      cbn. unfold t_before, t_equal, t_after in *. apply Z.ltb_ge in Ht. rewrite Z.ltb_lt, Z.eqb_eq. lia.
Defined.

(** The order Go's map gives is one that visits every job once. *)
Definition all_jobs (s : memoryStore) : list string := map fst (map_to_list (byJob s)).

Lemma all_jobs_complete s : complete (JobStoreSpec:=mem_job_store_spec) (all_jobs s) s.
Proof.
  intros job Hj. unfold events_of, get_default in Hj. unfold all_jobs.
  destruct (byJob s !! job) as [es|] eqn:He; [|done]. apply list_elem_of_fmap. exists (job, es).
  split; [done|]. by apply elem_of_map_to_list.
Qed.

(** ** Runs of operations on single jobs

    Two stores that know the same about every job are told apart by no
    sequence of such operations, as long as the disk takes every write. *)

Inductive job_op :=
| OpAppend (attemptID job : string) (expectedVersion : Z) (e : JobEvent)
| OpClaimJob (worker job : string)
| OpHeartbeat (worker job : string)
| OpListEvents (job : string)
| OpGetCurrentAttemptID (job : string).

Inductive op_result :=
| ResVersion (r : result store_error Z)
| ResClaim (r : result store_error (Z * string))
| ResHeartbeat (r : result store_error unit)
| ResEvents (r : list JobEvent * Z)
| ResAttempt (a : string).

Definition run_op {S} `{!JobStore S} (env : call_env) (op : job_op) (s : S) : outcome (S * op_result) :=
  match op with
  | OpAppend att job v e => run r <- js_Append env att job v e s ;; Ret (fst r, ResVersion (snd r))
  | OpClaimJob w job => run r <- js_ClaimJob env w job s ;; Ret (fst r, ResClaim (snd r))
  | OpHeartbeat w job => run r <- js_Heartbeat env w job s ;; Ret (fst r, ResHeartbeat (snd r))
  | OpListEvents job => run r <- js_ListEvents job s ;; Ret (s, ResEvents r)
  | OpGetCurrentAttemptID job => run a <- js_GetCurrentAttemptID env job s ;; Ret (s, ResAttempt a)
  end.

Fixpoint run_ops {S} `{!JobStore S} (ops : list (call_env * job_op)) (s : S) : outcome (S * list op_result) :=
  match ops with
  | [] => Ret (s, [])
  | (env, op) :: rest =>
      run r <- run_op env op s ;;
      run q <- run_ops rest (fst r) ;;
      Ret (fst q, snd r :: snd q)
  end.

Section agreement.
Context {S : Type} `{!JobStore S} {view : S -> string -> job_state} {wf : S -> Prop} `{!JobStoreSpec S view wf}.
Context {T : Type} `{!JobStore T} {view' : T -> string -> job_state} {wf' : T -> Prop} `{!JobStoreSpec T view' wf'}.

Definition agree (s : S) (t : T) : Prop := wf s /\ wf' t /\ forall job, view s job = view' t job.

Lemma acts_agree {A} env job f s s' t t' (r r' : result store_error A) :
  ce_io env = true -> (forall k, view s k = view' t k) ->
  acts_as view env job f s s' r -> acts_as view' env job f t t' r' -> r = r' /\ forall k, view s' k = view' t' k.
Proof.
  intros Hio Hv Hs Ht. unfold acts_as in *. rewrite Hv in Hs. destruct (f (view' t job)) as [[j a]|e].
  - destruct Hs as [[-> [Hs1 Hs2]]|[? _]]; [|congruence]. destruct Ht as [[-> [Ht1 Ht2]]|[? _]]; [|congruence].
    split; [done|]. intros k. destruct (decide (k = job)) as [->|Hk]; [congruence|]. rewrite Hs2, Ht2 by done. apply Hv.
  - destruct Hs as [-> Hs], Ht as [-> Ht]. split; [done|]. intros k. by rewrite Hs, Ht.
Qed.

Lemma run_op_agree env op s t :
  ce_io env = true -> agree s t ->
  exists s' t' r, run_op env op s = Ret (s', r) /\ run_op env op t = Ret (t', r) /\ agree s' t'.
Proof.
  intros Hio (Hs & Ht & Hv). destruct op as [att job v e|w job|w job|job|job]; cbn [run_op].
  - destruct (Append_view env att job v e s Hs) as (s' & r & -> & Hws & Ha).
    destruct (Append_view env att job v e t Ht) as (t' & r' & -> & Hwt & Ha').
    destruct (acts_agree env job _ s s' t t' r r' Hio Hv Ha Ha') as [-> Hv']. cbn. by exists s', t', (ResVersion r').
  - destruct (ClaimJob_view env w job s Hs) as (s' & r & -> & Hws & Ha).
    destruct (ClaimJob_view env w job t Ht) as (t' & r' & -> & Hwt & Ha').
    destruct (acts_agree env job _ s s' t t' r r' Hio Hv Ha Ha') as [-> Hv']. cbn. by exists s', t', (ResClaim r').
  - destruct (Heartbeat_view env w job s Hs) as (s' & r & -> & Hws & Ha).
    destruct (Heartbeat_view env w job t Ht) as (t' & r' & -> & Hwt & Ha').
    destruct (acts_agree env job _ s s' t t' r r' Hio Hv Ha Ha') as [-> Hv']. cbn. by exists s', t', (ResHeartbeat r').
  - rewrite (ListEvents_view job s Hs), (ListEvents_view job t Ht), Hv. cbn.
    do 3 eexists. split; [reflexivity|]. split; [reflexivity|]. done.
  - rewrite (GetCurrentAttemptID_view env job s Hs), (GetCurrentAttemptID_view env job t Ht), Hv. cbn.
    do 3 eexists. split; [reflexivity|]. split; [reflexivity|]. done.
Qed.

Lemma run_ops_agree ops s t :
  Forall (fun eo => ce_io (fst eo) = true) ops -> agree s t ->
  exists s' t' rs, run_ops ops s = Ret (s', rs) /\ run_ops ops t = Ret (t', rs) /\ agree s' t'.
Proof.
  intros Hio. revert s t. induction Hio as [|[env op] ops Hio _ IH]; intros s t Ha; cbn [run_ops]; [by exists s, t, []|].
  destruct (run_op_agree env op s t Hio Ha) as (s1 & t1 & r & -> & -> & Ha1). cbn [outcome_bind fst snd].
  destruct (IH s1 t1 Ha1) as (s2 & t2 & rs & -> & -> & Ha2). cbn. by exists s2, t2, (r :: rs).
Qed.
End agreement.
