(* ===== verification/ShardedStore.v ===== *)
(** The sharded event store of internal/runtime/jobstore/sharded_store.go: a
    job lives in the shard that a hash of its id selects, and Claim asks one
    shard after the other.  It is built from any [JobStore] and is one itself:
    what the shards promise, the whole promises. *)

From S2P Require Import Prelude Sha256 GoTime Json Events MemStore JobStore.

(** ** hash/fnv, New32a *)

Definition fnv_offset : Z := 2166136261.
Definition fnv_prime : Z := 16777619.

Fixpoint fnv_write (h : Z) (s : string) : Z :=
  match s with
  | EmptyString => h
  | String c r => fnv_write (Z.lxor h (byte c) * fnv_prime mod 2 ^ 32) r
  end.

Definition Sum32a (s : string) : Z := fnv_write fnv_offset s.

Example fnv_vectors : Sum32a "a" = 0xE40C292C /\ Sum32a "foobar" = 0xBF9CF968.
Proof. vm_compute. done. Qed.

(** [int(h.Sum32()) % s.count]: int has 64 bits, so the sum is not negative. *)
Definition shard_index (count : nat) (jobID : string) : nat := Z.to_nat (Z.rem (Sum32a jobID) (Z.of_nat count)).

Section sharded.
Context {S : Type} `{!JobStore S}.

Record ShardedStore := mkSharded { sh_shards : list S }.

Definition NewShardedStore (shards : list S) : ShardedStore := mkSharded shards.
Definition ShardCount (s : ShardedStore) : Z := Z.of_nat (length (sh_shards s)).

(** An operation of the shard of [jobID]. *)
Definition getShard (jobID : string) (s : ShardedStore) : outcome (nat * S) :=
  match sh_shards s with
  | [] => Panic "runtime error: integer divide by zero"
  | _ => match sh_shards s !! shard_index (length (sh_shards s)) jobID with
         | Some sh => Ret (shard_index (length (sh_shards s)) jobID, sh)
         | None => Panic "runtime error: index out of range"
         end
  end.

Definition on_shard {A} (jobID : string) (f : S -> outcome (S * A)) (s : ShardedStore) : outcome (ShardedStore * A) :=
  run p <- getShard jobID s ;;
  run r <- f (snd p) ;;
  Ret (mkSharded (<[fst p := fst r]> (sh_shards s)), snd r).

(** Watch and the snapshot operations go to the same shard; what they do there
    is the shard's [f]. *)
Definition sharded_call {A} (jobID : string) (f : S -> S * A) (s : ShardedStore) : outcome (ShardedStore * A) :=
  on_shard jobID (fun sh => Ret (f sh)) s.

(** [order i] is the order in which the i-th shard visits its jobs. *)
Fixpoint claim_shards (i : nat) (order : nat -> Ordering (S:=S)) (env : call_env) (w : string) (shards : list S)
  : list S * result store_error (string * Z * string) :=
  match shards with
  | [] => ([], Err (Known ErrNoJob))
  | sh :: rest =>
      match js_Claim (order i) env w sh with
      | (sh', Err (Known ErrNoJob)) =>
          let '(rest', r) := claim_shards (Datatypes.S i) order env w rest in (sh' :: rest', r)
      | (sh', r) => (sh' :: rest, r)
      end
  end.

Definition sharded_Claim (order : nat -> Ordering (S:=S)) (env : call_env) (w : string) (s : ShardedStore)
  : ShardedStore * result store_error (string * Z * string) :=
  let '(shards, r) := claim_shards 0 order env w (sh_shards s) in (mkSharded shards, r).

#[export] Instance sharded_job_store : JobStore ShardedStore := {
  Ordering := nat -> Ordering (S:=S);
  js_ListEvents job s := run p <- getShard job s ;; js_ListEvents job (snd p);
  js_Append env att job v e := on_shard job (js_Append env att job v e);
  js_Claim := sharded_Claim;
  js_ClaimJob env w job := on_shard job (js_ClaimJob env w job);
  js_Heartbeat env w job := on_shard job (js_Heartbeat env w job);
  js_GetCurrentAttemptID env job s := run p <- getShard job s ;; js_GetCurrentAttemptID env job (snd p);
  js_ListJobIDsWithExpiredClaim env s := concat (map (js_ListJobIDsWithExpiredClaim env) (sh_shards s));
}.
End sharded.
Arguments ShardedStore : clear implicits.

(** ** Routing *)

Lemma fnv_write_bounds h s : 0 <= h < 2 ^ 32 -> 0 <= fnv_write h s < 2 ^ 32.
Proof.
  revert h. induction s as [|c s IH]; intros h Hh; [done|]. cbn [fnv_write]. apply IH. by apply Z.mod_pos_bound.
Qed.

Lemma shard_index_lt count jobID : (0 < count)%nat -> (shard_index count jobID < count)%nat.
Proof.
  intros Hc. unfold shard_index, Sum32a. pose proof (fnv_write_bounds fnv_offset jobID) as Hb.
  pose proof (Z.rem_bound_pos (fnv_write fnv_offset jobID) (Z.of_nat count)). unfold fnv_offset in *. lia.
Qed.

Section spec.
Context {S : Type} `{!JobStore S} {view : S -> string -> job_state} {wf : S -> Prop} `{!JobStoreSpec S view wf}.
Implicit Types (s : ShardedStore S) (shards : list S).

Definition shard_of (job : string) shards : nat := shard_index (length shards) job.

Definition sharded_view s (job : string) : job_state :=
  match sh_shards s !! shard_of job (sh_shards s) with Some sh => view sh job | None => unknown_job end.

(** There are shards, and each knows about its own jobs only. *)
Definition routed shards : Prop :=
  forall i sh job, shards !! i = Some sh -> shard_of job shards <> i -> view sh job = unknown_job.

Definition sharded_wf s : Prop := sh_shards s <> [] /\ Forall wf (sh_shards s) /\ routed (sh_shards s).

Lemma shard_exists job shards : shards <> [] -> exists sh, shards !! shard_of job shards = Some sh.
Proof.
  intros Hs. apply lookup_lt_is_Some_2, shard_index_lt. destruct shards; [done|cbn; lia].
Qed.

Lemma getShard_ok job s : sh_shards s <> [] ->
  exists sh, getShard job s = Ret (shard_of job (sh_shards s), sh) /\ sh_shards s !! shard_of job (sh_shards s) = Some sh.
Proof.
  intros Hs. destruct (shard_exists job _ Hs) as [sh Hsh]. exists sh. split; [|done].
  unfold getShard. fold (shard_of job (sh_shards s)). rewrite Hsh. by destruct (sh_shards s).
Qed.

(** Replacing the shard of [job] by one that differs in [job] only. *)
Lemma replace_shard job s sh sh' :
  sharded_wf s -> sh_shards s !! shard_of job (sh_shards s) = Some sh -> wf sh' ->
  (forall k, k <> job -> view sh' k = view sh k) ->
  let s' := mkSharded (<[shard_of job (sh_shards s) := sh']> (sh_shards s)) in
  sharded_wf s' /\ sharded_view s' job = view sh' job /\ forall k, k <> job -> sharded_view s' k = sharded_view s k.
Proof.
  intros (Hne & Hwf & Hr) Hsh Hw' Hk s'.
  assert (length (sh_shards s') = length (sh_shards s)) as Hlen by apply length_insert.
  assert (shard_of job (sh_shards s) < length (sh_shards s))%nat as Hlt by (by eapply lookup_lt_Some).
  split_and!.
  - split_and!.
    + intros Hnil. rewrite Hnil in Hlen. by destruct (sh_shards s).
    + by apply Forall_insert.
    + intros i x k. unfold shard_of. rewrite Hlen. cbn.
      destruct (decide (i = shard_of job (sh_shards s))) as [->|Hi].
      * rewrite list_lookup_insert_eq by done. intros [= <-] Hx. rewrite Hk by (intros ->; done). by eapply Hr.
      * rewrite list_lookup_insert_ne by done. apply Hr.
  - unfold sharded_view, shard_of. rewrite Hlen. cbn. by rewrite list_lookup_insert_eq.
  - intros k Hkj. unfold sharded_view, shard_of. rewrite Hlen. cbn. fold (shard_of job (sh_shards s)) (shard_of k (sh_shards s)).
    destruct (decide (shard_of k (sh_shards s) = shard_of job (sh_shards s))) as [Heq|Hne'].
    + rewrite Heq, list_lookup_insert_eq, Hsh by done. by apply Hk.
    + by rewrite list_lookup_insert_ne.
Qed.

Lemma same_shard job s sh sh' :
  sharded_wf s -> sh_shards s !! shard_of job (sh_shards s) = Some sh -> wf sh' -> same_jobs view sh sh' ->
  let s' := mkSharded (<[shard_of job (sh_shards s) := sh']> (sh_shards s)) in
  sharded_wf s' /\ same_jobs sharded_view s s'.
Proof.
  intros Hs Hsh Hw' Hk. destruct (replace_shard job s sh sh' Hs Hsh Hw') as (Hw & Hj & Ho); [by intros|].
  split; [done|]. intros k. destruct (decide (k = job)) as [->|Hne]; [|by apply Ho].
  rewrite Hj, Hk. unfold sharded_view. by rewrite Hsh.
Qed.

Lemma on_shard_acts {A} env job (f : job_state -> result jobstore_error (job_state * A)) (g : S -> outcome (S * result store_error A)) s :
  sharded_wf s ->
  (forall sh, wf sh -> exists sh' r, g sh = Ret (sh', r) /\ wf sh' /\ acts_as view env job f sh sh' r) ->
  exists s' r, on_shard job g s = Ret (s', r) /\ sharded_wf s' /\ acts_as sharded_view env job f s s' r.
Proof.
  intros Hs Hg. pose proof Hs as (Hne & Hwf & _). destruct (getShard_ok job s Hne) as (sh & Hget & Hsh).
  destruct (Hg sh) as (sh' & r & Hgr & Hw' & Ha); [by eapply Forall_lookup_1|].
  unfold on_shard. rewrite Hget. cbn [outcome_bind fst snd]. rewrite Hgr. cbn [outcome_bind fst snd].
  do 2 eexists. split; [reflexivity|].
  assert (sharded_view s job = view sh job) as Hv by (unfold sharded_view; by rewrite Hsh).
  assert (forall j, sets_job view job j sh sh' ->
    sharded_wf (mkSharded (<[shard_of job (sh_shards s) := sh']> (sh_shards s))) /\
    sets_job sharded_view job j s (mkSharded (<[shard_of job (sh_shards s) := sh']> (sh_shards s)))) as Hset.
  { intros j [Hj Ho]. destruct (replace_shard job s sh sh' Hs Hsh Hw' Ho) as (Hw & Hsj & Hso).
    split; [done|]. split; [congruence|done]. }
  unfold acts_as in *. rewrite Hv. destruct (f (view sh job)) as [[j a]|e].
  - destruct Ha as [[-> Hj]|(Hio & -> & [Hj|Hj])].
    + destruct (Hset j Hj). split; [done|]. by left.
    + destruct (same_shard job s sh sh' Hs Hsh Hw' Hj). split; [done|]. right. split; [done|]. split; [done|]. by left.
    + destruct (Hset j Hj). split; [done|]. right. split; [done|]. split; [done|]. by right.
  - destruct Ha as [-> Hj]. by destruct (same_shard job s sh sh' Hs Hsh Hw' Hj).
Qed.

(** ** Claim *)

(** The first [k] shards had nothing, and the shard [k] decides. *)
Lemma claim_shards_split i order env w shards shards' r :
  Forall wf shards -> claim_shards i order env w shards = (shards', r) ->
  (r = Err (Known ErrNoJob) /\ Forall wf shards' /\ Forall2 (same_jobs view) shards shards' /\
   forall k sh, shards !! k = Some sh -> exists sh', js_Claim (order (i + k)%nat) env w sh = (sh', Err (Known ErrNoJob))) \/
  exists k sh sh', shards !! k = Some sh /\ js_Claim (order (i + k)%nat) env w sh = (sh', r) /\
    r <> Err (Known ErrNoJob) /\ shards' !! k = Some sh' /\ length shards' = length shards /\ Forall wf shards' /\
    forall k' x, k' <> k -> shards !! k' = Some x -> exists x', shards' !! k' = Some x' /\ same_jobs view x x'.
Proof.
  intros Hw. revert i shards' r. induction Hw as [|sh shards Hsh Hw IH]; intros i shards' r; cbn [claim_shards].
  { intros [= <- <-]. left. split_and!; [done|constructor|constructor|]. intros k sh. by rewrite lookup_nil. }
  destruct (js_Claim (order i) env w sh) as [sh1 r1] eqn:Hc.
  destruct (Claim_view (order i) env w sh sh1 r1 Hsh Hc) as [Hw1 Hr1].
  assert (r1 = Err (Known ErrNoJob) \/ r1 <> Err (Known ErrNoJob)) as [->|Hne]
    by (destruct r1 as [|[[]|]]; by (left + right)).
  - destruct (claim_shards (Datatypes.S i) order env w shards) as [rest r2] eqn:Hrest. intros [= <- <-].
    destruct Hr1 as (_ & Hsame & _).
    destruct (IH _ _ _ Hrest) as [(-> & Hw2 & Hf & Hall)|(k & x & x' & Hk & Hcx & Hne & Hk' & Hlen & Hw2 & Hoth)].
    + left. split_and!; [done|by constructor|by constructor|]. intros [|k] y; cbn.
      * intros [= <-]. rewrite Nat.add_0_r. eauto.
      * intros Hy. destruct (Hall k y Hy) as [y' Hy']. exists y'. by rewrite Nat.add_succ_r.
    + right. exists (Datatypes.S k), x, x'. rewrite Nat.add_succ_r. split_and!; try done; [cbn; congruence|by constructor|].
      intros [|k'] y Hk'k; cbn; [intros [= <-]; eauto|]. intros Hy. apply Hoth; [congruence|done].
  - intros Heq. right. exists 0%nat, sh, sh1. rewrite Nat.add_0_r.
    assert (shards' = sh1 :: shards /\ r = r1) as [-> ->].
    { destruct r1 as [[[? ?] ?]|[[]|]]; simplify_eq; done. }
    split_and!; [done..|by constructor|]. intros [|k'] y Hk'; [done|]. cbn. intros Hy. exists y. split; [done|]. by intros j.
Qed.

Definition sharded_complete (order : nat -> Ordering (S:=S)) s : Prop :=
  forall i sh, sh_shards s !! i = Some sh -> complete (order i) sh.

Lemma sharded_wf_same s shards' :
  sharded_wf s -> Forall wf shards' -> Forall2 (same_jobs view) (sh_shards s) shards' ->
  sharded_wf (mkSharded shards') /\ same_jobs sharded_view s (mkSharded shards').
Proof.
  intros (Hne & _ & Hr) Hw Hf. pose proof (Forall2_length _ _ _ Hf) as Hlen.
  assert (forall job, shard_of job shards' = shard_of job (sh_shards s)) as Hsh
    by (intros job; unfold shard_of; by rewrite Hlen).
  split; [split_and!|].
  - cbn. intros ->. by apply Forall2_nil_inv_r in Hf.
  - done.
  - intros i x job Hi. cbn. rewrite Hsh. intros Hj.
    destruct (Forall2_lookup_r _ _ _ _ _ Hf Hi) as (x0 & Hx0 & Hsame). rewrite Hsame. by eapply Hr.
  - intros k. unfold sharded_view. cbn. rewrite Hsh.
    destruct (sh_shards s !! shard_of k (sh_shards s)) as [x|] eqn:Hx.
    + destruct (Forall2_lookup_l _ _ _ _ _ Hf Hx) as (x' & -> & Hsame). apply Hsame.
    + apply lookup_ge_None in Hx. rewrite (proj2 (lookup_ge_None shards' _)); [done|]. by rewrite <- Hlen.
Qed.

Lemma routed_home s k sh job :
  sharded_wf s -> sh_shards s !! k = Some sh -> view sh job <> unknown_job -> shard_of job (sh_shards s) = k.
Proof.
  intros (_ & _ & Hr) Hk Hv. destruct (decide (shard_of job (sh_shards s) = k)) as [|Hne]; [done|].
  destruct Hv. by eapply Hr.
Qed.

(** A step of shard [k] that touches [job] only, the others kept. *)
Lemma sharded_step s shards' k sh sh' job :
  sharded_wf s -> Forall wf shards' -> length shards' = length (sh_shards s) ->
  sh_shards s !! k = Some sh -> shards' !! k = Some sh' ->
  (forall k' x, k' <> k -> sh_shards s !! k' = Some x -> exists x', shards' !! k' = Some x' /\ same_jobs view x x') ->
  (forall j, j <> job -> view sh' j = view sh j) -> shard_of job (sh_shards s) = k ->
  sharded_wf (mkSharded shards') /\ sharded_view (mkSharded shards') job = view sh' job /\
  forall j, j <> job -> sharded_view (mkSharded shards') j = sharded_view s j.
Proof.
  intros Hs Hw Hlen Hk Hk' Hoth Hj Hjob.
  assert (forall j, shard_of j shards' = shard_of j (sh_shards s)) as Hsh by (intros j; unfold shard_of; by rewrite Hlen).
  assert (forall j, j <> job -> sharded_view (mkSharded shards') j = sharded_view s j) as Hview.
  { intros j Hne. unfold sharded_view. cbn. rewrite Hsh.
    destruct (decide (shard_of j (sh_shards s) = k)) as [->|Hd]; [rewrite Hk, Hk'; auto|].
    destruct (sh_shards s !! shard_of j (sh_shards s)) as [x|] eqn:Hx.
    - destruct (Hoth _ _ Hd Hx) as (x' & -> & Hsame). apply Hsame.
    - apply lookup_ge_None in Hx. rewrite (proj2 (lookup_ge_None shards' _)); [done|]. by rewrite Hlen. }
  split; [|split; [|done]].
  - pose proof Hs as (Hne & _ & Hr). split_and!; [|done|].
    + cbn. intros ->. by destruct (sh_shards s).
    + intros i x j Hi. cbn in Hi |- *. rewrite Hsh. intros Hd. destruct (decide (i = k)) as [->|Hik].
      * rewrite Hk' in Hi. injection Hi as <-. rewrite Hj by congruence. by eapply Hr.
      * destruct (lookup_lt_is_Some_2 (sh_shards s) i) as [x0 Hx0].
        { rewrite <- Hlen. by eapply lookup_lt_Some. }
        destruct (Hoth i x0 Hik Hx0) as (x1 & Hx1 & Hsame). rewrite Hx1 in Hi. injection Hi as <-.
        rewrite Hsame. by eapply Hr.
  - unfold sharded_view. cbn. by rewrite Hsh, Hjob, Hk'.
Qed.

Lemma claimable_known env j : claimable_state env j = true -> j <> unknown_job.
Proof. by intros H ->. Qed.

Lemma sharded_claim_spec o env w s s' r :
  sharded_wf s -> sharded_Claim o env w s = (s', r) ->
  sharded_wf s' /\
  match r with
  | Ok (job, v, att) =>
      claimable_state env (sharded_view s job) = true /\
      acts_as sharded_view env job (job_claim env w) s s' (Ok (v, att))
  | Err (Known e) => e = ErrNoJob /\ same_jobs sharded_view s s' /\
      (sharded_complete o s -> forall job, claimable_state env (sharded_view s job) = false)
  | Err PersistError => ce_io env = false /\
      (same_jobs sharded_view s s' \/
       exists job j, claimable_state env (sharded_view s job) = true /\ sets_job sharded_view job j s s')
  end.
Proof.
  intros Hs. unfold sharded_Claim. destruct (claim_shards 0 o env w (sh_shards s)) as [shards' r0] eqn:Hc. intros [= <- <-].
  pose proof Hs as (Hne & Hwf & _).
  destruct (claim_shards_split _ _ _ _ _ _ _ Hwf Hc) as [(-> & Hw & Hf & Hall)|(k & sh & sh' & Hk & Hck & Hr & Hk' & Hlen & Hw & Hoth)].
  { destruct (sharded_wf_same s shards' Hs Hw Hf) as [Hs' Hsame]. split; [done|]. split_and!; [done|done|].
    intros Hcomp job. destruct (shard_exists job _ Hne) as [sh Hsh]. destruct (Hall _ _ Hsh) as [sh' Hsh'].
    destruct (Claim_view _ _ _ _ _ _ (Forall_lookup_1 _ _ _ _ Hwf Hsh) Hsh') as (_ & _ & _ & Hnone).
    unfold sharded_view. rewrite Hsh. apply Hnone. exact (Hcomp _ _ Hsh). }
  assert (wf sh) as Hwsh by exact (Forall_lookup_1 _ _ _ _ Hwf Hk).
  assert (forall job, claimable_state env (view sh job) = true -> shard_of job (sh_shards s) = k /\ sharded_view s job = view sh job) as Hhome.
  { intros job Hcl. assert (shard_of job (sh_shards s) = k) as Hjk by (eapply routed_home; [done|done|by apply claimable_known in Hcl]).
    split; [done|]. unfold sharded_view. by rewrite Hjk, Hk. }
  destruct (Claim_view _ _ _ _ _ _ Hwsh Hck) as [_ Hres].
  assert (forall job j, claimable_state env (view sh job) = true -> sets_job view job j sh sh' ->
    sharded_wf (mkSharded shards') /\ sets_job sharded_view job j s (mkSharded shards')) as Hset.
  { intros job j Hcl [Hj Ho]. destruct (Hhome job Hcl) as [Hjk _].
    destruct (sharded_step s shards' k sh sh' job Hs Hw Hlen Hk Hk' Hoth Ho Hjk) as (Hs' & Hj' & Ho').
    split; [done|]. split; [congruence|done]. }
  destruct r0 as [[[job v] att]|[e|]].
  - destruct Hres as [Hcl Ha]. destruct (Hhome job Hcl) as [_ Hv]. rewrite Hv. unfold acts_as in *. rewrite Hv.
    destruct (job_claim env w (view sh job)) as [[j a]|e]; [|by destruct Ha].
    destruct Ha as [[Ha Hj]|(_ & ? & _)]; [|done]. destruct (Hset job j Hcl Hj). auto.
  - destruct Hres as [-> _]. done.
  - destruct Hres as [Hio [Hsame|(job & j & Hcl & Hj)]].
    + assert (Forall2 (same_jobs view) (sh_shards s) shards') as Hf.
      { apply Forall2_same_length_lookup_2; [done|]. intros i x y Hx Hy. destruct (decide (i = k)) as [->|Hi].
        - congruence.
        - destruct (Hoth i x Hi Hx) as (x' & Hx' & Hxx). congruence. }
      destruct (sharded_wf_same s shards' Hs Hw Hf). auto.
    + destruct (Hset job j Hcl Hj). split; [done|]. split; [done|]. right. exists job, j. destruct (Hhome job Hcl) as [_ ->]. done.
Qed.

#[export] Instance sharded_job_store_spec : JobStoreSpec (ShardedStore S) sharded_view sharded_wf.
Proof.
  refine (@Build_JobStoreSpec (ShardedStore S) sharded_job_store sharded_view sharded_wf sharded_complete _ _ _ _ _ _ _).
  - intros job s Hs. destruct (getShard_ok job s (proj1 Hs)) as (sh & Hget & Hsh). cbn. rewrite Hget. cbn.
    unfold sharded_view. rewrite Hsh. apply ListEvents_view. destruct Hs as (_ & Hw & _). by eapply Forall_lookup_1.
  - intros env att job v e s Hs. apply on_shard_acts; [done|]. intros sh Hsh. by apply Append_view.
  - intros env w job s Hs. apply on_shard_acts; [done|]. intros sh Hsh. by apply ClaimJob_view.
  - intros env w job s Hs. apply on_shard_acts; [done|]. intros sh Hsh. by apply Heartbeat_view.
  - intros env job s Hs. destruct (getShard_ok job s (proj1 Hs)) as (sh & Hget & Hsh). cbn. rewrite Hget. cbn.
    unfold sharded_view. rewrite Hsh. apply GetCurrentAttemptID_view. destruct Hs as (_ & Hw & _). by eapply Forall_lookup_1.
  - apply sharded_claim_spec.
  - intros env job s Hs. pose proof Hs as (Hne & Hw & Hr). cbn.
    rewrite list_elem_of_In, in_concat. setoid_rewrite in_map_iff. setoid_rewrite <- list_elem_of_In.
    destruct (shard_exists job _ Hne) as [sh Hsh]. unfold sharded_view. rewrite Hsh.
    rewrite <- (ListExpired_view env job sh) by exact (Forall_lookup_1 _ _ _ _ Hw Hsh). split.
    + intros (l & (x & <- & Hx) & Hin). apply list_elem_of_lookup_1 in Hx as [i Hi].
      assert (shard_of job (sh_shards s) = i) as Hji.
      { eapply routed_home; [done|done|].
        apply (ListExpired_view env job x (Forall_lookup_1 _ _ _ _ Hw Hi)) in Hin as (c & Hc & _).
        intros Hu. by rewrite Hu in Hc. }
      congruence.
    + intros Hin. eexists. split; [|exact Hin]. exists sh. split; [done|]. by eapply list_elem_of_lookup_2.
Defined.
End spec.

(** ** Shards in memory *)

Definition sharded_mem (n : nat) : ShardedStore memoryStore := NewShardedStore (replicate n NewMemoryStore).

Lemma sharded_mem_wf n : (0 < n)%nat -> sharded_wf (view:=mem_view) (wf:=unwatched) (sharded_mem n).
Proof.
  intros Hn. split_and!.
  - destruct n; [lia|done].
  - by apply Forall_replicate.
  - intros i sh job Hi _. apply lookup_replicate_1 in Hi as [-> _]. done.
Qed.

Lemma sharded_mem_agree n : (0 < n)%nat ->
  agree (view:=sharded_view (view:=mem_view)) (wf:=sharded_wf (view:=mem_view) (wf:=unwatched))
    (view':=mem_view) (wf':=unwatched) (sharded_mem n) NewMemoryStore.
Proof.
  intros Hn. split; [by apply sharded_mem_wf|]. split; [done|]. intros job. unfold sharded_view.
  destruct (_ !! _) as [sh|] eqn:Hsh; [|done]. apply lookup_replicate_1 in Hsh as [-> _]. done.
Qed.

Definition sharded_Watch (job : string) : ShardedStore memoryStore -> outcome (ShardedStore memoryStore * nat) :=
  sharded_call job (Watch job).

(** C30: sharding cannot be observed: any sequence of appends, claims of a
    given job, heartbeats and reads gives the same results on any number of
    shards as on a single store, and none of them fails to find its shard. *)
Theorem sharding_is_invisible n ops :
  (0 < n)%nat -> Forall (fun eo => ce_io (fst eo) = true) ops ->
  exists s' t' rs, run_ops ops (sharded_mem n) = Ret (s', rs) /\ run_ops ops NewMemoryStore = Ret (t', rs).
Proof.
  intros Hn Hio. destruct (run_ops_agree ops _ _ Hio (sharded_mem_agree n Hn)) as (s' & t' & rs & Hs & Ht & _). eauto.
Qed.

(** A claim over the shards comes back empty exactly when no job of any
    shard can be claimed, provided that every shard's own search is complete. *)
Theorem sharded_claim_finds_work n ops s rs order env w :
  (0 < n)%nat -> Forall (fun eo => ce_io (fst eo) = true) ops -> run_ops ops (sharded_mem n) = Ret (s, rs) ->
  sharded_complete order s -> ce_io env = true ->
  snd (sharded_Claim order env w s) = Err (Known ErrNoJob) <->
  forall job, claimable_state env (sharded_view (view:=mem_view) s job) = false.
Proof.
  intros Hn Hio Hrun Hcomp Henv.
  destruct (run_ops_agree ops _ _ Hio (sharded_mem_agree n Hn)) as (s1 & t1 & rs1 & Hs & _ & (Hwf & _)).
  rewrite Hs in Hrun. injection Hrun as -> ->.
  destruct (sharded_Claim order env w s) as [s2 r] eqn:Hc. cbn [snd].
  destruct (sharded_claim_spec order env w s s2 r Hwf Hc) as [_ Hr]. split.
  - intros ->. by apply Hr.
  - intros Hnone. destruct r as [[[job v] att]|[e|]].
    + destruct Hr as [Hcl _]. by rewrite Hnone in Hcl.
    + by destruct Hr as [-> _].
    + destruct Hr as [Hf _]. congruence.
Qed.

Definition at_0 : call_env := mkEnv (Time 0 0) "u" true.
Definition created (job : string) : call_env * job_op :=
  (at_0, OpAppend "" job 0 (mkJobEvent "" "" JobCreated "{}" zero_time "" "")).

Definition two_jobs : list (call_env * job_op) :=
  [created "job-aaa"; created "job-ddd"; (at_0, OpClaimJob "w1" "job-aaa"); (at_0, OpClaimJob "w2" "job-aaa");
   (at_0, OpHeartbeat "w1" "job-aaa"); (at_0, OpGetCurrentAttemptID "job-aaa")].

Lemma sharding_is_invisible_witness : exists s' t' rs,
  run_ops two_jobs (sharded_mem 3) = Ret (s', rs) /\ run_ops two_jobs NewMemoryStore = Ret (t', rs).
Proof. apply sharding_is_invisible; [lia|]. by repeat constructor. Defined.

Definition sharded_after : ShardedStore memoryStore :=
  match run_ops two_jobs (sharded_mem 3) with Ret (s, _) => s | Panic _ => sharded_mem 0 end.

(** Each shard visits its jobs in the order of its map. *)
Definition map_orders (s : ShardedStore memoryStore) (i : nat) : list string :=
  match sh_shards s !! i with Some sh => all_jobs sh | None => [] end.

Lemma map_orders_complete s : sharded_complete (view:=mem_view) (wf:=unwatched) (map_orders s) s.
Proof. intros i sh Hi. unfold map_orders. rewrite Hi. apply all_jobs_complete. Qed.

Lemma sharded_claim_finds_work_witness :
  shard_index 3 "job-aaa" <> shard_index 3 "job-ddd" /\
  snd (sharded_Claim (map_orders sharded_after) at_0 "w3" sharded_after) <> Err (Known ErrNoJob).
Proof.
  split; [vm_compute; done|]. intros Hno.
  assert (exists rs, run_ops two_jobs (sharded_mem 3) = Ret (sharded_after, rs)) as [rs Hrun].
  { eexists. vm_compute. reflexivity. }
  pose proof (proj1 (sharded_claim_finds_work 3 two_jobs sharded_after rs (map_orders sharded_after) at_0 "w3"
    ltac:(lia) ltac:(by repeat constructor) Hrun (map_orders_complete _) eq_refl) Hno "job-ddd") as Hnone.
  vm_compute in Hnone. done.
Defined.
