(* ===== verification/EmbeddedStore.v ===== *)
(** The embedded event store of internal/runtime/jobstore/embedded_store.go:
    the in-memory store with every change written to a JSON file
    (internal/storage/embedded), and snapshots.

    The file is its decoded contents: a time comes back as what its RFC 3339
    text says, texts come back as they are (they are UTF-8), payloads and
    snapshots are base64.  SaveJSON renames a finished file over the old one,
    so a write that fails or is cut off leaves the old contents. *)

From S2P Require Import Prelude Sha256 GoTime Json TimeParse Events MemStore JobStore.

Record embeddedState := mkState {
  es_ByJob : gmap string (list JobEvent);
  es_Claims : gmap string claimRecord;
  es_Snapshots : gmap string (list JobSnapshot);
}.

Record embeddedStore := mkEmbedded {
  eb_mem : memoryStore;
  eb_snapshots : gmap string (list JobSnapshot);
  eb_disk : option embeddedState;
}.

(** ** The file *)

Definition json_time (t : time) : time := default t (parseRFC3339 (format_rfc3339nano t)).

Definition json_event (e : JobEvent) : JobEvent :=
  mkJobEvent (ev_ID e) (ev_JobID e) (ev_Type e) (ev_Payload e) (json_time (ev_CreatedAt e)) (ev_PrevHash e) (ev_Hash e).

Definition json_claim (c : claimRecord) : claimRecord :=
  mkClaim (cl_WorkerID c) (json_time (cl_ExpiresAt c)) (cl_AttemptID c).

Definition json_snapshot (s : JobSnapshot) : JobSnapshot :=
  mkSnapshot (sn_JobID s) (sn_Version s) (sn_Snapshot s) (json_time (sn_CreatedAt s)).

Definition image (s : embeddedStore) : embeddedState :=
  mkState (map json_event <$> byJob (eb_mem s)) (json_claim <$> claims (eb_mem s)) (map json_snapshot <$> eb_snapshots s).

Definition persist (io : bool) (s : embeddedStore) : embeddedStore * bool :=
  if io then (mkEmbedded (eb_mem s) (eb_snapshots s) (Some (image s)), true) else (s, false).

(** load: a map that is missing from the file is left as it was made. *)
Definition NewEmbeddedStore (disk : option embeddedState) : embeddedStore :=
  match disk with
  | Some st => mkEmbedded (mkStore (es_ByJob st) (es_Claims st) ∅ ∅ 0) (es_Snapshots st) disk
  | None => mkEmbedded NewMemoryStore ∅ None
  end.

(** ** Operations *)

Definition with_mem (m : memoryStore) (s : embeddedStore) : embeddedStore := mkEmbedded m (eb_snapshots s) (eb_disk s).

(** Write the file after an operation that succeeded, and report when that
    fails; the memory keeps the change. *)
Definition persisted {A} (env : call_env) (s : embeddedStore) (p : memoryStore * result store_error A)
  : embeddedStore * result store_error A :=
  match p with
  | (m, Err e) => (with_mem m s, Err e)
  | (m, Ok a) => let '(s', ok) := persist (ce_io env) (with_mem m s) in (s', if ok then Ok a else Err PersistError)
  end.

#[export] Instance embedded_job_store : JobStore embeddedStore := {
  Ordering := list string;
  js_ListEvents job s := js_ListEvents job (eb_mem s);
  js_Append env att job v e s := run p <- js_Append env att job v e (eb_mem s) ;; Ret (persisted env s p);
  js_Claim order env w s := persisted env s (js_Claim (S:=memoryStore) order env w (eb_mem s));
  js_ClaimJob env w job s := run p <- js_ClaimJob env w job (eb_mem s) ;; Ret (persisted env s p);
  js_Heartbeat env w job s := run p <- js_Heartbeat env w job (eb_mem s) ;; Ret (persisted env s p);
  js_GetCurrentAttemptID env job s := js_GetCurrentAttemptID env job (eb_mem s);
  js_ListJobIDsWithExpiredClaim env s := js_ListJobIDsWithExpiredClaim env (eb_mem s);
}.

(** Watch is the in-memory store's. *)
Definition embedded_Watch (job : string) (s : embeddedStore) : embeddedStore * nat :=
  let '(m, c) := Watch job (eb_mem s) in (with_mem m s, c).

Definition snapshots_of (s : embeddedStore) (job : string) : list JobSnapshot := get_default [] (eb_snapshots s) job.

Definition embedded_CreateSnapshot (env : call_env) (job : string) (upToVersion : Z) (snapshot : string) (s : embeddedStore)
  : embeddedStore * bool :=
  persist (ce_io env) (mkEmbedded (eb_mem s)
    (<[job := snapshots_of s job ++ [mkSnapshot job upToVersion snapshot zero_time]]> (eb_snapshots s)) (eb_disk s)).

Definition embedded_GetLatestSnapshot (job : string) (s : embeddedStore) : option JobSnapshot := last (snapshots_of s job).

Definition embedded_DeleteSnapshotsBefore (env : call_env) (job : string) (beforeVersion : Z) (s : embeddedStore)
  : embeddedStore * bool :=
  match snapshots_of s job with
  | [] => (s, true)
  | arr => persist (ce_io env) (mkEmbedded (eb_mem s)
             (<[job := filter (fun sn => (beforeVersion <=? sn_Version sn) = true) arr]> (eb_snapshots s)) (eb_disk s))
  end.

(** ** It is a job store *)

Definition embedded_view (s : embeddedStore) : string -> job_state := mem_view (eb_mem s).
Definition embedded_wf (s : embeddedStore) : Prop := unwatched (eb_mem s).

Lemma persisted_mem {A} env s (p : memoryStore * result store_error A) :
  eb_mem (fst (persisted env s p)) = fst p.
Proof. destruct p as [m [a|e]]; [|done]. cbn. by destruct (ce_io env). Qed.

Lemma persisted_acts {A} env job f s (p : memoryStore * result store_error A) :
  acts_as mem_view env job f (eb_mem s) (fst p) (snd p) -> snd p <> Err PersistError ->
  acts_as embedded_view env job f s (fst (persisted env s p)) (snd (persisted env s p)).
Proof.
  intros Ha Hne. destruct p as [m r]. cbn [fst snd] in *. unfold acts_as, embedded_view in *.
  assert (forall r', eb_mem (fst (persisted env s (m, r'))) = m) as Hmem by (intros; apply (@persisted_mem A)).
  destruct (f (mem_view (eb_mem s) job)) as [[j a]|e].
  - destruct Ha as [[-> Hj]|(_ & -> & _)]; [|done].
    assert (sets_job (fun s => mem_view (eb_mem s)) job j s (fst (persisted env s (m, Ok a)))) as Hset
      by (unfold sets_job; rewrite !Hmem; exact Hj).
    cbn [persisted] in *. unfold persist in *. destruct (ce_io env); cbn [snd] in *; [by left|].
    right. split; [done|]. split; [done|]. by right.
  - destruct Ha as [-> Hj]. done.
Qed.

(** The in-memory store does not look at the disk. *)
Definition disk_ok (env : call_env) : call_env := mkEnv (ce_now env) (ce_uuid env) true.

Lemma acts_disk_ok {A} env job f s s' (r : result store_error A) :
  acts_as mem_view (disk_ok env) job f s s' r -> acts_as mem_view env job f s s' r /\ r <> Err PersistError.
Proof.
  unfold acts_as. destruct (f _) as [[j a]|e].
  - intros [[-> Hj]|[? _]]; [|done]. split; [by left|done].
  - intros [-> Hj]. done.
Qed.

Lemma embedded_op {A} env job f s (g : memoryStore -> outcome (memoryStore * result store_error A)) :
  (exists m r, g (eb_mem s) = Ret (m, r) /\ unwatched m /\ acts_as mem_view (disk_ok env) job f (eb_mem s) m r) ->
  exists s' r, (run p <- g (eb_mem s) ;; Ret (persisted env s p)) = Ret (s', r) /\ embedded_wf s' /\
  acts_as embedded_view env job f s s' r.
Proof.
  intros (m & r & Hg & Hm & Ha). rewrite Hg. cbn [outcome_bind].
  apply acts_disk_ok in Ha as [Ha Hne].
  exists (fst (persisted env s (m, r))), (snd (persisted env s (m, r))). split; [by destruct (persisted _ _ _)|].
  split; [unfold embedded_wf; by rewrite persisted_mem|]. by apply persisted_acts.
Qed.

#[export] Instance embedded_job_store_spec : JobStoreSpec embeddedStore embedded_view embedded_wf.
Proof.
  refine (@Build_JobStoreSpec embeddedStore embedded_job_store embedded_view embedded_wf
    (fun o s => complete (JobStoreSpec:=mem_job_store_spec) o (eb_mem s)) _ _ _ _ _ _ _).
  - intros job s Hs. by apply (ListEvents_view (JobStoreSpec:=mem_job_store_spec)).
  - intros env att job v e s Hs. apply embedded_op. exact (Append_view (S:=memoryStore) (disk_ok env) att job v e (eb_mem s) Hs).
  - intros env w job s Hs. apply embedded_op. exact (ClaimJob_view (S:=memoryStore) (disk_ok env) w job (eb_mem s) Hs).
  - intros env w job s Hs. apply embedded_op. exact (Heartbeat_view (S:=memoryStore) (disk_ok env) w job (eb_mem s) Hs).
  - intros env job s Hs. by apply (GetCurrentAttemptID_view env job (eb_mem s)).
  - intros o env w s s' r Hs Hc. cbn in o. cbn [js_Claim embedded_job_store] in Hc.
    destruct (@js_Claim memoryStore mem_job_store o env w (eb_mem s)) as [m r0] eqn:Hm.
    destruct (@Claim_view _ _ _ _ mem_job_store_spec o (disk_ok env) w (eb_mem s) m r0 Hs Hm) as [Hw Hr].
    pose proof (persisted_mem env s (m, r0)) as Hmem. rewrite Hc in Hmem. cbn [fst] in Hmem.
    split; [unfold embedded_wf; by rewrite Hmem|]. unfold same_jobs, sets_job, embedded_view. rewrite Hmem.
    destruct r0 as [[[job v] att]|[e|]]; cbn in Hc.
    + destruct Hr as [Hcl Ha]. apply acts_disk_ok in Ha as [Ha _].
      assert (acts_as embedded_view env job (job_claim env w) s s' (Ok (v, att))) as Ha'.
      { unfold acts_as, same_jobs, sets_job, embedded_view in *. by rewrite Hmem. }
      destruct (ce_io env) eqn:Hio; injection Hc as <- <-; [done|]. split; [done|]. right. exists job.
      unfold acts_as in Ha. change (job_claim env w) with (job_claim (disk_ok env) w) in Ha.
      destruct (job_claim (disk_ok env) w (mem_view (eb_mem s) job)) as [[j a]|e].
      * destruct Ha as [[_ Hj]|(_ & ? & _)]; [|done]. exists j. done.
      * by destruct Ha.
    + injection Hc as <- <-. exact Hr.
    + by destruct Hr.
  - intros env job s Hs. by apply (ListExpired_view env job (eb_mem s)).
Defined.

(** ** Restarts *)

(** Times that their RFC 3339 text determines. *)
Definition plain_time (t : time) : bool := marshalable t && whole_minutes t.

Definition job_times_ok (j : job_state) : Prop :=
  Forall (fun e => plain_time (ev_CreatedAt e) = true) (jst_events j) /\
  match jst_claim j with Some c => plain_time (cl_ExpiresAt c) = true | None => True end.

Definition env_times_ok (env : call_env) : Prop :=
  plain_time (ce_now env) = true /\ plain_time (t_add (ce_now env) leaseDuration) = true.

Definition op_times_ok (op : job_op) : Prop :=
  match op with
  | OpAppend _ _ _ e => is_zero (ev_CreatedAt e) = true \/ plain_time (ev_CreatedAt e) = true
  | _ => True
  end.

Definition reopen (s : embeddedStore) : embeddedStore := NewEmbeddedStore (eb_disk s).

(** What the file holds is what the store knows. *)
Definition restartable (s : embeddedStore) : Prop :=
  embedded_wf s /\ (forall job, job_times_ok (embedded_view s job)) /\
  forall job, embedded_view (reopen s) job = embedded_view s job.

Lemma json_time_plain t : plain_time t = true -> json_time t = t.
Proof.
  unfold plain_time, json_time. intros [Hm Hz]%andb_true_iff. by rewrite parse_format.
Qed.

Lemma image_view s job :
  job_times_ok (embedded_view s job) -> embedded_view (NewEmbeddedStore (Some (image s))) job = embedded_view s job.
Proof.
  unfold job_times_ok, embedded_view, mem_view, events_of, get_default. cbn. rewrite !lookup_fmap. intros [He Hc]. f_equal.
  - destruct (byJob (eb_mem s) !! job) as [es|]; [|done]. cbn in *.
    induction He as [|e es He Hes IH]; [done|]. cbn. rewrite IH. unfold json_event. rewrite json_time_plain by done. by destruct e.
  - destruct (claims (eb_mem s) !! job) as [c|]; [|done]. cbn in *. unfold json_claim. rewrite json_time_plain by done. by destruct c.
Qed.

Lemma job_append_times env att job v e j j' n :
  env_times_ok env -> op_times_ok (OpAppend att job v e) -> job_times_ok j ->
  job_append env att job v e j = Ok (j', n) -> job_times_ok j'.
Proof.
  intros [Hn _] He [Hj Hc] Ha. unfold job_append in Ha. destruct (String.eqb job EmptyString); [done|].
  destruct (negb _ && negb _); [done|]. destruct (negb _); [done|]. injection Ha as <- _.
  split; [|done]. apply Forall_app_2; [done|]. apply Forall_singleton. cbn.
  destruct (is_zero (ev_CreatedAt e)) eqn:Hz; [done|]. cbn in He. rewrite Hz in He. by destruct He.
Qed.

Lemma job_claim_times env w j j' a :
  env_times_ok env -> job_times_ok j -> job_claim env w j = Ok (j', a) -> job_times_ok j'.
Proof.
  intros [_ Hn] [Hj Hc]. unfold job_claim. destruct (negb _); [done|]. destruct (claim_live _ _); [done|].
  by intros [= <- _].
Qed.

Lemma job_heartbeat_times env w j j' a :
  env_times_ok env -> job_times_ok j -> job_heartbeat env w j = Ok (j', a) -> job_times_ok j'.
Proof.
  intros [_ Hn] [Hj Hc]. unfold job_heartbeat. destruct (jst_claim j); [|done]. destruct (_ && _); [|done].
  by intros [= <- _].
Qed.

(** An operation whose write succeeds keeps the file up to date. *)
Lemma restartable_op {A} env job f s (g : memoryStore -> outcome (memoryStore * result store_error A)) s' r :
  ce_io env = true -> restartable s ->
  (exists m r, g (eb_mem s) = Ret (m, r) /\ unwatched m /\ acts_as mem_view (disk_ok env) job f (eb_mem s) m r) ->
  (forall j a, f (embedded_view s job) = Ok (j, a) -> job_times_ok j) ->
  (run p <- g (eb_mem s) ;; Ret (persisted env s p)) = Ret (s', r) -> restartable s'.
Proof.
  intros Hio (Hw & Ht & Hd) (m & r0 & Hg & Hm & Ha) Hf. rewrite Hg. cbn [outcome_bind]. intros [= Hp].
  assert (forall k, job_times_ok (mem_view m k)) as Htm.
  { intros k. unfold acts_as in Ha. destruct (f (mem_view (eb_mem s) job)) as [[j a]|e] eqn:Hfj.
    - destruct Ha as [[_ [Hj Ho]]|[? _]]; [|done]. destruct (decide (k = job)) as [->|Hk].
      + rewrite Hj. by eapply Hf.
      + rewrite Ho by done. apply Ht.
    - destruct Ha as [_ Hs]. rewrite Hs. apply Ht. }
  destruct r0 as [a|e]; cbn in Hp.
  - rewrite Hio in Hp. cbn in Hp. injection Hp as <- <-. split_and!; [done|done|].
    intros k. unfold reopen. cbn [eb_disk]. change (embedded_view (NewEmbeddedStore (Some (image (with_mem m s)))) k = embedded_view (with_mem m s) k).
    apply image_view. apply Htm.
  - injection Hp as <- <-. split_and!; [done|done|]. intros k. unfold reopen, with_mem. cbn [eb_disk].
    change (embedded_view (reopen s) k = mem_view m k). rewrite Hd. unfold acts_as in Ha.
    destruct (f (mem_view (eb_mem s) job)) as [[j a]|e']; [by destruct Ha as [[? _]|[? _]]|].
    destruct Ha as [_ Hs]. by rewrite Hs.
Qed.

Lemma restartable_run_op env op s s' r :
  ce_io env = true -> env_times_ok env -> op_times_ok op -> restartable s ->
  run_op env op s = Ret (s', r) -> restartable s'.
Proof.
  intros Hio He Hop Hs. pose proof Hs as (Hw & Ht & _).
  destruct op as [att job v e|w job|w job|job|job]; cbn [run_op]; intros [p [Hr Hq]]%outcome_bind_ret.
  - injection Hq as <- _. destruct p as [s1 r1]. eapply (restartable_op env job); [done|done| | |exact Hr].
    + exact (Append_view (S:=memoryStore) (disk_ok env) att job v e (eb_mem s) Hw).
    + intros j a. by apply job_append_times.
  - injection Hq as <- _. destruct p as [s1 r1]. eapply (restartable_op env job); [done|done| | |exact Hr].
    + exact (ClaimJob_view (S:=memoryStore) (disk_ok env) w job (eb_mem s) Hw).
    + intros j a. by apply job_claim_times.
  - injection Hq as <- _. destruct p as [s1 r1]. eapply (restartable_op env job); [done|done| | |exact Hr].
    + exact (Heartbeat_view (S:=memoryStore) (disk_ok env) w job (eb_mem s) Hw).
    + intros j a. by apply job_heartbeat_times.
  - by injection Hq as <- _.
  - by injection Hq as <- _.
Qed.

Definition step_ok (eo : call_env * job_op) : Prop := ce_io (fst eo) = true /\ env_times_ok (fst eo) /\ op_times_ok (snd eo).

Lemma restartable_run ops s s' rs :
  Forall step_ok ops -> restartable s -> run_ops ops s = Ret (s', rs) -> restartable s'.
Proof.
  intros Ho. revert s s' rs. induction Ho as [|[env op] ops (Hio & He & Hop) _ IH]; intros s s' rs Hs; cbn [run_ops].
  - by intros [= <- _].
  - intros [[s1 r] [Hr Hq]]%outcome_bind_ret. apply outcome_bind_ret in Hq as [[s2 q] [Hq Heq]]. injection Heq as <- _.
    eapply IH; [|exact Hq]. by eapply restartable_run_op.
Qed.

Lemma restartable_new : restartable (NewEmbeddedStore None).
Proof. split_and!; [done| |done]. intros job. split; [constructor|done]. Qed.

Lemma reopen_wf s : embedded_wf (reopen s).
Proof. unfold reopen. by destruct (eb_disk s). Qed.

(** Restarting the embedded store between any two operations cannot be
    observed, as long as every write to the file succeeds: the process that
    reads the file goes on with the same results as the one that wrote it. *)
Theorem restart_is_invisible before after s rs :
  Forall step_ok before -> Forall step_ok after -> run_ops before (NewEmbeddedStore None) = Ret (s, rs) ->
  exists s1 s2 rs', run_ops after s = Ret (s1, rs') /\ run_ops after (reopen s) = Ret (s2, rs').
Proof.
  intros Hb Ha Hrun. pose proof (restartable_run before _ _ _ Hb restartable_new Hrun) as (Hw & _ & Hv).
  assert (Forall (fun eo => ce_io (fst eo) = true) after) as Hio by (eapply Forall_impl; [exact Ha|]; by intros ? [? _]).
  assert (agree (view:=embedded_view) (wf:=embedded_wf) (view':=embedded_view) (wf':=embedded_wf) s (reopen s)) as Hag.
  { split; [done|]. split; [apply reopen_wf|]. intros job. by rewrite Hv. }
  destruct (run_ops_agree after s (reopen s) Hio Hag) as (s1 & s2 & rs' & H1 & H2 & _). eauto.
Qed.

Definition noon : call_env := mkEnv (Time 1700000000000000000 3600) "u" true.
Definition noon_disk_full : call_env := mkEnv (Time 1700000000000000000 3600) "u" false.
Definition blank_event (t : EventType) : JobEvent := mkJobEvent "" "" t "{}" zero_time "" "".

Lemma restart_is_invisible_witness :
  let before := [(noon, OpAppend "" "j" 0 (blank_event JobCreated)); (noon, OpClaimJob "w" "j")] in
  let after := [(noon, OpAppend "attempt-u" "j" 1 (blank_event JobRunning)); (noon, OpListEvents "j")] in
  exists s rs, run_ops before (NewEmbeddedStore None) = Ret (s, rs) /\
    exists s1 s2 rs', run_ops after s = Ret (s1, rs') /\ run_ops after (reopen s) = Ret (s2, rs').
Proof.
  intros before after. do 2 eexists. split; [reflexivity|].
  eapply (restart_is_invisible before after); [| |reflexivity].
  - repeat first [apply Forall_cons; split | apply Forall_nil; done]; repeat split; vm_compute; auto.
  - repeat first [apply Forall_cons; split | apply Forall_nil; done]; repeat split; vm_compute; auto.
Defined.

(** ** Where it stops short: a write that fails

    The event stays in memory while the caller is told that it was not
    appended; a second try is refused, and the next write makes it durable. *)
Lemma failed_write_keeps_event :
  match run_ops [(noon_disk_full, OpAppend "" "j" 0 (blank_event JobCreated));
                 (noon, OpAppend "" "j" 0 (blank_event JobCreated));
                 (noon, OpClaimJob "w" "j")] (NewEmbeddedStore None) with
  | Ret (s, rs) =>
      take 2 rs = [ResVersion (Err PersistError); ResVersion (Err (Known ErrVersionMismatch))] /\
      length (jst_events (embedded_view (reopen s) "j")) = 1%nat
  | Panic _ => False
  end.
Proof. vm_compute. done. Qed.

(** ** Snapshots *)

(** The latest snapshot is the one created last, whatever its version. *)
Lemma latest_snapshot_is_last env job v snap s :
  embedded_GetLatestSnapshot job (fst (embedded_CreateSnapshot env job v snap s)) = Some (mkSnapshot job v snap zero_time).
Proof.
  unfold embedded_CreateSnapshot, persist, embedded_GetLatestSnapshot, snapshots_of.
  destruct (ce_io env); cbn; rewrite get_default_insert, decide_True by done; by rewrite last_snoc.
Qed.

Lemma older_snapshot_wins :
  let s1 := fst (embedded_CreateSnapshot noon "j" 9 "nine" (NewEmbeddedStore None)) in
  let s2 := fst (embedded_CreateSnapshot noon "j" 4 "four" s1) in
  sn_Version <$> embedded_GetLatestSnapshot "j" s2 = Some 4.
Proof. vm_compute. done. Qed.

(** A compaction drops exactly the snapshots before its version. *)
Lemma deleted_snapshots env job v s sn :
  sn ∈ snapshots_of (fst (embedded_DeleteSnapshotsBefore env job v s)) job <->
  sn ∈ snapshots_of s job /\ v <= sn_Version sn.
Proof.
  unfold embedded_DeleteSnapshotsBefore. destruct (snapshots_of s job) as [|x xs] eqn:Hs.
  - cbn [fst]. rewrite Hs. split; [by intros ?%elem_of_nil|by intros [?%elem_of_nil _]].
  - unfold persist. destruct (ce_io env); cbn [fst]; unfold snapshots_of at 1; cbn [eb_snapshots];
      rewrite get_default_insert, decide_True by done; rewrite list_elem_of_filter, Z.leb_le; tauto.
Qed.
