(* ===== verification/JsonPrint.v ===== *)
(** The text [json.Marshal] prints for a decoded value is decoded again to
    that value, with the members of every object in key order.  Values taken
    from request bodies are stored in event payloads this way.

    Second half: what is printed holds no markup. *)

From S2P Require Import Prelude Sha256 GoTime Json JsonFacts GoFloat.

#[local] Set Warnings "-register-all".

(** A value of [any]: its strings are UTF-8 and its numbers are literals. *)
Inductive json_ok : json -> Prop :=
| ok_null : json_ok JNull
| ok_bool b : json_ok (JBool b)
| ok_num lit : scans lit (JNum lit) -> json_ok (JNum lit)
| ok_str s : utf8_valid s = true -> json_ok (JStr s)
| ok_arr l : Forall json_ok l -> json_ok (JArr l)
| ok_obj l : Forall (fun kv => utf8_valid (fst kv) = true /\ json_ok (snd kv)) l -> json_ok (JObj l).

Fixpoint json_size (v : json) : nat :=
  match v with
  | JArr l => S (sum_list (map json_size l))
  | JObj l => S (sum_list (map (fun '(_, x) => json_size x) l))
  | _ => 1
  end.

(** ** Printing a map sorts its keys and leaves the values alone *)

Lemma insert_field_fmap {A B} (f : A -> B) k v l :
  insert_field k (f v) (prod_map id f <$> l) = prod_map id f <$> insert_field k v l.
Proof.
  induction l as [|[k' v'] l IH]; [done|]. cbn.
  destruct (String.ltb k k'); [done|]. destruct (String.eqb k k'); [done|]. cbn. f_equal. apply IH.
Qed.

Lemma sort_fields_snoc {A} (l : list (string * A)) k v :
  sort_fields (l ++ [(k, v)]) = insert_field k v (sort_fields l).
Proof. unfold sort_fields. by rewrite foldl_app. Qed.

Lemma sort_fields_fmap {A B} (f : A -> B) l :
  sort_fields (prod_map id f <$> l) = prod_map id f <$> sort_fields l.
Proof.
  induction l as [|[k v] l IH] using rev_ind; [done|].
  rewrite fmap_app. cbn. by rewrite !sort_fields_snoc, IH, insert_field_fmap.
Qed.

Lemma Forall_insert_field {A} (P : string * A -> Prop) k v l :
  P (k, v) -> Forall P l -> Forall P (insert_field k v l).
Proof.
  intros Hkv. induction 1 as [|[k' v'] l Hx Hl IH]; [by constructor|]. cbn.
  destruct (String.ltb k k'); [by repeat constructor|].
  destruct (String.eqb k k'); by constructor.
Qed.

Lemma Forall_sort_fields {A} (P : string * A -> Prop) l : Forall P l -> Forall P (sort_fields l).
Proof.
  induction l as [|[k v] l IH] using rev_ind; [done|]. rewrite Forall_app, Forall_singleton.
  intros [Hl Hx]. rewrite sort_fields_snoc. auto using Forall_insert_field.
Qed.

(** ** Arrays *)

Definition elems_text (vs : list (string * json)) : string := join "," (map fst vs).

Lemma elems_text_cons x y vs : elems_text (x :: y :: vs) = fst x +:+ String "," (elems_text (y :: vs)).
Proof. done. Qed.

Lemma scan_elems_join vs f rest :
  vs <> [] -> Forall (fun p => scans (fst p) (snd p)) vs -> (2 * String.length (elems_text vs) + 3 <= f)%nat ->
  scan_elems f (elems_text vs +:+ String "]" rest) = Some (map snd vs, rest) /\
  skip_ws (elems_text vs +:+ String "]" rest) = elems_text vs +:+ String "]" rest.
Proof.
  intros Hne Hall. revert f. induction Hall as [|[raw v] vs Hv Hall IH]; [done|]. cbn [fst snd] in Hv.
  intros [|f] Hf; [lia|]. destruct vs as [|y vs'].
  - unfold elems_text in *. cbn [map join fst] in *.
    destruct (Hv f (String "]" rest)) as [Hs Hw]; [lia|done|]. cbn [scan_elems]. by rewrite Hs.
  - rewrite elems_text_cons in *. cbn [fst] in *. rewrite length_app_str in Hf. cbn [String.length] in Hf.
    rewrite str_app_assoc. cbn [String.append].
    destruct (Hv f (String "," (elems_text (y :: vs') +:+ String "]" rest))) as [Hs Hw]; [lia|done|].
    split; [|done]. cbn [scan_elems]. rewrite Hs. cbn [skip_ws]. change (is_ws ",") with false. cbn match.
    destruct (IH ltac:(done) f) as [He Hk]; [lia|]. rewrite Hk, He. done.
Qed.

Lemma scans_array vs :
  Forall (fun p => scans (fst p) (snd p)) vs -> scans ("[" +:+ (elems_text vs +:+ "]")) (JArr (map snd vs)).
Proof.
  intros Hall f rest Hf _. cbn [String.append String.length] in *. rewrite length_app_str in Hf.
  cbn [String.length] in Hf. rewrite str_app_assoc. cbn [String.append].
  destruct f as [|f]; [lia|]. split; [|done]. cbn [scan_value].
  change (byte "[" =? 34) with false. change (Ascii.eqb "[" "{") with false.
  change (Ascii.eqb "[" "[") with true. cbn match.
  destruct vs as [|x vs]; [done|].
  destruct (scan_elems_join (x :: vs) f rest ltac:(done) Hall) as [He Hk]; [lia|].
  rewrite Hk. revert He. generalize (elems_text (x :: vs) +:+ String "]" rest). intros t He.
  assert (Hc : match t with String "]" _ => False | _ => True end).
  { destruct t as [|c t]; [done|]. destruct (Ascii.eqb_spec c "]") as [->|Hc]; [|by destruct c as [[] [] [] [] [] [] [] []]].
    destruct f as [|[|f]]; vm_compute in He; done. }
  rewrite He. destruct t as [|c t]; [done|]. by destruct c as [[] [] [] [] [] [] [] []].
Qed.

(** ** Every printed value *)

Definition object_fields (l : list (string * json)) : list (string * string * json) :=
  map (fun '(k, x) => (k, print x, go_maps x)) (sort_fields l).

Lemma print_object l : print (JObj l) = obj_text (fields_of (object_fields l)).
Proof.
  cbn [print]. f_equal. change (map (fun '(k, x) => (k, print x)) l) with ((fun '(k, x) => (k, print x)) <$> l).
  rewrite (list_fmap_ext _ (prod_map id print) l) by (by intros ? [] _).
  unfold object_fields, fields_of. rewrite map_map.
  trans (prod_map id print <$> sort_fields l); [|by apply list_fmap_ext; intros ? [] _].
  clear. induction l as [|[k v] l IH] using rev_ind; [done|].
  rewrite fmap_app. cbn. rewrite !sort_fields_snoc, IH.
  generalize (sort_fields l). intros m. induction m as [|[k' v'] m IHm]; [done|]. cbn.
  destruct (String.ltb k k'); [done|]. destruct (String.eqb k k'); [done|]. cbn. f_equal. apply IHm.
Qed.

Lemma go_maps_object l : go_maps (JObj l) = JObj (map (fun x => (fst (fst x), snd x)) (object_fields l)).
Proof.
  cbn [go_maps]. f_equal. unfold object_fields. rewrite map_map.
  change (map (fun '(k, x) => (k, go_maps x)) l) with ((fun '(k, x) => (k, go_maps x)) <$> l).
  rewrite (list_fmap_ext _ (prod_map id go_maps) l) by (by intros ? [] _).
  rewrite sort_fields_fmap. apply list_fmap_ext. by intros ? [] _.
Qed.

(** Printing and decoding: the value comes back, its objects as Go maps. *)
Lemma print_scans v : json_ok v -> scans (print v) (go_maps v).
Proof.
  remember (json_size v) as n eqn:Hn. revert v Hn.
  induction (lt_wf n) as [n _ IH]. intros v -> Hv. destruct Hv as [|b|lit Hl|s Hs|l Hl|l Hl].
  - intros f rest Hf _. destruct f as [|f]; [lia|]. by destruct rest.
  - destruct b; apply (scans_bool true) || apply (scans_bool false).
  - done.
  - by apply scans_quote.
  - cbn [print go_maps].
    assert (Hall : Forall (fun p => scans (fst p) (snd p)) (map (fun x => (print x, go_maps x)) l)).
    { apply Forall_map, Forall_forall. intros x Hx. cbn. rewrite Forall_forall in Hl.
      apply (IH (json_size x)); [|done|by apply Hl]. cbn [json_size]. apply Nat.lt_succ_r.
      apply list_elem_of_split in Hx as (l1 & l2 & ->).
      clear. induction l1; cbn in *; lia. }
    pose proof (scans_array _ Hall) as H. unfold elems_text in H. by rewrite !map_map in H.
  - rewrite print_object, go_maps_object. apply scans_obj_text. unfold object_fields.
    apply Forall_map, Forall_sort_fields. rewrite Forall_forall in *. intros [k x] Hx.
    destruct (Hl _ Hx) as [Hk Hok]. split; [done|]. cbn [fst snd].
    apply (IH (json_size x)); [|done|done]. cbn [json_size]. apply Nat.lt_succ_r.
    apply list_elem_of_split in Hx as (l1 & l2 & ->). clear. induction l1 as [|[] l1 IH]; cbn in *; lia.
Qed.

(** Printing and parsing are inverse on the values that reach the stores:
    the text [json.Marshal] writes for a value is parsed by
    [json.Unmarshal] without error, to the value with every object's members
    in key order and the last of duplicate names kept. *)
Theorem printed_json_parses_back v : json_ok v -> unmarshal (print v) = Some (go_maps v).
Proof. intros Hv. by apply scans_unmarshal, print_scans. Qed.

Lemma printed_json_parses_back_witness :
  let v := JObj [("z", JArr [JNum "12"; JBool false; JNull]); ("a", JObj []); ("é", JStr "a<b")] in
  json_ok v /\ unmarshal (print v) = Some (go_maps v).
Proof.
  intros v. assert (Hv : json_ok v).
  { repeat first [apply (scans_itoa 12); lia | reflexivity | constructor]. }
  split; [exact Hv|]. exact (printed_json_parses_back v Hv).
Defined.

(** No markup in printed JSON: whatever was decoded, [json.Marshal] prints it
    without a line feed, an angle bracket or an ampersand.  A page may thus put
    it between the tags of a script. *)

Lemma json_nested_ind (P : json -> Prop) :
  P JNull -> (forall b, P (JBool b)) -> (forall lit, P (JNum lit)) -> (forall s, P (JStr s)) ->
  (forall l, Forall P l -> P (JArr l)) -> (forall l, Forall (fun kv : string * json => P (snd kv)) l -> P (JObj l)) -> forall v, P v.
Proof.
  intros Hnull Hbool Hnum Hstr Harr Hobj. fix IH 1. intros [|b|lit|s|l|l]; [done|apply Hbool|apply Hnum|apply Hstr|apply Harr|apply Hobj].
  - induction l as [|x l IHl]; constructor; [apply IH|exact IHl].
  - induction l as [|[k x] l IHl]; constructor; [apply IH|exact IHl].
Qed.

Lemma str_in_take c n s : str_in c s = false -> str_in c (str_take n s) = false.
Proof.
  revert s. induction n as [|n IH]; intros [|b s]; cbn; [done..|]. intros [-> Hs]%orb_false_iff. by apply IH.
Qed.

Lemma str_in_drop c n s : str_in c s = false -> str_in c (str_drop n s) = false.
Proof.
  revert s. induction n as [|n IH]; intros [|b s]; cbn; [done..|]. intros [_ Hs]%orb_false_iff. by apply IH.
Qed.

Lemma Forall_mp {A} (P Q : A -> Prop) l : Forall (fun x => P x -> Q x) l -> Forall P l -> Forall Q l.
Proof. induction 1 as [|x l Hx _ IH]; intros Hp; [constructor|]. apply Forall_cons in Hp as [? ?]. constructor; auto. Qed.

Section plain.
Variables (a : ascii) (Ha : a ∈ never_printed).

(** The number literals of a value are free of [a]. *)
Fixpoint plain (v : json) : bool :=
  match v with
  | JNum lit => negb (str_in a lit)
  | JArr l => forallb plain l
  | JObj l => forallb (fun '(_, x) => plain x) l
  | _ => true
  end.

Definition plains (l : list (string * json)) : bool := plain (JObj l).

Ltac each_unprinted :=
  let H := fresh in pose proof Ha as H; unfold never_printed in H;
  repeat (apply elem_of_cons in H as [->|H]); [..|by apply elem_of_nil in H].

Lemma plain_arr l : plain (JArr l) = true <-> Forall (fun v => plain v = true) l.
Proof. cbn. induction l as [|v l IH]; cbn; [done|]. by rewrite andb_true_iff, IH, Forall_cons. Qed.

Lemma plain_obj l : plain (JObj l) = true <-> Forall (fun kv => plain (snd kv) = true) l.
Proof. cbn. induction l as [|[k v] l IH]; cbn; [done|]. by rewrite andb_true_iff, IH, Forall_cons. Qed.

Lemma unprinted_not_hex : a ∉ hex_alphabet.
Proof.
  each_unprinted; unfold hex_alphabet; intros Hn;
    repeat (apply elem_of_cons in Hn as [Hn|Hn]; [discriminate Hn|]); by apply elem_of_nil in Hn.
Qed.

Lemma unprinted_byte c : byte c = 43 \/ byte c = 45 \/ byte c = 46 \/ byte c = 69 \/ byte c = 101 \/ 48 <= byte c <= 57 -> Ascii.eqb c a = false.
Proof.
  intros Hc. destruct (Ascii.eqb_spec c a) as [->|]; [|done]. exfalso. revert Hc.
  each_unprinted; match goal with |- context [byte ?c] => let b := eval vm_compute in (byte c) in change (byte c) with b end; lia.
Qed.

Ltac plain_char := match goal with |- context [byte ?c] => let b := eval vm_compute in (byte c) in change (byte c) with b end; lia.

(** ** Printing *)

Lemma print_free v : plain v = true -> str_in a (print v) = false.
Proof.
  induction v as [|[]|lit|s|l IH|l IH] using json_nested_ind; intros Hp.
  1-3: each_unprinted; done.
  - by apply negb_true_iff in Hp.
  - by apply quote_free.
  - apply plain_arr in Hp. cbn [print]. rewrite !str_in_app, join_free; [each_unprinted; done|each_unprinted; done|].
    apply Forall_map. exact (Forall_mp _ _ l IH Hp).
  - apply plain_obj in Hp. cbn [print]. apply obj_text_free; [done|]. apply Forall_sort_fields, Forall_map.
    eapply Forall_impl; [exact (Forall_mp _ _ l IH Hp)|]. by intros [k x].
Qed.

(** ** Decoding *)

Lemma span_digits_free s : str_in a (fst (span_digits s)) = false.
Proof.
  induction s as [|c s IH]; [done|]. cbn. destruct (is_digit c) eqn:Hc; [|done]. destruct (span_digits s) as [d t]. cbn in *.
  rewrite unprinted_byte; [done|]. unfold is_digit, in_range in Hc. bool_hyps. lia.
Qed.

Lemma scan_num_free s lit rest : scan_num s = Some (lit, rest) -> str_in a lit = false.
Proof.
  assert (Hd : forall s d t, span_digits s = (d, t) -> str_in a d = false) by (intros s0 d t Hs; pose proof (span_digits_free s0) as H; by rewrite Hs in H).
  assert (Hf : forall s f t, scan_frac s = Some (f, t) -> str_in a f = false).
  { clear s lit rest. intros s f t. unfold scan_frac. destruct s as [|[[] [] [] [] [] [] [] []] s]; try (by intros [= <- _]).
    destruct (span_digits s) as [[|x d] t'] eqn:Hs; [done|]. intros [= <- _]. apply Hd in Hs. cbn [str_in] in *.
    by rewrite (unprinted_byte "."%char) by plain_char. }
  assert (He : forall s e t, scan_exp s = Some (e, t) -> str_in a e = false).
  { clear s lit rest. intros [|e s] x t; cbn [scan_exp]; [by intros [= <- _]|]. destruct (_ || _)%bool eqn:Hb; [|by intros [= <- _]].
    assert (Hea : Ascii.eqb e a = false) by (apply unprinted_byte; apply orb_true_iff in Hb as [?%Z.eqb_eq|?%Z.eqb_eq]; lia).
    destruct s as [|c r]; [done|]. destruct ((byte c =? 43) || (byte c =? 45))%bool eqn:Hc.
    - destruct (span_digits r) as [[|y d] t'] eqn:Hs; [done|]. intros [= <- _]. apply Hd in Hs. cbn [str_in String.append] in *.
      rewrite Hea, Hs, unprinted_byte; [done|]. apply orb_true_iff in Hc as [?%Z.eqb_eq|?%Z.eqb_eq]; lia.
    - destruct (span_digits (String c r)) as [[|y d] t'] eqn:Hs; [done|]. intros [= <- _]. apply Hd in Hs. cbn [str_in String.append] in *.
      by rewrite Hea, Hs. }
  unfold scan_num. set (sr := match s with String "-" r => _ | _ => _ end).
  assert (Hsr : str_in a (fst sr) = false).
  { unfold sr. destruct s as [|[[] [] [] [] [] [] [] []] s]; try done. cbn [str_in fst]. by rewrite (unprinted_byte "-"%char) by plain_char. }
  destruct sr as [sg r]. cbn in Hsr. set (int := match r with String "0" t => _ | _ => _ end).
  assert (Hint : forall d t, int = Some (d, t) -> str_in a d = false).
  { intros d t. unfold int. pose proof (span_digits_free r) as Hr. destruct r as [|c r]; [done|].
    destruct (Ascii.eqb_spec c "0") as [->|Hne].
    - intros [= <- _]. cbn [str_in]. by rewrite (unprinted_byte "0"%char) by plain_char.
    - assert (Hm : (match String c r with String "0" t => Some (String "0" EmptyString, t) | _ =>
          match span_digits (String c r) with (EmptyString, _) => None | dt => Some dt end end) =
          match span_digits (String c r) with (EmptyString, _) => None | dt => Some dt end).
      { destruct c as [[] [] [] [] [] [] [] []]; try done. }
      rewrite Hm. destruct (span_digits (String c r)) as [[|x y] z]; [done|]. by intros [= <- _]. }
  destruct int as [[d t]|]; [|done]. specialize (Hint d t eq_refl).
  destruct (scan_frac t) as [[f t']|] eqn:Hsf; [|done]. destruct (scan_exp t') as [[e t'']|] eqn:Hse; [|done].
  intros [= <- _]. apply Hf in Hsf. apply He in Hse. rewrite !str_in_app, Hsr, Hint, Hsf, Hse. done.
Qed.

Lemma scan_plain fuel : forall s,
  (forall v r, scan_value fuel s = Some (v, r) -> plain v = true) /\
  (forall l r, scan_elems fuel s = Some (l, r) -> Forall (fun v => plain v = true) l) /\
  (forall l r, scan_members fuel s = Some (l, r) -> Forall (fun m => plain (snd (snd m)) = true) l).
Proof.
  induction fuel as [|f IH]; intros s; [done|]. split_and!.
  - intros v rest. destruct s as [|c r]; [done|]. cbn [scan_value]. repeat case_match; intros [= <- <-]; try done.
    all: first [ apply plain_obj, Forall_map | apply plain_arr | apply negb_true_iff ].
    all: first [ eapply (IH _); eassumption | eapply scan_num_free; eassumption ].
  - intros l rest. cbn [scan_elems]. destruct (scan_value f s) as [[v r]|] eqn:Hv; [|done]. pose proof (proj1 (IH s) v r Hv) as Hp.
    repeat case_match; intros [= <- <-]; (constructor; [done|]); try constructor; by eapply (IH _).
  - intros l rest. cbn [scan_members]. repeat case_match; intros [= <- <-]; (constructor; [cbn; by eapply (IH _)|]); try constructor; by eapply (IH _).
Qed.

Lemma unmarshal_plain s v : unmarshal s = Some v -> plain v = true.
Proof.
  unfold unmarshal. destruct (scan_value (fuel_for s) (skip_ws s)) as [[w r]|] eqn:Hs; [|done].
  destruct (skip_ws r); [|done]. intros [= <-]. by eapply scan_plain.
Qed.

Lemma go_maps_plain v : plain v = true -> plain (go_maps v) = true.
Proof.
  induction v as [| | | |l IH|l IH] using json_nested_ind; try done; intros Hp.
  - apply plain_arr in Hp. cbn [go_maps]. apply plain_arr, Forall_map.
    exact (Forall_mp _ _ l IH Hp).
  - apply plain_obj in Hp. cbn [go_maps]. apply plain_obj, Forall_sort_fields, Forall_map.
    eapply Forall_impl; [exact (Forall_mp _ _ l IH Hp)|]. by intros [k x].
Qed.

(** ** Printing a double *)

Lemma dec_nonneg_free x : str_in a (dec_nonneg x EmptyString) = false.
Proof. unfold dec_nonneg. by rewrite str_in_dec_fixed by apply unprinted_not_hex. Qed.

Lemma itoa_free x : str_in a (itoa x) = false.
Proof. unfold itoa. case_match; cbn [str_in]; rewrite ?(unprinted_byte "-"%char) by plain_char; apply dec_nonneg_free. Qed.

Lemma zeros_free n : str_in a (zeros n) = false.
Proof. induction n as [|n IH]; cbn [zeros str_in]; [done|]. by rewrite (unprinted_byte "0"%char) by plain_char. Qed.

Lemma json_float_free f : str_in a (json_float f) = false.
Proof.
  unfold json_float. assert (Hs : forall neg s, str_in a s = false -> str_in a (sign_text neg s) = false).
  { intros [] s Hs; cbn [sign_text str_in]; [|done]. by rewrite (unprinted_byte "-"%char) by plain_char. }
  apply Hs. case_match; [cbn [str_in]; by rewrite (unprinted_byte "0"%char) by plain_char|].
  assert (Hd : str_in a (fst (shortest_digits (fl_mant f) (fl_exp f))) = false).
  { unfold shortest_digits. destruct (scale2 _ _ _), (shortest _ _ _ _ _ _ _ _). apply str_in_trim_zeros, dec_nonneg_free. }
  destruct (shortest_digits (fl_mant f) (fl_exp f)) as [digits dp]. cbn [fst] in Hd. case_match.
  - unfold layout_e. destruct digits as [|d r]; [done|]. cbn [str_in] in *. apply orb_false_iff in Hd as [Hd Hr]. rewrite Hd.
    rewrite !str_in_app. cbn [str_in]. rewrite str_in_app, itoa_free, (unprinted_byte "e"%char) by plain_char.
    rewrite (unprinted_byte (if _ : bool then _ else _)) by (case_match; plain_char).
    assert (Hfrac : str_in a (match r with EmptyString => EmptyString | _ => String "." r end) = false).
    { destruct r; [done|]. cbn [str_in] in *. by rewrite (unprinted_byte "."%char) by plain_char. }
    rewrite Hfrac.
    assert (Hpad : forall b : bool, str_in a (if b then "0" else EmptyString) = false)
      by (intros b; destruct b; cbn [str_in]; rewrite ?(unprinted_byte "0"%char) by plain_char; done).
    by rewrite Hpad.
  - unfold layout_f. repeat case_match; rewrite !str_in_app; cbn [str_in];
      rewrite ?str_in_app, ?zeros_free, ?(unprinted_byte "0"%char), ?(unprinted_byte "."%char) by plain_char;
      rewrite ?Hd, ?str_in_take, ?str_in_drop by done; done.
Qed.

Lemma reprint_plain v : plain v = true -> plain (reprint_numbers v) = true.
Proof.
  induction v as [| |lit| |l IH|l IH] using json_nested_ind; try done; intros Hp.
  - cbn. unfold with_float. destruct (ParseFloat lit); [by rewrite json_float_free|done].
  - apply plain_arr in Hp. cbn [reprint_numbers]. apply plain_arr, Forall_map.
    exact (Forall_mp _ _ l IH Hp).
  - apply plain_obj in Hp. cbn [reprint_numbers]. apply plain_obj, Forall_map.
    eapply Forall_impl; [exact (Forall_mp _ _ l IH Hp)|]. by intros [k x].
Qed.
End plain.
