(* ===== verification/Messaging.v ===== *)
(** Messages and the inbox: internal/agent/messaging/{message,store_mem}.go,
    internal/agent/signal/inbox_mem.go, internal/agent/job/inbox.go and one
    pass of the inbox loop of internal/app/worker/agent_job.go.

    The store keeps its messages twice, in a list and by id, and both hold
    pointers: a message here is its place in the list, and the index by id
    gives the place.  What a reader gets is a copy.  The values of a payload
    are JSON; [time.Now()] and [uuid.New()] are arguments. *)

From S2P Require Import Prelude GoTime Json GoFloat Events MemStore JobFsm JobQueue JobStore EmbeddedStore.

(** ** Messages *)

Definition payload : Type := option (gmap string json).

Record Message := mkMessage {
  msg_ID : string; msg_FromAgentID : string; msg_ToAgentID : string; msg_Channel : string; msg_Kind : string;
  msg_Payload : payload; msg_CausationID : string; msg_ScheduledAt : option time; msg_ExpiresAt : option time;
  msg_CreatedAt : time; msg_DeliveredAt : option time; msg_ConsumedByJobID : string; msg_ConsumedAt : option time;
}.

Definition KindUser : string := "user".
Definition KindTimer : string := "timer".

Record SendOptions := mkSendOptions {
  so_Channel : string; so_Kind : string; so_CausationID : string;
  so_ScheduledAt : option time; so_ExpiresAt : option time; so_IdempotencyKey : string;
}.

Record StoreMem := mkStoreMem { sm_messages : list Message; sm_byID : gmap string nat }.

Definition NewStoreMem : StoreMem := mkStoreMem [] ∅.

Definition add_message (m : Message) (s : StoreMem) : StoreMem :=
  mkStoreMem (sm_messages s ++ [m]) (<[msg_ID m := length (sm_messages s)]> (sm_byID s)).

Definition kind_or (d : string) (opts : option SendOptions) : string :=
  match opts with Some o => if String.eqb (so_Kind o) EmptyString then d else so_Kind o | None => d end.

Definition Send (now : time) (uuid from to : string) (p : payload) (opts : option SendOptions) (s : StoreMem)
  : StoreMem * string :=
  let id := "msg-" +:+ uuid in
  (add_message
     (mkMessage id from to (from_option so_Channel EmptyString opts) (kind_or KindUser opts) p
        (from_option so_CausationID EmptyString opts) (opts ≫= so_ScheduledAt) (opts ≫= so_ExpiresAt)
        now (Some now) EmptyString None) s, id).

Definition SendDelayed (now : time) (uuid to : string) (p : payload) (at_ : time) (opts : option SendOptions) (s : StoreMem)
  : StoreMem * string :=
  let id := "msg-" +:+ uuid in
  (add_message
     (mkMessage id EmptyString to (from_option so_Channel EmptyString opts) (kind_or KindTimer opts) p
        (from_option so_CausationID EmptyString opts) (Some at_) (opts ≫= so_ExpiresAt)
        now None EmptyString None) s, id).

(** ** Reading *)

Definition unconsumed (m : Message) : bool := String.eqb (msg_ConsumedByJobID m) EmptyString.

Definition due (now : time) (m : Message) : bool :=
  match msg_DeliveredAt m, msg_ScheduledAt m with
  | None, Some at_ => negb (t_after at_ now)
  | _, _ => true
  end.

Definition deliverable (now : time) (agentID : string) (m : Message) : bool :=
  String.eqb (msg_ToAgentID m) agentID && unconsumed m && due now m.

(** The loop ends early when [limit] messages were found; a limit that is not
    positive is none. *)
Fixpoint scan_inbox (now : time) (agentID : string) (limit : Z) (out : list Message) (ms : list Message) : list Message :=
  match ms with
  | [] => out
  | m :: rest =>
      if deliverable now agentID m then
        let out' := out ++ [m] in
        if (0 <? limit) && (limit <=? Z.of_nat (length out')) then out' else scan_inbox now agentID limit out' rest
      else scan_inbox now agentID limit out rest
  end.

Definition PeekInbox (now : time) (agentID : string) (limit : Z) (s : StoreMem) : list Message :=
  scan_inbox now agentID limit [] (sm_messages s).

(** The loop is that of PeekInbox, and no message is marked. *)
Definition ConsumeInbox (now : time) (agentID : string) (limit : Z) (s : StoreMem) : StoreMem * list Message :=
  (s, scan_inbox now agentID limit [] (sm_messages s)).

Definition consumed_by (now : time) (jobID : string) (m : Message) : Message :=
  mkMessage (msg_ID m) (msg_FromAgentID m) (msg_ToAgentID m) (msg_Channel m) (msg_Kind m) (msg_Payload m)
    (msg_CausationID m) (msg_ScheduledAt m) (msg_ExpiresAt m) (msg_CreatedAt m) (msg_DeliveredAt m) jobID (Some now).

Definition MarkConsumed (now : time) (messageID jobID : string) (s : StoreMem) : StoreMem :=
  match sm_byID s !! messageID with
  | Some p => mkStoreMem (alter (consumed_by now jobID) p (sm_messages s)) (sm_byID s)
  | None => s
  end.

(** The agents with a message to consume, in the order [order] of Go's set. *)
Definition has_message (now : time) (agentID : string) (s : StoreMem) : bool :=
  negb (String.eqb agentID EmptyString) && existsb (deliverable now agentID) (sm_messages s).

Definition ListAgentIDsWithUnconsumedMessages (order : list string) (now : time) (limit : Z) (s : StoreMem) : list string :=
  let found := filter (fun a => has_message now a s = true) order in
  if 0 <? limit then take (Z.to_nat limit) found else found.

(** ** The signal inbox *)

Record SignalRecord := mkSignal {
  sg_ID : string; sg_JobID : string; sg_CorrelationKey : string; sg_Payload : string;
  sg_CreatedAt : time; sg_AckedAt : option time }.

Definition inboxMem : Type := gmap string SignalRecord.

Definition inbox_Append (now : time) (uuid jobID correlationKey payload : string) (m : inboxMem) : inboxMem * string :=
  let id := "sig-" +:+ uuid in (<[id := mkSignal id jobID correlationKey payload now None]> m, id).

Definition MarkAcked (now : time) (jobID id : string) (m : inboxMem) : inboxMem :=
  match m !! id with
  | Some r => <[id := mkSignal (sg_ID r) (sg_JobID r) (sg_CorrelationKey r) (sg_Payload r) (sg_CreatedAt r) (Some now)]> m
  | None => m
  end.

(** ** Jobs from messages *)

Definition extractGoalFromMessagePayload (p : payload) : string :=
  match p with
  | None => EmptyString
  | Some m =>
      match m !! "message" with
      | Some (JStr g) => if String.eqb g EmptyString then print (go_maps (JObj (map_to_list m))) else g
      | _ => print (go_maps (JObj (map_to_list m)))
      end
  end.

(** The literal [&Job{AgentID, Goal, Status, SessionID}]. *)
Definition inbox_job (agentID goal : string) : Job :=
  mkJob EmptyString agentID EmptyString goal StatusPending zero_time zero_time EmptyString 0 agentID zero_time
    EmptyString 0 EmptyString [] EmptyString EmptyString EmptyString EmptyString EmptyString EmptyString None.

Definition job_created (agentID goal jobID : string) : JobEvent :=
  mkJobEvent EmptyString jobID JobCreated (obj_text [("agent_id", quote agentID); ("goal", quote goal)])
    zero_time EmptyString EmptyString.

(** The clocks and uuids of one call. *)
Record inbox_env := mkInboxEnv { ie_peek : time; ie_create : time; ie_uuid : string; ie_event : call_env; ie_mark : time }.

Section inbox.
Context {S : Type} `{!JobStore S}.

Record inbox_world := mkInboxWorld { iw_inbox : StoreMem; iw_jobs : JobStoreMem; iw_events : S }.

Record inbox_result := mkInboxResult { ir_jobID : string; ir_created : bool; ir_err : option store_error }.

Definition CreateJobFromInbox (env : inbox_env) (agentID : string) (w : inbox_world) : outcome (inbox_world * inbox_result) :=
  match PeekInbox (ie_peek env) agentID 1 (iw_inbox w) with
  | [] => Ret (w, mkInboxResult EmptyString false None)
  | msg :: _ =>
      let goal := extractGoalFromMessagePayload (msg_Payload msg) in
      let '(jobs, j) := Create (ie_create env) (ie_uuid env) (inbox_job agentID goal) (iw_jobs w) in
      run r <- js_Append (ie_event env) EmptyString (job_ID j) 0 (job_created agentID goal (job_ID j)) (iw_events w) ;;
      match snd r with
      | Err e => Ret (mkInboxWorld (iw_inbox w) jobs (fst r), mkInboxResult (job_ID j) true (Some e))
      | Ok _ => Ret (mkInboxWorld (MarkConsumed (ie_mark env) (msg_ID msg) (job_ID j) (iw_inbox w)) jobs (fst r),
                     mkInboxResult (job_ID j) true None)
      end
  end.

(** Calls for one agent, one after the other. *)
Fixpoint create_all (agentID : string) (envs : list inbox_env) (w : inbox_world) : outcome (inbox_world * list inbox_result) :=
  match envs with
  | [] => Ret (w, [])
  | env :: rest =>
      run r <- CreateJobFromInbox env agentID w ;;
      run q <- create_all agentID rest (fst r) ;;
      Ret (fst q, snd r :: snd q)
  end.

(** One pass of the worker's loop; the jobs to wake up are those created. *)
Fixpoint inbox_pass (agents : list (string * inbox_env)) (w : inbox_world) : outcome (inbox_world * list string) :=
  match agents with
  | [] => Ret (w, [])
  | (agentID, env) :: rest =>
      run r <- CreateJobFromInbox env agentID w ;;
      run q <- inbox_pass rest (fst r) ;;
      Ret (fst q, (if ir_created (snd r) && negb (String.eqb (ir_jobID (snd r)) EmptyString) then [ir_jobID (snd r)] else [])
                  ++ snd q)
  end.

Definition runInboxPollLoop (order : list string) (now : time) (envs : string -> inbox_env) (w : inbox_world)
  : outcome (inbox_world * list string) :=
  inbox_pass (map (fun a => (a, envs a)) (ListAgentIDsWithUnconsumedMessages order now 10 (iw_inbox w))) w.
End inbox.
Arguments inbox_world : clear implicits.

(** ** What the loops of the inbox find *)

Lemma scan_inbox_spec now a limit out ms :
  (limit <= 0 \/ Z.of_nat (length out) < limit) ->
  scan_inbox now a limit out ms =
    out ++ (if 0 <? limit then take (Z.to_nat limit - length out) (filter (fun m => deliverable now a m = true) ms)
            else filter (fun m => deliverable now a m = true) ms).
Proof.
  revert out. induction ms as [|m ms IH]; intros out Hl; cbn [scan_inbox].
  - case_match; cbn; by rewrite ?take_nil, app_nil_r.
  - rewrite filter_cons. destruct (deliverable now a m) eqn:Hm; [|by rewrite decide_False by done; apply IH].
    rewrite decide_True by done. destruct (0 <? limit) eqn:Hp; cbn [andb].
    + apply Z.ltb_lt in Hp. destruct Hl as [Hl|Hl]; [lia|].
      replace (Z.to_nat limit - length out)%nat with (Datatypes.S (Z.to_nat limit - length (out ++ [m])))
        by (rewrite length_app; cbn [length]; lia).
      cbn [take]. case_match eqn:Hc.
      * apply Z.leb_le in Hc. replace (Z.to_nat limit - length (out ++ [m]))%nat with 0%nat by lia. done.
      * apply Z.leb_gt in Hc. rewrite IH by lia. by rewrite <- app_assoc.
    + rewrite IH by (apply Z.ltb_ge in Hp; lia). by rewrite <- app_assoc.
Qed.

(** The index by id finds every message; a fresh uuid keeps it so. *)
Definition indexed (s : StoreMem) : Prop := forall i m, sm_messages s !! i = Some m -> sm_byID s !! msg_ID m = Some i.

Lemma indexed_new : indexed NewStoreMem.
Proof. by intros i m Hm. Qed.

Lemma indexed_add m s : indexed s -> sm_byID s !! msg_ID m = None -> indexed (add_message m s).
Proof.
  intros Hs Hf i m' Hi. cbn in *. apply lookup_app_Some in Hi as [Hi|[Hle Hi]].
  - rewrite lookup_insert_ne; [by apply Hs|]. intros He. apply Hs in Hi. congruence.
  - assert (i = length (sm_messages s)) as ->.
    { apply lookup_lt_Some in Hi. cbn in Hi. lia. }
    rewrite Nat.sub_diag in Hi. injection Hi as <-. apply lookup_insert_eq.
Qed.

Lemma indexed_mark now id job s : indexed s -> indexed (MarkConsumed now id job s).
Proof.
  intros Hs i m Hi. unfold MarkConsumed in *. destruct (sm_byID s !! id) as [p|]; [|by apply Hs]. cbn in *.
  destruct (decide (i = p)) as [->|Hn].
  - rewrite list_lookup_alter_eq in Hi. destruct (sm_messages s !! p) as [m0|] eqn:H0; [|done]. cbn in Hi.
    injection Hi as <-. exact (Hs p m0 H0).
  - rewrite list_lookup_alter_ne in Hi by done. by apply Hs.
Qed.

Lemma filter_ext_Forall {A} (P Q : A -> Prop) `{!forall x, Decision (P x), !forall x, Decision (Q x)} (l : list A) :
  Forall (fun x => P x <-> Q x) l -> filter P l = filter Q l.
Proof. induction 1 as [|x l Hx _ IH]; [done|]. rewrite !filter_cons. repeat case_decide; naive_solver congruence. Qed.

(** The messages an agent has still to consume. *)
Definition waiting (a : string) (s : StoreMem) : list Message :=
  filter (fun m => msg_ToAgentID m = a /\ unconsumed m = true) (sm_messages s).

Definition all_due (now : time) (a : string) (s : StoreMem) : Prop :=
  Forall (fun m => msg_ToAgentID m = a -> due now m = true) (sm_messages s).

Lemma PeekInbox_waiting now a s : all_due now a s -> PeekInbox now a 1 s = take 1 (waiting a s).
Proof.
  intros Hd. unfold PeekInbox. rewrite scan_inbox_spec by (right; cbn; lia). cbn [app length Z.ltb Z.compare]. f_equal.
  unfold waiting. apply filter_ext_Forall. eapply Forall_impl; [exact Hd|]. cbn. intros m Hm. unfold deliverable.
  rewrite !andb_true_iff, String.eqb_eq. naive_solver.
Qed.

(** Marking the first of the waiting messages takes it off, and no other. *)
Lemma filter_alter_head {A} (P : A -> Prop) `{!forall x, Decision (P x)} f (l : list A) x rest :
  filter P l = x :: rest -> ~ P (f x) -> exists i, l !! i = Some x /\ filter P (alter f i l) = rest.
Proof.
  induction l as [|y l IH]; [done|]. rewrite filter_cons. case_decide as Hy; intros Hf Hn.
  - injection Hf as -> <-. exists 0%nat. split; [done|]. change (filter P (f x :: l) = filter P l). rewrite filter_cons. by rewrite decide_False.
  - destruct (IH Hf Hn) as (i & Hi & Hr). exists (Datatypes.S i). split; [done|].
    change (filter P (y :: alter f i l) = rest). by rewrite filter_cons, decide_False.
Qed.

Lemma filter_alter_same {A} (P : A -> Prop) `{!forall x, Decision (P x)} f (l : list A) i x :
  l !! i = Some x -> ~ P x -> ~ P (f x) -> filter P (alter f i l) = filter P l.
Proof.
  revert i. induction l as [|y l IH]; intros [|i] Hi Hn Hf; try done.
  - injection Hi as ->. change (filter P (f x :: l) = filter P (x :: l)). by rewrite !filter_cons, !decide_False.
  - change (filter P (y :: alter f i l) = filter P (y :: l)). rewrite !filter_cons.
    case_decide; [f_equal|]; by apply (IH i).
Qed.

Lemma job_id_nonempty uuid : "job-" +:+ uuid <> EmptyString.
Proof. done. Qed.

Lemma MarkConsumed_waiting now a b uuid m rest s :
  indexed s -> waiting a s = m :: rest ->
  waiting b (MarkConsumed now (msg_ID m) ("job-" +:+ uuid) s) = if decide (b = a) then rest else waiting b s.
Proof.
  intros Hs Hw.
  destruct (filter_alter_head (fun m => msg_ToAgentID m = a /\ unconsumed m = true) (consumed_by now ("job-" +:+ uuid))
    (sm_messages s) m rest Hw ltac:(by intros [_ Hu])) as (i & Hi & Hr).
  unfold MarkConsumed. rewrite (Hs i m Hi). unfold waiting at 1. cbn [sm_messages].
  case_decide as Hb; [by subst b|]. apply filter_alter_same with m; [done| |by intros [_ Hu]].
  intros [Hto _]. assert (m ∈ waiting a s) as Hin by (rewrite Hw; left). apply list_elem_of_filter in Hin as [[Hto' _] _]. congruence.
Qed.

Lemma MarkConsumed_due now now' a id job s : all_due now' a s -> all_due now' a (MarkConsumed now id job s).
Proof.
  intros Hd. unfold MarkConsumed. destruct (sm_byID s !! id) as [p|]; [|done]. unfold all_due in *. cbn [sm_messages].
  apply Forall_alter; [done|]. by intros m _ Hm.
Qed.

Section drain.
Context {S : Type} `{!JobStore S} {view : S -> string -> job_state} {wf : S -> Prop} `{!JobStoreSpec S view wf}.
Implicit Types w : inbox_world S.

Definition created_id (env : inbox_env) : string := "job-" +:+ ie_uuid env.

Definition job_of (agentID : string) (env : inbox_env) (m : Message) : Job :=
  snd (Create (ie_create env) (ie_uuid env) (inbox_job agentID (extractGoalFromMessagePayload (msg_Payload m))) NewJobStoreMem).

(** A call can run: its clock is late enough for the messages, its job id is
    new to the event store, and writing succeeds. *)
Definition ready (agentID : string) (w : inbox_world S) (env : inbox_env) : Prop :=
  ce_io (ie_event env) = true /\ all_due (ie_peek env) agentID (iw_inbox w) /\
  jst_events (view (iw_events w) (created_id env)) = [].

Lemma job_append_new env att job e j :
  jst_events j = [] -> job <> EmptyString -> att = EmptyString ->
  exists e', job_append env att job 0 e j = Ok (mkJobState [e'] (jst_claim j), 1) /\ ev_Type e' = ev_Type e.
Proof.
  intros He Hj ->. unfold job_append, version. rewrite He. rewrite (proj2 (String.eqb_neq _ _) Hj). cbn. eexists. by split.
Qed.

Lemma create_step env agentID w m rest :
  indexed (iw_inbox w) -> wf (iw_events w) -> ready agentID w env -> waiting agentID (iw_inbox w) = m :: rest ->
  exists w1 e, CreateJobFromInbox env agentID w = Ret (w1, mkInboxResult (created_id env) true None) /\
    indexed (iw_inbox w1) /\ wf (iw_events w1) /\
    (forall b, waiting b (iw_inbox w1) = if decide (b = agentID) then rest else waiting b (iw_inbox w)) /\
    (forall now, all_due now agentID (iw_inbox w) -> all_due now agentID (iw_inbox w1)) /\
    jm_byID (iw_jobs w1) = <[created_id env := job_of agentID env m]> (jm_byID (iw_jobs w)) /\
    jm_pending (iw_jobs w1) = jm_pending (iw_jobs w) ++ [created_id env] /\
    ev_Type e = JobCreated /\
    forall k, jst_events (view (iw_events w1) k) = if decide (k = created_id env) then [e] else jst_events (view (iw_events w) k).
Proof.
  intros Hix Hwf (Hio & Hdue & Hnew) Hw. unfold CreateJobFromInbox.
  rewrite (PeekInbox_waiting _ _ _ Hdue), Hw. cbn [take].
  destruct (Create _ _ _ _) as [jobs j] eqn:Hc. unfold Create in Hc. cbn in Hc. injection Hc as <- <-.
  match goal with |- context [job_ID ?j] => change (job_ID j) with (created_id env) end.
  match goal with |- context [js_Append ?e ?a ?j ?v ?ev ?s] =>
    destruct (Append_view e a j v ev s Hwf) as (ev1 & r & Happ & Hwf1 & Hacts) end.
  rewrite Happ. cbn [outcome_bind fst snd]. unfold acts_as in Hacts.
  match type of Hacts with context [job_append ?e ?a ?j ?v ?ev ?st] =>
    destruct (job_append_new e a j ev st Hnew (job_id_nonempty _) eq_refl) as (e' & Happ' & Hty) end.
  rewrite Happ' in Hacts. destruct Hacts as [[-> [Hset Hother]]|[Hio' _]]; [|congruence].
  eexists _, e'. split; [reflexivity|]. cbn [iw_inbox iw_events iw_jobs]. split_and!.
  - by apply indexed_mark.
  - done.
  - intros b. by apply (MarkConsumed_waiting _ agentID).
  - intros now. apply MarkConsumed_due.
  - reflexivity.
  - reflexivity.
  - by rewrite Hty.
  - intros k. case_decide as Hk; [subst k; by rewrite Hset|by rewrite Hother].
Qed.

Definition same_but (ids : list string) w w' : Prop :=
  forall k, k ∉ ids -> jm_byID (iw_jobs w') !! k = jm_byID (iw_jobs w) !! k /\
    jst_events (view (iw_events w') k) = jst_events (view (iw_events w) k).

(** A job made of a message: the record in the job store, pending, and a
    stream that begins with its creation. *)
Definition made_of (agentID : string) w (env : inbox_env) (m : Message) : Prop :=
  jm_byID (iw_jobs w) !! created_id env = Some (job_of agentID env m) /\
  exists e, jst_events (view (iw_events w) (created_id env)) = [e] /\ ev_Type e = JobCreated.

Lemma created_id_inj env env' : created_id env = created_id env' -> ie_uuid env = ie_uuid env'.
Proof. intros H. by injection H. Qed.

Lemma create_all_drains agentID envs w :
  indexed (iw_inbox w) -> wf (iw_events w) -> Forall (ready agentID w) envs -> NoDup (created_id <$> envs) ->
  (length envs <= length (waiting agentID (iw_inbox w)))%nat ->
  exists w', create_all agentID envs w = Ret (w', map (fun env => mkInboxResult (created_id env) true None) envs) /\
    (forall b, waiting b (iw_inbox w') = if decide (b = agentID) then drop (length envs) (waiting agentID (iw_inbox w))
                                        else waiting b (iw_inbox w)) /\
    jm_pending (iw_jobs w') = jm_pending (iw_jobs w) ++ map created_id envs /\
    (forall now, all_due now agentID (iw_inbox w) -> all_due now agentID (iw_inbox w')) /\
    same_but (created_id <$> envs) w w' /\
    Forall2 (made_of agentID w') envs (take (length envs) (waiting agentID (iw_inbox w))).
Proof.
  revert w. induction envs as [|env envs IH]; intros w Hix Hwf Hready Hnd Hlen.
  - exists w. split_and!; [done| |by rewrite app_nil_r|done|done|constructor]. intros b. case_decide; by subst.
  - apply Forall_cons in Hready as [Hr Hready]. apply NoDup_cons in Hnd as [Hni Hnd].
    destruct (waiting agentID (iw_inbox w)) as [|m rest] eqn:Hw; [cbn in Hlen; lia|].
    destruct (create_step env agentID w m rest Hix Hwf Hr Hw)
      as (w1 & e & Hc & Hix1 & Hwf1 & Hw1 & Hdue1 & Hj1 & Hp1 & Hty & He1).
    pose proof (Hw1 agentID) as Hwa. rewrite decide_True in Hwa by done.
    destruct (IH w1) as (w2 & Hc2 & Hw2 & Hp2 & Hdue2 & Hsame & Hmade); [done|done| |done|rewrite Hwa; cbn in Hlen; lia|].
    { rewrite Forall_forall in Hready |- *. intros env' Hin. destruct (Hready env' Hin) as (Hio & Hd & Hn).
      split_and!; [done|by apply Hdue1|]. rewrite He1, decide_False; [done|].
      intros Heq. apply Hni. rewrite <- Heq. by apply list_elem_of_fmap_2. }
    exists w2. split_and!.
    + cbn [create_all]. rewrite Hc. cbn [outcome_bind fst snd]. by rewrite Hc2.
    + intros b. rewrite Hw2. case_decide as Hb; [subst b; by rewrite Hwa|]. by rewrite Hw1, decide_False.
    + rewrite Hp2, Hp1. by rewrite <- app_assoc.
    + intros now Hd. by apply Hdue2, Hdue1.
    + intros k Hk. cbn in Hk. apply not_elem_of_cons in Hk as [Hk1 Hk2]. destruct (Hsame k Hk2) as [-> ->].
      rewrite Hj1, He1, decide_False by done. by rewrite lookup_insert_ne.
    + cbn [length take]. constructor; [|by rewrite Hwa in Hmade].
      destruct (Hsame (created_id env) Hni) as [Hj He]. split; [by rewrite Hj, Hj1, lookup_insert_eq|].
      exists e. by rewrite He, He1, decide_True.
Qed.

(** C33: when all messages of an agent are due at every call and the writes of
    the calls succeed, as many calls as it has messages turn each of them, in
    the order they were sent, into one pending job with its goal and a stream
    that begins with its creation; the next call finds nothing.  Other jobs,
    streams and inboxes stay as they were, over any event store with the
    interface's specification; the ids of the new jobs are new.  A message that
    is not yet due is left behind by later ones, and a failed write makes a
    second job of one ([unsaved_event_duplicates_job]). *)
Theorem inbox_becomes_jobs agentID envs env w :
  indexed (iw_inbox w) -> wf (iw_events w) -> Forall (ready agentID w) envs -> NoDup (created_id <$> envs) ->
  all_due (ie_peek env) agentID (iw_inbox w) -> length envs = length (waiting agentID (iw_inbox w)) ->
  exists w', create_all agentID (envs ++ [env]) w
      = Ret (w', map (fun env => mkInboxResult (created_id env) true None) envs ++ [mkInboxResult EmptyString false None]) /\
    Forall2 (made_of agentID w') envs (waiting agentID (iw_inbox w)) /\
    jm_pending (iw_jobs w') = jm_pending (iw_jobs w) ++ map created_id envs /\
    waiting agentID (iw_inbox w') = [] /\
    (forall b, b <> agentID -> waiting b (iw_inbox w') = waiting b (iw_inbox w)) /\
    same_but (created_id <$> envs) w w'.
Proof.
  intros Hix Hwf Hready Hnd Hdue Hlen.
  destruct (create_all_drains agentID envs w Hix Hwf Hready Hnd ltac:(lia)) as (w' & Hc & Hw & Hp & Hd & Hsame & Hmade).
  pose proof (Hw agentID) as Hwa. rewrite decide_True, Hlen, drop_all in Hwa by done.
  exists w'. split_and!; [|by rewrite Hlen, firstn_all in Hmade|done|done| |done].
  - assert (forall envs' w0 w1 rs, create_all agentID envs' w0 = Ret (w1, rs) ->
      create_all agentID (envs' ++ [env]) w0
        = run r <- CreateJobFromInbox env agentID w1 ;; Ret (fst r, rs ++ [snd r])) as Happ.
    { clear. induction envs' as [|e envs' IH]; intros w0 w1 rs; cbn [create_all app].
      - intros [= <- <-]. by destruct (CreateJobFromInbox env agentID w0) as [[]|].
      - destruct (CreateJobFromInbox e agentID w0) as [r|]; [|done]. cbn [outcome_bind].
        destruct (create_all agentID envs' (fst r)) as [q|] eqn:Hq; [|done]. cbn [outcome_bind]. intros [= <- <-].
        rewrite (IH _ (fst q) (snd q)) by (by destruct q). by destruct (CreateJobFromInbox env agentID (fst q)). }
    rewrite (Happ _ _ _ _ Hc). unfold CreateJobFromInbox. rewrite (PeekInbox_waiting _ _ _ (Hd _ Hdue)), Hwa. done.
  - intros b Hb. by rewrite Hw, decide_False.
Qed.
End drain.

(** ** Example *)

Definition at_ (n : Z) : time := Time n 0.

Definition text (g : string) : payload := Some {["message" := JStr g]}.

Definition two_letters : StoreMem :=
  fst (SendDelayed (at_ 2) "m2" "ada" (text "second") (at_ 5) None (fst (Send (at_ 1) "m1" "bob" "ada" (text "first") None NewStoreMem))).

Definition turn (uuid : string) (n : Z) : inbox_env := mkInboxEnv (at_ n) (at_ n) uuid (mkEnv (at_ n) uuid true) (at_ n).

Definition inbox_start : inbox_world memoryStore := mkInboxWorld two_letters NewJobStoreMem NewMemoryStore.

Lemma inbox_becomes_jobs_witness :
  map (fun m => extractGoalFromMessagePayload (msg_Payload m)) (waiting "ada" two_letters) = ["first"; "second"] /\
  exists w', create_all "ada" ([turn "u1" 6; turn "u2" 7] ++ [turn "u3" 8]) inbox_start
      = Ret (w', [mkInboxResult "job-u1" true None; mkInboxResult "job-u2" true None; mkInboxResult EmptyString false None]) /\
    Forall2 (made_of (view:=mem_view) "ada" w') [turn "u1" 6; turn "u2" 7] (waiting "ada" two_letters) /\
    jm_pending (iw_jobs w') = ["job-u1"; "job-u2"] /\ waiting "ada" (iw_inbox w') = [] /\
    (forall b, b <> "ada" -> waiting b (iw_inbox w') = waiting b two_letters) /\
    same_but (view:=mem_view) ["job-u1"; "job-u2"] inbox_start w'.
Proof.
  split; [vm_compute; reflexivity|].
  apply (inbox_becomes_jobs (view:=mem_view) (wf:=unwatched) "ada" [turn "u1" 6; turn "u2" 7] (turn "u3" 8) inbox_start).
  - intros i m Hi. do 2 (destruct i as [|i]; [injection Hi as <-; vm_compute; reflexivity|]). done.
  - reflexivity.
  - repeat constructor.
  - apply NoDup_cons. split; [intros H; apply list_elem_of_singleton in H; discriminate H|apply NoDup_singleton].
  - repeat constructor.
  - vm_compute. reflexivity.
Defined.

(** ** Where it stops short *)

Definition until (n : Z) (key : string) : option SendOptions := Some (mkSendOptions EmptyString EmptyString EmptyString None (Some (at_ n)) key).

(** Neither the time a message expires nor its idempotency key is looked at:
    both copies of a message that expired are delivered. *)
Lemma send_options_ignored :
  let s := fst (Send (at_ 2) "m2" "bob" "ada" (text "hi") (until 3 "key") (fst (Send (at_ 1) "m1" "bob" "ada" (text "hi") (until 3 "key") NewStoreMem))) in
  map msg_ID (PeekInbox (at_ 100) "ada" 0 s) = ["msg-m1"; "msg-m2"].
Proof. vm_compute. reflexivity. Qed.

(** When the event cannot be saved the message stays, and so does the job: the
    next call makes another one of the same message. *)
Lemma unsaved_event_duplicates_job :
  let full (uuid : string) := mkInboxEnv (at_ 6) (at_ 6) uuid (mkEnv (at_ 6) uuid false) (at_ 6) in
  let start : inbox_world embeddedStore := mkInboxWorld two_letters NewJobStoreMem (NewEmbeddedStore None) in
  match create_all "ada" [full "u1"; full "u2"; turn "u3" 7] start with
  | Ret (w, rs) =>
      map ir_created rs = [true; true; true] /\ map ir_err rs = [Some PersistError; Some PersistError; None] /\
      map (fun id => job_Goal <$> jm_byID (iw_jobs w) !! id) (jm_pending (iw_jobs w)) = [Some "first"; Some "first"; Some "first"]
  | Panic _ => False
  end.
Proof. vm_compute. done. Qed.
