(* ===== verification/Gc.v ===== *)
(** Collection of old tool invocations: internal/runtime/jobstore/gc.go, and
    the archiving of archive.go that has to come before a deletion.

    The stores behind them are tables of a database: their operations are
    records, with what the code relies on as laws over two views, the
    invocations in the table and the copies in the archive.  An optional
    interface of a store is an option. *)

From S2P Require Import Prelude GoTime.

(** ** Configuration and interfaces *)

Record GCConfig := mkGCConfig {
  gc_Enable : bool; gc_TTLDays : Z; gc_ArchiveEnabled : bool; gc_ArchiveTTLDays : Z;
  gc_RunInterval : Z; gc_BatchSize : Z }.

Definition DefaultGCConfig : GCConfig := mkGCConfig false 90 false 0 (24 * 3600 * 1000000000) 1000.

Record ToolInvocationRef := mkRef { ref_JobID : string; ref_IdempotencyKey : string }.

#[export] Instance ref_eq_dec : EqDecision ToolInvocationRef.
Proof. solve_decision. Defined.

#[export] Instance ref_countable : Countable ToolInvocationRef.
Proof.
  apply (inj_countable' (fun r => (ref_JobID r, ref_IdempotencyKey r)) (fun p => mkRef (fst p) (snd p))).
  by intros [].
Defined.

(** Every operation answers an error or nothing. *)
Record EffectLifecycleStore (S : Type) := mkLifecycle {
  ListExpiredToolInvocations : time -> Z -> S -> result string (list ToolInvocationRef);
  lc_ArchiveToolInvocations : list ToolInvocationRef -> S -> S * option string;
  DeleteToolInvocations : list ToolInvocationRef -> S -> S * option string;
}.
Arguments mkLifecycle {S}.
Arguments ListExpiredToolInvocations {S}.
Arguments lc_ArchiveToolInvocations {S}.
Arguments DeleteToolInvocations {S}.

(** A store has the lifecycle of invocations, the retention of archived
    copies, the cleaning of checkpoints, or not. *)
Record gc_store (S : Type) := mkGcStore {
  as_lifecycle : option (EffectLifecycleStore S);
  as_retention : option (time -> S -> S * result string Z);
  as_checkpoints : option (time -> S -> S * result string Z);
}.
Arguments mkGcStore {S}.
Arguments as_lifecycle {S}.
Arguments as_retention {S}.
Arguments as_checkpoints {S}.

(** ** The collection *)

(** [now.UTC().AddDate(0, 0, -days)]: in UTC a day has 24 hours. *)
Definition days_before (now : time) (days : Z) : time := t_add now (- (days * 86400 * 1000000000)).

Definition or_default (x d : Z) : Z := if x <=? 0 then d else x.

Section gc.
Context {S : Type}.

(** The loop over batches; [None] is out of fuel.  [cancelled i] is the
    context's error at the start of the i-th turn. *)
Fixpoint gc_batches (fuel : nat) (i : nat) (cancelled : nat -> option string) (lc : EffectLifecycleStore S)
    (archive : bool) (cutoff : time) (batchSize : Z) (s : S) : option (S * option string) :=
  match fuel with
  | O => None
  | Datatypes.S f =>
      match cancelled i with
      | Some e => Some (s, Some e)
      | None =>
          match ListExpiredToolInvocations lc cutoff batchSize s with
          | Err e => Some (s, Some ("list expired tool invocations: " +:+ e))
          | Ok [] => Some (s, None)
          | Ok refs =>
              let '(s1, e1) := if archive then lc_ArchiveToolInvocations lc refs s else (s, None) in
              match e1 with
              | Some e => Some (s1, Some ("archive expired tool invocations: " +:+ e))
              | None =>
                  match DeleteToolInvocations lc refs s1 with
                  | (s2, Some e) => Some (s2, Some ("delete expired tool invocations: " +:+ e))
                  | (s2, None) =>
                      if Z.of_nat (length refs) <? batchSize then Some (s2, None)
                      else gc_batches f (Datatypes.S i) cancelled lc archive cutoff batchSize s2
                  end
              end
          end
      end
  end.

Definition gcToolInvocations (fuel : nat) (cancelled : nat -> option string) (now : time) (st : gc_store S)
    (c : GCConfig) (s : S) : option (S * option string) :=
  match as_lifecycle st with
  | None => Some (s, None)
  | Some lc => gc_batches fuel 0 cancelled lc (gc_ArchiveEnabled c) (days_before now (or_default (gc_TTLDays c) 90))
                 (or_default (gc_BatchSize c) 1000) s
  end.

Definition gcCheckpoints (now : time) (clean : time -> S -> S * result string Z) (c : GCConfig) (s : S) : S * option string :=
  match clean (days_before now (or_default (gc_TTLDays c) 90)) s with
  | (s', Err e) => (s', Some ("cleanup checkpoints: " +:+ e))
  | (s', Ok _) => (s', None)
  end.

Definition gcArchived (now : time) (st : gc_store S) (c : GCConfig) (s : S) : S * option string :=
  if 0 <? gc_ArchiveTTLDays c then
    match as_retention st with
    | Some del =>
        match del (days_before now (gc_ArchiveTTLDays c)) s with
        | (s', Err e) => (s', Some ("cleanup archived tool invocations: " +:+ e))
        | (s', Ok _) => (s', None)
        end
    | None => (s, None)
    end
  else (s, None).

Definition GC (fuel : nat) (cancelled : nat -> option string) (now : time) (st : gc_store S) (c : GCConfig) (s : S)
  : option (S * option string) :=
  if negb (gc_Enable c) then Some (s, None)
  else
    match gcToolInvocations fuel cancelled now st c s with
    | None => None
    | Some (s1, Some e) => Some (s1, Some e)
    | Some (s1, None) =>
        match gcArchived now st c s1 with
        | (s2, Some e) => Some (s2, Some e)
        | (s2, None) =>
            match as_checkpoints st with
            | Some clean => Some (gcCheckpoints now clean c s2)
            | None => Some (s2, None)
            end
        end
    end.
End gc.

(** ** Archiving: archive.go *)

Definition ErrArchiveNotConfigured : string := "jobstore: tool invocation archive target not configured".
Definition ErrArchiveVerificationFailed : string := "jobstore: archived tool invocation copy not verified".

Section archive.
Context {S R : Type}.

(** The records of the table for some references, those that exist. *)
Context (load : list ToolInvocationRef -> S -> result string (list R)) (Ref : R -> ToolInvocationRef).

Record ToolInvocationArchiveSink := mkSink {
  sink_Write : list R -> S -> S * option string;
  CountPersisted : list ToolInvocationRef -> S -> result string Z;
}.

Definition ArchiveToolInvocations (sink : option ToolInvocationArchiveSink) (refs : list ToolInvocationRef) (s : S)
  : S * option string :=
  match refs with
  | [] => (s, None)
  | _ =>
      match sink with
      | None => (s, Some (ErrArchiveNotConfigured +:+ ": GCConfig.ArchiveEnabled requires a configured archive sink"))
      | Some k =>
          match load refs s with
          | Err e => (s, Some e)
          | Ok [] => (s, None)
          | Ok records =>
              match sink_Write k records s with
              | (s1, Some e) => (s1, Some e)
              | (s1, None) =>
                  match CountPersisted k (map Ref records) s1 with
                  | Err e => (s1, Some ("verify archived tool invocations: " +:+ e))
                  | Ok count =>
                      if negb (count =? Z.of_nat (length records))
                      then (s1, Some (ErrArchiveVerificationFailed +:+ ": verified " +:+ itoa count +:+ " of "
                                      +:+ itoa (Z.of_nat (length records)) +:+ " copies"))
                      else (s1, None)
                  end
              end
          end
      end
  end.
End archive.
Arguments mkSink {S R}.

(** ** What the code relies on *)

Section laws.
Context {S : Type} (rows : S -> gmap ToolInvocationRef time) (copies : S -> gmap ToolInvocationRef time) (now : time).

(** The rows created before a moment. *)
Definition expired (cutoff : time) (s : S) : gmap ToolInvocationRef time :=
  filter (fun kv => t_before (snd kv) cutoff = true) (rows s).

(** New copies are made now; a copy that is there is kept. *)
Definition archives (refs : list ToolInvocationRef) (s s' : S) : Prop :=
  rows s' = rows s /\
  (forall r t, copies s !! r = Some t -> copies s' !! r = Some t) /\
  (forall r t, copies s' !! r = Some t -> copies s !! r = Some t \/ r ∈ refs /\ t_before t now = false).

Record LifecycleSpec (lc : EffectLifecycleStore S) := {
  list_law cutoff limit s refs : ListExpiredToolInvocations lc cutoff limit s = Ok refs ->
    NoDup refs /\ (forall r, r ∈ refs -> is_Some (expired cutoff s !! r)) /\
    length refs = Nat.min (Z.to_nat limit) (size (expired cutoff s));
  archive_law refs s s' e : lc_ArchiveToolInvocations lc refs s = (s', e) ->
    archives refs s s' /\ (e = None -> forall r, r ∈ refs -> is_Some (rows s !! r) -> is_Some (copies s' !! r));
  delete_law refs s s' e : DeleteToolInvocations lc refs s = (s', e) ->
    copies s' = copies s /\ rows s' ⊆ rows s /\ (forall r, r ∉ refs -> rows s' !! r = rows s !! r) /\
    (e = None -> forall r, r ∈ refs -> rows s' !! r = None);
}.

(** Retention deletes copies that are older than the cutoff, and touches no row. *)
Definition retention_law (del : time -> S -> S * result string Z) : Prop :=
  forall cutoff s s' r, del cutoff s = (s', r) ->
    rows s' = rows s /\ forall k t, copies s !! k = Some t -> t_before t cutoff = false -> copies s' !! k = Some t.

Definition checkpoints_law (clean : time -> S -> S * result string Z) : Prop :=
  forall cutoff s s' r, clean cutoff s = (s', r) -> rows s' = rows s /\ copies s' = copies s.

Record GcStoreSpec (st : gc_store S) := {
  lifecycle_spec lc : as_lifecycle st = Some lc -> LifecycleSpec lc;
  retention_spec del : as_retention st = Some del -> retention_law del;
  checkpoints_spec clean : as_checkpoints st = Some clean -> checkpoints_law clean;
}.
End laws.

(** ** Nothing is lost, and the loop ends *)

Section correctness.
Context {S : Type} (rows : S -> gmap ToolInvocationRef time) (copies : S -> gmap ToolInvocationRef time) (now : time).

(** What archiving before deleting keeps true from a state to a later one. *)
Record kept (cutoff : time) (s s' : S) : Prop := {
  kept_rows r t : rows s' !! r = Some t -> rows s !! r = Some t;
  kept_copies r t : copies s !! r = Some t -> copies s' !! r = Some t;
  kept_new r t : copies s' !! r = Some t -> copies s !! r = Some t \/ t_before t now = false;
  kept_gone r t : rows s !! r = Some t -> rows s' !! r = None -> is_Some (copies s' !! r) /\ t_before t cutoff = true;
}.

Lemma kept_refl cutoff s : kept cutoff s s.
Proof. split; naive_solver congruence. Qed.

Lemma kept_trans cutoff s1 s2 s3 : kept cutoff s1 s2 -> kept cutoff s2 s3 -> kept cutoff s1 s3.
Proof.
  intros [R1 C1 N1 G1] [R2 C2 N2 G2]. split; [by eauto..| |].
  - intros r t Hr. destruct (N2 r t Hr) as [Hr2|]; [|by right]. by apply N1.
  - intros r t Hr Hg. destruct (rows s2 !! r) as [t2|] eqn:H2.
    + pose proof (R1 _ _ H2) as H1. rewrite Hr in H1. injection H1 as <-. by apply (G2 r).
    + destruct (G1 r t Hr H2) as [[c Hc] Ht]. split; [|done]. exists c. by apply C2.
Qed.

Lemma expired_row cutoff s r : is_Some (expired rows cutoff s !! r) <-> exists t, rows s !! r = Some t /\ t_before t cutoff = true.
Proof. unfold expired. split; [intros [t Ht]; apply map_lookup_filter_Some in Ht; eauto|intros (t & Ht); exists t; by apply map_lookup_filter_Some]. Qed.

Section loop.
Context (lc : EffectLifecycleStore S) (spec : LifecycleSpec rows copies now lc).

Lemma archive_kept cutoff refs s s' e : lc_ArchiveToolInvocations lc refs s = (s', e) -> kept cutoff s s'.
Proof.
  intros Ha. destruct (archive_law _ _ _ _ spec _ _ _ _ Ha) as [(Hr & Hc & Hn) _]. split; rewrite ?Hr; [done|done| |congruence].
  intros r t Ht. destruct (Hn r t Ht) as [|[_ ?]]; auto.
Qed.

Lemma delete_kept cutoff refs s s1 s2 e :
  lc_ArchiveToolInvocations lc refs s = (s1, None) -> DeleteToolInvocations lc refs s1 = (s2, e) ->
  (forall r, r ∈ refs -> is_Some (expired rows cutoff s !! r)) -> kept cutoff s s2.
Proof.
  intros Ha Hd Hexp. destruct (archive_law _ _ _ _ spec _ _ _ _ Ha) as [(Hr & Hc & Hn) Hall].
  destruct (delete_law _ _ _ _ spec _ _ _ _ Hd) as (Hc2 & Hsub & Hother & _). split.
  - intros r t Ht. rewrite <- Hr. by eapply lookup_weaken.
  - intros r t Ht. rewrite Hc2. by apply Hc.
  - intros r t Ht. rewrite Hc2 in Ht. destruct (Hn r t Ht) as [|[_ ?]]; auto.
  - intros r t Ht Hg. destruct (decide (r ∈ refs)) as [Hin|Hnin].
    + rewrite Hc2. split; [apply Hall; [done|done|by eexists]|].
      apply Hexp, expired_row in Hin as (t' & Ht' & Hb). congruence.
    + rewrite Hother, Hr in Hg by done. congruence.
Qed.

Lemma gc_batches_kept fuel i cancelled cutoff batchSize s s' e :
  gc_batches fuel i cancelled lc true cutoff batchSize s = Some (s', e) -> kept cutoff s s'.
Proof.
  revert i s. induction fuel as [|fuel IH]; intros i s; cbn [gc_batches]; [done|].
  destruct (cancelled i); [intros [= <- _]; apply kept_refl|].
  destruct (ListExpiredToolInvocations lc cutoff batchSize s) as [[|ref refs]|] eqn:Hl; [intros [= <- _]; apply kept_refl| |
    intros [= <- _]; apply kept_refl].
  destruct (list_law _ _ _ _ spec _ _ _ _ Hl) as (_ & Hexp & _).
  destruct (lc_ArchiveToolInvocations lc (ref :: refs) s) as [s1 e1] eqn:Ha.
  destruct e1 as [e1|]; [intros [= <- _]; by eapply archive_kept|].
  destruct (DeleteToolInvocations lc (ref :: refs) s1) as [s2 e2] eqn:Hd.
  pose proof (delete_kept cutoff _ _ _ _ _ Ha Hd Hexp) as Hk.
  destruct e2 as [e2|]; [intros [= <- _]; done|]. case_match; [by intros [= <- _]|].
  intros Hrec. by eapply kept_trans, IH.
Qed.

(** One full batch leaves fewer expired rows; a short one leaves none. *)
Lemma batch_shrinks archive cutoff batchSize refs s s1 s2 :
  0 < batchSize -> ListExpiredToolInvocations lc cutoff batchSize s = Ok refs -> refs <> [] ->
  (if (archive : bool) then lc_ArchiveToolInvocations lc refs s else (s, None)) = (s1, None) ->
  DeleteToolInvocations lc refs s1 = (s2, None) ->
  (size (expired rows cutoff s2) < size (expired rows cutoff s))%nat /\
  (Z.of_nat (length refs) < batchSize -> expired rows cutoff s2 = ∅).
Proof.
  intros Hb Hl Hne Ha Hd. destruct (list_law _ _ _ _ spec _ _ _ _ Hl) as (Hnd & Hexp & Hlen).
  assert (rows s1 = rows s) as Hr1.
  { destruct archive; [|by injection Ha as ->]. by destruct (archive_law _ _ _ _ spec _ _ _ _ Ha) as [(? & _) _]. }
  destruct (delete_law _ _ _ _ spec _ _ _ _ Hd) as (_ & Hsub & Hother & Hgone).
  assert (dom (expired rows cutoff s2) = dom (expired rows cutoff s) ∖ list_to_set refs) as Hdom.
  { apply set_eq. intros r. rewrite elem_of_difference, !elem_of_dom, elem_of_list_to_set, !expired_row.
    destruct (decide (r ∈ refs)) as [Hin|Hnin].
    - rewrite Hgone by done. naive_solver.
    - rewrite Hother, Hr1 by done. naive_solver. }
  assert (list_to_set refs ⊆ dom (expired rows cutoff s)) as Hincl.
  { intros r Hin. apply elem_of_list_to_set in Hin. by apply elem_of_dom, Hexp. }
  assert (size (dom (expired rows cutoff s2)) = size (expired rows cutoff s) - length refs)%nat as Hsz.
  { rewrite Hdom, size_difference, size_list_to_set, size_dom by done. done. }
  rewrite size_dom in Hsz.
  assert (0 < length refs)%nat by (destruct refs; [done|cbn; lia]). split; [lia|].
  intros Hshort. apply map_size_empty_inv. lia.
Qed.

Lemma gc_batches_ends fuel i cancelled archive cutoff batchSize s :
  0 < batchSize -> (size (expired rows cutoff s) < fuel)%nat ->
  exists s' e, gc_batches fuel i cancelled lc archive cutoff batchSize s = Some (s', e) /\
    (e = None -> expired rows cutoff s' = ∅).
Proof.
  intros Hb. revert i s. induction fuel as [|fuel IH]; intros i s Hf; [lia|]. cbn [gc_batches].
  destruct (cancelled i); [by eexists _, _|].
  destruct (ListExpiredToolInvocations lc cutoff batchSize s) as [refs|e] eqn:Hl; [|by eexists _, _].
  destruct (decide (refs = [])) as [->|Hne].
  { destruct (list_law _ _ _ _ spec _ _ _ _ Hl) as (_ & _ & Hlen). eexists _, _. split; [done|]. intros _.
    apply map_size_empty_inv. cbn in Hlen. lia. }
  destruct refs as [|ref refs]; [done|].
  destruct (if archive then lc_ArchiveToolInvocations lc (ref :: refs) s else (s, None)) as [s1 [e1|]] eqn:Ha; [by eexists _, _|].
  destruct (DeleteToolInvocations lc (ref :: refs) s1) as [s2 [e2|]] eqn:Hd; [by eexists _, _|].
  destruct (batch_shrinks archive cutoff batchSize _ _ _ _ Hb Hl Hne Ha Hd) as [Hlt Hend].
  destruct (Z.of_nat (length (ref :: refs)) <? batchSize) eqn:Hc; [|apply IH; lia]. apply Z.ltb_lt in Hc. eexists _, _. split; [done|]. intros _. by apply Hend.
Qed.
End loop.

Context (st : gc_store S) (spec : GcStoreSpec rows copies now st).

Lemma or_default_pos x d : 0 < d -> 0 < or_default x d.
Proof. unfold or_default. case_match eqn:Hx; lia. Qed.

(** C31: with archiving enabled a collection deletes only invocations older
    than the configured age, and each one it deletes has its copy in the
    archive, unless that copy itself is older than a retention of copies that
    was configured: whatever fails or is cancelled on the way. *)
Theorem gc_keeps_a_copy fuel cancelled c s s' e r t :
  gc_ArchiveEnabled c = true -> GC fuel cancelled now st c s = Some (s', e) ->
  rows s !! r = Some t -> rows s' !! r = None ->
  t_before t (days_before now (or_default (gc_TTLDays c) 90)) = true /\
  (is_Some (copies s' !! r) \/
   0 < gc_ArchiveTTLDays c /\ exists tc, copies s !! r = Some tc /\ t_before tc (days_before now (gc_ArchiveTTLDays c)) = true).
Proof.
  intros Harch Hgc Hr Hgone. unfold GC in Hgc. destruct (gc_Enable c); cbn [negb] in Hgc; [|by simplify_eq].
  destruct (gcToolInvocations fuel cancelled now st c s) as [[s1 e1]|] eqn:H1; [|done].
  assert (kept (days_before now (or_default (gc_TTLDays c) 90)) s s1) as Hk.
  { unfold gcToolInvocations in H1. destruct (as_lifecycle st) as [lc|] eqn:Hlc; [|injection H1 as <- _; apply kept_refl].
    rewrite Harch in H1. exact (gc_batches_kept lc (lifecycle_spec _ _ _ _ spec lc Hlc) _ _ _ _ _ _ _ _ H1). }
  destruct e1 as [e1|].
  { injection Hgc as <- _. destruct (kept_gone _ _ _ Hk r t Hr Hgone). auto. }
  destruct (gcArchived now st c s1) as [s2 e2] eqn:H2.
  assert (rows s2 = rows s1 /\ forall k tk, copies s1 !! k = Some tk ->
    copies s2 !! k = Some tk \/ 0 < gc_ArchiveTTLDays c /\ t_before tk (days_before now (gc_ArchiveTTLDays c)) = true) as [Hr2 Hc2].
  { unfold gcArchived in H2. destruct (0 <? gc_ArchiveTTLDays c) eqn:Ht; [|by injection H2 as <- _; auto].
    destruct (as_retention st) as [del|] eqn:Hdel; [|by injection H2 as <- _; auto].
    destruct (del _ s1) as [sd rd] eqn:Hd.
    destruct (retention_spec _ _ _ _ spec del Hdel _ _ _ _ Hd) as [Hrows Hcop].
    assert (sd = s2) as -> by (by destruct rd; injection H2). split; [done|]. intros k tk Hk'.
    destruct (t_before tk (days_before now (gc_ArchiveTTLDays c))) eqn:Hb; [right; split; [lia|done]|left; by apply Hcop]. }
  assert (rows s' = rows s2 /\ copies s' = copies s2) as [Hr3 Hc3].
  { destruct e2; [by injection Hgc as <- _|]. destruct (as_checkpoints st) as [clean|] eqn:Hcp; [|by injection Hgc as <- _].
    unfold gcCheckpoints in Hgc. destruct (clean _ s2) as [sc rc] eqn:Hcl.
    pose proof (checkpoints_spec _ _ _ _ spec clean Hcp _ _ _ _ Hcl). by destruct rc; injection Hgc as <- _. }
  rewrite Hr3, Hr2 in Hgone. destruct (kept_gone _ _ _ Hk r t Hr Hgone) as [[tc Htc] Hold]. split; [done|].
  rewrite Hc3. destruct (Hc2 r tc Htc) as [?|[Hpos Hb]]; [by left; eexists|]. right. split; [done|]. exists tc. split; [|done].
  destruct (kept_new _ _ _ Hk r tc Htc) as [?|Hnew]; [done|]. unfold t_before, days_before, t_add in *. cbn in *. lia.
Qed.

(** The loop over batches ends, after at most one turn per expired
    invocation and one more, whatever its calls answer; and when it ends
    without an error no expired invocation is left. *)
Theorem gc_ends_clean fuel cancelled c s lc :
  as_lifecycle st = Some lc ->
  let cutoff := days_before now (or_default (gc_TTLDays c) 90) in
  (size (expired rows cutoff s) < fuel)%nat ->
  exists s' e, gcToolInvocations fuel cancelled now st c s = Some (s', e) /\ (e = None -> expired rows cutoff s' = ∅).
Proof.
  intros Hlc cutoff Hf. unfold gcToolInvocations. rewrite Hlc.
  apply (gc_batches_ends lc (lifecycle_spec _ _ _ _ spec lc Hlc)); [by apply or_default_pos|done].
Qed.
End correctness.

(** ** Archiving keeps its promise

    The contract of a sink: what it has written it finds again, and it counts
    no record it does not have. *)
Section sink.
Context {S R : Type} (load : list ToolInvocationRef -> S -> result string (list R)) (Ref : R -> ToolInvocationRef).
Context (copies : S -> gset ToolInvocationRef) (k : ToolInvocationArchiveSink (S:=S) (R:=R)).
Context (count_law : forall refs s n, CountPersisted k refs s = Ok n ->
  n = Z.of_nat (length (filter (fun r => r ∈ copies s) refs))).

Lemma filter_all_length {A} (P : A -> Prop) `{!forall x, Decision (P x)} (l : list A) :
  length (filter P l) = length l -> Forall P l.
Proof.
  induction l as [|x l IH]; [by constructor|]. rewrite filter_cons. pose proof (length_filter P l). case_decide; cbn; [|lia].
  intros [= Hl]. constructor; [done|by apply IH].
Qed.

(** Archiving answers no error only when every record it found for the
    references can be read back from the archive, even if a sink's write lied. *)
Theorem archiving_is_verified refs s s' records :
  refs <> [] -> ArchiveToolInvocations load Ref (Some k) refs s = (s', None) -> load refs s = Ok records ->
  forall rec, rec ∈ records -> Ref rec ∈ copies s'.
Proof.
  intros Hne Ha Hl. unfold ArchiveToolInvocations in Ha. destruct refs; [done|]. rewrite Hl in Ha.
  destruct records as [|rec0 records]; [intros rec Hin; by apply not_elem_of_nil in Hin|].
  destruct (sink_Write k _ s) as [s1 [e|]]; [done|].
  destruct (CountPersisted k _ s1) as [n|e] eqn:Hc; [|done]. apply count_law in Hc.
  destruct (n =? Z.of_nat (length (rec0 :: records))) eqn:Hn; [|done]. injection Ha as ->. apply Z.eqb_eq in Hn.
  assert (Forall (fun r => r ∈ copies s') (map Ref (rec0 :: records))) as Hall.
  { refine (filter_all_length (fun r => r ∈ copies s') _ _). rewrite length_map. lia. }
  intros rec Hin. rewrite Forall_forall in Hall. apply Hall. by apply list_elem_of_fmap_2.
Qed.

Lemma unconfigured_archive_fails refs s : refs <> [] ->
  exists e, ArchiveToolInvocations (R:=R) load Ref None refs s = (s, Some e).
Proof. intros Hne. destruct refs; [done|]. cbn. eauto. Qed.
End sink.

(** ** A table in memory, and a collection of it *)

Record table := mkTable { tb_rows : gmap ToolInvocationRef time; tb_copies : gmap ToolInvocationRef time }.

Definition table_lifecycle (now : time) : EffectLifecycleStore table := mkLifecycle
  (fun cutoff limit s => Ok (take (Z.to_nat limit) (map fst (map_to_list (expired tb_rows cutoff s)))))
  (fun refs s => (mkTable (tb_rows s) (tb_copies s ∪ filter (fun kv => kv.1 ∈ refs) ((fun _ => now) <$> tb_rows s)), None))
  (fun refs s => (mkTable (filter (fun kv => kv.1 ∉ refs) (tb_rows s)) (tb_copies s), None)).

Lemma table_lifecycle_spec now : LifecycleSpec tb_rows tb_copies now (table_lifecycle now).
Proof.
  split; cbn.
  - intros cutoff limit s refs [= <-]. split_and!.
    + apply (sublist_NoDup _ (map fst (map_to_list (expired tb_rows cutoff s)))); [|apply sublist_take].
      exact (NoDup_fst_map_to_list (expired tb_rows cutoff s)).
    + intros r Hr. apply elem_of_take in Hr as (i & Hi & _). apply list_elem_of_lookup_2, list_elem_of_fmap in Hi as ([r' t] & -> & Hin).
      apply elem_of_map_to_list in Hin. by exists t.
    + rewrite length_take, length_map, length_map_to_list. done.
  - intros refs s s' e [= <- <-]. cbn. split; [split_and!; [done| |]|].
    + intros r t Ht. by apply lookup_union_Some_l.
    + intros r t Ht. apply lookup_union_Some_raw in Ht as [?|[_ Ht]]; [by left|right].
      apply map_lookup_filter_Some in Ht as [Ht Hin]. split; [done|]. apply lookup_fmap_Some in Ht as (t' & <- & _).
      unfold t_before. lia.
    + intros _ r Hin [t Ht]. cbn. destruct (tb_copies s !! r) as [c|] eqn:Hc; [exists c; by apply lookup_union_Some_l|].
      exists now. apply lookup_union_Some_raw. right. split; [done|]. apply map_lookup_filter_Some. split; [|done].
      apply lookup_fmap_Some. by exists t.
  - intros refs s s' e [= <- <-]. cbn. split_and!; [done|apply map_filter_subseteq| |].
    + intros r Hr. destruct (tb_rows s !! r) as [t|] eqn:Ht.
      * by apply map_lookup_filter_Some.
      * by apply map_lookup_filter_None; left.
    + intros _ r Hr. apply map_lookup_filter_None. right. intros t _ Hn. by apply Hn.
Qed.

Definition table_store (now : time) : gc_store table := mkGcStore (Some (table_lifecycle now)) None None.

Lemma table_store_spec now : GcStoreSpec tb_rows tb_copies now (table_store now).
Proof. split; [|done..]. intros lc [= <-]. apply table_lifecycle_spec. Qed.

Definition day (n : Z) : time := Time (n * 86400 * 1000000000) 0.

Definition old_rows : table :=
  mkTable {[mkRef "j1" "k1" := day 1; mkRef "j1" "k2" := day 2; mkRef "j2" "k1" := day 99]} ∅.

Definition archiving : GCConfig := mkGCConfig true 30 true 0 0 1.

Definition collected : table :=
  match GC 3 (fun _ => None) (day 100) (table_store (day 100)) archiving old_rows with Some (s, _) => s | None => old_rows end.

Lemma gc_keeps_a_copy_witness :
  t_before (day 2) (days_before (day 100) 30) = true /\
  (is_Some (tb_copies collected !! mkRef "j1" "k2") \/
   0 < 0 /\ exists tc, tb_copies old_rows !! mkRef "j1" "k2" = Some tc /\ t_before tc (days_before (day 100) 0) = true).
Proof.
  apply (gc_keeps_a_copy tb_rows tb_copies (day 100) (table_store (day 100)) (table_store_spec _) 3 (fun _ => None)
    archiving old_rows collected None (mkRef "j1" "k2") (day 2)); vm_compute; reflexivity.
Defined.

Lemma gc_ends_clean_witness :
  exists s' e, gcToolInvocations 3 (fun _ => None) (day 100) (table_store (day 100)) archiving old_rows = Some (s', e) /\
    (e = None -> expired tb_rows (day 70) s' = ∅).
Proof.
  apply (gc_ends_clean tb_rows tb_copies (day 100) (table_store (day 100)) (table_store_spec _) 3 (fun _ => None)
    archiving old_rows (table_lifecycle (day 100))); [reflexivity|vm_compute; lia].
Defined.

(** An archive whose writes do nothing: the check after the write notices. *)
Definition lying_sink : ToolInvocationArchiveSink (S:=gset ToolInvocationRef) (R:=ToolInvocationRef) :=
  mkSink (fun _ s => (s, None)) (fun refs s => Ok (Z.of_nat (length (filter (fun r => r ∈ s) refs)))).

Lemma archiving_is_verified_witness :
  forall rec, rec ∈ [mkRef "j" "k"] -> rec ∈ ({[mkRef "j" "k"]} : gset ToolInvocationRef).
Proof.
  apply (archiving_is_verified (fun refs _ => Ok refs) (fun r => r) (fun s => s) lying_sink ltac:(by intros refs s n [= <-])
    [mkRef "j" "k"] {[mkRef "j" "k"]} {[mkRef "j" "k"]} [mkRef "j" "k"]); [discriminate|vm_compute; reflexivity|reflexivity].
Defined.

Example lying_sink_is_caught :
  is_Some (snd (ArchiveToolInvocations (fun refs _ => Ok refs) (fun r => r) (Some lying_sink) [mkRef "j" "k"] ∅)).
Proof. vm_compute. eauto. Qed.
