(* ===== verification/FairQueue.v ===== *)
(** internal/agent/scheduler/queue_scheduler.go: the weighted choice of a
    queue, with tickets dealt out in rounds, and the record of waiting jobs.

    Every operation runs under one lock.  Weights and tickets are Go ints that
    only a configuration sets and that only shrink, so [Z] stands for them. *)

From S2P Require Import Prelude GoTime GoFloat.

(** ** Policy and state *)

Record FairnessPolicy := mkPolicy {
  fp_RealtimeWeight : Z; fp_DefaultWeight : Z; fp_BackgroundWeight : Z; fp_HeavyWeight : Z;
  fp_StarvationThreshold : Z;
}.

Definition DefaultFairnessPolicy : FairnessPolicy := mkPolicy 70 20 8 2 (5 * 60 * 1000000000).

Record FairQueueScheduler := mkFair {
  fq_policy : FairnessPolicy;
  fq_queueWeights : gmap string Z;
  fq_currentRound : Z;
  fq_queueTickets : gmap string Z;
  fq_jobWaitStart : gmap string time;
}.

Definition resetRound (s : FairQueueScheduler) : FairQueueScheduler :=
  mkFair (fq_policy s) (fq_queueWeights s) (fq_currentRound s + 1) (fq_queueWeights s) (fq_jobWaitStart s).

Definition NewFairQueueScheduler (p : FairnessPolicy) : FairQueueScheduler :=
  resetRound (mkFair p {["realtime" := fp_RealtimeWeight p; "default" := fp_DefaultWeight p;
                         "background" := fp_BackgroundWeight p; "heavy" := fp_HeavyWeight p]} 0 ∅ ∅).

(** ** Choosing a queue *)

Definition total (m : gmap string Z) : Z := map_fold (fun _ => Z.add) 0 m.

Definition tickets_of (s : FairQueueScheduler) (q : string) : Z := default 0 (fq_queueTickets s !! q).

(** The first queue with the most tickets. *)
Definition most_tickets (s : FairQueueScheduler) (availableQueues : list string) : Z * string :=
  foldl (fun '(maxTickets, selected) q =>
           if maxTickets <? tickets_of s q then (tickets_of s q, q) else (maxTickets, selected))
    (-1, EmptyString) availableQueues.

Definition with_tickets (t : gmap string Z) (s : FairQueueScheduler) : FairQueueScheduler :=
  mkFair (fq_policy s) (fq_queueWeights s) (fq_currentRound s) t (fq_jobWaitStart s).

Definition SelectQueue (availableQueues : list string) (s : FairQueueScheduler) : FairQueueScheduler * string :=
  let s := if total (fq_queueTickets s) =? 0 then resetRound s else s in
  let selected := snd (most_tickets s availableQueues) in
  if negb (String.eqb selected EmptyString) && (0 <? tickets_of s selected)
  then (with_tickets (<[selected := tickets_of s selected - 1]> (fq_queueTickets s)) s, selected)
  else (s, selected).

(** A sequence of choices, each with the queues that have work at the time. *)
Fixpoint select_all (offers : list (list string)) (s : FairQueueScheduler) : FairQueueScheduler * list string :=
  match offers with
  | [] => (s, [])
  | a :: rest => let '(s1, q) := SelectQueue a s in let '(s2, qs) := select_all rest s1 in (s2, q :: qs)
  end.

(** ** Waiting jobs *)

Definition with_waiting (w : gmap string time) (s : FairQueueScheduler) : FairQueueScheduler :=
  mkFair (fq_policy s) (fq_queueWeights s) (fq_currentRound s) (fq_queueTickets s) w.

Definition TrackJobStart (now : time) (jobID : string) (s : FairQueueScheduler) : FairQueueScheduler :=
  match fq_jobWaitStart s !! jobID with
  | Some _ => s
  | None => with_waiting (<[jobID := now]> (fq_jobWaitStart s)) s
  end.

(** time.Since, which stops at the ends of int64. *)
Definition t_sub (a b : time) : Z := Z.max min_int64 (Z.min max_int64 (unix_nano a - unix_nano b)).

Definition waited_too_long (now : time) (s : FairQueueScheduler) (start : time) : bool :=
  fp_StarvationThreshold (fq_policy s) <? t_sub now start.

Definition CheckStarvation (now : time) (jobID : string) (s : FairQueueScheduler) : bool :=
  match fq_jobWaitStart s !! jobID with
  | None => false
  | Some start => waited_too_long now s start
  end.

Definition fair_CompleteJob (jobID : string) (s : FairQueueScheduler) : FairQueueScheduler :=
  with_waiting (delete jobID (fq_jobWaitStart s)) s.

Record FairStats := mkFairStats {
  fs_current_round : Z; fs_queue_tickets : gmap string Z; fs_queue_weights : gmap string Z;
  fs_waiting_jobs : Z; fs_starved_jobs : Z }.

Definition fair_GetStats (now : time) (s : FairQueueScheduler) : FairStats :=
  mkFairStats (fq_currentRound s) (fq_queueTickets s) (fq_queueWeights s) (Z.of_nat (size (fq_jobWaitStart s)))
    (Z.of_nat (size (filter (fun kv => waited_too_long now s (snd kv) = true) (fq_jobWaitStart s)))).

Definition AdjustWeights (queueClass : string) (newWeight : Z) (s : FairQueueScheduler) : FairQueueScheduler :=
  mkFair (fq_policy s) (<[queueClass := if newWeight <? 0 then 0 else if 100 <? newWeight then 100 else newWeight]> (fq_queueWeights s)) (fq_currentRound s)
    (fq_queueTickets s) (fq_jobWaitStart s).

(** ** Sums of tickets *)

Lemma total_insert_fresh m k v : m !! k = None -> total (<[k := v]> m) = v + total m.
Proof. intros Hk. unfold total. rewrite (map_fold_insert_L (fun _ => Z.add)); [done|intros; lia|done]. Qed.

Lemma total_insert m k v : total (<[k := v]> m) = total m - default 0 (m !! k) + v.
Proof.
  destruct (m !! k) as [x|] eqn:Hk.
  - rewrite <- insert_delete_eq, total_insert_fresh by apply lookup_delete_eq.
    rewrite <- (insert_delete_id m k x) at 2 by done. rewrite total_insert_fresh by apply lookup_delete_eq. cbn. lia.
  - rewrite total_insert_fresh by done. cbn. lia.
Qed.

Definition nonneg (m : gmap string Z) : Prop := forall k v, m !! k = Some v -> 0 <= v.

Lemma total_nonneg m : nonneg m -> 0 <= total m /\ (total m = 0 -> forall k, default 0 (m !! k) = 0).
Proof.
  induction m as [|k v m Hk IH] using map_ind; intros Hn.
  - split; [done|]. intros _ k. by rewrite lookup_empty.
  - rewrite total_insert_fresh by done. assert (nonneg m) as Hm.
    { intros k' v' Hk'. apply (Hn k'). rewrite lookup_insert_ne; [done|]. by intros ->; rewrite Hk in Hk'. }
    destruct (IH Hm) as [Hle Hz]. pose proof (Hn k v (lookup_insert_eq _ _ _)) as Hv. split; [lia|].
    intros Ht k'. destruct (decide (k = k')) as [<-|Hne]; [rewrite lookup_insert_eq; cbn; lia|].
    rewrite lookup_insert_ne by done. apply Hz. lia.
Qed.

(** ** One choice *)

Lemma most_tickets_spec s avail :
  let '(m, sel) := most_tickets s avail in
  (forall q, q ∈ avail -> tickets_of s q <= m) /\
  (m = -1 /\ sel = EmptyString \/ sel ∈ avail /\ m = tickets_of s sel).
Proof.
  unfold most_tickets. induction avail as [|q avail IH] using rev_ind; cbn.
  - split; [intros q Hq; by apply not_elem_of_nil in Hq|by left].
  - rewrite foldl_app. cbn. destruct (foldl _ _ avail) as [m sel]. destruct IH as [Hle Hsel].
    destruct (m <? tickets_of s q) eqn:Hc; split.
    + intros q' Hq'. apply elem_of_app in Hq' as [Hq'|Hq']; [apply Hle in Hq'; lia|].
      apply list_elem_of_singleton in Hq' as ->. lia.
    + right. split; [|done]. apply elem_of_app. right. by apply list_elem_of_singleton.
    + intros q' Hq'. apply elem_of_app in Hq' as [Hq'|Hq']; [by apply Hle|].
      apply list_elem_of_singleton in Hq' as ->. lia.
    + destruct Hsel as [Hsel|[Hin ->]]; [by left|]. right. split; [|done]. apply elem_of_app. by left.
Qed.

(** A queue is offered when it has work. *)
Definition offers_all (weights : gmap string Z) (avail : list string) : Prop :=
  forall q, 0 < default 0 (weights !! q) -> q ∈ avail.

Definition in_round (w : gmap string Z) (s : FairQueueScheduler) : Prop :=
  fq_queueWeights s = w /\ nonneg (fq_queueTickets s) /\ fq_queueTickets s !! EmptyString = None /\
  forall q, tickets_of s q <= default 0 (w !! q).

Lemma SelectQueue_spends w s avail :
  in_round w s -> offers_all w avail -> 0 < total (fq_queueTickets s) ->
  let '(s', q) := SelectQueue avail s in
  in_round w s' /\ total (fq_queueTickets s') = total (fq_queueTickets s) - 1 /\
  forall q', tickets_of s' q' = tickets_of s q' - (if decide (q' = q) then 1 else 0).
Proof.
  intros (Hw & Hn & He & Hle) Ho Ht. unfold SelectQueue. rewrite (proj2 (Z.eqb_neq _ _)) by lia.
  pose proof (most_tickets_spec s avail) as Hs. destruct (most_tickets s avail) as [m sel]. cbn [snd].
  destruct Hs as [Hmax Hsel].
  assert (exists q, 0 < tickets_of s q) as [q Hq].
  { destruct (decide (map_Exists (fun _ v => 0 < v) (fq_queueTickets s))) as [(q & v & Hq & Hv)|Hno].
    - exists q. unfold tickets_of. by rewrite Hq.
    - exfalso. apply map_not_Exists in Hno.
      assert (total (fq_queueTickets s) = 0); [|lia]. clear -Hno Hn.
      induction (fq_queueTickets s) as [|k v m Hk IH] using map_ind; [done|].
      rewrite total_insert_fresh by done.
      assert (v = 0) as -> by (pose proof (Hn k v (lookup_insert_eq _ _ _));
        pose proof (map_Forall_insert_1_1 _ _ _ _ Hno); cbn in *; lia).
      rewrite IH; [done| |by eapply map_Forall_insert_1_2].
      intros k' v' Hk'. apply (Hn k'). rewrite lookup_insert_ne; [done|]. by intros ->; rewrite Hk in Hk'. }
  assert (q ∈ avail) as Hin by (apply Ho; pose proof (Hle q); lia). pose proof (Hmax q Hin) as Hm.
  destruct Hsel as [[-> _]|[Hselin ->]]; [lia|].
  assert (sel <> EmptyString) as Hsn by (intros ->; unfold tickets_of in *; rewrite He in *; cbn in *; lia).
  rewrite (proj2 (String.eqb_neq _ _) Hsn), (proj2 (Z.ltb_lt _ _)) by lia. cbn [negb andb].
  assert (forall q', tickets_of (with_tickets (<[sel := tickets_of s sel - 1]> (fq_queueTickets s)) s) q'
    = tickets_of s q' - (if decide (q' = sel) then 1 else 0)) as Htk.
  { intros q'. unfold tickets_of at 1. cbn. case_decide as Hd.
    - subst q'. rewrite lookup_insert_eq. done.
    - rewrite lookup_insert_ne by done. unfold tickets_of. lia. }
  split; [|split; [cbn; rewrite total_insert; unfold tickets_of; lia|done]]. split; [done|]. split_and!.
  - intros k v Hk. cbn in Hk. apply lookup_insert_Some in Hk as [[<- <-]|[_ Hk]]; [lia|by eapply Hn].
  - cbn. by rewrite lookup_insert_ne.
  - intros q'. rewrite Htk. pose proof (Hle q'). case_decide; lia.
Qed.

(** ** Rounds *)

Definition chosen (q : string) (qs : list string) : Z := Z.of_nat (length (filter (fun x => x = q) qs)).

Lemma chosen_cons q x qs : chosen q (x :: qs) = (if decide (q = x) then 1 else 0) + chosen q qs.
Proof. unfold chosen. rewrite filter_cons. repeat case_decide; cbn; try congruence; lia. Qed.

Lemma chosen_app q l1 l2 : chosen q (l1 ++ l2) = chosen q l1 + chosen q l2.
Proof. unfold chosen. rewrite filter_app, length_app. lia. Qed.

Lemma select_all_app o1 o2 s :
  select_all (o1 ++ o2) s =
    let '(s1, q1) := select_all o1 s in let '(s2, q2) := select_all o2 s1 in (s2, q1 ++ q2).
Proof.
  revert s. induction o1 as [|a o1 IH]; intros s; cbn; [by destruct (select_all o2 s)|].
  destruct (SelectQueue a s) as [s1 q]. rewrite IH. destruct (select_all o1 s1) as [s2 qs].
  by destruct (select_all o2 s2).
Qed.

(** As long as the round has tickets, every choice spends one. *)
Lemma select_all_spends w offers s :
  in_round w s -> Forall (offers_all w) offers -> Z.of_nat (length offers) <= total (fq_queueTickets s) ->
  let '(s', qs) := select_all offers s in
  in_round w s' /\ total (fq_queueTickets s') = total (fq_queueTickets s) - Z.of_nat (length offers) /\
  forall q, tickets_of s' q = tickets_of s q - chosen q qs.
Proof.
  intros Hr Ho. revert s Hr. induction Ho as [|a offers Ha _ IH]; intros s Hr Hlen; cbn [select_all].
  - split; [done|]. cbn. split; [lia|]. intros q. unfold chosen. cbn. lia.
  - cbn [length] in Hlen. pose proof (SelectQueue_spends w s a Hr Ha ltac:(lia)) as Hs.
    destruct (SelectQueue a s) as [s1 q]. destruct Hs as (Hr1 & Ht1 & Htk).
    specialize (IH s1 Hr1 ltac:(lia)). destruct (select_all offers s1) as [s2 qs]. destruct IH as (Hr2 & Ht2 & Htk2).
    split; [done|]. split; [cbn [length]; lia|]. intros q'. rewrite Htk2, Htk, chosen_cons. lia.
Qed.

(** The next choice deals, or has just dealt, a round. *)
Definition at_start (w : gmap string Z) (s : FairQueueScheduler) : Prop :=
  fq_queueWeights s = w /\ (fq_queueTickets s = w \/ total (fq_queueTickets s) = 0).

Definition weights_ok (w : gmap string Z) : Prop := nonneg w /\ w !! EmptyString = None /\ 0 < total w.

Lemma SelectQueue_deals w s a :
  weights_ok w -> at_start w s ->
  exists s0, fq_queueTickets s0 = w /\ fq_queueWeights s0 = w /\ SelectQueue a s = SelectQueue a s0.
Proof.
  intros (_ & _ & Hpos) [Hw [Ht|Ht]]; [by exists s|]. exists (resetRound s). split_and!; [done..|].
  unfold SelectQueue. rewrite Ht. cbn [fq_queueTickets resetRound]. rewrite Hw.
  by rewrite (proj2 (Z.eqb_neq (total w) 0)) by lia.
Qed.

Lemma one_round w offers s :
  weights_ok w -> at_start w s -> Forall (offers_all w) offers -> Z.of_nat (length offers) = total w ->
  let '(s', qs) := select_all offers s in at_start w s' /\ forall q, chosen q qs = default 0 (w !! q).
Proof.
  intros Hok Hs Ho Hlen. destruct offers as [|a offers]; [destruct Hok as (_ & _ & Hp); cbn in Hlen; lia|].
  destruct (SelectQueue_deals w s a Hok Hs) as (s0 & Ht0 & Hw0 & Heq).
  assert (select_all (a :: offers) s = select_all (a :: offers) s0) as -> by (cbn; by rewrite Heq).
  assert (in_round w s0) as Hr.
  { destruct Hok as (Hn & He & _). split; [done|]. rewrite Ht0. split; [done|]. split; [done|].
    intros q. unfold tickets_of. rewrite Ht0. lia. }
  pose proof (select_all_spends w (a :: offers) s0 Hr Ho ltac:(rewrite Ht0; lia)) as Hsp.
  destruct (select_all (a :: offers) s0) as [s' qs]. destruct Hsp as ((Hw' & Hn' & _) & Ht' & Htk).
  rewrite Ht0 in Ht'. assert (total (fq_queueTickets s') = 0) as Hz by lia. split; [by split; [|right]|].
  intros q. pose proof (proj2 (total_nonneg _ Hn') Hz q) as Hq. specialize (Htk q).
  unfold tickets_of in Htk. rewrite Hq, Ht0 in Htk. lia.
Qed.

Lemma every_round w k offers s :
  weights_ok w -> at_start w s -> Forall (offers_all w) offers -> Z.of_nat (length offers) = Z.of_nat k * total w ->
  forall q, chosen q (snd (select_all offers s)) = Z.of_nat k * default 0 (w !! q).
Proof.
  intros Hok. revert offers s. induction k as [|k IH]; intros offers s Hs Ho Hlen q.
  - destruct offers; [done|cbn in Hlen; lia].
  - pose proof Hok as (_ & _ & Hp).
    rewrite <- (take_drop (Z.to_nat (total w)) offers), select_all_app. rewrite <- (take_drop (Z.to_nat (total w)) offers) in Ho.
    apply Forall_app in Ho as [Ho1 Ho2].
    pose proof (one_round w (take (Z.to_nat (total w)) offers) s Hok Hs Ho1 ltac:(rewrite length_take; lia)) as H1.
    destruct (select_all _ s) as [s1 q1]. destruct H1 as [Hs1 Hq1].
    specialize (IH _ s1 Hs1 Ho2 ltac:(rewrite length_drop; lia) q).
    destruct (select_all _ s1) as [s2 q2]. cbn [snd] in *. rewrite chosen_app, Hq1, IH. lia.
Qed.

Definition policy_weights (p : FairnessPolicy) : gmap string Z := fq_queueWeights (NewFairQueueScheduler p).

Definition policy_ok (p : FairnessPolicy) : Prop :=
  0 <= fp_RealtimeWeight p /\ 0 <= fp_DefaultWeight p /\ 0 <= fp_BackgroundWeight p /\ 0 <= fp_HeavyWeight p /\
  0 < fp_RealtimeWeight p + fp_DefaultWeight p + fp_BackgroundWeight p + fp_HeavyWeight p.

Lemma policy_total p :
  total (policy_weights p) = fp_RealtimeWeight p + fp_DefaultWeight p + fp_BackgroundWeight p + fp_HeavyWeight p.
Proof. unfold policy_weights. cbn. rewrite <- (insert_empty "heavy"), !total_insert_fresh by done. change (total ∅) with 0. lia. Qed.

Lemma policy_weights_ok p : policy_ok p -> weights_ok (policy_weights p).
Proof.
  intros (H1 & H2 & H3 & H4 & H5). split; [|split; [done|rewrite policy_total; lia]].
  intros k v Hk. unfold policy_weights in Hk. cbn in Hk.
  repeat (apply lookup_insert_Some in Hk as [[_ <-]|[_ Hk]]; [done|]).
  by apply lookup_singleton_Some in Hk as [_ <-].
Qed.

(** C34: when the queues with a weight always have work, every queue is chosen
    exactly as often as its weight in each round, for any number of rounds and
    whatever the order in which the queues are offered: none starves. *)
Theorem every_round_is_fair p k offers q :
  policy_ok p -> Forall (offers_all (policy_weights p)) offers ->
  Z.of_nat (length offers) = Z.of_nat k * total (policy_weights p) ->
  chosen q (snd (select_all offers (NewFairQueueScheduler p))) = Z.of_nat k * default 0 (policy_weights p !! q).
Proof.
  intros Hp Ho Hlen. apply every_round; [by apply policy_weights_ok| |done..]. split; [done|by left].
Qed.

Definition busy : list string := ["heavy"; "background"; "default"; "realtime"].

Lemma every_round_is_fair_witness :
  chosen "heavy" (snd (select_all (replicate 200 busy) (NewFairQueueScheduler DefaultFairnessPolicy))) = 4.
Proof.
  apply (every_round_is_fair DefaultFairnessPolicy 2 (replicate 200 busy) "heavy").
  - repeat split; vm_compute; congruence.
  - apply Forall_replicate. intros q Hq. unfold policy_weights in Hq. cbn in Hq.
    repeat (match type of Hq with context [<[?k := _]> _ !! q] =>
      destruct (decide (k = q)) as [<-|]; [unfold busy; set_solver|rewrite lookup_insert_ne in Hq by done] end).
    destruct (decide ("heavy" = q)) as [<-|]; [unfold busy; set_solver|].
    rewrite lookup_singleton_ne in Hq by done. cbn in Hq. lia.
  - vm_compute. reflexivity.
Defined.

(** ** Where it stops short

    A round ends only when all tickets are spent, and those of a queue without
    work never are: once the others have spent theirs, the first one offered
    is chosen for ever. *)
Lemma idle_queue_starves_others n :
  chosen "default" (snd (select_all (replicate n ["realtime"; "default"]) (NewFairQueueScheduler DefaultFairnessPolicy))) <= 20.
Proof.
  set (pair := ["realtime"; "default"]). set (s0 := NewFairQueueScheduler DefaultFairnessPolicy).
  assert (forall m s, SelectQueue pair s = (s, "realtime") -> chosen "default" (snd (select_all (replicate m pair) s)) = 0) as Hfix.
  { intros m s Hs. induction m as [|m IH]; [done|]. cbn [replicate select_all]. rewrite Hs.
    destruct (select_all (replicate m pair) s). cbn [snd] in *. by rewrite chosen_cons. }
  assert (forall m, (m <= 90)%nat -> chosen "default" (snd (select_all (replicate m pair) s0)) <= 20) as Hearly.
  { assert (forallb (fun m => chosen "default" (snd (select_all (replicate m pair) s0)) <=? 20) (seq 0 91) = true) as Hall
      by (vm_compute; reflexivity).
    intros m Hm. rewrite forallb_forall in Hall. apply Z.leb_le, Hall. apply in_seq. lia. }
  destruct (decide (n <= 90)%nat) as [Hn|Hn]; [by apply Hearly|].
  replace n with (90 + (n - 90))%nat by lia. rewrite replicate_add, select_all_app.
  pose proof (Hearly 90%nat ltac:(lia)) as H90.
  destruct (select_all (replicate 90 pair) s0) as [s1 q1] eqn:H1. cbn [snd] in H90.
  assert (SelectQueue pair s1 = (s1, "realtime")) as Hs1.
  { assert (s1 = fst (select_all (replicate 90 pair) s0)) as -> by (by rewrite H1). vm_compute. reflexivity. }
  specialize (Hfix (n - 90)%nat s1 Hs1). destruct (select_all _ s1) as [s2 q2]. cbn [snd] in *.
  rewrite chosen_app. lia.
Qed.
