(* ===== verification/AccessControl.v ===== *)
(** Access control: the roles and permissions of pkg/auth/{rbac,role_store,
    context}.go, the middleware of internal/api/http/middleware/{middleware,
    authz,audit}.go, the chains and the route table of
    internal/api/http/router.go, and the role handlers of handler.go.

    A handler is a function of the context and the request from world to world
    and response; a middleware wraps the handlers after it, which is what
    calling or not calling [c.Next] comes to.  What the JWT library finds in a
    request's token and what [c.Bind] reads from its body are fields of the
    request; matching a path is the server library's, so a request comes with
    its route.  The role store is an interface with a specification, the
    in-memory store is an instance.  Handlers other than the role handlers are
    an argument: they have no access to the role store. *)

From S2P Require Import Prelude GoTime Json GoStrings.

(** ** Roles: pkg/auth/rbac.go *)

Definition PermissionJobView : string := "job:view".
Definition PermissionJobCreate : string := "job:create".
Definition PermissionJobStop : string := "job:stop".
Definition PermissionJobExport : string := "job:export".
Definition PermissionTraceView : string := "trace:view".
Definition PermissionToolExecute : string := "tool:execute".
Definition PermissionAgentManage : string := "agent:manage".
Definition PermissionAuditView : string := "audit:view".

Definition RoleAdmin : string := "admin".
Definition RoleOperator : string := "operator".
Definition RoleAuditor : string := "auditor".
Definition RoleUser : string := "user".

Definition RolePermissions : gmap string (list string) := {[
  RoleAdmin := [PermissionJobView; PermissionJobCreate; PermissionJobStop; PermissionJobExport; PermissionTraceView;
                PermissionToolExecute; PermissionAgentManage; PermissionAuditView];
  RoleOperator := [PermissionJobView; PermissionJobStop; PermissionJobExport; PermissionTraceView; PermissionToolExecute];
  RoleAuditor := [PermissionJobView; PermissionJobExport; PermissionTraceView; PermissionAuditView];
  RoleUser := [PermissionJobView; PermissionJobCreate; PermissionTraceView]
]}.

Definition HasPermission (role permission : string) : bool :=
  match RolePermissions !! role with
  | None => false
  | Some permissions => existsb (fun p => String.eqb p permission) permissions
  end.

(** ** Role stores *)

Class RoleStore (S : Type) := {
  GetUserRole : string -> string -> S -> result string string;
  SetUserRole : string -> string -> string -> S -> S * option string;
}.

(** What a client may rely on: for the tenants the store tells apart, it reads
    back the role last set for exactly that user of that tenant. *)
Class RoleStoreSpec (S : Type) `{!RoleStore S} := {
  tells_apart : string -> Prop;
  role_in : S -> string -> string -> string;
  GetUserRole_law s t u r : GetUserRole t u s = Ok r -> r = role_in s t u;
  SetUserRole_law s s' t u r e t' u' :
    SetUserRole t u r s = (s', e) -> tells_apart t -> tells_apart t' ->
    role_in s' t' u' = if decide (e = None /\ t' = t /\ u' = u) then r else role_in s t' u';
}.

Record MemoryRoleStore := mkRoleStore { roles : gmap string string }.

Definition NewMemoryRoleStore : MemoryRoleStore := mkRoleStore ∅.

Definition nul : ascii := "000".

Definition role_key (tenantID userID : string) : string := tenantID +:+ String nul userID.

#[export] Instance memory_role_store : RoleStore MemoryRoleStore := {
  GetUserRole tenantID userID s := Ok (default RoleUser (roles s !! role_key tenantID userID));
  SetUserRole tenantID userID role s := (mkRoleStore (<[role_key tenantID userID := role]> (roles s)), None);
}.

(** SimpleRBACChecker *)
Definition CheckPermission {S} `{!RoleStore S} (tenantID userID permission : string) (s : S) : result string bool :=
  try role <- GetUserRole tenantID userID s ;; Ok (HasPermission role permission).

(** ** Requests and handlers *)

Record Request := mkRequest {
  rq_Token : result Z (gmap string json);
  rq_TenantHeader : string;
  rq_UserHeader : string;
  rq_Form : result string (gmap string string);
}.

(** The values of pkg/auth/context.go, empty when they were never set. *)
Record Context := mkContext { cx_Claims : gmap string json; cx_TenantID : string; cx_UserID : string }.

Definition Background : Context := mkContext ∅ EmptyString EmptyString.

Record Response := mkResponse { rs_Status : Z; rs_Body : json }.

Definition HandlerFunc (W : Type) : Type := Context -> Request -> W -> W * Response.
Definition Middleware (W : Type) : Type := HandlerFunc W -> HandlerFunc W.

Definition refuse (code : Z) (msg : string) : Response := mkResponse code (JObj [("error", JStr msg)]).

(** ** Authentication: middleware.go *)

Record AuthUser := mkAuthUser { au_Username : string; au_TenantID : string; au_UserID : string; au_Roles : list string }.

Definition getClaimString (claims : gmap string json) (key : string) : string :=
  match claims !! key with Some (JStr s) => s | _ => EmptyString end.

Definition getClaimRoles (claims : gmap string json) (key : string) : list string :=
  match claims !! key with
  | Some (JArr roles) => omap (fun r => match r with JStr s => Some s | _ => None end) roles
  | _ => []
  end.

Definition or_else (s fallback : string) : string := if String.eqb s EmptyString then fallback else s.

Definition IdentityHandler (claims : gmap string json) : AuthUser :=
  let username := getClaimString claims "id" in
  mkAuthUser username (or_else (getClaimString claims "tenant_id") "default")
    (or_else (getClaimString claims "user_id") username) (getClaimRoles claims "roles").

Definition Authorizator (u : AuthUser) : bool := (0 <? length (au_Roles u))%nat.

(** The JWT middleware: a token the library refuses, or a user without any
    role, ends the request; otherwise the claims are kept. *)
Definition jwt_MiddlewareFunc {W} (jwt_message : Z -> string) : Middleware W := fun next cx rq w =>
  let unauthorized code := mkResponse code (JObj [("code", JNum (itoa code)); ("message", JStr (jwt_message code))]) in
  match rq_Token rq with
  | Err code => (w, unauthorized code)
  | Ok claims =>
      if Authorizator (IdentityHandler claims) then next (mkContext claims (cx_TenantID cx) (cx_UserID cx)) rq w
      else (w, unauthorized 403)
  end.

Definition Auth {W} : Middleware W := fun next => next.

Definition InjectAuthContext {W} : Middleware W := fun next cx rq w =>
  let tenantID := getClaimString (cx_Claims cx) "tenant_id" in
  if negb (String.eqb (rq_TenantHeader rq) EmptyString) && negb (String.eqb tenantID EmptyString)
     && negb (String.eqb (rq_TenantHeader rq) tenantID)
  then (w, refuse 403 "X-Tenant-ID header does not match JWT tenant_id")
  else
    let userID := getClaimString (cx_Claims cx) "user_id" in
    next (mkContext (cx_Claims cx) (or_else tenantID "default")
            (or_else (or_else userID (rq_UserHeader rq)) "anonymous")) rq w.

(** ** Authorization: authz.go *)

Definition RequirePermission {S X} `{!RoleStore S} (permission : string) : Middleware (S * X) := fun next cx rq w =>
  if String.eqb (cx_UserID cx) EmptyString || String.eqb (cx_TenantID cx) EmptyString
  then (w, refuse 401 "authentication required")
  else match CheckPermission (cx_TenantID cx) (cx_UserID cx) permission (fst w) with
       | Ok true => next cx rq w
       | _ => (w, refuse 403 "permission denied")
       end.

Definition TenantIsolation {W} : Middleware W := fun next cx rq w =>
  if String.eqb (cx_TenantID cx) EmptyString then (w, refuse 401 "tenant context required") else next cx rq w.

(** ** The role handlers: handler.go *)

Section handlers.
Context {S X : Type} `{!RoleStore S} (rbac : bool).

Definition not_configured : Response := refuse 503 "RBAC not configured".

Definition form_value (form : gmap string string) (k : string) : string := default EmptyString (form !! k).

Definition handle_GetUserRole : HandlerFunc (S * X) := fun cx rq w =>
  if negb rbac then (w, not_configured)
  else if String.eqb (cx_UserID cx) EmptyString || String.eqb (cx_TenantID cx) EmptyString
  then (w, refuse 401 "authentication required")
  else match GetUserRole (cx_TenantID cx) (cx_UserID cx) (fst w) with
       | Err e => (w, refuse 500 e)
       | Ok role => (w, mkResponse 200 (JObj [("role", JStr role); ("tenant_id", JStr (cx_TenantID cx));
                                             ("user_id", JStr (cx_UserID cx))]))
       end.

Definition handle_AssignRole : HandlerFunc (S * X) := fun cx rq w =>
  if negb rbac then (w, not_configured)
  else match rq_Form rq with
       | Err e => (w, refuse 400 e)
       | Ok form =>
           if String.eqb (cx_TenantID cx) EmptyString then (w, refuse 401 "tenant required")
           else let userID := form_value form "user_id" in
                let role := form_value form "role" in
                match SetUserRole (cx_TenantID cx) userID role (fst w) with
                | (s', Some e) => ((s', snd w), refuse 500 e)
                | (s', None) => ((s', snd w), mkResponse 200 (JObj [("role", JStr role); ("user_id", JStr userID)]))
                end
       end.

Definition handle_CheckPermission : HandlerFunc (S * X) := fun cx rq w =>
  if negb rbac then (w, not_configured)
  else match rq_Form rq with
       | Err e => (w, refuse 400 e)
       | Ok form =>
           if String.eqb (cx_UserID cx) EmptyString || String.eqb (cx_TenantID cx) EmptyString
           then (w, refuse 401 "authentication required")
           else match CheckPermission (cx_TenantID cx) (cx_UserID cx) (form_value form "permission") (fst w) with
                | Err e => (w, refuse 500 e)
                | Ok allowed => (w, mkResponse 200 (JObj [("allowed", JBool allowed)]))
                end
       end.
End handlers.

(** ** Routes: router.go *)

Record Route := mkRoute { ro_Method : string; ro_Path : string; ro_Permission : option string; ro_Handler : string }.

#[export] Instance Route_eq_dec : EqDecision Route.
Proof. solve_decision. Defined.

Record Router := mkRouter { rt_jwtAuth : bool; rt_authz : bool; rt_forensicsExperimental : bool }.

Definition guarded (method path permission handler : string) : Route := mkRoute method path (Some permission) handler.
Definition unguarded (method path handler : string) : Route := mkRoute method path None handler.

(** Which chain a route has; the deprecation headers of older routes and the
    access log are left out. *)
Definition Build (rt : Router) : list Route :=
    [unguarded "GET" "/" "HomePage";
     unguarded "GET" "/metrics" "SystemMetrics";
     unguarded "GET" "/api/health" "HealthCheck"]
  ++ (if rt_jwtAuth rt then [unguarded "POST" "/api/login" "LoginHandler"] else [])
  ++ [guarded "POST" "/api/documents/upload" PermissionJobView "UploadDocument";
     guarded "POST" "/api/documents/upload/async" PermissionJobView "UploadDocumentAsync";
     guarded "GET" "/api/documents/upload/status/:task_id" PermissionJobView "UploadStatus";
     guarded "GET" "/api/documents/" PermissionJobView "ListDocuments";
     guarded "GET" "/api/documents/:id" PermissionJobView "GetDocument";
     guarded "DELETE" "/api/documents/:id" PermissionJobView "DeleteDocument";
     guarded "GET" "/api/knowledge/collections" PermissionJobView "ListCollections";
     guarded "POST" "/api/knowledge/collections" PermissionJobView "CreateCollection";
     guarded "DELETE" "/api/knowledge/collections/:id" PermissionJobView "DeleteCollection";
     guarded "POST" "/api/runs" PermissionJobCreate "CreateRun";
     guarded "POST" "/api/runs/" PermissionJobCreate "CreateRun";
     guarded "GET" "/api/runs/:id" PermissionJobView "GetRun";
     guarded "GET" "/api/runs/:id/events" PermissionJobView "GetRunEvents";
     guarded "POST" "/api/runs/:id/tool-calls" PermissionJobCreate "UpsertToolCall";
     guarded "POST" "/api/runs/:id/pause" PermissionJobStop "PauseRun";
     guarded "POST" "/api/runs/:id/resume" PermissionJobCreate "ResumeRun";
     guarded "POST" "/api/runs/:id/human-decisions" PermissionJobCreate "InjectHumanDecision";
     guarded "POST" "/api/query/" PermissionJobCreate "Query";
     guarded "POST" "/api/query/batch" PermissionJobCreate "BatchQuery";
     guarded "POST" "/api/agent/run" PermissionJobCreate "AgentRun";
     guarded "POST" "/api/agent/resume" PermissionJobCreate "AgentResumeCheckpoint";
     guarded "POST" "/api/agent/stream" PermissionJobCreate "AgentStream";
     guarded "POST" "/api/agents/:id/message" PermissionJobCreate "AgentMessage";
     guarded "GET" "/api/agents/:id/state" PermissionJobView "AgentState";
     guarded "POST" "/api/agents/:id/resume" PermissionJobCreate "AgentResume";
     guarded "POST" "/api/agents/:id/stop" PermissionJobStop "AgentStop";
     guarded "GET" "/api/agents/:id/jobs/:job_id" PermissionJobView "GetAgentJob";
     guarded "GET" "/api/agents/:id/jobs" PermissionJobView "ListAgentJobs";
     guarded "GET" "/api/jobs/:id" PermissionJobView "GetJob";
     guarded "POST" "/api/jobs/:id/stop" PermissionJobStop "JobStop";
     guarded "POST" "/api/jobs/:id/pause" PermissionJobStop "JobPause";
     guarded "POST" "/api/jobs/:id/resume" PermissionJobCreate "JobResume";
     guarded "POST" "/api/jobs/:id/signal" PermissionJobCreate "JobSignal";
     guarded "POST" "/api/jobs/:id/message" PermissionJobCreate "JobMessage";
     guarded "GET" "/api/jobs/:id/events" PermissionJobView "GetJobEvents";
     guarded "GET" "/api/jobs/:id/replay" PermissionTraceView "GetJobReplay";
     guarded "GET" "/api/jobs/:id/verify" PermissionTraceView "GetJobVerify";
     guarded "GET" "/api/jobs/:id/trace" PermissionTraceView "GetJobTrace";
     guarded "GET" "/api/jobs/:id/trace/cognition" PermissionTraceView "GetJobCognitionTrace";
     guarded "GET" "/api/jobs/:id/chain" PermissionTraceView "GetJobChain";
     guarded "GET" "/api/jobs/:id/nodes/:node_id" PermissionTraceView "GetJobNode";
     guarded "POST" "/api/jobs/:id/runtime/tools/:name/invoke" PermissionToolExecute "RuntimeToolInvoke";
     guarded "POST" "/api/jobs/:id/runtime/llm/invoke" PermissionJobCreate "RuntimeLLMInvoke";
     guarded "GET" "/api/jobs/:id/trace/page" PermissionTraceView "GetJobTracePage";
     guarded "POST" "/api/jobs/:id/export" PermissionJobExport "ExportJobForensics"]
  ++ (if rt_forensicsExperimental rt then
    [guarded "GET" "/api/jobs/:id/evidence-graph" PermissionAuditView "GetJobEvidenceGraph";
     guarded "GET" "/api/jobs/:id/audit-log" PermissionAuditView "GetJobAuditLog"] else [])
  ++ [guarded "POST" "/api/approvals" PermissionJobCreate "CreateApproval";
     guarded "GET" "/api/approvals" PermissionJobView "ListApprovals";
     guarded "GET" "/api/approvals/:id" PermissionJobView "GetApproval";
     guarded "POST" "/api/approvals/:id/approve" PermissionJobCreate "ApproveApproval";
     guarded "POST" "/api/approvals/:id/reject" PermissionJobCreate "RejectApproval"]
  ++ (if rt_forensicsExperimental rt then
    [guarded "POST" "/api/forensics/query" PermissionJobExport "ForensicsQuery";
     guarded "POST" "/api/forensics/batch-export" PermissionJobExport "ForensicsBatchExport";
     guarded "GET" "/api/forensics/export-status/:task_id" PermissionJobExport "ForensicsExportStatus";
     guarded "GET" "/api/forensics/consistency/:job_id" PermissionJobView "ForensicsConsistencyCheck";
     guarded "POST" "/api/forensics/ai/detect-anomalies" PermissionJobView "AIForensicsDetectAnomalies";
     guarded "GET" "/api/compliance/templates" PermissionJobView "ComplianceTemplates";
     guarded "POST" "/api/compliance/apply" PermissionJobExport "ComplianceApply";
     guarded "POST" "/api/compliance/report" PermissionJobExport "ComplianceReport"] else [])
  ++ [guarded "GET" "/api/tools/" PermissionToolExecute "ListTools";
     guarded "GET" "/api/tools/:name" PermissionToolExecute "GetTool";
     guarded "GET" "/api/system/status" PermissionJobView "SystemStatus";
     guarded "GET" "/api/system/metrics" PermissionJobView "SystemMetrics";
     guarded "GET" "/api/system/workers" PermissionJobView "SystemWorkers";
     guarded "GET" "/api/observability/summary" PermissionJobView "GetObservabilitySummary";
     guarded "GET" "/api/observability/stuck" PermissionJobView "GetObservabilityStuck";
     guarded "GET" "/api/trace/overview/page" PermissionTraceView "GetTraceOverviewPage";
     guarded "GET" "/api/rbac/role" PermissionAgentManage "GetUserRole";
     guarded "POST" "/api/rbac/role" PermissionAgentManage "AssignRole";
     guarded "POST" "/api/rbac/check" PermissionJobView "CheckPermission";
     unguarded "POST" "/api/telemetry/v1/events" "IngestTelemetry";
     unguarded "GET" "/api/telemetry/v1/jobs/:id/events" "GetTelemetryJobEvents";
     unguarded "GET" "/api/telemetry/v1/jobs" "ListTelemetryJobs"].

Section server.
Context {S X : Type} `{!RoleStore S} (jwt_message : Z -> string) (other : string -> HandlerFunc X).

Definition authChain (rt : Router) (permission : string) : list (Middleware (S * X)) :=
  [if rt_jwtAuth rt then jwt_MiddlewareFunc jwt_message else Auth; InjectAuthContext]
  ++ if rt_authz rt then [RequirePermission permission] else [].

Definition lifted (name : string) : HandlerFunc (S * X) := fun cx rq w =>
  let '(x', resp) := other name cx rq (snd w) in ((fst w, x'), resp).

Definition handler (rbac : bool) (name : string) : HandlerFunc (S * X) :=
  if String.eqb name "GetUserRole" then handle_GetUserRole rbac
  else if String.eqb name "AssignRole" then handle_AssignRole rbac
  else if String.eqb name "CheckPermission" then handle_CheckPermission rbac
  else lifted name.

Definition chain (ms : list (Middleware (S * X))) (h : HandlerFunc (S * X)) : HandlerFunc (S * X) :=
  foldr (fun m next => m next) h ms.

(** The server answers a request for a route. *)
Definition serve (rt : Router) (rbac : bool) (ro : Route) (rq : Request) (w : S * X) : (S * X) * Response :=
  chain (match ro_Permission ro with Some p => authChain rt p | None => [] end) (handler rbac (ro_Handler ro))
    Background rq w.

Definition serve_all (rt : Router) (rbac : bool) (rqs : list (Route * Request)) (w : S * X) : S * X :=
  foldl (fun w '(ro, rq) => fst (serve rt rbac ro rq w)) w rqs.

(** ** The access log: audit.go *)

Record AuditLog := mkAuditLog {
  al_TenantID : string; al_UserID : string; al_Action : string;
  al_ResourceType : string; al_ResourceID : string; al_Success : bool }.

Definition determineAction (method path : string) : string :=
  if str_contains path "/export" then "export_evidence"
  else if str_contains path "/trace" then "view_trace"
  else if str_contains path "/jobs/" then
    if String.eqb method "GET" then "view_job"
    else if String.eqb method "POST" then
      if str_contains path "/stop" then "stop_job"
      else if str_contains path "/signal" then "signal_job"
      else "create_job"
    else if String.eqb method "DELETE" then "delete_job"
    else "unknown"
  else "unknown".

Fixpoint split_slash (acc : string) (s : string) : list string :=
  match s with
  | EmptyString => [str_rev acc]
  | String c rest => if Ascii.eqb c "/" then str_rev acc :: split_slash EmptyString rest else split_slash (String c acc) rest
  end.

Fixpoint trim_left_slash (s : string) : string :=
  match s with String c rest => if Ascii.eqb c "/" then trim_left_slash rest else s | EmptyString => s end.

Definition extractResource (path : string) : string * string :=
  match split_slash EmptyString (str_rev (trim_left_slash (str_rev (trim_left_slash path)))) with
  | _ :: p1 :: p2 :: _ =>
      if String.eqb p1 "jobs" then ("job", p2) else if String.eqb p1 "agents" then ("agent", p2) else ("unknown", EmptyString)
  | _ => ("unknown", EmptyString)
  end.

(** The middleware is global: it runs before the chain of the route, on the
    context the server made. *)
Definition AuditAccess (method path : string) (next : HandlerFunc (S * X)) (cx : Context) (rq : Request) (w : S * X)
  : (S * X) * Response * AuditLog :=
  let '(w', resp) := next cx rq w in
  let '(resourceType, resourceID) := extractResource path in
  (w', resp, mkAuditLog (cx_TenantID cx) (cx_UserID cx) (determineAction method path) resourceType resourceID
               (rs_Status resp <? 400)).

Definition serve_audited (rt : Router) (rbac : bool) (path : string) (ro : Route) (rq : Request) (w : S * X)
  : (S * X) * Response * AuditLog :=
  AuditAccess (ro_Method ro) path
    (chain (match ro_Permission ro with Some p => authChain rt p | None => [] end) (handler rbac (ro_Handler ro)))
    Background rq w.
End server.

(** ** The in-memory store meets the specification

    The key joins tenant and user by a NUL, so the tenants it tells apart are
    those without one. *)

Fixpoint no_nul (s : string) : bool :=
  match s with EmptyString => true | String c rest => negb (Ascii.eqb c nul) && no_nul rest end.

Lemma role_key_inj t u t' u' :
  no_nul t = true -> no_nul t' = true -> role_key t u = role_key t' u' -> t = t' /\ u = u'.
Proof.
  unfold role_key. revert t'. induction t as [|c t IH]; intros [|c' t']; cbn; intros Ht Ht' Hk.
  - by simplify_eq.
  - injection Hk as <- _. done.
  - injection Hk as -> _. done.
  - apply andb_prop in Ht as [_ Ht], Ht' as [_ Ht']. injection Hk as -> Hk.
    destruct (IH _ Ht Ht' Hk) as [-> ->]. done.
Qed.

#[export] Instance memory_role_store_spec : RoleStoreSpec MemoryRoleStore.
Proof.
  refine {| tells_apart t := no_nul t = true;
            role_in s t u := default RoleUser (roles s !! role_key t u) |}.
  - by intros s t u r [= <-].
  - intros s s' t u r e t' u' [= <- <-] Ht Ht'. cbn [roles]. case_decide as Hd.
    + destruct Hd as (_ & -> & ->). by rewrite lookup_insert_eq.
    + rewrite lookup_insert_ne; [done|]. intros Hk. apply role_key_inj in Hk as [-> ->]; [|done..]. by destruct Hd.
Defined.

(** ** What the chain of a guarded route does *)

(** The context in which the authorization of a request is decided, if the
    request gets that far. *)
Definition request_context (rt : Router) (rq : Request) : option Context :=
  let injected claims :=
    let tenantID := getClaimString claims "tenant_id" in
    if negb (String.eqb (rq_TenantHeader rq) EmptyString) && negb (String.eqb tenantID EmptyString)
       && negb (String.eqb (rq_TenantHeader rq) tenantID)
    then None
    else Some (mkContext claims (or_else tenantID "default")
                 (or_else (or_else (getClaimString claims "user_id") (rq_UserHeader rq)) "anonymous")) in
  if rt_jwtAuth rt then
    match rq_Token rq with
    | Ok claims => if Authorizator (IdentityHandler claims) then injected claims else None
    | Err _ => None
    end
  else injected ∅.

Lemma or_else_nonempty s fallback : fallback <> EmptyString -> String.eqb (or_else s fallback) EmptyString = false.
Proof.
  intros Hf. unfold or_else. destruct (String.eqb s EmptyString) eqn:Hs; [by apply String.eqb_neq|done].
Qed.

Section correctness.
Context {S X : Type} `{!RoleStore S, !RoleStoreSpec S} (jwt_message : Z -> string) (other : string -> HandlerFunc X).
Implicit Types w : S * X.

Definition permitted (p : string) (w : S * X) (cx : Context) : Prop :=
  CheckPermission (cx_TenantID cx) (cx_UserID cx) p (fst w) = Ok true.

Lemma permitted_role p w cx : permitted p w cx -> HasPermission (role_in (fst w) (cx_TenantID cx) (cx_UserID cx)) p = true.
Proof.
  unfold permitted, CheckPermission. rewrite result_bind_ok. intros (r & Hr & [= Hp]).
  by rewrite <- (GetUserRole_law _ _ _ _ Hr).
Qed.

(** Three outcomes: the request is not accepted, it is not permitted, or its
    handler runs; only the last one reaches the world. *)
Lemma serve_guarded rt rbac ro p rq w :
  rt_authz rt = true -> ro_Permission ro = Some p ->
  match request_context rt rq with
  | None => exists resp, serve jwt_message other rt rbac ro rq w = (w, resp)
  | Some cx =>
      (permitted p w cx /\ serve jwt_message other rt rbac ro rq w = handler other rbac (ro_Handler ro) cx rq w) \/
      (~ permitted p w cx /\ serve jwt_message other rt rbac ro rq w = (w, refuse 403 "permission denied"))
  end.
Proof.
  intros Ha Hp. unfold serve, request_context. rewrite Hp. unfold authChain. rewrite Ha.
  assert (forall claims,
    let r := InjectAuthContext (RequirePermission p (handler other rbac (ro_Handler ro)))
               (mkContext claims EmptyString EmptyString) rq w in
    match (let tenantID := getClaimString claims "tenant_id" in
      if negb (String.eqb (rq_TenantHeader rq) EmptyString) && negb (String.eqb tenantID EmptyString)
         && negb (String.eqb (rq_TenantHeader rq) tenantID)
      then None
      else Some (mkContext claims (or_else tenantID "default")
                   (or_else (or_else (getClaimString claims "user_id") (rq_UserHeader rq)) "anonymous"))) with
    | None => exists resp, r = (w, resp)
    | Some cx => (permitted p w cx /\ r = handler other rbac (ro_Handler ro) cx rq w) \/
                 (~ permitted p w cx /\ r = (w, refuse 403 "permission denied"))
    end) as Hinj.
  { intros claims r. subst r. unfold InjectAuthContext. cbn [cx_Claims]. cbv zeta.
    destruct (_ && _ && _)%bool; [by eexists|]. unfold RequirePermission, permitted.
    cbn [cx_UserID cx_TenantID]. rewrite !or_else_nonempty by done. cbn [orb].
    destruct (CheckPermission _ _ _ _) as [[]|]; [left|right..]; done. }
  destruct (rt_jwtAuth rt); cbn [app chain foldr]; [|by apply Hinj].
  unfold jwt_MiddlewareFunc. destruct (rq_Token rq) as [claims|code]; [|by eexists].
  destruct (Authorizator _); [apply Hinj|by eexists].
Qed.

(** Only one handler can change a role, and it changes one in its own tenant. *)
Lemma handler_roles rbac name cx rq w t u :
  tells_apart (cx_TenantID cx) -> tells_apart t ->
  role_in (fst (fst (handler other rbac name cx rq w))) t u <> role_in (fst w) t u ->
  name = "AssignRole" /\ rbac = true /\ cx_TenantID cx = t.
Proof.
  intros Hc Ht. unfold handler, handle_GetUserRole, handle_AssignRole, handle_CheckPermission.
  destruct (String.eqb name "GetUserRole"); [by repeat case_match|].
  destruct (String.eqb name "AssignRole") eqn:Hn.
  - apply String.eqb_eq in Hn. destruct rbac; [|done]. cbn [negb].
    destruct (rq_Form rq) as [form|e]; [|done]. destruct (String.eqb (cx_TenantID cx) EmptyString); [done|].
    destruct (SetUserRole _ _ _ _) as [s' o] eqn:Hset.
    pose proof (SetUserRole_law _ _ _ _ _ _ t u Hset Hc Ht) as Hl.
    case_decide as Hd; destruct o as [e|]; cbn [fst]; try (by destruct Hd); rewrite Hl; try done. naive_solver.
  - destruct (String.eqb name "CheckPermission"); [by repeat case_match|].
    unfold lifted. by destruct (other name cx rq (snd w)).
Qed.

Lemma handler_without_rbac name cx rq w : fst (fst (handler other false name cx rq w)) = fst w.
Proof.
  unfold handler, handle_GetUserRole, handle_AssignRole, handle_CheckPermission, lifted. cbn [negb].
  repeat destruct (String.eqb _ _); try done. by destruct (other name cx rq (snd w)).
Qed.

(** Every route of the table: roles are assigned behind the permission for it. *)
Lemma assign_route rt ro :
  ro ∈ Build rt -> ro_Handler ro = "AssignRole" -> ro_Permission ro = Some PermissionAgentManage.
Proof.
  intros Hin Hh.
  assert (forallb (fun ro => negb (String.eqb (ro_Handler ro) "AssignRole")
                             || bool_decide (ro_Permission ro = Some PermissionAgentManage)) (Build rt) = true) as Hall.
  { destruct rt as [[] a []]; vm_compute; done. }
  rewrite forallb_forall in Hall. apply list_elem_of_In in Hin. specialize (Hall ro Hin).
  rewrite Hh in Hall. cbn in Hall. by apply bool_decide_eq_true in Hall.
Qed.

Definition known_tenant (rt : Router) (rq : Request) : Prop :=
  match request_context rt rq with Some cx => tells_apart (cx_TenantID cx) | None => True end.

Lemma serve_roles rt rbac ro rq w t u :
  rt_authz rt = true -> ro ∈ Build rt -> known_tenant rt rq -> tells_apart t ->
  role_in (fst (fst (serve jwt_message other rt rbac ro rq w))) t u <> role_in (fst w) t u ->
  exists cx, request_context rt rq = Some cx /\ cx_TenantID cx = t /\
    HasPermission (role_in (fst w) t (cx_UserID cx)) PermissionAgentManage = true.
Proof.
  intros Ha Hin Hk Ht Hne. unfold known_tenant in Hk.
  destruct (ro_Permission ro) as [p|] eqn:Hp.
  - pose proof (serve_guarded rt rbac ro p rq w Ha Hp) as Hs.
    destruct (request_context rt rq) as [cx|]; [|by destruct Hs as [resp Hs]; rewrite Hs in Hne].
    destruct Hs as [[Hok Hs]|[_ Hs]]; rewrite Hs in Hne; [|done].
    apply handler_roles in Hne as (Hn & _ & <-); [|done..].
    rewrite (assign_route rt ro Hin Hn) in Hp. injection Hp as <-.
    exists cx. split_and!; [done..|]. by apply permitted_role.
  - unfold serve in Hne. rewrite Hp in Hne. cbn [chain foldr] in Hne.
    unfold handler, handle_GetUserRole, handle_CheckPermission in Hne.
    destruct (String.eqb (ro_Handler ro) "GetUserRole"); [by exfalso; revert Hne; repeat case_match|].
    destruct (String.eqb (ro_Handler ro) "AssignRole") eqn:Hn.
    + apply String.eqb_eq, (assign_route rt ro Hin) in Hn. congruence.
    + destruct (String.eqb (ro_Handler ro) "CheckPermission"); [by exfalso; revert Hne; repeat case_match|].
      unfold lifted in Hne. by destruct (other _ Background rq (snd w)).
Qed.

(** C32: the role of a user changes only by a request of that tenant whose
    caller has, at that moment, a role with the permission to manage agents:
    in any sequence of requests, of any tenants, to any routes, a role that is
    different at the end was assigned by such a request. *)
Theorem role_change_needs_admin rt rbac rqs w t u :
  rt_authz rt = true -> Forall (fun rr => fst rr ∈ Build rt /\ known_tenant rt (snd rr)) rqs -> tells_apart t ->
  role_in (fst (serve_all jwt_message other rt rbac rqs w)) t u <> role_in (fst w) t u ->
  exists before ro rq after cx, rqs = before ++ (ro, rq) :: after /\
    request_context rt rq = Some cx /\ cx_TenantID cx = t /\
    HasPermission (role_in (fst (serve_all jwt_message other rt rbac before w)) t (cx_UserID cx)) PermissionAgentManage = true.
Proof.
  intros Ha Hall Ht. revert w. induction Hall as [|[ro rq] rqs [Hin Hk] _ IH]; intros w Hne; [done|].
  cbn [fst snd] in *. unfold serve_all in Hne. cbn [foldl] in Hne. fold (serve_all jwt_message other rt rbac) in Hne.
  destruct (decide (role_in (fst (fst (serve jwt_message other rt rbac ro rq w))) t u = role_in (fst w) t u)) as [He|Hch].
  - rewrite <- He in Hne. apply IH in Hne as (before & ro' & rq' & after & cx & -> & Hcx & Hct & Hperm).
    by exists ((ro, rq) :: before), ro', rq', after, cx.
  - apply serve_roles in Hch as (cx & Hcx & Hct & Hperm); [|done..]. by exists [], ro, rq, rqs, cx.
Qed.
End correctness.

(** ** The server as the program builds it

    Authorization is on, and the handler has no role checker, since nothing
    calls its setter.  The role store is the one over PostgreSQL when the jobs
    are kept there and its pool can be opened, with the roles its table holds;
    otherwise it is the one in memory, whose only role is the one given to the
    anonymous user when nobody logs in. *)

Definition program_roles (authEnabled : bool) : MemoryRoleStore :=
  if authEnabled then NewMemoryRoleStore else fst (SetUserRole "default" "anonymous" RoleUser NewMemoryRoleStore).

Lemma program_role authEnabled t u : role_in (program_roles authEnabled) t u = RoleUser.
Proof.
  destruct authEnabled; [done|]. cbn.
  destruct (decide (role_key "default" "anonymous" = role_key t u)) as [<-|]; [by rewrite lookup_insert_eq|].
  by rewrite lookup_insert_ne.
Qed.

Section program.
Context {S X : Type} `{!RoleStore S, !RoleStoreSpec S} (jwt_message : Z -> string) (other : string -> HandlerFunc X).

Lemma serve_without_rbac rt ro rq (w : S * X) : fst (fst (serve jwt_message other rt false ro rq w)) = fst w.
Proof.
  unfold serve. assert (forall cx, fst (fst (handler other false (ro_Handler ro) cx rq w)) = fst w) as Hh
    by (intros cx; apply handler_without_rbac).
  destruct (ro_Permission ro) as [p|]; [|apply Hh]. unfold authChain.
  destruct (rt_jwtAuth rt), (rt_authz rt); cbn [app chain foldr];
    unfold jwt_MiddlewareFunc, Auth, InjectAuthContext, RequirePermission; by repeat case_match.
Qed.

Lemma serve_all_without_rbac rt rqs (w : S * X) :
  fst (serve_all jwt_message other rt false rqs w) = fst w.
Proof.
  revert w. induction rqs as [|[ro rq] rqs IH]; intros w; [done|]. unfold serve_all. cbn [foldl].
  etrans; [apply IH|apply serve_without_rbac].
Qed.

(** The role the store has for the caller of a request does not include [p]. *)
Definition lacks (rt : Router) (rq : Request) (p : string) (s : S) : Prop :=
  forall cx, request_context rt rq = Some cx -> HasPermission (role_in s (cx_TenantID cx) (cx_UserID cx)) p = false.

(** C40: no request gives anybody a role.  Over any role store with the
    interface's specification and whatever requests the server has answered
    since it started with the roles [s], a route whose permission is not in
    the role [s] has for the caller never runs its handler: every such request
    leaves the world as it was, and one that authenticates is answered with
    403, whatever roles its token names.  Over the store in memory this is
    every caller, for every permission the role of a plain user lacks: to stop
    a job, export evidence, run a tool or manage roles; over the one in
    PostgreSQL, everyone whose row, if any, lacks it. *)
Theorem only_user_routes_are_served rt rqs ro p rq (s : S) (x : X) :
  rt_authz rt = true -> ro_Permission ro = Some p -> lacks rt rq p s ->
  let w := serve_all jwt_message other rt false rqs (s, x) in
  exists resp, serve jwt_message other rt false ro rq w = (w, resp) /\
    (request_context rt rq <> None -> resp = refuse 403 "permission denied").
Proof.
  intros Ha Hp Hno w. pose proof (serve_guarded jwt_message other rt false ro p rq w Ha Hp) as Hs.
  destruct (request_context rt rq) as [cx|] eqn:Hcx; [|destruct Hs as [resp ->]; exists resp; by split].
  destruct Hs as [[Hok _]|[_ ->]]; [exfalso|eauto]. apply permitted_role in Hok.
  unfold w in Hok. rewrite serve_all_without_rbac in Hok. cbn [fst] in Hok. by rewrite (Hno cx Hcx) in Hok.
Qed.
End program.

(** In memory, everybody lacks what a plain user lacks. *)
Lemma program_lacks authEnabled rt rq p : HasPermission RoleUser p = false -> lacks rt rq p (program_roles authEnabled).
Proof. intros Hp cx _. by rewrite program_role. Qed.

(** ** Examples *)

Definition silent : Z -> string := fun _ => EmptyString.
Definition pages : string -> HandlerFunc nat := fun _ _ _ n => (Datatypes.S n, mkResponse 200 JNull).

Definition open_router : Router := mkRouter false true false.
Definition jwt_router : Router := mkRouter true true false.

Definition assign_role : Route := guarded "POST" "/api/rbac/role" PermissionAgentManage "AssignRole".
Definition stop_job : Route := guarded "POST" "/api/jobs/:id/stop" PermissionJobStop "JobStop".

Definition claims_of (tenant user : string) : gmap string json :=
  {["tenant_id" := JStr tenant; "user_id" := JStr user; "roles" := JArr [JStr "admin"]]}.

Definition signed (tenant user : string) (form : gmap string string) : Request :=
  mkRequest (Ok (claims_of tenant user)) EmptyString EmptyString (Ok form).

Definition promote (user role : string) : gmap string string := {["user_id" := user; "role" := role]}.

Definition acme : MemoryRoleStore * nat :=
  (fst (SetUserRole "acme" "alice" RoleAdmin NewMemoryRoleStore), 0%nat).

(** Alice of acme makes Bob an operator; Eve of another tenant tries as well. *)
Definition two_assignments : list (Route * Request) :=
  [(assign_role, signed "evil" "alice" (promote "bob" RoleAdmin));
   (assign_role, signed "acme" "alice" (promote "bob" RoleOperator))].

Lemma assign_role_route rt : assign_role ∈ Build rt.
Proof.
  assert (bool_decide (assign_role ∈ Build rt) = true) as H; [|by apply bool_decide_eq_true in H].
  destruct rt as [[] a []]; vm_compute; done.
Qed.

Lemma role_change_needs_admin_witness :
  let w' := serve_all silent pages jwt_router true two_assignments acme in
  role_in (fst w') "acme" "bob" = RoleOperator /\
  exists before ro rq after cx, two_assignments = before ++ (ro, rq) :: after /\
    request_context jwt_router rq = Some cx /\ cx_TenantID cx = "acme" /\
    HasPermission (role_in (fst (serve_all silent pages jwt_router true before acme)) "acme" (cx_UserID cx))
      PermissionAgentManage = true.
Proof.
  split; [vm_compute; reflexivity|].
  apply (role_change_needs_admin silent pages jwt_router true two_assignments acme "acme" "bob").
  - reflexivity.
  - repeat constructor; cbn [fst]; apply assign_role_route.
  - reflexivity.
  - vm_compute. discriminate.
Defined.

(** Nobody may stop a job over the program's store in memory, although the
    token says admin and an assignment was requested; nor Bob of acme over a
    store that has a role for Alice. *)
Lemma only_user_routes_are_served_witness :
  let after s := serve_all silent pages jwt_router false two_assignments (s, 0%nat) in
  (exists resp, serve silent pages jwt_router false stop_job (signed "default" "root" ∅) (after (program_roles true))
     = (after (program_roles true), resp) /\
     (request_context jwt_router (signed "default" "root" ∅) <> None -> resp = refuse 403 "permission denied")) /\
  (exists resp, serve silent pages jwt_router false stop_job (signed "acme" "bob" ∅) (after (fst acme)) = (after (fst acme), resp) /\
     (request_context jwt_router (signed "acme" "bob" ∅) <> None -> resp = refuse 403 "permission denied")).
Proof.
  split.
  - apply (only_user_routes_are_served silent pages jwt_router two_assignments stop_job PermissionJobStop);
      [reflexivity|reflexivity|by apply program_lacks].
  - apply (only_user_routes_are_served silent pages jwt_router two_assignments stop_job PermissionJobStop);
      [reflexivity|reflexivity|]. intros cx Hcx. vm_compute in Hcx. injection Hcx as <-. vm_compute. reflexivity.
Defined.

(** ** Where it stops short *)

(** Without tokens the user is whoever the header names. *)
Lemma header_names_the_user u claims form :
  u <> EmptyString ->
  request_context open_router (mkRequest claims EmptyString u form) = Some (mkContext ∅ "default" u).
Proof.
  intros Hu.
  unfold request_context. cbn [rt_jwtAuth open_router]. change (getClaimString ∅ "tenant_id") with "".
  change (getClaimString ∅ "user_id") with "". cbn. unfold or_else. cbn.
  destruct (String.eqb u EmptyString) eqn:He; [by apply String.eqb_eq in He|done].
Qed.

(** The role that may only read may delete documents and collections. *)
Lemma auditor_may_delete rt :
  HasPermission RoleAuditor PermissionJobView = true /\
  guarded "DELETE" "/api/documents/:id" PermissionJobView "DeleteDocument" ∈ Build rt /\
  guarded "DELETE" "/api/knowledge/collections/:id" PermissionJobView "DeleteCollection" ∈ Build rt.
Proof.
  split; [reflexivity|].
  assert (bool_decide (guarded "DELETE" "/api/documents/:id" PermissionJobView "DeleteDocument" ∈ Build rt) &&
          bool_decide (guarded "DELETE" "/api/knowledge/collections/:id" PermissionJobView "DeleteCollection" ∈ Build rt)
          = true) as H; [destruct rt as [[] a []]; vm_compute; done|].
  apply andb_prop in H as [H1 H2]. by apply bool_decide_eq_true in H1, H2.
Qed.

(** The access log reads the names from a context that never has them. *)
Lemma access_log_names_nobody {S X} `{!RoleStore S} jwt_message (other : string -> HandlerFunc X) rt rbac path ro rq (w : S * X) :
  exists w' resp log, serve_audited jwt_message other rt rbac path ro rq w = (w', resp, log) /\
    serve jwt_message other rt rbac ro rq w = (w', resp) /\ al_TenantID log = EmptyString /\ al_UserID log = EmptyString.
Proof.
  unfold serve_audited, AuditAccess, serve. destruct (chain _ _ _ _ _) as [w' resp].
  destruct (extractResource path). by do 3 eexists.
Qed.

Example stop_is_logged :
  let '(_, _, log) := serve_audited (S:=MemoryRoleStore) silent pages jwt_router false "/api/jobs/j1/stop" stop_job
                        (signed "acme" "alice" ∅) (NewMemoryRoleStore, 0%nat) in
  log = mkAuditLog EmptyString EmptyString "stop_job" "job" "j1" false.
Proof. vm_compute. reflexivity. Qed.
