(* ===== verification/HttpLimits.v ===== *)
(** The general middleware of internal/api/http/middleware/middleware.go: CORS
    headers, the request limit and the limit per tenant.

    A limiter's section under its mutex is one step; [now] is the clock it
    reads.  The map of tenants is read under one lock and written under another:
    [lookup_limiter] and [install_limiter] are separate steps, and a limiter is
    a place in a heap.

    Second half: the list of allowed addresses (iplist.go). *)

From S2P Require Import Prelude GoTime Json GoStrings AccessControl.

(** ** CORS *)

Definition allow_origin (allowOrigins : list string) (requestOrigin : string) : string :=
  match allowOrigins with
  | [] => "*"
  | _ => if String.eqb requestOrigin EmptyString then "*"
         else if existsb (fun origin => String.eqb origin "*" || String.eqb origin requestOrigin) allowOrigins
              then requestOrigin else "*"
  end.

(** The headers that are set, and whether the request ends with 204. *)
Definition CORS (allowOrigins : list string) (method requestOrigin : string) : list (string * string) * bool :=
  ([("Access-Control-Allow-Origin", allow_origin allowOrigins requestOrigin);
    ("Access-Control-Allow-Methods", "GET, POST, PUT, DELETE, OPTIONS");
    ("Access-Control-Allow-Headers", "Origin, Content-Type, Content-Length, Accept-Encoding, X-CSRF-Token, Authorization");
    ("Access-Control-Expose-Headers", "Content-Length"); ("Access-Control-Allow-Credentials", "true");
    ("Access-Control-Max-Age", "86400")], String.eqb method "OPTIONS").

(** Every origin is allowed, whatever origins are configured: one that is not
    among them is answered with the wildcard. *)
Theorem every_origin_is_allowed allowOrigins method requestOrigin :
  exists v, ("Access-Control-Allow-Origin", v) ∈ fst (CORS allowOrigins method requestOrigin) /\ (v = "*" \/ v = requestOrigin).
Proof.
  exists (allow_origin allowOrigins requestOrigin). split; [left|]. unfold allow_origin. repeat case_match; auto.
Qed.

(** ** A limit of requests *)

(** A window: when it began, and the requests in it. *)
Record rate_window := mkWindow { wd_lastTime : time; wd_count : Z }.

Definition new_window : rate_window := mkWindow zero_time 0.

Definition default_rps (rps : Z) : Z := if rps <=? 0 then 100 else rps.

(** One request under the mutex: the window after it, and whether it passes. *)
Definition admit_request (rps : Z) (now : time) (w : rate_window) : rate_window * bool :=
  let w := if second <? unix_nano now - unix_nano (wd_lastTime w) then mkWindow now 0 else w in
  let w := mkWindow (wd_lastTime w) (wd_count w + 1) in
  (w, negb (rps <? wd_count w)).

Fixpoint admissions (rps : Z) (times : list time) (w : rate_window) : rate_window * list bool :=
  match times with
  | [] => (w, [])
  | now :: times => let '(w, ok) := admit_request rps now w in let '(w, oks) := admissions rps times w in (w, ok :: oks)
  end.

Definition RateLimit (rps : Z) (times : list time) : list bool := snd (admissions (default_rps rps) times new_window).

(** How many passed from [lo] to [hi]. *)
Fixpoint passed_between (lo hi : Z) (times : list time) (oks : list bool) : Z :=
  match times, oks with
  | t :: times, ok :: oks =>
      (if ok && (lo <=? unix_nano t) && (unix_nano t <=? hi) then 1 else 0) + passed_between lo hi times oks
  | _, _ => 0
  end.

(** The clock does not go back. *)
Fixpoint clock_ascending (from : Z) (times : list time) : Prop :=
  match times with [] => True | t :: rest => from <= unix_nano t /\ clock_ascending (unix_nano t) rest end.

Lemma admissions_cons rps now times w :
  snd (admissions rps (now :: times) w) = snd (admit_request rps now w) :: snd (admissions rps times (fst (admit_request rps now w))).
Proof. cbn [admissions]. destruct (admit_request rps now w) as [w' ok]. cbn. by destruct (admissions rps times w'). Qed.

Lemma passed_late lo hi times oks from : clock_ascending from times -> hi < from -> passed_between lo hi times oks = 0.
Proof.
  revert oks from. induction times as [|t times IH]; intros [|ok oks] from Ha Hf; try done. destruct Ha as [Ht Ha]. cbn [passed_between].
  rewrite (IH oks (unix_nano t)) by (done || lia). rewrite (proj2 (Z.leb_gt (unix_nano t) hi)) by lia. by rewrite andb_false_r.
Qed.

(** What passes in the second from [lo] on, by where the window stands. *)
Lemma passed_by_window rps lo times : forall w from,
  1 <= rps -> 0 <= wd_count w -> unix_nano (wd_lastTime w) <= from -> clock_ascending from times ->
  let n := passed_between lo (lo + second) times (snd (admissions rps times w)) in
  (lo <= unix_nano (wd_lastTime w) -> n <= Z.max 0 (rps - wd_count w)) /\
  (lo <= from -> n <= Z.max 0 (rps - wd_count w) + rps) /\ n <= 2 * rps.
Proof.
  induction times as [|t times IH]; intros w from Hr Hc Hf Ha; [cbn; lia|]. destruct Ha as [Ht Ha]. cbv zeta.
  rewrite admissions_cons. unfold admit_request. cbn [passed_between].
  destruct (Z.ltb_spec second (unix_nano t - unix_nano (wd_lastTime w))) as [Hnew|Hold]; cbn [wd_lastTime wd_count fst snd].
  - destruct (IH (mkWindow t (0 + 1)) (unix_nano t) Hr) as (H1 & H2 & H3); [cbn; lia|done|done|]. cbn [wd_lastTime wd_count] in H1, H2.
    destruct (Z.ltb_spec rps (0 + 1)); [lia|]. cbn [negb andb].
    destruct (Z.leb_spec lo (unix_nano t)) as [Hlo|Hlo]; cbn [andb]; [|lia].
    specialize (H1 Hlo). destruct (Z.leb_spec (unix_nano t) (lo + second)) as [Hhi|Hhi]; [lia|].
    rewrite (passed_late _ _ _ _ (unix_nano t)) by (done || lia). lia.
  - destruct (IH (mkWindow (wd_lastTime w) (wd_count w + 1)) (unix_nano t) Hr) as (H1 & H2 & H3); [cbn; lia|cbn; lia|done|].
    cbn [wd_lastTime wd_count] in H1, H2.
    destruct (Z.ltb_spec rps (wd_count w + 1)); cbn [negb andb]; [lia|].
    destruct (Z.leb_spec lo (unix_nano t)) as [Hlo|Hlo]; cbn [andb]; [|lia]. specialize (H2 Hlo).
    destruct (unix_nano t <=? lo + second); lia.
Qed.

(** In any second no more than twice the limit passes: windows begin with a
    request, and two of them can share a second. *)
Theorem twice_the_limit_passes rps times lo :
  let n := default_rps rps in clock_ascending (unix_nano zero_time) times ->
  passed_between lo (lo + second) times (RateLimit rps times) <= 2 * n.
Proof.
  intros n Ha. destruct (passed_by_window n lo times new_window (unix_nano zero_time)) as (_ & _ & H); [|done|reflexivity|done|exact H].
  unfold n, default_rps. case_match; bool_hyps; lia.
Qed.

Definition burst (at_ : Z) (n : nat) : list time := repeat (Time at_ 0) n.

(** Twice the limit does pass: a window that begins early, its rest late, and
    the next window. *)
Example burst_of_twice_the_limit :
  passed_between 900000001 1900000001 (burst 0 1 ++ burst 950000000 1 ++ burst 1900000000 0 ++ burst 1000000001 2)
    (RateLimit 2 (burst 0 1 ++ burst 950000000 1 ++ burst 1900000000 0 ++ burst 1000000001 2)) = 3 /\
  passed_between 1000000000 2000000000 (burst 500000000 1 ++ burst 1500000000 1 ++ burst 1500000001 2)
    (RateLimit 2 (burst 500000000 1 ++ burst 1500000000 1 ++ burst 1500000001 2)) = 3.
Proof. vm_compute. by split. Qed.

(** ** A limit per tenant *)

Record tenantLimiter := mkLimiter { tl_window : rate_window; tl_rps : Z }.

Record TenantRateLimiterPerTenant := mkTenantLimiter {
  tr_limiters : gmap string nat; tr_heap : list tenantLimiter; tr_defaultRPS : Z;
}.

Definition NewTenantRateLimiter (defaultRPS : Z) : TenantRateLimiterPerTenant := mkTenantLimiter ∅ [] (default_rps defaultRPS).

(** A new limiter for the tenant, in place of the one it may have. *)
Definition install_limiter (tenantID : string) (rps : Z) (t : TenantRateLimiterPerTenant) : TenantRateLimiterPerTenant * nat :=
  (mkTenantLimiter (<[tenantID := length (tr_heap t)]> (tr_limiters t)) (tr_heap t ++ [mkLimiter new_window rps]) (tr_defaultRPS t),
   length (tr_heap t)).

Definition SetTenantRate (tenantID : string) (rps : Z) (t : TenantRateLimiterPerTenant) : TenantRateLimiterPerTenant := fst (install_limiter tenantID rps t).

Definition lookup_limiter (tenantID : string) (t : TenantRateLimiterPerTenant) : option nat := tr_limiters t !! tenantID.

(** The section under the limiter's own mutex. *)
Definition use_limiter (p : nat) (now : time) (t : TenantRateLimiterPerTenant) : TenantRateLimiterPerTenant * bool :=
  match tr_heap t !! p with
  | None => (t, false)
  | Some l =>
      let '(w, ok) := admit_request (tl_rps l) now (tl_window l) in
      (mkTenantLimiter (tr_limiters t) (<[p := mkLimiter w (tl_rps l)]> (tr_heap t)) (tr_defaultRPS t), ok)
  end.

(** A request with nothing in between. *)
Definition tenant_of_request (cx : Context) : string := or_else (cx_TenantID cx) "default".

Definition tenant_request (cx : Context) (now : time) (t : TenantRateLimiterPerTenant) : TenantRateLimiterPerTenant * bool :=
  let tenantID := tenant_of_request cx in
  let '(t, p) := match lookup_limiter tenantID t with Some p => (t, p) | None => install_limiter tenantID (tr_defaultRPS t) t end in
  use_limiter p now t.

(** The pointers of the map are in the heap, and no two tenants share one. *)
Definition tenants_apart (t : TenantRateLimiterPerTenant) : Prop :=
  forall k p, tr_limiters t !! k = Some p -> is_Some (tr_heap t !! p) /\ forall k', tr_limiters t !! k' = Some p -> k' = k.

Lemma install_apart k rps t : tenants_apart t -> tenants_apart (fst (install_limiter k rps t)).
Proof.
  intros H k1 p. cbn. destruct (decide (k1 = k)) as [->|Hne].
  - rewrite lookup_insert_eq. intros [= <-]. split; [rewrite lookup_app_r, Nat.sub_diag by lia; by eexists|].
    intros k'. destruct (decide (k' = k)) as [->|Hn]; [done|]. rewrite lookup_insert_ne by done. intros [[l Hl] _]%H.
    apply lookup_lt_Some in Hl. lia.
  - rewrite lookup_insert_ne by done. intros Hp. destruct (H k1 p Hp) as [[l Hl] Hu]. split; [rewrite lookup_app_l by (by eapply lookup_lt_Some); by eexists|].
    intros k'. destruct (decide (k' = k)) as [->|Hn]; [rewrite lookup_insert_eq; intros [= <-]; apply lookup_lt_Some in Hl; lia|].
    rewrite lookup_insert_ne by done. apply Hu.
Qed.

(** The limiter a request of the tenant [k] would meet. *)
Definition limiter_of (k : string) (t : TenantRateLimiterPerTenant) : tenantLimiter :=
  match tr_limiters t !! k ≫= fun p => tr_heap t !! p with Some l => l | None => mkLimiter new_window (tr_defaultRPS t) end.

Lemma new_apart d : tenants_apart (NewTenantRateLimiter d).
Proof. intros k p. cbn. by rewrite lookup_empty. Qed.

Lemma use_apart p now t : tenants_apart t -> tenants_apart (fst (use_limiter p now t)).
Proof.
  intros H k q. unfold use_limiter. destruct (tr_heap t !! p) as [l|] eqn:Hl; [|apply H].
  destruct (admit_request _ _ _) as [w ok]. cbn. intros Hq. destruct (H k q Hq) as [[l' Hl'] Hu]. split; [|done].
  destruct (decide (p = q)) as [->|Hn]; [rewrite list_lookup_insert_eq by (by eapply lookup_lt_Some); by eexists|].
  rewrite list_lookup_insert_ne by done. by eexists.
Qed.

Lemma use_limiter_of k k' p now t :
  tenants_apart t -> tr_limiters t !! k = Some p -> k' <> k -> limiter_of k' (fst (use_limiter p now t)) = limiter_of k' t.
Proof.
  intros H Hp Hk. unfold use_limiter. destruct (tr_heap t !! p) as [l|] eqn:Hl; [|done].
  destruct (admit_request _ _ _) as [w ok]. unfold limiter_of. cbn. destruct (tr_limiters t !! k') as [q|] eqn:Hq; [|done]. cbn.
  rewrite list_lookup_insert_ne; [done|]. intros <-. destruct (H k p Hp) as [_ Hu]. by apply Hk, Hu.
Qed.

Lemma install_limiter_of k k' rps t :
  tenants_apart t -> k' <> k -> limiter_of k' (fst (install_limiter k rps t)) = limiter_of k' t.
Proof.
  intros H Hk. unfold limiter_of. cbn. rewrite lookup_insert_ne by done. destruct (tr_limiters t !! k') as [q|] eqn:Hq; [|done]. cbn.
  destruct (H k' q Hq) as [[l Hl] _]. by rewrite lookup_app_l by (by eapply lookup_lt_Some).
Qed.

(** What a request meets is its tenant's limiter, and it meets nothing else. *)
Lemma tenant_request_passes cx now t :
  tenants_apart t ->
  let l := limiter_of (tenant_of_request cx) t in
  snd (tenant_request cx now t) = snd (admit_request (tl_rps l) now (tl_window l)).
Proof.
  intros H. cbv zeta. unfold tenant_request, lookup_limiter, limiter_of, use_limiter.
  destruct (tr_limiters t !! tenant_of_request cx) as [p|] eqn:Hp; cbn.
  - destruct (H _ _ Hp) as [[l Hl] _]. rewrite Hl. cbn. by case_match.
  - rewrite lookup_app_r, Nat.sub_diag by lia. cbn. by case_match.
Qed.

Lemma tenant_request_apart cx now t : tenants_apart t -> tenants_apart (fst (tenant_request cx now t)).
Proof.
  intros H. unfold tenant_request, lookup_limiter. destruct (_ !! _); apply use_apart; [done|].
  by apply (install_apart (tenant_of_request cx) (tr_defaultRPS t)).
Qed.

Lemma tenant_request_others cx now t k' :
  tenants_apart t -> k' <> tenant_of_request cx -> limiter_of k' (fst (tenant_request cx now t)) = limiter_of k' t.
Proof.
  intros H Hk. unfold tenant_request, lookup_limiter. destruct (tr_limiters t !! tenant_of_request cx) as [p|] eqn:Hp.
  - by apply (use_limiter_of (tenant_of_request cx)).
  - pose (k := tenant_of_request cx). pose proof (install_apart k (tr_defaultRPS t) t H) as Hi.
    change (limiter_of k' (fst (use_limiter (length (tr_heap t)) now (fst (install_limiter k (tr_defaultRPS t) t)))) = limiter_of k' t).
    rewrite (use_limiter_of k k'); [by apply install_limiter_of|done| |done]. cbn. apply lookup_insert_eq.
Qed.

(** A request of one tenant takes nothing from another: what that one's next
    request meets is the same with it and without. *)
Theorem tenants_are_limited_apart cx cx' now now' t :
  tenants_apart t -> tenant_of_request cx <> tenant_of_request cx' ->
  snd (tenant_request cx' now' (fst (tenant_request cx now t))) = snd (tenant_request cx' now' t).
Proof.
  intros H Hne. rewrite !tenant_request_passes by (done || by apply tenant_request_apart).
  by rewrite tenant_request_others by (done || congruence).
Qed.

(** Two first requests of a tenant: each finds no limiter and puts its own.
    Both pass a limit of one, the limiter of the first is unreachable, and so is
    a rate that was set between the lookup and the new limiter. *)
Example two_first_requests :
  let t := NewTenantRateLimiter 1 in
  let '(t, p) := install_limiter "acme" (tr_defaultRPS t) t in
  let '(t, first) := use_limiter p (Time 5 0) t in
  let '(t, q) := install_limiter "acme" (tr_defaultRPS t) t in
  let '(t, second_) := use_limiter q (Time 6 0) t in
  first = true /\ second_ = true /\ lookup_limiter "acme" t = Some q /\ p <> q.
Proof. vm_compute. split_and!; done. Qed.

Example a_rate_that_is_lost :
  let t := NewTenantRateLimiter 100 in
  lookup_limiter "acme" t = None /\
  tl_rps (limiter_of "acme" (fst (install_limiter "acme" (tr_defaultRPS t) (SetTenantRate "acme" 1 t)))) = 100.
Proof. vm_compute. by split. Qed.

(** The list of allowed addresses, internal/api/http/middleware/iplist.go, with
    the addresses and networks of package net.  An [IP] is its bytes, four or
    sixteen; what Hertz takes for the address of the peer is an argument. *)

(** ** Addresses *)

Abbreviation IP := (list Z).

(** A decimal octet: no leading zero, at most 255. *)
Fixpoint octet_from (s : string) (v : Z) (digits : nat) : option Z :=
  match s with
  | EmptyString => match digits with O => None | _ => Some v end
  | String c s =>
      if in_range 48 57 (byte c) then
        if Nat.eqb digits 1 && (v =? 0) then None
        else let v := v * 10 + (byte c - 48) in if 255 <? v then None else octet_from s v (S digits)
      else None
  end.

Definition parseIPv4 (s : string) : option IP :=
  match split_on "." s with
  | [a; b; c; d] =>
      match octet_from a 0 0, octet_from b 0 0, octet_from c 0 0, octet_from d 0 0 with
      | Some a, Some b, Some c, Some d => Some [a; b; c; d]
      | _, _, _, _ => None
      end
  | _ => None
  end.

Definition hex_value (c : ascii) : option Z :=
  if in_range 48 57 (byte c) then Some (byte c - 48)
  else if in_range 97 102 (byte c) then Some (byte c - 87)
  else if in_range 65 70 (byte c) then Some (byte c - 55) else None.

(** The hexadecimal digits at the head: their number, value and the rest. *)
Fixpoint hex_field (s : string) (digits : nat) (v : Z) : nat * Z * string :=
  match s with
  | String c r => match hex_value c with Some h => hex_field r (S digits) (v * 16 + h) | None => (digits, v, s) end
  | EmptyString => (digits, v, EmptyString)
  end.

(** The fields of an IPv6 address after those in [ip]; [ellipsis] is where the
    [::] stood.  There are at most eight. *)
Fixpoint fields_v6 (n : nat) (ip : IP) (ellipsis : option nat) (s : string) : option (IP * option nat * string) :=
  match n with
  | O => Some (ip, ellipsis, s)
  | S n =>
      let '(digits, v, rest) := hex_field s 0 0 in
      if (Nat.eqb digits 0 || Nat.ltb 4 digits)%bool then None
      else
        match rest with
        | String "." _ =>
            match ellipsis, Nat.eqb (length ip) 12 with
            | None, false => None
            | _, _ => if Nat.ltb 12 (length ip) then None else option_map (fun v4 => (ip ++ v4, ellipsis, EmptyString)) (parseIPv4 s)
            end
        | _ =>
            let ip := ip ++ [v / 256; v mod 256] in
            match rest with
            | EmptyString => Some (ip, ellipsis, EmptyString)
            | String ":" (String ":" more) =>
                match ellipsis with
                | Some _ => None
                | None => match more with EmptyString => Some (ip, Some (length ip), EmptyString) | _ => fields_v6 n ip (Some (length ip)) more end
                end
            | String ":" EmptyString => None
            | String ":" more => fields_v6 n ip ellipsis more
            | _ => None
            end
        end
  end.

Definition expand_v6 (ip : IP) (ellipsis : option nat) : option IP :=
  if Nat.ltb (length ip) 16 then
    match ellipsis with
    | None => None
    | Some k => Some (take k ip ++ repeat 0 (16 - length ip) ++ drop k ip)
    end
  else match ellipsis with None => Some ip | Some _ => None end.

(** A zone, behind a percent sign, is refused with every other byte that does
    not belong to an address. *)
Definition parseIPv6 (s : string) : option IP :=
  let '(ellipsis, s) := match s with String ":" (String ":" r) => (Some 0%nat, r) | _ => (None, s) end in
  match ellipsis, s with
  | Some _, EmptyString => Some (repeat 0 16)
  | _, _ => match fields_v6 8 [] ellipsis s with
            | Some (ip, ellipsis, EmptyString) => expand_v6 ip ellipsis
            | _ => None
            end
  end.

Definition v4InV6Prefix : IP := repeat 0 10 ++ [255; 255].

(** [netip.ParseAddr], without zones; the family is that of the text. *)
Fixpoint family (s : string) : option bool :=
  match s with
  | EmptyString => None
  | String c s => if Ascii.eqb c "." then Some true else if Ascii.eqb c ":" then Some false else if Ascii.eqb c "%" then None else family s
  end.

Definition ParseAddr (s : string) : option IP :=
  match family s with Some true => parseIPv4 s | Some false => parseIPv6 s | None => None end.

Definition As16 (ip : IP) : IP := if Nat.eqb (length ip) 4 then v4InV6Prefix ++ ip else ip.

Definition ParseIP (s : string) : option IP := option_map As16 (ParseAddr s).

Definition To4 (ip : IP) : option IP :=
  if Nat.eqb (length ip) 4 then Some ip
  else if Nat.eqb (length ip) 16 && bool_decide (take 12 ip = v4InV6Prefix) then Some (drop 12 ip) else None.

(** ** Networks *)

Record IPNet := mkIPNet { nt_IP : IP; nt_Mask : list Z }.

(** Byte [j] of [CIDRMask(ones, _)] *)
Definition mask_byte (ones : Z) (j : nat) : Z :=
  let n := ones - 8 * Z.of_nat j in if 8 <=? n then 255 else if n <=? 0 then 0 else 255 - 255 / 2 ^ n.

Definition CIDRMask (ones bits : Z) : list Z := map (mask_byte ones) (seq 0 (Z.to_nat (bits / 8))).

Definition land_bytes (a m : list Z) : list Z := zip_with Z.land a m.

(** A network of a text: its address must be masked to the family of the text. *)
Fixpoint decimal (s : string) (v : Z) : option Z :=
  match s with
  | EmptyString => Some v
  | String c s => if in_range 48 57 (byte c) then let v := v * 10 + (byte c - 48) in if 16777215 <=? v then None else decimal s v else None
  end.

Fixpoint cut_slash (s : string) : option (string * string) :=
  match s with
  | EmptyString => None
  | String c s => if Ascii.eqb c "/" then Some (EmptyString, s) else option_map (fun '(a, b) => (String c a, b)) (cut_slash s)
  end.

Definition ParseCIDR (s : string) : option IPNet :=
  match cut_slash s with
  | None => None
  | Some (addr, mask) =>
      match ParseAddr addr, mask, decimal mask 0 with
      | Some ip, String _ _, Some n =>
          let bits := 8 * Z.of_nat (length ip) in
          if bits <? n then None else Some (mkIPNet (land_bytes ip (CIDRMask n bits)) (CIDRMask n bits))
      | _, _, _ => None
      end
  end.

(** [IPNet.Contains]: a network whose mask does not fit contains nothing. *)
Definition networkNumberAndMask (n : IPNet) : option (IP * list Z) :=
  let ip := match To4 (nt_IP n) with Some ip => ip | None => nt_IP n end in
  if Nat.eqb (length (nt_Mask n)) 4 then if Nat.eqb (length ip) 4 then Some (ip, nt_Mask n) else None
  else if Nat.eqb (length (nt_Mask n)) 16 then Some (ip, if Nat.eqb (length ip) 4 then drop 12 (nt_Mask n) else nt_Mask n)
  else None.

Definition Contains (n : IPNet) (ip : IP) : bool :=
  match networkNumberAndMask n with
  | None => false
  | Some (nn, m) =>
      let ip := match To4 ip with Some x => x | None => ip end in
      Nat.eqb (length ip) (length nn) && bool_decide (land_bytes nn m = land_bytes ip m)
  end.

(** ** The list *)

Record IPAllowList := mkIPAllowList { ia_allowList : list IPNet; ia_blockList : list IPNet; ia_trustedProxies : list IPNet }.

Inductive ip_error := InvalidIP | InvalidCIDR (text : string).

(** An address stands for the network of itself. *)
Definition single (ip : IP) : IPNet :=
  match To4 ip with Some _ => mkIPNet ip (repeat 255 4) | None => mkIPNet ip (CIDRMask 128 128) end.

Fixpoint parseIPList (ips : list string) : result ip_error (list IPNet) :=
  match ips with
  | [] => Ok []
  | ip :: ips =>
      let ip := TrimSpace ip in
      if String.eqb ip EmptyString then parseIPList ips
      else
        try n <- (if str_in "/" ip then match ParseCIDR ip with Some n => Ok n | None => Err (InvalidCIDR ip) end
                  else match ParseIP ip with Some p => Ok (single p) | None => Err InvalidIP end);;
        try ns <- parseIPList ips;;
        Ok (n :: ns)
  end.

Definition NewIPAllowList (allowIPs blockIPs trustedProxies : list string) : result ip_error IPAllowList :=
  try allowList <- parseIPList allowIPs;;
  try blockList <- parseIPList blockIPs;;
  try proxies <- parseIPList trustedProxies;;
  Ok (mkIPAllowList allowList blockList proxies).

Definition in_any (ns : list IPNet) (ip : IP) : bool := existsb (fun n => Contains n ip) ns.

(** The first address of the header that is no trusted proxy. *)
Fixpoint first_untrusted (proxies : list IPNet) (ips : list string) : string :=
  match ips with
  | [] => EmptyString
  | ip :: ips =>
      let ip := TrimSpace ip in
      if String.eqb ip EmptyString then first_untrusted proxies ips
      else match ParseIP ip with
           | None => first_untrusted proxies ips
           | Some p => if in_any proxies p then first_untrusted proxies ips else ip
           end
  end.

Definition getClientIP (i : IPAllowList) (xForwardedFor : string) : string :=
  match ia_trustedProxies i with
  | [] => EmptyString
  | proxies => if String.eqb xForwardedFor EmptyString then EmptyString else first_untrusted proxies (split_on "," xForwardedFor)
  end.

Definition isIPAllowed (i : IPAllowList) (ipStr : string) : bool :=
  match ParseIP ipStr with
  | None => false
  | Some ip =>
      if in_any (ia_blockList i) ip then false
      else match ia_allowList i with [] => true | allow => in_any allow ip end
  end.

Definition or_address (ip other : string) : string := if String.eqb ip EmptyString then other else ip.

(** Whether the request goes on. *)
Definition IPMiddleware (i : IPAllowList) (clientIP xForwardedFor : string) : bool :=
  if String.eqb clientIP EmptyString then false
  else isIPAllowed i (or_address (getClientIP i xForwardedFor) clientIP).

Record IPAllowListConfig := mkIPConfig { ic_Enabled : bool; ic_AllowIPs : list string; ic_BlockIPs : list string; ic_TrustedProxies : list string }.

Definition NewIPAllowListFromConfig (cfg : IPAllowListConfig) : result ip_error (option IPAllowList) :=
  if ic_Enabled cfg then try i <- NewIPAllowList (ic_AllowIPs cfg) (ic_BlockIPs cfg) (ic_TrustedProxies cfg);; Ok (Some i)
  else Ok None.

Example addresses :
  map ParseIP ["10.0.0.1"; "::1"; "2001:db8::ff00:42:8329"; "::ffff:10.0.0.1"; "1::"; "::"] =
    [Some (v4InV6Prefix ++ [10; 0; 0; 1]); Some (repeat 0 15 ++ [1]); Some [32; 1; 13; 184; 0; 0; 0; 0; 0; 0; 255; 0; 0; 66; 131; 41];
     Some (v4InV6Prefix ++ [10; 0; 0; 1]); Some ([0; 1] ++ repeat 0 14); Some (repeat 0 16)] /\
  map ParseIP ["10.0.0"; "10.0.0.256"; "10.0.0.01"; "10.0.0.1."; "1:2:3:4:5:6:7:8:9"; "1:2:3:4:5:6:7::8"; ":1"; "1:"; "::1%eth0"; "12345::"; "1::2::3"; "1.2.3.4:5"] =
    repeat None 12.
Proof. vm_compute. by split. Qed.

(** ** What a network holds *)

(** Bit [i] of an address, the first one first. *)
Definition address_bit (ip : IP) (i : nat) : bool := Z.testbit (nth (i / 8) ip 0) (7 - Z.of_nat (i mod 8)).

Definition bytes (l : list Z) : Prop := Forall (fun b => 0 <= b < 256) l.

Lemma mask_byte_bits ones j k :
  (j < 16)%nat -> (k < 8)%nat -> 0 <= ones <= 128 ->
  Z.testbit (mask_byte ones j) (7 - Z.of_nat k) = (8 * Z.of_nat j + Z.of_nat k <? ones).
Proof.
  intros Hj Hk Ho.
  assert (Hall : forallb (fun o => forallb (fun j => forallb (fun k =>
    Bool.eqb (Z.testbit (mask_byte (Z.of_nat o) j) (7 - Z.of_nat k)) (8 * Z.of_nat j + Z.of_nat k <? Z.of_nat o)) (seq 0 8)) (seq 0 16)) (seq 0 129) = true)
    by (vm_compute; reflexivity).
  rewrite forallb_forall in Hall. specialize (Hall (Z.to_nat ones)). rewrite Z2Nat.id in Hall by lia.
  assert (Hj' := Hall ltac:(apply in_seq; lia)). rewrite forallb_forall in Hj'. specialize (Hj' j ltac:(apply in_seq; lia)).
  rewrite forallb_forall in Hj'. specialize (Hj' k ltac:(apply in_seq; lia)). by apply Bool.eqb_prop in Hj'.
Qed.

Lemma byte_eq a b : 0 <= a < 256 -> 0 <= b < 256 -> (forall k, (k < 8)%nat -> Z.testbit a (7 - Z.of_nat k) = Z.testbit b (7 - Z.of_nat k)) -> a = b.
Proof.
  intros Ha Hb H. apply Z.bits_inj'. intros n Hn. destruct (decide (n < 8)) as [Hl|Hl].
  - specialize (H (Z.to_nat (7 - n)) ltac:(lia)). by replace (7 - Z.of_nat (Z.to_nat (7 - n))) with n in H by lia.
  - assert (Hhigh : forall x, 0 <= x < 256 -> Z.testbit x n = false).
    { intros x Hx. destruct (decide (x = 0)) as [->|]; [apply Z.bits_0|]. apply Z.bits_above_log2; [lia|]. apply Z.log2_lt_pow2; [lia|].
      pose proof (Z.pow_le_mono_r 2 8 n ltac:(lia) ltac:(lia)). change (2 ^ 8) with 256 in *. lia. }
    by rewrite !Hhigh.
Qed.

Lemma mask_byte_range ones j : 0 <= mask_byte ones j < 256.
Proof.
  unfold mask_byte. set (n := ones - 8 * Z.of_nat j). destruct (Z.leb_spec 8 n); [lia|]. destruct (Z.leb_spec n 0); [lia|].
  pose proof (Z.pow_pos_nonneg 2 n ltac:(lia) ltac:(lia)). pose proof (Z.div_pos 255 (2 ^ n) ltac:(lia) ltac:(lia)).
  pose proof (Z.div_le_upper_bound 255 (2 ^ n) 255 ltac:(lia) ltac:(nia)). lia.
Qed.

Lemma land_byte_range a b : 0 <= a < 256 -> 0 <= b < 256 -> 0 <= Z.land a b < 256.
Proof.
  intros Ha Hb. split; [apply Z.land_nonneg; lia|]. destruct (decide (Z.land a b = 0)) as [->|]; [lia|].
  pose proof (Z.land_nonneg a b). assert (0 <= Z.land a b) by (apply Z.land_nonneg; lia).
  change 256 with (2 ^ 8). apply Z.log2_lt_pow2; [lia|]. eapply Z.le_lt_trans; [apply Z.log2_land; lia|].
  destruct (decide (a = 0)) as [->|]; [cbn; lia|]. apply Z.min_lt_iff. left. apply Z.log2_lt_pow2; [lia|]. change (2 ^ 8) with 256. lia.
Qed.

Lemma nth_land a m j : length a = length m -> (j < length a)%nat -> nth j (land_bytes a m) 0 = Z.land (nth j a 0) (nth j m 0).
Proof.
  unfold land_bytes. revert m j. induction a as [|x a IH]; intros [|y m] [|j] Hl Hj; cbn in *; try (done || lia). apply IH; lia.
Qed.

Lemma nth_mask ones bits j : (j < Z.to_nat (bits / 8))%nat -> nth j (CIDRMask ones bits) 0 = mask_byte ones j.
Proof.
  intros Hj. unfold CIDRMask. rewrite (nth_indep _ 0 (mask_byte ones 0)) by (rewrite length_map, length_seq; done).
  rewrite map_nth, seq_nth by done. done.
Qed.

Lemma length_mask ones bits : length (CIDRMask ones bits) = Z.to_nat (bits / 8).
Proof. unfold CIDRMask. by rewrite length_map, length_seq. Qed.

Lemma bytes_nth l j : bytes l -> 0 <= nth j l 0 < 256.
Proof. intros H. destruct (nth_in_or_default j l 0) as [Hin| ->]; [|lia]. eapply Forall_forall in H; [exact H|]. by apply list_elem_of_In. Qed.

(** Two addresses of a family agree under a mask when their first bits do. *)
Lemma masked_same a b ones :
  bytes a -> bytes b -> length a = length b -> (length a <= 16)%nat -> 0 <= ones <= 8 * Z.of_nat (length a) ->
  land_bytes a (CIDRMask ones (8 * Z.of_nat (length a))) = land_bytes b (CIDRMask ones (8 * Z.of_nat (length a))) <->
  forall i, Z.of_nat i < ones -> address_bit a i = address_bit b i.
Proof.
  intros Ha Hb Hl H16 Ho. set (m := CIDRMask ones (8 * Z.of_nat (length a))).
  assert (Hm : length m = length a) by (unfold m; rewrite length_mask, Z.mul_comm, Z.div_mul by lia; lia).
  assert (Hnth : forall j, (j < length a)%nat -> nth j m 0 = mask_byte ones j)
    by (intros j Hj; apply nth_mask; rewrite Z.mul_comm, Z.div_mul by lia; lia).
  split.
  - intros He i Hi. unfold address_bit. pose proof (Nat.div_mod_eq i 8) as Hdm. pose proof (Nat.mod_upper_bound i 8 ltac:(lia)) as Hmod.
    set (j := (i / 8)%nat) in *. set (k := (i mod 8)%nat) in *. assert (Hj : (j < length a)%nat) by lia.
    assert (Hn := f_equal (fun l => Z.testbit (nth j l 0) (7 - Z.of_nat k)) He). cbv beta in Hn.
    rewrite !nth_land in Hn by lia. rewrite !Z.land_spec, Hnth, mask_byte_bits in Hn by lia.
    rewrite (proj2 (Z.ltb_lt (8 * Z.of_nat j + Z.of_nat k) ones)) in Hn by lia. by rewrite !andb_true_r in Hn.
  - intros Hbits. apply (nth_ext _ _ 0 0); [unfold land_bytes; rewrite !length_zip_with; lia|]. intros j Hj.
    unfold land_bytes in Hj. rewrite length_zip_with in Hj. rewrite !nth_land, Hnth by lia.
    apply byte_eq; [apply land_byte_range; [by apply bytes_nth|apply mask_byte_range]..|]. intros k Hk.
    rewrite !Z.land_spec, mask_byte_bits by lia. destruct (Z.ltb_spec (8 * Z.of_nat j + Z.of_nat k) ones) as [Hlt|]; [|by rewrite !andb_false_r].
    rewrite !andb_true_r. specialize (Hbits (8 * j + k)%nat ltac:(lia)). unfold address_bit in Hbits.
    rewrite (Nat.mul_comm 8 j), Nat.div_add_l, (Nat.div_small k 8), Nat.add_0_r, Nat.add_comm, Nat.Div0.mod_add, Nat.mod_small in Hbits by lia. done.
Qed.

(** The network of the first [ones] bits of an IPv4 address. *)
Definition network4 (ip : IP) (ones : Z) : IPNet := mkIPNet (land_bytes ip (CIDRMask ones 32)) (CIDRMask ones 32).

Lemma To4_As16 ip : length ip = 4%nat -> To4 (As16 ip) = Some ip.
Proof. intros H. destruct ip as [|a [|b [|c [|d [|]]]]]; try done. Qed.

Lemma land_bytes_twice a m : land_bytes (land_bytes a m) m = land_bytes a m.
Proof. unfold land_bytes. revert m. induction a as [|x a IH]; intros [|y m]; cbn; [done..|]. by rewrite IH, <- Z.land_assoc, Z.land_diag. Qed.

(** An address is in a network when its first bits are the network's. *)
Theorem network_holds_its_addresses net ip ones :
  length net = 4%nat -> length ip = 4%nat -> bytes net -> bytes ip -> 0 <= ones <= 32 ->
  Contains (network4 net ones) (As16 ip) = true <-> forall i, Z.of_nat i < ones -> address_bit net i = address_bit ip i.
Proof.
  intros Hn Hi Hbn Hbi Ho. unfold Contains, networkNumberAndMask, network4. cbn [nt_IP nt_Mask].
  assert (Hm : length (CIDRMask ones 32) = 4%nat) by by rewrite length_mask.
  assert (Hl : length (land_bytes net (CIDRMask ones 32)) = 4%nat) by (unfold land_bytes; rewrite length_zip_with; lia).
  assert (H4 : To4 (land_bytes net (CIDRMask ones 32)) = Some (land_bytes net (CIDRMask ones 32))) by (unfold To4; by rewrite Hl).
  rewrite Hm, H4, Hl, To4_As16 by done. cbn [Nat.eqb]. rewrite Hl, Hi. cbn [Nat.eqb andb]. rewrite bool_decide_eq_true, land_bytes_twice.
  rewrite <- (masked_same net ip ones); rewrite ?Hn; (done || lia).
Qed.

(** ** Printed addresses are read back *)

Definition print4 (a b c d : Z) : string := itoa a +:+ String "." (itoa b +:+ String "." (itoa c +:+ String "." (itoa d))).

Lemma octet_of_itoa a : 0 <= a < 256 -> octet_from (itoa a) 0 0 = Some a /\ str_in "." (itoa a) = false /\ str_in "%" (itoa a) = false /\ family (itoa a) = None.
Proof.
  intros Ha. assert (Hall : forallb (fun n => let s := itoa (Z.of_nat n) in
    bool_decide (octet_from s 0 0 = Some (Z.of_nat n)) && negb (str_in "." s) && negb (str_in "%" s) && match family s with None => true | _ => false end) (seq 0 256) = true)
    by (vm_compute; reflexivity).
  rewrite forallb_forall in Hall. specialize (Hall (Z.to_nat a) ltac:(apply in_seq; lia)). cbv beta zeta in Hall. rewrite Z2Nat.id in Hall by lia.
  apply andb_prop in Hall as [[[H1%bool_decide_eq_true H2%negb_true_iff]%andb_prop H3%negb_true_iff]%andb_prop H4]. split_and!; try done. by destruct (family (itoa a)).
Qed.

Lemma split_on_none c s : str_in c s = false -> split_on c s = [s].
Proof. induction s as [|a s IH]; cbn; [done|]. destruct (Ascii.eqb a c); [done|]. cbn. intros H. by rewrite IH. Qed.

Lemma family_app s t : str_in "%" s = false -> family s = None -> family (s +:+ t) = family t.
Proof. induction s as [|c s IH]; cbn; [done|]. destruct (Ascii.eqb c "."), (Ascii.eqb c ":"), (Ascii.eqb c "%"); try done. Qed.

Theorem printed_address_is_read a b c d :
  0 <= a < 256 -> 0 <= b < 256 -> 0 <= c < 256 -> 0 <= d < 256 -> ParseIP (print4 a b c d) = Some (As16 [a; b; c; d]).
Proof.
  intros Ha Hb Hc Hd. apply octet_of_itoa in Ha as (Ha & Hda & Hpa & Hfa), Hb as (Hb & Hdb & _), Hc as (Hc & Hdc & _), Hd as (Hd & Hdd & _).
  unfold ParseIP, ParseAddr, print4. rewrite family_app by done. cbn [family Ascii.eqb Bool.eqb]. unfold parseIPv4.
  rewrite !split_on_app, split_on_none by done. by rewrite Ha, Hb, Hc, Hd.
Qed.

(** ** Parsed addresses *)

Lemma octet_range s v n x : 0 <= v < 256 -> octet_from s v n = Some x -> 0 <= x < 256.
Proof.
  revert v n. induction s as [|c s IH]; intros v n Hv; cbn [octet_from]; [destruct n; congruence|].
  destruct (in_range 48 57 (byte c)) eqn:Hc; [|done]. unfold in_range in Hc. bool_hyps. case_match; [done|].
  destruct (Z.ltb_spec 255 (v * 10 + (byte c - 48))); [done|]. apply IH. lia.
Qed.

Lemma parseIPv4_wf s ip : parseIPv4 s = Some ip -> length ip = 4%nat /\ bytes ip.
Proof.
  unfold parseIPv4. intros H. repeat (case_match; try done). simplify_eq. split; [done|].
  repeat constructor; (eapply octet_range; [|eassumption]; lia).
Qed.

Lemma hex_field_bound s : forall n v k x rest, 0 <= v < 16 ^ Z.of_nat n -> hex_field s n v = (k, x, rest) -> 0 <= x < 16 ^ Z.of_nat k.
Proof.
  induction s as [|c s IH]; intros n v k x rest Hv; cbn [hex_field]; [by intros [= <- <- <-]|].
  destruct (hex_value c) as [h|] eqn:Hh; [|by intros [= <- <- <-]]. apply IH.
  assert (0 <= h < 16) by (unfold hex_value, in_range in Hh; repeat case_match; bool_hyps; simplify_eq; lia).
  rewrite Nat2Z.inj_succ, Z.pow_succ_r by lia. lia.
Qed.

Lemma fields_v6_wf n : forall ip e s ip' e' s',
  bytes ip -> (length ip + 2 * n <= 16)%nat -> match e with Some k => (k <= length ip)%nat | None => True end ->
  fields_v6 n ip e s = Some (ip', e', s') ->
  bytes ip' /\ (length ip' <= 16)%nat /\ match e' with Some k => (k <= length ip')%nat | None => True end.
Proof.
  induction n as [|n IH]; intros ip e s ip' e' s' Hb Hl He; cbn [fields_v6]; [by intros [= <- <- <-]; split_and!; [|lia|]|].
  destruct (hex_field s 0 0) as [[k v] rest] eqn:Hh. apply hex_field_bound in Hh; [|cbn; lia].
  destruct (Nat.eqb k 0 || Nat.ltb 4 k)%bool eqn:Hk; [done|]. apply orb_false_iff in Hk as [_ Hk%Nat.ltb_ge].
  assert (Hv : 0 <= v < 65536) by (pose proof (Z.pow_le_mono_r 16 (Z.of_nat k) 4 ltac:(lia) ltac:(lia)); change (16 ^ 4) with 65536 in *; lia).
  assert (Hb' : bytes (ip ++ [v / 256; v mod 256])).
  { apply Forall_app. split; [done|]. repeat constructor; [apply Z.div_pos|apply Z.div_lt_upper_bound|apply Z.mod_pos_bound..]; lia. }
  assert (Hl' : length (ip ++ [v / 256; v mod 256]) = (length ip + 2)%nat) by (rewrite length_app; done).
  assert (He' : match e with Some k => (k <= length (ip ++ [v / 256; v mod 256]%Z))%nat | None => True end) by (destruct e; [lia|done]).
  set (next := ip ++ [v / 256; v mod 256]) in *. clearbody next.
  assert (Hgo : forall e s, match e with Some k => (k <= length next)%nat | None => True end -> fields_v6 n next e s = Some (ip', e', s') ->
    bytes ip' /\ (length ip' <= 16)%nat /\ match e' with Some k => (k <= length ip')%nat | None => True end)
    by (intros e0 s0 He0 H; eapply IH; [..|exact H]; (done || lia)).
  assert (Hdot : option_map (fun v4 => (ip ++ v4, e, EmptyString)) (parseIPv4 s) = Some (ip', e', s') -> (length ip <= 12)%nat ->
    bytes ip' /\ (length ip' <= 16)%nat /\ match e' with Some k => (k <= length ip')%nat | None => True end).
  { destruct (parseIPv4 s) as [v4|] eqn:H4; [|done]. apply parseIPv4_wf in H4 as [Hl4 Hb4]. intros [= <- <- <-] H12.
    rewrite length_app, Hl4. split_and!; [by apply Forall_app|lia|destruct e; [lia|done]]. }
  intros H. repeat (case_match; try done); simplify_eq; try (apply Hgo in H; [done|done || lia]); try (split_and!; (done || lia)).
  all: try (apply Hdot in H; [done|]; match goal with H : Nat.ltb _ _ = false |- _ => apply Nat.ltb_ge in H; lia end).
Qed.

(** An address that is read has sixteen bytes. *)
Theorem parsed_address_is_well_formed s ip : ParseIP s = Some ip -> length ip = 16%nat /\ bytes ip.
Proof.
  unfold ParseIP, ParseAddr. destruct (family s) as [[|]|]; [| |done].
  - destruct (parseIPv4 s) as [ip4|] eqn:H; [|done]. apply parseIPv4_wf in H as [Hl Hb]. intros [= <-]. unfold As16. rewrite Hl. split; [cbn; lia|].
    apply Forall_app. split; [|done]. unfold v4InV6Prefix. cbn. by repeat (apply Forall_cons; split; [lia|]).
  - destruct (parseIPv6 s) as [ip6|] eqn:H; [|done]. intros [= <-].
    assert (Hw : length ip6 = 16%nat /\ bytes ip6); [|destruct Hw as [Hl16 Hb16]; unfold As16; by rewrite Hl16].
    unfold parseIPv6 in H. destruct (match s with String ":" (String ":" r) => _ | _ => _ end) as [e t] eqn:Ht.
    assert (He : match e with Some k => (k <= 0)%nat | None => True end) by (repeat case_match; simplify_eq; (done || lia)).
    assert (Hf : match fields_v6 8 [] e t with Some (ip, ellipsis, EmptyString) => expand_v6 ip ellipsis | _ => None end = Some ip6 ->
      length ip6 = 16%nat /\ bytes ip6).
    { destruct (fields_v6 8 [] e t) as [[[ip e'] [|]]|] eqn:Hf; [|done..]. apply fields_v6_wf in Hf as (Hb & Hl & Hk); [|constructor|cbn; lia|done].
      unfold expand_v6. destruct (Nat.ltb_spec (length ip) 16) as [Hs|Hs].
      - destruct e' as [k|]; [|done]. intros [= <-]. rewrite !length_app, length_take, length_drop, repeat_length. split; [lia|].
        repeat (apply Forall_app; split); [by apply Forall_take|apply Forall_forall; intros x Hx%list_elem_of_In%repeat_spec; lia|by apply Forall_drop].
      - destruct e'; [done|]. intros [= <-]. split; [lia|done]. }
    destruct e as [k|], t as [|c t]; [|by apply Hf..]. injection H as <-. split; [done|]. by repeat (apply Forall_cons; split; [lia|]).
Qed.

(** ** Who passes *)

(** A request passes when its address is read, is in no blocked network and is
    in an allowed one, should there be any; the address is the peer's, unless
    the header names another. *)
Theorem passes_iff i clientIP header :
  IPMiddleware i clientIP header = true <->
  clientIP <> EmptyString /\
  exists ip, ParseIP (or_address (getClientIP i header) clientIP) = Some ip /\
    (forall n, n ∈ ia_blockList i -> Contains n ip = false) /\
    (ia_allowList i = [] \/ exists n, n ∈ ia_allowList i /\ Contains n ip = true).
Proof.
  unfold IPMiddleware, or_address, isIPAllowed. destruct (String.eqb_spec clientIP EmptyString) as [He|He]; [split; [done|by intros [? _]]|].
  destruct (ParseIP _) as [ip|]; [|split; [done|by intros (_ & ? & ? & _)]].
  assert (Hany : forall ns, in_any ns ip = true <-> exists n, n ∈ ns /\ Contains n ip = true).
  { intros ns. unfold in_any. rewrite existsb_exists. split; intros (n & Hn & Hc); exists n; (split; [by apply list_elem_of_In|done]). }
  assert (Hnone : in_any (ia_blockList i) ip = false <-> forall n, n ∈ ia_blockList i -> Contains n ip = false).
  { rewrite <- not_true_iff_false, Hany. split.
    - intros H n Hn. apply not_true_iff_false. intros Hc. apply H. by exists n.
    - intros H (n & Hn & Hc). by rewrite H in Hc. }
  destruct (in_any (ia_blockList i) ip) eqn:Hb.
  - split; [done|]. intros (_ & ip' & [= <-] & Hbl & _). by apply Hnone in Hbl.
  - pose proof (proj1 Hnone eq_refl) as Hbl. destruct (ia_allowList i) as [|n ns] eqn:Ha.
    + split; [|done]. intros _. split; [done|]. exists ip. auto.
    + rewrite Hany. split.
      * intros H. split; [done|]. exists ip. auto.
      * intros (_ & ip' & [= <-] & _ & [?|?]); done.
Qed.

(** Where there is any trusted proxy, the header decides, and nothing asks
    whether it came from one: whoever writes an allowed address in front of it
    passes, from any peer. *)
Theorem header_replaces_the_peer i ip peer rest :
  ia_trustedProxies i <> [] -> TrimSpace ip = ip -> str_in "," ip = false ->
  (forall p, ParseIP ip = Some p -> in_any (ia_trustedProxies i) p = false) -> isIPAllowed i ip = true -> peer <> EmptyString ->
  IPMiddleware i peer (ip +:+ String "," rest) = true.
Proof.
  intros Hp Ht Hc Hu Ha Hpeer. unfold IPMiddleware. destruct (String.eqb_spec peer EmptyString); [done|].
  assert (Hread : exists p, ParseIP ip = Some p) by (unfold isIPAllowed in Ha; destruct (ParseIP ip); [by eexists|done]). destruct Hread as [p Hread].
  assert (Hne : String.eqb ip EmptyString = false) by by destruct ip.
  assert (getClientIP i (ip +:+ String "," rest) = ip) as ->; [|by unfold or_address; rewrite Hne].
  unfold getClientIP. destruct (ia_trustedProxies i) as [|q qs] eqn:Hq; [done|].
  assert (String.eqb (ip +:+ String "," rest) EmptyString = false) as -> by by destruct ip.
  rewrite split_on_app by done. cbn [first_untrusted]. by rewrite Ht, Hne, Hread, Hu.
Qed.

Definition guarded : result ip_error IPAllowList := NewIPAllowList ["10.0.0.0/8"] ["10.9.0.0/16"] ["192.168.0.1"].

(** The outsider 203.0.113.9 is refused, and passes with a header of its own. *)
Example outsider_passes :
  match guarded with
  | Ok i => IPMiddleware i "203.0.113.9" EmptyString = false /\ IPMiddleware i "203.0.113.9" "10.1.2.3, 203.0.113.9" = true /\
            IPMiddleware i "10.9.0.7" EmptyString = false /\ IPMiddleware i "::ffff:10.1.2.3" EmptyString = true
  | Err _ => False
  end.
Proof. vm_compute. split_and!; done. Qed.

(** Blocking every IPv6 network blocks no IPv4 address, nor the other way. *)
Example families_are_blocked_apart :
  match NewIPAllowList [] ["::/0"] [], NewIPAllowList [] ["0.0.0.0/0"] [] with
  | Ok i, Ok j => isIPAllowed i "10.0.0.1" = true /\ isIPAllowed i "2001:db8::1" = false /\
                  isIPAllowed j "10.0.0.1" = false /\ isIPAllowed j "2001:db8::1" = true
  | _, _ => False
  end.
Proof. vm_compute. split_and!; done. Qed.

Lemma header_replaces_the_peer_witness : exists i, guarded = Ok i /\ IPMiddleware i "203.0.113.9" ("10.1.2.3" +:+ String "," EmptyString) = true.
Proof.
  eexists. split; [vm_compute; reflexivity|]. apply header_replaces_the_peer; [discriminate|vm_compute; reflexivity..| |vm_compute; reflexivity|discriminate].
  intros p Hp. vm_compute in Hp. injection Hp as <-. vm_compute. reflexivity.
Defined.
