(* ===== verification/JobApi.v ===== *)
(** internal/agent/approval: approval requests and the store that keeps them
    in memory.

    The store keeps the pointer it is given and returns it; the handlers do
    not write through it, and the fields they read after [Complete] are not
    the ones [Complete] changes, so requests are values here.

    Second half: the handlers that steer a job. *)

From S2P Require Import Prelude GoTime Json Events MemStore JobFsm JobQueue JobStore Messaging AccessControl.

(** ** Types (types.go) *)

Definition Decision : Type := string.
Definition DecisionPending : Decision := "pending".
Definition DecisionApproved : Decision := "approved".
Definition DecisionRejected : Decision := "rejected".
Definition DecisionExpired : Decision := "expired".
Definition DecisionDelegated : Decision := "delegated".

Definition ApproverTypeAnyone : string := "anyone".
Definition ApproverTypeSpecific : string := "specific".
Definition ApproverTypeRole : string := "role".

Record ApprovalResponse := mkApprovalResponse {
  are_Decision : Decision; are_ApproverID : string; are_ApproverName : string; are_Comment : string;
  are_DelegatedTo : string; are_RespondedAt : time;
}.

Record ApprovalRequest := mkApproval {
  apr_ID : string; apr_JobID : string; apr_NodeID : string; apr_CorrelationKey : string;
  apr_ApproverType : string; apr_ApproverID : string; apr_Role : string; apr_Title : string;
  apr_Description : string; apr_Payload : payload; apr_Status : Decision;
  apr_ApproverResp : option ApprovalResponse; apr_ExpiresAt : option time;
  apr_CreatedAt : time; apr_UpdatedAt : time;
}.

Definition set_apr_times (now : time) (r : ApprovalRequest) : ApprovalRequest :=
  mkApproval (apr_ID r) (apr_JobID r) (apr_NodeID r) (apr_CorrelationKey r) (apr_ApproverType r)
    (apr_ApproverID r) (apr_Role r) (apr_Title r) (apr_Description r) (apr_Payload r)
    (if String.eqb (apr_Status r) EmptyString then DecisionPending else apr_Status r)
    (apr_ApproverResp r) (apr_ExpiresAt r) now now.

Definition set_apr_status (now : time) (st : Decision) (resp : option ApprovalResponse) (r : ApprovalRequest)
  : ApprovalRequest :=
  mkApproval (apr_ID r) (apr_JobID r) (apr_NodeID r) (apr_CorrelationKey r) (apr_ApproverType r)
    (apr_ApproverID r) (apr_Role r) (apr_Title r) (apr_Description r) (apr_Payload r)
    st resp (apr_ExpiresAt r) (apr_CreatedAt r) now.

(** ** The store (mem_store.go).  None of its operations fails. *)

Definition ApprovalStore : Type := gmap string ApprovalRequest.

Definition approval_NewMemStore : ApprovalStore := ∅.

Definition approval_Create (now : time) (req : ApprovalRequest) (s : ApprovalStore) : ApprovalStore := <[apr_ID req := set_apr_times now req]> s.

Definition approval_GetByID (id : string) (s : ApprovalStore) : option ApprovalRequest := s !! id.

(** Listings visit the map in the given order. *)
Definition approval_select (order : list string) (p : ApprovalRequest -> bool) (s : ApprovalStore) : list ApprovalRequest :=
  filter (fun r => p r = true) (omap (fun id => s !! id) order).

Definition approval_GetByJobID (order : list string) (jobID : string) (s : ApprovalStore) : list ApprovalRequest :=
  approval_select order (fun r => String.eqb (apr_JobID r) jobID) s.

Definition approval_is_pending (r : ApprovalRequest) : bool := String.eqb (apr_Status r) DecisionPending.

Definition approval_GetPending (order : list string) (now : time) (s : ApprovalStore) : list ApprovalRequest :=
  approval_select order (fun r => approval_is_pending r &&
    match apr_ExpiresAt r with None => true | Some t => t_after t now end) s.

Definition approval_may_answer (approverID : string) (r : ApprovalRequest) : bool :=
  if String.eqb (apr_ApproverType r) ApproverTypeAnyone then true
  else if String.eqb (apr_ApproverType r) ApproverTypeSpecific then String.eqb (apr_ApproverID r) approverID
  else false.

Definition approval_GetPendingByApprover (order : list string) (now : time) (approverID : string) (s : ApprovalStore)
  : list ApprovalRequest :=
  approval_select order (fun r => approval_is_pending r
    && negb match apr_ExpiresAt r with None => false | Some t => t_before t now end
    && approval_may_answer approverID r) s.

Definition approval_Complete (now : time) (id : string) (resp : ApprovalResponse) (s : ApprovalStore) : ApprovalStore :=
  match s !! id with
  | None => s
  | Some r => <[id := set_apr_status now (are_Decision resp) (Some resp) r]> s
  end.

Definition approval_Expire (now : time) (id : string) (s : ApprovalStore) : ApprovalStore :=
  match s !! id with
  | None => s
  | Some r => <[id := set_apr_status now DecisionExpired (apr_ApproverResp r) r]> s
  end.

(** A listing is exactly the stored requests of its kind. *)
Lemma elem_of_approval_select order p s r :
  r ∈ approval_select order p s <-> p r = true /\ exists id, id ∈ order /\ s !! id = Some r.
Proof. unfold approval_select. rewrite list_elem_of_filter, list_elem_of_omap. naive_solver. Qed.

(** internal/api/http/handler.go: the handlers that steer a job from outside
    (stop, pause, resume, signal, message, approvals) and the one that shows it.

    The job store is behind a class with the two stores of the repository as
    instances; the event store is any [JobStore].  An optional store of the
    handler is an [option].  [env n] gives the clock, uuid and disk of the
    n-th call of a handler into a store.  A body is what the binder makes of
    it and whether it reports an error.  Payloads decoded from a body can
    always be printed, so the branches for a failing [Marshal] are not
    reachable; the in-memory inbox, messaging bus and approval store do not
    fail either.  Requests carry no worker's attempt, so appends are not
    fenced by one. *)

(** ** The job store, as the handlers see it *)

Class JobRepo (R : Type) := {
  repo_mem : R -> JobStoreMem;
  repo_Get : string -> R -> option Job;
  repo_Create : call_env -> Job -> R -> R * (string * bool);
  repo_UpdateStatus : call_env -> string -> JobStatus -> R -> R * bool;
  repo_SetParked : call_env -> string -> string -> string -> string -> R -> R * bool;
  repo_WakeupJob : call_env -> string -> R -> R * bool;
  repo_RequestCancel : call_env -> string -> R -> R * bool;
}.

(** What the memory of the store becomes, whether or not saving it fails. *)
Class JobRepoSpec (R : Type) `{!JobRepo R} := {
  Get_mem id r : repo_Get id r = Get id (repo_mem r);
  Create_mem env j r : repo_mem (fst (repo_Create env j r)) = fst (Create (ce_now env) (ce_uuid env) j (repo_mem r));
  Create_id env j r : fst (snd (repo_Create env j r)) = job_ID (snd (Create (ce_now env) (ce_uuid env) j (repo_mem r)));
  Create_saved env j r : ce_io env = true -> snd (snd (repo_Create env j r)) = true;
  UpdateStatus_mem env id st r :
    repo_mem (fst (repo_UpdateStatus env id st r)) = UpdateStatus (ce_now env) id st (repo_mem r);
  SetParked_mem env id key wt reason r :
    repo_mem (fst (repo_SetParked env id key wt reason r)) = SetParked (ce_now env) id key wt reason (repo_mem r);
  SetParked_saved env id key wt reason r : ce_io env = true -> snd (repo_SetParked env id key wt reason r) = true;
  WakeupJob_mem env key r : repo_mem (fst (repo_WakeupJob env key r)) = fst (WakeupJob (ce_now env) key (repo_mem r));
  RequestCancel_mem env id r :
    repo_mem (fst (repo_RequestCancel env id r)) = RequestCancel (ce_now env) id (repo_mem r);
  RequestCancel_saved env id r : ce_io env = true -> snd (repo_RequestCancel env id r) = true;
}.

#[export] Instance mem_repo : JobRepo JobStoreMem := {
  repo_mem s := s;
  repo_Get := Get;
  repo_Create env j s := let '(s', j') := Create (ce_now env) (ce_uuid env) j s in (s', (job_ID j', true));
  repo_UpdateStatus env id st s := (UpdateStatus (ce_now env) id st s, true);
  repo_SetParked env id key wt reason s := (SetParked (ce_now env) id key wt reason s, true);
  repo_WakeupJob env key s := (fst (WakeupJob (ce_now env) key s), true);
  repo_RequestCancel env id s := (RequestCancel (ce_now env) id s, true);
}.

#[export] Instance mem_repo_spec : JobRepoSpec JobStoreMem.
Proof. split; intros; cbn; by try destruct (Create _ _ _ _). Qed.

#[export] Instance embedded_repo : JobRepo JobStoreEmbedded := {
  repo_mem := em_mem;
  repo_Get id s := Get id (em_mem s);
  repo_Create env j s :=
    let '(r, id) := Embedded_Create (ce_io env) (ce_now env) (ce_uuid env) j s in (fst r, (id, snd r));
  repo_UpdateStatus env := Embedded_UpdateStatus (ce_io env) (ce_now env);
  repo_SetParked env := Embedded_SetParked (ce_io env) (ce_now env);
  repo_WakeupJob env key s := let '(s', _, ok) := Embedded_WakeupJob (ce_io env) (ce_now env) key s in (s', ok);
  repo_RequestCancel env := Embedded_RequestCancel (ce_io env) (ce_now env);
}.

#[export] Instance embedded_repo_spec : JobRepoSpec JobStoreEmbedded.
Proof.
  split; intros; cbn; unfold Embedded_Create, Embedded_UpdateStatus, Embedded_SetParked, Embedded_WakeupJob,
    Embedded_RequestCancel, embedded_update, embedded_claim, JobQueue.persist in *.
  8: destruct (WakeupJob (ce_now env) key (em_mem r)) as [m [j|]]; cbn.
  all: try done; destruct (ce_io env); done.
Qed.

(** ** Answers *)

Definition not_found : Response := refuse 404 "任务not found".
Definition job_disabled : Response := refuse 503 "Job 未启用".
Definition events_disabled : Response := refuse 503 "Job 或事件存储未启用".
Definition accepted (jobID status message : string) : Response :=
  mkResponse 200 (JObj [("job_id", JStr jobID); ("message", JStr message); ("status", JStr status)]).

(** The number [json.Marshal] writes for a [JobStatus]. *)
Definition status_number (s : JobStatus) : Z :=
  match s with
  | StatusPending => 0 | StatusRunning => 1 | StatusCompleted => 2 | StatusFailed => 3 | StatusCancelled => 4
  | StatusWaiting => 5 | StatusParked => 6 | StatusRetrying => 7 | StatusOther n => n
  end.

Definition already_delivered (jobID : string) (st : JobStatus) (message : string) : Response :=
  mkResponse 200 (JObj [("job_id", JStr jobID); ("message", JStr message); ("status", JNum (itoa (status_number st)))]).

(** ** Requests *)

Record JobPauseRequest := mkPause { jp_CorrelationKey : string; jp_WaitType : string; jp_Reason : string }.
Record JobResumeRequest := mkResume { jr_CorrelationKey : string; jr_Reason : string }.
Record JobSignalRequest := mkSignalReq { js_CorrelationKey : string; js_Payload : payload }.
Record JobMessageRequest := mkMessageReq {
  jq_MessageID : string; jq_Channel : string; jq_CorrelationKey : string; jq_Payload : payload }.

(** ** Looking at a stream *)

Fixpoint find_back (t : EventType) (es : list JobEvent) : option JobEvent :=
  match es with
  | [] => None
  | e :: rest =>
      match find_back t rest with
      | Some x => Some x
      | None => if bool_decide (ev_Type e = t) then Some e else None
      end
  end.

(** The payload of the last job_waiting event, empty when there is none. *)
Definition last_wait (es : list JobEvent) : JobWaitingPayload :=
  match find_back JobWaiting es with
  | Some e => fst (ParseJobWaitingPayload (ev_Payload e))
  | None => empty_JobWaiting
  end.

Definition lastEventIsWaitCompletedWithCorrelationKey (es : list JobEvent) (key : string) : bool :=
  if String.eqb key EmptyString then false
  else match last es with
       | None => false
       | Some e =>
           bool_decide (ev_Type e = WaitCompleted) &&
           match unmarshal (ev_Payload e) with
           | Some (JObj ms) => match lookup_field "correlation_key" ms with
                               | Some (JStr ck) => String.eqb ck key
                               | _ => false
                               end
           | _ => false
           end
       end.

Definition wait_completed (jobID nodeID key raw : string) : JobEvent :=
  mkJobEvent EmptyString jobID WaitCompleted
    (obj_text [("correlation_key", quote key); ("node_id", quote nodeID); ("payload", raw)])
    zero_time EmptyString EmptyString.

(** A nil payload is replaced by an empty map. *)
Definition payload_text (p : payload) : string := print (JObj (map_to_list (default ∅ p))).

(** ** The handler *)

Section handlers.
Context {R S : Type} `{!JobRepo R} `{!JobStore S}.

Record Handler := mkHandler {
  hd_jobStore : option R;
  hd_jobEventStore : option S;
  hd_wakeupQueue : option WakeupQueueMem;
  hd_signalInbox : option inboxMem;
  hd_agentMessagingBus : option StoreMem;
  hd_approvalStore : option ApprovalStore;
}.

Definition set_jobStore r h := mkHandler (Some r) (hd_jobEventStore h) (hd_wakeupQueue h) (hd_signalInbox h)
  (hd_agentMessagingBus h) (hd_approvalStore h).
Definition set_jobEventStore s h := mkHandler (hd_jobStore h) (Some s) (hd_wakeupQueue h) (hd_signalInbox h)
  (hd_agentMessagingBus h) (hd_approvalStore h).
Definition set_wakeupQueue q h := mkHandler (hd_jobStore h) (hd_jobEventStore h) q (hd_signalInbox h)
  (hd_agentMessagingBus h) (hd_approvalStore h).
Definition set_signalInbox i h := mkHandler (hd_jobStore h) (hd_jobEventStore h) (hd_wakeupQueue h) i
  (hd_agentMessagingBus h) (hd_approvalStore h).
Definition set_bus b h := mkHandler (hd_jobStore h) (hd_jobEventStore h) (hd_wakeupQueue h) (hd_signalInbox h)
  b (hd_approvalStore h).
Definition set_approvalStore a h := mkHandler (hd_jobStore h) (hd_jobEventStore h) (hd_wakeupQueue h)
  (hd_signalInbox h) (hd_agentMessagingBus h) (Some a).

Definition tenant_of (cx : Context) : string := or_else (cx_TenantID cx) "default".

(** The job the request names, with the job store it is in. *)
Definition getJobAndCheckTenant (cx : Context) (jobID : string) (h : Handler) : result Response (R * Job) :=
  match hd_jobStore h with
  | None => Err job_disabled
  | Some r =>
      match repo_Get jobID r with
      | None => Err not_found
      | Some j => if String.eqb (job_TenantID j) (tenant_of cx) then Ok (r, j) else Err not_found
      end
  end.

Definition finished (j : Job) : bool :=
  bool_decide (job_Status j = StatusCompleted) || bool_decide (job_Status j = StatusFailed)
  || bool_decide (job_Status j = StatusCancelled).

Definition is_waiting (j : Job) : bool :=
  bool_decide (job_Status j = StatusWaiting) || bool_decide (job_Status j = StatusParked).

Definition notify_ready (jobID : string) (h : Handler) : Handler :=
  set_wakeupQueue (NotifyReady jobID <$> hd_wakeupQueue h) h.

(** [_, ver, _ := ListEvents; _, _ = Append(ver, *ev)], when there is an event store. *)
Definition append_latest (env : call_env) (jobID : string) (e : JobEvent) (h : Handler) : outcome Handler :=
  match hd_jobEventStore h with
  | None => Ret h
  | Some s =>
      run l <- js_ListEvents jobID s ;;
      run p <- js_Append env EmptyString jobID (snd l) e s ;;
      Ret (set_jobEventStore (fst p) h)
  end.

(** [h.jobStore.UpdateStatus(ctx, jobID, StatusPending)], its error ignored. *)
Definition set_pending_status (env : call_env) (jobID : string) (r : R) (h : Handler) : Handler :=
  set_jobStore (fst (repo_UpdateStatus env jobID StatusPending r)) h.

(** *** Showing a job *)

Definition GetJob (cx : Context) (jobID : string) (h : Handler) : outcome Response :=
  match hd_jobEventStore h with
  | None => Ret job_disabled
  | Some s =>
      match getJobAndCheckTenant cx jobID h with
      | Err resp => Ret resp
      | Ok (_, j) =>
          run l <- js_ListEvents jobID s ;;
          let p := last_wait (fst l) in
          let wait := if bool_decide (job_Status j = StatusWaiting) && negb (String.eqb (jw_CorrelationKey p) EmptyString)
                      then [("wait_correlation_key", JStr (jw_CorrelationKey p)); ("wait_node_id", JStr (jw_NodeID p))]
                      else [] in
          match marshal_time (job_CreatedAt j), marshal_time (job_UpdatedAt j) with
          | Some _, Some _ =>
              Ret (mkResponse 200 (JObj ([("agent_id", JStr (job_AgentID j));
                ("created_at", JStr (format_rfc3339nano (job_CreatedAt j))); ("cursor", JStr (job_Cursor j));
                ("goal", JStr (job_Goal j)); ("id", JStr (job_ID j)); ("retry_count", JNum (itoa (job_RetryCount j)));
                ("status", JStr (status_string (job_Status j)));
                ("updated_at", JStr (format_rfc3339nano (job_UpdatedAt j)))] ++ wait)))
          | _, _ => Ret (refuse 500 "序列化 Job failed")
          end
      end
  end.

(** *** Stop, pause, resume *)

Definition JobStop (env : Z -> call_env) (cx : Context) (jobID : string) (h : Handler) : outcome (Handler * Response) :=
  match getJobAndCheckTenant cx jobID h with
  | Err resp => Ret (h, resp)
  | Ok (r, j) =>
      if finished j then Ret (h, refuse 400 "任务已结束，无法取消")
      else let '(r', ok) := repo_RequestCancel (env 0) jobID r in
           Ret (set_jobStore r' h,
                if ok then accepted jobID "cancelling" "已请求取消，Worker 将中断执行" else refuse 500 "取消failed")
  end.

Definition pause_key (now : time) (jobID : string) : string := "pause-" +:+ jobID +:+ "-" +:+ itoa (unix_nano now).

Definition JobPause (env : Z -> call_env) (cx : Context) (jobID : string) (req : JobPauseRequest) (h : Handler)
  : outcome (Handler * Response) :=
  match getJobAndCheckTenant cx jobID h with
  | Err resp => Ret (h, resp)
  | Ok (r, j) =>
      if finished j then Ret (h, refuse 400 "任务已结束，无法暂停")
      else
        let waitType := or_else (jp_WaitType req) "manual" in
        let key := or_else (jp_CorrelationKey req) (pause_key (ce_now (env 0)) jobID) in
        let '(r', ok) := repo_SetParked (env 1) jobID key waitType (jp_Reason req) r in
        let h1 := set_jobStore r' h in
        if negb ok then Ret (h1, refuse 500 "暂停任务failed")
        else
          run h2 <- append_latest (env 2) jobID
                      (NewJobParkedEvent (ce_now (env 2)) jobID (jp_Reason req) key waitType) h1 ;;
          Ret (h2, mkResponse 200 (JObj [("correlation_key", JStr key); ("job_id", JStr jobID); ("status", JStr "parked")]))
  end.

Definition JobResume (env : Z -> call_env) (cx : Context) (jobID : string) (req : JobResumeRequest) (h : Handler)
  : outcome (Handler * Response) :=
  match getJobAndCheckTenant cx jobID h with
  | Err resp => Ret (h, resp)
  | Ok (r, j) =>
      let '(r', ok) := if String.eqb (jr_CorrelationKey req) EmptyString
                       then (fst (repo_UpdateStatus (env 0) jobID StatusPending r), true)
                       else repo_WakeupJob (env 0) (jr_CorrelationKey req) r in
      let h1 := set_jobStore r' h in
      if negb ok then Ret (h1, refuse 500 "恢复任务failed")
      else
        run h2 <- append_latest (env 1) jobID
                    (NewJobResumedEvent (ce_now (env 1)) jobID (jr_CorrelationKey req) "manual")
                    (notify_ready jobID h1) ;;
        Ret (h2, mkResponse 200 (JObj [("job_id", JStr jobID); ("status", JStr "pending")]))
  end.

(** *** Signal

    The handler reads the job and its stream, then writes; other requests and
    the workers can come in between, so the two halves are separate. *)

Record signal_plan := mkPlan {
  sp_version : Z; sp_status : JobStatus; sp_node : string; sp_key : string; sp_payload : string }.

Definition signal_check (cx : Context) (jobID : string) (req : result unit JobSignalRequest) (h : Handler)
  : outcome (result Response signal_plan) :=
  match hd_jobEventStore h with
  | None => Ret (Err events_disabled)
  | Some s =>
      match getJobAndCheckTenant cx jobID h with
      | Err resp => Ret (Err resp)
      | Ok (_, j) =>
          if negb (is_waiting j) then Ret (Err (refuse 400 "任务未在等待状态（Waiting/Parked），无法 signal"))
          else
            run l <- js_ListEvents jobID s ;;
            let w := last_wait (fst l) in
            if String.eqb (jw_CorrelationKey w) EmptyString
            then Ret (Err (refuse 400 "job_waiting not found (missing correlation_key)"))
            else match req with
                 | Err _ => Ret (Err (refuse 400 "请求体需包含 correlation_key"))
                 | Ok q =>
                     if negb (String.eqb (js_CorrelationKey q) (jw_CorrelationKey w))
                     then Ret (Err (refuse 400 "correlation_key 与当前等待不匹配"))
                     else if lastEventIsWaitCompletedWithCorrelationKey (fst l) (js_CorrelationKey q)
                     then Ret (Err (already_delivered jobID (job_Status j) "signal 已送达（幂等）"))
                     else Ret (Ok (mkPlan (snd l) (job_Status j) (jw_NodeID w) (js_CorrelationKey q)
                                     (payload_text (js_Payload q))))
                 end
      end
  end.

(** [signal_deliver] runs after a check that found both stores.  The signal
    enters the inbox before it enters the stream. *)
Definition receive_signal (env : call_env) (jobID key raw : string) (h : Handler) : Handler * string :=
  match hd_signalInbox h with
  | None => (h, EmptyString)
  | Some i => let '(i', id) := inbox_Append (ce_now env) (ce_uuid env) jobID key raw i in
              (set_signalInbox (Some i') h, id)
  end.

Definition ack_signal (env : call_env) (jobID signalID : string) (h : Handler) : Handler :=
  match hd_signalInbox h with
  | Some i => if String.eqb signalID EmptyString then h
              else set_signalInbox (Some (MarkAcked (ce_now env) jobID signalID i)) h
  | None => h
  end.

Definition signal_deliver (env : Z -> call_env) (jobID : string) (p : signal_plan) (h : Handler)
  : outcome (Handler * Response) :=
  match hd_jobEventStore h, hd_jobStore h with
  | Some s, Some r =>
      let '(h1, signalID) := receive_signal (env 0) jobID (sp_key p) (sp_payload p) h in
      run a <- js_Append (env 1) EmptyString jobID (sp_version p)
                 (wait_completed jobID (sp_node p) (sp_key p) (sp_payload p)) s ;;
      let h2 := set_jobEventStore (fst a) h1 in
      match snd a with
      | Err err =>
          run again <- match err with
                       | Known ErrVersionMismatch =>
                           run l <- js_ListEvents jobID (fst a) ;;
                           Ret (lastEventIsWaitCompletedWithCorrelationKey (fst l) (sp_key p))
                       | _ => Ret false
                       end ;;
          if again then Ret (ack_signal (env 2) jobID signalID h2,
                             already_delivered jobID (sp_status p) "signal 已送达（并发幂等）")
          else Ret (h2, refuse 500 "write event failed")
      | Ok _ =>
          let h3 := set_pending_status (env 2) jobID r h2 in
          Ret (notify_ready jobID (ack_signal (env 3) jobID signalID h3),
               accepted jobID "pending" "已发送 signal，Job 将重新入队执行")
      end
  | _, _ => Ret (h, events_disabled)
  end.

Definition JobSignal (env : Z -> call_env) (cx : Context) (jobID : string) (req : result unit JobSignalRequest)
    (h : Handler) : outcome (Handler * Response) :=
  run c <- signal_check cx jobID req h ;;
  match c with
  | Err resp => Ret (h, resp)
  | Ok p => signal_deliver env jobID p h
  end.

(** *** Message *)

Definition JobMessage (env : Z -> call_env) (cx : Context) (jobID : string) (req : result unit JobMessageRequest)
    (h : Handler) : outcome (Handler * Response) :=
  match hd_jobEventStore h with
  | None => Ret (h, events_disabled)
  | Some s =>
      match getJobAndCheckTenant cx jobID h with
      | Err resp => Ret (h, resp)
      | Ok (r, j) =>
          match req with
          | Err _ => Ret (h, refuse 400 "请求体需为 JSON")
          | Ok q =>
              let messageID := or_else (jq_MessageID q) ("msg-" +:+ itoa (unix_nano (ce_now (env 0)))) in
              let raw := payload_text (jq_Payload q) in
              let msg := obj_text [("message_id", quote messageID); ("channel", quote (jq_Channel q));
                                   ("correlation_key", quote (jq_CorrelationKey q)); ("payload", raw)] in
              run l <- js_ListEvents jobID s ;;
              run a <- js_Append (env 1) EmptyString jobID (snd l)
                         (mkJobEvent EmptyString jobID AgentMessage msg zero_time EmptyString EmptyString) s ;;
              let h1 := set_jobEventStore (fst a) h in
              match snd a with
              | Err _ => Ret (h1, refuse 500 "写入消息failed")
              | Ok _ =>
                  let send b := fst (Send (ce_now (env 2)) (ce_uuid (env 2)) EmptyString (job_AgentID j)
                                       (Some (default ∅ (jq_Payload q)))
                                       (Some (mkSendOptions (jq_Channel q) KindUser EmptyString None None EmptyString)) b) in
                  let h2 := set_bus (send <$> hd_agentMessagingBus h1) h1 in
                  let w := last_wait (fst l) in
                  let key := jw_CorrelationKey w in
                  if is_waiting j && String.eqb (jw_WaitType w) "message" && negb (String.eqb key EmptyString)
                     && (String.eqb key (jq_Channel q) || String.eqb key (jq_CorrelationKey q))
                  then
                    if lastEventIsWaitCompletedWithCorrelationKey (fst l) key
                    then Ret (h2, accepted jobID "pending" "消息已投递并解除等待（幂等）")
                    else
                      run h3 <- append_latest (env 3) jobID (wait_completed jobID (jw_NodeID w) key raw) h2 ;;
                      Ret (notify_ready jobID (set_pending_status (env 4) jobID r h3),
                           accepted jobID "pending" "已投递消息并解除等待，Job 将重新入队执行")
                  else Ret (h2, mkResponse 200 (JObj [("job_id", JStr jobID); ("message", JStr "已写入 agent_message 事件")]))
              end
          end
      end
  end.

(** *** Approvals *)

Definition approvals_disabled : Response := refuse 503 "审批功能未启用".

Record CreateApprovalRequest := mkCreateApproval {
  ca_JobID : string; ca_NodeID : string; ca_CorrelationKey : string; ca_ApproverType : string;
  ca_ApproverID : string; ca_Role : string; ca_Title : string; ca_Description : string;
  ca_Payload : payload; ca_ExpiresInHours : Z }.

(** [time.Duration(n) * time.Hour] on 64 bits. *)
Definition hours (n : Z) : Z := (n * hour + 2 ^ 63) mod 2 ^ 64 - 2 ^ 63.

Definition CreateApproval (env : Z -> call_env) (req : result string CreateApprovalRequest) (h : Handler)
  : outcome (Handler * Response) :=
  match hd_approvalStore h with
  | None => Ret (h, approvals_disabled)
  | Some st =>
      match req with
      | Err e => Ret (h, refuse 400 e)
      | Ok q =>
          let approverType := or_else (ca_ApproverType q) "anyone" in
          let id := "apr-" +:+ itoa (unix_nano (ce_now (env 0))) in
          let expiresAt := if 0 <? ca_ExpiresInHours q
                           then Some (t_add (ce_now (env 1)) (hours (ca_ExpiresInHours q))) else None in
          let r := mkApproval id (ca_JobID q) (ca_NodeID q) (ca_CorrelationKey q) approverType (ca_ApproverID q)
                     (ca_Role q) (ca_Title q) (ca_Description q) (ca_Payload q) DecisionPending None expiresAt
                     (ce_now (env 2)) (ce_now (env 2)) in
          let h1 := set_approvalStore (approval_Create (ce_now (env 3)) r st) h in
          let created := mkResponse 201 (JObj [("id", JStr id); ("job_id", JStr (ca_JobID q));
                                               ("message", JStr "审批请求已创建"); ("status", JStr "pending")]) in
          match hd_jobEventStore h1 with
          | None => Ret (h1, created)
          | Some s =>
              run l <- js_ListEvents (ca_JobID q) s ;;
              match NewApprovalRequestedEvent (ce_now (env 4)) (ca_JobID q) id (ca_NodeID q) (ca_CorrelationKey q)
                      approverType (ca_Title q) (ca_Description q) (map_to_list (default ∅ (ca_Payload q))) expiresAt with
              | Err _ => Ret (h1, created)
              | Ok e =>
                  run a <- js_Append (env 5) EmptyString (ca_JobID q) (Z.of_nat (length (fst l))) e s ;;
                  Ret (set_jobEventStore (fst a) h1, created)
              end
          end
      end
  end.

Definition ListApprovals (order : list string) (now : time) (jobID approverID : string) (h : Handler)
  : result Response (list ApprovalRequest) :=
  match hd_approvalStore h with
  | None => Err approvals_disabled
  | Some st =>
      Ok (if negb (String.eqb jobID EmptyString) then approval_GetByJobID order jobID st
          else if negb (String.eqb approverID EmptyString) then approval_GetPendingByApprover order now approverID st
          else approval_GetPending order now st)
  end.

Definition GetApproval (id : string) (h : Handler) : result Response ApprovalRequest :=
  match hd_approvalStore h with
  | None => Err approvals_disabled
  | Some st =>
      if String.eqb id EmptyString then Err (refuse 400 "id is required")
      else match approval_GetByID id st with
           | None => Err (refuse 404 "审批请求不存在")
           | Some r => Ok r
           end
  end.

Record ApprovalActionRequest := mkAction {
  aa_ApproverID : string; aa_ApproverName : string; aa_Comment : string; aa_DelegatedTo : string }.

(** The part of the handler before its first write. *)
Definition approval_check (id : string) (req : result string ApprovalActionRequest) (h : Handler)
  : result Response (ApprovalStore * ApprovalRequest * ApprovalActionRequest) :=
  match hd_approvalStore h with
  | None => Err approvals_disabled
  | Some st =>
      if String.eqb id EmptyString then Err (refuse 400 "id is required")
      else match req with
      | Err e => Err (refuse 400 e)
      | Ok q =>
          match approval_GetByID id st with
          | None => Err (refuse 404 "审批请求不存在")
          | Some r =>
              if negb (String.eqb (apr_Status r) DecisionPending)
              then Err (refuse 409 ("审批请求状态已是 " +:+ apr_Status r))
              else Ok (st, r, q)
          end
      end
  end.

(** Both events of a decision; the second is appended at the version the
    first left, or at the one before it when the first was refused. *)
Definition append_decision (env : Z -> call_env) (id : string) (decision : Decision) (r : ApprovalRequest)
    (q : ApprovalActionRequest) (s : S) : outcome S :=
  run l <- js_ListEvents (apr_JobID r) s ;;
  let ver := Z.of_nat (length (fst l)) in
  run sv <- match NewApprovalCompletedEvent (ce_now (env 2)) (apr_JobID r) id (apr_NodeID r) (apr_CorrelationKey r)
                    decision (aa_ApproverID q) (aa_ApproverName q) (aa_Comment q) (aa_DelegatedTo q) with
            | Err _ => Ret (s, ver)
            | Ok e => run a <- js_Append (env 3) EmptyString (apr_JobID r) ver e s ;;
                      Ret (fst a, match snd a with Ok v => v | Err _ => ver end)
            end ;;
  run a <- js_Append (env 4) EmptyString (apr_JobID r) (snd sv)
             (wait_completed (apr_JobID r) (apr_NodeID r) (apr_CorrelationKey r) (quote (aa_Comment q))) (fst sv) ;;
  Ret (fst a).

(** The part that writes.  Without a job store the call of a method of a nil
    interface panics. *)
Definition approval_commit (env : Z -> call_env) (id : string) (decision : Decision) (r : ApprovalRequest)
    (q : ApprovalActionRequest) (h : Handler) : outcome (Handler * Response) :=
  let resp := mkApprovalResponse decision (aa_ApproverID q) (aa_ApproverName q) (aa_Comment q) (aa_DelegatedTo q)
                (ce_now (env 0)) in
  let h1 := match hd_approvalStore h with
            | Some st => set_approvalStore (approval_Complete (ce_now (env 1)) id resp st) h
            | None => h
            end in
  let done := mkResponse 200 (JObj [("decision", JStr decision); ("id", JStr id); ("message", JStr "审批已完成")]) in
  match hd_jobEventStore h1 with
  | None => Ret (h1, done)
  | Some s =>
      run s' <- append_decision env id decision r q s ;;
      match hd_jobStore h1 with
      | None => Panic "invalid memory address or nil pointer dereference"
      | Some jobs => Ret (notify_ready (apr_JobID r) (set_pending_status (env 5) (apr_JobID r) jobs
                            (set_jobEventStore s' h1)), done)
      end
  end.

Definition handleApprovalAction (env : Z -> call_env) (id : string) (decision : Decision)
    (req : result string ApprovalActionRequest) (h : Handler) : outcome (Handler * Response) :=
  match approval_check id req h with
  | Err resp => Ret (h, resp)
  | Ok (_, r, q) => approval_commit env id decision r q h
  end.

Definition ApproveApproval env id req h := handleApprovalAction env id DecisionApproved req h.
Definition RejectApproval env id req h := handleApprovalAction env id DecisionRejected req h.
End handlers.
Arguments Handler : clear implicits.
