(* ===== verification/JobApiProps.v ===== *)
(** What the job control handlers guarantee: requests stay within their
    tenant, a signal resumes exactly the wait it names and is delivered once,
    and the interleavings and arguments for which they do not. *)

From S2P Require Import Prelude GoTime Json JsonFacts Events MemStore JobFsm JobQueue Replay JobStore JsonPrint Messaging AccessControl JobApi.

Section control.
Context {R S : Type} `{!JobRepo R, !JobRepoSpec R} `{!JobStore S} {view : S -> string -> job_state} {wf : S -> Prop}
  `{!JobStoreSpec S view wf}.
Implicit Types h : Handler R S.

Definition handler_wf h : Prop := match hd_jobEventStore h with Some s => wf s | None => True end.
Definition jobs_of h : gmap string Job := from_option (fun r => jm_byID (repo_mem r)) ∅ (hd_jobStore h).
Definition stream h (k : string) : list JobEvent := from_option (fun s => jst_events (view s k)) [] (hd_jobEventStore h).

(** At most the record and the stream of job [id] changed. *)
Definition only (id : string) h h' : Prop :=
  (handler_wf h -> handler_wf h') /\
  forall k, k <> id -> jobs_of h' !! k = jobs_of h !! k /\ stream h' k = stream h k.

#[export] Instance only_preorder id : PreOrder (only id).
Proof.
  split; [by intros h|]. intros h1 h2 h3 [W1 O1] [W2 O2]. split; [auto|]. intros k Hk.
  destruct (O1 k Hk) as [<- <-]. by apply O2.
Qed.

(** Nothing about jobs changed. *)
Definition same_stores h h' : Prop :=
  hd_jobStore h' = hd_jobStore h /\ hd_jobEventStore h' = hd_jobEventStore h.

Lemma same_stores_only id h h' : same_stores h h' -> only id h h'.
Proof. intros [Hj He]. unfold only, handler_wf, jobs_of, stream. by rewrite Hj, He. Qed.

Lemma receive_same env id key raw h : same_stores h (fst (receive_signal env id key raw h)).
Proof. unfold receive_signal. by destruct (hd_signalInbox h). Qed.

Lemma ack_same env id sid h : same_stores h (ack_signal env id sid h).
Proof. unfold ack_signal. destruct (hd_signalInbox h); [by destruct (String.eqb _ _)|done]. Qed.

Lemma receive_wakeup env id key raw h : hd_wakeupQueue (fst (receive_signal env id key raw h)) = hd_wakeupQueue h.
Proof. unfold receive_signal. by destruct (hd_signalInbox h). Qed.

Lemma ack_wakeup env id sid h : hd_wakeupQueue (ack_signal env id sid h) = hd_wakeupQueue h.
Proof. unfold ack_signal. destruct (hd_signalInbox h); [by destruct (String.eqb sid EmptyString)|done]. Qed.

Lemma notify_same id h : same_stores h (notify_ready id h).
Proof. done. Qed.

(** A new job store whose memory differs in one job at most. *)
Lemma set_jobs_only id h r r' :
  hd_jobStore h = Some r ->
  (forall k, k <> id -> jm_byID (repo_mem r') !! k = jm_byID (repo_mem r) !! k) -> only id h (set_jobStore r' h).
Proof.
  intros Hr Hk. split; [done|]. intros k Hne. split; [|done]. unfold jobs_of. cbn. rewrite Hr. by apply Hk.
Qed.

Lemma put_other id k j s : k <> id -> jm_byID (put id j s) !! k = jm_byID s !! k.
Proof. intros. by apply lookup_insert_ne. Qed.

Lemma UpdateStatus_other now id st k s : k <> id -> jm_byID (UpdateStatus now id st s) !! k = jm_byID s !! k.
Proof. intros. unfold UpdateStatus. destruct (jm_byID s !! id); [by apply put_other|done]. Qed.

Lemma RequestCancel_other now id k s : k <> id -> jm_byID (RequestCancel now id s) !! k = jm_byID s !! k.
Proof. intros. unfold RequestCancel. destruct (jm_byID s !! id); [by apply put_other|done]. Qed.

Lemma SetParked_other now id key wt reason k s :
  k <> id -> jm_byID (SetParked now id key wt reason s) !! k = jm_byID s !! k.
Proof. intros. unfold SetParked, track. destruct (jm_byID s !! id); [by apply put_other|done]. Qed.

Lemma set_events_only id h s s' :
  hd_jobEventStore h = Some s -> wf s' -> (forall k, k <> id -> jst_events (view s' k) = jst_events (view s k)) ->
  only id h (set_jobEventStore s' h).
Proof.
  intros Hs Hwf Hk. split; [done|]. intros k Hne. split; [done|]. unfold stream. cbn. rewrite Hs. by apply Hk.
Qed.

Lemma acts_other {A} env id f s s' (r : result store_error A) k :
  acts_as view env id f s s' r -> k <> id -> view s' k = view s k.
Proof.
  unfold acts_as, same_jobs, sets_job. intros H Hk.
  destruct (f _) as [[j a]|e]; [destruct H as [[_ [_ H]]|(_ & _ & [H|[_ H]])]|destruct H as [_ H]]; auto.
Qed.

Lemma append_only env id v e h s :
  hd_jobEventStore h = Some s -> wf s ->
  exists s' r, js_Append env EmptyString id v e s = Ret (s', r) /\ wf s' /\ only id h (set_jobEventStore s' h) /\
    acts_as view env id (job_append env EmptyString id v e) s s' r.
Proof.
  intros Hs Hwf. destruct (Append_view env EmptyString id v e s Hwf) as (s' & r & He & Hwf' & Ha).
  exists s', r. split; [done|]. split; [done|]. split; [|done]. apply (set_events_only id h s s' Hs Hwf').
  intros k Hk. by rewrite (acts_other _ _ _ _ _ _ k Ha Hk).
Qed.

Lemma append_latest_only env id e h : handler_wf h ->
  exists h', append_latest env id e h = Ret h' /\ only id h h' /\ hd_jobStore h' = hd_jobStore h.
Proof.
  intros Hwf. unfold append_latest, handler_wf in *. destruct (hd_jobEventStore h) as [s|] eqn:Hs; [|by exists h].
  rewrite (ListEvents_view id s Hwf). cbn [outcome_bind snd].
  destruct (append_only env id (version (view s id)) e h s Hs Hwf) as (s' & r & -> & _ & Ho & _). cbn [outcome_bind fst].
  by eexists.
Qed.

(** ** Tenants *)

Lemma getJob_cases cx id h :
  match getJobAndCheckTenant cx id h with
  | Ok (r, j) => hd_jobStore h = Some r /\ jobs_of h !! id = Some j /\ job_TenantID j = tenant_of cx
  | Err resp => (resp = not_found \/ resp = job_disabled) /\
      forall j, jobs_of h !! id = Some j -> job_TenantID j <> tenant_of cx
  end.
Proof.
  unfold getJobAndCheckTenant, jobs_of. destruct (hd_jobStore h) as [r|]; cbn; [|split; [by right|by intros j ?]].
  rewrite Get_mem. unfold Get. destruct (jm_byID (repo_mem r) !! id) as [j|]; [|split; [by left|done]].
  destruct (String.eqb_spec (job_TenantID j) (tenant_of cx)); [done|]. split; [by left|]. by intros j' [= <-].
Qed.

Lemma JobStop_only env cx id h : handler_wf h ->
  exists h' resp, JobStop env cx id h = Ret (h', resp) /\ only id h h'.
Proof.
  intros Hwf. unfold JobStop. pose proof (getJob_cases cx id h) as Hg.
  destruct (getJobAndCheckTenant cx id h) as [[r j]|e]; [|by do 2 eexists].
  destruct Hg as (Hr & _ & _). destruct (finished j); [by do 2 eexists|].
  pose proof (RequestCancel_mem (env 0) id r) as Hm.
  destruct (repo_RequestCancel (env 0) id r) as [r' ok]. cbn in Hm.
  do 2 eexists. split; [reflexivity|]. apply (set_jobs_only id h r r' Hr). intros k Hk. rewrite Hm.
  by apply RequestCancel_other.
Qed.

Lemma JobPause_only env cx id q h : handler_wf h ->
  exists h' resp, JobPause env cx id q h = Ret (h', resp) /\ only id h h'.
Proof.
  intros Hwf. unfold JobPause. pose proof (getJob_cases cx id h) as Hg.
  destruct (getJobAndCheckTenant cx id h) as [[r j]|e]; [|by do 2 eexists].
  destruct Hg as (Hr & _ & _). destruct (finished j); [by do 2 eexists|].
  set (key := or_else _ (pause_key _ _)). set (wt := or_else _ "manual").
  pose proof (SetParked_mem (env 1) id key wt (jp_Reason q) r) as Hm.
  destruct (repo_SetParked (env 1) id key wt (jp_Reason q) r) as [r' ok]. cbn in Hm.
  assert (Ho : only id h (set_jobStore r' h)).
  { apply (set_jobs_only id h r r' Hr). intros k Hk. rewrite Hm. by apply SetParked_other. }
  destruct ok; cbn [negb]; [|by do 2 eexists].
  destruct (append_latest_only (env 2) id (NewJobParkedEvent (ce_now (env 2)) id (jp_Reason q) key wt)
    (set_jobStore r' h) Hwf) as (h2 & -> & Ho2 & _).
  do 2 eexists. split; [reflexivity|]. by trans (set_jobStore r' h).
Qed.

(** The status write of a signal, a message or an approval. *)
Lemma set_pending_only env id h h' r :
  hd_jobStore h = Some r -> hd_jobStore h' = Some r -> only id h h' -> only id h (set_pending_status env id r h').
Proof.
  intros Hr Hr' Ho. trans h'; [done|]. apply (set_jobs_only id h' r _ Hr'). intros k Hk.
  rewrite UpdateStatus_mem. by apply UpdateStatus_other.
Qed.

Lemma signal_check_total cx id q h : handler_wf h -> exists c, signal_check cx id q h = Ret c.
Proof.
  intros Hwf. unfold signal_check, handler_wf in *. destruct (hd_jobEventStore h) as [s|]; [|by eexists].
  destruct (getJobAndCheckTenant cx id h) as [[r j]|e]; [|by eexists].
  destruct (negb (is_waiting j)); [by eexists|]. rewrite (ListEvents_view id s Hwf). cbn [outcome_bind].
  destruct (String.eqb _ _); [by eexists|]. destruct q; [|by eexists]. repeat case_match; by eexists.
Qed.

Lemma signal_deliver_only env id p h : handler_wf h ->
  exists h' resp, signal_deliver env id p h = Ret (h', resp) /\ only id h h'.
Proof.
  intros Hwf. unfold signal_deliver.
  destruct (hd_jobEventStore h) as [s|] eqn:Hs; [|by do 2 eexists].
  destruct (hd_jobStore h) as [r|] eqn:Hr; [|by do 2 eexists].
  pose proof (receive_same (env 0) id (sp_key p) (sp_payload p) h) as H1.
  destruct (receive_signal (env 0) id (sp_key p) (sp_payload p) h) as [h1 sid]. cbn [fst] in H1.
  assert (Hs1 : hd_jobEventStore h1 = Some s) by (destruct H1; congruence).
  assert (Hr1 : hd_jobStore h1 = Some r) by (destruct H1; congruence).
  assert (Hws : wf s) by (unfold handler_wf in Hwf; by rewrite Hs in Hwf).
  destruct (append_only (env 1) id (sp_version p) (wait_completed id (sp_node p) (sp_key p) (sp_payload p)) h1 s Hs1 Hws)
    as (s' & a & -> & Hws' & Ho & _). cbn [outcome_bind fst snd].
  assert (Ho' : only id h (set_jobEventStore s' h1)) by (trans h1; [by apply same_stores_only|done]).
  destruct a as [v|e].
  - do 2 eexists. split; [reflexivity|]. etrans; [|apply same_stores_only, notify_same].
    etrans; [|apply same_stores_only, ack_same]. by apply set_pending_only.
  - match goal with |- context [outcome_bind ?m _] => assert (exists b, m = Ret b) as [b ->] end.
    { destruct e as [[]|]; try by eexists. rewrite (ListEvents_view id s' Hws'). by eexists. }
    cbn [outcome_bind]. destruct b; do 2 eexists; (split; [reflexivity|]); [|done].
    etrans; [exact Ho'|apply same_stores_only, ack_same].
Qed.

Lemma JobSignal_only env cx id q h : handler_wf h ->
  exists h' resp, JobSignal env cx id q h = Ret (h', resp) /\ only id h h'.
Proof.
  intros Hwf. unfold JobSignal. destruct (signal_check_total cx id q h Hwf) as [[p|e] ->]; cbn [outcome_bind].
  - by apply signal_deliver_only.
  - by do 2 eexists.
Qed.

Lemma JobMessage_only env cx id q h : handler_wf h ->
  exists h' resp, JobMessage env cx id q h = Ret (h', resp) /\ only id h h'.
Proof.
  intros Hwf. unfold JobMessage. destruct (hd_jobEventStore h) as [s|] eqn:Hs; [|by do 2 eexists].
  pose proof (getJob_cases cx id h) as Hg.
  destruct (getJobAndCheckTenant cx id h) as [[r j]|e]; [|by do 2 eexists]. destruct Hg as (Hr & _ & _).
  destruct q as [q|]; [|by do 2 eexists].
  assert (Hws : wf s) by (unfold handler_wf in Hwf; by rewrite Hs in Hwf).
  rewrite (ListEvents_view id s Hws). cbn [outcome_bind fst snd].
  match goal with |- context [js_Append ?e _ _ ?v ?ev _] => destruct (append_only e id v ev h s Hs Hws)
    as (s' & a & -> & Hws' & Ho & _) end. cbn [outcome_bind fst snd].
  destruct a as [v|e]; [|by do 2 eexists]. cbv zeta.
  match goal with |- context [set_bus ?b ?h1] => set (h2 := set_bus b h1) end.
  assert (Ho2 : only id h h2) by (etrans; [exact Ho|by apply same_stores_only]).
  match goal with |- context [if ?b then _ else _] => destruct b end; [|by do 2 eexists].
  match goal with |- context [if ?b then _ else _] => destruct b end; [by do 2 eexists|].
  match goal with |- context [append_latest ?e _ ?ev _] =>
    destruct (append_latest_only e id ev h2 Hws') as (h3 & -> & Ho3 & Hr3) end. cbn [outcome_bind].
  do 2 eexists. split; [reflexivity|]. etrans; [|apply same_stores_only, notify_same].
  apply set_pending_only; [done|by rewrite Hr3|]. by trans h2.
Qed.

(** The requests that steer the job they name. *)
Inductive control :=
| Stop | Pause (q : JobPauseRequest) | Signal (q : result unit JobSignalRequest) | Post (q : result unit JobMessageRequest).

Definition control_handler (env : Z -> call_env) (cx : Context) (id : string) (c : control) h
  : outcome (Handler R S * Response) :=
  match c with
  | Stop => JobStop env cx id h
  | Pause q => JobPause env cx id q h
  | Signal q => JobSignal env cx id q h
  | Post q => JobMessage env cx id q h
  end.

Record request := mkReq { rq_env : Z -> call_env; rq_cx : Context; rq_job : string; rq_control : control }.

Fixpoint control_all (rs : list request) h : outcome (Handler R S * list Response) :=
  match rs with
  | [] => Ret (h, [])
  | q :: rest =>
      run a <- control_handler (rq_env q) (rq_cx q) (rq_job q) (rq_control q) h ;;
      run b <- control_all rest (fst a) ;;
      Ret (fst b, snd a :: snd b)
  end.

Definition refused (resp : Response) : Prop := resp = not_found \/ resp = job_disabled \/ resp = events_disabled.

(** A request for a job of another tenant is answered as if there were no such
    job, and changes nothing. *)
Lemma foreign_job_refused env cx id c h :
  (forall j, jobs_of h !! id = Some j -> job_TenantID j <> tenant_of cx) ->
  exists resp, control_handler env cx id c h = Ret (h, resp) /\ refused resp.
Proof.
  intros Hf. assert (Hg : exists e, getJobAndCheckTenant cx id h = Err e /\ refused e).
  { pose proof (getJob_cases cx id h) as Hg. destruct (getJobAndCheckTenant cx id h) as [[r j]|e].
    - destruct Hg as (_ & Hj & Ht). by destruct (Hf j Hj).
    - exists e. split; [done|]. destruct Hg as [[-> | ->] _]; [by left|by right; left]. }
  destruct Hg as (e & Hg & He).
  destruct c as [|q|q|q]; cbn; unfold JobStop, JobPause, JobSignal, signal_check, JobMessage; rewrite ?Hg.
  1-2: by exists e.
  all: destruct (hd_jobEventStore h); cbn; rewrite ?Hg; cbn; eexists; (split; [reflexivity|]); [done|by right; right].
Qed.

Lemma control_step env cx id c h : handler_wf h ->
  exists h' resp, control_handler env cx id c h = Ret (h', resp) /\ only id h h'.
Proof.
  destruct c; cbn; eauto using JobStop_only, JobPause_only, JobSignal_only, JobMessage_only.
Qed.

Definition owner h (id : string) : option string := job_TenantID <$> jobs_of h !! id.

(** C5: stopping, pausing, signalling and messaging stay within the caller's
    tenant: whatever requests callers of other tenants send, in any order and
    naming any job, a tenant's jobs and their event streams stay as they are;
    no request panics, and each one for a job of that tenant is answered as
    if there were no such job.  The job store and the event store are any
    ones with their interfaces' specifications. *)
Theorem tenants_are_kept_apart tenant rs h :
  handler_wf h -> Forall (fun q => tenant_of (rq_cx q) <> tenant) rs ->
  exists h' resps, control_all rs h = Ret (h', resps) /\
    (forall id, owner h id = Some tenant -> jobs_of h' !! id = jobs_of h !! id /\ stream h' id = stream h id) /\
    Forall2 (fun q resp => owner h (rq_job q) = Some tenant -> refused resp) rs resps.
Proof.
  intros Hwf Hrs. revert h Hwf. induction Hrs as [|q rs Hq Hrs IH]; intros h Hwf; [by exists h, []|].
  cbn [control_all].
  assert (Hstep : exists h1 resp, control_handler (rq_env q) (rq_cx q) (rq_job q) (rq_control q) h = Ret (h1, resp) /\
    handler_wf h1 /\
    (forall id, owner h id = Some tenant -> jobs_of h1 !! id = jobs_of h !! id /\ stream h1 id = stream h id) /\
    (owner h (rq_job q) = Some tenant -> refused resp)).
  { destruct (decide (owner h (rq_job q) = Some tenant)) as [Ht|Hno].
    - destruct (foreign_job_refused (rq_env q) (rq_cx q) (rq_job q) (rq_control q) h) as (resp & He & Hr).
      { intros j' Hj'. unfold owner in Ht. rewrite Hj' in Ht. cbn in Ht. congruence. }
      exists h, resp. by split_and!.
    - destruct (control_step (rq_env q) (rq_cx q) (rq_job q) (rq_control q) h Hwf) as (h1 & resp & He & Hwf1 & Ho).
      exists h1, resp. split_and!; auto; [|done]. intros id Ht. apply Ho. congruence. }
  destruct Hstep as (h1 & resp & -> & Hwf1 & Hkeep & Hans). cbn [outcome_bind fst snd].
  destruct (IH h1 Hwf1) as (h' & resps & -> & Hkeep' & Hans'). cbn [outcome_bind fst snd].
  assert (Hown : forall id, owner h id = Some tenant -> owner h1 id = Some tenant).
  { intros id Ht. unfold owner. by destruct (Hkeep id Ht) as [-> _]. }
  exists h', (resp :: resps). split; [done|]. split.
  - intros id Ht. destruct (Hkeep id Ht) as [<- <-]. by apply Hkeep', Hown.
  - constructor; [done|]. eapply Forall2_impl; [exact Hans'|]. intros q' resp' H Ht. by apply H, Hown.
Qed.

(** ** Signals *)

Definition payload_ok (p : payload) : Prop := json_ok (JObj (map_to_list (default ∅ p))).

(** The event a delivered signal leaves: its type and payload. *)
Definition completes (node key raw : string) (e : JobEvent) : Prop :=
  ev_Type e = WaitCompleted /\ ev_Payload e = ev_Payload (wait_completed EmptyString node key raw).

Definition wait_fields (node key raw : string) (v : json) : list (string * string * json) :=
  [("correlation_key", quote key, JStr key); ("node_id", quote node, JStr node); ("payload", raw, v)].

Lemma wait_fields_printable node key raw v :
  utf8_valid node = true -> utf8_valid key = true -> scans raw v -> Forall printable_field (wait_fields node key raw v).
Proof. intros. unfold wait_fields. rewrite !Forall_cons, Forall_nil. unfold printable_field. cbn. auto 10 using scans_quote. Qed.

Lemma completes_key es node key raw v e :
  utf8_valid node = true -> utf8_valid key = true -> scans raw v -> key <> EmptyString -> completes node key raw e ->
  lastEventIsWaitCompletedWithCorrelationKey (es ++ [e]) key = true.
Proof.
  intros Hn Hk Hr Hne [Ht Hp]. unfold lastEventIsWaitCompletedWithCorrelationKey.
  rewrite (proj2 (String.eqb_neq _ _) Hne), last_snoc, Ht, Hp. cbn [ev_Payload wait_completed].
  change (obj_text _) with (obj_text (fields_of (wait_fields node key raw v))).
  rewrite (scans_unmarshal _ _ (scans_obj_text _ (wait_fields_printable node key raw v Hn Hk Hr))).
  cbn. apply String.eqb_refl.
Qed.

(** What replay makes of it: the node is done with the signal's payload as its
    result, the key is approved and no node waits. *)
Definition resumed (node key raw : string) (rc : ReplayContext) : Prop :=
  node ∈ rc_CompletedNodeIDs rc /\ node ∈ rc_CompletedCommandIDs rc /\ rc_CommandResults rc !! node = Some raw /\
  key ∈ rc_ApprovedCorrelationKeys rc /\ rc_PendingWaitNode rc = EmptyString.

(** The part of it that is true of a wait however it was decided. *)
Definition wait_over (node raw : string) (rc : ReplayContext) : Prop :=
  node ∈ rc_CompletedNodeIDs rc /\ node ∈ rc_CompletedCommandIDs rc /\ rc_CommandResults rc !! node = Some raw /\
  rc_PendingWaitNode rc = EmptyString.

Lemma completes_resumes node key raw v e rc :
  utf8_valid node = true -> utf8_valid key = true -> scans raw v -> key <> EmptyString -> node <> EmptyString ->
  completes node key raw e -> exists rc', apply_event e rc = Ret rc' /\ resumed node key raw rc'.
Proof.
  intros Hn Hk Hr Hne Hnn [Ht Hp]. unfold apply_event. rewrite Ht, Hp. eexists. split; [reflexivity|].
  unfold on_wait_completed, payload_members. cbn [ev_Payload wait_completed].
  change (obj_text _) with (obj_text (fields_of (wait_fields node key raw v))).
  rewrite (unmarshal_doc_obj (wait_fields node key raw v) ltac:(done) (wait_fields_printable node key raw v Hn Hk Hr)).
  set (ms := members_of (wait_fields node key raw v)).
  assert (E1 : dec_str "node_id" ms = (node, false)) by reflexivity.
  assert (E2 : dec_raw "payload" ms = raw) by reflexivity.
  assert (E3 : dec_str "correlation_key" ms = (key, false)) by reflexivity.
  rewrite E1, E2, E3, (proj2 (String.eqb_neq _ _) Hnn), (proj2 (String.eqb_neq _ _) Hne). cbn [orb].
  destruct raw as [|a raw]; [by destruct (Hr 2%nat EmptyString) as [H _]; [cbn; lia|done|]|].
  unfold resumed. destruct rc. cbn. rewrite lookup_insert_eq. split_and!; set_solver.
Qed.

(** [p] is delivered at the version it was read at. *)
Lemma deliver_first env id p h s r j :
  hd_jobEventStore h = Some s -> wf s -> hd_jobStore h = Some r -> jobs_of h !! id = Some j ->
  ce_io (env 1) = true -> id <> EmptyString -> version (view s id) = sp_version p ->
  exists h' e, signal_deliver env id p h = Ret (h', accepted id "pending" "已发送 signal，Job 将重新入队执行") /\
    handler_wf h' /\ stream h' id = stream h id ++ [e] /\ completes (sp_node p) (sp_key p) (sp_payload p) e /\
    jobs_of h' !! id = Some (stamp (ce_now (env 2)) StatusPending j) /\
    hd_wakeupQueue h' = NotifyReady id <$> hd_wakeupQueue h.
Proof.
  intros Hs Hwf Hr Hj Hio Hid Hv. unfold signal_deliver. rewrite Hs, Hr.
  destruct (receive_same (env 0) id (sp_key p) (sp_payload p) h) as [H1 H2].
  pose proof (receive_wakeup (env 0) id (sp_key p) (sp_payload p) h) as Hw.
  destruct (receive_signal (env 0) id (sp_key p) (sp_payload p) h) as [h1 sid]. cbn [fst] in *.
  match goal with |- context [js_Append ?e ?a ?i ?v ?ev ?s] =>
    destruct (Append_view e a i v ev s Hwf) as (s' & a' & -> & Hwf' & Ha) end.
  unfold acts_as, job_append in Ha. rewrite (proj2 (String.eqb_neq _ _) Hid), Hv, Z.eqb_refl in Ha. cbn [negb andb String.eqb] in Ha.
  destruct Ha as [[-> [Hset _]]|[Hf _]]; [|congruence]. cbn [outcome_bind fst snd].
  eexists _, _. split; [reflexivity|].
  match goal with |- context [ack_signal _ _ _ ?h2] => pose proof (ack_same (env 3) id sid h2) as [A1 A2] end.
  split_and!.
  - unfold handler_wf. cbn. by rewrite A2.
  - unfold stream. cbn. rewrite A2, Hs. cbn. by rewrite Hset.
  - by split.
  - unfold jobs_of in *. cbn. rewrite A1. cbn. rewrite UpdateStatus_mem. unfold UpdateStatus. rewrite Hr in Hj.
    cbn in Hj. rewrite Hj. apply lookup_insert_eq.
  - cbn. rewrite ack_wakeup. cbn. by rewrite Hw.
Qed.

(** A later delivery finds the completion the first one left. *)
Lemma deliver_again env id p h s r :
  hd_jobEventStore h = Some s -> wf s -> hd_jobStore h = Some r -> version (view s id) <> sp_version p ->
  lastEventIsWaitCompletedWithCorrelationKey (stream h id) (sp_key p) = true ->
  exists h', signal_deliver env id p h = Ret (h', already_delivered id (sp_status p) "signal 已送达（并发幂等）") /\
    handler_wf h' /\ stream h' id = stream h id /\ jobs_of h' = jobs_of h /\ hd_wakeupQueue h' = hd_wakeupQueue h /\
    is_Some (hd_jobStore h') /\ exists s', hd_jobEventStore h' = Some s' /\ wf s' /\ version (view s' id) = version (view s id).
Proof.
  intros Hs Hwf Hr Hv Hl. unfold signal_deliver. rewrite Hs, Hr.
  destruct (receive_same (env 0) id (sp_key p) (sp_payload p) h) as [H1 H2].
  pose proof (receive_wakeup (env 0) id (sp_key p) (sp_payload p) h) as Hw.
  destruct (receive_signal (env 0) id (sp_key p) (sp_payload p) h) as [h1 sid]. cbn [fst] in *.
  match goal with |- context [js_Append ?e ?a ?i ?v ?ev ?s] =>
    destruct (Append_view e a i v ev s Hwf) as (s' & a' & -> & Hwf' & Ha) end.
  unfold acts_as, job_append in Ha. rewrite (proj2 (Z.eqb_neq _ _) Hv) in Ha. cbn [negb andb String.eqb] in Ha.
  assert (Ha' : a' = Err (Known ErrVersionMismatch) /\ same_jobs view s s') by (revert Ha; by destruct (String.eqb id EmptyString)).
  destruct Ha' as [-> Hsame]. cbn [outcome_bind fst snd].
  rewrite (ListEvents_view id s' Hwf'), Hsame. cbn [outcome_bind fst snd].
  unfold stream in Hl. rewrite Hs in Hl. cbn in Hl. rewrite Hl.
  eexists. split; [reflexivity|].
  match goal with |- context [ack_signal ?e _ _ ?h2] => pose proof (ack_same e id sid h2) as [A1 A2] end.
  unfold handler_wf, stream, jobs_of. rewrite A1, A2, ack_wakeup, Hs. cbn. rewrite H1, Hsame, Hw. split_and!; try done.
  exists s'. by rewrite Hsame.
Qed.

(** Job [id] of the caller's tenant waits at [node] for a signal with [key]. *)
Definition waits (cx : Context) (id node key : string) h : Prop :=
  handler_wf h /\ is_Some (hd_jobEventStore h) /\
  (exists j, jobs_of h !! id = Some j /\ job_TenantID j = tenant_of cx /\ is_waiting j = true) /\
  jw_CorrelationKey (last_wait (stream h id)) = key /\ jw_NodeID (last_wait (stream h id)) = node /\
  key <> EmptyString /\ lastEventIsWaitCompletedWithCorrelationKey (stream h id) key = false.

Lemma waits_check cx id node key p h : waits cx id node key h ->
  exists plan s r j, signal_check cx id (Ok (mkSignalReq key p)) h = Ret (Ok plan) /\
    hd_jobEventStore h = Some s /\ wf s /\ hd_jobStore h = Some r /\ jobs_of h !! id = Some j /\
    plan = mkPlan (version (view s id)) (job_Status j) node key (payload_text p).
Proof.
  intros (Hwf & [s Hs] & (j & Hj & Ht & Hw) & Hk & Hn & Hne & Hl).
  unfold signal_check, handler_wf, stream in *. rewrite Hs in *. cbn [from_option] in *.
  pose proof (getJob_cases cx id h) as Hg. destruct (getJobAndCheckTenant cx id h) as [[r j']|e].
  2:{ destruct Hg as [_ Hg]. by destruct (Hg j Hj). }
  destruct Hg as (Hr & Hj' & _). rewrite Hj in Hj'. injection Hj' as <-.
  rewrite Hw, (ListEvents_view id s Hwf). cbn [negb outcome_bind fst snd js_CorrelationKey js_Payload].
  rewrite Hk, (proj2 (String.eqb_neq _ _) Hne), String.eqb_refl, Hl, Hn. cbn [negb].
  exists (mkPlan (version (view s id)) (job_Status j) node key (payload_text p)), s, r, j. by split_and!.
Qed.

(** The signals that were checked, delivered one after the other. *)
Fixpoint deliver_all (id : string) (ps : list ((Z -> call_env) * signal_plan)) h : outcome (Handler R S * list Response) :=
  match ps with
  | [] => Ret (h, [])
  | (env, p) :: rest =>
      run a <- signal_deliver env id p h ;;
      run b <- deliver_all id rest (fst a) ;;
      Ret (fst b, snd a :: snd b)
  end.

Lemma deliver_rest id key v ps : forall h s r,
  hd_jobEventStore h = Some s -> wf s -> hd_jobStore h = Some r -> version (view s id) <> v ->
  lastEventIsWaitCompletedWithCorrelationKey (stream h id) key = true ->
  Forall (fun ep => sp_version (snd ep) = v /\ sp_key (snd ep) = key) ps ->
  exists h' resps, deliver_all id ps h = Ret (h', resps) /\ Forall (fun resp => rs_Status resp = 200) resps /\
    stream h' id = stream h id /\ jobs_of h' = jobs_of h /\ hd_wakeupQueue h' = hd_wakeupQueue h.
Proof.
  induction ps as [|[env p] ps IH]; intros h s r Hs Hwf Hr Hv Hl Hps; [by exists h, []|].
  apply Forall_cons in Hps as [[Hpv Hpk] Hps]. cbn [snd] in *. cbn [deliver_all].
  destruct (deliver_again env id p h s r Hs Hwf Hr) as (h1 & -> & _ & Hst & Hjobs & Hw & [r1 Hr1] & s1 & Hs1 & Hwf1 & Hv1);
    [congruence|by rewrite Hpk|]. cbn [outcome_bind fst snd].
  destruct (IH h1 s1 r1 Hs1 Hwf1 Hr1) as (h' & resps & -> & Hall & Hst' & Hjobs' & Hw'); [congruence|by rewrite Hst|done|].
  cbn [outcome_bind fst snd]. eexists h', (_ :: resps). split; [reflexivity|].
  split; [by constructor|]. by rewrite Hst', Hjobs', Hw'.
Qed.

Definition plan_of (v : Z) (st : JobStatus) (node key : string) (q : (Z -> call_env) * payload)
  : (Z -> call_env) * signal_plan := (fst q, mkPlan v st node key (payload_text (snd q))).

(** C4: a wait is resumed exactly once however many signals race for it.  When
    any number of signals with the wait's key have been checked before the
    first is written, each is answered 200; the stream gets one event, with
    the first signal's payload, after which the job is pending and not
    blocked, is announced to the wake-up queue once, and every replay has the
    waiting node done with that payload and the key approved.  The job store
    and the event store are any ones with their interfaces' specifications,
    their writes succeeding. *)
Theorem racing_signals_resume_once cx id node key (first : (Z -> call_env) * payload) rest h :
  waits cx id node key h -> id <> EmptyString -> node <> EmptyString ->
  utf8_valid node = true -> utf8_valid key = true -> payload_ok (snd first) -> ce_io (fst first 1) = true ->
  exists plans, Forall2 (fun q ep => fst ep = fst q /\
      signal_check cx id (Ok (mkSignalReq key (snd q))) h = Ret (Ok (snd ep))) (first :: rest) plans /\
  exists h' resps e, deliver_all id plans h = Ret (h', resps) /\
    Forall (fun resp => rs_Status resp = 200) resps /\
    stream h' id = stream h id ++ [e] /\
    (exists j, jobs_of h' !! id = Some j /\ job_Status j = StatusPending) /\
    DeriveStatusFromEvents (stream h' id) = StatusPending /\ IsJobBlocked (stream h' id) = false /\
    hd_wakeupQueue h' = NotifyReady id <$> hd_wakeupQueue h /\
    forall rc, exists rc', apply_event e rc = Ret rc' /\ resumed node key (payload_text (snd first)) rc'.
Proof.
  intros Hwait Hid Hnode Hun Huk Hp Hio.
  destruct (waits_check cx id node key (snd first) h Hwait) as (plan & s & r & j & Hc & Hs & Hwf & Hr & Hj & ->).
  set (mk := plan_of (version (view s id)) (job_Status j) node key).
  exists (map mk (first :: rest)). split.
  { apply Forall2_fmap_r, Forall_Forall2_diag, Forall_forall. intros q _. split; [done|].
    destruct (waits_check cx id node key (snd q) h Hwait) as (? & s' & r' & j' & -> & Hs' & _ & _ & Hj' & ->).
    rewrite Hs in Hs'. rewrite Hj in Hj'. by simplify_eq. }
  cbn [map deliver_all]. change (mk first) with (fst first, snd (mk first)). cbn match.
  destruct (deliver_first (fst first) id (snd (mk first)) h s r j Hs Hwf Hr Hj Hio Hid eq_refl)
    as (h1 & e & -> & Hwf1 & Hst & Hcomp & Hj1 & Hw1). cbn [outcome_bind fst snd].
  cbn in Hcomp.
  pose proof (print_scans _ Hp : scans (payload_text (snd first)) _) as Hsc.
  assert (Hne : key <> EmptyString) by (by destruct Hwait as (_ & _ & _ & _ & _ & ? & _)).
  assert (Hlast : lastEventIsWaitCompletedWithCorrelationKey (stream h1 id) key = true).
  { rewrite Hst. exact (completes_key _ node key _ _ e Hun Huk Hsc Hne Hcomp). }
  assert (Hs1 : exists s1, hd_jobEventStore h1 = Some s1 /\ wf s1 /\ version (view s1 id) <> version (view s id)).
  { unfold handler_wf, stream in Hwf1, Hst. destruct (hd_jobEventStore h1) as [s1|]; cbn in Hst.
    - exists s1. split_and!; try done. rewrite Hs in Hst. cbn in Hst. unfold version. rewrite Hst, length_app. cbn. lia.
    - by apply app_cons_not_nil in Hst. }
  destruct Hs1 as (s1 & Hs1 & Hws1 & Hv1).
  assert (Hr1 : exists r1, hd_jobStore h1 = Some r1) by (unfold jobs_of in Hj1; destruct (hd_jobStore h1); [by eexists|done]).
  destruct Hr1 as [r1 Hr1].
  destruct (deliver_rest id key (version (view s id)) (map mk rest) h1 s1 r1 Hs1 Hws1 Hr1 Hv1 Hlast)
    as (h' & resps & -> & Hall & Hst' & Hjobs' & Hw').
  { apply Forall_map, Forall_forall. by intros q _. }
  cbn [outcome_bind fst snd]. eexists h', _, e. split; [reflexivity|].
  rewrite Hst', Hst, Hjobs', Hw', Hw1, derive_snoc, blocked_snoc. destruct Hcomp as [Ht Hpay]. rewrite Ht.
  split_and!; try done.
  - by constructor.
  - by eexists.
  - intros rc. exact (completes_resumes node key _ _ e rc Hun Huk Hsc Hne Hnode (conj Ht Hpay)).
Qed.

(** ** Approvals *)

Lemma append_ok env id e s :
  wf s -> ce_io env = true -> id <> EmptyString ->
  exists s' e', js_Append env EmptyString id (version (view s id)) e s = Ret (s', Ok (version (view s id) + 1)) /\ wf s' /\
    jst_events (view s' id) = jst_events (view s id) ++ [e'] /\ ev_Type e' = ev_Type e /\ ev_Payload e' = ev_Payload e.
Proof.
  intros Hwf Hio Hid.
  destruct (Append_view env EmptyString id (version (view s id)) e s Hwf) as (s' & a & -> & Hwf' & Ha).
  unfold acts_as, job_append in Ha. rewrite (proj2 (String.eqb_neq _ _) Hid), Z.eqb_refl in Ha.
  cbn [negb andb String.eqb] in Ha. destruct Ha as [[-> [Hset _]]|[Hf _]]; [|congruence].
  eexists s', _. split; [reflexivity|]. rewrite Hset. by split_and!.
Qed.

Lemma version_snoc s s' id e :
  jst_events (view s' id) = jst_events (view s id) ++ [e] -> version (view s' id) = version (view s id) + 1.
Proof. intros H. unfold version. rewrite H, length_app. cbn. lia. Qed.

(** What the first event of a decision says. *)
Definition decision_fields (env : Z -> call_env) (id : string) (d : Decision) (r : ApprovalRequest) (q : ApprovalActionRequest)
  : option (list (string * string)) :=
  ApprovalCompletedPayload id (apr_JobID r) (apr_NodeID r) (apr_CorrelationKey r) d (aa_ApproverID q) (aa_ApproverName q)
    (aa_Comment q) (aa_DelegatedTo q) (ce_now (env 2)).

Lemma decision_events env id d r q s :
  wf s -> ce_io (env 3) = true -> ce_io (env 4) = true -> apr_JobID r <> EmptyString ->
  is_Some (marshal_time (ce_now (env 2))) ->
  exists s' e1 e2, append_decision env id d r q s = Ret s' /\ wf s' /\
    jst_events (view s' (apr_JobID r)) = (jst_events (view s (apr_JobID r)) ++ [e1]) ++ [e2] /\
    ev_Type e1 = ApprovalCompleted /\ (exists fs, decision_fields env id d r q = Some fs /\ ev_Payload e1 = obj_text fs) /\
    completes (apr_NodeID r) (apr_CorrelationKey r) (quote (aa_Comment q)) e2.
Proof.
  intros Hwf Hio3 Hio4 Hid [raw Hraw]. unfold append_decision.
  rewrite (ListEvents_view _ s Hwf). cbn [outcome_bind fst snd]. fold (version (view s (apr_JobID r))).
  unfold NewApprovalCompletedEvent, ApprovalCompletedPayload, m_time. rewrite Hraw.
  cbn [option_bind mbind fmap option_fmap option_map].
  match goal with |- context [js_Append (env 3) _ _ _ ?e _] =>
    destruct (append_ok (env 3) (apr_JobID r) e s Hwf Hio3 Hid) as (s1 & e1 & -> & Hwf1 & Hs1 & Ht1 & Hp1) end.
  cbn [outcome_bind fst snd]. rewrite <- (version_snoc s s1 _ e1 Hs1).
  match goal with |- context [js_Append (env 4) _ _ _ ?e _] =>
    destruct (append_ok (env 4) (apr_JobID r) e s1 Hwf1 Hio4 Hid) as (s2 & e2 & -> & Hwf2 & Hs2 & Ht2 & Hp2) end.
  cbn [outcome_bind fst snd]. exists s2, e1, e2. rewrite Hs2, Hs1. split_and!; try done.
  unfold decision_fields, ApprovalCompletedPayload, m_time. rewrite Hraw. eexists. by split.
Qed.

(** C6: deciding an approval ends its wait and is final.  For a pending request
    of a job that is there, with valid texts and writes that succeed, the
    request gets the decision, the job's stream two events, the decision with
    who made it and the completion of the wait, after which the job is pending
    and not blocked, and every replay has the node done with the comment and no
    pending wait, and after an approval the key among the approved ones; every
    later decision on the request is answered 409 and changes nothing.  That a
    rejection puts the key there too is [rejection_counts_as_approval]. *)
Theorem decision_is_final env id d q r h s jobs j :
  hd_approvalStore h ≫= approval_GetByID id = Some r -> apr_Status r = DecisionPending -> id <> EmptyString ->
  d <> DecisionPending ->
  hd_jobEventStore h = Some s -> wf s -> hd_jobStore h = Some jobs -> jobs_of h !! apr_JobID r = Some j ->
  apr_JobID r <> EmptyString -> apr_NodeID r <> EmptyString -> apr_CorrelationKey r <> EmptyString ->
  utf8_valid (apr_NodeID r) = true -> utf8_valid (apr_CorrelationKey r) = true -> utf8_valid (aa_Comment q) = true ->
  ce_io (env 3) = true -> ce_io (env 4) = true -> is_Some (marshal_time (ce_now (env 2))) ->
  exists h' resp e1 e2, handleApprovalAction env id d (Ok q) h = Ret (h', resp) /\ rs_Status resp = 200 /\
    (apr_Status <$> (hd_approvalStore h' ≫= approval_GetByID id)) = Some d /\
    stream h' (apr_JobID r) = (stream h (apr_JobID r) ++ [e1]) ++ [e2] /\ ev_Type e1 = ApprovalCompleted /\
    (exists fs, decision_fields env id d r q = Some fs /\ ev_Payload e1 = obj_text fs) /\
    jobs_of h' !! apr_JobID r = Some (stamp (ce_now (env 5)) StatusPending j) /\
    DeriveStatusFromEvents (stream h' (apr_JobID r)) = StatusPending /\ IsJobBlocked (stream h' (apr_JobID r)) = false /\
    (forall rc, exists rc', apply_event e2 rc = Ret rc' /\
       wait_over (apr_NodeID r) (quote (aa_Comment q)) rc' /\
       (d = DecisionApproved -> apr_CorrelationKey r ∈ rc_ApprovedCorrelationKeys rc')) /\
    forall env' d' q', handleApprovalAction env' id d' (Ok q') h'
                       = Ret (h', refuse 409 ("审批请求状态已是 " +:+ d)).
Proof.
  intros Hr Hst Hid Hd Hs Hwf Hjobs Hj Hjid Hn Hk Hnu Hku Hcu Hio3 Hio4 Htime.
  destruct (hd_approvalStore h) as [st|] eqn:Hst0; [|done]. cbn in Hr. unfold approval_GetByID in Hr.
  unfold handleApprovalAction at 1, approval_check. rewrite Hst0, (proj2 (String.eqb_neq _ _) Hid).
  unfold approval_GetByID at 1. rewrite Hr, Hst. cbn [negb String.eqb Ascii.eqb Bool.eqb DecisionPending].
  change (String.eqb DecisionPending DecisionPending) with true. cbn [negb].
  unfold approval_commit. rewrite Hst0. cbn [hd_jobEventStore set_approvalStore]. rewrite Hs.
  destruct (decision_events env id d r q s Hwf Hio3 Hio4 Hjid Htime) as (s' & e1 & e2 & -> & Hwf' & Hev & Ht1 & Hp1 & Hc).
  cbn [outcome_bind hd_jobStore set_approvalStore]. rewrite Hjobs.
  eexists _, _, e1, e2. split; [reflexivity|]. split; [done|].
  unfold approval_Complete. rewrite Hr.
  match goal with |- context [notify_ready ?a ?b] => set (h' := notify_ready a b) end.
  assert (Ha : hd_approvalStore h' ≫= approval_GetByID id =
               Some (set_apr_status (ce_now (env 1)) d (Some (mkApprovalResponse d (aa_ApproverID q) (aa_ApproverName q)
                       (aa_Comment q) (aa_DelegatedTo q) (ce_now (env 0)))) r))
    by (unfold h'; cbn; apply lookup_insert_eq).
  assert (Hstr : stream h' (apr_JobID r) = (stream h (apr_JobID r) ++ [e1]) ++ [e2])
    by (unfold stream, h'; cbn; by rewrite Hs, Hev).
  destruct Hc as [Ht2 Hp2].
  split; [by rewrite Ha|]. split; [done|]. split; [done|]. split; [done|]. split_and!.
  - unfold jobs_of, h' in *. cbn. rewrite UpdateStatus_mem. unfold UpdateStatus. rewrite Hjobs in Hj. cbn in Hj.
    rewrite Hj. apply lookup_insert_eq.
  - by rewrite Hstr, derive_snoc, Ht2.
  - by rewrite Hstr, blocked_snoc, Ht2.
  - intros rc. destruct (completes_resumes _ _ _ _ e2 rc Hnu Hku (scans_quote _ Hcu) Hk Hn (conj Ht2 Hp2)) as (rc' & Hrc & H1 & H2 & H3 & H4 & H5).
    exists rc'. split; [done|]. by repeat split.
  - intros env' d' q'. unfold handleApprovalAction, approval_check.
    destruct (hd_approvalStore h') as [st'|]; [|done]. cbn [mbind option_bind] in Ha.
    rewrite (proj2 (String.eqb_neq _ _) Hid), Ha. cbn [apr_Status set_apr_status].
    by rewrite (proj2 (String.eqb_neq _ _) Hd).
Qed.
End control.
Arguments request : clear implicits.

(** ** Concrete handlers, over the in-memory stores *)

Definition at_noon (n : Z) : call_env := mkEnv (Time (1700000000000000000 + n) 0) ("u" +:+ itoa n) true.

Definition caller_of (tenant : string) : Context := mkContext ∅ tenant "ann".

Definition a_job (id tenant : string) (st : JobStatus) : Job :=
  set_job_Status st (NewJob (ce_now (at_noon 0)) id "agent" tenant "write").

Definition waiting_text (node key waitType : string) : string :=
  obj_text [("node_id", quote node); ("wait_type", quote waitType); ("correlation_key", quote key)].

Definition put_events (id : string) (es : list (EventType * string)) (s : memoryStore) : memoryStore :=
  foldl (fun s tp => match js_Append (at_noon 0) EmptyString id (snd (ListEvents s id))
                             (mkJobEvent EmptyString id (fst tp) (snd tp) zero_time EmptyString EmptyString) s with
                     | Ret p => fst p
                     | Panic _ => s
                     end) s es.

(** A handler with the given jobs, each with a stream. *)
Definition demo (l : list (Job * list (EventType * string))) : Handler JobStoreMem memoryStore :=
  mkHandler
    (Some (foldl (fun s p => put (job_ID (fst p)) (fst p) s) NewJobStoreMem l))
    (Some (foldl (fun s p => put_events (job_ID (fst p)) (snd p) s) NewMemoryStore l))
    (Some (NewWakeupQueueMem 0)) (Some ∅) (Some NewStoreMem) (Some approval_NewMemStore).

Definition asks (id tenant : string) : Job * list (EventType * string) :=
  (a_job id tenant StatusWaiting, [(JobCreated, "{}"); (JobWaiting, waiting_text "ask" "k1" "signal")]).

Lemma demo_wf l : handler_wf (wf := unwatched) (demo l).
Proof.
  unfold handler_wf, demo. cbn.
  assert (H : forall id es s, unwatched s -> unwatched (put_events id es s)).
  { intros id es. induction es as [|[t p] es IH]; [done|]. intros s Hs. cbn [put_events foldl]. apply IH.
    cbn [fst snd]. match goal with |- context [js_Append ?e ?a ?i ?v ?ev ?s] =>
      destruct (Append_view e a i v ev s Hs) as (s' & r & -> & Hw & _) end. done. }
  enough (Hs : unwatched NewMemoryStore) by (revert Hs; generalize NewMemoryStore; induction l as [|p l IH]; cbn; auto).
  done.
Qed.

Abbreviation mem_waits := (waits (view := mem_view) (wf := unwatched)).
Abbreviation mem_stream := (stream (view := mem_view)).

(** Requests of tenant [globex] about jobs of [acme]. *)
Definition nosy (c : control) (id : string) : request :=
  mkReq at_noon (caller_of "globex") id c.

Lemma tenants_are_kept_apart_witness :
  let h := demo [asks "j1" "acme"; asks "j2" "globex"] in
  let rs := [nosy Stop "j1"; nosy (Signal (Ok (mkSignalReq "k1" None))) "j1";
             nosy (Pause (mkPause "k1" EmptyString EmptyString)) "j2"; nosy (Post (Err tt)) "j1"] in
  Forall (fun q => tenant_of (rq_cx q) <> "acme") rs /\ owner h "j1" = Some "acme" /\
  exists h' resps, control_all rs h = Ret (h', resps) /\
    (forall id, owner h id = Some "acme" ->
       jobs_of h' !! id = jobs_of h !! id /\ mem_stream h' id = mem_stream h id) /\
    Forall2 (fun q resp => owner h (rq_job q) = Some "acme" -> refused resp) rs resps.
Proof.
  intros h rs. assert (Hrs : Forall (fun q => tenant_of (rq_cx q) <> "acme") rs) by (by repeat constructor).
  split; [exact Hrs|]. split; [reflexivity|].
  exact (tenants_are_kept_apart (view := mem_view) (wf := unwatched) "acme" rs h (demo_wf _) Hrs).
Defined.

Lemma asks_waits : mem_waits (caller_of "acme") "j1" "ask" "k1" (demo [asks "j1" "acme"]).
Proof.
  split; [apply demo_wf|]. split; [by eexists|].
  split; [eexists; split_and!; [reflexivity|reflexivity|reflexivity]|]. by split_and!; vm_compute.
Qed.

Lemma racing_signals_resume_once_witness :
  let h := demo [asks "j1" "acme"] in
  let first := (at_noon, Some {["ok" := JBool true]}) in
  payload_ok (snd first) /\
  exists plans, Forall2 (fun q ep => fst ep = fst q /\
      signal_check (caller_of "acme") "j1" (Ok (mkSignalReq "k1" (snd q))) h = Ret (Ok (snd ep)))
      [first; (at_noon, None)] plans /\
  exists h' resps e, deliver_all "j1" plans h = Ret (h', resps) /\
    Forall (fun resp => rs_Status resp = 200) resps /\
    mem_stream h' "j1" = mem_stream h "j1" ++ [e] /\
    (exists j, jobs_of h' !! "j1" = Some j /\ job_Status j = StatusPending) /\
    DeriveStatusFromEvents (mem_stream h' "j1") = StatusPending /\
    IsJobBlocked (mem_stream h' "j1") = false /\
    hd_wakeupQueue h' = NotifyReady "j1" <$> hd_wakeupQueue h /\
    forall rc, exists rc', apply_event e rc = Ret rc' /\ resumed "ask" "k1" (payload_text (snd first)) rc'.
Proof.
  intros h first.
  assert (Hp : payload_ok (snd first)).
  { unfold payload_ok. cbn. rewrite map_to_list_singleton. repeat constructor. }
  split; [exact Hp|].
  exact (racing_signals_resume_once (view := mem_view) (wf := unwatched) (caller_of "acme") "j1" "ask" "k1" first
    [(at_noon, None)] h asks_waits ltac:(done) ltac:(done) eq_refl eq_refl Hp eq_refl).
Defined.

Definition request_for (expiry : option time) : ApprovalRequest :=
  mkApproval "apr-1" "j1" "ask" "k1" ApproverTypeSpecific "bob" EmptyString "deploy" EmptyString None DecisionPending None
    expiry zero_time zero_time.

(** A waiting job and the request for its approval. *)
Definition demo_approval (expiry : option time) : Handler JobStoreMem memoryStore :=
  set_approvalStore {["apr-1" := request_for expiry]} (demo [asks "j1" "acme"]).

Definition by_mallory : ApprovalActionRequest := mkAction "mallory" EmptyString "fine" EmptyString.

Lemma decision_is_final_witness :
  let h := demo_approval None in
  exists j h' resp e1 e2, jobs_of h !! "j1" = Some j /\
    handleApprovalAction at_noon "apr-1" DecisionApproved (Ok by_mallory) h = Ret (h', resp) /\ rs_Status resp = 200 /\
    (apr_Status <$> (hd_approvalStore h' ≫= approval_GetByID "apr-1")) = Some DecisionApproved /\
    mem_stream h' "j1" = (mem_stream h "j1" ++ [e1]) ++ [e2] /\ ev_Type e1 = ApprovalCompleted /\
    (exists fs, decision_fields at_noon "apr-1" DecisionApproved (request_for None) by_mallory = Some fs /\ ev_Payload e1 = obj_text fs) /\
    jobs_of h' !! "j1" = Some (stamp (ce_now (at_noon 5)) StatusPending j) /\
    DeriveStatusFromEvents (mem_stream h' "j1") = StatusPending /\ IsJobBlocked (mem_stream h' "j1") = false /\
    (forall rc, exists rc', apply_event e2 rc = Ret rc' /\ wait_over "ask" (quote "fine") rc' /\
       (DecisionApproved = DecisionApproved -> "k1" ∈ rc_ApprovedCorrelationKeys rc')) /\
    forall env' d' q', handleApprovalAction env' "apr-1" d' (Ok q') h'
                       = Ret (h', refuse 409 ("审批请求状态已是 " +:+ DecisionApproved)).
Proof.
  intros h. eexists.
  assert (Hs : exists s, hd_jobEventStore h = Some s /\ unwatched s).
  { pose proof (demo_wf [asks "j1" "acme"]) as H. by eexists. }
  destruct Hs as (s & Hs & Hwf).
  destruct (decision_is_final (view := mem_view) (wf := unwatched) at_noon "apr-1" DecisionApproved by_mallory (request_for None) h s
    _ _ eq_refl eq_refl ltac:(done) ltac:(done) Hs Hwf eq_refl eq_refl ltac:(done) ltac:(done) ltac:(done)
    eq_refl eq_refl eq_refl eq_refl eq_refl ltac:(by eexists)) as (h' & resp & e1 & e2 & H).
  exists h', resp, e1, e2. split; [reflexivity|]. exact H.
Defined.

(** ** Where the handlers fall short *)

(** A rejected request completes its wait like an approved one, and the
    completion puts its key among the approved ones in every replay: where the
    policy asked for approval before a tool runs, the tool then runs. *)
Theorem rejection_counts_as_approval :
  let h := demo_approval None in
  exists h' e1 e2, handleApprovalAction at_noon "apr-1" DecisionRejected (Ok by_mallory) h = Ret (h', mkResponse 200
      (JObj [("decision", JStr DecisionRejected); ("id", JStr "apr-1"); ("message", JStr "审批已完成")])) /\
    mem_stream h' "j1" = mem_stream h "j1" ++ [e1; e2] /\
    forall rc, exists rc', apply_event e2 rc = Ret rc' /\ "k1" ∈ rc_ApprovedCorrelationKeys rc'.
Proof.
  intros h. eexists _, _, _. split; [vm_compute; reflexivity|]. split; [vm_compute; reflexivity|].
  intros rc. destruct (completes_resumes "ask" "k1" (quote "fine") _ (wait_completed "j1" "ask" "k1" (quote "fine")) rc
    eq_refl eq_refl (scans_quote "fine" eq_refl) ltac:(done) ltac:(done) (conj eq_refl eq_refl)) as (rc' & Hrc & _ & _ & _ & Hk & _).
  exists rc'. split; [|done]. rewrite <- Hrc. reflexivity.
Qed.

Definition answered (m : outcome (Handler JobStoreMem memoryStore * Response)) : Handler JobStoreMem memoryStore * Response :=
  match m with Ret p => p | Panic _ => (demo [], refuse 500 EmptyString) end.

Definition status_in (h : Handler JobStoreMem memoryStore) (id : string) : option JobStatus := job_Status <$> jobs_of h !! id.

(** [JobResume] wakes the job that waits with the key of the body, whosever
    it is: a caller of another tenant resumes it through a job of their own. *)
Lemma resume_wakes_foreign_job :
  let h0 := demo [asks "j1" "acme"; (a_job "mine" "globex" StatusRunning, [])] in
  let h := set_jobStore (SetWaiting (ce_now (at_noon 1)) "j1" "k1" "signal" EmptyString
                           (default NewJobStoreMem (hd_jobStore h0))) h0 in
  let h' := fst (answered (JobResume at_noon (caller_of "globex") "mine" (mkResume "k1" EmptyString) h)) in
  status_in h "j1" = Some StatusWaiting /\ status_in h' "j1" = Some StatusPending /\ status_in h' "mine" = Some StatusRunning.
Proof. by vm_compute. Qed.

(** Without a key it sets any job of the caller pending, a finished one too,
    and the event it appends makes the stream say the same. *)
Lemma resume_reopens_finished_job :
  let h := demo [(a_job "j1" "acme" StatusCompleted, [(JobCreated, "{}"); (JobCompleted, "{}")])] in
  let h' := fst (answered (JobResume at_noon (caller_of "acme") "j1" (mkResume EmptyString EmptyString) h)) in
  status_in h' "j1" = Some StatusPending /\ DeriveStatusFromEvents (mem_stream h' "j1") = StatusPending.
Proof. by vm_compute. Qed.

(** The test of the status comes before the test for a delivered signal, and a
    delivered signal makes the job pending: sent again, it is refused. *)
Lemma repeated_signal_is_refused :
  let send := JobSignal at_noon (caller_of "acme") "j1" (Ok (mkSignalReq "k1" None)) in
  let p1 := answered (send (demo [asks "j1" "acme"])) in
  rs_Status (snd p1) = 200 /\ rs_Status (snd (answered (send (fst p1)))) = 400.
Proof. by vm_compute. Qed.

(** The job a signal makes pending is not put back in the queue of the
    in-memory store, so no claim finds it. *)
Lemma signalled_job_is_not_claimable :
  let p := answered (JobSignal at_noon (caller_of "acme") "j1" (Ok (mkSignalReq "k1" None)) (demo [asks "j1" "acme"])) in
  status_in (fst p) "j1" = Some StatusPending /\
  (snd <$> (ClaimNextPending (ce_now (at_noon 9)) <$> hd_jobStore (fst p))) = Some None.
Proof. by vm_compute. Qed.

(** A job paused with [JobPause] has no job_waiting event, so the key of the
    answer cannot be used in a signal. *)
Lemma paused_job_cannot_be_signalled :
  let p := answered (JobPause at_noon (caller_of "acme") "j1" (mkPause "k9" EmptyString EmptyString)
                       (demo [(a_job "j1" "acme" StatusRunning, [(JobCreated, "{}")])])) in
  let q := answered (JobSignal at_noon (caller_of "acme") "j1" (Ok (mkSignalReq "k9" None)) (fst p)) in
  rs_Status (snd p) = 200 /\ status_in (fst q) "j1" = Some StatusParked /\ rs_Status (snd q) = 400.
Proof. by vm_compute. Qed.

(** A decision is taken from anybody, after the request expired too: only the
    listings look at the approver and the expiry, and no handler at the
    tenant. *)
Lemma anyone_decides_expired_request :
  let expiry := Some (Time 0 0) in
  let h := demo_approval expiry in
  let p := answered (ApproveApproval at_noon "apr-1" (Ok by_mallory) h) in
  approval_GetPending ["apr-1"] (ce_now (at_noon 0)) (default ∅ (hd_approvalStore h)) = [] /\
  rs_Status (snd p) = 200 /\ status_in (fst p) "j1" = Some StatusPending.
Proof. by vm_compute. Qed.

(** Two opposite decisions that are both checked before one of them is stored
    are both accepted, and the wait is completed twice. *)
Lemma racing_decisions_both_stand :
  let h := demo_approval None in
  exists st r q, approval_check "apr-1" (Ok by_mallory) h = Ok (st, r, q) /\
    let p1 := answered (approval_commit at_noon "apr-1" DecisionApproved r q h) in
    let p2 := answered (approval_commit at_noon "apr-1" DecisionRejected r q (fst p1)) in
    rs_Status (snd p1) = 200 /\ rs_Status (snd p2) = 200 /\
    map ev_Type (mem_stream (fst p2) "j1")
      = [JobCreated; JobWaiting; ApprovalCompleted; WaitCompleted; ApprovalCompleted; WaitCompleted].
Proof. eexists _, _, _. split; [reflexivity|]. by vm_compute. Qed.

(** A request for a job nobody created starts an event stream. *)
Lemma approval_starts_unknown_stream :
  let q := mkCreateApproval "ghost" "n" "k" EmptyString EmptyString EmptyString "t" EmptyString None 0 in
  let p := answered (CreateApproval at_noon (Ok q) (demo [])) in
  rs_Status (snd p) = 201 /\ status_in (fst p) "ghost" = None /\
  map ev_Type (mem_stream (fst p) "ghost") = [ApprovalRequested].
Proof. by vm_compute. Qed.

(** [ExpiresInHours] large enough wraps to a time in the past. *)
Lemma long_expiry_is_in_the_past : hours 2562048 < 0.
Proof. by vm_compute. Qed.
