(* ===== verification/RunStore.v ===== *)
(** internal/runtime/eino/{run_types,run_store}.go and internal/api/http/runs.go:
    runs with their events and tool calls, the store that keeps them in
    memory, and the handlers over it.

    Every operation of the store runs under its mutex, so it is one step.
    The store copies what it is given and what it returns, one level deep; a
    value below the top level of a map is not written by anyone here, so runs,
    events and calls are values.  Clocks and uuids are arguments. *)

From S2P Require Import Prelude GoTime Json GoFloat Messaging AccessControl.

(** ** Types (run_types.go) *)

Definition RunStatusPending : string := "PENDING".
Definition RunStatusRunning : string := "RUNNING".
Definition RunStatusPaused : string := "PAUSED".
Definition RunStatusFailed : string := "FAILED".
Definition RunStatusSucceeded : string := "SUCCEEDED".
Definition RunStatusCanceled : string := "CANCELED".

Definition ResumeModeFromToolCall : string := "FROM_TOOL_CALL".

Record BudgetPolicy := mkBudget { bp_MaxTokens : Z; bp_MaxToolCalls : Z; bp_MaxRetries : Z }.

Record Run := mkRun {
  run_ID : string; run_WorkflowID : string; run_Status : string; run_Input : payload; run_Output : payload;
  run_Budget : BudgetPolicy; run_IdempotencyKey : string; run_CreatedAt : time; run_UpdatedAt : time;
}.

Record ToolCall := mkToolCall {
  tc_ID : string; tc_RunID : string; tc_StepID : string; tc_ToolName : string; tc_Status : string;
  tc_RequestPayload : payload; tc_ResponsePayload : payload; tc_IdempotencyKey : string; tc_SideEffectSafe : bool;
  tc_ErrorMessage : string; tc_StartedAt : option time; tc_EndedAt : option time;
}.

Inductive RunEventType :=
| RunCreated | RunPaused | RunResumed | RunStepStarted | RunStepCompleted | ToolCallStarted | ToolCallEnded
| RunFailed | RunSucceeded | HumanInjected.

Record RuntimeEvent := mkRuntimeEvent {
  re_ID : string; re_RunID : string; re_StepID : string; re_ToolCallID : string; re_Type : RunEventType;
  re_Seq : Z; re_Actor : string; re_Payload : payload; re_OccurredAt : time;
}.

Record ResumeRunRequest := mkResumeRun {
  rr_Mode : string; rr_FromToolCallID : string; rr_Strategy : string; rr_Operator : string; rr_Reason : string;
  rr_ResumeRequestID : string }.

Record HumanDecision := mkHuman {
  hm_TargetStepID : string; hm_Patch : payload; hm_Operator : string; hm_Comment : string }.

Inductive run_error := ErrRunNotFound | ErrRunConflict | ErrInvalidRunArg | ErrToolCallNotFound.

(** ** The store *)

Record memoryRunStore := mkRunStore {
  rs_runs : gmap string Run;
  rs_events : gmap string (list RuntimeEvent);
  rs_eventSeq : gmap string Z;
  rs_resumeReqs : gmap string (gset string);
  rs_toolCalls : gmap string (gmap string ToolCall);
}.

Definition NewMemoryRunStore : memoryRunStore := mkRunStore ∅ ∅ ∅ ∅ ∅.

Definition set_runs m s := mkRunStore m (rs_events s) (rs_eventSeq s) (rs_resumeReqs s) (rs_toolCalls s).

Definition cloneMap (m : payload) : payload :=
  match m with Some m' => if decide (m' = ∅) then None else Some m' | None => None end.

Definition cloneRun (r : Run) : Run :=
  mkRun (run_ID r) (run_WorkflowID r) (run_Status r) (cloneMap (run_Input r)) (cloneMap (run_Output r))
    (run_Budget r) (run_IdempotencyKey r) (run_CreatedAt r) (run_UpdatedAt r).

Definition cloneToolCall (c : ToolCall) : ToolCall :=
  mkToolCall (tc_ID c) (tc_RunID c) (tc_StepID c) (tc_ToolName c) (tc_Status c) (cloneMap (tc_RequestPayload c))
    (cloneMap (tc_ResponsePayload c)) (tc_IdempotencyKey c) (tc_SideEffectSafe c) (tc_ErrorMessage c)
    (tc_StartedAt c) (tc_EndedAt c).

Definition set_run_state (st : string) (now : time) (r : Run) : Run :=
  mkRun (run_ID r) (run_WorkflowID r) st (run_Input r) (run_Output r) (run_Budget r) (run_IdempotencyKey r)
    (run_CreatedAt r) now.

Definition actorOrSystem (actor : string) : string := or_else actor "system".

Definition isTerminalToolCallStatus (status : string) : bool :=
  String.eqb status "SUCCEEDED" || String.eqb status "FAILED" || String.eqb status "TIMEOUT"
  || String.eqb status "CANCELED".

(** The next clock readings and uuids of a call. *)
Record run_env := mkRunEnv { ru_now : time; ru_uuid : string; ru_event_now : time; ru_event_uuid : string }.

Definition run_events (s : memoryRunStore) (runID : string) : list RuntimeEvent := default [] (rs_events s !! runID).

Definition appendEventLocked (env : run_env) (runID : string) (t : RunEventType) (actor : string)
    (p : payload) (s : memoryRunStore) : memoryRunStore * RuntimeEvent :=
  let seq := default 0 (rs_eventSeq s !! runID) + 1 in
  let ev := mkRuntimeEvent ("ev-" +:+ ru_event_uuid env) runID EmptyString EmptyString t seq actor (cloneMap p)
              (ru_event_now env) in
  (mkRunStore (rs_runs s) (<[runID := run_events s runID ++ [ev]]> (rs_events s)) (<[runID := seq]> (rs_eventSeq s))
     (rs_resumeReqs s) (rs_toolCalls s), ev).

Definition CreateRun (env : run_env) (r : Run) (s : memoryRunStore) : memoryRunStore * result run_error Run :=
  if String.eqb (run_WorkflowID r) EmptyString then (s, Err ErrInvalidRunArg)
  else
    let id := or_else (run_ID r) ("run-" +:+ ru_uuid env) in
    let copied := mkRun id (run_WorkflowID r) (or_else (run_Status r) RunStatusPending) (run_Input r)
                    (run_Output r) (run_Budget r) (run_IdempotencyKey r) (ru_now env) (ru_now env) in
    (fst (appendEventLocked env id RunCreated "system"
            (Some {["workflow_id" := JStr (run_WorkflowID r)]}) (set_runs (<[id := cloneRun copied]> (rs_runs s)) s)),
     Ok (cloneRun copied)).

Definition GetRun (runID : string) (s : memoryRunStore) : result run_error Run :=
  match rs_runs s !! runID with Some r => Ok (cloneRun r) | None => Err ErrRunNotFound end.

(** The loop of [ListEvents]: the events after the cursor, at most [limit],
    and the sequence number of the last one. *)
Fixpoint take_events (cursor : Z) (limit : nat) (next : Z) (es : list RuntimeEvent) : list RuntimeEvent * Z :=
  match es, limit with
  | [], _ => ([], next)
  | _, O => ([], next)
  | e :: rest, S n =>
      if re_Seq e <=? cursor then take_events cursor limit next rest
      else let '(out, next') := take_events cursor n (re_Seq e) rest in (e :: out, next')
  end.

Definition run_ListEvents (runID : string) (cursor limit : Z) (s : memoryRunStore)
  : result run_error (list RuntimeEvent * Z) :=
  let limit := if limit <=? 0 then 200 else limit in
  match rs_runs s !! runID with
  | None => Err ErrRunNotFound
  | Some _ => Ok (take_events cursor (Z.to_nat limit) cursor (run_events s runID))
  end.

(** [r.Status = st; r.UpdatedAt = time.Now()] on the stored run. *)
Definition update_run (env : run_env) (runID st : string) (r : Run) (s : memoryRunStore) : memoryRunStore :=
  set_runs (<[runID := set_run_state st (ru_now env) r]> (rs_runs s)) s.

Definition PauseRun (env : run_env) (runID reason operator : string) (s : memoryRunStore)
  : memoryRunStore * result run_error Run :=
  match rs_runs s !! runID with
  | None => (s, Err ErrRunNotFound)
  | Some r =>
      if negb (String.eqb (run_Status r) RunStatusRunning) && negb (String.eqb (run_Status r) RunStatusPending)
      then (s, Err ErrRunConflict)
      else (fst (appendEventLocked env runID RunPaused (actorOrSystem operator) (Some {["reason" := JStr reason]})
                   (update_run env runID RunStatusPaused r s)),
            Ok (cloneRun (set_run_state RunStatusPaused (ru_now env) r)))
  end.

Definition UpsertToolCall (env : run_env) (call : ToolCall) (s : memoryRunStore)
  : memoryRunStore * result run_error ToolCall :=
  if String.eqb (tc_RunID call) EmptyString || String.eqb (tc_ID call) EmptyString then (s, Err ErrInvalidRunArg)
  else
    let copied := mkToolCall (tc_ID call) (tc_RunID call) (tc_StepID call) (tc_ToolName call)
                    (or_else (tc_Status call) "PENDING") (tc_RequestPayload call) (tc_ResponsePayload call)
                    (tc_IdempotencyKey call) (tc_SideEffectSafe call) (tc_ErrorMessage call)
                    (Some (default (ru_now env) (tc_StartedAt call))) (tc_EndedAt call) in
    let runID := tc_RunID call in
    match rs_runs s !! runID with
    | None => (s, Err ErrRunNotFound)
    | Some _ =>
        let calls := default ∅ (rs_toolCalls s !! runID) in
        let s1 := mkRunStore (rs_runs s) (rs_events s) (rs_eventSeq s) (rs_resumeReqs s)
                    (<[runID := <[tc_ID call := cloneToolCall copied]> calls]> (rs_toolCalls s)) in
        let changed := match calls !! tc_ID call with
                       | None => true
                       | Some prev => negb (String.eqb (tc_Status prev) (tc_Status copied))
                                      || negb (String.eqb (tc_ToolName prev) (tc_ToolName copied))
                       end in
        let t := if isTerminalToolCallStatus (tc_Status copied) then ToolCallEnded else ToolCallStarted in
        (if changed
         then fst (appendEventLocked env runID t "system"
                     (Some (list_to_map [("tool_call_id", JStr (tc_ID copied)); ("tool_name", JStr (tc_ToolName copied));
                                         ("status", JStr (tc_Status copied))])) s1)
         else s1, Ok (cloneToolCall copied))
    end.

Definition ResumeRun (env : run_env) (runID : string) (req : ResumeRunRequest) (s : memoryRunStore)
  : memoryRunStore * result run_error Run :=
  if negb (String.eqb (rr_Mode req) ResumeModeFromToolCall) || String.eqb (rr_FromToolCallID req) EmptyString
     || String.eqb (rr_Strategy req) EmptyString then (s, Err ErrInvalidRunArg)
  else
    match rs_runs s !! runID with
    | None => (s, Err ErrRunNotFound)
    | Some r =>
        if negb (String.eqb (run_Status r) RunStatusPaused) && negb (String.eqb (run_Status r) RunStatusFailed)
        then (s, Err ErrRunConflict)
        else if bool_decide (default ∅ (rs_toolCalls s !! runID) !! rr_FromToolCallID req = None)
        then (s, Err ErrToolCallNotFound)
        else
          let id := rr_ResumeRequestID req in
          let seen := default ∅ (rs_resumeReqs s !! runID) in
          if negb (String.eqb id EmptyString) && bool_decide (id ∈ seen) then (s, Ok (cloneRun r))
          else
            let s1 := if String.eqb id EmptyString then s
                      else mkRunStore (rs_runs s) (rs_events s) (rs_eventSeq s)
                             (<[runID := {[id]} ∪ seen]> (rs_resumeReqs s)) (rs_toolCalls s) in
            (fst (appendEventLocked env runID RunResumed (actorOrSystem (rr_Operator req))
                    (Some (list_to_map [("mode", JStr (rr_Mode req)); ("from_tool_call_id", JStr (rr_FromToolCallID req));
                                        ("strategy", JStr (rr_Strategy req)); ("reason", JStr (rr_Reason req))]))
                    (update_run env runID RunStatusRunning r s1)),
             Ok (cloneRun (set_run_state RunStatusRunning (ru_now env) r)))
    end.

Definition patch_json (p : payload) : json :=
  match cloneMap p with Some m => JObj (map_to_list m) | None => JNull end.

Definition InjectHumanDecision (env : run_env) (runID : string) (d : HumanDecision) (s : memoryRunStore)
  : memoryRunStore * result run_error RuntimeEvent :=
  if String.eqb (hm_TargetStepID d) EmptyString || String.eqb (hm_Operator d) EmptyString then (s, Err ErrInvalidRunArg)
  else
    match rs_runs s !! runID with
    | None => (s, Err ErrRunNotFound)
    | Some r =>
        let '(s', ev) := appendEventLocked env runID HumanInjected (hm_Operator d)
                           (Some (list_to_map [("target_step_id", JStr (hm_TargetStepID d));
                                               ("patch", patch_json (hm_Patch d)); ("comment", JStr (hm_Comment d))]))
                           (update_run env runID (run_Status r) r s) in
        (s', Ok ev)
    end.

(** ** The handlers (runs.go) *)

Definition opt_str (name v : string) : list (string * json) :=
  if String.eqb v EmptyString then [] else [(name, JStr v)].
Definition opt_map (name : string) (p : payload) : list (string * json) :=
  match cloneMap p with Some m => [(name, JObj (map_to_list m))] | None => [] end.
Definition opt_time (name : string) (t : option time) : list (string * json) :=
  match t with Some t => [(name, JStr (format_rfc3339nano t))] | None => [] end.
Definition int_json (n : Z) : json := JNum (itoa n).

Definition run_json (r : Run) : json :=
  JObj ([("id", JStr (run_ID r)); ("workflow_id", JStr (run_WorkflowID r)); ("status", JStr (run_Status r));
         ("input", patch_json (run_Input r))] ++ opt_map "output" (run_Output r)
        ++ [("budget", JObj [("max_tokens", int_json (bp_MaxTokens (run_Budget r)));
                             ("max_tool_calls", int_json (bp_MaxToolCalls (run_Budget r)));
                             ("max_retries", int_json (bp_MaxRetries (run_Budget r)))])]
        ++ opt_str "idempotency_key" (run_IdempotencyKey r)
        ++ [("created_at", JStr (format_rfc3339nano (run_CreatedAt r)));
            ("updated_at", JStr (format_rfc3339nano (run_UpdatedAt r)))]).

Definition call_json (c : ToolCall) : json :=
  JObj ([("id", JStr (tc_ID c)); ("run_id", JStr (tc_RunID c)); ("step_id", JStr (tc_StepID c));
         ("tool_name", JStr (tc_ToolName c)); ("status", JStr (tc_Status c))]
        ++ opt_map "request_payload" (tc_RequestPayload c) ++ opt_map "response_payload" (tc_ResponsePayload c)
        ++ opt_str "idempotency_key" (tc_IdempotencyKey c) ++ [("side_effect_safe", JBool (tc_SideEffectSafe c))]
        ++ opt_str "error_message" (tc_ErrorMessage c) ++ opt_time "started_at" (tc_StartedAt c)
        ++ opt_time "ended_at" (tc_EndedAt c)).

Definition run_event_name (t : RunEventType) : string :=
  match t with
  | RunCreated => "RUN_CREATED" | RunPaused => "RUN_PAUSED" | RunResumed => "RUN_RESUMED"
  | RunStepStarted => "STEP_STARTED" | RunStepCompleted => "STEP_COMPLETED" | ToolCallStarted => "TOOL_CALL_STARTED"
  | ToolCallEnded => "TOOL_CALL_ENDED" | RunFailed => "RUN_FAILED" | RunSucceeded => "RUN_SUCCEEDED"
  | HumanInjected => "HUMAN_INJECTED"
  end.

Definition run_event_json (e : RuntimeEvent) : json :=
  JObj ([("id", JStr (re_ID e)); ("run_id", JStr (re_RunID e))] ++ opt_str "step_id" (re_StepID e)
        ++ opt_str "tool_call_id" (re_ToolCallID e)
        ++ [("type", JStr (run_event_name (re_Type e))); ("seq", int_json (re_Seq e))] ++ opt_str "actor" (re_Actor e)
        ++ opt_map "payload" (re_Payload e) ++ [("occurred_at", JStr (format_rfc3339nano (re_OccurredAt e)))]).

Definition mapRunStoreError (e : run_error) : Response :=
  match e with
  | ErrRunNotFound => refuse 404 "运行实例不存在"
  | ErrInvalidRunArg => refuse 400 "请求参数错误"
  | ErrRunConflict => refuse 409 "运行状态冲突"
  | ErrToolCallNotFound => refuse 400 "tool_call_id 不存在或不属于当前运行"
  end.

Definition runs_disabled : Response := refuse 503 "RunStore 未启用".

Definition answer {A} (code : Z) (f : A -> json) (r : result run_error A) : Response :=
  match r with Ok a => mkResponse code (f a) | Err e => mapRunStoreError e end.

(** A handler that decodes a body and calls the store. *)
Definition with_body {B A} (code : Z) (f : A -> json) (body : option B)
    (call : B -> memoryRunStore -> memoryRunStore * result run_error A) (h : option memoryRunStore)
  : option memoryRunStore * Response :=
  match h with
  | None => (h, runs_disabled)
  | Some s =>
      match body with
      | None => (h, refuse 400 "请求参数错误")
      | Some b => let '(s', r) := call b s in (Some s', answer code f r)
      end
  end.

(** The run a create request asks for: its body has no id and no status. *)
Record createRunRequest := mkCreateRun {
  cr_WorkflowID : string; cr_Input : payload; cr_Budget : BudgetPolicy; cr_IdempotencyKey : string }.

Definition requested_run (q : createRunRequest) : Run :=
  mkRun EmptyString (cr_WorkflowID q) EmptyString (cr_Input q) None (cr_Budget q) (cr_IdempotencyKey q)
    zero_time zero_time.

Definition handle_CreateRun (env : run_env) (body : option createRunRequest) :=
  with_body 202 run_json body (fun q => CreateRun env (requested_run q)).

Definition handle_GetRun (runID : string) (h : option memoryRunStore) : Response :=
  match h with None => runs_disabled | Some s => answer 200 run_json (GetRun runID s) end.

(** [cursor] and [limit] are the parsed query parameters, [None] when they do
    not parse; a missing cursor is 0 and a missing limit 200. *)
Definition handle_GetRunEvents (runID : string) (cursor limit : option Z) (h : option memoryRunStore) : Response :=
  match h with
  | None => runs_disabled
  | Some s =>
      match cursor with
      | None => refuse 400 "cursor 参数错误"
      | Some cursor =>
          match limit with
          | Some limit =>
              if limit <=? 0 then refuse 400 "limit 参数错误"
              else answer 200 (fun p => JObj [("events", JArr (map run_event_json (fst p))); ("next_cursor", int_json (snd p))])
                     (run_ListEvents runID cursor limit s)
          | None => refuse 400 "limit 参数错误"
          end
      end
  end.

(** An empty body is a request without reason and operator. *)
Definition handle_PauseRun (env : run_env) (runID : string) (body : option (string * string)) :=
  with_body 200 run_json body (fun q => PauseRun env runID (fst q) (snd q)).

Definition handle_ResumeRun (env : run_env) (runID : string) (body : option ResumeRunRequest) :=
  with_body 200 run_json body (ResumeRun env runID).

Definition handle_InjectHumanDecision (env : run_env) (runID : string) (body : option HumanDecision) :=
  with_body 202 run_event_json body (InjectHumanDecision env runID).

Record upsertToolCallRequest := mkUpsert {
  up_ID : string; up_StepID : string; up_ToolName : string; up_Status : string; up_RequestPayload : payload;
  up_IdempotencyKey : string; up_SideEffectSafe : bool }.

Definition requested_call (runID : string) (q : upsertToolCallRequest) : ToolCall :=
  mkToolCall (up_ID q) runID (up_StepID q) (up_ToolName q) (up_Status q) (up_RequestPayload q) None
    (up_IdempotencyKey q) (up_SideEffectSafe q) EmptyString None None.

Definition handle_UpsertToolCall (env : run_env) (runID : string) (body : option upsertToolCallRequest) :=
  with_body 202 call_json body (fun q => UpsertToolCall env (requested_call runID q)).

(** ** Event streams *)

(** The events of a run are numbered from 1 without gaps, carry its id, and
    exist only for runs the store has. *)
Definition numbered (runID : string) (k : Z) (es : list RuntimeEvent) : Prop :=
  forall i e, es !! i = Some e -> re_Seq e = k + Z.of_nat i + 1 /\ re_RunID e = runID.

Definition store_ok (s : memoryRunStore) : Prop :=
  forall id, numbered id 0 (run_events s id) /\ default 0 (rs_eventSeq s !! id) = Z.of_nat (length (run_events s id)) /\
    (rs_runs s !! id = None -> run_events s id = []).

Lemma store_ok_new : store_ok NewMemoryRunStore.
Proof. intros id. unfold run_events. cbn. rewrite !lookup_empty. by split_and!. Qed.

Lemma numbered_snoc id es e :
  numbered id 0 es -> re_Seq e = Z.of_nat (length es) + 1 -> re_RunID e = id -> numbered id 0 (es ++ [e]).
Proof.
  intros Hn Hs Hr i x Hx. apply lookup_app_Some in Hx as [Hx|[Hi Hx]]; [by apply Hn|].
  apply list_lookup_singleton_Some in Hx as [Hx <-]. split; [lia|done].
Qed.

Lemma run_events_append env id t a p s k :
  run_events (fst (appendEventLocked env id t a p s)) k
  = if decide (k = id) then run_events s id ++ [snd (appendEventLocked env id t a p s)] else run_events s k.
Proof.
  unfold appendEventLocked, run_events. cbn. case_decide as Hk.
  - subst k. by rewrite lookup_insert_eq.
  - by rewrite lookup_insert_ne.
Qed.

Lemma append_store_ok env id t a p s :
  store_ok s -> is_Some (rs_runs s !! id) -> store_ok (fst (appendEventLocked env id t a p s)).
Proof.
  intros Hs [r Hr] k. rewrite run_events_append. destruct (Hs k) as (Hn & Hq & Hnone). case_decide as Hk.
  - subst k. split_and!.
    + apply numbered_snoc; [done| |done]. cbn. by rewrite Hq.
    + cbn. rewrite lookup_insert_eq, length_app, Hq. cbn. lia.
    + cbn. by rewrite Hr.
  - split_and!; [done| |done]. cbn. by rewrite lookup_insert_ne.
Qed.

Lemma set_runs_ok m s :
  store_ok s -> (forall id, is_Some (rs_runs s !! id) -> is_Some (m !! id)) -> store_ok (set_runs m s).
Proof.
  intros Hs Hm id. destruct (Hs id) as (Hn & Hq & Hnone). split_and!; [done|done|]. cbn. intros Hid.
  apply Hnone. destruct (rs_runs s !! id) eqn:Hr; [|done]. destruct (Hm id) as [? ?]; [by eexists|congruence].
Qed.

(** The calls that write, each with its clocks and uuids. *)
Inductive run_op :=
| OpCreate (r : Run)
| OpPause (id reason operator : string)
| OpUpsert (c : ToolCall)
| OpResume (id : string) (req : ResumeRunRequest)
| OpInject (id : string) (d : HumanDecision).

Definition run_write (env : run_env) (op : run_op) (s : memoryRunStore) : memoryRunStore :=
  match op with
  | OpCreate r => fst (CreateRun env r s)
  | OpPause id reason operator => fst (PauseRun env id reason operator s)
  | OpUpsert c => fst (UpsertToolCall env c s)
  | OpResume id req => fst (ResumeRun env id req s)
  | OpInject id d => fst (InjectHumanDecision env id d s)
  end.

Lemma insert_is_some {A} (m : gmap string A) id x k : is_Some (m !! k) -> is_Some (<[id := x]> m !! k).
Proof. destruct (decide (k = id)) as [->|Hk]; [by rewrite lookup_insert_eq|by rewrite lookup_insert_ne]. Qed.

Lemma update_run_ok env id st r s : store_ok s -> store_ok (update_run env id st r s).
Proof. intros Hs. apply set_runs_ok; [done|]. intros k. apply insert_is_some. Qed.

(** A write appends at most one event, to a run that is there afterwards. *)
Definition grows (s s' : memoryRunStore) : Prop :=
  store_ok s' /\ (forall k, is_Some (rs_runs s !! k) -> is_Some (rs_runs s' !! k)) /\
  forall k, exists es, run_events s' k = run_events s k ++ es.

Lemma grows_refl s : store_ok s -> grows s s.
Proof. intros Hs. split; [done|]. split; [done|]. intros k. exists []. by rewrite app_nil_r. Qed.

(** An event appended after a change that leaves the streams alone. *)
Lemma grows_append env id t a p s s1 :
  store_ok s1 -> is_Some (rs_runs s1 !! id) -> (forall k, is_Some (rs_runs s !! k) -> is_Some (rs_runs s1 !! k)) ->
  (forall k, run_events s1 k = run_events s k) -> grows s (fst (appendEventLocked env id t a p s1)).
Proof.
  intros Hs1 Hid Hruns Hev. split; [by apply append_store_ok|]. split; [done|]. intros k.
  rewrite run_events_append, !Hev. case_decide; [subst k; by eexists|]. exists []. by rewrite app_nil_r.
Qed.

Lemma new_run (m : gmap string Run) id r : is_Some (<[id := r]> m !! id).
Proof. rewrite lookup_insert_eq. by eexists. Qed.

Lemma run_write_grows env op s : store_ok s -> grows s (run_write env op s).
Proof.
  intros Hs. destruct op as [r|id reason operator|c|id req|id d]; cbn [run_write].
  - unfold CreateRun. destruct (String.eqb _ _); [by apply grows_refl|]. apply grows_append; [|by apply new_run|by apply insert_is_some|done].
    apply set_runs_ok; [done|]. intros k. apply insert_is_some.
  - unfold PauseRun. destruct (rs_runs s !! id) as [r|] eqn:Hr; [|by apply grows_refl].
    destruct (negb _ && negb _); [by apply grows_refl|]. apply grows_append; [by apply update_run_ok|by apply new_run|by apply insert_is_some|done].
  - unfold UpsertToolCall. destruct (_ || _); [by apply grows_refl|].
    destruct (rs_runs s !! tc_RunID c) as [r|] eqn:Hr; [|by apply grows_refl]. cbn [fst].
    match goal with |- context [if ?b then _ else _] => destruct b end.
    + apply grows_append; [done|by eexists|done|done].
    + split; [done|]. split; [done|]. intros k. exists []. by rewrite app_nil_r.
  - unfold ResumeRun. destruct (_ || _); [by apply grows_refl|].
    destruct (rs_runs s !! id) as [r|] eqn:Hr; [|by apply grows_refl].
    destruct (negb _ && negb _); [by apply grows_refl|]. destruct (bool_decide _); [by apply grows_refl|].
    destruct (negb _ && bool_decide _); [by apply grows_refl|]. destruct (String.eqb _ _).
    all: apply grows_append; [by apply update_run_ok|by apply new_run|by apply insert_is_some|done].
  - unfold InjectHumanDecision. destruct (_ || _); [by apply grows_refl|].
    destruct (rs_runs s !! id) as [r|] eqn:Hr; [|by apply grows_refl].
    destruct (appendEventLocked _ _ _ _ _ _) as [s' ev] eqn:He.
    change s' with (fst (s', ev)). rewrite <- He. apply grows_append; [by apply update_run_ok|by apply new_run|by apply insert_is_some|done].
Qed.

(** ** Following a run *)

Lemma numbered_cons id k e es :
  numbered id k (e :: es) -> re_Seq e = k + 1 /\ numbered id (k + 1) es.
Proof.
  intros H. split; [by destruct (H 0%nat e eq_refl) as [-> _]; lia|]. intros i x Hx.
  destruct (H (S i) x Hx) as [-> ?]. split; [lia|done].
Qed.

Lemma take_events_fresh id cursor es : forall k n next,
  numbered id k es -> cursor <= k ->
  take_events cursor n next es
  = (take n es, match take n es with [] => next | p => k + Z.of_nat (length p) end).
Proof.
  induction es as [|e es IH]; intros k n next Hn Hc; [by destruct n|]. apply numbered_cons in Hn as [Hs Hn].
  destruct n as [|n]; [done|]. cbn [take_events take]. rewrite Hs, (proj2 (Z.leb_gt _ _)) by lia.
  rewrite (IH (k + 1)) by (done || lia). f_equal. cbn [length]. destruct (take n es) as [|y p]; cbn [length]; lia.
Qed.

Lemma take_events_skip id j es : forall k n next,
  numbered id k es -> (j <= length es)%nat ->
  take_events (k + Z.of_nat j) (S n) next es = take_events (k + Z.of_nat j) (S n) next (drop j es).
Proof.
  revert es. induction j as [|j IH]; intros es k n next Hn Hj; [by rewrite drop_0|].
  destruct es as [|e es]; [done|]. apply numbered_cons in Hn as [Hs Hn]. cbn [take_events drop].
  rewrite Hs, (proj2 (Z.leb_le _ _)) by lia.
  replace (k + Z.of_nat (S j)) with ((k + 1) + Z.of_nat j) by lia. apply IH; [done|]. cbn in Hj. lia.
Qed.

Lemma numbered_drop id es : forall j k, numbered id k es -> numbered id (k + Z.of_nat j) (drop j es).
Proof.
  intros j k H i e He. rewrite lookup_drop in He. destruct (H _ _ He) as [-> ?]. split; [lia|done].
Qed.

(** A page is what comes next, and its cursor the number of events read. *)
Lemma page_spec id n limit s :
  store_ok s -> is_Some (rs_runs s !! id) -> (n <= length (run_events s id))%nat ->
  exists p, run_ListEvents id (Z.of_nat n) limit s = Ok (p, Z.of_nat (n + length p)) /\
    take n (run_events s id) ++ p = take (n + length p) (run_events s id) /\
    (p = [] -> n = length (run_events s id)).
Proof.
  intros Hs [r Hr] Hn. destruct (Hs id) as (Hnum & _ & _). unfold run_ListEvents. rewrite Hr.
  set (l := Z.to_nat _). assert (Hl : exists m, l = S m).
  { unfold l. destruct (Z.leb_spec limit 0); [by eexists|]. exists (Z.to_nat limit - 1)%nat. lia. }
  destruct Hl as [m ->].
  pose proof (take_events_skip id n (run_events s id) 0 m (Z.of_nat n) Hnum Hn) as Hsk. rewrite Z.add_0_l in Hsk.
  rewrite Hsk, (take_events_fresh id _ _ (0 + Z.of_nat n)) by (lia || by apply numbered_drop).
  set (p := take (S m) _). exists p.
  assert (Hp : p = take (length p) (drop n (run_events s id))).
  { unfold p. rewrite length_take, <- take_take. f_equal. rewrite (take_ge _ (length (drop n (run_events s id)))) by done. done. }
  split_and!.
  - f_equal. f_equal. destruct p as [|y p']; cbn [length]; lia.
  - rewrite Hp at 1. apply take_take_drop.
  - intros Hpe. unfold p in Hpe. destruct (drop n (run_events s id)) as [|y t] eqn:Hd; [|done].
    assert (length (drop n (run_events s id)) = 0%nat) by (by rewrite Hd). rewrite length_drop in *. lia.
Qed.

(** One client reads the run page by page, each time from the cursor of the
    page before, while the store is written to. *)
Inductive run_turn := Write (env : run_env) (op : run_op) | Poll (limit : Z).

Fixpoint follow (id : string) (script : list run_turn) (s : memoryRunStore) (cursor : Z) (got : list RuntimeEvent)
  : memoryRunStore * Z * list RuntimeEvent :=
  match script with
  | [] => (s, cursor, got)
  | Write env op :: rest => follow id rest (run_write env op s) cursor got
  | Poll limit :: rest =>
      match run_ListEvents id cursor limit s with
      | Ok (p, next) => follow id rest s next (got ++ p)
      | Err _ => follow id rest s cursor got
      end
  end.

Definition reading (id : string) (s : memoryRunStore) (cursor : Z) (got : list RuntimeEvent) : Prop :=
  store_ok s /\ is_Some (rs_runs s !! id) /\ cursor = Z.of_nat (length got) /\
  exists rest, run_events s id = got ++ rest.

Lemma reading_poll id s cursor got limit : reading id s cursor got ->
  exists p next, run_ListEvents id cursor limit s = Ok (p, next) /\ reading id s next (got ++ p) /\
    (p = [] -> run_events s id = got).
Proof.
  intros (Hs & Hr & -> & rest & He).
  destruct (page_spec id (length got) limit s Hs Hr) as (p & -> & Hp & Hend); [rewrite He, length_app; lia|].
  exists p, (Z.of_nat (length got + length p)). split; [done|]. rewrite He, take_app_length in Hp. split.
  - split; [done|]. split; [done|]. split; [by rewrite length_app|].
    exists (drop (length got + length p) (run_events s id)). rewrite Hp, <- He. by rewrite take_drop.
  - intros Hpe. rewrite He in *. rewrite length_app in Hend. destruct rest; [by rewrite app_nil_r|].
    specialize (Hend Hpe). cbn in Hend. lia.
Qed.

Lemma follow_reading id script : forall s cursor got, reading id s cursor got ->
  let '(s', cursor', got') := follow id script s cursor got in reading id s' cursor' got'.
Proof.
  induction script as [|[env op|limit] script IH]; intros s cursor got H; cbn [follow]; [done|..].
  - apply IH. destruct H as (Hs & Hr & Hc & rest & He).
    destruct (run_write_grows env op s Hs) as (Hs' & Hr' & Hg). split; [done|]. split; [by apply Hr'|]. split; [done|].
    destruct (Hg id) as [es Hes]. exists (rest ++ es). by rewrite Hes, He, app_assoc.
  - destruct (reading_poll id s cursor got limit H) as (p & next & -> & H' & _). by apply IH.
Qed.

Lemma follow_polls id limits : forall s cursor got, reading id s cursor got ->
  (length (run_events s id) <= length got + length limits)%nat ->
  exists cursor', follow id (map Poll limits) s cursor got = (s, cursor', run_events s id).
Proof.
  induction limits as [|l limits IH]; intros s cursor got H Hl; cbn [map follow].
  - destruct H as (_ & _ & _ & rest & He). exists cursor. rewrite He in *. rewrite length_app in Hl. cbn in Hl.
    destruct rest; [by rewrite app_nil_r|cbn in Hl; lia].
  - destruct (reading_poll id s cursor got l H) as (p & next & -> & H' & Hend).
    apply IH; [done|]. rewrite length_app. cbn in Hl. destruct p as [|e p]; [|cbn; lia].
    rewrite (Hend eq_refl). lia.
Qed.

(** C26: following a run page by page loses and repeats nothing: whatever is
    written to the store between two pages and whatever page sizes are asked
    for, the events a client has read are the first ones of the run's stream,
    in order, and once it has asked as often as the stream has events it has
    them all. *)
Theorem followed_run_is_read_once id script s0 :
  store_ok s0 -> is_Some (rs_runs s0 !! id) ->
  let '(s, cursor, got) := follow id script s0 0 [] in
  (exists rest, run_events s id = got ++ rest) /\
  forall limits, (length (run_events s id) <= length limits)%nat ->
    exists cursor', follow id (map Poll limits) s cursor got = (s, cursor', run_events s id).
Proof.
  intros Hs Hr. assert (H0 : reading id s0 0 []) by (split_and!; try done; by eexists).
  pose proof (follow_reading id script s0 0 [] H0) as H.
  destruct (follow id script s0 0 []) as [[s cursor] got]. split; [by destruct H as (_ & _ & _ & ?)|].
  intros limits Hl. apply follow_polls; [done|lia].
Qed.

(** ** Concrete runs *)

Definition tick (n : Z) : run_env := mkRunEnv (Time n 0) ("r" +:+ itoa n) (Time n 0) ("e" +:+ itoa n).

Definition wanted (key : string) : Run :=
  requested_run (mkCreateRun "deploy" None (mkBudget 0 0 0) key).

Definition plan_call : ToolCall := requested_call "run-r1" (mkUpsert "c1" EmptyString "shell" EmptyString None EmptyString false).

Definition started : memoryRunStore :=
  run_write (tick 2) (OpUpsert plan_call) (run_write (tick 1) (OpCreate (wanted EmptyString)) NewMemoryRunStore).

Lemma started_ok : store_ok started.
Proof. apply run_write_grows, run_write_grows, store_ok_new. Qed.

Lemma followed_run_is_read_once_witness :
  let script := [Poll 1; Write (tick 3) (OpPause "run-r1" "lunch" EmptyString); Poll 5] in
  is_Some (rs_runs started !! "run-r1") /\
  let '(s, cursor, got) := follow "run-r1" script started 0 [] in
  length got = 3%nat /\
  (exists rest, run_events s "run-r1" = got ++ rest) /\
  forall limits, (length (run_events s "run-r1") <= length limits)%nat ->
    exists cursor', follow "run-r1" (map Poll limits) s cursor got = (s, cursor', run_events s "run-r1").
Proof.
  intros script. assert (Hr : is_Some (rs_runs started !! "run-r1")) by (vm_compute; by eexists).
  split; [exact Hr|]. pose proof (followed_run_is_read_once "run-r1" script started started_ok Hr) as H.
  assert (Hl : length (snd (follow "run-r1" script started 0 [])) = 3%nat) by (by vm_compute).
  destruct (follow "run-r1" script started 0 []) as [[s cursor] got]. by split.
Defined.

(** The status a run can get: nothing ever ends one. *)
Definition open_run (r : Run) : Prop := run_Status r ∈ [RunStatusPending; RunStatusRunning; RunStatusPaused].

Definition by_handler (op : run_op) : Prop :=
  match op with OpCreate r => run_Status r = EmptyString | _ => True end.

Lemma runs_never_end env op s :
  by_handler op -> map_Forall (fun _ r => open_run r) (rs_runs s) ->
  map_Forall (fun _ r => open_run r) (rs_runs (run_write env op s)).
Proof.
  intros Hop Hs. assert (Hput : forall id r, open_run r -> map_Forall (fun _ r => open_run r) (<[id := r]> (rs_runs s))).
  { intros. by apply map_Forall_insert_2. }
  destruct op as [r|id reason operator|c|id req|id d]; cbn [run_write].
  - unfold CreateRun. destruct (String.eqb _ _); [done|]. cbn. apply Hput. unfold open_run. cbn. cbn in Hop. rewrite Hop. set_solver.
  - unfold PauseRun. destruct (rs_runs s !! id); [|done]. destruct (_ && _); [done|]. cbn. apply Hput. unfold open_run. cbn. set_solver.
  - unfold UpsertToolCall. destruct (_ || _); [done|]. destruct (rs_runs s !! tc_RunID c); [|done].
    cbn [fst]. match goal with |- context [if ?b then _ else _] => by destruct b end.
  - unfold ResumeRun. destruct (_ || _); [done|]. destruct (rs_runs s !! id); [|done]. destruct (_ && _); [done|].
    destruct (bool_decide _); [done|]. destruct (_ && _); [done|]. cbn. destruct (String.eqb _ _); cbn; apply Hput; unfold open_run; cbn; set_solver.
  - unfold InjectHumanDecision. destruct (_ || _); [done|]. destruct (rs_runs s !! id) as [r|] eqn:Hr; [|done].
    cbn. apply Hput. exact (Hs id r Hr).
Qed.

(** ** Where the store falls short *)

(** A resume repeated with its request id is a conflict, since the first one
    left the run running; the id is only recognised once the run is paused
    again, and then the answer is a run that stays paused. *)
Lemma repeated_resume_conflicts :
  let req := mkResumeRun ResumeModeFromToolCall "c1" "REEXECUTE_FROM_POINT" EmptyString EmptyString "once" in
  let s1 := run_write (tick 3) (OpPause "run-r1" EmptyString EmptyString) started in
  let s2 := run_write (tick 4) (OpResume "run-r1" req) s1 in
  let s3 := run_write (tick 6) (OpPause "run-r1" EmptyString EmptyString) s2 in
  snd (ResumeRun (tick 5) "run-r1" req s2) = Err ErrRunConflict /\
  (run_Status <$> rs_runs s2 !! "run-r1") = Some RunStatusRunning /\
  exists r, snd (ResumeRun (tick 7) "run-r1" req s3) = Ok r /\ run_Status r = RunStatusPaused.
Proof. vm_compute. by repeat eexists. Qed.

(** The idempotency key of a run is stored and not looked at. *)
Lemma idempotency_key_makes_two_runs :
  let s := run_write (tick 2) (OpCreate (wanted "k")) (run_write (tick 1) (OpCreate (wanted "k")) NewMemoryRunStore) in
  size (rs_runs s) = 2%nat /\ map run_IdempotencyKey (map snd (map_to_list (rs_runs s))) = ["k"; "k"].
Proof. by vm_compute. Qed.
