(* ===== verification/AgentState.v ===== *)
(** internal/agent/runtime/{session,state,state_embedded,manager}.go and
    internal/agent/instance/store_mem.go: sessions of agents, the state saved
    of them and its stores, the manager of agents and the instance store.

    Every method of a session or store runs under its mutex, so it is one
    step.  [time.Now()] and [uuid.New()] are arguments.  A memory block is
    shared with the caller that added it; nobody here writes through it, so
    blocks are values.  Variables are what JSON can hold. *)

From S2P Require Import Prelude GoTime Json GoFloat MemStore JobFsm JobStore EmbeddedStore AccessControl.

(** ** Sessions (session.go) *)

Record Message := mkMsg { m_Role : string; m_Content : string; m_Time : time }.

Record MemoryBlock := mkBlock {
  mb_ID : string; mb_Type : string; mb_Key : string; mb_Content : string; mb_Metadata : gmap string json;
  mb_CreatedAt : time; mb_UpdatedAt : time }.

Record ToolCallRecord := mkCallRecord { tr_ToolName : string; tr_Input : string; tr_Output : string; tr_At : time }.

Record Session := mkSession {
  se_ID : string; se_AgentID : string; se_TenantID : string;
  se_Messages : list Message; se_MemoryBlocks : list MemoryBlock; se_Variables : gmap string json;
  se_ToolCalls : list ToolCallRecord; se_Scratchpad : string; se_CurrentTask : string; se_LastCheckpoint : string;
  se_CreatedAt : time; se_UpdatedAt : time }.

Definition NewSessionWithTenant (now : time) (uuid id agentID tenantID : string) : Session :=
  mkSession (or_else id ("session-" +:+ uuid)) agentID (or_else tenantID "default") [] [] ∅ [] EmptyString EmptyString
    EmptyString now now.

Definition NewSession (now : time) (uuid id agentID : string) : Session :=
  NewSessionWithTenant now uuid id agentID EmptyString.

Definition with_contents ms vs cs pad task cp (now : time) (s : Session) : Session :=
  mkSession (se_ID s) (se_AgentID s) (se_TenantID s) ms (se_MemoryBlocks s) vs cs pad task cp (se_CreatedAt s) now.

Definition AddMessage (now : time) (role content : string) (s : Session) : Session :=
  with_contents (se_Messages s ++ [mkMsg role content now]) (se_Variables s) (se_ToolCalls s) (se_Scratchpad s)
    (se_CurrentTask s) (se_LastCheckpoint s) now s.

Definition SetVariable (now : time) (key : string) (v : json) (s : Session) : Session :=
  with_contents (se_Messages s) (<[key := v]> (se_Variables s)) (se_ToolCalls s) (se_Scratchpad s)
    (se_CurrentTask s) (se_LastCheckpoint s) now s.

Definition GetVariable (key : string) (s : Session) : option json := se_Variables s !! key.

Definition AddToolCall (now : time) (toolName input output : string) (s : Session) : Session :=
  with_contents (se_Messages s) (se_Variables s) (se_ToolCalls s ++ [mkCallRecord toolName input output now])
    (se_Scratchpad s) (se_CurrentTask s) (se_LastCheckpoint s) now s.

Definition SetScratchpad (now : time) (text : string) (s : Session) : Session :=
  with_contents (se_Messages s) (se_Variables s) (se_ToolCalls s) text (se_CurrentTask s) (se_LastCheckpoint s) now s.

Definition SetCurrentTask (now : time) (task : string) (s : Session) : Session :=
  with_contents (se_Messages s) (se_Variables s) (se_ToolCalls s) (se_Scratchpad s) task (se_LastCheckpoint s) now s.

Definition SetLastCheckpoint (now : time) (cp : string) (s : Session) : Session :=
  with_contents (se_Messages s) (se_Variables s) (se_ToolCalls s) (se_Scratchpad s) (se_CurrentTask s) cp now s.

Definition with_blocks (bs : list MemoryBlock) (now : time) (s : Session) : Session :=
  mkSession (se_ID s) (se_AgentID s) (se_TenantID s) (se_Messages s) bs (se_Variables s) (se_ToolCalls s)
    (se_Scratchpad s) (se_CurrentTask s) (se_LastCheckpoint s) (se_CreatedAt s) now.

Definition AddMemoryBlock (now : time) (b : MemoryBlock) (s : Session) : Session :=
  with_blocks (se_MemoryBlocks s ++ [mkBlock (mb_ID b) (mb_Type b) (mb_Key b) (mb_Content b) (mb_Metadata b) now now]) now s.

Definition GetMemoryBlock (id : string) (s : Session) : option MemoryBlock :=
  snd <$> list_find (fun b => mb_ID b = id) (se_MemoryBlocks s).

Definition GetMemoryBlocksByType (memType : string) (s : Session) : list MemoryBlock :=
  filter (fun b => mb_Type b = memType) (se_MemoryBlocks s).

Definition RemoveMemoryBlock (now : time) (id : string) (s : Session) : Session * bool :=
  match list_find (fun b => mb_ID b = id) (se_MemoryBlocks s) with
  | Some (i, _) => (with_blocks (take i (se_MemoryBlocks s) ++ drop (S i) (se_MemoryBlocks s)) now s, true)
  | None => (s, false)
  end.

Definition SetTenantID (now : time) (tenantID : string) (s : Session) : Session :=
  mkSession (se_ID s) (se_AgentID s) tenantID (se_Messages s) (se_MemoryBlocks s) (se_Variables s) (se_ToolCalls s)
    (se_Scratchpad s) (se_CurrentTask s) (se_LastCheckpoint s) (se_CreatedAt s) now.

(** The last message of the user, the goal of a run (internal/app/api/agent_dag.go). *)
Definition lastUserMessage (s : Session) : string :=
  from_option (fun p => m_Content (snd p)) EmptyString (list_find (fun m => m_Role m = "user") (rev (se_Messages s))).

(** ** Saved state (state.go) *)

Record AgentState := mkAgentState {
  as_AgentID : string; as_SessionID : string; as_Messages : list Message; as_Variables : gmap string json;
  as_ToolCalls : list ToolCallRecord; as_Scratchpad : string; as_LastCheckpoint : string; as_UpdatedAt : time }.

Definition SessionToAgentState (s : Session) : AgentState :=
  mkAgentState (se_AgentID s) (se_ID s) (se_Messages s) (se_Variables s) (se_ToolCalls s) (se_Scratchpad s)
    (se_LastCheckpoint s) (se_UpdatedAt s).

(** An empty part of the state leaves that part of the session as it is. *)
Definition ApplyAgentState (st : AgentState) (s : Session) : Session :=
  with_contents
    (match as_Messages st with [] => se_Messages s | ms => ms end)
    (if decide (as_Variables st = ∅) then se_Variables s else as_Variables st)
    (match as_ToolCalls st with [] => se_ToolCalls s | cs => cs end)
    (if String.eqb (as_Scratchpad st) EmptyString then se_Scratchpad s else as_Scratchpad st)
    (se_CurrentTask s) (as_LastCheckpoint st) (as_UpdatedAt st) s.

(** ** The stores of saved state *)

Class AgentStateStore (S : Type) := {
  SaveAgentState : call_env -> string -> string -> AgentState -> S -> S * bool;
  LoadAgentState : string -> string -> S -> option AgentState;
}.

Definition own (agentID sessionID : string) (st : AgentState) : AgentState :=
  mkAgentState agentID sessionID (as_Messages st) (as_Variables st) (as_ToolCalls st) (as_Scratchpad st)
    (as_LastCheckpoint st) (as_UpdatedAt st).

(** What was saved last is loaded, and nothing else changes, whether or not
    the store reports a failed write. *)
Class AgentStateStoreSpec (S : Type) `{!AgentStateStore S} := {
  Save_law env a i st s k l : no_nul a = true -> no_nul k = true ->
    LoadAgentState k l (fst (SaveAgentState env a i st s))
    = if decide (k = a /\ l = i) then Some (own a i st) else LoadAgentState k l s;
  Save_ok env a i st s : ce_io env = true -> snd (SaveAgentState env a i st s) = true;
}.

Definition stateKey (agentID sessionID : string) : string := agentID +:+ String nul sessionID.

Record agentStateStoreMem := mkStateMem { asm_byKey : gmap string AgentState }.

Definition NewAgentStateStoreMem : agentStateStoreMem := mkStateMem ∅.

Definition mem_SaveAgentState (a i : string) (st : AgentState) (s : agentStateStoreMem) : agentStateStoreMem :=
  mkStateMem (<[stateKey a i := own a i st]> (asm_byKey s)).

#[export] Instance mem_state_store : AgentStateStore agentStateStoreMem := {
  SaveAgentState env a i st s := (mem_SaveAgentState a i st s, true);
  LoadAgentState a i s := asm_byKey s !! stateKey a i;
}.

(** The store in a file: what is written is what JSON keeps of it. *)
Definition json_message (m : Message) : Message := mkMsg (m_Role m) (m_Content m) (json_time (m_Time m)).
Definition json_call (c : ToolCallRecord) : ToolCallRecord :=
  mkCallRecord (tr_ToolName c) (tr_Input c) (tr_Output c) (json_time (tr_At c)).

Definition json_state (st : AgentState) : AgentState :=
  mkAgentState (as_AgentID st) (as_SessionID st) (map json_message (as_Messages st)) (go_maps <$> as_Variables st)
    (map json_call (as_ToolCalls st)) (as_Scratchpad st) (as_LastCheckpoint st) (json_time (as_UpdatedAt st)).

Record agentStateStoreEmbedded := mkStateEmbedded {
  ase_mem : agentStateStoreMem; ase_disk : option (gmap string AgentState) }.

Definition NewAgentStateStoreEmbedded (disk : option (gmap string AgentState)) : agentStateStoreEmbedded :=
  mkStateEmbedded (mkStateMem (default ∅ disk)) disk.

Definition state_persist (io : bool) (s : agentStateStoreEmbedded) : agentStateStoreEmbedded * bool :=
  if io then (mkStateEmbedded (ase_mem s) (Some (json_state <$> asm_byKey (ase_mem s))), true) else (s, false).

#[export] Instance embedded_state_store : AgentStateStore agentStateStoreEmbedded := {
  SaveAgentState env a i st s := state_persist (ce_io env) (mkStateEmbedded (mem_SaveAgentState a i st (ase_mem s)) (ase_disk s));
  LoadAgentState a i s := LoadAgentState a i (ase_mem s);
}.

Lemma stateKey_inj a i k l :
  no_nul a = true -> no_nul k = true -> stateKey a i = stateKey k l -> a = k /\ i = l.
Proof. apply role_key_inj. Qed.

Lemma mem_save_lookup a i st s k l : no_nul a = true -> no_nul k = true ->
  asm_byKey (mem_SaveAgentState a i st s) !! stateKey k l
  = if decide (k = a /\ l = i) then Some (own a i st) else asm_byKey s !! stateKey k l.
Proof.
  intros Ha Hk. cbn. case_decide as Hd; [destruct Hd as [-> ->]; apply lookup_insert_eq|].
  apply lookup_insert_ne. intros He. apply stateKey_inj in He as [-> ->]; [by destruct Hd|done|done].
Qed.

#[export] Instance mem_state_store_spec : AgentStateStoreSpec agentStateStoreMem.
Proof. split; [|done]. intros env a i st s k l. by apply mem_save_lookup. Qed.

#[export] Instance embedded_state_store_spec : AgentStateStoreSpec agentStateStoreEmbedded.
Proof.
  split; intros; cbn; unfold state_persist; cbn; [|by rewrite H].
  destruct (ce_io env); by apply mem_save_lookup.
Qed.

(** ** What survives *)

(** What [ApplyAgentState] makes of a new session of the same agent: the rest
    is what a new session has. *)
Definition restored (fresh s : Session) : Session :=
  mkSession (se_ID fresh) (se_AgentID fresh) (se_TenantID fresh) (se_Messages s) [] (se_Variables s) (se_ToolCalls s)
    (se_Scratchpad s) EmptyString (se_LastCheckpoint s) (se_CreatedAt fresh) (se_UpdatedAt s).

Lemma apply_to_new now uuid id agentID a i s :
  ApplyAgentState (own a i (SessionToAgentState s)) (NewSession now uuid id agentID) = restored (NewSession now uuid id agentID) s.
Proof.
  unfold ApplyAgentState, restored, with_contents. cbn. f_equal.
  - by destruct (se_Messages s).
  - by destruct (decide (se_Variables s = ∅)) as [->|].
  - by destruct (se_ToolCalls s).
  - by destruct (String.eqb_spec (se_Scratchpad s) EmptyString) as [->|].
Qed.

(** The sessions of many workers, each saved under its agent and session. *)
Section workers.
Context {S : Type} `{!AgentStateStore S, !AgentStateStoreSpec S}.

Fixpoint save_all (l : list (call_env * Session)) (s : S) : S :=
  match l with
  | [] => s
  | (env, x) :: rest => save_all rest (fst (SaveAgentState env (se_AgentID x) (se_ID x) (SessionToAgentState x) s))
  end.

Lemma save_all_other l s a i :
  Forall (fun p => no_nul (se_AgentID (snd p)) = true /\ (se_AgentID (snd p), se_ID (snd p)) <> (a, i)) l -> no_nul a = true ->
  LoadAgentState a i (save_all l s) = LoadAgentState a i s.
Proof.
  intros Hl Ha. revert s. induction Hl as [|[env x] l [Hx Hne] Hl IH]; intros s; [done|]. cbn [save_all snd] in *.
  rewrite IH, Save_law by done. case_decide as Hd; [|done]. destruct Hd as [-> ->]. done.
Qed.

(** C25: what a worker takes over from another's session: once a session was
    saved, then, whatever sessions with another agent or another id are saved
    after it, loading it and applying it to a new session of the agent gives its
    messages, variables, tool calls, scratchpad, last checkpoint and time of
    change, and nothing else: ids, tenant and time of creation are the new
    session's, and it has no memory blocks and no current task, which are not
    saved ([memory_blocks_are_not_saved]).  Agents' ids hold no NUL, which
    joins the parts of a store's keys.  Over any store with the interface's
    specification, and whether or not writes to its file fail. *)
Theorem session_survives_its_worker before env x after s0 now uuid id :
  no_nul (se_AgentID x) = true ->
  Forall (fun p => no_nul (se_AgentID (snd p)) = true /\
                   (se_AgentID (snd p), se_ID (snd p)) <> (se_AgentID x, se_ID x)) after ->
  let fresh := NewSession now uuid id (se_AgentID x) in
  exists st, LoadAgentState (se_AgentID x) (se_ID x) (save_all (before ++ (env, x) :: after) s0) = Some st /\
    ApplyAgentState st fresh = restored fresh x.
Proof.
  intros Hx Hafter fresh.
  assert (Hs : forall l s, save_all (l ++ (env, x) :: after) s = save_all after
    (fst (SaveAgentState env (se_AgentID x) (se_ID x) (SessionToAgentState x) (save_all l s)))).
  { induction l as [|[e y] l IH]; intros s; [done|]. cbn. apply IH. }
  rewrite Hs, save_all_other, Save_law by done. rewrite decide_True by done.
  eexists. split; [reflexivity|]. apply apply_to_new.
Qed.
End workers.

(** ** A restart of the store in a file *)

Definition plain_state (st : AgentState) : Prop :=
  Forall (fun m => plain_time (m_Time m) = true) (as_Messages st) /\
  Forall (fun c => plain_time (tr_At c) = true) (as_ToolCalls st) /\ plain_time (as_UpdatedAt st) = true /\
  map_Forall (fun _ v => go_maps v = v) (as_Variables st).

Lemma json_state_plain st : plain_state st -> json_state st = st.
Proof.
  intros (Hm & Hc & Ht & Hv). destruct st as [a i ms vs cs pad cp t]. unfold json_state. cbn in *.
  rewrite json_time_plain by done. f_equal.
  - clear -Hm. induction Hm as [|[r c t] ms Ht _ IH]; [done|]. cbn. rewrite IH. unfold json_message. cbn.
    by rewrite json_time_plain.
  - rewrite <- (map_fmap_id vs) at 2. by apply map_fmap_ext.
  - clear -Hc. induction Hc as [|[n x o t] cs Ht _ IH]; [done|]. cbn. rewrite IH. unfold json_call. cbn.
    by rewrite json_time_plain.
Qed.

(** After a successful write the file holds every state as it was saved. *)
Lemma state_store_reopens env a i st s :
  ce_io env = true -> plain_state st -> map_Forall (fun _ st => plain_state st) (asm_byKey (ase_mem s)) ->
  forall k l, LoadAgentState k l (NewAgentStateStoreEmbedded (ase_disk (fst (SaveAgentState env a i st s))))
              = LoadAgentState k l (fst (SaveAgentState env a i st s)).
Proof.
  intros Hio Hst Hall k l. cbn. unfold state_persist. rewrite Hio. cbn.
  rewrite lookup_fmap. destruct (_ !! stateKey k l) as [x|] eqn:Hx; [|done]. cbn. rewrite json_state_plain; [done|].
  rewrite lookup_insert_Some in Hx. destruct Hx as [[_ <-]|[_ Hx]]; [done|by apply (Hall _ _ Hx)].
Qed.

(** ** Checkpoints (checkpoint.go, checkpoint_embedded.go) *)

Record Checkpoint := mkCheckpoint {
  cp_ID : string; cp_AgentID : string; cp_SessionID : string; cp_JobID : string; cp_TaskGraphState : string;
  cp_MemoryState : string; cp_CursorNode : string; cp_PayloadResults : string; cp_CreatedAt : time;
  cp_ExpiresAt : option time }.

Definition NewNodeCheckpoint (now : time) (agentID sessionID jobID cursorNode taskGraphState payloadResults memoryState : string)
  : Checkpoint :=
  mkCheckpoint EmptyString agentID sessionID jobID taskGraphState memoryState cursorNode payloadResults now None.

Definition NewCheckpoint (now : time) (agentID sessionID taskGraphState memoryState : string) : Checkpoint :=
  NewNodeCheckpoint now agentID sessionID EmptyString EmptyString taskGraphState EmptyString memoryState.

Definition checkpointStoreMem : Type := gmap string Checkpoint.

Definition set_cp_ID (id : string) (c : Checkpoint) : Checkpoint :=
  mkCheckpoint id (cp_AgentID c) (cp_SessionID c) (cp_JobID c) (cp_TaskGraphState c) (cp_MemoryState c) (cp_CursorNode c)
    (cp_PayloadResults c) (cp_CreatedAt c) (cp_ExpiresAt c).

(** The id is set in the caller's checkpoint too: it is the second result. *)
Definition checkpoint_Save (uuid : string) (c : Checkpoint) (s : checkpointStoreMem) : checkpointStoreMem * Checkpoint :=
  let c' := set_cp_ID (or_else (cp_ID c) ("cp-" +:+ uuid)) c in (<[cp_ID c' := c']> s, c').

Definition checkpoint_Load (id : string) (s : checkpointStoreMem) : option Checkpoint := s !! id.

Definition checkpoint_ListByAgent (order : list string) (agentID : string) (s : checkpointStoreMem) : list Checkpoint :=
  filter (fun c => cp_AgentID c = agentID) (omap (fun id => s !! id) order).

Definition checkpoint_expired (olderThan : time) (c : Checkpoint) : bool :=
  t_before (cp_CreatedAt c) olderThan
  || match cp_ExpiresAt c with Some t => t_before t olderThan | None => false end.

Definition checkpoint_Cleanup (olderThan : time) (s : checkpointStoreMem) : checkpointStoreMem * Z :=
  let old := filter (fun p => checkpoint_expired olderThan (snd p) = true) s in
  (filter (fun p => checkpoint_expired olderThan (snd p) = false) s, Z.of_nat (size old)).

Record checkpointStoreEmbedded := mkCheckpointEmbedded {
  cse_mem : checkpointStoreMem; cse_disk : option checkpointStoreMem }.

Definition json_checkpoint (c : Checkpoint) : Checkpoint :=
  mkCheckpoint (cp_ID c) (cp_AgentID c) (cp_SessionID c) (cp_JobID c) (cp_TaskGraphState c) (cp_MemoryState c)
    (cp_CursorNode c) (cp_PayloadResults c) (json_time (cp_CreatedAt c)) (json_time <$> cp_ExpiresAt c).

Definition NewCheckpointStoreEmbedded (disk : option checkpointStoreMem) : checkpointStoreEmbedded :=
  mkCheckpointEmbedded (default ∅ disk) disk.

Definition checkpoint_persist (io : bool) (s : checkpointStoreEmbedded) : checkpointStoreEmbedded * bool :=
  if io then (mkCheckpointEmbedded (cse_mem s) (Some (json_checkpoint <$> cse_mem s)), true) else (s, false).

Definition embedded_checkpoint_Save (env : call_env) (c : Checkpoint) (s : checkpointStoreEmbedded)
  : checkpointStoreEmbedded * bool * Checkpoint :=
  let '(m, c') := checkpoint_Save (ce_uuid env) c (cse_mem s) in
  (checkpoint_persist (ce_io env) (mkCheckpointEmbedded m (cse_disk s)), c').

(** A cleanup keeps exactly the checkpoints that are neither created nor
    expired before the given time, and counts the others. *)
Lemma checkpoint_Cleanup_spec t (s : gmap string Checkpoint) :
  (forall id c, fst (checkpoint_Cleanup t s) !! id = Some c <-> s !! id = Some c /\ checkpoint_expired t c = false) /\
  Z.of_nat (size s) = Z.of_nat (size (fst (checkpoint_Cleanup t s))) + snd (checkpoint_Cleanup t s).
Proof.
  split.
  - intros id c. unfold checkpoint_Cleanup, checkpointStoreMem in *. cbn [fst]. rewrite map_lookup_filter_Some. done.
  - unfold checkpoint_Cleanup, checkpointStoreMem. cbn [fst snd]. set (old := filter (fun p => checkpoint_expired t (snd p) = true) s).
    set (kept := filter (fun p => checkpoint_expired t (snd p) = false) s).
    assert (Hu : s = kept ∪ old).
    { assert (Hk : kept = filter (fun p => ~ checkpoint_expired t (snd p) = true) s).
      { apply map_filter_ext. intros id c _. cbn. by rewrite not_true_iff_false. }
      rewrite Hk, map_union_comm by (symmetry; apply map_disjoint_filter_complement). symmetry. apply map_filter_union_complement. }
    assert (Hd : kept ##ₘ old).
    { apply map_disjoint_spec. intros id c c' Hc Hc'. apply map_lookup_filter_Some in Hc as [Hc He].
      apply map_lookup_filter_Some in Hc' as [Hc' He']. simplify_eq. cbn in *. congruence. }
    rewrite Hu at 1. rewrite map_size_disj_union by done. lia.
Qed.

(** ** Agent instances (internal/agent/instance/store_mem.go) *)

Record AgentInstance := mkInstance {
  in_ID : string; in_TenantID : string; in_Name : string; in_Status : string; in_DefaultSessionID : string;
  in_CurrentJobID : string; in_BehaviorID : string; in_CreatedAt : time; in_UpdatedAt : time;
  in_Meta : option (gmap string json) }.

Definition instanceStoreMem : Type := gmap string AgentInstance.

Definition or_now (now t : time) : time := if is_zero t then now else t.

Definition instance_Create (now : time) (i : AgentInstance) (s : instanceStoreMem) : instanceStoreMem :=
  if String.eqb (in_ID i) EmptyString then s
  else <[in_ID i := mkInstance (in_ID i) (in_TenantID i) (in_Name i) (or_else (in_Status i) "idle") (in_DefaultSessionID i)
                      (in_CurrentJobID i) (in_BehaviorID i) (or_now now (in_CreatedAt i)) (or_now now (in_UpdatedAt i))
                      (in_Meta i)]> s.

Definition instance_Get (agentID : string) (s : instanceStoreMem) : option AgentInstance := s !! agentID.

Definition instance_UpdateStatus (now : time) (agentID status : string) (s : instanceStoreMem) : instanceStoreMem :=
  alter (fun i => mkInstance (in_ID i) (in_TenantID i) (in_Name i) status (in_DefaultSessionID i) (in_CurrentJobID i)
                    (in_BehaviorID i) (in_CreatedAt i) now (in_Meta i)) agentID s.

Definition instance_Update (now : time) (n : AgentInstance) (s : instanceStoreMem) : instanceStoreMem :=
  alter (fun i => mkInstance (in_ID i) (in_TenantID n) (in_Name n) (in_Status n) (in_DefaultSessionID n)
                    (in_CurrentJobID n) (in_BehaviorID n) (in_CreatedAt i) now
                    (match in_Meta n with Some m => Some m | None => in_Meta i end)) (in_ID n) s.

Definition instance_UpdateCurrentJob (now : time) (agentID jobID : string) (s : instanceStoreMem) : instanceStoreMem :=
  alter (fun i => mkInstance (in_ID i) (in_TenantID i) (in_Name i) (in_Status i) (in_DefaultSessionID i) jobID
                    (in_BehaviorID i) (in_CreatedAt i) now (in_Meta i)) agentID s.

Definition instance_ListByTenant (order : list string) (tenantID : string) (limit : Z) (s : instanceStoreMem)
  : list AgentInstance :=
  let l := filter (fun i => String.eqb tenantID EmptyString || String.eqb (in_TenantID i) tenantID = true)
             (omap (fun id => s !! id) order) in
  if 0 <? limit then take (Z.to_nat limit) l else l.

(** ** Concrete sessions *)

Definition at_sec (n : Z) : time := Time (n * second) 0.
Definition io_ok : call_env := mkEnv (at_sec 0) "u" true.

Definition talk : Session :=
  AddToolCall (at_sec 4) "search" "q" "r" (SetVariable (at_sec 3) "n" (JNum "1")
    (AddMessage (at_sec 2) "user" "hello" (NewSession (at_sec 1) "x" "s1" "a1"))).

Lemma session_survives_its_worker_witness :
  let after := [(io_ok, NewSession (at_sec 5) "y" "s2" "a1")] in
  no_nul (se_AgentID talk) = true /\
  exists st, LoadAgentState "a1" "s1" (save_all ([] ++ (io_ok, talk) :: after) NewAgentStateStoreMem) = Some st /\
    ApplyAgentState st (NewSession (at_sec 9) "z" "s1" "a1") = restored (NewSession (at_sec 9) "z" "s1" "a1") talk.
Proof.
  intros after. split; [reflexivity|].
  assert (Ha : Forall (fun p => no_nul (se_AgentID (snd p)) = true /\
            (se_AgentID (snd p), se_ID (snd p)) <> (se_AgentID talk, se_ID talk)) after) by (by repeat constructor).
  exact (session_survives_its_worker [] io_ok talk after NewAgentStateStoreMem (at_sec 9) "z" "s1" eq_refl Ha).
Defined.

(** Memory blocks and the current task are not part of what is saved. *)
Lemma memory_blocks_are_not_saved :
  let b := mkBlock "b1" "long_term" "k" "fact" ∅ (at_sec 0) (at_sec 0) in
  let s := SetCurrentTask (at_sec 3) "task" (AddMemoryBlock (at_sec 2) b (NewSession (at_sec 1) "x" "s1" "a1")) in
  let s' := ApplyAgentState (SessionToAgentState s) (NewSession (at_sec 4) "x" "s1" "a1") in
  length (se_MemoryBlocks s) = 1%nat /\ se_MemoryBlocks s' = [] /\ se_CurrentTask s' = EmptyString.
Proof. by vm_compute. Qed.

(** Applied to a session in use, a state whose messages are empty leaves the
    session's own messages in place. *)
Lemma emptied_state_keeps_old_messages :
  let s' := ApplyAgentState (SessionToAgentState (NewSession (at_sec 9) "x" "s1" "a1")) talk in
  map m_Content (se_Messages s') = ["hello"] /\ se_UpdatedAt s' = at_sec 9.
Proof. by vm_compute. Qed.
