(* ===== verification/AgentScheduler.v ===== *)
(** internal/agent/runtime/{agent,manager,scheduler,scheduler_distributed}.go:
    agents with their status, the manager, and the two schedulers that start
    their runs.

    [Take] and [Release] are atomic.  A call of a scheduler is a sequence of
    steps between which other calls can come, so runs are described by step
    relations.  Redis is a parameter with the laws of the four commands the
    code uses; a Lua script runs atomically, as Redis documents.

    At the end: the election of a leader. *)

From stdpp Require Import relations.
From S2P Require Import Prelude GoTime AccessControl AgentState.

(** ** Agents (agent.go) *)

Inductive AgentStatus := AgentIdle | AgentRunning | AgentWaitingTool | AgentSuspended | AgentFailed.

#[export] Instance agent_status_eq_dec : EqDecision AgentStatus.
Proof. solve_decision. Defined.

Definition agent_status_string (s : AgentStatus) : string :=
  match s with
  | AgentIdle => "idle" | AgentRunning => "running" | AgentWaitingTool => "waiting_tool"
  | AgentSuspended => "suspended" | AgentFailed => "failed"
  end.

Record Agent := mkAgent {
  ag_ID : string; ag_Name : string; ag_TenantID : string; ag_CreatedAt : time; ag_Session : option Session; ag_Status : AgentStatus }.

Definition NewAgent (now : time) (uuid id name : string) (session : option Session) : Agent :=
  let id := or_else id ("agent-" +:+ uuid) in
  mkAgent id (or_else name id) EmptyString now session AgentIdle.

Definition SetStatus (st : AgentStatus) (a : Agent) : Agent :=
  mkAgent (ag_ID a) (ag_Name a) (ag_TenantID a) (ag_CreatedAt a) (ag_Session a) st.

Definition Take (a : Agent) : Agent * bool :=
  match ag_Status a with
  | AgentIdle | AgentSuspended => (SetStatus AgentRunning a, true)
  | _ => (a, false)
  end.

Definition Release (a : Agent) : Agent :=
  match ag_Status a with
  | AgentRunning | AgentWaitingTool => SetStatus AgentIdle a
  | _ => a
  end.

(** Between its attempts other calls change the agent, as [others] says; when
    they are used up the context is cancelled. *)
Fixpoint TakeWithWait (others : list (Agent -> Agent)) (a : Agent) : Agent * bool :=
  let '(a', ok) := Take a in
  if ok then (a', true)
  else match others with
       | [] => (a', false)
       | f :: l => TakeWithWait l (f a')
       end.

(** ** The manager (manager.go) *)

Abbreviation Manager := (gmap string Agent).

Definition set_AgentID (id : string) (s : Session) : Session :=
  mkSession (se_ID s) id (se_TenantID s) (se_Messages s) (se_MemoryBlocks s) (se_Variables s) (se_ToolCalls s)
    (se_Scratchpad s) (se_CurrentTask s) (se_LastCheckpoint s) (se_CreatedAt s) (se_UpdatedAt s).

Definition manager_Create (now : time) (uuid uuid' name : string) (session : option Session) (m : Manager) : Manager * Agent :=
  let id := "agent-" +:+ uuid in
  let se := match session with
            | None => NewSession now uuid' EmptyString id
            | Some s => if String.eqb (se_AgentID s) EmptyString then set_AgentID id s else s
            end in
  let a := NewAgent now uuid id name (Some se) in (<[id := a]> m, a).

Definition manager_Register (now : time) (uuid uuid' id name : string) (session : option Session) (m : Manager)
  : Manager * result string Agent :=
  let id := or_else id ("agent-" +:+ uuid) in
  let se := set_AgentID id (default (NewSession now uuid' EmptyString id) session) in
  let a := NewAgent now uuid id name (Some se) in
  match m !! id with
  | Some _ => (m, Err ("agent " +:+ id +:+ " is already registered"))
  | None => (<[id := a]> m, Ok a)
  end.

Definition manager_Get (id : string) (m : Manager) : option Agent := m !! id.

Definition manager_List (order : list string) (m : Manager) : list Agent := omap (fun id => m !! id) order.

Definition manager_Delete (id : string) (m : Manager) : Manager := delete id m.

Definition set_agent_status (id : string) (st : AgentStatus) (m : Manager) : Manager := alter (SetStatus st) id m.

(** ** The scheduler of one process (scheduler.go) *)

(** Whether the call takes the agent, and so starts its run. *)
Definition WakeAgent (id : string) (m : Manager) : Manager * bool :=
  match m !! id with
  | None => (m, false)
  | Some a => let '(a', ok) := Take a in (<[id := a']> m, ok)
  end.

Definition Suspend (id : string) (m : Manager) : Manager := set_agent_status id AgentSuspended m.

(** Releasing and taking are two atomic steps. *)
Definition resume_release (id : string) (m : Manager) : Manager := alter Release id m.
Definition Resume (id : string) (m : Manager) : Manager * bool := WakeAgent id (resume_release id m).

Definition Stop (id : string) (m : Manager) : Manager := set_agent_status id AgentIdle m.

(** The process: the agents, and the runs in progress by agent. *)
Record process := mkProcess { pr_agents : Manager; pr_runs : list string }.

Definition start_if (ok : bool) (id : string) (runs : list string) : list string := if ok then id :: runs else runs.

Definition busy (st : AgentStatus) : Prop := st <> AgentIdle /\ st <> AgentSuspended.

(** Wake-ups and the runs they start.  A run sets the agent running, may set
    it failed, and sets it idle when it ends. *)
Inductive wake_step : process -> process -> Prop :=
| step_wake id m runs m' ok :
    WakeAgent id m = (m', ok) -> wake_step (mkProcess m runs) (mkProcess m' (start_if ok id runs))
| step_body id m runs st :
    id ∈ runs -> busy st ->
    wake_step (mkProcess m runs) (mkProcess (set_agent_status id st m) runs)
| step_end id m l1 l2 :
    wake_step (mkProcess m (l1 ++ id :: l2)) (mkProcess (set_agent_status id AgentIdle m) (l1 ++ l2)).

(** No agent has two runs, and one that has a run cannot be taken. *)
Definition exclusive (p : process) : Prop :=
  NoDup (pr_runs p) /\
  forall id, id ∈ pr_runs p -> exists a, pr_agents p !! id = Some a /\ busy (ag_Status a).

Lemma lookup_set_agent_status id st m k :
  set_agent_status id st m !! k = if decide (k = id) then SetStatus st <$> m !! k else m !! k.
Proof.
  unfold set_agent_status. case_decide as Hk; [subst k; apply lookup_alter_eq|by apply lookup_alter_ne].
Qed.

Lemma wake_step_exclusive p q : wake_step p q -> exclusive p -> exclusive q.
Proof.
  intros H [Hnd Hb]. destruct H as [id m runs m' ok Hw|id m runs st Hid Hst|id m l1 l2]; cbn in *.
  - unfold WakeAgent in Hw. destruct (m !! id) as [a|] eqn:Ha; [|injection Hw as <- <-; by split].
    destruct (Take a) as [a' ok'] eqn:Ht. injection Hw as <- <-. unfold Take in Ht.
    destruct (ag_Status a) eqn:Hs; injection Ht as <- <-; cbn; try (rewrite insert_id by done; by split).
    all: assert (Hno : id ∉ runs) by
      (intros Hin; destruct (Hb id Hin) as (b & Hb' & Hbs); rewrite Ha in Hb'; injection Hb' as <-;
       destruct Hbs; congruence).
    all: split; [by constructor|]; intros k Hk.
    all: destruct (decide (k = id)) as [->|Hne]; cbn; [rewrite lookup_insert_eq; by eexists|].
    all: rewrite lookup_insert_ne by done; apply Hb; by apply elem_of_cons in Hk as [?|?].
  - split; [done|]. intros k Hk. cbn. rewrite lookup_set_agent_status. destruct (Hb k Hk) as (a & -> & Ha).
    case_decide; cbn; eexists; by split.
  - rewrite <- Permutation_middle in Hnd. apply NoDup_cons in Hnd as [Hno Hnd]. split; [done|]. cbn. intros k Hk.
    rewrite lookup_set_agent_status, decide_False by congruence. apply Hb. rewrite <- Permutation_middle. by right.
Qed.

(** However wake-ups of a process's agents and their runs interleave, no
    agent runs twice at once. *)
Lemma woken_agents_run_alone m p : rtc wake_step (mkProcess m []) p -> exclusive p.
Proof.
  intros H. assert (H0 : exclusive (mkProcess m [])) by (split; [constructor|by intros id ?%not_elem_of_nil]).
  revert H0. induction H as [|x y z Hxy Hyz IH]; [done|]. intros Hx. apply IH. by apply (wake_step_exclusive x).
Qed.

(** Resuming, suspending or stopping an agent during its run lets a second
    run start. *)
Lemma resume_starts_second_run : forall id a (m : Manager),
  ag_Status a = AgentIdle -> m !! id = Some a ->
  exists m1 m2, WakeAgent id m = (m1, true) /\ Resume id m1 = (m2, true) /\
    snd (WakeAgent id (Suspend id m1)) = true /\ snd (WakeAgent id (Stop id m1)) = true.
Proof.
  intros id a m Hs Ha. unfold WakeAgent at 1. rewrite Ha. unfold Take. rewrite Hs.
  set (m1 := <[id := _]> m). exists m1.
  assert (H1 : m1 !! id = Some (SetStatus AgentRunning a)) by apply lookup_insert_eq.
  eexists. split; [done|]. unfold Resume, WakeAgent, resume_release, Suspend, Stop, set_agent_status.
  rewrite !lookup_alter_eq, H1. cbn. by split_and!.
Qed.

(** ** The scheduler of many workers (scheduler_distributed.go) *)

(** The commands of Redis the code uses, at a time in nanoseconds: what each
    key holds and until when. *)
Class Redis (K : Type) := {
  redis_get : Z -> string -> K -> option string;
  redis_setnx : Z -> string -> string -> Z -> K -> K * bool;
  redis_del : string -> K -> K;
  redis_pexpire : Z -> string -> Z -> K -> K;
}.

Class RedisSpec (K : Type) `{!Redis K} (held : K -> string -> option (string * Z)) := {
  get_law now k s : redis_get now k s = (held s k ≫= fun p => if now <? snd p then Some (fst p) else None);
  setnx_law now k v ttl s :
    match redis_get now k s with
    | Some _ => snd (redis_setnx now k v ttl s) = false /\ forall x, held (fst (redis_setnx now k v ttl s)) x = held s x
    | None => snd (redis_setnx now k v ttl s) = true /\
        forall x, held (fst (redis_setnx now k v ttl s)) x = if decide (x = k) then Some (v, now + ttl) else held s x
    end;
  del_law k s x : held (redis_del k s) x = if decide (x = k) then None else held s x;
  pexpire_law now k ttl s x :
    held (redis_pexpire now k ttl s) x
    = if decide (x = k) then match redis_get now k s with Some v => Some (v, now + ttl) | None => held s x end
      else held s x;
}.

Record SchedulerDistributed := mkDistributed { sd_lockTTL : Z; sd_keyPrefix : string }.

Definition NewSchedulerDistributed : SchedulerDistributed := mkDistributed (30 * second) "aetheris:scheduler:".

Definition lockKey (c : SchedulerDistributed) (agentID : string) : string := sd_keyPrefix c +:+ "lock:" +:+ agentID.

(** How often a running agent's lock is renewed, and for how long. *)
Definition renewInterval (c : SchedulerDistributed) : Z :=
  if sd_lockTTL c / 2 <? second then second else sd_lockTTL c / 2.
Definition renew_ttl (c : SchedulerDistributed) : Z := sd_lockTTL c / 1000000 * 1000000.

Section redis.
Context {K : Type} `{!Redis K}.

Definition acquireLock (c : SchedulerDistributed) (now : Z) (agentID lockValue : string) (s : K) : K * bool :=
  redis_setnx now (lockKey c agentID) lockValue (sd_lockTTL c) s.

Definition releaseLock (c : SchedulerDistributed) (now : Z) (agentID lockValue : string) (s : K) : K :=
  if bool_decide (redis_get now (lockKey c agentID) s = Some lockValue) then redis_del (lockKey c agentID) s else s.

(** One tick of [keepLockAlive]. *)
Definition renewLock (c : SchedulerDistributed) (now : Z) (agentID lockValue : string) (s : K) : K :=
  if bool_decide (redis_get now (lockKey c agentID) s = Some lockValue)
  then redis_pexpire now (lockKey c agentID) (renew_ttl c) s else s.

(** A call of [WakeAgent] or [Resume] that got the lock: where it is. *)
Inductive phase := Locked | Running | Finished.

#[export] Instance phase_eq_dec : EqDecision phase.
Proof. solve_decision. Defined.

(** [cl_since] is when the phase began or, of a run, when the ticker of its
    renewals last ticked. *)
Record call := mkCallState {
  cl_worker : string; cl_agent : string; cl_value : string; cl_resume : bool; cl_phase : phase; cl_since : Z }.

Definition in_phase (p : phase) (now : Z) (c : call) : call :=
  mkCallState (cl_worker c) (cl_agent c) (cl_value c) (cl_resume c) p now.

(** Redis, the time, each worker's agents, and the calls holding a lock. *)
Record cluster := mkCluster { cs_redis : K; cs_now : Z; cs_agents : string -> Manager; cs_calls : list call }.

Definition set_agents (w : string) (m : Manager) (f : string -> Manager) : string -> Manager :=
  fun w' => if String.eqb w' w then m else f w'.

(** What a call does with its lock: [None] when it gives it up at once. *)
Definition begin_run (resume : bool) (id : string) (m : Manager) : option Manager :=
  match m !! id with
  | None => None
  | Some a =>
      if negb resume && (bool_decide (ag_Status a = AgentRunning) || bool_decide (ag_Status a = AgentWaitingTool))
      then None
      else Some (set_agent_status id AgentRunning (if resume then set_agent_status id AgentIdle m else m))
  end.

Context (c : SchedulerDistributed) (delay : Z).

(** How long a call may stay as it is before its worker acts: [delay], which is
    what goroutines, timers and the network take, and in a run the interval of
    the ticker besides. *)
Definition prompt (now : Z) (x : call) : Prop :=
  now <= cl_since x + (if decide (cl_phase x = Running) then renewInterval c else 0) + delay.

(** Steps of all workers' calls.  A crash leaves the lock behind.  Time passes
    whatever becomes of the locks, up to where a worker would be late with its
    next step: going on with a lock it got, a tick of the renewal, or the
    release. *)
Inductive cluster_step : cluster -> cluster -> Prop :=
| step_acquire s now ag calls w id v resume s' :
    acquireLock c now id v s = (s', true) ->
    cluster_step (mkCluster s now ag calls) (mkCluster s' now ag (mkCallState w id v resume Locked now :: calls))
| step_refused s now ag calls id v s' :
    acquireLock c now id v s = (s', false) ->
    cluster_step (mkCluster s now ag calls) (mkCluster s' now ag calls)
| step_begin s now ag l1 x l2 :
    cl_phase x = Locked ->
    cluster_step (mkCluster s now ag (l1 ++ x :: l2))
      match begin_run (cl_resume x) (cl_agent x) (ag (cl_worker x)) with
      | None => mkCluster s now ag (l1 ++ in_phase Finished now x :: l2)
      | Some m => mkCluster s now (set_agents (cl_worker x) m ag) (l1 ++ in_phase Running now x :: l2)
      end
| step_renew s now ag l1 x l2 :
    cl_phase x = Running ->
    cluster_step (mkCluster s now ag (l1 ++ x :: l2))
      (mkCluster (renewLock c now (cl_agent x) (cl_value x) s) now ag (l1 ++ in_phase Running now x :: l2))
| step_finish s now ag l1 x l2 :
    cl_phase x = Running ->
    cluster_step (mkCluster s now ag (l1 ++ x :: l2))
      (mkCluster s now (set_agents (cl_worker x) (set_agent_status (cl_agent x) AgentIdle (ag (cl_worker x))) ag)
         (l1 ++ in_phase Finished now x :: l2))
| step_unlock s now ag l1 x l2 :
    cl_phase x = Finished ->
    cluster_step (mkCluster s now ag (l1 ++ x :: l2))
      (mkCluster (releaseLock c now (cl_agent x) (cl_value x) s) now ag (l1 ++ l2))
| step_crash s now ag l1 x l2 :
    cluster_step (mkCluster s now ag (l1 ++ x :: l2)) (mkCluster s now ag (l1 ++ l2))
| step_status s now ag calls w id st :
    cluster_step (mkCluster s now ag calls) (mkCluster s now (set_agents w (set_agent_status id st (ag w)) ag) calls)
| step_time s now now' ag calls :
    now <= now' -> Forall (prompt now') calls ->
    cluster_step (mkCluster s now ag calls) (mkCluster s now' ag calls).
End redis.
Arguments cluster : clear implicits.

Section exclusion.
Context {K : Type} `{!Redis K} {held : K -> string -> option (string * Z)} `{!RedisSpec K held}.
Context (c : SchedulerDistributed) (delay : Z) (Hdelay : 0 <= delay).
Hypothesis Hmargin : renewInterval c + 3 * delay < renew_ttl c.

Lemma lockKey_inj a b : lockKey c a = lockKey c b -> a = b.
Proof.
  unfold lockKey. induction (sd_keyPrefix c) as [|x p IH]; cbn; [by intros [= ->]|]. intros [= H]. by apply IH.
Qed.

Lemma renewInterval_pos : 0 < renewInterval c.
Proof. unfold renewInterval, second. destruct (Z.ltb_spec (sd_lockTTL c / 2) 1000000000); lia. Qed.

Lemma renew_ttl_le : renew_ttl c <= sd_lockTTL c.
Proof. unfold renew_ttl. rewrite Z.mul_comm. by apply Z.mul_div_le. Qed.

Lemma held_live now k v until s : held s k = Some (v, until) -> now < until -> redis_get now k s = Some v.
Proof. intros H Hn. rewrite get_law, H. cbn. by rewrite (proj2 (Z.ltb_lt _ _)). Qed.

Lemma acquire_spec now id v s s' : acquireLock c now id v s = (s', true) ->
  redis_get now (lockKey c id) s = None /\ held s' (lockKey c id) = Some (v, now + sd_lockTTL c) /\
  forall a, a <> id -> held s' (lockKey c a) = held s (lockKey c a).
Proof.
  unfold acquireLock. intros H. pose proof (setnx_law now (lockKey c id) v (sd_lockTTL c) s) as L. rewrite H in L. cbn in L.
  destruct (redis_get now (lockKey c id) s) as [u|]; [by destruct L|]. destruct L as [_ L]. split; [done|]. split.
  - by rewrite L, decide_True.
  - intros a Ha. rewrite L, decide_False; [done|]. by intros ?%lockKey_inj.
Qed.

Lemma refused_spec now id v s s' a : acquireLock c now id v s = (s', false) -> held s' (lockKey c a) = held s (lockKey c a).
Proof.
  unfold acquireLock. intros H. pose proof (setnx_law now (lockKey c id) v (sd_lockTTL c) s) as L. rewrite H in L. cbn in L.
  destruct (redis_get now (lockKey c id) s) as [u|]; destruct L as [L1 L]; [apply L|done].
Qed.

Lemma release_other now id v s a : a <> id -> held (releaseLock c now id v s) (lockKey c a) = held s (lockKey c a).
Proof.
  intros Ha. unfold releaseLock. case_bool_decide; [|done]. rewrite del_law, decide_False; [done|]. by intros ?%lockKey_inj.
Qed.

Lemma renew_other now id v s a : a <> id -> held (renewLock c now id v s) (lockKey c a) = held s (lockKey c a).
Proof.
  intros Ha. unfold renewLock. case_bool_decide; [|done]. rewrite pexpire_law, decide_False; [done|]. by intros ?%lockKey_inj.
Qed.

Lemma renew_own now id v s :
  redis_get now (lockKey c id) s = Some v -> held (renewLock c now id v s) (lockKey c id) = Some (v, now + renew_ttl c).
Proof. intros H. unfold renewLock. rewrite bool_decide_true by done. by rewrite pexpire_law, decide_True, H. Qed.

(** A call's worker is not late, and its lock lasts long enough for what is
    left to do. *)
Definition lock_left (p : phase) : Z :=
  match p with
  | Locked => renew_ttl c
  | Running => renew_ttl c - delay
  | Finished => renew_ttl c - renewInterval c - 2 * delay
  end.

Definition secured (now : Z) (s : K) (x : call) : Prop :=
  prompt c delay now x /\
  exists until, held s (lockKey c (cl_agent x)) = Some (cl_value x, until) /\ cl_since x + lock_left (cl_phase x) <= until.

Definition locked (k : cluster K) : Prop :=
  NoDup (map cl_agent (cs_calls k)) /\ Forall (secured (cs_now k) (cs_redis k)) (cs_calls k).

Ltac timing := unfold prompt, lock_left in *; repeat case_decide; repeat case_match; simplify_eq/=; try congruence;
  pose proof renewInterval_pos; pose proof renew_ttl_le; lia.

Lemma secured_live now s x : secured now s x -> redis_get now (lockKey c (cl_agent x)) s = Some (cl_value x).
Proof. intros (Hp & until & Hh & Hu). eapply held_live; [exact Hh|]. destruct x as [w a v r [| |] t]; timing. Qed.

Lemma secured_other now s s' x :
  held s' (lockKey c (cl_agent x)) = held s (lockKey c (cl_agent x)) -> secured now s x -> secured now s' x.
Proof. intros H (Hp & until & Hh & Hu). split; [done|]. exists until. by rewrite H. Qed.

(** A call moves on: its lock lasts for the next phase. *)
Lemma secured_next now s x p :
  (cl_phase x = Locked /\ p <> Locked) \/ (cl_phase x = Running /\ p = Finished) -> secured now s x -> secured now s (in_phase p now x).
Proof.
  intros Hx (Hp & until & Hh & Hu). split; [unfold prompt; cbn; case_decide; pose proof renewInterval_pos; lia|].
  exists until. split; [done|]. destruct x as [w a v r q t]; cbn in *. destruct Hx as [[-> Hn]|[-> ->]]; [destruct p|]; timing.
Qed.

Lemma secured_renewed now s x :
  cl_phase x = Running -> secured now s x -> secured now (renewLock c now (cl_agent x) (cl_value x) s) (in_phase Running now x).
Proof.
  intros Hx Hs. apply secured_live in Hs. split; [unfold prompt; cbn; case_decide; pose proof renewInterval_pos; lia|].
  exists (now + renew_ttl c). cbn. split; [by apply renew_own|lia].
Qed.

(** One call of several is replaced; the others keep their locks. *)
Lemma locked_replace now s s' ag ag' l1 x y l2 :
  locked (mkCluster s now ag (l1 ++ x :: l2)) -> cl_agent y = cl_agent x -> (secured now s x -> secured now s' y) ->
  (forall a, a <> cl_agent x -> held s' (lockKey c a) = held s (lockKey c a)) ->
  locked (mkCluster s' now ag' (l1 ++ y :: l2)).
Proof.
  intros [Hnd Hall] Hy Hxy Ho. cbn in *. split; cbn; [rewrite map_app in *; cbn; by rewrite Hy|].
  rewrite map_app in Hnd. cbn in Hnd. rewrite <- Permutation_middle in Hnd. apply NoDup_cons in Hnd as [Hno _]. rewrite <- map_app in Hno.
  apply Forall_app in Hall as [H1 H2]. apply Forall_cons in H2 as [Hx H2].
  assert (Hoth : forall z, z ∈ l1 ++ l2 -> secured now s z -> secured now s' z).
  { intros z Hz. apply secured_other, Ho. intros He. apply Hno. rewrite <- He. by apply list_elem_of_fmap_2. }
  rewrite Forall_forall in H1, H2. apply Forall_app. split; [|constructor; [by apply Hxy|]]; apply Forall_forall; intros z Hz;
    (apply Hoth; [apply elem_of_app; by auto|by auto]).
Qed.

Lemma locked_remove now s s' ag ag' l1 x l2 :
  locked (mkCluster s now ag (l1 ++ x :: l2)) ->
  (forall a, a <> cl_agent x -> held s' (lockKey c a) = held s (lockKey c a)) -> locked (mkCluster s' now ag' (l1 ++ l2)).
Proof.
  intros [Hnd Hall] Ho. cbn in *. rewrite map_app in Hnd. cbn in Hnd. rewrite <- Permutation_middle in Hnd.
  apply NoDup_cons in Hnd as [Hno Hnd]. rewrite <- map_app in Hno, Hnd. split; [done|]. cbn. rewrite <- Permutation_middle in Hall.
  apply Forall_cons in Hall as [_ Hall]. rewrite Forall_forall in *. intros z Hz. eapply secured_other; [|by apply Hall].
  apply Ho. intros He. apply Hno. rewrite <- He. by apply list_elem_of_fmap_2.
Qed.

Lemma cluster_step_locked k k' : cluster_step c delay k k' -> locked k -> locked k'.
Proof.
  intros H Hk. destruct H as [s now ag calls w id v resume s' Ha|s now ag calls id v s' Ha|s now ag l1 x l2 Hx|s now ag l1 x l2 Hx
    |s now ag l1 x l2 Hx|s now ag l1 x l2 Hx|s now ag l1 x l2|s now ag calls w id st|s now now' ag calls Hle Hprompt].
  - destruct Hk as [Hnd Hall]. cbn in *. destruct (acquire_spec _ _ _ _ _ Ha) as (Hnone & Hnew & Hother). rewrite Forall_forall in Hall.
    assert (Hne : forall y, y ∈ calls -> cl_agent y <> id).
    { intros y Hy He. pose proof (secured_live _ _ _ (Hall y Hy)). congruence. }
    split; cbn.
    + constructor; [|done]. intros Hin. apply list_elem_of_fmap in Hin as (y & He & Hy). by apply (Hne y Hy).
    + constructor; [|apply Forall_forall; intros y Hy; eapply secured_other; [by apply Hother, Hne|by apply Hall]].
      split; [unfold prompt; cbn; case_decide; pose proof renewInterval_pos; lia|]. eexists. split; [exact Hnew|]. cbn. pose proof renew_ttl_le. lia.
  - destruct Hk as [Hnd Hall]. split; [done|]. cbn in *. eapply Forall_impl; [exact Hall|]. intros y. apply secured_other.
    by apply (refused_spec _ _ _ _ _ _ Ha).
  - destruct (begin_run _ _ _); (eapply locked_replace; [exact Hk|done| |done]); apply secured_next; auto.
  - eapply locked_replace; [exact Hk|done|by apply secured_renewed|]. intros a Ha. by apply renew_other.
  - eapply locked_replace; [exact Hk|done| |done]. apply secured_next. auto.
  - eapply locked_remove; [exact Hk|]. intros a Ha. by apply release_other.
  - by eapply locked_remove; [exact Hk|].
  - exact Hk.
  - destruct Hk as [Hnd Hall]. split; [done|]. cbn in *. rewrite Forall_forall in *. intros y Hy. destruct (Hall y Hy) as (_ & Hu).
    split; [by apply Hprompt|done].
Qed.

(** C7: over all workers an agent has one run at a time, when the workers are
    not late.  Calls of WakeAgent and Resume on any workers interleave, crashes
    cut calls off and leave their locks, other calls change the agents'
    statuses, time passes and locks run out on their own; a worker acts within
    [delay] of when it should, and three such delays and an interval of the
    renewal are less than a renewed lock lasts (with the default lock of 30
    seconds, delays under 5).  Then no two calls are in a run of the same agent,
    and each call's lock is still its own.  Redis answers, and is any store with
    the laws of its commands. *)
Theorem agent_runs_exclude_each_other ag s0 now0 k :
  rtc (cluster_step c delay) (mkCluster s0 now0 ag []) k ->
  NoDup (map cl_agent (filter (fun x => cl_phase x = Running) (cs_calls k))) /\
  Forall (fun x => redis_get (cs_now k) (lockKey c (cl_agent x)) (cs_redis k) = Some (cl_value x)) (cs_calls k).
Proof.
  intros H. assert (Hl : locked (mkCluster s0 now0 ag [])) by (split; constructor).
  assert (Hk : locked k).
  { revert Hl. induction H as [|x y z Hxy _ IH]; [done|]. intros Hx. apply IH. by apply (cluster_step_locked x). }
  destruct Hk as [Hnd Hall]. split; [|eapply Forall_impl; [exact Hall|]; intros x; apply secured_live].
  revert Hnd. generalize (cs_calls k). intros l.
  induction l as [|x l IH]; [done|]. intros [Hx Hnd]%NoDup_cons. rewrite filter_cons. case_decide; [|by apply IH].
  constructor; [|by apply IH]. intros Hin. apply Hx. apply list_elem_of_fmap in Hin as (y & -> & Hy).
  apply list_elem_of_filter in Hy as [_ Hy]. by apply list_elem_of_fmap_2.
Qed.
End exclusion.

(** Renewing at least a second apart, a lock of at most a second is never
    renewed before it runs out. *)
Lemma short_lock_is_not_renewed : forall c, sd_lockTTL c <= second -> sd_lockTTL c <= renewInterval c.
Proof. intros c H. unfold renewInterval. case_match eqn:E; [done|]. apply Z.ltb_ge in E. unfold second in *. lia. Qed.

(** The laws hold of keys with a value and a deadline. *)
Abbreviation kv := (gmap string (string * Z)).

#[export] Instance kv_redis : Redis kv := {
  redis_get now k (s : gmap string (string * Z)) := s !! k ≫= fun p => if now <? snd p then Some (fst p) else None;
  redis_setnx now k v ttl (s : gmap string (string * Z)) :=
    match s !! k ≫= fun p => if now <? snd p then Some (fst p) else None with
    | Some _ => (s, false)
    | None => (<[k := (v, now + ttl)]> s, true)
    end;
  redis_del k (s : gmap string (string * Z)) := delete k s;
  redis_pexpire now k ttl (s : gmap string (string * Z)) :=
    match s !! k ≫= fun p => if now <? snd p then Some (fst p) else None with
    | Some v => <[k := (v, now + ttl)]> s
    | None => s
    end
}.

Definition kv_held (s : gmap string (string * Z)) (k : string) : option (string * Z) := s !! k.

#[export] Instance kv_redis_spec : RedisSpec kv kv_held.
Proof.
  unfold kv_held. split; unfold redis_get, redis_setnx, redis_del, redis_pexpire, kv_redis; [done|..].
  - intros now k v ttl s. case_match; cbn; [done|]. split; [done|]. intros x. case_decide; subst;
      [by rewrite lookup_insert_eq|by rewrite lookup_insert_ne].
  - intros k s x. case_decide; subst; [by rewrite lookup_delete_eq|by rewrite lookup_delete_ne].
  - intros now k ttl s x. case_match; case_decide; subst; try done;
      [by rewrite lookup_insert_eq|by rewrite lookup_insert_ne].
Qed.

Definition two_workers : SchedulerDistributed := NewSchedulerDistributed.
Definition one_agent : Manager := {["a" := NewAgent (at_sec 0) "u" "a" "a" None]}.
Definition first_call (p : phase) (since : Z) : call := mkCallState "w1" "a" "v1" false p since.
Definition lock_until (v : string) (t : Z) : kv := {["aetheris:scheduler:lock:a" := (v, t * second)]}.

Lemma first_lock_taken : acquireLock two_workers 0 "a" "v1" (∅ : kv) = (lock_until "v1" 30, true).
Proof. unfold acquireLock, redis_setnx, kv_redis. by rewrite lookup_empty. Qed.

Lemma second_lock_refused : acquireLock two_workers (31 * second) "a" "v2" (lock_until "v1" 46) = (lock_until "v1" 46, false).
Proof. vm_compute. reflexivity. Qed.

Lemma second_lock_taken : acquireLock two_workers (30 * second) "a" "v2" (lock_until "v1" 30) = (lock_until "v2" 60, true).
Proof. vm_compute. reflexivity. Qed.

Definition running_on (w : string) (f : string -> Manager) : string -> Manager :=
  set_agents w (set_agent_status "a" AgentRunning one_agent) f.

(** The first worker runs the agent and, a second late, renews its lock; the
    second worker asks after the first lock would have run out, and is
    refused. *)
Lemma agent_runs_exclude_each_other_witness :
  let k := mkCluster (lock_until "v1" 46) (31 * second) (running_on "w1" (fun _ => one_agent)) [first_call Running (16 * second)] in
  NoDup (map cl_agent (filter (fun x => cl_phase x = Running) (cs_calls k))) /\
  Forall (fun x => redis_get (cs_now k) (lockKey two_workers (cl_agent x)) (cs_redis k) = Some (cl_value x)) (cs_calls k).
Proof.
  intros k. set (ag := running_on "w1" (fun _ => one_agent)). apply (agent_runs_exclude_each_other (held := kv_held) two_workers second ltac:(unfold second; lia)
    ltac:(vm_compute; reflexivity) (fun _ => one_agent) (∅ : kv) 0 k).
  eapply rtc_l; [apply (step_acquire two_workers second (∅ : kv) 0 (fun _ => one_agent) [] "w1" "a" "v1" false _ first_lock_taken)|].
  eapply rtc_l; [apply (step_begin two_workers second (lock_until "v1" 30) 0 (fun _ => one_agent) [] (first_call Locked 0) [] eq_refl)|].
  eapply rtc_l; [apply (step_time two_workers second (lock_until "v1" 30) 0 (16 * second) ag [first_call Running 0]);
    [vm_compute; discriminate|constructor; [vm_compute; discriminate|constructor]]|].
  eapply rtc_l; [apply (step_renew two_workers second (lock_until "v1" 30) (16 * second) ag [] (first_call Running 0) [] eq_refl)|].
  eapply rtc_l; [apply (step_time two_workers second (lock_until "v1" 46) (16 * second) (31 * second) ag [first_call Running (16 * second)]);
    [vm_compute; discriminate|constructor; [vm_compute; discriminate|constructor]]|].
  eapply rtc_l; [apply (step_refused two_workers second _ (31 * second) ag [first_call Running (16 * second)] "a" "v2" _ second_lock_refused)|].
  apply rtc_refl.
Defined.

(** A renewal that is 15 seconds late leaves the agent to a second run: the
    delay has to be bounded. *)
Lemma late_renewal_runs_twice : exists k : cluster kv,
  rtc (cluster_step two_workers (15 * second)) (mkCluster ∅ 0 (fun _ => one_agent) []) k /\
  map cl_agent (filter (fun x => cl_phase x = Running) (cs_calls k)) = ["a"; "a"].
Proof.
  set (ag := running_on "w1" (fun _ => one_agent)). set (d := 15 * second).
  exists (mkCluster (lock_until "v2" 60) (30 * second) (running_on "w2" ag)
    [mkCallState "w2" "a" "v2" false Running (30 * second); first_call Running 0]).
  split; [|reflexivity].
  eapply rtc_l; [apply (step_acquire two_workers d (∅ : kv) 0 (fun _ => one_agent) [] "w1" "a" "v1" false _ first_lock_taken)|].
  eapply rtc_l; [apply (step_begin two_workers d (lock_until "v1" 30) 0 (fun _ => one_agent) [] (first_call Locked 0) [] eq_refl)|].
  eapply rtc_l; [apply (step_time two_workers d (lock_until "v1" 30) 0 (30 * second) ag [first_call Running 0]);
    [vm_compute; discriminate|constructor; [vm_compute; discriminate|constructor]]|].
  eapply rtc_l; [apply (step_acquire two_workers d _ (30 * second) ag [first_call Running 0] "w2" "a" "v2" false _ second_lock_taken)|].
  eapply rtc_l; [apply (step_begin two_workers d (lock_until "v2" 60) (30 * second) ag []
    (mkCallState "w2" "a" "v2" false Locked (30 * second)) [first_call Running 0] eq_refl)|]. apply rtc_refl.
Qed.

(** Leader election and the distributed lock on Redis
    (internal/agent/scheduler/leader_election.go).

    Redis is the class of AgentScheduler.v with its laws; a Lua script runs
    atomically.  Connecting is outside, so the functions start from a client,
    and errors of the connection are left out: they change nothing in Redis that
    the model could see. *)

Record LeaderElection := mkElection { el_lockPrefix : string; el_ttl : Z }.

(** The configuration's prefix and ttl with their defaults. *)
Definition NewLeaderElection (prefix : string) (ttl : Z) : LeaderElection :=
  mkElection (if String.eqb prefix EmptyString then "aetheris:leader" else prefix) (if ttl <=? 0 then 30 * second else ttl).

Definition leader_key (le : LeaderElection) (key : string) : string := el_lockPrefix le +:+ String ":" key.

Section redis.
Context {K : Type} `{!Redis K}.

Definition Elect (le : LeaderElection) (now : Z) (key identity : string) (s : K) : K * bool :=
  redis_setnx now (leader_key le key) identity (el_ttl le) s.

Definition IsLeader (le : LeaderElection) (now : Z) (key identity : string) (s : K) : bool :=
  match redis_get now (leader_key le key) s with Some current => String.eqb current identity | None => false end.

(** [le.ttl.Milliseconds()], in nanoseconds again. *)
Definition renewed_ttl (le : LeaderElection) : Z := el_ttl le / 1000000 * 1000000.

Definition Renew (le : LeaderElection) (now : Z) (key identity : string) (s : K) : K * bool :=
  if bool_decide (redis_get now (leader_key le key) s = Some identity)
  then (redis_pexpire now (leader_key le key) (renewed_ttl le) s, true) else (s, false).

Definition Resign (le : LeaderElection) (now : Z) (key identity : string) (s : K) : K * bool :=
  if bool_decide (redis_get now (leader_key le key) s = Some identity)
  then (redis_del (leader_key le key) s, true) else (s, false).

Definition Lock (lockName : string) (now : Z) (identity : string) (ttl : Z) (s : K) : K * bool := redis_setnx now lockName identity ttl s.

Definition Unlock (lockName : string) (now : Z) (identity : string) (s : K) : K * bool :=
  if bool_decide (redis_get now lockName s = Some identity) then (redis_del lockName s, true) else (s, false).

(** What candidates do, each at its time. *)
Inductive election_op :=
| OpElect (now : Z) (key identity : string) | OpRenew (now : Z) (key identity : string) | OpResign (now : Z) (key identity : string).

Definition op_time (o : election_op) : Z := match o with OpElect t _ _ | OpRenew t _ _ | OpResign t _ _ => t end.
Definition op_identity (o : election_op) : string := match o with OpElect _ _ i | OpRenew _ _ i | OpResign _ _ i => i end.

Definition apply_election (le : LeaderElection) (s : K) (o : election_op) : K * bool :=
  match o with
  | OpElect now key i => Elect le now key i s
  | OpRenew now key i => Renew le now key i s
  | OpResign now key i => Resign le now key i s
  end.

Fixpoint elections (le : LeaderElection) (s : K) (ops : list election_op) : K * list bool :=
  match ops with
  | [] => (s, [])
  | o :: ops => let '(s', b) := apply_election le s o in let '(s'', bs) := elections le s' ops in (s'', b :: bs)
  end.
End redis.

Section term.
Context {K : Type} `{!Redis K} {held : K -> string -> option (string * Z)} `{!RedisSpec K held}.
Context (le : LeaderElection).

Lemma leader_key_inj a b : leader_key le a = leader_key le b -> a = b.
Proof. unfold leader_key. induction (el_lockPrefix le) as [|x p IH]; cbn; [by intros [= ->]|]. intros [= H]. by apply IH. Qed.

(** The key is the identity's until [until] at least. *)
Definition holds (key identity : string) (until : Z) (s : K) : Prop :=
  exists e, until <= e /\ held s (leader_key le key) = Some (identity, e).

Lemma holds_leader key identity until now s : holds key identity until s -> now < until -> redis_get now (leader_key le key) s = Some identity.
Proof. intros (e & He & Hh) Hn. rewrite get_law, Hh. cbn. by rewrite (proj2 (Z.ltb_lt _ _)) by lia. Qed.

Lemma elected_holds now key identity s s' :
  Elect le now key identity s = (s', true) -> holds key identity (now + el_ttl le) s'.
Proof.
  unfold Elect. intros H. pose proof (setnx_law now (leader_key le key) identity (el_ttl le) s) as L. rewrite H in L. cbn in L.
  destruct (redis_get now (leader_key le key) s); [by destruct L|]. destruct L as [_ L]. exists (now + el_ttl le). split; [done|].
  by rewrite L, decide_True.
Qed.

Lemma renewed_holds now key identity s s' :
  Renew le now key identity s = (s', true) -> holds key identity (now + renewed_ttl le) s'.
Proof.
  unfold Renew. case_bool_decide as Hg; [|done]. intros [= <-]. exists (now + renewed_ttl le). split; [done|].
  by rewrite pexpire_law, decide_True, Hg.
Qed.

(** Others can neither take the key nor shorten it while it is held. *)
Lemma other_keeps key identity until s o :
  holds key identity until s -> op_time o < until -> op_identity o <> identity ->
  holds key identity until (fst (apply_election le s o)) /\
  (forall t, o = OpElect t key (op_identity o) -> snd (apply_election le s o) = false).
Proof.
  intros Hh Ht Hi. pose proof (holds_leader _ _ _ _ _ Hh Ht) as Hg. pose proof Hh as (e & He & Hheld).
  assert (Hsame : forall s', held s' (leader_key le key) = held s (leader_key le key) -> holds key identity until s').
  { intros s' Hs. exists e. by rewrite Hs. }
  destruct o as [t k i|t k i|t k i]; cbn [apply_election op_time op_identity fst snd] in *.
  - unfold Elect. pose proof (setnx_law t (leader_key le k) i (el_ttl le) s) as L. destruct (decide (k = key)) as [->|Hk].
    + rewrite Hg in L. destruct L as [Lf L]. split; [by apply Hsame|done].
    + split; [|intros t' [= _ Hkey]; done]. apply Hsame. destruct (redis_get t (leader_key le k) s); destruct L as [_ L]; rewrite L; [done|].
      rewrite decide_False; [done|]. by intros ?%leader_key_inj.
  - unfold Renew. case_bool_decide as Hb; [|by split]. cbn [fst]. split; [|done]. apply Hsame. rewrite pexpire_law, decide_False; [done|].
    intros ->%leader_key_inj. rewrite Hg in Hb. by injection Hb as ->.
  - unfold Resign. case_bool_decide as Hb; [|by split]. cbn [fst]. split; [|done]. apply Hsame. rewrite del_law, decide_False; [done|].
    intros ->%leader_key_inj. rewrite Hg in Hb. by injection Hb as ->.
Qed.

(** A leader keeps its term: from its election to the end of its ttl, whatever
    others do at their times, on this key or on others, it remains the leader
    and nobody else is elected.  The same holds from a renewal, for the ttl in
    whole milliseconds. *)
Theorem leader_keeps_its_term now key identity s s' ops until :
  (Elect le now key identity s = (s', true) /\ until = now + el_ttl le \/
   Renew le now key identity s = (s', true) /\ until = now + renewed_ttl le) ->
  Forall (fun o => op_time o < until /\ op_identity o <> identity) ops ->
  (forall later, later < until -> IsLeader le later key identity (fst (elections le s' ops)) = true) /\
  Forall2 (fun o b => forall t, o = OpElect t key (op_identity o) -> b = false) ops (snd (elections le s' ops)).
Proof.
  intros Hstart Hops.
  assert (Hh : holds key identity until s').
  { destruct Hstart as [[H ->]|[H ->]]; [by eapply elected_holds|by eapply renewed_holds]. }
  clear Hstart. revert s' Hh. induction Hops as [|o ops [Ht Hi] _ IH]; intros s' Hh; cbn [elections].
  - cbn [fst snd]. split; [|constructor]. intros later Hl. unfold IsLeader. rewrite (holds_leader _ _ _ _ _ Hh Hl). apply String.eqb_refl.
  - destruct (other_keeps key identity until s' o Hh Ht Hi) as [H1 H2].
    destruct (apply_election le s' o) as [s1 b]. cbn in H1, H2. destruct (IH s1 H1) as [H3 H4].
    destruct (elections le s1 ops) as [s2 bs]. cbn in *. split; [done|]. by constructor.
Qed.

(** A term of less than a millisecond is renewed for no time at all: the leader
    is told that it stays, and the key is gone. *)
Lemma short_term_is_lost now key identity s s' :
  0 < el_ttl le < 1000000 -> Renew le now key identity s = (s', true) -> IsLeader le now key identity s' = false.
Proof.
  intros Ht. unfold Renew. case_bool_decide as Hg; [|done]. intros [= <-]. unfold IsLeader.
  rewrite get_law, pexpire_law, decide_True, Hg by done. cbn. unfold renewed_ttl. rewrite Z.div_small by lia. cbn.
  by rewrite (proj2 (Z.ltb_ge _ _)) by lia.
Qed.
End term.

(** ** A concrete Redis *)

Definition hourly : LeaderElection := NewLeaderElection "" hour.

Definition rivals : list election_op := [OpElect 2 "scan" "b"; OpResign 3 "scan" "b"; OpElect 4 "other" "b"; OpRenew 5 "scan" "b"].

Lemma leader_keeps_its_term_witness :
  snd (Elect hourly 1 "scan" "a" (∅ : kv)) = true /\
  IsLeader hourly 9 "scan" "a" (fst (elections hourly (fst (Elect hourly 1 "scan" "a" (∅ : kv))) rivals)) = true.
Proof.
  split; [reflexivity|].
  apply (leader_keeps_its_term (held := kv_held) hourly 1 "scan" "a" ∅ (fst (Elect hourly 1 "scan" "a" (∅ : kv))) rivals (1 + hour)).
  - left. split; reflexivity.
  - repeat constructor; discriminate.
  - reflexivity.
Defined.
