(* ===== verification/Effects.v ===== *)
(** pkg/effects: the library that records the side effects of an agent and
    answers them from its records when they come again.

    The in-memory system with its two indexes, and the functions that run a
    model call, a tool, an HTTP request, a clock reading, a random value and a
    sleep through it.  The function that does the work is an argument; so are
    fresh ids and the times read.  Recorded values are shared with the caller
    in the code; here they are not changed after they were recorded.

    Second half: what runs through the library. *)

From S2P Require Import Prelude Sha256 GoTime Json Base64 GoFloat Gatekeeper.

(** ** Requests and responses *)

Inductive Kind := KindLLM | KindTool | KindHTTP | KindTime | KindRandom | KindSleep.

Definition kind_string (k : Kind) : string :=
  match k with
  | KindLLM => "llm" | KindTool => "tool" | KindHTTP => "http"
  | KindTime => "time" | KindRandom => "random" | KindSleep => "sleep"
  end.

(** A Go value of type [any]: one that encoding/json prints, or one that it
    does not (a channel, a function, a number that is none). *)
Inductive value := VJson (v : json) | VOpaque (id : string).

(** [map[string]interface{}]; [None] is the nil map. *)
Definition values : Type := option (list (string * value)).

Record LLMMessage := mkLLMMessage { lm_Role : string; lm_Content : string }.

Record LLMParams := mkLLMParams {
  lp_Temperature : option float64; lp_MaxTokens : option Z; lp_TopP : option float64;
  lp_FrequencyPenalty : option float64; lp_PresencePenalty : option float64; lp_StopSequences : list string }.

Record LLMRequest := mkLLMRequest {
  lr_Model : string; lr_Messages : option (list LLMMessage); lr_Params : LLMParams; lr_SystemPrompt : string }.

Record LLMUsage := mkLLMUsage { lu_PromptTokens : Z; lu_CompletionTokens : Z; lu_TotalTokens : Z }.

Record LLMResponse := mkLLMResponse {
  lo_Content : string; lo_StopReason : string; lo_Usage : LLMUsage; lo_Model : string }.

Record ToolRequest := mkToolRequest { tq_Name : string; tq_Arguments : values; tq_Timeout : option Z }.

Record HTTPRequest := mkHTTPRequest {
  hr_Method : string; hr_URL : string; hr_Headers : option (gmap string string); hr_Body : option string;
  hr_Timeout : option Z }.

Record HTTPResponse := mkHTTPResponse {
  ho_StatusCode : Z; ho_Headers : option (gmap string string); ho_Body : string; ho_Duration : Z }.

Record TimeResult := mkTimeResult { tt_Timestamp : time; tt_UnixNano : Z }.

Record RandomResult := mkRandomResult { rr_Source : string; rr_Values : list Z; rr_Length : Z }.

Record SleepResult := mkSleepResult { sl_DurationMs : Z; sl_Duration : Z; sl_CompletedAt : time }.

(** What [Payload] and [Data], of type [any], hold. *)
Inductive payload :=
| PLLM (r : LLMRequest) | PTool (r : ToolRequest) | PHTTP (r : HTTPRequest)
| PTime (r : TimeResult) | PRandom (r : RandomResult) | PSleep (r : SleepResult).

Inductive data :=
| DLLM (r : LLMResponse) | DTool (r : values) | DHTTP (r : HTTPResponse)
| DTime (r : TimeResult) | DRandom (r : RandomResult) | DSleep (r : SleepResult).

(** ** Effects and results (effect.go) *)

Record Effect := mkEffect {
  ef_ID : string; ef_Kind : Kind; ef_Payload : payload; ef_IdempotencyKey : string; ef_Description : string;
  ef_JobID : string; ef_AttemptID : string }.

Record EffectError := mkEffectError { ee_Type : string; ee_Message : string; ee_Code : Z; ee_Retriable : bool }.

Record Result := mkResult {
  rs_ID : string; rs_Kind : Kind; rs_Data : option data; rs_Error : option EffectError; rs_Timestamp : time;
  rs_DurationMs : Z; rs_Cached : bool; rs_ReplayFromID : string }.

Definition NewEffect (uuid : string) (k : Kind) (p : payload) : Effect :=
  mkEffect uuid k p EmptyString EmptyString EmptyString EmptyString.

Definition WithIdempotencyKey (key : string) (e : Effect) : Effect :=
  mkEffect (ef_ID e) (ef_Kind e) (ef_Payload e) key (ef_Description e) (ef_JobID e) (ef_AttemptID e).

Definition WithDescription (desc : string) (e : Effect) : Effect :=
  mkEffect (ef_ID e) (ef_Kind e) (ef_Payload e) (ef_IdempotencyKey e) desc (ef_JobID e) (ef_AttemptID e).

Definition WithJobID (jobID : string) (e : Effect) : Effect :=
  mkEffect (ef_ID e) (ef_Kind e) (ef_Payload e) (ef_IdempotencyKey e) (ef_Description e) jobID (ef_AttemptID e).

Definition WithAttemptID (attemptID : string) (e : Effect) : Effect :=
  mkEffect (ef_ID e) (ef_Kind e) (ef_Payload e) (ef_IdempotencyKey e) (ef_Description e) (ef_JobID e) attemptID.

Definition milliseconds (d : Z) : Z := Z.quot d 1000000.

Definition SuccessResult (now : time) (id : string) (k : Kind) (d : option data) (duration : Z) : Result :=
  mkResult id k d None now (milliseconds duration) false EmptyString.

Definition FailedResult (now : time) (id : string) (k : Kind) (err : EffectError) (duration : Z) : Result :=
  mkResult id k None (Some err) now (milliseconds duration) false EmptyString.

Definition CachedResult (now : time) (originalID : string) (r : Result) : Result :=
  mkResult (rs_ID r) (rs_Kind r) (rs_Data r) (rs_Error r) now (rs_DurationMs r) true originalID.

Definition set_Data (d : data) (r : Result) : Result :=
  mkResult (rs_ID r) (rs_Kind r) (Some d) (rs_Error r) (rs_Timestamp r) (rs_DurationMs r) (rs_Cached r) (rs_ReplayFromID r).

Definition set_DurationMs (ms : Z) (r : Result) : Result :=
  mkResult (rs_ID r) (rs_Kind r) (rs_Data r) (rs_Error r) (rs_Timestamp r) ms (rs_Cached r) (rs_ReplayFromID r).

(** ** The in-memory system (memory.go) *)

Inductive eff_error := ErrReplayingForbidden | ErrNoRecorder | CallError (msg : string).

Record memorySystem := mkMemorySystem { my_byID : gmap string Result; my_byKey : gmap string Result }.

Definition NewMemorySystem : memorySystem := mkMemorySystem ∅ ∅.

(** Whether the context replays, a fresh id, and the times read. *)
Record eff_env := mkEffEnv { en_replaying : bool; en_uuid : string; en_id : string; en_start : time; en_end : time }.

Definition Replay (effectID : string) (s : memorySystem) : option Result := my_byID s !! effectID.

Definition by_key (key : string) (s : memorySystem) : option Result :=
  if String.eqb key EmptyString then None else my_byKey s !! key.

(** Execute in replay mode. *)
Definition execute_replaying (env : eff_env) (e : Effect) (s : memorySystem) : result eff_error Result :=
  match (if String.eqb (ef_ID e) EmptyString then None else Replay (ef_ID e) s) with
  | Some r => Ok (CachedResult (en_end env) (ef_ID e) r)
  | None =>
      match by_key (ef_IdempotencyKey e) s with
      | Some r => Ok (CachedResult (en_end env) EmptyString r)
      | None => Err ErrReplayingForbidden
      end
  end.

(** The two halves of an execution: the look into the index of keys, and the
    record of the new effect.  The code holds no lock in between. *)
Definition execute_check (env : eff_env) (e : Effect) (s : memorySystem) : option Result :=
  (fun r => set_DurationMs (milliseconds (unix_nano (en_end env) - unix_nano (en_start env)))
              (CachedResult (en_end env) (rs_ID r) r)) <$> by_key (ef_IdempotencyKey e) s.

Definition new_result (env : eff_env) (e : Effect) : Result :=
  mkResult (if String.eqb (ef_ID e) EmptyString then en_id env else ef_ID e) (ef_Kind e) None None (en_start env) 0 false EmptyString.

Definition execute_store (env : eff_env) (e : Effect) (s : memorySystem) : memorySystem :=
  let r := new_result env e in
  mkMemorySystem (<[rs_ID r := r]> (my_byID s))
    (if String.eqb (ef_IdempotencyKey e) EmptyString then my_byKey s else <[ef_IdempotencyKey e := r]> (my_byKey s)).

Definition Execute (env : eff_env) (e : Effect) (s : memorySystem) : memorySystem * result eff_error Result :=
  if en_replaying env then (s, execute_replaying env e s)
  else match execute_check env e s with
       | Some r => (s, Ok r)
       | None => (execute_store env e s, Ok (new_result env e))
       end.

Definition Complete (id : string) (d : data) (s : memorySystem) : memorySystem :=
  mkMemorySystem (alter (set_Data d) id (my_byID s))
    ((fun r => if String.eqb (rs_ID r) id then set_Data d r else r) <$> my_byKey s).

Definition History (order : list string) (s : memorySystem) : list Result := omap (fun id => my_byID s !! id) order.

Definition Clear (s : memorySystem) : memorySystem := NewMemorySystem.

(** ** Idempotency keys *)

(** [json.Marshal] of a [map[string]interface{}] fails on a value it cannot
    print. *)
Definition marshal_values (args : values) : option string :=
  match args with
  | None => Some "null"
  | Some l =>
      marshal_map ∘ Some <$> mapM (fun kv => match snd kv with VJson v => Some (fst kv, v) | VOpaque _ => None end) l
  end.

Definition computeToolIdempotencyKey (name : string) (args : values) : string :=
  "tool:" +:+ hex_sha256
    match marshal_values args with
    | Some text => obj_text [("Name", quote name); ("Args", text)]
    | None => name
    end.

Definition arr_text (l : list string) : string := "[" +:+ (join "," l +:+ "]").

Definition opt_field (name : string) (o : option string) : list (string * string) :=
  match o with Some t => [(name, t)] | None => [] end.

Definition params_text (p : LLMParams) : string :=
  obj_text (opt_field "temperature" (json_float <$> lp_Temperature p)
         ++ opt_field "max_tokens" (itoa <$> lp_MaxTokens p)
         ++ opt_field "top_p" (json_float <$> lp_TopP p)
         ++ opt_field "frequency_penalty" (json_float <$> lp_FrequencyPenalty p)
         ++ opt_field "presence_penalty" (json_float <$> lp_PresencePenalty p)
         ++ match lp_StopSequences p with [] => [] | l => [("stop_sequences", arr_text (map quote l))] end).

Definition message_text (m : LLMMessage) : string :=
  obj_text [("role", quote (lm_Role m)); ("content", quote (lm_Content m))].

Definition computeLLMIdempotencyKey (r : LLMRequest) : string :=
  hex_sha256 (obj_text
    [("Model", quote (lr_Model r));
     ("Messages", match lr_Messages r with Some l => arr_text (map message_text l) | None => "null" end);
     ("SystemPrompt", quote (lr_SystemPrompt r)); ("Params", params_text (lr_Params r))]).

Definition headers_text (h : option (gmap string string)) : string :=
  match h with
  | Some m => obj_text (sort_fields (map (fun kv => (fst kv, quote (snd kv))) (map_to_list m)))
  | None => "null"
  end.

(** The first eight bytes of the digest. *)
Definition computeHTTPIdempotencyKey (r : HTTPRequest) : string :=
  "http:" +:+ str_take 16 (hex_sha256 (obj_text
    [("Method", quote (hr_Method r)); ("URL", quote (hr_URL r)); ("Headers", headers_text (hr_Headers r));
     ("Body", match hr_Body r with Some b => quote (b64_encode b) | None => "null" end)])).

(** ** Running effects (llm.go, tool.go, http.go) *)

(** What a call did: the new state, what it returned, whether it ran. *)
Definition ran (R : Type) : Type := memorySystem * outcome (result eff_error R) * bool.

(** The body the three functions share: [cast] is the type assertion on the
    recorded data, [zero] what is returned when there is none. *)
Definition execute_with {R : Type} (env : eff_env) (e : Effect) (cast : data -> option R) (zero : R) (wrap : R -> data)
  (caller : result string R) (s : memorySystem) : ran R :=
  match Execute env e s with
  | (s, Err err) => (s, Ret (Err err), false)
  | (s, Ok r) =>
      if rs_Cached r then
        (s, match rs_Data r with
            | None => Ret (Ok zero)
            | Some d => match cast d with Some x => Ret (Ok x) | None => Panic "interface conversion" end
            end, false)
      else match caller with
           | Err msg => (s, Ret (Err (CallError msg)), true)
           | Ok x => (Complete (rs_ID r) (wrap x) s, Ret (Ok x), true)
           end
  end.

Definition LLMEffect (uuid : string) (r : LLMRequest) : Effect :=
  WithDescription ("llm." +:+ lr_Model r) (WithIdempotencyKey (computeLLMIdempotencyKey r) (NewEffect uuid KindLLM (PLLM r))).

Definition zero_LLM : LLMResponse := mkLLMResponse EmptyString EmptyString (mkLLMUsage 0 0 0) EmptyString.

Definition ExecuteLLM (env : eff_env) (r : LLMRequest) (caller : LLMRequest -> result string LLMResponse)
  : memorySystem -> ran LLMResponse :=
  execute_with env (LLMEffect (en_uuid env) r) (fun d => match d with DLLM x => Some x | _ => None end) zero_LLM DLLM (caller r).

Definition tool_effect (uuid : string) (r : ToolRequest) : Effect :=
  WithDescription ("tool." +:+ tq_Name r)
    (WithIdempotencyKey (computeToolIdempotencyKey (tq_Name r) (tq_Arguments r)) (NewEffect uuid KindTool (PTool r))).

Definition ToolEffect (uuid name : string) (args : values) : Effect := tool_effect uuid (mkToolRequest name args None).

Definition execute_tool (env : eff_env) (r : ToolRequest) (caller : string -> values -> result string values)
  : memorySystem -> ran values :=
  execute_with env (tool_effect (en_uuid env) r) (fun d => match d with DTool x => Some x | _ => None end) None DTool
    (caller (tq_Name r) (tq_Arguments r)).

Definition ExecuteTool (env : eff_env) (name : string) (args : values) (caller : string -> values -> result string values)
  : memorySystem -> ran values :=
  execute_tool env (mkToolRequest name args None) caller.

Definition ExecuteToolWithTimeout (env : eff_env) (name : string) (args : values) (timeout : Z)
  (caller : string -> values -> result string values) : memorySystem -> ran values :=
  execute_tool env (mkToolRequest name args (Some timeout)) caller.

Definition HTTPEffect (uuid : string) (r : HTTPRequest) : Effect :=
  WithDescription ("http." +:+ (hr_Method r +:+ (" " +:+ hr_URL r)))
    (WithIdempotencyKey (computeHTTPIdempotencyKey r) (NewEffect uuid KindHTTP (PHTTP r))).

Definition zero_HTTP : HTTPResponse := mkHTTPResponse 0 None EmptyString 0.

Definition ExecuteHTTP (env : eff_env) (r : HTTPRequest) (caller : HTTPRequest -> result string HTTPResponse)
  : memorySystem -> ran HTTPResponse :=
  execute_with env (HTTPEffect (en_uuid env) r) (fun d => match d with DHTTP x => Some x | _ => None end) zero_HTTP DHTTP (caller r).

(** ** Clock, random values and sleeps (time.go, random.go, sleep.go)

    None of these calls [Complete]: what they write into the result they got
    back is their own copy. *)

Definition local_effect {R A : Type} (env : eff_env) (e : Effect) (cast : data -> option R) (fresh : R) (out : R -> A)
  (s : memorySystem) : memorySystem * outcome (result eff_error A) :=
  match Execute env e s with
  | (s, Err err) => (s, Ret (Err err))
  | (s, Ok r) =>
      (s, match rs_Data r with
          | Some d => if rs_Cached r
                      then match cast d with Some x => Ret (Ok (out x)) | None => Panic "interface conversion" end
                      else Ret (Ok (out fresh))
          | None => Ret (Ok (out fresh))
          end)
  end.

Definition TimeEffect (uuid : string) (t : time) : Effect :=
  WithDescription "time.now" (NewEffect uuid KindTime (PTime (mkTimeResult t (unix_nano t)))).

Definition ExecuteTime (env : eff_env) (now : time) : memorySystem -> memorySystem * outcome (result eff_error TimeResult) :=
  local_effect env (TimeEffect (en_uuid env) now) (fun d => match d with DTime x => Some x | _ => None end)
    (mkTimeResult now (unix_nano now)) id.

Definition int63_bytes (v : Z) : list Z := map (fun i => Z.land (Z.shiftr v (8 * Z.of_nat i)) 255) (seq 0 8).

Fixpoint int63_of (l : list Z) : Z :=
  match l with [] => 0 | b :: l => Z.lor b (Z.shiftl (int63_of l) 8) end.

(** [random] is the value [rand.Int] gives. *)
Definition ExecuteRandomInt63 (env : eff_env) (source : string) (random : Z)
  : memorySystem -> memorySystem * outcome (result eff_error Z) :=
  let fresh := mkRandomResult source (int63_bytes random) 8 in
  local_effect env
    (WithDescription "random.int63" (WithIdempotencyKey ("random:" +:+ (source +:+ ":int63"))
       (NewEffect (en_uuid env) KindRandom (PRandom fresh))))
    (fun d => match d with DRandom x => Some x | _ => None end) fresh (fun r => int63_of (rr_Values r)).

Definition ExecuteRandomBytes (env : eff_env) (source : string) (random : list Z)
  : memorySystem -> memorySystem * outcome (result eff_error (list Z)) :=
  let fresh := mkRandomResult source random (Z.of_nat (length random)) in
  local_effect env
    (WithDescription "random.bytes"
       (WithIdempotencyKey ("random:" +:+ (source +:+ (":bytes:" +:+ itoa (Z.of_nat (length random)))))
          (NewEffect (en_uuid env) KindRandom (PRandom fresh))))
    (fun d => match d with DRandom x => Some x | _ => None end) fresh rr_Values.

Definition ExecuteRandomIntn (env : eff_env) (source : string) (n random : Z) (s : memorySystem)
  : memorySystem * outcome (result eff_error Z) :=
  if n <=? 0 then (s, Ret (Ok 0))
  else let '(s, r) := ExecuteRandomInt63 env (source +:+ (":intn:" +:+ itoa n)) random s in
       (s, run r <- r ;; Ret (try v <- r ;; Ok (Z.rem v n))).

(** [desc] is [duration.String()]. *)
Definition SleepEffect (uuid : string) (duration : Z) (desc : string) (r : SleepResult) : Effect :=
  WithDescription ("sleep." +:+ desc) (NewEffect uuid KindSleep (PSleep r)).

Definition ExecuteSleep (env : eff_env) (now : time) (duration : Z) (desc : string)
  : memorySystem -> memorySystem * outcome (result eff_error SleepResult) :=
  let fresh := mkSleepResult (milliseconds duration) duration now in
  local_effect env (SleepEffect (en_uuid env) duration desc fresh)
    (fun d => match d with DSleep x => Some x | _ => None end) fresh id.

(** ** What the system promises

    The specification keeps a list of the calls that went on to do their work,
    each with its key, its id and what it recorded. *)

Record recorded := mkRecorded { rc_key : string; rc_id : string; rc_data : option data }.

Inductive effect_op :=
| OpBegin (env : eff_env) (e : Effect)
| OpFinish (id : string) (d : data).

Definition spec_begin (env : eff_env) (e : Effect) (cs : list recorded) : list recorded :=
  if en_replaying env then cs
  else if String.eqb (ef_IdempotencyKey e) EmptyString
          || negb (existsb (fun c => String.eqb (rc_key c) (ef_IdempotencyKey e)) cs)
  then mkRecorded (ef_IdempotencyKey e) (rs_ID (new_result env e)) None :: cs
  else cs.

Definition record (id : string) (d : data) (c : recorded) : recorded :=
  if String.eqb (rc_id c) id then mkRecorded (rc_key c) (rc_id c) (Some d) else c.

Definition spec_op (o : effect_op) (cs : list recorded) : list recorded :=
  match o with
  | OpBegin env e => spec_begin env e cs
  | OpFinish id d => map (record id d) cs
  end.

Definition do_op (o : effect_op) (s : memorySystem) : memorySystem :=
  match o with
  | OpBegin env e => fst (Execute env e s)
  | OpFinish id d => Complete id d s
  end.

Definition run_ops (ops : list effect_op) : memorySystem := foldl (fun s o => do_op o s) NewMemorySystem ops.
Definition calls_of (ops : list effect_op) : list recorded := foldl (fun cs o => spec_op o cs) [] ops.

(** The keys of calls that have one. *)
Definition keys_of (cs : list recorded) : list string := filter (fun k => k <> EmptyString) (map rc_key cs).

Record implements (s : memorySystem) (cs : list recorded) : Prop := {
  impl_once : NoDup (keys_of cs);
  impl_key : forall k, k <> EmptyString ->
    (exists r, my_byKey s !! k = Some r) <-> k ∈ map rc_key cs;
  impl_data : forall c, c ∈ cs -> rc_key c <> EmptyString ->
    exists r, my_byKey s !! rc_key c = Some r /\ rs_ID r = rc_id c /\ rs_Data r = rc_data c;
}.

Lemma existsb_key k cs : existsb (fun c => String.eqb (rc_key c) k) cs = true <-> k ∈ map rc_key cs.
Proof.
  rewrite existsb_exists, list_elem_of_fmap. split.
  - intros (c & Hc & He). apply String.eqb_eq in He. exists c. split; [done|]. by apply list_elem_of_In.
  - intros (c & -> & Hc). exists c. split; [by apply list_elem_of_In|]. by apply String.eqb_eq.
Qed.

Lemma keys_of_cons c cs : keys_of (c :: cs) = if decide (rc_key c <> EmptyString) then rc_key c :: keys_of cs else keys_of cs.
Proof. unfold keys_of. cbn [map]. rewrite filter_cons. by repeat case_decide. Qed.

Lemma map_key_record id d cs : map rc_key (map (record id d) cs) = map rc_key cs.
Proof. rewrite map_map. apply map_ext. intros c. unfold record. by case_match. Qed.

Lemma by_key_None k s cs : implements s cs -> k <> EmptyString ->
  by_key k s = None <-> existsb (fun c => String.eqb (rc_key c) k) cs = false.
Proof.
  intros H Hk. unfold by_key. apply String.eqb_neq in Hk as Hb. rewrite Hb.
  rewrite <- not_true_iff_false, existsb_key, <- (impl_key s cs H k Hk), eq_None_not_Some. done.
Qed.

Lemma do_op_implements o s cs : implements s cs -> implements (do_op o s) (spec_op o cs).
Proof.
  intros H. destruct o as [env e|id d]; cbn [do_op spec_op].
  - unfold Execute, spec_begin. destruct (en_replaying env); [done|]. unfold execute_check.
    destruct (String.eqb_spec (ef_IdempotencyKey e) EmptyString) as [He|He].
    + unfold by_key. rewrite He. cbn [String.eqb orb fmap option_fmap option_map fst]. split; [|cbn; rewrite ?He..].
      * rewrite keys_of_cons. cbn. rewrite decide_False by naive_solver. apply H.
      * intros k Hk. rewrite (impl_key s cs H k Hk), elem_of_cons. naive_solver.
      * intros c [->|Hc]%elem_of_cons Hk; [done|]. by apply (impl_data s cs H).
    + destruct (by_key (ef_IdempotencyKey e) s) as [r|] eqn:Hr; cbn.
      * destruct (existsb _ cs) eqn:Hx; [done|]. apply (by_key_None _ s cs H He) in Hx. congruence.
      * apply (by_key_None _ s cs H He) in Hr as Hx. rewrite Hx. cbn [negb orb].
        assert (Hno : ef_IdempotencyKey e ∉ map rc_key cs) by (rewrite <- existsb_key; congruence).
        split; [|cbn; rewrite ?(proj2 (String.eqb_neq _ _) He)..].
        -- rewrite keys_of_cons. cbn. rewrite decide_True by done. constructor; [|apply H].
           intros [_ Hin]%list_elem_of_filter. done.
        -- intros k Hk. rewrite elem_of_cons. destruct (decide (k = ef_IdempotencyKey e)) as [->|Hne].
           { rewrite lookup_insert_eq. split; [by left|by eexists]. }
           rewrite lookup_insert_ne by done. rewrite (impl_key s cs H k Hk). naive_solver.
        -- intros c [->|Hc]%elem_of_cons Hk; [cbn; rewrite lookup_insert_eq; by eexists|].
           rewrite lookup_insert_ne; [by apply (impl_data s cs H)|]. intros Heq. apply Hno. rewrite Heq.
           by apply list_elem_of_fmap_2.
  - split; cbn.
    + unfold keys_of. rewrite map_key_record. apply H.
    + intros k Hk. rewrite map_key_record, <- (impl_key s cs H k Hk), lookup_fmap.
      destruct (my_byKey s !! k); cbn; naive_solver.
    + intros c Hc Hk. apply list_elem_of_fmap in Hc as (c0 & -> & Hc).
      assert (Hk0 : rc_key (record id d c0) = rc_key c0) by (unfold record; by case_match).
      rewrite Hk0 in *. destruct (impl_data s cs H c0 Hc Hk) as (r & Hr & Hid & Hd).
      rewrite lookup_fmap, Hr. cbn. eexists. split; [done|]. unfold record. rewrite Hid. by case_match.
Qed.

Lemma run_ops_implements ops : implements (run_ops ops) (calls_of ops).
Proof.
  unfold run_ops, calls_of. assert (H0 : implements NewMemorySystem []).
  { split; cbn; [constructor| |by intros c ?%not_elem_of_nil].
    intros k _. rewrite lookup_empty. split; [by intros [? ?]|by intros ?%not_elem_of_nil]. }
  revert H0. generalize NewMemorySystem ([] : list recorded). induction ops as [|o ops IH]; intros s cs H; [done|].
  cbn. by apply IH, do_op_implements.
Qed.

(** What a repeated call gets: the type assertion on what was recorded. *)
Definition answer_of {R} (cast : data -> option R) (zero : R) (d : option data) : outcome (result eff_error R) :=
  match d with
  | None => Ret (Ok zero)
  | Some d => match cast d with Some x => Ret (Ok x) | None => Panic "interface conversion" end
  end.

(** C17: an effect with a key runs once: however calls through a system
    interleave, each executed as a whole and its work finished, failed or
    never finished, the keys of the calls that did their work are distinct,
    and any further call with such a key, in a replay with an id of its own
    too, changes nothing, does not run, and returns what that call recorded. *)
Theorem effects_run_once ops :
  NoDup (keys_of (calls_of ops)) /\
  forall c, c ∈ calls_of ops -> rc_key c <> EmptyString ->
  forall R env e cast (zero : R) wrap caller,
    ef_IdempotencyKey e = rc_key c -> (en_replaying env = true -> Replay (ef_ID e) (run_ops ops) = None) ->
    execute_with env e cast zero wrap caller (run_ops ops) = (run_ops ops, answer_of cast zero (rc_data c), false).
Proof.
  pose proof (run_ops_implements ops) as H. split; [apply H|].
  intros c Hc Hk R env e cast zero wrap caller He Hrep.
  destruct (impl_data _ _ H c Hc Hk) as (r & Hr & _ & Hd). apply String.eqb_neq in Hk.
  assert (Hby : by_key (ef_IdempotencyKey e) (run_ops ops) = Some r) by (unfold by_key; by rewrite He, Hk).
  unfold execute_with, Execute, execute_replaying, execute_check. rewrite Hby, <- Hd. destruct (en_replaying env).
  - rewrite Hrep by done. by destruct (String.eqb (ef_ID e) EmptyString).
  - done.
Qed.

(** ** Concrete calls *)

Definition at_tick (n : Z) : time := Time n 0.

Definition env_of (replaying : bool) (uuid : string) (n : Z) : eff_env := mkEffEnv replaying uuid "fresh" (at_tick n) (at_tick n).

Definition lookup_args : values := Some [("city", VJson (JStr "Oslo"))].
Definition sunny : values := Some [("sky", VJson (JStr "clear"))].

Definition weather_ops : list effect_op :=
  [OpBegin (env_of false "u1" 1) (ToolEffect "u1" "weather" lookup_args);
   OpBegin (env_of false "u2" 2) (ToolEffect "u2" "weather" lookup_args);
   OpFinish "u1" (DTool sunny)].

Definition weather_call : recorded := mkRecorded (computeToolIdempotencyKey "weather" lookup_args) "u1" (Some (DTool sunny)).

Lemma weather_recorded : weather_call ∈ calls_of weather_ops.
Proof. assert (H : calls_of weather_ops = [weather_call]) by (vm_compute; reflexivity). rewrite H. by left. Qed.

(** The tool is not called again, whatever it would answer now. *)
Lemma effects_run_once_witness :
  rc_key weather_call <> EmptyString /\
  ExecuteTool (env_of true "u3" 9) "weather" lookup_args (fun _ _ => Err "down") (run_ops weather_ops)
  = (run_ops weather_ops, Ret (Ok sunny), false).
Proof.
  assert (Hk : rc_key weather_call <> EmptyString) by done. split; [exact Hk|].
  pose proof (proj2 (effects_run_once weather_ops) weather_call weather_recorded Hk values (env_of true "u3" 9)
    (ToolEffect "u3" "weather" lookup_args) (fun d => match d with DTool x => Some x | _ => None end) None DTool
    (Err "down") eq_refl) as H.
  unfold ExecuteTool, execute_tool. apply H. intros _. vm_compute. reflexivity.
Defined.

(** ** Where the library does not do what it is for *)

(** A call that failed is recorded before it runs: repeating it answers the
    empty result without an error and without running it. *)
Lemma failed_call_answers_empty :
  let '(s, r, ran1) := ExecuteTool (env_of false "u1" 1) "weather" lookup_args (fun _ _ => Err "timeout") NewMemorySystem in
  let '(_, r', ran2) := ExecuteTool (env_of false "u2" 2) "weather" lookup_args (fun _ _ => Ok sunny) s in
  (r, ran1) = (Ret (Err (CallError "timeout")), true) /\ (r', ran2) = (Ret (Ok None), false).
Proof. vm_compute. done. Qed.

(** The two halves of an execution can interleave: two calls with one key both
    find nothing and both do their work, and the result of the first is not
    what a third is answered with. *)
Lemma racing_effects_run_twice :
  let e1 := ToolEffect "u1" "weather" lookup_args in
  let e2 := ToolEffect "u2" "weather" lookup_args in
  let s1 := execute_store (env_of false "u1" 1) e1 NewMemorySystem in
  let s2 := Complete "u1" (DTool sunny) (execute_store (env_of false "u2" 1) e2 s1) in
  execute_check (env_of false "u1" 1) e1 NewMemorySystem = None /\
  execute_check (env_of false "u2" 1) e2 NewMemorySystem = None /\
  snd (fst (ExecuteTool (env_of false "u3" 2) "weather" lookup_args (fun _ _ => Err "timeout") s2)) = Ret (Ok None).
Proof. vm_compute. done. Qed.

(** Clock readings cannot be replayed: a replay asks under a new id. *)
Lemma replayed_time_is_refused : forall s t t' env env',
  en_replaying env = false -> en_replaying env' = true -> en_uuid env' <> en_uuid env -> en_uuid env' <> EmptyString ->
  en_uuid env <> EmptyString -> my_byID s !! en_uuid env' = None ->
  snd (ExecuteTime env' t' (fst (ExecuteTime env t s))) = Ret (Err ErrReplayingForbidden).
Proof.
  intros s t t' env env' He He' Hne Hn' Hn Hs. apply String.eqb_neq in Hn, Hn'.
  unfold ExecuteTime, local_effect, Execute. rewrite He, He'. cbn.
  unfold execute_replaying, Replay, execute_store, new_result. cbn. rewrite Hn, Hn'. cbn.
  by rewrite lookup_insert_ne, Hs by done.
Qed.

(** Random values are not recorded: a replay returns a new one. *)
Lemma replayed_random_is_new :
  let '(s, r) := ExecuteRandomInt63 (env_of false "u1" 1) "dice" 5 NewMemorySystem in
  let '(_, r') := ExecuteRandomInt63 (env_of true "u2" 2) "dice" 7 s in
  r = Ret (Ok 5) /\ r' = Ret (Ok 7).
Proof. vm_compute. done. Qed.

(** Arguments that encoding/json refuses all have one key per tool, so a call
    gets the result of another. *)
Lemma unprintable_arguments_share_a_result : forall a b,
  computeToolIdempotencyKey "save" (Some [("to", VOpaque a)]) = computeToolIdempotencyKey "save" (Some [("to", VOpaque b)]).
Proof. reflexivity. Qed.

(** What runs through the effects library: the adapters of
    internal/tool/builtin/effects_wrapper.go, the model clients of
    internal/model/llm/effect_adapter.go, and the ledger of
    internal/agent/domain/tool_ledger.go, which computes keys of its own.

    Tools, models and HTTP are functions handed to the adapters.  Effect
    systems are shared: an adapter names its system by an index. *)

(** ** Tools (effects_wrapper.go) *)

Definition tool_caller : Type := string -> values -> result string values.

Record EffectsToolAdapter := mkToolAdapter { ta_Name : string; ta_effects : nat; ta_caller : tool_caller }.

(** [input[name].(string)], empty when it is none. *)
Definition string_arg (name : string) (input : values) : string :=
  match input ≫= lookup_field name with Some (VJson (JStr s)) => s | _ => EmptyString end.

Definition eff_error_text (e : eff_error) : string :=
  match e with
  | ErrReplayingForbidden => "effects: real execution forbidden during replay"
  | ErrNoRecorder => "effects: no event recorder configured"
  | CallError msg => msg
  end.

(** An adapter's result carries the error as text and never fails. *)
Definition adapter_result {R : Type} (content : R -> string) (r : ran R) : ran ToolResult :=
  let '(s, o, b) := r in
  (s, run r <- o ;;
      Ret (Ok match r with
              | Ok x => mkToolResult (content x) EmptyString
              | Err e => mkToolResult EmptyString (eff_error_text e)
              end), b).

Definition tool_adapter_Execute (env : eff_env) (a : EffectsToolAdapter) (input : values) (s : memorySystem) : ran ToolResult :=
  adapter_result (string_arg "content") (ExecuteTool env (ta_Name a) input (ta_caller a) s).

Definition header_strings (v : option value) : gmap string string :=
  match v with
  | Some (VJson (JObj l)) =>
      list_to_map (omap (fun kv => match snd kv with JStr s => Some (fst kv, s) | _ => None end) l)
  | _ => ∅
  end.

Definition http_request (input : values) : HTTPRequest :=
  let body := string_arg "body" input in
  mkHTTPRequest (string_arg "method" input) (string_arg "url" input) (Some (header_strings (input ≫= lookup_field "headers")))
    (if String.eqb body EmptyString then None else Some body) None.

Definition http_text (r : HTTPResponse) : string :=
  obj_text [("body", quote (ho_Body r)); ("status_code", itoa (ho_StatusCode r))].

Definition http_adapter_Execute (env : eff_env) (caller : HTTPRequest -> result string HTTPResponse) (input : values)
  (s : memorySystem) : ran ToolResult :=
  if String.eqb (string_arg "method" input) EmptyString || String.eqb (string_arg "url" input) EmptyString
  then (s, Ret (Ok (mkToolResult EmptyString "method and url are required")), false)
  else adapter_result http_text (ExecuteHTTP env (http_request input) caller s).

Definition user_message (prompt : string) : LLMMessage := mkLLMMessage "user" prompt.
Definition no_params : LLMParams := mkLLMParams None None None None None [].

Definition llm_adapter_Execute (env : eff_env) (caller : LLMRequest -> result string LLMResponse) (input : values)
  (s : memorySystem) : ran ToolResult :=
  let prompt := string_arg "prompt" input in
  if String.eqb prompt EmptyString
  then (s, Ret (Ok (mkToolResult EmptyString "prompt is required")), false)
  else adapter_result lo_Content
         (ExecuteLLM env (mkLLMRequest "default" (Some [user_message prompt]) no_params EmptyString) caller s).

(** ** The registry *)

Record EffectsToolRegistry := mkEffRegistry { er_tools : gmap string EffectsToolAdapter; er_effects : nat }.

Definition NewEffectsToolRegistry (sys : nat) : EffectsToolRegistry := mkEffRegistry ∅ sys.

Definition eff_Register (name : string) (caller : tool_caller) (r : EffectsToolRegistry) : EffectsToolRegistry :=
  mkEffRegistry (<[name := mkToolAdapter name (er_effects r) caller]> (er_tools r)) (er_effects r).

Definition RegisterWithCaller := eff_Register.

Definition eff_Get (name : string) (r : EffectsToolRegistry) : option EffectsToolAdapter := er_tools r !! name.

Definition eff_List (order : list string) (r : EffectsToolRegistry) : list EffectsToolAdapter := omap (fun n => er_tools r !! n) order.

Definition SetEffectsSystem (sys : nat) (r : EffectsToolRegistry) : EffectsToolRegistry :=
  mkEffRegistry ((fun a => mkToolAdapter (ta_Name a) sys (ta_caller a)) <$> er_tools r) sys.

(** Every tool is registered under its name and uses the registry's system. *)
Definition one_system (r : EffectsToolRegistry) : Prop :=
  map_Forall (fun name a => ta_Name a = name /\ ta_effects a = er_effects r) (er_tools r).

Lemma registry_has_one_system : forall (ops : list (string * tool_caller + nat)) sys,
  one_system (foldl (fun r o => match o with inl (n, c) => eff_Register n c r | inr sys => SetEffectsSystem sys r end)
    (NewEffectsToolRegistry sys) ops).
Proof.
  intros ops sys. assert (H : one_system (NewEffectsToolRegistry sys)) by (intros n a; cbn; by rewrite lookup_empty).
  revert H. generalize (NewEffectsToolRegistry sys). induction ops as [|[[n c]|sys'] ops IH]; intros r H; [done|..].
  - apply IH. intros n' a Ha. cbn in Ha. destruct (decide (n' = n)) as [->|Hne].
    + rewrite lookup_insert_eq in Ha. by injection Ha as <-.
    + rewrite lookup_insert_ne in Ha by done. by apply H.
  - apply IH. intros n a Ha. cbn in Ha. rewrite lookup_fmap in Ha. destruct (er_tools r !! n) as [b|] eqn:Hb; [|done].
    injection Ha as <-. cbn. split; [|done]. by apply (H n b).
Qed.

(** ** Model clients (effect_adapter.go) *)

Record GenerateOptions := mkGenerateOptions {
  go_Temperature : float64; go_MaxTokens : Z; go_TopP : float64; go_FrequencyPenalty : float64;
  go_PresencePenalty : float64; go_Stop : list string }.

Definition EffectGenerateOptions (o : GenerateOptions) : LLMParams :=
  mkLLMParams (Some (go_Temperature o)) (Some (go_MaxTokens o)) (Some (go_TopP o)) (Some (go_FrequencyPenalty o))
    (Some (go_PresencePenalty o)) (go_Stop o).

Definition zero_float : float64 := mkFloat false 0 min_exp.

Definition legacy_options (p : LLMParams) : GenerateOptions :=
  mkGenerateOptions (default zero_float (lp_Temperature p)) (default 0 (lp_MaxTokens p)) (default zero_float (lp_TopP p))
    (default zero_float (lp_FrequencyPenalty p)) (default zero_float (lp_PresencePenalty p)) (lp_StopSequences p).

Definition llm_request (model : string) (messages : list LLMMessage) (o : GenerateOptions) : LLMRequest :=
  mkLLMRequest model (Some messages) (EffectGenerateOptions o) EmptyString.

(** A client: its model and what Chat answers. *)
Record Client := mkClient { ct_Model : string; ct_Chat : list LLMMessage -> GenerateOptions -> result string string }.

Definition chat_caller (c : Client) (r : LLMRequest) : result string LLMResponse :=
  try content <- ct_Chat c (default [] (lr_Messages r)) (legacy_options (lr_Params r)) ;;
  Ok (mkLLMResponse content "stop" (mkLLMUsage 0 0 0) (lr_Model r)).

Definition content_of (r : ran LLMResponse) : ran string :=
  let '(s, o, b) := r in (s, run r <- o ;; Ret (try x <- r ;; Ok (lo_Content x)), b).

Definition adapter_Chat (env : eff_env) (c : Client) (messages : list LLMMessage) (o : GenerateOptions) (s : memorySystem)
  : ran string := content_of (ExecuteLLM env (llm_request (ct_Model c) messages o) (chat_caller c) s).

(** There is always the one message, so the branch for none is never taken. *)
Definition adapter_Generate (env : eff_env) (c : Client) (prompt : string) (o : GenerateOptions) (s : memorySystem)
  : ran string := content_of (ExecuteLLM env (llm_request (ct_Model c) [user_message prompt] o) (chat_caller c) s).

Record EffectClient := mkEffectClient { ec_generator : LLMRequest -> result string LLMResponse; ec_model : string; ec_provider : string }.

Definition client_Chat (env : eff_env) (c : EffectClient) (messages : list LLMMessage) (o : GenerateOptions) (s : memorySystem)
  : ran string := content_of (ExecuteLLM env (llm_request (ec_model c) messages o) (ec_generator c) s).

Definition client_Generate (env : eff_env) (c : EffectClient) (prompt : string) (o : GenerateOptions) (s : memorySystem)
  : ran string := content_of (ExecuteLLM env (llm_request (ec_model c) [user_message prompt] o) (ec_generator c) s).

Definition client_SetModel (model : string) (c : EffectClient) : EffectClient := mkEffectClient (ec_generator c) model (ec_provider c).

(** Options survive the way through a request and back. *)
Lemma legacy_options_roundtrip : forall o, legacy_options (EffectGenerateOptions o) = o.
Proof. by intros []. Qed.

(** A model is asked with exactly the messages and options of the caller, or
    not at all. *)
Lemma adapter_asks_what_it_was_asked : forall env c messages o s s' r,
  adapter_Chat env c messages o s = (s', r, true) ->
  r = Ret match ct_Chat c messages o with Ok x => Ok x | Err e => Err (CallError e) end.
Proof.
  intros env c messages o s s' r H. unfold adapter_Chat, content_of, ExecuteLLM, execute_with, chat_caller in H.
  cbn [lr_Messages lr_Params llm_request default] in H. rewrite legacy_options_roundtrip in H.
  destruct (Execute _ _ s) as [s1 [x|e]]; [|done]. destruct (rs_Cached x); [by destruct (rs_Data x) as [[]|]|].
  cbn in H. revert H. destruct (ct_Chat c messages o); cbn; intros H; by inversion H.
Qed.

(** ** The ledger of internal/agent/domain (tool_ledger.go)

    Its two indexes share the recorded calls: a call is a number, its place in
    the store. *)

Inductive ToolInvocationStatus := InvPending | InvRunning | InvCompleted | InvFailed.

Record ToolInvocation := mkInvocation {
  ti_ID : string; ti_JobID : string; ti_IdempotencyKey : string; ti_ToolName : string; ti_Arguments : values;
  ti_Result : values; ti_Error : string; ti_Status : ToolInvocationStatus; ti_StartedAt : time;
  ti_FinishedAt : option time; ti_RetryCount : Z }.

(** Other keys than those of pkg/effects, see [ledger_keys_differ]. *)
Definition computeIdempotencyKey (toolName : string) (args : values) : string :=
  match marshal_values args with
  | Some text => "tool:" +:+ hex_sha256 (obj_text [("args", text); ("name", quote toolName)])
  | None => "tool:" +:+ toolName
  end.

Definition NewToolInvocation (jobID toolName : string) (args : values) : ToolInvocation :=
  mkInvocation EmptyString jobID (computeIdempotencyKey toolName args) toolName args None EmptyString InvPending zero_time None 0.

Record ToolLedgerInMemory := mkToolLedger {
  tl_heap : list ToolInvocation; tl_byKey : gmap string nat; tl_byJobID : gmap string (list nat) }.

Definition NewToolLedgerInMemory (heap : list ToolInvocation) : ToolLedgerInMemory := mkToolLedger heap ∅ ∅.

Definition record_started (now : time) (i : ToolInvocation) : ToolInvocation :=
  mkInvocation (ti_ID i) (ti_JobID i) (ti_IdempotencyKey i) (ti_ToolName i) (ti_Arguments i) (ti_Result i) (ti_Error i)
    InvPending now (ti_FinishedAt i) (ti_RetryCount i).

(** [p] is the pointer given. *)
Definition tl_Record (now : time) (p : nat) (l : ToolLedgerInMemory) : ToolLedgerInMemory :=
  match tl_heap l !! p with
  | None => l
  | Some i =>
      mkToolLedger (<[p := record_started now i]> (tl_heap l)) (<[ti_IdempotencyKey i := p]> (tl_byKey l))
        (<[ti_JobID i := default [] (tl_byJobID l !! ti_JobID i) ++ [p]]> (tl_byJobID l))
  end.

Definition finish_invocation (now : time) (res : result string values) (i : ToolInvocation) : ToolInvocation :=
  match res with
  | Ok r => mkInvocation (ti_ID i) (ti_JobID i) (ti_IdempotencyKey i) (ti_ToolName i) (ti_Arguments i) r (ti_Error i)
              InvCompleted (ti_StartedAt i) (Some now) (ti_RetryCount i)
  | Err e => mkInvocation (ti_ID i) (ti_JobID i) (ti_IdempotencyKey i) (ti_ToolName i) (ti_Arguments i) (ti_Result i) e
               InvFailed (ti_StartedAt i) (Some now) (ti_RetryCount i)
  end.

Definition tl_Complete (now : time) (key : string) (res : result string values) (l : ToolLedgerInMemory) : ToolLedgerInMemory :=
  match tl_byKey l !! key with
  | None => l
  | Some p => mkToolLedger (alter (finish_invocation now res) p (tl_heap l)) (tl_byKey l) (tl_byJobID l)
  end.

Definition tl_Lookup (key : string) (l : ToolLedgerInMemory) : option ToolInvocation := tl_byKey l !! key ≫= fun p => tl_heap l !! p.

Definition tl_Verify (key : string) (l : ToolLedgerInMemory) : bool * option ToolInvocation :=
  match tl_Lookup key l with
  | None => (false, None)
  | Some i =>
      match ti_Status i, ti_Result i with
      | InvCompleted, _ | InvFailed, _ | _, Some _ => (true, Some i)
      | _, None => (false, None)
      end
  end.

Definition tl_ListByJob (jobID : string) (l : ToolLedgerInMemory) : list ToolInvocation :=
  omap (fun p => tl_heap l !! p) (default [] (tl_byJobID l !! jobID)).

(** A finished call is verified by its key and listed under its job with the
    same outcome. *)
Lemma finished_call_is_verified : forall t t' p i res l,
  tl_heap l !! p = Some i ->
  let l' := tl_Complete t' (ti_IdempotencyKey i) res (tl_Record t p l) in
  exists f, tl_Verify (ti_IdempotencyKey i) l' = (true, Some f) /\ f ∈ tl_ListByJob (ti_JobID i) l' /\
    f = finish_invocation t' res (record_started t i).
Proof.
  intros t t' p i res l Hp l'. assert (Hlt : (p < length (tl_heap l))%nat) by (by apply lookup_lt_Some in Hp).
  assert (Hl : l' = mkToolLedger (alter (finish_invocation t' res) p (<[p := record_started t i]> (tl_heap l)))
    (<[ti_IdempotencyKey i := p]> (tl_byKey l))
    (<[ti_JobID i := default [] (tl_byJobID l !! ti_JobID i) ++ [p]]> (tl_byJobID l))).
  { unfold l', tl_Complete, tl_Record. rewrite Hp. cbn. by rewrite lookup_insert_eq. }
  assert (Hf : tl_heap l' !! p = Some (finish_invocation t' res (record_started t i))).
  { rewrite Hl. cbn. by rewrite list_lookup_alter_eq, list_lookup_insert_eq. }
  exists (finish_invocation t' res (record_started t i)). split_and!; [| |done].
  - unfold tl_Verify, tl_Lookup. rewrite Hl. cbn [tl_byKey]. rewrite lookup_insert_eq. cbn [mbind option_bind].
    rewrite Hl in Hf. rewrite Hf. by destruct res.
  - unfold tl_ListByJob. apply list_elem_of_omap. exists p. split; [|done].
    rewrite Hl. cbn. rewrite lookup_insert_eq. cbn. apply elem_of_app. right. by left.
Qed.

(** The key is said to be computed as in pkg/effects; it is another. *)
Lemma ledger_keys_differ :
  computeIdempotencyKey "weather" lookup_args <> computeToolIdempotencyKey "weather" lookup_args.
Proof. vm_compute. done. Qed.

(** Recording a call again forgets that its key was executed. *)
Lemma recording_again_forgets :
  let i := NewToolInvocation "j" "weather" lookup_args in
  let key := ti_IdempotencyKey i in
  let l := tl_Complete (at_tick 2) key (Ok sunny) (tl_Record (at_tick 1) 0 (NewToolLedgerInMemory [i; i])) in
  fst (tl_Verify key l) = true /\ fst (tl_Verify key (tl_Record (at_tick 3) 1 l)) = false.
Proof. vm_compute. done. Qed.
