(* ===== verification/JobSubmit.v ===== *)
(** internal/api/http/handler.go, AgentMessage: a message to an agent becomes a
    pending job with its stream and its plan.

    The stores are those of the job control API, behind the same interfaces;
    the planner's answer and the headers belong to the request.  What the
    handler looks up before it writes ([submit_check]) and what it writes
    ([submit_commit]) are separate: other requests can come in between.
    Payloads made here can always be printed, so the branches for a failing
    [Marshal] are not reachable.

    Second half: the theorems. *)

From stdpp Require Import relations.
From S2P Require Import Prelude Sha256 GoTime Json Events MemStore JobFsm JobQueue TaskGraph JobStore Messaging AccessControl JobApi RunStore AgentState AgentScheduler.

(** ** The call chain *)

(** [hasCycle]: the walk up the chain, at most [depth] jobs. *)
Fixpoint chain_walk (depth : nat) (get : string -> option Job) (agentID tenantID : string) (visited : gset string)
  (current : string) : bool :=
  match depth with
  | O => false
  | S n =>
      if String.eqb current EmptyString then false
      else if bool_decide (current ∈ visited) then true
      else match get current with
           | None => false
           | Some j =>
               if negb (String.eqb (job_TenantID j) tenantID) then false
               else if String.eqb (job_AgentID j) agentID then true
               else chain_walk n get agentID tenantID ({[current]} ∪ visited) (job_ParentJobID j)
           end
  end.

Definition maxDepth : nat := 100.

Definition hasCycle (get : string -> option Job) (agentID parentJobID tenantID : string) : bool :=
  chain_walk maxDepth get agentID tenantID ∅ parentJobID.

(** ** Requests *)

(** The headers are trimmed of blanks. *)
Record submit_request := mkSubmit {
  sq_agent : string; sq_body : string * bool; sq_idempotency : string; sq_parentJob : string; sq_parentAgent : string;
  sq_traceparent : string; sq_plan : option (result string (option TaskGraph)) }.

(** The clock, uuid and disk of each call into a store, the clock of the
    session and of the run store, and the order a lookup visits jobs in. *)
Record submit_env := mkSubmitEnv { sv_calls : Z -> call_env; sv_now : time; sv_run : run_env; sv_order : list string }.

Section submit.
Context {R S A : Type} `{!JobRepo R} `{!JobStore S} `{!AgentStateStore A}.

Record submitter := mkSubmitter {
  sb_agents : option Manager; sb_instances : option instanceStoreMem; sb_jobs : option R; sb_events : option S;
  sb_state : option A; sb_bus : option StoreMem; sb_runs : option memoryRunStore; sb_scheduler : bool }.

Definition submission (job : string) (run_fields : list (string * json)) : json :=
  JObj ([("legacy_facade", JBool true); ("canonical_api", JStr "/api/runs"); ("job_id", JStr job)] ++ run_fields).

Definition submitted (agentID job : string) (run_fields : list (string * json)) : Response :=
  mkResponse 202 (JObj [("status", JStr "accepted"); ("agent_id", JStr agentID); ("job_id", JStr job);
                        ("runtime_submission", submission job run_fields)]).

Definition run_status (s : string) : list (string * json) := [("run_status", JStr s)].

(** What the checks decide. *)
Inductive checked := Refused (r : Response) | Existing (j : Job) | Fresh (a : Agent).

(** A missing instance is created on the way. *)
Definition touch_instance (now : time) (id : string) (s : instanceStoreMem) : instanceStoreMem :=
  match instance_Get id s with
  | Some _ => s
  | None => instance_Create now (mkInstance id EmptyString id "idle" EmptyString EmptyString EmptyString zero_time zero_time None) s
  end.

Definition submit_check (env : submit_env) (tenant : string) (q : submit_request) (h : submitter) : submitter * checked :=
  match sb_agents h with
  | None => (h, Refused (refuse 503 "Agent Runtime not configured"))
  | Some m =>
      if snd (sq_body q) then (h, Refused (refuse 400 "请求参数error"))
      else match manager_Get (sq_agent q) m with
           | None => (h, Refused (refuse 404 "Agent not found"))
           | Some a =>
               let h := mkSubmitter (sb_agents h) (touch_instance (sv_now env) (sq_agent q) <$> sb_instances h) (sb_jobs h)
                          (sb_events h) (sb_state h) (sb_bus h) (sb_runs h) (sb_scheduler h) in
               (h, match sb_jobs h ≫= fun r =>
                           GetByAgentTenantAndIdempotencyKey (sv_order env) (sq_agent q) tenant (sq_idempotency q) (repo_mem r) with
                   | Some j => Existing j
                   | None => Fresh a
                   end)
           end
  end.

Definition existing_answer (q : submit_request) (j : Job) (h : submitter) : Response :=
  submitted (sq_agent q) (job_ID j) (run_status match sb_runs h with Some _ => "best_effort" | None => "disabled" end).

(** The parent, root and parent agent the new job gets. *)
Definition chain_of (get : string -> option Job) (tenant : string) (q : submit_request) : string * string * string :=
  let none := (EmptyString, EmptyString, EmptyString) in
  if String.eqb (sq_parentJob q) EmptyString then none
  else match get (sq_parentJob q) with
       | None => none
       | Some p =>
           if negb (String.eqb (job_TenantID p) tenant) then none
           else if hasCycle get (sq_agent q) (sq_parentJob q) tenant then none
           else (sq_parentJob q, or_else (job_RootJobID p) (sq_parentJob q), sq_parentAgent q)
       end.

(** [strings.Split(traceparent, "-")] *)
Definition parent_span (traceparent : string) : string :=
  match split_on "-"%char traceparent with
  | _ :: _ :: span :: _ :: _ => span
  | _ => EmptyString
  end.

Definition submit_job (get : string -> option Job) (tenant session : string) (q : submit_request) : Job :=
  let '(parent, root, parentAgent) := chain_of get tenant q in
  mkJob EmptyString (sq_agent q) tenant (fst (sq_body q)) StatusPending zero_time zero_time EmptyString 0 session zero_time
    (sq_idempotency q) 0 EmptyString [] EmptyString EmptyString parent root parentAgent (parent_span (sq_traceparent q)) None.

(** *** The plan *)

Definition plan_generated (jobID goal graph : string) : JobEvent :=
  mkJobEvent EmptyString jobID PlanGenerated
    (obj_text [("goal", quote goal); ("plan_hash", quote (hex_sha256 graph)); ("task_graph", graph)])
    zero_time EmptyString EmptyString.

Definition graph_summary (graph : string) : string :=
  if (512 <? Z.of_nat (String.length graph)) then str_take 512 graph +:+ "..." else graph.

Definition decision_snapshot (jobID goal graph : string) : JobEvent :=
  mkJobEvent EmptyString jobID DecisionSnapshot
    (obj_text [("goal", quote goal); ("plan_hash", quote (hex_sha256 graph)); ("task_graph_summary", quote (graph_summary graph))])
    zero_time EmptyString EmptyString.

(** The events of a new job: its creation, and with a planner its plan.  An
    error is the answer the request fails with. *)
Definition write_plan (env : submit_env) (jobID goal : string) (ver : Z) (plan : result string (option TaskGraph)) (s : S)
  : outcome (S * option Response) :=
  match plan with
  | Err _ => Ret (s, Some (refuse 500 "规划failed，请重试"))
  | Ok None => Ret (s, None)
  | Ok (Some g) =>
      run p <- js_Append (sv_calls env 3) EmptyString jobID ver (plan_generated jobID goal (Marshal g)) s ;;
      match snd p with
      | Err _ => Ret (fst p, Some (refuse 500 "写入计划事件failed"))
      | Ok verPlan =>
          run p <- js_Append (sv_calls env 4) EmptyString jobID verPlan (decision_snapshot jobID goal (Marshal g)) (fst p) ;;
          Ret (fst p, None)
      end
  end.

Definition write_events (env : submit_env) (q : submit_request) (jobID : string) (s : S) : outcome (S * option Response) :=
  let goal := fst (sq_body q) in
  run p <- js_Append (sv_calls env 2) EmptyString jobID 0 (job_created (sq_agent q) goal jobID) s ;;
  match snd p, sq_plan q with
  | Ok ver, Some plan => write_plan env jobID goal ver plan (fst p)
  | _, _ => Ret (fst p, None)
  end.

(** *** The facade run *)

Definition facade_run (q : submit_request) (jobID : string) : Run :=
  mkRun EmptyString "agent_message" EmptyString
    (Some (list_to_map [("agent_id", JStr (sq_agent q)); ("goal", JStr (fst (sq_body q))); ("job_id", JStr jobID);
                        ("source", JStr "legacy-agents-message")]))
    None (mkBudget 0 0 0) (sq_idempotency q) zero_time zero_time.

(** The run store and the fields of the answer. *)
Definition createFacadeRunForAgentMessage (env : submit_env) (q : submit_request) (jobID : string) (o : option memoryRunStore)
  : option memoryRunStore * list (string * json) :=
  match o with
  | None => (None, run_status "best_effort")
  | Some s =>
      let '(s, r) := CreateRun (sv_run env) (facade_run q jobID) s in
      (Some s, match r with
               | Ok r => ("run_id", JStr (run_ID r)) :: run_status "created"
               | Err ErrRunConflict => run_status "best_effort"
               | Err _ => []
               end)
  end.

(** *** The request *)

Definition set_session (x : Session) (a : Agent) : Agent :=
  mkAgent (ag_ID a) (ag_Name a) (ag_TenantID a) (ag_CreatedAt a) (Some x) (ag_Status a).

(** The message in the session, which is saved; without a job store it goes to
    the bus as well. *)
Definition take_message (env : submit_env) (q : submit_request) (a : Agent) (x : Session) (h : submitter) : submitter :=
  let x := AddMessage (sv_now env) "user" (fst (sq_body q)) x in
  mkSubmitter (insert (sq_agent q) (set_session x a) <$> sb_agents h) (sb_instances h) (sb_jobs h) (sb_events h)
    ((fun s => fst (SaveAgentState (sv_calls env 0) (sq_agent q) (se_ID x) (SessionToAgentState x) s)) <$> sb_state h)
    (match sb_jobs h with
     | Some _ => sb_bus h
     | None => (fun b => fst (Send (sv_now env) (ce_uuid (sv_calls env 0)) EmptyString (sq_agent q)
                                (Some {["message" := JStr (fst (sq_body q))]})
                                (Some (mkSendOptions EmptyString KindUser EmptyString None None EmptyString)) b)) <$> sb_bus h
     end)
    (sb_runs h) (sb_scheduler h).

Definition put_jobs (r : R) (h : submitter) : submitter :=
  mkSubmitter (sb_agents h) (sb_instances h) (Some r) (sb_events h) (sb_state h) (sb_bus h) (sb_runs h) (sb_scheduler h).
Definition put_stream (s : option S) (h : submitter) : submitter :=
  mkSubmitter (sb_agents h) (sb_instances h) (sb_jobs h) s (sb_state h) (sb_bus h) (sb_runs h) (sb_scheduler h).
Definition put_runs (s : option memoryRunStore) (h : submitter) : submitter :=
  mkSubmitter (sb_agents h) (sb_instances h) (sb_jobs h) (sb_events h) (sb_state h) (sb_bus h) s (sb_scheduler h).

(** The job, its events and its run. *)
Definition create_job (env : submit_env) (tenant : string) (q : submit_request) (session : string) (r : R) (h : submitter)
  : outcome (submitter * Response) :=
  let '(r', (jobID, created)) := repo_Create (sv_calls env 1) (submit_job (fun id => repo_Get id r) tenant session q) r in
  let h := put_jobs r' h in
  if negb created then Ret (h, refuse 500 "创建任务failed")
  else
    run p <- match sb_events h with
             | None => Ret (None, None)
             | Some s => run p <- write_events env q jobID s ;; Ret (Some (fst p), snd p)
             end ;;
    let h := put_stream (fst p) h in
    match snd p with
    | Some refusal => Ret (h, refusal)
    | None =>
        let '(runs, fields) := createFacadeRunForAgentMessage env q jobID (sb_runs h) in
        Ret (put_runs runs h, submitted (sq_agent q) jobID fields)
    end.

Definition woken (q : submit_request) : Response :=
  mkResponse 202 (JObj [("status", JStr "accepted"); ("agent_id", JStr (sq_agent q));
    ("runtime_submission", JObj ([("legacy_facade", JBool true); ("canonical_api", JStr "/api/runs")] ++ run_status "disabled"))]).

(** Without a job store the agent is woken at once; its run is the
    scheduler's. *)
Definition wake (q : submit_request) (h : submitter) : submitter :=
  if sb_scheduler h
  then mkSubmitter ((fun m => fst (WakeAgent (sq_agent q) m)) <$> sb_agents h) (sb_instances h) (sb_jobs h) (sb_events h)
         (sb_state h) (sb_bus h) (sb_runs h) (sb_scheduler h)
  else h.

Definition submit_commit (env : submit_env) (tenant : string) (q : submit_request) (a : Agent) (h : submitter)
  : outcome (submitter * Response) :=
  match ag_Session a with
  | None => Panic "nil pointer dereference"
  | Some x =>
      let h := take_message env q a x h in
      match sb_jobs h with
      | Some r => create_job env tenant q (se_ID x) r h
      | None => Ret (wake q h, woken q)
      end
  end.

Definition AgentMessage (env : submit_env) (cx : Context) (q : submit_request) (h : submitter) : outcome (submitter * Response) :=
  let tenant := tenant_of cx in
  match submit_check env tenant q h with
  | (h, Refused r) => Ret (h, r)
  | (h, Existing j) => Ret (h, existing_answer q j h)
  | (h, Fresh a) => submit_commit env tenant q a h
  end.
End submit.
Arguments submitter : clear implicits.

(** Theorems about the submission of jobs: the chains of calls they form, and
    what a submitted job starts with.  At the end, what submissions get
    wrong. *)

(** ** Call chains *)

(** What a job keeps for life. *)
Record ident := mkIdent { id_agent : string; id_tenant : string; id_parent : string; id_root : string }.

Definition ident_of (j : Job) : ident := mkIdent (job_AgentID j) (job_TenantID j) (job_ParentJobID j) (job_RootJobID j).

Definition idents : Type := string -> option ident.

(** The ancestors of a job, nearest first, up to one without a parent. *)
Inductive ancestry (c : idents) : ident -> list (string * ident) -> Prop :=
| ancestry_root i : id_parent i = EmptyString -> ancestry c i []
| ancestry_up i p l :
    id_parent i <> EmptyString -> c (id_parent i) = Some p -> ancestry c p l ->
    ancestry c i ((id_parent i, p) :: l).

(** All in one tenant, the root named, and the agent in none of the nearest
    ancestors. *)
Definition well_chained (c : idents) (i : ident) : Prop :=
  exists l, ancestry c i l /\
    Forall (fun p => id_tenant (snd p) = id_tenant i) l /\
    id_root i = from_option fst EmptyString (last l) /\
    Forall (fun p => id_agent (snd p) <> id_agent i) (take maxDepth l).

Definition all_chained (c : idents) : Prop := forall id i, c id = Some i -> well_chained c i.

Lemma ancestry_mono c c' i l : (forall id p, c id = Some p -> c' id = Some p) -> ancestry c i l -> ancestry c' i l.
Proof. intros Hc. induction 1 as [i Hi|i p l Hi Hp Hl IH]; constructor; auto. Qed.

Lemma well_chained_mono c c' i : (forall id p, c id = Some p -> c' id = Some p) -> well_chained c i -> well_chained c' i.
Proof. intros Hc (l & Hl & H). exists l. split; [by apply (ancestry_mono c)|done]. Qed.

(** A walk that finds no cycle passed no job of the agent. *)
Lemma chain_walk_clear get agentID tenant n : forall visited id j l,
  chain_walk n get agentID tenant visited id = false -> id <> EmptyString -> get id = Some j ->
  ancestry (fun k => ident_of <$> get k) (ident_of j) l ->
  Forall (fun p => id_tenant (snd p) = tenant) ((id, ident_of j) :: l) ->
  Forall (fun p => id_agent (snd p) <> agentID) (take n ((id, ident_of j) :: l)).
Proof.
  induction n as [|n IH]; intros visited id j l Hw Hid Hj Hl Ht; [constructor|]. cbn [chain_walk] in Hw.
  rewrite (proj2 (String.eqb_neq _ _) Hid), Hj in Hw. case_bool_decide; [done|].
  apply Forall_cons in Ht as [Htj Ht]. cbn in Htj. rewrite Htj, String.eqb_refl in Hw. cbn in Hw.
  destruct (String.eqb_spec (job_AgentID j) agentID) as [|Ha]; [done|]. cbn [take]. constructor; [done|].
  inversion Hl as [i Hi|i p l' Hi Hp Hl']; subst; [by rewrite take_nil|].
  cbn in Hp. destruct (get (job_ParentJobID j)) as [q|] eqn:Hq; [|done]. injection Hp as <-.
  by apply (IH _ _ _ _ Hw).
Qed.

Section chains.
Context {R S A : Type} `{!JobRepo R, !JobRepoSpec R} `{!JobStore S} `{!AgentStateStore A}.
Implicit Types h : submitter R S A.

Definition repo_idents (r : R) : idents := fun id => ident_of <$> repo_Get id r.

Lemma repo_idents_create env j r id :
  job_ID j = EmptyString ->
  repo_idents (fst (repo_Create env j r)) id =
  if decide (id = "job-" +:+ ce_uuid env)
  then Some (ident_of (set_job_TenantID (or_else (job_TenantID j) "default") j)) else repo_idents r id.
Proof.
  intros Hj. unfold repo_idents. rewrite !Get_mem, Create_mem. unfold Create. rewrite Hj. cbn. unfold Get. cbn.
  case_decide; [subst; by rewrite lookup_insert_eq|by rewrite lookup_insert_ne].
Qed.

(** The job made for a request: its chain ends where its parent's does. *)
Lemma submitted_chain tenant session q (r : R) :
  all_chained (repo_idents r) ->
  well_chained (repo_idents r) (ident_of (submit_job (fun id => repo_Get id r) tenant session q)).
Proof.
  intros Hall. unfold submit_job, chain_of.
  assert (Hnone : forall i, id_parent i = EmptyString -> id_root i = EmptyString -> well_chained (repo_idents r) i).
  { intros i Hp Hr. exists []. split_and!; [by constructor|constructor|by rewrite Hr|constructor]. }
  destruct (String.eqb_spec (sq_parentJob q) EmptyString) as [|Hne]; [by apply Hnone|].
  destruct (repo_Get (sq_parentJob q) r) as [p|] eqn:Hp; [|by apply Hnone].
  destruct (String.eqb_spec (job_TenantID p) tenant) as [Ht|]; [|by apply Hnone]. cbn [negb].
  destruct (hasCycle _ _ _ _) eqn:Hc; [by apply Hnone|].
  destruct (Hall (sq_parentJob q) (ident_of p)) as (l & Hl & Htl & Hr & _); [unfold repo_idents; by rewrite Hp|].
  assert (Hte : Forall (fun x => id_tenant (snd x) = tenant) ((sq_parentJob q, ident_of p) :: l)).
  { constructor; [done|]. eapply Forall_impl; [exact Htl|]. intros x Hx. cbn in *. congruence. }
  exists ((sq_parentJob q, ident_of p) :: l). split_and!.
  - constructor; [done|unfold repo_idents; cbn; by rewrite Hp|done].
  - done.
  - cbn in Hr |- *. rewrite Hr. unfold or_else. destruct Hl as [i Hi|i p' l Hi Hp' Hl]; [done|].
    rewrite last_cons_cons. destruct (last ((id_parent i, p') :: l)) as [[k x]|] eqn:Hlast; [|by apply last_None in Hlast].
    cbn [from_option fst]. assert (Hk : k <> EmptyString); [|by rewrite (proj2 (String.eqb_neq _ _) Hk)].
    assert (Hin : (k, x) ∈ (id_parent i, p') :: l) by (by apply last_Some_elem_of).
    assert (Hpar : forall c i l, ancestry c i l -> forall k x, (k, x) ∈ l -> k <> EmptyString).
    { clear. induction 1 as [i Hi|i p l Hi Hp Hl IH]; [by intros k x ?%not_elem_of_nil|].
      intros k x [[= -> ->]|Hin]%elem_of_cons; [done|by apply (IH k x)]. }
    apply elem_of_cons in Hin as [[= -> ->]|Hin]; [done|by apply (Hpar _ _ _ Hl k x)].
  - by apply (chain_walk_clear (fun k => repo_Get k r) _ _ _ _ _ _ _ Hc).
Qed.

(** What requests and everything else do to the jobs: a message is taken, or
    jobs without a parent appear and the others keep what they keep for
    life. *)
Inductive served : submitter R S A -> submitter R S A -> Prop :=
| served_message env cx q h h' resp :
    AgentMessage env cx q h = Ret (h', resp) ->
    (forall r, sb_jobs h = Some r -> repo_Get ("job-" +:+ ce_uuid (sv_calls env 1)) r = None) ->
    served h h'
| served_other h h' r r' :
    sb_jobs h = Some r -> sb_jobs h' = Some r' ->
    (forall id, repo_idents r' id = repo_idents r id \/
                repo_idents r id = None /\ exists i, repo_idents r' id = Some i /\ id_parent i = EmptyString /\ id_root i = EmptyString) ->
    served h h'.

Lemma AgentMessage_jobs env cx q h h' resp r :
  AgentMessage env cx q h = Ret (h', resp) -> sb_jobs h = Some r ->
  sb_jobs h' = Some r \/
  exists session, sb_jobs h' = Some (fst (repo_Create (sv_calls env 1)
    (submit_job (fun id => repo_Get id r) (tenant_of cx) session q) r)).
Proof.
  unfold AgentMessage. intros H Hr. destruct (submit_check env (tenant_of cx) q h) as [h1 o] eqn:Hc.
  assert (H1 : sb_jobs h1 = Some r).
  { unfold submit_check in Hc. destruct (sb_agents h); [|by injection Hc as <- _]. destruct (snd (sq_body q)); [by injection Hc as <- _|].
    destruct (manager_Get _ _); by injection Hc as <- _. }
  destruct o as [r'|j|a]; [injection H as <- _; by left|injection H as <- _; by left|].
  unfold submit_commit in H. destruct (ag_Session a) as [x|]; [|done].
  replace (sb_jobs (take_message env q a x h1)) with (Some r) in H by (unfold take_message; cbn; done).
  unfold create_job in H. right. exists (se_ID (AddMessage (sv_now env) "user" (fst (sq_body q)) x)).
  change (se_ID (AddMessage (sv_now env) "user" (fst (sq_body q)) x)) with (se_ID x).
  destruct (repo_Create _ _ r) as [r' [id ok]] eqn:Hcr. cbn [fst]. destruct (negb ok); [by injection H as <- _|].
  cbn [sb_events put_jobs] in H. destruct (sb_events _) as [s|].
  - destruct (write_events env q id s) as [[s' o]|]; [|done]. cbn [outcome_bind fst snd] in H.
    destruct o; [by injection H as <- _|]. destruct (createFacadeRunForAgentMessage _ _ _ _). by injection H as <- _.
  - cbn [outcome_bind fst snd] in H. destruct (createFacadeRunForAgentMessage _ _ _ _). by injection H as <- _.
Qed.

Lemma served_chained h h' r : served h h' -> sb_jobs h = Some r -> all_chained (repo_idents r) ->
  exists r', sb_jobs h' = Some r' /\ all_chained (repo_idents r').
Proof.
  intros Hs Hr Hall. destruct Hs as [env cx q h h' resp Hm Hfresh|h h' r0 r' H0 H' Hsame].
  - destruct (AgentMessage_jobs _ _ _ _ _ _ _ Hm Hr) as [->|[session ->]]; [by eexists|].
    eexists. split; [done|]. set (j := submit_job _ _ _ _).
    assert (Hj : job_ID j = EmptyString) by (unfold j, submit_job; by destruct (chain_of _ _ _) as [[? ?] ?]).
    assert (Ht : job_TenantID j = tenant_of cx) by (unfold j, submit_job; by destruct (chain_of _ _ _) as [[? ?] ?]).
    assert (Hid : ident_of (set_job_TenantID (or_else (job_TenantID j) "default") j) = ident_of j).
    { unfold ident_of. cbn. rewrite Ht. f_equal. unfold tenant_of, or_else.
      by destruct (String.eqb_spec (cx_TenantID cx) EmptyString) as [_|Hc]; [|rewrite (proj2 (String.eqb_neq _ _) Hc)]. }
    assert (Hmono : forall id p, repo_idents r id = Some p -> repo_idents (fst (repo_Create (sv_calls env 1) j r)) id = Some p).
    { intros id p Hp. rewrite repo_idents_create by done. case_decide as Hd; [|done]. subst id.
      unfold repo_idents in Hp. by rewrite (Hfresh r Hr) in Hp. }
    intros id i Hi. rewrite repo_idents_create in Hi by done. case_decide.
    + injection Hi as <-. rewrite Hid. apply (well_chained_mono (repo_idents r)); [done|]. by apply submitted_chain.
    + apply (well_chained_mono (repo_idents r)); [done|]. by apply (Hall id).
  - rewrite Hr in H0. injection H0 as <-. exists r'. split; [done|].
    assert (Hmono : forall id p, repo_idents r id = Some p -> repo_idents r' id = Some p).
    { intros id p Hp. destruct (Hsame id) as [->|[Hn _]]; [done|congruence]. }
    intros id i Hi. destruct (Hsame id) as [He|(_ & i' & Hi' & Hp & Hroot)].
    + apply (well_chained_mono (repo_idents r)); [done|]. apply (Hall id). by rewrite <- He.
    + rewrite Hi in Hi'. injection Hi' as <-. exists []. split_and!; [by constructor|constructor|by rewrite Hroot|constructor].
Qed.

(** C3: the chain of calls of every job is finite and sound: in any sequence
    of messages to agents, whatever callers put in the headers and whatever
    else happens to the jobs in between, following the parents of a job ends
    at one without a parent, which is the root it names; all of them are jobs
    of its tenant, and none of its hundred nearest ancestors is a job of its
    own agent. *)
Theorem call_chains_are_sound h0 h r0 :
  rtc served h0 h -> sb_jobs h0 = Some r0 -> (forall id, repo_Get id r0 = None) ->
  exists r, sb_jobs h = Some r /\
    forall id j, repo_Get id r = Some j ->
    exists l, ancestry (repo_idents r) (ident_of j) l /\
      Forall (fun p => id_tenant (snd p) = job_TenantID j) l /\
      job_RootJobID j = from_option fst EmptyString (last l) /\
      Forall (fun p => id_agent (snd p) <> job_AgentID j) (take maxDepth l).
Proof.
  intros H Hr He. assert (H0 : all_chained (repo_idents r0)).
  { intros id i Hi. unfold repo_idents in Hi. by rewrite He in Hi. }
  clear He. revert r0 Hr H0. induction H as [h|h h1 h2 Hs _ IH]; intros r0 Hr H0.
  - exists r0. split; [done|]. intros id j Hj. apply (H0 id). unfold repo_idents. by rewrite Hj.
  - destruct (served_chained _ _ _ Hs Hr H0) as (r1 & Hr1 & H1). by apply (IH r1).
Qed.
End chains.

(** ** What a submitted job starts with *)

Section planned.
Context {R S A : Type} `{!JobRepo R, !JobRepoSpec R} `{!JobStore S} {view : S -> string -> job_state} {wf : S -> Prop}
  `{!JobStoreSpec S view wf} `{!AgentStateStore A}.
Implicit Types h : submitter R S A.

Definition written (e : JobEvent) : EventType * string := (ev_Type e, ev_Payload e).

Definition stream (s : S) (id : string) : list (EventType * string) := map written (jst_events (view s id)).

Lemma append_stream env id n e s :
  wf s -> ce_io env = true -> id <> EmptyString -> Z.of_nat (length (stream s id)) = n ->
  exists s', js_Append env EmptyString id n e s = Ret (s', Ok (n + 1)) /\ wf s' /\
    stream s' id = stream s id ++ [written e] /\ forall k, k <> id -> stream s' k = stream s k.
Proof.
  intros Hwf Hio Hid Hn. unfold stream in Hn. rewrite length_map in Hn.
  destruct (Append_view env EmptyString id n e s Hwf) as (s' & a & -> & Hwf' & Ha).
  unfold acts_as, job_append in Ha. rewrite (proj2 (String.eqb_neq _ _) Hid) in Ha. fold (version (view s id)) in Hn.
  rewrite Hn, Z.eqb_refl in Ha. cbn [negb andb String.eqb] in Ha. destruct Ha as [[-> [Hset Hother]]|[Hf _]]; [|congruence].
  exists s'. unfold stream. rewrite Hset. split_and!; [done|done|by cbn; rewrite map_app|]. intros k Hk. by rewrite Hother.
Qed.

Definition submitted_id (env : submit_env) : string := "job-" +:+ ce_uuid (sv_calls env 1).

(** The three events of a planned job. *)
Definition planned_stream (q : submit_request) (id : string) (g : TaskGraph) : list (EventType * string) :=
  let goal := fst (sq_body q) in
  map written [job_created (sq_agent q) goal id; plan_generated id goal (Marshal g); decision_snapshot id goal (Marshal g)].

Lemma write_events_planned env q id s g :
  wf s -> (forall n, ce_io (sv_calls env n) = true) -> id <> EmptyString -> stream s id = [] -> sq_plan q = Some (Ok (Some g)) ->
  exists s', write_events env q id s = Ret (s', None) /\ stream s' id = planned_stream q id g /\
    forall k, k <> id -> stream s' k = stream s k.
Proof.
  intros Hwf Hio Hid Hs Hp. unfold write_events, write_plan, planned_stream. rewrite Hp. cbn [map].
  destruct (append_stream (sv_calls env 2) id 0 (job_created (sq_agent q) (fst (sq_body q)) id) s Hwf (Hio 2) Hid)
    as (s1 & -> & Hwf1 & H1 & O1); [by rewrite Hs|]. cbn [outcome_bind fst snd].
  destruct (append_stream (sv_calls env 3) id (0 + 1) (plan_generated id (fst (sq_body q)) (Marshal g)) s1 Hwf1 (Hio 3) Hid)
    as (s2 & -> & Hwf2 & H2 & O2); [by rewrite H1, Hs|]. cbn [outcome_bind fst snd].
  destruct (append_stream (sv_calls env 4) id (0 + 1 + 1) (decision_snapshot id (fst (sq_body q)) (Marshal g)) s2 Hwf2 (Hio 4) Hid)
    as (s3 & -> & _ & H3 & O3); [by rewrite H2, H1, Hs|]. cbn [outcome_bind fst snd].
  exists s3. split; [done|]. split; [by rewrite H3, H2, H1, Hs|]. intros k Hk. by rewrite O3, O2, O1.
Qed.

(** C2: a submitted job is ready to run: a message to a known agent that finds
    no earlier job with its key, with a planner and stores that work, is
    answered 202 with a job that is pending in the store with the message as
    its goal, and whose stream is its creation, its plan and the snapshot of
    the decision; every other job keeps its record and its stream. *)
Theorem submitted_job_is_planned env cx q h a x r s g m :
  sb_agents h = Some m -> m !! sq_agent q = Some a -> ag_Session a = Some x -> snd (sq_body q) = false ->
  sb_jobs h = Some r -> sb_events h = Some s -> wf s -> sq_plan q = Some (Ok (Some g)) ->
  GetByAgentTenantAndIdempotencyKey (sv_order env) (sq_agent q) (tenant_of cx) (sq_idempotency q) (repo_mem r) = None ->
  (forall n, ce_io (sv_calls env n) = true) -> stream s (submitted_id env) = [] ->
  exists h' resp r' s', AgentMessage env cx q h = Ret (h', resp) /\ rs_Status resp = 202 /\
    sb_jobs h' = Some r' /\ sb_events h' = Some s' /\
    (exists j, repo_Get (submitted_id env) r' = Some j /\ job_Status j = StatusPending /\ job_AgentID j = sq_agent q /\
       job_TenantID j = tenant_of cx /\ job_Goal j = fst (sq_body q)) /\
    jm_pending (repo_mem r') = jm_pending (repo_mem r) ++ [submitted_id env] /\
    stream s' (submitted_id env) = planned_stream q (submitted_id env) g /\
    forall k, k <> submitted_id env -> repo_Get k r' = repo_Get k r /\ stream s' k = stream s k.
Proof.
  intros Hm Ha Hx Hb Hr Hs Hwf Hp Hk Hio Hst. unfold AgentMessage, submit_check, manager_Get. rewrite Hm, Hb, Ha.
  cbn [sb_jobs]. rewrite Hr. cbn [mbind option_bind]. rewrite Hk. unfold submit_commit. rewrite Hx.
  unfold take_message at 1. cbn [sb_jobs]. unfold create_job.
  set (j := submit_job _ _ _ _). set (h1 := take_message _ _ _ _ _).
  destruct (repo_Create (sv_calls env 1) j r) as [r' [id ok]] eqn:Hc.
  assert (Hj : job_ID j = EmptyString /\ job_TenantID j = tenant_of cx /\ job_AgentID j = sq_agent q /\ job_Goal j = fst (sq_body q)).
  { unfold j, submit_job. by destruct (chain_of _ _ _) as [[? ?] ?]. }
  destruct Hj as (Hj & Hjt & Hja & Hjg).
  assert (Hok : ok = true) by (pose proof (Create_saved (sv_calls env 1) j r (Hio 1)) as Ho; by rewrite Hc in Ho).
  assert (Hmem : repo_mem r' = fst (Create (ce_now (sv_calls env 1)) (ce_uuid (sv_calls env 1)) j (repo_mem r)))
    by (rewrite <- Create_mem, Hc; done).
  assert (Hid : id = submitted_id env).
  { pose proof (Create_id (sv_calls env 1) j r) as Ho. rewrite Hc in Ho. cbn [fst snd] in Ho. rewrite Ho.
    unfold Create. rewrite Hj. done. }
  unfold Create in Hmem. rewrite Hj in Hmem. cbn in Hmem. fold (submitted_id env) in Hmem. subst id ok. cbn [negb].
  replace (sb_events (put_jobs r' h1)) with (Some s) by (by unfold put_jobs, h1, take_message; cbn).
  destruct (write_events_planned env q (submitted_id env) s g Hwf Hio ltac:(done) Hst Hp) as (s' & -> & Hs' & Hother).
  cbn [outcome_bind fst snd]. destruct (createFacadeRunForAgentMessage _ _ _ _) as [runs fields].
  do 4 eexists. split; [reflexivity|]. split; [done|]. split; [reflexivity|]. split; [reflexivity|]. split_and!.
  - rewrite Get_mem, Hmem. unfold Get. cbn. rewrite lookup_insert_eq. eexists. split; [done|]. cbn. rewrite Hjt. split_and!; try done.
    unfold tenant_of, or_else. by destruct (String.eqb_spec (cx_TenantID cx) EmptyString) as [_|Hn]; [|rewrite (proj2 (String.eqb_neq _ _) Hn)].
  - by rewrite Hmem.
  - done.
  - intros k Hne. split; [|by apply Hother]. rewrite !Get_mem, Hmem. unfold Get. cbn. by rewrite lookup_insert_ne.
Qed.
End planned.

(** ** Concrete requests *)

Definition two_agents : Manager :=
  {["planner" := NewAgent (at_sec 0) "u" "planner" "planner" (Some (NewSession (at_sec 0) "s1" "" "planner"));
    "writer" := NewAgent (at_sec 0) "u" "writer" "writer" (Some (NewSession (at_sec 0) "s2" "" "writer"))]}.

Definition new_submitter : submitter JobStoreMem memoryStore agentStateStoreMem :=
  mkSubmitter (Some two_agents) None (Some NewJobStoreMem) (Some NewMemoryStore) (Some NewAgentStateStoreMem) None None false.

Definition submit_at (n : Z) (uuid : string) : submit_env :=
  mkSubmitEnv (fun k => mkEnv (Time n 0) uuid true) (Time n 0) (mkRunEnv (Time n 0) uuid (Time n 0) uuid) [].

Definition one_step : TaskGraph := mkTaskGraph [mkTaskNode "n1" "llm" [] EmptyString EmptyString] (Some []).

Definition ask (agent msg parent : string) : submit_request :=
  mkSubmit agent (msg, false) EmptyString parent EmptyString EmptyString (Some (Ok (Some one_step))).

Definition someone : Context := mkContext ∅ "acme" "ann".

Abbreviation mem_submitter := (submitter JobStoreMem memoryStore agentStateStoreMem).

Definition after (env : submit_env) (q : submit_request) (h : mem_submitter) : mem_submitter :=
  match AgentMessage env someone q h with Ret p => fst p | Panic _ => h end.

Definition can_serve (env : submit_env) (q : submit_request) (h : mem_submitter) : bool :=
  match AgentMessage env someone q h with Ret _ => true | Panic _ => false end &&
  match sb_jobs h ≫= fun r => repo_Get ("job-" +:+ ce_uuid (sv_calls env 1)) r with None => true | Some _ => false end.

Lemma after_served env q h : can_serve env q h = true -> served h (after env q h).
Proof.
  unfold can_serve, after. intros [H1 H2]%andb_prop. destruct (AgentMessage env someone q h) as [[h' resp]|] eqn:H; [|done].
  apply (served_message env someone q h h' resp H). intros r Hr. rewrite Hr in H2. cbn [mbind option_bind] in H2. by destruct (repo_Get _ r).
Qed.

(** The planner is asked, asks the writer, who asks the planner: the third
    chain is cut off. *)
Definition asked1 := after (submit_at 1 "1") (ask "planner" "write a poem" EmptyString) new_submitter.
Definition asked2 := after (submit_at 2 "2") (ask "writer" "rhyme" "job-1") asked1.
Definition asked3 := after (submit_at 3 "3") (ask "planner" "more" "job-2") asked2.

Definition chain_in (h : mem_submitter) (id : string) : option (string * string) :=
  sb_jobs h ≫= fun r => repo_Get id r ≫= fun j => Some (job_ParentJobID j, job_RootJobID j).

Lemma call_chains_are_sound_witness :
  chain_in asked3 "job-2" = Some ("job-1", "job-1") /\ chain_in asked3 "job-3" = Some (EmptyString, EmptyString) /\
  exists r, sb_jobs asked3 = Some r /\
    forall id j, repo_Get id r = Some j ->
    exists l, ancestry (repo_idents r) (ident_of j) l /\
      Forall (fun p => id_tenant (snd p) = job_TenantID j) l /\
      job_RootJobID j = from_option fst EmptyString (last l) /\
      Forall (fun p => id_agent (snd p) <> job_AgentID j) (take maxDepth l).
Proof.
  split; [vm_compute; done|]. split; [vm_compute; done|].
  apply (call_chains_are_sound new_submitter asked3 NewJobStoreMem); [|done|done].
  eapply rtc_l; [apply (after_served (submit_at 1 "1") (ask "planner" "write a poem" EmptyString)); by vm_compute|].
  eapply rtc_l; [apply (after_served (submit_at 2 "2") (ask "writer" "rhyme" "job-1")); by vm_compute|].
  eapply rtc_l; [apply (after_served (submit_at 3 "3") (ask "planner" "more" "job-2")); by vm_compute|]. apply rtc_refl.
Defined.

Lemma submitted_job_is_planned_witness :
  let q := ask "writer" "rhyme" EmptyString in
  let id := submitted_id (submit_at 1 "1") in
  exists h' resp r' s', AgentMessage (submit_at 1 "1") someone q new_submitter = Ret (h', resp) /\ rs_Status resp = 202 /\
    sb_jobs h' = Some r' /\ sb_events h' = Some s' /\
    (exists j, repo_Get id r' = Some j /\ job_Status j = StatusPending /\ job_AgentID j = sq_agent q /\
       job_TenantID j = tenant_of someone /\ job_Goal j = fst (sq_body q)) /\
    jm_pending (repo_mem r') = jm_pending (repo_mem NewJobStoreMem) ++ [id] /\
    stream (view := mem_view) s' id = planned_stream q id one_step /\
    forall k, k <> id -> repo_Get k r' = repo_Get k NewJobStoreMem /\ stream (view := mem_view) s' k = stream (view := mem_view) NewMemoryStore k.
Proof.
  intros q id. set (writer := NewAgent (at_sec 0) "u" "writer" "writer" (Some (NewSession (at_sec 0) "s2" "" "writer"))).
  apply (submitted_job_is_planned (view := mem_view) (wf := unwatched) (submit_at 1 "1") someone q new_submitter writer
    (NewSession (at_sec 0) "s2" "" "writer") NewJobStoreMem NewMemoryStore one_step two_agents); done.
Defined.

(** ** Where submissions go wrong *)

Definition keyed (plan : result string (option TaskGraph)) : submit_request :=
  mkSubmit "writer" ("rhyme", false) "order-7" EmptyString EmptyString EmptyString (Some plan).

Definition commit_of (env : submit_env) (q : submit_request) (h : mem_submitter) : outcome (mem_submitter * Z) :=
  match snd (submit_check env "acme" q h) with
  | Fresh a => run p <- submit_commit env "acme" q a h ;; Ret (fst p, rs_Status (snd p))
  | Existing _ => Panic "there is one"
  | Refused _ => Panic "refused"
  end.

(** Two requests with one idempotency key, both checked before either job is
    created, create two jobs. *)
Lemma racing_submissions_make_two_jobs :
  let q := keyed (Ok None) in
  match snd (submit_check (submit_at 2 "2") "acme" q new_submitter), commit_of (submit_at 1 "1") q new_submitter with
  | Fresh a, Ret (h, 202) =>
      match submit_commit (submit_at 2 "2") "acme" q a h with
      | Ret (h, resp) => rs_Status resp = 202 /\ (jm_pending <$> sb_jobs h) = Some ["job-1"; "job-2"]
      | Panic _ => False
      end
  | _, _ => False
  end.
Proof. vm_compute. done. Qed.

(** When planning fails the request is answered 500, yet its job stays pending
    without a plan, and repeating the request is answered 202 with it. *)
Lemma failed_plan_leaves_pending_job :
  let retry := mkSubmitEnv (fun k => mkEnv (Time 2 0) "2" true) (Time 2 0) (mkRunEnv (Time 2 0) "2" (Time 2 0) "2") ["job-1"] in
  match AgentMessage (submit_at 1 "1") someone (keyed (Err "model is down")) new_submitter with
  | Ret (h, resp) =>
      rs_Status resp = 500 /\ (jm_pending <$> sb_jobs h) = Some ["job-1"] /\
      ((fun s => map ev_Type (events_of s "job-1")) <$> sb_events h) = Some [JobCreated] /\
      match AgentMessage retry someone (keyed (Ok (Some one_step))) h with
      | Ret (h', resp') => rs_Status resp' = 202 /\ (jm_pending <$> sb_jobs h') = Some ["job-1"] /\
          ((fun s => map ev_Type (events_of s "job-1")) <$> sb_events h') = Some [JobCreated]
      | Panic _ => False
      end
  | Panic _ => False
  end.
Proof. vm_compute. done. Qed.
