(* ===== verification/Telemetry.v ===== *)
(** Events reported by the SDKs: the checked handler of
    internal/telemetry/ingest and the one of internal/api/http/handler.go that
    the router serves.

    Other writers can append to a job between the calls a handler makes into
    the store: [others n] is what they make of the store before its [n]-th
    step.  Reading a stream does not fail in the stores of the repository. *)

From stdpp Require Import relations.
From S2P Require Import Prelude GoTime Json TimeParse Events MemStore JobFsm JobQueue JobStore AccessControl JobApi.

(** ** [time.Parse(time.RFC3339, s)]

    The fast path, and for text it refuses the general parser, which lets a
    one-digit hour, a decimal comma and offsets up to 24:60 through. *)

Definition hour_field (s : string) : option (Z * string) :=
  match field 2 0 23 s with
  | Some r => Some r
  | None => match s with
            | String _ (String c _) => if is_digit c then None else field 1 0 9 s
            | _ => None
            end
  end.

Definition layout_frac (s : string) : Z * string :=
  match s with
  | String "," r => parse_frac (String "." r)
  | _ => parse_frac s
  end.

Definition layout_zone (s : string) : option Z :=
  match s with
  | String "Z" EmptyString => Some 0
  | String sign r =>
      if Ascii.eqb sign "+" || Ascii.eqb sign "-" then
        '(hr, r) ← field 2 0 24 r;
        r ← expect ":" r;
        '(mm, r) ← field 2 0 60 r;
        match r with
        | EmptyString => Some (let off := (hr * 60 + mm) * 60 in if Ascii.eqb sign "-" then - off else off)
        | _ => None
        end
      else None
  | EmptyString => None
  end.

Definition parse_layout (s : string) : option time :=
  '(y, s) ← field 4 0 9999 s;
  s ← expect "-" s;
  '(m, s) ← field 2 1 12 s;
  s ← expect "-" s;
  '(d, s) ← field 2 1 (daysIn m y) s;
  s ← expect "T" s;
  '(h, s) ← hour_field s;
  s ← expect ":" s;
  '(mi, s) ← field 2 0 59 s;
  s ← expect ":" s;
  '(sec, s) ← field 2 0 59 s;
  let '(ns, s) := layout_frac s in
  off ← layout_zone s;
  Some (Time (((days_from_civil y m d * 86400 + h * 3600 + mi * 60 + sec) - off) * second + ns) off).

Definition time_Parse (s : string) : option time :=
  match parseRFC3339 s with Some t => Some t | None => parse_layout s end.

Example parse_lenient : time_Parse "2026-01-02T8:34:05,12+05:30" = Some (Time 1767323045120000000 19800).
Proof. reflexivity. Qed.

(** ** The checked handler (ingest/handler.go) *)

Definition maxBatchSize : Z := 100.
Definition maxPayloadSize : Z := 256 * 1024.
Definition rateLimitWindow : Z := minute.
Definition rateLimitMaxRequests : Z := 600.

(** The fields of an envelope that are looked at. *)
Record EventEnvelope := mkEnvelope {
  en_SchemaVersion : string; en_EventUID : string; en_JobID : string; en_AgentID : string; en_TenantID : string;
  en_OccurredAt : string; en_Type : string; en_Payload : string; en_SDKName : string }.

Inductive event_outcome := Accepted | Deduped | Rejected (reason : string).

Definition isValidJobID (id : string) : bool :=
  in_range 1 128 (Z.of_nat (String.length id)) &&
  str_all (fun c => in_range 97 122 (byte c) || in_range 65 90 (byte c) || in_range 48 57 (byte c)
                    || Ascii.eqb c "_" || Ascii.eqb c "-") id.

Definition reportable_types : list string :=
  ["job_created"; "job_started"; "job_completed"; "job_failed"; "job_cancelled"; "step_started"; "step_finished";
   "step_failed"; "step_retried"; "step_skipped"; "checkpoint_saved"; "effect_recorded"; "decision_snapshot";
   "reasoning_snapshot"].

Definition isReportableType (t : string) : bool := bool_decide (t ∈ reportable_types).

Definition isJobTerminal (es : list JobEvent) : bool :=
  match last es with
  | Some e => bool_decide (ev_Type e ∈ [JobCompleted; JobFailed; JobCancelled])
  | None => false
  end.

(** *** The rate limiter *)

Record rateLimiter := mkLimiter { rl_window : Z; rl_maxReqs : Z; rl_requests : gmap string (list time) }.

Definition newRateLimiter (window max : Z) : rateLimiter := mkLimiter window max ∅.

Definition allow (now : time) (key : string) (rl : rateLimiter) : rateLimiter * bool :=
  let cutoff := t_add now (- rl_window rl) in
  let valid := filter (fun t => t_after t cutoff = true) (default [] (rl_requests rl !! key)) in
  if rl_maxReqs rl <=? Z.of_nat (length valid)
  then (mkLimiter (rl_window rl) (rl_maxReqs rl) (<[key := valid]> (rl_requests rl)), false)
  else (mkLimiter (rl_window rl) (rl_maxReqs rl) (<[key := valid ++ [now]]> (rl_requests rl)), true).

(** *** One event *)

(** What is said of an event before the store is asked: [Some] a rejection. *)
Definition envelope_check (now : time) (owns : option (string -> string -> bool)) (tenantID : string) (ev : EventEnvelope)
  : option string :=
  if negb (String.eqb (en_SchemaVersion ev) EmptyString) && negb (String.eqb (en_SchemaVersion ev) "1")
  then Some "unsupported_schema_version"
  else if String.eqb (en_EventUID ev) EmptyString || String.eqb (en_JobID ev) EmptyString
          || String.eqb (en_AgentID ev) EmptyString || String.eqb (en_OccurredAt ev) EmptyString
          || String.eqb (en_Type ev) EmptyString || String.eqb (en_SDKName ev) EmptyString
  then Some "missing_required_fields"
  else if negb (String.eqb (en_TenantID ev) tenantID) then Some "tenant_mismatch"
  else if negb (match owns with Some f => f (en_JobID ev) tenantID | None => true end) then Some "job_not_owned"
  else if negb (isValidJobID (en_JobID ev)) then Some "invalid_job_id"
  else if (maxPayloadSize <? Z.of_nat (String.length (en_Payload ev))) then Some "payload_too_large"
  else if negb (isReportableType (en_Type ev)) then Some "unknown_type"
  else match time_Parse (en_OccurredAt ev) with
       | None => Some "invalid_timestamp"
       | Some t => if t_after t (t_add now (5 * minute)) then Some "future_timestamp" else None
       end.

Definition dedupKey (tenantID : string) (ev : EventEnvelope) : string :=
  tenantID +:+ (":" +:+ (en_JobID ev +:+ (":" +:+ en_EventUID ev))).

Definition reported_event (now : time) (ev : EventEnvelope) : JobEvent :=
  mkJobEvent EmptyString (en_JobID ev) (event_type_of_string (en_Type ev))
    (if String.eqb (en_Payload ev) EmptyString then "{}" else en_Payload ev) now EmptyString EmptyString.

(** [CheckJobOwnership] of internal/app/api/app.go. *)
Definition CheckJobOwnership {R} `{!JobRepo R} (r : R) (jobID tenantID : string) : bool :=
  match repo_Get jobID r with Some j => String.eqb (job_TenantID j) tenantID | None => false end.

Section ingest.
Context {S : Type} `{!JobStore S}.

(** The clocks, the calls into the store, and what other writers do. *)
Record ingest_env := mkIngestEnv { ie_now : time; ie_recorded : time; ie_calls : nat -> call_env; ie_others : nat -> S -> S }.

Record ingest_handler := mkIngest {
  ih_store : S; ih_dedup : gset string; ih_rateLimiter : rateLimiter; ih_owner : option (string -> string -> bool) }.

Definition put_store (s : S) (h : ingest_handler) : ingest_handler := mkIngest s (ih_dedup h) (ih_rateLimiter h) (ih_owner h).

(** The loop of appends: [n] attempts are left; the next step of the others
    is [k]. *)
Fixpoint append_rounds (env : ingest_env) (n k : nat) (jobID : string) (version : Z) (e : JobEvent) (s : S)
  : outcome (S * event_outcome) :=
  match n with
  | O => Ret (s, Rejected "append_failed")
  | Datatypes.S n =>
      run p <- js_Append (ie_calls env k) EmptyString jobID version e (ie_others env k s) ;;
      match snd p with
      | Ok _ => Ret (fst p, Accepted)
      | Err (Known ErrVersionMismatch) =>
          let s := ie_others env (Datatypes.S k) (fst p) in
          run l <- js_ListEvents jobID s ;;
          append_rounds env n (Datatypes.S (Datatypes.S k)) jobID (snd l) e s
      | Err _ => Ret (fst p, Rejected "append_failed")
      end
  end.

Definition append_reported (env : ingest_env) (ev : EventEnvelope) (s : S) : outcome (S * event_outcome) :=
  let s := ie_others env 0 s in
  run l <- js_ListEvents (en_JobID ev) s ;;
  if isJobTerminal (fst l) then Ret (s, Rejected "job_terminal")
  else append_rounds env 11 1 (en_JobID ev) (snd l) (reported_event (ie_recorded env) ev) s.

Definition processEvent (env : ingest_env) (tenantID : string) (ev : EventEnvelope) (h : ingest_handler)
  : outcome (ingest_handler * event_outcome) :=
  match envelope_check (ie_now env) (ih_owner h) tenantID ev with
  | Some reason => Ret (h, Rejected reason)
  | None =>
      let key := dedupKey tenantID ev in
      if bool_decide (key ∈ ih_dedup h) then Ret (h, Deduped)
      else run p <- append_reported env ev (ih_store h) ;;
           Ret (mkIngest (fst p) ({[key]} ∪ ih_dedup h) (ih_rateLimiter h) (ih_owner h), snd p)
  end.

Record BatchResponse := mkBatch { br_Accepted : Z; br_Deduped : Z; br_Rejected : Z; br_Rejections : list (string * string) }.

Definition count_outcome (ev : EventEnvelope) (o : event_outcome) (b : BatchResponse) : BatchResponse :=
  match o with
  | Accepted => mkBatch (br_Accepted b + 1) (br_Deduped b) (br_Rejected b) (br_Rejections b)
  | Deduped => mkBatch (br_Accepted b) (br_Deduped b + 1) (br_Rejected b) (br_Rejections b)
  | Rejected reason => mkBatch (br_Accepted b) (br_Deduped b) (br_Rejected b + 1) (br_Rejections b ++ [(en_EventUID ev, reason)])
  end.

Fixpoint process_from (tenantID : string) (evs : list (ingest_env * EventEnvelope)) (b : BatchResponse) (h : ingest_handler)
  : outcome (ingest_handler * BatchResponse) :=
  match evs with
  | [] => Ret (h, b)
  | (env, ev) :: evs => run p <- processEvent env tenantID ev h ;; process_from tenantID evs (count_outcome ev (snd p) b) (fst p)
  end.

Definition processBatch (tenantID : string) (evs : list (ingest_env * EventEnvelope)) (h : ingest_handler)
  : outcome (ingest_handler * BatchResponse) := process_from tenantID evs (mkBatch 0 0 0 []) h.

Definition batch_json (b : BatchResponse) : json :=
  JObj ([("accepted_version", JStr "1"); ("accepted", JNum (itoa (br_Accepted b))); ("deduped", JNum (itoa (br_Deduped b)));
         ("rejected", JNum (itoa (br_Rejected b)))]
        ++ match br_Rejections b with
           | [] => []
           | l => [("rejections", JArr (map (fun r => JObj [("event_uid", JStr (fst r)); ("reason", JStr (snd r))]) l))]
           end).

(** [None] for a body that does not bind, with the binder's error. *)
Definition IngestEvents (now : time) (tenantID : string) (body : result string (list (ingest_env * EventEnvelope)))
  (h : ingest_handler) : outcome (ingest_handler * Response) :=
  if String.eqb tenantID EmptyString then Ret (h, refuse 403 "tenant_id required")
  else
    let '(rl, ok) := allow now tenantID (ih_rateLimiter h) in
    let h := mkIngest (ih_store h) (ih_dedup h) rl (ih_owner h) in
    if negb ok then Ret (h, mkResponse 429 (JObj [("error", JStr "rate limit exceeded"); ("retry_after", JNum "60")]))
    else match body with
         | Err e => Ret (h, refuse 400 ("invalid request body: " +:+ e))
         | Ok evs =>
             if Z.of_nat (length evs) =? 0 then Ret (h, refuse 400 "empty batch")
             else if maxBatchSize <? Z.of_nat (length evs)
             then Ret (h, refuse 413 ("batch size " +:+ (itoa (Z.of_nat (length evs)) +:+ (" exceeds max " +:+ itoa maxBatchSize))))
             else run p <- processBatch tenantID evs h ;; Ret (fst p, mkResponse 200 (batch_json (snd p)))
         end.
End ingest.
Arguments ingest_env : clear implicits.
Arguments ingest_handler : clear implicits.

(** ** What the checked handler promises *)

Section promise.
Context {S : Type} `{!JobStore S} {view : S -> string -> job_state} {wf : S -> Prop} `{!JobStoreSpec S view wf}.
Implicit Types env : ingest_env S.

(** The other writers leave a store well formed. *)
Definition sane env : Prop := forall n s, wf s -> wf (ie_others env n s).

(** A write of the handler fails. *)
Definition write_fails env : Prop := exists n, ce_io (ie_calls env n) = false.

(** [s'] holds what the others made of [s]. *)
Inductive undone env : S -> S -> Prop :=
| undone_others s n : undone env s (ie_others env n s)
| undone_same s s' : wf s' -> same_jobs view s s' -> undone env s s'.

Definition disturbed env : S -> S -> Prop := rtc (undone env).

Lemma disturbed_wf env s s' : sane env -> wf s -> disturbed env s s' -> wf s'.
Proof.
  intros Ho Hs. induction 1 as [|s s1 s2 H _ IH]; [done|]. apply IH. destruct H; [by apply Ho|done].
Qed.

Lemma disturbed_step env s s' n : disturbed env s s' -> disturbed env s (ie_others env n s').
Proof. intros H. eapply rtc_r; [exact H|]. constructor. Qed.

(** [e] is the last event of its stream in [s'], and all else is as in [s]. *)
Definition lands (jobID : string) (e : JobEvent) (s s' : S) : Prop :=
  (exists e', jst_events (view s' jobID) = jst_events (view s jobID) ++ [e'] /\
     ev_Type e' = ev_Type e /\ ev_Payload e' = ev_Payload e) /\
  forall k, k <> jobID -> view s' k = view s k.

Definition landing env (jobID : string) (e : JobEvent) (s s' : S) : Prop := exists s1, disturbed env s s1 /\ lands jobID e s1 s'.

(** An append that fails may leave the event in the stream all the same. *)
Definition landed env (jobID : string) (e : JobEvent) (s s' : S) (o : event_outcome) : Prop :=
  match o with
  | Accepted => landing env jobID e s s'
  | Deduped => disturbed env s s'
  | Rejected reason => disturbed env s s' \/ reason = "append_failed" /\ write_fails env /\ landing env jobID e s s'
  end.

(** An append that does not land changes nothing. *)
Lemma append_lands env k jobID v e s :
  wf s -> jobID <> EmptyString ->
  exists s' r, js_Append (ie_calls env k) EmptyString jobID v e s = Ret (s', r) /\ wf s' /\
    match r with
    | Ok _ => lands jobID e s s'
    | Err err => same_jobs view s s' \/ err = PersistError /\ write_fails env /\ lands jobID e s s'
    end.
Proof.
  intros Hwf Hj. destruct (Append_view (ie_calls env k) EmptyString jobID v e s Hwf) as (s' & r & -> & Hwf' & Ha).
  exists s', r. split; [done|]. split; [done|]. unfold acts_as, job_append in Ha.
  rewrite (proj2 (String.eqb_neq _ _) Hj) in Ha. cbn [negb andb String.eqb] in Ha.
  destruct (version (view s jobID) =? v); cbn [negb] in Ha; [|destruct Ha as [-> Ha]; by left].
  assert (Hl : forall j, sets_job view jobID (mkJobState (jst_events (view s jobID) ++ [j]) (jst_claim (view s jobID))) s s' ->
    ev_Type j = ev_Type e -> ev_Payload j = ev_Payload e -> lands jobID e s s').
  { intros j [Hset Hother] Ht Hp. split; [|done]. exists j. by rewrite Hset. }
  destruct Ha as [[-> Ha]|(Hf & -> & [Ha|Ha])]; [by eapply Hl|by left|].
  right. split_and!; [done|by exists k|by eapply Hl].
Qed.

Lemma append_rounds_landed env n : forall k jobID v e s0 s,
  sane env -> wf s -> jobID <> EmptyString -> disturbed env s0 s ->
  exists s' o, append_rounds env n k jobID v e s = Ret (s', o) /\ wf s' /\ o <> Deduped /\ landed env jobID e s0 s' o.
Proof.
  induction n as [|n IH]; intros k jobID v e s0 s Hs Hwf Hj Hd; cbn [append_rounds];
    [exists s, (Rejected "append_failed"); split_and!; [done..|by left]|].
  apply (disturbed_step _ _ _ k) in Hd as Hd1.
  destruct (append_lands env k jobID v e (ie_others env k s) (Hs k s Hwf) Hj) as (s1 & r & -> & Hwf1 & Hr).
  cbn [outcome_bind fst snd]. destruct r as [v'|err].
  { exists s1, Accepted. split_and!; try done. by eexists. }
  destruct Hr as [Hr|(-> & Hf & Hr)];
    [|exists s1, (Rejected "append_failed"); split_and!; try done; right; split_and!; [done..|by eexists]].
  assert (Hd2 : disturbed env s0 s1) by (eapply rtc_r; [exact Hd1|by apply undone_same]).
  destruct err as [[]|]; try (exists s1, (Rejected "append_failed"); split_and!; [done..|by left]).
  rewrite ListEvents_view by (by apply Hs). cbn [outcome_bind snd]. apply IH; try done; [by apply Hs|by apply disturbed_step].
Qed.

Lemma append_reported_landed env ev s :
  sane env -> wf s -> en_JobID ev <> EmptyString ->
  exists s' o, append_reported env ev s = Ret (s', o) /\ wf s' /\ o <> Deduped /\
    landed env (en_JobID ev) (reported_event (ie_recorded env) ev) s s' o.
Proof.
  intros Hs Hwf Hj. unfold append_reported. rewrite ListEvents_view by (by apply Hs). cbn [outcome_bind fst snd].
  assert (Hd : disturbed env s (ie_others env 0 s)) by (by apply disturbed_step, rtc_refl).
  destruct (isJobTerminal _); [eexists _, (Rejected "job_terminal"); split_and!; [reflexivity|by apply Hs|done|by left]|].
  apply append_rounds_landed; [done|by apply Hs|done|done].
Qed.

(** What an accepted event passed. *)
Definition admissible (now : time) (owns : option (string -> string -> bool)) (tenantID : string) (ev : EventEnvelope) : Prop :=
  en_TenantID ev = tenantID /\ match owns with Some f => f (en_JobID ev) tenantID = true | None => True end /\
  isValidJobID (en_JobID ev) = true /\ en_EventUID ev <> EmptyString /\ en_Type ev ∈ reportable_types /\
  exists t, time_Parse (en_OccurredAt ev) = Some t /\ t_after t (t_add now (5 * minute)) = false.

Lemma envelope_check_admits now owns tenantID ev :
  envelope_check now owns tenantID ev = None -> admissible now owns tenantID ev /\ en_JobID ev <> EmptyString.
Proof.
  unfold envelope_check, admissible. intros H.
  destruct (negb (String.eqb (en_SchemaVersion ev) _) && _); [done|].
  destruct (String.eqb_spec (en_EventUID ev) EmptyString) as [|Hu]; [done|].
  destruct (String.eqb_spec (en_JobID ev) EmptyString) as [|Hj]; [done|]. cbn [orb] in H.
  destruct (_ || _ || _ || _); [done|]. destruct (String.eqb_spec (en_TenantID ev) tenantID) as [Ht|]; [|done].
  cbn [negb] in H. destruct (match owns with Some f => f (en_JobID ev) tenantID | None => true end) eqn:Ho; [|done].
  cbn [negb] in H. destruct (isValidJobID (en_JobID ev)); [|done]. cbn [negb] in H. destruct (_ <? _); [done|].
  unfold isReportableType in H. case_bool_decide as Hr; [|done]. cbn [negb] in H.
  destruct (time_Parse (en_OccurredAt ev)) as [t|]; [|done]. destruct (t_after t _) eqn:Hf; [done|].
  split_and!; try done; [by destruct owns|by exists t].
Qed.

(** The outcomes of calls that asked the store to append. *)
Definition taken (o : event_outcome) : bool :=
  match o with Accepted => true | Deduped => false | Rejected reason => String.eqb reason "append_failed" end.

Lemma envelope_check_reason now owns tenantID ev reason : envelope_check now owns tenantID ev = Some reason -> reason <> "append_failed".
Proof. unfold envelope_check. intros H. repeat case_match; by simplify_eq. Qed.

(** One call: an accepted event lands in the stream of its job; one whose
    append fails may; anything else writes nothing. *)
Definition call_ok env (tenantID : string) (ev : EventEnvelope) (h h' : ingest_handler S) (o : event_outcome) : Prop :=
  (taken o = true -> admissible (ie_now env) (ih_owner h) tenantID ev /\ ~ (dedupKey tenantID ev ∈ ih_dedup h)) /\
  landed env (en_JobID ev) (reported_event (ie_recorded env) ev) (ih_store h) (ih_store h') o.

Lemma processEvent_ok env tenantID ev h :
  sane env -> wf (ih_store h) ->
  exists h' o, processEvent env tenantID ev h = Ret (h', o) /\ wf (ih_store h') /\ call_ok env tenantID ev h h' o /\
    ih_dedup h ⊆ ih_dedup h' /\ ih_owner h' = ih_owner h /\ (taken o = true -> dedupKey tenantID ev ∈ ih_dedup h').
Proof.
  intros Hs Hwf. unfold processEvent. destruct (envelope_check _ _ _ ev) as [reason|] eqn:Hc.
  { apply envelope_check_reason, String.eqb_neq in Hc. exists h, (Rejected reason). unfold call_ok. cbn [taken]. rewrite Hc.
    split_and!; try done. left. apply rtc_refl. }
  apply envelope_check_admits in Hc as [Hadm Hj]. case_bool_decide as Hk.
  { exists h, Deduped. unfold call_ok. split_and!; try done. apply rtc_refl. }
  destruct (append_reported_landed env ev (ih_store h) Hs Hwf Hj) as (s' & o & -> & Hwf' & Hno & Hl).
  cbn [outcome_bind fst snd]. eexists _, o. split; [done|]. split; [done|]. split_and!.
  - by split_and!.
  - cbn. set_solver.
  - done.
  - intros _. cbn. set_solver.
Qed.

(** A sequence of calls with what each answered, and the keys of those that
    asked the store to append. *)
Fixpoint reports (calls : list (ingest_env S * string * EventEnvelope)) (h : ingest_handler S)
  : outcome (ingest_handler S * list event_outcome) :=
  match calls with
  | [] => Ret (h, [])
  | (env, tenantID, ev) :: calls =>
      run p <- processEvent env tenantID ev h ;;
      run q <- reports calls (fst p) ;;
      Ret (fst q, snd p :: snd q)
  end.

Definition taken_keys (calls : list (ingest_env S * string * EventEnvelope)) (os : list event_outcome) : list string :=
  omap (fun p => if taken (snd p) then Some (dedupKey (snd (fst (fst p))) (snd (fst p))) else None) (zip calls os).

Lemma reports_fresh_keys calls : forall h,
  Forall (fun c => sane (fst (fst c))) calls -> wf (ih_store h) ->
  exists h' os, reports calls h = Ret (h', os) /\ length os = length calls /\ NoDup (taken_keys calls os) /\
    (forall k, k ∈ taken_keys calls os -> k ∉ ih_dedup h).
Proof.
  induction calls as [|[[env tenantID] ev] calls IH]; intros h Hs Hwf.
  { exists h, []. split_and!; try done; [constructor|by intros k ?%not_elem_of_nil]. }
  apply Forall_cons in Hs as [Hs Hss]. cbn [fst] in Hs.
  destruct (processEvent_ok env tenantID ev h Hs Hwf) as (h1 & o & Hp & Hwf1 & Hok & Hsub & _ & Hin).
  destruct (IH h1 Hss Hwf1) as (h' & os & Hr & Hlen & Hnd & Hnew). cbn [reports]. rewrite Hp. cbn [outcome_bind fst snd].
  rewrite Hr. cbn [outcome_bind fst snd]. exists h', (o :: os). split; [done|]. split; [cbn; by rewrite Hlen|].
  unfold taken_keys in *. cbn [zip zip_with omap list_omap snd fst].
  destruct (taken o) eqn:Ho; (split; [|intros k Hk]); try done; try (intros Hd; apply (Hnew k Hk); by apply Hsub).
  - constructor; [|done]. intros Hk. by apply (Hnew _ Hk), Hin.
  - apply elem_of_cons in Hk as [->|Hk]; [by apply (proj1 Hok Ho)|]. intros Hd. apply (Hnew k Hk). by apply Hsub.
Qed.

(** C27: a reported event lands once.  In any sequence of calls of any tenants
    to the handler of internal/telemetry/ingest (which the router does not
    serve), whatever other writers append between the steps of a call, and
    whatever writes fail, every call returns.  An event it accepts was appended
    to the end of its job's stream, with no other stream changed; one it rejects
    because the append failed may have been, when a write failed; any other
    call writes nothing.  Accepted and failed events are admissible: of the
    caller's tenant, of a job that is the tenant's where the handler has a check
    of owners, and of a type that may be reported; and no two of them have the
    same key: none lands twice.  Over any event store with the
    interface's specification. *)
Theorem reported_event_lands_once calls h :
  Forall (fun c => sane (fst (fst c))) calls -> wf (ih_store h) ->
  exists h' os, reports calls h = Ret (h', os) /\ length os = length calls /\ NoDup (taken_keys calls os) /\
  forall pre env tenantID ev post, calls = pre ++ (env, tenantID, ev) :: post ->
    exists h1 os1 h2 o, reports pre h = Ret (h1, os1) /\ processEvent env tenantID ev h1 = Ret (h2, o) /\
      os !! length pre = Some o /\ ih_owner h1 = ih_owner h /\ call_ok env tenantID ev h1 h2 o.
Proof.
  intros Hs Hwf. destruct (reports_fresh_keys calls h Hs Hwf) as (h' & os & Hr & Hlen & Hnd & _). exists h', os. split_and!; try done.
  clear Hnd Hlen. revert h h' os Hwf Hr Hs. induction calls as [|[[env0 t0] ev0] calls IH]; intros h h' os Hwf Hr Hs pre env tenantID ev post Hc.
  { by destruct pre. }
  apply Forall_cons in Hs as [Hs0 Hss]. cbn [fst] in Hs0.
  destruct (processEvent_ok env0 t0 ev0 h Hs0 Hwf) as (h1 & o & Hp & Hwf1 & Hok & _ & How & _).
  cbn [reports] in Hr. rewrite Hp in Hr. cbn [outcome_bind fst snd] in Hr.
  destruct (reports calls h1) as [[h2 os2]|] eqn:Hr1; [|done]. cbn [outcome_bind fst snd] in Hr. injection Hr as <- <-.
  destruct pre as [|c pre].
  - injection Hc as -> -> -> ->. exists h, [], h1, o. by split_and!.
  - injection Hc as <- Hc. destruct (IH h1 h2 os2 Hwf1 Hr1 Hss pre env tenantID ev post Hc) as (h3 & os3 & h4 & o' & H3 & H4 & H5 & H6 & H7).
    exists h3, (o :: os3), h4, o'. cbn [reports]. rewrite Hp. cbn [outcome_bind fst snd]. rewrite H3. cbn [outcome_bind fst snd].
    split_and!; try done. by rewrite H6.
Qed.
End promise.

(** ** The handlers the router serves (api/http/handler.go) *)

Section served.
Context {R S : Type} `{!JobRepo R} `{!JobStore S}.

Record telemetry := mkTelemetry { te_events : option S; te_jobs : option R }.

(** The clocks, the calls into the event store, two for each append, and into
    the job store. *)
Record report_env := mkReportEnv { rp_now : time; rp_recorded : time; rp_append : bool -> call_env; rp_job : call_env }.

Record tally := mkTally {
  ta_accepted : Z; ta_deduped : Z; ta_rejected : Z; ta_rejections : list (string * string); ta_seen : gset string }.

Definition reject (uid reason : string) (t : tally) : tally :=
  mkTally (ta_accepted t) (ta_deduped t) (ta_rejected t + 1) (ta_rejections t ++ [(uid, reason)]) (ta_seen t).

(** Append at the version just read, and once more when that fails. *)
Definition append_twice (env : report_env) (jobID : string) (e : JobEvent) (s : S) : outcome (S * bool) :=
  run l <- js_ListEvents jobID s ;;
  run p <- js_Append (rp_append env false) EmptyString jobID (snd l) e s ;;
  match snd p with
  | Ok _ => Ret (fst p, true)
  | Err _ =>
      run l <- js_ListEvents jobID (fst p) ;;
      run p <- js_Append (rp_append env true) EmptyString jobID (snd l) e (fst p) ;;
      Ret (fst p, match snd p with Ok _ => true | Err _ => false end)
  end.

(** What an accepted event does to the job's record. *)
Definition reported_job (ev : EventEnvelope) (tenantID : string) : Job :=
  mkJob (en_JobID ev) (en_AgentID ev) tenantID "SDK-reported job" StatusRunning zero_time zero_time EmptyString 0 EmptyString
    zero_time EmptyString 0 EmptyString [] EmptyString EmptyString EmptyString EmptyString EmptyString EmptyString None.

Definition reported_status (t : string) : option JobStatus :=
  if String.eqb t "job_completed" then Some StatusCompleted
  else if String.eqb t "job_failed" then Some StatusFailed
  else if String.eqb t "job_cancelled" then Some StatusCancelled
  else None.

Definition update_record (env : report_env) (tenantID : string) (ev : EventEnvelope) (r : R) : R :=
  let r := if String.eqb (en_Type ev) "job_created"
           then match repo_Get (en_JobID ev) r with
                | Some _ => r
                | None => fst (repo_Create (rp_job env) (reported_job ev tenantID) r)
                end
           else r in
  match reported_status (en_Type ev), repo_Get (en_JobID ev) r with
  | Some st, Some _ => fst (repo_UpdateStatus (rp_job env) (en_JobID ev) st r)
  | _, _ => r
  end.

Definition ingest_one (env : report_env) (tenantID : string) (ev : EventEnvelope) (s : S) (jobs : option R) (t : tally)
  : outcome (S * option R * tally) :=
  let key := dedupKey tenantID ev in
  if bool_decide (key ∈ ta_seen t)
  then Ret (s, jobs, mkTally (ta_accepted t) (ta_deduped t + 1) (ta_rejected t) (ta_rejections t) (ta_seen t))
  else if negb (String.eqb (en_TenantID ev) tenantID) then Ret (s, jobs, reject (en_EventUID ev) "tenant_mismatch" t)
  else match time_Parse (en_OccurredAt ev) with
       | None => Ret (s, jobs, reject (en_EventUID ev) "invalid_timestamp" t)
       | Some occurred =>
           if t_after occurred (t_add (rp_now env) (5 * minute))
           then Ret (s, jobs, reject (en_EventUID ev) "future_timestamp" t)
           else
             run p <- append_twice env (en_JobID ev) (reported_event (rp_recorded env) ev) s ;;
             if snd p
             then Ret (fst p, update_record env tenantID ev <$> jobs,
                       mkTally (ta_accepted t + 1) (ta_deduped t) (ta_rejected t) (ta_rejections t) ({[key]} ∪ ta_seen t))
             else Ret (fst p, jobs, reject (en_EventUID ev) "append_failed" t)
       end.

Fixpoint ingest_all (tenantID : string) (evs : list (report_env * EventEnvelope)) (s : S) (jobs : option R) (t : tally)
  : outcome (S * option R * tally) :=
  match evs with
  | [] => Ret (s, jobs, t)
  | (env, ev) :: evs =>
      run p <- ingest_one env tenantID ev s jobs t ;;
      let '(s, jobs, t) := p in ingest_all tenantID evs s jobs t
  end.

Definition tally_json (t : tally) : json :=
  JObj [("accepted_version", JStr "1"); ("accepted", JNum (itoa (ta_accepted t))); ("deduped", JNum (itoa (ta_deduped t)));
        ("rejected", JNum (itoa (ta_rejected t)));
        ("rejections", JArr (map (fun r => JObj [("event_uid", JStr (fst r)); ("reason", JStr (snd r))]) (ta_rejections t)))].

(** [None] for a body that does not bind. *)
Definition IngestTelemetry (cx : Context) (body : option (list (report_env * EventEnvelope))) (h : telemetry)
  : outcome (telemetry * Response) :=
  match te_events h with
  | None => Ret (h, refuse 503 "event store not configured")
  | Some s =>
      match body with
      | None => Ret (h, refuse 400 "invalid request body")
      | Some evs =>
          if Z.of_nat (length evs) =? 0 then Ret (h, refuse 400 "empty batch")
          else if 100 <? Z.of_nat (length evs) then Ret (h, refuse 413 "batch too large (max 100)")
          else run p <- ingest_all (tenant_of cx) evs s (te_jobs h) (mkTally 0 0 0 [] ∅) ;;
               let '(s, jobs, t) := p in Ret (mkTelemetry (Some s) jobs, mkResponse 200 (tally_json t))
      end
  end.

Definition raw_json (raw : string) : json := default JNull (unmarshal raw).

Definition event_out (i : nat) (e : JobEvent) : json :=
  JObj [("type", JStr (event_type_string (ev_Type e))); ("job_id", JStr (ev_JobID e));
        ("created_at", JStr (format_rfc3339 (ev_CreatedAt e))); ("version", JNum (itoa (Z.of_nat i + 1)));
        ("payload", raw_json (if String.eqb (ev_Payload e) EmptyString then "{}" else ev_Payload e))].

(** A payload that is no JSON makes the encoder of the answer fail; such
    streams are not considered. *)
Definition GetTelemetryJobEvents (jobID : string) (h : telemetry) : outcome Response :=
  if String.eqb jobID EmptyString then Ret (refuse 400 "job id required")
  else match te_events h with
       | None => Ret (refuse 503 "event store not configured")
       | Some s =>
           run l <- js_ListEvents jobID s ;;
           Ret (mkResponse 200 (JObj [("job_id", JStr jobID); ("version", JNum (itoa (snd l)));
                                      ("events", JArr (imap event_out (fst l)))]))
       end.

Definition job_out (j : Job) : json :=
  JObj [("job_id", JStr (job_ID j)); ("agent_id", JStr (job_AgentID j)); ("status", JStr (status_string (job_Status j)));
        ("created_at", JStr (format_rfc3339 (job_CreatedAt j)))].

(** [agent] is the trimmed query parameter. *)
Definition ListTelemetryJobs (order : list string) (cx : Context) (agent : string) (h : telemetry) : Response :=
  match te_jobs h with
  | None => refuse 503 "job store not configured"
  | Some r =>
      let jobs := ListByTenant order (tenant_of cx) (if String.eqb agent EmptyString then [] else [agent])
                    (mkRange zero_time zero_time) 100 (repo_mem r) in
      mkResponse 200 (JObj [("tenant_id", JStr (tenant_of cx)); ("total", JNum (itoa (Z.of_nat (length jobs))));
                            ("jobs", JArr (map job_out jobs))])
  end.
End served.
Arguments telemetry : clear implicits.

(** ** Concrete reports *)

Definition alone (n : Z) (uuid : string) : ingest_env memoryStore :=
  mkIngestEnv (Time n 0) (Time n 0) (fun _ => mkEnv (Time n 0) uuid true) (fun _ s => s).

(** Another writer ends the job between the look at its stream and the
    append. *)
Definition ended (s : memoryStore) : memoryStore :=
  match js_Append (mkEnv (Time 5 0) "end" true) EmptyString "job-1" (snd (ListEvents s "job-1"))
          (mkJobEvent EmptyString "job-1" JobCompleted "{}" zero_time EmptyString EmptyString) s with
  | Ret p => fst p
  | Panic _ => s
  end.

Definition disturbed_once (n : Z) (uuid : string) : ingest_env memoryStore :=
  mkIngestEnv (Time n 0) (Time n 0) (fun _ => mkEnv (Time n 0) uuid true) (fun k s => if Nat.eqb k 1 then ended s else s).

Definition step_report (uid tenant job type : string) : EventEnvelope :=
  mkEnvelope "1" uid job "agent" tenant "1970-01-01T00:00:00Z" type "{}" "py".

Definition ingest_of (s : memoryStore) : ingest_handler memoryStore :=
  mkIngest s ∅ (newRateLimiter rateLimitWindow rateLimitMaxRequests) (Some (fun job tenant => String.eqb job "job-1" && String.eqb tenant "acme")).

Definition types_of (o : outcome (ingest_handler memoryStore * list event_outcome)) : option (list EventType * list event_outcome) :=
  match o with Ret (h, os) => Some (map ev_Type (events_of (ih_store h) "job-1"), os) | Panic _ => None end.

Definition three_reports : list (ingest_env memoryStore * string * EventEnvelope) :=
  [(alone 1 "1", "acme", step_report "u1" "acme" "job-1" "job_started");
   (alone 2 "2", "acme", step_report "u1" "acme" "job-1" "job_started");
   (alone 3 "3", "evil", step_report "u2" "evil" "job-1" "job_completed")].

Lemma alone_sane n uuid : sane (wf := unwatched) (alone n uuid).
Proof. by intros k s. Qed.

Lemma reported_event_lands_once_witness :
  types_of (reports three_reports (ingest_of NewMemoryStore)) = Some ([JobStarted], [Accepted; Deduped; Rejected "job_not_owned"]) /\
  exists h' os, reports three_reports (ingest_of NewMemoryStore) = Ret (h', os) /\ length os = 3%nat /\
  NoDup (taken_keys three_reports os) /\
  forall pre env tenantID ev post, three_reports = pre ++ (env, tenantID, ev) :: post ->
    exists h1 os1 h2 o, reports pre (ingest_of NewMemoryStore) = Ret (h1, os1) /\ processEvent env tenantID ev h1 = Ret (h2, o) /\
      os !! length pre = Some o /\ ih_owner h1 = ih_owner (ingest_of NewMemoryStore) /\
      call_ok (view := mem_view) (wf := unwatched) env tenantID ev h1 h2 o.
Proof.
  split; [vm_compute; done|].
  apply (reported_event_lands_once (view := mem_view) (wf := unwatched) three_reports (ingest_of NewMemoryStore)); [|done].
  repeat constructor; by apply alone_sane.
Defined.

(** ** Where reports go wrong *)

(** The end of a job is looked for before the first append only: an event that
    has to be appended again comes after the end. *)
Lemma late_event_lands_after_the_end :
  types_of (reports [(alone 1 "1", "acme", step_report "u1" "acme" "job-1" "job_started");
                     (disturbed_once 2 "2", "acme", step_report "u2" "acme" "job-1" "step_started")] (ingest_of NewMemoryStore))
  = Some ([JobStarted; JobCompleted; event_type_of_string "step_started"], [Accepted; Accepted]).
Proof. vm_compute. done. Qed.

(** An event that could not be appended is remembered as seen: sending it
    again is answered as a duplicate. *)
Lemma failed_report_is_never_taken :
  types_of (reports [(alone 1 "1", "acme", step_report "u1" "acme" "job-1" "job_completed");
                     (alone 2 "2", "acme", step_report "u2" "acme" "job-1" "job_started");
                     (alone 3 "3", "acme", step_report "u2" "acme" "job-1" "job_started")] (ingest_of NewMemoryStore))
  = Some ([JobCompleted], [Accepted; Rejected "job_terminal"; Deduped]).
Proof. vm_compute. done. Qed.

(** Two tenants whose names contain the separator can have one key for
    different events. *)
Lemma keys_of_tenants_collide :
  dedupKey "a" (step_report "c:u" "a" "b" "job_started") = dedupKey "a:b" (step_report "u" "a:b" "c" "job_started").
Proof. reflexivity. Qed.

Definition acme_job : Job :=
  mkJob "job-1" "agent" "acme" "goal" StatusRunning zero_time zero_time EmptyString 0 EmptyString zero_time EmptyString 0 EmptyString
    [] EmptyString EmptyString EmptyString EmptyString EmptyString EmptyString None.

Definition served_stores : telemetry JobStoreMem memoryStore :=
  mkTelemetry (Some NewMemoryStore) (Some (fst (Create (Time 0 0) "u" acme_job NewJobStoreMem))).

Definition report_at (n : Z) (uuid : string) : report_env :=
  mkReportEnv (Time n 0) (Time n 0) (fun _ => mkEnv (Time n 0) uuid true) (mkEnv (Time n 0) uuid true).

Definition evil : Context := mkContext ∅ "evil" "mallory".

(** The handler that is served looks at no job's tenant: anybody completes
    anybody's job, in its stream and in its record. *)
Lemma telemetry_completes_foreign_job :
  match IngestTelemetry evil (Some [(report_at 1 "1", step_report "u1" "evil" "job-1" "job_completed")]) served_stores with
  | Ret (h, resp) =>
      rs_Status resp = 200 /\
      ((fun s => map ev_Type (events_of s "job-1")) <$> te_events h) = Some [JobCompleted] /\
      (te_jobs h ≫= fun r => job_Status <$> Get "job-1" r) = Some StatusCompleted
  | Panic _ => False
  end.
Proof. vm_compute. done. Qed.

(** Duplicates are known within one batch only. *)
Lemma resent_report_lands_twice :
  let batch := [(report_at 1 "1", step_report "u1" "acme" "job-1" "job_started")] in
  let acme := mkContext ∅ "acme" "ann" in
  match IngestTelemetry acme (Some batch) served_stores with
  | Ret (h, _) =>
      match IngestTelemetry acme (Some batch) h with
      | Ret (h, resp) => rs_Status resp = 200 /\
          ((fun s => map ev_Type (events_of s "job-1")) <$> te_events h) = Some [JobStarted; JobStarted]
      | Panic _ => False
      end
  | Panic _ => False
  end.
Proof. vm_compute. done. Qed.
