(* ===== verification/Verification.v ===== *)
(** Checks of a finished execution: internal/agent/replay/verification.go
    (state changes against the outside world, before a replay is confirmed),
    internal/agent/replay/history.go (the iterator over a stream),
    internal/agent/verify/verify.go (execution hash, chain root and ledger
    proof) and its handler in internal/api/http/handler.go.

    A message keeps its format and arguments instead of the text Sprintf makes
    of them.  The order in which Go walks a map is an argument. *)

From S2P Require Import Prelude Sha256 GoTime Json GoStrings Base64 Events MemStore ProofChain Ledger Replay ReplayProps JobStore AccessControl JobApi.

(** ** Verdicts *)

Inductive VerificationStatus :=
| VerificationMatch | VerificationMismatch | VerificationPending | VerificationSkipped | VerificationError
| VerificationOther (s : string).

#[export] Instance verification_status_eq_dec : EqDecision VerificationStatus.
Proof. solve_decision. Defined.

Inductive ReplayDecision := RestoreAndSkip | ExecuteNormally | FailReplay | NeedsReview.

#[export] Instance replay_decision_eq_dec : EqDecision ReplayDecision.
Proof. solve_decision. Defined.

Record text := Sprintf { tx_format : string; tx_args : list string }.

Definition plain_text (s : string) : text := Sprintf s [].

Record VerificationResult := mkVerification {
  vr_Record : StateChangeRecord; vr_Status : VerificationStatus; vr_Message : text; vr_MatchDetails : text }.

(** The format of a flat object whose members are texts. *)
Definition json_format (names : list string) : string :=
  let dq := String dquote EmptyString in
  "{" +:+ (join ", " (map (fun n => dq +:+ (n +:+ (dq +:+ (": " +:+ (dq +:+ ("%s" +:+ dq)))))) names) +:+ "}").

Definition verdict (r : StateChangeRecord) (st : VerificationStatus) (m : text) : VerificationResult :=
  mkVerification r st m (plain_text EmptyString).

(** A verifier returns a pointer, which may be nil, and an error. *)
Record ExternalStateVerifier := mkVerifier {
  ver_Name : string; VerifyStateChange : StateChangeRecord -> option VerificationResult * option string }.

(** What a lookup answers when it has no value. *)
Inductive lookup_failure := LookupNotFound | LookupFailed (msg : string).

(** ** Tool calls *)

Record ToolLedgerEntry := mkEntry { te_Status : string; te_ResultHash : string }.

Definition ledger_ref (r : StateChangeRecord) : string :=
  if String.eqb (sc_ExternalRef r) EmptyString then sc_ResourceID r else sc_ExternalRef r.

Definition ledger_verify (lookup : option (string -> result lookup_failure ToolLedgerEntry)) (r : StateChangeRecord)
  : VerificationResult :=
  if String.eqb (sc_ExternalRef r) EmptyString && String.eqb (sc_ResourceID r) EmptyString
  then verdict r VerificationSkipped (plain_text "no external reference to verify")
  else if String.eqb (sc_ToolName r) EmptyString && negb (String.eqb (sc_ResourceType r) "tool")
          && negb (String.eqb (sc_ResourceType r) "tool_invocation")
  then verdict r VerificationSkipped (plain_text "not a tool invocation record")
  else match lookup with
       | None => verdict r VerificationError (plain_text "ToolLedgerVerifier: no store configured, cannot verify")
       | Some lookup =>
           match lookup (ledger_ref r) with
           | Err LookupNotFound => verdict r VerificationMismatch (Sprintf "tool ledger entry not found for ref %q" [ledger_ref r])
           | Err (LookupFailed e) => verdict r VerificationError (Sprintf "tool ledger lookup error: %v" [e])
           | Ok e =>
               if String.eqb (te_Status e) "confirmed" || String.eqb (te_Status e) "success"
               then mkVerification r VerificationMatch (plain_text "tool ledger entry confirmed")
                      (Sprintf (json_format ["status"; "result_hash"]) [te_Status e; te_ResultHash e])
               else if String.eqb (te_Status e) "started"
               then verdict r VerificationPending (plain_text "tool ledger entry is in-flight")
               else verdict r VerificationMismatch
                      (Sprintf "tool ledger entry status %q does not indicate committed state" [te_Status e])
           end
       end.

Definition ToolLedgerVerifier (lookup : option (string -> result lookup_failure ToolLedgerEntry)) : ExternalStateVerifier :=
  mkVerifier "ToolLedgerVerifier" (fun r => (Some (ledger_verify lookup r), None)).

(** ** Database resources *)

(** Both are known and differ. *)
Definition disagree (expected current : string) : bool :=
  negb (String.eqb expected EmptyString) && negb (String.eqb current EmptyString) && negb (String.eqb expected current).

Definition database_mismatch (r : StateChangeRecord) (version etag : string) : option text :=
  match disagree (sc_Version r) version, disagree (sc_Etag r) etag with
  | false, false => None
  | true, false => Some (Sprintf "version mismatch: expected %s, got %s" [sc_Version r; version])
  | false, true => Some (Sprintf "etag mismatch: expected %s, got %s" [sc_Etag r; etag])
  | true, true => Some (Sprintf "version mismatch: expected %s, got %s; etag mismatch: expected %s, got %s"
                          [sc_Version r; version; sc_Etag r; etag])
  end.

(** A lookup answers the version and the etag. *)
Definition database_verify (lookup : option (string -> result lookup_failure (string * string))) (r : StateChangeRecord)
  : VerificationResult :=
  if negb (String.eqb (sc_ResourceType r) "database") then verdict r VerificationSkipped (plain_text "not a database resource")
  else if String.eqb (sc_ResourceID r) EmptyString then verdict r VerificationSkipped (plain_text "no resource ID to verify")
  else match lookup with
       | None => verdict r VerificationError (plain_text "DatabaseStateVerifier: no lookup configured, cannot verify")
       | Some lookup =>
           match lookup (sc_ResourceID r) with
           | Err LookupNotFound => verdict r VerificationMismatch (Sprintf "database resource %q not found" [sc_ResourceID r])
           | Err (LookupFailed e) => verdict r VerificationError (Sprintf "database lookup error: %v" [e])
           | Ok (version, etag) =>
               match database_mismatch r version etag with
               | Some m => verdict r VerificationMismatch m
               | None => mkVerification r VerificationMatch (plain_text "database state verified")
                           (Sprintf (json_format ["resource_id"; "version"; "etag"]) [sc_ResourceID r; version; etag])
               end
           end
       end.

Definition DatabaseStateVerifier (lookup : option (string -> result lookup_failure (string * string))) : ExternalStateVerifier :=
  mkVerifier "DatabaseStateVerifier" (fun r => (Some (database_verify lookup r), None)).

(** ** All changes of a job *)

(** The first verifier that does not skip decides; one that fails without a
    result makes the program panic. *)
Fixpoint verifySingleRecord (vs : list ExternalStateVerifier) (r : StateChangeRecord) : outcome VerificationResult :=
  match vs with
  | [] => Ret (mkVerification r VerificationSkipped (plain_text "no suitable verifier found") (plain_text "{}"))
  | v :: vs =>
      match VerifyStateChange v r with
      | (None, _) => Panic "invalid memory address or nil pointer dereference"
      | (Some res, Some e) =>
          Ret (mkVerification (vr_Record res) VerificationError (Sprintf "verifier %s error: %v" [ver_Name v; e]) (vr_MatchDetails res))
      | (Some res, None) =>
          if decide (vr_Status res = VerificationSkipped) then verifySingleRecord vs r else Ret res
      end
  end.

Record ReplayVerificationResult := mkReplayVerification {
  rv_JobID : string; rv_VerificationTime : string; rv_OverallStatus : VerificationStatus; rv_Decision : ReplayDecision;
  rv_Results : list VerificationResult; rv_SkippedCount : Z; rv_MatchedCount : Z; rv_MismatchCount : Z; rv_ErrorCount : Z;
  rv_Summary : string }.

Definition set_StepID (stepID : string) (c : StateChangeRecord) : StateChangeRecord :=
  mkChange (sc_ResourceType c) (sc_ResourceID c) (sc_Operation c) stepID (sc_ToolName c) (sc_Version c) (sc_Etag c) (sc_ExternalRef c).

Fixpoint verify_records (vs : list ExternalStateVerifier) (rs : list StateChangeRecord) : outcome (list VerificationResult) :=
  match rs with
  | [] => Ret []
  | r :: rs => run v <- verifySingleRecord vs r ;; run l <- verify_records vs rs ;; Ret (v :: l)
  end.

Definition count_status (st : VerificationStatus) (l : list VerificationResult) : Z :=
  Z.of_nat (length (filter (fun v => vr_Status v = st) l)).

(** The status, the decision and the summary, from the counts and the number
    of changes. *)
Definition decide_replay (errors mismatches matched skipped total : Z) : VerificationStatus * ReplayDecision * string :=
  if 0 <? errors
  then (VerificationError, NeedsReview, "verification errors: " +:+ (itoa errors +:+ ("/" +:+ itoa total)))
  else if 0 <? mismatches
  then (VerificationMismatch, FailReplay, "state mismatch: " +:+ (itoa mismatches +:+ ("/" +:+ itoa total)))
  else if (matched =? 0) && (skipped =? total)
  then (VerificationSkipped, ExecuteNormally, "no state changes to verify, will execute normally")
  else (VerificationMatch, RestoreAndSkip, "all " +:+ (itoa matched +:+ " state changes verified match")).

(** [walk]: the steps with their changes, in the order they are walked.  The
    records of the caller get their step. *)
Definition stepped (walk : list (string * list StateChangeRecord)) : list (string * list StateChangeRecord) :=
  map (fun p => (fst p, map (set_StepID (fst p)) (snd p))) walk.

Definition Verify (vs : list ExternalStateVerifier) (now : time) (jobID : string) (walk : list (string * list StateChangeRecord))
  : outcome ReplayVerificationResult :=
  run l <- verify_records vs (concat (map snd (stepped walk))) ;;
  let c st := count_status st l in
  let '(st, d, summary) := decide_replay (c VerificationError) (c VerificationMismatch) (c VerificationMatch) (c VerificationSkipped)
                             (Z.of_nat (length l)) in
  Ret (mkReplayVerification jobID (format_rfc3339 (Time (unix_nano now) 0)) st d l (c VerificationSkipped) (c VerificationMatch)
         (c VerificationMismatch) (c VerificationError) summary).

(** The context of a confirmed replay holds the changes and nothing else. *)
Definition confirmed_context (walk : list (string * list StateChangeRecord)) : ReplayContext :=
  mkRC EmptyString EmptyString EmptyString ∅ ∅ ∅ ∅ ∅ ∅ (list_to_map (stepped walk)) ∅ EmptyString EmptyString PhaseUnknown
    None ∅ None ∅.

Definition ConfirmationReplay (vs : list ExternalStateVerifier) (now : time) (jobID : string)
  (walk : list (string * list StateChangeRecord)) : outcome (option ReplayContext * ReplayVerificationResult * option string) :=
  run v <- Verify vs now jobID walk ;;
  Ret match rv_Decision v with
      | RestoreAndSkip => (Some (confirmed_context walk), v, None)
      | ExecuteNormally => (None, v, None)
      | FailReplay => (None, v, Some "confirmation replay failed: external state mismatch")
      | NeedsReview => (None, v, Some "confirmation replay needs manual review")
      end.

(** ** The events of a job in order (history.go) *)

Record JobHistory := mkHistory { jh_events : list JobEvent; jh_idx : nat }.

Definition NewJobHistory {S} `{!JobStore S} (store : option S) (jobID : string) : outcome JobHistory :=
  match store with
  | None => Ret (mkHistory [] 0)
  | Some s => if String.eqb jobID EmptyString then Ret (mkHistory [] 0)
              else run l <- js_ListEvents jobID s ;; Ret (mkHistory (fst l) 0)
  end.

Definition Peek (h : JobHistory) : option JobEvent := jh_events h !! jh_idx h.

Definition Next (h : JobHistory) : JobHistory * option JobEvent :=
  match jh_events h !! jh_idx h with
  | None => (h, None)
  | Some e => (mkHistory (jh_events h) (Datatypes.S (jh_idx h)), Some e)
  end.

Fixpoint nexts (n : nat) (h : JobHistory) : list (option JobEvent) :=
  match n with O => [] | Datatypes.S n => snd (Next h) :: nexts n (fst (Next h)) end.

(** ** The proofs of a stream (verify.go) *)

Definition raw_word (w : Z) : string := String.string_of_list_ascii (map of_byte (be_bytes 4 w)).

(** [sha256.Sum256], as bytes. *)
Definition sum256 (msg : string) : string :=
  let d := sha256_words msg in
  raw_word (ha d) +:+ (raw_word (hb d) +:+ (raw_word (hc d) +:+ (raw_word (hd d) +:+
  (raw_word (he d) +:+ (raw_word (hf d) +:+ (raw_word (hg d) +:+ raw_word (hh d))))))).

(** [fmt.Sprintf("%x", s)] *)
Fixpoint hex_string (s : string) : string :=
  match s with
  | EmptyString => EmptyString
  | String c s => String (hex_digit (Z.shiftr (byte c) 4)) (String (hex_digit (byte c)) (hex_string s))
  end.

Example hex_sum : hex_string (sum256 "abc") = hex_sha256 "abc".
Proof. vm_compute. reflexivity. Qed.

Definition chain_id (prev : string) (e : JobEvent) : string :=
  or_else (ev_ID e) (itoa (Z.of_nat (String.length prev))).

Definition chain_input (prev : string) (e : JobEvent) : string :=
  prev +:+ String lf (chain_id prev e +:+ String " " (event_type_string (ev_Type e) +:+ String " " (b64_encode (ev_Payload e)))).

Definition chain_root (events : list JobEvent) : string := foldl (fun prev e => sum256 (chain_input prev e)) EmptyString events.

Definition EventChainRoot (events : list JobEvent) : string := hex_string (chain_root events).

(** The hash of the plan and the sequence of finished nodes. *)
Definition path_step (acc : string * string) (e : JobEvent) : string * string :=
  let '(planHash, nodeSeq) := acc in
  match ev_Type e with
  | PlanGenerated =>
      match payload_members (ev_Payload e) with
      | None => acc
      | Some ms =>
          let '(h, err) := dec_str "plan_hash" ms in
          let g := dec_raw "task_graph" ms in
          if err then acc
          else if negb (String.eqb h EmptyString) then (h, nodeSeq)
          else if negb (String.eqb g EmptyString) then (hex_sha256 g, nodeSeq)
          else acc
      end
  | NodeFinished =>
      match payload_members (ev_Payload e) with
      | None => acc
      | Some ms =>
          let '(node, e1) := dec_str "node_id" ms in
          let '(rt, e2) := dec_str "result_type" ms in
          if e1 || e2 then acc else (planHash, nodeSeq +:+ (node +:+ (":" +:+ (rt +:+ String lf EmptyString))))
      end
  | _ => acc
  end.

Definition execution_path (events : list JobEvent) : string * string := foldl path_step (EmptyString, EmptyString) events.

Definition ExecutionHash (events : list JobEvent) : string :=
  let '(planHash, nodeSeq) := execution_path events in hex_sha256 (planHash +:+ nodeSeq).

(** The key of a payload; empty when there is none. *)
Definition invocation_key (payload : string) : string :=
  match payload_members payload with
  | None => EmptyString
  | Some ms => let '(key, err) := dec_str "idempotency_key" ms in if err then EmptyString else key
  end.

Definition pending_step (pending : gset string) (e : JobEvent) : gset string :=
  let key := invocation_key (ev_Payload e) in
  match ev_Type e with
  | ToolInvocationStarted => if String.eqb key EmptyString then pending else {[key]} ∪ pending
  | ToolInvocationFinished => if String.eqb key EmptyString then pending else pending ∖ {[key]}
  | _ => pending
  end.

Record LedgerProofResult := mkLedgerProof { lp_OK : bool; lp_PendingIdempotencyKeys : list string }.

(** [walk]: the order in which the keys of a map come. *)
Definition LedgerProof (walk : gset string -> list string) (events : list JobEvent) : LedgerProofResult :=
  let pending := foldl pending_step ∅ events in
  mkLedgerProof (bool_decide (pending = ∅)) (walk pending).

Record VerifyResult := mkVerify {
  vy_ExecutionHash : string; vy_EventChainRootHash : string; vy_LedgerProof : LedgerProofResult; vy_ReplayProof : bool * string }.

(** [builder]: what the replay builder makes of the job, if there is one. *)
Definition Compute (walk : gset string -> list string) (events : list JobEvent)
  (builder : option (outcome (option ReplayContext))) : outcome VerifyResult :=
  match events with
  | [] => Ret (mkVerify EmptyString EmptyString (mkLedgerProof true []) (false, "no events"))
  | _ =>
      run rp <- match builder with
                | None => Ret (true, EmptyString)
                | Some b => run rc <- b ;;
                            Ret match rc with
                                | Some _ => (true, EmptyString)
                                | None => (false, "no replay context (empty or no plan)")
                                end
                end ;;
      Ret (mkVerify (ExecutionHash events) (EventChainRoot events) (LedgerProof walk events) rp)
  end.

(** GetJobVerify of handler.go. *)
Definition verify_json (v : VerifyResult) : json :=
  let p := vy_LedgerProof v in
  JObj [("execution_hash", JStr (vy_ExecutionHash v)); ("event_chain_root_hash", JStr (vy_EventChainRootHash v));
        ("tool_invocation_ledger_proof",
          JObj (("ok", JBool (lp_OK p)) ::
                match lp_PendingIdempotencyKeys p with
                | [] => []
                | l => [("pending_idempotency_keys", JArr (map JStr l))]
                end));
        ("replay_proof_result",
          JObj (("ok", JBool (fst (vy_ReplayProof v))) ::
                match snd (vy_ReplayProof v) with EmptyString => [] | e => [("error", JStr e)] end))].

Definition GetJobVerify {R S} `{!JobRepo R} `{!JobStore S} (walk : gset string -> list string) (cx : Context) (jobID : string)
  (h : Handler R S) : outcome Response :=
  match hd_jobEventStore h with
  | None => Ret (refuse 503 "事件存储未启用")
  | Some s =>
      match getJobAndCheckTenant cx jobID h with
      | Err resp => Ret resp
      | Ok _ =>
          run l <- js_ListEvents jobID s ;;
          run v <- Compute walk (fst l) (Some (run l <- js_ListEvents jobID s ;; BuildFromEvents (fst l))) ;;
          Ret (mkResponse 200 (verify_json v))
      end
  end.

(** ** The decision *)

Lemma verify_records_length vs rs l : verify_records vs rs = Ret l -> length l = length rs.
Proof.
  revert l. induction rs as [|r rs IH]; intros l; cbn; [by intros [= <-]|].
  rewrite outcome_bind_ret. intros (v & _ & H). rewrite outcome_bind_ret in H. destruct H as (l' & Hl & [= <-]).
  cbn. f_equal. by apply IH.
Qed.

Lemma verify_records_elem vs rs l : verify_records vs rs = Ret l ->
  Forall2 (fun r v => verifySingleRecord vs r = Ret v) rs l.
Proof.
  revert l. induction rs as [|r rs IH]; intros l; cbn; [intros [= <-]; constructor|].
  rewrite outcome_bind_ret. intros (v & Hv & H). rewrite outcome_bind_ret in H. destruct H as (l' & Hl & [= <-]).
  constructor; [done|by apply IH].
Qed.

(** A walk in another order gives the same results in another order. *)
Lemma verify_records_perm vs rs rs' l : rs ≡ₚ rs' -> verify_records vs rs = Ret l ->
  exists l', verify_records vs rs' = Ret l' /\ l ≡ₚ l'.
Proof.
  intros Hp. revert l. induction Hp as [|r rs rs' _ IH|r r' rs|rs1 rs2 rs3 _ IH1 _ IH2]; intros l Hl.
  - by exists l.
  - cbn in Hl |- *. rewrite outcome_bind_ret in Hl. destruct Hl as (v & Hv & Hl). rewrite outcome_bind_ret in Hl.
    destruct Hl as (k & Hk & [= <-]). destruct (IH k Hk) as (k' & Hk' & Hp). exists (v :: k'). rewrite Hv. cbn.
    rewrite Hk'. cbn. split; [done|]. by constructor.
  - cbn in Hl |- *. rewrite outcome_bind_ret in Hl. destruct Hl as (v & Hv & Hl). rewrite outcome_bind_ret in Hl.
    destruct Hl as (k & Hk & [= <-]). rewrite outcome_bind_ret in Hk. destruct Hk as (v' & Hv' & Hk).
    rewrite outcome_bind_ret in Hk. destruct Hk as (k' & Hk' & [= <-]).
    rewrite Hv, Hv', Hk'. cbn. eexists. split; [done|]. by constructor.
  - destruct (IH1 l Hl) as (l2 & H2 & Hp2). destruct (IH2 l2 H2) as (l3 & H3 & Hp3).
    exists l3. split; [done|]. by etrans.
Qed.

Lemma count_status_perm st l l' : l ≡ₚ l' -> count_status st l = count_status st l'.
Proof. unfold count_status. by intros ->. Qed.

Lemma count_status_pos st l : 0 < count_status st l <-> exists v, v ∈ l /\ vr_Status v = st.
Proof.
  unfold count_status. split.
  - intros H. destruct (filter (fun v => vr_Status v = st) l) as [|v k] eqn:Hf; [done|].
    exists v. assert (Hv : v ∈ filter (fun v => vr_Status v = st) l) by (rewrite Hf; by left).
    apply list_elem_of_filter in Hv. by destruct Hv.
  - intros (v & Hv & Hst). assert (Hin : v ∈ filter (fun v => vr_Status v = st) l) by (by apply list_elem_of_filter).
    destruct (filter _ l); [by apply not_elem_of_nil in Hin|]. cbn. lia.
Qed.

Lemma count_status_all st l : count_status st l = Z.of_nat (length l) <-> Forall (fun v => vr_Status v = st) l.
Proof.
  unfold count_status. induction l as [|v l IH]; [cbn; split; [constructor|done]|].
  rewrite filter_cons, Forall_cons. pose proof (length_filter (fun v => vr_Status v = st) l).
  case_decide as Hd; cbn [length]; split.
  - intros H1. split; [done|]. apply IH. lia.
  - intros [_ H1]. apply IH in H1. lia.
  - intros H1. exfalso. lia.
  - by intros [H1 _].
Qed.

(** The records of a job, each with its step. *)
Definition changes_of (walk : list (string * list StateChangeRecord)) : list StateChangeRecord := concat (map snd (stepped walk)).

Lemma changes_of_perm w w' : w ≡ₚ w' -> changes_of w ≡ₚ changes_of w'.
Proof.
  intros H. unfold changes_of, stepped. induction H as [|p w w' _ IH|p q w|w1 w2 w3 _ IH1 _ IH2]; cbn.
  - done.
  - by rewrite IH.
  - rewrite !app_assoc. by rewrite (Permutation_app_comm (map _ _) (map _ _)).
  - by etrans.
Qed.

(** How a decision depends on the verdicts. *)
Definition decided (l : list VerificationResult) (d : ReplayDecision) : Prop :=
  let some st := exists v, v ∈ l /\ vr_Status v = st in
  match d with
  | NeedsReview => some VerificationError
  | FailReplay => ~ some VerificationError /\ some VerificationMismatch
  | ExecuteNormally => Forall (fun v => vr_Status v = VerificationSkipped) l
  | RestoreAndSkip =>
      ~ some VerificationError /\ ~ some VerificationMismatch /\ exists v, v ∈ l /\ vr_Status v <> VerificationSkipped
  end.

(** The decision does not depend on the order of the walk and is that of the
    verdicts: an error asks for a review, else a mismatch fails the replay,
    else it is executed when every change was skipped, and restored
    otherwise. *)
Theorem Verify_decides vs now jobID w w' v :
  w ≡ₚ w' -> Verify vs now jobID w = Ret v ->
  decided (rv_Results v) (rv_Decision v) /\
  Forall2 (fun r x => verifySingleRecord vs r = Ret x) (changes_of w) (rv_Results v) /\
  exists v', Verify vs now jobID w' = Ret v' /\ rv_Decision v' = rv_Decision v /\ rv_OverallStatus v' = rv_OverallStatus v /\
    rv_Summary v' = rv_Summary v /\ rv_Results v ≡ₚ rv_Results v'.
Proof.
  intros Hp. unfold Verify. rewrite outcome_bind_ret. intros (l & Hl & Hv).
  destruct (verify_records_perm _ _ _ l (changes_of_perm _ _ Hp) Hl) as (l' & Hl' & Hpl).
  apply verify_records_elem in Hl as Hall. fold (changes_of w) (changes_of w') in *. rewrite Hl'. cbn [outcome_bind].
  cbn zeta in *. rewrite <-!(count_status_perm _ l l' Hpl), <-(Permutation_length Hpl). unfold decide_replay in *.
  destruct (Z.ltb_spec 0 (count_status VerificationError l)) as [He|He].
  { injection Hv as <-. cbn. rewrite count_status_pos in He. split; [done|]. split; [done|]. eexists. by split_and!. }
  destruct (Z.ltb_spec 0 (count_status VerificationMismatch l)) as [Hm|Hm].
  { injection Hv as <-. cbn. rewrite <-!count_status_pos. split; [split; [lia|done]|]. split; [done|]. eexists. by split_and!. }
  destruct ((count_status VerificationMatch l =? 0) && (count_status VerificationSkipped l =? Z.of_nat (length l))) eqn:Hs.
  - injection Hv as <-. cbn. apply andb_true_iff in Hs as [_ Hs]. apply Z.eqb_eq, count_status_all in Hs.
    split; [done|]. split; [done|]. eexists. by split_and!.
  - injection Hv as <-. cbn. rewrite <-!count_status_pos. split; [|split; [done|]; eexists; by split_and!].
    split; [lia|]. split; [lia|].
    destruct (decide (Forall (fun v => vr_Status v = VerificationSkipped) l)) as [Hall'|Hno].
    + exfalso. apply count_status_all in Hall' as Hc. rewrite Hc, Z.eqb_refl, andb_true_r in Hs. apply Z.eqb_neq in Hs.
      assert (0 < count_status VerificationMatch l) as (x & Hx & Hst)%count_status_pos by (unfold count_status in *; lia).
      rewrite Forall_forall in Hall'. by rewrite (Hall' x Hx) in Hst.
    + apply not_Forall_Exists in Hno; [|apply _]. apply Exists_exists in Hno as (x & Hx & Hn). by exists x.
Qed.

(** ** What a restored replay means *)

Section program.
Variables (ledger : string -> result lookup_failure ToolLedgerEntry) (database : string -> result lookup_failure (string * string)).

Definition program_verifiers : list ExternalStateVerifier :=
  [ToolLedgerVerifier (Some ledger); DatabaseStateVerifier (Some database)].

Definition tool_change (c : StateChangeRecord) : bool :=
  negb (String.eqb (sc_ExternalRef c) EmptyString && String.eqb (sc_ResourceID c) EmptyString) &&
  negb (String.eqb (sc_ToolName c) EmptyString && negb (String.eqb (sc_ResourceType c) "tool")
        && negb (String.eqb (sc_ResourceType c) "tool_invocation")).

Definition database_change (c : StateChangeRecord) : bool :=
  negb (tool_change c) && String.eqb (sc_ResourceType c) "database" && negb (String.eqb (sc_ResourceID c) EmptyString).

(** What the outside world says of a change. *)
Definition uncontradicted (c : StateChangeRecord) : Prop :=
  (tool_change c = true -> exists e, ledger (ledger_ref c) = Ok e /\ te_Status e ∈ ["confirmed"; "success"; "started"]) /\
  (database_change c = true -> exists version etag, database (sc_ResourceID c) = Ok (version, etag) /\
     disagree (sc_Version c) version = false /\ disagree (sc_Etag c) etag = false).

Lemma ledger_verify_skips c : vr_Status (ledger_verify (Some ledger) c) = VerificationSkipped <-> tool_change c = false.
Proof.
  unfold ledger_verify, tool_change. destruct (String.eqb (sc_ExternalRef c) EmptyString && _); [done|].
  destruct (String.eqb (sc_ToolName c) EmptyString && _ && _); [done|]. cbn.
  destruct (ledger _) as [e|[|m]]; [|done..]. repeat case_match; done.
Qed.

Lemma database_verify_skips c :
  vr_Status (database_verify (Some database) c) = VerificationSkipped <->
  String.eqb (sc_ResourceType c) "database" && negb (String.eqb (sc_ResourceID c) EmptyString) = false.
Proof.
  unfold database_verify. destruct (String.eqb (sc_ResourceType c) "database"); [|done]. cbn.
  destruct (String.eqb (sc_ResourceID c) EmptyString); [done|]. cbn.
  destruct (database _) as [[version etag]|[|m]]; [|done..]. by destruct (database_mismatch _ _ _).
Qed.

Definition program_verdict (c : StateChangeRecord) : VerificationResult :=
  if tool_change c then ledger_verify (Some ledger) c
  else if database_change c then database_verify (Some database) c
  else mkVerification c VerificationSkipped (plain_text "no suitable verifier found") (plain_text "{}").

Lemma program_verdict_spec c : verifySingleRecord program_verifiers c = Ret (program_verdict c).
Proof.
  unfold program_verdict, database_change, program_verifiers. cbn.
  pose proof (ledger_verify_skips c) as Hl. pose proof (database_verify_skips c) as Hd.
  destruct (tool_change c) eqn:Ht; case_decide as H1; try done.
  - by apply Hl in H1.
  - cbn. case_decide as H2.
    + by apply Hd in H2 as ->.
    + destruct (String.eqb (sc_ResourceType c) "database" && _); [done|]. destruct H2. by apply Hd.
  - destruct H1. by apply Hl.
Qed.

Lemma program_verdict_skips c : vr_Status (program_verdict c) = VerificationSkipped <-> tool_change c = false /\ database_change c = false.
Proof.
  unfold program_verdict. destruct (tool_change c) eqn:Ht; [rewrite ledger_verify_skips, Ht; by split; [|intros []]|].
  destruct (database_change c) eqn:Hd; [|by split]. rewrite database_verify_skips.
  unfold database_change in Hd. rewrite Ht in Hd. cbn in Hd. rewrite Hd. by split; [|intros []].
Qed.

Lemma program_verdict_settles c :
  vr_Status (program_verdict c) <> VerificationError -> vr_Status (program_verdict c) <> VerificationMismatch -> uncontradicted c.
Proof.
  intros He Hm. unfold program_verdict in He, Hm. split; intros Hc.
  - rewrite Hc in He, Hm. unfold tool_change in Hc. bool_hyps. unfold ledger_verify in He, Hm.
    destruct (String.eqb (sc_ExternalRef c) EmptyString && _); [done|].
    destruct (String.eqb (sc_ToolName c) EmptyString && _ && _); [done|].
    destruct (ledger _) as [e|[|m]]; [|done..]. exists e. split; [done|].
    destruct (String.eqb_spec (te_Status e) "confirmed") as [->|]; [set_solver|].
    destruct (String.eqb_spec (te_Status e) "success") as [->|]; [set_solver|]. cbn in Hm.
    destruct (String.eqb_spec (te_Status e) "started") as [->|]; [set_solver|done].
  - rewrite Hc in He, Hm. unfold database_change in Hc. bool_hyps. destruct (tool_change c); [done|]. unfold database_verify in He, Hm.
    destruct (String.eqb (sc_ResourceType c) "database"); [|done].
    destruct (String.eqb (sc_ResourceID c) EmptyString); [done|]. cbn in He, Hm.
    destruct (database _) as [[version etag]|[|m]]; [|done..]. exists version, etag. split; [done|].
    unfold database_mismatch in Hm. by destruct (disagree _ version), (disagree _ etag).
Qed.

(** With the two verifiers of the package a verification always ends; when a
    replay is restored no change is contradicted by the ledger or the
    database and there is a change they know about, and when it is executed
    there is none. *)
Theorem restored_changes_are_uncontradicted now jobID w :
  exists v, Verify program_verifiers now jobID w = Ret v /\
  match rv_Decision v with
  | RestoreAndSkip => Forall uncontradicted (changes_of w) /\
                      Exists (fun c => tool_change c || database_change c = true) (changes_of w)
  | ExecuteNormally => Forall (fun c => tool_change c || database_change c = false) (changes_of w)
  | FailReplay | NeedsReview => Exists (fun c => tool_change c || database_change c = true) (changes_of w)
  end.
Proof.
  assert (Hr : verify_records program_verifiers (changes_of w) = Ret (map program_verdict (changes_of w))).
  { induction (changes_of w) as [|c cs IH]; cbn [verify_records map]; [done|]. rewrite program_verdict_spec. cbn [outcome_bind]. by rewrite IH. }
  assert (Hv : exists v, Verify program_verifiers now jobID w = Ret v /\ rv_Results v = map program_verdict (changes_of w)).
  { unfold Verify. fold (changes_of w). rewrite Hr. cbn [outcome_bind]. unfold decide_replay. repeat case_match; simplify_eq; eexists; by split. }
  destruct Hv as (v & Hv & Hres). exists v. split; [done|].
  destruct (Verify_decides _ _ _ w w v (reflexivity w) Hv) as (Hd & _). unfold decided in Hd. rewrite Hres in Hd.
  assert (Hcase : forall c st, st <> VerificationSkipped -> vr_Status (program_verdict c) = st -> tool_change c || database_change c = true).
  { intros c st Hst Hc. destruct (tool_change c) eqn:Ht, (database_change c) eqn:Hb; try done.
    assert (vr_Status (program_verdict c) = VerificationSkipped) by (by apply program_verdict_skips). congruence. }
  assert (Hex : forall st, st <> VerificationSkipped -> (exists x, x ∈ map program_verdict (changes_of w) /\ vr_Status x = st) ->
    Exists (fun c => tool_change c || database_change c = true) (changes_of w)).
  { intros st Hst (x & Hx & Hs). apply list_elem_of_fmap in Hx as (c & -> & Hc). apply Exists_exists. exists c. split; [done|]. by eapply Hcase. }
  destruct (rv_Decision v).
  - destruct Hd as (He & Hm & x & Hx & Hs). split; [|by eapply Hex; eauto].
    apply Forall_forall. intros c Hc. apply program_verdict_settles; intros Hst; [apply He|apply Hm];
      (eexists; split; [by apply list_elem_of_fmap_2|done]).
  - rewrite Forall_map in Hd. eapply Forall_impl; [exact Hd|]. intros c Hc. cbn in Hc. apply program_verdict_skips in Hc as [-> ->]. done.
  - apply (Hex VerificationMismatch); [done|apply Hd].
  - by apply (Hex VerificationError).
Qed.
End program.

(** ** Streams *)

(** The iterator hands out the events in order, each once, and then none. *)
Theorem history_reads_all es n : nexts (length es + n) (mkHistory es 0) = map Some es ++ replicate n None.
Proof.
  enough (H : forall k, nexts (length (drop k es) + n) (mkHistory es k) = map Some (drop k es) ++ replicate n None) by (apply (H O)).
  assert (Hend : forall k, es !! k = None -> nexts n (mkHistory es k) = replicate n None).
  { intros k Hk. induction n as [|n IH]; [done|]. cbn. unfold Next. cbn [jh_events jh_idx]. rewrite Hk. cbn. by f_equal. }
  intros k. remember (drop k es) as r eqn:Hr. revert k Hr. induction r as [|e r IH]; intros k Hr.
  - apply Hend, lookup_ge_None. apply (f_equal length) in Hr. rewrite length_drop in Hr. cbn in Hr. lia.
  - assert (Hk : es !! k = Some e) by (by rewrite <-(Nat.add_0_r k), <-lookup_drop, <-Hr).
    cbn [nexts length Nat.add map app]. unfold Next at 1 2. cbn [jh_events jh_idx]. rewrite Hk. cbn [fst snd]. f_equal.
    apply IH. rewrite <-(drop_drop es k 1) || idtac. by rewrite (drop_S _ _ _ Hk) in Hr; injection Hr as ->.
Qed.

(** Looking does not move. *)
Lemma Peek_is_Next h : snd (Next h) = Peek h.
Proof. unfold Next, Peek. by destruct (jh_events h !! jh_idx h). Qed.

(** *** The ledger proof *)

(** What an event says about a key. *)
Definition ledger_event_of (key : string) (e : JobEvent) : option bool :=
  if negb (String.eqb (invocation_key (ev_Payload e)) key) then None
  else match ev_Type e with
       | ToolInvocationStarted => Some true
       | ToolInvocationFinished => Some false
       | _ => None
       end.

Definition open_call (key : string) (es : list JobEvent) : bool := fold_left (fun b e => default b (ledger_event_of key e)) es false.

Lemma pending_spec key es : key <> EmptyString -> (key ∈ foldl pending_step ∅ es <-> open_call key es = true).
Proof.
  intros Hk. induction es as [|e es IH] using rev_ind; [cbn; set_solver|].
  rewrite foldl_snoc. unfold open_call. rewrite fold_left_app. fold (open_call key es). cbn [fold_left].
  unfold pending_step, ledger_event_of.
  destruct (String.eqb_spec (invocation_key (ev_Payload e)) key) as [->|Hn]; cbn [negb default].
  - rewrite (proj2 (String.eqb_neq _ _) Hk). destruct (ev_Type e); cbn; try exact IH; set_solver.
  - destruct (ev_Type e), (String.eqb (invocation_key (ev_Payload e)) EmptyString); cbn; try exact IH; rewrite <-IH; set_solver.
Qed.

Lemma pending_keyed es : EmptyString ∉ foldl pending_step ∅ es.
Proof.
  induction es as [|e es IH] using rev_ind; [set_solver|]. rewrite foldl_snoc. unfold pending_step.
  destruct (ev_Type e), (String.eqb_spec (invocation_key (ev_Payload e)) EmptyString); set_solver.
Qed.

(** Finished events name an outcome that is a text. *)
Definition outcome_decodes (e : JobEvent) : Prop :=
  ev_Type e = ToolInvocationFinished ->
  match payload_members (ev_Payload e) with Some ms => snd (dec_str "outcome" ms) = false | None => True end.

Lemma barrier_is_ledger key e : key <> EmptyString -> outcome_decodes e -> barrier_event key e = ledger_event_of key e.
Proof.
  intros Hk Ho. destruct key as [|a key]; [done|]. unfold barrier_event, ledger_event_of, invocation_key, outcome_decodes in *.
  destruct (payload_members (ev_Payload e)) as [ms|]; [|by destruct (ev_Type e)].
  destruct (dec_str "idempotency_key" ms) as [k err].
  destruct (ev_Type e) eqn:Ht; try by destruct (String.eqb _ (String a key)).
  - destruct err; [done|]. by destruct (String.eqb k (String a key)).
  - rewrite Ho by done. destruct err; [done|]. by destruct (String.eqb k (String a key)).
Qed.

Lemma last_barrier_open key es : key <> EmptyString -> Forall outcome_decodes es -> last_barrier key es = open_call key es.
Proof.
  intros Hk. unfold last_barrier, open_call. generalize false. induction es as [|e es IH]; intros b Ho; [done|].
  apply Forall_cons in Ho as [He Ho]. cbn. by rewrite barrier_is_ledger, IH.
Qed.

(** The keys the ledger proof leaves open are those the replay would bar, so
    the proof holds exactly when the replay bars no call. *)
Theorem ledger_proof_agrees_with_replay walk es rc :
  (forall X, walk X ≡ₚ elements X) -> Forall outcome_decodes es -> BuildFromEvents es = Ret (Some rc) ->
  (forall key, key <> EmptyString ->
     (key ∈ lp_PendingIdempotencyKeys (LedgerProof walk es) <-> key ∈ rc_PendingToolInvocations rc)) /\
  (lp_OK (LedgerProof walk es) = true <-> forall key, key <> EmptyString -> key ∉ rc_PendingToolInvocations rc).
Proof.
  intros Hw Ho Hb.
  assert (Hkey : forall key, key <> EmptyString -> (key ∈ foldl pending_step ∅ es <-> key ∈ rc_PendingToolInvocations rc)).
  { intros key Hk. rewrite (pending_spec key es Hk), (pending_exactly_unfinished key es rc Hk Hb). by rewrite last_barrier_open. }
  unfold LedgerProof. cbn. split.
  - intros key Hk. by rewrite (Hw _), elem_of_elements, Hkey.
  - rewrite bool_decide_eq_true. split.
    + intros He key Hk. rewrite <-Hkey, He by done. set_solver.
    + intros Hno. apply set_eq. intros key. split; [|set_solver]. intros Hin. exfalso.
      destruct (decide (key = EmptyString)) as [->|Hk]; [by apply (pending_keyed es)|]. apply (Hno key Hk). by apply Hkey.
Qed.

(** *** The chain root *)

Lemma strip_crlf_no_lf s : str_in lf (strip_crlf s) = false.
Proof.
  induction s as [|c s IH]; [done|]. cbn. destruct ((byte c =? 10) || (byte c =? 13)) eqn:Hc; [done|]. cbn. rewrite IH, orb_false_r.
  apply orb_false_elim in Hc as [Hc _]. destruct (Ascii.eqb_spec c lf) as [->|]; [done|done].
Qed.

Lemma b64_no_lf s : str_in lf (b64_encode s) = false.
Proof. rewrite <-(strip_encode (String.length s) s) by lia. apply strip_crlf_no_lf. Qed.

Lemma b64_encode_inj s t : b64_encode s = b64_encode t -> s = t.
Proof. intros H. apply (f_equal b64_decode) in H. rewrite !b64_round_trip in H. congruence. Qed.

Definition unhex (h l : ascii) : option ascii :=
  match hex_value h, hex_value l with Some a, Some b => Some (of_byte (a * 16 + b)) | _, _ => None end.

Lemma unhex_hex c : unhex (hex_digit (Z.shiftr (byte c) 4)) (hex_digit (byte c)) = Some c.
Proof. destruct c as [[] [] [] [] [] [] [] []]; vm_compute; reflexivity. Qed.

#[local] Opaque hex_digit.

Lemma hex_string_inj s t : hex_string s = hex_string t -> s = t.
Proof.
  revert t. induction s as [|c s IH]; intros [|d t]; cbn; [done..|]. intros [= H1 H2 H3]. f_equal; [|by apply IH].
  pose proof (unhex_hex c) as Hc. rewrite H1, H2, unhex_hex in Hc. congruence.
Qed.

#[local] Transparent hex_digit.

(** An id is there, and ids and types hold no separator. *)
Definition separable (e : JobEvent) : bool :=
  negb (String.eqb (ev_ID e) EmptyString) && negb (str_in lf (ev_ID e)) && negb (str_in " " (ev_ID e)) &&
  negb (str_in lf (event_type_string (ev_Type e))) && negb (str_in " " (event_type_string (ev_Type e))).

Definition rooted (e : JobEvent) : string * string * string := (ev_ID e, event_type_string (ev_Type e), ev_Payload e).

Lemma chain_input_inj p1 p2 e1 e2 :
  separable e1 = true -> separable e2 = true -> chain_input p1 e1 = chain_input p2 e2 -> p1 = p2 /\ rooted e1 = rooted e2.
Proof.
  unfold separable, chain_input, chain_id, or_else, rooted. intros H1 H2. bool_hyps.
  repeat match goal with H : String.eqb _ EmptyString = false |- _ => rewrite H; clear H end. intros He.
  assert (Hlf : forall e, str_in lf (ev_ID e) = false -> str_in lf (event_type_string (ev_Type e)) = false ->
    str_in lf (ev_ID e +:+ String " " (event_type_string (ev_Type e) +:+ String " " (b64_encode (ev_Payload e)))) = false).
  { intros e Hi Ht. rewrite str_in_app. cbn [str_in]. rewrite str_in_app. cbn [str_in]. by rewrite Hi, Ht, b64_no_lf. }
  apply last_sep_inj in He as [-> He]; [|by apply Hlf..]. split; [done|].
  apply first_sep_inj in He as [-> He]; [|done..]. apply first_sep_inj in He as [-> He]; [|done..].
  by rewrite (b64_encode_inj _ _ He).
Qed.

(** The texts hashed on the way to the root. *)
Fixpoint chain_inputs (prev : string) (es : list JobEvent) : list string :=
  match es with [] => [] | e :: es => chain_input prev e :: chain_inputs (sum256 (chain_input prev e)) es end.

Definition root_collision (es1 es2 : list JobEvent) : Prop :=
  exists x y, x ∈ chain_inputs EmptyString es1 /\ y ∈ chain_inputs EmptyString es2 /\ x <> y /\ sum256 x = sum256 y.

Lemma chain_inputs_snoc es e p :
  chain_inputs p (es ++ [e]) = chain_inputs p es ++ [chain_input (foldl (fun prev e => sum256 (chain_input prev e)) p es) e].
Proof. revert p. induction es as [|x es IH]; intros p; cbn; [done|]. by rewrite IH. Qed.

Lemma chain_root_snoc es e : chain_root (es ++ [e]) = sum256 (chain_input (chain_root es) e).
Proof. unfold chain_root. by rewrite foldl_snoc. Qed.

Lemma sum256_nonempty x : sum256 x <> EmptyString.
Proof. unfold sum256, raw_word. cbn. done. Qed.

(** The root shown for a stream determines the id, type and payload of every
    event, in their order, unless the hashed texts collide; it says nothing of
    the job or of when the events were made. *)
Theorem chain_root_determines_stream es1 es2 :
  Forall (fun e => separable e = true) es1 -> Forall (fun e => separable e = true) es2 ->
  EventChainRoot es1 = EventChainRoot es2 -> map rooted es1 = map rooted es2 \/ root_collision es1 es2.
Proof.
  intros H1 H2 Hr%hex_string_inj. revert es2 H2 Hr. induction es1 as [|e1 es1 IH] using rev_ind; intros es2 H2 Hr.
  - destruct es2 as [|e2 es2 _] using rev_ind; [by left|]. rewrite chain_root_snoc in Hr. by destruct (sum256_nonempty _ (eq_sym Hr)).
  - destruct es2 as [|e2 es2 _] using rev_ind; rewrite ?chain_root_snoc in Hr; [by destruct (sum256_nonempty _ Hr)|].
    apply Forall_app in H1 as [H1 He1]. apply Forall_app in H2 as [H2 He2].
    apply Forall_cons in He1 as [He1 _]. apply Forall_cons in He2 as [He2 _].
    destruct (decide (chain_input (chain_root es1) e1 = chain_input (chain_root es2) e2)) as [Heq|Hne].
    + apply chain_input_inj in Heq as [Hp He]; [|done..]. rewrite !map_app. cbn. rewrite He.
      destruct (IH H1 es2 H2 Hp) as [->|(x & y & Hx & Hy & Hc)]; [by left|right].
      exists x, y. rewrite !chain_inputs_snoc, !elem_of_app. split; [by left|]. split; [by left|exact Hc].
    + right. do 2 eexists. rewrite !chain_inputs_snoc, !elem_of_app. split_and!; [right; by left|right; by left|exact Hne|done].
Qed.

(** ** Where the checks fall short *)

Definition in_flight : list (string * list StateChangeRecord) :=
  [("pay", [mkChange "tool_invocation" "" "create" "" "stripe" "" "" "ch_1"])].

(** A change whose call is still in flight counts as verified: the replay is
    restored with no change matched. *)
Lemma in_flight_change_is_restored :
  match Verify (program_verifiers (fun _ => Ok (mkEntry "started" "")) (fun _ => Err LookupNotFound)) (Time 0 0) "j" in_flight with
  | Ret v => rv_Decision v = RestoreAndSkip /\ rv_OverallStatus v = VerificationMatch /\ rv_MatchedCount v = 0 /\
             rv_Summary v = "all 0 state changes verified match"
  | Panic _ => False
  end.
Proof. vm_compute. done. Qed.

(** Streams of two jobs, and a stream whose event has lost its id, have the
    root of another stream. *)
Lemma root_ignores_job_and_missing_id :
  EventChainRoot [mkJobEvent "0" "job-1" JobStarted "{}" zero_time EmptyString EmptyString]
  = EventChainRoot [mkJobEvent EmptyString "job-2" JobStarted "{}" (Time 7 0) EmptyString EmptyString].
Proof. vm_compute. reflexivity. Qed.

(** The plan's hash and the path are joined without a separator. *)
Lemma execution_hash_confuses_plan_and_path :
  let ev t p := mkJobEvent EmptyString "j" t p zero_time EmptyString EmptyString in
  let member n v := quote n +:+ (":" +:+ quote v) in
  let obj l := "{" +:+ (join "," l +:+ "}") in
  let plan h := ev PlanGenerated (obj [member "plan_hash" h]) in
  let node n := ev NodeFinished (obj [member "node_id" n; member "result_type" "pure"]) in
  ExecutionHash [plan "ab"; node "c"] = ExecutionHash [plan "a"; node "bc"].
Proof. vm_compute. reflexivity. Qed.

(** The context of a confirmed replay knows of no completed node, no recorded
    result and no recorded time: only the state changes are in it. *)
Lemma confirmed_context_completes_nothing walk :
  rc_CompletedNodeIDs (confirmed_context walk) = ∅ /\ rc_CommandResults (confirmed_context walk) = ∅ /\
  rc_RecordedTime (confirmed_context walk) = None.
Proof. done. Qed.
