(* ===== verification/Trace.v ===== *)
(** internal/api/http/trace_tree.go and the tree of the trace page in
    handler.go: the execution tree derived from the events of a job.

    The nodes of the tree are shared through pointers: a heap holds them, and
    a node's children are places in it.  A walk is cut off by fuel; one
    without an end exhausts the stack of the program.  [overflow] is what the
    machine makes of a float outside the range of int. *)

From S2P Require Import Prelude GoTime Json GoFloat Events AccessControl.

(** ** Payloads *)

(** A number beyond the largest double is reported, and read as nil. *)
Fixpoint nil_out_of_range (v : json) : json :=
  match v with
  | JNum lit => match ParseFloat lit with Some _ => v | None => JNull end
  | JArr l => JArr (map nil_out_of_range l)
  | JObj l => JObj (map (fun '(k, x) => (k, nil_out_of_range x)) l)
  | _ => v
  end.

(** [_ = json.Unmarshal(payload, &pl)]: the map stays nil when that fails. *)
Definition event_object (payload : string) : option (list (string * json)) :=
  match go_maps (nil_out_of_range (default JNull (unmarshal payload))) with JObj l => Some l | _ => None end.

Definition event_map (payload : string) : list (string * json) := default [] (event_object payload).

Definition member_of (k : string) (pl : list (string * json)) : json := default JNull (lookup_field k pl).

Definition getStr (k : string) (pl : list (string * json)) : string := match member_of k pl with JStr s => s | _ => EmptyString end.

Definition getInt (overflow : float64 -> Z) (k : string) (pl : list (string * json)) : Z :=
  match member_of k pl with
  | JNum lit => match ParseFloat lit with Some f => int_of_float overflow f | None => 0 end
  | _ => 0
  end.

(** The text of a member; empty when there is none. *)
Definition raw_member (k : string) (pl : list (string * json)) : string :=
  match member_of k pl with JNull => EmptyString | v => print (reprint_numbers v) end.

(** [b.Sub(a).Milliseconds()]; a duration saturates. *)
Definition sub_ms (b a : time) : Z := Z.quot (Z.max min_int64 (Z.min max_int64 (unix_nano b - unix_nano a))) 1000000.

(** Layout ["15:04:05"]. *)
Definition clock (t : time) : string :=
  let r := (unix_nano t / second + zone t) mod 86400 in
  dec_fixed 2 (r / 3600) (String ":" (dec_fixed 2 (r / 60 mod 60) (String ":" (dec_fixed 2 (r mod 60) EmptyString)))).

(** ** The tree *)

Inductive node_kind := JobNode | PlanNode | StepNode | ToolNode.

Definition kind_text (k : node_kind) : string :=
  match k with JobNode => "job" | PlanNode => "plan" | StepNode => "node" | ToolNode => "tool" end.

Record ExecutionNode := mkXNode {
  xn_SpanID : string; xn_ParentID : option string; xn_Type : node_kind; xn_NodeID : string; xn_ToolName : string;
  xn_StartTime : option time; xn_EndTime : option time; xn_StepIndex : Z; xn_Input : string; xn_Output : string;
  xn_PayloadSummary : string; xn_DecisionSnapshot : string }.

(** The heap: each node with the places of its children.  [xt_open]: the
    unfinished tool calls of each node. *)
Record exec_tree := mkXTree {
  xt_nodes : list ExecutionNode; xt_children : list (list nat); xt_byID : gmap string nat; xt_open : gmap string (list nat) }.

Definition root_node : ExecutionNode :=
  mkXNode "root" None JobNode EmptyString EmptyString None None 0 EmptyString EmptyString EmptyString EmptyString.

Definition empty_tree : exec_tree := mkXTree [root_node] [[]] {["root" := O]} ∅.

Definition update_node (i : nat) (f : ExecutionNode -> ExecutionNode) (t : exec_tree) : exec_tree :=
  mkXTree (alter f i (xt_nodes t)) (xt_children t) (xt_byID t) (xt_open t).

(** A new node under its span. *)
Definition alloc_node (n : ExecutionNode) (t : exec_tree) : exec_tree :=
  mkXTree (xt_nodes t ++ [n]) (xt_children t ++ [[]]) (<[xn_SpanID n := length (xt_nodes t)]> (xt_byID t)) (xt_open t).

Definition add_child (p i : nat) (t : exec_tree) : exec_tree :=
  mkXTree (xt_nodes t) (alter (fun l => l ++ [i]) p (xt_children t)) (xt_byID t) (xt_open t).

(** Under the node of a span, if there is one by now. *)
Definition add_under (span : string) (i : nat) (t : exec_tree) : exec_tree :=
  match xt_byID t !! span with Some p => add_child p i t | None => t end.

Definition set_open (nodeID : string) (l : list nat) (t : exec_tree) : exec_tree :=
  mkXTree (xt_nodes t) (xt_children t) (xt_byID t) (<[nodeID := l]> (xt_open t)).

Definition open_tools (nodeID : string) (t : exec_tree) : list nat := default [] (xt_open t !! nodeID).

Definition set_end (e : time) (n : ExecutionNode) : ExecutionNode :=
  mkXNode (xn_SpanID n) (xn_ParentID n) (xn_Type n) (xn_NodeID n) (xn_ToolName n) (xn_StartTime n) (Some e) (xn_StepIndex n)
    (xn_Input n) (xn_Output n) (xn_PayloadSummary n) (xn_DecisionSnapshot n).

Definition set_summary (s : string) (n : ExecutionNode) : ExecutionNode :=
  mkXNode (xn_SpanID n) (xn_ParentID n) (xn_Type n) (xn_NodeID n) (xn_ToolName n) (xn_StartTime n) (xn_EndTime n) (xn_StepIndex n)
    (xn_Input n) (xn_Output n) s (xn_DecisionSnapshot n).

Definition set_output (s : string) (n : ExecutionNode) : ExecutionNode :=
  mkXNode (xn_SpanID n) (xn_ParentID n) (xn_Type n) (xn_NodeID n) (xn_ToolName n) (xn_StartTime n) (xn_EndTime n) (xn_StepIndex n)
    (xn_Input n) s (xn_PayloadSummary n) (xn_DecisionSnapshot n).

Definition set_decision (s : string) (n : ExecutionNode) : ExecutionNode :=
  mkXNode (xn_SpanID n) (xn_ParentID n) (xn_Type n) (xn_NodeID n) (xn_ToolName n) (xn_StartTime n) (xn_EndTime n) (xn_StepIndex n)
    (xn_Input n) (xn_Output n) (xn_PayloadSummary n) s.

Definition summarize (raw : string) : string :=
  if (120 <? String.length raw)%nat then str_take 120 raw +:+ "..." else raw.

Section build.
Variable overflow : float64 -> Z.

(** [i] is the place of the event in the stream. *)
Definition step_index (i : nat) (pl : list (string * json)) : Z :=
  let v := getInt overflow "step_index" pl in if v =? 0 then Z.of_nat i + 1 else v.

Definition begun_node (i : nat) (at_ : time) (span parent : string) (k : node_kind) (nodeID toolName : string)
  (pl : list (string * json)) : ExecutionNode :=
  mkXNode span (Some parent) k nodeID toolName (Some at_) None (step_index i pl) EmptyString EmptyString EmptyString EmptyString.

Definition plan_span (pl : list (string * json)) : string := or_else (getStr "trace_span_id" pl) "plan".

Definition on_plan_generated (i : nat) (at_ : time) (pl : list (string * json)) (t : exec_tree) : exec_tree :=
  let span := plan_span pl in
  match xt_byID t !! span with
  | Some _ => t
  | None => add_child 0 (length (xt_nodes t))
              (alloc_node (begun_node i at_ span (or_else (getStr "parent_span_id" pl) "root") PlanNode EmptyString EmptyString pl) t)
  end.

Definition on_decision (payload : string) (t : exec_tree) : exec_tree :=
  match xt_byID t !! "plan", payload with
  | Some p, String _ _ => update_node p (set_decision payload) t
  | _, _ => t
  end.

Definition node_span (pl : list (string * json)) : string := or_else (getStr "trace_span_id" pl) (getStr "node_id" pl).

Definition on_node_started (i : nat) (at_ : time) (pl : list (string * json)) (t : exec_tree) : exec_tree :=
  let nodeID := getStr "node_id" pl in
  if String.eqb nodeID EmptyString then t
  else
    let span := node_span pl in
    match xt_byID t !! span with
    | Some _ => t
    | None => add_under "plan" (length (xt_nodes t))
                (alloc_node (begun_node i at_ span (or_else (getStr "parent_span_id" pl) "plan") StepNode nodeID EmptyString pl) t)
    end.

Definition on_node_ended (at_ : time) (pl : list (string * json)) (t : exec_tree) : exec_tree :=
  if String.eqb (getStr "node_id" pl) EmptyString then t
  else match xt_byID t !! node_span pl with
       | None => t
       | Some n =>
           let t := update_node n (set_end at_) t in
           match raw_member "payload_results" pl with
           | EmptyString => t
           | raw => update_node n (set_summary (summarize raw)) t
           end
       end.

Definition tool_span (i : nat) (pl : list (string * json)) : string :=
  or_else (getStr "trace_span_id" pl)
    (getStr "node_id" pl +:+ (":tool:" +:+ (getStr "tool_name" pl +:+ (":" +:+ itoa (Z.of_nat i + 1))))).

Definition on_tool_called (i : nat) (at_ : time) (pl : list (string * json)) (t : exec_tree) : exec_tree :=
  let nodeID := getStr "node_id" pl in
  let span := tool_span i pl in
  match xt_byID t !! span with
  | Some _ => t
  | None =>
      let n := length (xt_nodes t) in
      let node := begun_node i at_ span (or_else (getStr "parent_span_id" pl) nodeID) ToolNode nodeID (getStr "tool_name" pl) pl in
      let node := mkXNode (xn_SpanID node) (xn_ParentID node) (xn_Type node) (xn_NodeID node) (xn_ToolName node) (xn_StartTime node)
                    (xn_EndTime node) (xn_StepIndex node) (raw_member "input" pl) EmptyString EmptyString EmptyString in
      let t := alloc_node node t in
      add_under nodeID n (set_open nodeID (open_tools nodeID t ++ [n]) t)
  end.

Definition on_tool_returned (at_ : time) (pl : list (string * json)) (t : exec_tree) : exec_tree :=
  let nodeID := getStr "node_id" pl in
  match last (open_tools nodeID t) with
  | None => t
  | Some n =>
      let t := update_node n (set_end at_) t in
      let t := match raw_member "output" pl with EmptyString => t | raw => update_node n (set_output raw) t end in
      set_open nodeID (removelast (open_tools nodeID t)) t
  end.

Definition trace_step (t : exec_tree) (i : nat) (e : JobEvent) : exec_tree :=
  let pl := event_map (ev_Payload e) in
  let at_ := ev_CreatedAt e in
  match ev_Type e with
  | PlanGenerated => on_plan_generated i at_ pl t
  | DecisionSnapshot => on_decision (ev_Payload e) t
  | NodeStarted => on_node_started i at_ pl t
  | NodeFinished => on_node_ended at_ pl t
  | ToolCalled => on_tool_called i at_ pl t
  | ToolReturned => on_tool_returned at_ pl t
  | _ => t
  end.

Fixpoint build_from (i : nat) (events : list JobEvent) (t : exec_tree) : exec_tree :=
  match events with [] => t | e :: events => build_from (S i) events (trace_step t i e) end.

Definition BuildExecutionTree (events : list JobEvent) : exec_tree := build_from 0 events empty_tree.
End build.

(** ** Walks *)

(** The nodes in the order of a walk from [i], each with the one it was
    reached from. *)
Fixpoint visit (fuel : nat) (children : list (list nat)) (from i : nat) : option (list (nat * nat)) :=
  match fuel with
  | O => None
  | S fuel => l ← mapM (visit fuel children i) (default [] (children !! i)); Some ((from, i) :: concat l)
  end.

Definition node_at (t : exec_tree) (i : nat) : ExecutionNode := default root_node (xt_nodes t !! i).

Record StepInfo := mkStepInfo {
  sf_SpanID : string; sf_Type : string; sf_Label : string; sf_StartTime : option time; sf_EndTime : option time;
  sf_DurationMs : Z; sf_Input : string; sf_Output : string }.

Definition node_label (n : ExecutionNode) : string :=
  match xn_Type n with
  | PlanNode => "Plan"
  | StepNode => "Node " +:+ xn_NodeID n
  | ToolNode => "Tool " +:+ xn_ToolName n
  | JobNode => xn_SpanID n
  end.

Definition duration_of (n : ExecutionNode) : option Z :=
  match xn_StartTime n, xn_EndTime n with Some a, Some b => Some (sub_ms b a) | _, _ => None end.

Definition step_info (n : ExecutionNode) : StepInfo :=
  mkStepInfo (xn_SpanID n) (kind_text (xn_Type n)) (node_label n) (xn_StartTime n) (xn_EndTime n) (default 0 (duration_of n))
    (xn_Input n) (xn_Output n).

Definition is_job (n : ExecutionNode) : bool := match xn_Type n with JobNode => true | _ => false end.

(** A walk with [fuel] calls nested. *)
Definition FlattenSteps (fuel : nat) (t : exec_tree) : option (list StepInfo) :=
  option_map (fun l : list (nat * nat) => omap (fun p => let n := node_at t (snd p) in if is_job n then None else Some (step_info n)) l)
    (visit fuel (xt_children t) 0 0).

Definition DAGNodesAndEdges (fuel : nat) (t : exec_tree) : option (list (string * string * string) * list (string * string)) :=
  option_map (fun l : list (nat * nat) => (omap (fun p => let n := node_at t (snd p) in
                            if is_job n then None else Some (xn_SpanID n, node_label n, kind_text (xn_Type n))) l,
             omap (fun p => let f := node_at t (fst p) in
                            if is_job f then None else Some (xn_SpanID f, xn_SpanID (node_at t (snd p)))) l))
    (visit fuel (xt_children t) 0 0).

(** [html.EscapeString] *)
Fixpoint EscapeString (s : string) : string :=
  match s with
  | EmptyString => EmptyString
  | String c r =>
      let e := EscapeString r in
      if Ascii.eqb c "&" then "&amp;" +:+ e
      else if Ascii.eqb c "'" then "&#39;" +:+ e
      else if Ascii.eqb c "<" then "&lt;" +:+ e
      else if Ascii.eqb c ">" then "&gt;" +:+ e
      else if Ascii.eqb c dquote then "&#34;" +:+ e
      else String c e
  end.

Definition timed_label (n : ExecutionNode) : string :=
  node_label n +:+ (match xn_StartTime n with Some t => " " +:+ clock t | None => EmptyString end
    +:+ match duration_of n with Some d => " (" +:+ (itoa d +:+ "ms)") | None => EmptyString end).

Definition bold (label kind : string) : string := "<b>" +:+ (label +:+ ("</b> <code>" +:+ (kind +:+ "</code>"))).

Definition is_empty {A} (l : list A) : bool := match l with [] => true | _ => false end.

(** The list items of the trace page. *)
Fixpoint renderTraceTreeHTML (fuel : nat) (t : exec_tree) (i : nat) : option string :=
  match fuel with
  | O => None
  | S fuel =>
      let n := node_at t i in
      let children := default [] (xt_children t !! i) in
      l ← mapM (renderTraceTreeHTML fuel t) children;
      if is_job n then Some (String.concat EmptyString l)
      else
        let dq := String dquote EmptyString in
        let label := bold (EscapeString (timed_label n)) (EscapeString (kind_text (xn_Type n))) in
        Some ("<li data-span-id=" +:+ (dq +:+ (EscapeString (xn_SpanID n) +:+ (dq +:+ (">" +:+
          ((if is_empty children then label
            else "<details open><summary>" +:+ (label +:+ ("</summary><ul>" +:+ (String.concat EmptyString l +:+ "</ul></details>"))))
           +:+ "</li>"))))))
  end.

(** [renderNodeHTML]: the nested list, labels as they are. *)
Fixpoint ExecutionTreeToHTML (fuel : nat) (t : exec_tree) (i : nat) : option string :=
  match fuel with
  | O => None
  | S fuel =>
      let n := node_at t i in
      let children := default [] (xt_children t !! i) in
      l ← mapM (ExecutionTreeToHTML fuel t) children;
      let label := match xn_Type n with JobNode => "Job (root)" | PlanNode => "Plan" | _ => timed_label n end in
      Some ("<li>" +:+ (bold label (kind_text (xn_Type n)) +:+
        ((if is_empty children then EmptyString else "<ul>" +:+ (String.concat EmptyString l +:+ "</ul>")) +:+ "</li>")))
  end.

(** ** Growing a tree by a leaf *)

Lemma visit_S fuel ch from i :
  visit (S fuel) ch from i = l ← mapM (visit fuel ch i) (default [] (ch !! i)); Some ((from, i) :: concat l).
Proof. reflexivity. Qed.


Section leaf.
Variables (ch : list (list nat)) (p : nat).

Definition with_leaf : list (list nat) := alter (fun l => l ++ [length ch]) p (ch ++ [[]]).

(** The leaf, once for each visit of its parent. *)
Definition leaves (l : list nat) : list nat := omap (fun x => if decide (x = p) then Some (length ch) else None) l.

Lemma leaves_app l k : leaves (l ++ k) = leaves l ++ leaves k.
Proof. unfold leaves. by rewrite omap_app. Qed.

Hypothesis Hp : (p < length ch)%nat.

Lemma children_with_leaf i :
  (i < length ch)%nat -> default [] (with_leaf !! i) = default [] (ch !! i) ++ (if decide (i = p) then [length ch] else []).
Proof.
  intros Hi. unfold with_leaf. destruct (decide (i = p)) as [->|Hne].
  - rewrite list_lookup_alter_eq, lookup_app_l by done. by destruct (lookup_lt_is_Some_2 ch p Hi) as [l ->].
  - rewrite list_lookup_alter_ne, lookup_app_l by done. by rewrite app_nil_r.
Qed.

Lemma children_of_leaf : default [] (with_leaf !! length ch) = [].
Proof. unfold with_leaf. by rewrite list_lookup_alter_ne, list_lookup_middle by lia. Qed.

Lemma visit_with_leaf fuel : forall from i l,
  Forall (Forall (fun c => (c < length ch)%nat)) ch -> (i < length ch)%nat -> visit fuel ch from i = Some l ->
  exists l', visit (S fuel) with_leaf from i = Some l' /\ map snd l' ≡ₚ map snd l ++ leaves (map snd l).
Proof.
  induction fuel as [|fuel IH]; intros from i l Hch Hi Hl; [done|]. rewrite visit_S in Hl.
  destruct (mapM (visit fuel ch i) (default [] (ch !! i))) as [ll|] eqn:Hm; [|done]. cbn in Hl. injection Hl as <-.
  apply mapM_Some in Hm.
  assert (Hcs : Forall (fun c => (c < length ch)%nat) (default [] (ch !! i))).
  { destruct (lookup_lt_is_Some_2 ch i Hi) as [cs Hc]. rewrite Hc. cbn. by eapply Forall_lookup_1 in Hch. }
  assert (Hll : exists ll', Forall2 (fun c k => visit (S fuel) with_leaf i c = Some k) (default [] (ch !! i)) ll' /\
    map snd (concat ll') ≡ₚ map snd (concat ll) ++ leaves (map snd (concat ll))).
  { clear Hi. induction Hm as [|c k cs ll Hc _ IHm]; [by exists []|]. apply Forall_cons in Hcs as [Hlt Hcs].
    destruct (IHm Hcs) as (ll' & Hf & Hp'). destruct (IH i c k Hch Hlt Hc) as (k' & Hk & Hpk).
    exists (k' :: ll'). split; [by constructor|]. cbn. rewrite !map_app, leaves_app, Hp', Hpk. solve_Permutation. }
  destruct Hll as (ll' & Hf & Hpm). pose proof (children_with_leaf i Hi) as Hc.
  destruct (decide (i = p)) as [->|Hne].
  - exists ((from, p) :: concat (ll' ++ [[(p, length ch)]])). split.
    + rewrite visit_S, Hc. assert (mapM (visit (S fuel) with_leaf p) (default [] (ch !! p) ++ [length ch]) = Some (ll' ++ [[(p, length ch)]])) as ->; [|done].
      apply mapM_Some. apply Forall2_app; [done|]. constructor; [|constructor]. cbv beta. rewrite visit_S, children_of_leaf. done.
    + rewrite concat_app. cbn. rewrite map_app. cbn. rewrite decide_True by done. cbn. rewrite Hpm. unfold leaves. solve_Permutation.
  - exists ((from, i) :: concat ll'). split.
    + rewrite visit_S, Hc, app_nil_r. assert (mapM (visit (S fuel) with_leaf i) (default [] (ch !! i)) = Some ll') as ->; [|done]. by apply mapM_Some.
    + cbn. rewrite decide_False by done. cbn. by rewrite Hpm.
Qed.

Lemma leaves_one l : NoDup l -> leaves l = if decide (p ∈ l) then [length ch] else [].
Proof.
  induction l as [|x l IH]; intros Hn; [done|]. apply NoDup_cons in Hn as [Hx Hn]. unfold leaves in *. cbn. rewrite IH by done.
  destruct (decide (x = p)) as [->|Hne].
  - rewrite decide_False by done. by rewrite decide_True by by left.
  - destruct (decide (p ∈ l)); [by rewrite decide_True by by right|]. rewrite decide_False; [done|]. by intros [?|?]%elem_of_cons.
Qed.
End leaf.

(** More fuel changes nothing. *)
Lemma visit_mono ch fuel : forall from i l, visit fuel ch from i = Some l -> visit (S fuel) ch from i = Some l.
Proof.
  induction fuel as [|fuel IH]; intros from i l Hl; [done|]. rewrite visit_S in Hl |- *.
  destruct (mapM (visit fuel ch i) (default [] (ch !! i))) as [ll|] eqn:Hm; [|done].
  assert (mapM (visit (S fuel) ch i) (default [] (ch !! i)) = Some ll) as ->; [|done].
  apply mapM_Some in Hm. apply mapM_Some. eapply Forall2_impl; [exact Hm|]. intros c k. apply IH.
Qed.

Lemma visit_fuel ch f g from i l : (f <= g)%nat -> visit f ch from i = Some l -> visit g ch from i = Some l.
Proof. intros Hle. revert l. induction Hle as [|g _ IH]; intros l Hl; [done|]. by apply visit_mono, IH. Qed.

(** A node that hangs below nothing is not seen. *)
Lemma visit_hidden ch x fuel : forall from i,
  Forall (Forall (fun c => (c < length ch)%nat)) ch -> (i < length ch)%nat -> visit fuel (ch ++ [x]) from i = visit fuel ch from i.
Proof.
  induction fuel as [|fuel IH]; intros from i Hch Hi; [done|]. rewrite !visit_S, lookup_app_l by done.
  destruct (lookup_lt_is_Some_2 ch i Hi) as [cs Hc]. rewrite Hc. cbn. eapply Forall_lookup_1 in Hch as Hcs; [|exact Hc].
  assert (mapM (visit fuel (ch ++ [x]) i) cs = mapM (visit fuel ch i) cs) as ->; [|done].
  clear Hc. induction Hcs as [|c cs Hlt _ IHc]; [done|]. cbn. by rewrite IH, IHc.
Qed.

(** ** A tree that can be shown *)

Definition spans (t : exec_tree) : list string := map xn_SpanID (xt_nodes t).

Lemma length_spans t : length (spans t) = length (xt_nodes t).
Proof. apply length_map. Qed.

(** What a walk of the tree sees: nodes of the heap, each once. *)
Definition walked (t : exec_tree) (l : list (nat * nat)) : Prop :=
  visit (length (xt_nodes t)) (xt_children t) 0 0 = Some l /\ NoDup (map snd l) /\
  Forall (fun i => (i < length (xt_nodes t))%nat) (map snd l).

Record grown (t : exec_tree) : Prop := {
  gr_len : length (xt_children t) = length (xt_nodes t);
  gr_closed : Forall (Forall (fun c => (c < length (xt_children t))%nat)) (xt_children t);
  gr_walk : exists l, walked t l;
  gr_byID : forall s i, xt_byID t !! s = Some i <-> spans t !! i = Some s;
  gr_job : forall i n, xt_nodes t !! i = Some n -> is_job n = bool_decide (i = O);
  gr_root : spans t !! O = Some "root";
}.

(** Nothing is hidden from the walk. *)
Definition full (t : exec_tree) : Prop := exists l, walked t l /\ length l = length (xt_nodes t).

Lemma walked_unique t l l' : walked t l -> walked t l' -> l = l'.
Proof. intros [H _] [H' _]. congruence. Qed.

Lemma full_perm t l : walked t l -> length l = length (xt_nodes t) -> map snd l ≡ₚ seq 0 (length (xt_nodes t)).
Proof.
  intros (_ & Hn & Hb) Hl. apply submseteq_length_Permutation; [|by rewrite length_seq, length_map, Hl].
  apply NoDup_submseteq; [done|]. intros i Hi. apply elem_of_seq. rewrite Forall_forall in Hb. specialize (Hb i Hi). lia.
Qed.

Lemma empty_walked : walked empty_tree [(O, O)].
Proof. split; [reflexivity|]. by repeat constructor; rewrite ?elem_of_nil; auto. Qed.

Lemma empty_full : full empty_tree.
Proof. exists [(O, O)]. split; [apply empty_walked|done]. Qed.

Lemma empty_grown : grown empty_tree.
Proof.
  split; try done.
  - repeat constructor.
  - eexists. apply empty_walked.
  - intros s i. unfold spans. cbn. rewrite lookup_singleton_Some. destruct i as [|i]; cbn.
    + split; [by intros [<- _]|by intros [= <-]].
    + by split; [intros [_ ?]|].
  - intros [|i] n; cbn; [intros [= <-]; done|done].
Qed.

Lemma update_grown i f t :
  (forall n, xn_SpanID (f n) = xn_SpanID n /\ is_job (f n) = is_job n) -> grown t -> grown (update_node i f t).
Proof.
  intros Hf [Hl Hc Hw Hb Hj Hr].
  assert (Hs : spans (update_node i f t) = spans t).
  { unfold spans, update_node. cbn. apply list_eq. intros k. rewrite !list_lookup_fmap.
    destruct (decide (k = i)) as [->|Hne]; [|by rewrite list_lookup_alter_ne].
    rewrite list_lookup_alter_eq. destruct (xt_nodes t !! i); [|done]. cbn. by rewrite (proj1 (Hf _)). }
  assert (Hb' : forall s k, xt_byID (update_node i f t) !! s = Some k <-> spans (update_node i f t) !! k = Some s).
  { intros s k. rewrite Hs. apply Hb. }
  assert (Hw' : exists l, walked (update_node i f t) l).
  { destruct Hw as [l Hw]. exists l. unfold walked in *. cbn. by rewrite length_alter. }
  split; try (rewrite Hs; done); try exact Hb'; try exact Hw'; cbn [update_node xt_nodes xt_children xt_byID]; rewrite ?length_alter; try done.
  - intros k n. destruct (decide (k = i)) as [->|Hne]; [|rewrite list_lookup_alter_ne by done; apply Hj].
    rewrite list_lookup_alter_eq. destruct (xt_nodes t !! i) as [m|] eqn:Hm; [|done]. cbn. intros [= <-].
    rewrite (proj2 (Hf m)). by apply Hj.
Qed.

Lemma open_grown nodeID l t : grown t -> grown (set_open nodeID l t).
Proof. by intros [Hl Hc Hw Hb Hj Hr]. Qed.

Lemma update_full i f t : full t -> full (update_node i f t).
Proof. intros (l & Hw & Hl). exists l. unfold walked in *. cbn. by rewrite length_alter. Qed.

(** The heap grows by a node; what hangs below what is settled apart. *)
Lemma alloc_grown n x t :
  grown t -> xt_byID t !! xn_SpanID n = None -> is_job n = false ->
  length x = S (length (xt_nodes t)) -> Forall (Forall (fun c => (c < length x)%nat)) x ->
  (exists l, walked (mkXTree (xt_nodes t ++ [n]) x (xt_byID (alloc_node n t)) (xt_open t)) l) ->
  grown (mkXTree (xt_nodes t ++ [n]) x (xt_byID (alloc_node n t)) (xt_open t)).
Proof.
  intros [Hl Hc Hw Hb Hj Hr] Hfresh Hn Hx Hcl Hwk. split; cbn [xt_nodes xt_children xt_byID].
  - rewrite length_app, Hx. cbn. lia.
  - done.
  - done.
  - intros s i. unfold spans. cbn. rewrite map_app. cbn. fold (spans t). pose proof (length_spans t) as Hls.
    destruct (decide (s = xn_SpanID n)) as [->|Hne].
    + rewrite lookup_insert_eq. split.
      * intros [= <-]. by rewrite <-Hls, list_lookup_middle.
      * intros Hi. destruct (decide (i < length (spans t))%nat) as [Hlt|Hge].
        -- rewrite lookup_app_l in Hi by done. apply Hb in Hi. congruence.
        -- apply lookup_lt_Some in Hi. rewrite length_app in Hi. cbn in Hi. f_equal. lia.
    + rewrite lookup_insert_ne by done. rewrite Hb. split; [intros Hi; by apply lookup_app_l_Some|].
      intros Hi. apply lookup_app_Some in Hi as [Hi|[_ Hi]]; [done|]. apply list_lookup_singleton_Some in Hi as [_ Hi]. congruence.
  - intros i m Hi. apply lookup_app_Some in Hi as [Hi|[Hge Hi]]; [by apply Hj|].
    apply list_lookup_singleton_Some in Hi as [_ <-]. rewrite Hn. symmetry. apply bool_decide_eq_false.
    apply lookup_lt_Some in Hr. rewrite length_spans in Hr. lia.
  - unfold spans. cbn. rewrite map_app. by apply lookup_app_l_Some.
Qed.

Lemma closed_app t x :
  grown t -> Forall (fun c => (c < S (length (xt_nodes t)))%nat) x ->
  Forall (Forall (fun c => (c < length (xt_children t ++ [x]))%nat)) (xt_children t ++ [x]).
Proof.
  intros Hg Hx. rewrite length_app. cbn. apply Forall_app. split.
  - eapply Forall_impl; [apply (gr_closed t Hg)|]. intros l Hl. eapply Forall_impl; [exact Hl|]. cbn. lia.
  - constructor; [|constructor]. eapply Forall_impl; [exact Hx|]. cbn. rewrite (gr_len t Hg). lia.
Qed.

(** A new node below nothing, or below itself, is hidden. *)
Lemma hidden_grown n x t :
  grown t -> xt_byID t !! xn_SpanID n = None -> is_job n = false -> Forall (fun c => (c < S (length (xt_nodes t)))%nat) x ->
  grown (mkXTree (xt_nodes t ++ [n]) (xt_children t ++ [x]) (xt_byID (alloc_node n t)) (xt_open t)).
Proof.
  intros Hg Hf Hn Hx. apply alloc_grown; try done.
  - rewrite length_app, (gr_len t Hg). cbn. lia.
  - by apply closed_app.
  - destruct (gr_walk t Hg) as (l & Hv & Hnd & Hb). exists l. split; [|split; [done|]].
    + cbn. rewrite length_app. cbn. rewrite visit_hidden; [|apply (gr_closed t Hg)|].
      * eapply visit_fuel; [|exact Hv]. lia.
      * pose proof (gr_root t Hg) as Hr. apply lookup_lt_Some in Hr. rewrite length_spans in Hr. rewrite (gr_len t Hg). lia.
    + cbn. eapply Forall_impl; [exact Hb|]. intros i. rewrite length_app. cbn. lia.
Qed.

(** A new node below an old one is seen where the old one is. *)
Lemma leaf_walked n p t l :
  grown t -> (p < length (xt_nodes t))%nat -> walked t l ->
  exists l', walked (add_child p (length (xt_nodes t)) (alloc_node n t)) l' /\
    length l' = (length l + if decide (p ∈ map snd l) then 1 else 0)%nat.
Proof.
  intros Hg Hp (Hv & Hnd & Hb). pose proof (gr_len t Hg) as Hl.
  destruct (visit_with_leaf (xt_children t) p ltac:(by rewrite Hl) _ 0 0 l (gr_closed t Hg) ltac:(lia) Hv) as (l' & Hv' & Hp').
  rewrite (leaves_one _ _ _ Hnd) in Hp'. exists l'.
  assert (Hlen : length l' = (length l + if decide (p ∈ map snd l) then 1 else 0)%nat).
  { rewrite <-(length_map snd l'), Hp', length_app, length_map. by destruct (decide (p ∈ map snd l)). }
  split; [|done]. split; [|split].
  - unfold with_leaf in Hv'. rewrite Hl in Hv'. cbn [xt_nodes xt_children add_child alloc_node]. rewrite length_app. cbn [length].
    rewrite Nat.add_1_r. exact Hv'.
  - rewrite Hp'. apply NoDup_app. split; [done|]. destruct (decide (p ∈ map snd l)); (split; [|try apply NoDup_singleton; try constructor]).
    + intros i Hi ->%list_elem_of_singleton. rewrite Forall_forall in Hb. specialize (Hb _ Hi). rewrite Hl in Hb. lia.
    + by intros i _ ?%not_elem_of_nil.
  - rewrite Hp'. cbn. rewrite length_app. cbn. apply Forall_app. split.
    + eapply Forall_impl; [exact Hb|]. cbn. lia.
    + destruct (decide (p ∈ map snd l)); [|constructor]. constructor; [|constructor]. lia.
Qed.

Lemma leaf_grown n p t :
  grown t -> xt_byID t !! xn_SpanID n = None -> (p < length (xt_nodes t))%nat -> is_job n = false ->
  grown (add_child p (length (xt_nodes t)) (alloc_node n t)).
Proof.
  intros Hg Hf Hp Hn. pose proof (gr_len t Hg) as Hl.
  refine (alloc_grown n (alter (fun l => l ++ [length (xt_nodes t)]) p (xt_children t ++ [[]])) t Hg Hf Hn _ _ _).
  - cbn. rewrite length_alter, length_app, Hl. cbn. lia.
  - cbn. rewrite length_alter. apply Forall_alter; [by apply closed_app|]. intros l _ Hx. apply Forall_app. split; [done|].
    constructor; [|constructor]. rewrite length_app, Hl. cbn. lia.
  - destruct (gr_walk t Hg) as [l Hw]. destruct (leaf_walked n p t l Hg Hp Hw) as (l' & Hw' & _). by exists l'.
Qed.

Lemma leaf_full n p t :
  grown t -> (p < length (xt_nodes t))%nat -> full t -> full (add_child p (length (xt_nodes t)) (alloc_node n t)).
Proof.
  intros Hg Hp (l & Hw & Hlen). destruct (leaf_walked n p t l Hg Hp Hw) as (l' & Hw' & Hl'). exists l'. split; [done|].
  rewrite decide_True in Hl'. { cbn. rewrite length_app. cbn. lia. }
  rewrite (full_perm t l Hw Hlen). apply elem_of_seq. lia.
Qed.

Section shown.
Variable overflow : float64 -> Z.

(** The span an event puts into the tree. *)
Definition span_of (i : nat) (e : JobEvent) : option string :=
  let pl := event_map (ev_Payload e) in
  match ev_Type e with
  | PlanGenerated => Some (plan_span pl)
  | NodeStarted => if String.eqb (getStr "node_id" pl) EmptyString then None else Some (node_span pl)
  | ToolCalled => Some (tool_span i pl)
  | _ => None
  end.

(** A node starts under a plan, and a tool is called in a node. *)
Definition nested_event (t : exec_tree) (e : JobEvent) : bool :=
  let pl := event_map (ev_Payload e) in
  match ev_Type e with
  | NodeStarted => String.eqb (getStr "node_id" pl) EmptyString || bool_decide (is_Some (xt_byID t !! "plan"))
  | ToolCalled => bool_decide (is_Some (xt_byID t !! getStr "node_id" pl))
  | _ => true
  end.

Fixpoint nested_from (i : nat) (events : list JobEvent) (t : exec_tree) : bool :=
  match events with [] => true | e :: events => nested_event t e && nested_from (S i) events (trace_step overflow t i e) end.

Definition well_nested (events : list JobEvent) : bool := nested_from 0 events empty_tree.

Lemma span_elem t s : grown t -> (s ∈ spans t <-> is_Some (xt_byID t !! s)).
Proof.
  intros Hg. rewrite list_elem_of_lookup. split; intros [i Hi]; exists i; by apply (gr_byID t Hg).
Qed.

(** [t'] is [t] with the span added, if there is one, and hides nothing when
    the event is [ok] and [t] hid nothing. *)
Definition adds (ok : bool) (t t' : exec_tree) (sp : option string) : Prop :=
  grown t' /\ (forall s, s ∈ spans t' <-> s ∈ spans t \/ sp = Some s) /\ (ok = true -> full t -> full t').

Lemma adds_same ok t : grown t -> adds ok t t None.
Proof. intros Hg. split; [done|]. split; [|done]. intros s. naive_solver. Qed.

Lemma adds_known ok t s i : grown t -> xt_byID t !! s = Some i -> adds ok t t (Some s).
Proof.
  intros Hg Hs. split; [done|]. split; [|done]. intros s'. split; [by left|]. intros [?|[= <-]]; [done|].
  apply (span_elem t s Hg). by exists i.
Qed.

Lemma spans_alloc n x b o t s : s ∈ spans (mkXTree (xt_nodes t ++ [n]) x b o) <-> s ∈ spans t \/ Some (xn_SpanID n) = Some s.
Proof. unfold spans. cbn. rewrite map_app, elem_of_app. cbn. rewrite list_elem_of_singleton. naive_solver. Qed.

Lemma adds_leaf ok n p t :
  grown t -> xt_byID t !! xn_SpanID n = None -> (p < length (xt_nodes t))%nat -> is_job n = false ->
  adds ok t (add_child p (length (xt_nodes t)) (alloc_node n t)) (Some (xn_SpanID n)).
Proof.
  intros Hg Hf Hp Hn. split; [by apply leaf_grown|]. split; [intros s; apply spans_alloc|]. intros _. by apply leaf_full.
Qed.

(** Below a span, which may be unknown or the node's own. *)
Lemma adds_under n parent t :
  grown t -> xt_byID t !! xn_SpanID n = None -> is_job n = false ->
  adds (bool_decide (is_Some (xt_byID t !! parent))) t (add_under parent (length (xt_nodes t)) (alloc_node n t)) (Some (xn_SpanID n)).
Proof.
  intros Hg Hf Hn. unfold add_under. cbn [xt_byID alloc_node].
  destruct (decide (parent = xn_SpanID n)) as [->|Hne].
  - rewrite lookup_insert_eq, bool_decide_false by (rewrite Hf; by intros [? ?]). split; [|split; [intros s; apply spans_alloc|done]].
    assert (Hx : alter (fun l => l ++ [length (xt_nodes t)]) (length (xt_nodes t)) (xt_children t ++ [[]]) = xt_children t ++ [[length (xt_nodes t)]]).
    { rewrite <-(gr_len t Hg), alter_app_r_alt, Nat.sub_diag by lia. done. }
    unfold add_child. cbn [xt_children alloc_node]. rewrite Hx. refine (hidden_grown n [length (xt_nodes t)] t Hg Hf Hn _). repeat constructor.
  - rewrite lookup_insert_ne by done. destruct (xt_byID t !! parent) as [p|] eqn:Hp.
    + apply adds_leaf; try done. apply (gr_byID t Hg) in Hp. apply lookup_lt_Some in Hp. by rewrite length_spans in Hp.
    + split; [|split; [intros s; apply spans_alloc|done]]. refine (hidden_grown n [] t Hg Hf Hn _). constructor.
Qed.

Lemma spans_update i f t : (forall n, xn_SpanID (f n) = xn_SpanID n) -> spans (update_node i f t) = spans t.
Proof.
  intros Hf. unfold spans, update_node. cbn. apply list_eq. intros k. rewrite !list_lookup_fmap.
  destruct (decide (k = i)) as [->|Hne]; [|by rewrite list_lookup_alter_ne].
  rewrite list_lookup_alter_eq. destruct (xt_nodes t !! i); [|done]. cbn. by rewrite Hf.
Qed.

Lemma adds_update ok i f t t' :
  (forall n, xn_SpanID (f n) = xn_SpanID n /\ is_job (f n) = is_job n) -> adds ok t t' None -> adds ok t (update_node i f t') None.
Proof.
  intros Hf (Hg & Hs & Hfull). split; [by apply update_grown|]. split; [|intros Ho Ht; by apply update_full, Hfull].
  intros s. rewrite spans_update; [apply Hs|]. intros n. apply Hf.
Qed.

Lemma adds_open ok nodeID l t t' sp : adds ok t t' sp -> adds ok t (set_open nodeID l t') sp.
Proof. by intros ([? ? ? ? ? ?] & Hs & Hf). Qed.

Lemma trace_step_adds t i e : grown t -> adds (nested_event t e) t (trace_step overflow t i e) (span_of i e).
Proof.
  intros Hg. unfold trace_step, span_of, nested_event. set (pl := event_map (ev_Payload e)). clearbody pl.
  pose proof (adds_same true t Hg) as Hsame.
  destruct (ev_Type e); try by apply adds_same.
  - unfold on_plan_generated. destruct (xt_byID t !! plan_span pl) as [k|] eqn:Hs; [by eapply adds_known|].
    apply (adds_leaf true (begun_node overflow i (ev_CreatedAt e) (plan_span pl) _ PlanNode _ _ pl) 0 t Hg Hs); [|done].
    pose proof (gr_root t Hg) as Hr. apply lookup_lt_Some in Hr. by rewrite length_spans in Hr.
  - unfold on_node_started. destruct (String.eqb (getStr "node_id" pl) EmptyString); [by apply adds_same|].
    destruct (xt_byID t !! node_span pl) as [k|] eqn:Hs; [by eapply adds_known|].
    exact (adds_under (begun_node overflow i (ev_CreatedAt e) (node_span pl) _ StepNode _ _ pl) "plan" t Hg Hs eq_refl).
  - unfold on_node_ended. destruct (String.eqb (getStr "node_id" pl) EmptyString); [done|].
    destruct (xt_byID t !! node_span pl) as [k|]; [|done]. destruct (raw_member "payload_results" pl); repeat (apply adds_update; [done|]); done.
  - unfold on_tool_called. destruct (xt_byID t !! tool_span i pl) as [k|] eqn:Hs; [by eapply adds_known|].
    match goal with |- adds _ _ (add_under ?q ?m (set_open ?k ?l (alloc_node ?n t))) _ =>
      pose proof (adds_under n q t Hg Hs eq_refl) as Ha; revert Ha; unfold add_under; cbn [xt_byID set_open alloc_node];
      destruct (<[_:=_]> (xt_byID t) !! q); intros Ha end; exact (adds_open _ (getStr "node_id" pl) _ _ _ _ Ha).
  - unfold on_tool_returned. destruct (last (open_tools (getStr "node_id" pl) t)) as [k|]; [|done]. apply adds_open.
    destruct (raw_member "output" pl); repeat (apply adds_update; [done|]); done.
  - unfold on_decision. destruct (xt_byID t !! "plan") as [k|]; [|done].
    destruct (ev_Payload e); [done|]. by apply adds_update.
Qed.

Lemma build_from_adds events : forall i t, grown t ->
  let t' := build_from overflow i events t in
  grown t' /\ (forall s, s ∈ spans t' <-> s ∈ spans t \/ exists k e, events !! k = Some e /\ span_of (i + k) e = Some s) /\
  (nested_from i events t = true -> full t -> full t').
Proof.
  induction events as [|e events IH]; intros i t Hg; cbn [build_from nested_from].
  { split; [done|]. split; [|done]. intros s. split; [by left|]. by intros [?|(k & e & ? & _)]. }
  destruct (trace_step_adds t i e Hg) as (Hg1 & Hs1 & Hf1). destruct (IH (S i) _ Hg1) as (Hg2 & Hs2 & Hf2).
  split; [done|]. split.
  - intros s. rewrite Hs2, Hs1. split.
    + intros [[?|He]|(k & e' & Hk & He)]; [by left|right; exists O, e; by rewrite Nat.add_0_r|].
      right. exists (S k), e'. by rewrite Nat.add_succ_r.
    + intros [?|([|k] & e' & Hk & He)]; [by left; left|left; right|right].
      * injection Hk as ->. by rewrite Nat.add_0_r in He.
      * exists k, e'. by rewrite Nat.add_succ_r in He.
  - intros [He Hn]%andb_true_iff Ht. apply Hf2; [done|]. by apply Hf1.
Qed.

(** The steps shown for a walk, and the spans among them. *)
Definition shown (t : exec_tree) (l : list (nat * nat)) : list StepInfo :=
  omap (fun p => let n := node_at t (snd p) in if is_job n then None else Some (step_info n)) l.

Lemma shown_elem t l s : grown t -> Forall (fun i => (i < length (xt_nodes t))%nat) (map snd l) ->
  (s ∈ map sf_SpanID (shown t l) <-> exists i, i ∈ map snd l /\ i <> O /\ spans t !! i = Some s).
Proof.
  intros Hg. unfold shown. induction l as [|[f i] l IH]; cbn; intros Hb.
  { split; [by intros ?%not_elem_of_nil|by intros (i & ?%not_elem_of_nil & _)]. }
  apply Forall_cons in Hb as [Hi Hb]. specialize (IH Hb).
  destruct (lookup_lt_is_Some_2 (xt_nodes t) i Hi) as [n Hn]. assert (Hna : node_at t i = n) by (unfold node_at; by rewrite Hn). rewrite Hna.
  assert (Hsp : spans t !! i = Some (xn_SpanID n)) by (unfold spans; by rewrite list_lookup_fmap, Hn).
  rewrite (gr_job t Hg i n Hn). destruct (bool_decide_reflect (i = O)) as [->|Hne]; cbn.
  - rewrite IH. setoid_rewrite elem_of_cons. split; intros (k & Hk & Hk0 & Hks); exists k; split_and!; try done; [by right|].
    by destruct Hk as [->|Hk].
  - rewrite elem_of_cons, IH. split.
    + intros [->|(k & Hk & Hk0 & Hks)]; [exists i|exists k]; split_and!; try done; [by left|by right].
    + intros (k & [->|Hk]%elem_of_cons & Hk0 & Hks); [left; congruence|right; by exists k].
Qed.

Lemma spans_inj t i j s : grown t -> spans t !! i = Some s -> spans t !! j = Some s -> i = j.
Proof. intros Hg Hi Hj. apply (gr_byID t Hg) in Hi, Hj. congruence. Qed.

Lemma shown_nodup t l : grown t -> NoDup (map snd l) -> Forall (fun i => (i < length (xt_nodes t))%nat) (map snd l) ->
  NoDup (map sf_SpanID (shown t l)).
Proof.
  intros Hg. unfold shown. induction l as [|[f i] l IH]; cbn; intros Hn Hb; [constructor|].
  apply NoDup_cons in Hn as [Hi Hn]. apply Forall_cons in Hb as [Hlt Hb]. specialize (IH Hn Hb).
  destruct (lookup_lt_is_Some_2 (xt_nodes t) i Hlt) as [n Hni]. assert (Hna : node_at t i = n) by (unfold node_at; by rewrite Hni). rewrite Hna.
  destruct (is_job n); [done|]. cbn. constructor; [|done]. intros Hin. apply (shown_elem t l _ Hg Hb) in Hin as (k & Hk & _ & Hks).
  apply Hi. rewrite <-(spans_inj t k i (xn_SpanID n) Hg Hks); [done|]. unfold spans. by rewrite list_lookup_fmap, Hni.
Qed.

Definition introduced (events : list JobEvent) (s : string) : Prop := exists i e, events !! i = Some e /\ span_of i e = Some s.

(** C28: the trace of a job can always be shown, and shows each span once:
    whatever events the stream holds, the walk of its tree ends within as many
    nested calls as the tree has nodes, no span is shown twice and each was
    put there by an event; and when nodes start after a plan and tools are
    called in nodes that have started, no span is missing. *)
Theorem trace_shows_each_span_once events :
  let t := BuildExecutionTree overflow events in
  exists steps, (forall fuel, (length (xt_nodes t) <= fuel)%nat -> FlattenSteps fuel t = Some steps) /\
    NoDup (map sf_SpanID steps) /\
    (forall s, s ∈ map sf_SpanID steps -> s <> "root" /\ introduced events s) /\
    (well_nested events = true -> forall s, s <> "root" -> introduced events s -> s ∈ map sf_SpanID steps).
Proof.
  intros t. destruct (build_from_adds events 0 empty_tree empty_grown) as (Hg & Hs & Hf).
  fold (BuildExecutionTree overflow events) in Hg, Hs, Hf. fold t in Hg, Hs, Hf.
  assert (Hi : forall s, s ∈ spans t <-> s = "root" \/ introduced events s).
  { intros s. rewrite Hs. unfold spans at 1. cbn. rewrite list_elem_of_singleton. reflexivity. }
  destruct (gr_walk t Hg) as (l & Hv & Hn & Hb). exists (shown t l). split_and!.
  - intros fuel Hle. unfold FlattenSteps. by rewrite (visit_fuel _ _ _ _ _ _ Hle Hv).
  - by apply shown_nodup.
  - intros s (i & _ & Hi0 & Hsp)%(shown_elem t l s Hg Hb). split.
    + intros ->. apply Hi0. eapply (spans_inj t); [done|exact Hsp|apply (gr_root t Hg)].
    + assert (Hr : s ∈ spans t) by (by eapply list_elem_of_lookup_2). apply Hi in Hr as [->|?]; [|done].
      destruct Hi0. eapply (spans_inj t); [done|exact Hsp|apply (gr_root t Hg)].
  - intros Hw s Hr Hin. destruct (Hf Hw empty_full) as (l' & Hl' & Hlen).
    assert (l' = l) as -> by (by eapply walked_unique). apply (shown_elem t l s Hg Hb).
    assert (Hsin : s ∈ spans t) by (apply Hi; by right). apply list_elem_of_lookup in Hsin as [i Hsp]. exists i. split_and!; [|intros ->|done].
    + rewrite (full_perm t l (conj Hv (conj Hn Hb)) Hlen). apply elem_of_seq. apply lookup_lt_Some in Hsp. rewrite length_spans in Hsp. lia.
    + rewrite (gr_root t Hg) in Hsp. congruence.
Qed.
End shown.

(** ** The tree as JSON *)

Definition raw_value (raw : string) : json := default JNull (unmarshal raw).

Definition str_omit (name s : string) : list (string * json) := match s with EmptyString => [] | _ => [(name, JStr s)] end.
Definition int_omit (name : string) (v : Z) : list (string * json) := if v =? 0 then [] else [(name, JNum (itoa v))].
Definition omit_raw (name raw : string) : list (string * json) := match raw with EmptyString => [] | _ => [(name, raw_value raw)] end.
Definition time_omit (name : string) (t : option time) : list (string * json) :=
  match t with Some t => [(name, JStr (format_rfc3339nano t))] | None => [] end.

Fixpoint tree_json (fuel : nat) (t : exec_tree) (i : nat) : option json :=
  match fuel with
  | O => None
  | S fuel =>
      let n := node_at t i in
      l ← mapM (tree_json fuel t) (default [] (xt_children t !! i));
      Some (JObj ([("span_id", JStr (xn_SpanID n))]
        ++ match xn_ParentID n with Some p => [("parent_id", JStr p)] | None => [] end
        ++ [("type", JStr (kind_text (xn_Type n)))] ++ str_omit "node_id" (xn_NodeID n) ++ str_omit "tool_name" (xn_ToolName n)
        ++ time_omit "start_time" (xn_StartTime n) ++ time_omit "end_time" (xn_EndTime n) ++ int_omit "step_index" (xn_StepIndex n)
        ++ omit_raw "input" (xn_Input n) ++ omit_raw "output" (xn_Output n) ++ str_omit "payload_summary" (xn_PayloadSummary n)
        ++ omit_raw "decision_snapshot" (xn_DecisionSnapshot n)
        ++ match l with [] => [] | _ => [("children", JArr l)] end))
  end.

Definition step_json (s : StepInfo) : json :=
  JObj ([("span_id", JStr (sf_SpanID s)); ("type", JStr (sf_Type s)); ("label", JStr (sf_Label s))]
    ++ time_omit "start_time" (sf_StartTime s) ++ time_omit "end_time" (sf_EndTime s) ++ int_omit "duration_ms" (sf_DurationMs s)
    ++ omit_raw "input" (sf_Input s) ++ omit_raw "output" (sf_Output s)).

(** ** Markup *)

(** Escaped text opens no tag and closes no attribute. *)
Lemma escaped_has_no_markup s :
  str_in "<" (EscapeString s) = false /\ str_in ">" (EscapeString s) = false /\ str_in dquote (EscapeString s) = false.
Proof.
  induction s as [|c s (H1 & H2 & H3)]; [done|]. cbn [EscapeString].
  destruct (Ascii.eqb_spec c "&"); [rewrite !str_in_app, H1, H2, H3; done|].
  destruct (Ascii.eqb_spec c "'"); [rewrite !str_in_app, H1, H2, H3; done|].
  destruct (Ascii.eqb_spec c "<"); [rewrite !str_in_app, H1, H2, H3; done|].
  destruct (Ascii.eqb_spec c ">"); [rewrite !str_in_app, H1, H2, H3; done|].
  destruct (Ascii.eqb_spec c dquote); [rewrite !str_in_app, H1, H2, H3; done|].
  cbn [str_in]. rewrite H1, H2, H3. by repeat (rewrite (proj2 (Ascii.eqb_neq _ _)) by done).
Qed.

(** ** Concrete streams *)

Definition text_payload (fields : list (string * string)) : string := obj_text (map (fun kv => (fst kv, quote (snd kv))) fields).

Definition trace_event (at_ : Z) (ty : EventType) (fields : list (string * string)) : JobEvent :=
  mkJobEvent EmptyString "job-1" ty (text_payload fields) (Time (at_ * second) 0) EmptyString EmptyString.

Definition no_overflow : float64 -> Z := fun _ => 0.

Definition steps_of (events : list JobEvent) : option (list (string * string)) :=
  let t := BuildExecutionTree no_overflow events in
  option_map (map (fun s => (sf_SpanID s, sf_Output s))) (FlattenSteps (length (xt_nodes t)) t).

Definition one_tool : list JobEvent :=
  [trace_event 1 PlanGenerated []; trace_event 2 NodeStarted [("node_id", "a")];
   trace_event 3 ToolCalled [("node_id", "a"); ("tool_name", "search")];
   trace_event 4 ToolReturned [("node_id", "a"); ("output", "found")]; trace_event 5 NodeFinished [("node_id", "a")]].

Example one_tool_shown :
  well_nested no_overflow one_tool = true /\
  steps_of one_tool = Some [("plan", EmptyString); ("a", EmptyString); ("a:tool:search:3", quote "found")].
Proof. split; vm_compute; reflexivity. Qed.

(** ** Where traces go wrong *)

(** A node called plan that starts before the plan hangs below itself; the
    plan is taken for known, and every later node is hidden with it. *)
Lemma node_named_plan_hides_the_trace :
  steps_of (trace_event 0 NodeStarted [("node_id", "plan")] :: one_tool) = Some [].
Proof. vm_compute. reflexivity. Qed.

(** A result goes to the call that started last: of two calls of one node the
    first to return gives its output to the other. *)
Lemma overlapping_calls_swap_outputs :
  steps_of [trace_event 1 PlanGenerated []; trace_event 2 NodeStarted [("node_id", "a")];
            trace_event 3 ToolCalled [("node_id", "a"); ("tool_name", "x")]; trace_event 4 ToolCalled [("node_id", "a"); ("tool_name", "y")];
            trace_event 5 ToolReturned [("node_id", "a"); ("output", "of x")]; trace_event 6 ToolReturned [("node_id", "a"); ("output", "of y")]]
  = Some [("plan", EmptyString); ("a", EmptyString); ("a:tool:x:3", quote "of y"); ("a:tool:y:4", quote "of x")].
Proof. vm_compute. reflexivity. Qed.

(** The tree as a nested list is not escaped. *)
Lemma nested_list_is_not_escaped :
  ExecutionTreeToHTML 9 (BuildExecutionTree no_overflow
    [trace_event 1 PlanGenerated []; trace_event 2 NodeStarted [("node_id", "<script>")]]) 0
  = Some "<li><b>Job (root)</b> <code>job</code><ul><li><b>Plan</b> <code>plan</code><ul><li><b>Node <script> 00:00:02</b> <code>node</code></li></ul></li></ul></li>".
Proof. vm_compute. reflexivity. Qed.
