(* ===== verification/Narrative.v ===== *)
(** internal/api/http/trace_narrative.go: the segments of the timeline and the
    steps a job's events tell of.  [overflow] is what the machine makes of a
    float outside the range of int, [walk] the order in which the keys of a map
    come. *)

From S2P Require Import Prelude GoTime Json GoFloat Events AccessControl Trace.

Record TimelineSegment := mkSegment {
  sg_Type : string; sg_Label : string; sg_NodeID : string; sg_StartTime : option time; sg_EndTime : option time;
  sg_DurationMs : Z; sg_Status : string; sg_Attempt : Z; sg_WorkerID : string }.

Record ReasoningItem := mkReasoning { ri_Role : string; ri_Content : string; ri_Kind : string }.

Record ToolInvocationSummary := mkToolSummary {
  tv_ToolName : string; tv_Summary : string; tv_Error : string; tv_Idempotent : bool; tv_Input : string; tv_Output : string }.

(** The temperature is the literal of the payload. *)
Record LLMInvocationSummary := mkLLMSummary {
  lv_Model : string; lv_Provider : string; lv_Temperature : string; lv_PromptHash : string; lv_TokenCount : Z }.

Record StateChangeItem := mkStateChange {
  ch_ResourceType : string; ch_ResourceID : string; ch_Operation : string; ch_StepID : string; ch_ToolName : string;
  ch_Version : string; ch_Etag : string; ch_ExternalRef : string }.

Record StateDiff := mkStateDiff {
  df_StateBefore : string; df_StateAfter : string; df_ChangedKeys : list string; df_ToolSideEffects : list string;
  df_ResourceRefs : list string; df_StateChanges : list StateChangeItem }.

Record StepNarrative := mkStepNarrative {
  sn_SpanID : string; sn_Type : string; sn_Label : string; sn_NodeID : string; sn_State : string; sn_ResultType : string;
  sn_Reason : string; sn_Attempts : Z; sn_WorkerID : string; sn_DurationMs : Z; sn_StartTime : option time;
  sn_EndTime : option time; sn_Reasoning : list ReasoningItem; sn_ToolInvocation : option ToolInvocationSummary;
  sn_LLMInvocation : option LLMInvocationSummary; sn_StateDiff : option StateDiff; sn_ReasoningSnapshot : string;
  sn_Evidence : json }.

Definition new_step (span ty label nodeID : string) (start : time) : StepNarrative :=
  mkStepNarrative span ty label nodeID EmptyString EmptyString EmptyString 0 EmptyString 0 (Some start) None [] None None None
    EmptyString JNull.

Definition set_sn_end (e : time) (dur : Z) (state : string) (s : StepNarrative) : StepNarrative :=
  mkStepNarrative (sn_SpanID s) (sn_Type s) (sn_Label s) (sn_NodeID s) state (sn_ResultType s) (sn_Reason s) (sn_Attempts s)
    (sn_WorkerID s) dur (sn_StartTime s) (Some e) (sn_Reasoning s) (sn_ToolInvocation s) (sn_LLMInvocation s) (sn_StateDiff s)
    (sn_ReasoningSnapshot s) (sn_Evidence s).

Definition set_sn_attempt (attempts : Z) (worker : string) (s : StepNarrative) : StepNarrative :=
  mkStepNarrative (sn_SpanID s) (sn_Type s) (sn_Label s) (sn_NodeID s) (sn_State s) (sn_ResultType s) (sn_Reason s) attempts
    worker (sn_DurationMs s) (sn_StartTime s) (sn_EndTime s) (sn_Reasoning s) (sn_ToolInvocation s) (sn_LLMInvocation s)
    (sn_StateDiff s) (sn_ReasoningSnapshot s) (sn_Evidence s).

Definition set_sn_result (resultType reason : string) (attempts : Z) (s : StepNarrative) : StepNarrative :=
  mkStepNarrative (sn_SpanID s) (sn_Type s) (sn_Label s) (sn_NodeID s) (sn_State s) resultType reason attempts (sn_WorkerID s)
    (sn_DurationMs s) (sn_StartTime s) (sn_EndTime s) (sn_Reasoning s) (sn_ToolInvocation s) (sn_LLMInvocation s)
    (sn_StateDiff s) (sn_ReasoningSnapshot s) (sn_Evidence s).

Definition set_sn_tool (v : option ToolInvocationSummary) (s : StepNarrative) : StepNarrative :=
  mkStepNarrative (sn_SpanID s) (sn_Type s) (sn_Label s) (sn_NodeID s) (sn_State s) (sn_ResultType s) (sn_Reason s) (sn_Attempts s)
    (sn_WorkerID s) (sn_DurationMs s) (sn_StartTime s) (sn_EndTime s) (sn_Reasoning s) v (sn_LLMInvocation s)
    (sn_StateDiff s) (sn_ReasoningSnapshot s) (sn_Evidence s).

Definition set_sn_llm (v : option LLMInvocationSummary) (s : StepNarrative) : StepNarrative :=
  mkStepNarrative (sn_SpanID s) (sn_Type s) (sn_Label s) (sn_NodeID s) (sn_State s) (sn_ResultType s) (sn_Reason s) (sn_Attempts s)
    (sn_WorkerID s) (sn_DurationMs s) (sn_StartTime s) (sn_EndTime s) (sn_Reasoning s) (sn_ToolInvocation s) v
    (sn_StateDiff s) (sn_ReasoningSnapshot s) (sn_Evidence s).

Definition set_sn_diff (v : option StateDiff) (s : StepNarrative) : StepNarrative :=
  mkStepNarrative (sn_SpanID s) (sn_Type s) (sn_Label s) (sn_NodeID s) (sn_State s) (sn_ResultType s) (sn_Reason s) (sn_Attempts s)
    (sn_WorkerID s) (sn_DurationMs s) (sn_StartTime s) (sn_EndTime s) (sn_Reasoning s) (sn_ToolInvocation s) (sn_LLMInvocation s)
    v (sn_ReasoningSnapshot s) (sn_Evidence s).

Definition add_reasoning (r : ReasoningItem) (s : StepNarrative) : StepNarrative :=
  mkStepNarrative (sn_SpanID s) (sn_Type s) (sn_Label s) (sn_NodeID s) (sn_State s) (sn_ResultType s) (sn_Reason s) (sn_Attempts s)
    (sn_WorkerID s) (sn_DurationMs s) (sn_StartTime s) (sn_EndTime s) (sn_Reasoning s ++ [r]) (sn_ToolInvocation s)
    (sn_LLMInvocation s) (sn_StateDiff s) (sn_ReasoningSnapshot s) (sn_Evidence s).

Definition set_sn_snapshot (raw : string) (evidence : json) (s : StepNarrative) : StepNarrative :=
  mkStepNarrative (sn_SpanID s) (sn_Type s) (sn_Label s) (sn_NodeID s) (sn_State s) (sn_ResultType s) (sn_Reason s) (sn_Attempts s)
    (sn_WorkerID s) (sn_DurationMs s) (sn_StartTime s) (sn_EndTime s) (sn_Reasoning s) (sn_ToolInvocation s) (sn_LLMInvocation s)
    (sn_StateDiff s) raw (match evidence with JNull => sn_Evidence s | v => v end).

(** What is built: segments and steps, when each running node started, and the
    place of the step of each span. *)
Record narrative := mkNarrative {
  nr_segments : list TimelineSegment; nr_steps : list StepNarrative; nr_start : gmap string time; nr_place : gmap string nat }.

Definition no_narrative : narrative := mkNarrative [] [] ∅ ∅.

Definition add_segment (s : TimelineSegment) (n : narrative) : narrative :=
  mkNarrative (nr_segments n ++ [s]) (nr_steps n) (nr_start n) (nr_place n).

(** [Steps = append(Steps, s); spanToStepIndex[s.SpanID] = len(Steps)-1] *)
Definition add_step (s : StepNarrative) (n : narrative) : narrative :=
  mkNarrative (nr_segments n) (nr_steps n ++ [s]) (nr_start n) (<[sn_SpanID s := length (nr_steps n)]> (nr_place n)).

Definition set_start (nodeID : string) (t : time) (n : narrative) : narrative :=
  mkNarrative (nr_segments n) (nr_steps n) (<[nodeID := t]> (nr_start n)) (nr_place n).

Definition del_start (nodeID : string) (n : narrative) : narrative :=
  mkNarrative (nr_segments n) (nr_steps n) (delete nodeID (nr_start n)) (nr_place n).

Definition with_segments (l : list TimelineSegment) (n : narrative) : narrative := mkNarrative l (nr_steps n) (nr_start n) (nr_place n).
Definition with_steps (l : list StepNarrative) (n : narrative) : narrative := mkNarrative (nr_segments n) l (nr_start n) (nr_place n).

(** The last element the condition holds of is changed. *)
Fixpoint update_last {A} (p : A -> bool) (f : A -> A) (l : list A) : list A :=
  match l with
  | [] => []
  | x :: l => if existsb p l then x :: update_last p f l else if p x then f x :: l else x :: l
  end.

(** The step of a span, if there is one. *)
Definition update_step (span : string) (f : StepNarrative -> StepNarrative) (n : narrative) : narrative :=
  match nr_place n !! span with
  | Some i => if (i <? length (nr_steps n))%nat then with_steps (alter f i (nr_steps n)) n else n
  | None => n
  end.

Definition is_open (end_ : option time) : bool := match end_ with None => true | Some _ => false end.

Definition ms_since (start : option time) (t : time) (old : Z) : Z := match start with Some s => sub_ms t s | None => old end.

(** ** Members of payloads *)

Definition parseStringSlice (pl : list (string * json)) (key : string) : list string :=
  match member_of key pl with
  | JArr l => omap (fun x => match x with JStr s => Some s | _ => None end) l
  | _ => []
  end.

Definition state_change (v : json) : option StateChangeItem :=
  match v with
  | JObj m =>
      let s k := getStr k m in
      if String.eqb (s "resource_type") EmptyString && String.eqb (s "resource_id") EmptyString && String.eqb (s "operation") EmptyString
      then None
      else Some (mkStateChange (s "resource_type") (s "resource_id") (s "operation") (s "step_id") (s "tool_name") (s "version")
                   (s "etag") (s "external_ref"))
  | _ => None
  end.

Definition parseStateChanges (v : json) : list StateChangeItem := match v with JArr l => omap state_change l | _ => [] end.

Definition jsonEqual (a b : json) : bool := String.eqb (print (reprint_numbers a)) (print (reprint_numbers b)).

Definition diffKeys (walk : list string -> list string) (before after : string) : list string :=
  let b := event_map before in
  let a := event_map after in
  filter (fun k => jsonEqual (member_of k b) (member_of k a) = false) (walk (map fst a)).

Definition is_member (k : string) (pl : list (string * json)) : bool := bool_decide (is_Some (lookup_field k pl)).

Section narrative.
Variables (overflow : float64 -> Z) (walk : list string -> list string).

Definition instant (t : time) (ty label nodeID : string) : TimelineSegment :=
  mkSegment ty label nodeID (Some t) (Some t) 0 "ok" 0 EmptyString.

Definition open_segment (t : time) (ty label nodeID status : string) (attempt : Z) (worker : string) : TimelineSegment :=
  mkSegment ty label nodeID (Some t) None 0 status attempt worker.

Definition close_segment (t : time) (dur : Z) (status : string) (attempt : Z) (s : TimelineSegment) : TimelineSegment :=
  mkSegment (sg_Type s) (sg_Label s) (sg_NodeID s) (sg_StartTime s) (Some t) dur status attempt (sg_WorkerID s).

Definition tell_plan (t : time) (n : narrative) : narrative :=
  add_step (set_sn_end t 0 EmptyString (new_step "plan" "plan" "Plan" EmptyString t)) (add_segment (instant t "plan" "Plan" EmptyString) n).

Definition attempt_of (pl : list (string * json)) : Z := let a := getInt overflow "attempt" pl in if a =? 0 then 1 else a.

Definition tell_node_started (t : time) (pl : list (string * json)) (n : narrative) : narrative :=
  let nodeID := getStr "node_id" pl in
  if String.eqb nodeID EmptyString then n
  else
    let label := "Node " +:+ nodeID in
    add_step (set_sn_attempt (attempt_of pl) (getStr "worker_id" pl) (new_step nodeID "node" label nodeID t))
      (add_segment (open_segment t "node" label nodeID EmptyString (attempt_of pl) (getStr "worker_id" pl)) (set_start nodeID t n)).

Definition tell_node_finished (t : time) (pl : list (string * json)) (n : narrative) : narrative :=
  let nodeID := getStr "node_id" pl in
  if String.eqb nodeID EmptyString then n
  else
    let given := getInt overflow "duration_ms" pl in
    let dur := if given =? 0 then match nr_start n !! nodeID with Some s => sub_ms t s | None => 0 end else given in
    let state := or_else (getStr "state" pl) "ok" in
    let n := with_segments (update_last (fun s => String.eqb (sg_NodeID s) nodeID && is_open (sg_EndTime s))
                              (close_segment t dur state (attempt_of pl)) (nr_segments n)) n in
    del_start nodeID (update_step nodeID (fun s => set_sn_result (getStr "result_type" pl) (getStr "reason" pl) (attempt_of pl)
                                                     (set_sn_end t dur state s)) n).

Definition tell_command (pl : list (string * json)) (n : narrative) : narrative :=
  let nodeID := getStr "node_id" pl in
  let model := getStr "llm_model" pl in
  if String.eqb nodeID EmptyString || String.eqb model EmptyString then n
  else update_step nodeID (set_sn_llm (Some (mkLLMSummary model (getStr "llm_provider" pl)
         (match member_of "llm_temperature" pl with JNum lit => lit | _ => "0" end) (getStr "prompt_hash" pl)
         (getInt overflow "token_count" pl)))) n.

Definition narrative_span (pl : list (string * json)) : string :=
  getStr "node_id" pl +:+ (":tool:" +:+ getStr "tool_name" pl).

Definition tell_tool_called (t : time) (pl : list (string * json)) (n : narrative) : narrative :=
  let nodeID := getStr "node_id" pl in
  let toolName := getStr "tool_name" pl in
  let label := "Tool " +:+ toolName in
  add_step (set_sn_tool (Some (mkToolSummary toolName EmptyString EmptyString false (raw_member "input" pl) EmptyString))
              (new_step (narrative_span pl) "tool" label nodeID t))
    (add_segment (open_segment t "tool" label nodeID EmptyString 0 EmptyString) n).

Definition set_tv_output (raw : string) (v : ToolInvocationSummary) : ToolInvocationSummary :=
  mkToolSummary (tv_ToolName v) (tv_Summary v) (tv_Error v) (tv_Idempotent v) (tv_Input v) raw.

Definition tell_tool_returned (t : time) (pl : list (string * json)) (n : narrative) : narrative :=
  let nodeID := getStr "node_id" pl in
  let mine ty node end_ := String.eqb ty "tool" && String.eqb node nodeID && is_open end_ in
  let n := with_segments (update_last (fun s => mine (sg_Type s) (sg_NodeID s) (sg_EndTime s))
             (fun s => close_segment t (ms_since (sg_StartTime s) t (sg_DurationMs s)) "ok" (sg_Attempt s) s) (nr_segments n)) n in
  with_steps (update_last (fun s => mine (sn_Type s) (sn_NodeID s) (sn_EndTime s))
    (fun s => set_sn_tool (set_tv_output (raw_member "output" pl) <$> sn_ToolInvocation s)
                (set_sn_end t (ms_since (sn_StartTime s) t (sn_DurationMs s)) "ok" s)) (nr_steps n)) n.

Definition checkpoint_diff (pl : list (string * json)) : StateDiff :=
  let before := raw_member "state_before" pl in
  let after := raw_member "state_after" pl in
  let changed := match member_of "changed_keys" pl with JArr _ => parseStringSlice pl "changed_keys" | _ => diffKeys walk before after end in
  mkStateDiff before after changed (parseStringSlice pl "tool_side_effects") (parseStringSlice pl "resource_refs")
    (parseStateChanges (member_of "state_changes" pl)).

Definition add_changes (cs : list StateChangeItem) (s : StepNarrative) : StepNarrative :=
  let d := default (mkStateDiff EmptyString EmptyString [] [] [] []) (sn_StateDiff s) in
  set_sn_diff (Some (mkStateDiff (df_StateBefore d) (df_StateAfter d) (df_ChangedKeys d) (df_ToolSideEffects d) (df_ResourceRefs d)
                       (df_StateChanges d ++ cs))) s.

Definition tell_state_changed (pl : list (string * json)) (n : narrative) : narrative :=
  match parseStateChanges (member_of "state_changes" pl) with
  | [] => n
  | cs => update_step (getStr "node_id" pl) (add_changes cs) n
  end.

(** For a node that is named only. *)
Definition tell_of (pl : list (string * json)) (f : StepNarrative -> StepNarrative) (n : narrative) : narrative :=
  let nodeID := getStr "node_id" pl in if String.eqb nodeID EmptyString then n else update_step nodeID f n.

Definition tool_selected (pl : list (string * json)) : ReasoningItem :=
  mkReasoning "tool_selected" (("Tool selected: " +:+ getStr "tool_name" pl) +:+
    match getStr "reason" pl with EmptyString => EmptyString | r => " — " +:+ r end) EmptyString.

Definition summarized (pl : list (string * json)) (s : StepNarrative) : StepNarrative :=
  let v := default (mkToolSummary (getStr "tool_name" pl) EmptyString EmptyString false EmptyString EmptyString) (sn_ToolInvocation s) in
  set_sn_tool (Some (mkToolSummary (tv_ToolName v) (getStr "summary" pl) (getStr "error" pl)
    (match member_of "idempotent" pl with JBool b => b | _ => false end) (tv_Input v) (tv_Output v))) s.

Definition tell_recovery_started (t : time) (pl : list (string * json)) (n : narrative) : narrative :=
  let label := match getStr "reason" pl with EmptyString => "Recovery" | r => "Recovery (" +:+ (r +:+ ")") end in
  add_segment (open_segment t "recovery" label (getStr "node_id" pl) "running" 0 EmptyString) n.

Definition tell_recovery_completed (t : time) (pl : list (string * json)) (n : narrative) : narrative :=
  let status := match member_of "success" pl with JBool true => "ok" | _ => "failed" end in
  with_segments (update_last (fun s => String.eqb (sg_Type s) "recovery" && is_open (sg_EndTime s))
    (fun s => close_segment t (ms_since (sg_StartTime s) t (sg_DurationMs s)) status (sg_Attempt s) s) (nr_segments n)) n.

Definition tell (n : narrative) (e : JobEvent) : narrative :=
  let pl := event_map (ev_Payload e) in
  let t := ev_CreatedAt e in
  let thought role := mkReasoning role (getStr "content" pl) (getStr "kind" pl) in
  match ev_Type e with
  | PlanGenerated => tell_plan t n
  | NodeStarted => tell_node_started t pl n
  | NodeFinished => tell_node_finished t pl n
  | CommandCommitted => tell_command pl n
  | ToolCalled => tell_tool_called t pl n
  | ToolReturned => tell_tool_returned t pl n
  | StateCheckpointed => update_step (getStr "node_id" pl) (set_sn_diff (Some (checkpoint_diff pl))) n
  | StateChanged => tell_state_changed pl n
  | AgentThoughtRecorded => tell_of pl (add_reasoning (thought (or_else (getStr "role" pl) "reasoning"))) n
  | DecisionMade => tell_of pl (add_reasoning (thought "decision")) n
  | ReasoningSnapshot =>
      match ev_Payload e with
      | EmptyString => n
      | raw => tell_of pl (set_sn_snapshot raw (member_of "evidence" pl)) n
      end
  | ToolSelected => tell_of pl (add_reasoning (tool_selected pl)) n
  | ToolResultSummarized => update_step (narrative_span pl) (summarized pl) n
  | RecoveryStarted => tell_recovery_started t pl n
  | RecoveryCompleted => tell_recovery_completed t pl n
  | StepCompensated => add_segment (instant t "recovery" "Compensated" (getStr "node_id" pl)) n
  | _ => n
  end.

Definition BuildNarrative (events : list JobEvent) : narrative := foldl tell no_narrative events.
End narrative.


(** ** What is told *)

(** What makes a step the step it is: none of it changes once told. *)
Definition step_key (s : StepNarrative) : string * string * string * string * option time :=
  (sn_SpanID s, sn_Type s, sn_Label s, sn_NodeID s, sn_StartTime s).

Definition key_span (k : string * string * string * string * option time) : string := k.1.1.1.1.

(** The step an event begins. *)
Definition told_step (e : JobEvent) : option (string * string * string * string * option time) :=
  let pl := event_map (ev_Payload e) in
  let nodeID := getStr "node_id" pl in
  let start := Some (ev_CreatedAt e) in
  match ev_Type e with
  | PlanGenerated => Some ("plan", "plan", "Plan", EmptyString, start)
  | NodeStarted => if String.eqb nodeID EmptyString then None else Some (nodeID, "node", "Node " +:+ nodeID, nodeID, start)
  | ToolCalled => Some (narrative_span pl, "tool", "Tool " +:+ getStr "tool_name" pl, nodeID, start)
  | _ => None
  end.

(** The last place of each span among the keys of the steps. *)
Definition last_places (l : list (string * string * string * string * option time)) : gmap string nat :=
  foldl (fun m ik => <[key_span (snd ik) := fst ik]> m) ∅ (imap pair l).

Definition keys (n : narrative) := map step_key (nr_steps n).

Definition placed (n : narrative) : Prop := nr_place n = last_places (keys n).

Lemma last_places_snoc l k : last_places (l ++ [k]) = <[key_span k := length l]> (last_places l).
Proof. unfold last_places. rewrite imap_app, foldl_app. cbn. by rewrite Nat.add_0_r. Qed.

Lemma last_places_lookup l span i :
  last_places l !! span = Some i <->
  (exists k, l !! i = Some k /\ key_span k = span) /\ forall j k, (i < j)%nat -> l !! j = Some k -> key_span k <> span.
Proof.
  revert span i. induction l as [|k l IH] using rev_ind; intros span i.
  { cbn. rewrite lookup_empty. split; [done|]. by intros [(k & ? & _) _]. }
  rewrite last_places_snoc. destruct (decide (key_span k = span)) as [Hk|Hne].
  - subst span. rewrite lookup_insert_eq. split.
    + intros [= <-]. split; [exists k; by rewrite list_lookup_middle|].
      intros j k' Hj Hl%lookup_lt_Some. rewrite length_app in Hl. cbn in Hl. lia.
    + intros [(k' & Hl & _) Hlast]. f_equal. apply lookup_lt_Some in Hl. rewrite length_app in Hl. cbn in Hl.
      destruct (decide (i < length l)%nat); [|lia]. by destruct (Hlast (length l) k l0 (list_lookup_middle _ _ _ _ eq_refl)).
  - rewrite lookup_insert_ne by done. rewrite IH. split.
    + intros [(k' & Hl & Hs) Hlast]. split; [exists k'; split; [by apply lookup_app_l_Some|done]|].
      intros j k2 Hj [?|[Hge [_ <-]%list_lookup_singleton_Some]]%lookup_app_Some; [by eapply Hlast|done].
    + intros [(k' & Hl & Hs) Hlast]. apply lookup_app_Some in Hl as [Hl|[Hge [_ <-]%list_lookup_singleton_Some]]; [|done].
      split; [by exists k'|]. intros j k2 Hj Hk2. apply (Hlast j k2 Hj). by apply lookup_app_l_Some.
Qed.

Lemma map_update_last {A B} (g : A -> B) p f (l : list A) : (forall x, g (f x) = g x) -> map g (update_last p f l) = map g l.
Proof. intros Hf. induction l as [|x l IH]; [done|]. cbn. destruct (existsb p l); cbn; [by rewrite IH|]. destruct (p x); cbn; by rewrite ?Hf. Qed.

Lemma map_alter {A B} (g : A -> B) f i (l : list A) : (forall x, g (f x) = g x) -> map g (alter f i l) = map g l.
Proof.
  intros Hf. apply list_eq. intros k. rewrite !list_lookup_fmap. destruct (decide (k = i)) as [->|Hne]; [|by rewrite list_lookup_alter_ne].
  rewrite list_lookup_alter_eq. destruct (l !! i); [cbn; by rewrite Hf|done].
Qed.

(** [n'] is [n] with the step of [o] told. *)
Record told (n : narrative) (o : option (string * string * string * string * option time)) (n' : narrative) : Prop := {
  td_keys : keys n' = keys n ++ option_list o;
  td_place : nr_place n' = match o with Some k => <[key_span k := length (nr_steps n)]> (nr_place n) | None => nr_place n end }.

Lemma told_none n n' : keys n' = keys n -> nr_place n' = nr_place n -> told n None n'.
Proof. intros Hk Hp. split; [by rewrite app_nil_r|done]. Qed.

Lemma told_placed n o n' : told n o n' -> placed n -> placed n'.
Proof.
  intros [Hk Hp] Hn. unfold placed in *. rewrite Hp, Hk. destruct o as [k|]; cbn [option_list]; [|by rewrite app_nil_r].
  rewrite Hn, <-(length_map step_key). symmetry. apply last_places_snoc.
Qed.

Lemma told_update span f n o n' : (forall s, step_key (f s) = step_key s) -> told n o n' -> told n o (update_step span f n').
Proof.
  intros Hf [Hk Hp]. unfold update_step. destruct (nr_place n' !! span) as [i|]; [|by split].
  destruct (i <? length (nr_steps n'))%nat; [|by split]. split; [|done]. unfold keys. cbn. by rewrite map_alter.
Qed.

Lemma told_nothing n : told n None n.
Proof. by apply told_none. Qed.

Lemma told_step_new s n : told n (Some (step_key s)) (add_step s n).
Proof. split; [unfold keys; cbn; by rewrite map_app|done]. Qed.

Lemma told_same n n1 o n' : keys n1 = keys n -> nr_place n1 = nr_place n -> length (nr_steps n1) = length (nr_steps n) -> told n1 o n' -> told n o n'.
Proof. intros Hk Hp Hl [Hk' Hp']. split; [by rewrite Hk', Hk|by rewrite Hp', Hp, Hl]. Qed.

Ltac tells_step :=
  match goal with |- told ?n (Some ?k) (add_step ?s ?m) => exact (told_same n m (Some k) _ eq_refl eq_refl eq_refl (told_step_new s m)) end.

Section told.
Variables (overflow : float64 -> Z) (walk : list string -> list string).

Lemma told_tell_of n pl f : (forall s, step_key (f s) = step_key s) -> told n None (tell_of pl f n).
Proof. intros Hf. unfold tell_of. case_match; [apply told_nothing|apply told_update; [done|apply told_nothing]]. Qed.

Lemma tell_told n e : told n (told_step e) (tell overflow walk n e).
Proof.
  pose proof (told_nothing n) as Hn.
  unfold tell, told_step. set (pl := event_map (ev_Payload e)). destruct (ev_Type e); try done;
    try (apply told_tell_of; done); try (apply told_update; [done|exact Hn]); try by apply told_none.
  - unfold tell_plan. tells_step.
  - unfold tell_node_started. case_match; [done|]. tells_step.
  - unfold tell_node_finished. case_match; [done|]. apply told_none.
    + unfold del_start, keys; cbn [nr_steps]. match goal with |- map step_key (nr_steps (update_step ?s ?f ?m)) = _ =>
        pose proof (td_keys _ _ _ (told_update s f m None m ltac:(done) (told_nothing m))) as Hk end.
      cbn [option_list] in Hk. rewrite app_nil_r in Hk. exact Hk.
    + unfold del_start, update_step; cbn [nr_place]. by repeat case_match.
  - unfold tell_command. case_match; [done|]. by apply told_update.
  - unfold tell_tool_called. tells_step.
  - apply told_none; [|done]. unfold keys. cbn [nr_steps tell_tool_returned with_steps with_segments]. by apply map_update_last.
  - unfold tell_state_changed. case_match; [done|]. by apply told_update.
  - destruct (ev_Payload e); [done|]. by apply told_tell_of.
Qed.

Lemma tell_all_told events : forall n, keys (foldl (tell overflow walk) n events) = keys n ++ omap told_step events /\
  (placed n -> placed (foldl (tell overflow walk) n events)).
Proof.
  induction events as [|e events IH]; intros n; cbn; [split; [by rewrite app_nil_r|done]|].
  pose proof (tell_told n e) as He. destruct (IH (tell overflow walk n e)) as [Hk Hp]. split.
  - rewrite Hk, (td_keys _ _ _ He), <-app_assoc. f_equal. by destruct (told_step e).
  - intros Hn. by apply Hp, (told_placed n (told_step e)).
Qed.

(** The steps shown are the plans, the nodes started and the tools called, each
    once, in the order of the stream, with their labels and their starts;
    nothing later moves or renames one.  Whatever speaks of a span is told of
    the last step of that span. *)
Theorem narrative_tells_in_order events :
  let n := BuildNarrative overflow walk events in
  map step_key (nr_steps n) = omap told_step events /\
  forall span f, update_step span f n =
    match last_places (omap told_step events) !! span with Some i => with_steps (alter f i (nr_steps n)) n | None => n end.
Proof.
  intros n. destruct (tell_all_told events no_narrative) as [Hk Hp]. fold (BuildNarrative overflow walk events) in Hk, Hp. fold n in Hk, Hp.
  cbn [keys no_narrative nr_steps map app] in Hk. split; [exact Hk|]. intros span f. unfold update_step. rewrite (Hp eq_refl), Hk.
  destruct (last_places _ !! span) as [i|] eqn:Hi; [|done]. apply last_places_lookup in Hi as [(k & Hl & _) _].
  apply lookup_lt_Some in Hl. rewrite <-Hk in Hl. unfold keys in Hl. rewrite length_map in Hl. by rewrite (proj2 (Nat.ltb_lt _ _) Hl).
Qed.

(** An event closes at most one segment, and the last that fits. *)
Lemma update_last_split {A} (p : A -> bool) f (l : list A) :
  match list_find (fun x => p x = true) (reverse l) with
  | Some (k, x) => exists l1 l2, l = l1 ++ x :: l2 /\ update_last p f l = l1 ++ f x :: l2 /\ p x = true /\ existsb p l2 = false
  | None => update_last p f l = l
  end.
Proof.
  induction l as [|x l IH]; [done|]. rewrite reverse_cons. cbn [update_last].
  destruct (list_find (fun x => p x = true) (reverse l)) as [[k y]|] eqn:Hf.
  - rewrite (list_find_app_l _ _ _ _ _ Hf). destruct IH as (l1 & l2 & -> & Hu & Hy & Hl2). exists (x :: l1), l2.
    rewrite existsb_app. cbn. rewrite Hy, orb_true_r. cbn. by rewrite Hu.
  - apply list_find_None in Hf as Hnone. rewrite (list_find_app_r _ _ _ Hf). cbn.
    assert (He : existsb p l = false).
    { apply not_true_is_false. intros (y & Hin & Hy)%existsb_exists. rewrite Forall_forall in Hnone. apply (Hnone y); [|done].
      apply elem_of_reverse. by apply list_elem_of_In. }
    rewrite He. destruct (decide (p x = true)) as [Hp|Hp]; cbn.
    + exists [], l. by rewrite Hp.
    + by destruct (p x).
Qed.
End told.

Definition narrated (events : list JobEvent) : narrative := BuildNarrative no_overflow (fun l => l) events.

Example one_tool_told :
  let n := narrated one_tool in
  map (fun s => (sn_SpanID s, sn_State s, sn_DurationMs s)) (nr_steps n)
    = [("plan", EmptyString, 0); ("a", "ok", 3000); ("a:tool:search", "ok", 1000)] /\
  map (fun s => (sg_Label s, sg_Status s, sg_DurationMs s)) (nr_segments n)
    = [("Plan", "ok", 0); ("Node a", "ok", 3000); ("Tool search", "ok", 1000)].
Proof. split; vm_compute; reflexivity. Qed.

(** Selecting a tool call in the tree finds no step: its span ends in the place
    of the event there and not here. *)
Lemma tool_of_tree_has_no_step :
  steps_of one_tool = Some [("plan", EmptyString); ("a", EmptyString); ("a:tool:search:3", quote "found")] /\
  map sn_SpanID (nr_steps (narrated one_tool)) = ["plan"; "a"; "a:tool:search"].
Proof. split; vm_compute; reflexivity. Qed.

(** A node's end closes the segment of a call left open under it, not the
    node's own: segments are matched by node alone. *)
Lemma node_end_closes_open_tool :
  let n := narrated [trace_event 2 NodeStarted [("node_id", "a")]; trace_event 3 ToolCalled [("node_id", "a"); ("tool_name", "search")];
                     trace_event 5 NodeFinished [("node_id", "a"); ("state", "permanent_failure")]] in
  map (fun s => (sg_Label s, sg_Status s, is_open (sg_EndTime s))) (nr_segments n)
    = [("Node a", EmptyString, true); ("Tool search", "permanent_failure", false)].
Proof. vm_compute. reflexivity. Qed.
