(* ===== verification/JobViews.v ===== *)
(** internal/api/http/handler.go: the views of a job's events (replay, events,
    trace, node, cognition and the page of the trace).

    A body is the value that is printed, the order of its members left out.  A
    body that cannot be printed is answered as [unprintable] by the framework;
    the handlers that print it themselves answer so.  [walk] and [walk_set] are
    the orders in which the keys of a map come.

    Second half: the theorems. *)

From S2P Require Import Prelude GoTime Json JsonFacts GoFloat Events MemStore JobFsm JobQueue Replay SchemaValidator JobStore JsonPrint AccessControl JobApi JobApiProps Verification Trace Narrative.

(** ** Events in a body *)

(** [json.RawMessage(e.Payload)], null when empty; none when it is not JSON. *)
Definition raw_payload (e : JobEvent) : option json :=
  match ev_Payload e with EmptyString => Some JNull | p => unmarshal p end.

Definition time_json (t : time) : option json := option_map (fun _ => JStr (format_rfc3339nano t)) (marshal_time t).

Definition event_type_json (e : JobEvent) : json := JStr (event_type_string (ev_Type e)).

(** [{type, created_at, payload}]; [extra] comes in between. *)
Definition entry_with (extra : list (string * json)) (e : JobEvent) : option json :=
  p ← raw_payload e; t ← time_json (ev_CreatedAt e);
  Some (JObj ([("created_at", t)] ++ extra ++ [("payload", p); ("type", event_type_json e)])).

Definition entry : JobEvent -> option json := entry_with [].

Definition node_field (e : JobEvent) : list (string * json) :=
  match lookup_field "node_id" (event_map (ev_Payload e)) with Some v => [("node_id", reprint_numbers v)] | None => [] end.

Definition timeline_entry (e : JobEvent) : option json := entry_with (node_field e) e.

Definition event_entry (e : JobEvent) : option json :=
  p ← raw_payload e; t ← time_json (ev_CreatedAt e);
  Some (JObj [("created_at", t); ("id", JStr (ev_ID e)); ("job_id", JStr (ev_JobID e)); ("payload", p); ("type", event_type_json e)]).

Definition timeline (es : list JobEvent) : option json := JArr <$> mapM timeline_entry es.

Definition has_type (ts : list EventType) (e : JobEvent) : bool := bool_decide (ev_Type e ∈ ts).

Definition entries_of (ts : list EventType) (es : list JobEvent) : option json := JArr <$> mapM entry (filter (fun e => has_type ts e = true) es).

(** ** Durations *)

Record node_duration := mkDuration { nd_NodeID : string; nd_StartedAt : time; nd_FinishedAt : time; nd_DurationMs : Z }.

Definition note_duration (acc : gmap string time * list node_duration) (e : JobEvent) : gmap string time * list node_duration :=
  let '(started, out) := acc in
  match getStr "node_id" (event_map (ev_Payload e)) with
  | EmptyString => acc
  | nodeID =>
      match ev_Type e with
      | NodeStarted => (<[nodeID := ev_CreatedAt e]> started, out)
      | NodeFinished =>
          match started !! nodeID with
          | Some s => (started, out ++ [mkDuration nodeID s (ev_CreatedAt e) (sub_ms (ev_CreatedAt e) s)])
          | None => acc
          end
      | _ => acc
      end
  end.

Definition node_durations (es : list JobEvent) : list node_duration := snd (foldl note_duration (∅, []) es).

Definition duration_json (d : node_duration) : option json :=
  s ← time_json (nd_StartedAt d); f ← time_json (nd_FinishedAt d);
  Some (JObj [("duration_ms", JNum (itoa (nd_DurationMs d))); ("finished_at", f); ("node_id", JStr (nd_NodeID d)); ("started_at", s)]).

(** ** The narrative in a body *)

Definition strs_omit (name : string) (l : list string) : list (string * json) := match l with [] => [] | _ => [(name, JArr (map JStr l))] end.

Definition objs_omit (name : string) (l : list json) : list (string * json) := match l with [] => [] | _ => [(name, JArr l)] end.

Definition opt_omit (name : string) (v : option json) : list (string * json) := match v with Some v => [(name, v)] | None => [] end.

Definition segment_json (s : TimelineSegment) : json :=
  JObj ([("type", JStr (sg_Type s)); ("label", JStr (sg_Label s))] ++ str_omit "node_id" (sg_NodeID s)
    ++ time_omit "start_time" (sg_StartTime s) ++ time_omit "end_time" (sg_EndTime s) ++ int_omit "duration_ms" (sg_DurationMs s)
    ++ str_omit "status" (sg_Status s) ++ int_omit "attempt" (sg_Attempt s) ++ str_omit "worker_id" (sg_WorkerID s)).

Definition reasoning_json (r : ReasoningItem) : json :=
  JObj (str_omit "role" (ri_Role r) ++ [("content", JStr (ri_Content r))] ++ str_omit "kind" (ri_Kind r)).

Definition tool_summary_json (v : ToolInvocationSummary) : json :=
  JObj ([("tool_name", JStr (tv_ToolName v))] ++ str_omit "summary" (tv_Summary v) ++ str_omit "error" (tv_Error v)
    ++ (if tv_Idempotent v then [("idempotent", JBool true)] else []) ++ omit_raw "input" (tv_Input v) ++ omit_raw "output" (tv_Output v)).

Definition llm_json (v : LLMInvocationSummary) : json :=
  JObj ([("model", JStr (lv_Model v)); ("provider", JStr (lv_Provider v)); ("temperature", reprint_numbers (JNum (lv_Temperature v)))]
    ++ str_omit "prompt_hash" (lv_PromptHash v) ++ int_omit "token_count" (lv_TokenCount v)).

Definition change_json (c : StateChangeItem) : json :=
  JObj ([("resource_type", JStr (ch_ResourceType c)); ("resource_id", JStr (ch_ResourceID c)); ("operation", JStr (ch_Operation c))]
    ++ str_omit "step_id" (ch_StepID c) ++ str_omit "tool_name" (ch_ToolName c) ++ str_omit "version" (ch_Version c)
    ++ str_omit "etag" (ch_Etag c) ++ str_omit "external_ref" (ch_ExternalRef c)).

Definition diff_json (d : StateDiff) : json :=
  JObj (omit_raw "state_before" (df_StateBefore d) ++ omit_raw "state_after" (df_StateAfter d)
    ++ strs_omit "changed_keys" (df_ChangedKeys d) ++ strs_omit "tool_side_effects" (df_ToolSideEffects d)
    ++ strs_omit "resource_refs" (df_ResourceRefs d) ++ objs_omit "state_changes" (map change_json (df_StateChanges d))).

Definition narrative_step_json (s : StepNarrative) : json :=
  JObj ([("span_id", JStr (sn_SpanID s)); ("type", JStr (sn_Type s)); ("label", JStr (sn_Label s))]
    ++ str_omit "node_id" (sn_NodeID s) ++ str_omit "state" (sn_State s) ++ str_omit "result_type" (sn_ResultType s)
    ++ str_omit "reason" (sn_Reason s) ++ int_omit "attempts" (sn_Attempts s) ++ str_omit "worker_id" (sn_WorkerID s)
    ++ int_omit "duration_ms" (sn_DurationMs s) ++ time_omit "start_time" (sn_StartTime s) ++ time_omit "end_time" (sn_EndTime s)
    ++ objs_omit "reasoning" (map reasoning_json (sn_Reasoning s))
    ++ opt_omit "tool_invocation" (tool_summary_json <$> sn_ToolInvocation s)
    ++ opt_omit "llm_invocation" (llm_json <$> sn_LLMInvocation s) ++ opt_omit "state_diff" (diff_json <$> sn_StateDiff s)
    ++ omit_raw "reasoning_snapshot" (sn_ReasoningSnapshot s)
    ++ match sn_Evidence s with JNull => [] | v => [("evidence", reprint_numbers v)] end).

(** ** The handlers *)

Section views.
Context {R S : Type} `{!JobRepo R} `{!JobStore S}.
Variables (overflow : float64 -> Z) (walk : list string -> list string) (walk_set : gset string -> list string).
Variable unprintable : Response.

Definition cjson (b : option json) : Response := match b with Some b => mkResponse 200 b | None => unprintable end.

(** [c.Data(200, body)], or a refusal when [json.Marshal] fails. *)
Definition cdata (msg : string) (b : option json) : Response := match b with Some b => mkResponse 200 b | None => refuse 500 msg end.

Definition store_disabled : Response := refuse 503 "事件存储未启用".

(** The events of a job of the caller's tenant. *)
Definition view_of (cx : Context) (jobID : string) (h : Handler R S) (k : S -> list JobEvent -> outcome Response) : outcome Response :=
  match hd_jobEventStore h with
  | None => Ret store_disabled
  | Some s =>
      match getJobAndCheckTenant cx jobID h with
      | Err resp => Ret resp
      | Ok _ => run l <- js_ListEvents jobID s ;; k s (fst l)
      end
  end.

Definition phase_text (p : ExecutionPhase) : string :=
  match p with
  | PhasePlanning => "planning" | PhaseExecuting => "executing" | PhaseCompleted => "completed"
  | PhaseFailed => "failed" | PhaseCancelled => "cancelled"
  | PhaseUnknown | PhaseWaiting => "unknown"
  end.

Definition state_json (rc : ReplayContext) : json :=
  JObj [("completed_node_ids", JArr (map JStr (walk_set (rc_CompletedNodeIDs rc)))); ("cursor_node", JStr (rc_CursorNode rc));
        ("phase", JStr (phase_text (rc_Phase rc)))].

Definition raw_or_empty (raw : option string) : option json :=
  match raw with Some (String _ _ as p) => unmarshal p | _ => Some (JObj []) end.

Definition step_replay_json (rc : ReplayContext) (stepNodeID : string) : option json :=
  s ← raw_or_empty (rc_PayloadResultsByNode rc !! stepNodeID); r ← raw_or_empty (rc_CommandResults rc !! stepNodeID);
  Some (JObj [("state_at_step", s); ("step_node_id", JStr stepNodeID); ("step_result", r)]).

Definition replay_fields (rc : option ReplayContext) (stepNodeID : string) : option (list (string * json)) :=
  match rc with
  | None => Some []
  | Some rc =>
      match stepNodeID with
      | EmptyString => Some [("current_state", state_json rc)]
      | _ => s ← step_replay_json rc stepNodeID; Some [("current_state", state_json rc); ("step_replay", s)]
      end
  end.

Definition GetJobReplay (cx : Context) (jobID stepNodeID : string) (h : Handler R S) : outcome Response :=
  view_of cx jobID h (fun s es =>
    let goal := match hd_jobStore h with
                | Some r => match repo_Get jobID r with Some j => job_Goal j | None => EmptyString end
                | None => EmptyString
                end in
    run l <- js_ListEvents jobID s ;;
    run rc <- BuildFromEvents (fst l) ;;
    Ret (cjson (extra ← replay_fields rc stepNodeID; t ← timeline es;
      Some (JObj ([("goal", JStr goal); ("job_id", JStr jobID); ("read_only", JBool true); ("timeline", t)] ++ extra))))).

Definition GetJobEvents (cx : Context) (jobID : string) (h : Handler R S) : outcome Response :=
  view_of cx jobID h (fun _ es =>
    Ret (cdata "序列化事件failed" (l ← mapM event_entry es; Some (JObj [("events", JArr l); ("job_id", JStr jobID)])))).

(** The tree is no deeper than it has nodes. *)
Definition whole_tree (es : list JobEvent) : option json :=
  let t := BuildExecutionTree overflow es in tree_json (length (xt_nodes t)) t 0.

Definition decision_of (es : list JobEvent) : option (list (string * json)) :=
  match find (fun e => has_type [DecisionSnapshot] e && negb (String.eqb (ev_Payload e) EmptyString)) es with
  | Some e => event_object (ev_Payload e)
  | None => None
  end.

Definition GetJobTrace (cx : Context) (jobID : string) (h : Handler R S) : outcome Response :=
  view_of cx jobID h (fun _ es =>
    let n := BuildNarrative overflow walk es in
    Ret (cdata "序列化时间线failed" (t ← timeline es; d ← mapM duration_json (node_durations es); tree ← whole_tree es;
      Some (JObj ([("execution_tree", tree); ("job_id", JStr jobID); ("node_durations", JArr d);
                   ("steps", JArr (map narrative_step_json (nr_steps n))); ("timeline", t);
                   ("timeline_segments", JArr (map segment_json (nr_segments n)))]
        ++ match decision_of es with Some ds => [("decision_snapshot", reprint_numbers (JObj ds))] | None => [] end))))).

(** No event of the node is printed as null. *)
Definition node_events (nodeID : string) (es : list JobEvent) : option json :=
  l ← mapM entry (filter (fun e => getStr "node_id" (event_map (ev_Payload e)) = nodeID) es);
  Some (match l with [] => JNull | _ => JArr l end).

Definition GetJobNode (cx : Context) (jobID nodeID : string) (h : Handler R S) : outcome Response :=
  view_of cx jobID h (fun _ es =>
    Ret (cjson (l ← node_events nodeID es; Some (JObj [("events", l); ("job_id", JStr jobID); ("node_id", JStr nodeID)])))).

Definition reasoningTypes : list EventType := [NodeStarted; NodeFinished; AgentThoughtRecorded; DecisionMade; ToolSelected; ToolResultSummarized].

(** The task graph of the first plan with a payload. *)
Definition task_graph_of (es : list JobEvent) : list (string * json) :=
  match find (fun e => has_type [PlanGenerated] e && negb (String.eqb (ev_Payload e) EmptyString)) es with
  | Some e => match unmarshal_map (ev_Payload e) with
              | Ok (Some pl) => match lookup_field "task_graph" pl with Some tg => [("task_graph", reprint_numbers tg)] | None => [] end
              | _ => []
              end
  | None => []
  end.

(** It asks for no tenant. *)
Definition GetJobCognitionTrace (cx : Context) (jobID : string) (h : Handler R S) : outcome Response :=
  match hd_jobEventStore h with
  | None => Ret store_disabled
  | Some s =>
      run l <- js_ListEvents jobID s ;;
      let es := fst l in
      Ret (cjson (r ← entries_of reasoningTypes es; tree ← whole_tree es;
        p ← entries_of [PlanGenerated; DecisionSnapshot; PlanEvolution] es;
        tools ← entries_of [ToolSelected; ToolResultSummarized; ToolInvocationStarted; ToolInvocationFinished] es;
        m ← entries_of [MemoryRead; MemoryWrite] es;
        Some (JObj [("decision_tree", tree); ("job_id", JStr jobID); ("memory_read_write", m); ("plan_evolution", p);
          ("reasoning_step_timeline", r);
          ("tool_dependency_graph", JObj ([("edges", JArr []); ("nodes", JArr []); ("tool_events", tools)] ++ task_graph_of es))])))
  end.

(** *** The page of the trace *)

Definition in_quotes (s : string) : string := String dquote (s +:+ String dquote EmptyString).

(** An item of the list of steps. *)
Definition step_html (s : StepNarrative) : string :=
  "<div class=" +:+ (in_quotes "step" +:+ (" data-span-id=" +:+ (in_quotes (EscapeString (sn_SpanID s)) +:+ (" data-type=" +:+
  (in_quotes (EscapeString (sn_Type s)) +:+ ("><div class=" +:+ (in_quotes "label" +:+ (">" +:+ (EscapeString (sn_Label s) +:+
  ("</div><div class=" +:+ (in_quotes "meta" +:+ (">" +:+
  ((match sn_StartTime s with Some t => clock t | None => EmptyString end +:+
    (if 0 <? sn_DurationMs s then " &middot; " +:+ (itoa (sn_DurationMs s) +:+ "ms") else EmptyString)) +:+ ("</div>" +:+
  ((if String.eqb (sn_State s) EmptyString || String.eqb (sn_State s) "ok" then EmptyString
    else "<div class=" +:+ (in_quotes "state" +:+ (">" +:+ (EscapeString (sn_State s) +:+
         ((if 1 <? sn_Attempts s then " &middot; attempt " +:+ itoa (sn_Attempts s) else EmptyString) +:+
         ((match sn_WorkerID s with EmptyString => EmptyString | w => " &middot; " +:+ EscapeString w end) +:+ "</div>"))))))
   +:+ "</div>"))))))))))))))).

Definition page_title (jobID : string) : string := "<title>Trace " +:+ (EscapeString jobID +:+ "</title>").

Definition page_heading (jobID goal status : string) : string :=
  "<h1>Job: " +:+ (EscapeString jobID +:+ ("</h1><p><b>Goal:</b> " +:+ (EscapeString goal +:+
  ("</p><p><b>Status:</b> " +:+ (EscapeString status +:+ "</p>"))))).

Definition arr_or_null (l : list json) : json := match l with [] => JNull | _ => JArr l end.

Definition dag_node_json (n : string * string * string) : json :=
  JObj [("id", JStr n.1.1); ("label", JStr n.1.2); ("type", JStr n.2)].

Definition dag_edge_json (e : string * string) : json := JObj [("from", JStr e.1); ("to", JStr e.2)].

(** What the page's script gets; an empty object when it cannot be printed. *)
Definition trace_data (jobID goal status : string) (es : list JobEvent) : json :=
  let t := BuildExecutionTree overflow es in
  let n := BuildNarrative overflow walk es in
  let fuel := length (xt_nodes t) in
  default (JObj []) (flat ← FlattenSteps fuel t; dag ← DAGNodesAndEdges fuel t; tree ← tree_json fuel t 0; tl ← JArr <$> mapM entry es;
    Some (JObj [("dag_edges", arr_or_null (map dag_edge_json (snd dag))); ("dag_nodes", arr_or_null (map dag_node_json (fst dag)));
      ("flat_steps", arr_or_null (map step_json flat)); ("goal", JStr goal); ("job_id", JStr jobID); ("status", JStr status);
      ("steps", JArr (map narrative_step_json (nr_steps n))); ("timeline", tl);
      ("timeline_segments", JArr (map segment_json (nr_segments n))); ("tree", tree)])).

(** What of the page depends on the job, part by part; between the parts
    stands fixed text. *)
Record trace_page := mkPage { pg_title : string; pg_heading : string; pg_steps : string; pg_tree : string; pg_data : string }.

Definition buildTraceHTML (jobID : string) (j : Job) (es : list JobEvent) : option trace_page :=
  let t := BuildExecutionTree overflow es in
  let status := status_string (job_Status j) in
  tree ← renderTraceTreeHTML (length (xt_nodes t)) t 0;
  Some (mkPage (page_title jobID) (page_heading jobID (job_Goal j) status)
    (String.concat EmptyString (map step_html (nr_steps (BuildNarrative overflow walk es)))) tree
    (print (trace_data jobID (job_Goal j) status es))).

Definition page_disabled : Response := refuse 503 "Trace 未启用".

Definition GetJobTracePage (cx : Context) (jobID : string) (h : Handler R S) : outcome (result Response (option trace_page)) :=
  match hd_jobEventStore h, hd_jobStore h with
  | Some s, Some _ =>
      match getJobAndCheckTenant cx jobID h with
      | Err resp => Ret (Err resp)
      | Ok (_, j) => run l <- js_ListEvents jobID s ;; Ret (Ok (buildTraceHTML jobID j (fst l)))
      end
  | _, _ => Ret (Err page_disabled)
  end.
End views.

(** What the views of a job's events show: only the jobs of the caller's
    tenant, durations that pair the end of a node with its last start, and a
    page whose data cannot leave its script. *)

(** ** Only the tenant's own jobs are shown *)

Section tenants.
Context {R S : Type} `{!JobRepo R} `{!JobStore S}.
Variables (overflow : float64 -> Z) (walk : list string -> list string) (walk_set : gset string -> list string).
Variable unprintable : Response.

(** The job is of another tenant, or there is none. *)
Definition foreign (cx : Context) (jobID : string) (h : Handler R S) : Prop :=
  match hd_jobStore h with
  | Some r => match repo_Get jobID r with Some j => job_TenantID j <> tenant_of cx | None => True end
  | None => False
  end.

Lemma foreign_not_found cx jobID h : foreign cx jobID h -> getJobAndCheckTenant cx jobID h = Err not_found.
Proof.
  unfold foreign, getJobAndCheckTenant. destruct (hd_jobStore h) as [r|]; [|done]. destruct (repo_Get jobID r) as [j|]; [|done].
  intros Hne. by rewrite (proj2 (String.eqb_neq _ _)).
Qed.

Lemma view_of_foreign cx jobID h k : foreign cx jobID h -> hd_jobEventStore h <> None -> view_of cx jobID h k = Ret not_found.
Proof. intros Hf Hs. unfold view_of. destruct (hd_jobEventStore h); [|done]. by rewrite foreign_not_found. Qed.

(** C29: to everyone outside its tenant a job does not exist: its replay, its
    events, its trace, the page of the trace, its nodes and its verification
    are all answered as for a job nobody has submitted, whatever its stream
    holds. *)
Theorem views_stay_within_tenant cx jobID stepNodeID nodeID h :
  foreign cx jobID h -> hd_jobEventStore h <> None ->
  GetJobReplay walk_set unprintable cx jobID stepNodeID h = Ret not_found /\
  GetJobEvents cx jobID h = Ret not_found /\
  GetJobTrace overflow walk cx jobID h = Ret not_found /\
  GetJobTracePage overflow walk cx jobID h = Ret (Err not_found) /\
  GetJobNode unprintable cx jobID nodeID h = Ret not_found /\
  GetJobVerify walk_set cx jobID h = Ret not_found.
Proof.
  intros Hf Hs. pose proof (foreign_not_found cx jobID h Hf) as Hc. split_and!; try by apply view_of_foreign.
  - unfold GetJobTracePage. destruct (hd_jobEventStore h); [|done]. unfold foreign in Hf. destruct (hd_jobStore h); [|done]. by rewrite Hc.
  - unfold GetJobVerify. destruct (hd_jobEventStore h); [|done]. by rewrite Hc.
Qed.
End tenants.

(** ** Durations *)

Definition starts (nodeID : string) (e : JobEvent) : Prop := ev_Type e = NodeStarted /\ getStr "node_id" (event_map (ev_Payload e)) = nodeID.
Definition ends (nodeID : string) (e : JobEvent) : Prop := ev_Type e = NodeFinished /\ getStr "node_id" (event_map (ev_Payload e)) = nodeID.

(** The last start of a node. *)
Definition last_start (es : list JobEvent) (nodeID : string) (t : time) : Prop :=
  exists l1 e l2, es = l1 ++ e :: l2 /\ starts nodeID e /\ ev_CreatedAt e = t /\ Forall (fun e => ~ starts nodeID e) l2.

Definition noted (es : list JobEvent) := foldl note_duration (∅, []) es.

Lemma last_start_snoc es e nodeID t :
  last_start (es ++ [e]) nodeID t <-> (starts nodeID e /\ ev_CreatedAt e = t) \/ (~ starts nodeID e /\ last_start es nodeID t).
Proof.
  split.
  - intros (l1 & x & l2 & Hl & Hx & Ht & Hn). destruct l2 as [|y l2 _] using rev_ind.
    + apply app_inj_tail in Hl as [-> ->]. left. by split.
    + rewrite app_comm_cons, app_assoc in Hl. apply app_inj_tail in Hl as [-> ->]. apply Forall_app in Hn as [Hn [Hy _]%Forall_cons].
      right. split; [done|]. by exists l1, x, l2.
  - intros [[Hs Ht]|[Hs (l1 & x & l2 & -> & Hx & Ht & Hn)]].
    + by exists es, e, [].
    + exists l1, x, (l2 ++ [e]). rewrite <-app_assoc. split_and!; try done. apply Forall_app. split; [done|by constructor].
Qed.

Lemma noted_starts es nodeID t : nodeID <> EmptyString -> (fst (noted es) !! nodeID = Some t <-> last_start es nodeID t).
Proof.
  intros Hne. induction es as [|e es IH] using rev_ind.
  { cbn. rewrite lookup_empty. split; [done|]. by intros ([] & ? & ? & ? & _). }
  rewrite last_start_snoc. unfold noted in *. rewrite foldl_app. cbn [foldl]. destruct (foldl note_duration (∅, []) es) as [m out].
  cbn [fst] in IH. unfold note_duration, starts.
  destruct (getStr "node_id" (event_map (ev_Payload e))) as [|c s] eqn:Hg.
  { cbn [fst]. rewrite IH. split; [intros ?; right; by split; [intros [_ <-]|]|]. by intros [[[_ <-] _]|[_ ?]]. }
  assert (Hother : ev_Type e <> NodeStarted ->
    last_start es nodeID t <-> ((ev_Type e = NodeStarted /\ String c s = nodeID) /\ ev_CreatedAt e = t) \/ (~ (ev_Type e = NodeStarted /\ String c s = nodeID) /\ last_start es nodeID t))
    by naive_solver.
  destruct (ev_Type e) eqn:Hty; try (cbn [fst]; rewrite IH; by apply Hother).
  - cbn [fst]. destruct (decide (String c s = nodeID)) as [<-|Hd].
    + rewrite lookup_insert_eq. naive_solver.
    + rewrite lookup_insert_ne by done. rewrite IH. naive_solver.
  - destruct (m !! String c s); cbn [fst]; rewrite IH; by apply Hother.
Qed.

(** Each duration shown is that of a node that ended, counted from its last
    start; and each end of a node that has started is shown. *)
Theorem durations_pair_last_start es d :
  d ∈ node_durations es <->
  exists l1 e l2, es = l1 ++ e :: l2 /\ nd_NodeID d <> EmptyString /\ ends (nd_NodeID d) e /\ last_start l1 (nd_NodeID d) (nd_StartedAt d) /\
    nd_FinishedAt d = ev_CreatedAt e /\ nd_DurationMs d = sub_ms (nd_FinishedAt d) (nd_StartedAt d).
Proof.
  change (node_durations es) with (snd (noted es)). induction es as [|e es IH] using rev_ind.
  { cbn. split; [by intros ?%not_elem_of_nil|]. by intros ([] & ? & ? & ? & _). }
  assert (Hsplit : (exists l1 x l2, es ++ [e] = l1 ++ x :: l2 /\ nd_NodeID d <> EmptyString /\ ends (nd_NodeID d) x /\
      last_start l1 (nd_NodeID d) (nd_StartedAt d) /\ nd_FinishedAt d = ev_CreatedAt x /\ nd_DurationMs d = sub_ms (nd_FinishedAt d) (nd_StartedAt d)) <->
    d ∈ snd (noted es) \/ (nd_NodeID d <> EmptyString /\ ends (nd_NodeID d) e /\ last_start es (nd_NodeID d) (nd_StartedAt d) /\
      nd_FinishedAt d = ev_CreatedAt e /\ nd_DurationMs d = sub_ms (nd_FinishedAt d) (nd_StartedAt d))).
  { rewrite IH. split.
    - intros (l1 & x & l2 & Hl & Hr). destruct l2 as [|y l2 _] using rev_ind.
      + apply app_inj_tail in Hl as [-> ->]. by right.
      + rewrite app_comm_cons, app_assoc in Hl. apply app_inj_tail in Hl as [-> ->]. left. by exists l1, x, l2.
    - intros [(l1 & x & l2 & -> & Hr)|Hr]; [exists l1, x, (l2 ++ [e]); by rewrite <-app_assoc|by exists es, e, []]. }
  rewrite Hsplit. clear Hsplit IH. pose proof (noted_starts es) as Hst. unfold noted in *. rewrite foldl_app. cbn [foldl].
  destruct (foldl note_duration (∅, []) es) as [m out]. cbn [fst snd] in *. unfold note_duration, ends.
  destruct (getStr "node_id" (event_map (ev_Payload e))) as [|c s] eqn:Hg; [cbn [snd]; naive_solver|].
  destruct (ev_Type e) eqn:Hty; cbn [snd]; try naive_solver.
  destruct (m !! String c s) as [t|] eqn:Hm; cbn [snd].
  - rewrite elem_of_app, list_elem_of_singleton. split.
    + intros [?|Heq]; [by left|right]. rewrite Heq. cbn. split_and!; try done. by apply Hst.
    + intros [?|(Hne & [_ Hid] & Hl & Hf & Hd)]; [by left|right]. apply Hst in Hl; [|done]. rewrite <-Hid, Hm in Hl. injection Hl as Ht.
      destruct d as [n a f ms]; cbn in *; by subst.
  - split; [by left|]. intros [?|(Hne & [_ Hid] & Hl & _)]; [done|]. apply Hst in Hl; [|done]. by rewrite <-Hid, Hm in Hl.
Qed.

(** ** The data of the page *)

Section page.
Variables (overflow : float64 -> Z) (walk : list string -> list string).
Variables (a : ascii) (Ha : a ∈ never_printed).

Create HintDb plain.

Abbreviation fields_plain := (Forall (fun kv : string * json => plain a (snd kv) = true)).

Lemma plain_obj_intro l : fields_plain l -> plain a (JObj l) = true.
Proof. apply plain_obj. Qed.

Lemma plain_objs {A} (f : A -> json) l : (forall x, plain a (f x) = true) -> plain a (JArr (map f l)) = true.
Proof. intros Hf. apply plain_arr, Forall_map, Forall_forall. intros x _. apply Hf. Qed.

Lemma itoa_plain n : plain a (JNum (itoa n)) = true.
Proof. cbn. by rewrite itoa_free. Qed.

Lemma str_omit_plain k s : fields_plain (str_omit k s).
Proof. unfold str_omit. case_match; by repeat constructor. Qed.
Lemma int_omit_plain k n : fields_plain (int_omit k n).
Proof. unfold int_omit. case_match; repeat constructor. apply itoa_plain. Qed.
Lemma raw_value_plain raw : plain a (raw_value raw) = true.
Proof. unfold raw_value. destruct (unmarshal raw) eqn:Hu; [by eapply unmarshal_plain|done]. Qed.
Lemma omit_raw_plain k raw : fields_plain (omit_raw k raw).
Proof. unfold omit_raw. case_match; repeat constructor. apply raw_value_plain. Qed.
Lemma time_omit_plain k t : fields_plain (time_omit k t).
Proof. unfold time_omit. case_match; by repeat constructor. Qed.
Lemma strs_omit_plain k l : fields_plain (strs_omit k l).
Proof. unfold strs_omit. case_match; repeat constructor. by apply plain_objs. Qed.
Lemma objs_omit_plain {A} k (f : A -> json) l : (forall x, plain a (f x) = true) -> fields_plain (objs_omit k (map f l)).
Proof. intros Hf. unfold objs_omit. case_match eqn:Hm; [constructor|]. constructor; [|constructor]. cbn [snd]. rewrite <-Hm. by apply plain_objs. Qed.
Lemma opt_omit_plain {A} k (f : A -> json) o : (forall x, o = Some x -> plain a (f x) = true) -> fields_plain (opt_omit k (f <$> o)).
Proof. intros Hf. destruct o as [x|]; repeat constructor. by apply Hf. Qed.

Hint Resolve str_omit_plain int_omit_plain omit_raw_plain time_omit_plain strs_omit_plain itoa_plain : plain.

Ltac plain_fields :=
  apply plain_obj_intro;
  repeat match goal with
  | |- Forall _ (_ ++ _) => apply Forall_app; split
  | |- Forall _ (_ :: _) => constructor; [try done|]
  | |- Forall _ [] => constructor
  end; auto with plain.

Lemma segment_plain s : plain a (segment_json s) = true.
Proof. unfold segment_json. plain_fields. Qed.

Lemma step_info_plain s : plain a (step_json s) = true.
Proof. unfold step_json. plain_fields. Qed.

Lemma tree_json_plain t fuel : forall i v, tree_json fuel t i = Some v -> plain a v = true.
Proof.
  induction fuel as [|fuel IH]; intros i v; [done|]. cbn [tree_json]. intros (l & Hl & Hv)%bind_Some. injection Hv as <-.
  plain_fields.
  - destruct (xn_ParentID (node_at t i)); by repeat constructor.
  - destruct l as [|x l]; [constructor|]. constructor; [|constructor]. apply plain_arr. apply mapM_Some in Hl.
    apply Forall_forall. intros y Hy. apply list_elem_of_lookup in Hy as [k Hk].
    destruct (Forall2_lookup_r _ _ _ _ _ Hl Hk) as (j & _ & Hj). by eapply IH.
Qed.

(** What of a step comes from a payload as it is. *)
Definition step_plain (s : StepNarrative) : Prop :=
  plain a (sn_Evidence s) = true /\ forall v, sn_LLMInvocation s = Some v -> plain a (JNum (lv_Temperature v)) = true.

Lemma narrative_step_plain s : step_plain s -> plain a (narrative_step_json s) = true.
Proof.
  intros [He Hl]. unfold narrative_step_json. plain_fields.
  - apply objs_omit_plain. intros r. unfold reasoning_json. plain_fields.
  - apply opt_omit_plain. intros v _. unfold tool_summary_json. plain_fields. destruct (tv_Idempotent v); by repeat constructor.
  - apply opt_omit_plain. intros v Hv. unfold llm_json. plain_fields. cbn [snd]. apply reprint_plain; [done|]. by apply Hl.
  - apply opt_omit_plain. intros d _. unfold diff_json. plain_fields. apply objs_omit_plain. intros c. unfold change_json. plain_fields.
  - destruct (sn_Evidence s); try constructor; try constructor; by apply reprint_plain.
Qed.

Lemma nil_out_of_range_plain v : plain a v = true -> plain a (nil_out_of_range v) = true.
Proof.
  induction v as [| |lit| |l IH|l IH] using json_nested_ind; try done; intros Hp.
  - cbn [nil_out_of_range]. by destruct (ParseFloat lit).
  - apply plain_arr in Hp. cbn [nil_out_of_range]. apply plain_arr, Forall_map. exact (Forall_mp _ _ l IH Hp).
  - apply plain_obj in Hp. cbn [nil_out_of_range]. apply plain_obj, Forall_map.
    eapply Forall_impl; [exact (Forall_mp _ _ l IH Hp)|]. by intros [k x].
Qed.

Lemma event_map_plain p : fields_plain (event_map p).
Proof.
  unfold event_map, event_object.
  assert (Hp : plain a (go_maps (nil_out_of_range (default JNull (unmarshal p)))) = true).
  { apply go_maps_plain, nil_out_of_range_plain. apply raw_value_plain. }
  destruct (go_maps _); try constructor. by apply plain_obj in Hp.
Qed.

Lemma member_plain k p : plain a (member_of k (event_map p)) = true.
Proof.
  unfold member_of. destruct (lookup_field k (event_map p)) as [v|] eqn:Hl; [|done]. apply lookup_field_elem in Hl.
  pose proof (event_map_plain p) as Hp. rewrite Forall_forall in Hp. exact (Hp _ Hl).
Qed.

Definition told_plain (n : narrative) : Prop := Forall step_plain (nr_steps n).

Lemma plain_update span f n : (forall s, step_plain s -> step_plain (f s)) -> told_plain n -> told_plain (update_step span f n).
Proof.
  intros Hf Hn. unfold update_step. destruct (nr_place n !! span) as [i|]; [|done]. destruct (i <? _)%nat; [|done].
  unfold told_plain. cbn [nr_steps with_steps]. apply Forall_alter; [done|]. intros x _ Hx. by apply Hf.
Qed.

Lemma plain_of pl f n : (forall s, step_plain s -> step_plain (f s)) -> told_plain n -> told_plain (tell_of pl f n).
Proof. intros Hf Hn. unfold tell_of. case_match; [done|]. by apply plain_update. Qed.

Lemma plain_add s n : step_plain s -> told_plain n -> told_plain (add_step s n).
Proof. intros Hs Hn. apply Forall_app. split; [done|]. by constructor. Qed.

Lemma plain_update_last p f (l : list StepNarrative) :
  (forall s, step_plain s -> step_plain (f s)) -> Forall step_plain l -> Forall step_plain (update_last p f l).
Proof.
  intros Hf. induction 1 as [|x l Hx Hl IH]; [constructor|]. cbn. destruct (existsb p l); [by constructor|].
  destruct (p x); constructor; auto.
Qed.

Lemma new_step_plain span ty label nodeID t : step_plain (new_step span ty label nodeID t).
Proof. by split. Qed.

Lemma same_plain f : (forall s, sn_Evidence (f s) = sn_Evidence s /\ sn_LLMInvocation (f s) = sn_LLMInvocation s) ->
  forall s, step_plain s -> step_plain (f s).
Proof. intros Hf s [He Hl]. destruct (Hf s) as [H1 H2]. split; [by rewrite H1|]. intros v. rewrite H2. apply Hl. Qed.

Lemma tell_plain n e : told_plain n -> told_plain (tell overflow walk n e).
Proof.
  intros Hn. unfold tell. set (pl := event_map (ev_Payload e)).
  destruct (ev_Type e); try done; try (apply plain_of; [by apply same_plain|done]); try (apply plain_update; [by apply same_plain|done]).
  - unfold tell_plan. apply plain_add; [by split|done].
  - unfold tell_node_started. case_match; [done|]. apply plain_add; [by split|done].
  - unfold tell_node_finished. case_match; [done|]. unfold told_plain. cbn [del_start nr_steps]. by apply plain_update; [apply same_plain|].
  - unfold tell_command. case_match; [done|]. apply plain_update; [|done]. intros s [He _]. split; [done|]. intros v. cbn [set_sn_llm sn_LLMInvocation].
    intros [= <-]. cbn [lv_Temperature]. pose proof (member_plain "llm_temperature" (ev_Payload e)) as Hm. fold pl in Hm.
    destruct (member_of "llm_temperature" pl); try exact Hm; apply (itoa_plain 0).
  - unfold tell_tool_called. apply plain_add; [by split|done].
  - unfold tell_tool_returned, told_plain. cbn [with_steps nr_steps]. by apply plain_update_last; [apply same_plain|].
  - unfold tell_state_changed. case_match; [done|]. by apply plain_update; [apply same_plain|].
  - destruct (ev_Payload e) eqn:Hp; [done|]. apply plain_of; [|done]. intros st [He Hl]. split; [|exact Hl]. cbn [set_sn_snapshot sn_Evidence].
    pose proof (member_plain "evidence" (ev_Payload e)) as Hm. rewrite Hp in Hm. unfold pl. destruct (member_of _ _); done.
Qed.

Lemma narrative_plain es : told_plain (BuildNarrative overflow walk es).
Proof.
  unfold BuildNarrative. assert (H0 : told_plain no_narrative) by constructor. revert H0. generalize no_narrative.
  induction es as [|e es IH]; intros n Hn; [done|]. by apply IH, tell_plain.
Qed.

Lemma entry_plain e v : entry e = Some v -> plain a v = true.
Proof.
  unfold entry, entry_with. intros (p & Hp & (t & Ht & Hv)%bind_Some)%bind_Some. injection Hv as <-.
  unfold time_json in Ht. destruct (marshal_time _); [|done]. injection Ht as <-. plain_fields. cbn [snd].
  unfold raw_payload in Hp. destruct (ev_Payload e); [by injection Hp as <-|by eapply unmarshal_plain].
Qed.

Lemma arr_or_null_plain {A} (f : A -> json) l : (forall x, plain a (f x) = true) -> plain a (arr_or_null (map f l)) = true.
Proof. intros Hf. unfold arr_or_null. case_match eqn:Hm; [done|]. rewrite <-Hm. by apply plain_objs. Qed.

Lemma trace_data_plain jobID goal status es : plain a (trace_data overflow walk jobID goal status es) = true.
Proof.
  unfold trace_data. set (t := BuildExecutionTree overflow es). set (n := BuildNarrative overflow walk es).
  destruct (FlattenSteps _ t) as [flat|]; [|done]. destruct (DAGNodesAndEdges _ t) as [dag|]; [|done].
  destruct (tree_json _ t 0) as [tree|] eqn:Htree; [|done]. apply tree_json_plain in Htree.
  destruct (mapM entry es) as [tl|] eqn:Htl; [|done]. cbn [default mbind option_bind fmap option_fmap option_map].
  plain_fields; cbn [snd]; try (apply arr_or_null_plain; done); try exact Htree.
  - apply arr_or_null_plain, step_info_plain.
  - apply plain_arr, Forall_map. eapply Forall_impl; [apply narrative_plain|]. exact narrative_step_plain.
  - apply plain_arr, Forall_forall. intros v Hv. apply list_elem_of_lookup in Hv as [k Hk]. apply mapM_Some in Htl.
    destruct (Forall2_lookup_r _ _ _ _ _ Htl Hk) as (e & _ & He). by eapply entry_plain.
  - apply plain_objs, segment_plain.
Qed.

Lemma rendered t fuel : forall from i l, visit fuel (xt_children t) from i = Some l -> is_Some (renderTraceTreeHTML fuel t i).
Proof.
  induction fuel as [|fuel IH]; intros from i l; [done|]. rewrite visit_S. intros (ls & Hls & _)%bind_Some. cbn [renderTraceTreeHTML].
  assert (Hr : is_Some (mapM (renderTraceTreeHTML fuel t) (default [] (xt_children t !! i)))).
  { apply mapM_is_Some. assert (Hv : is_Some (mapM (visit fuel (xt_children t) i) (default [] (xt_children t !! i)))) by by eexists.
    apply mapM_is_Some in Hv. eapply Forall_impl; [exact Hv|]. intros x [y Hy]. by eapply IH. }
  destruct Hr as [r ->]. cbn. by case_match; eexists.
Qed.

(** The page of a trace always shows: whatever the job's events hold, its
    tree is rendered, and the data handed to its script holds no angle bracket
    and no ampersand, so that no payload ends the script element. *)
Theorem page_data_stays_in_script jobID j es :
  exists p, buildTraceHTML overflow walk jobID j es = Some p /\ str_in a (pg_data p) = false.
Proof.
  unfold buildTraceHTML. destruct (renderTraceTreeHTML _ _ 0) as [tree|] eqn:Hr.
  - eexists. split; [reflexivity|]. cbn [pg_data]. apply print_free; [done|]. apply trace_data_plain.
  - destruct (build_from_adds overflow es 0 empty_tree empty_grown) as (Hg & _). fold (BuildExecutionTree overflow es) in Hg.
    destruct (gr_walk _ Hg) as (l & Hv & _). apply rendered in Hv as [x Hx]. congruence.
Qed.
End page.

(** ** Concrete views *)

Definition broken : Response := mkResponse 500 JNull.
Definition in_order (s : gset string) : list string := elements s.
Definition secret_job : Handler JobStoreMem memoryStore := demo [asks "j1" "acme"].

Lemma views_stay_within_tenant_witness :
  foreign (caller_of "globex") "j1" secret_job /\ hd_jobEventStore secret_job <> None /\
  GetJobEvents (caller_of "globex") "j1" secret_job = Ret not_found.
Proof.
  assert (Hf : foreign (caller_of "globex") "j1" secret_job) by (vm_compute; discriminate).
  assert (Hs : hd_jobEventStore secret_job <> None) by discriminate.
  split; [exact Hf|]. split; [exact Hs|].
  exact (proj1 (proj2 (views_stay_within_tenant no_overflow (fun l => l) in_order broken (caller_of "globex") "j1" "ask" "ask" secret_job Hf Hs))).
Defined.

Definition member_at (k : string) (r : Response) : json := match rs_Body r with JObj l => member_of k l | _ => JNull end.

Definition view_answer (m : outcome Response) : Response := match m with Ret r => r | Panic _ => broken end.

(** Its own tenant sees the job. *)
Example own_events_shown :
  let r := view_answer (GetJobEvents (caller_of "acme") "j1" secret_job) in
  rs_Status r = 200 /\ match member_at "events" r with JArr l => length l = 2%nat | _ => False end.
Proof. vm_compute. by split. Qed.

(** The cognition view asks for no tenant: it shows a foreign job, which every
    other view denies. *)
Lemma cognition_view_shows_foreign_jobs :
  let h := demo [(a_job "j1" "acme" StatusRunning, [(JobCreated, "{}"); (AgentThoughtRecorded, text_payload [("content", "secret")])])] in
  foreign (caller_of "globex") "j1" h /\
  let r := view_answer (GetJobCognitionTrace no_overflow broken (caller_of "globex") "j1" h) in
  rs_Status r = 200 /\
  match member_at "reasoning_step_timeline" r with
  | JArr [JObj e] => member_of "payload" e = JObj [("content", JStr "secret")]
  | _ => False
  end.
Proof. split; [vm_compute; discriminate|]. vm_compute. by split. Qed.

(** A job that waits, with a plan, is shown in no known phase. *)
Lemma waiting_phase_is_unknown :
  let h := demo [(a_job "j1" "acme" StatusWaiting,
     [(JobCreated, "{}"); (PlanGenerated, obj_text [("task_graph", "{}")]); (JobWaiting, waiting_text "ask" "k1" "signal")])] in
  match member_at "current_state" (view_answer (GetJobReplay in_order broken (caller_of "acme") "j1" EmptyString h)) with
  | JObj st => member_of "phase" st = JStr "unknown"
  | _ => False
  end.
Proof. vm_compute. reflexivity. Qed.
