(* ===== verification/Executor.v ===== *)
(** internal/agent/runtime/executor/{runner,steppable}.go and
    internal/agent/replay/sandbox/policy.go: the executor of a job, from the
    compiled steps of its task graph to the loop that runs them, and the
    replay-driven loop of a job that is delivered again.

    A node's [Run] is a parameter: it sees its context, the payload and the
    stream, may append events, and returns a payload, possibly nil, and an
    error.  The sink and the checkpoint store can fail: [rn_sink] and
    [rn_save] say which of their calls succeed; the job store does not fail
    (its errors are discarded).  Metrics, spans and step timeouts are not
    modelled: a timeout is one of the errors of [Run].  The session's memory
    is an input, as the text the runner writes into a wait event; that replay
    loads it back into the session is not modelled.  At most one step runs at
    a time ([maxParallelSteps] is 0, as in both programs), and the checkpoint
    and job stores are set: without them [RunForJob] runs the whole graph
    through the graph library.  An error of the JSON or store code is cut off
    the text of an error that wraps it, and a type quoted by %q is not
    quoted. *)

From S2P Require Import Prelude Sha256 GoTime Json Events StepResult Identity Replay TaskGraph EventSink.

(** ** Payload and steps (types.go:222-238, steppable.go:25-168) *)

(** [Results]: [None] is a nil map. *)
Record AgentDAGPayload := mkPayload {
  pl_Goal : string; pl_AgentID : string; pl_SessionID : string; pl_Results : option (gmap string json);
}.

Definition NewAgentDAGPayload (goal agentID sessionID : string) : AgentDAGPayload :=
  mkPayload goal agentID sessionID (Some ∅).

Definition set_Results (r : option (gmap string json)) (p : AgentDAGPayload) : AgentDAGPayload :=
  mkPayload (pl_Goal p) (pl_AgentID p) (pl_SessionID p) r.

Definition results_text (r : option (gmap string json)) : string :=
  match r with None => "null" | Some m => print (JObj (map_to_list m)) end.

(** [json.Unmarshal(data, &payload.Results)] into the empty map. *)
Definition decode_results (data : string) : option (option (gmap string json)) :=
  match unmarshal data with
  | Some (JObj l) => Some (Some (list_to_map (rev l)))
  | Some JNull => Some None
  | _ => None
  end.

Record step_ctx := mkStepCtx {
  sx_JobID : string; sx_TenantID : string; sx_StepID : string;
  sx_CompletedTools : gmap string string; sx_PendingTools : gset string;
  sx_StateChanges : gmap string (list StateChangeRecord); sx_ApprovedKeys : gset string; sx_Replay : bool;
}.

Record run_outcome := mkRun {
  ro_Payload : option AgentDAGPayload; ro_Err : option go_error; ro_Events : list JobEvent;
}.

Definition NodeRunner : Type := step_ctx -> AgentDAGPayload -> list JobEvent -> run_outcome.

Record SteppableStep := mkStep { ss_NodeID : string; ss_NodeType : string; ss_Run : NodeRunner }.

(** The registry: the adapter of a node type. *)
Definition adapters : Type := string -> option (TaskNode -> result string NodeRunner).

Definition node_by_id (g : TaskGraph) (id : string) : option TaskNode :=
  snd <$> list_find (fun n => tn_ID n = id) (rev (tg_Nodes g)).

Definition compile_node (reg : adapters) (g : TaskGraph) (id : string) : result string SteppableStep :=
  match node_by_id g id with
  | None => Err ("executor: 节点 " +:+ id +:+ " 不在图中")
  | Some node =>
      match reg (tn_Type node) with
      | None => Err ("executor: 未知节点类型 " +:+ tn_Type node +:+ " (节点 " +:+ id +:+ ")")
      | Some adapter =>
          match adapter node with
          | Err e => Err ("executor: 节点 " +:+ id +:+ " ToNodeRunner failed: " +:+ e)
          | Ok r => Ok (mkStep id (tn_Type node) r)
          end
      end
  end.

Fixpoint compile_nodes (reg : adapters) (g : TaskGraph) (ids : list string) : result string (list SteppableStep) :=
  match ids with
  | [] => Ok []
  | id :: r => try s <- compile_node reg g id ;; try rest <- compile_nodes reg g r ;; Ok (s :: rest)
  end.

Definition CompileSteppable (reg : adapters) (g : TaskGraph) : result string (list SteppableStep) :=
  match tg_Nodes g with
  | [] => Err "executor: TaskGraph 为空"
  | _ => try order <- TopoOrder g ;; compile_nodes reg g order
  end.

(** ** Replay policy (policy.go) *)

Inductive OperationKind := Deterministic | SideEffect | External.

Record ReplayDecision := mkDecision { rd_Kind : OperationKind; rd_Inject : bool; rd_Result : string }.

Definition DefaultPolicy (nodeID commandID nodeType : string) (rc : option ReplayContext) : ReplayDecision :=
  match rc with
  | None => mkDecision SideEffect false EmptyString
  | Some rc =>
      (* the three cases of the node type agree *)
      match get_default EmptyString (rc_CommandResults rc) commandID with
      | EmptyString => mkDecision SideEffect false EmptyString
      | res => mkDecision SideEffect true res
      end
  end.

(** ** The runner and its state *)

Record NodeCheckpoint := mkNodeCheckpoint {
  nc_AgentID : string; nc_SessionID : string; nc_JobID : string; nc_CursorNode : string;
  nc_TaskGraphState : string; nc_PayloadResults : string;
}.

Record Runner := mkRunner {
  rn_registry : adapters;
  rn_sink : option (nat -> bool);
  rn_save : nat -> option string;                       (* the id of the [n]-th saved checkpoint *)
  rn_compensation : option (string -> bool);            (* the registry: which nodes have a callback *)
  rn_replayBuilder : bool;
  rn_replayPolicy : option (string -> string -> string -> option ReplayContext -> ReplayDecision);
  rn_validators : list (string -> string -> string -> string -> option go_error);
  rn_now : time; rn_uuid : string -> string; rn_duration : string -> Z;
  rn_parse : string -> option time;                     (* time.Parse of RFC 3339 *)
}.

Record JobForRunner := mkJobForRunner {
  jr_ID : string; jr_AgentID : string; jr_Goal : string; jr_Cursor : string; jr_TenantID : string;
}.

(** The agent's session, when it has one: its id and the text of its memory. *)
Record Agent := mkAgent { ag_ID : string; ag_Session : option (string * option string) }.

Definition sessionID (a : Agent) : string := default EmptyString (fst <$> ag_Session a).

(** [ex_Ran]: the nodes whose [Run] was called, in order.  [ex_Comp]: the
    nodes whose compensation was. *)
Record exec_state := mkExec {
  ex_Stream : stream; ex_Status : option Z; ex_Cursor : string; ex_Checkpoints : gmap string NodeCheckpoint;
  ex_Saves : nat; ex_LastCheckpoint : string; ex_Ran : list string; ex_Comp : list string;
}.

Definition ex_Events (w : exec_state) : list JobEvent := sm_Events (ex_Stream w).

Definition with_stream (f : stream -> stream) (w : exec_state) : exec_state :=
  mkExec (f (ex_Stream w)) (ex_Status w) (ex_Cursor w) (ex_Checkpoints w) (ex_Saves w) (ex_LastCheckpoint w)
    (ex_Ran w) (ex_Comp w).

Definition UpdateStatus (status : Z) (w : exec_state) : exec_state :=
  mkExec (ex_Stream w) (Some status) (ex_Cursor w) (ex_Checkpoints w) (ex_Saves w) (ex_LastCheckpoint w)
    (ex_Ran w) (ex_Comp w).

Definition statusCompleted : Z := 2.
Definition statusFailed : Z := 3.
Definition statusWaiting : Z := 5.
Definition statusParked : Z := 6.

Definition log_run (nodeID : string) (evs : list JobEvent) (w : exec_state) : exec_state :=
  mkExec (mkStream (ex_Events w ++ evs) (sm_Appends (ex_Stream w))) (ex_Status w) (ex_Cursor w)
    (ex_Checkpoints w) (ex_Saves w) (ex_LastCheckpoint w) (ex_Ran w ++ [nodeID]) (ex_Comp w).

Definition log_compensation (nodeID : string) (w : exec_state) : exec_state :=
  mkExec (ex_Stream w) (ex_Status w) (ex_Cursor w) (ex_Checkpoints w) (ex_Saves w) (ex_LastCheckpoint w)
    (ex_Ran w) (ex_Comp w ++ [nodeID]).

(** [checkpointStore.Save] and, when it succeeds, the session's last
    checkpoint and the job's cursor. *)
Definition save_checkpoint (r : Runner) (a : Agent) (cp : NodeCheckpoint) (w : exec_state) : exec_state * bool :=
  match rn_save r (ex_Saves w) with
  | None => (mkExec (ex_Stream w) (ex_Status w) (ex_Cursor w) (ex_Checkpoints w) (S (ex_Saves w))
               (ex_LastCheckpoint w) (ex_Ran w) (ex_Comp w), false)
  | Some id => (mkExec (ex_Stream w) (ex_Status w) id (<[id := cp]> (ex_Checkpoints w)) (S (ex_Saves w))
                  (match ag_Session a with Some _ => id | None => ex_LastCheckpoint w end) (ex_Ran w) (ex_Comp w),
                true)
  end.

(** ** Steps that are done (runner.go:316-352) *)

Definition effective_step (jobID decisionID : string) (i : nat) (s : SteppableStep) : string :=
  DeterministicStepID jobID decisionID (Z.of_nat i) (ss_NodeType s).

Definition step_done (jobID decisionID : string) (completed : gset string) (i : nat) (s : SteppableStep) : bool :=
  bool_decide (effective_step jobID decisionID i s ∈ completed) || bool_decide (ss_NodeID s ∈ completed).

Fixpoint first_open (jobID decisionID : string) (completed : gset string) (i : nat) (steps : list SteppableStep)
    : option nat :=
  match steps with
  | [] => None
  | s :: r => if step_done jobID decisionID completed i s then first_open jobID decisionID completed (S i) r
              else Some i
  end.

Definition node_index (steps : list SteppableStep) (id : string) : option nat :=
  last (map fst (filter (fun p => ss_NodeID (snd p) = id) (imap pair steps))).

(** The open steps of one level. *)
Definition open_of_level (jobID decisionID : string) (completed : gset string) (steps : list SteppableStep)
    (level : list string) : list nat :=
  omap (fun id => idx ← node_index steps id; s ← steps !! idx;
                  if step_done jobID decisionID completed idx s then None else Some idx) level.

Definition nextRunnableBatch (maxParallelSteps : Z) (steps : list SteppableStep)
    (levelGroups : option (list (list string))) (completed : gset string) (jobID decisionID : string) : list nat :=
  match levelGroups with
  | Some groups =>
      if 0 <? maxParallelSteps
      then default [] (head (filter (fun l => l <> []) (map (open_of_level jobID decisionID completed steps) groups)))
      else match first_open jobID decisionID completed 0 steps with Some i => [i] | None => [] end
  | None => match first_open jobID decisionID completed 0 steps with Some i => [i] | None => [] end
  end.

Definition isWaitLikeNodeType (ty : string) : bool :=
  existsb (String.eqb ty) ["wait"; "approval"; "condition"].

Definition waitDefaultsForNodeType (ty : string) : string * string :=
  if String.eqb ty "approval" then ("signal", "approval_required")
  else if String.eqb ty "condition" then ("condition", "wait_condition")
  else ("signal", EmptyString).

(** ** One step *)

Section runner.
Context (r : Runner) (j : JobForRunner) (a : Agent).

Definition sink (f : (nat -> bool) -> stream -> stream) (w : exec_state) : exec_state :=
  match rn_sink r with None => w | Some ok => with_stream (f ok) w end.

Definition writeTerminalCompleted (w : exec_state) : exec_state :=
  UpdateStatus statusCompleted (sink (fun ok => AppendJobCompleted ok (rn_now r) (jr_ID j) (jr_Goal j)) w).

Definition writeTerminalFailed (reason : string) (ty : StepResultType) (nodeID : string) (w : exec_state)
    : exec_state :=
  UpdateStatus statusFailed (sink (fun ok => AppendJobFailed ok (rn_now r) (jr_ID j) reason ty nodeID) w).

(** What a step leaves: the loop goes on with a payload, or returns. *)
Inductive step_end :=
| Continue (p : AgentDAGPayload)
| Stop (e : go_error).

Definition fail_with (e : go_error) (w : exec_state) : exec_state * step_end := (UpdateStatus statusFailed w, Stop e).

(** The result type and reason of lines 888-919. *)
Definition classify (runErr : option go_error) (nodeType : string) : StepResultType * string :=
  let '(t, reason) :=
    match runErr with
    | Some e => if errors_is DeadlineExceeded e then (StepResultRetryableFailure, "step timeout")
                else ClassifyError runErr
    | None => ClassifyError runErr
    end in
  (if decide (t = StepResultSuccess)
   then if String.eqb nodeType "tool" then StepResultSideEffectCommitted else StepResultPure else t, reason).

Definition state_string (t : StepResultType) : string :=
  match t with
  | StepResultSuccess | StepResultPure | StepResultSideEffectCommitted | StepResultCompensated => "ok"
  | _ => step_result_string t
  end.

Definition node_checkpoint (nodeID graphBytes payloadResults : string) : NodeCheckpoint :=
  mkNodeCheckpoint (ag_ID a) (sessionID a) (jr_ID j) nodeID graphBytes payloadResults.

Definition checkpoint_then (nodeID graphBytes payloadResults : string) (p : AgentDAGPayload) (w : exec_state)
    : exec_state * step_end :=
  match save_checkpoint r a (node_checkpoint nodeID graphBytes payloadResults) w with
  | (w, true) => (w, Continue p)
  | (w, false) => fail_with (EText "executor: save checkpoint failed: ") w
  end.

(** The reasoning snapshot of lines 1558-1604, which only the run loop
    writes. *)
Definition reasoning_snapshot (nodeID stepID nodeType before after : string) (res : gmap string json) : string :=
  let '(ins, outs) := extractStateKeys before after in
  map_text (m_str "node_id" nodeID ++ m_str "step_id" stepID ++ m_str "node_type" nodeType
    ++ m_str "goal" (jr_Goal j) ++ m_int "duration_ms" (rn_duration r nodeID)
    ++ m_str "timestamp" (format_rfc3339 (rn_now r)) ++ raw_omit "state_before" before
    ++ raw_omit "state_after" after ++ (if String.eqb nodeType "tool" then m_str "tool_name" nodeID else [])
    ++ (if String.eqb nodeType "llm"
        then m_str "llm_request" (jr_Goal j)
             ++ match res !! nodeID with
                | Some JNull | None => []
                | Some v => [("llm_response", print v)]
                end
        else [])
    ++ match res !! nodeID with
       | Some (JObj l) => match lookup_field "_evidence" l with
                          | Some JNull | None => []
                          | Some v => [("evidence", print v)]
                          end
       | _ => []
       end
    ++ match ins with [] => [] | _ => [("input_keys", print (JArr (map JStr ins)))] end
    ++ match outs with [] => [] | _ => [("output_keys", print (JArr (map JStr outs)))] end).

(** After [Run]: lines 888-978, and in the run loop 1490-1641. *)
Definition finish_step (in_loop : bool) (nodeID nodeType stepID graphBytes stateBefore : string)
    (payload : option AgentDAGPayload) (runErr : option go_error) (w : exec_state) : exec_state * step_end :=
  let '(t, reason) := classify runErr nodeType in
  let payload := default (mkPayload EmptyString EmptyString EmptyString None) payload in
  let res := default ∅ (pl_Results payload) in
  let payload := set_Results (Some res) payload in
  let after := results_text (Some res) in
  let w := sink (fun ok => AppendNodeFinished ok (rn_now r) (jr_ID j) nodeID after (rn_duration r nodeID)
                             (state_string t) 1 t reason stepID EmptyString) w in
  if isStepFailure t then
    let w :=
      match rn_compensation r with
      | Some has => if bool_decide (t = StepResultCompensatableFailure) && has nodeID
                    then sink (fun ok => AppendStepCompensated ok (rn_now r) (jr_ID j) nodeID stepID stepID reason)
                           (log_compensation nodeID w)
                    else w
      | None => w
      end in
    let sf := EStepFailure t runErr nodeID in
    (writeTerminalFailed (error_text sf) t nodeID w,
     Stop (EWrap ("executor: 节点 " +:+ nodeID +:+ " execution failed (" +:+ step_result_string t +:+ "): ") sf))
  else
    let w := sink (fun ok => AppendStepCommitted ok (rn_now r) (jr_ID j) nodeID stepID stepID EmptyString) w in
    let w := sink (fun ok => AppendStateCheckpointed ok (rn_now r) (jr_ID j) nodeID stateBefore after
                               (ChangedKeysFromState stateBefore after)) w in
    let w := if in_loop
             then sink (fun ok => AppendReasoningSnapshot ok (rn_now r) (jr_ID j)
                                    (reasoning_snapshot nodeID stepID nodeType stateBefore after res)) w
             else w in
    checkpoint_then nodeID graphBytes after payload w.

Definition resumption_text (results : option (gmap string json)) (graphBytes nodeID : string)
    (memory : option string) : string :=
  map_text ([("payload_results", results_text results)] ++ m_str "plan_decision_id" (PlanDecisionID graphBytes)
    ++ m_str "cursor_node" nodeID
    ++ match memory with
       | Some wm => [("memory_snapshot", map_text ([("working_memory", wm)]
                                          ++ m_str "snapshot_at" (format_rfc3339 (rn_now r))))]
       | None => []
       end).

Definition tenant : string := match jr_TenantID j with EmptyString => "default" | t => t end.

Definition first_error (vs : list (string -> string -> string -> string -> option go_error)) (stepID nodeID nodeType : string)
    : option go_error := head (omap (fun v => v (jr_ID j) stepID nodeID nodeType) vs).

(** Running a step, lines 823-886 and 1408-1484: [replay] is the context the
    step gets from the replay, and only the run loop passes approved keys. *)
Definition run_step (in_loop : bool) (replay : option ReplayContext) (step : SteppableStep)
    (stepID graphBytes stateBefore : string) (payload : AgentDAGPayload) (w : exec_state)
    : outcome (exec_state * step_end) :=
  let nodeID := ss_NodeID step in
  let from {A} (d : A) (f : ReplayContext -> A) := match replay with Some rc => f rc | None => d end in
  let ctx := mkStepCtx (jr_ID j) tenant stepID (from ∅ rc_CompletedToolInvocations)
               (from ∅ rc_PendingToolInvocations) (from ∅ rc_StateChangesByStep)
               (if in_loop then from ∅ rc_ApprovedCorrelationKeys else ∅) (bool_decide (is_Some replay)) in
  let '(payload', runErr, w) :=
    match first_error (rn_validators r) stepID nodeID (ss_NodeType step) with
    | Some e => (Some payload, Some e, w)
    | None => let o := ss_Run step ctx payload (ex_Events w) in
              (ro_Payload o, ro_Err o, log_run nodeID (ro_Events o) w)
    end in
  match signalWaitFromError runErr with
  | Some (key, waitReason) =>
      match rn_sink r, payload' with
      | Some _, None => Panic "invalid memory address or nil pointer dereference"
      | _, _ =>
          let results := match payload' with Some p => pl_Results p | None => None end in
          let w := sink (fun ok => AppendJobWaiting ok (rn_now r) (jr_ID j) nodeID "signal" waitReason
                                     (t_add (rn_now r) (24 * hour)) key
                                     (resumption_text results graphBytes nodeID None)) w in
          Ret (UpdateStatus statusWaiting w, Stop (ESentinel ErrJobWaiting))
      end
  | None => Ret (finish_step in_loop nodeID (ss_NodeType step) stepID graphBytes stateBefore payload' runErr w)
  end.

Definition node_started (nodeID : string) : exec_state -> exec_state :=
  sink (fun ok => AppendNodeStarted ok (rn_now r) (jr_ID j) nodeID 1 EmptyString).

(** ** Replay: a recorded result instead of a run (lines 733-818) *)

Definition inject (result : string) (completed : gset string) (step : SteppableStep) (stepID graphBytes : string)
    (payload : AgentDAGPayload) (w : exec_state) : exec_state * step_end :=
  let nodeID := ss_NodeID step in
  let payload :=
    match result with
    | EmptyString => payload
    | _ => match unmarshal result with
           | Some v => set_Results (Some (<[nodeID := v]> (default ∅ (pl_Results payload)))) payload
           | None => payload
           end
    end in
  let after := results_text (pl_Results payload) in
  let w :=
    if bool_decide (stepID ∈ completed) then w
    else
      let rt := if String.eqb (ss_NodeType step) "tool" then StepResultSideEffectCommitted else StepResultPure in
      sink (fun ok => AppendStepCommitted ok (rn_now r) (jr_ID j) nodeID stepID nodeID EmptyString)
        (sink (fun ok => AppendNodeFinished ok (rn_now r) (jr_ID j) nodeID after 0 EmptyString 0 rt EmptyString
                           stepID EmptyString) w) in
  checkpoint_then nodeID graphBytes after payload w.

(** What the replay says of the next step: run it, inject a result, or refuse. *)
Inductive replay_verdict := RunIt | InjectIt (result : string) | RefuseIt.

Definition replay_verdict_of (rc : ReplayContext) (step : SteppableStep) : replay_verdict :=
  let commandID := ss_NodeID step in
  match rn_replayPolicy r with
  | Some policy =>
      let d := policy (ss_NodeID step) commandID (ss_NodeType step) (Some rc) in
      if rd_Inject d && negb (String.eqb (rd_Result d) EmptyString) then InjectIt (rd_Result d)
      else if negb (rd_Inject d) && (match rd_Kind d with SideEffect | External => true | Deterministic => false end)
           then RefuseIt else RunIt
  | None =>
      if bool_decide (commandID ∈ rc_CompletedCommandIDs rc)
      then InjectIt (get_default EmptyString (rc_CommandResults rc) commandID)
      else RunIt
  end.

Inductive advance_end :=
| Done
| Advanced
| AdvanceErr (e : go_error).

Definition as_advance (x : exec_state * step_end) : exec_state * advance_end :=
  (fst x, match snd x with Continue _ => Advanced | Stop e => AdvanceErr e end).

(** The payload of a context or checkpoint: [None] when it does not decode. *)
Definition payload_of (data : string) : option AgentDAGPayload :=
  let payload := NewAgentDAGPayload (jr_Goal j) (ag_ID a) (sessionID a) in
  match data with
  | EmptyString => Some payload
  | _ => (fun res => set_Results res payload) <$> decode_results data
  end.

(** [Advance], lines 662-980. *)
Definition Advance (rc : ReplayContext) (w : exec_state) : outcome (exec_state * advance_end) :=
  match rc_TaskGraphState rc with
  | EmptyString => Ret (w, Done)
  | data =>
      match Unmarshal data with
      | None => Ret (w, Done)
      | Some g =>
          match CompileSteppable (rn_registry r) g with
          | Err e => Ret (w, AdvanceErr (EText e))
          | Ok steps =>
              match payload_of (rc_PayloadResults rc) with
              | None => Ret (UpdateStatus statusFailed w,
                          AdvanceErr (EText ("executor: corrupted payload results for job " +:+ jr_ID j)))
              | Some payload =>
                  let completed := rc_CompletedNodeIDs rc in
                  let graphBytes := Marshal g in
                  let decisionID := PlanDecisionID graphBytes in
                  match first_open (jr_ID j) decisionID completed 0 steps with
                  | None => Ret (writeTerminalCompleted w, Done)
                  | Some i =>
                      match steps !! i with
                      | None => Ret (writeTerminalCompleted w, Done)
                      | Some step =>
                          let stepID := effective_step (jr_ID j) decisionID i step in
                          match replay_verdict_of rc step with
                          | InjectIt res => Ret (as_advance (inject res completed step stepID graphBytes payload w))
                          | RefuseIt =>
                              Ret (UpdateStatus statusFailed w,
                                   AdvanceErr (EText ("executor: replay 时副作用节点 " +:+ ss_NodeID step +:+
                                                 " 无已记录结果，forbidden执行")))
                          | RunIt =>
                              if bool_decide (stepID ∈ completed) then Ret (w, Advanced)
                              else
                                run x <- run_step false (Some rc) step stepID graphBytes
                                           (results_text (pl_Results payload)) payload
                                           (node_started (ss_NodeID step) w) ;;
                                Ret (as_advance x)
                          end
                      end
                  end
              end
          end
      end
  end.

(** ** The run loop (lines 1171-1644)

    On every path to it the replay context is nil: its replay branch is
    unreachable and left out. *)

(** The configuration of a wait node: the first one of that id with any. *)
Definition wait_config (g : TaskGraph) (nodeID : string) : list (string * json) :=
  match list_find (fun n => tn_ID n = nodeID /\ tn_Config n <> []) (tg_Nodes g) with
  | Some (_, n) => tn_Config n
  | None => []
  end.

Definition cfg_str (name : string) (c : list (string * json)) : string :=
  match lookup_field name c with Some (JStr s) => s | _ => EmptyString end.

Definition or_default (d s : string) : string := match s with EmptyString => d | _ => s end.

(** The search of lines 1396-1404 goes on past a node that does not park. *)
Definition parks (nodeID : string) (n : TaskNode) : bool :=
  String.eqb (tn_ID n) nodeID &&
  match lookup_field "park" (tn_Config n) with Some (JBool b) => b | _ => false end.

Definition enter_wait (g : TaskGraph) (step : SteppableStep) (graphBytes : string) (payload : AgentDAGPayload)
    (w : exec_state) : exec_state * step_end :=
  let nodeID := ss_NodeID step in
  let c := wait_config g nodeID in
  let '(defKind, defReason) := waitDefaultsForNodeType (ss_NodeType step) in
  let waitKind := or_default defKind (cfg_str "wait_kind" c) in
  let reason := or_default defReason (cfg_str "reason" c) in
  let channel := cfg_str "channel" c in
  let expires := match lookup_field "expires_at" c with Some (JStr e) => rn_parse r e | _ => None end in
  let expires := match expires with
                 | Some t => if is_zero t then t_add (rn_now r) (24 * hour) else t
                 | None => t_add (rn_now r) (24 * hour)
                 end in
  let key := or_default ("wait-" +:+ rn_uuid r nodeID) (cfg_str "correlation_key" c) in
  let key := if String.eqb waitKind "message" && negb (String.eqb channel EmptyString) then channel else key in
  let w := sink (fun ok => AppendJobWaiting ok (rn_now r) (jr_ID j) nodeID waitKind reason expires key
                             (resumption_text (pl_Results payload) graphBytes nodeID (ag_Session a ≫= snd))) w in
  let status := if existsb (parks nodeID) (tg_Nodes g) then statusParked else statusWaiting in
  (UpdateStatus status w, Stop (ESentinel ErrJobWaiting)).

(** One turn of the loop for the open step [i]. *)
Definition loop_step (g : TaskGraph) (graphBytes : string) (i : nat) (step : SteppableStep)
    (payload : AgentDAGPayload) (w : exec_state) : outcome (exec_state * step_end) :=
  let w := node_started (ss_NodeID step) w in
  if isWaitLikeNodeType (ss_NodeType step) then Ret (enter_wait g step graphBytes payload w)
  else run_step true None step (effective_step (jr_ID j) (PlanDecisionID graphBytes) i step) graphBytes
         (results_text (pl_Results payload)) payload w.

Fixpoint run_loop (fuel : nat) (g : TaskGraph) (steps : list SteppableStep) (completed : gset string)
    (payload : AgentDAGPayload) (w : exec_state) : outcome (exec_state * option go_error) :=
  match fuel with
  | O => Ret (w, Some (EText "out of fuel"))
  | S f =>
      let graphBytes := Marshal g in
      let decisionID := PlanDecisionID graphBytes in
      match nextRunnableBatch 0 steps None completed (jr_ID j) decisionID ≫= (fun i => option_list (pair i <$> steps !! i)) with
      | [] => Ret (writeTerminalCompleted w, None)
      | (i, step) :: _ =>
          run x <- loop_step g graphBytes i step payload w ;;
          match snd x with
          | Stop e => Ret (fst x, Some e)
          | Continue payload' =>
              run_loop f g steps (completed ∪ {[effective_step (jr_ID j) decisionID i step; ss_NodeID step]})
                payload' (fst x)
          end
      end
  end.

(** ** RunForJob (lines 981-1169)

    [snapshot] is what the event store's latest snapshot holds. *)

Definition hasReplayProgress (rc : ReplayContext) : bool :=
  negb (bool_decide (rc_CompletedCommandIDs rc = ∅)) || negb (bool_decide (rc_CompletedNodeIDs rc = ∅))
  || negb (bool_decide (rc_CompletedToolInvocations rc = ∅)) || negb (bool_decide (rc_PendingToolInvocations rc = ∅))
  || negb (bool_decide (rc_CommandResults rc = ∅)).

Context (snapshot : option (Z * option SnapshotPayload)).

Definition rebuild (w : exec_state) : outcome (option ReplayContext) := BuildFromSnapshot (ex_Events w) snapshot.

(** The event-driven loop; [None] when the context is gone and the run loop
    takes over.  [waits]: whether a waiting phase ends it. *)
Fixpoint advance_loop (fuel : nat) (waits : bool) (rc : ReplayContext) (w : exec_state)
    : outcome (exec_state * option (option go_error)) :=
  match fuel with
  | O => Ret (w, Some (Some (EText "out of fuel")))
  | S f =>
      run x <- Advance rc w ;;
      let w := fst x in
      match snd x with
      | AdvanceErr e => Ret (w, Some (Some e))
      | Done => Ret (w, Some None)
      | Advanced =>
          run rc' <- rebuild w ;;
          match rc' with
          | None => Ret (w, None)
          | Some rc' =>
              if waits && (match rc_Phase rc' with PhaseWaiting => true | _ => false end)
              then Ret (UpdateStatus statusWaiting w, Some (Some (ESentinel ErrJobWaiting)))
              else advance_loop f waits rc' w
          end
      end
  end.

Definition fail_job (msg : string) (w : exec_state) : outcome (exec_state * option go_error) :=
  Ret (UpdateStatus statusFailed w, Some (EText msg)).

(** Lines 1044-1060: the nodes up to the cursor, all of them when it names
    none, and the step ids of those before the next one. *)
Fixpoint nodes_upto (cursor : string) (steps : list SteppableStep) : list string * option nat :=
  match steps with
  | [] => ([], None)
  | s :: rest =>
      if String.eqb (ss_NodeID s) cursor then ([ss_NodeID s], Some 1%nat)
      else let '(ids, n) := nodes_upto cursor rest in (ss_NodeID s :: ids, S <$> n)
  end.

Definition completed_upto (decisionID cursor : string) (steps : list SteppableStep) : gset string :=
  let '(ids, n) := nodes_upto cursor steps in
  list_to_set ids ∪ list_to_set (take (default 0%nat n) (imap (effective_step (jr_ID j) decisionID) steps)).

(** Lines 1070-1092: the nodes the stream has completed count as well, and
    the context has no command results. *)
Definition merge_completed (fresh : option ReplayContext) (completed : gset string) : gset string :=
  match fresh with Some f => rc_CompletedNodeIDs f ∪ completed | None => completed end.

Definition cursor_context (cp : NodeCheckpoint) (completed : gset string) : ReplayContext :=
  set_rc_Phase PhaseExecuting (set_rc_CompletedNodeIDs completed
    (set_rc_PayloadResults (nc_PayloadResults cp) (set_rc_CursorNode (nc_CursorNode cp)
       (set_rc_TaskGraphState (nc_TaskGraphState cp) empty_context)))).

Definition run_from_cursor (fuel : nat) (cp : NodeCheckpoint) (w : exec_state)
    : outcome (exec_state * option go_error) :=
  match Unmarshal (nc_TaskGraphState cp) with
  | None => fail_job "executor: deserialize TaskGraph failed: " w
  | Some g =>
      match CompileSteppable (rn_registry r) g with
      | Err e => fail_job ("executor: CompileSteppable failed: " +:+ e) w
      | Ok steps =>
          let completed := completed_upto (PlanDecisionID (nc_TaskGraphState cp)) (nc_CursorNode cp) steps in
          match payload_of (nc_PayloadResults cp) with
          | None => fail_job "executor: deserialize PayloadResults failed: " w
          | Some payload =>
              if rn_replayBuilder r then
                run fresh <- rebuild w ;;
                let completed := merge_completed fresh completed in
                run x <- advance_loop fuel false (cursor_context cp completed) w ;;
                match snd x with
                | Some e => Ret (fst x, e)
                | None => run_loop fuel g steps completed payload (fst x)
                end
              else run_loop fuel g steps completed payload w
          end
      end
  end.

Definition run_from_events (fuel : nat) (w : exec_state) : outcome (exec_state * option go_error) :=
  let forbidden := fail_job "executor: 事件流中无 PlanGenerated，forbidden执行（design/runtime-contract.md）" in
  if negb (rn_replayBuilder r) then forbidden w
  else
    run o <- rebuild w ;;
    match o with
    | None => forbidden w
    | Some rc =>
        match (match rc_TaskGraphState rc with EmptyString => None | data => Unmarshal data end) with
        | None => forbidden w
        | Some g =>
            if (match rc_Phase rc with PhaseWaiting => true | _ => false end)
            then Ret (UpdateStatus statusWaiting w, Some (ESentinel ErrJobWaiting))
            else
              run x <- (if hasReplayProgress rc then advance_loop fuel true rc w else Ret (w, None)) ;;
              let w := fst x in
              match snd x with
              | Some e => Ret (w, e)
              | None =>
                  match CompileSteppable (rn_registry r) g with
                  | Err e => fail_job ("executor: CompileSteppable failed: " +:+ e) w
                  | Ok steps =>
                      (* after the loop [rctx] is nil: reading it panics *)
                      if hasReplayProgress rc then Panic "invalid memory address or nil pointer dereference"
                      else match payload_of (rc_PayloadResults rc) with
                           | None => fail_job "executor: deserialize PayloadResults failed: " w
                           | Some payload => run_loop fuel g steps (rc_CompletedNodeIDs rc) payload w
                           end
                  end
              end
        end
    end.

Definition RunForJob (fuel : nat) (w : exec_state) : outcome (exec_state * option go_error) :=
  match jr_Cursor j with
  | EmptyString => run_from_events fuel w
  | cursor =>
      match ex_Checkpoints w !! cursor with
      | None => fail_job ("executor: recover checkpoint " +:+ cursor +:+ " failed: ") w
      | Some cp => run_from_cursor fuel cp w
      end
  end.
End runner.
