(* ===== verification/ExecutorProps.v ===== *)
(** The executor: a batch is ready, the run loop runs every open step once and
    in order until one stops it, and what a job delivered again may not do. *)

From S2P Require Import Prelude Sha256 GoTime Json Events StepResult Identity Replay TaskGraph EventSink Executor.

(** ** Open steps *)

Section steps.
Variables (jobID decisionID : string).

Fixpoint open_steps (completed : gset string) (i : nat) (steps : list SteppableStep) : list (nat * SteppableStep) :=
  match steps with
  | [] => []
  | s :: r => if step_done jobID decisionID completed i s then open_steps completed (S i) r
              else (i, s) :: open_steps completed (S i) r
  end.

(** Both names of the steps, from position [i]. *)
Fixpoint step_names (i : nat) (steps : list SteppableStep) : list string :=
  match steps with
  | [] => []
  | s :: r => effective_step jobID decisionID i s :: ss_NodeID s :: step_names (S i) r
  end.

Lemma first_open_steps completed i steps :
  match open_steps completed i steps with
  | [] => first_open jobID decisionID completed i steps = None
  | (k, s) :: _ => first_open jobID decisionID completed i steps = Some k /\ (i <= k)%nat /\
                   steps !! (k - i)%nat = Some s
  end.
Proof.
  revert i. induction steps as [|s steps IH]; intros i; cbn [open_steps first_open]; [done|].
  destruct (step_done _ _ _ i s).
  - specialize (IH (S i)). destruct (open_steps completed (S i) steps) as [|[k s'] rest]; [done|].
    destruct IH as (-> & Hk & Hl). split_and!; [done|lia|].
    replace (k - i)%nat with (S (k - S i)) by lia. done.
  - by rewrite Nat.sub_diag.
Qed.

Lemma open_steps_extra completed extra i steps :
  (forall x, x ∈ extra -> x ∉ step_names i steps) ->
  open_steps (completed ∪ extra) i steps = open_steps completed i steps.
Proof.
  revert i. induction steps as [|s steps IH]; intros i Hx; cbn [open_steps step_names] in *; [done|].
  rewrite IH by (intros x Hin Hn; apply (Hx x Hin); by do 2 right).
  assert (step_done jobID decisionID (completed ∪ extra) i s = step_done jobID decisionID completed i s) as ->; [|done].
  unfold step_done. f_equal; apply bool_decide_ext; rewrite elem_of_union.
  - split; [intros [?|Hin]; [done|]|by left]. exfalso. apply (Hx _ Hin). by left.
  - split; [intros [?|Hin]; [done|]|by left]. exfalso. apply (Hx _ Hin). right. by left.
Qed.

Lemma open_steps_run completed i steps k s rest :
  NoDup (step_names i steps) -> open_steps completed i steps = (k, s) :: rest ->
  open_steps (completed ∪ {[effective_step jobID decisionID k s; ss_NodeID s]}) i steps = rest.
Proof.
  revert i. induction steps as [|s' steps IH]; intros i Hnd Ho; cbn [open_steps step_names] in *; [done|].
  apply NoDup_cons in Hnd as [Hn1 Hnd]. apply NoDup_cons in Hnd as [Hn2 Hnd].
  destruct (step_done _ _ completed i s') eqn:Hd.
  - assert (step_done jobID decisionID (completed ∪ {[effective_step jobID decisionID k s; ss_NodeID s]}) i s' = true)
      as ->; [|by apply IH].
    unfold step_done in *. apply orb_true_iff in Hd. apply orb_true_iff.
    destruct Hd as [Hd|Hd]; apply bool_decide_eq_true_1 in Hd; [left|right];
      apply bool_decide_eq_true_2, elem_of_union; by left.
  - injection Ho as <- <- <-.
    assert (step_done jobID decisionID (completed ∪ {[effective_step jobID decisionID i s'; ss_NodeID s']}) i s' = true)
      as ->.
    { unfold step_done. apply orb_true_iff. left. apply bool_decide_eq_true_2, elem_of_union. right.
      apply elem_of_union. left. by apply elem_of_singleton. }
    apply open_steps_extra. intros x [Hx|Hx]%elem_of_union Hin; apply elem_of_singleton in Hx as ->; [|done].
    apply Hn1. by right.
Qed.
End steps.

(** ** Batches *)

Lemma compile_nodes_names reg g ids steps : compile_nodes reg g ids = Ok steps -> map ss_NodeID steps = ids.
Proof.
  revert steps. induction ids as [|id ids IH]; intros steps; cbn [compile_nodes]; [by intros [= <-]|].
  rewrite result_bind_ok. intros (s & Hs & Hr). rewrite result_bind_ok in Hr. destruct Hr as (rest & Hrest & [= <-]).
  cbn. rewrite (IH _ Hrest). f_equal. unfold compile_node in Hs. repeat case_match; try done. by injection Hs as <-.
Qed.

Lemma CompileSteppable_order reg g steps :
  CompileSteppable reg g = Ok steps -> topo_order g (map ss_NodeID steps).
Proof.
  unfold CompileSteppable. destruct (tg_Nodes g) as [|n ns]; [done|]. rewrite result_bind_ok.
  intros (order & Ho & Hs). apply compile_nodes_names in Hs as ->.
  pose proof (TopoOrder_correct g) as Ht. by rewrite Ho in Ht.
Qed.

Lemma node_index_spec steps id k :
  NoDup (map ss_NodeID steps) ->
  node_index steps id = Some k <-> exists s, steps !! k = Some s /\ ss_NodeID s = id.
Proof.
  intros Hnd. unfold node_index.
  assert (forall k, k ∈ map fst (filter (fun p => ss_NodeID (snd p) = id) (imap pair steps)) <->
            exists s, steps !! k = Some s /\ ss_NodeID s = id) as Hin.
  { intros k'. rewrite list_elem_of_fmap. setoid_rewrite list_elem_of_filter. setoid_rewrite elem_of_lookup_imap.
    split.
    - intros ([k0 s0] & -> & Hid & i & s & [= -> ->] & Hs). by exists s.
    - intros (s & Hs & Hid). exists (k', s). split_and!; [done|done|]. by exists k', s. }
  split.
  - intros Hl. apply Hin. apply last_Some in Hl as [l' ->]. apply elem_of_app. right. by left.
  - intros (s & Hs & Hid). pose proof (proj2 (Hin k) (ex_intro _ s (conj Hs Hid))) as Hk.
    destruct (last (map fst _)) as [k'|] eqn:Hl; [|apply last_None in Hl; rewrite Hl in Hk; by apply elem_of_nil in Hk].
    f_equal. pose proof Hl as Hl'. apply last_Some in Hl' as [l' Hl'].
    assert (k' ∈ map fst (filter (fun p => ss_NodeID (snd p) = id) (imap pair steps))) as Hk'
      by (rewrite Hl'; apply elem_of_app; right; by left).
    apply Hin in Hk' as (s' & Hs' & Hid').
    eapply (NoDup_lookup _ _ _ id Hnd); rewrite list_lookup_fmap; [by rewrite Hs'; cbn; rewrite Hid'|].
    by rewrite Hs; cbn; rewrite Hid.
Qed.

Lemma first_open_before jobID decisionID completed i steps k :
  first_open jobID decisionID completed i steps = Some k ->
  forall n s, (n < k - i)%nat -> steps !! n = Some s -> step_done jobID decisionID completed (i + n) s = true.
Proof.
  revert i. induction steps as [|s0 steps IH]; intros i; cbn [first_open]; [done|].
  destruct (step_done jobID decisionID completed i s0) eqn:Hd.
  - intros Hf [|n] s Hn Hs; cbn in Hs; [injection Hs as <-; by rewrite Nat.add_0_r|].
    rewrite Nat.add_succ_r. apply (IH (S i) Hf n); [lia|done].
  - intros [= <-]. lia.
Qed.

Lemma first_open_some jobID decisionID completed i steps k :
  first_open jobID decisionID completed i steps = Some k ->
  (i <= k)%nat /\ exists s, steps !! (k - i)%nat = Some s /\ step_done jobID decisionID completed k s = false.
Proof.
  revert i. induction steps as [|s0 steps IH]; intros i; cbn [first_open]; [done|].
  destruct (step_done jobID decisionID completed i s0) eqn:Hd.
  - intros (Hk & s & Hs & Hds)%IH. split; [lia|]. exists s. replace (k - i)%nat with (S (k - S i)) by lia. done.
  - intros [= <-]. split; [done|]. exists s0. by rewrite Nat.sub_diag.
Qed.

Lemma first_open_none jobID decisionID completed i steps :
  first_open jobID decisionID completed i steps = None ->
  forall n s, steps !! n = Some s -> step_done jobID decisionID completed (i + n) s = true.
Proof.
  revert i. induction steps as [|s0 steps IH]; intros i; cbn [first_open]; [done|].
  destruct (step_done jobID decisionID completed i s0) eqn:Hd; [|done].
  intros Hf [|n] s Hs; cbn in Hs; [injection Hs as <-; by rewrite Nat.add_0_r|].
  rewrite Nat.add_succ_r. by apply (IH (S i) Hf n).
Qed.

Lemma head_filter_map {A B} (f : A -> list B) l :
  match head (filter (fun x => x <> []) (map f l)) with
  | Some x => exists i a, l !! i = Some a /\ f a = x /\ x <> [] /\
                          forall k b, (k < i)%nat -> l !! k = Some b -> f b = []
  | None => forall a, a ∈ l -> f a = []
  end.
Proof.
  induction l as [|a l IH]; cbn [map]; [by intros a Ha%elem_of_nil|]. rewrite filter_cons. case_decide as Ha.
  - cbn [head]. exists 0%nat, a. split_and!; [done|done|done|lia].
  - destruct (f a) eqn:Hfa; [|done]. destruct (head _) as [x|].
    + destruct IH as (i & b & Hi & Hb & Hx & Hk). exists (S i), b. split_and!; [done|done|done|].
      intros [|k] c Hlt Hc; [by injection Hc as <-|apply (Hk k); [lia|done]].
    + intros b [->|Hb]%elem_of_cons; [done|by apply IH].
Qed.

Lemma elem_of_open_level jobID decisionID completed steps level i :
  i ∈ open_of_level jobID decisionID completed steps level <->
  exists id s, id ∈ level /\ node_index steps id = Some i /\ steps !! i = Some s /\
               step_done jobID decisionID completed i s = false.
Proof.
  unfold open_of_level. rewrite list_elem_of_omap. split.
  - intros (id & Hid & Hx). destruct (node_index steps id) as [k|] eqn:Hk; [|done]. cbn in Hx.
    destruct (steps !! k) as [s|] eqn:Hs; [|done]. cbn in Hx.
    destruct (step_done _ _ _ k s) eqn:Hd; [done|]. injection Hx as <-. by exists id, s.
  - intros (id & s & Hid & Hk & Hs & Hd). exists id. split; [done|]. rewrite Hk. cbn. rewrite Hs. cbn. by rewrite Hd.
Qed.

(** The batch may run: its steps are open, and the steps of their nodes'
    predecessors done. *)
Definition ready (g : TaskGraph) (steps : list SteppableStep) (jobID decisionID : string) (completed : gset string)
    (batch : list nat) : Prop :=
  forall i, i ∈ batch -> exists s, steps !! i = Some s /\ step_done jobID decisionID completed i s = false /\
    forall e, e ∈ tg_Edges g -> te_To e = ss_NodeID s ->
      exists k s', steps !! k = Some s' /\ ss_NodeID s' = te_From e /\ step_done jobID decisionID completed k s' = true.

Definition all_done (steps : list SteppableStep) (jobID decisionID : string) (completed : gset string) : Prop :=
  forall k s, steps !! k = Some s -> step_done jobID decisionID completed k s = true.

Lemma first_open_ready g steps completed jobID decisionID :
  topo_order g (map ss_NodeID steps) ->
  let batch := match first_open jobID decisionID completed 0 steps with Some i => [i] | None => [] end in
  ready g steps jobID decisionID completed batch /\ (batch = [] -> all_done steps jobID decisionID completed).
Proof.
  intros (_ & _ & Hr). cbn zeta.
  destruct (first_open jobID decisionID completed 0 steps) as [i|] eqn:Hi; (split; [|try done]).
  - intros ? ->%list_elem_of_singleton. pose proof (first_open_some _ _ _ _ _ _ Hi) as (_ & s & Hs & Hd).
    rewrite Nat.sub_0_r in Hs. exists s. split_and!; [done|done|]. intros e He Ht.
    assert (map ss_NodeID steps !! i = Some (te_To e)) as Hmi by (rewrite list_lookup_fmap, Hs; cbn; by rewrite Ht).
    pose proof (Hr _ _ _ e (eq_sym (take_drop_middle _ _ _ Hmi)) He eq_refl) as Hin.
    apply list_elem_of_lookup in Hin as [k Hk]. apply lookup_take_Some in Hk as [Hk Hlt].
    rewrite list_lookup_fmap in Hk. destruct (steps !! k) as [s'|] eqn:Hs'; [|done]. injection Hk as Hk.
    exists k, s'. split_and!; [done|done|].
    by apply (first_open_before _ _ _ _ _ _ Hi k); [lia|].
  - by intros ? ?%elem_of_nil.
  - intros _ k s Hs. by apply (first_open_none _ _ _ _ _ Hi k).
Qed.

(** A step of a level is done or in the level's open steps. *)
Lemma done_or_open steps completed jobID decisionID level k s :
  NoDup (map ss_NodeID steps) -> steps !! k = Some s -> ss_NodeID s ∈ level ->
  step_done jobID decisionID completed k s = true \/ k ∈ open_of_level jobID decisionID completed steps level.
Proof.
  intros Hnd Hs Hl. destruct (step_done jobID decisionID completed k s) eqn:Hd; [by left|right].
  apply elem_of_open_level. exists (ss_NodeID s), s. split_and!; [done| |done|done].
  apply node_index_spec; [done|]. by exists s.
Qed.

Lemma level_ready g steps groups completed jobID decisionID :
  topo_order g (map ss_NodeID steps) -> LevelGroups g = Ok groups ->
  let batch := default [] (head (filter (fun l => l <> []) (map (open_of_level jobID decisionID completed steps) groups))) in
  ready g steps jobID decisionID completed batch /\ (batch = [] -> all_done steps jobID decisionID completed).
Proof.
  intros (Hnd & Hn & _) Hgs. cbn zeta.
  pose proof (LevelGroups_correct g) as Hlg. rewrite Hgs in Hlg. destruct Hlg as (_ & Hall & Hedge & _).
  pose proof (head_filter_map (open_of_level jobID decisionID completed steps) groups) as Hh.
  destruct (head _) as [b|]; cbn [default].
  - destruct Hh as (gi & lv & Hgi & Hb & Hne & Hbefore). split; [|done].
    intros i Hi. rewrite <- Hb in Hi. apply elem_of_open_level in Hi as (id & s & Hid & Hk & Hs & Hd).
    exists s. split_and!; [done|done|]. intros e He Ht.
    apply node_index_spec in Hk as (s1 & Hs1 & <-); [|done]. rewrite Hs in Hs1. injection Hs1 as <-.
    rewrite <- Ht in Hid. destruct (Hedge e gi lv He Hgi Hid) as (k & lk & Hlt & Hlk & Hfrom).
    assert (te_From e ∈ map ss_NodeID steps) as Hf.
    { apply Hn, Hall. apply list_elem_of_In, in_concat. exists lk. split; [|by apply list_elem_of_In].
      by apply list_elem_of_In, list_elem_of_lookup; exists k. }
    apply list_elem_of_lookup in Hf as [m Hm]. rewrite list_lookup_fmap in Hm.
    destruct (steps !! m) as [s'|] eqn:Hs'; [|done]. injection Hm as Hm. exists m, s'. split_and!; [done|done|].
    rewrite <- Hm in Hfrom. destruct (done_or_open steps completed jobID decisionID lk m s' Hnd Hs' Hfrom) as [Hx|Hx]; [done|].
    rewrite (Hbefore k lk Hlt Hlk) in Hx. by apply elem_of_nil in Hx.
  - split; [by intros i Hi%elem_of_nil|]. intros _ k s Hs.
    assert (ss_NodeID s ∈ concat groups) as Hin.
    { apply Hall, Hn. apply list_elem_of_lookup. exists k. by rewrite list_lookup_fmap, Hs. }
    apply list_elem_of_In, in_concat in Hin as (lk & Hlk & Hid). apply list_elem_of_In in Hlk, Hid.
    destruct (done_or_open steps completed jobID decisionID lk k s Hnd Hs Hid) as [Hx|Hx]; [done|].
    rewrite (Hh lk Hlk) in Hx. by apply elem_of_nil in Hx.
Qed.

(** What [nextRunnableBatch] returns may run: each step of the batch is
    open and every predecessor of its node in the task graph is done, in the
    sequential mode and by levels; and an empty batch means that every step
    is done. *)
Theorem batch_ready reg g steps groups par completed jobID decisionID :
  CompileSteppable reg g = Ok steps ->
  groups = None \/ (exists gs, LevelGroups g = Ok gs /\ groups = Some gs) ->
  let batch := nextRunnableBatch par steps groups completed jobID decisionID in
  ready g steps jobID decisionID completed batch /\ (batch = [] -> all_done steps jobID decisionID completed).
Proof.
  intros Hc Hg. pose proof (CompileSteppable_order _ _ _ Hc) as Ht. unfold nextRunnableBatch.
  destruct Hg as [->|(gs & Hgs & ->)]; [by apply first_open_ready|].
  destruct (0 <? par); [by apply level_ready|by apply first_open_ready].
Qed.

(** ** What a step does to the state *)

Section frame.
Context (r : Runner) (j : JobForRunner) (a : Agent).

Lemma sink_ran f w : ex_Ran (sink r f w) = ex_Ran w.
Proof. unfold sink. by case_match. Qed.

Definition stopped (w : exec_state) : Prop :=
  ex_Status w = Some statusFailed \/ ex_Status w = Some statusWaiting \/ ex_Status w = Some statusParked.

(** The end of a step: a stop leaves a status and is no lack of fuel. *)
Definition good_end (x : exec_state * step_end) : Prop :=
  match snd x with Continue _ => True | Stop e => stopped (fst x) /\ e <> EText "out of fuel" end.

Lemma checkpoint_then_end nodeID gb res p w :
  let x := checkpoint_then r j a nodeID gb res p w in ex_Ran (fst x) = ex_Ran w /\ good_end x.
Proof.
  unfold checkpoint_then, save_checkpoint, good_end, stopped. destruct (rn_save r _); cbn; [done|].
  split_and!; [done|by left|done].
Qed.

Lemma finish_step_end in_loop nodeID ty stepID gb before p err w :
  let x := finish_step r j a in_loop nodeID ty stepID gb before p err w in
  ex_Ran (fst x) = ex_Ran w /\ good_end x.
Proof.
  unfold finish_step. destruct (classify err ty) as [t reason]. cbn zeta.
  destruct (isStepFailure t).
  - unfold good_end, stopped, writeTerminalFailed. cbn [fst snd]. cbn [ex_Ran UpdateStatus ex_Status].
    split_and!; [|by left|done]. rewrite sink_ran.
    repeat case_match; rewrite ?sink_ran; cbn [ex_Ran log_compensation]; by rewrite ?sink_ran.
  - match goal with |- context [checkpoint_then r j a ?n ?g ?s ?p ?w'] =>
      pose proof (checkpoint_then_end n g s p w') as [Hr He] end.
    split; [|exact He]. etrans; [exact Hr|]. destruct in_loop; by rewrite !sink_ran.
Qed.

Lemma run_step_end in_loop replay step stepID gb before p w x :
  rn_validators r = [] ->
  run_step r j a in_loop replay step stepID gb before p w = Ret x ->
  ex_Ran (fst x) = ex_Ran w ++ [ss_NodeID step] /\ good_end x.
Proof.
  intros Hv. unfold run_step. rewrite Hv. cbn [first_error omap list_omap head].
  set (o := ss_Run step _ p _). destruct (signalWaitFromError (ro_Err o)) as [[key why]|].
  - intros Hx.
    assert (forall w', ex_Ran w' = ex_Ran w ++ [ss_NodeID step] ->
              let y := (UpdateStatus statusWaiting w', Stop (ESentinel ErrJobWaiting)) in
              ex_Ran (fst y) = ex_Ran w ++ [ss_NodeID step] /\ good_end y) as Hy.
    { intros w' Hw'. split; [exact Hw'|]. split; [by right; left|done]. }
    destruct (rn_sink r), (ro_Payload o); try discriminate Hx; injection Hx as <-; apply Hy; by rewrite sink_ran.
  - intros [= <-]. match goal with |- context [finish_step r j a ?b ?n ?t ?s ?g ?bf ?p ?e ?w'] =>
      destruct (finish_step_end b n t s g bf p e w') as [Hr He] end.
    split; [exact Hr|exact He].
Qed.

Lemma loop_step_end g gb i step p w x :
  rn_validators r = [] -> loop_step r j a g gb i step p w = Ret x ->
  (ex_Ran (fst x) = ex_Ran w ++ [ss_NodeID step] /\ isWaitLikeNodeType (ss_NodeType step) = false \/
   ex_Ran (fst x) = ex_Ran w /\ isWaitLikeNodeType (ss_NodeType step) = true /\ exists e, snd x = Stop e) /\
  good_end x.
Proof.
  intros Hv. unfold loop_step. destruct (isWaitLikeNodeType (ss_NodeType step)).
  - intros [= <-]. unfold enter_wait. destruct (waitDefaultsForNodeType _) as [k d].
    split; [right; split_and!; [cbn [fst ex_Ran UpdateStatus]; unfold node_started; by rewrite !sink_ran|done|by eexists]|].
    split; [|done]. cbn [fst snd]. unfold stopped. cbn [ex_Status UpdateStatus].
    repeat case_match; auto.
  - intros Hx. apply run_step_end in Hx as [Hr He]; [|done]. split; [left; split; [|done]|done].
    rewrite Hr. unfold node_started. by rewrite sink_ran.
Qed.
End frame.

(** ** The run loop *)

Definition names (l : list (nat * SteppableStep)) : list string := map (fun p => ss_NodeID (snd p)) l.

(** C20: the run loop: with enough fuel for the open steps, a run that does not
    panic calls [Run] of the open steps in topological order, each once, up
    to one that stops it; it returns without an error exactly when it ran
    them all, the job completed; and when it stops, the job is failed,
    waiting or parked, a wait node is not run and nothing after it is. *)
Theorem run_loop_once_in_order r j a fuel g steps completed p w w' oe :
  rn_validators r = [] ->
  let decisionID := PlanDecisionID (Marshal g) in
  NoDup (step_names (jr_ID j) decisionID 0 steps) ->
  let todo := open_steps (jr_ID j) decisionID completed 0 steps in
  (length todo < fuel)%nat ->
  run_loop r j a fuel g steps completed p w = Ret (w', oe) ->
  exists ran rest, names todo = ran ++ rest /\ ex_Ran w' = ex_Ran w ++ ran /\
  match oe with
  | None => rest = [] /\ ex_Status w' = Some statusCompleted /\
            Forall (fun q => isWaitLikeNodeType (ss_NodeType (snd q)) = false) todo
  | Some e => todo <> [] /\ stopped w' /\ e <> EText "out of fuel"
  end.
Proof.
  intros Hv decisionID Hnd. revert completed p w. induction fuel as [|f IH]; intros completed p w todo Hf Hr; [lia|].
  cbn [run_loop] in Hr. cbv zeta in Hr. change (PlanDecisionID (Marshal g)) with decisionID in Hr.
  unfold nextRunnableBatch in Hr.
  pose proof (first_open_steps (jr_ID j) decisionID completed 0 steps) as Hfo. fold todo in Hfo.
  destruct todo as [|[k s] rest] eqn:Ht.
  - rewrite Hfo in Hr. cbn in Hr. injection Hr as <- <-.
    exists [], []. split_and!; [done|by rewrite app_nil_r; apply sink_ran|done|done|constructor].
  - destruct Hfo as (Hfo & _ & Hs). rewrite Hfo in Hr. rewrite Nat.sub_0_r in Hs.
    cbn -[loop_step Marshal PlanDecisionID effective_step] in Hr. rewrite Hs in Hr. cbn -[loop_step Marshal PlanDecisionID effective_step] in Hr.
    destruct (loop_step r j a g (Marshal g) k s p w) as [x|] eqn:Hl; cbn -[loop_step Marshal PlanDecisionID effective_step] in Hr; [|discriminate Hr].
    apply loop_step_end in Hl as [Hran Hend]; [|done]. destruct x as [w1 e1]. cbn [fst snd] in *.
    destruct e1 as [p'|e].
    + destruct Hran as [[Hran Hwl]|(_ & _ & e & He)]; [|discriminate He].
      pose proof (open_steps_run _ _ _ _ _ _ _ _ Hnd Ht) as Hopen.
      pose proof (IH _ p' w1 ltac:(rewrite Hopen; cbn in Hf; lia) Hr) as IH'. rewrite Hopen in IH'.
      destruct IH' as (ran & rest' & Hn & Hran' & Hoe).
      exists (ss_NodeID s :: ran), rest'. split_and!.
      * by rewrite (eq_refl : names ((k, s) :: rest) = ss_NodeID s :: names rest), Hn.
      * by rewrite Hran', Hran, <- app_assoc.
      * destruct oe as [e|]; [by destruct Hoe as (_ & ? & ?)|]. destruct Hoe as (? & ? & ?).
        split_and!; [done|done|by constructor].
    + injection Hr as <- <-. destruct Hend as [Hst He]. destruct Hran as [[Hran _]|(Hran & _ & _)].
      * exists [ss_NodeID s], (names rest). by split_and!.
      * exists [], (names ((k, s) :: rest)). rewrite app_nil_r. by split_and!.
Qed.

(** ** A job delivered again *)

Lemma Unmarshal_nonempty data g : Unmarshal data = Some g -> data <> EmptyString.
Proof. by intros Hu ->. Qed.

(** With the replay policy both programs configure, a job that has a
    checkpoint never continues: [RunForJob] runs no step, completes the job
    when checkpoint and stream account for every step, and otherwise fails it
    at the first step they do not, although nothing forbids that step. *)
Theorem checkpointed_job_never_continues fuel r j a snapshot w cp g steps p fresh :
  rn_replayBuilder r = true -> rn_replayPolicy r = Some DefaultPolicy -> jr_Cursor j <> EmptyString ->
  ex_Checkpoints w !! jr_Cursor j = Some cp -> Unmarshal (nc_TaskGraphState cp) = Some g ->
  CompileSteppable (rn_registry r) g = Ok steps -> payload_of j a (nc_PayloadResults cp) = Some p ->
  rebuild snapshot w = Ret fresh ->
  let completed := merge_completed fresh
                     (completed_upto j (PlanDecisionID (nc_TaskGraphState cp)) (nc_CursorNode cp) steps) in
  match first_open (jr_ID j) (PlanDecisionID (Marshal g)) completed 0 steps with
  | None => RunForJob r j a snapshot (S fuel) w = Ret (writeTerminalCompleted r j w, None)
  | Some i => exists e, RunForJob r j a snapshot (S fuel) w = Ret (UpdateStatus statusFailed w, Some (EText e))
  end.
Proof.
  intros Hb Hp Hc Hcp Hg Hs Hpl Hf completed.
  assert (RunForJob r j a snapshot (S fuel) w = run_from_cursor r j a snapshot (S fuel) cp w) as ->.
  { unfold RunForJob. destruct (jr_Cursor j); [done|]. by rewrite Hcp. }
  unfold run_from_cursor. rewrite Hg, Hs, Hpl, Hb, Hf. cbn [outcome_bind].
  fold completed. set (rc := cursor_context cp completed).
  assert (exists st, Advance r j a rc w =
            match first_open (jr_ID j) (PlanDecisionID (Marshal g)) completed 0 steps with
            | None => Ret (writeTerminalCompleted r j w, Done)
            | Some i => Ret (UpdateStatus statusFailed w, AdvanceErr (EText st))
            end) as [st Ha].
  { unfold Advance. change (rc_TaskGraphState rc) with (nc_TaskGraphState cp).
    change (rc_PayloadResults rc) with (nc_PayloadResults cp). change (rc_CompletedNodeIDs rc) with completed.
    pose proof (Unmarshal_nonempty _ _ Hg) as Hne.
    destruct (nc_TaskGraphState cp) as [|c0 t0] eqn:Hdata; [done|]. rewrite Hg, Hs.
    rewrite Hpl.
    destruct (first_open _ _ _ _ _) as [i|] eqn:Hi; [|by exists EmptyString].
    pose proof (first_open_some _ _ _ _ _ _ Hi) as (_ & s & Hsi & _). rewrite Nat.sub_0_r in Hsi. rewrite Hsi.
    unfold replay_verdict_of. rewrite Hp. cbn [DefaultPolicy]. unfold get_default. cbn. by eexists. }
  cbn [advance_loop]. rewrite Ha.
  destruct (first_open _ _ _ _ _) as [i|]; cbn; [by exists st|done].
Qed.

(** A tool that asks for approval returns no payload: waiting for it panics. *)
Lemma approval_request_panics r j a in_loop replay step stepID gb before p w key :
  rn_validators r = [] -> is_Some (rn_sink r) -> key <> EmptyString ->
  (forall c q es, ss_Run step c q es = mkRun None (Some (ECapability key)) []) ->
  run_step r j a in_loop replay step stepID gb before p w
  = Panic "invalid memory address or nil pointer dereference".
Proof.
  intros Hv [ok Hok] Hk Hr. unfold run_step. rewrite Hv. cbn [first_error omap list_omap head].
  rewrite Hr. cbn. destruct key; [done|]. by rewrite Hok.
Qed.

(** ** Examples *)

Definition demo_node : NodeRunner := fun ctx p _ =>
  mkRun (Some (set_Results (Some (<[sx_StepID ctx := JBool true]> (default ∅ (pl_Results p)))) p)) None [].
Definition demo_registry : adapters := fun ty =>
  if String.eqb ty "tool" then Some (fun _ => Ok demo_node) else None.
Definition demo_runner : Runner :=
  mkRunner demo_registry (Some (fun _ => true)) (fun n => Some ("cp-" +:+ itoa (Z.of_nat n))) None true
    (Some DefaultPolicy) [] (Time 0 0) (fun _ => "u") (fun _ => 1) (fun _ => None).
Definition demo_graph : TaskGraph :=
  mkTaskGraph (map (fun id => mkTaskNode id "tool" [] EmptyString EmptyString) ["b"; "a"])
    (Some [mkTaskEdge "a" "b"]).
Definition demo_steps : list SteppableStep := [mkStep "a" "tool" demo_node; mkStep "b" "tool" demo_node].
Definition demo_job (cursor : string) : JobForRunner := mkJobForRunner "j" "ag" "goal" cursor EmptyString.
Definition demo_agent : Agent := mkAgent "ag" None.
Definition demo_plan : JobEvent :=
  new_event (Time 0 0) "j" PlanGenerated (obj_text [("task_graph", Marshal demo_graph)]).
Definition demo_state (cps : gmap string NodeCheckpoint) : exec_state :=
  mkExec (mkStream [demo_plan] 0) None EmptyString cps 0 EmptyString [] [].

Lemma run_loop_once_in_order_witness :
  exists w', run_loop demo_runner (demo_job EmptyString) demo_agent 3 demo_graph demo_steps ∅
               (NewAgentDAGPayload "goal" "ag" EmptyString) (demo_state ∅) = Ret (w', None) /\
             ex_Ran w' = ["a"; "b"] /\ ex_Status w' = Some statusCompleted.
Proof.
  eexists. split; [vm_compute; reflexivity|].
  match goal with |- ex_Ran ?w = _ /\ _ => set (w' := w) end.
  destruct (run_loop_once_in_order demo_runner (demo_job EmptyString) demo_agent 3 demo_graph demo_steps ∅
    (NewAgentDAGPayload "goal" "ag" EmptyString) (demo_state ∅) w' None) as (ran & rest & Hn & Hran & -> & Hst & _).
  - reflexivity.
  - apply (bool_decide_unpack _). vm_compute. exact I.
  - apply Nat.ltb_lt. vm_compute. reflexivity.
  - vm_compute. reflexivity.
  - rewrite app_nil_r in Hn. subst ran. split; [|exact Hst]. rewrite Hran. vm_compute. reflexivity.
Defined.

Lemma batch_ready_witness :
  exists gs, LevelGroups diamond = Ok gs /\
    forall i, i ∈ nextRunnableBatch 4 (map (fun id => mkStep id "tool" demo_node) ["a"; "b"; "c"; "d"]) (Some gs)
                {["a"]} "j" "d" ->
      exists s, map (fun id => mkStep id "tool" demo_node) ["a"; "b"; "c"; "d"] !! i = Some s.
Proof.
  eexists. split; [vm_compute; reflexivity|]. intros i Hi.
  destruct (batch_ready demo_registry diamond _ (Some [["a"]; ["b"; "c"]; ["d"]]) 4 {["a"]} "j" "d"
    (eq_refl : CompileSteppable demo_registry diamond
               = Ok (map (fun id => mkStep id "tool" demo_node) ["a"; "b"; "c"; "d"]))
    (or_intror (ex_intro _ _ (conj (eq_refl : LevelGroups diamond = Ok [["a"]; ["b"; "c"]; ["d"]]) eq_refl)))) as [Hb _].
  destruct (Hb i Hi) as (s & Hs & _). by exists s.
Defined.

(** Step [a] is done and checkpointed, [b] is open. *)
Lemma checkpointed_job_never_continues_witness :
  exists e, RunForJob demo_runner (demo_job "cp") demo_agent None 1
      (demo_state {["cp" := mkNodeCheckpoint "ag" EmptyString "j" "a" (Marshal demo_graph) "{}"]})
    = Ret (UpdateStatus statusFailed
             (demo_state {["cp" := mkNodeCheckpoint "ag" EmptyString "j" "a" (Marshal demo_graph) "{}"]}), Some (EText e)).
Proof.
  set (w := demo_state _). set (cp := mkNodeCheckpoint _ _ _ _ _ _) in *.
  assert (exists fresh, rebuild None w = Ret fresh) as [fresh Hf] by (eexists; vm_compute; reflexivity).
  pose proof (checkpointed_job_never_continues 0 demo_runner (demo_job "cp") demo_agent None w cp demo_graph demo_steps
    (NewAgentDAGPayload "goal" "ag" EmptyString) fresh eq_refl eq_refl ltac:(discriminate) eq_refl
    ltac:(vm_compute; reflexivity) ltac:(vm_compute; reflexivity) ltac:(vm_compute; reflexivity) Hf) as Ht.
  cbv zeta in Ht.
  assert (first_open (jr_ID (demo_job "cp")) (PlanDecisionID (Marshal demo_graph))
            (merge_completed fresh (completed_upto (demo_job "cp") (PlanDecisionID (nc_TaskGraphState cp))
               (nc_CursorNode cp) demo_steps)) 0 demo_steps = Some 1%nat) as Ho.
  { assert (Ret fresh = rebuild None w) as Hfr by by rewrite Hf.
    vm_compute in Hfr. injection Hfr as ->. vm_compute. reflexivity. }
  rewrite Ho in Ht. exact Ht.
Defined.
