(* ===== verification/Crash.v ===== *)
(** Computations over a store that a crash can cut off, and triples for them.

    A computation has a budget of writes: when the budget is spent the process
    has crashed, between two writes or before the first, and only the store is
    left.  Runs of steps and tools are logged: the log survives a crash, being
    the effect on the outside world. *)

From S2P Require Import Prelude.

(** ** Computations *)

Record world (S : Type) := mkWorld { w_store : S; w_log : list string }.
Arguments mkWorld {S}. Arguments w_store {S}. Arguments w_log {S}.

Inductive run_result (S A : Type) :=
| Finished (budget : nat) (w : world S) (a : A)
| Crashed (w : world S).
Arguments Finished {S A}. Arguments Crashed {S A}.

Definition prog (S A : Type) : Type := nat -> world S -> run_result S A.

Definition ret {S A} (a : A) : prog S A := fun n w => Finished n w a.

Definition bind {S A B} (m : prog S A) (k : A -> prog S B) : prog S B :=
  fun n w => match m n w with
             | Finished n' w' a => k a n' w'
             | Crashed w' => Crashed w'
             end.

Notation "'do' x <- m ;; k" := (bind m (fun x => k))
  (at level 60, x name, m at next level, right associativity) : go_scope.

(** A write to the store: the process may have crashed before it. *)
Definition write {S A} (f : S -> S * A) : prog S A := fun n w =>
  match n with
  | O => Crashed w
  | Datatypes.S n' => let '(s', a) := f (w_store w) in Finished n' (mkWorld s' (w_log w)) a
  end.

Definition read {S A} (f : S -> A) : prog S A := fun n w => Finished n w (f (w_store w)).

(** A panic: nothing after it runs. *)
Definition panic {S A} : prog S A := fun _ w => Crashed w.

(** A run of a step or tool. *)
Definition executed {S} (id : string) : prog S unit := fun n w =>
  Finished n (mkWorld (w_store w) (w_log w ++ [id])) tt.

(** ** Triples *)

Section triples.
Context {S : Type}.
Implicit Types (w : world S).

(** From a world in [P] the program ends in [Q], or crashes in [C]. *)
Definition triple {A} (P : world S -> Prop) (m : prog S A) (Q : A -> world S -> Prop)
    (C : world S -> Prop) : Prop :=
  forall n w, P w -> match m n w with
                     | Finished _ w' a => Q a w'
                     | Crashed w' => C w'
                     end.

(** The program needs at most [c] writes, does not panic and ends with a
    value in [Q]. *)
Definition costs {A} (m : prog S A) (Q : A -> Prop) (c : nat) : Prop :=
  forall n w, (c <= n)%nat -> exists n' w' a, m n w = Finished n' w' a /\ (n <= n' + c)%nat /\ Q a.

Lemma triple_ret {A} (a : A) (P : world S -> Prop) Q C : (forall w, P w -> Q a w) -> triple P (ret a) Q C.
Proof. intros H n w Hw. by apply H. Qed.

Lemma triple_bind {A B} (m : prog S A) (k : A -> prog S B) P R Q C :
  triple P m R C -> (forall a, triple (R a) (k a) Q C) -> triple P (bind m k) Q C.
Proof.
  intros Hm Hk n w Hw. specialize (Hm n w Hw). unfold bind.
  destruct (m n w) as [n' w' a|w']; [by apply Hk|done].
Qed.

Lemma triple_write {A} (f : S -> S * A) P (Q : A -> world S -> Prop) (C : world S -> Prop) :
  (forall w, P w -> C w) ->
  (forall w, P w -> Q (snd (f (w_store w))) (mkWorld (fst (f (w_store w))) (w_log w))) ->
  triple P (write f) Q C.
Proof.
  intros HC HQ n w Hw. unfold write. destruct n as [|n]; [by apply HC|].
  specialize (HQ w Hw). by destruct (f (w_store w)).
Qed.

Lemma triple_read {A} (f : S -> A) P (Q : A -> world S -> Prop) C :
  (forall w, P w -> Q (f (w_store w)) w) -> triple P (read f) Q C.
Proof. intros HQ n w Hw. by apply HQ. Qed.

Lemma triple_weaken {A} (m : prog S A) (P P' : world S -> Prop) (Q Q' : A -> world S -> Prop) C :
  triple P m Q C -> (forall w, P' w -> P w) -> (forall a w, Q a w -> Q' a w) -> triple P' m Q' C.
Proof.
  intros Hm HP HQ n w Hw. specialize (Hm n w (HP w Hw)). destruct (m n w); [by apply HQ|done].
Qed.

Lemma triple_crash {A} (m : prog S A) P Q (C C' : world S -> Prop) :
  triple P m Q C -> (forall w, C w -> C' w) -> triple P m Q C'.
Proof. intros Hm HC n w Hw. specialize (Hm n w Hw). destruct (m n w); [done|by apply HC]. Qed.

Lemma triple_pure {A} (m : prog S A) (P : world S -> Prop) (R : Prop) Q C :
  (R -> triple P m Q C) -> triple (fun w => R /\ P w) m Q C.
Proof. intros H n w [HR Hw]. by apply H. Qed.

Lemma costs_ret {A} (a : A) (Q : A -> Prop) c : Q a -> costs (ret a) Q c.
Proof. intros HQ n w _. exists n, w, a. split_and!; [done|lia|done]. Qed.

Lemma costs_bind {A B} (m : prog S A) (k : A -> prog S B) R Q c d :
  costs m R c -> (forall a, R a -> costs (k a) Q d) -> costs (bind m k) Q (c + d).
Proof.
  intros Hm Hk n w Hn. destruct (Hm n w) as (n' & w' & a & Hr & Hc & Ha); [lia|].
  destruct (Hk a Ha n' w') as (n2 & w2 & b & Hr2 & Hc2 & Hb); [lia|].
  exists n2, w2, b. unfold bind. rewrite Hr. split_and!; [done|lia|done].
Qed.

Lemma costs_write_bind {A B} (f : S -> S * A) (k : A -> prog S B) Q c :
  (forall a, costs (k a) Q c) -> costs (bind (write f) k) Q (Datatypes.S c).
Proof.
  intros Hk [|n] w Hn; [lia|]. unfold bind, write. destruct (f (w_store w)) as [s' a].
  destruct (Hk a n (mkWorld s' (w_log w))) as (n' & w' & b & Hr & Hc & Hb); [lia|].
  exists n', w', b. split_and!; [done|lia|done].
Qed.

Lemma costs_read_bind {A B} (f : S -> A) (k : A -> prog S B) Q c :
  (forall a, costs (k a) Q c) -> costs (bind (read f) k) Q c.
Proof. intros Hk n w Hn. apply (Hk (f (w_store w)) n w Hn). Qed.

Lemma costs_executed_bind {B} id (k : unit -> prog S B) Q c :
  (forall a, costs (k a) Q c) -> costs (bind (executed id) k) Q c.
Proof. intros Hk n w Hn. apply (Hk tt n _ Hn). Qed.

Lemma costs_mono {A} (m : prog S A) Q c d : costs m Q c -> (c <= d)%nat -> costs m Q d.
Proof.
  intros Hm Hcd n w Hn. destruct (Hm n w) as (n' & w' & a & Hr & Hc & Ha); [lia|].
  exists n', w', a. split_and!; [done|lia|done].
Qed.
End triples.
