(* ===== verification/ToolNode.v ===== *)
(** internal/agent/runtime/executor/node_adapter.go: the node of a tool, which
    asks the invocation ledger before it runs the tool, records the effect and
    the events of the run, and commits the result.

    A call is a computation of Crash.v over the job's stream, the invocation
    store and the effect journal: it can be cut off before any of its writes
    and before each run of the tool, and the log has the idempotency key of
    each run.  The ledger is ledger_store.go over the adapter's invocation
    store, as both programs build it.  What the outside answers during the
    call is [call_env]: the tool, the verifier of resources, the rate limiter,
    which appends succeed.  The agent's session, metrics, spans and the pause
    between two tries are not modelled.  [Acquire] is one write here; its
    interleavings are in LedgerProps.v. *)

From S2P Require Import Prelude GoTime Json GoStrings Events MemStore StepResult Ledger Identity Replay TaskGraph EventSink Executor Crash.

(** ** Strings *)

Definition truncateStr (s : string) (max : nat) : string :=
  if (max =? 0)%nat || (String.length s <=? max)%nat then s else TrimSpace (str_take max s) +:+ "...".

Example truncate_ex : truncateStr "hello  world" 6 = "hello..." /\ truncateStr "ab" 6 = "ab".
Proof. split; vm_compute; reflexivity. Qed.

(** ** The adapter and what a call meets *)

Record ToolResult := mkToolResult { tr_Done : bool; tr_State : json; tr_Output : string; tr_Err : string }.

(** state_diff.go:56-63 *)
Inductive ReplayVerificationMode :=
| ReplayVerificationStrict | ReplayVerificationWarn | ReplayVerificationHumanInLoop.

Definition ErrReplayVerificationHumanRequired : go_error :=
  EText "replay verification failed: human-in-loop required".

(** The fields that may be nil: [ta_Ledger] holds the ledger's attempt check,
    [ta_LedgerSink] says whether it reads the stream. *)
Record ToolNodeAdapter := mkToolNode {
  ta_ToolEventSink : bool; ta_CommandEventSink : bool;
  ta_InvocationLedger : option (option (string -> result jobstore_error unit)); ta_LedgerSink : bool;
  ta_InvocationStore : bool; ta_EffectStore : bool;
  ta_CapabilityPolicyChecker : option (string -> string -> string -> string -> gset string -> result go_error (bool * bool));
  ta_ToolCapabilityFunc : option (string -> string);
  ta_ResourceVerifier : bool; ta_ReplayVerificationMode : ReplayVerificationMode;
  ta_RetryPolicy : option RetryPolicy; ta_RateLimiter : bool;
}.

Record call_env := mkEnv {
  ce_now : time; ce_uuid : string;
  ce_append : nat -> bool; ce_append_error : go_error;
  ce_put_effect : option go_error; ce_store_error : go_error;
  ce_Execute : nat -> string -> list (string * json) -> json -> ToolResult * option go_error;
  ce_Verify : string -> string -> StateChangeRecord -> result go_error bool;
  ce_Wait : option go_error;
}.

Record node_state (S : Type) := mkNode { ns_Stream : stream; ns_Store : S; ns_Effects : EffectStoreMem }.
Arguments mkNode {S}. Arguments ns_Stream {S}. Arguments ns_Store {S}. Arguments ns_Effects {S}.

(** ** Results *)

Definition attachToolEvidence (key : string) (m : list (string * json)) : list (string * json) :=
  match key with
  | EmptyString => m
  | _ => insert_field "_evidence" (JObj [("tool_invocation_ids", JArr [JStr key])]) m
  end.

Definition with_result (taskID : string) (m : list (string * json)) (p : AgentDAGPayload) : AgentDAGPayload :=
  set_Results (Some (<[taskID := JObj m]> (default ∅ (pl_Results p)))) p.

(** A recorded result put into the payload: what does not decode to an object
    counts as an empty one. *)
Definition inject_recorded (taskID key bytes : string) (p : AgentDAGPayload) : AgentDAGPayload :=
  with_result taskID (attachToolEvidence key (default [] (state_map bytes))) p.

Definition string_field (name : string) (v : json) : string :=
  match v with
  | JObj l => match lookup_field name (sort_fields l) with Some (JStr s) => s | _ => EmptyString end
  | _ => EmptyString
  end.

Definition extractExternalIDFromToolResult (output : string) (state : json) : string :=
  match string_field "external_id" (default JNull (unmarshal output)) with
  | EmptyString => string_field "external_id" state
  | id => id
  end.

(** The state the last run of the node left in the payload. *)
Definition previous_state (taskID : string) (p : AgentDAGPayload) : json :=
  match default ∅ (pl_Results p) !! taskID with
  | Some (JObj m) => default JNull (lookup_field "state" m)
  | _ => JNull
  end.

(** Lines 565-574. *)
Definition already_done (taskID : string) (p : AgentDAGPayload) : bool :=
  match default ∅ (pl_Results p) !! taskID with
  | Some (JObj m) => bool_decide (is_Some (lookup_field "done" m)) || bool_decide (is_Some (lookup_field "output" m))
  | _ => false
  end.

Definition node_result (r : ToolResult) : list (string * json) :=
  [("done", JBool (tr_Done r)); ("error", JStr (tr_Err r)); ("output", JStr (tr_Output r)); ("state", tr_State r)].

Definition node_failure (taskID : string) (t : StepResultType) (msg : string) : go_error :=
  EStepFailure t (Some (EText msg)) taskID.

Local Open Scope go_scope.

(** ** The node *)

Section node.
Context {S : Type} `{ToolInvocationStore S}.
Context (ad : ToolNodeAdapter) (ev : call_env).

Definition node_return : Type := option AgentDAGPayload * option go_error.
Definition node_prog : Type := prog (node_state S) node_return.

Definition fail (e : go_error) : node_prog := ret (None, Some e).

(** An append by the sink; it tells whether the store took the event. *)
Definition emit (on : bool) (f : (nat -> bool) -> stream -> stream) : prog (node_state S) bool :=
  if on then write (fun s => (mkNode (f (ce_append ev) (ns_Stream s)) (ns_Store s) (ns_Effects s),
                              ce_append ev (sm_Appends (ns_Stream s))))
  else ret true.

(** A write to the invocation store. *)
Definition on_store {A} (f : S -> S * A) : prog (node_state S) A :=
  write (fun s => let '(st, a) := f (ns_Store s) in (mkNode (ns_Stream s) st (ns_Effects s), a)).

Definition skip : prog (node_state S) unit := ret tt.

(** *** Confirmation of recorded changes (lines 324-359) *)

Fixpoint confirm (jobID taskID : string) (cs : list StateChangeRecord) : option go_error :=
  match cs with
  | [] => None
  | c :: rest =>
      let refuse inner :=
        match ta_ReplayVerificationMode ad with
        | ReplayVerificationWarn => None
        | ReplayVerificationHumanInLoop =>
            Some (EStepFailure StepResultPermanentFailure (Some ErrReplayVerificationHumanRequired) taskID)
        | ReplayVerificationStrict => Some (EStepFailure StepResultPermanentFailure (Some inner) taskID)
        end in
      match ce_Verify ev jobID taskID c with
      | Err e => refuse e
      | Ok false => refuse (EText ("confirmation failed: resource " +:+ sc_ResourceType c +:+ " " +:+
                                   sc_ResourceID c +:+ " " +:+ sc_Operation c))
      | Ok true => confirm jobID taskID rest
      end
  end.

Definition runConfirmation (jobID taskID : string) (cs : list StateChangeRecord) : option go_error :=
  if ta_ResourceVerifier ad then confirm jobID taskID cs else None.

Definition confirmed (jobID taskID : string) (cs : list StateChangeRecord) (k : node_prog) : node_prog :=
  match runConfirmation jobID taskID cs with Some e => fail e | None => k end.

(** *** Catching up the stream (lines 362-385) *)

Definition writeCatchUpFinished (jobID taskID nodeID key argsHash bytes : string) : prog (node_state S) bool :=
  do ok <- emit (ta_ToolEventSink ad) (fun io => AppendToolInvocationFinished io (ce_now ev) jobID nodeID
             (mkToolFinished ("catchup-" +:+ key) key "success" bytes EmptyString (FormatStartedAt (ce_now ev)))) ;;
  if ok : bool then
    emit (ta_CommandEventSink ad) (fun io => AppendCommandCommitted io (ce_now ev) jobID nodeID taskID bytes argsHash)
  else ret false.

(** *** Running the tool (lines 579-809) *)

Fixpoint attempts (key toolName : string) (cfg : list (string * json)) (left i : nat) (state : json)
    : prog (node_state S) (ToolResult * option go_error) :=
  match left with
  | O => ret (mkToolResult false JNull EmptyString EmptyString, None)
  | Datatypes.S left' =>
      do _ <- write (fun s => (s, tt)) ;;
      do _ <- executed key ;;
      let '(res, err) := ce_Execute ev i toolName cfg state in
      match err, left' with
      | Some e, Datatypes.S _ =>
          if IsRetryable err (ta_RetryPolicy ad)
          then attempts key toolName cfg left' (Datatypes.S i) (match tr_State res with JNull => state | st => st end)
          else ret (res, err)
      | _, _ => ret (res, err)
      end
  end.

Definition maxAttempts : nat :=
  match ta_RetryPolicy ad with
  | Some rp => if 0 <? rp_MaxRetries rp then Z.to_nat (1 + rp_MaxRetries rp) else 1%nat
  | None => 1%nat
  end.

(** What one call is about: the fields the code passes down. *)
Record call_of := mkCallOf {
  cl_JobID : string; cl_TaskID : string; cl_ToolName : string; cl_Cfg : list (string * json);
  cl_Node : string; cl_Key : string; cl_ArgsHash : string; cl_Changes : list StateChangeRecord;
  cl_Approved : gset string;
}.

Definition live (c : call_of) : bool := negb (String.eqb (cl_JobID c) EmptyString).

Definition emit_tool (c : call_of) (f : (nat -> bool) -> stream -> stream) : prog (node_state S) bool :=
  emit (ta_ToolEventSink ad && live c) f.

Definition emit_finished (c : call_of) (invocationID outcome result err : string) : prog (node_state S) bool :=
  emit_tool c (fun io => AppendToolInvocationFinished io (ce_now ev) (cl_JobID c) (cl_Node c)
    (mkToolFinished invocationID (cl_Key c) outcome result err (FormatStartedAt (ce_now ev)))).

Definition emit_summary (c : call_of) (summary err : string) : prog (node_state S) bool :=
  emit_tool c (fun io => AppendToolResultSummarized io (ce_now ev) (cl_JobID c) (cl_Node c) (cl_ToolName c)
                           summary err false).

Definition emit_returned (c : call_of) (output : list (string * json)) : prog (node_state S) bool :=
  emit_tool c (fun io => AppendToolReturned io (ce_now ev) (cl_JobID c) (cl_Node c) (print (JObj output))).

(** Without a ledger the adapter keeps the store itself. *)
Definition direct (c : call_of) : bool :=
  bool_decide (ta_InvocationLedger ad = None) && ta_InvocationStore ad && live c.

(** The check before the run: [None] lets it go on. *)
Definition check_capability (c : call_of) (invocationID : string) (k : node_prog) : node_prog :=
  match ta_CapabilityPolicyChecker ad with
  | Some check =>
      if live c then
        let capability := match ta_ToolCapabilityFunc ad with Some f => f (cl_ToolName c) | None => cl_ToolName c end in
        match check (cl_JobID c) (cl_ToolName c) capability (cl_Key c) (cl_Approved c) with
        | Err e => fail (EStepFailure StepResultPermanentFailure (Some e) (cl_TaskID c))
        | Ok (true, _) => k
        | Ok (false, true) => fail (ECapability ("cap-approval-" +:+ cl_Key c))
        | Ok (false, false) =>
            let denyMsg := "capability denied: " +:+ capability in
            do _ <- emit_finished c invocationID "failure" EmptyString denyMsg ;;
            do _ <- emit_summary c denyMsg denyMsg ;;
            fail (node_failure (cl_TaskID c) StepResultPermanentFailure denyMsg)
        end
      else k
  | None => k
  end.

(** The tool failed: lines 695-729. *)
Definition after_failure (c : call_of) (invocationID : string) (e : go_error) : node_prog :=
  let errorResult := [("error", JStr (error_text e))] in
  do _ <- (if direct c then on_store (SetFinished (cl_Key c) Failure (print (JObj errorResult)) false EmptyString)
           else ret true) ;;
  do _ <- emit_finished c invocationID "failure" EmptyString (error_text e) ;;
  do _ <- emit_returned c errorResult ;;
  do _ <- emit_summary c (truncateStr (error_text e) 200) (error_text e) ;;
  fail e.

(** [Commit] of the ledger; its error is dropped. *)
Definition ledger_commit (c : call_of) (bytes : string) : prog (node_state S) unit :=
  match ta_InvocationLedger ad with
  | Some validate =>
      on_store (fun s => match Commit validate (cl_JobID c) (cl_Key c) bytes s with
                         | Ok (s', _) => (s', tt)
                         | Err _ => (s, tt)
                         end)
  | None => skip
  end.

(** The tool succeeded: lines 730-808. *)
Definition after_success (c : call_of) (invocationID : string) (r : ToolResult) (p : AgentDAGPayload) : node_prog :=
  let bytes := print (JObj (node_result r)) in
  let externalID := extractExternalIDFromToolResult (tr_Output r) (tr_State r) in
  let effect := mkEffect (cl_JobID c) (cl_Node c) (cl_Key c) "tool" (print (JObj (cl_Cfg c))) bytes (tr_Err r)
                  ([("tool_name", JStr (cl_ToolName c))]
                   ++ match externalID with EmptyString => [] | id => [("external_id", JStr id)] end) zero_time in
  do stored <- (if ta_EffectStore ad && live c
                then match ce_put_effect ev with
                     | Some e => ret (Some e)
                     | None => write (fun s => (mkNode (ns_Stream s) (ns_Store s) (PutEffect (ce_now ev) effect (ns_Effects s)), None))
                     end
                else ret None) ;;
  match stored with
  | Some e => fail e
  | None =>
      do _ <- emit_finished c invocationID "success" bytes EmptyString ;;
      do _ <- emit (ta_CommandEventSink ad && live c) (fun io =>
                AppendCommandCommitted io (ce_now ev) (cl_JobID c) (cl_Node c) (cl_TaskID c) bytes (cl_ArgsHash c)) ;;
      do _ <- (if bool_decide (is_Some (ta_InvocationLedger ad)) && live c then ledger_commit c bytes
               else if ta_InvocationStore ad && live c
               then do _ <- on_store (SetFinished (cl_Key c) Success bytes true externalID) ;; skip
               else skip) ;;
      do _ <- emit_returned c [("done", JBool (tr_Done r)); ("error", JStr (tr_Err r)); ("output", JStr (tr_Output r))] ;;
      do _ <- emit_summary c (match tr_Err r with
                              | EmptyString => truncateStr (tr_Output r) 200
                              | e => truncateStr ("error: " +:+ e) 200
                              end) (tr_Err r) ;;
      ret (Some (with_result (cl_TaskID c) (attachToolEvidence (cl_Key c) (node_result r)) p), None)
  end.

(** Lines 590-655, up to the run. *)
Definition runNodeExecute (c : call_of) (ledgerRec : option ToolInvocationRecord) (p : AgentDAGPayload) : node_prog :=
  let invocationID := match ledgerRec with Some r => inv_ID r | None => ce_uuid ev end in
  let input := print (JObj (cl_Cfg c)) in
  do _ <- (if direct c
           then on_store (SetStarted (new_record invocationID (mkAcq (cl_JobID c) (cl_TaskID c) (cl_ToolName c)
                                        (cl_ArgsHash c) (cl_Key c) EmptyString)))
           else ret true) ;;
  do _ <- emit_tool c (fun io => AppendToolInvocationStarted io (ce_now ev) (cl_JobID c) (cl_Node c)
            (mkToolStarted invocationID (cl_ToolName c) (cl_ArgsHash c) (cl_Key c) (FormatStartedAt (ce_now ev)))) ;;
  do ok <- emit (ta_CommandEventSink ad && live c) (fun io =>
             AppendCommandEmitted io (ce_now ev) (cl_JobID c) (cl_Node c) (cl_TaskID c) "tool" input) ;;
  if negb ok then fail (ce_append_error ev)
  else
    do _ <- emit_tool c (fun io => AppendToolCalled io (ce_now ev) (cl_JobID c) (cl_Node c) (cl_ToolName c) input) ;;
    check_capability c invocationID
      (match (if ta_RateLimiter ad then ce_Wait ev else None) with
       | Some e => fail (EStepFailure StepResultRetryableFailure (Some (EWrap "rate limit wait failed: " e)) (cl_TaskID c))
       | None =>
           do a <- attempts (cl_Key c) (cl_ToolName c) (cl_Cfg c) maxAttempts 0 (previous_state (cl_TaskID c) p) ;;
           match snd a with
           | Some e => after_failure c invocationID e
           | None => after_success c invocationID (fst a) p
           end
       end).

(** *** The node: lines 387-576 *)

(** What a pending call recovers: the ledger's result, or the store's. *)
Definition recover_pending (c : call_of) (s : S) : string :=
  let from_ledger :=
    if bool_decide (is_Some (ta_InvocationLedger ad)) && live c
    then default EmptyString (Recover (cl_JobID c) (cl_Key c) s) else EmptyString in
  match from_ledger with
  | EmptyString => if ta_InvocationStore ad && live c
                   then match GetByJobAndIdempotencyKey (cl_JobID c) (cl_Key c) s with
                        | Some rec => if inv_Committed rec then inv_Result rec else EmptyString
                        | None => EmptyString
                        end
                   else EmptyString
  | bytes => bytes
  end.

Definition catch_up (c : call_of) (bytes : string) (k : node_prog) : node_prog :=
  do ok <- writeCatchUpFinished (cl_JobID c) (cl_TaskID c) (cl_Node c) (cl_Key c) (cl_ArgsHash c) bytes ;;
  if ok : bool then k else fail (ce_append_error ev).

Definition injected (c : call_of) (bytes : string) (p : AgentDAGPayload) : node_prog :=
  ret (Some (inject_recorded (cl_TaskID c) (cl_Key c) bytes p), None).

Definition confirmed_call (c : call_of) (k : node_prog) : node_prog :=
  confirmed (cl_JobID c) (cl_TaskID c) (cl_Changes c) k.

(** The barrier: a call the stream shows as started and not finished. *)
Definition run_pending (c : call_of) (p : AgentDAGPayload) : node_prog :=
  do bytes <- read (fun s => recover_pending c (ns_Store s)) ;;
  match bytes with
  | EmptyString => fail (node_failure (cl_TaskID c) StepResultPermanentFailure
                           ("invocation in flight or lost, idempotency_key=" +:+ cl_Key c))
  | _ => confirmed_call c (catch_up c bytes (injected c bytes p))
  end.

Definition acquire (c : call_of) (replay : string) : prog (node_state S) InvocationDecision :=
  let a := mkAcq (cl_JobID c) (cl_TaskID c) (cl_ToolName c) (cl_ArgsHash c) (cl_Key c) replay in
  write (fun s => let '(st, d) := Acquire (ce_uuid ev)
                    (if ta_LedgerSink ad then Some (sm_Events (ns_Stream s)) else None) a (ns_Store s) in
                  (mkNode (ns_Stream s) st (ns_Effects s), d)).

Definition run_by_ledger (c : call_of) (replay : string) (p : AgentDAGPayload) : node_prog :=
  do d <- acquire c replay ;;
  match d with
  | ReturnRecordedResult rec => confirmed_call c (injected c (inv_Result rec) p)
  | WaitOtherWorker => fail (node_failure (cl_TaskID c) StepResultRetryableFailure ("invocation in progress for " +:+ cl_Key c))
  | Rejected => fail (ce_store_error ev)
  | AllowExecute rec => runNodeExecute c (Some rec) p
  end.

(** Lines 534-575: the effect of a run whose commit is missing, then the run. *)
Definition run_by_effects (c : call_of) (p : AgentDAGPayload) : node_prog :=
  let execute := if already_done (cl_TaskID c) p then ret (Some p, None) else runNodeExecute c None p in
  do eff <- read (fun s => if ta_EffectStore ad && live c
                           then GetEffectByJobAndIdempotencyKey (cl_JobID c) (cl_Key c) (ns_Effects s) else None) ;;
  match eff with
  | Some e =>
      match ef_Output e with
      | EmptyString => execute
      | out => confirmed_call c (catch_up c out
                 (do _ <- ledger_commit c out ;;
                  do _ <- (if ta_InvocationStore ad
                           then on_store (SetFinished (cl_Key c) Success out true EmptyString) else ret true) ;;
                  injected c out p))
      end
  | None => execute
  end.

(** Lines 488-575: no ledger. *)
Definition run_without_ledger (c : call_of) (completed : gmap string string) (p : AgentDAGPayload) : node_prog :=
  do found <- read (fun s => if ta_InvocationStore ad && live c
                             then GetByJobAndIdempotencyKey (cl_JobID c) (cl_Key c) (ns_Store s) else None) ;;
  let otherwise := match completed !! cl_Key c with
              | Some bytes => confirmed_call c (injected c bytes p)
              | None => run_by_effects c p
              end in
  match found with
  | Some rec =>
      if recorded_ok rec
      then confirmed_call c
             (do _ <- on_store (SetFinished (cl_Key c) Confirmed (inv_Result rec) true EmptyString) ;;
              injected c (inv_Result rec) p)
      else otherwise
  | None => otherwise
  end.

Definition call_for (ctx : step_ctx) (taskID toolName : string) (cfg : list (string * json)) : call_of :=
  let jobID := sx_JobID ctx in
  let stepID := or_default taskID (sx_StepID ctx) in
  mkCallOf jobID taskID toolName cfg stepID (IdempotencyKey jobID stepID toolName cfg) (ArgumentsHash cfg)
    (match sx_StateChanges ctx !! stepID with Some cs => cs | None => get_default [] (sx_StateChanges ctx) taskID end)
    (sx_ApprovedKeys ctx).

Definition runNode (ctx : step_ctx) (taskID toolName : string) (cfg : list (string * json)) (p : AgentDAGPayload)
    : node_prog :=
  let c := call_for ctx taskID toolName cfg in
  if bool_decide (cl_Key c ∈ sx_PendingTools ctx) then run_pending c p
  else if bool_decide (is_Some (ta_InvocationLedger ad)) && live c
  then run_by_ledger c (get_default EmptyString (sx_CompletedTools ctx) (cl_Key c)) p
  else run_without_ledger c (sx_CompletedTools ctx) p.
End node.
