(* ===== verification/ToolNodeProps.v ===== *)
(** The node of a tool, over any invocation store with the interface's
    specification: with a ledger no key runs in two calls, whatever crashes;
    a finished call is what every later one returns; and a call cut off before
    its commit is never run or recovered again. *)

From S2P Require Import Prelude Sha256 GoTime Json Events MemStore StepResult Ledger LedgerProps Identity Replay TaskGraph EventSink Executor Crash ToolNode.

#[local] Open Scope go_scope.

(** ** What a program keeps *)

Section keeps.
Context {S : Type}.
Implicit Types (I : world (node_state S) -> Prop).

Definition stays {A} I (m : prog (node_state S) A) : Prop := triple I m (fun _ => I) I.

(** The assertion sees the invocation store and the log only. *)
Definition frames I : Prop :=
  forall w s', ns_Store s' = ns_Store (w_store w) -> I w -> I (mkWorld s' (w_log w)).

Lemma stays_ret {A} I (a : A) : stays I (ret a).
Proof. by apply triple_ret. Qed.

Lemma stays_bind {A B} I (m : prog (node_state S) A) (k : A -> prog (node_state S) B) :
  stays I m -> (forall a, stays I (k a)) -> stays I (bind m k).
Proof. intros Hm Hk. by eapply triple_bind. Qed.

Lemma stays_read {A} I (f : node_state S -> A) : stays I (read f).
Proof. by apply triple_read. Qed.

Lemma stays_write {A} I (f : node_state S -> node_state S * A) :
  frames I -> (forall s, ns_Store (fst (f s)) = ns_Store s) -> stays I (write f).
Proof. intros HI Hf. apply triple_write; [done|]. intros w Hw. by apply HI. Qed.

Lemma stays_emit ev I on f : frames I -> stays I (emit (S := S) ev on f).
Proof. intros HI. unfold emit. destruct on; [|apply stays_ret]. by apply stays_write. Qed.
End keeps.

#[local] Hint Resolve stays_ret stays_read : core.

Ltac stay := repeat first
  [ apply stays_ret | apply stays_read | (apply stays_emit; assumption)
  | (apply stays_bind; [|intros ?])
  | progress unfold fail, skip, emit_tool, emit_finished, emit_summary, emit_returned, injected
  | (apply stays_write; [assumption|done]) | case_match ].

Section node.
Context {S : Type} `{ToolInvocationStoreSpec S view}.
Context (ad : ToolNodeAdapter) (ev : call_env) (validate : option (string -> result jobstore_error unit)).
Hypothesis Hledger : ta_InvocationLedger ad = Some validate.
Implicit Types (I : world (node_state S) -> Prop).

(** *** Running the tool *)

Definition logs_key I (key : string) : Prop :=
  forall w, I w -> I (mkWorld (w_store w) (w_log w ++ [key])).

Lemma stays_attempts I key tool cfg left i st :
  frames I -> logs_key I key -> stays I (attempts (S := S) ad ev key tool cfg left i st).
Proof.
  intros HI Hl. revert i st. induction left as [|left IH]; intros i st; cbn [attempts]; [apply stays_ret|].
  apply stays_bind; [by apply stays_write|]. intros _.
  apply stays_bind; [|intros []; destruct (ce_Execute ev i tool cfg st) as [res err]; repeat case_match; auto].
  intros n w Hw. by apply Hl.
Qed.

Lemma direct_ledger c : direct ad c = false.
Proof.
  unfold direct. assert (bool_decide (ta_InvocationLedger ad = None) = false) as ->; [|done].
  apply bool_decide_eq_false_2. by rewrite Hledger.
Qed.

Lemma has_ledger : bool_decide (is_Some (ta_InvocationLedger ad)) = true.
Proof. apply bool_decide_eq_true_2. rewrite Hledger. by eexists. Qed.

Lemma node_bytes_nonempty l : print (JObj l) <> EmptyString.
Proof. done. Qed.

Lemma stays_failure I c id e : frames I -> stays I (after_failure (S := S) ad ev c id e).
Proof. intros HI. unfold after_failure. rewrite direct_ledger. stay. Qed.

Lemma stays_success I c id r p :
  frames I -> (forall bytes, bytes <> EmptyString -> stays I (ledger_commit (S := S) ad c bytes)) ->
  stays I (after_success ad ev c id r p).
Proof.
  intros HI Hc. unfold after_success. rewrite has_ledger.
  pose proof (Hc _ (node_bytes_nonempty (node_result r))) as Hcommit.
  destruct (live c); rewrite ?andb_true_r, ?andb_false_r; stay; exact Hcommit.
Qed.

Lemma attempts_eq key tool cfg left i st :
  attempts (S := S) ad ev key tool cfg (Datatypes.S left) i st =
  (do _ <- write (fun s => (s, tt)) ;;
   do _ <- executed key ;;
   let '(res, err) := ce_Execute ev i tool cfg st in
   match err, left with
   | Some e, Datatypes.S _ =>
       if IsRetryable err (ta_RetryPolicy ad)
       then attempts ad ev key tool cfg left (Datatypes.S i) (match tr_State res with JNull => st | v => v end)
       else ret (res, err)
   | _, _ => ret (res, err)
   end).
Proof. done. Qed.

#[local] Opaque attempts after_failure after_success.

Lemma stays_execute I c rec p :
  frames I -> logs_key I (cl_Key c) ->
  (forall bytes, bytes <> EmptyString -> stays I (ledger_commit (S := S) ad c bytes)) ->
  stays I (runNodeExecute ad ev c rec p).
Proof.
  intros HI Hl Hc. unfold runNodeExecute, check_capability. rewrite direct_ledger.
  stay; by first [apply stays_attempts | apply stays_failure | apply stays_success].
Qed.

(** *** Recorded results leave store and log alone *)

Lemma stays_confirmed I c k : stays I k -> stays I (confirmed_call (S := S) ad ev c k).
Proof. intros Hk. unfold confirmed_call, confirmed. case_match; [apply stays_ret|exact Hk]. Qed.

Lemma stays_catch_up I c bytes k : frames I -> stays I k -> stays I (catch_up (S := S) ad ev c bytes k).
Proof. intros HI Hk. unfold catch_up, writeCatchUpFinished. stay; exact Hk. Qed.

Lemma stays_pending I c p : frames I -> stays I (run_pending ad ev c p).
Proof.
  intros HI. unfold run_pending. apply stays_bind; [apply stays_read|]. intros [|ch r]; [apply stays_ret|].
  apply stays_confirmed, stays_catch_up; [done|apply stays_ret].
Qed.

(** *** At most once *)

Context (owner : string -> string).

(** A call starts at [st0] with an empty log; [quiet]: it has run nothing. *)
Definition quiet (st0 : S) (w : world (node_state S)) : Prop :=
  store_good view owner (ns_Store (w_store w)) /\
  (forall k, is_Some (view st0 !! k) -> is_Some (view (ns_Store (w_store w)) !! k)) /\ w_log w = [].

Definition running (st0 : S) (key : string) (w : world (node_state S)) : Prop :=
  store_good view owner (ns_Store (w_store w)) /\
  (forall k, is_Some (view st0 !! k) -> is_Some (view (ns_Store (w_store w)) !! k)) /\
  view st0 !! key = None /\ is_Some (view (ns_Store (w_store w)) !! key) /\ Forall (fun k => k = key) (w_log w).

Definition once (st0 : S) (key : string) (w : world (node_state S)) : Prop := quiet st0 w \/ running st0 key w.

Lemma quiet_frames st0 : frames (quiet st0).
Proof. intros w s' Hs. unfold quiet. cbn. by rewrite Hs. Qed.

Lemma running_frames st0 key : frames (running st0 key).
Proof. intros w s' Hs. unfold running. cbn. by rewrite Hs. Qed.

Lemma running_logs st0 key : logs_key (running st0 key) key.
Proof.
  intros w (H1 & H2 & H3 & H4 & H5). split_and!; try done. cbn. apply Forall_app. split; [done|]. by constructor.
Qed.

Lemma stays_running_commit st0 c bytes :
  bytes <> EmptyString -> stays (running st0 (cl_Key c)) (ledger_commit ad c bytes).
Proof.
  intros Hb. unfold ledger_commit. rewrite Hledger. unfold on_store. apply triple_write; [done|].
  intros w (H1 & H2 & H3 & H4 & H5).
  destruct (Commit validate (cl_JobID c) (cl_Key c) bytes (ns_Store (w_store w))) as [[s' ok]|e] eqn:Hc; cbn;
    [|by split_and!].
  destruct (good_commit owner _ _ _ _ _ _ _ H1 H4 Hb Hc) as [Hg Hm].
  split_and!; cbn; auto.
Qed.

Lemma run_by_ledger_once st0 c replay p :
  store_good view owner st0 -> cl_Key c <> EmptyString -> owner (cl_Key c) = cl_JobID c ->
  triple (fun w => ns_Store (w_store w) = st0 /\ w_log w = []) (run_by_ledger ad ev c replay p)
    (fun _ => once st0 (cl_Key c)) (once st0 (cl_Key c)).
Proof.
  intros Hg Hk Ho. unfold run_by_ledger.
  apply (triple_bind _ _ _ (fun d w => match d with AllowExecute _ => running st0 (cl_Key c) w | _ => quiet st0 w end)).
  - unfold acquire. apply triple_write; [intros w [<- Hl]; left; by split_and!|].
    intros w [Hst Hl]. rewrite Hst. unfold Acquire.
    match goal with |- context [acquire_check ?u ?k ?a ?s] => set (args := a); destruct (acquire_check u k args s) as [r| | |] eqn:Hc end;
      cbn; [|by split_and!..].
    destruct (SetStarted r st0) as [s' ok] eqn:Hss.
    assert (acquire_start (AllowExecute r) st0 = (s', if ok then AllowExecute r else Rejected)) as Hstart
      by (cbn; by rewrite Hss).
    destruct (good_start owner _ _ _ _ _ _ _ Hg (conj Hk Ho : args_ok owner args) Hc Hstart) as (_ & Hnone & Hg' & Hv).
    assert (forall k, is_Some (view st0 !! k) -> is_Some (view s' !! k)) as Hm by (intros k Hx; rewrite Hv; by case_decide).
    destruct ok; cbn; [|by split_and!]. split_and!; try done; [|rewrite Hl; constructor].
    rewrite Hv, decide_True by done. by eexists.
  - intros [rec|rec| |].
    + pose proof (stays_execute (running st0 (cl_Key c)) c (Some rec) p (running_frames _ _) (running_logs _ _)
                    (stays_running_commit _ _)) as Hx.
      intros n w Hw. specialize (Hx n w Hw). destruct (runNodeExecute _ _ _ _ _ n w); by right.
    + intros n w Hw. pose proof (stays_confirmed (quiet st0) c (injected c (inv_Result rec) p) (stays_ret _ _) n w Hw) as Hx.
      destruct (confirmed_call _ _ _ _ n w); by left.
    + intros n w Hw. by left.
    + intros n w Hw. by left.
Qed.

Lemma runNode_once st0 ctx taskID toolName cfg p :
  let c := call_for ctx taskID toolName cfg in
  store_good view owner st0 -> live c = true -> owner (cl_Key c) = cl_JobID c ->
  triple (fun w => ns_Store (w_store w) = st0 /\ w_log w = []) (runNode ad ev ctx taskID toolName cfg p)
    (fun _ => once st0 (cl_Key c)) (once st0 (cl_Key c)).
Proof.
  intros c Hg Hl Ho. unfold runNode. fold c. rewrite has_ledger, Hl. cbn [andb].
  case_bool_decide.
  - intros n w [<- Hw]. assert (quiet (ns_Store (w_store w)) w) as Hq by (by split_and!).
    pose proof (stays_pending (quiet (ns_Store (w_store w))) c p (quiet_frames _) n w Hq) as Hx.
    destruct (run_pending _ _ _ _ n w); by left.
  - apply run_by_ledger_once; [done|apply hex_sha256_nonempty|done].
Qed.

(** *** What a finished run leaves *)

Context (c : call_of).

Definition started (w : world (node_state S)) : Prop :=
  exists rec, view (ns_Store (w_store w)) !! cl_Key c = Some rec /\ inv_JobID rec = cl_JobID c.

Definition recorded (bytes : string) (w : world (node_state S)) : Prop :=
  exists rec, view (ns_Store (w_store w)) !! cl_Key c = Some rec /\ inv_JobID rec = cl_JobID c /\
              recorded_ok rec = true /\ inv_Result rec = bytes.

(** The call's answer, when it is a payload, is of a run that is recorded. *)
Definition answered (p : AgentDAGPayload) (a : node_return) (w : world (node_state S)) : Prop :=
  match a with
  | (Some p', None) =>
      exists r i x, ce_Execute ev i (cl_ToolName c) (cl_Cfg c) x = (r, None) /\
        p' = with_result (cl_TaskID c) (attachToolEvidence (cl_Key c) (node_result r)) p /\
        recorded (print (JObj (node_result r))) w
  | _ => True
  end.

Abbreviation gives I m Q := (triple I m Q (fun _ => True)).

Lemma gives_bind {A B} I (m : prog (node_state S) A) (k : A -> prog (node_state S) B) Q :
  stays I m -> (forall a, gives I (k a) Q) -> gives I (bind m k) Q.
Proof. intros Hm Hk. apply (triple_bind _ _ _ (fun _ => I)); [|done]. by eapply triple_crash. Qed.

Lemma gives_fail I e p : gives I (fail (S := S) e) (answered p).
Proof. by apply triple_ret. Qed.

Lemma started_frames : frames started.
Proof. intros w s' Hs. unfold started. cbn. by rewrite Hs. Qed.

Lemma recorded_frames bytes : frames (recorded bytes).
Proof. intros w s' Hs. unfold recorded. cbn. by rewrite Hs. Qed.

Hypothesis Hvalid : match validate with Some v => v (cl_JobID c) = Ok tt | None => True end.

Lemma commit_records bytes :
  bytes <> EmptyString -> gives started (ledger_commit ad c bytes) (fun _ => recorded bytes).
Proof.
  intros Hb. unfold ledger_commit. rewrite Hledger. unfold on_store. apply triple_write; [done|].
  intros w (rec & Hrec & Hj).
  destruct (Commit validate (cl_JobID c) (cl_Key c) bytes (ns_Store (w_store w))) as [[s' ok]|e] eqn:Hc.
  - apply Commit_view in Hc. cbn. exists (finish_record Success bytes true EmptyString rec).
    cbn. rewrite Hc, finished_view_lookup, decide_True, Hrec by done. split_and!; [done|done| |done].
    by apply recorded_ok_finish.
  - exfalso. unfold Commit in Hc. destruct validate as [v|]; [|done]. rewrite Hvalid in Hc. by case_match.
Qed.

Lemma gives_attempts key left i x :
  gives started (attempts (S := S) ad ev key (cl_ToolName c) (cl_Cfg c) (Datatypes.S left) i x)
    (fun a w => started w /\ exists i x, ce_Execute ev i (cl_ToolName c) (cl_Cfg c) x = a).
Proof.
  revert i x. induction left as [|left IH]; intros i x; rewrite attempts_eq;
    (apply gives_bind; [apply stays_write; [apply started_frames|done]|intros _]);
    (apply gives_bind; [by intros n w Hw|intros []]);
    destruct (ce_Execute ev i (cl_ToolName c) (cl_Cfg c) x) as [res [e|]] eqn:He;
    try (apply triple_ret; intros w Hw; split; [exact Hw|by exists i, x]).
  destruct (IsRetryable (Some e) (ta_RetryPolicy ad)); [apply IH|].
  apply triple_ret. intros w Hw. split; [exact Hw|by exists i, x].
Qed.

#[local] Transparent after_failure after_success.

Lemma gives_success id i x r p :
  live c = true -> ce_Execute ev i (cl_ToolName c) (cl_Cfg c) x = (r, None) ->
  gives started (after_success ad ev c id r p) (answered p).
Proof.
  intros Hl He. unfold after_success. rewrite has_ledger, Hl, !andb_true_r.
  pose proof started_frames as HI. pose proof (recorded_frames (print (JObj (node_result r)))) as HJ.
  apply gives_bind; [stay|]. intros [e|]; [apply gives_fail|].
  apply gives_bind; [stay|intros _]. apply gives_bind; [stay|intros _].
  apply (triple_bind _ _ _ (fun _ => recorded (print (JObj (node_result r))))).
  { by apply commit_records. }
  intros _. apply gives_bind; [stay|intros _]. apply gives_bind; [stay|intros _].
  apply triple_ret. intros w Hw. by exists r, i, x.
Qed.

Lemma gives_failure id e p : gives started (after_failure ad ev c id e) (answered p).
Proof.
  pose proof started_frames as HI. unfold after_failure. rewrite direct_ledger.
  repeat (apply gives_bind; [stay|intros _]). apply gives_fail.
Qed.

#[local] Opaque after_failure after_success.

Lemma gives_execute rec p : live c = true -> gives started (runNodeExecute ad ev c rec p) (answered p).
Proof.
  intros Hl. pose proof started_frames as HI. unfold runNodeExecute, check_capability. rewrite direct_ledger, Hl.
  assert (forall id e, gives started (after_failure ad ev c id e) (answered p)) as Hfail.
  { intros id e. by apply gives_failure. }
  assert (exists left, maxAttempts ad = Datatypes.S left) as [left ->].
  { unfold maxAttempts. destruct (ta_RetryPolicy ad) as [rp|]; [|by eexists].
    destruct (0 <? rp_MaxRetries rp) eqn:Hm; [|by eexists]. exists (Z.to_nat (rp_MaxRetries rp)). lia. }
  assert (forall id, gives started (match (if ta_RateLimiter ad then ce_Wait ev else None) with
    | Some e => fail (EStepFailure StepResultRetryableFailure (Some (EWrap "rate limit wait failed: " e)) (cl_TaskID c))
    | None => do a <- attempts ad ev (cl_Key c) (cl_ToolName c) (cl_Cfg c) (Datatypes.S left) 0 (previous_state (cl_TaskID c) p) ;;
              match snd a with Some e => after_failure ad ev c id e | None => after_success ad ev c id (fst a) p end
    end) (answered p)) as Hrun.
  { intros id. destruct (if ta_RateLimiter ad then ce_Wait ev else None) as [e|]; [apply gives_fail|]. eapply triple_bind; [apply gives_attempts|].
    intros [r [e|]] n w [Hw (i & x & He)]; [by apply Hfail|by eapply gives_success]. }
  do 2 (apply gives_bind; [stay|intros _]). apply gives_bind; [stay|intros ok].
  destruct (negb ok); [apply gives_fail|]. apply gives_bind; [stay|intros _].
  destruct (ta_CapabilityPolicyChecker ad) as [check|]; [|apply Hrun].
  destruct (check _ _ _ _ _) as [[[] []]|e]; try apply gives_fail; try apply Hrun.
  repeat (apply gives_bind; [stay|intros _]). apply gives_fail.
Qed.
End node.

(** ** Calls one after the other *)

Record tool_call := mkToolCall {
  tc_Env : call_env; tc_Ctx : step_ctx; tc_TaskID : string; tc_ToolName : string;
  tc_Cfg : list (string * json); tc_Payload : AgentDAGPayload; tc_Budget : nat;
}.

Definition call_fields (tc : tool_call) : call_of := call_for (tc_Ctx tc) (tc_TaskID tc) (tc_ToolName tc) (tc_Cfg tc).
Definition call_key (tc : tool_call) : string := cl_Key (call_fields tc).

Definition run_call {S} `{ToolInvocationStore S} (ad : ToolNodeAdapter) (tc : tool_call) (s : node_state S)
    : run_result (node_state S) node_return :=
  runNode ad (tc_Env tc) (tc_Ctx tc) (tc_TaskID tc) (tc_ToolName tc) (tc_Cfg tc) (tc_Payload tc) (tc_Budget tc)
    (mkWorld s []).

Definition world_after {S A} (r : run_result S A) : world S := match r with Finished _ w _ | Crashed w => w end.

(** The runs of each call: calls follow each other, each on what the ones
    before left, finished or cut off. *)
Fixpoint runs_of {S} `{ToolInvocationStore S} (ad : ToolNodeAdapter) (cs : list tool_call) (s : node_state S)
    : list (list string) :=
  match cs with
  | [] => []
  | tc :: rest => let w := world_after (run_call ad tc s) in w_log w :: runs_of ad rest (w_store w)
  end.

(** A call of a job; a key belongs to one job. *)
Definition proper_call (owner : string -> string) (tc : tool_call) : Prop :=
  sx_JobID (tc_Ctx tc) <> EmptyString /\ owner (call_key tc) = sx_JobID (tc_Ctx tc).

Definition runs_key (key : string) (log : list string) : bool := existsb (String.eqb key) log.

Lemma runs_key_other key key' log : Forall (fun k => k = key') log -> key <> key' -> runs_key key log = false.
Proof.
  intros Hf Hne. unfold runs_key. induction Hf as [|x l -> _ IH]; cbn; [done|].
  by rewrite IH, orb_false_r, (proj2 (String.eqb_neq _ _) Hne).
Qed.

Lemma run_call_once {S} `{ToolInvocationStoreSpec S view} ad validate owner tc (s : node_state S) :
  ta_InvocationLedger ad = Some validate -> store_good view owner (ns_Store s) -> proper_call owner tc ->
  once (view := view) owner (ns_Store s) (call_key tc) (world_after (run_call ad tc s)).
Proof.
  intros Hl Hg [Hj Ho].
  assert (live (call_fields tc) = true) as Hlive by (unfold live; by apply negb_true_iff, String.eqb_neq).
  pose proof (runNode_once ad (tc_Env tc) validate Hl owner (ns_Store s) (tc_Ctx tc) (tc_TaskID tc) (tc_ToolName tc)
    (tc_Cfg tc) (tc_Payload tc) Hg Hlive Ho (tc_Budget tc) (mkWorld s []) (conj eq_refl eq_refl)) as Hx.
  unfold run_call. destruct (runNode _ _ _ _ _ _ _ _ _); exact Hx.
Qed.

Lemma runs_of_key {S} `{ToolInvocationStoreSpec S view} ad validate owner cs (s : node_state S) key :
  ta_InvocationLedger ad = Some validate -> store_good view owner (ns_Store s) -> Forall (proper_call owner) cs ->
  (length (filter (fun log => runs_key key log = true) (runs_of ad cs s)) <=
   if bool_decide (is_Some (view (ns_Store s) !! key)) then 0 else 1)%nat.
Proof.
  intros Hl Hg Hcs. revert s Hg. induction Hcs as [|tc cs Htc _ IH]; intros s Hg; cbn [runs_of]; [cbn; lia|].
  pose proof (run_call_once ad validate owner tc s Hl Hg Htc) as Ho.
  set (w := world_after (run_call ad tc s)) in *. rewrite filter_cons.
  destruct Ho as [(Hg' & Hm & Hlog)|(Hg' & Hm & Hnone & Hsome & Hlog)]; specialize (IH (w_store w) Hg').
  - rewrite Hlog. cbn. rewrite decide_False by done.
    destruct (bool_decide_reflect (is_Some (view (ns_Store s) !! key))) as [Hk|Hk]; [|case_bool_decide; lia].
    by rewrite bool_decide_true in IH by auto.
  - destruct (decide (key = call_key tc)) as [->|Hne].
    + rewrite bool_decide_true in IH by done. rewrite bool_decide_false by (rewrite Hnone; by intros [? ?]).
      case_decide; cbn [length]; lia.
    + rewrite (runs_key_other key (call_key tc)) by done. rewrite decide_False by done.
      destruct (bool_decide_reflect (is_Some (view (ns_Store s) !! key))) as [Hk|Hk]; [|case_bool_decide; lia].
      by rewrite bool_decide_true in IH by auto.
Qed.

(** ** Properties *)

(** C12: with a ledger a tool takes effect in at most one call: over any store
    with the interface's specification, in every sequence of calls of tool
    nodes (any jobs, replay contexts, policies, failures of the stream, the
    tool or the ledger's commit), each possibly cut off by a crash, the runs
    with one idempotency key all belong to one call, where the retry policy
    repeats a failed one. *)
Theorem tool_runs_in_one_call {S} `{ToolInvocationStoreSpec S view} ad validate owner cs (s : node_state S) key :
  ta_InvocationLedger ad = Some validate -> store_good view owner (ns_Store s) -> Forall (proper_call owner) cs ->
  (length (filter (fun log => runs_key key log = true) (runs_of ad cs s)) <= 1)%nat.
Proof.
  intros Hl Hg Hcs. pose proof (runs_of_key ad validate owner cs s key Hl Hg Hcs) as Hx. destruct (bool_decide _); lia.
Qed.

(** What the ledger says when the record is settled. *)
Lemma acquire_settled {S} `{ToolInvocationStoreSpec S view} ad ev (c : call_of) (s : node_state S) rec n :
  view (ns_Store s) !! cl_Key c = Some rec -> inv_JobID rec = cl_JobID c ->
  recorded_ok rec = true \/ inv_Committed rec = false ->
  acquire ad ev c EmptyString (Datatypes.S n) (mkWorld s [])
  = Finished n (mkWorld s []) (if recorded_ok rec then ReturnRecordedResult rec else WaitOtherWorker).
Proof.
  intros Hrec Hj Hs. unfold acquire, write. cbn [w_store w_log]. unfold Acquire, acquire_check.
  cbn [aq_Replay aq_JobID aq_Key String.eqb negb]. rewrite get_view, Hrec. cbn. rewrite Hj, String.eqb_refl.
  destruct (recorded_ok rec) eqn:Hr; cbn; [by destruct s|].
  destruct Hs as [?|Hc]; [done|]. rewrite Hc. cbn. by destruct s.
Qed.

(** The call asks the ledger, with nothing recorded by the replay. *)
Definition asks_ledger (tc : tool_call) : Prop :=
  sx_JobID (tc_Ctx tc) <> EmptyString /\ (call_key tc ∉ sx_PendingTools (tc_Ctx tc)) /\
  get_default EmptyString (sx_CompletedTools (tc_Ctx tc)) (call_key tc) = EmptyString.

Lemma run_call_ledger {S} `{ToolInvocationStoreSpec S view} ad validate tc (s : node_state S) :
  ta_InvocationLedger ad = Some validate -> asks_ledger tc ->
  run_call ad tc s = run_by_ledger ad (tc_Env tc) (call_fields tc) EmptyString (tc_Payload tc) (tc_Budget tc) (mkWorld s []).
Proof.
  intros Hl (Hj & Hp & Hd). unfold run_call, runNode. fold (call_fields tc). change (cl_Key (call_fields tc)) with (call_key tc).
  rewrite bool_decide_false by done. rewrite (has_ledger ad validate Hl), Hd.
  assert (live (call_fields tc) = true) as -> by (unfold live; by apply negb_true_iff, String.eqb_neq). done.
Qed.

(** C18: a tool call that finishes under its attempt is the result for good.
    A call of a job asks the ledger, with its key neither pending nor completed
    in the replay and no record of the key in the store; the attempt check, where
    the ledger has one, passes when the result is committed (the node drops the
    error of a commit, and a call without one stays in progress).  If it returns
    a payload, the payload holds the result of a successful run of the tool; and
    every later call of the same job with the same key that asks the ledger in
    this way, on the stores as the first call left them, by any adapter with a
    ledger and without a ResourceVerifier, whatever its tool would do, returns
    the recorded text of that result without running the tool or changing
    stream, store or journal. *)
Theorem finished_call_is_final {S} `{ToolInvocationStoreSpec S view} ad validate tc (s : node_state S) n w p' :
  ta_InvocationLedger ad = Some validate -> asks_ledger tc ->
  match validate with Some v => v (sx_JobID (tc_Ctx tc)) = Ok tt | None => True end ->
  view (ns_Store s) !! call_key tc = None ->
  run_call ad tc s = Finished n w (Some p', None) ->
  exists r, (exists i x, ce_Execute (tc_Env tc) i (tc_ToolName tc) (tc_Cfg tc) x = (r, None)) /\
    p' = with_result (tc_TaskID tc) (attachToolEvidence (call_key tc) (node_result r)) (tc_Payload tc) /\
    forall ad2 v2 tc2 m, ta_InvocationLedger ad2 = Some v2 -> ta_ResourceVerifier ad2 = false ->
      asks_ledger tc2 -> call_key tc2 = call_key tc -> sx_JobID (tc_Ctx tc2) = sx_JobID (tc_Ctx tc) ->
      tc_Budget tc2 = Datatypes.S m ->
      run_call ad2 tc2 (w_store w) = Finished m (mkWorld (w_store w) [])
        (Some (inject_recorded (tc_TaskID tc2) (call_key tc) (print (JObj (node_result r))) (tc_Payload tc2)), None).
Proof.
  intros Hl Hask Hv Hnone Hrun. rewrite (run_call_ledger ad validate) in Hrun by done.
  assert (live (call_fields tc) = true) as Hlive by (unfold live; by apply negb_true_iff, String.eqb_neq, Hask).
  assert (answered (tc_Env tc) (view := view) (call_fields tc) (tc_Payload tc) (Some p', None) w) as Ha.
  { unfold run_by_ledger, bind, acquire, write in Hrun. destruct (tc_Budget tc) as [|b]; [done|].
    cbn [w_store w_log] in Hrun. unfold Acquire, acquire_check in Hrun.
    cbn [aq_Replay aq_JobID aq_Key String.eqb negb] in Hrun. rewrite get_view in Hrun.
    change (cl_Key (call_fields tc)) with (call_key tc) in Hrun. rewrite Hnone in Hrun. cbn [mbind option_bind] in Hrun.
    destruct (hasOrphanedAcquired _ _); [done|]. cbn [acquire_start] in Hrun.
    match type of Hrun with context [SetStarted ?r ?st] =>
      pose proof (started_view_spec (view := view) r st) as Hsv; destruct (SetStarted r st) as [st' []]; [|done] end.
    cbn [fst] in Hsv.
    match type of Hrun with runNodeExecute _ _ _ ?rec ?p ?b ?w0 = _ =>
      pose proof (gives_execute ad (tc_Env tc) validate Hl (view := view) (call_fields tc) Hv rec p Hlive b w0) as Hg end.
    rewrite Hrun in Hg. apply Hg. eexists. cbn [w_store ns_Store]. rewrite Hsv, started_view_lookup
      by apply hex_sha256_nonempty. cbn [inv_Key new_record aq_Key]. rewrite decide_True by done.
    change (cl_Key (call_fields tc)) with (call_key tc). rewrite Hnone. by split. }
  destruct Ha as (r & i & x & He & Hp & rec & Hrec & Hj & Hok & Hres). exists r. split_and!; [by exists i, x|exact Hp|].
  intros ad2 v2 tc2 m Hl2 Hver Hask2 Hk Hj2 Hb. rewrite (run_call_ledger ad2 v2) by done.
  unfold run_by_ledger, bind. rewrite Hb, (acquire_settled ad2 (tc_Env tc2) (call_fields tc2) (w_store w) rec m).
  - rewrite Hok. unfold confirmed_call, confirmed, runConfirmation. rewrite Hver, Hres. unfold injected, ret.
    change (cl_Key (call_fields tc2)) with (call_key tc2). by rewrite Hk.
  - change (cl_Key (call_fields tc2)) with (call_key tc2). by rewrite Hk.
  - by rewrite Hj, (eq_refl : cl_JobID (call_fields tc2) = sx_JobID (tc_Ctx tc2)), Hj2.
  - by left.
Qed.

(** An interrupted call is lost: while the ledger holds a started record
    of the key (a call crashed after its acquisition, or was refused, limited
    or sent for approval), every later call fails without running the tool,
    as in progress elsewhere or, when the stream shows the call as pending, as
    lost; neither an effect recorded in the journal nor an approval helps. *)
Theorem interrupted_call_is_lost {S} `{ToolInvocationStoreSpec S view} ad validate tc (s : node_state S) rec m :
  ta_InvocationLedger ad = Some validate -> sx_JobID (tc_Ctx tc) <> EmptyString ->
  view (ns_Store s) !! call_key tc = Some rec -> inv_JobID rec = sx_JobID (tc_Ctx tc) -> inv_Committed rec = false ->
  get_default EmptyString (sx_CompletedTools (tc_Ctx tc)) (call_key tc) = EmptyString ->
  tc_Budget tc = Datatypes.S m ->
  run_call ad tc s =
    if bool_decide (call_key tc ∈ sx_PendingTools (tc_Ctx tc))
    then Finished (Datatypes.S m) (mkWorld s []) (None, Some (node_failure (tc_TaskID tc) StepResultPermanentFailure
           ("invocation in flight or lost, idempotency_key=" +:+ call_key tc)))
    else Finished m (mkWorld s []) (None, Some (node_failure (tc_TaskID tc) StepResultRetryableFailure
           ("invocation in progress for " +:+ call_key tc))).
Proof.
  intros Hl Hj Hrec Hjr Hc Hd Hb.
  assert (recorded_ok rec = false) as Hok by (unfold recorded_ok; by rewrite Hc).
  case_bool_decide as Hp.
  - unfold run_call, runNode. fold (call_fields tc). change (cl_Key (call_fields tc)) with (call_key tc).
    rewrite bool_decide_true by done. unfold run_pending, bind, read, recover_pending, Recover. cbn [w_store].
    rewrite get_view. change (cl_Key (call_fields tc)) with (call_key tc). rewrite Hrec. cbn [mbind option_bind].
    change (cl_JobID (call_fields tc)) with (sx_JobID (tc_Ctx tc)). rewrite Hjr, String.eqb_refl, Hc. cbn [negb orb].
    rewrite Hb. destruct (bool_decide _ && _), (ta_InvocationStore ad && _); done.
  - rewrite (run_call_ledger ad validate) by done. unfold run_by_ledger, bind. rewrite Hb.
    rewrite (acquire_settled ad (tc_Env tc) (call_fields tc) s rec m) by (try done; by right). by rewrite Hok.
Qed.

(** ** Examples *)

Definition demo_tool : ToolNodeAdapter :=
  mkToolNode true true (Some None) false true true None None false ReplayVerificationStrict None false.
Definition demo_env : call_env :=
  mkEnv (Time 0 0) "inv-1" (fun _ => true) (EText "append") None (EText "store")
    (fun _ _ _ _ => (mkToolResult true JNull "sent" EmptyString, None)) (fun _ _ _ => Ok true) None.
Definition demo_ctx : step_ctx := mkStepCtx "j" "default" "step-1" ∅ ∅ ∅ ∅ false.
Definition demo_call (budget : nat) : tool_call :=
  mkToolCall demo_env demo_ctx "a" "mail" [("to", JStr "x")] (NewAgentDAGPayload "goal" "ag" EmptyString) budget.
Definition demo_start : node_state ToolInvocationStoreMem :=
  mkNode (mkStream [] 0) NewToolInvocationStoreMem NewEffectStoreMem.

(** Cut off after the effect is in the journal and before the commit. *)
Definition demo_cut : node_state ToolInvocationStoreMem :=
  w_store (world_after (run_call demo_tool (demo_call 6) demo_start)).

Example demo_cut_has_effect :
  (ef_Output <$> GetEffectByJobAndIdempotencyKey "j" (call_key (demo_call 0)) (ns_Effects demo_cut)) =
  Some (print (JObj (node_result (mkToolResult true JNull "sent" EmptyString)))) /\
  runs_of demo_tool [demo_call 6; demo_call 20] demo_start = [[call_key (demo_call 0)]; []].
Proof. split; vm_compute; reflexivity. Qed.

Lemma tool_runs_in_one_call_witness :
  (length (filter (fun log => runs_key (call_key (demo_call 0)) log = true)
     (runs_of demo_tool [demo_call 3; demo_call 6; demo_call 20] demo_start)) <= 1)%nat.
Proof.
  apply (tool_runs_in_one_call (view := im_byKey) demo_tool None (fun _ => "j")).
  - reflexivity.
  - intros key r Hr. cbn in Hr. discriminate Hr.
  - repeat constructor; discriminate.
Defined.

Lemma finished_call_is_final_witness :
  exists w p', run_call demo_tool (demo_call 20) demo_start = Finished 9 w (Some p', None) /\
    exists r, run_call demo_tool (demo_call 1) (w_store w) = Finished 0 (mkWorld (w_store w) [])
      (Some (inject_recorded "a" (call_key (demo_call 20)) (print (JObj (node_result r)))
               (NewAgentDAGPayload "goal" "ag" EmptyString)), None).
Proof.
  assert (Hrun : exists w p', run_call demo_tool (demo_call 20) demo_start = Finished 9 w (Some p', None))
    by (do 2 eexists; vm_compute; reflexivity).
  destruct Hrun as (w & p' & Hrun). exists w, p'. split; [exact Hrun|].
  assert (forall b, asks_ledger (demo_call b)) as Hask
    by (intros b; split_and!; [discriminate|apply not_elem_of_empty|vm_compute; reflexivity]).
  destruct (finished_call_is_final (view := im_byKey) demo_tool None (demo_call 20) demo_start 9 w p' eq_refl (Hask 20%nat)
    I (lookup_empty _) Hrun) as (r & _ & _ & Hlater).
  exists r. exact (Hlater demo_tool None (demo_call 1) 0%nat eq_refl eq_refl (Hask 1%nat) eq_refl eq_refl eq_refl).
Defined.

Lemma interrupted_call_is_lost_witness :
  run_call demo_tool (demo_call 20) demo_cut =
    Finished 19 (mkWorld demo_cut []) (None, Some (node_failure "a" StepResultRetryableFailure
      ("invocation in progress for " +:+ call_key (demo_call 20)))).
Proof.
  assert (exists rec, im_byKey (ns_Store demo_cut) !! call_key (demo_call 20) = Some rec /\
                      inv_JobID rec = "j" /\ inv_Committed rec = false) as (rec & Hrec & Hj & Hc)
    by (eexists; split; [vm_compute; reflexivity|split; reflexivity]).
  exact (interrupted_call_is_lost (view := im_byKey) demo_tool None (demo_call 20) demo_cut rec 19 eq_refl
    ltac:(discriminate) Hrec Hj Hc ltac:(vm_compute; reflexivity) eq_refl).
Defined.

(** A tool that needs approval: the first call asks for it, the second has it
    and is lost, since the first one's record is still open. *)
Definition gated_tool : ToolNodeAdapter :=
  mkToolNode true true (Some None) false true true
    (Some (fun _ _ _ key approved => Ok (bool_decide ("cap-approval-" +:+ key ∈ approved), true)))
    None false ReplayVerificationStrict None false.
Definition approved_ctx : step_ctx :=
  mkStepCtx "j" "default" "step-1" ∅ ∅ ∅ {["cap-approval-" +:+ call_key (demo_call 0)]} false.
Definition approved_call : tool_call :=
  mkToolCall demo_env approved_ctx "a" "mail" [("to", JStr "x")] (NewAgentDAGPayload "goal" "ag" EmptyString) 20.

Definition answer_of {S} (r : run_result S node_return) : option go_error :=
  match r with Finished _ _ (_, e) => e | Crashed _ => None end.

Example approval_never_runs :
  let first := run_call gated_tool (demo_call 20) demo_start in
  answer_of first = Some (ECapability ("cap-approval-" +:+ call_key (demo_call 0))) /\
  answer_of (run_call gated_tool approved_call (w_store (world_after first))) =
    Some (node_failure "a" StepResultRetryableFailure ("invocation in progress for " +:+ call_key (demo_call 0))) /\
  runs_of gated_tool [approved_call] demo_start = [[call_key (demo_call 0)]].
Proof. split_and!; vm_compute; reflexivity. Qed.
