(* ===== verification/NodeAdapters.v ===== *)
(** The adapters of nodes that are no tools: node_adapter.go (LLM and
    workflow), framework_callable_adapter.go, wait_adapter.go and
    wait_like_adapter.go of internal/agent/runtime/executor.

    A call is a computation of Crash.v over the job's stream, the effect
    journal and the session of the agent; the log has the prompt of every
    answer the model gives.  What the outside answers during a call is
    [adapter_env]: the model, the workflow engine, the HTTP client, the
    environment variables, which appends succeed.  A temperature is the text
    JSON prints for it, and none when it is negative or not a number; the
    numbers of a result are doubles.  A payload comes back as it is after the
    call, with whether the call returned it. *)

From S2P Require Import Prelude GoTime Json GoStrings JsonFacts GoFloat Events StepResult Identity Replay TaskGraph EventSink AccessControl AgentState Executor Crash ToolNode ToolNodeProps.

(** ** What a call meets *)

Record LLMModelInfo := mkModelInfo { mi_Model : string; mi_Provider : string; mi_Temperature : option string }.

Record adapter_env := mkAdapterEnv {
  ae_now : time; ae_append : nat -> bool; ae_append_error : go_error;
  ae_put : bool;                                             (* the journal takes effects *)
  ae_Generate : string -> result go_error string;
  ae_ModelInfo : option LLMModelInfo;                        (* when the model tells about itself *)
  ae_Workflow : string -> list (string * json) -> result go_error json;
  ae_NewRequest : string -> option string;                   (* the error of a URL that does not parse *)
  ae_Do : string -> string -> option string -> result string (Z * result string string);
  ae_Getenv : string -> string;
}.

Record adapter_state := mkAdapterState { as_Stream : stream; as_Effects : EffectStoreMem; as_Session : option Session }.

Definition adapter_return : Type := AgentDAGPayload * bool * option go_error.
Definition adapter_prog : Type := prog adapter_state adapter_return.

Local Open Scope go_scope.

Definition refused (p : AgentDAGPayload) (e : go_error) : adapter_prog := ret (p, false, Some e).

Definition put_result (taskID : string) (v : json) (p : AgentDAGPayload) : AgentDAGPayload :=
  set_Results (Some (<[taskID := v]> (default ∅ (pl_Results p)))) p.

(** An append of the sink, when there is one and the call is for a job. *)
Definition emit_command (env : adapter_env) (on : bool) (f : (nat -> bool) -> stream -> stream) : prog adapter_state bool :=
  if on then write (fun s => (mkAdapterState (f (ae_append env) (as_Stream s)) (as_Effects s) (as_Session s),
                              ae_append env (sm_Appends (as_Stream s))))
  else ret true.

Definition put_effect (env : adapter_env) (on : bool) (e : EffectRecord) : prog adapter_state unit :=
  if on then write (fun s => (if ae_put env then mkAdapterState (as_Stream s) (PutEffect (ae_now env) e (as_Effects s)) (as_Session s)
                              else s, tt))
  else ret tt.

(** ** The LLM node *)

(** The fields that may be nil. *)
Record LLMNodeAdapter := mkLLMNode { la_LLM : bool; la_CommandEventSink : bool; la_EffectStore : bool; la_RequireEffectStore : bool }.

Definition prompt_keys : list string := ["prompt"; "output"; "answer"; "content"; "text"].

Fixpoint first_member {A} (f : json -> A) (k : string) (l : list (string * json)) : option A :=
  match l with [] => None | (k', v) :: l => if String.eqb k k' then Some (f v) else first_member f k l end.

(** The members of an object are distinct, as those of a map are. *)
Fixpoint promptFromResultValue (v : json) : string :=
  match v with
  | JNull => EmptyString
  | JStr s => s
  | JObj l =>
      match first_member (promptFromResultValue) "prompt" l, first_member (promptFromResultValue) "output" l,
            first_member (promptFromResultValue) "answer" l, first_member (promptFromResultValue) "content" l,
            first_member (promptFromResultValue) "text" l with
      | Some s, _, _, _, _ | None, Some s, _, _, _ | None, None, Some s, _, _ | None, None, None, Some s, _
      | None, None, None, None, Some s => s
      | None, None, None, None, None => marshal_map (Some l)
      end
  | _ => fmt_value v
  end.

Definition resolveLLMModelInfo (info : option LLMModelInfo) : string * string * string :=
  match info with
  | None => ("llm-model-default", "default", "0.7")
  | Some m => (or_else (mi_Model m) "llm-model-default", or_else (mi_Provider m) "default", default "0.7" (mi_Temperature m))
  end.

Definition cfg_string (name : string) (cfg : list (string * json)) : string :=
  match lookup_field name cfg with Some (JStr s) => s | _ => EmptyString end.

Definition llm_prompt (env : adapter_env) (cfg : list (string * json)) (p : AgentDAGPayload) : string :=
  let prompt := or_else (cfg_string "goal" cfg) (pl_Goal p) in
  match cfg_string "prompt_key" cfg with
  | EmptyString => prompt
  | key => match default ∅ (pl_Results p) !! key with
           | Some v => promptFromResultValue v
           | None => prompt
           end
  end.

Definition prompt_input (prompt : string) : string := print (JObj [("prompt", JStr prompt)]).

Definition started_effect (jobID taskID prompt : string) : EffectRecord :=
  mkEffect jobID taskID EmptyString "llm" (prompt_input prompt) EmptyString "inflight" [("phase", JStr "started")] zero_time.

Definition answered_effect (jobID taskID prompt resp : string) : EffectRecord :=
  mkEffect jobID taskID EmptyString "llm" (prompt_input prompt) (quote resp) EmptyString [] zero_time.

(** What a recorded effect is worth: the text and the node's result. *)
Definition recorded_text (e : EffectRecord) : string :=
  match unmarshal (ef_Output e) with
  | Some (JStr s) => s
  | Some JNull => EmptyString
  | _ => ef_Output e
  end.

Definition recorded_result (e : EffectRecord) : json :=
  JObj [("output", JStr (recorded_text e));
        ("_evidence", JObj match ef_Metadata e with [] => [] | m => [("llm_decision", JObj m)] end)].

Definition fresh_result (info : option LLMModelInfo) (resp : string) : json :=
  let '(model, provider, temperature) := resolveLLMModelInfo info in
  JObj [("output", JStr resp);
        ("_evidence", JObj [("llm_decision", JObj [("model", JStr model); ("provider", JStr provider); ("temperature", JNum temperature)])])].

Definition committed_result (info : option LLMModelInfo) (resp : string) : string :=
  let '(model, provider, temperature) := resolveLLMModelInfo info in
  print (JObj [("result", JStr resp); ("llm_model", JStr model); ("llm_provider", JStr provider); ("llm_temperature", JNum temperature)]).

(** The model is asked: it answers, which is logged, or fails. *)
Definition generate (env : adapter_env) (prompt : string) : prog adapter_state (result go_error string) :=
  do _ <- write (fun s => (s, tt)) ;;
  match ae_Generate env prompt with
  | Err e => ret (Err e)
  | Ok resp => do _ <- executed prompt ;; ret (Ok resp)
  end.

Definition say (env : adapter_env) (resp : string) : prog adapter_state unit :=
  write (fun s => (mkAdapterState (as_Stream s) (as_Effects s) (AgentState.AddMessage (ae_now env) "assistant" resp <$> as_Session s), tt)).

(** From the look into the journal on: nothing is recorded. *)
Definition ask_model (ad : LLMNodeAdapter) (env : adapter_env) (jobID taskID prompt : string) (p : AgentDAGPayload) : adapter_prog :=
  let live := negb (String.eqb jobID EmptyString) in
  do ok <- emit_command env (la_CommandEventSink ad && live)
             (fun io => AppendCommandEmitted io (ae_now env) jobID taskID taskID "llm" (prompt_input prompt)) ;;
  if negb ok then refused p (ae_append_error env)
  else
    do _ <- put_effect env (la_EffectStore ad && live) (started_effect jobID taskID prompt) ;;
    do r <- generate env prompt ;;
    match r with
    | Err e => refused p e
    | Ok resp =>
        do _ <- put_effect env (la_EffectStore ad && live) (answered_effect jobID taskID prompt resp) ;;
        do _ <- emit_command env (la_CommandEventSink ad && live)
                  (fun io => AppendCommandCommitted io (ae_now env) jobID taskID taskID (committed_result (ae_ModelInfo env) resp) EmptyString) ;;
        do _ <- say env resp ;;
        ret (put_result taskID (fresh_result (ae_ModelInfo env) resp) p, true, None)
    end.

Definition llm_runNode (ad : LLMNodeAdapter) (env : adapter_env) (jobID taskID : string) (cfg : list (string * json))
  (p : AgentDAGPayload) : adapter_prog :=
  if la_RequireEffectStore ad && negb (la_EffectStore ad)
  then refused p (EText "LLM adapter requires EffectStore in production mode")
  else
    let prompt := llm_prompt env cfg p in
    do eff <- read (fun s => if la_EffectStore ad && negb (String.eqb jobID EmptyString)
                             then GetEffectByJobAndCommandID jobID taskID (as_Effects s) else None) ;;
    match eff with
    | Some e =>
        if String.eqb (ef_Output e) EmptyString then ask_model ad env jobID taskID prompt p
        else ret (put_result taskID (recorded_result e) p, true, None)
    | None => ask_model ad env jobID taskID prompt p
    end.

Definition llm_ToNodeRunner (ad : LLMNodeAdapter) (task : TaskNode)
  : result string (adapter_env -> string -> AgentDAGPayload -> adapter_prog) :=
  if la_LLM ad then Ok (fun env jobID => llm_runNode ad env jobID (tn_ID task) (tn_Config task))
  else Err "LLMNodeAdapter: LLM not configured".

(** ** The workflow node *)

Record WorkflowNodeAdapter := mkWorkflowNode { wa_Workflow : bool; wa_CommandEventSink : bool }.

Definition workflow_runNode (ad : WorkflowNodeAdapter) (env : adapter_env) (jobID taskID name : string)
  (params : list (string * json)) (p : AgentDAGPayload) : adapter_prog :=
  let on := wa_CommandEventSink ad && negb (String.eqb jobID EmptyString) in
  do _ <- emit_command env on (fun io => AppendCommandEmitted io (ae_now env) jobID taskID taskID "workflow"
            (print (JObj [("workflow", JStr name); ("params", JObj params)]))) ;;
  do _ <- write (fun s => (s, tt)) ;;
  do _ <- executed name ;;
  match ae_Workflow env name params with
  | Err e => ret (put_result taskID (JObj [("error", JStr (error_text e)); ("at", JStr (format_rfc3339nano (ae_now env)))]) p, false, Some e)
  | Ok v =>
      do _ <- emit_command env on (fun io => AppendCommandCommitted io (ae_now env) jobID taskID taskID (print v) EmptyString) ;;
      ret (put_result taskID v p, true, None)
  end.

Definition workflow_ToNodeRunner (ad : WorkflowNodeAdapter) (task : TaskNode)
  : result string (adapter_env -> string -> AgentDAGPayload -> adapter_prog) :=
  if negb (wa_Workflow ad) then Err "WorkflowNodeAdapter: Workflow not configured"
  else if String.eqb (tn_Workflow task) EmptyString then Err ("WorkflowNodeAdapter: 节点 " +:+ (tn_ID task +:+ " 缺少 workflow"))
  else Ok (fun env jobID => workflow_runNode ad env jobID (tn_ID task) (tn_Workflow task) (tn_Config task)).

(** ** The node of a callable framework *)

Definition stringFromMap (m : list (string * json)) (key : string) : string := TrimSpace (cfg_string key m).

(** [strings.TrimRight(s, "/")] *)
Fixpoint drop_slashes (s : string) : string :=
  match s with String "/" r => drop_slashes r | _ => s end.

Definition trim_slashes (s : string) : string := str_rev (drop_slashes (str_rev s)).

Definition frameworkNodeInvokeURL (baseURL nodeID : string) : result string string :=
  match trim_slashes (TrimSpace baseURL) with
  | EmptyString => Err "framework callable url is required"
  | base => Ok (base +:+ ("/aetheris/nodes/" +:+ (nodeID +:+ "/invoke")))
  end.

Definition bridge_keys : list string := ["url"; "token_env"; "framework"; "framework_agent_id"; "framework_node_id"; "callable"].

Definition with_default (name v : string) (m : list (string * json)) : list (string * json) :=
  match lookup_field name m with Some _ => m | None => m ++ [(name, JStr v)] end.

Definition frameworkCallableInput (cfg : list (string * json)) (p : AgentDAGPayload) : list (string * json) :=
  with_default "session_id" (pl_SessionID p) (with_default "agent_id" (pl_AgentID p)
    (with_default "message" (pl_Goal p) (with_default "goal" (pl_Goal p)
      (filter (fun kv => ~ (fst kv ∈ bridge_keys)) cfg)))).

Definition object_omit (name : string) (m : list (string * json)) : list (string * string) :=
  match m with [] => [] | _ => [(name, print (JObj m))] end.

Definition frameworkCallableRequest (jobID taskID : string) (cfg : list (string * json)) (p : AgentDAGPayload) : string :=
  obj_text (m_str_omit "job_id" jobID ++ m_str "node_id" taskID ++ m_str_omit "session_id" (pl_SessionID p)
    ++ object_omit "input" (frameworkCallableInput cfg p)
    ++ object_omit "prior_results" (map_to_list (default ∅ (pl_Results p)))
    ++ object_omit "metadata" (map (fun k => (k, JStr (stringFromMap cfg k))) ["framework"; "framework_agent_id"; "callable"])).

(** [json.Unmarshal] into the response: its output and metadata. *)
Definition dec_object (name : string) (ms : list member) : option (list (string * json)) * bool :=
  foldl (fun acc m => match snd (snd m) with
                      | JNull => (None, snd acc)
                      | JObj l => (Some (map_to_list (list_to_map (rev (default [] (fst acc) ++ l)) : gmap string json)), snd acc)
                      | _ => (fst acc, true)
                      end) (None, false) (named name ms).

Definition frameworkCallableResponse (body : string) : option (json * option (list (string * json))) :=
  match payload_members body with
  | None => None
  | Some ms =>
      let output := default JNull ((fun m => snd (snd m)) <$> last (named "output" ms)) in
      let '(metadata, err) := dec_object "metadata" ms in
      if snd (dec_bool "final" ms) || err then None else Some (output, metadata)
  end.

Definition maxFrameworkCallableResponseBytes : Z := 10 * 1024 * 1024.

(** The answer of the client: a status and the body, or the error of reading
    it. *)
Definition framework_answer (env : adapter_env) (url body : string) (token : option string) : result go_error json :=
  match ae_Do env url body token with
  | Err e => Err (EText ("framework callable request failed: " +:+ e))
  | Ok (status, read) =>
      if (status <? 200) || (300 <=? status) then Err (EText ("framework callable upstream returned HTTP " +:+ itoa status))
      else match read with
           | Err e => Err (EText ("framework callable read response: " +:+ e))
           | Ok text =>
               if maxFrameworkCallableResponseBytes <? Z.of_nat (String.length text)
               then Err (EText "framework callable response exceeds 10 MiB limit")
               else match frameworkCallableResponse text with
                    | None => Err (EText "framework callable decode response")
                    | Some (output, metadata) =>
                        Ok (JObj [("output", output); ("metadata", match metadata with Some m => JObj m | None => JNull end)])
                    end
           end
  end.

(** The name of the variable is quoted by %q in the code. *)
Definition framework_token (env : adapter_env) (cfg : list (string * json)) : result go_error (option string) :=
  match stringFromMap cfg "token_env" with
  | EmptyString => Ok None
  | name => match ae_Getenv env name with
            | EmptyString => Err (EText ("framework callable token env " +:+ (name +:+ " is not set")))
            | token => Ok (Some token)
            end
  end.

Definition framework_runNode (sink : bool) (env : adapter_env) (jobID taskID : string) (cfg : list (string * json))
  (p : AgentDAGPayload) : adapter_prog :=
  match stringFromMap cfg "url" with
  | EmptyString => refused p (EText ("FrameworkCallableNodeAdapter: node " +:+ (taskID +:+ " missing url")))
  | base =>
      match frameworkNodeInvokeURL base taskID with
      | Err e => refused p (EText e)
      | Ok url =>
          let body := frameworkCallableRequest jobID taskID cfg p in
          let on := sink && negb (String.eqb jobID EmptyString) in
          do _ <- emit_command env on (fun io => AppendCommandEmitted io (ae_now env) jobID taskID taskID "framework_callable" body) ;;
          match ae_NewRequest env url, framework_token env cfg with
          | Some e, _ => refused p (EText ("framework callable create request: " +:+ e))
          | None, Err e => refused p e
          | None, Ok token =>
              do _ <- write (fun s => (s, tt)) ;;
              do _ <- executed url ;;
              match framework_answer env url body token with
              | Err e => refused p e
              | Ok v =>
                  do _ <- emit_command env on (fun io => AppendCommandCommitted io (ae_now env) jobID taskID taskID (print v) EmptyString) ;;
                  ret (put_result taskID v p, true, None)
              end
          end
      end
  end.

(** ** Nodes that wait: their runner hands the payload on *)

Definition wait_runNode (p : AgentDAGPayload) : adapter_prog := ret (p, true, None).

(** ** The answer of a model is asked for once *)

Record llm_call := mkLLMCall {
  lc_Env : adapter_env; lc_JobID : string; lc_TaskID : string; lc_Cfg : list (string * json);
  lc_Payload : AgentDAGPayload; lc_Budget : nat }.

Definition run_llm (ad : LLMNodeAdapter) (c : llm_call) (s : adapter_state) : run_result adapter_state adapter_return :=
  llm_runNode ad (lc_Env c) (lc_JobID c) (lc_TaskID c) (lc_Cfg c) (lc_Payload c) (lc_Budget c) (mkWorld s []).

Fixpoint llm_states (ad : LLMNodeAdapter) (cs : list llm_call) (s : adapter_state) : adapter_state :=
  match cs with [] => s | c :: cs => llm_states ad cs (w_store (world_after (run_llm ad c s))) end.

Definition output_of (taskID : string) (p : AgentDAGPayload) : option string :=
  match default ∅ (pl_Results p) !! taskID with
  | Some (JObj m) => match lookup_field "output" m with Some (JStr s) => Some s | _ => None end
  | _ => None
  end.

Definition effect_of (jobID taskID : string) (s : adapter_state) : option EffectRecord :=
  GetEffectByJobAndCommandID jobID taskID (as_Effects s).

Definition answered (jobID taskID text : string) (s : adapter_state) : Prop :=
  exists e, effect_of jobID taskID s = Some e /\ ef_Output e <> EmptyString /\ recorded_text e = text.

Definition nul_free_call (c : llm_call) : Prop := str_in nul (lc_JobID c) = false /\ str_in nul (lc_TaskID c) = false.

Lemma output_of_put taskID v p :
  output_of taskID (put_result taskID v p) =
  match v with JObj m => match lookup_field "output" m with Some (JStr s) => Some s | _ => None end | _ => None end.
Proof. unfold output_of, put_result. cbn. by rewrite lookup_insert_eq. Qed.

Lemma quoted_text jobID taskID prompt resp :
  utf8_valid resp = true -> recorded_text (answered_effect jobID taskID prompt resp) = resp.
Proof. intros Hu. unfold recorded_text. cbn. by rewrite (scans_unmarshal _ _ (scans_quote resp Hu)). Qed.

Section journal.
Variables (ad : LLMNodeAdapter) (jobID taskID : string).
Hypothesis Hstore : la_EffectStore ad = true.
Hypothesis Hjob : jobID <> EmptyString.
Hypothesis Htask : taskID <> EmptyString.

Lemma llm_recorded env cfg p n s text :
  answered jobID taskID text s ->
  (exists p', llm_runNode ad env jobID taskID cfg p n (mkWorld s []) = Finished n (mkWorld s []) (p', true, None) /\
    output_of taskID p' = Some text).
Proof.
  intros (e & He & Ho & Ht). unfold effect_of in He. unfold llm_runNode. rewrite Hstore, andb_false_r. unfold bind, read. cbn [w_store].
  rewrite (proj2 (String.eqb_neq _ _) Hjob). cbn [negb andb]. rewrite He, (proj2 (String.eqb_neq _ _) Ho).
  eexists. split; [done|]. rewrite output_of_put. cbn. by rewrite Ht.
Qed.

(** What an effect put for another command leaves. *)
Lemma put_effect_other (now : time) (e : EffectRecord) (es : EffectStoreMem) :
  ef_IdempotencyKey e = EmptyString -> keyCmd (ef_JobID e) (ef_CommandID e) <> keyCmd jobID taskID ->
  GetEffectByJobAndCommandID jobID taskID (PutEffect now e es) = GetEffectByJobAndCommandID jobID taskID es.
Proof.
  intros Hk Hne. unfold GetEffectByJobAndCommandID, PutEffect. rewrite Hk. cbn [String.eqb].
  destruct (String.eqb (ef_JobID e) EmptyString); [done|]. cbn [es_byKey].
  destruct (String.eqb (ef_CommandID e) EmptyString); [done|]. by rewrite lookup_insert_ne.
Qed.

Lemma put_effect_same (now : time) (e : EffectRecord) (es : EffectStoreMem) :
  ef_JobID e = jobID -> ef_CommandID e = taskID ->
  exists e', GetEffectByJobAndCommandID jobID taskID (PutEffect now e es) = Some e' /\ ef_Output e' = ef_Output e.
Proof.
  intros <- <-. unfold GetEffectByJobAndCommandID, PutEffect.
  rewrite (proj2 (String.eqb_neq _ _) Hjob), (proj2 (String.eqb_neq _ _) Htask). cbn. rewrite lookup_insert_eq. by eexists.
Qed.

(** A call for another command leaves the effect, finished or cut off. *)
Definition unchanged (x : option EffectRecord) (w : world adapter_state) : Prop := effect_of jobID taskID (w_store w) = x.

Lemma emit_command_unchanged env on f x : triple (unchanged x) (emit_command env on f) (fun _ => unchanged x) (unchanged x).
Proof. unfold emit_command. destruct on; [by apply triple_write|by apply triple_ret]. Qed.

Lemma put_effect_unchanged env on e x :
  ef_IdempotencyKey e = EmptyString -> keyCmd (ef_JobID e) (ef_CommandID e) <> keyCmd jobID taskID ->
  triple (unchanged x) (put_effect env on e) (fun _ => unchanged x) (unchanged x).
Proof.
  intros Hk Hne. unfold put_effect. destruct on; [|by apply triple_ret]. apply triple_write; [done|].
  intros w Hw. unfold unchanged, effect_of in *. destruct (ae_put env); [|done]. cbn. by rewrite put_effect_other.
Qed.

Lemma generate_unchanged env prompt x : triple (unchanged x) (generate env prompt) (fun _ => unchanged x) (unchanged x).
Proof.
  unfold generate. apply (triple_bind _ _ _ (fun _ => unchanged x)); [by apply triple_write|]. intros []. destruct (ae_Generate env prompt); [|by apply triple_ret].
  apply (triple_bind _ _ _ (fun _ => unchanged x)); [by intros n w Hw; exact Hw|]. intros []. by apply triple_ret.
Qed.

Lemma ask_model_unchanged env job task prompt p x :
  keyCmd job task <> keyCmd jobID taskID ->
  triple (unchanged x) (ask_model ad env job task prompt p) (fun _ => unchanged x) (unchanged x).
Proof.
  intros Hne. unfold ask_model. eapply triple_bind; [apply emit_command_unchanged|]. intros ok.
  destruct ok; cbn [negb]; [|by apply triple_ret].
  eapply triple_bind; [by apply put_effect_unchanged; [|exact Hne]|]. intros [].
  eapply triple_bind; [apply generate_unchanged|]. intros [resp|e]; [|by apply triple_ret].
  eapply triple_bind; [by apply put_effect_unchanged; [|exact Hne]|]. intros [].
  eapply triple_bind; [apply emit_command_unchanged|]. intros ?.
  apply (triple_bind _ _ _ (fun _ => unchanged x)); [by apply triple_write|]. intros []. by apply triple_ret.
Qed.

Lemma llm_unchanged env job task cfg p x :
  keyCmd job task <> keyCmd jobID taskID ->
  triple (unchanged x) (llm_runNode ad env job task cfg p) (fun _ => unchanged x) (unchanged x).
Proof.
  intros Hne. unfold llm_runNode. destruct (la_RequireEffectStore ad && _); [by apply triple_ret|].
  apply (triple_bind _ _ _ (fun _ => unchanged x)); [by apply triple_read|]. intros [e|]; [|by apply ask_model_unchanged].
  destruct (String.eqb (ef_Output e) EmptyString); [by apply ask_model_unchanged|by apply triple_ret].
Qed.

(** Two commands with one key are one. *)
Lemma keyCmd_inj job task :
  str_in nul jobID = false -> str_in nul job = false -> keyCmd job task = keyCmd jobID taskID -> job = jobID /\ task = taskID.
Proof.
  intros H1 H2 He. unfold keyCmd in He. apply first_sep_inj in He as [-> He]; [|done..]. split; [done|].
  apply (first_sep_inj nul "cmd" "cmd") in He as [_ He]; done.
Qed.

Lemma answered_stays text c s :
  str_in nul jobID = false -> nul_free_call c -> answered jobID taskID text s ->
  answered jobID taskID text (w_store (world_after (run_llm ad c s))).
Proof.
  intros Hn [Hcj Hct] Ha. destruct (decide (keyCmd (lc_JobID c) (lc_TaskID c) = keyCmd jobID taskID)) as [He|He].
  - apply keyCmd_inj in He as [Hj Ht]; [|done..]. unfold run_llm. rewrite Hj, Ht.
    by destruct (llm_recorded (lc_Env c) (lc_Cfg c) (lc_Payload c) (lc_Budget c) s text Ha) as (p' & -> & _).
  - destruct Ha as (e & Hget & Ho). exists e. split; [|done].
    pose proof (llm_unchanged (lc_Env c) _ _ (lc_Cfg c) (lc_Payload c) (Some e) He (lc_Budget c) (mkWorld s []) Hget) as Hx.
    fold (run_llm ad c s) in Hx. by destruct (run_llm ad c s).
Qed.

Lemma answered_states text cs s :
  str_in nul jobID = false -> Forall nul_free_call cs -> answered jobID taskID text s ->
  answered jobID taskID text (llm_states ad cs s).
Proof.
  intros Hn Hcs. revert s. induction Hcs as [|c cs Hc _ IH]; intros s Ha; cbn; [done|]. by apply IH, answered_stays.
Qed.

(** A call that returns has left its answer in the journal. *)
Definition has_answer (r : adapter_return) (w : world adapter_state) : Prop :=
  snd (fst r) = true -> exists text, output_of taskID (fst (fst r)) = Some text /\ answered jobID taskID text (w_store w).

Lemma ask_model_answers env prompt p :
  ae_put env = true -> (forall q resp, ae_Generate env q = Ok resp -> utf8_valid resp = true) ->
  triple (fun _ => True) (ask_model ad env jobID taskID prompt p) has_answer (fun _ => True).
Proof.
  intros Hput Hutf. unfold ask_model. rewrite Hstore, (proj2 (String.eqb_neq _ _) Hjob). cbn [negb andb].
  assert (Hany : forall A (m : prog adapter_state A), triple (fun _ => True) m (fun _ _ => True) (fun _ => True)).
  { intros A m n w _. by destruct (m n w). }
  eapply triple_bind; [apply Hany|]. intros ok. destruct ok; cbn [negb]; [|by apply triple_ret].
  eapply triple_bind; [apply Hany|]. intros ?.
  apply (triple_bind _ _ _ (fun r _ => match r with Ok resp => utf8_valid resp = true | Err _ => True end)).
  { intros n w _. unfold generate, bind, write. destruct n; [done|]. destruct (ae_Generate env prompt) eqn:Hg; cbn; [by eapply Hutf|done]. }
  intros [resp|e]; [|by apply triple_ret].
  apply (triple_bind _ _ _ (fun _ w => answered jobID taskID resp (w_store w))).
  { unfold put_effect. apply triple_write; [done|]. intros w Hu. rewrite Hput. cbn.
    destruct (put_effect_same (ae_now env) (answered_effect jobID taskID prompt resp) (as_Effects (w_store w)) eq_refl eq_refl) as (e & He & Ho).
    exists e. split; [done|]. rewrite Ho. split; [done|]. unfold recorded_text. rewrite Ho. by apply quoted_text. }
  intros ?. apply (triple_bind _ _ _ (fun _ w => answered jobID taskID resp (w_store w))).
  { unfold emit_command. destruct (la_CommandEventSink ad && true); [by apply triple_write|by apply triple_ret]. }
  intros ?. apply (triple_bind _ _ _ (fun _ w => answered jobID taskID resp (w_store w))); [by apply triple_write|].
  intros ?. apply triple_ret. intros w Ha _. exists resp. split; [|done]. cbn. rewrite output_of_put. unfold fresh_result.
  by destruct (resolveLLMModelInfo _) as [[model provider] temperature].
Qed.
End journal.

(** C19: an answer of a model is final: once a node of a job has returned with
    the journal taking its effect, every later call of the node finds the
    answer, whatever other calls of LLM nodes, of any job, did in between,
    finished, failed or cut off by a crash: it returns the same text, asks no
    model, and changes neither stream nor journal nor session. *)
Theorem llm_answer_is_final ad c1 mid c2 s n w p1 :
  la_EffectStore ad = true -> lc_JobID c1 <> EmptyString -> lc_TaskID c1 <> EmptyString ->
  nul_free_call c1 -> Forall nul_free_call mid -> lc_JobID c2 = lc_JobID c1 -> lc_TaskID c2 = lc_TaskID c1 ->
  ae_put (lc_Env c1) = true -> (forall q resp, ae_Generate (lc_Env c1) q = Ok resp -> utf8_valid resp = true) ->
  run_llm ad c1 s = Finished n w (p1, true, None) ->
  let s2 := llm_states ad mid (w_store w) in
  exists text p2, output_of (lc_TaskID c1) p1 = Some text /\
    run_llm ad c2 s2 = Finished (lc_Budget c2) (mkWorld s2 []) (p2, true, None) /\ output_of (lc_TaskID c1) p2 = Some text.
Proof.
  intros Hst Hj Ht [Hnj Hnt] Hmid Hj2 Ht2 Hput Hutf Hrun s2.
  assert (Ha : exists text, output_of (lc_TaskID c1) p1 = Some text /\ answered (lc_JobID c1) (lc_TaskID c1) text (w_store w)).
  { unfold run_llm, llm_runNode in Hrun. rewrite Hst, andb_false_r, (proj2 (String.eqb_neq _ _) Hj) in Hrun. cbn [negb andb] in Hrun.
    unfold bind at 1, read in Hrun. cbn [w_store] in Hrun.
    pose proof (ask_model_answers ad (lc_JobID c1) (lc_TaskID c1) Hst Hj Ht (lc_Env c1)
      (llm_prompt (lc_Env c1) (lc_Cfg c1) (lc_Payload c1)) (lc_Payload c1) Hput Hutf (lc_Budget c1) (mkWorld s []) I) as Hask.
    destruct (GetEffectByJobAndCommandID (lc_JobID c1) (lc_TaskID c1) (as_Effects s)) as [e|] eqn:He;
      [destruct (String.eqb_spec (ef_Output e) EmptyString) as [Ho|Ho]|].
    - rewrite Hrun in Hask. by apply Hask.
    - injection Hrun as <- <- <-. exists (recorded_text e). rewrite output_of_put. split; [done|]. by exists e.
    - rewrite Hrun in Hask. by apply Hask. }
  destruct Ha as (text & Ho & Ha). exists text.
  pose proof (answered_states ad (lc_JobID c1) (lc_TaskID c1) Hst Hj text mid (w_store w) Hnj Hmid Ha) as Ha2. fold s2 in Ha2.
  destruct (llm_recorded ad (lc_JobID c1) (lc_TaskID c1) Hst Hj (lc_Env c2) (lc_Cfg c2) (lc_Payload c2) (lc_Budget c2) s2 text Ha2)
    as (p2 & Hr & Ho2).
  exists p2. unfold run_llm. by rewrite Hj2, Ht2.
Qed.

(** ** The input of a framework's node *)

Lemma lookup_field_snoc {A} k (l : list (string * A)) k' v :
  lookup_field k (l ++ [(k', v)]) = if String.eqb k k' then Some v else lookup_field k l.
Proof. unfold lookup_field. rewrite foldl_snoc. cbn. by rewrite String.eqb_sym. Qed.

Lemma lookup_with_default name v m k :
  lookup_field k (with_default name v m) =
  match lookup_field k m with Some x => Some x | None => if String.eqb k name then Some (JStr v) else None end.
Proof.
  unfold with_default. destruct (lookup_field name m) as [x|] eqn:Hn.
  - destruct (lookup_field k m) eqn:Hk; [done|]. destruct (String.eqb_spec k name) as [->|]; [congruence|done].
  - rewrite lookup_field_snoc. destruct (String.eqb_spec k name) as [->|]; [by rewrite Hn|]. by destruct (lookup_field k m).
Qed.

Lemma lookup_bridge_filtered k cfg :
  lookup_field k (filter (fun kv : string * json => ~ (fst kv ∈ bridge_keys)) cfg) =
  if bool_decide (k ∈ bridge_keys) then None else lookup_field k cfg.
Proof.
  induction cfg as [|[k' v] cfg IH] using rev_ind; [by case_bool_decide|]. rewrite filter_app, lookup_field_snoc, filter_cons, filter_nil.
  destruct (decide (k' ∈ bridge_keys)) as [Hin|Hin].
  - rewrite decide_False by tauto. rewrite app_nil_r, IH. destruct (String.eqb_spec k k') as [->|]; [|done]. by rewrite bool_decide_true.
  - rewrite decide_True by done. rewrite lookup_field_snoc, IH. destruct (String.eqb_spec k k') as [->|]; [|done].
    by rewrite bool_decide_false.
Qed.

(** The input holds the node's configuration without the keys of the bridge,
    and goal, message, agent and session where it does not set them. *)
Theorem framework_input_lookup cfg p k :
  lookup_field k (frameworkCallableInput cfg p) =
  if bool_decide (k ∈ bridge_keys) then None
  else match lookup_field k cfg with
       | Some v => Some v
       | None =>
           if String.eqb k "goal" || String.eqb k "message" then Some (JStr (pl_Goal p))
           else if String.eqb k "agent_id" then Some (JStr (pl_AgentID p))
           else if String.eqb k "session_id" then Some (JStr (pl_SessionID p))
           else None
       end.
Proof.
  unfold frameworkCallableInput. rewrite !lookup_with_default, lookup_bridge_filtered.
  case_bool_decide as Hin; [by repeat (apply elem_of_cons in Hin as [->|Hin]; [done|]); apply not_elem_of_nil in Hin|].
  destruct (lookup_field k cfg); [done|].
  destruct (String.eqb k "goal"); [done|]. destruct (String.eqb k "message"); [done|].
  destruct (String.eqb k "agent_id"); [done|]. by destruct (String.eqb k "session_id").
Qed.

(** ** Concrete calls *)

Definition answering (text : string) : adapter_env :=
  mkAdapterEnv (Time 0 0) (fun _ => true) (EText "append") true (fun _ => Ok text) None (fun _ _ => Ok JNull)
    (fun _ => None) (fun _ _ _ => Err "offline") (fun _ => EmptyString).

Definition with_journal : LLMNodeAdapter := mkLLMNode true true true true.

Definition ask (env : adapter_env) (job task : string) (budget : nat) : llm_call :=
  mkLLMCall env job task [] (NewAgentDAGPayload "which colour?" "a" "s") budget.

Definition fresh_state : adapter_state := mkAdapterState (mkStream [] 0) NewEffectStoreMem None.

Lemma llm_answer_is_final_witness :
  let c1 := ask (answering "blue") "j" "t" 9 in
  let mid := [ask (answering "red") "j" "u" 3; ask (answering "green") "j" "t" 0] in
  let c2 := ask (answering "green") "j" "t" 5 in
  exists n w p1, run_llm with_journal c1 fresh_state = Finished n w (p1, true, None) /\
  let s2 := llm_states with_journal mid (w_store w) in
  exists text p2, output_of "t" p1 = Some text /\ run_llm with_journal c2 s2 = Finished 5 (mkWorld s2 []) (p2, true, None) /\
    output_of "t" p2 = Some text.
Proof.
  intros c1 mid c2. do 3 eexists. split; [vm_compute; reflexivity|].
  refine (llm_answer_is_final with_journal c1 mid c2 fresh_state _ _ _ _ _ _ _ _ _ _ _ _ _); try done.
  - by repeat constructor.
  - intros q resp [= <-]. reflexivity.
  - vm_compute. reflexivity.
Defined.

(** ** Where a replay differs from the run *)

(** The runner replays a committed command by putting the committed text into
    the payload; the LLM node commits under other names than it returns, so a
    node that takes its prompt from the answer is asked another question. *)
Lemma replayed_answer_is_another_prompt :
  promptFromResultValue (fresh_result None "blue") = "blue" /\
  match unmarshal (committed_result None "blue") with
  | Some v => promptFromResultValue v = committed_result None "blue"
  | None => False
  end.
Proof. split; vm_compute; reflexivity. Qed.

(** The effect of an answer is stored without the model's description: the
    result taken from the journal lacks the evidence of the first. *)
Lemma recorded_result_lacks_evidence jobID taskID prompt :
  recorded_result (answered_effect jobID taskID prompt "blue") = JObj [("output", JStr "blue"); ("_evidence", JObj [])] /\
  recorded_result (answered_effect jobID taskID prompt "blue") <> fresh_result None "blue".
Proof. split; [vm_compute; reflexivity|]. vm_compute. discriminate. Qed.

(** A call cut off between the answer and its effect asks again. *)
Lemma cut_off_call_asks_again :
  match run_llm with_journal (ask (answering "blue") "j" "t" 3) fresh_state with
  | Crashed w => w_log w = ["which colour?"] /\
      match run_llm with_journal (ask (answering "green") "j" "t" 9) (w_store w) with
      | Finished _ w' (p, ok, _) => w_log w' = ["which colour?"] /\ ok = true /\ output_of "t" p = Some "green"
      | Crashed _ => False
      end
  | Finished _ _ _ => False
  end.
Proof. vm_compute. done. Qed.
