(* ===== verification/GoFloatOps.v ===== *)
(** [sort.Slice]: what the package promises of it, as a class, and the
    insertion sort the package runs on slices of up to twelve elements.

    Then float64: addition, multiplication, division and roots, rounded; and
    the numbers of texts and durations. *)

From Stdlib Require Import Sorting.Sorted.
From stdpp Require Import sorting.
From S2P Require Import Prelude Sha256 GoTime Json TimeParse JsonFacts GoFloat.

(** The order [sort.Slice] asks for, on the elements of a slice: [less] is
    asymmetric and its negation transitive. *)
Definition weak_order {A} (less : A -> A -> bool) (l : list A) : Prop :=
  (forall a b, a ∈ l -> b ∈ l -> less a b = true -> less b a = false) /\
  (forall a b c, a ∈ l -> b ∈ l -> c ∈ l -> less a b = false -> less b c = false -> less a c = false).

(** No element is less than one before it. *)
Definition ascending {A} (less : A -> A -> bool) : list A -> Prop :=
  StronglySorted (fun a b => less b a = false).

(** The contract of [sort.Slice]; it is silent on the order of equal elements. *)
Class SliceSort (sort : forall A : Type, (A -> A -> bool) -> list A -> list A) : Prop := {
  sort_perm A less (l : list A) : sort A less l ≡ₚ l;
  sort_ascending A less (l : list A) : weak_order less l -> ascending less (sort A less l)
}.

(** [insertionSort]: [rp] is the sorted prefix, last element first. *)
Fixpoint insert_rev {A} (less : A -> A -> bool) (x : A) (rp : list A) : list A :=
  match rp with
  | [] => [x]
  | y :: r => if less x y then y :: insert_rev less x r else x :: rp
  end.

Definition insertion_sort (A : Type) (less : A -> A -> bool) (l : list A) : list A :=
  rev (foldl (fun rp x => insert_rev less x rp) [] l).

Section insertion.
Context {A : Type} (less : A -> A -> bool).

Lemma insert_rev_perm x rp : insert_rev less x rp ≡ₚ x :: rp.
Proof. induction rp as [|y r IH]; cbn; [done|]. case_match; [rewrite IH; constructor|done]. Qed.

Lemma insert_all_perm l acc : foldl (fun rp x => insert_rev less x rp) acc l ≡ₚ l ++ acc.
Proof.
  revert acc. induction l as [|x l IH]; intros acc; cbn; [done|].
  by rewrite IH, insert_rev_perm, Permutation_middle.
Qed.

(** The prefix, last element first. *)
Definition descending : list A -> Prop := StronglySorted (fun a b => less a b = false).

Lemma insert_rev_descending x rp : weak_order less (x :: rp) -> descending rp -> descending (insert_rev less x rp).
Proof.
  intros [Ha Ht]. induction rp as [|y r IH]; intros Hd; cbn [insert_rev].
  { repeat constructor. }
  apply StronglySorted_inv in Hd as [Hr Hy].
  destruct (less x y) eqn:Hxy.
  - constructor.
    + apply IH; [| |done]; intros; [eapply Ha|eapply Ht]; eauto; set_solver.
    + rewrite insert_rev_perm. constructor; [|done]. apply Ha; [set_solver..|done].
  - constructor; [by constructor|]. constructor; [done|].
    apply Forall_forall. intros z Hz. rewrite Forall_forall in Hy.
    apply (Ht x y z); [set_solver..|done|by apply Hy].
Qed.

Lemma insert_all_descending l acc :
  weak_order less (l ++ acc) -> descending acc -> descending (foldl (fun rp x => insert_rev less x rp) acc l).
Proof.
  revert acc. induction l as [|x l IH]; intros acc [Ha Ht] Hd; [done|]. cbn [foldl]. apply IH.
  - split; intros *; rewrite ?elem_of_app, ?insert_rev_perm; intros;
      [eapply Ha|eapply Ht]; eauto; set_solver.
  - apply insert_rev_descending; [|done]. split; intros; [eapply Ha|eapply Ht]; eauto; set_solver.
Qed.

Lemma rev_descending l : descending l -> ascending less (rev l).
Proof.
  induction 1 as [|x l Hl IH Hx]; [constructor|]. cbn [rev].
  apply StronglySorted_app_2; [|done|repeat constructor].
  intros a b Hin ->%list_elem_of_singleton. rewrite Forall_forall in Hx. apply Hx.
  by rewrite <- (Permutation_rev l) in Hin.
Qed.
End insertion.

#[export] Instance insertion_sort_slice : SliceSort insertion_sort.
Proof.
  split; intros A less l.
  - unfold insertion_sort. rewrite <- Permutation_rev, insert_all_perm. by rewrite app_nil_r.
  - intros Hw. apply rev_descending, insert_all_descending; [by rewrite app_nil_r|constructor].
Qed.

(** The first element of a sorted slice that satisfies [p] is a least one. *)
Lemma ascending_find_least {A} (less : A -> A -> bool) (p : A -> bool) l x :
  ascending less l -> (forall a, a ∈ l -> less a a = false) ->
  List.find p l = Some x -> x ∈ l /\ p x = true /\ forall y, y ∈ l -> p y = true -> less y x = false.
Proof.
  intros Hs Hirr. induction Hs as [|a l Hs IH Ha]; [done|]. cbn [List.find].
  destruct (p a) eqn:Hp.
  - intros [= <-]. split_and!; [set_solver|done|]. intros y [->|Hy]%elem_of_cons Hpy.
    + apply Hirr. set_solver.
    + rewrite Forall_forall in Ha. by apply Ha.
  - intros (Hx & Hpx & Hle)%IH; [|intros; apply Hirr; set_solver].
    split_and!; [set_solver|done|]. intros y [->|Hy]%elem_of_cons Hpy; [congruence|by apply Hle].
Qed.

(** Two sorted arrangements of the same elements agree when the order
    separates them. *)
Lemma ascending_unique {A} (less : A -> A -> bool) (l1 l2 : list A) :
  (forall a b, a ∈ l1 -> b ∈ l1 -> less a b = false -> less b a = false -> a = b) ->
  ascending less l1 -> ascending less l2 -> l1 ≡ₚ l2 -> l1 = l2.
Proof.
  intros Hanti H1 H2 Hp. eapply StronglySorted_unique_strong; [|exact H1|exact H2|exact Hp].
  intros a b Ha Hb Hab Hba. cbn in Hab, Hba. apply Hanti; [done| |done..]. by rewrite Hp.
Qed.

Example insertion_sort_is_stable :
  insertion_sort (Z * Z) (fun a b => fst a <? fst b) [(2, 0); (1, 0); (2, 1); (1, 1)] = [(1, 0); (1, 1); (2, 0); (2, 1)].
Proof. reflexivity. Qed.

(** Arithmetic on float64: addition, multiplication and division rounded to
    the nearest double (ties to even), with the infinities and NaN, and the
    comparisons.  A product is rounded before it is added, as on a machine
    that does not fuse the two. *)

Inductive float := Fin (f : float64) | Inf (neg : bool) | NaN.

#[export] Instance float_eq_dec : EqDecision float.
Proof. solve_decision. Defined.

Definition signed_zero (neg : bool) : float := Fin (mkFloat neg 0 min_exp).

(** The double nearest to [a / b], for [0 <= a] and [0 < b]. *)
Definition of_ratio (neg : bool) (a b : Z) : float :=
  if a =? 0 then signed_zero neg
  else match nearest a b with
       | Some (m, e) => Fin (mkFloat neg m e)
       | None => Inf neg
       end.

Definition float_neg (x : float) : bool :=
  match x with Fin f => fl_neg f | Inf n => n | NaN => false end.
Definition float_zero (x : float) : bool :=
  match x with Fin f => fl_mant f =? 0 | _ => false end.

Definition float_mul (x y : float) : float :=
  let neg := xorb (float_neg x) (float_neg y) in
  match x, y with
  | NaN, _ | _, NaN => NaN
  | Fin f, Fin g =>
      let '(a, b) := scale2 (fl_mant f * fl_mant g) 1 (fl_exp f + fl_exp g) in of_ratio neg a b
  | _, _ => if float_zero x || float_zero y then NaN else Inf neg
  end.

Definition float_add (x y : float) : float :=
  match x, y with
  | NaN, _ | _, NaN => NaN
  | Fin f, Fin g =>
      let s := scaled f + scaled g in
      if s =? 0 then signed_zero (fl_neg f && fl_neg g)
      else of_ratio (s <? 0) (Z.abs s) (2 ^ (- min_exp))
  | Inf n, Inf n' => if Bool.eqb n n' then Inf n else NaN
  | Inf n, _ | _, Inf n => Inf n
  end.

Definition float_div (x y : float) : float :=
  let neg := xorb (float_neg x) (float_neg y) in
  match x, y with
  | NaN, _ | _, NaN | Inf _, Inf _ => NaN
  | Inf _, Fin _ => Inf neg
  | Fin _, Inf _ => signed_zero neg
  | Fin f, Fin g =>
      if fl_mant g =? 0 then if fl_mant f =? 0 then NaN else Inf neg
      else let '(a, b) := scale2 (fl_mant f) (fl_mant g) (fl_exp f - fl_exp g) in of_ratio neg a b
  end.

(** [x < y] and [x == y]: false when either is NaN. *)
Definition float_lt (x y : float) : bool :=
  match x, y with
  | NaN, _ | _, NaN => false
  | Fin f, Fin g => float_ltb f g
  | Inf n, Inf n' => n && negb n'
  | Inf n, Fin _ => n
  | Fin _, Inf n => negb n
  end.

Definition float_eq (x y : float) : bool :=
  match x, y with
  | NaN, _ | _, NaN => false
  | Fin f, Fin g => float_eqb f g
  | Inf n, Inf n' => Bool.eqb n n'
  | _, _ => false
  end.

(** A Go constant, written as its decimal literal, and [float64(z)]. *)
Definition const (lit : string) : float := match ParseFloat lit with Some f => Fin f | None => NaN end.
Definition of_int (z : Z) : float := Fin (float_of_int z).

(** [int(x)]; Go leaves the value of an unrepresentable one to the machine. *)
Definition int_of (overflow : float -> Z) (x : float) : Z :=
  match x with Fin f => int_of_float (fun _ => overflow x) f | _ => overflow x end.

Definition is_nan (x : float) : bool := match x with NaN => true | _ => false end.

(** [-x], [x - y] and [math.Abs(x)] *)
Definition float_opp (x : float) : float :=
  match x with Fin f => Fin (mkFloat (negb (fl_neg f)) (fl_mant f) (fl_exp f)) | Inf n => Inf (negb n) | NaN => NaN end.
Definition float_sub (x y : float) : float := float_add x (float_opp y).
Definition float_abs (x : float) : float := if float_neg x then float_opp x else x.

(** [math.Sqrt]: the double nearest to the root; the bits below the root that
    is taken only break ties. *)
Definition Sqrt (x : float) : float :=
  match x with
  | NaN => NaN
  | Inf neg => if neg then NaN else x
  | Fin f =>
      if fl_mant f =? 0 then x else if fl_neg f then NaN
      else let n := scaled f * 2 ^ 128 in
           let r := Z.sqrt n in
           of_ratio false (2 * r + (if r * r =? n then 0 else 1)) (2 ^ 602)
  end.

Example sqrt_of_two : Sqrt (of_int 2) = const "1.4142135623730951" /\ Sqrt (const "0.0625") = const "0.25".
Proof. vm_compute. by split. Qed.

(** ** The order *)

Ltac floats := unfold float_lt, float_eq, float_ltb, float_eqb; intros; repeat case_match; cbn in *; bool_hyps; simplify_eq; lia.

Lemma float_lt_irrefl x : float_lt x x = false.
Proof. destruct x as [f|[]|]; [|done..]. cbn. apply Z.ltb_irrefl. Qed.

Lemma float_lt_asym x y : float_lt x y = true -> float_lt y x = false.
Proof.
  destruct x as [f|[]|], y as [g|[]|]; cbn; try done. unfold float_ltb. rewrite Z.ltb_lt, Z.ltb_ge. lia.
Qed.

Lemma float_lt_negtrans x y z :
  is_nan x = false -> is_nan y = false -> is_nan z = false ->
  float_lt x y = false -> float_lt y z = false -> float_lt x z = false.
Proof.
  destruct x as [f|[]|], y as [g|[]|], z as [h|[]|]; cbn; try done.
  unfold float_ltb. rewrite !Z.ltb_ge. lia.
Qed.

(** Slices ordered by a key that is a number and never NaN. *)
Lemma float_key_weak_order {A} (key : A -> float) l :
  Forall (fun a => is_nan (key a) = false) l -> weak_order (fun a b => float_lt (key a) (key b)) l.
Proof.
  intros Hl. rewrite Forall_forall in Hl. split.
  - intros a b _ _. apply float_lt_asym.
  - intros a b c Ha Hb Hc. apply float_lt_negtrans; by apply Hl.
Qed.

Lemma int_key_weak_order {A} (key : A -> Z) l : weak_order (fun a b => key a <? key b) l.
Proof. split; intros *; rewrite ?Z.ltb_lt, ?Z.ltb_ge; lia. Qed.

(** ** Truncation follows the order *)

Lemma trunc_scaled f : fl_mant f >= 0 -> min_exp <= fl_exp f -> trunc f = Z.quot (scaled f) (2 ^ (- min_exp)).
Proof.
  intros Hm He. unfold trunc, scaled, scale2.
  assert (Hp : 0 < 2 ^ (- min_exp)) by (apply Z.pow_pos_nonneg; unfold min_exp; lia).
  destruct (0 <=? fl_exp f) eqn:Hs.
  - apply Z.leb_le in Hs.
    replace (fl_exp f - min_exp) with (fl_exp f + (- min_exp)) by lia.
    rewrite Z.pow_add_r by (unfold min_exp; lia). rewrite !Z.mul_assoc, Z.quot_mul by lia.
    rewrite Z.div_1_r. destruct (fl_neg f); lia.
  - apply Z.leb_gt in Hs. rewrite Z.mul_1_l.
    assert (Hq : fl_mant f / 2 ^ (- fl_exp f) = Z.quot (fl_mant f * 2 ^ (fl_exp f - min_exp)) (2 ^ (- min_exp))).
    { assert (Hk : 2 ^ (- min_exp) = 2 ^ (- fl_exp f) * 2 ^ (fl_exp f - min_exp))
        by (rewrite <- Z.pow_add_r by lia; f_equal; lia).
      rewrite Hk, Z.quot_mul_cancel_r by (apply Z.pow_nonzero; lia).
      rewrite Z.quot_div_nonneg; [done|lia|]. apply Z.pow_pos_nonneg; lia. }
    rewrite Hq. destruct (fl_neg f); [|f_equal; lia].
    rewrite <- Z.quot_opp_l by lia. f_equal; lia.
Qed.

Example rounding :
  map (fun x => match x with Fin f => json_float f | Inf _ => "inf" | NaN => "nan" end)
    [float_add (const "0.1") (const "0.2"); float_mul (const "0.1") (const "3"); float_div (const "1") (const "3");
     float_div (const "1") (const "0"); float_add (float_div (const "1") (const "0")) (float_div (const "-1") (const "0"));
     float_mul (const "1e308") (const "10"); float_mul (const "5e-324") (const "0.5");
     float_add (const "1e16") (const "1")] =
  ["0.30000000000000004"; "0.30000000000000004"; "0.3333333333333333"; "inf"; "nan"; "inf"; "0"; "10000000000000000"].
Proof. vm_compute. reflexivity. Qed.

(** Numbers in texts and durations in seconds: [strconv.ParseInt], the value
    [strconv.Atoi] leaves when its error is ignored, and [Duration.Seconds]. *)

(** The number a text of an optional sign and digits writes. *)
Definition written_number (text : string) : option Z :=
  match text with
  | String "+" EmptyString | String "-" EmptyString | EmptyString => None
  | String "+" r => digits_value 0 r
  | String "-" r => option_map Z.opp (digits_value 0 r)
  | _ => digits_value 0 text
  end.

(** [strconv.ParseInt(text, 10, 64)] *)
Definition ParseInt (text : string) : option Z :=
  n ← written_number text; if in_range min_int64 max_int64 n then Some n else None.

(** [n, _ := strconv.Atoi(text)]: a number outside the range of int leaves the
    end of the range, no number leaves 0. *)
Definition Atoi (text : string) : Z :=
  match written_number text with None => 0 | Some n => Z.max min_int64 (Z.min max_int64 n) end.

(** [int64(d.Seconds())]: whole seconds and the rest are added as floats. *)
Definition whole_seconds (overflow : float -> Z) (d : Z) : Z :=
  int_of overflow (float_add (of_int (Z.quot d second)) (float_div (of_int (Z.rem d second)) (of_int second))).

Example numbers :
  map ParseInt [""; "-"; "+7"; "+-7"; "-7"; "9223372036854775807"; "9223372036854775808"; "1_000"; " 1"]
  = [None; None; Some 7; None; Some (-7); Some 9223372036854775807; None; None; None] /\
  map Atoi ["20"; "ten"; "9223372036854775808"; "-99999999999999999999"] = [20; 0; 9223372036854775807; -9223372036854775808] /\
  map (whole_seconds (fun _ => 0)) [5 * minute; 999999999; 1500000000; - 1500000000; 9223372036854775807] = [300; 0; 1; -1; 9223372036].
Proof. vm_compute. split_and!; reflexivity. Qed.

(** ** Facts *)

Lemma written_digit c r : is_digit c = true -> written_number (String c r) = digits_value 0 (String c r).
Proof. destruct c as [[] [] [] [] [] [] [] []]; intros H; try discriminate H; reflexivity. Qed.

Lemma itoa_head x : 0 <= x -> exists c t, itoa x = String c t /\ is_digit c = true.
Proof.
  intros Hx. rewrite itoa_nat by done. destruct (dec_nonneg_eq x EmptyString Hx) as (w & -> & Hb & Hw).
  assert (Hh : exists d t, dec_fixed (S w) x EmptyString = String (hex_digit d) t /\ 0 <= d < 10).
  { destruct (decide (10 ^ Z.of_nat w <= x)) as [Hge|Hlt].
    - destruct (dec_fixed_head w x EmptyString ltac:(lia)) as (d & t & ? & ?). exists d, t. split; [done|lia].
    - destruct Hw as [->|Hw]; [|lia]. exists (x mod 10), EmptyString. split; [done|by apply Z.mod_pos_bound]. }
  destruct Hh as (d & t & -> & Hd). exists (hex_digit d), t. split; [done|]. by apply hex_digit_dec.
Qed.

Lemma digits_itoa x : 0 <= x -> digits_value 0 (itoa x) = Some x.
Proof.
  intros Hx. rewrite itoa_nat by done. destruct (dec_nonneg_eq x EmptyString Hx) as (w & -> & Hb & Hw).
  pose proof (digits_value_dec (S w) 0 x Hb) as Hv. by rewrite Z.mul_0_l, Z.add_0_l in Hv.
Qed.

Lemma written_itoa x : 0 <= x -> written_number (itoa x) = Some x.
Proof.
  intros Hx. destruct (itoa_head x Hx) as (c & t & Ht & Hc). rewrite Ht, written_digit, <- Ht by done. by apply digits_itoa.
Qed.

Lemma ParseInt_itoa x : 0 <= x < 2 ^ 63 -> ParseInt (itoa x) = Some x.
Proof.
  intros Hx. unfold ParseInt. rewrite written_itoa by lia. cbn [mbind option_bind].
  unfold in_range, min_int64, max_int64. by rewrite !(proj2 (Z.leb_le _ _)) by lia.
Qed.

Lemma ParseInt_range s n : ParseInt s = Some n -> - 2 ^ 63 <= n < 2 ^ 63.
Proof.
  unfold ParseInt. destruct (written_number s) as [m|]; [|done]. cbn [mbind option_bind]. unfold in_range, min_int64, max_int64.
  case_match eqn:H; [|done]. intros [= ->]. bool_hyps. lia.
Qed.

Lemma digits_free c s acc n : is_digit c = false -> digits_value acc s = Some n -> str_in c s = false.
Proof.
  intros Hc. revert acc. induction s as [|a r IH]; intros acc; [done|]. cbn [digits_value str_in].
  destruct (is_digit a) eqn:Ha; [|done]. intros H. rewrite (IH _ H), orb_false_r.
  apply Ascii.eqb_neq. intros ->. congruence.
Qed.

(** A number has nothing but digits behind its sign. *)
Lemma ParseInt_free c s n :
  is_digit c = false -> c <> "+"%char -> c <> "-"%char -> ParseInt s = Some n -> str_in c s = false.
Proof.
  intros Hc Hp Hm H. unfold ParseInt in H. destruct (written_number s) as [k|] eqn:Hw; [clear H|done].
  assert (Hs : exists r m, digits_value 0 r = Some m /\ (s = r \/ s = String "+" r \/ s = String "-" r)).
  { destruct (digits_value 0 s) as [m|] eqn:Hs; [by exists s, m; auto|].
    destruct s as [|[[] [] [] [] [] [] [] []] r]; try (cbn in Hw, Hs; congruence); cbn [written_number] in Hw.
    all: destruct (digits_value 0 r) as [m|] eqn:Hr; [by exists r, m; auto|]; by destruct r. }
  destruct Hs as (r & m & Hr%(digits_free c) & [->|[->| ->]]); [done| | |done]; cbn [str_in]; rewrite Hr, orb_false_r;
    by apply Ascii.eqb_neq.
Qed.
