(* ===== verification/Routing.v ===== *)
(** The model router (pkg/routing: model.go, router.go): the registry of
    models, the four selection strategies and the choice of a fallback.

    A registry holds pointers to models nobody changes; here it holds the
    models.  Costs are float64 ([GoFloatOps]); [sort.Slice] is any function
    with the contract of [GoFloatOps.SliceSort]. *)

From Stdlib Require Import Sorting.Sorted.
From S2P Require Import Prelude GoFloat GoFloatOps.

(** ** The data (model.go) *)

(** [ModelTier]: 1 is the best, 4 the cheapest. *)
Definition TierReasoning : Z := 1.
Definition TierFlagship : Z := 2.
Definition TierBalanced : Z := 3.
Definition TierEconomy : Z := 4.

Definition tier_String (t : Z) : string :=
  if t =? TierReasoning then "t1-reasoning" else if t =? TierFlagship then "t2-flagship"
  else if t =? TierBalanced then "t3-balanced" else if t =? TierEconomy then "t4-economy" else "unknown".

Definition ParseModelTier (s : string) : result string Z :=
  if String.eqb s "t1-reasoning" || String.eqb s "reasoning" then Ok TierReasoning
  else if String.eqb s "t2-flagship" || String.eqb s "flagship" then Ok TierFlagship
  else if String.eqb s "t3-balanced" || String.eqb s "balanced" then Ok TierBalanced
  else if String.eqb s "t4-economy" || String.eqb s "economy" then Ok TierEconomy
  else Err ("unknown tier: " +:+ s).

Definition ComplexitySimple : Z := 0.
Definition ComplexityMedium : Z := 1.
Definition ComplexityHigh : Z := 2.

Definition complexity_String (c : Z) : string :=
  if c =? ComplexitySimple then "simple" else if c =? ComplexityMedium then "medium"
  else if c =? ComplexityHigh then "high" else "unknown".

Definition PriorityCost : Z := 0.
Definition PriorityBalanced : Z := 1.
Definition PriorityLatency : Z := 2.
Definition PriorityQuality : Z := 3.

Definition priority_String (p : Z) : string :=
  if p =? PriorityCost then "cost" else if p =? PriorityBalanced then "balanced"
  else if p =? PriorityLatency then "latency" else if p =? PriorityQuality then "quality" else "unknown".

Inductive FallbackReason :=
| FallbackReasonNone | FallbackReasonRateLimit | FallbackReasonServerError
| FallbackReasonTimeout | FallbackReasonQuality | FallbackReasonCost.

#[export] Instance fallback_reason_eq_dec : EqDecision FallbackReason.
Proof. solve_decision. Defined.

Definition reason_String (r : FallbackReason) : string :=
  match r with
  | FallbackReasonNone => "none" | FallbackReasonRateLimit => "rate_limit"
  | FallbackReasonServerError => "server_error" | FallbackReasonTimeout => "timeout"
  | FallbackReasonQuality => "quality" | FallbackReasonCost => "cost"
  end.

Record ModelInfo := mkModel {
  mi_Name : string; mi_Provider : string; mi_Tier : Z; mi_ContextLimit : Z;
  mi_CostPer1KInput : float; mi_CostPer1KOutput : float; mi_AvgLatencyMs : Z;
  mi_Capabilities : list string; mi_MaxRetries : Z }.

#[export] Instance model_eq_dec : EqDecision ModelInfo.
Proof. solve_decision. Defined.

Definition GetEstimatedCost (m : ModelInfo) : float :=
  float_add (float_mul (mi_CostPer1KInput m) (of_int 1)) (float_mul (mi_CostPer1KOutput m) (const "0.5")).

Definition HasCapability (m : ModelInfo) (cap : string) : bool := existsb (String.eqb cap) (mi_Capabilities m).

Record RoutingRequest := mkRequest {
  rq_Complexity : Z; rq_MaxCost : float; rq_MaxLatencyMs : Z; rq_RequiredCaps : list string;
  rq_PreferProvider : string; rq_Priority : Z; rq_RequestID : string }.

Record RoutingOutcome := mkOutcome {
  ro_Model : ModelInfo; ro_Success : bool; ro_Error : option string; ro_TokensUsed : Z; ro_LatencyMs : Z;
  ro_FallbackReason : FallbackReason; ro_Fallbacked : bool }.

(** ** The registry *)

Record ModelRegistry := mkRegistry {
  models : gmap string ModelInfo;
  byTier : gmap Z (list ModelInfo);
  byProvider : gmap string (list ModelInfo) }.

Definition NewModelRegistry : ModelRegistry := mkRegistry ∅ ∅ ∅.

Definition RegisterModel (m : ModelInfo) (r : ModelRegistry) : ModelRegistry :=
  mkRegistry (<[mi_Name m := m]> (models r))
    (<[mi_Tier m := get_default [] (byTier r) (mi_Tier m) ++ [m]]> (byTier r))
    (<[mi_Provider m := get_default [] (byProvider r) (mi_Provider m) ++ [m]]> (byProvider r)).

Definition GetModel (r : ModelRegistry) (name : string) : result string ModelInfo :=
  match models r !! name with Some m => Ok m | None => Err ("model not found: " +:+ name) end.

Definition GetModelsByTier (r : ModelRegistry) (tier : Z) : list ModelInfo := get_default [] (byTier r) tier.

(** The map is iterated in an order of its own. *)
Definition GetAllModels (r : ModelRegistry) : list ModelInfo := map snd (map_to_list (models r)).

Definition register_all (ms : list ModelInfo) : ModelRegistry :=
  foldl (fun r m => RegisterModel m r) NewModelRegistry ms.

Definition default_models : list ModelInfo :=
  let k := fun name provider tier ctx cin cout lat caps retries =>
             mkModel name provider tier ctx (const cin) (const cout) lat caps retries in
  [k "o1" "openai" TierReasoning 200000 "0.015" "0.075" 30000 ["reasoning"; "code"; "reasoning_native"] 2;
   k "o3-mini" "openai" TierReasoning 200000 "0.0011" "0.0044" 20000 ["reasoning"; "code"; "reasoning_native"] 2;
   k "gpt-4o" "openai" TierFlagship 128000 "0.0025" "0.01" 2000 ["vision"; "function_call"] 3;
   k "claude-4-opus" "anthropic" TierFlagship 200000 "0.015" "0.075" 3000 ["vision"; "function_call"] 3;
   k "gemini-2.5-pro" "google" TierFlagship 1000000 "0.00125" "0.005" 2500 ["vision"; "long_context"] 3;
   k "gpt-4o-mini" "openai" TierBalanced 128000 "0.00015" "0.0006" 800 ["vision"; "function_call"] 3;
   k "claude-3.5-sonnet" "anthropic" TierBalanced 200000 "0.003" "0.015" 1500 ["vision"; "function_call"] 3;
   k "gemini-1.5-flash" "google" TierBalanced 1000000 "0.000075" "0.0003" 500 ["vision"; "long_context"] 3;
   k "qwen-turbo" "qwen" TierEconomy 100000 "0.0002" "0.0006" 300 [] 3;
   k "gpt-3.5-turbo" "openai" TierEconomy 16385 "0.0005" "0.0015" 400 ["function_call"] 3;
   k "claude-3-haiku" "anthropic" TierEconomy 200000 "0.00025" "0.00125" 500 ["vision"] 3].

Definition DefaultModelRegistry : ModelRegistry := register_all default_models.

(** ** Requirements and strategies (router.go) *)

Definition meetsRequirements (m : ModelInfo) (req : RoutingRequest) : bool :=
  negb (float_lt (of_int 0) (rq_MaxCost req) && float_lt (rq_MaxCost req) (GetEstimatedCost m)) &&
  negb ((0 <? rq_MaxLatencyMs req) && (rq_MaxLatencyMs req <? mi_AvgLatencyMs m)) &&
  forallb (HasCapability m) (rq_RequiredCaps req) &&
  (String.eqb (rq_PreferProvider req) "" || String.eqb (mi_Provider m) (rq_PreferProvider req)).

(** The first of [ms] that meets the requirements, else the first one:
    [models[0]] of an empty slice panics, and no caller lets it be empty. *)
Definition first_meeting (ms : list ModelInfo) (req : RoutingRequest) : option ModelInfo :=
  match List.find (fun m => meetsRequirements m req) ms with Some m => Some m | None => head ms end.

Definition no_models {A} : result string A := Err "no models available".
Definition pick (m : option ModelInfo) : result string ModelInfo :=
  match m with Some m => Ok m | None => no_models end.

(** [for tier := targetTier - 1; tier >= TierEconomy; tier--]; each step lowers
    [tier], so [targetTier] iterations are enough. *)
Fixpoint lower_tiers (fuel : nat) (r : ModelRegistry) (tier : Z) (ms : list ModelInfo) : list ModelInfo :=
  match fuel with
  | O => ms
  | S f => if TierEconomy <=? tier then
             match GetModelsByTier r tier with
             | [] => lower_tiers f r (tier - 1) []
             | ms' => ms'
             end
           else ms
  end.

Definition tier_models (r : ModelRegistry) (targetTier : Z) : list ModelInfo :=
  match GetModelsByTier r targetTier with
  | [] => lower_tiers (Z.to_nat targetTier) r (targetTier - 1) []
  | ms => ms
  end.

Definition cost_getTargetTier (req : RoutingRequest) : Z :=
  if rq_Complexity req =? ComplexitySimple then TierEconomy
  else if rq_Complexity req =? ComplexityMedium then TierEconomy
  else if rq_Complexity req =? ComplexityHigh then TierBalanced
  else TierEconomy.

Definition balanced_getTargetTier (req : RoutingRequest) : Z :=
  if rq_Complexity req =? ComplexitySimple then
    if rq_Priority req =? PriorityCost then TierEconomy else TierBalanced
  else if rq_Complexity req =? ComplexityMedium then TierBalanced
  else if rq_Complexity req =? ComplexityHigh then
    if rq_Priority req =? PriorityCost then TierBalanced else TierFlagship
  else TierBalanced.

(** A higher score is better. *)
Definition score (m : ModelInfo) : float :=
  float_div (const "1.0")
    (float_add (float_mul (GetEstimatedCost m) (const "0.5")) (float_mul (of_int (mi_AvgLatencyMs m)) (const "0.0001"))).

Definition better (req : RoutingRequest) (best : option ModelInfo) (m : ModelInfo) : option ModelInfo :=
  if negb (meetsRequirements m req) then best
  else match best with
       | None => Some m
       | Some b => if float_lt (score b) (score m) then Some m else best
       end.

Definition selectBestCostPerformance (ms : list ModelInfo) (req : RoutingRequest) : option ModelInfo :=
  match foldl (better req) None ms with Some m => Some m | None => head ms end.

(** [RoutingStrategy]. *)
Record RoutingStrategy := mkStrategy {
  Name : string;
  Select : RoutingRequest -> result string ModelInfo }.

Section strategies.
Context (sort : forall A : Type, (A -> A -> bool) -> list A -> list A) (r : ModelRegistry).

Definition selectByTier (req : RoutingRequest) : result string ModelInfo :=
  match tier_models r (cost_getTargetTier req) with
  | [] => no_models
  | ms => pick (first_meeting (sort _ (fun a b => float_lt (GetEstimatedCost a) (GetEstimatedCost b)) ms) req)
  end.

Definition costStrategy : RoutingStrategy := mkStrategy "cost" selectByTier.

(** [all] is the order the map was iterated in. *)
Definition latency_Select (all : list ModelInfo) (req : RoutingRequest) : result string ModelInfo :=
  match all with
  | [] => no_models
  | _ =>
      let ms := sort _ (fun a b => mi_AvgLatencyMs a <? mi_AvgLatencyMs b) all in
      let target := if rq_MaxLatencyMs req <=? 0 then 10000 else rq_MaxLatencyMs req in
      match List.find (fun m => (mi_AvgLatencyMs m <=? target) && meetsRequirements m req) ms with
      | Some m => Ok m
      | None => pick (head ms)
      end
  end.

Definition latencyStrategy (all : list ModelInfo) : RoutingStrategy := mkStrategy "latency" (latency_Select all).

Definition quality_tier (req : RoutingRequest) : Z :=
  if rq_Complexity req =? ComplexitySimple then TierBalanced
  else if rq_Complexity req =? ComplexityMedium then TierFlagship else TierReasoning.

Definition quality_Select (req : RoutingRequest) : result string ModelInfo :=
  let tier := quality_tier req in
  let ms := match GetModelsByTier r tier with [] => GetModelsByTier r (tier - 1) | ms => ms end in
  pick (first_meeting ms req).

Definition qualityStrategy : RoutingStrategy := mkStrategy "quality" quality_Select.

Definition balanced_Select (req : RoutingRequest) : result string ModelInfo :=
  pick (selectBestCostPerformance (tier_models r (balanced_getTargetTier req)) req).

Definition balancedStrategy : RoutingStrategy := mkStrategy "balanced" balanced_Select.
End strategies.

(** ** The router *)

(** [Router]; [RecordOutcome] of the default router does nothing. *)
Record Router := mkRouter {
  SelectModel : option RoutingRequest -> result string ModelInfo;
  SelectFallback : option ModelInfo -> FallbackReason -> result string ModelInfo }.

Definition fallback_tier (tier : Z) (reason : FallbackReason) : Z :=
  match reason with
  | FallbackReasonRateLimit | FallbackReasonServerError | FallbackReasonTimeout =>
      if tier <? TierEconomy then tier + 1 else tier
  | FallbackReasonCost => if tier <? TierEconomy then tier + 1 else tier
  | FallbackReasonQuality => if TierReasoning <? tier then tier - 1 else tier
  | FallbackReasonNone => TierBalanced
  end.

Definition default_SelectFallback (r : ModelRegistry) (primary : option ModelInfo) (reason : FallbackReason)
    : result string ModelInfo :=
  match primary with
  | None => Err "primary model is nil"
  | Some p => match GetModelsByTier r (fallback_tier (mi_Tier p) reason) with
              | [] => Ok p
              | m :: _ => Ok m
              end
  end.

Definition default_SelectModel (s : RoutingStrategy) (req : option RoutingRequest) : result string ModelInfo :=
  match req with
  | None => Err "routing request is nil"
  | Some q => match Select s q with Ok m => Ok m | Err e => Err ("failed to select model: " +:+ e) end
  end.

(** Nil arguments are replaced: the default registry, the balanced strategy. *)
Definition NewRouter (registry : option ModelRegistry) (strategy : option RoutingStrategy) : Router :=
  let r := default DefaultModelRegistry registry in
  mkRouter (default_SelectModel (default (balancedStrategy r) strategy)) (default_SelectFallback r).

(** ** What the registry holds *)

(** Appending each element to the list of its key groups the elements. *)
Lemma grouped {K} `{Countable K} (key : ModelInfo -> K) (add : ModelInfo -> gmap K (list ModelInfo) -> gmap K (list ModelInfo))
    ms m0 k :
  (forall m g, add m g = <[key m := get_default [] g (key m) ++ [m]]> g) ->
  get_default [] (foldl (fun g m => add m g) m0 ms) k = get_default [] m0 k ++ filter (fun m => key m = k) ms.
Proof.
  intros Hadd. revert m0. induction ms as [|m ms IH]; intros m0; cbn [foldl]; [by rewrite app_nil_r|].
  rewrite IH, Hadd, filter_cons. unfold get_default. destruct (decide (key m = k)) as [->|Hne].
  - rewrite lookup_insert_eq. cbn. by rewrite <- app_assoc.
  - by rewrite lookup_insert_ne.
Qed.

Lemma foldl_proj {S T} (proj : S -> T) (f : S -> ModelInfo -> S) (g : T -> ModelInfo -> T) ms s :
  (forall s m, proj (f s m) = g (proj s) m) -> proj (foldl f s ms) = foldl g (proj s) ms.
Proof. intros H. revert s. induction ms as [|m ms IH]; intros s; cbn; [done|]. by rewrite IH, H. Qed.

Lemma registered_by_tier ms t : GetModelsByTier (register_all ms) t = filter (fun m => mi_Tier m = t) ms.
Proof.
  unfold GetModelsByTier, register_all.
  rewrite (foldl_proj byTier _ (fun g m => <[mi_Tier m := get_default [] g (mi_Tier m) ++ [m]]> g)) by done.
  by rewrite (grouped mi_Tier (fun m g => <[mi_Tier m := get_default [] g (mi_Tier m) ++ [m]]> g)).
Qed.

Lemma registered_by_provider ms p :
  get_default [] (byProvider (register_all ms)) p = filter (fun m => mi_Provider m = p) ms.
Proof.
  unfold register_all.
  rewrite (foldl_proj byProvider _ (fun g m => <[mi_Provider m := get_default [] g (mi_Provider m) ++ [m]]> g)) by done.
  by rewrite (grouped mi_Provider (fun m g => <[mi_Provider m := get_default [] g (mi_Provider m) ++ [m]]> g)).
Qed.

(** Of the models registered under a name the last one is found. *)
Lemma registered_by_name ms name :
  models (register_all ms) !! name = last (filter (fun m => mi_Name m = name) ms).
Proof.
  induction ms as [|m ms IH] using rev_ind; [done|].
  unfold register_all in *. rewrite foldl_app, filter_app. cbn [foldl RegisterModel models].
  destruct (decide (mi_Name m = name)) as [Hn|Hn].
  - rewrite filter_cons_True, filter_nil, last_snoc by done. rewrite <- Hn. apply lookup_insert_eq.
  - rewrite filter_cons_False, filter_nil, app_nil_r, lookup_insert_ne by done. exact IH.
Qed.

Lemma all_models_named r m : m ∈ GetAllModels r <-> exists name, models r !! name = Some m.
Proof.
  unfold GetAllModels. rewrite list_elem_of_fmap. split.
  - intros ([name m'] & -> & Hin). exists name. by apply elem_of_map_to_list in Hin.
  - intros [name Hm]. exists (name, m). split; [done|]. by apply elem_of_map_to_list.
Qed.

(** A model registered again under another tier keeps its old entry. *)
Theorem stale_tier_entry :
  exists old new, mi_Name old = mi_Name new /\ mi_Tier new = TierEconomy /\
    GetModel (register_all [old; new]) (mi_Name old) = Ok new /\
    GetModelsByTier (register_all [old; new]) TierFlagship = [old].
Proof.
  set (m := mkModel "m" "p" TierFlagship 0 (const "1") (const "1") 100 [] 1).
  exists m, (mkModel "m" "p" TierEconomy 0 (const "1") (const "1") 100 [] 1). split_and!; reflexivity.
Qed.

(** ** What a strategy selects *)

(** [m] was selected from [ms]: it meets the requirements when a model does,
    and then none of those is better by [less]. *)
Definition selected_from (ms : list ModelInfo) (ok : ModelInfo -> bool) (less : ModelInfo -> ModelInfo -> bool)
    (m : ModelInfo) : Prop :=
  m ∈ ms /\ forall y, y ∈ ms -> ok y = true -> ok m = true /\ less y m = false.

Lemma find_some_of {A} (p : A -> bool) l y : y ∈ l -> p y = true -> exists x, List.find p l = Some x.
Proof.
  induction 1 as [a l|a b l _ IH]; intros Hp; cbn; [rewrite Hp; eauto|]. case_match; eauto.
Qed.

Lemma find_true {A} (p : A -> bool) l x : List.find p l = Some x -> x ∈ l /\ p x = true.
Proof. intros H. apply List.find_some in H as [Hin Hp]. by rewrite list_elem_of_In. Qed.

Lemma head_elem {A} (l : list A) x : head l = Some x -> x ∈ l.
Proof. destruct l; [done|]. intros [= <-]. constructor. Qed.

(** The first qualifying model of a sorted slice, or its first model. *)
Lemma sorted_selection sort `{!SliceSort sort} (less : ModelInfo -> ModelInfo -> bool) ok ms m :
  weak_order less ms -> (forall a, less a a = false) ->
  match List.find ok (sort _ less ms) with Some x => Some x | None => head (sort _ less ms) end = Some m ->
  selected_from ms ok less m.
Proof.
  intros Hw Hirr Hm. pose proof (sort_perm _ less ms) as Hp. pose proof (sort_ascending _ less ms Hw) as Hs.
  destruct (List.find ok (sort _ less ms)) as [x|] eqn:Hf.
  - injection Hm as <-. eapply ascending_find_least in Hf as (Hin & Hok & Hle); [|done|done].
    split; [by rewrite Hp in Hin|]. intros y Hy Hoky. split; [done|]. apply Hle; [by rewrite Hp|done].
  - split; [apply head_elem in Hm; by rewrite Hp in Hm|]. intros y Hy Hok.
    rewrite <- Hp in Hy. destruct (find_some_of ok _ y Hy Hok). congruence.
Qed.

Lemma lower_tiers_stop fuel r tier ms : tier < TierEconomy -> lower_tiers fuel r tier ms = ms.
Proof. destruct fuel; [done|]. intros H. cbn. by rewrite (proj2 (Z.leb_gt _ _)). Qed.

(** The loop over the other tiers counts down from a tier that is already
    below its bound. *)
Lemma tier_models_own r t : t <= TierEconomy -> tier_models r t = GetModelsByTier r t.
Proof. intros H. unfold tier_models. case_match; [|done]. apply lower_tiers_stop. unfold TierEconomy in *. lia. Qed.

Lemma target_tiers req : cost_getTargetTier req <= TierEconomy /\ balanced_getTargetTier req <= TierEconomy.
Proof. unfold cost_getTargetTier, balanced_getTargetTier. repeat case_match; split; by vm_compute. Qed.

Lemma pick_ok m x : pick m = Ok x <-> m = Some x.
Proof. destruct m; cbn; unfold no_models; split; congruence. Qed.

Lemma cost_selection sort `{!SliceSort sort} r req m :
  let ms := GetModelsByTier r (cost_getTargetTier req) in
  Forall (fun a => is_nan (GetEstimatedCost a) = false) ms ->
  selectByTier sort r req = Ok m ->
  selected_from ms (fun a => meetsRequirements a req) (fun a b => float_lt (GetEstimatedCost a) (GetEstimatedCost b)) m.
Proof.
  intros ms Hn. unfold selectByTier. rewrite tier_models_own by apply target_tiers. fold ms.
  destruct ms as [|a ms'] eqn:Hms; [done|]. rewrite <- Hms in *. intros Hs%pick_ok.
  eapply sorted_selection; [exact _|by apply float_key_weak_order|intros; apply float_lt_irrefl|exact Hs].
Qed.

Lemma latency_selection sort `{!SliceSort sort} all req m :
  latency_Select sort all req = Ok m ->
  selected_from all
    (fun a => (mi_AvgLatencyMs a <=? (if rq_MaxLatencyMs req <=? 0 then 10000 else rq_MaxLatencyMs req)) &&
              meetsRequirements a req)
    (fun a b => mi_AvgLatencyMs a <? mi_AvgLatencyMs b) m.
Proof.
  unfold latency_Select. intros Hs.
  apply (sorted_selection sort); [apply int_key_weak_order|intros; apply Z.ltb_irrefl|].
  destruct all; [done|]. case_match; [congruence|]. by apply pick_ok in Hs.
Qed.

(** The fold keeps the first of the best. *)
Lemma better_fold req ms best m :
  foldl (better req) best ms = Some m ->
  (forall b, best = Some b -> meetsRequirements b req = true) ->
  Forall (fun a => is_nan (score a) = false) ms -> (forall b, best = Some b -> is_nan (score b) = false) ->
  meetsRequirements m req = true /\ (best = Some m \/ m ∈ ms) /\
  (forall y, best = Some y \/ (y ∈ ms /\ meetsRequirements y req = true) -> float_lt (score m) (score y) = false).
Proof.
  revert best. induction ms as [|a ms IH]; intros best; cbn [foldl].
  { intros -> Hb _ _. split_and!; [by apply Hb|by left|]. intros y [[= ->]|[Hy _]]; [apply float_lt_irrefl|by apply not_elem_of_nil in Hy]. }
  intros Hf Hb [Ha Hms]%Forall_cons Hbn. unfold better in Hf. destruct (meetsRequirements a req) eqn:Hma; cbn in Hf.
  - destruct best as [b|].
    + destruct (float_lt (score b) (score a)) eqn:Hlt.
      * apply IH in Hf as (? & Hin & Hle); [|by intros ? [= <-]|done|by intros ? [= <-]]. split_and!; [done| |].
        -- right. apply elem_of_cons. destruct Hin as [[= ->]|Hin]; [by left|by right].
        -- pose proof (Hle a (or_introl eq_refl)) as Hma'.
           intros y [[= <-]|[[->|Hy]%elem_of_cons ?]]; [|done|by apply Hle; right].
           destruct (float_lt (score m) (score b)) eqn:Hmb; [|done].
           destruct (is_nan (score m)) eqn:Hnm; [by destruct (score m)|].
           rewrite <- Hmb. apply (float_lt_negtrans _ (score a)); [done..|by apply Hbn|done|by apply float_lt_asym].
      * apply IH in Hf as (? & Hin & Hle); [|done..]. split_and!; [done| |].
        -- destruct Hin as [->|Hin]; [by left|]. right. apply elem_of_cons. by right.
        -- intros y [[= <-]|[[->|Hy]%elem_of_cons ?]]; [by apply Hle; left| |by apply Hle; right].
           destruct (is_nan (score m)) eqn:Hnm; [by destruct (score m)|].
           apply (float_lt_negtrans _ (score b)); [done|by apply Hbn|done|apply Hle; by left|done].
    + apply IH in Hf as (? & Hin & Hle); [|by intros ? [= <-]|done|by intros ? [= <-]]. split_and!; [done| |].
      * right. apply elem_of_cons. destruct Hin as [[= ->]|Hin]; [by left|by right].
      * intros y [|[[->|Hy]%elem_of_cons ?]]; [done|by apply Hle; left|by apply Hle; right].
  - apply IH in Hf as (? & Hin & Hle); [|done..]. split_and!; [done| |].
    { destruct Hin as [->|Hin]; [by left|]. right. apply elem_of_cons. by right. }
    intros y [->|[[->|Hy]%elem_of_cons ?]]; [by apply Hle; left|congruence|by apply Hle; right].
Qed.

Lemma better_found req ms best y :
  y ∈ ms -> meetsRequirements y req = true -> is_Some (foldl (better req) best ms).
Proof.
  assert (Hs : forall ms b, is_Some (foldl (better req) (Some b) ms)).
  { clear. induction ms as [|a ms IH]; intros b; cbn [foldl]; [by eexists|].
    destruct (better req (Some b) a) as [x|] eqn:Hb; [apply IH|]. unfold better in Hb. by repeat case_match. }
  intros Hy Hm. revert best. induction Hy as [y l|y a l _ IH]; intros best; cbn [foldl].
  - destruct (better req best y) as [x|] eqn:Hb; [apply Hs|]. unfold better in Hb. rewrite Hm in Hb. by repeat case_match.
  - by apply IH.
Qed.

Lemma balanced_selection r req m :
  let ms := GetModelsByTier r (balanced_getTargetTier req) in
  Forall (fun a => is_nan (score a) = false) ms -> balanced_Select r req = Ok m ->
  selected_from ms (fun a => meetsRequirements a req) (fun a b => float_lt (score b) (score a)) m.
Proof.
  intros ms Hn. unfold balanced_Select. rewrite tier_models_own by apply target_tiers. fold ms. intros Hs%pick_ok.
  unfold selectBestCostPerformance in Hs. destruct (foldl (better req) None ms) as [x|] eqn:Hf.
  - injection Hs as ->. destruct (better_fold req ms None m Hf ltac:(done) Hn ltac:(done)) as (Hm & [?|Hin] & Hle); [done|].
    split; [done|]. intros y Hy Hmy. split; [done|]. by apply Hle; right.
  - split; [by apply head_elem|]. intros y Hy Hmy. destruct (better_found req ms None y Hy Hmy). congruence.
Qed.

Lemma quality_selection r req m ms :
  ms = GetModelsByTier r (quality_tier req) -> ms <> [] -> quality_Select r req = Ok m ->
  selected_from ms (fun a => meetsRequirements a req) (fun _ _ => false) m.
Proof.
  intros -> Hne. unfold quality_Select. intros Hs%pick_ok.
  replace (match GetModelsByTier r (quality_tier req) with
           | [] => GetModelsByTier r (quality_tier req - 1) | ms => ms end)
    with (GetModelsByTier r (quality_tier req)) in Hs by (by destruct (GetModelsByTier r (quality_tier req))).
  unfold first_meeting in Hs. destruct (List.find _ _) as [x|] eqn:Hf.
  - injection Hs as <-. apply find_true in Hf as [? ?]. split; [done|]. intros; done.
  - split; [by apply head_elem|]. intros y Hy Hm. destruct (find_some_of (fun a => meetsRequirements a req) _ y Hy Hm). congruence.
Qed.

Definition priced (m : ModelInfo) : Prop := is_nan (GetEstimatedCost m) = false /\ is_nan (score m) = false.

Lemma priced_tier (P : ModelInfo -> Prop) ms t :
  Forall priced ms -> (forall m, priced m -> P m) -> Forall P (GetModelsByTier (register_all ms) t).
Proof.
  intros Hp Himp. rewrite registered_by_tier. apply Forall_forall. intros m [_ Hm]%list_elem_of_filter.
  apply Himp. rewrite Forall_forall in Hp. by apply Hp.
Qed.

(** Each strategy selects from the models it considers - the registered
    models of the tier it aims at, or all of them for the latency strategy -
    one that meets every requirement whenever such a model is among them, and
    then a best one: the cheapest, the fastest within the target latency, the
    one with the highest score.  This holds for every order the map is
    iterated in and every [sort.Slice] that keeps its contract. *)
Theorem strategies_select_best sort `{!SliceSort sort} ms all req m :
  Forall priced ms -> all ≡ₚ GetAllModels (register_all ms) ->
  let r := register_all ms in
  let meets := fun a => meetsRequirements a req in
  let of_tier := fun t => filter (fun a => mi_Tier a = t) ms in
  (Select (costStrategy sort r) req = Ok m ->
     selected_from (of_tier (cost_getTargetTier req)) meets
       (fun a b => float_lt (GetEstimatedCost a) (GetEstimatedCost b)) m) /\
  (Select (latencyStrategy sort all) req = Ok m ->
     selected_from (GetAllModels r)
       (fun a => (mi_AvgLatencyMs a <=? (if rq_MaxLatencyMs req <=? 0 then 10000 else rq_MaxLatencyMs req)) && meets a)
       (fun a b => mi_AvgLatencyMs a <? mi_AvgLatencyMs b) m) /\
  (Select (balancedStrategy r) req = Ok m ->
     selected_from (of_tier (balanced_getTargetTier req)) meets (fun a b => float_lt (score b) (score a)) m) /\
  (of_tier (quality_tier req) <> [] -> Select (qualityStrategy r) req = Ok m ->
     selected_from (of_tier (quality_tier req)) meets (fun _ _ => false) m).
Proof.
  intros Hp Hall r meets of_tier. subst r of_tier. cbn beta. rewrite <- !registered_by_tier. split_and!; cbn [Select].
  - apply cost_selection; [exact _|]. apply priced_tier; [done|]. by intros ? [? _].
  - intros [Hin Hbest]%latency_selection; [|exact _]. split; [by rewrite <- Hall|]. intros y. rewrite <- Hall. apply Hbest.
  - apply balanced_selection. apply priced_tier; [done|]. by intros ? [_ ?].
  - intros Hne. by apply quality_selection.
Qed.

Definition demand (complexity priority : Z) (caps : list string) : RoutingRequest :=
  mkRequest complexity (of_int 0) 0 caps "" priority "r".
Definition chosen_name (x : result string ModelInfo) : string := match x with Ok m => mi_Name m | Err e => e end.

Lemma default_models_priced : Forall priced default_models.
Proof. apply Forall_forall. intros m Hm. repeat (apply elem_of_cons in Hm as [->|Hm]; [by vm_compute|]). by apply not_elem_of_nil in Hm. Qed.

Definition wants_vision : RoutingRequest := demand ComplexitySimple PriorityCost ["vision"].
Definition haiku : ModelInfo :=
  mkModel "claude-3-haiku" "anthropic" TierEconomy 200000 (const "0.00025") (const "0.00125") 500 ["vision"] 3.

Lemma strategies_select_best_witness :
  selected_from (filter (fun a => mi_Tier a = cost_getTargetTier wants_vision) default_models)
    (fun a => meetsRequirements a wants_vision) (fun a b => float_lt (GetEstimatedCost a) (GetEstimatedCost b)) haiku.
Proof.
  assert (Hs : Select (costStrategy insertion_sort (register_all default_models)) wants_vision = Ok haiku)
    by (vm_compute; reflexivity).
  exact (proj1 (strategies_select_best insertion_sort default_models (GetAllModels (register_all default_models))
           wants_vision haiku default_models_priced (Permutation_refl _)) Hs).
Defined.

Example default_selections :
  map chosen_name
    [SelectModel (NewRouter None None) (Some (demand ComplexitySimple PriorityCost []));
     SelectModel (NewRouter None None) (Some (demand ComplexityHigh PriorityBalanced []));
     Select (costStrategy insertion_sort DefaultModelRegistry) (demand ComplexityHigh PriorityCost ["vision"]);
     Select (latencyStrategy insertion_sort (GetAllModels DefaultModelRegistry)) (demand 0 0 ["vision"; "function_call"]);
     Select (qualityStrategy DefaultModelRegistry) (demand ComplexityHigh PriorityQuality []);
     SelectModel (NewRouter None None) None] =
  ["qwen-turbo"; "gpt-4o"; "gemini-1.5-flash"; "gpt-4o-mini"; "o1"; "routing request is nil"].
Proof. vm_compute. reflexivity. Qed.

(** ** What the strategies get wrong *)

(** When no model of the target tier meets the requirements, the strategy
    returns one that lacks a required capability, and no error. *)
Theorem required_capability_is_ignored :
  exists m, Select (costStrategy insertion_sort DefaultModelRegistry) (demand ComplexityMedium PriorityCost ["reasoning"]) = Ok m /\
    HasCapability m "reasoning" = false /\
    existsb (fun a => HasCapability a "reasoning") (GetAllModels DefaultModelRegistry) = true.
Proof. eexists. split_and!; vm_compute; reflexivity. Qed.

(** A target tier without models is an error, whatever the registry holds: the
    loop over the other tiers never runs. *)
Theorem other_tiers_never_searched sort r req :
  (GetModelsByTier r (cost_getTargetTier req) = [] -> Select (costStrategy sort r) req = Err "no models available") /\
  (GetModelsByTier r (balanced_getTargetTier req) = [] -> Select (balancedStrategy r) req = Err "no models available").
Proof.
  pose proof (target_tiers req) as [Hc Hb]. cbn [Select costStrategy balancedStrategy]. split; intros He.
  - unfold selectByTier. by rewrite tier_models_own, He.
  - unfold balanced_Select. by rewrite tier_models_own, He.
Qed.

(** The quality strategy's fallback is one tier up, to dearer models. *)
Theorem quality_falls_back_upwards r req m :
  rq_Complexity req = ComplexitySimple -> GetModelsByTier r TierBalanced = [] ->
  Select (qualityStrategy r) req = Ok m -> m ∈ GetModelsByTier r TierFlagship.
Proof.
  intros Hc He. cbn [Select qualityStrategy]. unfold quality_Select, quality_tier. rewrite Hc, Z.eqb_refl, He.
  intros Hs%pick_ok. unfold first_meeting in Hs. destruct (List.find _ _) eqn:Hf; simplify_eq; [by apply find_true in Hf as [? _]|].
  by apply head_elem.
Qed.

(** ** The fallback *)

Lemma fallback_tier_steps tier reason :
  tier <= TierEconomy -> reason <> FallbackReasonNone -> reason <> FallbackReasonQuality ->
  fallback_tier tier reason = Z.min TierEconomy (tier + 1).
Proof. intros Ht Hn Hq. unfold fallback_tier. destruct reason; try done; case_match; bool_hyps; lia. Qed.

(** The fallback always exists: the first model of the tier, or the model
    itself. *)
Lemma default_fallback r p reason :
  exists m, default_SelectFallback r (Some p) reason = Ok m /\
    (m = p \/ m ∈ GetModelsByTier r (fallback_tier (mi_Tier p) reason)).
Proof.
  cbn. destruct (GetModelsByTier r _) as [|m l]; [by exists p; split; [|left]|]. exists m. split; [done|right; constructor].
Qed.
