(* ===== verification/Failover.v ===== *)
(** Failover between models (pkg/routing/failover.go): the retry loop with its
    switch of model and its back-off, the rate limit per provider and the
    context a request carries from model to model.

    The router is any [Routing.Router]; the call itself, its latency and the
    end of the caller's context while waiting are the environment's. *)

From Stdlib Require Import Sorting.Sorted.
From S2P Require Import Prelude GoTime Json GoFloat GoFloatOps Routing.

(** ** Why a call failed *)

Record FailoverConfig := mkFailover {
  fc_MaxRetries : Z; fc_RetryDelayMs : Z; fc_EnableHotSwitch : bool;
  fc_BackoffMultiplier : float; fc_MaxRetryDelayMs : Z }.

Definition DefaultFailoverConfig : FailoverConfig := mkFailover 2 1000 true (const "2.0") 10000.

Definition containsAny (s substr : string) : bool :=
  negb (String.eqb substr "") && str_contains s substr.

Definition determineFallbackReason (err : option string) : FallbackReason :=
  match err with
  | None => FallbackReasonNone
  | Some s =>
      if containsAny s "rate limit" || containsAny s "429" || containsAny s "too many requests"
      then FallbackReasonRateLimit
      else if containsAny s "500" || containsAny s "502" || containsAny s "503" || containsAny s "server error"
      then FallbackReasonServerError
      else if containsAny s "timeout" || containsAny s "deadline exceeded" then FallbackReasonTimeout
      else if containsAny s "quota" || containsAny s "exceeded" then FallbackReasonCost
      else FallbackReasonServerError
  end.

(** ** The back-off *)

Section backoff.
Context (overflow : float -> Z) (cfg : FailoverConfig).

Definition pow (base exp : float) : float :=
  Nat.iter (Z.to_nat (int_of overflow exp)) (fun r => float_mul r base) (const "1.0").

Definition delay_ms (attempt : Z) : float :=
  let delay := float_mul (of_int (fc_RetryDelayMs cfg)) (pow (fc_BackoffMultiplier cfg) (of_int (attempt - 1))) in
  if float_lt (of_int (fc_MaxRetryDelayMs cfg)) delay then of_int (fc_MaxRetryDelayMs cfg) else delay.

(** In nanoseconds. *)
Definition calculateRetryDelay (attempt : Z) : Z := wrap64 (int_of overflow (delay_ms attempt) * 1000000).
End backoff.

(** ** The loop *)

Section execute.
Context {A : Type}.

(** The environment of one execution: the answer and latency of the [i]-th
    call, and the error of the context when it ends during the wait after it. *)
Record Env := mkEnv {
  en_fn : Z -> ModelInfo -> result string A;
  en_latencyMs : Z -> Z;
  en_stop : Z -> option string;
  en_overflow : float -> Z }.

Inductive happening :=
| Called (m : ModelInfo) (r : result string A)
| Recorded (o : RoutingOutcome)
| Waited (ns : Z).

Definition failover_answer : Type := result string A * option ModelInfo.

Context (cfg : FailoverConfig) (router : Router) (env : Env).

Definition exhausted (attempts : Z) (model : ModelInfo) (lastErr : option string) (reason : FallbackReason) : failover_answer :=
  (Err ("max retries exceeded (" +:+ (itoa attempts +:+ ("), last error: " +:+
     (default "%!w(<nil>)" lastErr +:+ (", fallback reason: " +:+ reason_String reason))))), Some model).

(** The model and the reason after a failed call: unchanged when there is no
    reason to switch, switching is off or there is no fallback. *)
Definition next_model (model : ModelInfo) (err : string) (reason : FallbackReason) : ModelInfo * FallbackReason :=
  let why := determineFallbackReason (Some err) in
  if bool_decide (why = FallbackReasonNone) || negb (fc_EnableHotSwitch cfg) then (model, reason)
  else match SelectFallback router (Some model) why with
       | Err _ => (model, reason)
       | Ok m => (m, why)
       end.

(** [for attempts <= MaxRetries]; the fuel is the number of attempts left. *)
Fixpoint attempt_calls (fuel : nat) (attempts : Z) (model : ModelInfo) (lastErr : option string) (reason : FallbackReason)
    : list happening * failover_answer :=
  match fuel with
  | O => ([], exhausted attempts model lastErr reason)
  | S f =>
      let r := en_fn env attempts model in
      let err := match r with Ok _ => None | Err e => Some e end in
      let first := [Called model r;
                    Recorded (mkOutcome model (bool_decide (err = None)) err 0 (en_latencyMs env attempts)
                                FallbackReasonNone false)] in
      match r with
      | Ok v => (first, (Ok v, Some model))
      | Err e =>
          let attempts' := attempts + 1 in
          let '(model', reason') := next_model model e reason in
          if attempts' <=? fc_MaxRetries cfg then
            let wait := Waited (calculateRetryDelay (en_overflow env) cfg attempts') in
            match en_stop env attempts' with
            | Some e' => (first ++ [wait], (Err e', Some model'))
            | None => let '(rest, ans) := attempt_calls f attempts' model' (Some e) reason' in (first ++ wait :: rest, ans)
            end
          else let '(rest, ans) := attempt_calls f attempts' model' (Some e) reason' in (first ++ rest, ans)
      end
  end.

Definition ExecuteWithFailover (req : option RoutingRequest) : list happening * failover_answer :=
  match SelectModel router req with
  | Err e => ([], (Err ("failed to select model: " +:+ e), None))
  | Ok m => attempt_calls (Z.to_nat (fc_MaxRetries cfg + 1)) 0 m None FallbackReasonNone
  end.
End execute.
Arguments Env : clear implicits.
Arguments happening : clear implicits.
Arguments failover_answer : clear implicits.

(** ** The rate limit of a provider *)

Record RateLimitChecker := mkChecker { providerLast : gmap string Z; providerRate : gmap string Z }.

Definition NewRateLimitChecker : RateLimitChecker := mkChecker ∅ ∅.

Definition SetRateLimit (provider : string) (interval : Z) (c : RateLimitChecker) : RateLimitChecker :=
  mkChecker (providerLast c) (<[provider := interval]> (providerRate c)).

Definition checker_Reset (provider : string) (c : RateLimitChecker) : RateLimitChecker :=
  mkChecker (delete provider (providerLast c)) (providerRate c).

(** The part of [CheckAndWait] under the read lock: [None] when the provider
    has no limit, else how long to wait from [now] on. *)
Definition wait_needed (c : RateLimitChecker) (provider : string) (now : Z) : option Z :=
  match providerRate c !! provider with
  | None => None
  | Some interval =>
      match providerLast c !! provider with
      | Some lastTime => Some (if now - lastTime <? interval then interval - (now - lastTime) else 0)
      | None => Some 0
      end
  end.

(** The part under the write lock, at [now]. *)
Definition note_request (provider : string) (now : Z) (c : RateLimitChecker) : RateLimitChecker :=
  mkChecker (<[provider := now]> (providerLast c)) (providerRate c).

(** The whole call by one caller: it reads at [now], is back at [later], and
    [stop] is the error of a context that ends while it waits. *)
Definition CheckAndWait (provider : string) (now later : Z) (stop : option string) (c : RateLimitChecker)
    : RateLimitChecker * option string :=
  match wait_needed c provider now with
  | None => (c, None)
  | Some w =>
      match (if 0 <? w then stop else None) with
      | Some e => (c, Some e)
      | None => (note_request provider later c, None)
      end
  end.

(** ** The context of a request *)

Record MessageSnapshot := mkMessage { ms_Role : string; ms_Content : string; ms_Tokens : Z }.
Record SwitchEvent := mkSwitch {
  se_Timestamp : time; se_FromModel : string; se_ToModel : string; se_Reason : FallbackReason; se_TokensUsed : Z }.

Record EventSourcedContext := mkContext {
  ec_RequestID : string; ec_Messages : list MessageSnapshot; ec_TokensUsed : Z;
  ec_SwitchHistory : list SwitchEvent; ec_LastModel : string; ec_LastError : option string }.

Definition NewEventSourcedContext (requestID : string) : EventSourcedContext := mkContext requestID [] 0 [] "" None.

Definition AddMessage (role content : string) (tokens : Z) (c : EventSourcedContext) : EventSourcedContext :=
  mkContext (ec_RequestID c) (ec_Messages c ++ [mkMessage role content tokens]) (ec_TokensUsed c + tokens)
    (ec_SwitchHistory c) (ec_LastModel c) (ec_LastError c).

Definition RecordSwitch (now : time) (fromModel toModel : string) (reason : FallbackReason) (c : EventSourcedContext)
    : EventSourcedContext :=
  mkContext (ec_RequestID c) (ec_Messages c) (ec_TokensUsed c)
    (ec_SwitchHistory c ++ [mkSwitch now fromModel toModel reason (ec_TokensUsed c)]) toModel (ec_LastError c).

(** The getters copy the slices: the caller's changes do not reach the context. *)
Definition GetMessages (c : EventSourcedContext) : list MessageSnapshot := ec_Messages c.
Definition GetSwitchHistory (c : EventSourcedContext) : list SwitchEvent := ec_SwitchHistory c.
Definition HasSwitched (c : EventSourcedContext) : bool := (0 <? length (ec_SwitchHistory c))%nat.
Definition GetTotalTokens (c : EventSourcedContext) : Z := ec_TokensUsed c.

(** ** What the loop does *)

Section loop.
Context {A : Type} (cfg : FailoverConfig) (router : Router) (env : Env A).

Definition calls_in (tr : list (happening A)) : list (ModelInfo * result string A) :=
  omap (fun h => match h with Called m r => Some (m, r) | _ => None end) tr.
Definition waits_in (tr : list (happening A)) : list Z :=
  omap (fun h => match h with Waited d => Some d | _ => None end) tr.

(** The calls, first model given: after a failed call the next one goes to the
    same model or to the router's fallback for it. *)
Fixpoint linked (model : ModelInfo) (calls : list (ModelInfo * result string A)) : Prop :=
  match calls with
  | [] => True
  | (m, r) :: rest =>
      m = model /\
      match r with
      | Ok _ => rest = []
      | Err e => forall reason, linked (fst (next_model cfg router m e reason)) rest
      end
  end.

Lemma next_model_reason m e reason reason' :
  fst (next_model cfg router m e reason) = fst (next_model cfg router m e reason').
Proof. unfold next_model. repeat case_match; done. Qed.

(** How a run of [n] attempts ends: with the result of the last call and its
    model, or with an error after [n] failed calls or during a wait. *)
Definition ends_well (n : Z) (calls : list (ModelInfo * result string A)) (stopped : Prop) (ans : failover_answer A) : Prop :=
  match fst ans with
  | Ok v => exists m before, calls = before ++ [(m, Ok v)] /\ snd ans = Some m /\
              Forall (fun c => is_ok (snd c) = false) before
  | Err _ => Forall (fun c => is_ok (snd c) = false) calls /\ (Z.of_nat (length calls) = n \/ stopped)
  end.

Lemma ends_well_cons n m e calls stopped ans :
  ends_well n calls stopped ans -> ends_well (n + 1) ((m, Err e) :: calls) stopped ans.
Proof.
  unfold ends_well. destruct (fst ans).
  - intros (m' & before & -> & ? & ?). exists m', ((m, Err e) :: before). split_and!; [done..|by constructor].
  - intros [Hf Hn]. split; [by constructor|]. destruct Hn; [left|by right]. cbn [length]. lia.
Qed.

Definition stopped_by (lo : Z) : Prop := exists i, lo < i <= fc_MaxRetries cfg /\ is_Some (en_stop env i).

Lemma ends_well_stopped n calls lo lo' ans :
  lo <= lo' -> ends_well n calls (stopped_by lo') ans -> ends_well n calls (stopped_by lo) ans.
Proof.
  unfold ends_well, stopped_by. destruct (fst ans); [done|]. intros Hl [? [?|(i & ? & ?)]]; split; [done|by left|done|].
  right. exists i. split; [lia|done].
Qed.

Lemma attempt_calls_spec fuel attempts model lastErr reason :
  0 <= attempts -> Z.of_nat fuel = Z.max 0 (fc_MaxRetries cfg + 1 - attempts) ->
  let '(tr, ans) := attempt_calls cfg router env fuel attempts model lastErr reason in
  linked model (calls_in tr) /\ Z.of_nat (length (calls_in tr)) <= Z.of_nat fuel /\
  ends_well (Z.of_nat fuel) (calls_in tr) (stopped_by attempts) ans.
Proof.
  revert attempts model lastErr reason. induction fuel as [|f IH]; intros attempts model lastErr reason Ha Hf; cbn [attempt_calls].
  { split_and!; [done..|]. split; [constructor|by left]. }
  destruct (en_fn env attempts model) as [v|e].
  { split_and!; [done|cbn; lia|]. by exists model, []. }
  destruct (next_model cfg router model e reason) as [model' reason'] eqn:Hn.
  specialize (IH (attempts + 1) model' (Some e) reason' ltac:(lia) ltac:(lia)).
  assert (Hlink : forall r0, fst (next_model cfg router model e r0) = model')
    by (intros r0; by rewrite (next_model_reason model e r0 reason), Hn).
  destruct (attempt_calls cfg router env f _ model' _ _) as [rest ans] eqn:Hc. destruct IH as (Hl & Hlen & He).
  assert (Hgo : linked model ((model, Err e) :: calls_in rest) /\
    Z.of_nat (length ((model, Err e) :: calls_in rest)) <= Z.of_nat (S f) /\
    ends_well (Z.of_nat (S f)) ((model, Err e) :: calls_in rest) (stopped_by attempts) ans).
  { split_and!; [split; [done|intros r0; by rewrite Hlink]|cbn [length]; lia|].
    replace (Z.of_nat (S f)) with (Z.of_nat f + 1) by lia. apply ends_well_cons.
    eapply ends_well_stopped, He. lia. }
  destruct (attempts + 1 <=? fc_MaxRetries cfg) eqn:Hle; [|exact Hgo].
  destruct (en_stop env (attempts + 1)) as [e'|] eqn:Hs; [|exact Hgo].
  apply Z.leb_le in Hle. split; [by split; [|intros ?]|]. split; [cbn; lia|]. split; [by repeat constructor|].
  right. exists (attempts + 1). split; [lia|by rewrite Hs].
Qed.
End loop.

(** A request is called at most [MaxRetries + 1] times.  The first call
    goes to the selected model and each further one to the model before or to
    the router's fallback for its failure; a result is that of the last call
    and comes with the model that gave it; an error means that every call
    failed, and that all attempts were used unless the caller's context ended
    during a wait. *)
Theorem failover_serves_or_exhausts {A} cfg router (env : Env A) req m0 :
  SelectModel router req = Ok m0 -> 0 <= fc_MaxRetries cfg ->
  let '(tr, ans) := ExecuteWithFailover cfg router env req in
  linked cfg router m0 (calls_in tr) /\ Z.of_nat (length (calls_in tr)) <= fc_MaxRetries cfg + 1 /\
  ends_well (fc_MaxRetries cfg + 1) (calls_in tr) (stopped_by cfg env 0) ans.
Proof.
  intros Hs Hm. unfold ExecuteWithFailover. rewrite Hs.
  pose proof (attempt_calls_spec cfg router env (Z.to_nat (fc_MaxRetries cfg + 1)) 0 m0 None FallbackReasonNone
    ltac:(lia) ltac:(lia)) as H.
  rewrite Z2Nat.id in H by lia. exact H.
Qed.

(** Transport errors: every call is slow to answer, then refused. *)
Definition failing (errs : list string) : Env string :=
  mkEnv (fun i m => match errs !! Z.to_nat i with Some e => Err e | None => Ok (mi_Name m) end)
    (fun _ => 100) (fun _ => None) (fun _ => 0).

Definition served {A} (x : list (happening A) * failover_answer A) : list string * list Z * result string A * option string :=
  (map (fun c => mi_Name (fst c)) (calls_in (fst x)), waits_in (fst x), fst (snd x), mi_Name <$> snd (snd x)).

Definition default_router : Router := NewRouter None None.
Definition hard : option RoutingRequest := Some (demand ComplexityHigh PriorityBalanced []).

Example failover_descends :
  served (ExecuteWithFailover DefaultFailoverConfig default_router (failing ["429"; "gateway timeout"]) hard) =
  (["gpt-4o"; "gpt-4o-mini"; "qwen-turbo"], [1000000000; 2000000000], Ok "qwen-turbo", Some "qwen-turbo").
Proof. vm_compute. reflexivity. Qed.

Definition gpt_4o : ModelInfo :=
  mkModel "gpt-4o" "openai" TierFlagship 128000 (const "0.0025") (const "0.01") 2000 ["vision"; "function_call"] 3.

Lemma failover_serves_or_exhausts_witness :
  let '(tr, ans) := ExecuteWithFailover DefaultFailoverConfig default_router (failing ["429"; "gateway timeout"]) hard in
  linked DefaultFailoverConfig default_router gpt_4o (calls_in tr) /\
  Z.of_nat (length (calls_in tr)) <= fc_MaxRetries DefaultFailoverConfig + 1 /\
  ends_well (fc_MaxRetries DefaultFailoverConfig + 1) (calls_in tr)
    (stopped_by DefaultFailoverConfig (failing ["429"; "gateway timeout"]) 0) ans.
Proof.
  assert (Hs : SelectModel default_router hard = Ok gpt_4o) by (vm_compute; reflexivity).
  exact (failover_serves_or_exhausts DefaultFailoverConfig default_router (failing ["429"; "gateway timeout"]) hard gpt_4o
    Hs ltac:(discriminate)).
Defined.

(** ** Which way it switches *)

Lemma failure_reasons e : determineFallbackReason (Some e) <> FallbackReasonNone /\
  determineFallbackReason (Some e) <> FallbackReasonQuality.
Proof. unfold determineFallbackReason. repeat case_match; done. Qed.

(** Between two calls the default router stays on the model or goes to the
    next cheaper tier; it never goes back up. *)
Lemma failover_goes_down cfg ms s m e reason :
  mi_Tier m <= TierEconomy ->
  let m' := fst (next_model cfg (NewRouter (Some (register_all ms)) s) m e reason) in
  m' = m \/ m' ∈ ms /\ mi_Tier m' = Z.min TierEconomy (mi_Tier m + 1).
Proof.
  intros Ht. unfold next_model. destruct (_ || _); [by left|].
  change (SelectFallback (NewRouter (Some (register_all ms)) s)) with (default_SelectFallback (register_all ms)).
  destruct (default_fallback (register_all ms) m (determineFallbackReason (Some e))) as (m' & -> & [->|Hin]); [by left|].
  right. destruct (failure_reasons e). rewrite fallback_tier_steps, registered_by_tier in Hin by done.
  by apply list_elem_of_filter in Hin as [? ?].
Qed.

(** Without switching every call goes to the selected model. *)
Lemma no_switch_no_fallback {A} cfg router m calls :
  fc_EnableHotSwitch cfg = false -> linked (A := A) cfg router m calls -> Forall (fun c => fst c = m) calls.
Proof.
  intros Hs. revert m. induction calls as [|[m' [v|e]] calls IH]; intros m; [by constructor| |].
  - intros [-> ->]. by repeat constructor.
  - intros [-> Hl]. constructor; [done|]. apply IH. specialize (Hl FallbackReasonNone).
    unfold next_model in Hl. by rewrite Hs, orb_true_r in Hl.
Qed.

(** ** What goes wrong *)

(** After the last failure the loop still switches: the model it reports
    with the error is one it never called. *)
Theorem failed_model_is_not_reported :
  let once := mkFailover 0 1000 true (const "2.0") 10000 in
  served (ExecuteWithFailover once default_router (failing ["503"]) hard) =
  (["gpt-4o"], [], Err "max retries exceeded (1), last error: 503, fallback reason: server_error", Some "gpt-4o-mini").
Proof. vm_compute. reflexivity. Qed.

(** The first model of the cheapest tier is its own fallback: it is called
    again and again although the tier has other models. *)
Theorem rate_limited_model_is_kept :
  served (ExecuteWithFailover DefaultFailoverConfig default_router (failing ["429"; "429"; "429"])
            (Some (demand ComplexitySimple PriorityCost []))) =
  (["qwen-turbo"; "qwen-turbo"; "qwen-turbo"], [1000000000; 2000000000],
   Err "max retries exceeded (3), last error: 429, fallback reason: rate_limit", Some "qwen-turbo").
Proof. vm_compute. reflexivity. Qed.

(** ** The delay *)

(** Finite products and constants are well-formed doubles. *)
Definition wf_float (x : float) : Prop :=
  match x with Fin f => 0 <= fl_mant f /\ min_exp <= fl_exp f | _ => True end.

Lemma round_div_nonneg a b : 0 <= a -> 0 < b -> 0 <= round_div a b.
Proof.
  intros Ha Hb. unfold round_div. assert (0 <= a / b) by (apply Z.div_pos; lia). cbv zeta. case_match; lia.
Qed.

Lemma scale2_pos a b n : 0 <= a -> 0 < b -> 0 <= fst (scale2 a b n) /\ 0 < snd (scale2 a b n).
Proof.
  intros Ha Hb. unfold scale2. destruct (0 <=? n) eqn:Hn; cbn; bool_hyps.
  - split; [apply Z.mul_nonneg_nonneg; [done|apply Z.pow_nonneg; lia]|done].
  - split; [done|]. apply Z.mul_pos_pos; [done|]. apply Z.pow_pos_nonneg; lia.
Qed.

Lemma nearest_wf a b m e : 0 <= a -> 0 < b -> nearest a b = Some (m, e) -> 0 <= m /\ min_exp <= e.
Proof.
  intros Ha Hb. unfold nearest. destruct (scale2 a b (- (Z.log2 a - Z.log2 b))) as [c d]. cbv zeta.
  set (k := if c <? d then _ else _). set (e0 := Z.max (k - 52) min_exp).
  pose proof (scale2_pos a b (- e0) Ha Hb) as Hs. destruct (scale2 a b (- e0)) as [c' d']. cbn in Hs.
  pose proof (round_div_nonneg c' d' ltac:(lia) ltac:(lia)).
  destruct (round_div c' d' =? 2 * full_mant); (destruct (max_exp <? _); [done|]); intros Hme; injection Hme as <- <-;
    unfold full_mant; lia.
Qed.

Lemma of_ratio_wf neg a b : 0 <= a -> 0 < b -> wf_float (of_ratio neg a b).
Proof.
  intros Ha Hb. unfold of_ratio. case_match; [done|]. destruct (nearest a b) as [[m e]|] eqn:Hn; [|done]. by eapply nearest_wf.
Qed.

Lemma float_mul_wf x y : wf_float x -> wf_float y -> wf_float (float_mul x y).
Proof.
  destruct x as [f|n|], y as [g|n'|]; cbn; try done; [|intros; by case_match..].
  intros [Hf _] [Hg _].
  pose proof (scale2_pos (fl_mant f * fl_mant g) 1 (fl_exp f + fl_exp g) ltac:(lia) ltac:(lia)) as [? ?].
  destruct (scale2 _ _ _) as [a b]. cbn in *. by apply of_ratio_wf.
Qed.

Lemma of_int_wf z : wf_float (of_int z).
Proof.
  unfold of_int, float_of_int. destruct (z =? 0) eqn:Hz; [done|]. bool_hyps.
  destruct (nearest (Z.abs z) 1) as [[m e]|] eqn:Hn; [|done]. eapply nearest_wf in Hn; [done|lia..].
Qed.

Lemma pow_wf overflow base exp : wf_float base -> wf_float (pow overflow base exp).
Proof.
  intros Hb. unfold pow. induction (Z.to_nat _) as [|n IH]; [done|]. cbn [Nat.iter nat_rect]. by apply float_mul_wf.
Qed.

(** A 53-bit integer is its own nearest double. *)
Lemma nearest_int a : 0 < a < 2 ^ 53 ->
  exists m e, nearest a 1 = Some (m, e) /\ e <= 0 /\ min_exp <= e /\ 0 <= m /\ m = a * 2 ^ (- e).
Proof.
  intros Ha. pose proof (Z.log2_spec a ltac:(lia)) as Hlog. pose proof (Z.log2_nonneg a) as Hl0.
  assert (Hl : Z.log2 a <= 52) by (apply Z.lt_succ_r, Z.log2_lt_pow2; lia).
  set (k := Z.log2 a) in *. unfold nearest. change (Z.log2 1) with 0. rewrite Z.sub_0_r. fold k.
  assert (Hs : exists c d, scale2 a 1 (- k) = (c, d) /\ d <= c).
  { unfold scale2. destruct (0 <=? - k) eqn:Hk; bool_hyps.
    - replace (- k) with 0 by lia. exists (a * 2 ^ 0), 1. split; [done|]. cbn. lia.
    - exists a, (1 * 2 ^ (- - k)). split; [done|]. rewrite Z.opp_involutive. lia. }
  destruct Hs as (c & d & -> & Hdc). rewrite (proj2 (Z.ltb_ge c d)) by done. cbv zeta.
  replace (Z.max (k - 52) min_exp) with (k - 52) by (unfold min_exp; lia).
  assert (Hsc : scale2 a 1 (- (k - 52)) = (a * 2 ^ (52 - k), 1)).
  { unfold scale2. rewrite (proj2 (Z.leb_le _ _)) by lia. by replace (- (k - 52)) with (52 - k) by lia. }
  rewrite Hsc. assert (Hr : round_div (a * 2 ^ (52 - k)) 1 = a * 2 ^ (52 - k)).
  { unfold round_div. rewrite Z.div_1_r, Z.mod_1_r. done. }
  rewrite Hr.
  assert (Hup : a * 2 ^ (52 - k) < 2 * full_mant).
  { change (2 * full_mant) with (2 ^ 53). replace 53 with (Z.succ k + (52 - k)) by lia.
    rewrite Z.pow_add_r by lia. apply Z.mul_lt_mono_pos_r; [apply Z.pow_pos_nonneg; lia|lia]. }
  rewrite (proj2 (Z.eqb_neq _ _)) by lia. rewrite (proj2 (Z.ltb_ge max_exp (k - 52))) by (unfold max_exp; lia).
  exists (a * 2 ^ (52 - k)), (k - 52). split_and!; [done|lia|unfold min_exp; lia| |].
  - apply Z.mul_nonneg_nonneg; [lia|]. apply Z.pow_nonneg. lia.
  - do 2 f_equal. lia.
Qed.

Lemma scaled_of_int z : 0 <= z < 2 ^ 53 -> scaled (float_of_int z) = z * 2 ^ (- min_exp).
Proof.
  intros Hz. unfold float_of_int. destruct (z =? 0) eqn:H0; bool_hyps; [by subst|].
  rewrite Z.abs_eq by lia. destruct (nearest_int z ltac:(lia)) as (m & e & -> & He & Hmin & _ & ->).
  rewrite (proj2 (Z.ltb_ge z 0)) by lia. unfold scaled. cbn [fl_neg fl_mant fl_exp].
  rewrite Z.mul_1_l, <- Z.mul_assoc, <- Z.pow_add_r by lia. do 2 f_equal. lia.
Qed.

(** The wait before a retry is never negative and never longer than the
    configured maximum, however often the delay was multiplied. *)
Theorem retry_delay_bounded overflow cfg attempt :
  0 <= fc_MaxRetryDelayMs cfg <= 9000000000000 -> wf_float (fc_BackoffMultiplier cfg) ->
  is_nan (delay_ms overflow cfg attempt) = false -> float_lt (delay_ms overflow cfg attempt) (of_int 0) = false ->
  0 <= calculateRetryDelay overflow cfg attempt <= fc_MaxRetryDelayMs cfg * 1000000.
Proof.
  intros Hmax Hwf Hnan Hpos. unfold calculateRetryDelay. set (d := delay_ms overflow cfg attempt) in *.
  set (max := fc_MaxRetryDelayMs cfg) in *.
  assert (Hd : wf_float d).
  { subst d. unfold delay_ms. cbv zeta. case_match; [apply of_int_wf|]. apply float_mul_wf; [apply of_int_wf|by apply pow_wf]. }
  assert (Hle : float_lt (of_int max) d = false).
  { subst d. unfold delay_ms. cbv zeta. fold max. case_match; [apply float_lt_irrefl|done]. }
  destruct d as [f|[]|]; try done. cbn in Hd. change ((scaled f <? 0) = false) in Hpos.
  change ((scaled (float_of_int max) <? scaled f) = false) in Hle. apply Z.ltb_ge in Hpos, Hle.
  rewrite scaled_of_int in Hle by lia.
  assert (Ht : 0 <= trunc f <= max).
  { assert (Hp : 0 < 2 ^ (- min_exp)) by (apply Z.pow_pos_nonneg; unfold min_exp; lia).
    rewrite trunc_scaled by lia. rewrite Z.quot_div_nonneg by lia. split; [by apply Z.div_pos|].
    apply Z.div_le_upper_bound; [done|lia]. }
  cbn [int_of]. unfold int_of_float, in_range. unfold min_int64, max_int64.
  rewrite (proj2 (Z.leb_le (- 2 ^ 63) (trunc f))), (proj2 (Z.leb_le (trunc f) (2 ^ 63 - 1))) by lia.
  cbn [andb]. rewrite wrap64_id; lia.
Qed.

Lemma retry_delay_bounded_witness :
  map (calculateRetryDelay (fun _ => 0) DefaultFailoverConfig) [1; 4; 5] = [1000000000; 8000000000; 10000000000] /\
  0 <= calculateRetryDelay (fun _ => 0) DefaultFailoverConfig 40 <= 10000 * 1000000.
Proof.
  split; [vm_compute; reflexivity|].
  apply (retry_delay_bounded (fun _ => 0) DefaultFailoverConfig 40);
    [cbn; lia|vm_compute; split; discriminate|vm_compute; reflexivity..].
Defined.

(** ** The rate limit *)

(** A caller that waited as told comes at least the interval after the last
    request noted. *)
Lemma wait_is_enough c p interval last_ now w :
  providerRate c !! p = Some interval -> providerLast c !! p = Some last_ ->
  wait_needed c p now = Some w -> forall later, now + w <= later -> interval <= later - last_.
Proof.
  intros Hr Hl. unfold wait_needed. rewrite Hr, Hl. intros Hw later. injection Hw as <-.
  destruct (now - last_ <? interval) eqn:He; bool_hyps; lia.
Qed.

(** One caller after the other: [visits] are the instants each reads the state
    and comes back at. *)
Fixpoint visits_ok (p : string) (c : RateLimitChecker) (visits : list (Z * Z)) : Prop :=
  match visits with
  | [] => True
  | (now, later) :: r =>
      (forall w, wait_needed c p now = Some w -> now + w <= later) /\ visits_ok p (fst (CheckAndWait p now later None c)) r
  end.

Lemma sequential_requests_spaced p interval visits c :
  providerRate c !! p = Some interval -> visits_ok p c visits ->
  Sorted (fun a b => interval <= b - a) (option_list (providerLast c !! p) ++ map snd visits).
Proof.
  revert c. induction visits as [|[now later] r IH]; intros c Hr Hv; cbn [map].
  { rewrite app_nil_r. destruct (providerLast c !! p); repeat constructor. }
  destruct Hv as [Hw Hv].
  assert (Hc : fst (CheckAndWait p now later None c) = note_request p later c).
  { unfold CheckAndWait, wait_needed. rewrite Hr. destruct (providerLast c !! p); cbn; by repeat case_match. }
  rewrite Hc in Hv. apply IH in Hv; [|done]. cbn [providerLast note_request] in Hv. rewrite lookup_insert_eq in Hv.
  cbn in Hv |- *. destruct (providerLast c !! p) as [last_|] eqn:Hl; [|done]. cbn. constructor; [done|]. constructor.
  destruct (wait_needed c p now) as [w|] eqn:Hwn; [|unfold wait_needed in Hwn; rewrite Hr, Hl in Hwn; discriminate].
  by eapply wait_is_enough; [..|apply Hw].
Qed.

(** Two callers whose reads come before either notes its request are told to
    go at one instant; a caller that reads after the first noted its own is
    told to wait a whole interval more. *)
Theorem racing_requests_pass_together p interval last_ c now1 now2 :
  providerRate c !! p = Some interval -> providerLast c !! p = Some last_ ->
  now1 - last_ < interval -> now2 - last_ < interval -> 0 < interval ->
  exists w1 w2, wait_needed c p now1 = Some w1 /\ wait_needed c p now2 = Some w2 /\ now1 + w1 = now2 + w2 /\
    wait_needed (note_request p (now1 + w1) c) p (now1 + w1) = Some interval.
Proof.
  intros Hr Hl H1 H2 Hi. unfold wait_needed. rewrite Hr, Hl.
  rewrite (proj2 (Z.ltb_lt _ _) H1), (proj2 (Z.ltb_lt _ _) H2). do 2 eexists. split_and!; [done..|lia|].
  cbn. rewrite Hr, lookup_insert_eq, Z.sub_diag, (proj2 (Z.ltb_lt 0 interval)) by done. f_equal. lia.
Qed.

(** ** The context of a request *)

Definition tokens_of (ms : list MessageSnapshot) : Z := foldr Z.add 0 (map ms_Tokens ms).

Inductive context_op :=
| OpMessage (role content : string) (tokens : Z)
| OpSwitch (now : time) (fromModel toModel : string) (reason : FallbackReason).

Definition context_step (c : EventSourcedContext) (o : context_op) : EventSourcedContext :=
  match o with
  | OpMessage role content tokens => AddMessage role content tokens c
  | OpSwitch now f t why => RecordSwitch now f t why c
  end.

Record context_ok (c : EventSourcedContext) : Prop := {
  tokens_add_up : ec_TokensUsed c = tokens_of (ec_Messages c);
  last_switch : ec_LastModel c = default "" (se_ToModel <$> last (ec_SwitchHistory c));
  switch_tokens : Forall (fun s => exists n, se_TokensUsed s = tokens_of (take n (ec_Messages c))) (ec_SwitchHistory c)
}.

Lemma tokens_of_snoc l m : tokens_of (l ++ [m]) = tokens_of l + ms_Tokens m.
Proof. unfold tokens_of. rewrite map_app. induction (map ms_Tokens l) as [|x l' IH]; cbn in *; lia. Qed.
#[local] Arguments tokens_of : simpl never.

(** The context survives a switch of model whole: its messages stay, its
    tokens are those of its messages, and every switch carries the tokens of
    the messages before it. *)
Theorem context_stays_whole requestID ops :
  let c := foldl context_step (NewEventSourcedContext requestID) ops in
  context_ok c /\ ec_RequestID c = requestID /\
  GetMessages c = omap (fun o => match o with OpMessage r t n => Some (mkMessage r t n) | _ => None end) ops /\
  map (fun s => (se_FromModel s, se_ToModel s, se_Reason s)) (GetSwitchHistory c) =
    omap (fun o => match o with OpSwitch _ f t why => Some (f, t, why) | _ => None end) ops.
Proof.
  induction ops as [|o ops IH] using rev_ind; [by repeat constructor|]. cbv zeta in *. rewrite foldl_snoc.
  set (c := foldl _ _ ops) in *. destruct IH as ([Ht Hl Hs] & Hid & Hm & Hn).
  rewrite !omap_app. unfold GetMessages, GetSwitchHistory in *. destruct o as [role text n|now f t why]; cbn.
  - split_and!; [|done|by rewrite Hm|by rewrite app_nil_r]. split; cbn; [|done|].
    + by rewrite tokens_of_snoc, Ht.
    + eapply Forall_impl; [exact Hs|]. cbn. intros s [k Hk]. destruct (Nat.le_gt_cases k (length (ec_Messages c))).
      * exists k. by rewrite take_app_le.
      * exists (length (ec_Messages c)). rewrite take_app_le, firstn_all by lia. by rewrite Hk, take_ge by lia.
  - split_and!; [|done|by rewrite app_nil_r|by rewrite map_app, Hn]. split; cbn; [done|by rewrite last_snoc|].
    apply Forall_app. split; [done|]. repeat constructor. cbn. exists (length (ec_Messages c)). by rewrite firstn_all.
Qed.
