(* ===== verification/RouteAdvisor.v ===== *)
(** The routing advisor (pkg/routing: advisor.go, advisor_hash.go,
    advisor_noop.go, advisor_config.go): the local advisor's choice, the hash a
    decision is stored with, and the validation of decisions and of the
    configuration.

    [url.Parse] and [time.ParseDuration] are arguments; a uuid and the clock
    are inputs.  [sort.Slice] and [sort.Strings] are any function with the
    contract of [GoFloatOps.SliceSort]. *)

From Stdlib Require Import Sorting.Sorted.
From S2P Require Import Prelude Sha256 GoTime Json GoFloat Events Identity GoFloatOps.

(** ** The data *)

Record RouteCandidate := mkCandidate {
  cd_CapabilityID : string; cd_Kind : string; cd_Provider : string; cd_Score : float; cd_Rank : Z;
  cd_ReasonCodes : list string; cd_Metadata : option (list (string * json)) }.

Record AdvisorInfo := mkAdvisor {
  ad_Name : string; ad_Version : string; ad_Adapter : string; ad_AdapterVersion : string }.

Record RouteConstraints := mkConstraints {
  cs_MaxLatencyMS : Z; cs_MaxCostUSD : float; cs_RequiredCapabilities : list string; cs_RiskLevel : string }.

Record RouteDecisionRequest := mkDecisionRequest {
  rr_SchemaVersion : string; rr_JobID : string; rr_RunID : string; rr_TenantID : string; rr_PlanID : string;
  rr_NodeID : string; rr_StepID : string; rr_DecisionKey : string; rr_Goal : string;
  rr_Constraints : RouteConstraints; rr_Candidates : list RouteCandidate }.

Record RouteDecision := mkDecision {
  rd_SchemaVersion : string; rd_DecisionID : string; rd_DecisionKey : string; rd_DecisionHash : string;
  rd_JobID : string; rd_RunID : string; rd_TenantID : string; rd_PlanID : string; rd_NodeID : string;
  rd_StepID : string; rd_Advisor : AdvisorInfo; rd_Selected : RouteCandidate; rd_Candidates : list RouteCandidate;
  rd_FallbackPolicy : string; rd_FallbackReasonCodes : list string; rd_CreatedAt : time }.

Definition FallbackOpen : string := "fail_open".
Definition FallbackClosed : string := "fail_closed".
Definition FallbackCached : string := "cached_decision".
Definition RouteDecisionSchemaV1 : string := "routing.advisor.decision.v1alpha1".

Inductive advisor_error :=
| InvalidFallbackPolicyError (p : string)
| SelectedNotInCandidatesError (id : string)
| MissingFieldError (field : string)
| HashMismatchError (want got : string)
| MarshalError
| NoCandidates (decisionKey : string)
| ModeError (mode : string)
| EndpointError
| TimeoutError.

Definition with_hash (h : string) (d : RouteDecision) : RouteDecision :=
  mkDecision (rd_SchemaVersion d) (rd_DecisionID d) (rd_DecisionKey d) h (rd_JobID d) (rd_RunID d) (rd_TenantID d)
    (rd_PlanID d) (rd_NodeID d) (rd_StepID d) (rd_Advisor d) (rd_Selected d) (rd_Candidates d) (rd_FallbackPolicy d)
    (rd_FallbackReasonCodes d) (rd_CreatedAt d).

(** ** Validation *)

Definition ValidateFallbackPolicy (p : string) : option advisor_error :=
  if String.eqb p FallbackOpen || String.eqb p FallbackClosed || String.eqb p FallbackCached then None
  else Some (InvalidFallbackPolicyError p).

Definition missingField (name : string) : advisor_error := MissingFieldError name.

(** The required fields in the order they are checked. *)
Fixpoint first_missing (fields : list (string * string)) : option advisor_error :=
  match fields with
  | [] => None
  | (name, v) :: r => if String.eqb v "" then Some (missingField name) else first_missing r
  end.

Definition ValidateRouteDecision (d : RouteDecision) : option advisor_error :=
  match first_missing
    [("schema_version", rd_SchemaVersion d); ("decision_id", rd_DecisionID d); ("decision_key", rd_DecisionKey d);
     ("decision_hash", rd_DecisionHash d); ("job_id", rd_JobID d); ("tenant_id", rd_TenantID d);
     ("advisor.name", ad_Name (rd_Advisor d)); ("selected.capability_id", cd_CapabilityID (rd_Selected d));
     ("selected.kind", cd_Kind (rd_Selected d))] with
  | Some e => Some e
  | None =>
      match ValidateFallbackPolicy (rd_FallbackPolicy d) with
      | Some e => Some e
      | None =>
          if is_zero (rd_CreatedAt d) then Some (missingField "created_at")
          else match rd_Candidates d with
               | [] => None
               | cs => if existsb (fun c => String.eqb (cd_CapabilityID c) (cd_CapabilityID (rd_Selected d))) cs then None
                       else Some (SelectedNotInCandidatesError (cd_CapabilityID (rd_Selected d)))
               end
      end
  end.

(** ** The canonical text and its hash *)

Definition strings_text (l : list string) : string := "[" +:+ (join "," (map quote l) +:+ "]").

(** [json.Marshal] refuses NaN and the infinities. *)
Definition float_text (x : float) : option string := match x with Fin f => Some (json_float f) | _ => None end.

Definition advisor_text (a : AdvisorInfo) : string :=
  obj_text (m_str "name" (ad_Name a) ++ m_str_omit "version" (ad_Version a) ++ m_str_omit "adapter" (ad_Adapter a)
    ++ m_str_omit "adapter_version" (ad_AdapterVersion a)).

Section hashing.
Context (sort : forall A : Type, (A -> A -> bool) -> list A -> list A).

(** The copy of the reason codes is made, never nil: it prints as [[]]. *)
Definition toCanonicalCandidate (c : RouteCandidate) : RouteCandidate :=
  mkCandidate (cd_CapabilityID c) (cd_Kind c) (cd_Provider c) (cd_Score c) (cd_Rank c)
    (sort _ String.ltb (cd_ReasonCodes c)) (cd_Metadata c).

Definition canonical_candidate_text (c : RouteCandidate) : option string :=
  score ← float_text (cd_Score c);
  Some (obj_text (m_str "capability_id" (cd_CapabilityID c) ++ m_str "kind" (cd_Kind c) ++ m_str "provider" (cd_Provider c)
    ++ [("score", score)] ++ m_int "rank" (cd_Rank c) ++ [("reason_codes", strings_text (cd_ReasonCodes c));
        ("metadata", marshal_map (cd_Metadata c))])).

(** [json.Marshal] of [canonicalDecision]. *)
Definition canonical_decision_text (d : RouteDecision) : option string :=
  let cs := sort _ (fun a b => String.ltb (cd_CapabilityID a) (cd_CapabilityID b)) (map toCanonicalCandidate (rd_Candidates d)) in
  selected ← canonical_candidate_text (toCanonicalCandidate (rd_Selected d));
  candidates ← mapM canonical_candidate_text cs;
  created ← marshal_time (rd_CreatedAt d);
  Some (obj_text (m_str "schema_version" (rd_SchemaVersion d) ++ m_str "decision_id" (rd_DecisionID d)
    ++ m_str "decision_key" (rd_DecisionKey d) ++ m_str "job_id" (rd_JobID d) ++ m_str "run_id" (rd_RunID d)
    ++ m_str "tenant_id" (rd_TenantID d) ++ m_str "plan_id" (rd_PlanID d) ++ m_str "node_id" (rd_NodeID d)
    ++ m_str "step_id" (rd_StepID d)
    ++ [("advisor", advisor_text (rd_Advisor d)); ("selected", selected);
        ("candidates", "[" +:+ (join "," candidates +:+ "]"))]
    ++ m_str "fallback_policy" (rd_FallbackPolicy d) ++ [("created_at", created)])).

Definition HashRouteDecision (d : RouteDecision) : result advisor_error string :=
  match canonical_decision_text d with Some t => Ok (hex_sha256 t) | None => Err MarshalError end.

Definition VerifyDecisionHash (d : RouteDecision) : option advisor_error :=
  let want := rd_DecisionHash d in
  if String.eqb want "" then Some (MissingFieldError "decision_hash")
  else match HashRouteDecision d with
       | Err e => Some e
       | Ok got => if String.eqb got want then None else Some (HashMismatchError want got)
       end.

(** ** The local advisor *)

Record NoOpAdvisor := mkNoOp { na_Name : string; na_Version : string; na_FallbackPolicy : string }.

Definition NewNoOpAdvisor : NoOpAdvisor := mkNoOp "noop" "v1" FallbackOpen.

Definition isBetter (a b : RouteCandidate) : bool :=
  let aRanked := 0 <? cd_Rank a in
  let bRanked := 0 <? cd_Rank b in
  let byID := String.ltb (cd_CapabilityID a) (cd_CapabilityID b) in
  if aRanked && bRanked then if negb (cd_Rank a =? cd_Rank b) then cd_Rank a <? cd_Rank b else byID
  else if aRanked && negb bRanked then true
  else if negb aRanked && bRanked then false
  else if negb (float_eq (cd_Score a) (cd_Score b)) then float_lt (cd_Score b) (cd_Score a) else byID.

(** [candidates[0]] of an empty list panics; [Decide] has checked it. *)
Definition selectBestCandidate (candidates : list RouteCandidate) : outcome RouteCandidate :=
  match candidates with
  | [] => Panic "index out of range [0] with length 0"
  | c :: cs => Ret (foldl (fun best c => if isBetter c best then c else best) c cs)
  end.

Definition or_text (s d : string) : string := if String.eqb s "" then d else s.

Definition Decide (a : NoOpAdvisor) (uuid : string) (now : time) (req : RouteDecisionRequest)
    : outcome (result advisor_error RouteDecision) :=
  match rr_Candidates req with
  | [] => Ret (Err (NoCandidates (rr_DecisionKey req)))
  | cs =>
      run selected <- selectBestCandidate cs ;;
      let policy := match ValidateFallbackPolicy (na_FallbackPolicy a) with
                    | None => na_FallbackPolicy a | Some _ => FallbackOpen end in
      let d := mkDecision RouteDecisionSchemaV1 uuid (rr_DecisionKey req) "" (rr_JobID req) (rr_RunID req)
                 (rr_TenantID req) (rr_PlanID req) (rr_NodeID req) (rr_StepID req)
                 (mkAdvisor (or_text (na_Name a) "noop") (or_text (na_Version a) "v1") "noop" "")
                 selected cs policy [] (t_utc now) in
      Ret (match HashRouteDecision d with Ok h => Ok (with_hash h d) | Err e => Err e end)
  end.
End hashing.

(** ** The configuration (advisor_config.go) *)

Record RoutingAdvisorConfig := mkAdvisorConfig {
  rc_Enabled : bool; rc_Mode : string; rc_FallbackPolicy : string; rc_Noop_Name : string; rc_Noop_Version : string;
  rc_Remote_Endpoint : string; rc_Remote_Timeout : string; rc_Remote_TokenEnv : string; rc_Remote_TLSInsecure : bool }.

Definition resolvePolicy (s : string) : result advisor_error string :=
  if String.eqb s "" then Ok FallbackOpen
  else match ValidateFallbackPolicy s with None => Ok s | Some e => Err e end.

Definition buildNoOp (cfg : RoutingAdvisorConfig) (policy : string) : NoOpAdvisor :=
  mkNoOp (or_text (rc_Noop_Name cfg) (na_Name NewNoOpAdvisor)) (or_text (rc_Noop_Version cfg) (na_Version NewNoOpAdvisor)) policy.

Definition NewAdvisorFromConfig (cfg : RoutingAdvisorConfig) : result advisor_error NoOpAdvisor :=
  try policy <- resolvePolicy (rc_FallbackPolicy cfg) ;;
  if negb (rc_Enabled cfg) then Ok (buildNoOp cfg policy)
  else if String.eqb (rc_Mode cfg) "" || String.eqb (rc_Mode cfg) "noop" then Ok (buildNoOp cfg policy)
  else Err (ModeError (rc_Mode cfg)).

Section validation.
Context (parse_url : string -> option (string * string)) (parse_duration : string -> option Z).

Definition validateRemoteAdvisorConfig (endpoint timeout : string) : option advisor_error :=
  if String.eqb endpoint "" then Some EndpointError
  else match parse_url endpoint with
       | None => Some EndpointError
       | Some (scheme, host) =>
           if String.eqb scheme "" || String.eqb host "" then Some EndpointError
           else if negb (String.eqb scheme "http") && negb (String.eqb scheme "https") then Some EndpointError
           else if String.eqb timeout "" then None
           else match parse_duration timeout with
                | None => Some TimeoutError
                | Some d => if d <=? 0 then Some TimeoutError else None
                end
       end.

Definition ValidateRoutingAdvisorConfig (cfg : RoutingAdvisorConfig) : option advisor_error :=
  match (if String.eqb (rc_FallbackPolicy cfg) "" then Ok "" else resolvePolicy (rc_FallbackPolicy cfg)) with
  | Err e => Some e
  | Ok _ =>
      if negb (String.eqb (rc_Mode cfg) "") && negb (String.eqb (rc_Mode cfg) "noop") && negb (String.eqb (rc_Mode cfg) "remote")
      then Some (ModeError (rc_Mode cfg))
      else if String.eqb (rc_Mode cfg) "remote" then validateRemoteAdvisorConfig (rc_Remote_Endpoint cfg) (rc_Remote_Timeout cfg)
      else None
  end.
End validation.

(** ** Which candidate is better *)

(** Floats other than NaN, in their order, as pairs of integers. *)
Definition float_key (x : float) : Z * Z :=
  match x with Fin f => (0, scaled f) | Inf true => (-1, 0) | Inf false => (1, 0) | NaN => (2, 0) end.

Lemma float_lt_key x y :
  is_nan x = false -> is_nan y = false ->
  float_lt x y = true <-> (float_key x).1 < (float_key y).1 \/ (float_key x).1 = (float_key y).1 /\ (float_key x).2 < (float_key y).2.
Proof.
  destruct x as [f|[]|], y as [g|[]|]; cbn; try done; intros _ _; unfold float_ltb; rewrite ?Z.ltb_lt;
    split; try done; lia.
Qed.

Lemma float_eq_key x y :
  is_nan x = false -> is_nan y = false -> float_eq x y = true <-> float_key x = float_key y.
Proof.
  destruct x as [f|[]|], y as [g|[]|]; cbn; try done; intros _ _; unfold float_eqb; rewrite ?Z.eqb_eq;
    split; try done; congruence.
Qed.

Definition scored (c : RouteCandidate) : Prop := is_nan (cd_Score c) = false.

(** Ranked candidates come first, by rank; the others by falling score; ties by
    capability id. *)
Definition preferred (a b : RouteCandidate) : Prop :=
  let byID := String.ltb (cd_CapabilityID a) (cd_CapabilityID b) = true in
  (0 < cd_Rank a /\ (cd_Rank b <= 0 \/ cd_Rank a < cd_Rank b \/ cd_Rank a = cd_Rank b /\ byID)) \/
  (cd_Rank a <= 0 /\ cd_Rank b <= 0 /\
   (float_lt (cd_Score b) (cd_Score a) = true \/ float_key (cd_Score a) = float_key (cd_Score b) /\ byID)).

Lemma isBetter_preferred a b : scored a -> scored b -> isBetter a b = true <-> preferred a b.
Proof.
  intros Ha Hb. unfold isBetter, preferred. pose proof (float_eq_key _ _ Ha Hb) as He.
  pose proof (float_lt_key _ _ Hb Ha) as Hl.
  remember (float_eq (cd_Score a) (cd_Score b)) as eqs eqn:Hs. symmetry in Hs. clear Hs.
  destruct (0 <? cd_Rank a) eqn:Hra, (0 <? cd_Rank b) eqn:Hrb; cbn [andb negb];
    apply Z.ltb_lt in Hra || apply Z.ltb_ge in Hra; apply Z.ltb_lt in Hrb || apply Z.ltb_ge in Hrb.
  - destruct (cd_Rank a =? cd_Rank b) eqn:Hr; cbn [negb]; bool_hyps; rewrite ?Z.ltb_lt; split; [..|lia]; intros; try lia.
    + left. split; [done|]. right. by right.
    + destruct H as [(_ & [?|[?|[_ ?]]])|(? & _)]; [lia..|done|lia].
  - split; [|done]. intros _. left. lia.
  - split; [done|]. lia.
  - destruct eqs; cbn [negb].
    + pose proof (proj1 He eq_refl) as Hs. split; [right; naive_solver|]. intros [(? & _)|(_ & _ & [Hlt|[_ ?]])]; [lia| |done].
      apply Hl in Hlt. rewrite Hs in Hlt. lia.
    + split; [right; naive_solver|]. intros [(? & _)|(_ & _ & [Hlt|[Hk _]])]; [lia|done|].
      by apply He in Hk.
Qed.

Lemma preferred_asym a b : scored a -> scored b -> preferred a b -> preferred b a -> False.
Proof.
  intros Ha Hb. unfold preferred. pose proof (float_lt_key _ _ Hb Ha) as H1. pose proof (float_lt_key _ _ Ha Hb) as H2.
  pose proof (ltb_asym (cd_CapabilityID a) (cd_CapabilityID b)) as Hid.
  rewrite H1, H2. intros P Q.
  assert (Hne : ~ (String.ltb (cd_CapabilityID a) (cd_CapabilityID b) = true /\
                   String.ltb (cd_CapabilityID b) (cd_CapabilityID a) = true)) by (intros [X Y]; rewrite Hid in Y; done).
  destruct P as [(? & P)|(? & ? & P)], Q as [(? & Q)|(? & ? & Q)]; try lia.
  - destruct P as [?|[?|[? ?]]], Q as [?|[?|[? ?]]]; try lia. by apply Hne.
  - destruct P as [?|[Hk ?]], Q as [?|[Hk' ?]]; [lia|rewrite Hk' in *; lia|rewrite Hk in *; lia|by apply Hne].
Qed.

Lemma preferred_total a b :
  scored a -> scored b -> cd_CapabilityID a <> cd_CapabilityID b -> preferred a b \/ preferred b a.
Proof.
  intros Ha Hb Hne. unfold preferred. rewrite (float_lt_key _ _ Hb Ha), (float_lt_key _ _ Ha Hb).
  assert (Hid : String.ltb (cd_CapabilityID a) (cd_CapabilityID b) = true \/
                String.ltb (cd_CapabilityID b) (cd_CapabilityID a) = true)
    by (destruct (ltb_cases (cd_CapabilityID a) (cd_CapabilityID b)) as [[?|?]|?]; [by left|done|by right]).
  destruct (float_key (cd_Score a)) as [a1 a2], (float_key (cd_Score b)) as [b1 b2]. cbn.
  assert (Hk : a1 < b1 \/ a1 = b1 /\ a2 < b2 \/ b1 < a1 \/ b1 = a1 /\ b2 < a2 \/ (a1, a2) = (b1, b2)).
  { destruct (Z.lt_trichotomy a1 b1) as [?|[->|?]]; [lia| |lia].
    destruct (Z.lt_trichotomy a2 b2) as [?|[->|?]]; [lia| |lia]. by do 4 right. }
  destruct (Z.le_gt_cases (cd_Rank a) 0), (Z.le_gt_cases (cd_Rank b) 0); [| | |].
  - destruct Hk as [?|[?|[?|[?|Hk]]]]; [right; right; lia|right; right; lia|left; right; lia|left; right; lia|].
    rewrite Hk. destruct Hid; [left|right]; right; tauto.
  - right. left. lia.
  - left. left. lia.
  - destruct (Z.lt_trichotomy (cd_Rank a) (cd_Rank b)) as [?|[He|?]]; [left; left; lia| |right; left; lia].
    destruct Hid; [left|right]; left; (split; [done|]); right; right; done.
Qed.

(** Between two candidates of which one is preferred, a third one is preferred
    to the worse or beaten by the better. *)
Lemma preferred_split a b c : scored a -> scored b -> scored c -> preferred a c -> preferred a b \/ preferred b c.
Proof.
  intros Ha Hb Hc. unfold preferred.
  rewrite (float_lt_key _ _ Hb Ha), (float_lt_key _ _ Hc Hb), (float_lt_key _ _ Hc Ha).
  assert (Hid : String.ltb (cd_CapabilityID a) (cd_CapabilityID c) = true ->
    String.ltb (cd_CapabilityID a) (cd_CapabilityID b) = true \/ String.ltb (cd_CapabilityID b) (cd_CapabilityID c) = true).
  { intros Hac. destruct (ltb_cases (cd_CapabilityID a) (cd_CapabilityID b)) as [[?|<-]|Hba]; [by left|by right|].
    right. by apply (ltb_trans _ (cd_CapabilityID a)). }
  destruct (float_key (cd_Score a)) as [a1 a2], (float_key (cd_Score b)) as [b1 b2], (float_key (cd_Score c)) as [c1 c2]. cbn.
  assert (Hk : a1 = b1 /\ a2 = b2 -> (a1, a2) = (b1, b2)) by (by intros [-> ->]).
  assert (Hk' : b1 = c1 /\ b2 = c2 -> (b1, b2) = (c1, c2)) by (by intros [-> ->]).
  intros [(? & [?|[?|[? P]]])|(? & ? & [?|[[= -> ->] P]])].
  - destruct (Z.le_gt_cases (cd_Rank b) 0); [left|right]; left; lia.
  - destruct (Z.le_gt_cases (cd_Rank b) 0); [left; left; lia|].
    destruct (Z.lt_trichotomy (cd_Rank a) (cd_Rank b)) as [?|[?|?]]; [left|right|right]; left; lia.
  - destruct (Z.le_gt_cases (cd_Rank b) 0); [left; left; lia|].
    destruct (Z.lt_trichotomy (cd_Rank a) (cd_Rank b)) as [?|[?|?]]; [left; left; lia| |right; left; lia].
    destruct (Hid P); [left|right]; left; (split; [lia|]); right; right; (split; [lia|done]).
  - destruct (Z.le_gt_cases (cd_Rank b) 0); [|right; left; lia].
    assert ((b1 < a1 \/ b1 = a1 /\ b2 < a2) \/ (c1 < b1 \/ c1 = b1 /\ c2 < b2)) as [?|?] by lia; [left|right]; right; tauto.
  - destruct (Z.le_gt_cases (cd_Rank b) 0); [|right; left; lia].
    assert ((b1 < c1 \/ b1 = c1 /\ b2 < c2) \/ (c1 < b1 \/ c1 = b1 /\ c2 < b2) \/ (c1 = b1 /\ c2 = b2)) as [?|[?|[-> ->]]] by lia;
      [left; right; tauto|right; right; tauto|]. destruct (Hid P); [left|right]; right; tauto.
Qed.

(** The candidate nothing is preferred to. *)
Definition best_of (cs : list RouteCandidate) (b : RouteCandidate) : Prop :=
  b ∈ cs /\ forall c, c ∈ cs -> ~ preferred c b.

Lemma select_fold c cs :
  Forall scored (c :: cs) ->
  let b := foldl (fun best c => if isBetter c best then c else best) c cs in
  b ∈ c :: cs /\ forall x, x ∈ c :: cs -> ~ preferred x b.
Proof.
  revert c. induction cs as [|x cs IH]; intros c Hs; cbn [foldl].
  { split; [constructor|]. intros y ->%list_elem_of_singleton P. apply Forall_cons in Hs as [Hs _].
    exact (preferred_asym c c Hs Hs P P). }
  apply Forall_cons in Hs as [Hc [Hx Hcs]%Forall_cons].
  destruct (isBetter x c) eqn:Hb.
  - apply isBetter_preferred in Hb; [|done..]. specialize (IH x ltac:(by constructor)).
    set (b := foldl _ x cs) in *. destruct IH as [Hin Hno].
    assert (Hsb : scored b).
    { assert (Hall : Forall scored (x :: cs)) by (by constructor). rewrite Forall_forall in Hall. by apply Hall. }
    split; [set_solver|]. intros y [->|Hy]%elem_of_cons; [|by apply Hno].
    intros P. destruct (preferred_split c x b) as [Q|Q]; [done..| |].
    + exact (preferred_asym x c Hx Hc Hb Q).
    + exact (Hno x ltac:(constructor) Q).
  - specialize (IH c ltac:(by constructor)). set (b := foldl _ c cs) in *. destruct IH as [Hin Hno].
    assert (Hsb : scored b).
    { assert (Hall : Forall scored (c :: cs)) by (by constructor). rewrite Forall_forall in Hall. by apply Hall. }
    split; [set_solver|]. intros y [->|[->|Hy]%elem_of_cons]%elem_of_cons; [apply Hno; set_solver| |apply Hno; set_solver].
    intros P. destruct (preferred_split x c b) as [Q|Q]; [done..| |].
    + apply isBetter_preferred in Q; [congruence|done..].
    + exact (Hno c ltac:(set_solver) Q).
Qed.

Lemma best_of_unique cs b1 b2 :
  Forall scored cs -> NoDup (map cd_CapabilityID cs) -> best_of cs b1 -> best_of cs b2 -> b1 = b2.
Proof.
  intros Hs Hn [H1 N1] [H2 N2]. rewrite Forall_forall in Hs.
  destruct (decide (cd_CapabilityID b1 = cd_CapabilityID b2)) as [He|Hne].
  - by apply (nodup_map_inj cd_CapabilityID cs).
  - destruct (preferred_total b1 b2 (Hs _ H1) (Hs _ H2) Hne) as [P|P]; [by apply N2 in P|by apply N1 in P].
Qed.

(** The local advisor's choice is one of the candidates, no candidate is
    preferred to it, and when the capability ids differ it does not depend on
    the order the candidates are listed in. *)
Theorem advisor_choice_is_best c cs :
  Forall scored (c :: cs) ->
  exists b, selectBestCandidate (c :: cs) = Ret b /\ best_of (c :: cs) b /\
    (NoDup (map cd_CapabilityID (c :: cs)) ->
     forall cs', cs' ≡ₚ c :: cs -> selectBestCandidate cs' = Ret b).
Proof.
  intros Hs. eexists. split; [done|]. pose proof (select_fold c cs Hs) as Hb. cbv zeta in Hb. split; [exact Hb|].
  intros Hn cs' Hp. destruct cs' as [|c' cs']; [by apply Permutation_nil_l in Hp|]. cbn [selectBestCandidate]. f_equal.
  assert (Hs' : Forall scored (c' :: cs')) by (by rewrite Hp).
  destruct (select_fold c' cs' Hs') as [Hin' Hno'].
  apply (best_of_unique (c :: cs)); [done|done| |exact Hb]. split; [by rewrite <- Hp|].
  intros x Hx. apply Hno'. by rewrite Hp.
Qed.

Definition candidate (id : string) (score : string) (rank : Z) (codes : list string) : RouteCandidate :=
  mkCandidate id "tool" "builtin" (const score) rank codes None.

Lemma advisor_choice_is_best_witness :
  selectBestCandidate [candidate "b" "0.9" 0 []; candidate "c" "0.1" 2 []; candidate "a" "0.1" 2 []]
  = Ret (candidate "a" "0.1" 2 []).
Proof.
  destruct (advisor_choice_is_best (candidate "a" "0.1" 2 []) [candidate "c" "0.1" 2 []; candidate "b" "0.9" 0 []])
    as (b & Hb & _ & Hp); [repeat constructor|].
  assert (b = candidate "a" "0.1" 2 []) as -> by (vm_compute in Hb; by injection Hb as <-).
  apply Hp; [|].
  - apply (bool_decide_unpack _). vm_compute. exact I.
  - symmetry. apply (Permutation_rev [candidate "a" "0.1" 2 []; candidate "c" "0.1" 2 []; candidate "b" "0.9" 0 []]).
Defined.

(** Without ranks the score decides, not the position in the list. *)
Theorem unranked_candidates_are_scored :
  selectBestCandidate [candidate "a" "0.1" 0 []; candidate "b" "0.9" 0 []] = Ret (candidate "b" "0.9" 0 []).
Proof. vm_compute. reflexivity. Qed.

(** ** Decisions of the local advisor *)

Lemma hash_nonempty sort d h : HashRouteDecision sort d = Ok h -> h <> "".
Proof. unfold HashRouteDecision. case_match; [|done]. intros [= <-]. apply hex_sha256_nonempty. Qed.

(** The hash does not read the hash field. *)
Lemma hash_with_hash sort h d : HashRouteDecision sort (with_hash h d) = HashRouteDecision sort d.
Proof. done. Qed.

Lemma policy_valid a :
  ValidateFallbackPolicy (match ValidateFallbackPolicy (na_FallbackPolicy a) with
                          | None => na_FallbackPolicy a | Some _ => FallbackOpen end) = None.
Proof. destruct (ValidateFallbackPolicy (na_FallbackPolicy a)) eqn:H; [done|exact H]. Qed.

Lemma first_missing_none fields : first_missing fields = None <-> Forall (fun f => snd f <> "") fields.
Proof.
  induction fields as [|[name v] r IH]; cbn; [by split; constructor|]. destruct (String.eqb_spec v ""); rewrite Forall_cons; cbn.
  - split; [done|]. by intros [? _].
  - rewrite IH. tauto.
Qed.

Lemma or_text_nonempty s d : d <> "" -> or_text s d <> "".
Proof. unfold or_text. by destruct (String.eqb_spec s ""). Qed.

(** A decision the local advisor returns passes the validation and the
    verification of its hash, whatever the advisor's own settings are, when the
    request names its job, tenant and key and the chosen candidate its id and
    kind; otherwise the advisor reports an error - no candidates, or a score or
    an instant that cannot be printed - and never panics. *)
Theorem advisor_decision_is_valid sort a uuid now req :
  uuid <> "" -> rr_DecisionKey req <> "" -> rr_JobID req <> "" -> rr_TenantID req <> "" ->
  is_zero now = false ->
  Forall (fun c => cd_CapabilityID c <> "" /\ cd_Kind c <> "") (rr_Candidates req) ->
  match Decide sort a uuid now req with
  | Ret (Ok d) => ValidateRouteDecision d = None /\ VerifyDecisionHash sort d = None /\
                  rd_Selected d ∈ rr_Candidates req
  | Ret (Err (NoCandidates k)) => rr_Candidates req = [] /\ k = rr_DecisionKey req
  | Ret (Err e) => e = MarshalError
  | Panic _ => False
  end.
Proof.
  intros Hu Hk Hj Ht Hnow Hcs. unfold Decide. destruct (rr_Candidates req) as [|c cs] eqn:Hreq; [done|].
  cbn [selectBestCandidate outcome_bind]. set (b := foldl _ c cs). set (d := mkDecision _ _ _ _ _ _ _ _ _ _ _ _ _ _ _ _).
  destruct (HashRouteDecision sort d) as [h|e] eqn:Hh.
  2: { unfold HashRouteDecision in Hh. destruct (canonical_decision_text sort d); simplify_eq. done. }
  pose proof (hash_nonempty sort d h Hh) as Hne.
  assert (Hb : b ∈ c :: cs).
  { subst b. clear. revert c. induction cs as [|x cs IH]; intros c; cbn [foldl]; [constructor|].
    destruct (isBetter x c); [specialize (IH x)|specialize (IH c)]; set_solver. }
  split_and!; [| |exact Hb].
  - rewrite Forall_forall in Hcs. destruct (Hcs b Hb) as [Hid Hkind]. unfold ValidateRouteDecision.
    rewrite (proj2 (first_missing_none _)).
    2: { subst d. cbn. repeat constructor; cbn; try done. by apply or_text_nonempty. }
    subst d. cbn [with_hash rd_FallbackPolicy]. rewrite policy_valid. cbn [rd_CreatedAt with_hash rd_Candidates rd_Selected].
    change (is_zero (t_utc now)) with (is_zero now). rewrite Hnow.
    rewrite (proj2 (existsb_exists _ _)); [done|]. exists b. rewrite <- list_elem_of_In. split; [done|]. apply String.eqb_refl.
  - unfold VerifyDecisionHash. cbn [rd_DecisionHash with_hash]. rewrite (proj2 (String.eqb_neq _ _) Hne), hash_with_hash, Hh.
    by rewrite String.eqb_refl.
Qed.

Definition ask (cs : list RouteCandidate) : RouteDecisionRequest :=
  mkDecisionRequest "routing.advisor.request.v1alpha1" "job-1" "run-1" "tenant-1" "plan-1" "node-1" "step-1" "key-1" "goal"
    (mkConstraints 0 (of_int 0) [] "") cs.
Definition noon : time := Time (1767323045 * second) 0.

Lemma advisor_decision_is_valid_witness :
  match Decide insertion_sort NewNoOpAdvisor "u" noon (ask [candidate "a" "0.5" 1 ["x"]]) with
  | Ret (Ok d) => ValidateRouteDecision d = None /\ VerifyDecisionHash insertion_sort d = None
  | _ => False
  end.
Proof.
  pose proof (advisor_decision_is_valid insertion_sort NewNoOpAdvisor "u" noon (ask [candidate "a" "0.5" 1 ["x"]])
    ltac:(discriminate) ltac:(discriminate) ltac:(discriminate) ltac:(discriminate) eq_refl
    ltac:(repeat constructor; discriminate)) as H.
  assert (Hd : is_ok (match Decide insertion_sort NewNoOpAdvisor "u" noon (ask [candidate "a" "0.5" 1 ["x"]]) with
                      | Ret r => r | Panic _ => Err MarshalError end) = true) by (vm_compute; reflexivity).
  destruct (Decide _ _ _ _ _) as [[d|e]|msg]; [split; apply H|discriminate Hd|exact H].
Defined.

(** ** The hash does not depend on the order of what it sorts *)

Definition same_candidate (a b : RouteCandidate) : Prop :=
  cd_CapabilityID a = cd_CapabilityID b /\ cd_Kind a = cd_Kind b /\ cd_Provider a = cd_Provider b /\
  cd_Score a = cd_Score b /\ cd_Rank a = cd_Rank b /\ cd_ReasonCodes a ≡ₚ cd_ReasonCodes b /\
  cd_Metadata a = cd_Metadata b.

Lemma string_weak_order {A} (key : A -> string) l : weak_order (fun a b => String.ltb (key a) (key b)) l.
Proof.
  split; [intros a b _ _; apply ltb_asym|]. intros a b c _ _ _. rewrite !ltb_leb, !negb_false_iff.
  intros Hba Hcb. by apply (leb_trans _ (key b)).
Qed.

Lemma sorted_strings_perm sort `{!SliceSort sort} l1 l2 : l1 ≡ₚ l2 -> sort _ String.ltb l1 = sort _ String.ltb l2.
Proof.
  intros Hp. apply (ascending_unique String.ltb).
  - intros a b _ _ Hab Hba. destruct (ltb_cases a b) as [[?|?]|?]; congruence.
  - apply sort_ascending, (string_weak_order id).
  - apply sort_ascending, (string_weak_order id).
  - by rewrite !sort_perm.
Qed.

Lemma canonical_same sort `{!SliceSort sort} a b :
  same_candidate a b -> toCanonicalCandidate sort a = toCanonicalCandidate sort b.
Proof.
  destruct a, b. unfold same_candidate, toCanonicalCandidate. cbn. intros (-> & -> & -> & -> & -> & Hp & ->).
  f_equal. by apply sorted_strings_perm.
Qed.

(** The hash of a decision is the same however its candidates and the
    reason codes of a candidate are ordered, when the capability ids differ;
    this holds for every sort that keeps the contract of its package. *)
Theorem decision_hash_ignores_order sort `{!SliceSort sort} d d' cs :
  NoDup (map cd_CapabilityID (rd_Candidates d)) ->
  cs ≡ₚ rd_Candidates d' -> Forall2 same_candidate (rd_Candidates d) cs ->
  same_candidate (rd_Selected d) (rd_Selected d') ->
  d' = mkDecision (rd_SchemaVersion d) (rd_DecisionID d) (rd_DecisionKey d) (rd_DecisionHash d) (rd_JobID d) (rd_RunID d)
         (rd_TenantID d) (rd_PlanID d) (rd_NodeID d) (rd_StepID d) (rd_Advisor d) (rd_Selected d') (rd_Candidates d')
         (rd_FallbackPolicy d) (rd_FallbackReasonCodes d) (rd_CreatedAt d) ->
  HashRouteDecision sort d = HashRouteDecision sort d' /\
  VerifyDecisionHash sort d = VerifyDecisionHash sort d'.
Proof.
  intros Hn Hp Hsame Hsel Hd. assert (Ht : canonical_decision_text sort d = canonical_decision_text sort d').
  2: { assert (Hh : HashRouteDecision sort d = HashRouteDecision sort d') by (unfold HashRouteDecision; by rewrite Ht).
       split; [done|]. unfold VerifyDecisionHash. rewrite Hh. by rewrite Hd. }
  unfold canonical_decision_text. rewrite (canonical_same sort _ _ Hsel).
  assert (Hmap : map (toCanonicalCandidate sort) (rd_Candidates d) = map (toCanonicalCandidate sort) cs).
  { clear -Hsame SliceSort0. induction Hsame as [|a b l1 l2 Hab _ IH]; cbn; [done|]. by rewrite IH, (canonical_same sort a b). }
  assert (Hs : sort _ (fun a b => String.ltb (cd_CapabilityID a) (cd_CapabilityID b)) (map (toCanonicalCandidate sort) (rd_Candidates d))
             = sort _ (fun a b => String.ltb (cd_CapabilityID a) (cd_CapabilityID b)) (map (toCanonicalCandidate sort) (rd_Candidates d'))).
  { apply (ascending_unique (fun a b => String.ltb (cd_CapabilityID a) (cd_CapabilityID b))).
    - intros a b. rewrite sort_perm. intros Ha Hb Hab Hba.
      apply (nodup_map_inj cd_CapabilityID (map (toCanonicalCandidate sort) (rd_Candidates d))); [by rewrite map_map|done..|].
      destruct (ltb_cases (cd_CapabilityID a) (cd_CapabilityID b)) as [[?|?]|?]; congruence.
    - apply sort_ascending, string_weak_order.
    - apply sort_ascending, string_weak_order.
    - rewrite !sort_perm, Hmap. by apply Permutation_map. }
  rewrite Hs, Hd. done.
Qed.

(** ** What the hash leaves out *)

(** The JSON of a stored candidate: [omitempty] on score, rank, reason codes
    and metadata. *)
Definition candidate_json (c : RouteCandidate) : option string :=
  score ← float_text (cd_Score c);
  Some (obj_text (m_str "capability_id" (cd_CapabilityID c) ++ m_str "kind" (cd_Kind c) ++ m_str "provider" (cd_Provider c)
    ++ (if float_zero (cd_Score c) then [] else [("score", score)])
    ++ (if cd_Rank c =? 0 then [] else m_int "rank" (cd_Rank c))
    ++ match cd_ReasonCodes c with [] => [] | l => [("reason_codes", strings_text l)] end
    ++ match cd_Metadata c with None | Some [] => [] | m => [("metadata", marshal_map m)] end)).

Definition plain_decision (c : RouteCandidate) (codes : list string) : RouteDecision :=
  mkDecision RouteDecisionSchemaV1 "u" "key-1" "" "job-1" "" "tenant-1" "" "node-1" "" (mkAdvisor "noop" "v1" "noop" "")
    c [c] FallbackOpen codes noon.

Definition hashed (d : RouteDecision) : RouteDecision :=
  match HashRouteDecision insertion_sort d with Ok h => with_hash h d | Err _ => d end.

(** An empty metadata map is not stored, so the candidate read back has none;
    but the hash tells the two apart: the reread decision does not verify. *)
Theorem empty_metadata_breaks_the_hash :
  let c := mkCandidate "a" "tool" "builtin" (const "0.5") 1 [] (Some []) in
  let reread := mkCandidate "a" "tool" "builtin" (const "0.5") 1 [] None in
  candidate_json c = candidate_json reread /\
  VerifyDecisionHash insertion_sort (hashed (plain_decision c [])) = None /\
  VerifyDecisionHash insertion_sort (with_hash (rd_DecisionHash (hashed (plain_decision c []))) (plain_decision reread [])) <> None.
Proof. split_and!; [vm_compute; reflexivity..|]. vm_compute. discriminate. Qed.

(** The reasons of a fallback are outside the hash: they can be changed
    without notice. *)
Theorem fallback_reasons_are_not_hashed sort d codes :
  let forged := mkDecision (rd_SchemaVersion d) (rd_DecisionID d) (rd_DecisionKey d) (rd_DecisionHash d) (rd_JobID d)
    (rd_RunID d) (rd_TenantID d) (rd_PlanID d) (rd_NodeID d) (rd_StepID d) (rd_Advisor d) (rd_Selected d)
    (rd_Candidates d) (rd_FallbackPolicy d) codes (rd_CreatedAt d) in
  VerifyDecisionHash sort forged = VerifyDecisionHash sort d.
Proof. done. Qed.

(** ** The configuration *)

(** A configured advisor always has a policy that is one of the three. *)
Lemma configured_policy_valid cfg a : NewAdvisorFromConfig cfg = Ok a -> ValidateFallbackPolicy (na_FallbackPolicy a) = None.
Proof.
  unfold NewAdvisorFromConfig. intros (policy & Hp & Ha)%result_bind_ok.
  assert (Hv : ValidateFallbackPolicy policy = None).
  { unfold resolvePolicy in Hp. destruct (String.eqb _ _); [by injection Hp as <-|].
    destruct (ValidateFallbackPolicy (rc_FallbackPolicy cfg)) eqn:Hq; [done|]. by injection Hp as <-. }
  repeat case_match; simplify_eq; exact Hv.
Qed.

(** The check at startup and the constructor disagree on the mode: a remote
    advisor with an endpoint is valid and cannot be built, and of a disabled
    advisor the mode is checked but never used. *)
Theorem valid_remote_mode_is_refused parse_duration endpoint :
  let cfg := mkAdvisorConfig true "remote" "" "" "" endpoint "" "" false in
  let off := mkAdvisorConfig false "wisepick" "" "" "" "" "" "" false in
  endpoint <> "" ->
  ValidateRoutingAdvisorConfig (fun _ => Some ("https", "host")) parse_duration cfg = None /\
  NewAdvisorFromConfig cfg = Err (ModeError "remote") /\
  ValidateRoutingAdvisorConfig (fun _ => Some ("https", "host")) parse_duration off = Some (ModeError "wisepick") /\
  is_ok (NewAdvisorFromConfig off) = true.
Proof.
  cbn. intros He. split_and!; [|done..]. unfold validateRemoteAdvisorConfig. by rewrite (proj2 (String.eqb_neq _ _)).
Qed.
