(* ===== verification/AgentRouting.v ===== *)
(** The advisor of the agent runtime (internal/agent/routing): the local
    fallback, which takes the first candidate, and the hash of its decisions. *)

From S2P Require Import Prelude Sha256 GoTime Json GoFloat Events Identity GoFloatOps RouteAdvisor.

(** ** The data *)

Record Capability := mkCapability {
  cp_ID : string; cp_Type : string; cp_Name : string; cp_Description : string; cp_CostEstimate : float; cp_LatencyEst : Z }.

Record RouteDecision := mkRouteDecision {
  SelectedID : string; ReasonCodes : option (list string); DecisionHash : string; Timestamp : time;
  Metadata : option (list (string * json)) }.

Inductive routing_error := ErrNoCandidates | ErrAdvisorUnavailable | ErrHashMismatch | ErrDecisionMissing.

Section hashing.
Context (sort : forall A : Type, (A -> A -> bool) -> list A -> list A).

(** A nil slice stays nil. *)
Definition sortedCopy (s : option (list string)) : option (list string) := sort _ String.ltb <$> s.

Definition codes_text (s : option (list string)) : string :=
  match s with Some l => strings_text l | None => "null" end.

(** [json.Marshal(canonical)]; its error is dropped, and then nothing is hashed. *)
Definition canonical_text (d : RouteDecision) : string :=
  match marshal_time (Timestamp d) with
  | Some ts => obj_text (m_str "selected_id" (SelectedID d)
      ++ [("reason_codes", codes_text (sortedCopy (ReasonCodes d))); ("timestamp", ts); ("metadata", marshal_map (Metadata d))])
  | None => EmptyString
  end.

Definition ComputeDecisionHash (d : RouteDecision) : string := "sha256:" +:+ hex_sha256 (canonical_text d).

Definition VerifyDecisionHash (d : RouteDecision) : bool := String.eqb (ComputeDecisionHash d) (DecisionHash d).

(** [LocalFallbackAdvisor.Decide]. *)
Definition Decide (now : time) (candidates : list Capability) : result routing_error RouteDecision :=
  match candidates with
  | [] => Err ErrNoCandidates
  | selected :: _ =>
      let decision := mkRouteDecision (cp_ID selected) (Some ["local_fallback_first_candidate"]) "" (t_utc now) None in
      Ok (mkRouteDecision (SelectedID decision) (ReasonCodes decision) (ComputeDecisionHash decision)
            (Timestamp decision) (Metadata decision))
  end.
End hashing.

(** ** Decisions and their hashes *)

(** The fallback always verifies, takes the first candidate, and fails only
    without candidates. *)
Lemma fallback_verifies sort now candidates :
  match Decide sort now candidates with
  | Ok d => VerifyDecisionHash sort d = true /\ exists c r, candidates = c :: r /\ SelectedID d = cp_ID c
  | Err e => e = ErrNoCandidates /\ candidates = []
  end.
Proof. destruct candidates as [|c r]; [done|]. split; [apply String.eqb_refl|]. by exists c, r. Qed.

Lemma decision_hash_ignores_code_order sort `{!SliceSort sort} d codes codes' :
  codes ≡ₚ codes' -> ReasonCodes d = Some codes ->
  VerifyDecisionHash sort (mkRouteDecision (SelectedID d) (Some codes') (DecisionHash d) (Timestamp d) (Metadata d))
  = VerifyDecisionHash sort d.
Proof.
  intros Hp Hc. unfold VerifyDecisionHash, ComputeDecisionHash, canonical_text. cbn [Timestamp ReasonCodes SelectedID Metadata DecisionHash].
  rewrite Hc. cbn [sortedCopy fmap option_fmap option_map]. by rewrite (sorted_strings_perm sort codes codes').
Qed.

(** The text of a decision whose year has five digits cannot be printed; the
    error is dropped, so all such decisions have one hash and any of them
    passes for any other. *)
Theorem unprintable_decisions_share_a_hash sort d d' :
  marshal_time (Timestamp d) = None -> marshal_time (Timestamp d') = None ->
  VerifyDecisionHash sort (mkRouteDecision (SelectedID d') (ReasonCodes d') (ComputeDecisionHash sort d) (Timestamp d') (Metadata d')) = true.
Proof.
  intros H H'. unfold VerifyDecisionHash, ComputeDecisionHash, canonical_text. cbn [Timestamp DecisionHash].
  rewrite H, H'. apply String.eqb_refl.
Qed.

Example year_ten_thousand : marshal_time (Time (253402300800 * second) 0) = None.
Proof. vm_compute. reflexivity. Qed.
