(* ===== verification/Config.v ===== *)
(** Configuration checks (pkg/config/config.go, internal/app/api/app.go,
    internal/app/worker/app.go): the production gate of both programs, the
    validation of external agents, environment variables in secrets, the key of
    evidence signing, and the settings of the worker's maintenance loops.

    A record holds the fields of its configuration section these functions
    read.  [time.ParseDuration], [url.Parse] and the environment are arguments. *)

From S2P Require Import Prelude Json GoStrings Base64 Gc.

Definition blank (s : string) : bool := String.eqb s "".

(** ** The production gate *)

Record StoreConfig := mkStoreConfig { sc_Type : string; sc_DSN : string }.

Record RuntimeSnapshotConfig := mkSnapshotConfig {
  sn_Enabled : bool; sn_Interval : string; sn_EventThreshold : Z; sn_BatchLimit : Z; sn_KeepLatest : Z }.

Record RuntimeGCConfig := mkRuntimeGC {
  rg_Enabled : bool; rg_Interval : string; rg_TTLDays : Z; rg_BatchSize : Z; rg_ArchiveEnabled : bool;
  rg_ArchiveTTLDays : Z }.

Record Config := mkConfig {
  cf_Profile : string; cf_Strict : bool; cf_Snapshot : RuntimeSnapshotConfig; cf_GC : RuntimeGCConfig;
  cf_JobStore : StoreConfig; cf_EffectStore : StoreConfig; cf_CheckpointStore : StoreConfig;
  cf_AllowOrigins : list string; cf_Auth : bool; cf_JWTKey : string }.

(** [DefaultDevConfig]; authentication is off, which it logs. *)
Definition DefaultDevConfig : Config :=
  mkConfig "dev" false (mkSnapshotConfig true "1h" 1000 50 1) (mkRuntimeGC true "24h" 90 1000 false 0)
    (mkStoreConfig "memory" "") (mkStoreConfig "memory" "") (mkStoreConfig "memory" "") ["*"] false "".

Definition containsDefaultPassword (dsn : string) : bool :=
  negb (blank dsn) && (str_contains dsn "aetheris:aetheris@" || str_contains dsn "password=aetheris").

Definition isSSLEnabled (dsn : string) : bool :=
  if blank dsn then true else negb (str_contains dsn "sslmode=disable").

Definition durable (s : StoreConfig) : bool := String.eqb (sc_Type s) "postgres" && negb (blank (sc_DSN s)).

Inductive gate_error :=
| JobStoreNotPostgres | EffectStoreNotPostgres | CheckpointStoreNotPostgres | DefaultPassword | SSLDisabled
| AnyOrigin | AuthDisabled | NoJWTKey.

Definition is_prod (cfg : Config) : bool := String.eqb (cf_Profile cfg) "prod" || cf_Strict cfg.

Definition stores (cfg : Config) : list StoreConfig := [cf_JobStore cfg; cf_EffectStore cfg; cf_CheckpointStore cfg].

(** internal/app/worker/app.go; a nil configuration passes. *)
Definition worker_validateProductionRuntimeConfig (cfg : option Config) : option gate_error :=
  match cfg with
  | None => None
  | Some c =>
      if negb (is_prod c) then None
      else if negb (durable (cf_JobStore c)) then Some JobStoreNotPostgres
      else if negb (durable (cf_EffectStore c)) then Some EffectStoreNotPostgres
      else if negb (durable (cf_CheckpointStore c)) then Some CheckpointStoreNotPostgres
      else if existsb (fun s => containsDefaultPassword (sc_DSN s)) (stores c) then Some DefaultPassword
      else if existsb (fun s => negb (isSSLEnabled (sc_DSN s))) (stores c) then Some SSLDisabled
      else None
  end.

(** internal/app/api/app.go: the same checks, then those of the API. *)
Definition api_validateProductionRuntimeConfig (cfg : option Config) : option gate_error :=
  match worker_validateProductionRuntimeConfig cfg, cfg with
  | Some e, _ => Some e
  | None, None => None
  | None, Some c =>
      if negb (is_prod c) then None
      else if match cf_AllowOrigins c with [] => true | o :: _ => String.eqb o "*" end then Some AnyOrigin
      else if negb (cf_Auth c) then Some AuthDisabled
      else if blank (cf_JWTKey c) then Some NoJWTKey
      else None
  end.

Definition ValidateProductionMode (c : Config) : option gate_error :=
  if String.eqb (cf_Profile c) "prod" then
    if negb (cf_Auth c) then Some AuthDisabled else if blank (cf_JWTKey c) then Some NoJWTKey else None
  else None.

Definition embeddedDataDir (cfg : option Config) : string :=
  match cfg with
  | None => "data/embedded"
  | Some c => if blank (sc_DSN (cf_JobStore c)) then "data/embedded" else sc_DSN (cf_JobStore c)
  end.

(** ** External agents *)

Record AgentExternalConfig := mkExternal {
  ex_URL : string; ex_Timeout : string; ex_TokenEnv : string; ex_Mode : string; ex_ManifestPath : string;
  ex_ManifestURL : string; ex_Framework : string; ex_Protocol : string; ex_AgentID : string }.

Record AgentDefConfig := mkAgentDef { ag_Type : string; ag_External : AgentExternalConfig }.

Definition normal (s : string) : string := ToLower (TrimSpace s).

Definition one_of (s : string) (l : list string) : bool := existsb (String.eqb s) l.

Definition IsExternalAgentType (agentType : string) : bool :=
  one_of (normal agentType) ["external_http"; "langchain"; "langgraph"; "autogen"; "crewai"; "semantic_kernel"].

Definition ExternalFramework (a : AgentDefConfig) : string :=
  let framework := normal (ex_Framework (ag_External a)) in
  if negb (blank framework) then framework
  else let agentType := normal (ag_Type a) in
       if String.eqb agentType "external_http" then "generic"
       else if IsExternalAgentType agentType then agentType else "".

Definition ExternalMode (a : AgentDefConfig) : string :=
  let mode := normal (ex_Mode (ag_External a)) in if blank mode then "blackbox" else mode.

Definition IsEmbeddedExternalAgent (a : AgentDefConfig) : bool :=
  IsExternalAgentType (ag_Type a) && String.eqb (ExternalMode a) "embedded".

Definition label_char (c : ascii) : bool :=
  in_range 97 122 (byte c) || in_range 48 57 (byte c) || Ascii.eqb c "." || Ascii.eqb c "-" || Ascii.eqb c "_".
Definition isValidExternalFrameworkLabel (label : string) : bool := str_all label_char label && negb (blank label).

Inductive agent_error :=
| URLRequired | URLInvalid | URLScheme | TimeoutInvalid | TimeoutNotPositive | ModeUnsupported | ManifestRequired
| ManifestURLInvalid | ManifestURLScheme | FrameworkInvalid | ProtocolUnsupported | AgentIDUnused.

Section agents.
Context (parse_url : string -> option (string * string)) (parse_duration : string -> option Z).

(** A URL with a scheme and a host, over http or https. *)
Definition check_url (invalid badScheme : agent_error) (raw : string) : option agent_error :=
  match parse_url raw with
  | None => Some invalid
  | Some (scheme, host) =>
      if blank scheme || blank host then Some invalid
      else if negb (String.eqb scheme "http") && negb (String.eqb scheme "https") then Some badScheme else None
  end.

Definition first_failure (checks : list (option agent_error)) : option agent_error :=
  foldr (fun c rest => match c with Some e => Some e | None => rest end) None checks.

(** One round of the loop, its checks in order; an unset token variable is
    only logged. *)
Definition validate_agent (a : AgentDefConfig) : option agent_error :=
  let x := ag_External a in
  let mode := ExternalMode a in
  let framework := ExternalFramework a in
  let proto := normal (ex_Protocol x) in
  let url := TrimSpace (ex_URL x) in
  if negb (IsExternalAgentType (ag_Type a)) then None
  else first_failure
    [(if blank url && negb (String.eqb mode "embedded") then Some URLRequired else None);
     (if blank url then None else check_url URLInvalid URLScheme (ex_URL x));
     (if blank (ex_Timeout x) then None
      else match parse_duration (ex_Timeout x) with
           | None => Some TimeoutInvalid
           | Some d => if d <=? 0 then Some TimeoutNotPositive else None
           end);
     (if one_of mode ["blackbox"; "embedded"] then None else Some ModeUnsupported);
     (if String.eqb mode "embedded" then
        if blank (TrimSpace (ex_ManifestPath x)) && blank (TrimSpace (ex_ManifestURL x)) && blank url then Some ManifestRequired
        else if blank (ex_ManifestURL x) then None
        else check_url ManifestURLInvalid ManifestURLScheme (ex_ManifestURL x)
      else None);
     (if negb (blank framework) && negb (isValidExternalFrameworkLabel framework) then Some FrameworkInvalid else None);
     (if one_of proto [""; "json"; "sse_legacy"] then None else Some ProtocolUnsupported);
     (if negb (blank (ex_AgentID x)) && negb (String.eqb proto "sse_legacy") then Some AgentIDUnused else None)].

(** The agents in the order the map is iterated in; the first error and its
    agent. *)
Fixpoint ValidateExternalAgents (agents : list (string * AgentDefConfig)) : option (string * agent_error) :=
  match agents with
  | [] => None
  | (name, a) :: r => match validate_agent a with Some e => Some (name, e) | None => ValidateExternalAgents r end
  end.

(** ** The worker's maintenance loops (internal/app/worker/app.go) *)

Record runtimeSnapshotOps := mkSnapshotOps {
  so_Enabled : bool; so_Interval : Z; so_EventThreshold : Z; so_BatchLimit : Z; so_KeepLatest : Z }.

Record runtimeGCOps := mkGCOps {
  go_Enabled : bool; go_Interval : Z; go_TTLDays : Z; go_BatchSize : Z; go_ArchiveEnabled : bool; go_ArchiveTTLDays : Z }.

Definition an_hour : Z := 3600 * 1000000000.

Definition positive_or (d z : Z) : Z := if 0 <? z then z else d.
Definition interval_or (d : Z) (s : string) : Z :=
  match parse_duration (TrimSpace s) with Some z => positive_or d z | None => d end.

Definition runtimeSnapshotOpsConfig (cfg : option Config) : runtimeSnapshotOps :=
  match cfg with
  | None => mkSnapshotOps true an_hour 1000 50 1
  | Some c =>
      let s := cf_Snapshot c in
      mkSnapshotOps (sn_Enabled s) (interval_or an_hour (sn_Interval s)) (positive_or 1000 (sn_EventThreshold s))
        (positive_or 50 (sn_BatchLimit s)) (positive_or 1 (sn_KeepLatest s))
  end.

Definition runtimeGCOpsConfig (cfg : option Config) : runtimeGCOps :=
  match cfg with
  | None => mkGCOps true (24 * an_hour) 90 1000 false 0
  | Some c =>
      let g := cf_GC c in
      mkGCOps (rg_Enabled g) (interval_or (24 * an_hour) (rg_Interval g)) (positive_or 90 (rg_TTLDays g))
        (positive_or 1000 (rg_BatchSize g)) (rg_ArchiveEnabled g) (positive_or 0 (rg_ArchiveTTLDays g))
  end.

Definition gcJobStoreConfig (ops : runtimeGCOps) : GCConfig :=
  mkGCConfig (go_Enabled ops) (go_TTLDays ops) (go_ArchiveEnabled ops) (go_ArchiveTTLDays ops) (go_Interval ops) (go_BatchSize ops).

(** [parseDuration] of internal/app/api/app.go. *)
Definition parseDuration (s : string) (defaultVal : Z) : Z :=
  if blank s then defaultVal else default defaultVal (parse_duration s).
End agents.

(** ** Environment variables *)

Section environment.
Context (getenv : string -> string).

Definition env_value (v : string) : string :=
  if HasPrefix v "$" then
    let envVar := TrimPrefix (TrimSuffix v "}") "${" in
    if blank (getenv envVar) then v else getenv envVar
  else v.

(** The secrets of a configuration: the API keys by provider, the headers of
    the MCP bridge and the two keys of evidence signing. *)
Record Secrets := mkSecrets {
  sk_LLM : gmap string string; sk_Embedding : gmap string string; sk_Vision : gmap string string;
  sk_MCPHeaders : gmap string string; sk_PrivateKeyBase64 : string; sk_PublicKeyBase64 : string }.

Definition replaceEnvVars (s : Secrets) : Secrets :=
  mkSecrets (env_value <$> sk_LLM s) (env_value <$> sk_Embedding s) (env_value <$> sk_Vision s)
    (env_value <$> sk_MCPHeaders s) (env_value (sk_PrivateKeyBase64 s)) (env_value (sk_PublicKeyBase64 s)).

(** The file a configuration is loaded from: the first variable that is set. *)
Definition config_path (vars : list string) (fallback : string) : string :=
  match List.find (fun v => negb (blank (getenv v))) vars with Some v => getenv v | None => fallback end.

Definition LoadAPIConfig_path : string := config_path ["API_CONFIG_PATH"; "CONFIG_PATH"] "configs/api.yaml".
Definition LoadWorkerConfig_path : string := config_path ["WORKER_CONFIG_PATH"; "CONFIG_PATH"] "configs/worker.yaml".
End environment.

(** ** The key of evidence signing (internal/app/api/app.go) *)

Record EvidenceSigningConfig := mkSigning {
  es_Enabled : bool; es_KeyID : string; es_PrivateKeyBase64 : string; es_PublicKeyBase64 : string }.

(** [http.EvidenceSigningConfig]. *)
Record SigningKey := mkSigningKey { key_Enabled : bool; key_KeyID : string; key_PrivateKey : string }.

Inductive signing_error :=
| PrivateKeyMissing | PrivateKeyEncoding | PrivateKeyLength (got : Z) | PublicKeyEncoding | PublicKeyLength (got : Z)
| KeysDoNotMatch.

(** [ed25519.PrivateKey.Public]: the last 32 of its 64 bytes. *)
Definition ed25519_public (privateKey : string) : string := str_drop 32 privateKey.

Definition evidenceSigningConfigFromConfig (cfg : EvidenceSigningConfig) : result signing_error SigningKey :=
  if negb (es_Enabled cfg) then Ok (mkSigningKey false "" "")
  else if blank (TrimSpace (es_PrivateKeyBase64 cfg)) then Err PrivateKeyMissing
  else match b64_decode (TrimSpace (es_PrivateKeyBase64 cfg)) with
       | None => Err PrivateKeyEncoding
       | Some privateKey =>
           if negb (String.length privateKey =? 64)%nat then Err (PrivateKeyLength (Z.of_nat (String.length privateKey)))
           else
             let keyID := TrimSpace (es_KeyID cfg) in
             let key := mkSigningKey true (if blank keyID then "default" else keyID) privateKey in
             if blank (TrimSpace (es_PublicKeyBase64 cfg)) then Ok key
             else match b64_decode (TrimSpace (es_PublicKeyBase64 cfg)) with
                  | None => Err PublicKeyEncoding
                  | Some publicKey =>
                      if negb (String.length publicKey =? 32)%nat then Err (PublicKeyLength (Z.of_nat (String.length publicKey)))
                      else if String.eqb publicKey (ed25519_public privateKey) then Ok key else Err KeysDoNotMatch
                  end
       end.

(** ** What passes the gate *)

(** A store for production: postgres with a DSN of its own password, TLS not
    switched off. *)
Definition secured (s : StoreConfig) : Prop :=
  sc_Type s = "postgres" /\ sc_DSN s <> "" /\ str_contains (sc_DSN s) "aetheris:aetheris@" = false /\
  str_contains (sc_DSN s) "password=aetheris" = false /\ str_contains (sc_DSN s) "sslmode=disable" = false.

Lemma durable_iff s : durable s = true <-> sc_Type s = "postgres" /\ sc_DSN s <> "".
Proof.
  unfold durable, blank. rewrite andb_true_iff, negb_true_iff. by rewrite String.eqb_eq, String.eqb_neq.
Qed.

Lemma secured_iff s :
  secured s <-> durable s = true /\ containsDefaultPassword (sc_DSN s) = false /\ isSSLEnabled (sc_DSN s) = true.
Proof.
  rewrite durable_iff. unfold secured, containsDefaultPassword, isSSLEnabled, blank.
  destruct (String.eqb_spec (sc_DSN s) "") as [->|Hne]; cbn [negb andb].
  - split; [by intros (_ & ? & _)|by intros ((_ & ?) & _)].
  - rewrite orb_false_iff, negb_true_iff. tauto.
Qed.

Lemma worker_gate_iff c :
  worker_validateProductionRuntimeConfig (Some c) = None <-> is_prod c = false \/ Forall secured (stores c).
Proof.
  unfold worker_validateProductionRuntimeConfig. destruct (is_prod c); cbn [negb]; [|by split; [left|]].
  unfold stores. rewrite !Forall_cons, !secured_iff. cbn [existsb].
  destruct (durable (cf_JobStore c)), (durable (cf_EffectStore c)), (durable (cf_CheckpointStore c)); cbn [negb];
    try (split; [done|intros [|(?&?&?&?)]; naive_solver]).
  destruct (containsDefaultPassword (sc_DSN (cf_JobStore c))), (containsDefaultPassword (sc_DSN (cf_EffectStore c))),
    (containsDefaultPassword (sc_DSN (cf_CheckpointStore c))); cbn [orb];
    try (split; [done|intros [|(?&?&?&?)]; naive_solver]).
  destruct (isSSLEnabled (sc_DSN (cf_JobStore c))), (isSSLEnabled (sc_DSN (cf_EffectStore c))),
    (isSSLEnabled (sc_DSN (cf_CheckpointStore c))); cbn [orb negb];
    (split; [|intros [|(?&?&?&?)]; naive_solver]); try done.
  intros _. right. split_and!; done || constructor.
Qed.

(** The API program starts exactly in development mode, or with three secured
    stores, a first origin other than the wildcard, authentication and a key
    for it; whatever it accepts the worker accepts. *)
Theorem production_gate_iff c :
  (api_validateProductionRuntimeConfig (Some c) = None <->
   is_prod c = false \/
   Forall secured (stores c) /\ (exists o r, cf_AllowOrigins c = o :: r /\ o <> "*") /\ cf_Auth c = true /\ cf_JWTKey c <> "") /\
  (api_validateProductionRuntimeConfig (Some c) = None -> worker_validateProductionRuntimeConfig (Some c) = None).
Proof.
  pose proof (worker_gate_iff c) as Hw. unfold api_validateProductionRuntimeConfig.
  destruct (worker_validateProductionRuntimeConfig (Some c)) as [e|].
  { split; [|done]. split; [done|]. intros [Hp|(Hs & _)]; [apply Hw; by left|apply Hw; by right]. }
  split; [|done]. destruct (is_prod c); cbn [negb]; [|by split; [left|]].
  destruct (proj1 Hw eq_refl) as [|Hs]; [done|]. unfold blank.
  destruct (cf_AllowOrigins c) as [|o r].
  { split; [done|]. intros [|(_ & (o & r & ? & _) & _)]; done. }
  destruct (String.eqb_spec o "*") as [->|Ho].
  { split; [done|]. intros [|(_ & (o & r' & [= <- <-] & ?) & _)]; done. }
  destruct (cf_Auth c); cbn [negb]; [|split; [done|]; by intros [|(_ & _ & ? & _)]].
  destruct (String.eqb_spec (cf_JWTKey c) "") as [->|Hk].
  - split; [done|]. by intros [|(_ & _ & _ & ?)].
  - split; [|done]. intros _. right. split_and!; [done| |done..]. by exists o, r.
Qed.

Definition secure_store : StoreConfig := mkStoreConfig "postgres" "postgres://app:s3cret@db/aetheris?sslmode=require".
Definition prod_config (origins : list string) (profile : string) (strict auth : bool) : Config :=
  mkConfig profile strict (cf_Snapshot DefaultDevConfig) (cf_GC DefaultDevConfig) secure_store secure_store secure_store
    origins auth "key".

(** Only the first origin is looked at: a list that allows every origin in
    second place passes. *)
Theorem later_wildcard_is_accepted :
  api_validateProductionRuntimeConfig (Some (prod_config ["https://a.example"; "*"] "prod" false true)) = None.
Proof. vm_compute. reflexivity. Qed.

(** [ValidateProductionMode] ignores strict mode, the gate of the API does not. *)
Theorem strict_mode_is_not_production_mode :
  ValidateProductionMode (prod_config ["https://a.example"] "dev" true false) = None /\
  api_validateProductionRuntimeConfig (Some (prod_config ["https://a.example"] "dev" true false)) = Some AuthDisabled.
Proof. vm_compute. done. Qed.

(** ** External agents *)

Lemma agents_valid_iff parse_url parse_duration agents :
  ValidateExternalAgents parse_url parse_duration agents = None <->
  Forall (fun na => validate_agent parse_url parse_duration (snd na) = None) agents.
Proof.
  induction agents as [|[name a] r IH]; cbn; [by split; constructor|]. rewrite Forall_cons. cbn.
  destruct (validate_agent parse_url parse_duration a); [split; [done|by intros [? _]]|]. rewrite IH. tauto.
Qed.

(** Whether a configuration is accepted does not depend on the order in which
    the map of agents is iterated. *)
Theorem agent_validation_ignores_order parse_url parse_duration agents agents' :
  agents ≡ₚ agents' ->
  ValidateExternalAgents parse_url parse_duration agents = None <->
  ValidateExternalAgents parse_url parse_duration agents' = None.
Proof. intros Hp. by rewrite !agents_valid_iff, Hp. Qed.

Lemma first_failure_none checks : first_failure checks = None <-> Forall (fun c => c = None) checks.
Proof.
  induction checks as [|[e|] r IH]; cbn; [by split; constructor|..]; rewrite Forall_cons; [by split; [|intros [? _]]|].
  rewrite IH. tauto.
Qed.

(** An agent that is accepted can be run: its endpoint is a URL over http or
    https unless it is embedded, and then it has a source for its manifest; its
    timeout is positive. *)
Theorem accepted_agent_is_runnable parse_url parse_duration a :
  let x := ag_External a in
  IsExternalAgentType (ag_Type a) = true -> validate_agent parse_url parse_duration a = None ->
  (ExternalMode a = "blackbox" \/ ExternalMode a = "embedded") /\
  (TrimSpace (ex_URL x) <> "" -> exists scheme host, parse_url (ex_URL x) = Some (scheme, host) /\ host <> "" /\
     (scheme = "http" \/ scheme = "https")) /\
  (ExternalMode a = "blackbox" -> TrimSpace (ex_URL x) <> "") /\
  (ExternalMode a = "embedded" -> TrimSpace (ex_ManifestPath x) <> "" \/ TrimSpace (ex_ManifestURL x) <> "" \/ TrimSpace (ex_URL x) <> "") /\
  (ex_Timeout x <> "" -> exists d, parse_duration (ex_Timeout x) = Some d /\ 0 < d).
Proof.
  intros x Ht. unfold validate_agent. rewrite Ht. cbn [negb]. fold x. rewrite first_failure_none, !Forall_cons.
  intros (H1 & H2 & H3 & H4 & H5 & _).
  assert (Hmode : ExternalMode a = "blackbox" \/ ExternalMode a = "embedded").
  { destruct (one_of (ExternalMode a) _) eqn:Ho; [|done]. cbn in Ho. rewrite !orb_true_iff, !String.eqb_eq in Ho. naive_solver. }
  split; [exact Hmode|]. unfold blank in *. split_and!.
  - intros Hu. apply String.eqb_neq in Hu. rewrite Hu in H2. unfold check_url in H2. destruct (parse_url (ex_URL x)) as [[scheme host]|]; [|done].
    exists scheme, host. unfold blank in H2. destruct (String.eqb_spec scheme ""), (String.eqb_spec host ""); cbn in H2; try done.
    destruct (String.eqb_spec scheme "http"), (String.eqb_spec scheme "https"); cbn in H2; naive_solver.
  - intros Hm Hu. rewrite Hm, Hu in H1. done.
  - intros Hm. rewrite Hm in H5. cbn in H5. destruct (String.eqb_spec (TrimSpace (ex_ManifestPath x)) ""); [|by left].
    destruct (String.eqb_spec (TrimSpace (ex_ManifestURL x)) ""); [|by right; left].
    destruct (String.eqb_spec (TrimSpace (ex_URL x)) ""); [done|by right; right].
  - intros Hto. apply String.eqb_neq in Hto. rewrite Hto in H3. destruct (parse_duration (ex_Timeout x)) as [d|]; [|done].
    exists d. split; [done|]. destruct (d <=? 0) eqn:Hd; [done|]. by apply Z.leb_gt in Hd.
Qed.

(** ** The maintenance loops *)

(** Whatever is configured, the tickers get a positive interval (they panic
    otherwise), every scan a positive threshold and limit, and the collection a
    positive retention and batch. *)
Theorem maintenance_settings_positive parse_duration cfg :
  let s := runtimeSnapshotOpsConfig parse_duration cfg in
  let g := runtimeGCOpsConfig parse_duration cfg in
  0 < so_Interval s /\ 0 < so_EventThreshold s /\ 0 < so_BatchLimit s /\ 0 < so_KeepLatest s /\
  0 < go_Interval g /\ 0 < gc_TTLDays (gcJobStoreConfig g) /\ 0 < gc_BatchSize (gcJobStoreConfig g) /\
  0 <= gc_ArchiveTTLDays (gcJobStoreConfig g).
Proof.
  assert (Hp : forall d z, 0 < d -> 0 < positive_or d z) by (intros d z Hd; unfold positive_or; destruct (Z.ltb_spec 0 z); lia).
  assert (Hi : forall d s, 0 < d -> 0 < interval_or parse_duration d s)
    by (intros d s Hd; unfold interval_or; case_match; auto).
  assert (Ha : forall z, 0 <= positive_or 0 z) by (intros z; unfold positive_or; destruct (Z.ltb_spec 0 z); lia).
  destruct cfg as [c|]; cbn; split_and!; try done; try (by apply Hi); try (by apply Hp); apply Ha.
Qed.

(** ** Secrets *)

Lemma str_rev_one c : str_rev (String c EmptyString) = String c EmptyString.
Proof. done. Qed.

Lemma drop_one c s : str_drop 1 (String c s) = s.
Proof. by destruct s. Qed.

Lemma trim_brace s : TrimSuffix (s +:+ "}") "}" = s.
Proof.
  unfold TrimSuffix, HasSuffix. rewrite str_rev_app, str_rev_one. cbn [String.append].
  unfold TrimPrefix, HasPrefix. cbn [String.prefix]. destruct (ascii_dec "}" "}") as [_|]; [|done].
  destruct (str_rev s) eqn:Hr; cbn [String.prefix String.length]; rewrite drop_one, <- Hr; apply str_rev_rev.
Qed.

(** A value [${NAME}] is replaced by the variable when it is set. *)
Lemma braced_variable_replaced getenv name :
  getenv name <> "" -> env_value getenv ("${" +:+ (name +:+ "}")) = getenv name.
Proof.
  intros Hv. unfold env_value. rewrite <- str_app_assoc, trim_brace.
  assert (Hp : HasPrefix (("${" +:+ name) +:+ "}") "$" = true) by (cbn; by destruct name). rewrite Hp.
  assert (Ht : TrimPrefix ("${" +:+ name) "${" = name) by (unfold TrimPrefix; cbn; by destruct name). rewrite Ht.
  unfold blank. by rewrite (proj2 (String.eqb_neq _ _)).
Qed.

(** A value [$NAME] without braces is recognised and never replaced: the
    variable looked up is the one named [$NAME]. *)
Theorem bare_variable_is_not_replaced getenv :
  getenv "$OPENAI_API_KEY" = "" -> env_value getenv "$OPENAI_API_KEY" = "$OPENAI_API_KEY".
Proof.
  intros H. unfold env_value. assert (Hn : TrimPrefix (TrimSuffix "$OPENAI_API_KEY" "}") "${" = "$OPENAI_API_KEY") by (vm_compute; reflexivity).
  rewrite Hn, H. done.
Qed.

(** An enabled signing key has 64 bytes and a name, and belongs to the public
    key when one is configured. *)
Theorem signing_key_is_sound cfg k :
  evidenceSigningConfigFromConfig cfg = Ok k -> es_Enabled cfg = true ->
  key_Enabled k = true /\ key_KeyID k <> "" /\ String.length (key_PrivateKey k) = 64%nat /\
  b64_decode (TrimSpace (es_PrivateKeyBase64 cfg)) = Some (key_PrivateKey k) /\
  (TrimSpace (es_PublicKeyBase64 cfg) <> "" ->
   b64_decode (TrimSpace (es_PublicKeyBase64 cfg)) = Some (ed25519_public (key_PrivateKey k))).
Proof.
  intros Hk He. unfold evidenceSigningConfigFromConfig in Hk. rewrite He in Hk. cbn [negb] in Hk. unfold blank in Hk.
  destruct (String.eqb_spec (TrimSpace (es_PrivateKeyBase64 cfg)) ""); [done|].
  destruct (b64_decode (TrimSpace (es_PrivateKeyBase64 cfg))) as [priv|]; [|done].
  destruct (Nat.eqb_spec (String.length priv) 64) as [Hl|]; [|done]. cbn [negb] in Hk.
  set (key := mkSigningKey true _ priv) in Hk.
  assert (Hid : key_KeyID key <> "") by (subst key; cbn; by destruct (String.eqb_spec (TrimSpace (es_KeyID cfg)) "")).
  destruct (String.eqb_spec (TrimSpace (es_PublicKeyBase64 cfg)) "") as [He'|_]; [injection Hk as <-; done|].
  destruct (b64_decode (TrimSpace (es_PublicKeyBase64 cfg))) as [pub|]; [|done].
  destruct (Nat.eqb_spec (String.length pub) 32); [|done]. cbn [negb] in Hk.
  destruct (String.eqb_spec pub (ed25519_public priv)) as [Hpub|]; [|done]. injection Hk as <-. split_and!; [done..|].
  intros _. cbn. by rewrite Hpub.
Qed.
