(* ===== verification/WorkerOps.v ===== *)
(** The worker's maintenance (internal/app/worker/app.go): snapshots of jobs
    with many events, over any store of snapshots, and the collection run with
    the worker's settings. *)

From S2P Require Import Prelude GoTime Json Events MemStore Replay ReplayProps Gc Config.

(** ** Snapshots *)

(** [jobstore.SnapshotStore] and [ListJobsWithHighEventCount]; [snaps] is what
    the store holds of a job, by version. *)
Class SnapshotStore (S : Type) := {
  snaps : S -> string -> gmap Z SnapshotPayload;
  ListJobsWithHighEventCount : Z -> Z -> S -> option (list string);
  CreateSnapshot : string -> Z -> SnapshotPayload -> S -> S * bool;
  GetLatestSnapshot : string -> S -> option (Z * SnapshotPayload);
  DeleteSnapshotsBefore : string -> Z -> S -> S * bool;
  create_law : forall job v p s s' ok, CreateSnapshot job v p s = (s', ok) ->
    forall j, snaps s' j = if ok && String.eqb j job then <[v := p]> (snaps s j) else snaps s j;
  latest_law : forall job s v p, GetLatestSnapshot job s = Some (v, p) ->
    snaps s job !! v = Some p /\ forall v', is_Some (snaps s job !! v') -> v' <= v;
  latest_none_law : forall job s, GetLatestSnapshot job s = None -> snaps s job = ∅;
  delete_law : forall job v s s' ok, DeleteSnapshotsBefore job v s = (s', ok) ->
    forall j, snaps s' j = if ok && String.eqb j job then filter (fun kv => v <= kv.1) (snaps s j) else snaps s j
}.

Section trigger.
Context {S : Type} `{!SnapshotStore S}.

(** The two reads of a job's events, each [None] when it fails: the context is
    built from the first, the version taken from the second. *)
Definition snapshot_job (keepLatest : Z) (job : string) (first second : option (list JobEvent)) (s : S) : outcome S :=
  match first with
  | None => Ret s
  | Some es =>
      run rc <- BuildFromEvents es ;;
      Ret (match rc, second with
           | Some rc, Some es' =>
               match SerializeReplayContext rc with
               | None => s
               | Some p =>
                   let '(s1, ok) := CreateSnapshot job (Z.of_nat (length es')) p s in
                   if negb ok then s1
                   else if keepLatest <=? 1 then
                     match GetLatestSnapshot job s1 with
                     | Some (v, _) => fst (DeleteSnapshotsBefore job v s1)
                     | None => s1
                     end
                   else s1
               end
           | _, _ => s
           end)
  end.

(** [reads] gives the two reads of a job, [expired] whether the ten minutes are
    over when its turn comes. *)
Fixpoint snapshot_jobs (keepLatest : Z) (reads : string -> option (list JobEvent) * option (list JobEvent))
    (expired : string -> bool) (jobs : list string) (s : S) : outcome S :=
  match jobs with
  | [] => Ret s
  | job :: r =>
      if expired job then Ret s
      else run s' <- snapshot_job keepLatest job (fst (reads job)) (snd (reads job)) s ;;
           snapshot_jobs keepLatest reads expired r s'
  end.

(** [triggerSnapshotsForHighEventJobs], for a store of snapshots. *)
Definition triggerSnapshotsForHighEventJobs (eventThreshold limit keepLatest : Z)
    (reads : string -> option (list JobEvent) * option (list JobEvent)) (expired : string -> bool) (s : S) : outcome S :=
  match ListJobsWithHighEventCount eventThreshold limit s with
  | None => Ret s
  | Some jobs => snapshot_jobs keepLatest reads expired jobs s
  end.
End trigger.

(** [runGC] with the worker's settings. *)
Definition runGC {S : Type} (fuel : nat) (cancelled : nat -> option string) (now : time) (st : gc_store S) (cfg : runtimeGCOps)
    (s : S) : option (S * option string) :=
  GC fuel cancelled now st (gcJobStoreConfig cfg) s.

(** ** What a snapshot holds *)

Section laws.
Context {S : Type} `{!SnapshotStore S}.

(** The other jobs' snapshots are untouched. *)
Lemma snapshot_job_other keepLatest job first second s s' j :
  snapshot_job keepLatest job first second s = Ret s' -> j <> job -> snaps s' j = snaps s j.
Proof.
  intros H Hj. unfold snapshot_job in H. destruct first as [es|]; [|by injection H as <-].
  apply outcome_bind_ret in H as (rc & _ & H). injection H as <-. destruct rc as [rc|], second as [es'|]; try done.
  destruct (SerializeReplayContext rc) as [p|]; [|done].
  destruct (CreateSnapshot job _ p s) as [s1 ok] eqn:Hc. pose proof (create_law _ _ _ _ _ _ Hc j) as Hs1.
  rewrite (proj2 (String.eqb_neq j job) Hj), andb_false_r in Hs1. destruct ok; cbn [negb]; [|done].
  destruct (keepLatest <=? 1); [|done]. destruct (GetLatestSnapshot job s1) as [[v q]|]; [|done].
  destruct (DeleteSnapshotsBefore job v s1) as [s2 ok2] eqn:Hd. cbn. rewrite (delete_law _ _ _ _ _ Hd j).
  by rewrite (proj2 (String.eqb_neq j job) Hj), andb_false_r.
Qed.

(** A job whose stream is not written in between gets a snapshot of its whole
    stream, and with [keepLatest] one it becomes its only snapshot, unless the
    store holds a later one. *)
Theorem quiet_job_gets_its_snapshot job es rc p s s' :
  BuildFromEvents es = Ret (Some rc) -> SerializeReplayContext rc = Some p ->
  snd (CreateSnapshot job (Z.of_nat (length es)) p s) = true ->
  (forall v q s1, GetLatestSnapshot job s1 = Some (v, q) -> snd (DeleteSnapshotsBefore job v s1) = true) ->
  (forall v, is_Some (snaps s job !! v) -> v <= Z.of_nat (length es)) ->
  snapshot_job 1 job (Some es) (Some es) s = Ret s' ->
  snaps s' job = {[Z.of_nat (length es) := p]}.
Proof.
  intros Hb Hp Hok Hdel Hmax. unfold snapshot_job. rewrite Hb. cbn [outcome_bind]. rewrite Hp.
  set (n := Z.of_nat (length es)) in *. destruct (CreateSnapshot job n p s) as [s1 ok] eqn:Hc. cbn in Hok. subst ok.
  pose proof (create_law _ _ _ _ _ _ Hc job) as Hs1. rewrite String.eqb_refl in Hs1. cbn [andb] in Hs1. cbn [negb Z.leb Z.compare].
  intros [= <-]. destruct (GetLatestSnapshot job s1) as [[v q]|] eqn:Hl.
  2: { apply latest_none_law in Hl. rewrite Hs1 in Hl. by apply insert_non_empty in Hl. }
  assert (v = n) as ->.
  { pose proof (latest_law _ _ _ _ Hl) as [Hv Hge]. apply Z.le_antisymm.
    - rewrite Hs1 in Hv. destruct (decide (v = n)) as [->|Hne]; [done|]. rewrite lookup_insert_ne in Hv by done.
      apply Hmax. by rewrite Hv.
    - apply Hge. rewrite Hs1, lookup_insert_eq. done. }
  specialize (Hdel _ _ _ Hl). destruct (DeleteSnapshotsBefore job n s1) as [s2 ok2] eqn:Hd. cbn in Hdel |- *. subst ok2.
  rewrite (delete_law _ _ _ _ _ Hd job), String.eqb_refl. cbn [andb]. rewrite Hs1. apply map_eq. intros k.
  destruct (decide (k = n)) as [->|Hne].
  - rewrite lookup_singleton_eq. apply map_lookup_filter_Some. split; [by rewrite lookup_insert_eq|]. cbn. lia.
  - rewrite lookup_singleton_ne by done. apply map_lookup_filter_None. right. intros q'.
    rewrite lookup_insert_ne by done. intros Hk. cbn. pose proof (Hmax k ltac:(by rewrite Hk)). lia.
Qed.
End laws.

(** ** Events between the two reads *)

(** The events appended between the two reads are covered by the version of
    the snapshot and missing from its contents: a replay from it never applies
    them, whatever they are and whatever follows. *)
Theorem racing_snapshot_skips_events es1 es2 es3 p :
  BuildFromSnapshot (es1 ++ es2 ++ es3) (Some (Z.of_nat (length (es1 ++ es2)), Some p)) =
  match es3 with
  | [] => Ret (Some (deserializeSnapshot p))
  | _ => run rc <- applyIncrementalEvents (deserializeSnapshot p) es3 ;; Ret (Some rc)
  end.
Proof.
  unfold BuildFromSnapshot. rewrite app_assoc, (length_app (es1 ++ es2) es3).
  replace (Z.to_nat _) with (length (es1 ++ es2)) by lia. rewrite drop_app_length. by destruct es3.
Qed.

(** The table of the snapshots, as the PostgreSQL store keeps it. *)
Abbreviation table := (gmap string (gmap Z SnapshotPayload)).

Definition newest (m : gmap Z SnapshotPayload) : option (Z * SnapshotPayload) :=
  map_fold (fun v p best => match best with Some (v', p') => if v' <? v then Some (v, p) else best | None => Some (v, p) end) None m.

Lemma newest_spec m :
  match newest m with
  | Some (v, p) => m !! v = Some p /\ forall v', is_Some (m !! v') -> v' <= v
  | None => m = ∅
  end.
Proof.
  unfold newest. apply (map_fold_weak_ind (fun r m => match r with
    | Some (v, p) => m !! v = Some p /\ forall v', is_Some (m !! v') -> v' <= v
    | None => m = ∅ end)); [done|].
  intros v p m' r Hv IH. destruct r as [[v0 p0]|].
  - destruct IH as [H0 Hle]. destruct (Z.ltb_spec v0 v); cbn.
    + split; [by rewrite lookup_insert_eq|]. intros v' Hs. destruct (decide (v' = v)) as [->|Hne]; [lia|].
      rewrite lookup_insert_ne in Hs by done. specialize (Hle _ Hs). lia.
    + assert (Hne : v <> v0) by (intros ->; congruence). split; [by rewrite lookup_insert_ne|].
      intros v' Hs. destruct (decide (v' = v)) as [->|]; [lia|]. rewrite lookup_insert_ne in Hs by done. by apply Hle.
  - rewrite IH. split; [by rewrite lookup_insert_eq|]. intros v' Hs. destruct (decide (v' = v)) as [->|Hne]; [lia|].
    rewrite lookup_insert_ne, lookup_empty in Hs by done. by destruct Hs.
Qed.

#[export] Program Instance table_store : SnapshotStore table := {|
  snaps t job := get_default ∅ t job;
  ListJobsWithHighEventCount _ _ t := Some (elements (dom t));
  CreateSnapshot job v p t := (<[job := <[v := p]> (get_default ∅ t job)]> t, true);
  GetLatestSnapshot job t := newest (get_default ∅ t job);
  DeleteSnapshotsBefore job v t := (<[job := filter (fun kv => v <= kv.1) (get_default ∅ t job)]> t, true)
|}.
Next Obligation.
  intros job v p s s' ok [= <- <-] j. cbn. unfold get_default. destruct (String.eqb_spec j job) as [->|Hne].
  - by rewrite lookup_insert_eq.
  - by rewrite lookup_insert_ne.
Qed.
Next Obligation.
  intros job s v p H. pose proof (newest_spec (get_default ∅ s job)) as Hn. by rewrite H in Hn.
Qed.
Next Obligation.
  intros job s H. pose proof (newest_spec (get_default ∅ s job)) as Hn. by rewrite H in Hn.
Qed.
Next Obligation.
  intros job v s s' ok [= <- <-] j. cbn. unfold get_default. destruct (String.eqb_spec j job) as [->|Hne].
  - by rewrite lookup_insert_eq.
  - by rewrite lookup_insert_ne.
Qed.

Definition resumed (es : list JobEvent) (t : table) (job : string) : outcome (option ReplayContext) :=
  BuildFromSnapshot es (match GetLatestSnapshot job t with Some (v, p) => Some (v, Some p) | None => None end).

Definition completed_nodes (x : outcome (option ReplayContext)) : list string :=
  match x with Ret (Some rc) => elements (rc_CompletedNodeIDs rc) | _ => [] end.

(** A node that finishes between the reads is not completed in the context the
    job resumes with, and so runs again; a full replay has it. *)
Theorem racing_snapshot_forgets_finished_node :
  exists t, snapshot_job 1 "job" (Some [demo_plan; demo_started]) (Some [demo_plan; demo_started; demo_finished]) (∅ : table) = Ret t /\
    completed_nodes (resumed [demo_plan; demo_started; demo_finished] t "job") = [] /\
    completed_nodes (BuildFromEvents [demo_plan; demo_started; demo_finished]) = ["n"].
Proof. eexists. split; [reflexivity|]. split; vm_compute; reflexivity. Qed.
