(* ===== verification/Memory.v ===== *)
(** The memories of an agent (internal/agent/memory): the recent messages of a
    session, the step results of its task, episodes, long-term values, and the
    memory composed of several.

    Every method runs under its mutex, so it is one step.  Time and uuid are
    arguments; a Go map is iterated in an order of its own, which is an
    argument where it can be observed.  Metadata are what JSON can hold. *)

From S2P Require Import Prelude GoTime Json AgentState Effects.

Definition lastn {A} (n : nat) (l : list A) : list A := drop (length l - n) l.

(** ** Short-term memory (short_term.go) *)

Record ShortTerm := mkShortTerm { st_sessions : gmap string (list LLMMessage); st_maxPer : Z }.

Definition defaultMaxMessages : Z := 50.

Definition NewShortTerm (maxMessagesPerSession : Z) : ShortTerm :=
  mkShortTerm ∅ (if maxMessagesPerSession <=? 0 then defaultMaxMessages else maxMessagesPerSession).

Definition ShortTerm_GetMessages (sessionID : string) (s : ShortTerm) : list LLMMessage := get_default [] (st_sessions s) sessionID.

Definition ShortTerm_Append (sessionID role content : string) (s : ShortTerm) : ShortTerm :=
  let list := get_default [] (st_sessions s) sessionID ++ [mkLLMMessage role content] in
  let list := if st_maxPer s <? Z.of_nat (length list) then drop (length list - Z.to_nat (st_maxPer s)) list else list in
  mkShortTerm (<[sessionID := list]> (st_sessions s)) (st_maxPer s).

Definition ShortTerm_Clear (sessionID : string) (s : ShortTerm) : ShortTerm :=
  mkShortTerm (delete sessionID (st_sessions s)) (st_maxPer s).

(** ** Items and backends (memory.go) *)

Record MemoryItem := mkItem { mi_Type : string; mi_Content : string; mi_Metadata : gmap string json; mi_At : time }.

(** [item.Metadata[key].(string)], the empty string when there is none. *)
Definition meta_str (item : MemoryItem) (key : string) : string :=
  match mi_Metadata item !! key with Some (JStr s) => s | _ => EmptyString end.

(** [Memory]: recalling does not change a backend. *)
Class Memory (S : Type) := {
  Recall : string -> S -> result string (list MemoryItem);
  Store : time -> MemoryItem -> S -> S * option string
}.

Section composite.
Context {S : Type} `{!Memory S}.

(** [CompositeMemory.Recall]: a backend that fails is left out. *)
Definition Composite_Recall (query : string) (backends : list S) : list MemoryItem :=
  concat (map (fun b => match Recall query b with Ok items => items | Err _ => [] end) backends).

(** [CompositeMemory.Store]: every backend is tried. *)
Fixpoint store_all (now : time) (item : MemoryItem) (backends : list S) : list S * list string :=
  match backends with
  | [] => ([], [])
  | b :: r =>
      let '(b', e) := Store now item b in
      let '(r', errs) := store_all now item r in
      (b' :: r', match e with Some e => e :: errs | None => errs end)
  end.

Definition Composite_Store (now : time) (item : MemoryItem) (backends : list S) : list S * option string :=
  let '(bs, errs) := store_all now item backends in
  (bs, match errs with [] => None | _ => Some ("failed to store to backends: " +:+ join "; " errs) end).
End composite.

(** ** Working memory (working.go) *)

(** [WorkingSession]: the messages and variables of the agent's session. *)
Definition WorkingSession_Recall (session : option Session) : list MemoryItem :=
  match session with
  | None => []
  | Some s => map (fun m => mkItem "working" (m_Content m) {["role" := JStr (m_Role m)]} (m_Time m)) (se_Messages s)
  end.

Definition WorkingSession_Store (now : time) (item : MemoryItem) (session : option Session) : option Session :=
  match session with
  | None => None
  | Some s =>
      Some (if negb (String.eqb (meta_str item "role") EmptyString)
            then AgentState.AddMessage now (meta_str item "role") (mi_Content item) s
            else if negb (String.eqb (meta_str item "key") EmptyString)
            then SetVariable now (meta_str item "key") (JStr (mi_Content item)) s
            else AgentState.AddMessage now "system" (mi_Content item) s)
  end.

Record StepResult := mkStepResult { sr_Tool : string; sr_Input : string; sr_Output : string; sr_Err : string }.

Definition GetStepResults (sessionID : string) (w : gmap string (list StepResult)) : list StepResult := get_default [] w sessionID.

Definition SetStepResults (sessionID : string) (results : list StepResult) (w : gmap string (list StepResult))
    : gmap string (list StepResult) :=
  match results with [] => delete sessionID w | _ => <[sessionID := results]> w end.

Definition Working_Clear (sessionID : string) (w : gmap string (list StepResult)) : gmap string (list StepResult) :=
  delete sessionID w.

Definition Working_Recall (query : string) (w : gmap string (list StepResult)) : list MemoryItem := [].

Definition Working_Store (item : MemoryItem) (w : gmap string (list StepResult)) : gmap string (list StepResult) :=
  let sid := meta_str item "session_id" in
  if String.eqb sid EmptyString then w
  else <[sid := get_default [] w sid ++
          [mkStepResult (meta_str item "tool") (meta_str item "input") (mi_Content item) (meta_str item "error")]]> w.

(** ** Episodes (episodic.go, episodic_mem.go) *)

Record Episodic := mkEpisodic { ep_items : list MemoryItem; ep_limit : Z }.

Definition NewEpisodic (limit : Z) : Episodic := mkEpisodic [] (if limit <=? 0 then 1000 else limit).

(** [for len(items) > limit { items = items[1:] }]. *)
Fixpoint drop_oldest (fuel : nat) (limit : Z) (items : list MemoryItem) : list MemoryItem :=
  match fuel, items with
  | S f, _ :: r => if limit <? Z.of_nat (length items) then drop_oldest f limit r else items
  | _, _ => items
  end.

Definition Episodic_Store (item : MemoryItem) (e : Episodic) : Episodic :=
  let items := ep_items e ++ [item] in mkEpisodic (drop_oldest (length items) (ep_limit e) items) (ep_limit e).

Definition Episodic_Recall (query : string) (e : Episodic) : list MemoryItem := ep_items e.

Record EpisodicEntry := mkEntry {
  ee_ID : string; ee_AgentID : string; ee_SessionID : string; ee_JobID : string; ee_Summary : string;
  ee_Payload : gmap string json; ee_CreatedAt : time }.

(** [episodicMem.Append]: the id and time of the caller's entry are set too. *)
Definition episodic_Append (now : time) (uuid : string) (entry : EpisodicEntry) (entries : list EpisodicEntry)
    : EpisodicEntry * list EpisodicEntry :=
  let e := mkEntry (if String.eqb (ee_ID entry) EmptyString then "ep-" +:+ uuid else ee_ID entry) (ee_AgentID entry)
             (ee_SessionID entry) (ee_JobID entry) (ee_Summary entry) (ee_Payload entry)
             (if is_zero (ee_CreatedAt entry) then now else ee_CreatedAt entry) in
  (e, entries ++ [e]).

(** The loops from the newest entry down, up to [limit] of the wanted ones. *)
Fixpoint newest_first (wanted : EpisodicEntry -> bool) (limit : Z) (rev_list : list EpisodicEntry) (out : list EpisodicEntry)
    : list EpisodicEntry :=
  match rev_list with
  | [] => out
  | e :: r =>
      if wanted e then
        let out := out ++ [e] in
        if (0 <? limit) && (limit <=? Z.of_nat (length out)) then out else newest_first wanted limit r out
      else newest_first wanted limit r out
  end.

Definition episodic_ListByAgent (agentID : string) (limit : Z) (entries : list EpisodicEntry) : list EpisodicEntry :=
  newest_first (fun e => String.eqb (ee_AgentID e) agentID) limit (rev entries) [].

Definition episodic_ListBySession (agentID sessionID : string) (limit : Z) (entries : list EpisodicEntry) : list EpisodicEntry :=
  newest_first (fun e => String.eqb (ee_AgentID e) agentID && String.eqb (ee_SessionID e) sessionID) limit (rev entries) [].

(** ** Long-term values (longterm_mem.go) *)

Record KeyValue := mkKeyValue { kv_Namespace : string; kv_Key : string; kv_Value : string }.

Definition longterm_Get (agentID namespace key : string) (s : gmap string (gmap string (gmap string string))) : option string :=
  ns ← s !! agentID; kb ← ns !! namespace; kb !! key.

Definition longterm_Set (agentID namespace key value : string) (s : gmap string (gmap string (gmap string string)))
    : gmap string (gmap string (gmap string string)) :=
  let ns := get_default ∅ s agentID in
  <[agentID := <[namespace := <[key := value]> (get_default ∅ ns namespace)]> ns]> s.

(** [walk_spaces] is the order the namespaces are merged in, [walk_keys] the
    order the entries are listed in. *)
Definition longterm_ListByAgent (walk_spaces : gmap string (gmap string string) -> list (gmap string string))
    (walk_keys : gmap string string -> list (string * string)) (agentID namespace : string) (limit : Z)
    (s : gmap string (gmap string (gmap string string))) : list KeyValue :=
  match s !! agentID with
  | None => []
  | Some ns =>
      let list := if negb (String.eqb namespace EmptyString) then get_default ∅ ns namespace
                  else foldl (fun acc m => m ∪ acc) ∅ (walk_spaces ns) in
      let name := if String.eqb namespace EmptyString then "_" else namespace in
      let all := map (fun kv => mkKeyValue name kv.1 kv.2) (walk_keys list) in
      if 0 <? limit then take (Z.to_nat limit) all else all
  end.

(** ** The recent messages are the last ones *)

Lemma lastn_all {A} n (l : list A) : (length l <= n)%nat -> lastn n l = l.
Proof. intros H. unfold lastn. by replace (length l - n)%nat with 0%nat by lia. Qed.

Lemma lastn_snoc {A} n (l : list A) x : (0 < n)%nat -> lastn n (lastn n l ++ [x]) = lastn n (l ++ [x]).
Proof.
  intros Hn. unfold lastn. rewrite !length_app, length_drop. cbn [length].
  destruct (Nat.le_gt_cases (length l) n).
  - replace (length l - n)%nat with 0%nat by lia. cbn [drop]. do 2 f_equal. lia.
  - replace (length l - (length l - n) + 1 - n)%nat with 1%nat by lia.
    rewrite (drop_app_le l) by lia. rewrite drop_app_le by (rewrite length_drop; lia).
    rewrite drop_drop. do 2 f_equal. lia.
Qed.

Inductive chat_op := OpAppend (sessionID role content : string) | OpClear (sessionID : string).

Definition chat_step (s : ShortTerm) (o : chat_op) : ShortTerm :=
  match o with OpAppend id r c => ShortTerm_Append id r c s | OpClear id => ShortTerm_Clear id s end.

(** What was appended to a session since it was last cleared. *)
Definition said_step (id : string) (acc : list LLMMessage) (o : chat_op) : list LLMMessage :=
  match o with
  | OpAppend id' r c => if String.eqb id' id then acc ++ [mkLLMMessage r c] else acc
  | OpClear id' => if String.eqb id' id then [] else acc
  end.

Definition said (id : string) (ops : list chat_op) : list LLMMessage := foldl (said_step id) [] ops.

(** After any operations on any sessions a session's messages are the last
    [maxPer] ones said in it since it was cleared; so they are never more than
    that, and no other session shows in them. *)
Theorem short_term_keeps_the_last maxMessages ops id :
  let s := foldl chat_step (NewShortTerm maxMessages) ops in
  ShortTerm_GetMessages id s = lastn (Z.to_nat (st_maxPer s)) (said id ops) /\
  Z.of_nat (length (ShortTerm_GetMessages id s)) <= st_maxPer s /\ 0 < st_maxPer s.
Proof.
  cbv zeta. assert (H : ShortTerm_GetMessages id (foldl chat_step (NewShortTerm maxMessages) ops) =
    lastn (Z.to_nat (st_maxPer (foldl chat_step (NewShortTerm maxMessages) ops))) (said id ops) /\
    0 < st_maxPer (foldl chat_step (NewShortTerm maxMessages) ops)).
  { induction ops as [|o ops [IH Hpos]] using rev_ind.
    { split; [done|]. unfold NewShortTerm. cbn. destruct (Z.leb_spec maxMessages 0); [done|lia]. }
    rewrite !foldl_snoc. unfold said. rewrite foldl_snoc. fold (said id ops).
    set (s := foldl chat_step _ ops) in *. destruct o as [id' r c|id']; cbn [chat_step said_step].
    - split; [|done]. unfold ShortTerm_GetMessages at 1. cbn [ShortTerm_Append st_sessions st_maxPer].
      destruct (String.eqb_spec id' id) as [->|Hne].
      2: { unfold get_default in *. by rewrite lookup_insert_ne. }
      unfold get_default at 1. rewrite lookup_insert_eq. cbn [from_option Datatypes.id]. change (get_default [] (st_sessions s) id) with (ShortTerm_GetMessages id s) in *. rewrite IH.
      rewrite <- lastn_snoc by lia. set (l := lastn _ _ ++ [_]).
      destruct (Z.ltb_spec (st_maxPer s) (Z.of_nat (length l))); [done|]. rewrite lastn_all; [done|lia].
    - split; [|done]. unfold ShortTerm_GetMessages, get_default in *. cbn [ShortTerm_Clear st_sessions st_maxPer].
      destruct (String.eqb_spec id' id) as [->|Hne]; [by rewrite lookup_delete_eq|by rewrite lookup_delete_ne]. }
  destruct H as [-> Hpos]. split_and!; [done| |done]. unfold lastn. rewrite length_drop. lia.
Qed.

(** ** Episodes *)

Lemma drop_oldest_spec fuel limit items :
  0 < limit -> (length items <= fuel)%nat -> drop_oldest fuel limit items = lastn (Z.to_nat limit) items.
Proof.
  intros Hl. revert items. induction fuel as [|f IH]; intros [|x r] Hf; cbn [length] in Hf; [done|lia|done|].
  cbn [drop_oldest]. destruct (Z.ltb_spec limit (Z.of_nat (length (x :: r)))) as [Hlt|Hge]; cbn [length] in *.
  - rewrite IH by lia. unfold lastn. cbn [length]. by replace (S (length r) - Z.to_nat limit)%nat with (S (length r - Z.to_nat limit)) by lia.
  - by rewrite lastn_all by (cbn; lia).
Qed.

(** The episodic memory recalls the last [limit] items stored. *)
Theorem episodic_keeps_the_last limit items query :
  let e := foldl (fun e item => Episodic_Store item e) (NewEpisodic limit) items in
  Episodic_Recall query e = lastn (Z.to_nat (ep_limit e)) items /\ 0 < ep_limit e.
Proof.
  cbv zeta. unfold Episodic_Recall. induction items as [|x items [IH Hp]] using rev_ind.
  { split; [done|]. unfold NewEpisodic. cbn. destruct (Z.leb_spec limit 0); [done|lia]. }
  rewrite foldl_snoc. set (e := foldl _ _ items) in *. split; [|done]. cbn [Episodic_Store ep_items ep_limit].
  rewrite drop_oldest_spec by done. rewrite IH. apply lastn_snoc. lia.
Qed.

Lemma newest_first_spec wanted limit l out :
  (limit <= 0 \/ Z.of_nat (length out) < limit) ->
  newest_first wanted limit l out =
  (if 0 <? limit then take (Z.to_nat limit) (out ++ filter (fun e => wanted e = true) l) else out ++ filter (fun e => wanted e = true) l).
Proof.
  revert out. induction l as [|e l IH]; intros out Hout; cbn [newest_first].
  { rewrite filter_nil, app_nil_r. destruct (Z.ltb_spec 0 limit); [|done]. rewrite take_ge; [done|lia]. }
  rewrite filter_cons. destruct (wanted e) eqn:Hw.
  - rewrite decide_True by done. destruct (Z.ltb_spec 0 limit) as [Hl|Hl]; cbn [andb].
    + destruct (Z.leb_spec limit (Z.of_nat (length (out ++ [e])))) as [Hle|Hgt].
      * rewrite length_app in Hle. cbn in Hle.
        set (F := filter _ _). change (e :: F) with ([e] ++ F). rewrite app_assoc, take_app_le by (rewrite length_app; cbn; lia).
        rewrite take_ge; [done|rewrite length_app; cbn; lia].
      * rewrite IH by (right; lia). by rewrite <- app_assoc.
    + rewrite IH by (by left). by rewrite <- app_assoc.
  - rewrite decide_False by done. by rewrite IH.
Qed.

(** Episodes are listed newest first, those of the agent (and session) only,
    up to the limit; an episode just appended comes first. *)
Theorem episodes_listed_newest_first agentID limit entries :
  episodic_ListByAgent agentID limit entries =
    (let mine := filter (fun e => String.eqb (ee_AgentID e) agentID = true) (rev entries) in
     if 0 <? limit then take (Z.to_nat limit) mine else mine) /\
  forall now uuid entry, ee_AgentID entry = agentID ->
    let '(e, entries') := episodic_Append now uuid entry entries in
    head (episodic_ListByAgent agentID limit entries') = Some e /\ ee_ID e <> "" /\
    (is_zero now = false -> is_zero (ee_CreatedAt e) = false).
Proof.
  assert (H : forall l, episodic_ListByAgent agentID limit l =
    (let mine := filter (fun e => String.eqb (ee_AgentID e) agentID = true) (rev l) in
     if 0 <? limit then take (Z.to_nat limit) mine else mine)).
  { intros l. unfold episodic_ListByAgent. rewrite newest_first_spec; [done|]. cbn. lia. }
  split; [apply H|]. intros now uuid entry Ha. unfold episodic_Append. cbv zeta. set (e := mkEntry _ _ _ _ _ _ _).
  split_and!.
  - rewrite H. cbv zeta. rewrite rev_unit, filter_cons. subst e. cbn [ee_AgentID]. rewrite Ha, String.eqb_refl.
    rewrite decide_True by done. destruct (Z.ltb_spec 0 limit); [|done].
    by destruct (Z.to_nat limit) eqn:Hn; [lia|].
  - subst e. cbn. by destruct (String.eqb_spec (ee_ID entry) "").
  - intros Hnow. subst e. cbn. by destruct (is_zero (ee_CreatedAt entry)) eqn:Hz.
Qed.

(** ** Long-term values *)

(** A value that was set is found, and no other agent's, namespace's or key's
    value changes. *)
Lemma longterm_get_set agentID ns key value s a n k :
  longterm_Get a n k (longterm_Set agentID ns key value s) =
  if bool_decide ((a, n, k) = (agentID, ns, key)) then Some value else longterm_Get a n k s.
Proof.
  unfold longterm_Get, longterm_Set, get_default. destruct (decide (a = agentID)) as [->|Ha].
  2: { rewrite lookup_insert_ne by done. case_bool_decide; [congruence|done]. }
  rewrite lookup_insert_eq. cbn [mbind option_bind]. destruct (decide (n = ns)) as [->|Hn].
  2: { rewrite lookup_insert_ne by done. case_bool_decide; [congruence|].
       destruct (s !! agentID) as [m|]; cbn; [done|]. by rewrite lookup_empty. }
  rewrite lookup_insert_eq. cbn [mbind option_bind]. destruct (decide (k = key)) as [->|Hk].
  - rewrite lookup_insert_eq. by case_bool_decide.
  - rewrite lookup_insert_ne by done. case_bool_decide; [congruence|].
    destruct (s !! agentID) as [m|]; cbn; [|by rewrite !lookup_empty].
    destruct (m !! ns) as [m'|]; cbn; [done|]. by rewrite lookup_empty.
Qed.

(** Listed over all namespaces, equal keys hide each other: of two values with
    one key one is left, under the namespace [_]. *)
Theorem namespaces_hide_each_other :
  let s := longterm_Set "a" "work" "name" "Ada" (longterm_Set "a" "home" "name" "Lovelace" ∅) in
  longterm_Get "a" "home" "name" s = Some "Lovelace" /\ longterm_Get "a" "work" "name" s = Some "Ada" /\
  length (longterm_ListByAgent (fun ns => map snd (map_to_list ns)) map_to_list "a" "" 0 s) = 1%nat /\
  map kv_Namespace (longterm_ListByAgent (fun ns => map snd (map_to_list ns)) map_to_list "a" "" 0 s) = ["_"].
Proof. vm_compute. done. Qed.

(** ** The composed memory *)

(** What the composite recalls is what its working backends recall, in order;
    storing reaches every backend, also after one that fails. *)
Theorem composite_reaches_every_backend {S} `{!Memory S} now item (backends : list S) :
  let '(bs, err) := Composite_Store now item backends in
  bs = map (fun b => fst (Store now item b)) backends /\
  (err = None <-> Forall (fun b => snd (Store now item b) = None) backends).
Proof.
  unfold Composite_Store.
  assert (H : fst (store_all now item backends) = map (fun b => fst (Store now item b)) backends /\
    (snd (store_all now item backends) = [] <-> Forall (fun b => snd (Store now item b) = None) backends)).
  { induction backends as [|b r [IH1 IH2]]; cbn [store_all map]; [by split; [|split; constructor]|].
    destruct (Store now item b) as [b' e] eqn:Hs. destruct (store_all now item r) as [r' errs]. cbn in *.
    rewrite IH1, Forall_cons, Hs. cbn. split; [done|]. destruct e; [split; [done|by intros [? _]]|]. rewrite IH2. tauto. }
  destruct (store_all now item backends) as [bs errs]. cbn in H. destruct H as [-> He]. split; [done|]. rewrite <- He.
  by destruct errs.
Qed.

(** The working memory of step results stores and never recalls; the one of a
    session recalls what it stored last, as a message unless the item names a
    variable. *)
Theorem session_memory_recalls_messages now item s :
  (forall w query, Working_Recall query (Working_Store item w) = []) /\
  (meta_str item "key" = "" \/ meta_str item "role" <> "" ->
   last (WorkingSession_Recall (WorkingSession_Store now item (Some s))) =
   Some (mkItem "working" (mi_Content item)
           {["role" := JStr (if String.eqb (meta_str item "role") "" then "system" else meta_str item "role")]} now)).
Proof.
  split; [done|]. intros H. unfold WorkingSession_Store. destruct (String.eqb_spec (meta_str item "role") "") as [Hr|Hr]; cbn [negb].
  - destruct H as [Hk|]; [|done]. rewrite Hk. cbn. by rewrite map_app, last_app.
  - cbn. by rewrite map_app, last_app.
Qed.
