(* ===== verification/Forensics.v ===== *)
(** Forensics over the stored jobs (internal/api/http/forensics_query.go): the
    query with its filters and pages, the batch export, the consistency check
    and the log of accesses.

    [sort] is any function with the contract of sort.Slice; [order] is the
    order the job store walks its map in.  A body is what the binder makes of
    it; the body of an answer is the value that is printed, its members in any
    order.  A package is the list of its files; [sign] and [verify] are ed25519,
    [export_text] the text of an export's error, [unprintable] what the
    framework answers for a body it cannot print.

    Second half: the theorems, and the evidence graph of a job. *)

From S2P Require Import Prelude GoTime Json GoStrings TimeParse GoFloat Events MemStore ProofChain JobFsm JobQueue Evidence EvidenceProps EvidenceServer JobStore AccessControl JobApi JobApiProps Trace JobViews GoFloatOps.

(** ** Requests and answers (pkg/forensics/types.go) *)

Record QueryRequest := mkQuery {
  qr_TenantID : string; qr_TimeRange : TimeRange; qr_ToolFilter : list string; qr_EventFilter : list string;
  qr_AgentFilter : list string; qr_StatusFilter : list string; qr_Limit : Z; qr_Cursor : string }.

Record JobSummary := mkJobSummary {
  js_JobID : string; js_AgentID : string; js_TenantID : string; js_CreatedAt : time; js_Status : string;
  js_EventCount : Z; js_ToolCalls : list string; js_KeyEvents : list string }.

Record QueryResponse := mkQueryResponse { qp_Jobs : list JobSummary; qp_NextCursor : string; qp_HasMore : bool }.

Record ConsistencyReport := mkReport {
  cr_JobID : string; cr_HashChainValid : bool; cr_LedgerConsistent : bool; cr_EvidenceComplete : bool;
  cr_Issues : list verify_error }.

Record BatchExportTask := mkTask {
  bt_TaskID : string; bt_JobIDs : list string; bt_Status : string; bt_Progress : Z; bt_CreatedAt : time;
  bt_UpdatedAt : time; bt_ResultURL : string; bt_Error : string }.

(** ** What a stream tells *)

Definition tool_name_of (e : JobEvent) : option string :=
  if bool_decide (ev_Type e = ToolInvocationFinished) then
    match unmarshal_map (ev_Payload e) with
    | Ok (Some pl) => match lookup_field "tool_name" pl with
                      | Some (JStr name) => if String.eqb name EmptyString then None else Some name
                      | _ => None
                      end
    | _ => None
    end
  else None.

Definition keyEventTypes : list EventType := [CriticalDecisionMade; HumanApprovalGiven; PaymentExecuted; EmailSent].

Definition key_event_of (e : JobEvent) : option string :=
  if has_type keyEventTypes e then Some (event_type_string (ev_Type e)) else None.

(** ** Filters *)

Definition matchToolFilter (toolName : string) (filters : list string) : bool :=
  existsb (fun f =>
    let f := TrimSpace f in
    negb (String.eqb f EmptyString) &&
    if HasSuffix f "*" then HasPrefix toolName (str_take (String.length f - 1) f) else String.eqb toolName f) filters.

Definition matchEventFilter (eventType : string) (filters : list string) : bool :=
  existsb (fun f => String.eqb (TrimSpace f) eventType) filters.

Definition match_any (p : string -> list string -> bool) (names filters : list string) : bool :=
  match filters with [] => true | _ => existsb (fun n => p n filters) names end.

Definition matchAnyToolFilter : list string -> list string -> bool := match_any matchToolFilter.
Definition matchAnyEventFilter : list string -> list string -> bool := match_any matchEventFilter.

Definition status_ok (filters : list string) (st : JobStatus) : bool :=
  match filters with
  | [] => true
  | _ => existsb (fun f => String.eqb (ToLower (TrimSpace f)) (ToLower (status_string st))) filters
  end.

(** ** Pages *)

Definition page_limit (limit : Z) : Z := let limit := if limit <=? 0 then 20 else limit in if 200 <? limit then 200 else limit.

(** Where the cursor moves the end of the time range to. *)
Definition cursor_range (cursor : string) (r : TimeRange) : TimeRange :=
  let cursor := TrimSpace cursor in
  if String.eqb cursor EmptyString then r
  else match cut_colon cursor with
       | Some (stamp, _) =>
           match parseRFC3339 stamp with
           | Some t => if is_zero (tr_End r) || t_after (tr_End r) t then mkRange (tr_Start r) t else r
           | None => r
           end
       | None => r
       end.

Definition cursor_text (j : JobSummary) : string := format_rfc3339nano (js_CreatedAt j) +:+ ":" +:+ js_JobID j.

Definition query_tenant (cx : Context) (req : QueryRequest) : string :=
  or_else (or_else (TrimSpace (qr_TenantID req)) (cx_TenantID cx)) "default".

Definition agent_ids (filters : list string) : list string :=
  filter (fun a => a <> EmptyString) (map TrimSpace filters).

Section forensics.
Context {R S : Type} `{!JobRepo R} `{!JobStore S}.
Variable sort : forall A : Type, (A -> A -> bool) -> list A -> list A.

(** The names in a set, sorted. *)
Definition sorted_set (names : list string) : list string := sort _ String.ltb (elements (list_to_set names : gset string)).

Definition extractToolCallsFromJobEvents (es : list JobEvent) : list string := sorted_set (omap tool_name_of es).
Definition extractKeyEventsFromJobEvents (es : list JobEvent) : list string := sorted_set (omap key_event_of es).

Definition summary_of (j : Job) (es : list JobEvent) : JobSummary :=
  mkJobSummary (job_ID j) (job_AgentID j) (job_TenantID j) (job_CreatedAt j) (status_string (job_Status j))
    (Z.of_nat (length es)) (extractToolCallsFromJobEvents es) (extractKeyEventsFromJobEvents es).

(** The loop over the jobs of the page. *)
Fixpoint summaries (req : QueryRequest) (s : S) (jobs : list Job) : outcome (list JobSummary) :=
  match jobs with
  | [] => Ret []
  | j :: rest =>
      if status_ok (qr_StatusFilter req) (job_Status j) then
        run l <- js_ListEvents (job_ID j) s ;;
        let sm := summary_of j (fst l) in
        run more <- summaries req s rest ;;
        Ret (if matchAnyToolFilter (js_ToolCalls sm) (qr_ToolFilter req) && matchAnyEventFilter (js_KeyEvents sm) (qr_EventFilter req)
             then sm :: more else more)
      else summaries req s rest
  end.

Definition query_page (order : list string) (cx : Context) (req : QueryRequest) (r : R) (s : S) : outcome QueryResponse :=
  let limit := page_limit (qr_Limit req) in
  let range := cursor_range (qr_Cursor req) (qr_TimeRange req) in
  let jobs := ListByTenant order (query_tenant cx req) (agent_ids (qr_AgentFilter req)) range (limit + 1) (repo_mem r) in
  let hasMore := limit <? Z.of_nat (length jobs) in
  let jobs := if hasMore then take (Z.to_nat limit) jobs else jobs in
  run sums <- summaries req s jobs ;;
  let sums := sort _ (fun a b => t_after (js_CreatedAt a) (js_CreatedAt b)) sums in
  Ret (mkQueryResponse sums
         (match last sums with Some l => if hasMore then cursor_text l else EmptyString | None => EmptyString end) hasMore).

Definition summary_json (j : JobSummary) : option json :=
  t ← time_json (js_CreatedAt j);
  Some (JObj [("job_id", JStr (js_JobID j)); ("agent_id", JStr (js_AgentID j)); ("tenant_id", JStr (js_TenantID j));
              ("created_at", t); ("status", JStr (js_Status j)); ("event_count", JNum (itoa (js_EventCount j)));
              ("tool_calls", JArr (map JStr (js_ToolCalls j))); ("key_events", JArr (map JStr (js_KeyEvents j)))]).

Definition query_json (q : QueryResponse) : option json :=
  jobs ← mapM summary_json (qp_Jobs q);
  Some (JObj [("jobs", JArr jobs); ("total_count", JNum (itoa (Z.of_nat (length (qp_Jobs q))))); ("page", JNum "0");
              ("next_cursor", JStr (qp_NextCursor q)); ("has_more", JBool (qp_HasMore q))]).

Variable unprintable : Response.

Definition forensics_disabled : Response := refuse 503 "forensics query requires job and event stores".

Definition ForensicsQuery (order : list string) (cx : Context) (req : result unit QueryRequest) (h : Handler R S) : outcome Response :=
  match req with
  | Err _ => Ret (refuse 400 "invalid request")
  | Ok req =>
      match hd_jobStore h, hd_jobEventStore h with
      | Some r, Some s => run q <- query_page order cx req r s ;; Ret (cjson unprintable (query_json q))
      | _, _ => Ret forensics_disabled
      end
  end.

(** ** Packages of several jobs *)

Variables (sign : string -> string -> string) (signing : option (string * string)) (export_text : export_error -> string).

Fixpoint replace_char (c d : ascii) (s : string) : string :=
  match s with EmptyString => EmptyString | String x r => String (if Ascii.eqb x c then d else x) (replace_char c d r) end.

Definition sanitizeFileName (s : string) : string :=
  or_else (replace_char "\" "_" (replace_char "/" "_" (TrimSpace s))) "unknown".

(** ["%03d"] of a positive number. *)
Definition three_digits (i : Z) : string := if i <? 1000 then dec_fixed 3 i EmptyString else itoa i.

Definition entry_name (i : Z) (jobID : string) : string := "job_" +:+ three_digits i +:+ "_" +:+ sanitizeFileName jobID +:+ ".zip".

(** [now n] is the time the n-th package is built at. *)
Fixpoint batch_from (now : Z -> time) (i : Z) (jobIDs : list string) (s : S)
    : outcome (result string (list (string * list (string * string)))) :=
  match jobIDs with
  | [] => Ret (Ok [])
  | jobID :: rest =>
      run l <- js_ListEvents jobID s ;;
      run p <- buildForensicsPackage sign (now i) jobID (fst l) signing ;;
      match p with
      | Err e => Ret (Err ("export job " +:+ jobID +:+ " failed: " +:+ export_text e))
      | Ok files =>
          run more <- batch_from now (i + 1) rest s ;;
          Ret (match more with Err e => Err e | Ok es => Ok ((entry_name i jobID, files) :: es) end)
      end
  end.

Definition buildBatchForensicsPackage (now : Z -> time) : list string -> S -> outcome (result string (list (string * list (string * string)))) :=
  batch_from now 1.

Abbreviation tasks := (gmap string BatchExportTask).

(** The goroutine the handler starts is [run_batch]. *)
Definition ForensicsBatchExport (now : time) (uuid : string) (req : result unit (list string)) (h : Handler R S) (ts : tasks)
    : tasks * Response :=
  match req with
  | Err _ => (ts, refuse 400 "invalid request")
  | Ok [] => (ts, refuse 400 "job_ids is required")
  | Ok jobIDs =>
      match hd_jobEventStore h with
      | None => (ts, refuse 503 "forensics export requires job event store")
      | Some _ =>
          let taskID := "task_" +:+ uuid in
          (<[taskID := mkTask taskID jobIDs "processing" 0 (t_utc now) (t_utc now) EmptyString EmptyString]> ts,
           mkResponse 202 (JObj [("task_id", JStr taskID); ("status", JStr "processing");
                                 ("poll_url", JStr ("/api/forensics/export-status/" +:+ taskID))]))
      end
  end.

Definition close_task (now : time) (err : option string) (t : BatchExportTask) : BatchExportTask :=
  match err with
  | Some e => mkTask (bt_TaskID t) (bt_JobIDs t) "failed" (bt_Progress t) (bt_CreatedAt t) (t_utc now) (bt_ResultURL t) e
  | None => mkTask (bt_TaskID t) (bt_JobIDs t) "completed" 100 (bt_CreatedAt t) (t_utc now) (bt_ResultURL t) (bt_Error t)
  end.

Definition run_batch (clock : Z -> time) (now : time) (taskID : string) (jobIDs : list string) (s : S) (ts : tasks) : outcome tasks :=
  run p <- buildBatchForensicsPackage clock jobIDs s ;;
  Ret (match ts !! taskID with
       | None => ts
       | Some t => <[taskID := close_task now (match p with Err e => Some e | Ok _ => None end) t]> ts
       end).

Definition task_json (t : BatchExportTask) : option json :=
  c ← time_json (bt_CreatedAt t); u ← time_json (bt_UpdatedAt t);
  Some (JObj ([("task_id", JStr (bt_TaskID t)); ("job_ids", JArr (map JStr (bt_JobIDs t))); ("status", JStr (bt_Status t));
               ("progress", JNum (itoa (bt_Progress t))); ("created_at", c); ("updated_at", u)]
              ++ match bt_ResultURL t with EmptyString => [] | u => [("result_url", JStr u)] end
              ++ match bt_Error t with EmptyString => [] | e => [("error", JStr e)] end)).

Definition ForensicsExportStatus (taskID : string) (ts : tasks) : Response :=
  match TrimSpace taskID with
  | EmptyString => refuse 400 "task_id is required"
  | id => match ts !! id with None => refuse 404 "task not found" | Some t => cjson unprintable (task_json t) end
  end.

(** ** One job *)

(** The tenant is checked only when there is a job store. *)
Definition tenant_gate {A} (cx : Context) (jobID : string) (h : Handler R S) (k : outcome (result Response A)) : outcome (result Response A) :=
  match hd_jobStore h with
  | Some _ => match getJobAndCheckTenant cx jobID h with Err resp => Ret (Err resp) | Ok _ => k end
  | None => k
  end.

Definition events_of_job {A} (cx : Context) (jobID : string) (h : Handler R S) (k : string -> list JobEvent -> result Response A) : outcome (result Response A) :=
  match TrimSpace jobID with
  | EmptyString => Ret (Err (refuse 400 "job_id is required"))
  | id =>
      match hd_jobEventStore h with
      | None => Ret (Err (refuse 503 "job event store is not configured"))
      | Some s => tenant_gate cx id h (run l <- js_ListEvents id s ;; Ret (k id (fst l)))
      end
  end.

Variable verify : string -> string -> string -> bool.

Definition report_of (jobID : string) (v : VerifyResult) : ConsistencyReport :=
  mkReport jobID (vr_HashChainValid v) (vr_LedgerValid v) (vr_ManifestValid v && vr_EventsValid v)
    (if vr_OK v then [] else vr_Errors v).

Definition ForensicsConsistencyCheck (now : time) (cx : Context) (jobID : string) (h : Handler R S)
    : outcome (result Response ConsistencyReport) :=
  match TrimSpace jobID with
  | EmptyString => Ret (Err (refuse 400 "job_id is required"))
  | id =>
      tenant_gate cx id h
        match hd_jobEventStore h with
        | None => Ret (Err (refuse 500 "build forensics package failed: job event store is not configured"))
        | Some s =>
            run l <- js_ListEvents id s ;;
            run p <- buildForensicsPackage sign now id (fst l) signing ;;
            match p with
            | Err e => Ret (Err (refuse 500 ("build forensics package failed: " +:+ export_text e)))
            | Ok files => run v <- VerifyEvidenceZip verify (Some (entries files)) None ;; Ret (Ok (report_of id v))
            end
        end
  end.

Definition audit_entry (e : JobEvent) : option json :=
  t ← time_json (ev_CreatedAt e);
  Some (JObj ([("event_id", JStr (ev_ID e)); ("job_id", JStr (ev_JobID e)); ("created_at", t); ("type", event_type_json e)]
    ++ match ev_Payload e with
       | EmptyString => []
       | p => match unmarshal_map p with
              | Ok o => [("payload", match o with Some l => reprint_numbers (JObj l) | None => JNull end)]
              | Err _ => [("payload_raw", JStr p)]
              end
       end)).

Definition GetJobAuditLog (cx : Context) (jobID : string) (h : Handler R S) : outcome (result Response Response) :=
  events_of_job cx jobID h (fun id es =>
    let audited := filter (fun e => has_type [AccessAudited] e = true) es in
    Ok (cjson unprintable
          (items ← mapM audit_entry audited;
           Some (JObj [("job_id", JStr id); ("count", JNum (itoa (Z.of_nat (length audited)))); ("items", JArr items)])))).
End forensics.

(** What forensics queries answer: exactly the matching jobs of the tenant that
    was asked for, unless there are more than a page, and then no cursor leads
    further; what a batch export leaves behind; why the consistency check never
    finds anything. *)

(** ** The cursor *)

Lemma take_uint_rest w acc s x r c : take_uint w acc s = Some (x, r) -> str_in c s = false -> str_in c r = false.
Proof.
  revert acc s. induction w as [|w IH]; intros acc s; cbn [take_uint]; [by intros [= _ <-]|].
  destruct s as [|a s]; [done|]. destruct (is_digit a); [|done]. intros H [_ Hs]%orb_false_elim. by apply (IH _ _ H).
Qed.

Lemma field_rest w lo hi s x r c : field w lo hi s = Some (x, r) -> str_in c s = false -> str_in c r = false.
Proof.
  unfold field. destruct (take_uint w 0 s) as [[y t]|] eqn:Ht; [|done]. destruct (in_range lo hi y); [|done].
  intros [= <- <-]. by apply (take_uint_rest _ _ _ _ _ _ Ht).
Qed.

Lemma expect_rest a s r c : expect a s = Some r -> str_in c s = false -> str_in c r = false.
Proof.
  destruct s as [|x s]; cbn [expect str_in]; [done|]. destruct (Ascii.eqb x a); [|done]. by intros [= <-] [_ ?]%orb_false_elim.
Qed.

Lemma expect_absent c s : str_in c s = false -> expect c s = None.
Proof. destruct s as [|x s]; cbn [expect str_in]; [done|]. by intros [-> _]%orb_false_elim. Qed.

(** A text without a colon is no time. *)
Lemma no_colon_no_time s : str_in ":" s = false -> parseRFC3339 s = None.
Proof.
  intros H. unfold parseRFC3339.
  repeat match goal with
  | H : str_in ":" ?s = false |- context [field ?w ?lo ?hi ?s] =>
      let Hf := fresh in destruct (field w lo hi s) as [[? ?]|] eqn:Hf; cbn [mbind option_bind]; [|done];
      apply (field_rest _ _ _ _ _ _ ":") in Hf; [|done]; clear H
  | H : str_in ":" ?s = false |- context [expect ":" ?s] => by rewrite (expect_absent _ _ H)
  | H : str_in ":" ?s = false |- context [expect ?a ?s] =>
      let Hf := fresh in destruct (expect a s) as [?|] eqn:Hf; cbn [mbind option_bind]; [|done];
      apply (expect_rest _ _ _ ":") in Hf; [|done]; clear H
  end.
Qed.

Lemma cursor_range_id cursor r : cursor_range cursor r = r.
Proof.
  unfold cursor_range. destruct (String.eqb _ _); [done|]. destruct (cut_colon _) as [[a b]|] eqn:Hc; [|done].
  by rewrite (no_colon_no_time _ (cut_colon_no_colon _ _ _ Hc)).
Qed.

(** ** The tenant *)

Section query.
Context {R S : Type} `{!JobRepo R} `{!JobStore S} {view : S -> string -> job_state} {wf : S -> Prop} `{!JobStoreSpec S view wf}.
Context (sort : forall A : Type, (A -> A -> bool) -> list A -> list A) `{!SliceSort sort}.
Variable unprintable : Response.

Definition with_cursor (cursor : string) (q : QueryRequest) : QueryRequest :=
  mkQuery (qr_TenantID q) (qr_TimeRange q) (qr_ToolFilter q) (qr_EventFilter q) (qr_AgentFilter q) (qr_StatusFilter q)
    (qr_Limit q) cursor.

(** No cursor leads to another page: its time is cut off at its first colon,
    so it is never read.  Asking with the cursor of an answer gives that answer
    again. *)
Theorem cursor_never_advances order cx req cursor (h : Handler R S) :
  ForensicsQuery sort unprintable order cx (Ok (with_cursor cursor req)) h = ForensicsQuery sort unprintable order cx (Ok req) h.
Proof.
  assert (Hs : forall s jobs, summaries sort (with_cursor cursor req) s jobs = summaries sort req s jobs).
  { intros s jobs. induction jobs as [|j jobs IH]; [done|]. cbn [summaries with_cursor qr_StatusFilter]. by rewrite IH. }
  unfold ForensicsQuery. destruct (hd_jobStore h) as [r|]; [|done]. destruct (hd_jobEventStore h) as [s|]; [|done].
  f_equal. unfold query_page. by rewrite !cursor_range_id, Hs.
Qed.

(** A request that names a tenant is answered alike whoever sends it. *)
Theorem query_reads_any_tenant order cx cx' req (h : Handler R S) :
  TrimSpace (qr_TenantID req) <> "" ->
  ForensicsQuery sort unprintable order cx (Ok req) h = ForensicsQuery sort unprintable order cx' (Ok req) h.
Proof.
  intros Ht. unfold ForensicsQuery, query_page. replace (query_tenant cx' req) with (query_tenant cx req); [done|].
  unfold query_tenant. destruct (TrimSpace (qr_TenantID req)); [done|reflexivity].
Qed.

(** ** What is answered *)

Definition tools_of (es : list JobEvent) : list string := omap tool_name_of es.
Definition key_events_of (es : list JobEvent) : list string := omap key_event_of es.

(** What the request asks of a job and its stream. *)
Definition asked_for (cx : Context) (req : QueryRequest) (j : Job) (es : list JobEvent) : Prop :=
  job_TenantID j = query_tenant cx req /\
  (agent_ids (qr_AgentFilter req) = [] \/ job_AgentID j ∈ agent_ids (qr_AgentFilter req)) /\
  in_time_range (qr_TimeRange req) j = true /\
  status_ok (qr_StatusFilter req) (job_Status j) = true /\
  (qr_ToolFilter req = [] \/ exists t, t ∈ tools_of es /\ matchToolFilter t (qr_ToolFilter req) = true) /\
  (qr_EventFilter req = [] \/ exists t, t ∈ key_events_of es /\ matchEventFilter t (qr_EventFilter req) = true).

Lemma sorted_set_elem names x : x ∈ sorted_set sort names <-> x ∈ names.
Proof. unfold sorted_set. by rewrite sort_perm, elem_of_elements, elem_of_list_to_set. Qed.

Lemma match_any_sorted p names filters :
  match_any p (sorted_set sort names) filters = true <-> filters = [] \/ exists x, x ∈ names /\ p x filters = true.
Proof.
  unfold match_any. destruct filters as [|f fs]; [by split; [left|]|]. rewrite existsb_exists. split.
  - intros (x & Hx & Hp). right. exists x. by rewrite <- sorted_set_elem, list_elem_of_In.
  - intros [?|(x & Hx & Hp)]; [done|]. exists x. by rewrite <- list_elem_of_In, sorted_set_elem.
Qed.

Lemma summaries_spec req s jobs :
  wf s ->
  exists l, summaries sort req s jobs = Ret l /\ (length l <= length jobs)%nat /\
    forall sm, sm ∈ l <-> exists j, j ∈ jobs /\ sm = summary_of sort j (jst_events (view s (job_ID j))) /\
      status_ok (qr_StatusFilter req) (job_Status j) = true /\
      matchAnyToolFilter (js_ToolCalls sm) (qr_ToolFilter req) = true /\ matchAnyEventFilter (js_KeyEvents sm) (qr_EventFilter req) = true.
Proof.
  intros Hw. induction jobs as [|j jobs (l & Hl & Hlen & Hin)].
  { exists []. split_and!; [done|done|]. intros sm. split; [by intros ?%elem_of_nil|]. by intros (j & ?%elem_of_nil & _). }
  cbn [summaries]. rewrite Hl. rewrite ListEvents_view by done. cbn [outcome_bind fst].
  destruct (status_ok (qr_StatusFilter req) (job_Status j)) eqn:Hst.
  - set (sm0 := summary_of sort j _). destruct (_ && _) eqn:Hm; eexists; (split; [reflexivity|]); cbn [length]; (split; [lia|]); intros sm.
    + rewrite elem_of_cons, Hin. setoid_rewrite elem_of_cons. apply andb_prop in Hm as [Ht He]. split.
      * intros [->|(j' & Hj & H)]; [by exists j; auto|by exists j'; auto].
      * intros (j' & [->|Hj] & -> & H); [by left|right; by exists j'].
    + rewrite Hin. setoid_rewrite elem_of_cons. split.
      * intros (j' & Hj & H). by exists j'; auto.
      * intros (j' & [->|Hj] & -> & H); [|by exists j']. exfalso. destruct H as (_ & Ht & He). subst sm0. by rewrite Ht, He in Hm.
  - exists l. split_and!; [done|cbn; lia|]. intros sm. rewrite Hin. setoid_rewrite elem_of_cons. split.
    + intros (j' & Hj & H). by exists j'; auto.
    + intros (j' & [->|Hj] & -> & H); [|by exists j']. exfalso. destruct H as [H _]. congruence.
Qed.

Lemma query_tenant_nonempty cx req : query_tenant cx req <> "".
Proof. unfold query_tenant, or_else. by destruct (TrimSpace (qr_TenantID req)), (cx_TenantID cx). Qed.

Lemma page_limit_bounds n : 0 < page_limit n <= 200.
Proof. unfold page_limit. repeat case_match; bool_hyps; lia. Qed.

(** The jobs that pass the store's filters, in its order. *)
Definition listed (order : list string) (cx : Context) (req : QueryRequest) (r : R) : list Job :=
  ListByTenant order (query_tenant cx req) (agent_ids (qr_AgentFilter req)) (qr_TimeRange req) 0 (repo_mem r).

Lemma listed_elem order cx req r j :
  Permutation order (elements (dom (jm_byID (repo_mem r)))) ->
  j ∈ listed order cx req r <->
  (exists id, jm_byID (repo_mem r) !! id = Some j) /\ job_TenantID j = query_tenant cx req /\
  (agent_ids (qr_AgentFilter req) = [] \/ job_AgentID j ∈ agent_ids (qr_AgentFilter req)) /\ in_time_range (qr_TimeRange req) j = true.
Proof.
  intros Ho. unfold listed, ListByTenant. cbn. rewrite list_elem_of_filter, list_elem_of_omap.
  assert (Ht : tenant_match (query_tenant cx req) j = true <-> job_TenantID j = query_tenant cx req).
  { unfold tenant_match. destruct (String.eqb_spec (query_tenant cx req) EmptyString) as [He|_]; [by destruct (query_tenant_nonempty cx req)|].
    apply String.eqb_eq. }
  assert (Hj : (exists x, x ∈ order /\ jm_byID (repo_mem r) !! x = Some j) <-> exists id, jm_byID (repo_mem r) !! id = Some j).
  { split; [intros (x & _ & H); by exists x|]. intros [x H]. exists x. split; [|done]. rewrite Ho, elem_of_elements. by apply elem_of_dom_2 in H. }
  rewrite Hj, !andb_true_iff, Ht.
  assert (Ha : match agent_ids (qr_AgentFilter req) with [] => true | _ => existsb (fun a => bool_decide (a = job_AgentID j)) (agent_ids (qr_AgentFilter req)) end = true
    <-> agent_ids (qr_AgentFilter req) = [] \/ job_AgentID j ∈ agent_ids (qr_AgentFilter req)).
  { destruct (agent_ids _) as [|a l] eqn:Hag; [by split; [left|]|]. rewrite existsb_exists_elem. split; [by right|by intros [?|?]]. }
  rewrite Ha. tauto.
Qed.
Lemma page_of_listed order cx req r :
  let limit := page_limit (qr_Limit req) in
  let jobs := ListByTenant order (query_tenant cx req) (agent_ids (qr_AgentFilter req)) (qr_TimeRange req) (limit + 1) (repo_mem r) in
  let l := listed order cx req r in
  (limit <? Z.of_nat (length jobs)) = (limit <? Z.of_nat (length l)) /\
  (if limit <? Z.of_nat (length jobs) then take (Z.to_nat limit) jobs else jobs) = take (Z.to_nat limit) l.
Proof.
  cbv zeta. pose proof (page_limit_bounds (qr_Limit req)) as Hb. set (n := page_limit _) in *. unfold listed, ListByTenant. cbn.
  rewrite (proj2 (Z.ltb_lt 0 (n + 1))) by lia. set (l := filter _ _). replace (Z.to_nat (n + 1)) with (Datatypes.S (Z.to_nat n)) by lia.
  rewrite length_take. destruct (Z.ltb_spec n (Z.of_nat (length l))).
  - rewrite (proj2 (Z.ltb_lt _ _)) by lia. split; [done|]. rewrite take_take. f_equal. lia.
  - rewrite (proj2 (Z.ltb_ge _ _)) by lia. split; [done|]. rewrite !take_ge by lia. done.
Qed.

Lemma newest_order l : weak_order (fun a b => t_after (js_CreatedAt a) (js_CreatedAt b)) l.
Proof. split; intros *; unfold t_after; rewrite ?Z.ltb_lt, ?Z.ltb_ge; lia. Qed.

(** A query answers with at most a page of jobs, newest first, and only with
    jobs that were asked for.  When it says that there are no more, it left none
    out: the answer holds every job of the store that was asked for. *)
Theorem query_answers_what_was_asked order cx req r s :
  wf s -> Permutation order (elements (dom (jm_byID (repo_mem r)))) ->
  exists q, query_page sort order cx req r s = Ret q /\
    Z.of_nat (length (qp_Jobs q)) <= page_limit (qr_Limit req) /\
    ascending (fun a b => t_after (js_CreatedAt a) (js_CreatedAt b)) (qp_Jobs q) /\
    (forall sm, sm ∈ qp_Jobs q -> exists id j, jm_byID (repo_mem r) !! id = Some j /\
       sm = summary_of sort j (jst_events (view s (job_ID j))) /\ asked_for cx req j (jst_events (view s (job_ID j)))) /\
    (qp_HasMore q = false -> forall id j, jm_byID (repo_mem r) !! id = Some j -> asked_for cx req j (jst_events (view s (job_ID j))) ->
       summary_of sort j (jst_events (view s (job_ID j))) ∈ qp_Jobs q).
Proof.
  intros Hw Ho. unfold query_page. rewrite cursor_range_id. destruct (page_of_listed order cx req r) as [Hmore Hpage].
  pose proof (page_limit_bounds (qr_Limit req)) as Hb. rewrite Hpage, Hmore.
  set (n := page_limit _) in *. set (ls := listed order cx req r) in *.
  destruct (summaries_spec req s (take (Z.to_nat n) ls) Hw) as (l & -> & Hlen & Hin). cbn [outcome_bind].
  eexists. split; [reflexivity|]. cbn [qp_Jobs qp_HasMore]. split_and!.
  - rewrite sort_perm. rewrite length_take in Hlen. lia.
  - apply sort_ascending, newest_order.
  - intros sm. rewrite sort_perm, Hin. intros (j & Hj & -> & Hst & Ht & He). apply elem_of_take in Hj as (i & Hj & _).
    apply list_elem_of_lookup_2, (listed_elem order) in Hj as ([id Hid] & Hten & Hag & Hr); [|done].
    exists id, j. split_and!; [done|done|]. unfold asked_for. split_and!; try done; [by apply match_any_sorted in Ht|by apply match_any_sorted in He].
  - rewrite Z.ltb_ge. intros Hall id j Hid (Hten & Hag & Hr & Hst & Ht & He). rewrite sort_perm, Hin. exists j.
    rewrite take_ge by lia. split_and!; [|done|done|by apply match_any_sorted|by apply match_any_sorted].
    apply (listed_elem order); [done|]. split_and!; [by exists id|done..].
Qed.
End query.

(** ** One job, and batches of jobs *)

(** A package is built or refused; the key's length is checked before signing. *)
Lemma build_returns sign now jobID stream signing : exists r, buildForensicsPackage sign now jobID stream signing = Ret r.
Proof.
  unfold buildForensicsPackage. destruct (match signing with Some _ => _ | None => _ end) eqn:Hkey; [by eexists|].
  set (opts := mkOptions _ _ _ _ _ _). unfold ExportEvidenceZip, package. cbn [eo_RedactionEnabled opts andb].
  assert (Hproof : forall m first events ledger, exists p, export_proof sign now jobID m first events ledger opts = Ret p).
  { intros. unfold export_proof. destruct (eo_PrivateKey opts) as [|c key] eqn:Hk; [eexists; reflexivity|].
    unfold SignEvidence. replace (String.length (String c key) =? PrivateKeySize)%nat with true; [eexists; reflexivity|].
    subst opts. cbn [eo_PrivateKey] in Hk. destruct signing as [[key' kid]|]; [|done]. cbn in Hk. subst key'. by apply negb_false_iff in Hkey. }
  destruct (String.eqb jobID EmptyString); [eexists; reflexivity|].
  destruct (bool_decide _); [eexists; reflexivity|]. destruct (ValidateChain _); [|eexists; reflexivity].
  destruct (adapter_ListEvents stream) as [|e es]; [eexists; reflexivity|].
  destruct (eventsToNDJSON _); [|eexists; reflexivity]. destruct (indent_metadata _); [|eexists; reflexivity].
  destruct (indent_manifest _); [|eexists; reflexivity].
  match goal with |- context [export_proof sign now jobID ?m ?f ?es ?l opts] => destruct (Hproof m f es l) as [p ->] end.
  eexists. reflexivity.
Qed.

Section packages.
Context {R S : Type} `{!JobRepo R} `{!JobStore S} {view : S -> string -> job_state} {wf : S -> Prop} `{!JobStoreSpec S view wf}.
Variables (sign : string -> string -> string) (verify : string -> string -> string -> bool).
Variables (signing : option (string * string)) (export_text : export_error -> string) (unprintable : Response).

(** A job of another tenant is not there. *)
Theorem forensics_within_tenant now cx jobID (h : Handler R S) :
  TrimSpace jobID <> "" -> foreign cx (TrimSpace jobID) h -> hd_jobEventStore h <> None ->
  GetJobAuditLog unprintable cx jobID h = Ret (Err not_found) /\
  ForensicsConsistencyCheck sign signing export_text verify now cx jobID h = Ret (Err not_found).
Proof.
  intros Hid Hf Hs. pose proof (foreign_not_found cx _ h Hf) as Hc. unfold foreign in Hf.
  unfold GetJobAuditLog, events_of_job, ForensicsConsistencyCheck, tenant_gate. destruct (TrimSpace jobID) as [|a i]; [done|].
  destruct (hd_jobEventStore h); [|done]. destruct (hd_jobStore h); [|done]. by rewrite Hc.
Qed.

(** The check finds nothing, whatever the store holds: it verifies a package the
    server has just made, for which it computes the hashes anew when the stored
    ones do not fit. *)
Theorem consistency_check_never_complains now cx jobID (h : Handler R S) s :
  hd_jobEventStore h = Some s -> wf s -> TrimSpace jobID <> "" ->
  (hd_jobStore h = None \/ exists p, getJobAndCheckTenant cx (TrimSpace jobID) h = Ok p) ->
  let stream := jst_events (view s (TrimSpace jobID)) in
  stream <> [] -> exportable_stream (TrimSpace jobID) (default "" (snd <$> signing)) stream = true -> marshalable (t_utc now) = true ->
  match signing with None => True | Some (sk, _) => exists pk, key_pair sign verify sk pk end ->
  ForensicsConsistencyCheck sign signing export_text verify now cx jobID h =
  Ret (Ok (mkReport (TrimSpace jobID) true true true [])).
Proof.
  intros Hes Hw Hid Hgate stream Hne Hexp Hnow Hkeys.
  destruct (server_package_is_accepted sign verify now (TrimSpace jobID) stream signing None) as (files & Hf & Hacc); try done.
  { destruct signing as [[sk kid]|]; [|done]. destruct Hkeys as [pk Hk]. exists pk. by split; [|left]. }
  assert (Hrun : match hd_jobEventStore h with
    | None => Ret (Err (refuse 500 "build forensics package failed: job event store is not configured"))
    | Some s => run l <- js_ListEvents (TrimSpace jobID) s ;;
        run p <- buildForensicsPackage sign now (TrimSpace jobID) (fst l) signing ;;
        match p with
        | Err e => Ret (Err (refuse 500 ("build forensics package failed: " +:+ export_text e)))
        | Ok files => run v <- VerifyEvidenceZip verify (Some (entries files)) None ;; Ret (Ok (report_of (TrimSpace jobID) v))
        end
    end = Ret (Ok (mkReport (TrimSpace jobID) true true true []))).
  { rewrite Hes, ListEvents_view by done. cbn [outcome_bind fst]. fold stream. rewrite Hf. cbn [outcome_bind]. by rewrite Hacc. }
  unfold ForensicsConsistencyCheck, tenant_gate. destruct (TrimSpace jobID) as [|a i]; [done|].
  destruct Hgate as [Hnone|[p Hp]]; [by rewrite Hnone|]. destruct (hd_jobStore h); [by rewrite Hp|done].
Qed.

(** The first job whose package cannot be built, with the error; none if there
    is no such job. *)
Fixpoint first_failure (clock : Z -> time) (i : Z) (jobIDs : list string) (s : S) : option (string * export_error) :=
  match jobIDs with
  | [] => None
  | id :: rest =>
      match buildForensicsPackage sign (clock i) id (jst_events (view s id)) signing with
      | Ret (Ok _) => first_failure clock (i + 1) rest s
      | Ret (Err e) => Some (id, e)
      | Panic _ => None
      end
  end.

Lemma batch_from_spec clock i jobIDs s :
  wf s ->
  exists p, batch_from sign signing export_text clock i jobIDs s = Ret p /\
    match p with
    | Ok es => first_failure clock i jobIDs s = None /\ length es = length jobIDs
    | Err m => exists id e, first_failure clock i jobIDs s = Some (id, e) /\ m = "export job " +:+ id +:+ " failed: " +:+ export_text e
    end.
Proof.
  intros Hw. revert i. induction jobIDs as [|id rest IH]; intros i; cbn [batch_from first_failure].
  { by eexists. }
  rewrite ListEvents_view by done. cbn [outcome_bind fst]. destruct (build_returns sign (clock i) id (jst_events (view s id)) signing) as [[files|e] ->]; cbn [outcome_bind].
  - destruct (IH (i + 1)) as ([es|m] & -> & Hp); cbn [outcome_bind]; eexists; (split; [reflexivity|]); cbn [length].
    + destruct Hp as [-> ->]. done.
    + exact Hp.
  - eexists. split; [reflexivity|]. by exists id, e.
Qed.

(** A batch settles its own task and no other: it is completed exactly when
    every package is built, and otherwise failed with the first error.  What was
    built is kept nowhere: a completed task has no address to fetch it from. *)
Theorem batch_settles_its_task clock now taskID jobIDs t s ts :
  wf s -> ts !! taskID = Some t ->
  exists t', run_batch sign signing export_text clock now taskID jobIDs s ts = Ret (<[taskID := t']> ts) /\
    bt_ResultURL t' = bt_ResultURL t /\ bt_JobIDs t' = bt_JobIDs t /\
    match first_failure clock 1 jobIDs s with
    | None => bt_Status t' = "completed" /\ bt_Progress t' = 100
    | Some (id, e) => bt_Status t' = "failed" /\ bt_Error t' = "export job " +:+ id +:+ " failed: " +:+ export_text e
    end.
Proof.
  intros Hw Ht. unfold run_batch, buildBatchForensicsPackage.
  destruct (batch_from_spec clock 1 jobIDs s Hw) as ([es|m] & -> & Hp); cbn [outcome_bind]; rewrite Ht; eexists; (split; [reflexivity|]).
  - destruct Hp as [-> _]. done.
  - destruct Hp as (id & e & -> & ->). done.
Qed.
End packages.

(** A completed export: no result to fetch, and no error. *)
Corollary completed_export_keeps_nothing {R S : Type} `{!JobRepo R} `{!JobStore S} {view wf} `{!JobStoreSpec S view wf}
    sign signing export_text clock now uuid jobIDs (h : Handler R S) s ts :
  hd_jobEventStore h = Some s -> wf s -> jobIDs <> [] ->
  first_failure (view := view) sign signing clock 1 jobIDs s = None ->
  exists t, run_batch sign signing export_text clock now ("task_" +:+ uuid) jobIDs s (fst (ForensicsBatchExport now uuid (Ok jobIDs) h ts)) =
      Ret (<["task_" +:+ uuid := t]> (fst (ForensicsBatchExport now uuid (Ok jobIDs) h ts))) /\
    bt_Status t = "completed" /\ bt_ResultURL t = "".
Proof.
  intros Hs Hw Hne Hf. unfold ForensicsBatchExport. destruct jobIDs as [|id ids]; [done|]. rewrite Hs. cbn [fst].
  edestruct (batch_settles_its_task sign signing export_text clock now ("task_" +:+ uuid) (id :: ids)) as (t' & Hr & Hu & _ & Hst);
    [exact Hw|apply lookup_insert_eq|]. rewrite Hf in Hst. exists t'. split_and!; [exact Hr|by destruct Hst|exact Hu].
Qed.

(** ** Concrete queries *)

Definition job_at (id : string) (st : JobStatus) (t : Z) : Job := set_job_CreatedAt (Time t 0) (a_job id "acme" st).

Definition two_jobs : Handler JobStoreMem memoryStore :=
  demo [(job_at "old" StatusPending 1, [(JobCreated, "{}")]);
        (job_at "new" StatusCompleted 2, [(JobCreated, "{}"); (ToolInvocationFinished, obj_text [("tool_name", quote "stripe.charge")])])].

Definition any_job (limit : Z) : QueryRequest := mkQuery "" (mkRange zero_time zero_time) [] [] [] [] limit "".

Definition page_of (order : list string) (cx : Context) (req : QueryRequest) (h : Handler JobStoreMem memoryStore) : option QueryResponse :=
  match hd_jobStore h, hd_jobEventStore h with
  | Some r, Some s => match query_page insertion_sort order cx req r s with Ret q => Some q | Panic _ => None end
  | _, _ => None
  end.

Example tool_query :
  (map js_JobID ∘ qp_Jobs) <$> page_of ["old"; "new"] (caller_of "acme") (mkQuery "" (mkRange zero_time zero_time) ["stripe*"] [] [] [] 5 "") two_jobs
  = Some ["new"].
Proof. vm_compute. reflexivity. Qed.

(** The page is cut before it is sorted: it need not hold the newest job, and
    then no page does. *)
Lemma page_is_not_the_newest :
  page_of ["old"; "new"] (caller_of "acme") (any_job 1) two_jobs =
  Some (mkQueryResponse [summary_of insertion_sort (job_at "old" StatusPending 1) (events_of (default NewMemoryStore (hd_jobEventStore two_jobs)) "old")]
          "1970-01-01T00:00:00.000000001Z:old" true).
Proof. vm_compute. reflexivity. Qed.

(** The status is asked for after the page is cut: an empty page, more to come,
    and no cursor to get there. *)
Lemma filtered_page_hides_the_rest :
  page_of ["old"; "new"] (caller_of "acme") (mkQuery "" (mkRange zero_time zero_time) [] [] [] ["completed"] 1 "") two_jobs =
  Some (mkQueryResponse [] "" true).
Proof. vm_compute. reflexivity. Qed.

Lemma query_answers_what_was_asked_witness :
  exists q, query_page insertion_sort ["old"; "new"] (caller_of "acme") (any_job 5)
      (default NewJobStoreMem (hd_jobStore two_jobs)) (default NewMemoryStore (hd_jobEventStore two_jobs)) = Ret q /\
    Z.of_nat (length (qp_Jobs q)) <= 5 /\ map js_JobID (qp_Jobs q) = ["new"; "old"].
Proof.
  destruct (query_answers_what_was_asked (view := mem_view) (wf := unwatched) insertion_sort ["old"; "new"] (caller_of "acme") (any_job 5)
    (default NewJobStoreMem (hd_jobStore two_jobs)) (default NewMemoryStore (hd_jobEventStore two_jobs))) as (q & Hq & Hlen & _).
  - reflexivity.
  - vm_compute. first [apply Permutation_refl | apply perm_swap].
  - exists q. split; [exact Hq|]. split; [exact Hlen|]. vm_compute in Hq. injection Hq as <-. reflexivity.
Defined.

(** The stored hashes of [demo_stream] were altered: its chain is refused, and
    the check finds nothing. *)
Definition tampered : Handler JobStoreMem memoryStore :=
  mkHandler (Some (put "j" (job_at "j" StatusCompleted 1) NewJobStoreMem)) (Some (set_byJob {["j" := demo_stream]} NewMemoryStore)) None None None None.

Lemma consistency_check_never_complains_witness :
  is_ok (ValidateChain (map proof_event demo_stream)) = false /\
  ForensicsConsistencyCheck toy_sign None (fun _ => "") toy_verify (Time 9 0) (caller_of "acme") " j" tampered =
  Ret (Ok (mkReport "j" true true true [])).
Proof.
  split; [vm_compute; reflexivity|].
  apply (consistency_check_never_complains (view := mem_view) (wf := unwatched) toy_sign toy_verify None (fun _ => "") (Time 9 0) (caller_of "acme") " j"
           tampered (default NewMemoryStore (hd_jobEventStore tampered))).
  - reflexivity.
  - reflexivity.
  - vm_compute. discriminate.
  - right. vm_compute. eexists. reflexivity.
  - vm_compute. discriminate.
  - vm_compute. reflexivity.
  - reflexivity.
  - exact I.
Defined.

(** The evidence graph of a job (pkg/evidence/builder.go, types.go): a node for
    every reasoning snapshot, an edge from each step that writes a key to each
    that reads it; and the handler that shows it.

    [overflow] is what the machine makes of a float outside the range of int. *)

(** ** Nodes and edges *)

Inductive EvidenceType := EvidenceTypeRAGDoc | EvidenceTypeToolInvocation | EvidenceTypeLLMDecision.

Record EvidenceNode := mkEvidenceNode { en_Type : EvidenceType; en_ID : string; en_Summary : string }.

Record LLMDecisionEvidence := mkLLMDecision {
  le_Model : string; le_Provider : string; le_Temperature : float; le_PromptHash : string; le_TokenCount : Z }.

Record Evidence := mkEvidence {
  ed_Nodes : list EvidenceNode; ed_InputKeys : list string; ed_OutputKeys : list string; ed_LLMDecision : option LLMDecisionEvidence }.

Record GraphNode := mkGraphNode {
  gn_StepID : string; gn_NodeID : string; gn_Type : string; gn_Label : string; gn_Evidence : Evidence;
  gn_OutputKeys : list string; gn_Timestamp : time }.

Record GraphEdge := mkGraphEdge { ge_From : string; ge_To : string; ge_Relation : string; ge_DataKey : string }.

Record DependencyGraph := mkGraph { dg_Nodes : list GraphNode; dg_Edges : list GraphEdge }.

(** An event as the builder sees it: its type is a text. *)
Record graph_event := mkGraphEvent { gv_Type : string; gv_Payload : string; gv_CreatedAt : time }.

(** ** Parsing *)

(** The strings of a member that is an array. *)
Definition strings_in (pl : list (string * json)) (key : string) : list string :=
  match member_of key pl with JArr l => omap (fun v => match v with JStr s => Some s | _ => None end) l | _ => [] end.

Definition getFloatFromMap (pl : list (string * json)) (key : string) : float :=
  match member_of key pl with
  | JNum lit => match ParseFloat lit with Some f => Fin f | None => of_int 0 end
  | _ => of_int 0
  end.

Section graph.
Variable overflow : float64 -> Z.

Definition parse_decision (pl : list (string * json)) : LLMDecisionEvidence :=
  mkLLMDecision (getStr "model" pl) (getStr "provider" pl) (getFloatFromMap pl "temperature") (getStr "prompt_hash" pl)
    (getInt overflow "token_count" pl).

Definition parseEvidence (pl : list (string * json)) : Evidence :=
  let docs := map (fun d => mkEvidenceNode EvidenceTypeRAGDoc d EmptyString) (strings_in pl "rag_doc_ids") in
  let calls := map (fun d => mkEvidenceNode EvidenceTypeToolInvocation d EmptyString) (strings_in pl "tool_invocation_ids") in
  match member_of "llm_decision" pl with
  | JObj o =>
      let d := parse_decision o in
      mkEvidence (docs ++ calls ++ [mkEvidenceNode EvidenceTypeLLMDecision (le_Model d) (le_Provider d)]) [] [] (Some d)
  | _ => mkEvidence (docs ++ calls) [] [] None
  end.

Definition parseReasoningSnapshot (e : graph_event) : option GraphNode :=
  match unmarshal_map (gv_Payload e) with
  | Err _ => None
  | Ok o =>
      let pl := default [] o in
      let ev := match member_of "evidence" pl with JObj m => parseEvidence m | _ => mkEvidence [] [] [] None end in
      let outs := strings_in pl "output_keys" in
      Some (mkGraphNode (getStr "step_id" pl) (getStr "node_id" pl) (getStr "type" pl) (getStr "label" pl)
              (mkEvidence (ed_Nodes ev) (strings_in pl "input_keys") outs (ed_LLMDecision ev)) outs (gv_CreatedAt e))
  end.

(** ** The graph *)

Definition snapshot_node (e : graph_event) : option GraphNode :=
  if String.eqb (gv_Type e) "reasoning_snapshot" || String.eqb (gv_Type e) "reasoning_snapshot_recorded"
  then parseReasoningSnapshot e else None.

(** [keyToSteps], written while the nodes are collected. *)
Definition note_outputs (m : gmap string (list string)) (n : GraphNode) : gmap string (list string) :=
  foldl (fun m k => <[k := default [] (m !! k) ++ [gn_StepID n]]> m) m (gn_OutputKeys n).

Definition key_to_steps (nodes : list GraphNode) : gmap string (list string) := foldl note_outputs ∅ nodes.

Definition edges_into (producers : gmap string (list string)) (n : GraphNode) : list GraphEdge :=
  concat (map (fun key =>
    map (fun p => mkGraphEdge p (gn_StepID n) "uses_output" key)
      (filter (fun p => p <> gn_StepID n) (default [] (producers !! key)))) (ed_InputKeys (gn_Evidence n))).

Definition graph_BuildFromEvents (es : list graph_event) : DependencyGraph :=
  let nodes := omap snapshot_node es in
  mkGraph nodes (concat (map (edges_into (key_to_steps nodes)) nodes)).

Definition graph_event_of (e : JobEvent) : graph_event := mkGraphEvent (event_type_string (ev_Type e)) (ev_Payload e) (ev_CreatedAt e).

Definition GetJobEvidenceGraph {R S : Type} `{!JobRepo R} `{!JobStore S} (cx : Context) (jobID : string) (h : Handler R S)
    : outcome (result Response DependencyGraph) :=
  events_of_job cx jobID h (fun _ es => Ok (graph_BuildFromEvents (map graph_event_of es))).

(** ** What the edges say *)

Lemma note_outputs_lookup m n key :
  default [] (note_outputs m n !! key) = default [] (m !! key) ++ repeat (gn_StepID n) (length (filter (fun k => k = key) (gn_OutputKeys n))).
Proof.
  unfold note_outputs. generalize (gn_OutputKeys n) as ks, m. induction ks as [|k ks IH]; intros m0; cbn [foldl]; [by rewrite app_nil_r|].
  rewrite IH, filter_cons. destruct (decide (k = key)) as [->|Hne].
  - rewrite lookup_insert_eq. cbn. by rewrite <- app_assoc.
  - by rewrite lookup_insert_ne.
Qed.

Lemma elem_of_producers nodes key p :
  p ∈ default [] (key_to_steps nodes !! key) <-> exists n, n ∈ nodes /\ gn_StepID n = p /\ key ∈ gn_OutputKeys n.
Proof.
  unfold key_to_steps. induction nodes as [|n nodes IH] using rev_ind.
  { split; [by intros ?%elem_of_nil|]. by intros (n & ?%elem_of_nil & _). }
  rewrite foldl_snoc, note_outputs_lookup, elem_of_app, IH.
  assert (Hr : p ∈ repeat (gn_StepID n) (length (filter (fun k => k = key) (gn_OutputKeys n))) <-> gn_StepID n = p /\ key ∈ gn_OutputKeys n).
  { split.
    - intros H. assert (Hp : gn_StepID n = p) by (symmetry; by apply (repeat_spec (length (filter (fun k => k = key) (gn_OutputKeys n)))), list_elem_of_In).
      split; [done|]. destruct (filter (fun k => k = key) (gn_OutputKeys n)) as [|k l] eqn:Hf; [by apply elem_of_nil in H|].
      assert (Hk : k ∈ filter (fun k => k = key) (gn_OutputKeys n)) by (rewrite Hf; by left). by apply list_elem_of_filter in Hk as [-> ?].
    - intros [<- Hk]. assert (Hf : key ∈ filter (fun k => k = key) (gn_OutputKeys n)) by by apply list_elem_of_filter.
      destruct (filter _ _) as [|k l]; [by apply elem_of_nil in Hf|]. cbn. by left. }
  rewrite Hr. setoid_rewrite elem_of_app. setoid_rewrite list_elem_of_singleton. split.
  - intros [(n' & Hn & H)|H]; [exists n'; by split; [left|]|exists n; by split; [right|]].
  - intros (n' & [Hn| ->] & H); [left; by exists n'|by right].
Qed.

(** There is an edge exactly from a step to another one that reads a key it
    writes, whichever of the two came first. *)
Theorem graph_edges_are_data_flow es f t rel key :
  let nodes := dg_Nodes (graph_BuildFromEvents es) in
  mkGraphEdge f t rel key ∈ dg_Edges (graph_BuildFromEvents es) <->
  rel = "uses_output" /\ f <> t /\
  exists n n', n ∈ nodes /\ gn_StepID n = f /\ key ∈ gn_OutputKeys n /\
    n' ∈ nodes /\ gn_StepID n' = t /\ key ∈ ed_InputKeys (gn_Evidence n').
Proof.
  cbv zeta. cbn [graph_BuildFromEvents dg_Nodes dg_Edges]. set (nodes := omap snapshot_node es).
  rewrite list_elem_of_In, in_concat. setoid_rewrite in_map_iff. split.
  - intros (l & (n' & <- & Hn') & He). unfold edges_into in He. apply in_concat in He as (l & Hl & He).
    apply in_map_iff in Hl as (k & <- & Hk). apply in_map_iff in He as (p & He & Hp). injection He as -> <- <- ->.
    apply list_elem_of_In, list_elem_of_filter in Hp as [Hne Hp]. apply elem_of_producers in Hp as (n & Hn & Hid & Hk').
    split_and!; [done|done|]. exists n, n'. by rewrite !list_elem_of_In in *.
  - intros (-> & Hne & n & n' & Hn & <- & Hk & Hn' & <- & Hk').
    exists (edges_into (key_to_steps nodes) n'). split; [exists n'; by rewrite <- list_elem_of_In|].
    unfold edges_into. rewrite in_concat. eexists. split; [apply in_map_iff; exists key; split; [reflexivity|by apply list_elem_of_In]|].
    apply in_map_iff. exists (gn_StepID n). split; [done|]. apply list_elem_of_In, list_elem_of_filter. split; [done|].
    apply elem_of_producers. by exists n.
Qed.

(** A job of another tenant has no graph. *)
Lemma graph_within_tenant {R S : Type} `{!JobRepo R} `{!JobStore S} cx jobID (h : Handler R S) :
  TrimSpace jobID <> "" -> foreign cx (TrimSpace jobID) h -> hd_jobEventStore h <> None ->
  GetJobEvidenceGraph cx jobID h = Ret (Err not_found).
Proof.
  intros Hid Hf Hs. pose proof (foreign_not_found cx _ h Hf) as Hc. unfold foreign in Hf.
  unfold GetJobEvidenceGraph, events_of_job, tenant_gate. destruct (TrimSpace jobID) as [|a i]; [done|].
  destruct (hd_jobEventStore h); [|done]. destruct (hd_jobStore h); [|done]. by rewrite Hc.
Qed.
End graph.

Definition reads_writes (step : string) (reads writes : string) : graph_event :=
  mkGraphEvent "reasoning_snapshot"
    (obj_text [("input_keys", "[" +:+ quote reads +:+ "]"); ("output_keys", "[" +:+ quote writes +:+ "]"); ("step_id", quote step)]) (Time 0 0).

(** A key that is written again flows back: the first step reads what the
    second one writes after it, so the graph of causes has a cycle. *)
Lemma later_output_feeds_earlier_step :
  map (fun e => (ge_From e, ge_To e)) (dg_Edges (graph_BuildFromEvents (fun _ => 0) [reads_writes "draft" "notes" "text"; reads_writes "review" "text" "notes"]))
  = [("review", "draft"); ("draft", "review")].
Proof. vm_compute. reflexivity. Qed.
