(* ===== verification/Anomalies.v ===== *)
(** Anomalies in the decisions of a job: the signals the server reads from a
    stream (internal/api/http/forensics_query.go) and the detector over them
    (pkg/ai_forensics/detector.go).

    A line of evidence keeps its format and argument where the code formats a
    float or a duration.  [overflow] is what the machine makes of a float
    outside the range of int, [walk] the order of a map, [canceled] whether the
    context of the call has ended by the n-th signal. *)

From S2P Require Import Prelude GoTime Json GoStrings GoFloat Events JobFsm JobStore AccessControl JobApi Trace JobViews GoFloatOps Failover.

(** ** Values of a payload *)

Definition trimmed_string (pl : list (string * json)) (key : string) : string := TrimSpace (getStr key pl).

Definition floatFromMap (pl : list (string * json)) (key : string) : option float :=
  match member_of key pl with JNum lit => Fin <$> ParseFloat lit | _ => None end.

Definition bool_member (pl : list (string * json)) (key : string) : option bool :=
  match member_of key pl with JBool b => Some b | _ => None end.

Definition boolFromMap (pl : list (string * json)) (key : string) : bool := default false (bool_member pl key).

Definition object_of (raw : string) : option (list (string * json)) :=
  match unmarshal_map raw with Ok o => Some (default [] o) | Err _ => None end.

Definition stepIDFromPayload (raw : string) : string :=
  match object_of raw with
  | None => EmptyString
  | Some pl => or_else (trimmed_string pl "step_id") (trimmed_string pl "node_id")
  end.

Definition nonblank (s : string) : Z := if String.eqb (TrimSpace s) EmptyString then 0 else 1.

(** The share of one member in the count. *)
Definition count_member (v : json) : Z :=
  match v with JArr l => Z.of_nat (length l) | JStr s => nonblank s | JNull => 0 | _ => 1 end.

Definition countEvidenceValue (v : json) : Z :=
  match v with
  | JObj l => foldl (fun n kv => n + count_member kv.2) 0 l
  | JArr l => Z.of_nat (length l)
  | JStr s => nonblank s
  | _ => 0
  end.

(** ** Signals *)

Record DecisionSignal := mkSignal {
  ds_StepID : string; ds_EvidenceCount : Z; ds_Consistent : bool; ds_Duration : Z; ds_Confidence : float;
  ds_BypassedApproval : bool; ds_Failed : bool; ds_RetryCount : Z; ds_TamperedReasoning : bool; ds_AdditionalDetails : list string }.

Definition one : float := const "1".

Section signals.
Variable overflow : float -> Z.

Definition intFromMap (pl : list (string * json)) (key : string) : Z := getInt (fun f => overflow (Fin f)) key pl.

Definition evidence_count (pl : list (string * json)) : Z :=
  let n := countEvidenceValue (member_of "evidence" pl) in if n =? 0 then intFromMap pl "evidence_count" else n.

Definition evidenceCountFromPayload (raw : string) : Z :=
  match object_of raw with None => 0 | Some pl => evidence_count pl end.

Definition durationFromPayload (pl : list (string * json)) : Z :=
  let ms := intFromMap pl "duration_ms" in
  if 0 <? ms then wrap64 (ms * 1000000)
  else match floatFromMap pl "duration_seconds" with
       | Some seconds => if float_lt (of_int 0) seconds then int_of overflow (float_mul seconds (of_int second)) else 0
       | None => 0
       end.

Definition tampered_in (pl : list (string * json)) : bool :=
  boolFromMap pl "tampered" || boolFromMap pl "tampered_reasoning" ||
  bool_decide (bool_member pl "reasoning_hash_valid" = Some false) || bool_decide (bool_member pl "hash_valid" = Some false).

Definition decisionSignalFromEvent (e : JobEvent) : DecisionSignal :=
  let pl := event_map (ev_Payload e) in
  let tampered := tampered_in pl in
  mkSignal (or_else (trimmed_string pl "step_id") (trimmed_string pl "node_id")) (evidence_count pl)
    (default true (bool_member pl "consistent") && negb tampered) (durationFromPayload pl) (default one (floatFromMap pl "confidence"))
    (boolFromMap pl "bypassed_approval") (boolFromMap pl "failed") 0 tampered ["event_type=" +:+ event_type_string (ev_Type e)].

(** ** The signals of a stream *)

Definition retry_step (e : JobEvent) : option string :=
  if has_type [JobRequeued; JobRetrying; StepRetried] e then Some (or_else (stepIDFromPayload (ev_Payload e)) "job") else None.

Definition count_retry (counts : gmap string Z) (e : JobEvent) : gmap string Z :=
  match retry_step e with Some id => <[id := default 0 (counts !! id) + 1]> counts | None => counts end.

Definition retry_counts (es : list JobEvent) : gmap string Z := foldl count_retry ∅ es.

Definition with_retries (counts : gmap string Z) (id : string) (s : DecisionSignal) : DecisionSignal :=
  mkSignal id (ds_EvidenceCount s) (ds_Consistent s) (ds_Duration s) (ds_Confidence s) (ds_BypassedApproval s) (ds_Failed s)
    (default 0 (counts !! id)) (ds_TamperedReasoning s) (ds_AdditionalDetails s).

Definition is_decision : JobEvent -> bool := has_type [ReasoningSnapshot; DecisionSnapshot; CriticalDecisionMade].
Definition is_failure : JobEvent -> bool := has_type [StepFailed; JobFailed].

Definition decision_step (e : JobEvent) : string := or_else (or_else (ds_StepID (decisionSignalFromEvent e)) (ev_ID e)) "unknown".

Definition event_signal (counts : gmap string Z) (e : JobEvent) : option DecisionSignal :=
  if is_decision e then Some (with_retries counts (decision_step e) (decisionSignalFromEvent e))
  else if is_failure e then
    Some (mkSignal (or_else (or_else (stepIDFromPayload (ev_Payload e)) (ev_ID e)) "failed") (evidenceCountFromPayload (ev_Payload e))
            false 0 one false true 0 false ["event_type=" +:+ event_type_string (ev_Type e)])
  else None.

Definition seen_steps (es : list JobEvent) : list string := map decision_step (filter (fun e => is_decision e = true) es).

Definition retry_signal (kv : string * Z) : DecisionSignal :=
  mkSignal kv.1 1 true 0 one false false kv.2 false ["retry_source=event_stream"].

Variable walk : gmap string Z -> list (string * Z).

Definition signals_of (es : list JobEvent) : list DecisionSignal :=
  let counts := retry_counts es in
  omap (event_signal counts) es ++ map retry_signal (filter (fun kv => (kv.1 ∉ seen_steps es)) (walk counts)).

(** ** The detector *)

Inductive AnomalyType :=
| AnomalyMissingEvidence | AnomalyInconsistent | AnomalyTiming | AnomalyLowConfidence | AnomalySuspiciousRetryLoop
| AnomalyTamperedReasoning.

Inductive evidence_line := Line (s : string) | FloatLine (format : string) (x : float) | DurationLine (format : string) (d : Z).

Record Anomaly := mkAnomaly {
  an_JobID : string; an_StepID : string; an_Type : AnomalyType; an_Severity : string; an_Description : string;
  an_Evidence : list evidence_line }.

Definition float_le (x y : float) : bool := float_lt x y || float_eq x y.

Definition float_opp (x : float) : float :=
  match x with Fin f => Fin (mkFloat (negb (fl_neg f)) (fl_mant f) (fl_exp f)) | Inf n => Inf (negb n) | NaN => NaN end.

Definition float_sub (x y : float) : float := float_add x (float_opp y).

Definition detector_threshold (threshold : float) : float :=
  if float_le threshold (of_int 0) || float_lt one threshold then const "0.8" else threshold.

Definition maxStepDuration : Z := 15 * minute.

Definition retrySeverity (n : Z) : string := if 5 <=? n then "critical" else "high".

Definition lowConfidenceSeverity (confidence threshold : float) : string :=
  let gap := float_sub threshold confidence in
  if float_le (const "0.3") gap then "high" else if float_le (const "0.15") gap then "medium" else "low".

Definition when {A} (b : bool) (x : A) : list A := if b then [x] else [].

(** The anomalies one signal shows. *)
Definition anomalies_of (threshold : float) (jobID : string) (s : DecisionSignal) : list Anomaly :=
  let stepID := or_else (ds_StepID s) "unknown" in
  let details := map Line (ds_AdditionalDetails s) in
  when (ds_EvidenceCount s =? 0)
    (mkAnomaly jobID stepID AnomalyMissingEvidence "high" "step has no supporting evidence" (Line "evidence_count=0" :: details)) ++
  when (negb (ds_Consistent s))
    (mkAnomaly jobID stepID AnomalyInconsistent "medium" "step result is inconsistent with expected policy/flow"
       (Line "consistent=false" :: details)) ++
  when (maxStepDuration <? ds_Duration s)
    (mkAnomaly jobID stepID AnomalyTiming (if wrap64 (2 * maxStepDuration) <? ds_Duration s then "high" else "medium")
       "step took unusually long to finish"
       [DurationLine "duration=%s" (ds_Duration s); DurationLine "threshold=%s" maxStepDuration]) ++
  when (float_le (of_int 0) (ds_Confidence s) && float_lt (ds_Confidence s) threshold)
    (mkAnomaly jobID stepID AnomalyLowConfidence (lowConfidenceSeverity (ds_Confidence s) threshold)
       "step confidence is below threshold"
       [FloatLine "confidence=%.4f" (ds_Confidence s); FloatLine "threshold=%.4f" threshold]) ++
  when (3 <=? ds_RetryCount s)
    (mkAnomaly jobID stepID AnomalySuspiciousRetryLoop (retrySeverity (ds_RetryCount s)) "step entered a suspicious retry loop"
       (Line ("retry_count=" +:+ itoa (ds_RetryCount s)) :: Line "threshold=3" :: details)) ++
  when (ds_TamperedReasoning s)
    (mkAnomaly jobID stepID AnomalyTamperedReasoning "critical" "reasoning snapshot appears tampered or hash-invalid"
       (Line "tampered_reasoning=true" :: details)).

Fixpoint detect_from (canceled : nat -> bool) (i : nat) (threshold : float) (jobID : string) (signals : list DecisionSignal)
    : result string (list Anomaly) :=
  match signals with
  | [] => Ok []
  | s :: rest =>
      if canceled i then Err "context canceled"
      else try more <- detect_from canceled (S i) threshold jobID rest ;; Ok (anomalies_of threshold jobID s ++ more)
  end.

(** ** The handler *)

Section handler.
Context {R St : Type} `{!JobRepo R} `{!JobStore St}.

Definition ListDecisionSignals (jobID : string) (h : Handler R St) : outcome (list DecisionSignal) :=
  match hd_jobEventStore h with
  | None => Ret []
  | Some s => run l <- js_ListEvents jobID s ;; Ret (signals_of (fst l))
  end.

Definition DetectAnomalies (canceled : nat -> bool) (threshold : float) (jobID : string) (h : Handler R St)
    : outcome (result string (list Anomaly)) :=
  match jobID with
  | EmptyString => Ret (Ok [])
  | _ => run signals <- ListDecisionSignals jobID h ;; Ret (detect_from canceled 0 threshold jobID signals)
  end.

Record detect_request := mkDetect { dr_JobID : string; dr_JobIDs : list string; dr_Threshold : float }.

Inductive detect_answer := OneJob (jobID : string) (l : list Anomaly) | ManyJobs (l : list (string * list Anomaly)).

(** A job that fails is left out. *)
Fixpoint detect_many (canceled : string -> nat -> bool) (threshold : float) (jobIDs : list string) (h : Handler R St)
    : outcome (list (string * list Anomaly)) :=
  match jobIDs with
  | [] => Ret []
  | id :: rest =>
      run r <- DetectAnomalies (canceled id) threshold id h ;;
      run more <- detect_many canceled threshold rest h ;;
      Ret (match r with Ok l => (id, l) :: more | Err _ => more end)
  end.

Definition AIForensicsDetectAnomalies (canceled : string -> nat -> bool) (req : result unit detect_request) (h : Handler R St)
    : outcome (result Response detect_answer) :=
  match req with
  | Err _ => Ret (Err (refuse 400 "invalid request body"))
  | Ok req =>
      match hd_jobEventStore h with
      | None => Ret (Err (refuse 503 "job event store is not configured"))
      | Some _ =>
          let threshold := detector_threshold (dr_Threshold req) in
          match dr_JobID req, dr_JobIDs req with
          | EmptyString, [] => Ret (Err (refuse 400 "job_id or job_ids is required"))
          | EmptyString, ids => run l <- detect_many canceled threshold ids h ;; Ret (Ok (ManyJobs l))
          | id, _ =>
              run r <- DetectAnomalies (canceled id) threshold id h ;;
              Ret (match r with
                   | Err e => Err (refuse 500 ("detect anomalies failed: " +:+ e))
                   | Ok l => Ok (OneJob id l)
                   end)
          end
      end
  end.
End handler.
End signals.

(** ** What is reported *)

Lemma or_else_given s d : d <> "" -> or_else s d <> "".
Proof. by destruct s. Qed.

Lemma or_else_id s d : s <> "" -> or_else s d = s.
Proof. by destruct s. Qed.

Lemma elem_of_when {A} b (x y : A) : x ∈ when b y <-> b = true /\ x = y.
Proof. destruct b; cbn; rewrite ?list_elem_of_singleton, ?elem_of_nil; naive_solver. Qed.

Lemma decision_step_nonempty overflow e : decision_step overflow e <> "".
Proof. by apply or_else_given. Qed.

(** The retries of a step in a stream. *)
Definition retries (es : list JobEvent) (step : string) : Z := Z.of_nat (length (filter (fun e => retry_step e = Some step) es)).

Lemma retry_counts_spec es step :
  default 0 (retry_counts es !! step) = retries es step /\ (is_Some (retry_counts es !! step) -> 0 < retries es step).
Proof.
  unfold retry_counts, retries. induction es as [|e es [IH IHs]] using rev_ind; [by split; [|intros []]|].
  rewrite foldl_snoc, filter_app, length_app, Nat2Z.inj_add, <- IH. set (m := foldl _ _ es) in *. clearbody m.
  unfold count_retry. rewrite filter_cons, filter_nil. destruct (retry_step e) as [id|].
  - destruct (decide (id = step)) as [->|Hne].
    + rewrite decide_True by done. rewrite lookup_insert_eq. cbn. split; [done|]. intros _. rewrite IH. lia.
    + rewrite decide_False by congruence. rewrite lookup_insert_ne by done. rewrite <- IH in IHs. cbn. split; [lia|]. intros ?%IHs. lia.
  - rewrite decide_False by done. rewrite <- IH in IHs. cbn. split; [lia|]. intros ?%IHs. lia.
Qed.

(** Every counted step has a name. *)
Lemma retry_counts_named es : retry_counts es !! "" = None.
Proof.
  unfold retry_counts. induction es as [|e es IH] using rev_ind; [done|]. rewrite foldl_snoc. unfold count_retry at 1, retry_step.
  destruct (has_type _ e); [|done]. by rewrite lookup_insert_ne by by apply or_else_given.
Qed.

Section reports.
Context (overflow : float -> Z) (walk : gmap string Z -> list (string * Z)) (Hwalk : forall m, walk m ≡ₚ map_to_list m).
Variables (threshold : float) (jobID : string).

Definition reported (es : list JobEvent) : list Anomaly := concat (map (anomalies_of threshold jobID) (signals_of overflow walk es)).

Lemma detect_all signals i : detect_from (fun _ => false) i threshold jobID signals = Ok (concat (map (anomalies_of threshold jobID) signals)).
Proof. revert i. induction signals as [|s r IH]; intros i; [done|]. cbn [detect_from map concat]. by rewrite IH. Qed.

Lemma elem_of_reported es a : a ∈ reported es <-> exists s, s ∈ signals_of overflow walk es /\ a ∈ anomalies_of threshold jobID s.
Proof.
  unfold reported. rewrite list_elem_of_In, in_concat. setoid_rewrite in_map_iff. split.
  - intros (l & (s & <- & Hs) & Ha). exists s. by rewrite !list_elem_of_In.
  - intros (s & Hs & Ha). eexists. rewrite <- list_elem_of_In. split; [|exact Ha]. exists s. by rewrite <- list_elem_of_In.
Qed.

(** An anomaly of one type is shown by a signal for one reason. *)
Lemma tampered_signal s step :
  (exists a, a ∈ anomalies_of threshold jobID s /\ an_Type a = AnomalyTamperedReasoning /\ an_StepID a = step) <->
  ds_TamperedReasoning s = true /\ or_else (ds_StepID s) "unknown" = step.
Proof.
  unfold anomalies_of. split.
  - intros (a & H & Ht & <-). rewrite !elem_of_app, !elem_of_when in H.
    destruct H as [[? ->]|[[? ->]|[[? ->]|[[? ->]|[[? ->]|[? ->]]]]]]; try discriminate Ht; by split.
  - intros [Ht <-]. eexists. rewrite !elem_of_app, !elem_of_when. split; [do 5 right; by split|done].
Qed.

Lemma looping_signal s step :
  (exists a, a ∈ anomalies_of threshold jobID s /\ an_Type a = AnomalySuspiciousRetryLoop /\ an_StepID a = step) <->
  3 <= ds_RetryCount s /\ or_else (ds_StepID s) "unknown" = step.
Proof.
  unfold anomalies_of. rewrite <- Z.leb_le. split.
  - intros (a & H & Ht & <-). rewrite !elem_of_app, !elem_of_when in H.
    destruct H as [[? ->]|[[? ->]|[[? ->]|[[? ->]|[[? ->]|[? ->]]]]]]; try discriminate Ht; by split.
  - intros [Ht <-]. eexists. rewrite !elem_of_app, !elem_of_when. split; [do 4 right; left; by split|done].
Qed.

(** Where a signal comes from. *)
Lemma elem_of_signals es s :
  s ∈ signals_of overflow walk es <->
  (exists e, e ∈ es /\ event_signal overflow (retry_counts es) e = Some s) \/
  (exists step n, retry_counts es !! step = Some n /\ (step ∉ seen_steps overflow es) /\ s = retry_signal (step, n)).
Proof.
  unfold signals_of. rewrite elem_of_app, list_elem_of_omap, list_elem_of_fmap. setoid_rewrite list_elem_of_filter.
  assert (H : forall kv, kv ∈ walk (retry_counts es) <-> retry_counts es !! kv.1 = Some kv.2).
  { intros [k n]. by rewrite Hwalk, elem_of_map_to_list. }
  setoid_rewrite H. split; (intros [?|Hr]; [by left|right]).
  - destruct Hr as ([k n] & -> & Hs & Hk). by exists k, n.
  - destruct Hr as (k & n & Hk & Hs & ->). by exists (k, n).
Qed.

(** Tampering is reported exactly for the steps of decisions whose payload
    admits to it. *)
Theorem tampering_is_reported es step :
  (exists a, a ∈ reported es /\ an_Type a = AnomalyTamperedReasoning /\ an_StepID a = step) <->
  (exists e, e ∈ es /\ is_decision e = true /\ decision_step overflow e = step /\ tampered_in (event_map (ev_Payload e)) = true).
Proof.
  assert (Hs : (exists a, a ∈ reported es /\ an_Type a = AnomalyTamperedReasoning /\ an_StepID a = step) <->
    exists s, s ∈ signals_of overflow walk es /\ ds_TamperedReasoning s = true /\ or_else (ds_StepID s) "unknown" = step).
  { setoid_rewrite <- tampered_signal. setoid_rewrite elem_of_reported. naive_solver. }
  rewrite Hs. setoid_rewrite elem_of_signals. unfold event_signal. split.
  - intros (s & [(e & He & Hev)|(k & n & _ & _ & ->)] & Ht & Hid); [|done]. destruct (is_decision e) eqn:Hd.
    + injection Hev as <-. cbn in *. exists e. split_and!; [done|done| |done]. by rewrite or_else_id in Hid by apply decision_step_nonempty.
    + destruct (is_failure e); [|done]. by injection Hev as <-.
  - intros (e & He & Hd & <- & Ht). exists (with_retries (retry_counts es) (decision_step overflow e) (decisionSignalFromEvent overflow e)).
    split_and!; [left; exists e; by rewrite Hd|done|cbn; by rewrite or_else_id by apply decision_step_nonempty].
Qed.

(** A retry loop is reported exactly for the steps retried three times or more,
    whether or not the step also took a decision. *)
Theorem retry_loops_are_reported es step :
  (exists a, a ∈ reported es /\ an_Type a = AnomalySuspiciousRetryLoop /\ an_StepID a = step) <-> 3 <= retries es step.
Proof.
  assert (Hs : (exists a, a ∈ reported es /\ an_Type a = AnomalySuspiciousRetryLoop /\ an_StepID a = step) <->
    exists s, s ∈ signals_of overflow walk es /\ 3 <= ds_RetryCount s /\ or_else (ds_StepID s) "unknown" = step).
  { setoid_rewrite <- looping_signal. setoid_rewrite elem_of_reported. naive_solver. }
  rewrite Hs. clear Hs. setoid_rewrite elem_of_signals. unfold event_signal. destruct (retry_counts_spec es step) as [Hc Hp]. split.
  - intros (s & [(e & He & Hev)|(k & n & Hk & _ & ->)] & Ht & Hid).
    + destruct (is_decision e); [|destruct (is_failure e); [|done]]; injection Hev as <-; cbn in *; [|lia].
      rewrite or_else_id in Hid by apply decision_step_nonempty. subst step. lia.
    + cbn in *. assert (Hk0 : k <> "").
      { intros ->. by rewrite retry_counts_named in Hk. }
      rewrite or_else_id in Hid by done. subst k. rewrite Hk in Hc. cbn in Hc. lia.
  - intros H3. destruct (retry_counts es !! step) as [n|] eqn:Hn; cbn in Hc; [|lia].
    destruct (decide (step ∈ seen_steps overflow es)) as [Hin|Hin].
    + unfold seen_steps in Hin. apply list_elem_of_fmap in Hin as (e & -> & [Hd He]%list_elem_of_filter).
      exists (with_retries (retry_counts es) (decision_step overflow e) (decisionSignalFromEvent overflow e)).
      split_and!; [left; exists e; by rewrite Hd|cbn; rewrite Hn; cbn; lia|cbn; by rewrite or_else_id by apply decision_step_nonempty].
    + exists (retry_signal (step, n)). split_and!; [right; by exists step, n|cbn; lia|]. cbn. apply or_else_id. intros ->. by rewrite retry_counts_named in Hn.
Qed.
End reports.

(** The detector reads a job's stream and reports exactly its tampered decisions
    and its retry loops. *)
Theorem detector_is_exact {R S : Type} `{!JobRepo R} `{!JobStore S} {view wf} `{!JobStoreSpec S view wf}
    overflow walk threshold jobID (h : Handler R S) s :
  (forall m, walk m ≡ₚ map_to_list m) -> hd_jobEventStore h = Some s -> wf s -> jobID <> "" ->
  let es := jst_events (view s jobID) in
  exists l, DetectAnomalies overflow walk (fun _ => false) threshold jobID h = Ret (Ok l) /\
    (forall step, (exists a, a ∈ l /\ an_Type a = AnomalyTamperedReasoning /\ an_StepID a = step) <->
       exists e, e ∈ es /\ is_decision e = true /\ decision_step overflow e = step /\ tampered_in (event_map (ev_Payload e)) = true) /\
    (forall step, (exists a, a ∈ l /\ an_Type a = AnomalySuspiciousRetryLoop /\ an_StepID a = step) <-> 3 <= retries es step).
Proof.
  intros Hwalk Hs Hw Hid es. exists (reported overflow walk threshold jobID es). split_and!.
  - unfold DetectAnomalies, ListDecisionSignals. rewrite Hs, ListEvents_view by done. destruct jobID as [|a i]; [done|].
    cbn [outcome_bind fst]. by rewrite detect_all.
  - intros step. by apply tampering_is_reported.
  - intros step. by apply retry_loops_are_reported.
Qed.

(** A decision that says it bypassed its approval, or that it failed, is no
    anomaly: the detector asks for neither. *)
Lemma bypassed_approval_is_not_reported :
  forall e, ev_Type e = CriticalDecisionMade ->
  ev_Payload e = obj_text [("bypassed_approval", "true"); ("evidence", quote "ticket"); ("failed", "true"); ("step_id", quote "pay")] ->
  (map ds_BypassedApproval (signals_of (fun _ => 0) map_to_list [e]), map ds_Failed (signals_of (fun _ => 0) map_to_list [e])) = ([true], [true]) /\
  reported (fun _ => 0) map_to_list (const "0.8") "job-1" [e] = [].
Proof. intros [id job t p c pr ha]. cbn [ev_Type ev_Payload]. intros -> ->. vm_compute. done. Qed.
