(* ===== verification/DomainGraph.v ===== *)
(** The execution of a task graph as an aggregate of its own
    (internal/agent/domain/task_graph.go): nodes with their states, a ready
    queue, completion and failure.

    The index of nodes holds pointers into the slice of nodes, and the slice
    moves when it grows: a heap holds every array the slice has had, the current
    one last, and a pointer is an array with a place.  [grow] is the capacity a
    full slice gets, [walk] the order a set is ranged over.

    Second half: the aggregate of a runner
    (internal/agent/domain/runner.go). *)

From S2P Require Import Prelude GoTime Json TaskGraph.

(** ** State *)

(** [NoState] is the empty text a new node has. *)
Inductive NodeExecutionState := NoState | NodePending | NodeReady | NodeRunning | NodeCompleted | NodeFailed | NodeSkipped.

#[export] Instance node_state_eq_dec : EqDecision NodeExecutionState.
Proof. solve_decision. Defined.

Record AggregateNode := mkNode {
  gn_Task : TaskNode; gn_State : NodeExecutionState; gn_Output : list (string * json); gn_Error : string;
  gn_StartedAt : Z; gn_FinishedAt : Z; gn_DependsOn : list string }.

Definition gn_ID (n : AggregateNode) : string := tn_ID (gn_Task n).

Definition set_state (st : NodeExecutionState) (n : AggregateNode) : AggregateNode :=
  mkNode (gn_Task n) st (gn_Output n) (gn_Error n) (gn_StartedAt n) (gn_FinishedAt n) (gn_DependsOn n).

Abbreviation pointer := (nat * nat)%type.

Record TaskGraphExecution := mkExecution {
  gx_arrays : list (list AggregateNode); gx_cap : nat; gx_Edges : list TaskEdge; gx_completed : gset string;
  gx_ready : list string; gx_index : gmap string pointer }.

Definition NewTaskGraphExecution : TaskGraphExecution := mkExecution [[]] 0 [] ∅ [] ∅.

Definition current (g : TaskGraphExecution) : nat := (length (gx_arrays g) - 1)%nat.

(** [g.Nodes]. *)
Definition gx_Nodes (g : TaskGraphExecution) : list AggregateNode := default [] (gx_arrays g !! current g).

Definition with_arrays (a : list (list AggregateNode)) (g : TaskGraphExecution) : TaskGraphExecution :=
  mkExecution a (gx_cap g) (gx_Edges g) (gx_completed g) (gx_ready g) (gx_index g).
Definition with_ready (l : list string) (g : TaskGraphExecution) : TaskGraphExecution :=
  mkExecution (gx_arrays g) (gx_cap g) (gx_Edges g) (gx_completed g) l (gx_index g).
Definition with_completed (s : gset string) (g : TaskGraphExecution) : TaskGraphExecution :=
  mkExecution (gx_arrays g) (gx_cap g) (gx_Edges g) s (gx_ready g) (gx_index g).
Definition with_index (m : gmap string pointer) (g : TaskGraphExecution) : TaskGraphExecution :=
  mkExecution (gx_arrays g) (gx_cap g) (gx_Edges g) (gx_completed g) (gx_ready g) m.

Definition set_Nodes (l : list AggregateNode) (g : TaskGraphExecution) : TaskGraphExecution :=
  with_arrays (<[current g := l]> (gx_arrays g)) g.

(** [*p] and a write through it. *)
Definition deref (g : TaskGraphExecution) (p : pointer) : option AggregateNode := gx_arrays g !! p.1 ≫= (.!! p.2).
Definition write_node (p : pointer) (f : AggregateNode -> AggregateNode) (g : TaskGraphExecution) : TaskGraphExecution :=
  with_arrays (alter (alter f p.2) p.1 (gx_arrays g)) g.

(** [g.nodeIndex[id]]: the pointer with the node, if there is one. *)
Definition GetNode (id : string) (g : TaskGraphExecution) : option (pointer * AggregateNode) :=
  p ← gx_index g !! id; n ← deref g p; Some (p, n).

Section graph.
Variables (grow : nat -> nat) (walk : gset string -> list string).

(** ** Building *)

Definition AddNode (node : AggregateNode) (g : TaskGraphExecution) : TaskGraphExecution :=
  let len := length (gx_Nodes g) in
  let moved := if (len <? gx_cap g)%nat then gx_arrays g else gx_arrays g ++ [gx_Nodes g] in
  let cap := if (len <? gx_cap g)%nat then gx_cap g else grow len in
  let last := (length moved - 1)%nat in
  mkExecution (alter (fun l => l ++ [node]) last moved) cap (gx_Edges g) (gx_completed g) (gx_ready g)
    (<[gn_ID node := (last, len)]> (gx_index g)).

Definition AddEdge (e : TaskEdge) (g : TaskGraphExecution) : TaskGraphExecution :=
  mkExecution (gx_arrays g) (gx_cap g) (gx_Edges g ++ [e]) (gx_completed g) (gx_ready g) (gx_index g).

(** Of nodes with one id the last is indexed. *)
Definition index_of (a : nat) (nodes : list AggregateNode) : gmap string pointer :=
  foldl (fun m p => <[gn_ID p.2 := (a, p.1)]> m) ∅ (imap pair nodes).

Definition sources (edges : list TaskEdge) (id : string) : gset string :=
  list_to_set (map te_From (filter (fun e => te_To e = id) edges)).

Definition init_node (edges : list TaskEdge) (n : AggregateNode) : AggregateNode :=
  let deps := sources edges (gn_ID n) in
  let d := if bool_decide (deps = ∅) then gn_DependsOn n else walk deps in
  mkNode (gn_Task n) (match d with [] => NodeReady | _ => NodePending end) (gn_Output n) (gn_Error n)
    (gn_StartedAt n) (gn_FinishedAt n) d.

Definition BuildIndex (g : TaskGraphExecution) : TaskGraphExecution :=
  let nodes := map (init_node (gx_Edges g)) (gx_Nodes g) in
  with_ready (map gn_ID (filter (fun n => gn_State n = NodeReady) nodes))
    (set_Nodes nodes (with_index (index_of (current g) (gx_Nodes g)) g)).

(** ** Order *)

(** Every id and every target of an edge has a degree. *)
Definition all_ids (nodes : list AggregateNode) (edges : list TaskEdge) : gset string :=
  list_to_set (map gn_ID nodes ++ map te_To edges).

(** The loop: each id is queued once, so the number of ids is fuel enough. *)
Fixpoint take_ready (fuel : nat) (ids : gset string) (edges : list TaskEdge) (deg : gmap string Z)
    (queue order : list string) : list string :=
  match fuel, queue with
  | S f, u :: q => let '(deg', q') := release ids u edges deg q in take_ready f ids edges deg' q' (order ++ [u])
  | _, _ => order
  end.

Definition TopologicalSort (g : TaskGraphExecution) : TaskGraphExecution * result string (list string) :=
  let g := BuildIndex g in
  let ids := all_ids (gx_Nodes g) (gx_Edges g) in
  let deg := in_degrees ids (gx_Edges g) in
  let queue := filter (fun id => get_default 0 deg id = 0) (walk ids) in
  let order := take_ready (S (size ids)) ids (gx_Edges g) deg queue [] in
  (g, if (length order =? length (gx_Nodes g))%nat then Ok order else Err "cycle detected in task graph").

(** ** Running *)

Definition GetReadyNodes (g : TaskGraphExecution) : list string :=
  filter (fun id => match GetNode id g with Some (_, n) => bool_decide (gn_State n = NodeReady) | None => false end = true) (gx_ready g).

Definition MarkNodeRunning (now : Z) (id : string) (g : TaskGraphExecution) : TaskGraphExecution * option string :=
  match GetNode id g with
  | None => (g, Some "node not found")
  | Some (p, n) =>
      if bool_decide (gn_State n = NodeReady) then
        (write_node p (fun n => mkNode (gn_Task n) NodeRunning (gn_Output n) (gn_Error n) now (gn_FinishedAt n) (gn_DependsOn n)) g, None)
      else (g, Some "node not ready")
  end.

Definition areAllDependenciesMet (n : AggregateNode) (g : TaskGraphExecution) : bool :=
  forallb (fun d => bool_decide (d ∈ gx_completed g)) (gn_DependsOn n).

Definition updateDependentNodes (id : string) (g : TaskGraphExecution) : TaskGraphExecution :=
  foldl (fun g e =>
    if String.eqb (te_From e) id then
      match GetNode (te_To e) g with
      | Some (p, n) =>
          if bool_decide (gn_State n = NodePending) && areAllDependenciesMet n g
          then with_ready (gx_ready g ++ [te_To e]) (write_node p (set_state NodeReady) g) else g
      | None => g
      end
    else g) g (gx_Edges g).

Definition MarkNodeCompleted (now : Z) (id : string) (output : list (string * json)) (g : TaskGraphExecution)
    : TaskGraphExecution * option string :=
  match GetNode id g with
  | None => (g, Some "node not found")
  | Some (p, _) =>
      let g := write_node p (fun n => mkNode (gn_Task n) NodeCompleted output (gn_Error n) (gn_StartedAt n) now (gn_DependsOn n)) g in
      (updateDependentNodes id (with_completed ({[id]} ∪ gx_completed g) g), None)
  end.

(** The first node of the slice with an id. *)
Definition nodeNodeIndex (id : string) (nodes : list AggregateNode) : option (nat * AggregateNode) :=
  list_find (fun n => gn_ID n = id) nodes.

Definition pending_first (id : string) (nodes : list AggregateNode) : option nat :=
  match nodeNodeIndex id nodes with Some (i, n) => if decide (gn_State n = NodePending) then Some i else None | None => None end.

(** The recursion ends: each call has one pending node less. *)
Fixpoint skip_nodes (fuel : nat) (edges : list TaskEdge) (id : string) (nodes : list AggregateNode) : list AggregateNode :=
  match fuel with
  | O => nodes
  | S f =>
      foldl (fun nodes e =>
        if String.eqb (te_From e) id then
          match pending_first (te_To e) nodes with
          | Some i => skip_nodes f edges (te_To e) (alter (set_state NodeSkipped) i nodes)
          | None => nodes
          end
        else nodes) nodes edges
  end.

Definition pendings (nodes : list AggregateNode) : nat := length (filter (fun n => gn_State n = NodePending) nodes).

Definition skipDependentNodes (id : string) (g : TaskGraphExecution) : TaskGraphExecution :=
  set_Nodes (skip_nodes (S (pendings (gx_Nodes g))) (gx_Edges g) id (gx_Nodes g)) g.

Definition MarkNodeFailed (now : Z) (id errMsg : string) (g : TaskGraphExecution) : TaskGraphExecution * option string :=
  match GetNode id g with
  | None => (g, Some "node not found")
  | Some (p, _) =>
      (skipDependentNodes id
         (write_node p (fun n => mkNode (gn_Task n) NodeFailed (gn_Output n) errMsg (gn_StartedAt n) now (gn_DependsOn n)) g), None)
  end.

Definition IsCompleted (g : TaskGraphExecution) : bool := (size (gx_completed g) =? length (gx_Nodes g))%nat.

Definition count_state (st : NodeExecutionState) (g : TaskGraphExecution) : nat :=
  length (filter (fun n => gn_State n = st) (gx_Nodes g)).

(** Completed, total, failed and skipped. *)
Definition GetProgress (g : TaskGraphExecution) : nat * nat * nat * nat :=
  (count_state NodeCompleted g, length (gx_Nodes g), count_state NodeFailed g, count_state NodeSkipped g).
End graph.

(** ** Operations in any order *)

Inductive graph_op :=
| OpAddNode (n : AggregateNode) | OpAddEdge (e : TaskEdge) | OpBuildIndex
| OpRunning (now : Z) (id : string) | OpCompleted (now : Z) (id : string) (out : list (string * json)) | OpFailed (now : Z) (id msg : string).

Definition apply_op (grow : nat -> nat) (walk : gset string -> list string) (g : TaskGraphExecution) (o : graph_op) : TaskGraphExecution :=
  match o with
  | OpAddNode n => AddNode grow n g
  | OpAddEdge e => AddEdge e g
  | OpBuildIndex => BuildIndex walk g
  | OpRunning now id => fst (MarkNodeRunning now id g)
  | OpCompleted now id out => fst (MarkNodeCompleted now id out g)
  | OpFailed now id msg => fst (MarkNodeFailed now id msg g)
  end.

Definition after (grow : nat -> nat) (walk : gset string -> list string) (ops : list graph_op) : TaskGraphExecution :=
  foldl (apply_op grow walk) NewTaskGraphExecution ops.

(** A node is added before it has a state. *)
Definition fresh_op (o : graph_op) : Prop := match o with OpAddNode n => gn_State n = NoState | _ => True end.

Section safety.
Variables (grow : nat -> nat) (walk : gset string -> list string).

(** A node that is ready or running, in any array, has its dependencies
    completed. *)
Definition sound_node (done : gset string) (n : AggregateNode) : Prop :=
  gn_State n = NodeReady \/ gn_State n = NodeRunning -> forall d, d ∈ gn_DependsOn n -> d ∈ done.

Definition sound (g : TaskGraphExecution) : Prop := Forall (Forall (sound_node (gx_completed g))) (gx_arrays g).

Lemma sound_deref g p n : sound g -> deref g p = Some n -> sound_node (gx_completed g) n.
Proof.
  unfold sound, deref. intros H Hn. apply bind_Some in Hn as (l & Hl & Hn).
  eapply Forall_lookup_1 in H; [|exact Hl]. eapply Forall_lookup_1 in H; [|exact Hn]. done.
Qed.

Lemma Forall_alter_one {A} (P : A -> Prop) f l i : Forall P l -> (forall x, P x -> l !! i = Some x -> P (f x)) -> Forall P (alter f i l).
Proof. intros Hl Hf. apply Forall_alter; [done|]. auto. Qed.

Lemma sound_update g p f :
  sound g -> (forall n, sound_node (gx_completed g) n -> deref g p = Some n -> sound_node (gx_completed g) (f n)) -> sound (write_node p f g).
Proof.
  unfold sound, write_node, deref. cbn. intros H Hf. apply Forall_alter_one; [done|]. intros l Hl Hp. apply Forall_alter_one; [done|].
  intros n Hn Hi. apply Hf; [done|]. by rewrite Hp.
Qed.

Lemma sound_node_mono s s' n : s ⊆ s' -> sound_node s n -> sound_node s' n.
Proof. intros Hs Hn Hst d Hd. apply Hs. by apply Hn. Qed.

Lemma sound_node_state s st n : st <> NodeReady -> st <> NodeRunning -> sound_node s (set_state st n).
Proof. by intros H1 H2 [?|?]. Qed.

Lemma updateDependentNodes_completed id g : gx_completed (updateDependentNodes id g) = gx_completed g.
Proof.
  unfold updateDependentNodes. generalize (gx_Edges g). intros es. revert g. induction es as [|e es IH]; intros g; [done|]. cbn [foldl].
  rewrite IH. destruct (String.eqb _ _); [|done]. destruct (GetNode _ g) as [[p n]|]; [|done]. by destruct (_ && _).
Qed.

Lemma sound_updateDependentNodes id g : sound g -> sound (updateDependentNodes id g).
Proof.
  unfold updateDependentNodes. generalize (gx_Edges g). intros es. revert g. induction es as [|e es IH]; intros g Hg; [done|]. cbn [foldl].
  apply IH. destruct (String.eqb (te_From e) id); [|done]. destruct (GetNode (te_To e) g) as [[p n]|] eqn:Hn; [|done].
  destruct (bool_decide _ && areAllDependenciesMet n g) eqn:Hc; [|done]. apply andb_prop in Hc as [_ Hall].
  apply (sound_update g p (set_state NodeReady) Hg). intros n' _ Hn'. unfold GetNode in Hn.
  destruct (gx_index g !! te_To e) as [q|]; [|done]. cbn in Hn. destruct (deref g q) as [m|] eqn:Hm; [|done]. injection Hn as -> ->.
  rewrite Hm in Hn'. injection Hn' as <-. intros _ d Hd. unfold areAllDependenciesMet in Hall. rewrite forallb_forall in Hall.
  cbn [gn_DependsOn set_state] in Hd. apply list_elem_of_In, Hall in Hd. by apply bool_decide_eq_true in Hd.
Qed.

Lemma sound_set_Nodes g l : sound g -> Forall (sound_node (gx_completed g)) l -> sound (set_Nodes l g).
Proof. unfold sound, set_Nodes. cbn. intros H Hl. by apply Forall_insert. Qed.

Lemma sound_Nodes g : sound g -> Forall (sound_node (gx_completed g)) (gx_Nodes g).
Proof. unfold sound, gx_Nodes. intros H. destruct (gx_arrays g !! current g) as [l|] eqn:Hl; [|constructor]. by eapply Forall_lookup_1. Qed.

Lemma sound_skip s fuel edges id nodes : Forall (sound_node s) nodes -> Forall (sound_node s) (skip_nodes fuel edges id nodes).
Proof.
  revert id nodes. induction fuel as [|f IH]; intros id nodes H; [done|]. cbn [skip_nodes].
  match goal with |- Forall _ (foldl ?F _ _) => set (step := F) end. generalize edges as es.
  intros es. revert nodes H. induction es as [|e es IHe]; intros nodes H; [done|]. cbn [foldl]. apply IHe. unfold step.
  destruct (String.eqb (te_From e) id); [|done]. destruct (pending_first (te_To e) nodes) as [i|]; [|done].
  apply IH, Forall_alter_one; [done|]. intros n _ _. by apply sound_node_state.
Qed.
Lemma sound_step g o : fresh_op o -> sound g -> sound (apply_op grow walk g o).
Proof.
  intros Ho Hg. destruct o as [n|e| |now id|now id out|now id msg]; cbn [apply_op].
  - unfold AddNode, sound. cbn [gx_arrays gx_completed]. apply Forall_alter_one.
    + case_match; [exact Hg|]. apply Forall_app. split; [exact Hg|]. constructor; [by apply sound_Nodes|constructor].
    + intros l Hl _. apply Forall_app. split; [done|]. constructor; [|constructor]. cbn in Ho. intros [H|H]; congruence.
  - exact Hg.
  - unfold BuildIndex. apply sound_set_Nodes; [exact Hg|]. apply Forall_map, Forall_forall. intros n _ Hst d Hd. cbn in *.
    destruct (if bool_decide _ then _ else _); [by apply elem_of_nil in Hd|]. by destruct Hst.
  - unfold MarkNodeRunning. destruct (GetNode id g) as [[p n]|] eqn:Hn; [|done]. case_bool_decide as Hr; [|done].
    apply (sound_update g p); [done|]. intros n' Hn' Hp _. unfold GetNode in Hn. destruct (gx_index g !! id) as [q|]; [|done]. cbn in Hn.
    destruct (deref g q) as [m|] eqn:Hm; [|done]. injection Hn as -> ->. rewrite Hm in Hp. injection Hp as <-. cbn. apply Hn'. by left.
  - unfold MarkNodeCompleted. destruct (GetNode id g) as [[p n]|] eqn:Hn; [|done]. apply sound_updateDependentNodes.
    assert (Hu : sound (write_node p (fun n => mkNode (gn_Task n) NodeCompleted out (gn_Error n) (gn_StartedAt n) now (gn_DependsOn n)) g))
      by (apply (sound_update g p); [done|]; by intros n' _ _ [?|?]).
    unfold sound, with_completed. cbn [gx_arrays gx_completed]. eapply Forall_impl; [exact Hu|]. intros l Hl.
    eapply Forall_impl; [exact Hl|]. intros n'. apply sound_node_mono. set_solver.
  - unfold MarkNodeFailed. destruct (GetNode id g) as [[p n]|] eqn:Hn; [|done]. unfold skipDependentNodes. cbn [fst].
    set (g1 := write_node p _ g). assert (H1 : sound g1) by (apply (sound_update g p); [done|]; by intros n' _ _ [?|?]).
    apply sound_set_Nodes; [done|]. apply sound_skip. by apply sound_Nodes.
Qed.

Lemma sound_after ops : Forall fresh_op ops -> sound (after grow walk ops).
Proof.
  intros H. unfold after. assert (Hs : sound NewTaskGraphExecution) by (repeat constructor). revert Hs. generalize NewTaskGraphExecution.
  induction H as [|o ops Ho _ IH]; intros g Hg; [done|]. cbn [foldl]. by apply IH, sound_step.
Qed.

(** Only what was marked completed is in the set of completed nodes. *)
Lemma completed_after ops d : d ∈ gx_completed (after grow walk ops) -> exists now out, OpCompleted now d out ∈ ops.
Proof.
  unfold after. induction ops as [|o ops IH] using rev_ind; [by intros ?%elem_of_empty|]. rewrite foldl_snoc. set (g := foldl _ _ ops) in *.
  assert (Hold : d ∈ gx_completed g -> exists now out, OpCompleted now d out ∈ ops ++ [o]).
  { intros (now & out & H)%IH. exists now, out. apply elem_of_app. by left. }
  destruct o as [n|e| |now id|now id out|now id msg]; cbn [apply_op]; try exact Hold.
  - unfold MarkNodeRunning. destruct (GetNode id g) as [[p n]|]; [|exact Hold]. case_bool_decide; exact Hold.
  - unfold MarkNodeCompleted. destruct (GetNode id g) as [[p n]|]; [|exact Hold]. cbn [fst]. rewrite updateDependentNodes_completed. cbn.
    rewrite elem_of_union, elem_of_singleton. intros [->|H]; [|by apply Hold]. exists now, out. apply elem_of_app. right. by left.
  - unfold MarkNodeFailed. destruct (GetNode id g) as [[p n]|]; exact Hold.
Qed.

(** Whatever the operations and their order, nodes and edges added in between
    included: a node is marked running only after each node it depends on was
    marked completed. *)
Theorem node_runs_after_dependencies ops now id g' :
  Forall fresh_op ops -> MarkNodeRunning now id (after grow walk ops) = (g', None) ->
  exists p n, GetNode id (after grow walk ops) = Some (p, n) /\
    forall d, d ∈ gn_DependsOn n -> exists t out, OpCompleted t d out ∈ ops.
Proof.
  intros Hf Hr. pose proof (sound_after ops Hf) as Hs. set (g := after grow walk ops) in *. unfold MarkNodeRunning in Hr.
  destruct (GetNode id g) as [[p n]|] eqn:Hn; [|done]. case_bool_decide as Hst; [|done]. exists p, n. split; [done|].
  intros d Hd. apply completed_after. unfold GetNode in Hn. destruct (gx_index g !! id) as [q|]; [|done]. cbn in Hn.
  destruct (deref g q) as [m|] eqn:Hm; [|done]. injection Hn as -> ->. apply (sound_deref g p n Hs Hm); [by left|done].
Qed.
End safety.

(** ** Failure *)

(** The nodes a failure reaches through nodes that wait. *)
Definition waits (nodes : list AggregateNode) (id : string) : Prop := pending_first id nodes <> None.

Inductive reached (edges : list TaskEdge) (nodes : list AggregateNode) (id : string) : string -> Prop :=
| reached_next e : e ∈ edges -> te_From e = id -> waits nodes (te_To e) -> reached edges nodes id (te_To e)
| reached_far u e : reached edges nodes id u -> e ∈ edges -> te_From e = u -> waits nodes (te_To e) -> reached edges nodes id (te_To e).

Lemma reached_mono edges nodes nodes' id v :
  (forall w, waits nodes w -> waits nodes' w) -> reached edges nodes id v -> reached edges nodes' id v.
Proof. intros Hw. induction 1; [eapply reached_next|eapply reached_far]; eauto. Qed.

Lemma reached_from edges nodes id e v :
  e ∈ edges -> te_From e = id -> waits nodes (te_To e) -> reached edges nodes (te_To e) v -> reached edges nodes id v.
Proof.
  intros He Hid Hw. induction 1; [|eapply reached_far; eauto]. eapply reached_far; [|eauto..]. by apply reached_next.
Qed.

Lemma find_alter (P : AggregateNode -> Prop) `{!forall x, Decision (P x)} f i l :
  (forall x, P (f x) <-> P x) ->
  list_find P (alter f i l) = (fun jn => (jn.1, if decide (jn.1 = i) then f jn.2 else jn.2)) <$> list_find P l.
Proof.
  intros HP. revert i. induction l as [|x l IH]; intros [|i]; cbn; [done|done| |].
  - destruct (decide (P x)) as [Hx|Hx], (decide (P (f x))) as [Hfx|Hfx]; try (exfalso; pose proof (HP x); tauto); cbn; [done|].
    destruct (list_find P l) as [[j n]|]; done.
  - destruct (decide (P x)); cbn; [done|]. change (list_alter f i l) with (alter f i l). rewrite IH.
    destruct (list_find P l) as [[j y]|]; cbn; [|done]. do 2 f_equal. destruct (decide (j = i)), (decide (S j = S i)); congruence.
Qed.

Lemma pending_first_lookup id nodes i : pending_first id nodes = Some i ->
  exists n, nodes !! i = Some n /\ gn_ID n = id /\ gn_State n = NodePending.
Proof.
  unfold pending_first, nodeNodeIndex. destruct (list_find _ nodes) as [[j n]|] eqn:Hf; [|done]. case_decide; [|done].
  intros [= ->]. apply list_find_Some in Hf as (Hn & Hid & _). by exists n.
Qed.

(** Skipping the node an edge leads to changes what waits at that id only. *)
Lemma pending_first_skip id i nodes w :
  pending_first id nodes = Some i ->
  pending_first w (alter (set_state NodeSkipped) i nodes) = if decide (w = id) then None else pending_first w nodes.
Proof.
  intros Hi. pose proof (pending_first_lookup _ _ _ Hi) as (n0 & Hn0 & Hid0 & _).
  unfold pending_first, nodeNodeIndex in *. rewrite find_alter by done.
  destruct (decide (w = id)) as [->|Hne].
  - destruct (list_find _ nodes) as [[j n]|]; [|done]. case_decide; [|done]. injection Hi as ->. cbn. by destruct (decide (i = i)).
  - destruct (list_find (fun n => gn_ID n = w) nodes) as [[j n]|] eqn:Hf; [|done]. cbn. apply list_find_Some in Hf as (Hj & Hw & _).
    destruct (decide (j = i)) as [->|]; [congruence|done].
Qed.

Lemma pendings_skip id i nodes :
  pending_first id nodes = Some i -> pendings nodes = S (pendings (alter (set_state NodeSkipped) i nodes)).
Proof.
  intros (n & Hn & _ & Hst)%pending_first_lookup. unfold pendings. revert i Hn.
  induction nodes as [|x l IH]; intros [|i] Hn; cbn in Hn; [done..| |].
  - injection Hn as ->. cbn [alter list_alter]. rewrite !filter_cons, decide_True, decide_False by done. done.
  - cbn [alter list_alter]. change (list_alter (set_state NodeSkipped) i l) with (alter (set_state NodeSkipped) i l).
    rewrite !filter_cons. specialize (IH i Hn). case_decide; cbn [length]; lia.
Qed.

(** What skipping from [id] leaves behind, the edges of [done] followed. *)
Record skipped (edges : list TaskEdge) (id : string) (nodes : list AggregateNode) (followed : list TaskEdge) (result : list AggregateNode) : Prop := {
  sk_less v : waits result v -> waits nodes v;
  sk_reached v : waits nodes v -> ~ waits result v -> reached edges nodes id v;
  sk_followed e : e ∈ followed -> te_From e = id -> ~ waits result (te_To e);
  sk_closed v e : waits nodes v -> ~ waits result v -> e ∈ edges -> te_From e = v -> ~ waits result (te_To e) }.

#[export] Instance waits_dec nodes v : Decision (waits nodes v).
Proof. unfold waits. apply _. Defined.

Lemma skipped_step edges id nodes followed arr e i result :
  skipped edges id nodes followed arr -> e ∈ edges -> te_From e = id -> pending_first (te_To e) arr = Some i ->
  skipped edges (te_To e) (alter (set_state NodeSkipped) i arr) edges result ->
  skipped edges id nodes (followed ++ [e]) result.
Proof.
  intros [L R F C] He Hid Hi [L2 R2 F2 C2]. set (arr2 := alter _ i arr) in *.
  assert (H2 : forall w, waits arr2 w <-> w <> te_To e /\ waits arr w).
  { intros w. unfold waits, arr2. rewrite (pending_first_skip _ _ _ w Hi). case_decide; [naive_solver|]. split; [by split|by intros [_ ?]]. }
  assert (Hto : waits arr (te_To e)) by (unfold waits; by rewrite Hi).
  assert (Hdown : forall w, waits result w -> waits arr w) by (intros w Hw; apply L2, H2 in Hw; tauto).
  split.
  - intros v Hv. by apply L, Hdown.
  - intros v Hv Hr. destruct (decide (waits arr v)) as [Ha|Ha]; [|by apply R]. destruct (decide (v = te_To e)) as [->|Hne].
    + apply reached_next; auto.
    + eapply reached_from; [exact He|exact Hid|by apply L|]. apply (reached_mono _ arr2); [intros w Hw; apply H2 in Hw; apply L; tauto|].
      apply R2; [by apply H2|done].
  - intros e' [He'| ->%list_elem_of_singleton]%elem_of_app Hf Hw; [by apply (F e' He' Hf), Hdown|]. apply L2, H2 in Hw. tauto.
  - intros v e' Hv Hr He' Hf Hw. destruct (decide (waits arr v)) as [Ha|Ha]; [|by apply (C v e' Hv Ha He' Hf), Hdown].
    destruct (decide (v = te_To e)) as [->|Hne]; [by apply (F2 e' He' Hf)|]. apply (C2 v e'); [by apply H2|done..].
Qed.

Lemma skip_pendings fuel edges id nodes : (pendings (skip_nodes fuel edges id nodes) <= pendings nodes)%nat.
Proof.
  revert id nodes. induction fuel as [|f IH]; intros id nodes; [done|]. cbn [skip_nodes].
  match goal with |- context [foldl ?F _ _] => set (step := F) end.
  generalize edges as es. intros es. revert nodes. induction es as [|e es IHe]; intros nodes; [done|]. cbn [foldl].
  etransitivity; [apply IHe|]. unfold step. destruct (String.eqb _ _); [|done]. destruct (pending_first _ nodes) as [i|] eqn:Hi; [|done].
  pose proof (pendings_skip _ _ _ Hi). specialize (IH (te_To e) (alter (set_state NodeSkipped) i nodes)). lia.
Qed.

Lemma skip_nodes_spec fuel edges id nodes : (pendings nodes < fuel)%nat -> skipped edges id nodes edges (skip_nodes fuel edges id nodes).
Proof.
  revert id nodes. induction fuel as [|f IH]; intros id nodes Hf; [lia|]. cbn [skip_nodes].
  match goal with |- context [foldl ?F _ _] => set (step := F) end.
  assert (Hgen : forall es followed arr, followed ++ es = edges -> (pendings arr <= pendings nodes)%nat -> skipped edges id nodes followed arr ->
    skipped edges id nodes edges (foldl step arr es)).
  { induction es as [|e es IHe]; intros followed arr Heq Hp Hs; [rewrite app_nil_r in Heq; by subst|]. cbn [foldl].
    assert (He : e ∈ edges) by (rewrite <- Heq; apply elem_of_app; right; by left).
    apply (IHe (followed ++ [e])); [by rewrite <- app_assoc| |].
    - unfold step. destruct (String.eqb_spec (te_From e) id) as [Hid|]; [|done]. destruct (pending_first (te_To e) arr) as [i|] eqn:Hi; [|done].
      pose proof (pendings_skip _ _ _ Hi). pose proof (skip_pendings f edges (te_To e) (alter (set_state NodeSkipped) i arr)). lia.
    - unfold step. destruct (String.eqb_spec (te_From e) id) as [Hid|Hid].
      + destruct (pending_first (te_To e) arr) as [i|] eqn:Hi.
        * eapply skipped_step; [exact Hs|exact He|exact Hid|exact Hi|]. apply IH. pose proof (pendings_skip _ _ _ Hi). lia.
        * destruct Hs as [L R F C]. split; [done|done| |done]. intros e' [He'| ->%list_elem_of_singleton]%elem_of_app Hf'; [by apply F|]. intros Hw. by apply Hw.
      + destruct Hs as [L R F C]. split; [done|done| |done]. intros e' [He'| ->%list_elem_of_singleton]%elem_of_app Hf'; [by apply F|congruence]. }
  apply (Hgen edges []); [done|done|]. split; [done|done|by intros e ?%elem_of_nil|done].
Qed.

(** Skipping changes the state of waiting nodes and nothing else. *)
Lemma skip_pointwise fuel edges id nodes i n' :
  skip_nodes fuel edges id nodes !! i = Some n' ->
  exists n, nodes !! i = Some n /\ (n' = n \/ gn_State n = NodePending /\ n' = set_state NodeSkipped n).
Proof.
  revert id nodes n'. induction fuel as [|f IH]; intros id nodes n'; [by exists n'; auto|]. cbn [skip_nodes].
  match goal with |- context [foldl ?F _ _] => set (step := F) end.
  generalize edges as es. intros es. revert nodes n'. induction es as [|e es IHe]; intros nodes n'; [by exists n'; auto|]. cbn [foldl].
  intros (n & Hn & Hc)%IHe. unfold step in Hn. destruct (String.eqb _ _); [|by exists n]. destruct (pending_first _ nodes) as [j|] eqn:Hj; [|by exists n].
  apply IH in Hn as (m & Hm & Hmc). pose proof (pending_first_lookup _ _ _ Hj) as (n0 & Hn0 & _ & Hst0).
  destruct (decide (i = j)) as [->|Hne].
  - rewrite list_lookup_alter_eq, Hn0 in Hm. injection Hm as <-. exists n0. split; [done|]. right. split; [done|].
    destruct Hmc as [->|[? _]]; [|done]. by destruct Hc as [->|[? _]].
  - rewrite list_lookup_alter_ne in Hm by done. exists m. split; [done|]. destruct Hmc as [->|[? ->]]; [done|]. right. split; [done|].
    by destruct Hc as [->|[? _]].
Qed.

Lemma gx_Nodes_set l g : gx_arrays g <> [] -> gx_Nodes (set_Nodes l g) = l.
Proof.
  intros Hne. assert (Hlt : (current g < length (gx_arrays g))%nat) by (unfold current; destruct (gx_arrays g); [done|cbn; lia]).
  unfold gx_Nodes, set_Nodes, current in *. cbn [gx_arrays with_arrays]. rewrite length_insert. by rewrite list_lookup_insert_eq.
Qed.

Lemma GetNode_arrays id g p n : GetNode id g = Some (p, n) -> gx_arrays g <> [].
Proof.
  unfold GetNode. destruct (gx_index g !! id) as [q|]; [|done]. cbn. unfold deref. destruct (gx_arrays g); [|done]. by rewrite lookup_nil.
Qed.

(** A failure skips exactly the waiting nodes it reaches through waiting nodes,
    and no other node of the slice changes but the one that failed. *)
Theorem failure_skips_what_it_reaches now id msg g p n :
  GetNode id g = Some (p, n) ->
  let marked := write_node p (fun n => mkNode (gn_Task n) NodeFailed (gn_Output n) msg (gn_StartedAt n) now (gn_DependsOn n)) g in
  let g' := fst (MarkNodeFailed now id msg g) in
  (forall v, waits (gx_Nodes marked) v -> (~ waits (gx_Nodes g') v <-> reached (gx_Edges g) (gx_Nodes marked) id v)) /\
  (forall i n', gx_Nodes g' !! i = Some n' ->
     exists n, gx_Nodes marked !! i = Some n /\ (n' = n \/ gn_State n = NodePending /\ n' = set_state NodeSkipped n)).
Proof.
  intros Hn marked g'. subst g'. unfold MarkNodeFailed. rewrite Hn. cbn [fst]. fold marked. unfold skipDependentNodes.
  assert (Hne : gx_arrays marked <> []).
  { unfold marked, write_node. cbn. intros H. apply (f_equal length) in H. rewrite length_alter in H. pose proof (GetNode_arrays _ _ _ _ Hn).
    by destruct (gx_arrays g). }
  rewrite gx_Nodes_set by done. change (gx_Edges marked) with (gx_Edges g). split.
  - intros v Hv. destruct (skip_nodes_spec (S (pendings (gx_Nodes marked))) (gx_Edges g) id (gx_Nodes marked)) as [L R F C]; [lia|].
    split; [by apply R|]. induction 1 as [e He Hid Hw|u e Hu IHu He Hf Hw]; [by apply F|]. eapply C; [| |exact He|exact Hf]; [by destruct Hu|].
    apply IHu. by destruct Hu.
  - intros i n'. apply skip_pointwise.
Qed.

(** ** The order of the nodes *)

Section order.
Variables (ids : gset string) (edges : list TaskEdge).

Lemma take_ready_spec fuel deg queue order :
  (size ids < fuel + length order)%nat -> kahn_state ids edges order queue deg ->
  exists deg', kahn_state ids edges (take_ready fuel ids edges deg queue order) [] deg'.
Proof.
  revert deg queue order. induction fuel as [|f IH]; intros deg queue order Hf Hk.
  - exfalso. destruct Hk as (_ & [Hnd _] & Hn & _). apply NoDup_app in Hnd as (Hnd & _).
    assert (length order <= size ids)%nat; [|lia].
    rewrite <- (size_list_to_set (C := gset string) order Hnd). apply subseteq_size.
    intros v Hv%elem_of_list_to_set. apply Hn, elem_of_app. by left.
  - destruct queue as [|u queue]; cbn [take_ready]; [by exists deg|].
    pose proof (kahn_step ids edges u queue order deg Hk) as Hs. destruct (release _ _ _ _ _) as [deg' queue'].
    apply IH; [rewrite length_app; cbn; lia|done].
Qed.
End order.

Definition as_graph (g : TaskGraphExecution) : TaskGraph := mkTaskGraph (map gn_Task (gx_Nodes g)) (Some (gx_Edges g)).

(** For nodes with ids of their own and edges between them, the order is
    correct and complete: each node once, after the sources of its edges, and a
    cycle is reported only when there is no such order. *)
Theorem TopologicalSort_correct walk g :
  (forall s, walk s ≡ₚ elements s) -> gx_arrays g <> [] -> NoDup (map gn_ID (gx_Nodes g)) ->
  Forall (fun e => te_To e ∈ map gn_ID (gx_Nodes g)) (gx_Edges g) ->
  match snd (TopologicalSort walk g) with
  | Ok l => topo_order (as_graph g) l
  | Err _ => forall l, ~ topo_order (as_graph g) l
  end.
Proof.
  intros Hwalk Hne Hnd Hto. unfold TopologicalSort. cbn [snd].
  assert (Hnodes : gx_Nodes (BuildIndex walk g) = map (init_node walk (gx_Edges g)) (gx_Nodes g)).
  { unfold BuildIndex. change (gx_Nodes (with_ready ?l ?h)) with (gx_Nodes h). by rewrite gx_Nodes_set. }
  rewrite Hnodes. change (gx_Edges (BuildIndex walk g)) with (gx_Edges g).
  assert (Hids : map gn_ID (map (init_node walk (gx_Edges g)) (gx_Nodes g)) = map gn_ID (gx_Nodes g)) by (rewrite map_map; by apply map_ext).
  assert (Hset : all_ids (map (init_node walk (gx_Edges g)) (gx_Nodes g)) (gx_Edges g) = node_set (as_graph g)).
  { unfold all_ids, node_set, as_graph. cbn [tg_Nodes]. rewrite Hids, map_map. apply set_eq. intros v.
    rewrite !elem_of_list_to_set, elem_of_app. split; [|by left]. intros [?|(e & -> & He)%list_elem_of_fmap]; [done|].
    rewrite Forall_forall in Hto. by apply Hto. }
  rewrite Hset. set (ids := node_set (as_graph g)). set (deg := in_degrees ids (gx_Edges g)).
  assert (Hsize : size ids = length (gx_Nodes g)).
  { unfold ids, node_set, as_graph. cbn [tg_Nodes]. rewrite map_map. rewrite size_list_to_set by done. apply length_map. }
  assert (Hinit : kahn_state ids (gx_Edges g) [] (filter (fun id => get_default 0 deg id = 0) (walk ids)) deg).
  { split_and!; [apply in_degrees_counts| | |by intros [|??]].
    - split; [apply NoDup_filter; rewrite Hwalk; apply NoDup_elements|]. intros v Hv. cbn [app].
      rewrite list_elem_of_filter, Hwalk, elem_of_elements. tauto.
    - intros v. cbn [app]. rewrite list_elem_of_filter, Hwalk, elem_of_elements. tauto. }
  destruct (take_ready_spec ids (gx_Edges g) (S (size ids)) deg (filter (fun id => get_default 0 deg id = 0) (walk ids)) []) as [deg' Hk]; [cbn; lia|done|].
  set (order := take_ready _ _ _ _ _ _) in *. pose proof Hk as (_ & [Hndo _] & Hn & Hr). rewrite app_nil_r in Hndo, Hn.
  pose proof (size_list_to_set (C := gset string) order Hndo) as Hso. rewrite length_map, <- Hsize.
  assert (Hsub : list_to_set order ⊆ ids) by (intros v Hv%elem_of_list_to_set; by apply Hn).
  destruct (Nat.eqb_spec (length order) (size ids)) as [Hlen|Hlen].
  - split_and!; [done| |done]. intros v. split; [apply Hn|]. intros Hv.
    assert (Heq : list_to_set order = ids) by (apply set_subseteq_size_eq; [done|lia]). fold ids in Hv. rewrite <- Heq in Hv. by apply elem_of_list_to_set in Hv.
  - intros l (Hndl & Hl & Hrl). apply Hlen. rewrite <- Hso. f_equal. apply set_eq. intros v.
    rewrite elem_of_list_to_set. split; [apply Hn|]. intros Hv. by eapply kahn_complete.
Qed.

(** ** Concrete graphs *)

Definition new_node (id : string) : AggregateNode := mkNode (mkTaskNode id "tool" [] EmptyString EmptyString) NoState [] EmptyString 0 0 [].

Definition in_set_order (s : gset string) : list string := elements s.
Definition doubling (n : nat) : nat := match n with O => 1 | _ => 2 * n end.

Definition run_ops (l : list graph_op) : TaskGraphExecution := after doubling in_set_order l.

Definition chain : list graph_op :=
  [OpAddNode (new_node "a"); OpAddNode (new_node "b"); OpAddEdge (mkTaskEdge "a" "b"); OpBuildIndex].

Definition state_of (id : string) (g : TaskGraphExecution) : option NodeExecutionState := (fun p => gn_State p.2) <$> GetNode id g.

Example chain_runs :
  let g := run_ops (chain ++ [OpRunning 1 "a"; OpCompleted 2 "a" []]) in
  state_of "b" g = Some NodeReady /\ GetProgress g = (1, 2, 0, 0)%nat /\ GetReadyNodes g = ["b"].
Proof. vm_compute. done. Qed.

(** Adding a node moves the slice, and the index keeps the old nodes where they
    were: what is marked completed afterwards is completed in the index and
    ready in the slice. *)
Lemma grown_graph_splits :
  let g := run_ops (chain ++ [OpAddNode (new_node "c"); OpRunning 1 "a"; OpCompleted 2 "a" []]) in
  state_of "a" g = Some NodeCompleted /\ map gn_State (gx_Nodes g) = [NodeReady; NodePending; NoState] /\
  GetProgress g = (0, 3, 0, 0)%nat.
Proof. vm_compute. done. Qed.

(** A node that was never started can be completed, a completed one can fail,
    and the graph then counts as completed. *)
Lemma failed_graph_is_completed :
  let g := run_ops (chain ++ [OpCompleted 1 "b" []; OpCompleted 2 "a" []; OpFailed 3 "b" "boom"]) in
  IsCompleted g = true /\ GetProgress g = (1, 2, 1, 0)%nat.
Proof. vm_compute. done. Qed.

(** An edge to a node that is not there is reported as a cycle. *)
Lemma unknown_target_is_a_cycle :
  snd (TopologicalSort in_set_order (run_ops [OpAddNode (new_node "a"); OpAddEdge (mkTaskEdge "a" "x")])) = Err "cycle detected in task graph".
Proof. vm_compute. done. Qed.

(** The runner aggregate (internal/agent/domain/runner.go): steps, the current
    one, and checkpoints of them.

    Steps are shared through pointers and slices of them through arrays: a heap
    holds the steps, another the arrays, filled up to their capacity with nil
    pointers; a slice is an array with a length.  [grow] is the capacity a full
    slice gets, at least its length and one. *)

Inductive StepStatus := StepPending | StepRunning | StepCompleted | StepFailed.
Inductive RunnerStatus := RunnerIdle | RunnerRunning | RunnerPaused | RunnerCompleted | RunnerFailed.

#[export] Instance step_status_eq_dec : EqDecision StepStatus.
Proof. solve_decision. Defined.
#[export] Instance runner_status_eq_dec : EqDecision RunnerStatus.
Proof. solve_decision. Defined.

Record PlannedStep := mkStep {
  sp_ID : string; sp_NodeID : string; sp_NodeType : string; sp_Input : list (string * json); sp_Output : list (string * json);
  sp_Status : StepStatus; sp_Error : string }.

(** A nil slice has no array. *)
Record slice := mkSlice { sl_array : option nat; sl_len : nat }.

Record Checkpoint := mkCheckpoint {
  cp_ID : string; cp_JobID : string; cp_SessionID : string; cp_Cursor : string; cp_Steps : slice; cp_StepIndex : Z; cp_CreatedAt : time }.

Record StepRunner := mkRunner {
  rn_JobID : string; rn_SessionID : string; rn_Checkpoint : option Checkpoint; rn_Steps : slice; rn_CurrentStepIndex : Z;
  rn_Status : RunnerStatus; rn_UpdatedAt : time }.

Record memory := mkMemory { hp_steps : list PlannedStep; hp_arrays : list (list (option nat)) }.

Definition nil_slice : slice := mkSlice None 0.

Definition NewRunner (now : time) (jobID sessionID : string) : StepRunner := mkRunner jobID sessionID None nil_slice (-1) RunnerIdle now.

Definition array_of (m : memory) (s : slice) : list (option nat) := match sl_array s with Some a => default [] (hp_arrays m !! a) | None => [] end.

(** The pointers of a slice; the third result of [cap]. *)
Definition elements_of (m : memory) (s : slice) : list (option nat) := take (sl_len s) (array_of m s).
Definition cap_of (m : memory) (s : slice) : nat := length (array_of m s).

Definition set_now (now : time) (r : StepRunner) : StepRunner :=
  mkRunner (rn_JobID r) (rn_SessionID r) (rn_Checkpoint r) (rn_Steps r) (rn_CurrentStepIndex r) (rn_Status r) now.
Definition put_status (st : RunnerStatus) (r : StepRunner) : StepRunner :=
  mkRunner (rn_JobID r) (rn_SessionID r) (rn_Checkpoint r) (rn_Steps r) (rn_CurrentStepIndex r) st (rn_UpdatedAt r).
Definition set_position (i : Z) (r : StepRunner) : StepRunner :=
  mkRunner (rn_JobID r) (rn_SessionID r) (rn_Checkpoint r) (rn_Steps r) i (rn_Status r) (rn_UpdatedAt r).
Definition set_steps (s : slice) (r : StepRunner) : StepRunner :=
  mkRunner (rn_JobID r) (rn_SessionID r) (rn_Checkpoint r) s (rn_CurrentStepIndex r) (rn_Status r) (rn_UpdatedAt r).
Definition set_checkpoint (c : option Checkpoint) (r : StepRunner) : StepRunner :=
  mkRunner (rn_JobID r) (rn_SessionID r) c (rn_Steps r) (rn_CurrentStepIndex r) (rn_Status r) (rn_UpdatedAt r).

(** [append(s, p)]. *)
Definition append_pointer (grow : nat -> nat) (p : option nat) (s : slice) (m : memory) : memory * slice :=
  if (sl_len s <? cap_of m s)%nat then
    (mkMemory (hp_steps m) (match sl_array s with Some a => alter (fun l => <[sl_len s := p]> l) a (hp_arrays m) | None => hp_arrays m end),
     mkSlice (sl_array s) (S (sl_len s)))
  else
    (mkMemory (hp_steps m) (hp_arrays m ++ [elements_of m s ++ p :: repeat None (grow (sl_len s) - S (sl_len s))]),
     mkSlice (Some (length (hp_arrays m))) (S (sl_len s))).

(** [p] is the caller's pointer, nil as [None]. *)
Definition AddStep (grow : nat -> nat) (now : time) (p : option nat) (r : StepRunner) (m : memory) : memory * StepRunner :=
  let '(m', s) := append_pointer grow p (rn_Steps r) m in (m', set_now now (set_steps s r)).

Definition in_steps (r : StepRunner) : bool := (0 <=? rn_CurrentStepIndex r) && (rn_CurrentStepIndex r <? Z.of_nat (sl_len (rn_Steps r))).

Definition current_pointer (r : StepRunner) (m : memory) : option nat :=
  if in_steps r then mjoin (elements_of m (rn_Steps r) !! Z.to_nat (rn_CurrentStepIndex r)) else None.

Definition CurrentStep (r : StepRunner) (m : memory) : option PlannedStep := p ← current_pointer r m; hp_steps m !! p.

(** A write through the pointer of the current step; nil panics. *)
Definition write_current (f : PlannedStep -> PlannedStep) (r : StepRunner) (m : memory) : outcome memory :=
  match current_pointer r m with
  | Some p => Ret (mkMemory (alter f p (hp_steps m)) (hp_arrays m))
  | None => Panic "invalid memory address or nil pointer dereference"
  end.

Definition with_status (st : StepStatus) (s : PlannedStep) : PlannedStep :=
  mkStep (sp_ID s) (sp_NodeID s) (sp_NodeType s) (sp_Input s) (sp_Output s) st (sp_Error s).

Definition ExecuteStep (now : time) (r : StepRunner) (m : memory) : outcome (memory * StepRunner) :=
  if bool_decide (rn_Status r = RunnerRunning) then Ret (m, r)
  else
    let r := set_position (rn_CurrentStepIndex r + 1) r in
    if Z.of_nat (sl_len (rn_Steps r)) <=? rn_CurrentStepIndex r then Ret (m, set_now now (put_status RunnerCompleted r))
    else if rn_CurrentStepIndex r <? 0 then Panic "index out of range"
    else
      let r := set_now now (put_status RunnerRunning r) in
      run m <- write_current (with_status StepRunning) r m ;; Ret (m, r).

Definition CompleteStep (now : time) (output : list (string * json)) (r : StepRunner) (m : memory) : outcome (memory * StepRunner) :=
  if in_steps r then
    run m <- write_current (fun s => mkStep (sp_ID s) (sp_NodeID s) (sp_NodeType s) (sp_Input s) output StepCompleted (sp_Error s)) r m ;;
    Ret (m, set_now now r)
  else Ret (m, r).

Definition FailStep (now : time) (errMsg : string) (r : StepRunner) (m : memory) : outcome (memory * StepRunner) :=
  if in_steps r then
    run m <- write_current (fun s => mkStep (sp_ID s) (sp_NodeID s) (sp_NodeType s) (sp_Input s) (sp_Output s) StepFailed errMsg) r m ;;
    Ret (m, set_now now (put_status RunnerFailed r))
  else Ret (m, r).

(** [stamp] is the time in the layout of the id; slicing goes up to the
    capacity. *)
Definition SaveCheckpoint (now : time) (stamp cursor : string) (r : StepRunner) (m : memory) : outcome (StepRunner * Checkpoint) :=
  let n := rn_CurrentStepIndex r + 1 in
  if (n <? 0) || (Z.of_nat (cap_of m (rn_Steps r)) <? n) then Panic "slice bounds out of range"
  else
    let c := mkCheckpoint ("cp-" +:+ rn_JobID r +:+ "-" +:+ stamp) (rn_JobID r) (rn_SessionID r) cursor
               (mkSlice (sl_array (rn_Steps r)) (Z.to_nat n)) (rn_CurrentStepIndex r) now in
    Ret (set_now now (set_checkpoint (Some c) r), c).

Definition LoadCheckpoint (now : time) (cp : option Checkpoint) (r : StepRunner) : StepRunner :=
  match cp with
  | None => r
  | Some c => set_now now (put_status RunnerPaused (set_position (cp_StepIndex c) (set_steps (cp_Steps c) (set_checkpoint (Some c) r))))
  end.

Definition Reset (now : time) (r : StepRunner) : StepRunner :=
  mkRunner (rn_JobID r) (rn_SessionID r) None nil_slice (-1) RunnerIdle now.

Definition RunnerIsCompleted (r : StepRunner) : bool :=
  (Z.of_nat (sl_len (rn_Steps r)) - 1 <=? rn_CurrentStepIndex r) && bool_decide (rn_Status r = RunnerCompleted).

Definition HasFailed (r : StepRunner) : bool := bool_decide (rn_Status r = RunnerFailed).

Definition Progress (r : StepRunner) : Z * Z :=
  let total := Z.of_nat (sl_len (rn_Steps r)) in
  (if bool_decide (rn_Status r = RunnerCompleted) then total else rn_CurrentStepIndex r + 1, total).

(** ** Starting and completing *)

Inductive work := WExecute (now : time) | WComplete (now : time) (output : list (string * json)).

Definition do_work (o : work) (st : memory * StepRunner) : outcome (memory * StepRunner) :=
  match o with
  | WExecute now => ExecuteStep now (snd st) (fst st)
  | WComplete now out => CompleteStep now out (snd st) (fst st)
  end.

Fixpoint do_all (l : list work) (st : memory * StepRunner) : outcome (memory * StepRunner) :=
  match l with [] => Ret st | o :: l => run st <- do_work o st ;; do_all l st end.

(** A runner that runs a step stays with it: completing the step leaves the
    runner running, and a running runner starts nothing.  However the steps are
    executed and completed, the second one is never started. *)
Theorem runner_never_leaves_its_step l m r m' r' :
  rn_Status r = RunnerRunning -> do_all l (m, r) = Ret (m', r') ->
  rn_Status r' = RunnerRunning /\ rn_CurrentStepIndex r' = rn_CurrentStepIndex r /\ rn_Steps r' = rn_Steps r.
Proof.
  revert m r. induction l as [|o l IH]; intros m r Hr; cbn [do_all]; [by intros [= <- <-]|].
  intros (st & Ho & Hl)%outcome_bind_ret. destruct st as [m1 r1].
  assert (H1 : rn_Status r1 = RunnerRunning /\ rn_CurrentStepIndex r1 = rn_CurrentStepIndex r /\ rn_Steps r1 = rn_Steps r).
  { destruct o as [now|now out]; cbn [do_work fst snd] in Ho.
    - unfold ExecuteStep in Ho. rewrite bool_decide_eq_true_2 in Ho by done. by injection Ho as <- <-.
    - unfold CompleteStep in Ho. destruct (in_steps r); [|by injection Ho as <- <-].
      apply outcome_bind_ret in Ho as (m2 & _ & Ho). by injection Ho as <- <-. }
  destruct H1 as (H1 & Hi & Hs). destruct (IH m1 r1 H1 Hl) as (H2 & Hi2 & Hs2). split_and!; congruence.
Qed.

(** ** Concrete runners *)

Definition todo (id : string) : PlannedStep := mkStep id id "tool" [] [] StepPending EmptyString.

Definition double (n : nat) : nat := match n with O => 1 | _ => 2 * n end.

(** A runner with three steps. *)
Definition three : memory * StepRunner :=
  foldl (fun st i => AddStep double (Time 0 0) (Some i) (snd st) (fst st))
    (mkMemory [todo "s0"; todo "s1"; todo "s2"] [], NewRunner (Time 0 0) "job" "session") [0; 1; 2]%nat.

Definition after_work {A} (f : memory * StepRunner -> A) (l : list work) : option A :=
  match do_all l three with Ret st => Some (f st) | Panic _ => None end.

Lemma second_step_never_starts :
  after_work (fun st => (rn_CurrentStepIndex (snd st), map sp_Status (hp_steps (fst st))))
    [WExecute (Time 1 0); WComplete (Time 2 0) []; WExecute (Time 3 0); WComplete (Time 4 0) []; WExecute (Time 5 0)]
  = Some (0, [StepCompleted; StepPending; StepPending]).
Proof. reflexivity. Qed.

Definition begun : memory * StepRunner := match do_work (WExecute (Time 1 0)) three with Ret st => st | Panic _ => three end.

Lemma runner_never_leaves_its_step_witness :
  rn_Status (snd begun) = RunnerRunning /\
  exists m' r', do_all [WComplete (Time 2 0) []; WExecute (Time 3 0)] begun = Ret (m', r') /\ rn_CurrentStepIndex r' = rn_CurrentStepIndex (snd begun).
Proof.
  split; [reflexivity|]. destruct (do_all [WComplete (Time 2 0) []; WExecute (Time 3 0)] begun) as [[m' r']|msg] eqn:H; [|discriminate H].
  exists m', r'. split; [reflexivity|].
  exact (proj1 (proj2 (runner_never_leaves_its_step _ (fst begun) (snd begun) m' r' eq_refl H))).
Defined.

(** A step that fails is stepped over: the runner goes on with the next one. *)
Lemma failed_runner_goes_on :
  match (run st <- do_work (WExecute (Time 1 0)) three ;; run st <- FailStep (Time 2 0) "boom" (snd st) (fst st) ;;
         do_work (WExecute (Time 3 0)) st) with
  | Ret (m, r) => rn_Status r = RunnerRunning /\ rn_CurrentStepIndex r = 1 /\ map sp_Status (hp_steps m) = [StepFailed; StepRunning; StepPending]
  | Panic _ => False
  end.
Proof. by vm_compute. Qed.

(** A runner restored from a checkpoint has only the steps that were begun: it
    is completed at the next call. *)
Lemma restored_runner_has_no_work_left :
  match (run st <- do_work (WExecute (Time 1 0)) three ;; run p <- SaveCheckpoint (Time 2 0) "t" "cursor" (snd st) (fst st) ;;
         do_work (WExecute (Time 4 0)) (fst st, LoadCheckpoint (Time 3 0) (Some (snd p)) (NewRunner (Time 3 0) "job" "session"))) with
  | Ret (m, r) => RunnerIsCompleted r = true /\ Progress r = (1, 1) /\ map sp_Status (hp_steps m) = [StepRunning; StepPending; StepPending]
  | Panic _ => False
  end.
Proof. by vm_compute. Qed.

(** The index moves on past the end, so saving a finished runner reads beyond
    its steps and then panics. *)
Lemma finished_runner_cannot_be_saved :
  match (run st <- do_work (WExecute (Time 1 0)) (mkMemory [] [], NewRunner (Time 0 0) "job" "session") ;;
         run p <- SaveCheckpoint (Time 2 0) "t" "cursor" (snd st) (fst st) ;; Ret p) with
  | Ret _ => False
  | Panic e => e = "slice bounds out of range"
  end.
Proof. by vm_compute. Qed.
