(* ===== verification/RequestSigner.v ===== *)
(** SHA-512 and HMAC, as crypto/sha512 and crypto/hmac compute them over
    bytes, in lower-case hexadecimal.

    Then the signatures of requests: pkg/security/signer and
    internal/api/http/middleware/signer.go. *)

From S2P Require Import Prelude Sha256 GoTime Json GoStrings JsonFacts GoFloat GoFloatOps.

(** ** 64-bit words *)

Definition mask64 : Z := 18446744073709551615.
Definition w64 (x : Z) : Z := Z.land x mask64.
Definition add64 (x y : Z) : Z := w64 (x + y).
Definition rotr64 (n x : Z) : Z := w64 (Z.lor (Z.shiftr x n) (Z.shiftl x (64 - n))).

Definition xor3 (x y z : Z) : Z := Z.lxor (Z.lxor x y) z.
Definition sum0_512 (x : Z) : Z := xor3 (rotr64 28 x) (rotr64 34 x) (rotr64 39 x).
Definition sum1_512 (x : Z) : Z := xor3 (rotr64 14 x) (rotr64 18 x) (rotr64 41 x).
Definition mix0_512 (x : Z) : Z := xor3 (rotr64 1 x) (rotr64 8 x) (Z.shiftr x 7).
Definition mix1_512 (x : Z) : Z := xor3 (rotr64 19 x) (rotr64 61 x) (Z.shiftr x 6).
Definition choose64 (x y z : Z) : Z := Z.lxor (Z.land x y) (Z.land (Z.lxor x mask64) z).

(** The first 64 bits of the fractional parts of the cube roots of the first
    80 primes, and of the square roots of the first eight. *)
Definition constants_512 : list Z :=
  [4794697086780616226; 8158064640168781261; 13096744586834688815; 16840607885511220156;
   4131703408338449720; 6480981068601479193; 10538285296894168987; 12329834152419229976;
   15566598209576043074; 1334009975649890238; 2608012711638119052; 6128411473006802146;
   8268148722764581231; 9286055187155687089; 11230858885718282805; 13951009754708518548;
   16472876342353939154; 17275323862435702243; 1135362057144423861; 2597628984639134821;
   3308224258029322869; 5365058923640841347; 6679025012923562964; 8573033837759648693;
   10970295158949994411; 12119686244451234320; 12683024718118986047; 13788192230050041572;
   14330467153632333762; 15395433587784984357; 489312712824947311; 1452737877330783856;
   2861767655752347644; 3322285676063803686; 5560940570517711597; 5996557281743188959;
   7280758554555802590; 8532644243296465576; 9350256976987008742; 10552545826968843579;
   11727347734174303076; 12113106623233404929; 14000437183269869457; 14369950271660146224;
   15101387698204529176; 15463397548674623760; 17586052441742319658; 1182934255886127544;
   1847814050463011016; 2177327727835720531; 2830643537854262169; 3796741975233480872;
   4115178125766777443; 5681478168544905931; 6601373596472566643; 7507060721942968483;
   8399075790359081724; 8693463985226723168; 9568029438360202098; 10144078919501101548;
   10430055236837252648; 11840083180663258601; 13761210420658862357; 14299343276471374635;
   14566680578165727644; 15097957966210449927; 16922976911328602910; 17689382322260857208;
   500013540394364858; 748580250866718886; 1242879168328830382; 1977374033974150939;
   2944078676154940804; 3659926193048069267; 4368137639120453308; 4836135668995329356;
   5532061633213252278; 6448918945643986474; 6902733635092675308; 7801388544844847127].

Definition initial_512 : list Z :=
  [7640891576956012808; 13503953896175478587; 4354685564936845355; 11912009170470909681; 5840696475078001361; 11170449401992604703; 2270897969802886507; 6620516959819538809].

(** ** SHA-512 *)

Definition padding_512 (len : nat) : list Z :=
  128 :: replicate (Z.to_nat ((111 - Z.of_nat len) mod 128)) 0 ++ be_bytes 16 (8 * Z.of_nat len).

Definition word64 (bs : list Z) : Z := foldl (fun w b => Z.lor (Z.shiftl w 8) b) 0 bs.

Fixpoint words64 (n : nat) (bs : list Z) : list Z :=
  match n with O => [] | S n' => word64 (take 8 bs) :: words64 n' (drop 8 bs) end.

(** The schedule is kept newest first. *)
Fixpoint extend_512 (n : nat) (w : list Z) : list Z :=
  match n with
  | O => w
  | S n' =>
      let at_ i := default 0 (w !! i) in
      extend_512 n' (add64 (add64 (mix1_512 (at_ 1%nat)) (at_ 6%nat)) (add64 (mix0_512 (at_ 14%nat)) (at_ 15%nat)) :: w)
  end.

Definition round_512 (d : list Z) (kw : Z * Z) : list Z :=
  match d with
  | [a; b; c; d; e; f; g; h] =>
      let t1 := add64 (add64 h (sum1_512 e)) (add64 (choose64 e f g) (add64 (fst kw) (snd kw))) in
      let t2 := add64 (sum0_512 a) (xor3 (Z.land a b) (Z.land a c) (Z.land b c)) in
      [add64 t1 t2; a; b; c; add64 d t1; e; f; g]
  | _ => d
  end.

Definition compress_512 (d block : list Z) : list Z :=
  zip_with add64 d (foldl round_512 d (zip constants_512 (reverse (extend_512 64 (reverse block))))).

Fixpoint blocks_512 (n : nat) (bs d : list Z) : list Z :=
  match n with
  | O => d
  | S n' => blocks_512 n' (drop 128 bs) (compress_512 d (words64 16 bs))
  end.

(** A hash function: the size of its blocks and its sum, in bytes. *)
Record hash := mkHash { BlockSize : nat; Sum : list Z -> list Z }.

Definition sum512 (bs : list Z) : list Z :=
  let padded := bs ++ padding_512 (length bs) in
  concat (map (be_bytes 8) (blocks_512 (length padded / 128) padded initial_512)).

Definition sum256 (bs : list Z) : list Z :=
  let ws := words_of (bs ++ padding (length bs)) in
  let d := blocks (length ws) ws initial_digest in
  concat (map (be_bytes 4) [ha d; hb d; hc d; hd d; he d; hf d; hg d; hh d]).

Definition sha256 : hash := mkHash 64 sum256.
Definition sha512 : hash := mkHash 128 sum512.

(** ** HMAC *)

Definition block_key (h : hash) (key : list Z) : list Z :=
  let k := if (BlockSize h <? length key)%nat then Sum h key else key in
  k ++ replicate (BlockSize h - length k) 0.

Definition hmac (h : hash) (key msg : list Z) : list Z :=
  let k := block_key h key in
  Sum h (map (Z.lxor 92) k ++ Sum h (map (Z.lxor 54) k ++ msg)).

(** [hex.EncodeToString] *)
Fixpoint hex_of (bs : list Z) : string :=
  match bs with
  | [] => EmptyString
  | b :: r => String (hex_digit (b / 16)) (String (hex_digit b) (hex_of r))
  end.

Definition hex_hmac (h : hash) (key msg : string) : string := hex_of (hmac h (bytes_of key) (bytes_of msg)).

(** ** Test vectors *)

Example sha512_abc :
  hex_of (sum512 (bytes_of "abc")) =
  "ddaf35a193617abacc417349ae20413112e6fa4e89a97ea20a9eeee64b55d39a" +:+
  "2192992a274fc1a836ba3c23a3feebbd454d4423643ce80e2a9ac94fa54ca49f".
Proof. vm_compute. reflexivity. Qed.

Example hmac_sha256_jefe :
  hex_hmac sha256 "Jefe" "what do ya want for nothing?" = "5bdcc146bf60754e6a042426089575c75a003f089d2739839dec58b964ec3843".
Proof. vm_compute. reflexivity. Qed.

Example hmac_sha512_jefe :
  hex_hmac sha512 "Jefe" "what do ya want for nothing?" =
  "164b7a7bfcf819e2e395fbe73b56e0a387bd64222e831fd610270cd7ea250554" +:+
  "9758bf75c05a994a6d034f65f8f0e6fdcaeab1a34d4a6b4b636e070a38bce737".
Proof. vm_compute. reflexivity. Qed.

(** A key longer than a block is hashed first. *)
Example hmac_long_key :
  hex_hmac sha256 "kkkkkkkkkkkkkkkkkkkkkkkkkkkkkkkkkkkkkkkkkkkkkkkkkkkkkkkkkkkkkkkkkkkkkk" "m" =
  "900f58855ee2dee5e9d2482f3bffae016b296496f69f98814c03bd6daa4726a1".
Proof. vm_compute. reflexivity. Qed.

(** ** No sum is empty *)

Lemma hex_of_nonempty bs : bs <> [] -> hex_of bs <> EmptyString.
Proof. by destruct bs. Qed.

Lemma length_round_512 d kw : length d = 8%nat -> length (round_512 d kw) = 8%nat.
Proof. intros H. do 9 (destruct d as [|? d]; try discriminate H). reflexivity. Qed.

Lemma length_compress_512 d block : length d = 8%nat -> length (compress_512 d block) = 8%nat.
Proof.
  intros H. unfold compress_512. generalize (zip constants_512 (reverse (extend_512 64 (reverse block)))) as kws. intros kws.
  assert (Hf : length (foldl round_512 d kws) = 8%nat).
  { revert d H. induction kws as [|kw kws IH]; intros d H; [done|]. by apply IH, length_round_512. }
  rewrite length_zip_with, Hf, H. reflexivity.
Qed.

Lemma length_blocks_512 n bs d : length d = 8%nat -> length (blocks_512 n bs d) = 8%nat.
Proof. revert bs d. induction n as [|n IH]; intros bs d H; [done|]. by apply IH, length_compress_512. Qed.

Lemma sum512_nonempty bs : sum512 bs <> [].
Proof.
  unfold sum512. set (padded := bs ++ _).
  pose proof (length_blocks_512 (length padded / 128) padded initial_512 eq_refl) as H.
  by destruct (blocks_512 _ _ _).
Qed.

Lemma sum256_bytes_nonempty bs : sum256 bs <> [].
Proof. done. Qed.

Lemma hex_hmac_nonempty h key msg : h = sha256 \/ h = sha512 -> hex_hmac h key msg <> EmptyString.
Proof. intros [->| ->]; apply hex_of_nonempty; [apply sum256_bytes_nonempty|apply sum512_nonempty]. Qed.

#[global] Opaque hex_hmac.

(** Signed requests (pkg/security/signer/signer.go and
    internal/api/http/middleware/signer.go): what a signature covers, the
    middleware that asks for one, and the clients that make them.

    Hertz is outside: a request has what its methods answer.  Method and header
    names are ASCII, as HTTP has them.  [time.Now().Unix()] is an argument, and
    so is what [time.ParseDuration] makes of a configured text. *)

(** ** The signer *)

Record Signer := mkSigner {
  sg_secretKey : string; sg_algorithm : string; sg_clockSkew : Z; sg_signedHeaders : list string;
}.

Definition AlgorithmHMACSHA256 : string := "hmac-sha256".
Definition AlgorithmHMACSHA512 : string := "hmac-sha512".

Definition Option : Type := Signer -> Signer.

Definition WithAlgorithm (algo : string) : Option := fun s => mkSigner (sg_secretKey s) algo (sg_clockSkew s) (sg_signedHeaders s).
Definition WithClockSkew (skew : Z) : Option := fun s => mkSigner (sg_secretKey s) (sg_algorithm s) skew (sg_signedHeaders s).
Definition WithSignedHeaders (headers : list string) : Option :=
  fun s => mkSigner (sg_secretKey s) (sg_algorithm s) (sg_clockSkew s) headers.

Definition New (secretKey : string) (opts : list Option) : Signer :=
  foldl (fun s opt => opt s) (mkSigner secretKey AlgorithmHMACSHA256 (5 * minute) ["host"; "content-type"]) opts.

Record SignConfig := mkSignConfig {
  sgc_SecretKey : string; sgc_Algorithm : string; sgc_ClockSkew : Z; sgc_SignedHeaders : list string;
}.

Definition NewFromConfig (cfg : SignConfig) : Signer :=
  New (sgc_SecretKey cfg)
    ([WithAlgorithm (sgc_Algorithm cfg); WithClockSkew (sgc_ClockSkew cfg)]
     ++ match sgc_SignedHeaders cfg with [] => [] | hs => [WithSignedHeaders hs] end).

Definition newline : string := String lf EmptyString.

Definition buildStringToSign (method path timestamp body : string) : string :=
  join newline [ToUpper method; path; timestamp; body].

Definition signed_lines (s : Signer) (headers : gmap string string) : list string :=
  omap (fun header => value ← headers !! ToLower header; Some (ToLower header +:+ ":" +:+ value)) (sg_signedHeaders s).

Definition buildStringToSignWithHeaders (s : Signer) (method path timestamp body : string) (headers : gmap string string) : string :=
  join newline [ToUpper method; path; timestamp; join newline (signed_lines s headers); body].

Definition sign (s : Signer) (stringToSign : string) : string :=
  hex_hmac (if String.eqb (sg_algorithm s) AlgorithmHMACSHA512 then sha512 else sha256) (sg_secretKey s) stringToSign.

Definition SignRequest (s : Signer) (method path timestamp body : string) : string :=
  sign s (buildStringToSign method path timestamp body).

Definition SignRequestWithHeaders (s : Signer) (method path timestamp body : string) (headers : gmap string string) : string :=
  sign s (buildStringToSignWithHeaders s method path timestamp body headers).

Inductive sign_error := InvalidTimestamp | TimestampExpired | InvalidSignature.

Definition sign_error_text (e : sign_error) : string :=
  match e with
  | InvalidTimestamp => "invalid timestamp format"
  | TimestampExpired => "timestamp expired or too far in future"
  | InvalidSignature => "invalid signature"
  end.

(** The seconds of a duration are far inside int64, whatever stands for the
    conversion outside. *)
Definition verifyTimestamp (s : Signer) (now : Z) (timestamp : string) : result sign_error unit :=
  match ParseInt timestamp with
  | None => Err InvalidTimestamp
  | Some ts =>
      let diff := wrap64 (now - ts) in
      let diff := if diff <? 0 then wrap64 (- diff) else diff in
      if whole_seconds (fun _ => 0) (sg_clockSkew s) <? diff then Err TimestampExpired else Ok tt
  end.

Definition GenerateTimestamp (now : Z) : string := itoa now.

Definition GetSignedHeaders (s : Signer) : string := join "," (sg_signedHeaders s).

Definition VerifySignature (s : Signer) (now : Z) (method path timestamp body signature : string) : result sign_error unit :=
  try _ <- verifyTimestamp s now timestamp ;;
  if String.eqb (SignRequest s method path timestamp body) signature then Ok tt else Err InvalidSignature.

Definition VerifySignatureWithHeaders (s : Signer) (now : Z) (method path timestamp body : string)
    (headers : gmap string string) (signature : string) : result sign_error unit :=
  try _ <- verifyTimestamp s now timestamp ;;
  if String.eqb (SignRequestWithHeaders s method path timestamp body headers) signature then Ok tt else Err InvalidSignature.

(** ** The middleware *)

(** A request: [Peek] of its headers and [VisitAll] over them. *)
Record Request := mkRequest {
  sq_Method : string; sq_Path : string; sq_Body : string;
  sq_Peek : string -> string; sq_VisitAll : list (string * string);
}.

Record SignerMiddleware := mkSignerMiddleware {
  sm_signer : Signer; sm_clockSkew : Z; sm_requiredPaths : list string; sm_excludePaths : list string;
}.

Definition excluded_paths : list string := ["/api/login"; "/metrics"; "/health"].

(** No secret, no middleware. *)
Definition NewSignerMiddleware (secretKey : string) (requiredPaths : list string) : option SignerMiddleware :=
  if String.eqb secretKey "" then None
  else Some (mkSignerMiddleware (New secretKey []) (5 * minute) requiredPaths excluded_paths).

Definition NewSignerMiddlewareWithConfig (secretKey : string) (clockSkew : Z) (requiredPaths : list string) : option SignerMiddleware :=
  if String.eqb secretKey "" then None
  else Some (mkSignerMiddleware (New secretKey [WithClockSkew clockSkew]) clockSkew requiredPaths excluded_paths).

Record SignerConfig := mkSignerConfig {
  snc_Enabled : bool; snc_SecretKey : string; snc_ClockSkew : string; snc_RequiredPaths : list string;
}.

Definition NewSignerFromConfig (ParseDuration : string -> option Z) (cfg : SignerConfig) : option SignerMiddleware :=
  if negb (snc_Enabled cfg) || String.eqb (snc_SecretKey cfg) "" then None
  else
    let clockSkew := if String.eqb (snc_ClockSkew cfg) "" then 5 * minute
                     else default (5 * minute) (ParseDuration (snc_ClockSkew cfg)) in
    NewSignerMiddlewareWithConfig (snc_SecretKey cfg) clockSkew (snc_RequiredPaths cfg).

Definition matchPath (requestPath pattern : string) : bool :=
  if HasSuffix pattern "*" then HasPrefix requestPath (TrimSuffix pattern "*") else String.eqb requestPath pattern.

Definition requiresSignature (m : SignerMiddleware) (rq : Request) : bool :=
  if existsb (HasPrefix (sq_Path rq)) (sm_excludePaths m) then false
  else existsb (matchPath (sq_Path rq)) (sm_requiredPaths m).

Definition header_map (visited : list (string * string)) : gmap string string :=
  foldl (fun headers kv => <[ToLower (fst kv) := snd kv]> headers) ∅ visited.

(** [Next]: the handlers that follow are reached, with the access key if one
    was set; [Aborted]: an answer with this status and message instead. *)
Inductive verdict := Next (access_key : option string) | Aborted (status : Z) (message : string).

Definition HeaderSignature : string := "X-Signature".
Definition HeaderTimestamp : string := "X-Timestamp".
Definition HeaderAccessKey : string := "X-Access-Key".

Definition Middleware (m : option SignerMiddleware) (now : Z) (rq : Request) : verdict :=
  match m with
  | None => Next None
  | Some m =>
      if negb (requiresSignature m rq) then Next None
      else
        let signature := sq_Peek rq HeaderSignature in
        let timestamp := sq_Peek rq HeaderTimestamp in
        let accessKey := sq_Peek rq HeaderAccessKey in
        if String.eqb signature "" || String.eqb timestamp "" || String.eqb accessKey ""
        then Aborted 401 "missing required signature headers"
        else match VerifySignatureWithHeaders (sm_signer m) now (sq_Method rq) (sq_Path rq) timestamp (sq_Body rq)
                     (header_map (sq_VisitAll rq)) signature with
             | Err e => Aborted 401 ("invalid signature: " +:+ sign_error_text e)
             | Ok _ => Next (Some accessKey)
             end
  end.

(** ** The clients *)

(** [SignRequest] of the middleware package: the access key is fixed. *)
Definition client_SignRequest (now : Z) (secretKey method path body : string) : string * string * string :=
  let timestamp := GenerateTimestamp now in
  (SignRequest (New secretKey []) method path timestamp body, timestamp, "default").

Definition SignRequestWithAccessKey (now : Z) (secretKey accessKey method path body : string) : string * string :=
  let timestamp := GenerateTimestamp now in
  (SignRequest (New secretKey []) method path timestamp body, timestamp).

Record SignerClient := mkSignerClient { scl_signer : Signer; scl_accessKey : string }.

Definition NewSignerClient (secretKey accessKey : string) : SignerClient := mkSignerClient (New secretKey []) accessKey.

Definition Sign (c : SignerClient) (now : Z) (method path body : string) : gmap string string :=
  let timestamp := GenerateTimestamp now in
  list_to_map [("X-Access-Key", scl_accessKey c); ("X-Timestamp", timestamp);
               ("X-Signature", SignRequest (scl_signer c) method path timestamp body)].

(** [customHeaders] in the order in which the map is read. *)
Definition SignWithHeaders (c : SignerClient) (now : Z) (method path body : string)
    (customHeaders : list (string * string)) : gmap string string :=
  let headers := header_map customHeaders in
  let timestamp := GenerateTimestamp now in
  let signature := SignRequestWithHeaders (scl_signer c) method path timestamp body headers in
  <["x-signature" := signature]> (<["x-timestamp" := timestamp]> (<["x-access-key" := scl_accessKey c]> headers)).

Example sign_strings :
  buildStringToSignWithHeaders (New "k" []) "post" "/api/jobs" "1700000000" "{}"
    {["content-type" := "application/json"; "host" := "a"]}
  = join newline ["POST"; "/api/jobs"; "1700000000"; "host:a"; "content-type:application/json"; "{}"].
Proof. vm_compute. reflexivity. Qed.

(** ** Texts *)

Lemma upper_lf c : Ascii.eqb c lf = false -> Ascii.eqb (upper c) lf = false.
Proof. by destruct c as [[] [] [] [] [] [] [] []]. Qed.

Lemma map_runes_free f special s :
  (forall c, Ascii.eqb c lf = false -> Ascii.eqb (f c) lf = false) ->
  Forall (fun p => Ascii.eqb (snd p) lf = false) special ->
  forall skip, str_in lf s = false -> str_in lf (map_runes f special skip s) = false.
Proof.
  intros Hf Hs. induction s as [|c r IH]; intros skip; [by destruct skip|].
  cbn [str_in]. intros [Hc Hr]%orb_false_elim. cbn [map_runes]. destruct skip as [|n]; [|by apply IH].
  destruct (List.find _ special) as [[p a]|] eqn:Hfind; cbn [str_in]; rewrite IH by done; rewrite orb_false_r; [|by apply Hf].
  apply List.find_some in Hfind as [Hin _]. rewrite Forall_forall in Hs. apply (Hs (p, a)). by apply list_elem_of_In.
Qed.

Lemma ToUpper_lf s : str_in lf s = false -> str_in lf (ToUpper s) = false.
Proof. apply map_runes_free; [apply upper_lf|]. by repeat constructor. Qed.

(** As many lines, none of which breaks, are determined with what follows. *)
Lemma lines_inj ls1 ls2 b1 b2 :
  length ls1 = length ls2 -> Forall (fun l => str_in lf l = false) ls1 -> Forall (fun l => str_in lf l = false) ls2 ->
  join newline ls1 +:+ String lf b1 = join newline ls2 +:+ String lf b2 -> ls1 = ls2 /\ b1 = b2.
Proof.
  revert ls2. induction ls1 as [|x ls1 IH]; intros [|y ls2]; try done; [by intros _ _ _ [= ->]|].
  intros [= Hl] [Hx H1]%Forall_cons [Hy H2]%Forall_cons.
  destruct ls1 as [|x' ls1], ls2 as [|y' ls2]; try done.
  - cbn [join]. intros [-> ->]%first_sep_inj; done.
  - rewrite !join_cons, !str_app_assoc. cbn [newline String.append].
    intros [-> H]%first_sep_inj; [|done..]. by destruct (IH _ Hl H1 H2 H) as [-> ->].
Qed.

(** ** What a signature covers *)

Definition unbroken (method path timestamp : string) (ls : list string) : Prop :=
  Forall (fun l => str_in lf l = false) (method :: path :: timestamp :: ls).

(** The text to sign determines its parts, when as many headers are signed. *)
Lemma string_to_sign_inj s method path timestamp body headers method' path' timestamp' body' headers' :
  unbroken method path timestamp (signed_lines s headers) -> unbroken method' path' timestamp' (signed_lines s headers') ->
  length (signed_lines s headers) = length (signed_lines s headers') ->
  buildStringToSignWithHeaders s method path timestamp body headers
  = buildStringToSignWithHeaders s method' path' timestamp' body' headers' ->
  ToUpper method = ToUpper method' /\ path = path' /\ timestamp = timestamp' /\
  signed_lines s headers = signed_lines s headers' /\ body = body'.
Proof.
  unfold unbroken, buildStringToSignWithHeaders. rewrite !Forall_cons.
  intros (Hm & Hp & Ht & Hl) (Hm' & Hp' & Ht' & Hl') Hlen. rewrite !join_cons. cbn [newline join String.append].
  intros [-> [-> [-> [-> ->]%lines_inj]%first_sep_inj]%first_sep_inj]%first_sep_inj; try done; by apply ToUpper_lf.
Qed.

Definition sign_collision (s : Signer) : Prop := exists x y, x <> y /\ sign s x = sign s y.

Lemma same_signature s x y : sign s x = sign s y -> x = y \/ sign_collision s.
Proof. intros H. destruct (decide (x = y)) as [|Hne]; [by left|]. right. by exists x, y. Qed.

(** A text with the header line is longer than one without. *)
Lemma headerless_differs s method path timestamp body headers :
  buildStringToSign method path timestamp body <> buildStringToSignWithHeaders s method path timestamp body headers.
Proof.
  intros H. apply (f_equal String.length) in H. unfold buildStringToSign, buildStringToSignWithHeaders in H.
  rewrite !join_cons in H. cbn [newline join String.append] in H.
  repeat (rewrite ?length_app_str in H; cbn [String.length] in H). lia.
Qed.

(** ** The window of time *)

Definition window (s : Signer) : Z := whole_seconds (fun _ => 0) (sg_clockSkew s).

(** A timestamp is accepted within the window, and at one instant beside it:
    the one from which the distance overflows. *)
Theorem timestamp_window s now timestamp :
  0 <= now < 2 ^ 62 -> 0 <= window s < 2 ^ 62 ->
  verifyTimestamp s now timestamp = Ok tt <->
  exists ts, ParseInt timestamp = Some ts /\ (Z.abs (now - ts) <= window s \/ ts = now - 2 ^ 63).
Proof.
  intros Hn Hw. unfold verifyTimestamp. destruct (ParseInt timestamp) as [ts|] eqn:Hp.
  2: { split; [done|]. by intros (ts & ? & _). }
  pose proof (ParseInt_range _ _ Hp) as Hr. fold (window s).
  assert (Hiff : (if window s <? (if wrap64 (now - ts) <? 0 then wrap64 (- wrap64 (now - ts)) else wrap64 (now - ts))
                  then Err TimestampExpired else Ok tt) = Ok tt
                 <-> Z.abs (now - ts) <= window s \/ ts = now - 2 ^ 63).
  { destruct (decide (now - ts < 2 ^ 63)) as [Hlt|Hge].
    - rewrite (wrap64_id (now - ts)) by lia. destruct (Z.ltb_spec (now - ts) 0) as [Hneg|Hpos].
      + rewrite wrap64_id by lia. destruct (Z.ltb_spec (window s) (- (now - ts))); split; intros; try done; lia.
      + destruct (Z.ltb_spec (window s) (now - ts)); split; intros; try done; lia.
    - assert (Hwrap : wrap64 (now - ts) = now - ts - 2 ^ 64).
      { unfold wrap64. replace (now - ts + 2 ^ 63) with ((now - ts - 2 ^ 63) + 1 * 2 ^ 64) by lia.
        rewrite Z.mod_add, Z.mod_small by lia. lia. }
      rewrite Hwrap, (proj2 (Z.ltb_lt (now - ts - 2 ^ 64) 0)) by lia.
      destruct (decide (now - ts = 2 ^ 63)) as [He|Hne].
      + rewrite He. change (wrap64 (- (2 ^ 63 - 2 ^ 64))) with (- 2 ^ 63).
        rewrite (proj2 (Z.ltb_ge _ _)) by lia. split; [|done]. intros _. right. lia.
      + rewrite wrap64_id by lia. rewrite (proj2 (Z.ltb_lt _ _)) by lia. split; [done|]. lia. }
  rewrite Hiff. split; [by exists ts|]. by intros (? & [= <-] & ?).
Qed.

(** ** What the middleware lets through *)

Lemma sign_nonempty s x : String.eqb (sign s x) "" = false.
Proof. apply String.eqb_neq, hex_hmac_nonempty. case_match; auto. Qed.

Lemma verified s now method path timestamp body headers signature :
  VerifySignatureWithHeaders s now method path timestamp body headers signature = Ok tt <->
  verifyTimestamp s now timestamp = Ok tt /\ signature = SignRequestWithHeaders s method path timestamp body headers.
Proof.
  unfold VerifySignatureWithHeaders. destruct (verifyTimestamp s now timestamp) as [[]|e]; cbn [result_bind]; [|split; [done|by intros [? _]]].
  destruct (String.eqb_spec (SignRequestWithHeaders s method path timestamp body headers) signature); split; naive_solver.
Qed.

(** A request whose path asks for a signature reaches the handlers exactly when
    its three headers are there, its time is in the window and the signature is
    the one of its parts; the access key it names is passed on. *)
Theorem middleware_decides m now rq key :
  requiresSignature m rq = true ->
  let s := sm_signer m in
  Middleware (Some m) now rq = Next key <->
  key = Some (sq_Peek rq HeaderAccessKey) /\ sq_Peek rq HeaderAccessKey <> "" /\
  verifyTimestamp s now (sq_Peek rq HeaderTimestamp) = Ok tt /\
  sq_Peek rq HeaderSignature
  = SignRequestWithHeaders s (sq_Method rq) (sq_Path rq) (sq_Peek rq HeaderTimestamp) (sq_Body rq) (header_map (sq_VisitAll rq)).
Proof.
  intros Hr s. unfold Middleware. rewrite Hr. cbn [negb]. subst s.
  pose proof (verified (sm_signer m) now (sq_Method rq) (sq_Path rq) (sq_Peek rq HeaderTimestamp) (sq_Body rq)
                (header_map (sq_VisitAll rq)) (sq_Peek rq HeaderSignature)) as Hv.
  destruct (VerifySignatureWithHeaders _ _ _ _ _ _ _ _) as [[]|e] eqn:He.
  - destruct (proj1 Hv eq_refl) as [Ht Hs]. rewrite Hs at 1. unfold SignRequestWithHeaders at 1. rewrite sign_nonempty. cbn [orb].
    destruct (String.eqb_spec (sq_Peek rq HeaderTimestamp) "") as [Hte|_]; [by rewrite Hte in Ht|]. cbn [orb].
    destruct (String.eqb_spec (sq_Peek rq HeaderAccessKey) "") as [Hk|Hk]; split; [done|by intros (_ & ? & _)|by intros [= <-]|].
    by intros (-> & _).
  - split; [by case_match|]. intros (_ & _ & H). by apply Hv in H.
Qed.

(** A signature that was made for one request lets through no other: method,
    path, time, body and the signed headers are the same, or the hash collides. *)
Theorem signature_fixes_request m now rq key method path timestamp body headers :
  requiresSignature m rq = true -> Middleware (Some m) now rq = Next key ->
  let s := sm_signer m in let seen := header_map (sq_VisitAll rq) in
  sq_Peek rq HeaderSignature = SignRequestWithHeaders s method path timestamp body headers ->
  unbroken (sq_Method rq) (sq_Path rq) "" (signed_lines s seen) -> unbroken method path timestamp (signed_lines s headers) ->
  length (signed_lines s seen) = length (signed_lines s headers) ->
  sign_collision s \/
  ToUpper (sq_Method rq) = ToUpper method /\ sq_Path rq = path /\ sq_Peek rq HeaderTimestamp = timestamp /\
  signed_lines s seen = signed_lines s headers /\ sq_Body rq = body.
Proof.
  intros Hr Hm s seen Hsig Hu Hu' Hl. apply middleware_decides in Hm as (_ & _ & Ht & Hs); [|done]. fold s seen in Ht, Hs.
  rewrite Hs in Hsig. apply same_signature in Hsig as [Heq|Hc]; [right|by left].
  apply string_to_sign_inj in Heq; [done| |done..].
  unfold unbroken in Hu |- *. rewrite !Forall_cons in Hu |- *. destruct Hu as (? & ? & _ & ?). split_and!; try done.
  unfold verifyTimestamp in Ht. destruct (ParseInt _) eqn:Hp; [|done]. by eapply (ParseInt_free lf).
Qed.

Lemma header_map_ext l l' : map (fun kv => (ToLower (fst kv), snd kv)) l = map (fun kv => (ToLower (fst kv), snd kv)) l' -> header_map l = header_map l'.
Proof.
  unfold header_map. generalize (∅ : gmap string string) as acc. revert l'.
  induction l as [|[k v] l IH]; intros [|[k' v'] l'] acc; try done. cbn. intros [= -> -> H]. by apply IH.
Qed.

Lemma signed_lines_ext s h h' :
  Forall (fun k => h !! ToLower k = h' !! ToLower k) (sg_signedHeaders s) -> signed_lines s h = signed_lines s h'.
Proof. unfold signed_lines. induction 1 as [|k ks Hk _ IH]; [done|]. cbn in IH |- *. by rewrite Hk, IH. Qed.

(** What a client signs with its headers is accepted, while the clocks agree,
    when the request arrives with those headers. *)
Theorem signed_request_is_accepted secret accessKey paths skew now now' method path body custom m rq :
  NewSignerMiddlewareWithConfig secret skew paths = Some m ->
  requiresSignature m rq = true -> accessKey <> "" ->
  0 <= now' < 2 ^ 62 -> 0 <= now < 2 ^ 62 -> Z.abs (now' - now) <= window (sm_signer m) < 2 ^ 62 ->
  let sent := SignWithHeaders (NewSignerClient secret accessKey) now method path body custom in
  sq_Method rq = method -> sq_Path rq = path -> sq_Body rq = body ->
  Some (sq_Peek rq HeaderSignature) = sent !! "x-signature" -> Some (sq_Peek rq HeaderTimestamp) = sent !! "x-timestamp" ->
  Some (sq_Peek rq HeaderAccessKey) = sent !! "x-access-key" ->
  Forall (fun k => header_map (sq_VisitAll rq) !! k = header_map custom !! k) ["host"; "content-type"] ->
  Middleware (Some m) now' rq = Next (Some accessKey).
Proof.
  intros Hm Hr Hk Hn' Hn Hw sent Hmeth Hpath Hbody Hsig Hts Hac Hh.
  assert (Hs : sg_secretKey (sm_signer m) = secret /\ sg_algorithm (sm_signer m) = AlgorithmHMACSHA256
               /\ sg_signedHeaders (sm_signer m) = ["host"; "content-type"]).
  { unfold NewSignerMiddlewareWithConfig in Hm. case_match; [done|]. by injection Hm as <-. }
  destruct Hs as (Hsec & Halg & Hhead). unfold sent, SignWithHeaders in Hsig, Hts, Hac.
  rewrite lookup_insert_eq in Hsig. rewrite lookup_insert_ne, lookup_insert_eq in Hts by done.
  do 2 rewrite lookup_insert_ne in Hac by done. rewrite lookup_insert_eq in Hac. injection Hsig as Hsig. injection Hts as Hts. injection Hac as Hac.
  apply middleware_decides; [done|]. rewrite Hac, Hts, Hsig. split_and!; [done|done| |].
  - apply timestamp_window; [done|lia|]. exists now. split; [apply ParseInt_itoa; lia|left; lia].
  - cbn [scl_signer NewSignerClient]. unfold SignRequestWithHeaders, buildStringToSignWithHeaders, sign.
    rewrite Hsec, Halg, Hmeth, Hpath, Hbody.
    replace (signed_lines (sm_signer m) (header_map (sq_VisitAll rq))) with (signed_lines (New secret []) (header_map custom)); [done|].
    unfold signed_lines. rewrite Hhead. cbn [sg_signedHeaders New foldl]. symmetry.
    apply (signed_lines_ext (mkSigner secret EmptyString 0 ["host"; "content-type"])). rewrite !Forall_cons in Hh. destruct Hh as (? & ? & _). by repeat constructor.
Qed.

(** ** Where the code stops short *)

(** [SignRequest], [SignRequestWithAccessKey] and [Sign] leave out the line of
    the headers, which the middleware always counts: their signatures are only
    ever accepted when the hash collides. *)
Theorem headerless_signature_is_refused m now rq key :
  requiresSignature m rq = true -> Middleware (Some m) now rq = Next key ->
  sq_Peek rq HeaderSignature
  = SignRequest (sm_signer m) (sq_Method rq) (sq_Path rq) (sq_Peek rq HeaderTimestamp) (sq_Body rq) ->
  sign_collision (sm_signer m).
Proof.
  intros Hr Hm Hsig. apply middleware_decides in Hm as (_ & _ & _ & Hs); [|done]. rewrite Hs in Hsig.
  unfold SignRequest, SignRequestWithHeaders in Hsig.
  eexists _, _. split; [|exact (eq_sym Hsig)]. apply headerless_differs.
Qed.

Definition jobs_gate : SignerMiddleware := mkSignerMiddleware (New "k" []) (5 * minute) ["/api/*"] excluded_paths.

(** A request as it arrives with these headers. *)
Definition arrives (method path body : string) (hs : list (string * string)) : Request :=
  mkRequest method path body (fun name => default EmptyString (header_map hs !! ToLower name)) hs.

Definition post_jobs (now : Z) (headers : gmap string string) : Request :=
  arrives "POST" "/api/jobs" "{}" (("Host", "a") :: map_to_list headers).

Definition client : SignerClient := NewSignerClient "k" "ci".

Example headerless_client :
  Middleware (Some jobs_gate) 1700000000 (post_jobs 1700000000 (Sign client 1700000000 "POST" "/api/jobs" "{}"))
  = Aborted 401 "invalid signature: invalid signature" /\
  Middleware (Some jobs_gate) 1700000000
    (post_jobs 1700000000 (SignWithHeaders client 1700000000 "POST" "/api/jobs" "{}" [("Host", "a")])) = Next (Some "ci").
Proof. vm_compute. split; reflexivity. Qed.

(** The access key is not signed: whoever has a signed request may present it
    under any other. *)
Theorem access_key_is_not_signed m now rq rq' key key' :
  sg_signedHeaders (sm_signer m) = ["host"; "content-type"] ->
  requiresSignature m rq = true -> Middleware (Some m) now rq = Next (Some key) -> key' <> "" ->
  sq_Method rq' = sq_Method rq -> sq_Path rq' = sq_Path rq -> sq_Body rq' = sq_Body rq ->
  sq_Peek rq' HeaderSignature = sq_Peek rq HeaderSignature -> sq_Peek rq' HeaderTimestamp = sq_Peek rq HeaderTimestamp ->
  Forall (fun k => header_map (sq_VisitAll rq') !! k = header_map (sq_VisitAll rq) !! k) ["host"; "content-type"] ->
  sq_Peek rq' HeaderAccessKey = key' -> Middleware (Some m) now rq' = Next (Some key').
Proof.
  intros Hhead Hr Hm Hk Hmeth Hpath Hbody Hsig Hts Hh Hkey. apply middleware_decides in Hm as (_ & _ & Ht & Hs); [|done].
  apply middleware_decides.
  { unfold requiresSignature in *. by rewrite Hpath. }
  rewrite Hkey, Hts, Hsig, Hs, Hmeth, Hpath, Hbody. split_and!; try done.
  unfold SignRequestWithHeaders, buildStringToSignWithHeaders. do 2 f_equal.
  rewrite (signed_lines_ext (sm_signer m) (header_map (sq_VisitAll rq')) (header_map (sq_VisitAll rq))); [done|].
  rewrite Hhead. rewrite !Forall_cons in Hh. destruct Hh as (? & ? & _). by repeat constructor.
Qed.

(** The excluded paths are prefixes: what only begins like them needs no
    signature either. *)
Example excluded_prefix_is_open :
  map (fun path => Middleware (Some jobs_gate) 0 (arrives "POST" path "" [])) ["/api/login"; "/api/login-tokens/rotate"; "/api/jobs"]
  = [Next None; Next None; Aborted 401 "missing required signature headers"].
Proof. vm_compute. reflexivity. Qed.

(** A header that was signed can be moved to the front of the body. *)
Lemma header_moves_into_body :
  buildStringToSignWithHeaders (New "k" []) "POST" "/api/jobs" "1700000000" "{}" {["host" := "a"; "content-type" := "text/plain"]}
  = buildStringToSignWithHeaders (New "k" []) "POST" "/api/jobs" "1700000000" ("content-type:text/plain" +:+ String lf "{}") {["host" := "a"]}.
Proof. vm_compute. reflexivity. Qed.

(** A time 2^63 seconds ago is accepted. *)
Lemma distant_past_is_recent : verifyTimestamp (New "k" []) 1700000000 "-9223372035154775808" = Ok tt.
Proof. vm_compute. reflexivity. Qed.

(** A configuration that names no skew allows none. *)
Lemma configured_signer_has_no_skew :
  verifyTimestamp (NewFromConfig (mkSignConfig "k" "" 0 [])) 1700000001 "1700000000" = Err TimestampExpired /\
  verifyTimestamp (New "k" []) 1700000001 "1700000000" = Ok tt.
Proof. vm_compute. split; reflexivity. Qed.

Lemma signed_request_is_accepted_witness :
  exists rq, requiresSignature jobs_gate rq = true /\ Middleware (Some jobs_gate) 1700000300 rq = Next (Some "ci").
Proof.
  exists (post_jobs 1700000000 (SignWithHeaders client 1700000000 "POST" "/api/jobs" "{}" [("host", "a")])).
  split; [reflexivity|].
  eapply (signed_request_is_accepted "k" "ci" ["/api/*"] (5 * minute) 1700000000 1700000300 "POST" "/api/jobs" "{}" [("host", "a")]);
    try reflexivity; try discriminate; try (vm_compute; split; congruence).
  repeat constructor.
Defined.
