(* ===== verification/OrgVerifier.v ===== *)
(** Signatures of evidence packages and the store of their keys
    (pkg/signature/keystore.go).  The signatures of crypto/ed25519 are
    arguments, as in Evidence.v; key pairs come from its generator.

    Second half: verification across organisations (pkg/distributed). *)

From S2P Require Import Prelude Json GoStrings Base64 Evidence EvidenceProps.

(** ** The keys *)

Record keyPair := mkKeyPair { kp_privateKey : string; kp_publicKey : string }.

Abbreviation MemoryKeyStore := (gmap string keyPair).

Definition NewMemoryKeyStore : MemoryKeyStore := ∅.

Inductive key_error := KeyNotFound (keyID : string) | GenerateFailed.

(** [generated] is what [ed25519.GenerateKey] answers. *)
Definition GenerateKey (generated : option keyPair) (keyID : string) (m : MemoryKeyStore) : MemoryKeyStore * result key_error unit :=
  match generated with
  | None => (m, Err GenerateFailed)
  | Some kp => (<[keyID := kp]> m, Ok tt)
  end.

Definition GetSigningKey (keyID : string) (m : MemoryKeyStore) : result key_error string :=
  match m !! keyID with Some kp => Ok (kp_privateKey kp) | None => Err (KeyNotFound keyID) end.

Definition GetVerifyKey (keyID : string) (m : MemoryKeyStore) : result key_error string :=
  match m !! keyID with Some kp => Ok (kp_publicKey kp) | None => Err (KeyNotFound keyID) end.

(** In the order in which the map is read. *)
Definition ListKeys (order : list (string * keyPair)) : list string := map fst order.

(** ** Signatures *)

(** The interface: what a key store answers. *)
Record KeyStore := mkKeyStore { ks_signing : string -> result key_error string; ks_verifying : string -> result key_error string }.

Definition of_memory (m : MemoryKeyStore) : KeyStore := mkKeyStore (fun id => GetSigningKey id m) (fun id => GetVerifyKey id m).

(** ** No base64 text has a colon *)

Lemma sextet_colon c x : sextet_of c = Some x -> Ascii.eqb c ":" = false.
Proof. intros H. apply Ascii.eqb_neq. by intros ->. Qed.

Lemma decode_no_colon n s d : (String.length s <= n)%nat -> decode_quanta s = Some d -> str_in ":" s = false.
Proof.
  revert s d. induction n as [|n IH]; intros [|c0 [|c1 [|c2 [|c3 r]]]] d Hn; cbn in Hn; try lia; try done.
  cbn [decode_quanta str_in]. destruct (sextet_of c0) eqn:H0; [|done]. destruct (sextet_of c1) eqn:H1; [|done].
  cbn [mbind option_bind]. rewrite (sextet_colon c0 _ H0), (sextet_colon c1 _ H1). cbn [orb].
  destruct (sextet_of c2) eqn:H2.
  - rewrite (sextet_colon c2 _ H2). cbn [orb]. destruct (sextet_of c3) eqn:H3.
    + rewrite (sextet_colon c3 _ H3). cbn [orb]. destruct (decode_quanta r) eqn:Hr; [|done]. intros _. eapply IH; [|done]. lia.
    + destruct (Ascii.eqb_spec c3 pad) as [->|]; [|done]. by destruct r.
  - destruct (Ascii.eqb_spec c2 pad) as [->|]; [|done]. destruct (Ascii.eqb_spec c3 pad) as [->|]; [|done]. by destruct r.
Qed.

Lemma strip_colon s : str_in ":" (strip_crlf s) = str_in ":" s.
Proof.
  induction s as [|c r IH]; [done|]. cbn [strip_crlf str_in]. destruct (_ || _) eqn:Hc; cbn [str_in]; rewrite IH; [|done].
  destruct (Ascii.eqb_spec c ":") as [->|]; [discriminate Hc|done].
Qed.

Lemma colon_not_base64 s : str_in ":" s = true -> b64_decode s = None.
Proof.
  intros Hs. unfold b64_decode. destruct (decode_quanta _) eqn:Hd; [|done].
  apply (decode_no_colon (String.length (strip_crlf s))) in Hd; [|done]. rewrite strip_colon in Hd. congruence.
Qed.

Section keys.
Context (sign : string -> string -> string) (verify : string -> string -> string -> bool).

Definition SignPackage (ks : KeyStore) (keyID packageData : string) : outcome (result key_error string) :=
  match ks_signing ks keyID with
  | Err e => Ret (Err e)
  | Ok privKey =>
      if (String.length privKey =? PrivateKeySize)%nat
      then Ret (Ok ("ed25519:" +:+ (keyID +:+ (String ":" (b64_encode (sign privKey packageData))))))
      else Panic "ed25519: bad private key length"
  end.

Definition VerifyPackage (packageData signatureStr pubKey : string) : outcome bool :=
  match cut_colon signatureStr with
  | None => Ret false
  | Some (algorithm, rest) =>
      if negb (String.eqb algorithm "ed25519") then Ret false
      else match cut_colon rest with
           | None => Ret false
           | Some (_, sigBase64) =>
               match b64_decode sigBase64 with
               | None => Ret false
               | Some signature =>
                   if (String.length pubKey =? PublicKeySize)%nat then Ret (verify pubKey packageData signature)
                   else Panic "ed25519: bad public key length"
               end
           end
  end.

(** A package signed with a stored key verifies with the stored public key
    exactly when the key's name has no colon. *)
Theorem signed_package_verifies m keyID kp data :
  m !! keyID = Some kp -> key_pair sign verify (kp_privateKey kp) (kp_publicKey kp) ->
  exists signature, SignPackage (of_memory m) keyID data = Ret (Ok signature) /\
    VerifyPackage data signature (kp_publicKey kp) = Ret (negb (str_in ":" keyID)).
Proof.
  intros Hm (Hpriv & Hpub & Hv & _). unfold SignPackage, of_memory, GetSigningKey. cbn [ks_signing]. rewrite Hm, Hpriv, Nat.eqb_refl.
  eexists. split; [done|]. unfold VerifyPackage.
  change ("ed25519:" +:+ (keyID +:+ ?t)) with ("ed25519" +:+ String ":" (keyID +:+ t)).
  rewrite cut_colon_app by done. cbn [negb String.eqb].
  destruct (str_in ":" keyID) eqn:Hc; cbn [negb].
  - destruct (cut_colon_in keyID (String ":" (b64_encode (sign (kp_privateKey kp) data))) Hc) as (a & b & ->).
    rewrite colon_not_base64; [done|]. by rewrite str_in_app, orb_comm.
  - by rewrite cut_colon_app, b64_round_trip, Hpub, Nat.eqb_refl, Hv.
Qed.

(** [GenerateKey] under a name in use forgets the old pair: what that signed
    does not verify with the key the store then gives under the name, unless
    the new key accepts signatures of the old one. *)
Lemma regenerated_key_orphans_signatures keyID kp kp' m data signature :
  String.length (kp_publicKey kp') = PublicKeySize -> str_in ":" keyID = false ->
  verify (kp_publicKey kp') data (sign (kp_privateKey kp) data) = false ->
  let m1 := fst (GenerateKey (Some kp) keyID m) in let m2 := fst (GenerateKey (Some kp') keyID m1) in
  SignPackage (of_memory m1) keyID data = Ret (Ok signature) ->
  exists key, GetVerifyKey keyID m2 = Ok key /\ VerifyPackage data signature key = Ret false.
Proof.
  intros Hl Hc Hv m1 m2. unfold SignPackage, of_memory, GetSigningKey, GetVerifyKey, m2, m1. cbn [ks_signing GenerateKey fst].
  rewrite !lookup_insert_eq. destruct (_ =? PrivateKeySize)%nat; [|done]. intros Hs.
  assert (signature = "ed25519" +:+ String ":" (keyID +:+ String ":" (b64_encode (sign (kp_privateKey kp) data)))) as -> by (by injection Hs as <-).
  eexists. split; [done|]. unfold VerifyPackage. rewrite cut_colon_app by done. cbn [negb String.eqb]. by rewrite cut_colon_app, b64_round_trip, Hl, Nat.eqb_refl, Hv.
Qed.
End keys.

(** ** A key pair *)

Definition first_pair : keyPair := mkKeyPair (String.string_of_list_ascii (repeat "a"%char 64)) (String.string_of_list_ascii (repeat "A"%char 32)).

Lemma signed_package_verifies_witness :
  exists signature,
    SignPackage toy_sign (of_memory {["k" := first_pair]}) "k" "data" = Ret (Ok signature) /\
    VerifyPackage toy_verify "data" signature (kp_publicKey first_pair) = Ret true.
Proof.
  apply (signed_package_verifies toy_sign toy_verify {["k" := first_pair]} "k" first_pair "data"); [reflexivity|].
  apply toy_keys; reflexivity.
Defined.

(** Verification across organisations (pkg/distributed/verifier.go) and the
    gate that decides on its promotion (readiness.go).

    The source of events is an argument: what it answers for an organisation
    and a job, the same when it is asked twice. *)

(** ** The verifier *)

Record OrgEvent := mkOrgEvent { oe_ID : string; oe_Type : string; oe_Payload : string; oe_Hash : string; oe_CreatedAt : Z }.

Definition OrgEventSource : Type := string -> string -> result string (list OrgEvent).

Record DistributedVerifier := mkVerifier { dv_source : option OrgEventSource }.

Definition NewDistributedVerifier : DistributedVerifier := mkVerifier None.

(** [PullOrgEvents] of a protocol is its [Pull]. *)
Definition WithSyncProtocol (Pull : option OrgEventSource) (v : DistributedVerifier) : DistributedVerifier := mkVerifier Pull.
Definition WithEventSource (source : option OrgEventSource) (v : DistributedVerifier) : DistributedVerifier := mkVerifier source.

Record MultiOrgVerifyResult := mkResult {
  mr_JobID : string; mr_Organizations : list string; mr_Consensus : bool;
  mr_Divergences : list string; mr_RootByOrg : gmap string string;
}.

Definition diverges (text : string) (r : MultiOrgVerifyResult) : MultiOrgVerifyResult :=
  mkResult (mr_JobID r) (mr_Organizations r) false (mr_Divergences r ++ [text]) (mr_RootByOrg r).

(** The last hash of an organisation, or why there is none. *)
Definition root_of (source : OrgEventSource) (jobID orgID : string) : result string string :=
  match source orgID jobID with
  | Err e => Err ("pull failed: " +:+ e)
  | Ok events =>
      match last events with
      | None => Err "empty event stream"
      | Some e => if String.eqb (oe_Hash e) "" then Err "missing last event hash" else Ok (oe_Hash e)
      end
  end.

Definition collect (source : OrgEventSource) (jobID : string) (r : MultiOrgVerifyResult) (orgID : string) : MultiOrgVerifyResult :=
  match root_of source jobID orgID with
  | Err text => diverges (orgID +:+ ": " +:+ text) r
  | Ok lastHash =>
      mkResult (mr_JobID r) (mr_Organizations r) (mr_Consensus r) (mr_Divergences r) (<[orgID := lastHash]> (mr_RootByOrg r))
  end.

(** The second loop: the first root is expected of all. *)
Definition compare_root (roots : gmap string string) (acc : string * MultiOrgVerifyResult) (orgID : string) : string * MultiOrgVerifyResult :=
  let '(expected, r) := acc in
  let root := default EmptyString (roots !! orgID) in
  if String.eqb root "" then acc
  else if String.eqb expected "" then (root, r)
  else if String.eqb root expected then acc
  else (expected, diverges (orgID +:+ ": root hash mismatch") r).

Inductive org_verify_error := JobIDRequired.

Definition VerifyAcrossOrgs (v : DistributedVerifier) (jobID : string) (orgs : list string) : result org_verify_error MultiOrgVerifyResult :=
  let r := mkResult jobID orgs true [] ∅ in
  if String.eqb jobID "" then Err JobIDRequired
  else match orgs, dv_source v with
       | [], _ | _, None => Ok r
       | _, Some source =>
           let r := foldl (collect source jobID) r orgs in
           Ok (snd (foldl (compare_root (mr_RootByOrg r)) (EmptyString, r) orgs))
       end.

(** ** Promotion *)

Record PromotionEvidence := mkEvidence {
  SingleNodeSaturationObserved : bool; LeaseFailureModesCovered : bool;
  RecoveryFailureModesCovered : bool; RootHashDrillCovered : bool;
}.

Record ReadinessAssessment := mkAssessment { ra_Ready : bool; ra_Decision : string; ra_Missing : list string }.

Definition AssessPromotionReadiness (e : PromotionEvidence) : ReadinessAssessment :=
  let missing (seen : bool) (text : string) := if seen then [] else [text] in
  let all := missing (SingleNodeSaturationObserved e) "single-node saturation or verifier bottleneck evidence"
             ++ missing (LeaseFailureModesCovered e) "lease failure-mode tests"
             ++ missing (RecoveryFailureModesCovered e) "recovery failure-mode tests"
             ++ missing (RootHashDrillCovered e) "multi-org root hash release drill" in
  match all with
  | [] => mkAssessment true "distributed verifier has enough operational evidence to leave prototype" []
  | _ => mkAssessment false "keep distributed verifier as prototype" all
  end.

(** ** Consensus *)

Section consensus.
Context (source : OrgEventSource) (jobID : string).

Definition has_root (orgID root : string) : Prop := root_of source jobID orgID = Ok root.

Lemma root_nonempty orgID root : has_root orgID root -> String.eqb root "" = false.
Proof.
  unfold has_root, root_of. destruct (source orgID jobID); [|done]. destruct (last _); [|done].
  case_match eqn:Hh; [done|]. by intros [= <-].
Qed.

(** What the first loop leaves: the roots of the organisations that have one,
    and consensus while all of them do. *)
Lemma collect_all orgs r :
  let r' := foldl (collect source jobID) r orgs in
  (forall o, o ∈ orgs -> mr_RootByOrg r' !! o = match root_of source jobID o with Ok root => Some root | Err _ => mr_RootByOrg r !! o end) /\
  (forall o, o ∉ orgs -> mr_RootByOrg r' !! o = mr_RootByOrg r !! o) /\
  (mr_Consensus r' = true <-> mr_Consensus r = true /\ Forall (fun o => exists root, has_root o root) orgs) /\
  (mr_Divergences r' = [] <-> mr_Divergences r = [] /\ Forall (fun o => exists root, has_root o root) orgs).
Proof.
  revert r. induction orgs as [|o orgs IH]; intros r; cbn [foldl].
  { split_and!; try done; [by intros ? ?%elem_of_nil|..]; split; try done; by intros [? _]. }
  destruct (IH (collect source jobID r o)) as (H1 & H2 & H3 & H4). cbv zeta. rewrite H3, H4, !Forall_cons. clear H3 H4.
  unfold collect in *. unfold has_root. destruct (root_of source jobID o) as [root|text] eqn:Hr; cbn [diverges mr_Consensus mr_Divergences mr_RootByOrg] in *.
  - split_and!; [| |naive_solver..].
    + intros o' Ho'. destruct (decide (o' ∈ orgs)) as [Hin|Hout].
      * rewrite H1 by done. destruct (root_of source jobID o') eqn:Hr'; [done|]. rewrite lookup_insert_ne; [done|]. intros ->. congruence.
      * apply elem_of_cons in Ho' as [->|]; [|done]. rewrite H2, Hr by done. apply lookup_insert_eq.
    + intros o' [Hne Hout]%not_elem_of_cons. rewrite H2 by done. by rewrite lookup_insert_ne.
  - split_and!.
    + intros o' Ho'. destruct (decide (o' ∈ orgs)) as [Hin|Hout]; [by apply H1|].
      apply elem_of_cons in Ho' as [->|]; [|done]. by rewrite H2, Hr.
    + intros o' [_ Hout]%not_elem_of_cons. by apply H2.
    + split; [by intros [? _]|]. by intros (_ & (? & ?) & _).
    + split; [intros [H _]; by destruct (mr_Divergences r)|]. by intros (_ & (? & ?) & _).
Qed.

(** The second loop keeps consensus while every root is the expected one. *)
Lemma compare_all roots orgs expected r :
  Forall (fun o => String.eqb (default EmptyString (roots !! o)) "" = false) orgs ->
  let r' := snd (foldl (compare_root roots) (expected, r) orgs) in
  let agreed := exists root, (expected = "" \/ expected = root) /\ Forall (fun o => roots !! o = Some root) orgs in
  (mr_Consensus r' = true <-> mr_Consensus r = true /\ agreed) /\ (mr_Divergences r' = [] <-> mr_Divergences r = [] /\ agreed).
Proof.
  revert expected r. induction orgs as [|o orgs IH]; intros expected r Hf; cbn [foldl].
  { cbn. split; split; try (by intros [? _]); intros ?; (split; [done|]); exists expected; auto. }
  apply Forall_cons in Hf as [Ho Hf]. cbv zeta in IH |- *. cbn [compare_root]. rewrite Ho.
  destruct (roots !! o) as [root|] eqn:Hroot; [|done]. cbn [from_option id] in *.
  assert (Hagree : forall exp', exp' = root -> expected = "" \/ expected = root ->
            (exists rt, (exp' = "" \/ exp' = rt) /\ Forall (fun o => roots !! o = Some rt) orgs) <->
            (exists rt, (expected = "" \/ expected = rt) /\ Forall (fun o => roots !! o = Some rt) (o :: orgs))).
  { intros exp' -> He. setoid_rewrite Forall_cons. rewrite Hroot. split.
    - intros (rt & [->|<-] & H); [done|]. by exists root.
    - intros (rt & _ & [= <-] & H). exists root. auto. }
  destruct (String.eqb_spec expected "") as [He|He].
  - destruct (IH root r Hf) as [H1 H2]. split; [rewrite H1|rewrite H2]; by rewrite (Hagree root eq_refl (or_introl He)).
  - destruct (String.eqb_spec root expected) as [<-|Hne].
    + destruct (IH root r Hf) as [H1 H2]. split; [rewrite H1|rewrite H2]; by rewrite (Hagree root eq_refl (or_intror eq_refl)).
    + destruct (IH expected (diverges (o +:+ ": root hash mismatch") r) Hf) as [H1 H2].
      assert (Hno : ~ exists rt, (expected = "" \/ expected = rt) /\ Forall (fun o => roots !! o = Some rt) (o :: orgs)).
      { intros (rt & [?|<-] & [Hr _]%Forall_cons); congruence. }
      split; [rewrite H1|rewrite H2]; cbn [diverges mr_Consensus mr_Divergences]; (split; [|by intros [_ ?]]).
      * by intros [? _].
      * intros [H _]. by destruct (mr_Divergences r).
Qed.

Lemma verify_unfold orgs :
  jobID <> "" -> orgs <> [] ->
  VerifyAcrossOrgs (mkVerifier (Some source)) jobID orgs
  = let r := foldl (collect source jobID) (mkResult jobID orgs true [] ∅) orgs in
    Ok (snd (foldl (compare_root (mr_RootByOrg r)) (EmptyString, r) orgs)).
Proof. intros Hj%String.eqb_neq Ho. unfold VerifyAcrossOrgs. rewrite Hj. by destruct orgs. Qed.

(** Once consensus is lost, the second loop does not bring it back. *)
Lemma compare_keeps_broken roots exp r l :
  mr_Consensus r = false -> mr_Divergences r <> [] ->
  let r' := snd (foldl (compare_root roots) (exp, r) l) in mr_Consensus r' = false /\ mr_Divergences r' <> [].
Proof.
  revert exp r. induction l as [|o l IH]; intros exp r H1 H2; [done|]. cbn [foldl compare_root]. repeat case_match; auto.
  apply IH; cbn; [done|]. by destruct (mr_Divergences r).
Qed.

(** The organisations agree exactly when each delivers a stream and the last
    hashes are one and the same; without agreement, divergences say where. *)
Theorem consensus_is_one_root orgs r :
  jobID <> "" -> orgs <> [] -> VerifyAcrossOrgs (mkVerifier (Some source)) jobID orgs = Ok r ->
  (mr_Consensus r = true <-> exists root, Forall (fun o => has_root o root) orgs) /\
  (mr_Divergences r = [] <-> mr_Consensus r = true).
Proof.
  intros Hj Ho. rewrite verify_unfold by done. intros [= <-]. set (r0 := mkResult jobID orgs true [] ∅). destruct (collect_all orgs r0) as (Hroots & _ & Hc & Hd).
  set (r1 := foldl (collect source jobID) r0 orgs) in *.
  destruct (decide (mr_Consensus r1 = true)) as [Hall|Hnone].
  - destruct (proj1 Hc Hall) as [_ Hex].
    assert (Heq : forall o root, o ∈ orgs -> mr_RootByOrg r1 !! o = Some root <-> has_root o root).
    { intros o root Hin. rewrite Hroots by done. rewrite Forall_forall in Hex. destruct (Hex o Hin) as [rt Hrt].
      unfold has_root in *. rewrite Hrt. split; congruence. }
    destruct (compare_all (mr_RootByOrg r1) orgs "" r1) as [H1 H2].
    { apply Forall_forall. intros o Hin. rewrite Forall_forall in Hex. destruct (Hex o Hin) as [rt Hrt].
      rewrite (proj2 (Heq o rt Hin) Hrt). by eapply root_nonempty. }
    assert (Hag : (exists root, ("" = "" \/ "" = root) /\ Forall (fun o => mr_RootByOrg r1 !! o = Some root) orgs)
                  <-> exists root, Forall (fun o => has_root o root) orgs).
    { split; intros (rt & H); exists rt; [destruct H as [_ H]|split; [by left|]]; rewrite Forall_forall in *; intros o Hin; by apply Heq, H. }
    rewrite H1, H2, Hag. split; [naive_solver|]. rewrite Hd. naive_solver.
  - destruct (compare_keeps_broken (mr_RootByOrg r1) "" r1 orgs) as [H1 H2].
    { by destruct (mr_Consensus r1). }
    { intros H. apply Hnone, Hc. split; [done|]. by apply Hd. }
    rewrite H1. split; split; try done. intros (rt & H). exfalso. apply Hnone, Hc.
    split; [done|]. eapply Forall_impl; [exact H|]. by exists rt.
Qed.
End consensus.

(** ** Examples *)

Definition streams : OrgEventSource := fun orgID _ =>
  if String.eqb orgID "a" then Ok [mkOrgEvent "1" "job_created" "{}" "h1" 1; mkOrgEvent "2" "job_completed" "paid 10" "h2" 2]
  else if String.eqb orgID "b" then Ok [mkOrgEvent "9" "job_completed" "paid 99" "h2" 7]
  else if String.eqb orgID "c" then Ok [mkOrgEvent "1" "job_created" "{}" "h1" 1]
  else Err "unreachable".

Example divergences_name_the_organisation :
  match VerifyAcrossOrgs (WithSyncProtocol (Some streams) NewDistributedVerifier) "j" ["a"; "c"; "d"] with
  | Ok r => (mr_Consensus r, mr_Divergences r)
  | Err _ => (true, [])
  end = (false, ["d: pull failed: unreachable"; "c: root hash mismatch"]).
Proof. vm_compute. reflexivity. Qed.

(** Hashes are taken on trust: streams with other events agree when they claim
    the same last hash. *)
Lemma hashes_are_not_recomputed :
  exists r, VerifyAcrossOrgs (mkVerifier (Some streams)) "j" ["a"; "b"] = Ok r /\ mr_Consensus r = true /\
    streams "a" "j" <> streams "b" "j".
Proof. eexists. split; [vm_compute; reflexivity|]. split; [reflexivity|]. discriminate. Qed.

(** Without a source every list of organisations agrees. *)
Lemma no_source_is_consensus jobID orgs :
  jobID <> "" -> exists r, VerifyAcrossOrgs NewDistributedVerifier jobID orgs = Ok r /\ mr_Consensus r = true.
Proof. intros Hj%String.eqb_neq. unfold VerifyAcrossOrgs. rewrite Hj. destruct orgs; by eexists. Qed.

(** The gate opens exactly on all four kinds of evidence, and names what is missing. *)
Lemma readiness_is_complete e :
  (ra_Ready (AssessPromotionReadiness e) = true <-> e = mkEvidence true true true true) /\
  (ra_Ready (AssessPromotionReadiness e) = true <-> ra_Missing (AssessPromotionReadiness e) = []).
Proof. destruct e as [[] [] [] []]; vm_compute; split; split; congruence. Qed.

Lemma consensus_is_one_root_witness :
  match VerifyAcrossOrgs (mkVerifier (Some streams)) "j" ["a"; "b"] with
  | Ok r => mr_Consensus r = true
  | Err _ => False
  end.
Proof.
  cbv beta iota delta [VerifyAcrossOrgs].
  refine (proj2 (proj1 (consensus_is_one_root streams "j" ["a"; "b"] _ _ _ _)) _); [discriminate|discriminate|reflexivity|].
  exists "h2". repeat constructor.
Defined.
