(* ===== verification/AgentApi.v ===== *)
(** internal/api/http/handler.go: the handlers that create, list, show, resume
    and stop agents and list their jobs, with the creation of agents by
    internal/app/api/agent_v1.go; and the summary for operators.

    The manager is in memory and its calls do not fail; the job store is any of
    the two behind [JobRepo].  [order] is the order in which a map is read.  A
    body that cannot be printed is answered as [unprintable].  What
    [time.ParseDuration] makes of a text is an argument, as is the reader behind
    the summary, which the repository implements in SQL only.

    Second half: the tree of a call chain (chain_handler.go). *)

From S2P Require Import Prelude GoTime Json GoFloat JobFsm JobQueue JobStore AccessControl JobApi AgentState AgentScheduler JobViews GoFloatOps.

(** ** Creation (agent_v1.go) *)

(** Memory, planner and tools of the agent are not part of its record. *)
Definition creator_Create (now : time) (uuid uuid' name : string) (m : Manager) : Manager * Agent :=
  manager_Create now uuid uuid' name (Some (NewSession now uuid' EmptyString EmptyString)) m.

(** ** The handlers *)

Section handlers.
Context {R : Type} `{!JobRepo R}.
Variable unprintable : Response.

(** The parts of the handler these calls use; [None] is a nil field. *)
Record AgentHandler := mkAgentHandler {
  ah_agentManager : option process; ah_agentScheduler : bool; ah_agentCreator : bool; ah_jobStore : option R;
}.

Definition set_process (p : process) (h : AgentHandler) : AgentHandler :=
  mkAgentHandler (Some p) (ah_agentScheduler h) (ah_agentCreator h) (ah_jobStore h).

Definition runtime_missing : Response := refuse 503 "Agent Runtime not configured".
Definition agent_not_found : Response := refuse 404 "Agent not found".

(** [body] is the name in the request's body, or none when it does not bind. *)
Definition CreateAgent (now : time) (uuid uuid' : string) (body : option string) (h : AgentHandler) : AgentHandler * Response :=
  match ah_agentManager h, ah_agentCreator h with
  | Some p, true =>
      match body with
      | None => (h, refuse 400 "请求参数error")
      | Some name =>
          let '(m, a) := creator_Create now uuid uuid' name (pr_agents p) in
          (set_process (mkProcess m (pr_runs p)) h, mkResponse 200 (JObj [("id", JStr (ag_ID a)); ("name", JStr (ag_Name a))]))
      end
  | _, _ => (h, runtime_missing)
  end.

(** An agent without a session would be a nil pointer. *)
Definition AgentState_ (id : string) (h : AgentHandler) : outcome Response :=
  match ah_agentManager h with
  | None => Ret runtime_missing
  | Some p =>
      match manager_Get id (pr_agents p) with
      | None => Ret agent_not_found
      | Some a =>
          match ag_Session a with
          | None => Panic "nil pointer dereference"
          | Some sess =>
              Ret (cjson unprintable (t ← time_json (se_UpdatedAt sess);
                Some (JObj [("agent_id", JStr (ag_ID a)); ("current_task", JStr (se_CurrentTask sess));
                            ("last_checkpoint", JStr (se_LastCheckpoint sess));
                            ("status", JStr (agent_status_string (ag_Status a))); ("updated_at", t)])))
          end
      end
  end.

Definition ok_agent (id : string) : Response := mkResponse 200 (JObj [("agent_id", JStr id); ("status", JStr "ok")]).

(** Whatever the scheduler answers, the reply is the same. *)
Definition AgentResume (id : string) (h : AgentHandler) : AgentHandler * Response :=
  match ah_agentManager h, ah_agentScheduler h with
  | Some p, true =>
      match manager_Get id (pr_agents p) with
      | None => (h, agent_not_found)
      | Some _ =>
          let '(m, ok) := Resume id (pr_agents p) in
          (set_process (mkProcess m (start_if ok id (pr_runs p))) h, ok_agent id)
      end
  | _, _ => (h, runtime_missing)
  end.

Definition AgentStop (id : string) (h : AgentHandler) : AgentHandler * Response :=
  match ah_agentManager h, ah_agentScheduler h with
  | Some p, true =>
      match manager_Get id (pr_agents p) with
      | None => (h, agent_not_found)
      | Some _ => (set_process (mkProcess (Stop id (pr_agents p)) (pr_runs p)) h, ok_agent id)
      end
  | _, _ => (h, runtime_missing)
  end.

(** *** Jobs of an agent *)

Definition job_json (j : Job) : option json :=
  c ← time_json (job_CreatedAt j); u ← time_json (job_UpdatedAt j);
  Some (JObj [("agent_id", JStr (job_AgentID j)); ("created_at", c); ("cursor", JStr (job_Cursor j));
              ("goal", JStr (job_Goal j)); ("id", JStr (job_ID j)); ("retry_count", JNum (itoa (job_RetryCount j)));
              ("status", JStr (status_string (job_Status j))); ("updated_at", u)]).

(** The query's limit, "20" when it is missing. *)
Definition job_limit (limitStr : option string) : Z :=
  let limit := Atoi (default "20" limitStr) in
  let limit := if limit <=? 0 then 20 else limit in
  if 100 <? limit then 100 else limit.

(** The loop that leaves once it has [limit] jobs. *)
Fixpoint select_jobs (statusFilter : string) (limit : Z) (jobs l : list Job) : list Job :=
  match l with
  | [] => jobs
  | j :: rest =>
      if negb (String.eqb statusFilter "") && negb (String.eqb (status_string (job_Status j)) statusFilter)
      then select_jobs statusFilter limit jobs rest
      else
        let jobs := jobs ++ [j] in
        if limit <=? Z.of_nat (length jobs) then jobs else select_jobs statusFilter limit jobs rest
  end.

Definition agent_jobs (order : list string) (cx : Context) (id statusFilter : string) (limitStr : option string) (r : R) : list Job :=
  select_jobs statusFilter (job_limit limitStr) [] (ListByAgent order id (cx_TenantID cx) (repo_mem r)).

(** [Get] of the manager never answers an error, not even for an unknown agent. *)
Definition ListAgentJobs (order : list string) (cx : Context) (id statusFilter : string) (limitStr : option string)
    (h : AgentHandler) : Response :=
  match ah_agentManager h, ah_jobStore h with
  | None, _ => runtime_missing
  | Some _, None => job_disabled
  | Some _, Some r =>
      let jobs := agent_jobs order cx id statusFilter limitStr r in
      cjson unprintable (l ← mapM job_json jobs; Some (JObj [("jobs", JArr l); ("total", JNum (itoa (Z.of_nat (length l))))]))
  end.

Definition agent_job (cx : Context) (id jobID : string) (r : R) : option Job :=
  match repo_Get jobID r with
  | None => None
  | Some j =>
      if negb (String.eqb (job_AgentID j) id) then None
      else if negb (String.eqb (job_TenantID j) (or_else (cx_TenantID cx) "default")) then None else Some j
  end.

Definition GetAgentJob (cx : Context) (id jobID : string) (h : AgentHandler) : Response :=
  match ah_jobStore h with
  | None => job_disabled
  | Some r => match agent_job cx id jobID r with None => not_found | Some j => cjson unprintable (job_json j) end
  end.

(** *** Listing agents *)

Definition shown_to (tenantID : string) (a : Agent) : bool :=
  match ag_Session a with Some sess => String.eqb (se_TenantID sess) tenantID | None => true end.

Definition listed_agents (order : list string) (cx : Context) (m : Manager) : list Agent :=
  filter (fun a => shown_to (or_else (cx_TenantID cx) "default") a = true) (manager_List order m).

Definition agent_json (a : Agent) : option json :=
  c ← time_json (ag_CreatedAt a);
  Some (JObj [("created_at", c); ("id", JStr (ag_ID a)); ("name", JStr (ag_Name a)); ("status", JStr (agent_status_string (ag_Status a)))]).

Definition ListAgents (order : list string) (cx : Context) (h : AgentHandler) : Response :=
  match ah_agentManager h with
  | None => runtime_missing
  | Some p =>
      cjson unprintable (l ← mapM agent_json (listed_agents order cx (pr_agents p));
        Some (JObj [("agents", JArr l); ("total", JNum (itoa (Z.of_nat (length l))))]))
  end.
End handlers.
Arguments AgentHandler R : clear implicits.

(** ** The summary for operators *)

(** A nil slice of job ids is [None]; the outer [None] is an error. *)
Record ObservabilityReader := mkReader {
  ob_CountPending : string -> option Z; ob_ListStuckRunningJobIDs : Z -> option (option (list string));
}.

Definition older_than (ParseDuration : string -> option Z) (text : string) : Z :=
  if String.eqb text "" then hour
  else match ParseDuration text with Some d => if 0 <? d then d else hour | None => hour end.

Definition stuck_fields (stuck : option (list string)) (seconds : Z) : list (string * json) :=
  [("stuck_job_ids", match stuck with None => JNull | Some ids => JArr (map JStr ids) end);
   ("stuck_threshold_seconds", JNum (itoa seconds))].

Definition backlog (n : Z) : string * json := ("queue_backlog", JObj [("default", JNum (itoa n))]).

Definition stuck_failed : Response := refuse 500 "获取卡住 Job failed".

Definition GetObservabilitySummary (ParseDuration : string -> option Z) (query : string) (reader : option ObservabilityReader) : Response :=
  match reader with
  | None => mkResponse 200 (JObj (backlog 0 :: stuck_fields (Some []) 3600))
  | Some rd =>
      let olderThan := older_than ParseDuration query in
      match ob_CountPending rd "" with
      | None => refuse 500 "获取积压数failed"
      | Some pending =>
          match ob_ListStuckRunningJobIDs rd olderThan with
          | None => stuck_failed
          | Some stuck => mkResponse 200 (JObj (backlog pending :: stuck_fields stuck (whole_seconds (fun _ => 0) olderThan)))
          end
      end
  end.

Definition GetObservabilityStuck (ParseDuration : string -> option Z) (query : string) (reader : option ObservabilityReader) : Response :=
  match reader with
  | None => mkResponse 200 (JObj (stuck_fields (Some []) 3600))
  | Some rd =>
      let olderThan := older_than ParseDuration query in
      match ob_ListStuckRunningJobIDs rd olderThan with
      | None => stuck_failed
      | Some stuck => mkResponse 200 (JObj (stuck_fields stuck (whole_seconds (fun _ => 0) olderThan)))
      end
  end.

(** ** Facts *)

Section facts.
Context {R : Type} `{!JobRepo R} `{!JobRepoSpec R}.

Definition has_status (statusFilter : string) (j : Job) : bool :=
  String.eqb statusFilter "" || String.eqb (status_string (job_Status j)) statusFilter.

Lemma job_limit_bounds limitStr : 1 <= job_limit limitStr <= 100.
Proof. unfold job_limit. repeat case_match; bool_hyps; lia. Qed.

(** The loop takes the first [limit] jobs that have the status. *)
Lemma select_jobs_spec statusFilter limit jobs l :
  Z.of_nat (length jobs) < limit ->
  select_jobs statusFilter limit jobs l
  = jobs ++ take (Z.to_nat (limit - Z.of_nat (length jobs))) (filter (fun j => has_status statusFilter j = true) l).
Proof.
  revert jobs. induction l as [|j l IH]; intros jobs Hl; cbn [select_jobs].
  { by rewrite filter_nil, take_nil, app_nil_r. }
  rewrite filter_cons, <- negb_orb. change (_ || _) with (has_status statusFilter j). destruct (has_status statusFilter j) eqn:Hs; cbn [negb].
  - rewrite decide_True by done. rewrite length_app. cbn [length].
    destruct (Z.leb_spec limit (Z.of_nat (length jobs + 1))) as [Hle|Hlt].
    + replace (Z.to_nat (limit - Z.of_nat (length jobs))) with 1%nat by lia. by rewrite firstn_cons, take_0.
    + rewrite IH by (rewrite length_app; cbn; lia). rewrite length_app, <- app_assoc. cbn [length app].
      replace (Z.to_nat (limit - Z.of_nat (length jobs))) with (S (Z.to_nat (limit - Z.of_nat (length jobs + 1)))) by lia. done.
  - rewrite decide_False by done. by apply IH.
Qed.

(** The jobs that are listed: those of the agent and of the caller's tenant
    with the status, in the order of the store, up to the limit. *)
Theorem agent_jobs_are_the_first order cx id statusFilter limitStr (r : R) :
  agent_jobs order cx id statusFilter limitStr r
  = take (Z.to_nat (job_limit limitStr))
      (filter (fun j => job_AgentID j = id /\ (cx_TenantID cx = "" \/ job_TenantID j = cx_TenantID cx)
                        /\ (statusFilter = "" \/ status_string (job_Status j) = statusFilter))
         (omap (fun k => repo_Get k r) order)).
Proof.
  unfold agent_jobs. pose proof (job_limit_bounds limitStr). rewrite select_jobs_spec by (cbn; lia).
  cbn [app length]. rewrite Z.sub_0_r. f_equal. unfold ListByAgent. rewrite list_filter_filter.
  replace (omap (fun k => repo_Get k r) order) with (omap (fun k => jm_byID (repo_mem r) !! k) order).
  2: { induction order as [|k l IH]; [done|]. cbn in IH |- *. by rewrite Get_mem, IH. }
  apply list_filter_iff. intros j. unfold has_status, tenant_match.
  rewrite andb_true_iff, !orb_true_iff, !String.eqb_eq. tauto.
Qed.

(** A job that is shown is the agent's and of the caller's tenant. *)
Lemma agent_job_is_own cx id jobID (r : R) j :
  agent_job cx id jobID r = Some j -> repo_Get jobID r = Some j /\ job_AgentID j = id /\ job_TenantID j = tenant_of cx.
Proof.
  unfold agent_job. destruct (repo_Get jobID r) as [j'|]; [|done].
  destruct (String.eqb_spec (job_AgentID j') id) as [Ha|]; [|done]. cbn [negb].
  destruct (String.eqb_spec (job_TenantID j') (or_else (cx_TenantID cx) "default")) as [Ht|]; [|done].
  cbn [negb]. by intros [= <-].
Qed.
End facts.

(** What [POST /api/agents] leaves behind: an idle agent of its own id, with a
    session of the default tenant whoever the caller is, so the list shows it
    to that tenant and to no other. *)
Theorem created_agent_is_of_default_tenant {R} now uuid uuid' name (h h' : AgentHandler R) p resp :
  ah_agentManager h = Some p -> ah_agentCreator h = true ->
  CreateAgent now uuid uuid' (Some name) h = (h', resp) ->
  let id := "agent-" +:+ uuid in
  exists p' a, ah_agentManager h' = Some p' /\ pr_runs p' = pr_runs p /\
    pr_agents p' = <[id := a]> (pr_agents p) /\ ag_ID a = id /\ ag_Name a = or_else name id /\ ag_Status a = AgentIdle /\
    resp = mkResponse 200 (JObj [("id", JStr id); ("name", JStr (ag_Name a))]) /\
    forall order cx, id ∈ order -> a ∈ listed_agents order cx (pr_agents p') <-> tenant_of cx = "default".
Proof.
  intros Hp Hc H id. unfold CreateAgent, creator_Create, manager_Create in H. rewrite Hp, Hc in H. cbn [se_AgentID NewSession NewSessionWithTenant String.eqb] in H.
  set (a := NewAgent now uuid _ name _) in H. injection H as <- <-. exists (mkProcess (<[id := a]> (pr_agents p)) (pr_runs p)), a.
  assert (Ha : ag_ID a = id) by done. split_and!; try done. intros order cx Hin. unfold listed_agents.
  rewrite list_elem_of_filter. unfold manager_List. cbn [pr_agents].
  assert (Hshown : shown_to (or_else (cx_TenantID cx) "default") a = true <-> tenant_of cx = "default").
  { change (String.eqb "default" (tenant_of cx) = true <-> tenant_of cx = "default"). rewrite String.eqb_eq. by split. }
  rewrite Hshown. split; [by intros [? _]|]. intros Ht. split; [done|].
  apply list_elem_of_omap. exists id. split; [done|]. apply lookup_insert_eq.
Qed.

(** ** Where the code stops short *)

Definition in_tenant (t : string) : Context := mkContext ∅ t "u".

Definition two_tenants : process :=
  mkProcess {["a" := NewAgent (at_sec 0) "u" "a" "mine" (Some (NewSessionWithTenant (at_sec 0) "u" "s" "a" "t1"))]} [].

Definition desk : AgentHandler JobStoreMem := mkAgentHandler (Some two_tenants) true true (Some NewJobStoreMem).

(** The calls on one agent look at no tenant: an agent that is not in the
    caller's list can be shown, resumed and stopped. *)
Lemma foreign_agent_is_stopped :
  listed_agents ["a"] (in_tenant "t2") (pr_agents two_tenants) = [] /\
  is_Some (match AgentState_ (mkResponse 500 JNull) "a" desk with Ret r => if Z.eqb (rs_Status r) 200 then Some r else None | Panic _ => None end) /\
  match ah_agentManager (fst (AgentResume "a" desk)) with Some p => pr_runs p = ["a"] | None => False end /\
  rs_Status (snd (AgentStop "a" (fst (AgentResume "a" desk)))) = 200.
Proof. vm_compute. split_and!; try done. by eexists. Qed.

(** A caller of another tenant does not see the agent it has just created. *)
Lemma created_agent_is_hidden :
  match ah_agentManager (fst (CreateAgent (at_sec 1) "x" "y" (Some "mine") desk)) with
  | Some p => listed_agents ["a"; "agent-x"] (in_tenant "t2") (pr_agents p) = []
  | None => False
  end.
Proof. by vm_compute. Qed.

(** The manager answers no error for an agent it does not know: its jobs are
    listed as none instead of the 404 the handler has for it. *)
Lemma unknown_agent_has_job_list :
  ListAgentJobs (mkResponse 500 JNull) [] (in_tenant "t1") "nobody" "" None desk
  = mkResponse 200 (JObj [("jobs", JArr []); ("total", JNum "0")]).
Proof. by vm_compute. Qed.

Lemma created_agent_is_of_default_tenant_witness :
  exists p' a, ah_agentManager (fst (CreateAgent (at_sec 1) "x" "y" (Some "") desk)) = Some p' /\
    ag_Name a = "agent-x" /\ a ∈ listed_agents ["agent-x"] Background (pr_agents p').
Proof.
  destruct (created_agent_is_of_default_tenant (at_sec 1) "x" "y" "" desk _ two_tenants _ eq_refl eq_refl
              (surjective_pairing (CreateAgent (at_sec 1) "x" "y" (Some "") desk)))
    as (p' & a & Hm & _ & _ & _ & Hn & _ & _ & Hl).
  exists p', a. split; [exact Hm|]. split; [exact Hn|]. apply Hl; [left|reflexivity].
Defined.

(** The chain of calls between agents (internal/api/http/chain_handler.go): the
    tree of a job's root and the jobs that name each other as parents.

    [walk n id] is the order in which the store's map is read for the children
    of [id] with [n] levels left.  Lookups of the in-memory stores do not fail. *)

(** ** The tree *)

Inductive ChainNode := mkNode {
  cn_JobID : string; cn_AgentID : string; cn_Status : string; cn_ParentJobID : string; cn_RootJobID : string;
  cn_Children : list ChainNode; cn_Observable : bool; cn_UnobservableReason : string;
}.

Definition TruncatedPlaceholder (jobID : string) (maxDepth : nat) : ChainNode :=
  mkNode jobID EmptyString "truncated" EmptyString EmptyString [] false ("max_depth_" +:+ itoa (Z.of_nat maxDepth)).

Definition missing_node (jobID : string) : ChainNode :=
  mkNode jobID EmptyString EmptyString EmptyString EmptyString [] false "not_found".

(** The loop over the tenant's jobs, with the set of children seen so far. *)
Fixpoint children_of (build : string -> ChainNode) (parent : string) (visited : gset string) (l : list Job) : list ChainNode :=
  match l with
  | [] => []
  | child :: rest =>
      if negb (String.eqb (job_ParentJobID child) parent) then children_of build parent visited rest
      else if bool_decide (job_ID child ∈ visited) then children_of build parent visited rest
      else build (job_ID child) :: children_of build parent ({[job_ID child]} ∪ visited) rest
  end.

Section chain.
Context {R : Type} `{!JobRepo R}.
Variable walk : nat -> string -> list string.

Definition any_time : TimeRange := mkRange zero_time zero_time.

(** [left] is what remains of [maxDepth]. *)
Fixpoint buildChainTree (tenantID : string) (maxDepth : nat) (r : R) (left : nat) (jobID : string) : ChainNode :=
  match left with
  | O => TruncatedPlaceholder jobID maxDepth
  | S n =>
      match repo_Get jobID r with
      | None => missing_node jobID
      | Some j =>
          let jobs := ListByTenant (walk n jobID) tenantID [] any_time 500 (repo_mem r) in
          mkNode (job_ID j) (job_AgentID j) (status_string (job_Status j)) (job_ParentJobID j) (job_RootJobID j)
            (children_of (buildChainTree tenantID maxDepth r n) (job_ID j) {[job_ID j]} jobs) true EmptyString
      end
  end.

(** The query's depth, 50 when there is none. *)
Definition chain_depth (depthStr : string) : nat :=
  if String.eqb depthStr EmptyString then 50%nat
  else match ParseInt depthStr with
       | Some d => if 0 <? d then Z.to_nat (if 100 <? d then 100 else d) else 50%nat
       | None => 50%nat
       end.

Definition root_of_chain (jobID : string) (j : Job) (r : R) : string :=
  let rootID := if String.eqb (job_RootJobID j) EmptyString then jobID else job_RootJobID j in
  match repo_Get rootID r with Some _ => rootID | None => jobID end.

(** A tree with its depth, or the status and message of a refusal. *)
Definition GetJobChain (cx : Context) (jobID depthStr : string) (store : option R) : result (Z * string) (ChainNode * nat) :=
  if String.eqb jobID EmptyString then Err (400, "job id required")
  else match store with
       | None => Err (503, "job store not configured")
       | Some r =>
           let maxDepth := chain_depth depthStr in
           match repo_Get jobID r with
           | None => Err (404, "job not found")
           | Some j =>
               if negb (String.eqb (job_TenantID j) (tenant_of cx)) then Err (403, "job not accessible")
               else
                 let tree := buildChainTree (tenant_of cx) maxDepth r maxDepth (root_of_chain jobID j r) in
                 if String.eqb (cn_JobID tree) EmptyString then Err (404, "chain root not found") else Ok (tree, maxDepth)
           end
       end.
End chain.

(** ** What the tree shows *)

(** The ids of the observable nodes. *)
Fixpoint shown (t : ChainNode) : list string :=
  (if cn_Observable t then [cn_JobID t] else []) ++ concat (map shown (cn_Children t)).

Fixpoint height (t : ChainNode) : nat := S (foldr Nat.max 0%nat (map height (cn_Children t))).

Lemma chain_depth_bounds depthStr : (1 <= chain_depth depthStr <= 100)%nat.
Proof. unfold chain_depth. repeat case_match; bool_hyps; lia. Qed.

Section tree.
Context {R : Type} `{!JobRepo R} `{!JobRepoSpec R}.
Variables (walk : nat -> string -> list string) (tenantID : string) (maxDepth : nat) (r : R).
Hypothesis tenant : tenantID <> EmptyString.
Hypothesis keyed : keys_ok (repo_mem r).
Hypothesis complete : forall n id k, k ∈ walk n id <-> k ∈ dom (jm_byID (repo_mem r)).
Hypothesis few : forall n id, Z.of_nat (length (ListByTenant (walk n id) tenantID [] any_time 0 (repo_mem r))) <= 500.

(** [c] is a job of the tenant that names [p] as its parent. *)
Definition child_of (p c : string) : Prop :=
  exists j, repo_Get c r = Some j /\ job_TenantID j = tenantID /\ job_ParentJobID j = p.

Lemma get_keyed id j : repo_Get id r = Some j -> job_ID j = id.
Proof. rewrite Get_mem. intros H. exact (keyed id j H). Qed.

Lemma listed n id j :
  j ∈ ListByTenant (walk n id) tenantID [] any_time 500 (repo_mem r) <-> repo_Get (job_ID j) r = Some j /\ job_TenantID j = tenantID.
Proof.
  pose proof (few n id) as Hf. unfold ListByTenant in *. cbn [Z.ltb Z.compare] in *.
  rewrite firstn_all2 by lia. rewrite list_elem_of_filter, list_elem_of_omap, Get_mem. unfold tenant_match.
  rewrite (proj2 (String.eqb_neq _ _) tenant). cbn [orb].
  assert (Hr : in_time_range any_time j = true) by reflexivity. rewrite Hr, andb_true_r, andb_true_r, String.eqb_eq. split.
  - intros (Ht & k & _ & Hk). rewrite (keyed k j Hk). done.
  - intros [Hg Ht]. split; [done|]. exists (job_ID j). split; [|done]. apply complete, elem_of_dom. by exists j.
Qed.

Lemma children_spec build parent visited l t :
  t ∈ children_of build parent visited l <->
  exists j, j ∈ l /\ job_ParentJobID j = parent /\ (job_ID j ∉ visited) /\ t = build (job_ID j).
Proof.
  revert visited. induction l as [|j l IH]; intros visited; cbn [children_of].
  { rewrite elem_of_nil. split; [done|]. by intros (j & ?%elem_of_nil & _). }
  destruct (String.eqb_spec (job_ParentJobID j) parent) as [Hp|Hp]; cbn [negb].
  2: { rewrite IH. setoid_rewrite elem_of_cons. split; [naive_solver|]. intros (j' & [->|?] & ? & ? & ?); [done|naive_solver]. }
  case_bool_decide as Hv.
  { rewrite IH. setoid_rewrite elem_of_cons. split; [naive_solver|]. intros (j' & [->|?] & ? & ? & ?); [done|naive_solver]. }
  rewrite elem_of_cons, IH. setoid_rewrite elem_of_cons. split.
  - intros [->|(j' & ? & ? & Hn & ->)]; [by exists j; auto|]. exists j'. split_and!; auto. set_solver.
  - intros (j' & [->|Hin] & Hp' & Hn & ->); [by left|].
    destruct (decide (job_ID j' = job_ID j)) as [->|Hne]; [by left|]. right. exists j'. split_and!; auto. set_solver.
Qed.

(** The children of a node are the jobs of the tenant that name it, each once. *)
Lemma node_children n id j :
  repo_Get id r = Some j ->
  let t := buildChainTree walk tenantID maxDepth r (S n) id in
  cn_JobID t = id /\ cn_Observable t = true /\
  forall t', t' ∈ cn_Children t <-> exists c, child_of id c /\ c <> id /\ t' = buildChainTree walk tenantID maxDepth r n c.
Proof.
  intros Hg. cbn [buildChainTree]. rewrite Hg. cbn. rewrite (get_keyed _ _ Hg). split_and!; [done..|]. intros t'.
  rewrite children_spec. setoid_rewrite listed. setoid_rewrite not_elem_of_singleton. split.
  - intros (c & [Hc Ht] & Hp & Hne & ->). exists (job_ID c). split_and!; [by exists c|done|done].
  - intros (c & (jc & Hc & Ht & Hp) & Hne & ->). pose proof (get_keyed _ _ Hc) as Hk. exists jc. rewrite Hk. by split_and!.
Qed.

Lemma shown_children t x : x ∈ concat (map shown (cn_Children t)) <-> exists t', t' ∈ cn_Children t /\ x ∈ shown t'.
Proof.
  rewrite list_elem_of_In, in_concat. setoid_rewrite in_map_iff. split.
  - intros (l & (t' & <- & Ht) & Hx). exists t'. by rewrite !list_elem_of_In.
  - intros (t' & Ht & Hx). exists (shown t'). rewrite <- !list_elem_of_In. split; [|done]. exists t'. by rewrite <- list_elem_of_In.
Qed.

Lemma shown_unfold n id x :
  x ∈ shown (buildChainTree walk tenantID maxDepth r (S n) id) <->
  is_Some (repo_Get id r) /\ (x = id \/ exists c, child_of id c /\ c <> id /\ x ∈ shown (buildChainTree walk tenantID maxDepth r n c)).
Proof.
  destruct (repo_Get id r) as [j|] eqn:Hg.
  - destruct (node_children n id j Hg) as (Hid & Hobs & Hch). cbv zeta in *. set (t := buildChainTree _ _ _ _ (S n) id) in *.
    assert (Hs : x ∈ shown t <-> x = id \/ exists t', t' ∈ cn_Children t /\ x ∈ shown t').
    { rewrite <- shown_children. destruct t; cbn in *. subst. cbn. by rewrite elem_of_cons. }
    rewrite Hs. setoid_rewrite Hch. split; [|naive_solver]. intros [->|(t' & (c & ? & ? & ->) & ?)]; (split; [by eexists|]); eauto 6.
  - cbn [buildChainTree]. rewrite Hg. cbn. split; [by intros ?%elem_of_nil|]. by intros [[? [=]] _].
Qed.

(** Descendants by generation. *)
Inductive descends : nat -> string -> string -> Prop :=
| descends_self id : descends 0 id id
| descends_child n p c x : child_of p c -> descends n c x -> descends (S n) p x.

Lemma descends_tenant k p x : descends k p x -> x = p \/ exists jx, repo_Get x r = Some jx /\ job_TenantID jx = tenantID.
Proof.
  induction 1 as [|k p c x (jc & Hc & Ht & _) _ [->|IH]]; [by left| |by right]. right. by exists jc.
Qed.

Lemma shown_descends n id x :
  x ∈ shown (buildChainTree walk tenantID maxDepth r n id) <-> is_Some (repo_Get id r) /\ exists k, (k < n)%nat /\ descends k id x.
Proof.
  split.
  - revert id. induction n as [|n IH]; intros id; [by intros ?%elem_of_nil|]. rewrite shown_unfold.
    intros [Hg [->|(c & Hc & _ & Hx)]]; (split; [done|]).
    + exists 0%nat. split; [lia|constructor].
    + destruct (IH c Hx) as [_ (k & Hk & Hd)]. exists (S k). split; [lia|]. by econstructor.
  - intros [Hg (k & Hk & Hd)]. revert n Hk Hg. induction Hd as [id|k p c x Hc Hd IH]; intros [|n] Hk Hg; try lia.
    + apply shown_unfold. auto.
    + destruct (decide (c = p)) as [->|Hne]; [apply IH; [lia|done]|].
      apply shown_unfold. split; [done|]. right. exists c. split_and!; [done..|]. apply IH; [lia|].
      destruct Hc as (jc & -> & _). by eexists.
Qed.

Lemma tree_height n id : (height (buildChainTree walk tenantID maxDepth r n id) <= S n)%nat.
Proof.
  revert id. induction n as [|n IH]; intros id; [cbn; lia|]. cbn [buildChainTree]. destruct (repo_Get id r) as [j|]; [|cbn; lia].
  cbn [height cn_Children]. apply le_n_S.
  assert (Hall : Forall (fun t => (height t <= S n)%nat)
                   (children_of (buildChainTree walk tenantID maxDepth r n) (job_ID j) {[job_ID j]}
                      (ListByTenant (walk n id) tenantID [] any_time 500 (repo_mem r)))).
  { apply Forall_forall. intros t (c & _ & _ & _ & ->)%children_spec. apply IH. }
  induction Hall; cbn; lia.
Qed.
End tree.

(** What the handler answers for a job: the tree of its root shows exactly the
    root and its descendants in the caller's tenant, up to the depth, and is no
    higher than that; all but the root are the tenant's. *)
Theorem chain_shows_descendants {R} `{!JobRepo R} `{!JobRepoSpec R} walk cx jobID depthStr (r : R) tree depth :
  keys_ok (repo_mem r) -> (forall n id k, k ∈ walk n id <-> k ∈ dom (jm_byID (repo_mem r))) ->
  (forall n id, Z.of_nat (length (ListByTenant (walk n id) (tenant_of cx) [] any_time 0 (repo_mem r))) <= 500) ->
  GetJobChain walk cx jobID depthStr (Some r) = Ok (tree, depth) ->
  exists j, repo_Get jobID r = Some j /\ job_TenantID j = tenant_of cx /\
  let root := root_of_chain jobID j r in
  (forall x, x ∈ shown tree <-> exists k, (k < depth)%nat /\ descends (tenant_of cx) r k root x) /\
  (forall x, x ∈ shown tree -> x = root \/ exists jx, repo_Get x r = Some jx /\ job_TenantID jx = tenant_of cx) /\
  (1 <= depth <= 100)%nat /\ (height tree <= S depth)%nat.
Proof.
  intros Hk Hw Hf. unfold GetJobChain. case_match; [done|]. destruct (repo_Get jobID r) as [j|] eqn:Hg; [|done].
  destruct (String.eqb_spec (job_TenantID j) (tenant_of cx)) as [Ht|]; [|done]. cbn [negb]. case_match; [done|]. intros [= <- <-].
  exists j. split; [done|]. split; [done|].
  assert (Hne : tenant_of cx <> EmptyString).
  { unfold tenant_of, or_else. case_match eqn:He; [done|]. by apply String.eqb_neq. }
  assert (Hroot : is_Some (repo_Get (root_of_chain jobID j r) r)).
  { unfold root_of_chain. cbv zeta. set (root := if String.eqb _ _ then _ else _). destruct (repo_Get root r) eqn:Hr; [rewrite Hr|rewrite Hg]; by eexists. }
  cbv zeta. set (root := root_of_chain jobID j r) in *. set (d := chain_depth depthStr).
  assert (Hs : forall x, x ∈ shown (buildChainTree walk (tenant_of cx) d r d root) <->
                 exists k, (k < d)%nat /\ descends (tenant_of cx) r k root x).
  { intros x. rewrite shown_descends by done. split; [by intros [_ ?]|by split]. }
  split_and!; [exact Hs| | | |].
  - intros x (k & _ & Hd)%Hs. by eapply descends_tenant.
  - apply chain_depth_bounds.
  - apply chain_depth_bounds.
  - by apply tree_height.
Qed.

(** ** Where the code stops short *)

Definition chain_job (id tenant parent root : string) : Job :=
  mkJob id "agent" tenant "goal" StatusRunning zero_time zero_time EmptyString 0 EmptyString zero_time EmptyString 0 EmptyString
    [] EmptyString EmptyString parent root EmptyString EmptyString None.

Definition jobs_of (l : list Job) : JobStoreMem := mkMem (list_to_map (map (fun j => (job_ID j, j)) l)) [] ∅ ∅.

Definition in_order (l : list Job) (n : nat) (id : string) : list string := map job_ID l.

Definition tenant_caller (t : string) : Context := mkContext ∅ t "u".

Definition chain_of_jobs (l : list Job) (t jobID : string) : result (Z * string) (ChainNode * nat) :=
  GetJobChain (in_order l) (tenant_caller t) jobID EmptyString (Some (jobs_of l)).

(** The root of a chain is shown with its agent and status although it is
    another tenant's, and a child of another tenant is left out, where the
    comments promise a placeholder for both. *)
Lemma foreign_jobs_of_chain :
  match chain_of_jobs [chain_job "root" "t1" "" ""; chain_job "mine" "t2" "root" "root"; chain_job "theirs" "t1" "mine" "root"] "t2" "mine" with
  | Ok (t, _) => shown t = ["root"; "mine"] /\ cn_AgentID t = "agent" /\ cn_Status t = "running" /\ cn_Observable t = true
  | Err _ => False
  end.
Proof. vm_compute. by split_and!. Qed.

(** A job of another tenant is answered unlike one that is not there, which is
    said not to reveal it. *)
Lemma refusal_reveals_job :
  chain_of_jobs [chain_job "theirs" "t1" "" ""] "t2" "theirs" = Err (403, "job not accessible") /\
  chain_of_jobs [chain_job "theirs" "t1" "" ""] "t2" "other" = Err (404, "job not found").
Proof. vm_compute. by split. Qed.

(** Jobs seen are kept for the children of one node only: a cycle is followed
    until the depth ends. *)
Lemma cycle_fills_the_depth :
  match chain_of_jobs [chain_job "a" "t" "b" ""; chain_job "b" "t" "a" ""] "t" "a" with
  | Ok (t, d) => length (shown t) = 50%nat /\ d = 50%nat
  | Err _ => False
  end.
Proof. vm_compute. by split. Qed.

(** Children are looked for among the first 500 jobs of the tenant. *)
Definition crowd : list Job := map (fun n => chain_job ("x" +:+ itoa (Z.of_nat n)) "t" "" "") (seq 0 499).

Lemma crowd_hides_children :
  match chain_of_jobs (crowd ++ [chain_job "a" "t" "" ""; chain_job "b" "t" "a" "a"]) "t" "a" with
  | Ok (t, _) => shown t = ["a"]
  | Err _ => False
  end.
Proof. vm_compute. done. Qed.

Definition family : list Job := [chain_job "a" "t" "" ""; chain_job "b" "t" "a" "a"; chain_job "c" "t" "b" "a"].

Lemma chain_shows_descendants_witness :
  exists tree, chain_of_jobs family "t" "b" = Ok (tree, 50%nat) /\ forall x, x ∈ shown tree <-> exists k, (k < 50)%nat /\ descends "t" (jobs_of family) k "a" x.
Proof.
  destruct (chain_of_jobs family "t" "b") as [[tree d]|] eqn:Ht; [|discriminate Ht].
  destruct (chain_shows_descendants (in_order family) (tenant_caller "t") "b" EmptyString (jobs_of family) tree d) as (j & Hj & _ & H & _);
    [| | |exact Ht|].
  - by apply (bool_decide_unpack _).
  - intros n id k. change (in_order family n id) with ["a"; "b"; "c"].
    change (dom (jm_byID (repo_mem (jobs_of family)))) with (dom (jm_byID (jobs_of family))).
    rewrite <- (list_to_set_elements_L (dom (jm_byID (jobs_of family)))), elem_of_list_to_set.
    assert (Hp : elements (dom (jm_byID (jobs_of family))) ≡ₚ ["a"; "b"; "c"]) by (by apply (bool_decide_unpack _)). by rewrite Hp.
  - intros n id. vm_compute. discriminate.
  - exists tree. assert (Hd : d = 50%nat) by (vm_compute in Ht; by injection Ht as _ <-). subst d. split; [reflexivity|].
    injection Hj as <-. exact H.
Defined.
