(* ===== verification/Reporter.v ===== *)
(** The event reporter of the Go SDK (sdk/durability/reporting/reporter.go): its
    buffer, the circuit that opens after a refusal, the sending of a batch, and
    the wrappers of steps and of HTTP handlers.

    Every section under the reporter's mutex is one step; the counters are
    atomic.  The environment is the network's: [replies] says what each attempt
    of a batch meets.  Waiting between attempts changes no state.  A payload is
    its JSON text, [None] when it cannot be printed. *)

From stdpp Require Import relations.
From S2P Require Import Prelude GoTime Json TimeParse Events MemStore JobQueue JobStore AccessControl JobApi Telemetry.

(** ** The reporter *)

Record ReporterConfig := mkReporterConfig {
  rc_endpoint : string; rc_tenantID : string; rc_token : string; rc_agentID : string;
  rc_sdkName : string; rc_sdkVersion : string; rc_timeout : Z; rc_maxBuffer : Z; rc_maxRetries : nat; rc_backoff : Z;
}.

Record Reporter := mkReporter {
  rp_config : ReporterConfig; rp_buffer : list EventEnvelope; rp_dropped : Z; rp_success : Z; rp_failed : Z;
  rp_circuitOpen : bool; rp_circuitAt : time;
}.

Definition defaultTimeout : Z := 5 * second.
Definition defaultMaxBuffer : Z := 1000.
Definition defaultMaxRetries : nat := 3.
Definition defaultBackoff : Z := second / 2.
Definition maxBackoff : Z := 30 * second.
Definition circuitCooldown : Z := 30 * second.

(** [ParseDuration] is [time.ParseDuration]; a disabled reporter has its
    timeout only. *)
Definition FromEnv (ParseDuration : string -> option Z) (Getenv : string -> string) : Reporter :=
  let endpoint := Getenv "AETHERIS_ENDPOINT" in
  let tenantID := Getenv "AETHERIS_TENANT" in
  let t := Getenv "AETHERIS_TIMEOUT" in
  let timeout := if String.eqb t EmptyString then defaultTimeout else default defaultTimeout (ParseDuration t) in
  let config := if String.eqb endpoint EmptyString || String.eqb tenantID EmptyString
                then mkReporterConfig EmptyString EmptyString EmptyString EmptyString EmptyString EmptyString timeout 0 0 0
                else mkReporterConfig endpoint tenantID (Getenv "AETHERIS_TOKEN") (Getenv "AETHERIS_AGENT_ID")
                       "aetheris-durability-go" "0.1.0" timeout defaultMaxBuffer defaultMaxRetries defaultBackoff in
  mkReporter config [] 0 0 0 false zero_time.

Definition Enabled (r : Reporter) : bool := negb (String.eqb (rc_endpoint (rp_config r)) EmptyString).

Definition with_buffer (buffer : list EventEnvelope) (dropped : Z) (r : Reporter) : Reporter :=
  mkReporter (rp_config r) buffer dropped (rp_success r) (rp_failed r) (rp_circuitOpen r) (rp_circuitAt r).

(** *** Reporting

    The envelope is the one the server reads: the SDK's version and the fields
    of spans and steps, which stay empty, are left out of it. *)

Definition toEnvelope (now : time) (jobID eventType : string) (payload : option string) (r : Reporter) : EventEnvelope :=
  mkEnvelope "1" ("evt-" +:+ (itoa (unix_nano now) +:+ ("-" +:+ itoa (rp_dropped r)))) jobID (rc_agentID (rp_config r))
    (rc_tenantID (rp_config r)) (format_rfc3339nano (t_utc now)) eventType (default EmptyString payload)
    (rc_sdkName (rp_config r)).

(** A full buffer loses its oldest event; slicing an empty one panics. *)
Definition buffer_event (e : EventEnvelope) (r : Reporter) : outcome Reporter :=
  if rc_maxBuffer (rp_config r) <=? Z.of_nat (length (rp_buffer r)) then
    match rp_buffer r with
    | [] => Panic "slice bounds out of range"
    | _ :: rest => Ret (with_buffer (rest ++ [e]) (rp_dropped r + 1) r)
    end
  else Ret (with_buffer (rp_buffer r ++ [e]) (rp_dropped r) r).

Definition Report (now : time) (jobID eventType : string) (payload : option string) (r : Reporter) : outcome Reporter :=
  if Enabled r then buffer_event (toEnvelope now jobID eventType payload r) r else Ret r.

(** *** Sending *)

(** What an attempt meets: no request, no response, or a status. *)
Inductive reply := NoRequest | NoResponse | Status (code : Z).

Inductive verdict := Sent | Throttled | Refused | GivenUp.

Fixpoint send_loop (attempts : nat) (replies : list reply) : verdict :=
  match attempts with
  | O => GivenUp
  | S n =>
      match replies with
      | [] => GivenUp
      | NoRequest :: rest | NoResponse :: rest => send_loop n rest
      | Status code :: rest =>
          if code =? 200 then Sent
          else if code =? 429 then Throttled
          else if 500 <=? code then send_loop n rest else Refused
      end
  end.

Definition count_success (n : Z) (r : Reporter) : Reporter :=
  mkReporter (rp_config r) (rp_buffer r) (rp_dropped r) (rp_success r + n) (rp_failed r) (rp_circuitOpen r) (rp_circuitAt r).
Definition count_failed (n : Z) (r : Reporter) : Reporter :=
  mkReporter (rp_config r) (rp_buffer r) (rp_dropped r) (rp_success r) (rp_failed r + n) (rp_circuitOpen r) (rp_circuitAt r).
Definition set_circuit (isOpen : bool) (at_ : time) (r : Reporter) : Reporter :=
  mkReporter (rp_config r) (rp_buffer r) (rp_dropped r) (rp_success r) (rp_failed r) isOpen at_.

(** The end of a batch of [n] events. *)
Definition settle (now : time) (v : verdict) (n : Z) (r : Reporter) : Reporter :=
  match v with
  | Sent => set_circuit false (rp_circuitAt r) (count_success n r)
  | Throttled | GivenUp => set_circuit true now (count_failed n r)
  | Refused => count_failed n r
  end.

(** Envelopes can always be printed. *)
Definition sendBatch (now : time) (replies : list reply) (batch : list EventEnvelope) (r : Reporter) : Reporter :=
  settle now (send_loop (rc_maxRetries (rp_config r)) replies) (Z.of_nat (length batch)) r.

(** The check of the circuit: [None] when the flush ends there. *)
Definition check_circuit (now : time) (r : Reporter) : option Reporter :=
  if rp_circuitOpen r
  then if unix_nano now - unix_nano (rp_circuitAt r) <? circuitCooldown then None else Some (set_circuit false (rp_circuitAt r) r)
  else Some r.

Definition take_batch (r : Reporter) : Reporter * list EventEnvelope := (with_buffer [] (rp_dropped r) r, rp_buffer r).

Definition Flush (now now' : time) (replies : list reply) (r : Reporter) : Reporter :=
  if negb (Enabled r) then r
  else match check_circuit now r with
       | None => r
       | Some r =>
           let '(r', batch) := take_batch r in
           match batch with [] => r | _ => sendBatch now' replies batch r' end
       end.

Definition backoff_wait (attempt : nat) (r : Reporter) : Z := Z.min maxBackoff (rc_backoff (rp_config r) * 2 ^ Z.of_nat attempt).

Definition Stats (r : Reporter) : Z * Z * Z := (rp_dropped r, rp_success r, rp_failed r).

(** *** Wrappers *)

Definition step_payload (fields : list (string * string)) : option string := Some (obj_text (map (fun f => (fst f, quote (snd f))) fields)).

(** [Step]: [fn]'s result with the reporter after it; [now] and [now'] are the
    times of the two reports.  Error texts and step ids are printable. *)
Definition Step {A} (now now' : time) (jobID stepID : string) (fn : result string A) (r : Reporter) : outcome (Reporter * result string A) :=
  run r <- Report now jobID "step_started" (step_payload [("step_id", stepID)]) r ;;
  run r <- match fn with
           | Err e => Report now' jobID "step_failed" (step_payload [("error", e); ("step_id", stepID)]) r
           | Ok _ => Report now' jobID "step_finished" (step_payload [("step_id", stepID)]) r
           end ;;
  Ret (r, fn).

(** [Middleware]: the handler's answer has this status. *)
Definition status_payload (status : Z) : option string := Some (obj_text [("status", itoa status)]).

Definition ServeHTTP (now now' : time) (jobID : string) (status : Z) (r : Reporter) : outcome Reporter :=
  if String.eqb jobID EmptyString then Ret r
  else
    run r <- Report now jobID "job_created" (Some "{}") r ;;
    Report now' jobID (if 400 <=? status then "job_failed" else "job_completed") (status_payload status) r.

(** ** Every event is accounted for *)

(** Business threads report and flushes run; [sy_reported] has all events
    reported so far and [sy_taken] those that flushes took, both in order. *)
Record reporting := mkReporting {
  sy_reporter : Reporter; sy_reported : list EventEnvelope; sy_taken : list EventEnvelope; sy_flying : list (list EventEnvelope);
}.

Inductive report_step : reporting -> reporting -> Prop :=
| step_report e r r' rep tak fly :
    buffer_event e r = Ret r' -> report_step (mkReporting r rep tak fly) (mkReporting r' (rep ++ [e]) tak fly)
| step_circuit now r r' rep tak fly :
    check_circuit now r = Some r' -> report_step (mkReporting r rep tak fly) (mkReporting r' rep tak fly)
| step_take r r' batch rep tak fly :
    take_batch r = (r', batch) -> batch <> [] ->
    report_step (mkReporting r rep tak fly) (mkReporting r' rep (tak ++ batch) (batch :: fly))
| step_settle now v r rep tak fly1 batch fly2 :
    report_step (mkReporting r rep tak (fly1 ++ batch :: fly2))
      (mkReporting (settle now v (Z.of_nat (length batch)) r) rep tak (fly1 ++ fly2)).

Definition in_flight (fly : list (list EventEnvelope)) : Z := Z.of_nat (length (concat fly)).

Definition accounted (s : reporting) : Prop :=
  let r := sy_reporter s in
  Z.of_nat (length (sy_reported s))
  = Z.of_nat (length (rp_buffer r)) + rp_dropped r + rp_success r + rp_failed r + in_flight (sy_flying s) /\
  (sy_taken s ++ rp_buffer r) `sublist_of` sy_reported s /\
  Z.of_nat (length (rp_buffer r)) <= Z.max 1 (rc_maxBuffer (rp_config r)).

Lemma settle_fields now v n r :
  rp_buffer (settle now v n r) = rp_buffer r /\ rp_config (settle now v n r) = rp_config r /\
  rp_dropped (settle now v n r) = rp_dropped r /\ rp_success (settle now v n r) + rp_failed (settle now v n r) = rp_success r + rp_failed r + n.
Proof. destruct v; cbn; split_and!; lia || done. Qed.

Lemma buffer_event_fields e r r' :
  buffer_event e r = Ret r' ->
  rp_config r' = rp_config r /\ rp_success r' = rp_success r /\ rp_failed r' = rp_failed r /\
  Z.of_nat (length (rp_buffer r')) + rp_dropped r' = Z.of_nat (length (rp_buffer r)) + rp_dropped r + 1 /\
  Z.of_nat (length (rp_buffer r')) <= Z.max 1 (Z.max (Z.of_nat (length (rp_buffer r))) (rc_maxBuffer (rp_config r))) /\
  exists kept, rp_buffer r' = kept ++ [e] /\ kept `sublist_of` rp_buffer r.
Proof.
  unfold buffer_event. destruct (Z.leb_spec (rc_maxBuffer (rp_config r)) (Z.of_nat (length (rp_buffer r)))) as [Hle|Hlt].
  - destruct (rp_buffer r) as [|x rest] eqn:Hb; [done|]. intros [= <-]. cbn. rewrite length_app. cbn [length].
    split_and!; try done; try lia. exists rest. split; [done|]. by constructor.
  - intros [= <-]. cbn. rewrite length_app. cbn [length]. split_and!; try done; try lia. by exists (rp_buffer r).
Qed.

Lemma report_step_accounted s s' : report_step s s' -> accounted s -> accounted s'.
Proof.
  intros H. destruct H as [e r r' rep tak fly Hb|now r r' rep tak fly Hc|r r' batch rep tak fly Ht Hne|now v r rep tak fly1 batch fly2];
    unfold accounted; cbn [sy_reporter sy_reported sy_taken sy_flying]; intros (Hn & Hs & Hm).
  - apply buffer_event_fields in Hb as (Hcf & Hsu & Hfa & Hl & Hmx & kept & Hkb & Hk). rewrite Hcf, Hsu, Hfa, length_app. cbn [length].
    split_and!; [lia| |lia]. rewrite Hkb, app_assoc. apply sublist_app; [|done].
    etransitivity; [|exact Hs]. by apply sublist_app.
  - assert (Hr : r' = r \/ r' = set_circuit false (rp_circuitAt r) r).
    { unfold check_circuit in Hc. repeat case_match; try done; injection Hc as <-; auto. }
    destruct Hr as [->| ->]; by split_and!.
  - injection Ht as <- <-. cbn. unfold in_flight in *. cbn [concat]. rewrite length_app, app_nil_r. split_and!; [lia|done|lia].
  - destruct (settle_fields now v (Z.of_nat (length batch)) r) as (-> & -> & -> & Hc). unfold in_flight in *.
    rewrite concat_app in Hn |- *. rewrite length_app in Hn |- *. cbn [concat] in Hn. rewrite length_app in Hn. split_and!; [lia|done..].
Qed.

(** However reports and flushes interleave: every event reported is in the
    buffer, in a batch on its way, or counted once as dropped, sent or failed;
    the buffer stays within its bound; and what is taken and kept is in the
    order in which it was reported. *)
Theorem events_are_accounted_for config s :
  rtc report_step (mkReporting (mkReporter config [] 0 0 0 false zero_time) [] [] []) s -> accounted s.
Proof.
  intros H. eapply (rtc_preserves accounted); [exact H|intros; by eapply report_step_accounted|].
  unfold accounted. cbn. split_and!; [done|done|lia].
Qed.

(** Reporting never fails an enabled reporter, and what a wrapped step answers
    is what the step answers. *)
Lemma Report_total now jobID eventType payload r :
  1 <= rc_maxBuffer (rp_config r) -> exists r', Report now jobID eventType payload r = Ret r' /\ rp_config r' = rp_config r.
Proof.
  intros Hm. unfold Report, buffer_event. case_match; [|by eexists]. case_match eqn:Hle; [|by eexists].
  destruct (rp_buffer r); cbn in *; [bool_hyps; cbn in *; lia|by eexists].
Qed.

Theorem reporting_is_transparent {A} ParseDuration Getenv now now' jobID stepID (fn : result string A) r :
  rp_config r = rp_config (FromEnv ParseDuration Getenv) -> exists r', Step now now' jobID stepID fn r = Ret (r', fn).
Proof.
  intros Hc. unfold Step.
  assert (Hcase : Enabled r = false \/ 1 <= rc_maxBuffer (rp_config r)).
  { unfold Enabled. rewrite Hc. unfold FromEnv. cbn. destruct (_ || _); [by left|right; done]. }
  destruct Hcase as [Hd|Hm].
  - exists r. assert (Hno : forall now jobID ty p, Report now jobID ty p r = Ret r) by (intros; unfold Report; by rewrite Hd).
    rewrite Hno. cbn. destruct fn; by rewrite Hno.
  - destruct (Report_total now jobID "step_started" (step_payload [("step_id", stepID)]) r Hm) as (r1 & -> & Hc1). cbn [outcome_bind].
    rewrite <- Hc1 in Hm. destruct fn as [a|e].
    + destruct (Report_total now' jobID "step_finished" (step_payload [("step_id", stepID)]) r1 Hm) as (r2 & -> & _). by exists r2.
    + destruct (Report_total now' jobID "step_failed" (step_payload [("error", e); ("step_id", stepID)]) r1 Hm) as (r2 & -> & _). by exists r2.
Qed.

(** ** Where reports are lost *)

(** The buffer holds up to 1000 events and a flush sends all of them at once;
    the server takes no more than 100: it refuses the batch and stores nothing,
    and the reporter counts it as failed and keeps nothing. *)
Theorem large_flush_is_lost {R S} `{!JobRepo R} `{!JobStore S} cx (h : telemetry R S) s
    (body : list (report_env * EventEnvelope)) now now' r :
  te_events h = Some s -> map snd body = rp_buffer r ->
  Enabled r = true -> rp_circuitOpen r = false -> (1 <= rc_maxRetries (rp_config r))%nat ->
  100 < Z.of_nat (length (rp_buffer r)) ->
  exists resp, rs_Status resp = 413 /\ IngestTelemetry cx (Some body) h = Ret (h, resp) /\
    let r' := Flush now now' [Status (rs_Status resp)] r in
    rp_buffer r' = [] /\ rp_failed r' = rp_failed r + Z.of_nat (length (rp_buffer r)) /\ rp_success r' = rp_success r.
Proof.
  intros Hs Hb He Hc Hr Hl. assert (Hlen : length body = length (rp_buffer r)) by (by rewrite <- Hb, length_map).
  eexists. split; [|split].
  2: { unfold IngestTelemetry. rewrite Hs, Hlen, (proj2 (Z.eqb_neq _ _)), (proj2 (Z.ltb_lt _ _)) by lia. done. }
  { done. }
  - cbn [rs_Status refuse]. unfold Flush, check_circuit, take_batch. rewrite He, Hc. cbn [negb].
    destruct (rp_buffer r) as [|e es] eqn:Hbuf; [cbn in Hl; lia|]. unfold sendBatch. cbn [with_buffer rp_config].
    destruct (rc_maxRetries (rp_config r)) as [|n]; [lia|]. cbn. split_and!; [done|lia|lia].
Qed.

(** A batch that could not be sent is not put back. *)
Lemma unsent_batch_is_lost now now' e r :
  Enabled r = true -> rp_circuitOpen r = false -> rp_buffer r = [e] -> rc_maxRetries (rp_config r) = 3%nat ->
  let r' := Flush now now' [NoResponse; NoResponse; NoResponse] r in
  rp_buffer r' = [] /\ rp_failed r' = rp_failed r + 1 /\ rp_circuitOpen r' = true.
Proof.
  intros He Hc Hb Hr. unfold Flush, check_circuit, take_batch. rewrite He, Hc, Hb. cbn [negb]. unfold sendBatch. cbn. by rewrite Hr.
Qed.

(** Two events of one job at one reading of the clock have one uid, and the
    server takes the second for a duplicate of the first. *)
Theorem same_instant_is_a_duplicate now jobID ty1 ty2 p1 p2 r r' tenantID :
  rp_dropped r' = rp_dropped r ->
  dedupKey tenantID (toEnvelope now jobID ty1 p1 r) = dedupKey tenantID (toEnvelope now jobID ty2 p2 r').
Proof. intros Hd. unfold dedupKey, toEnvelope. cbn. by rewrite Hd. Qed.

(** An answer of 200 counts the whole batch as sent, whatever the server says
    it rejected in it. *)
Lemma rejected_event_counts_as_sent {R S} `{!JobRepo R} `{!JobStore S} cx (h : telemetry R S) s env e now now' r :
  te_events h = Some s -> en_TenantID e <> tenant_of cx ->
  Enabled r = true -> rp_circuitOpen r = false -> rp_buffer r = [e] -> (1 <= rc_maxRetries (rp_config r))%nat ->
  exists resp, IngestTelemetry cx (Some [(env, e)]) h = Ret (h, resp) /\
    rp_success (Flush now now' [Status (rs_Status resp)] r) = rp_success r + 1.
Proof.
  intros Hs Ht He Hc Hb Hr. exists (mkResponse 200 (tally_json (reject (en_EventUID e) "tenant_mismatch" (mkTally 0 0 0 [] ∅)))). split.
  - unfold IngestTelemetry. rewrite Hs. cbn [length Z.of_nat Z.eqb Z.ltb Z.compare].
    change (Z.of_nat 1) with 1. cbn [ingest_all]. unfold ingest_one. rewrite bool_decide_eq_false_2 by (cbn; set_solver).
    rewrite (proj2 (String.eqb_neq _ _) Ht). cbn. by destruct h; cbn in *; subst.
  - unfold Flush, check_circuit, take_batch. rewrite He, Hc, Hb. cbn [negb]. unfold sendBatch. cbn [with_buffer rp_config].
    destruct (rc_maxRetries (rp_config r)) as [|n]; [lia|]. done.
Qed.

Definition sdk_env (name : string) : string :=
  if String.eqb name "AETHERIS_ENDPOINT" then "http://a" else if String.eqb name "AETHERIS_TENANT" then "default" else EmptyString.

Definition sdk_reporter : Reporter := FromEnv (fun _ => None) sdk_env.

(** Three reports, the last two at the same instant. *)
Example a_buffer :
  match (run r <- Report (Time 1 0) "j" "step_started" None sdk_reporter ;;
         run r <- Report (Time 2 0) "j" "step_finished" None r ;; Report (Time 2 0) "j" "job_completed" None r) with
  | Ret r => map en_EventUID (rp_buffer r) = ["evt-1-0"; "evt-2-0"; "evt-2-0"] /\ Stats (Flush (Time 3 0) (Time 4 0) [Status 503; Status 200] r) = (0, 3, 0)
  | Panic _ => False
  end.
Proof. vm_compute. by split. Qed.

Definition full_reporter : Reporter :=
  with_buffer (repeat (toEnvelope (Time 1 0) "j" "step_started" None sdk_reporter) 101) 0 sdk_reporter.

Lemma large_flush_is_lost_witness :
  exists resp, rs_Status resp = 413 /\ rp_failed (Flush (Time 2 0) (Time 3 0) [Status (rs_Status resp)] full_reporter) = 101.
Proof.
  destruct (large_flush_is_lost (R := JobStoreMem) (S := memoryStore) Background (mkTelemetry (Some NewMemoryStore) None) NewMemoryStore
              (map (fun e => (report_at 2 "u", e)) (rp_buffer full_reporter)) (Time 2 0) (Time 3 0) full_reporter)
    as (resp & Hc & _ & _ & Hf & _); [reflexivity|vm_compute; reflexivity|reflexivity|reflexivity|repeat constructor|reflexivity|].
  exists resp. split; [exact Hc|exact Hf].
Defined.
