(* ===== verification/Splitter.v ===== *)
(** Splitting of documents: internal/pipeline/ingest/splitter.go and the engine
    of internal/splitter with its three splitters.

    A text is its bytes, [len] counts them and [slice] panics out of range, as
    in Go.  Loops that need not end take fuel, and a [split_answer] says how a call
    ends.  The identifier of the n-th chunk of a call is an argument, and so is
    the embedder. *)

From S2P Require Import Prelude Json GoStrings JsonFacts GoFloat GoFloatOps.

(** ** Values, errors and answers *)

(** What an [interface{}] of options or metadata holds. *)
Inductive any :=
| AnyBool (b : bool) | AnyInt (z : Z) | AnyFloat (f : float) | AnyString (s : string)
| AnyMap (m : list (string * any)).

Inductive error :=
| ErrInvalidInput
| Errorf (msg : string)
| PipelineError (stage message : string) (cause : error)
| WrappedError (msg : string) (cause : error).

(** The text of an error. *)
Fixpoint Error (e : error) : string :=
  match e with
  | ErrInvalidInput => "invalid input"
  | Errorf msg => msg
  | PipelineError stage message cause => "[Pipeline] " +:+ (stage +:+ (" stage error: " +:+ (message +:+ (": " +:+ Error cause))))
  | WrappedError msg cause => msg +:+ (": " +:+ Error cause)
  end.

Inductive split_answer (A : Type) := Value (a : A) | Failed (e : error) | Panicked (msg : string) | Unfinished.
Arguments Value {A} a.
Arguments Failed {A} e.
Arguments Panicked {A} msg.
Arguments Unfinished {A}.

Definition answer_bind {A B} (m : split_answer A) (f : A -> split_answer B) : split_answer B :=
  match m with Value a => f a | Failed e => Failed e | Panicked msg => Panicked msg | Unfinished => Unfinished end.
Notation "x <~ m ;; k" := (answer_bind m (fun x => k)) (at level 60, m at next level, right associativity) : go_scope.

Lemma answer_bind_value {A B} (m : split_answer A) (f : A -> split_answer B) b :
  answer_bind m f = Value b <-> exists a, m = Value a /\ f a = Value b.
Proof. destruct m; split; [eauto|by intros (? & [= ->] & ?)| | | | | |]; by try intros (? & ? & ?). Qed.

Definition len (s : string) : Z := Z.of_nat (String.length s).

(** [s[i:j]] *)
Definition slice (s : string) (i j : Z) : split_answer string :=
  if (0 <=? i) && (i <=? j) && (j <=? len s) then Value (str_take (Z.to_nat (j - i)) (str_drop (Z.to_nat i) s))
  else Panicked "slice bounds out of range".

(** [len([]rune(s))] *)
Fixpoint count_runes (skip : nat) (s : string) : Z :=
  match s with
  | EmptyString => 0
  | String _ r => match skip with S k => count_runes k r | O => 1 + count_runes (pred (rune_len s)) r end
  end.

(** ** Chunks and documents *)

Record Chunk := mkChunk {
  ck_ID : string; ck_Content : string; ck_Metadata : list (string * any); ck_DocumentID : string; ck_Index : Z; ck_TokenCount : Z;
}.

(** A metadata map may be nil. *)
Record Document := mkDocument {
  dc_ID : string; dc_Content : string; dc_Metadata : option (gmap string any); dc_Chunks : list Chunk;
}.

(** ** Paragraphs *)

Definition nonempty (s : string) : bool := negb (String.eqb s EmptyString).

Definition add_line (st : list string * string) (line : string) : list string * string :=
  let '(paragraphs, current) := st in
  let trimmedLine := TrimSpace line in
  if String.eqb trimmedLine EmptyString then
    if nonempty current then (paragraphs ++ [current], EmptyString) else (paragraphs, current)
  else (paragraphs, (if nonempty current then current +:+ " " else current) +:+ trimmedLine).

Definition splitByParagraph (content : string) : list string :=
  let '(paragraphs, current) := foldl add_line ([], EmptyString) (split_on lf content) in
  if nonempty current then paragraphs ++ [current] else paragraphs.

(** ** Merging paragraphs into chunks *)

Section Merge.
Context (createChunk : string -> Z -> Chunk) (chunkSize chunkOverlap : Z) (fuel : nat).

Fixpoint long_loop (n : nat) (text : string) (i chunkIndex : Z) : split_answer (list Chunk) :=
  match n with
  | O => Unfinished
  | S n =>
      if i <? len text then
        let end_ := i + chunkSize in
        let end_ := if len text <? end_ then len text else end_ in
        chunkText <~ slice text i end_;;
        chunks <~ long_loop n text (i + (chunkSize - chunkOverlap)) (chunkIndex + 1);;
        Value (createChunk chunkText chunkIndex :: chunks)
      else Value []
  end.

Definition splitLongText (text : string) (startIndex : Z) : split_answer (list Chunk) := long_loop fuel text 0 startIndex.

(** What the next chunk starts with. *)
Definition carried (current : string) : split_answer string :=
  if chunkOverlap <? len current then
    overlap <~ slice current (len current - chunkOverlap) (len current);; Value (overlap +:+ " ")
  else Value EmptyString.

Fixpoint merge_loop (paragraphs : list string) (chunks : list Chunk) (current : string) (chunkIndex : Z) : split_answer (list Chunk) :=
  match paragraphs with
  | [] => Value (if nonempty current then chunks ++ [createChunk current chunkIndex] else chunks)
  | paragraph :: paragraphs =>
      if chunkSize <? len paragraph then
        let '(chunks, chunkIndex) :=
          if nonempty current then (chunks ++ [createChunk current chunkIndex], chunkIndex + 1) else (chunks, chunkIndex) in
        longChunks <~ splitLongText paragraph chunkIndex;;
        merge_loop paragraphs (chunks ++ longChunks) EmptyString (chunkIndex + Z.of_nat (length longChunks))
      else if chunkSize <? len current + len paragraph + 1 then
        current' <~ carried current;;
        merge_loop paragraphs (chunks ++ [createChunk current chunkIndex])
          ((if nonempty current' then current' +:+ " " else current') +:+ paragraph) (chunkIndex + 1)
      else merge_loop paragraphs chunks ((if nonempty current then current +:+ " " else current) +:+ paragraph) chunkIndex
  end.

Definition mergeAndSplit (paragraphs : list string) : split_answer (list Chunk) := merge_loop paragraphs [] EmptyString 0.
End Merge.

(** ** The splitters of the engine *)

Definition options := list (string * any).

Fixpoint option_of (opts : options) (k : string) : option any :=
  match opts with [] => None | (k', v) :: opts => if String.eqb k' k then Some v else option_of opts k end.

(** [options[k].(int)], when it is one and positive. *)
Definition positive_int (opts : options) (k : string) (fallback : Z) : Z :=
  match option_of opts k with Some (AnyInt z) => if 0 <? z then z else fallback | _ => fallback end.

Definition positive_float (opts : options) (k : string) (fallback : float) : float :=
  match option_of opts k with Some (AnyFloat f) => if float_lt (of_int 0) f then f else fallback | _ => fallback end.

(** A splitter: its answer for a text, with identifiers and fuel. *)
Definition Splitter := (Z -> string) -> nat -> string -> options -> split_answer (list Chunk).

Definition structural_chunk (newID : Z -> string) (content : string) (index : Z) : Chunk :=
  mkChunk (newID index) content [("splitter", AnyString "structural"); ("type", AnyString "paragraph")] EmptyString index (count_runes 0 content).

(** structural.go has the two functions of splitter.go word for word, but for
    the chunk they create. *)
Definition structural_paragraphs (content : string) : list string := splitByParagraph content.

Definition structural_mergeAndSplit (newID : Z -> string) (fuel : nat) (paragraphs : list string) (chunkSize chunkOverlap : Z) : split_answer (list Chunk) :=
  mergeAndSplit (structural_chunk newID) chunkSize chunkOverlap fuel paragraphs.

Definition structural_Split : Splitter := fun newID fuel content opts =>
  let chunkSize := positive_int opts "chunk_size" 1000 in
  let chunkOverlap := positive_int opts "chunk_overlap" 100 in
  structural_mergeAndSplit newID fuel (structural_paragraphs content) chunkSize chunkOverlap.

(** [strings.Fields]: a blank never begins inside a rune. *)
Definition blank_at (s : string) : option nat :=
  option_map String.length (head (filter (fun w => String.prefix w s = true) blanks)).

Fixpoint fields_from (skip : nat) (word : string) (s : string) : list string :=
  match s with
  | EmptyString => if nonempty word then [word] else []
  | String c r =>
      match skip with
      | S k => fields_from k word r
      | O => match blank_at s with
             | Some n => (if nonempty word then [word] else []) ++ fields_from (pred n) EmptyString r
             | None => fields_from O (word +:+ String c EmptyString) r
             end
      end
  end.

Definition tokenize (content : string) : list string := fields_from 0 EmptyString content.
Definition detokenize (tokens : list string) : string := join " " tokens.

Definition token_chunk (newID : Z -> string) (content : string) (index : Z) : Chunk :=
  mkChunk (newID index) content [("splitter", AnyString "token"); ("type", AnyString "token")] EmptyString index
    (Z.of_nat (length (tokenize content))).

Section Tokens.
Context (createChunk : string -> Z -> Chunk) (maxTokens chunkOverlap : Z).

Fixpoint token_loop (tokens : list string) (chunks : list Chunk) (current : list string) (chunkIndex : Z) : list Chunk :=
  match tokens with
  | [] => match current with [] => chunks | _ => chunks ++ [createChunk (detokenize current) chunkIndex] end
  | token :: tokens =>
      let n := Z.of_nat (length current) in
      if maxTokens <? n + 1 then
        token_loop tokens (chunks ++ [createChunk (detokenize current) chunkIndex])
          ((if chunkOverlap <? n then drop (Z.to_nat (n - chunkOverlap)) current else []) ++ [token]) (chunkIndex + 1)
      else token_loop tokens chunks (current ++ [token]) chunkIndex
  end.

Definition splitByTokens (content : string) : list Chunk := token_loop (tokenize content) [] [] 0.
End Tokens.

Definition token_Split : Splitter := fun newID _ content opts =>
  Value (splitByTokens (token_chunk newID) (positive_int opts "max_tokens" 512) (positive_int opts "chunk_overlap" 100) content).

(** *** By meaning *)

(** [strings.ReplaceAll], for a text that is not empty. *)
Fixpoint replace_from (old new_ : string) (skip : nat) (s : string) : string :=
  match s with
  | EmptyString => EmptyString
  | String c r =>
      match skip with
      | S k => replace_from old new_ k r
      | O => if String.prefix old s then new_ +:+ replace_from old new_ (pred (String.length old)) r
             else String c (replace_from old new_ O r)
      end
  end.

Definition ReplaceAll (s old new_ : string) : string := replace_from old new_ 0 s.

Definition sentenceEnders : list string :=
  [". "; of_bytes [227; 128; 130]; "! "; of_bytes [239; 188; 129]; "? "; of_bytes [239; 188; 159]; String lf EmptyString].

Definition splitBySentence (content : string) : list string :=
  filter (fun s => nonempty s = true)
    (map TrimSpace (split_on lf (foldl (fun s ender => ReplaceAll s ender (String lf EmptyString)) content sentenceEnders))).

Definition sums (a b : list float) : float * float * float :=
  foldl (fun '(dot, normA, normB) '(x, y) => (float_add dot (float_mul x y), float_add normA (float_mul x x), float_add normB (float_mul y y)))
    (of_int 0, of_int 0, of_int 0) (zip a b).

Definition clamp (v : float) : float :=
  let v := if float_lt v (of_int (-1)) then of_int (-1) else v in if float_lt (of_int 1) v then of_int 1 else v.

Definition cosineSimilarity (a b : list float) : float :=
  if negb (Nat.eqb (length a) (length b)) || Nat.eqb (length a) 0 then of_int 0
  else
    let '(dot, normA, normB) := sums a b in
    if float_eq normA (of_int 0) || float_eq normB (of_int 0) then of_int 0
    else clamp (float_div dot (float_mul (Sqrt normA) (Sqrt normB))).

(** An embedder's vectors for two texts; [None] is an error. *)
Definition TextEmbedder := string -> string -> option (list (list float)).

Definition calculateSemanticSimilarity (embedder : option TextEmbedder) (text1 text2 : string) : float :=
  match embedder with
  | None => const "0.5"
  | Some embed =>
      if String.eqb text1 EmptyString || String.eqb text2 EmptyString then const "0.5"
      else match embed text1 text2 with
           | Some [(_ :: _) as a; (_ :: _) as b] => cosineSimilarity a b
           | _ => const "0.5"
           end
  end.

Definition semantic_chunk (newID : Z -> string) (content : string) (index : Z) : Chunk :=
  mkChunk (newID index) content [("splitter", AnyString "semantic"); ("type", AnyString "semantic")] EmptyString index (count_runes 0 content).

Section Semantics.
Context (createChunk : string -> Z -> Chunk) (embedder : option TextEmbedder) (chunkSize chunkOverlap : Z) (semanticThreshold : float).

Definition dissimilar (last sentence : string) : bool :=
  match embedder with
  | None => false
  | Some _ => nonempty last && float_lt (calculateSemanticSimilarity embedder last sentence) semanticThreshold
  end.

(** The chunk ends here. *)
Definition cut_chunk (st : list Chunk * string * Z) : split_answer (list Chunk * string * Z) :=
  let '(chunks, current, chunkIndex) := st in
  if nonempty current then
    current' <~ carried chunkOverlap current;; Value (chunks ++ [createChunk current chunkIndex], current', chunkIndex + 1)
  else Value st.

Fixpoint semantic_loop (sentences : list string) (last : string) (st : list Chunk * string * Z) : split_answer (list Chunk) :=
  match sentences with
  | [] => let '(chunks, current, chunkIndex) := st in
          Value (if nonempty current then chunks ++ [createChunk current chunkIndex] else chunks)
  | sentence :: sentences =>
      st <~ (if dissimilar last sentence then cut_chunk st else Value st);;
      st <~ (if chunkSize <? len (snd (fst st)) + len sentence + 1 then cut_chunk st else Value st);;
      let '(chunks, current, chunkIndex) := st in
      semantic_loop sentences sentence (chunks, (if nonempty current then current +:+ " " else current) +:+ sentence, chunkIndex)
  end.

Definition mergeBySemantics (sentences : list string) : split_answer (list Chunk) := semantic_loop sentences EmptyString ([], EmptyString, 0).
End Semantics.

Definition semantic_Split (embedder : option TextEmbedder) : Splitter := fun newID _ content opts =>
  mergeBySemantics (semantic_chunk newID) embedder (positive_int opts "chunk_size" 1000) (positive_int opts "chunk_overlap" 100)
    (positive_float opts "semantic_threshold" (const "0.3")) (splitBySentence content).

(** ** The engine *)

Abbreviation SplitterEngine := (gmap string Splitter).

Definition NewEngine (embedder : option TextEmbedder) : SplitterEngine :=
  <["token" := token_Split]> (<["semantic" := semantic_Split embedder]> (<["structural" := structural_Split]> ∅)).

Definition AddSplitter (name : string) (splitter : Splitter) (e : SplitterEngine) : SplitterEngine := <[name := splitter]> e.

Definition GetSplitter (name : string) (e : SplitterEngine) : split_answer Splitter :=
  match e !! name with Some splitter => Value splitter | None => Failed (Errorf ("splitter not found: " +:+ name)) end.

Definition GetSplitters (e : SplitterEngine) : gset string := dom e.

Definition Split (newID : Z -> string) (fuel : nat) (e : SplitterEngine) (content splitterName : string) (opts : options) : split_answer (list Chunk) :=
  splitter <~ GetSplitter splitterName e;;
  match splitter newID fuel content opts with Failed e => Failed (WrappedError "split failed" e) | a => a end.

(** [doc.Metadata[k] = v] for the entries in turn. *)
Definition set_metadata (entries : list (string * any)) (doc : Document) : split_answer Document :=
  match dc_Metadata doc with
  | None => Panicked "assignment to entry in nil map"
  | Some m => Value (mkDocument (dc_ID doc) (dc_Content doc) (Some (foldl (fun m '(k, v) => <[k := v]> m) m entries)) (dc_Chunks doc))
  end.

Definition set_chunks (chunks : list Chunk) (doc : Document) : Document :=
  mkDocument (dc_ID doc) (dc_Content doc) (dc_Metadata doc) chunks.

Definition SplitDocument (newID : Z -> string) (fuel : nat) (e : SplitterEngine) (doc : Document) (splitterName : string) (opts : options) : split_answer Document :=
  chunks <~ Split newID fuel e (dc_Content doc) splitterName opts;;
  set_metadata [("chunked", AnyBool true); ("chunk_count", AnyInt (Z.of_nat (length chunks))); ("splitter", AnyString splitterName);
                ("splitter_options", AnyMap opts)] (set_chunks chunks doc).

(** ** The splitter of documents *)

Record DocumentSplitter := mkSplitter {
  ds_name : string; ds_chunkSize : Z; ds_chunkOverlap : Z; ds_maxChunks : Z; ds_engine : option SplitterEngine; ds_splitterName : string;
}.

Definition NewDocumentSplitter (chunkSize chunkOverlap maxChunks : Z) : DocumentSplitter :=
  mkSplitter "splitter" (if chunkSize <=? 0 then 1000 else chunkSize) (if chunkOverlap <=? 0 then 100 else chunkOverlap)
    (if maxChunks <=? 0 then 1000 else maxChunks) None "structural".

Definition SetEngine (engine : option SplitterEngine) (splitterName : string) (s : DocumentSplitter) : DocumentSplitter :=
  mkSplitter (ds_name s) (ds_chunkSize s) (ds_chunkOverlap s) (ds_maxChunks s) engine
    (if nonempty splitterName then splitterName else ds_splitterName s).

Definition document_chunk (newID : Z -> string) (documentID : string) (content : string) (index : Z) : Chunk :=
  mkChunk (newID index) content [] documentID index (count_runes 0 content).

Definition with_document (documentID : string) (c : Chunk) : Chunk :=
  mkChunk (ck_ID c) (ck_Content c) (ck_Metadata c) documentID (ck_Index c) (ck_TokenCount c).

(** [if len(chunks) > maxChunks { chunks = chunks[:maxChunks] }] *)
Definition first_chunks (maxChunks : Z) (chunks : list Chunk) : list Chunk :=
  if maxChunks <? Z.of_nat (length chunks) then take (Z.to_nat maxChunks) chunks else chunks.

Definition splitDocument (newID : Z -> string) (fuel : nat) (s : DocumentSplitter) (doc : Document) : split_answer (list Chunk) :=
  let content := dc_Content doc in
  if String.eqb content EmptyString then Value []
  else match ds_engine s with
  | Some engine =>
      chunks <~ Split newID fuel engine content (ds_splitterName s)
        [("chunk_size", AnyInt (ds_chunkSize s)); ("chunk_overlap", AnyInt (ds_chunkOverlap s)); ("max_chunks", AnyInt (ds_maxChunks s))];;
      Value (first_chunks (ds_maxChunks s) (map (with_document (dc_ID doc)) chunks))
  | None =>
      chunks <~ mergeAndSplit (document_chunk newID (dc_ID doc)) (ds_chunkSize s) (ds_chunkOverlap s) fuel (splitByParagraph content);;
      Value (first_chunks (ds_maxChunks s) chunks)
  end.

Definition wrap_error {A} (stage message : string) (a : split_answer A) : split_answer A :=
  match a with Failed e => Failed (PipelineError stage message e) | a => a end.

(** The document that comes back is the caller's own, changed. *)
Definition ProcessDocument (newID : Z -> string) (fuel : nat) (s : DocumentSplitter) (doc : Document) : split_answer Document :=
  chunks <~ wrap_error (ds_name s) "切片文档failed" (splitDocument newID fuel s doc);;
  set_metadata [("chunked", AnyBool true); ("chunk_count", AnyInt (Z.of_nat (length chunks))); ("splitter", AnyString (ds_name s));
                ("chunk_size", AnyInt (ds_chunkSize s)); ("chunk_overlap", AnyInt (ds_chunkOverlap s))] (set_chunks chunks doc).

(** An [interface{}] that is nil, a document's pointer (nil or not), or of the
    type named. *)
Inductive stage_input := InNil | InDocument (doc : option Document) | InOther (typeName : string).

Definition ValidateInput (input : stage_input) : option error :=
  match input with
  | InNil => Some ErrInvalidInput
  | InDocument _ => None
  | InOther typeName => Some (Errorf ("unsupported input type输入类型: " +:+ typeName))
  end.

Definition ExecuteSplit (newID : Z -> string) (fuel : nat) (s : DocumentSplitter) (input : stage_input) : split_answer Document :=
  match ValidateInput input, input with
  | Some e, _ => Failed (PipelineError (ds_name s) "输入验证failed" e)
  | None, InDocument (Some doc) => wrap_error (ds_name s) "切片文档failed" (ProcessDocument newID fuel s doc)
  | None, InDocument None => Panicked "invalid memory address or nil pointer dereference"
  | None, _ => Failed (PipelineError (ds_name s) "输入类型error" (Errorf "expected *common.Document"))
  end.

(** ** Texts *)

Lemma len_app s t : len (s +:+ t) = len s + len t.
Proof. unfold len. rewrite length_app_str. lia. Qed.

Lemma len_nonneg s : 0 <= len s.
Proof. unfold len. lia. Qed.

Lemma nonempty_len s : nonempty s = true <-> 0 < len s.
Proof. destruct s; unfold nonempty, len; cbn; split; (done || lia). Qed.

Lemma empty_of s : nonempty s = false -> s = EmptyString.
Proof. by destruct s. Qed.

Lemma len_take n s : len (str_take n s) = Z.min (Z.of_nat n) (len s).
Proof. revert s. unfold len. induction n as [|n IH]; intros [|c s]; cbn; try lia. specialize (IH s). lia. Qed.

Lemma len_drop n s : len (str_drop n s) = Z.max 0 (len s - Z.of_nat n).
Proof. revert s. unfold len. induction n as [|n IH]; intros [|c s]; cbn; try lia. specialize (IH s). lia. Qed.

Lemma drop_drop n m s : str_drop n (str_drop m s) = str_drop (m + n) s.
Proof. revert s. induction m as [|m IH]; intros [|c s]; cbn; try done. by destruct n. Qed.

Lemma take_take n m s : (n <= m)%nat -> str_take n (str_take m s) = str_take n s.
Proof. revert m s. induction n as [|n IH]; intros [|m] [|c s] H; cbn; try (done || lia). f_equal. apply IH. lia. Qed.

Lemma drop_all n s : len s <= Z.of_nat n -> str_drop n s = EmptyString.
Proof. revert s. unfold len. induction n as [|n IH]; intros [|c s]; cbn; intros H; try (done || lia). apply IH. lia. Qed.

Lemma take_split n w s : (n <= w)%nat \/ len s <= Z.of_nat w -> str_take n (str_take w s) +:+ str_drop n s = s.
Proof.
  intros [H|H]; [rewrite take_take by done; apply str_take_drop|].
  assert (str_take w s = s) as ->; [|apply str_take_drop].
  rewrite <- (str_take_drop w s) at 2. by rewrite drop_all, str_app_nil_r.
Qed.

Lemma slice_spec s i j t :
  slice s i j = Value t <-> (0 <= i <= j /\ j <= len s) /\ t = str_take (Z.to_nat (j - i)) (str_drop (Z.to_nat i) s).
Proof.
  unfold slice. destruct (Z.leb_spec 0 i); destruct (Z.leb_spec i j); destruct (Z.leb_spec j (len s)); cbn;
    (split; [|intros [? ?]; try lia; by subst]); try done; intros [= <-]; split; [lia|done].
Qed.

Lemma slice_ok s i j : 0 <= i <= j -> j <= len s -> slice s i j = Value (str_take (Z.to_nat (j - i)) (str_drop (Z.to_nat i) s)).
Proof. intros. by apply slice_spec. Qed.

Lemma len_slice s i j t : slice s i j = Value t -> len t = j - i.
Proof. intros [[? ?] ->]%slice_spec. rewrite len_take, len_drop. lia. Qed.

(** A piece of a text. *)
Definition within (p t : string) : Prop := exists a b, t = a +:+ (p +:+ b).

Lemma within_refl p : within p p.
Proof. exists EmptyString, EmptyString. cbn. by rewrite str_app_nil_r. Qed.

Lemma within_app_l p s t : within p t -> within p (s +:+ t).
Proof. intros (a & b & ->). exists (s +:+ a), b. by rewrite str_app_assoc. Qed.

Lemma within_app_r p s t : within p s -> within p (s +:+ t).
Proof. intros (a & b & ->). exists a, (b +:+ t). by rewrite !str_app_assoc. Qed.

(** ** What the chunks hold *)

(** The indices count up from [from]. *)
Fixpoint numbered (from : Z) (chunks : list Chunk) : Prop :=
  match chunks with [] => True | c :: chunks => ck_Index c = from /\ numbered (from + 1) chunks end.

Lemma numbered_app from l k : numbered from (l ++ k) <-> numbered from l /\ numbered (from + Z.of_nat (length l)) k.
Proof.
  revert from. induction l as [|c l IH]; intros from; cbn [numbered app length]; [rewrite Z.add_0_r; tauto|].
  rewrite IH. replace (from + 1 + Z.of_nat (length l)) with (from + Z.of_nat (S (length l))) by lia. tauto.
Qed.

Definition no_longer (bound : Z) (chunks : list Chunk) : Prop := Forall (fun c => len (ck_Content c) <= bound) chunks.

(** A text put together from the first [step] bytes of its pieces. *)
Definition rejoin (step : nat) (pieces : list Chunk) : string := foldr (fun c t => str_take step (ck_Content c) +:+ t) EmptyString pieces.

Definition held (p : string) (chunks : list Chunk) : Prop := exists c, c ∈ chunks /\ within p (ck_Content c).

(** A paragraph is in the chunks: as it is, or in pieces that follow each other
    when it is longer than a chunk. *)
Definition kept (chunkSize chunkOverlap : Z) (chunks : list Chunk) (p : string) : Prop :=
  if chunkSize <? len p
  then exists before pieces after, chunks = before ++ pieces ++ after /\ rejoin (Z.to_nat (chunkSize - chunkOverlap)) pieces = p
  else held p chunks.

(** ... or in the chunk that is being filled. *)
Definition pending (chunkSize chunkOverlap : Z) (chunks : list Chunk) (current p : string) : Prop :=
  kept chunkSize chunkOverlap chunks p \/ (len p <= chunkSize /\ within p current).

Lemma held_app p l k : held p l -> held p (l ++ k).
Proof. intros (c & Hc & Hp). exists c. split; [|done]. apply elem_of_app. by left. Qed.

Lemma kept_app size overlap l k p : kept size overlap l p -> kept size overlap (l ++ k) p.
Proof.
  unfold kept. case_match; [|apply held_app]. intros (a & b & c & -> & Hp). exists a, b, (c ++ k). by rewrite <- !app_assoc.
Qed.

Lemma pending_saved size overlap l current current' p c :
  ck_Content c = current -> pending size overlap l current p -> pending size overlap (l ++ [c]) current' p.
Proof.
  intros Hc [Hp|[Hs Hp]]; left; [by apply kept_app|]. unfold kept. rewrite (proj2 (Z.ltb_ge size (len p))) by lia.
  exists c. rewrite Hc. split; [apply elem_of_app; right; by left|done].
Qed.

Lemma pending_more size overlap l k current p : pending size overlap l current p -> pending size overlap (l ++ k) current p.
Proof. intros [Hp|Hp]; [left; by apply kept_app|by right]. Qed.

Lemma pending_extended size overlap l current more p :
  pending size overlap l current p -> pending size overlap l (current +:+ more) p.
Proof. intros [Hp|[Hs Hp]]; [by left|right]. split; [done|]. by apply within_app_r. Qed.

Lemma pending_empty size overlap l p : nonempty p = true -> pending size overlap l EmptyString p -> kept size overlap l p.
Proof. intros Hn [Hp|[_ (a & b & Hb)]]; [done|]. destruct a; [|discriminate Hb]. by destruct p. Qed.

Section Split_facts.
Context (createChunk : string -> Z -> Chunk) (chunkSize chunkOverlap : Z) (fuel : nat).
Hypothesis Hcontent : forall t k, ck_Content (createChunk t k) = t.
Hypothesis Hindex : forall t k, ck_Index (createChunk t k) = k.
Hypothesis Hcarry : 0 <= chunkOverlap.
Hypothesis Hoverlap : chunkOverlap < chunkSize.

Lemma carried_ok current : exists t, carried chunkOverlap current = Value t /\ len t <= chunkOverlap + 1.
Proof.
  unfold carried. destruct (Z.ltb_spec chunkOverlap (len current)) as [Hl|Hl]; [|exists EmptyString; split; [done|change (len EmptyString) with 0; lia]].
  destruct (slice current (len current - chunkOverlap) (len current)) as [t| | |] eqn:Ht;
    try by rewrite slice_ok in Ht by lia.
  exists (t +:+ " "). split; [done|]. rewrite len_app, (len_slice _ _ _ _ Ht). change (len " ") with 1. lia.
Qed.

(** A long text ends in pieces that put it together again. *)
Lemma long_loop_ok n text : forall i idx,
  0 <= i -> Z.max 0 (len text - i) < Z.of_nat n ->
  exists pieces, long_loop createChunk chunkSize chunkOverlap n text i idx = Value pieces /\
    numbered idx pieces /\ no_longer chunkSize pieces /\
    rejoin (Z.to_nat (chunkSize - chunkOverlap)) pieces = str_drop (Z.to_nat i) text.
Proof.
  induction n as [|n IH]; intros i idx Hi Hn; [lia|]. cbn [long_loop].
  destruct (Z.ltb_spec i (len text)) as [Hl|Hl].
  2: exists []; cbn; split_and!; [done..|constructor|]; rewrite drop_all by lia; done.
  set (e := if len text <? i + chunkSize then len text else i + chunkSize).
  assert (He : e = Z.min (len text) (i + chunkSize)) by (unfold e; destruct (Z.ltb_spec (len text) (i + chunkSize)); lia).
  clearbody e.
  destruct (IH (i + (chunkSize - chunkOverlap)) (idx + 1)) as (pieces & -> & Hnum & Hlen & Hjoin); [lia..|].
  destruct (slice text i e) as [t| | |] eqn:Ht; try by rewrite slice_ok in Ht by lia.
  pose proof (len_slice _ _ _ _ Ht) as Hlt. apply slice_spec in Ht as [_ Ht].
  exists (createChunk t idx :: pieces). split_and!; [done|by cbn; rewrite Hindex|by constructor; [rewrite Hcontent; lia|]|].
  cbn [rejoin foldr]. fold (rejoin (Z.to_nat (chunkSize - chunkOverlap)) pieces). rewrite Hjoin, Hcontent, Ht.
  replace (Z.to_nat (i + (chunkSize - chunkOverlap))) with (Z.to_nat i + Z.to_nat (chunkSize - chunkOverlap))%nat by lia.
  rewrite <- drop_drop. apply take_split. rewrite len_drop. lia.
Qed.

Definition chunk_bound : Z := chunkSize + chunkOverlap + 2.

Lemma extended_bound current p :
  len ((if nonempty current then current +:+ " " else current) +:+ p) <= len current + 1 + len p.
Proof. rewrite len_app. case_match; rewrite ?len_app; change (len " ") with 1; lia. Qed.

Lemma within_extended current p : within p ((if nonempty current then current +:+ " " else current) +:+ p).
Proof. apply within_app_l, within_refl. Qed.

Lemma pending_next l current p q :
  pending chunkSize chunkOverlap l current q -> pending chunkSize chunkOverlap l ((if nonempty current then current +:+ " " else current) +:+ p) q.
Proof. intros H. case_match; [|by apply pending_extended]. do 2 apply pending_extended. done. Qed.

(** The state between two paragraphs: [seen] are those that went in. *)
Definition merging (seen : list string) (chunks : list Chunk) (current : string) : Prop :=
  numbered 0 chunks /\ no_longer chunk_bound chunks /\ len current <= chunk_bound /\
  Forall (pending chunkSize chunkOverlap chunks current) seen.

Lemma merging_saved seen chunks current :
  merging seen chunks current ->
  let chunks' := chunks ++ [createChunk current (Z.of_nat (length chunks))] in
  numbered 0 chunks' /\ no_longer chunk_bound chunks' /\
  forall current', Forall (pending chunkSize chunkOverlap chunks' current') seen.
Proof.
  intros (Hn & Hl & Hc & Hp) chunks'. split_and!.
  - apply numbered_app. split; [done|]. cbn. by rewrite Hindex.
  - apply Forall_app. split; [done|]. by constructor; [rewrite Hcontent|].
  - intros current'. eapply Forall_impl; [exact Hp|]. intros p Hq. by apply (pending_saved _ _ _ current); [rewrite Hcontent|].
Qed.

Lemma splitLongText_ok paragraph idx :
  len paragraph < Z.of_nat fuel ->
  exists pieces, splitLongText createChunk chunkSize chunkOverlap fuel paragraph idx = Value pieces /\
    numbered idx pieces /\ no_longer chunkSize pieces /\ rejoin (Z.to_nat (chunkSize - chunkOverlap)) pieces = paragraph.
Proof. intros Hf. apply (long_loop_ok fuel paragraph 0 idx); [lia|]. pose proof (len_nonneg paragraph). lia. Qed.

Lemma merge_loop_ok paragraphs : forall seen chunks current,
  merging seen chunks current -> Forall (fun p => nonempty p = true) (seen ++ paragraphs) ->
  Forall (fun p => len p < Z.of_nat fuel) paragraphs ->
  exists out, merge_loop createChunk chunkSize chunkOverlap fuel paragraphs chunks current (Z.of_nat (length chunks)) = Value out /\
    numbered 0 out /\ no_longer chunk_bound out /\ Forall (kept chunkSize chunkOverlap out) (seen ++ paragraphs).
Proof.
  induction paragraphs as [|p paragraphs IH]; intros seen chunks current Hm Hne Hf; cbn [merge_loop].
  - rewrite app_nil_r in *. destruct (merging_saved _ _ _ Hm) as (Hn & Hl & Hp). destruct Hm as (Hn' & Hl' & Hc & Hp').
    destruct (nonempty current) eqn:He; eexists; (split; [reflexivity|]); (split_and!; [done|done|]); apply Forall_forall; intros q Hq;
      (apply pending_empty; [by eapply Forall_forall in Hne|]); [by eapply Forall_forall in Hp|].
    apply empty_of in He. subst. by eapply Forall_forall in Hp'.
  - apply Forall_cons in Hf as [Hfp Hf].
    assert (Hnext : forall chunks current, merging (seen ++ [p]) chunks current ->
      exists out, merge_loop createChunk chunkSize chunkOverlap fuel paragraphs chunks current (Z.of_nat (length chunks)) = Value out /\
        numbered 0 out /\ no_longer chunk_bound out /\ Forall (kept chunkSize chunkOverlap out) (seen ++ p :: paragraphs)).
    { intros l c Hlc. destruct (IH (seen ++ [p]) l c Hlc) as (out & Ho); [by rewrite <- app_assoc|done|]. exists out.
      by rewrite <- app_assoc in Ho. }
    pose proof (merging_saved _ _ _ Hm) as (Hn' & Hl' & Hp').
    destruct (Z.ltb_spec chunkSize (len p)) as [Hlong|Hshort]; [|destruct (Z.ltb_spec chunkSize (len current + len p + 1)) as [Hfull|Hroom]].
    + assert (Hsaved : exists l, (if nonempty current then (chunks ++ [createChunk current (Z.of_nat (length chunks))], Z.of_nat (length chunks) + 1)
          else (chunks, Z.of_nat (length chunks))) = (l, Z.of_nat (length l)) /\ merging seen l EmptyString).
      { destruct (nonempty current) eqn:He; eexists; (split; [f_equal; rewrite ?length_app; cbn; lia|]).
        - split_and!; [done|done|unfold chunk_bound; change (len EmptyString) with 0; lia|apply Hp'].
        - apply empty_of in He. by subst. }
      destruct Hsaved as (l & -> & Hn & Hl & Hc & Hp).
      destruct (splitLongText_ok p (Z.of_nat (length l)) Hfp) as (pieces & -> & Hpn & Hpl & Hpj). cbn [answer_bind].
      rewrite <- Nat2Z.inj_add, <- length_app. apply Hnext. split_and!.
      * by apply numbered_app.
      * apply Forall_app. split; [done|]. eapply Forall_impl; [exact Hpl|]. cbn. intros. unfold chunk_bound. lia.
      * done.
      * apply Forall_app. split; [eapply Forall_impl; [exact Hp|]; intros; by apply pending_more|].
        constructor; [|constructor]. left. unfold kept. rewrite (proj2 (Z.ltb_lt _ _)) by done. exists l, pieces, []. by rewrite app_nil_r.
    + destruct (carried_ok current) as (t & -> & Ht). cbn [answer_bind].
      replace (Z.of_nat (length chunks) + 1) with (Z.of_nat (length (chunks ++ [createChunk current (Z.of_nat (length chunks))])))
        by (rewrite length_app; cbn; lia).
      apply Hnext. split_and!; [done|done|pose proof (extended_bound t p); unfold chunk_bound; lia|].
      apply Forall_app. split; [apply Hp'|]. constructor; [|constructor]. right. split; [done|apply within_extended].
    + apply Hnext. destruct Hm as (Hn & Hl & Hc & Hp). split_and!; [done|done|pose proof (extended_bound current p); unfold chunk_bound; lia|].
      apply Forall_app. split; [eapply Forall_impl; [exact Hp|]; intros; by apply pending_next|].
      constructor; [|constructor]. right. split; [done|apply within_extended].
Qed.

Lemma mergeAndSplit_ok paragraphs :
  Forall (fun p => nonempty p = true) paragraphs -> Forall (fun p => len p < Z.of_nat fuel) paragraphs ->
  exists out, mergeAndSplit createChunk chunkSize chunkOverlap fuel paragraphs = Value out /\
    numbered 0 out /\ no_longer chunk_bound out /\ Forall (kept chunkSize chunkOverlap out) paragraphs.
Proof.
  intros Hne Hf. apply (merge_loop_ok paragraphs [] [] EmptyString); [|done|done].
  split_and!; [done|constructor|unfold chunk_bound; change (len EmptyString) with 0; lia|constructor].
Qed.

(** *** Sentences *)

Definition speaking (seen : list string) (chunks : list Chunk) (current : string) : Prop :=
  numbered 0 chunks /\ Forall (fun p => held p chunks \/ within p current) seen.

Lemma speaking_saved seen chunks current :
  Forall (fun p => nonempty p = true) seen -> speaking seen chunks current ->
  forall current', speaking seen (if nonempty current then chunks ++ [createChunk current (Z.of_nat (length chunks))] else chunks) current'.
Proof.
  intros Hne [Hn Hp] current'. split.
  - case_match; [|done]. apply numbered_app. split; [done|]. cbn. by rewrite Hindex.
  - apply Forall_forall. intros p Hq. left. eapply Forall_forall in Hne; [|exact Hq]. eapply Forall_forall in Hp; [|exact Hq].
    destruct (nonempty current) eqn:He; (destruct Hp as [Hp|Hp]; [by try apply held_app|]).
    + eexists. split; [apply elem_of_app; right; by left|]. by rewrite Hcontent.
    + apply empty_of in He. subst. destruct Hp as (a & b & Hb). destruct a; [|discriminate Hb]. by destruct p.
Qed.

Lemma cut_chunk_ok seen chunks current :
  Forall (fun p => nonempty p = true) seen -> speaking seen chunks current ->
  exists chunks' current', cut_chunk createChunk chunkOverlap (chunks, current, Z.of_nat (length chunks))
    = Value (chunks', current', Z.of_nat (length chunks')) /\ speaking seen chunks' current'.
Proof.
  intros Hne Hs. pose proof (speaking_saved _ _ _ Hne Hs) as Hs'. unfold cut_chunk. destruct (nonempty current); [|by exists chunks, current].
  destruct (carried_ok current) as (t & -> & _). cbn [answer_bind]. eexists _, t. split; [|apply Hs']. rewrite length_app. cbn.
  do 2 f_equal. lia.
Qed.

Lemma semantic_loop_ok embedder threshold sentences : forall seen last chunks current,
  speaking seen chunks current -> Forall (fun p => nonempty p = true) (seen ++ sentences) ->
  exists out, semantic_loop createChunk embedder chunkSize chunkOverlap threshold sentences last (chunks, current, Z.of_nat (length chunks)) = Value out /\ numbered 0 out /\ Forall (fun p => held p out) (seen ++ sentences).
Proof.
  induction sentences as [|p sentences IH]; intros seen last chunks current Hs Hne; cbn [semantic_loop].
  - rewrite app_nil_r in *. pose proof (speaking_saved _ _ _ Hne Hs EmptyString) as [Hn Hp]. eexists. split; [reflexivity|]. split; [done|].
    apply Forall_forall. intros q Hq. eapply Forall_forall in Hne; [|exact Hq]. eapply Forall_forall in Hp; [|exact Hq].
    destruct Hp as [Hp|(a & b & Hb)]; [done|]. destruct a; [|discriminate Hb]. by destruct q.
  - assert (Hseen : Forall (fun p => nonempty p = true) seen) by (by apply Forall_app in Hne as [? _]).
    assert (Hcut : forall b chunks current, speaking seen chunks current -> exists chunks' current',
      (if b : bool then cut_chunk createChunk chunkOverlap (chunks, current, Z.of_nat (length chunks)) else Value (chunks, current, Z.of_nat (length chunks)))
        = Value (chunks', current', Z.of_nat (length chunks')) /\ speaking seen chunks' current').
    { intros [|] l c Hl; [by apply cut_chunk_ok|by exists l, c]. }
    destruct (Hcut (dissimilar embedder threshold last p) chunks current Hs) as (l & c & -> & Hl). cbn [answer_bind fst snd].
    destruct (Hcut (chunkSize <? len c + len p + 1) l c Hl) as (l' & c' & -> & Hl'). cbn [answer_bind].
    destruct (IH (seen ++ [p]) p l' ((if nonempty c' then c' +:+ " " else c') +:+ p)) as (out & Ho); [|by rewrite <- app_assoc|].
    + destruct Hl' as [Hn Hp]. split; [done|]. apply Forall_app. split; [|constructor; [right; apply within_extended|constructor]].
      eapply Forall_impl; [exact Hp|]. intros q [Hq|Hq]; [by left|right]. apply within_app_r. case_match; [by apply within_app_r|done].
    + exists out. by rewrite <- app_assoc in Ho.
Qed.
End Split_facts.

(** ** Paragraphs hold the lines *)

Definition lines_of (content : string) : list string := filter (fun l => nonempty l = true) (map TrimSpace (split_on lf content)).

Lemma join_snoc sep l x : join sep (l ++ [x]) = match l with [] => x | _ => join sep l +:+ (sep +:+ x) end.
Proof.
  induction l as [|y l IH]; [done|]. destruct l as [|z l]; [done|]. cbn [app] in *. rewrite !join_cons, IH.
  destruct l; by rewrite !str_app_assoc.
Qed.

Lemma join_app_nonempty sep l k : l <> [] -> k <> [] -> join sep (l ++ k) = join sep l +:+ (sep +:+ join sep k).
Proof.
  intros Hl Hk. induction l as [|x l IH]; [done|]. destruct l as [|y l].
  - destruct k as [|z k]; [done|]. apply join_cons.
  - cbn [app] in *. rewrite !join_cons, IH by done. by rewrite !str_app_assoc.
Qed.

(** What is written so far: the finished paragraphs and the current one. *)
Definition written (st : list string * string) : list string := fst st ++ (if nonempty (snd st) then [snd st] else []).

Lemma add_line_written st line :
  Forall (fun p => nonempty p = true) (fst st) ->
  let st' := add_line st line in
  Forall (fun p => nonempty p = true) (fst st') /\
  join " " (written st') = join " " (written st ++ (if nonempty (TrimSpace line) then [TrimSpace line] else [])).
Proof.
  destruct st as [ps cur]. cbn [fst]. intros Hps. unfold add_line, written.
  replace (String.eqb (TrimSpace line) EmptyString) with (negb (nonempty (TrimSpace line))) by (unfold nonempty; apply negb_involutive).
  destruct (nonempty (TrimSpace line)) eqn:Hl; cbn [negb].
  - cbn [fst snd]. split; [done|]. assert (Hn : nonempty ((if nonempty cur then cur +:+ " " else cur) +:+ TrimSpace line) = true).
    { apply nonempty_len. rewrite len_app. apply nonempty_len in Hl. pose proof (len_nonneg (if nonempty cur then cur +:+ " " else cur)). lia. }
    rewrite Hn. destruct (nonempty cur) eqn:Hc.
    + rewrite (join_snoc _ (ps ++ [cur])), !join_snoc. destruct ps as [|p ps]; cbn [app]; [|destruct (ps ++ [cur]) eqn:He; [by destruct ps|]];
        by rewrite !str_app_assoc.
    + apply empty_of in Hc. subst. by rewrite app_nil_r.
  - rewrite app_nil_r. destruct (nonempty cur) eqn:Hc; cbn [fst snd]; [|by rewrite ?Hc]. split; [|cbn; by rewrite Hc, app_nil_r].
    apply Forall_app. split; [done|]. by constructor.
Qed.

Lemma written_nonempty st : Forall (fun p => nonempty p = true) (fst st) -> Forall (fun p => nonempty p = true) (written st).
Proof. intros H. apply Forall_app. split; [done|]. case_match; by repeat constructor. Qed.

Lemma join_empty sep l : Forall (fun p => nonempty p = true) l -> join sep l = EmptyString -> l = [].
Proof. intros [|x k Hx Hk]; [done|]. destruct k; [|rewrite join_cons]; by destruct x. Qed.

Lemma join_congr sep l l' k :
  Forall (fun p => nonempty p = true) l -> Forall (fun p => nonempty p = true) l' -> join sep l = join sep l' ->
  join sep (l ++ k) = join sep (l' ++ k).
Proof.
  intros Hl Hl' He. destruct k as [|x k]; [by rewrite !app_nil_r|]. destruct l as [|y l].
  - symmetry in He. by rewrite (join_empty _ _ Hl' He).
  - destruct l' as [|z l']; [by apply (join_empty _ _ Hl) in He|]. by rewrite !join_app_nonempty, He by done.
Qed.

Lemma add_lines_written ls : forall st,
  Forall (fun p => nonempty p = true) (fst st) ->
  let st' := foldl add_line st ls in
  Forall (fun p => nonempty p = true) (fst st') /\
  join " " (written st') = join " " (written st ++ filter (fun l => nonempty l = true) (map TrimSpace ls)).
Proof.
  induction ls as [|line ls IH]; intros st Hst; [by rewrite app_nil_r|]. cbn [foldl map].
  destruct (add_line_written st line Hst) as [Hne Hj]. destruct (IH _ Hne) as [Hne' Hj']. split; [done|]. rewrite Hj', filter_cons.
  set (more := if nonempty (TrimSpace line) then [TrimSpace line] else []) in Hj.
  transitivity (join " " ((written st ++ more) ++ filter (fun l => nonempty l = true) (map TrimSpace ls))).
  - apply join_congr; [by apply written_nonempty| |done]. apply Forall_app. split; [by apply written_nonempty|].
    unfold more. case_match; by repeat constructor.
  - rewrite <- app_assoc. unfold more. by destruct (nonempty (TrimSpace line)).
Qed.

Lemma splitByParagraph_written content : splitByParagraph content = written (foldl add_line ([], EmptyString) (split_on lf content)).
Proof. unfold splitByParagraph, written. destruct (foldl _ _ _) as [ps cur]. cbn. case_match; [done|]. by rewrite app_nil_r. Qed.

(** No paragraph is empty, and put side by side they are the lines of the text
    that are not blank, trimmed. *)
Theorem paragraphs_hold_the_lines content :
  Forall (fun p => nonempty p = true) (splitByParagraph content) /\ join " " (splitByParagraph content) = join " " (lines_of content).
Proof.
  rewrite splitByParagraph_written. destruct (add_lines_written (split_on lf content) ([], EmptyString)) as [Hne Hj]; [constructor|].
  split; [by apply written_nonempty|exact Hj].
Qed.

(** ** The splitters *)

Lemma enough_fuel (ps : list string) : exists n, forall fuel, (n <= fuel)%nat -> Forall (fun p => len p < Z.of_nat fuel) ps.
Proof.
  induction ps as [|p ps [n IH]]; [by exists O|]. exists (Nat.max n (S (String.length p))). intros fuel Hf.
  constructor; [unfold len; lia|]. apply IH. lia.
Qed.

(** What a splitter of paragraphs promises of a text: it comes to an end, the
    chunks are numbered and bounded, and no paragraph is lost. *)
Definition well_split (chunkSize chunkOverlap : Z) (content : string) (chunks : list Chunk) : Prop :=
  numbered 0 chunks /\ no_longer (chunkSize + chunkOverlap + 2) chunks /\
  Forall (kept chunkSize chunkOverlap chunks) (splitByParagraph content).

Lemma paragraphs_well_split createChunk chunkSize chunkOverlap content :
  (forall t k, ck_Content (createChunk t k) = t) -> (forall t k, ck_Index (createChunk t k) = k) -> 0 <= chunkOverlap < chunkSize ->
  exists n, forall fuel, (n <= fuel)%nat ->
    exists chunks, mergeAndSplit createChunk chunkSize chunkOverlap fuel (splitByParagraph content) = Value chunks /\
      well_split chunkSize chunkOverlap content chunks.
Proof.
  intros Hc Hi [? ?]. destruct (enough_fuel (splitByParagraph content)) as [n Hn]. exists n. intros fuel Hf.
  apply mergeAndSplit_ok; [done..|apply paragraphs_hold_the_lines|by apply Hn].
Qed.

(** A document is split to the end when its chunks overlap less than they are
    long; of more chunks than the maximum the first ones remain. *)
Theorem document_is_split newID s doc :
  ds_engine s = None -> dc_Content doc <> EmptyString -> 0 <= ds_chunkOverlap s < ds_chunkSize s ->
  exists n, forall fuel, (n <= fuel)%nat ->
    exists chunks, splitDocument newID fuel s doc = Value (first_chunks (ds_maxChunks s) chunks) /\
      well_split (ds_chunkSize s) (ds_chunkOverlap s) (dc_Content doc) chunks.
Proof.
  intros He Hc Ho.
  destruct (paragraphs_well_split (document_chunk newID (dc_ID doc)) _ _ (dc_Content doc) (fun _ _ => eq_refl) (fun _ _ => eq_refl) Ho) as [n Hn].
  exists n. intros fuel Hf. destruct (Hn fuel Hf) as (chunks & Hm & Hw). exists chunks. split; [|done].
  unfold splitDocument. rewrite He, Hm. by destruct (String.eqb_spec (dc_Content doc) EmptyString).
Qed.

Lemma positive_int_pos opts k d : 0 < d -> 0 < positive_int opts k d.
Proof. intros H. unfold positive_int. repeat case_match; try done. by apply Z.ltb_lt. Qed.

Theorem structural_splits newID content opts :
  let chunkSize := positive_int opts "chunk_size" 1000 in
  let chunkOverlap := positive_int opts "chunk_overlap" 100 in
  chunkOverlap < chunkSize ->
  exists n, forall fuel, (n <= fuel)%nat ->
    exists chunks, structural_Split newID fuel content opts = Value chunks /\ well_split chunkSize chunkOverlap content chunks.
Proof.
  intros size overlap H. pose proof (positive_int_pos opts "chunk_overlap" 100 ltac:(lia)).
  apply (paragraphs_well_split (structural_chunk newID)); [done..|unfold size, overlap in *; lia].
Qed.

(** The semantic splitter always answers, whatever the embedder says, and every
    sentence is whole in a chunk. *)
Theorem semantic_keeps_sentences embedder newID fuel content opts :
  exists chunks, semantic_Split embedder newID fuel content opts = Value chunks /\ numbered 0 chunks /\
    Forall (fun s => held s chunks) (splitBySentence content).
Proof.
  unfold semantic_Split, mergeBySemantics. apply (semantic_loop_ok (semantic_chunk newID)) with (seen := []) (chunks := []);
    [done|done|pose proof (positive_int_pos opts "chunk_overlap" 100); lia|by split|].
  apply Forall_forall. intros p. unfold splitBySentence. by intros [? _]%list_elem_of_filter.
Qed.

(** ** The loop of long texts *)

(** An overlap of the whole chunk: the loop does not move on. *)
Theorem full_overlap_never_ends createChunk size text :
  0 <= size -> text <> EmptyString -> forall fuel idx, splitLongText createChunk size size fuel text idx = Unfinished.
Proof.
  intros Hs Ht fuel. unfold splitLongText. assert (Hl : 0 < len text) by (apply nonempty_len; by destruct text).
  induction fuel as [|fuel IH]; intros idx; [done|]. cbn [long_loop]. rewrite (proj2 (Z.ltb_lt 0 (len text))) by done.
  rewrite Z.sub_diag, slice_ok by (destruct (Z.ltb_spec (len text) (0 + size)); lia). cbn [answer_bind]. by rewrite IH.
Qed.

(** A larger one: the second step reads in front of the text. *)
Theorem larger_overlap_panics createChunk size overlap fuel text idx :
  0 <= size < overlap -> text <> EmptyString -> (2 <= fuel)%nat ->
  splitLongText createChunk size overlap fuel text idx = Panicked "slice bounds out of range".
Proof.
  intros Hs Ht Hf. assert (Hl : 0 < len text) by (apply nonempty_len; by destruct text).
  destruct fuel as [|[|fuel]]; [lia..|]. unfold splitLongText. cbn [long_loop]. rewrite (proj2 (Z.ltb_lt 0 (len text))) by done.
  rewrite slice_ok by (destruct (Z.ltb_spec (len text) (0 + size)); lia). cbn [answer_bind].
  rewrite (proj2 (Z.ltb_lt _ (len text))) by lia. unfold slice at 1. by rewrite (proj2 (Z.leb_gt 0 (0 + (size - overlap)))) by lia.
Qed.

(** ** Tokens *)

Section Token_facts.
Context (createChunk : string -> Z -> Chunk) (maxTokens chunkOverlap : Z).
Hypothesis Hcontent : forall t k, ck_Content (createChunk t k) = t.
Hypothesis Hindex : forall t k, ck_Index (createChunk t k) = k.
Hypothesis Hmax : 0 < maxTokens.
Hypothesis Hcarry : 0 < chunkOverlap.

(** The chunks are runs of tokens, none longer than allowed, and no token is
    missing. *)
Definition runs_of (tokens : list string) (pieces : list (list string)) : Prop :=
  Forall (fun piece => (exists a b, tokens = a ++ piece ++ b) /\ 1 <= Z.of_nat (length piece) <= maxTokens) pieces.

Definition written_tokens (tokens : list string) (chunks : list Chunk) (pieces : list (list string)) : Prop :=
  numbered 0 chunks /\ map ck_Content chunks = map detokenize pieces /\ runs_of tokens pieces.

Lemma runs_more tokens more pieces : runs_of tokens pieces -> runs_of (tokens ++ more) pieces.
Proof. intros H. eapply Forall_impl; [exact H|]. intros p [(a & b & ->) Hp]. split; [|done]. exists a, (b ++ more). by rewrite <- !app_assoc. Qed.

Lemma written_snoc tokens chunks pieces a current :
  written_tokens tokens chunks pieces -> tokens = a ++ current -> 1 <= Z.of_nat (length current) <= maxTokens ->
  written_tokens tokens (chunks ++ [createChunk (detokenize current) (Z.of_nat (length chunks))]) (pieces ++ [current]).
Proof.
  intros (Hn & Hc & Hr) Ht Hl. split_and!.
  - apply numbered_app. split; [done|]. cbn. by rewrite Hindex.
  - rewrite !map_app, Hc. cbn. by rewrite Hcontent.
  - apply Forall_app. split; [done|]. constructor; [|constructor]. split; [|done]. exists a, []. by rewrite app_nil_r.
Qed.

Lemma token_loop_ok tokens : forall seen chunks pieces a current,
  written_tokens seen chunks pieces -> seen = a ++ current -> Z.of_nat (length current) <= maxTokens ->
  (forall t, t ∈ seen -> (exists piece, piece ∈ pieces /\ t ∈ piece) \/ t ∈ current) ->
  let out := token_loop createChunk maxTokens chunkOverlap tokens chunks current (Z.of_nat (length chunks)) in
  exists pieces, written_tokens (seen ++ tokens) out pieces /\ forall t, t ∈ seen ++ tokens -> exists piece, piece ∈ pieces /\ t ∈ piece.
Proof.
  induction tokens as [|token tokens IH]; intros seen chunks pieces a current Hw Hs Hl Hin; cbn [token_loop].
  - rewrite app_nil_r. destruct current as [|c current].
    + exists pieces. split; [done|]. intros t Ht. destruct (Hin t Ht) as [?|?%elem_of_nil]; done.
    + exists (pieces ++ [c :: current]). split; [eapply written_snoc; [done..|cbn in *; lia]|]. intros t Ht.
      destruct (Hin t Ht) as [(p & Hp & Htp)|Htc]; [exists p|exists (c :: current)]; (split; [apply elem_of_app|done]); [by left|right; by left].
  - assert (Hstep : forall chunks pieces a current, written_tokens seen chunks pieces -> seen = a ++ current -> Z.of_nat (length current) < maxTokens ->
      (forall t, t ∈ seen -> (exists piece, piece ∈ pieces /\ t ∈ piece) \/ t ∈ current) ->
      exists pieces, written_tokens (seen ++ token :: tokens) (token_loop createChunk maxTokens chunkOverlap tokens chunks (current ++ [token]) (Z.of_nat (length chunks))) pieces /\
        forall t, t ∈ seen ++ token :: tokens -> exists piece, piece ∈ pieces /\ t ∈ piece).
    { intros l ps b c (Hn & Hc & Hr) Hb Hlt Hall. rewrite (app_assoc seen [token] tokens : seen ++ token :: tokens = _).
      apply (IH (seen ++ [token]) l ps b).
      - split_and!; [done|done|by apply runs_more].
      - by rewrite Hb, app_assoc.
      - rewrite length_app. cbn. lia.
      - intros t [Ht| ->%list_elem_of_singleton]%elem_of_app; [|right; apply elem_of_app; right; by left].
        destruct (Hall t Ht) as [?|?]; [by left|right; apply elem_of_app; by left]. }
    destruct (Z.ltb_spec maxTokens (Z.of_nat (length current) + 1)) as [Hfull|Hroom]; [|by apply (Hstep chunks pieces a current); [..|lia|]].
    replace (Z.of_nat (length chunks) + 1) with (Z.of_nat (length (chunks ++ [createChunk (detokenize current) (Z.of_nat (length chunks))])))
      by (rewrite length_app; cbn; lia).
    set (next := if chunkOverlap <? Z.of_nat (length current) then drop (Z.to_nat (Z.of_nat (length current) - chunkOverlap)) current else []).
    assert (Hnext : exists b, current = b ++ next /\ Z.of_nat (length next) < maxTokens).
    { unfold next. destruct (Z.ltb_spec chunkOverlap (Z.of_nat (length current))); [|exists current; rewrite app_nil_r; cbn; split; [done|lia]].
      eexists. split; [symmetry; apply take_drop|]. rewrite length_drop. lia. }
    destruct Hnext as (b & Hb & Hln). apply (Hstep _ (pieces ++ [current]) (a ++ b)); [eapply written_snoc; [done..|lia]| |done|].
    + by rewrite <- app_assoc, <- Hb.
    + intros t Ht. left. destruct (Hin t Ht) as [(p & Hp & Htp)|Htc]; [exists p|exists current]; (split; [apply elem_of_app|done]); [by left|right; by left].
Qed.
End Token_facts.

(** A chunk of tokens holds between one and the maximum of them, in the order
    of the text, and every token of the text is in a chunk. *)
Theorem tokens_are_split newID fuel content opts :
  exists chunks pieces, token_Split newID fuel content opts = Value chunks /\
    written_tokens (positive_int opts "max_tokens" 512) (tokenize content) chunks pieces /\
    forall t, t ∈ tokenize content -> exists piece, piece ∈ pieces /\ t ∈ piece.
Proof.
  eexists. unfold token_Split, splitByTokens.
  destruct (token_loop_ok (token_chunk newID) (positive_int opts "max_tokens" 512) (positive_int opts "chunk_overlap" 100)
    (fun _ _ => eq_refl) (fun _ _ => eq_refl) (positive_int_pos opts "max_tokens" 512 ltac:(lia)) (positive_int_pos opts "chunk_overlap" 100 ltac:(lia))
    (tokenize content) [] [] [] [] []) as (pieces & Hp & Ht).
  - split_and!; [done|done|constructor].
  - done.
  - pose proof (positive_int_pos opts "max_tokens" 512). cbn [length]. lia.
  - by intros t ?%elem_of_nil.
  - by exists pieces.
Qed.

(** ** The engine's structural splitter is the document splitter *)

Definition plain_chunk (c : Chunk) : Chunk := mkChunk (ck_ID c) (ck_Content c) [] (ck_DocumentID c) (ck_Index c) (ck_TokenCount c).

Definition answer_map {A B} (f : A -> B) (m : split_answer A) : split_answer B := answer_bind m (fun a => Value (f a)).

Section Natural.
Context (f : Chunk -> Chunk) (create create' : string -> Z -> Chunk) (size overlap : Z) (fuel : nat).
Hypothesis Hf : forall t k, f (create t k) = create' t k.

Lemma long_loop_map n text i idx :
  long_loop create' size overlap n text i idx = answer_map (map f) (long_loop create size overlap n text i idx).
Proof.
  revert i idx. induction n as [|n IH]; intros i idx; [done|]. cbn [long_loop]. case_match; [|done].
  destruct (slice _ _ _); try done. cbn [answer_bind]. rewrite IH.
  destruct (long_loop create size overlap n text _ _); try done. cbn. by rewrite Hf.
Qed.

Lemma merge_loop_map ps : forall chunks current idx,
  merge_loop create' size overlap fuel ps (map f chunks) current idx = answer_map (map f) (merge_loop create size overlap fuel ps chunks current idx).
Proof.
  assert (Hs : forall l t k, map f l ++ [create' t k] = map f (l ++ [create t k])) by (intros; rewrite map_app; cbn; by rewrite Hf).
  induction ps as [|p ps IH]; intros chunks current idx; cbn [merge_loop].
  - cbn. rewrite Hs. by case_match.
  - destruct (size <? len p); [|destruct (size <? len current + len p + 1); [|apply IH]].
    + unfold splitLongText. destruct (nonempty current); rewrite ?Hs, long_loop_map;
        (destruct (long_loop create size overlap fuel p _ _); try done); cbn; rewrite length_map, <- map_app; apply IH.
    + destruct (carried overlap current); try done. cbn [answer_bind]. rewrite Hs. apply IH.
Qed.
End Natural.

Lemma slice_no_error s i j e : slice s i j <> Failed e.
Proof. unfold slice. by case_match. Qed.

Lemma carried_no_error overlap current e : carried overlap current <> Failed e.
Proof. unfold carried. case_match; [|done]. destruct (slice _ _ _) eqn:Hs; try done. by apply slice_no_error in Hs. Qed.

Lemma long_loop_no_error create size overlap n text i idx e : long_loop create size overlap n text i idx <> Failed e.
Proof.
  revert i idx. induction n as [|n IH]; intros i idx; [done|]. cbn [long_loop]. case_match; [|done].
  destruct (slice _ _ _) eqn:H'; try done; [|by apply slice_no_error in H']. cbn [answer_bind].
  specialize (IH (i + (size - overlap)) (idx + 1)). by destruct (long_loop create size overlap n text _ _).
Qed.

Lemma merge_loop_no_error create size overlap fuel ps : forall chunks current idx e, merge_loop create size overlap fuel ps chunks current idx <> Failed e.
Proof.
  induction ps as [|p ps IH]; intros chunks current idx e; cbn [merge_loop]; [done|].
  destruct (size <? len p); [|destruct (size <? len current + len p + 1); [|apply IH]].
  - destruct (if nonempty current then _ else _) as [l i]. unfold splitLongText.
    destruct (long_loop _ _ _ _ _ _ _) eqn:H; try done; [apply IH|by apply long_loop_no_error in H].
  - destruct (carried _ _) eqn:H; try done; [apply IH|by apply carried_no_error in H].
Qed.

(** With the engine's structural splitter a document gets the chunks it gets
    without an engine, but for the metadata of each. *)
Theorem engine_agrees embedder newID fuel s doc :
  0 < ds_chunkSize s -> 0 < ds_chunkOverlap s -> ds_engine s = None ->
  splitDocument newID fuel s doc =
  answer_map (map plain_chunk) (splitDocument newID fuel (SetEngine (Some (NewEngine embedder)) "structural" s) doc).
Proof.
  intros Hsz Hov He. unfold splitDocument. rewrite He. cbn [SetEngine ds_engine ds_splitterName ds_chunkSize ds_chunkOverlap ds_maxChunks].
  case_match; [done|]. unfold Split, GetSplitter, NewEngine. rewrite !lookup_insert_ne, lookup_insert_eq by done. cbn [answer_bind nonempty].
  unfold structural_Split, structural_mergeAndSplit, structural_paragraphs, positive_int. cbn [option_of]. cbn. rewrite !(proj2 (Z.ltb_lt 0 _)) by done.
  unfold mergeAndSplit.
  rewrite (merge_loop_map (fun c => plain_chunk (with_document (dc_ID doc) c)) (structural_chunk newID) (document_chunk newID (dc_ID doc))
    (ds_chunkSize s) (ds_chunkOverlap s) fuel (fun _ _ => eq_refl) (splitByParagraph (dc_Content doc)) []).
  destruct (merge_loop (structural_chunk newID) _ _ _ _ _ _ _) eqn:Hm; try done; [|by apply merge_loop_no_error in Hm]. cbn. f_equal. unfold first_chunks. rewrite !length_map.
  case_match; by rewrite ?firstn_map, !map_map.
Qed.

(** ** Boundary cases *)

Lemma clamp_in_range v : float_lt (of_int 1) (clamp v) = false /\ float_lt (clamp v) (of_int (-1)) = false.
Proof.
  unfold clamp. destruct (float_lt v (of_int (-1))) eqn:Hl; [by vm_compute|].
  destruct (float_lt (of_int 1) v) eqn:Hg; [by vm_compute|]. by split.
Qed.

(** A similarity is never outside [-1, 1]; it may be no number. *)
Theorem cosine_in_range a b :
  let v := cosineSimilarity a b in float_lt (of_int 1) v = false /\ float_lt v (of_int (-1)) = false.
Proof.
  cbv zeta. unfold cosineSimilarity. case_match; [by vm_compute|]. destruct (sums a b) as [[dot na] nb].
  case_match; [by vm_compute|apply clamp_in_range].
Qed.

(** A document without a metadata map crashes the splitter. *)
Theorem nil_metadata_panics newID fuel s doc chunks :
  splitDocument newID fuel s doc = Value chunks -> dc_Metadata doc = None ->
  ProcessDocument newID fuel s doc = Panicked "assignment to entry in nil map".
Proof. intros Hs Hm. unfold ProcessDocument. rewrite Hs. unfold set_metadata. cbn. by rewrite Hm. Qed.

Definition ids (k : Z) : string := EmptyString.
Definition contents (a : split_answer (list Chunk)) : option (list string) := match a with Value l => Some (map ck_Content l) | _ => None end.
Definition doc_of (content : string) : Document := mkDocument "d" content (Some ∅) [].
Definition x_text (n : nat) : string := String.string_of_list_ascii (repeat "x"%char n).

(** Chunks of 50 with the overlap left at its default of 100. *)
Example default_overlap_exceeds_a_small_chunk :
  splitDocument ids 10 (NewDocumentSplitter 50 0 0) (doc_of (x_text 51)) = Panicked "slice bounds out of range".
Proof. vm_compute. reflexivity. Qed.

(** A paragraph of exactly the chunk's size follows an empty chunk. *)
Example empty_first_chunk : contents (splitDocument ids 10 (NewDocumentSplitter 4 1 9) (doc_of "abcd")) = Some [EmptyString; "abcd"].
Proof. vm_compute. reflexivity. Qed.

(** A chunk can be two bytes longer than its size and the overlap together:
    the overlap is followed by two spaces. *)
Example chunk_over_the_bound :
  contents (splitDocument ids 10 (NewDocumentSplitter 4 1 9) (doc_of ("abc" +:+ String lf (String lf "efgh")))) = Some ["abc"; "c  efgh"].
Proof. vm_compute. reflexivity. Qed.

(** A long text is cut inside a character. *)
Example cut_inside_a_rune :
  let e := of_bytes [195; 169] in
  contents (splitDocument ids 10 (NewDocumentSplitter 3 1 9) (doc_of (e +:+ (e +:+ e)))) =
    Some [of_bytes [195; 169; 195]; of_bytes [195; 169; 195]; of_bytes [195; 169]].
Proof. vm_compute. reflexivity. Qed.

(** The semantic splitter does not cut a long sentence, and the token splitter
    does not read the chunk size a document splitter hands it. *)
Example long_sentence_stays_whole :
  contents (semantic_Split None ids O (x_text 40) [("chunk_size", AnyInt 10)]) = Some [x_text 40] /\
  contents (splitDocument ids 0 (SetEngine (Some (NewEngine None)) "token" (NewDocumentSplitter 5 1 9)) (doc_of "one two three four")) =
    Some ["one two three four"].
Proof. vm_compute. by split. Qed.

Example an_unknown_splitter :
  ProcessDocument ids 0 (SetEngine (Some (NewEngine None)) "lines" (NewDocumentSplitter 5 1 9)) (doc_of "a") =
    Failed (PipelineError "splitter" "切片文档failed" (Errorf "splitter not found: lines")).
Proof. vm_compute. reflexivity. Qed.
