(* ===== verification/ContentStores.v ===== *)
(** The in-memory stores behind the pipelines: document metadata
    (internal/storage/metadata/memory.go), cached values
    (internal/storage/cache/memory.go) and objects
    (internal/storage/object/memory.go).

    A call under a store's mutex is one step, [now] is the second it reads, and
    the order in which Go walks a map is an argument.  The metadata store keeps
    and hands out its callers' pointers: a document is a place in a heap.

    Second half: the vector store (internal/storage/vector). *)

From stdpp Require Import sorting.
From S2P Require Import Prelude GoTime Json GoStrings GoFloat GoFloatOps.

Inductive store_error := AlreadyExists (key : string) | NotFound (key : string) | Expired (key : string) | Unusable (key : string).

(** ** Documents *)

Record StoredDocument := mkDocument {
  dm_ID : string; dm_Name : string; dm_Type : string; dm_Size : Z; dm_Path : string; dm_Status : string; dm_Chunks : Z;
  dm_VectorCount : Z; dm_TenantID : string; dm_Metadata : option (gmap string string); dm_CreatedAt : Z; dm_UpdatedAt : Z;
}.

Definition stamped (created updated : Z) (d : StoredDocument) : StoredDocument :=
  mkDocument (dm_ID d) (dm_Name d) (dm_Type d) (dm_Size d) (dm_Path d) (dm_Status d) (dm_Chunks d) (dm_VectorCount d) (dm_TenantID d)
    (dm_Metadata d) created updated.

Record DocumentFilter := mkFilter {
  fl_TenantID : string; fl_IDs : list string; fl_Types : list string; fl_Status : list string;
  fl_Metadata : gmap string string; fl_Search : string;
}.

Record Pagination := mkPagination { pg_Offset : Z; pg_Limit : Z }.

(** The heap the callers share, and the store's map. *)
Record DocumentStore := mkDocumentStore { ms_heap : list StoredDocument; ms_docs : gmap string nat }.

Definition CreateDocument (p : nat) (now : Z) (s : DocumentStore) : DocumentStore * option store_error :=
  match ms_heap s !! p with
  | None => (s, None)
  | Some doc =>
      match ms_docs s !! dm_ID doc with
      | Some _ => (s, Some (AlreadyExists (dm_ID doc)))
      | None => (mkDocumentStore (<[p := stamped now now doc]> (ms_heap s)) (<[dm_ID doc := p]> (ms_docs s)), None)
      end
  end.

Definition GetDocument (id : string) (s : DocumentStore) : result store_error nat :=
  match ms_docs s !! id with Some p => Ok p | None => Err (NotFound id) end.

Definition UpdateDocument (p : nat) (now : Z) (s : DocumentStore) : DocumentStore * option store_error :=
  match ms_heap s !! p with
  | None => (s, None)
  | Some doc =>
      match ms_docs s !! dm_ID doc with
      | None => (s, Some (NotFound (dm_ID doc)))
      | Some _ => (mkDocumentStore (<[p := stamped (dm_CreatedAt doc) now doc]> (ms_heap s)) (<[dm_ID doc := p]> (ms_docs s)), None)
      end
  end.

Definition DeleteDocument (id : string) (s : DocumentStore) : DocumentStore * option store_error :=
  match ms_docs s !! id with
  | None => (s, Some (NotFound id))
  | Some _ => (mkDocumentStore (ms_heap s) (delete id (ms_docs s)), None)
  end.

Definition among (l : list string) (x : string) : bool := match l with [] => true | _ => existsb (String.eqb x) l end.

(** The conditions of [List] and [Count].  The loop over the metadata of the
    filter only continues itself: it excludes nothing. *)
Definition passes_filter (filter : option DocumentFilter) (doc : StoredDocument) : bool :=
  match filter with
  | None => true
  | Some f =>
      negb (negb (String.eqb (fl_TenantID f) EmptyString) && negb (String.eqb (dm_TenantID doc) (fl_TenantID f)))
      && among (fl_IDs f) (dm_ID doc) && among (fl_Types f) (dm_Type doc) && among (fl_Status f) (dm_Status doc)
      && (String.eqb (fl_Search f) EmptyString || String.eqb (dm_Name doc) (fl_Search f) || String.eqb (dm_Path doc) (fl_Search f))
  end.

Definition document_at (s : DocumentStore) (id : string) : option StoredDocument := ms_docs s !! id ≫= fun p => ms_heap s !! p.

Definition selected_documents (order : list string) (filter : option DocumentFilter) (s : DocumentStore) : list nat :=
  omap (fun id => p ← ms_docs s !! id; doc ← ms_heap s !! p; if passes_filter filter doc then Some p else None) order.

(** [results[start:end]] panics when a bound is negative or they cross. *)
Definition document_page {A} (pagination : option Pagination) (results : list A) : outcome (list A) :=
  match pagination with
  | None => Ret results
  | Some pg =>
      let n := Z.of_nat (length results) in
      let start := pg_Offset pg in
      let end_ := start + pg_Limit pg in
      if n <=? start then Ret []
      else
        let end_ := if n <? end_ then n else end_ in
        if (0 <=? start) && (start <=? end_) then Ret (take (Z.to_nat (end_ - start)) (drop (Z.to_nat start) results))
        else Panic "slice bounds out of range"
  end.

Definition ListDocuments (order : list string) (filter : option DocumentFilter) (pagination : option Pagination) (s : DocumentStore) : outcome (list nat) :=
  document_page pagination (selected_documents order filter s).

Definition CountDocuments (order : list string) (filter : option DocumentFilter) (s : DocumentStore) : Z := Z.of_nat (length (selected_documents order filter s)).

(** A caller writes through its pointer. *)
Definition write_document (p : nat) (f : StoredDocument -> StoredDocument) (s : DocumentStore) : DocumentStore := mkDocumentStore (alter f p (ms_heap s)) (ms_docs s).

(** ** Cached values *)

(** A value, and the second after which it is stale; 0 is never. *)
Record cacheItem := mkItem { ci_value : string; ci_expiration : Z }.

Abbreviation CacheStore := (gmap string cacheItem).

(** [json.Marshal] of the value is given: [None] when there is none. *)
Definition SetCache (key : string) (data : option string) (expiration : Z) (now : time) (s : CacheStore) : CacheStore * option store_error :=
  match data with
  | None => (s, Some (Unusable key))
  | Some data =>
      let exp := if 0 <? expiration then (unix_nano now + expiration) / second else 0 in
      (<[key := mkItem data exp]> s, None)
  end.

Definition stale (now : time) (i : cacheItem) : bool := (0 <? ci_expiration i) && (ci_expiration i <? unix_nano now / second).

(** What the caller unmarshals. *)
Definition GetCache (key : string) (now : time) (s : CacheStore) : result store_error string :=
  match s !! key with
  | None => Err (NotFound key)
  | Some i => if stale now i then Err (Expired key) else Ok (ci_value i)
  end.

Definition DeleteCache (key : string) (s : CacheStore) : CacheStore * option store_error :=
  match s !! key with None => (s, Some (NotFound key)) | Some _ => (delete key s, None) end.

Definition CacheExists (key : string) (now : time) (s : CacheStore) : bool :=
  match s !! key with None => false | Some i => negb (stale now i) end.

Definition ClearCache (s : CacheStore) : CacheStore := ∅.

(** ** Objects *)

Record object := mkObject { ob_path : string; ob_data : string; ob_metadata : option (gmap string string); ob_createdAt : Z }.
Record ObjectInfo := mkInfo { oi_Path : string; oi_Size : Z; oi_Metadata : option (gmap string string); oi_CreatedAt : Z }.

Abbreviation ObjectStore := (gmap string object).

(** What the reader gives until it ends, or [None] when it fails. *)
Definition PutObject (path : string) (data : option string) (metadata : option (gmap string string)) (now : Z) (s : ObjectStore) : ObjectStore * option store_error :=
  match data with
  | None => (s, Some (Unusable path))
  | Some data => (<[path := mkObject path data metadata now]> s, None)
  end.

Definition GetObject (path : string) (s : ObjectStore) : result store_error string :=
  match s !! path with Some o => Ok (ob_data o) | None => Err (NotFound path) end.

Definition DeleteObject (path : string) (s : ObjectStore) : ObjectStore * option store_error :=
  match s !! path with None => (s, Some (NotFound path)) | Some _ => (delete path s, None) end.

Definition info_of (path : string) (o : object) : ObjectInfo :=
  mkInfo path (Z.of_nat (String.length (ob_data o))) (ob_metadata o) (ob_createdAt o).

Definition ListObjects (order : list string) (pre : string) (s : ObjectStore) : list ObjectInfo :=
  omap (fun path => o ← s !! path; if String.eqb pre EmptyString || HasPrefix path pre then Some (info_of path o) else None) order.

Definition ObjectExists (path : string) (s : ObjectStore) : bool := match s !! path with Some _ => true | None => false end.

Definition GetObjectMetadata (path : string) (s : ObjectStore) : result store_error (option (gmap string string)) :=
  match s !! path with Some o => Ok (ob_metadata o) | None => Err (NotFound path) end.

(** ** Documents: what the store promises *)

(** Every entry is under its document's identifier.  Callers can break it: they
    hold the pointers. *)
Definition keyed (s : DocumentStore) : Prop := map_Forall (fun id p => exists d, ms_heap s !! p = Some d /\ dm_ID d = id) (ms_docs s).

Lemma stamped_keyed (p : nat) doc c u (docs : gmap string nat) (heap : list StoredDocument) :
  heap !! p = Some doc -> map_Forall (fun id q => exists d, heap !! q = Some d /\ dm_ID d = id) docs ->
  map_Forall (fun id q => exists d, <[p := stamped c u doc]> heap !! q = Some d /\ dm_ID d = id) (<[dm_ID doc := p]> docs).
Proof.
  intros Hp Hk. assert (Hl : (p < length heap)%nat) by by eapply lookup_lt_Some.
  apply map_Forall_insert_2; [by rewrite list_lookup_insert_eq by done; eexists|]. intros id q Hq. destruct (Hk id q Hq) as (d & Hd & Hid).
  destruct (decide (p = q)) as [->|Hn]; [|by rewrite list_lookup_insert_ne by done; exists d].
  rewrite list_lookup_insert_eq by done. simplify_eq. by eexists.
Qed.

Inductive document_call := DocCreate (p : nat) (now : Z) | DocUpdate (p : nat) (now : Z) | DocDelete (id : string).

Definition document_step (c : document_call) (s : DocumentStore) : DocumentStore :=
  match c with
  | DocCreate p now => fst (CreateDocument p now s)
  | DocUpdate p now => fst (UpdateDocument p now s)
  | DocDelete id => fst (DeleteDocument id s)
  end.

(** The store's own calls keep it so, from any documents of the callers. *)
Theorem documents_stay_keyed heap calls : keyed (foldl (fun s c => document_step c s) (mkDocumentStore heap ∅) calls).
Proof.
  assert (Hstep : forall c s, keyed s -> keyed (document_step c s)).
  { intros [p now|p now|id] s Hs; cbn [document_step].
    - unfold CreateDocument. repeat case_match; try done. by apply stamped_keyed.
    - unfold UpdateDocument. repeat case_match; try done. by apply stamped_keyed.
    - unfold DeleteDocument. case_match; [|done]. by apply map_Forall_delete. }
  assert (Hall : forall s, keyed s -> keyed (foldl (fun s c => document_step c s) s calls)).
  { induction calls as [|c calls IH]; intros s Hs; [done|]. apply IH, Hstep, Hs. }
  apply Hall, map_Forall_empty.
Qed.

Theorem created_document_is_found p now s doc :
  ms_heap s !! p = Some doc -> ms_docs s !! dm_ID doc = None ->
  let s' := fst (CreateDocument p now s) in
  GetDocument (dm_ID doc) s' = Ok p /\ document_at s' (dm_ID doc) = Some (stamped now now doc) /\
  CreateDocument p now s' = (s', Some (AlreadyExists (dm_ID doc))) /\
  GetDocument (dm_ID doc) (fst (DeleteDocument (dm_ID doc) s')) = Err (NotFound (dm_ID doc)).
Proof.
  intros Hp Hn. unfold CreateDocument, GetDocument, DeleteDocument, document_at. rewrite Hp, Hn. cbn [fst ms_docs ms_heap].
  assert (Hl : (p < length (ms_heap s))%nat) by by eapply lookup_lt_Some.
  rewrite lookup_insert_eq, list_lookup_insert_eq by done. cbn. rewrite list_lookup_insert_eq by done. cbn. rewrite lookup_insert_eq.
  cbn. by rewrite lookup_delete_eq.
Qed.

Lemma selected_in order filter s p :
  p ∈ selected_documents order filter s <-> exists id doc, id ∈ order /\ ms_docs s !! id = Some p /\ ms_heap s !! p = Some doc /\ passes_filter filter doc = true.
Proof.
  unfold selected_documents. rewrite list_elem_of_omap. split.
  - intros (id & Hid & H). apply bind_Some in H as (q & Hq & H). apply bind_Some in H as (doc & Hd & H). case_match; simplify_eq. eauto 8.
  - intros (id & doc & Hid & Hq & Hd & Hf). exists id. split; [done|]. rewrite Hq. cbn. rewrite Hd. cbn. by rewrite Hf.
Qed.

(** A page within bounds is that part of what the filter selects, and [Count]
    counts all of it. *)
Theorem listing_is_a_page order filter s pg :
  0 <= pg_Offset pg -> 0 <= pg_Limit pg ->
  ListDocuments order filter (Some pg) s =
    Ret (take (Z.to_nat (pg_Limit pg)) (drop (Z.to_nat (pg_Offset pg)) (selected_documents order filter s))) /\
  CountDocuments order filter s = Z.of_nat (length (selected_documents order filter s)).
Proof.
  intros Ho Hl. split; [|done]. unfold ListDocuments, document_page. set (l := selected_documents order filter s).
  destruct (Z.leb_spec (Z.of_nat (length l)) (pg_Offset pg)); [by rewrite (drop_ge l), take_nil by lia|].
  rewrite (proj2 (Z.leb_le 0 _)) by done. cbn [andb].
  destruct (Z.ltb_spec (Z.of_nat (length l)) (pg_Offset pg + pg_Limit pg)).
  - rewrite (proj2 (Z.leb_le _ _)) by lia. rewrite !take_ge by (rewrite length_drop; lia). done.
  - rewrite (proj2 (Z.leb_le _ _)) by lia. do 2 f_equal. lia.
Qed.

(** A filter with a tenant lists that tenant's documents only. *)
Theorem listing_stays_within_the_tenant order f pagination s l p :
  fl_TenantID f <> EmptyString -> ListDocuments order (Some f) pagination s = Ret l -> p ∈ l ->
  exists doc, ms_heap s !! p = Some doc /\ dm_TenantID doc = fl_TenantID f.
Proof.
  intros Ht Hl Hp. assert (Hin : p ∈ selected_documents order (Some f) s).
  { unfold ListDocuments, document_page in Hl. destruct pagination; [|by simplify_eq]. repeat case_match; simplify_eq; [by apply elem_of_nil in Hp| |].
    all: by eapply sublist_elem_of; [|exact Hp]; etrans; [apply sublist_take|apply sublist_drop]. }
  apply selected_in in Hin as (id & doc & _ & _ & Hd & Hf). exists doc. split; [done|]. unfold passes_filter in Hf. bool_hyps.
  destruct (String.eqb_spec (fl_TenantID f) EmptyString); [done|]. by destruct (String.eqb_spec (dm_TenantID doc) (fl_TenantID f)).
Qed.

(** The metadata of a filter changes nothing. *)
Theorem metadata_is_not_filtered f m doc :
  passes_filter (Some (mkFilter (fl_TenantID f) (fl_IDs f) (fl_Types f) (fl_Status f) m (fl_Search f))) doc = passes_filter (Some f) doc.
Proof. done. Qed.

Definition document (id tenant : string) (m : option (gmap string string)) : StoredDocument :=
  mkDocument id EmptyString EmptyString 0 EmptyString EmptyString 0 0 tenant m 0 0.

Definition one_document : DocumentStore := fst (CreateDocument 0 7 (mkDocumentStore [document "d" "acme" None] ∅)).

Example document_without_the_metadata_is_listed :
  ListDocuments ["d"] (Some (mkFilter EmptyString [] [] [] {["kind" := "invoice"]} EmptyString)) None one_document = Ret [0%nat].
Proof. vm_compute. reflexivity. Qed.

Example negative_offset_panics : ListDocuments ["d"] None (Some (mkPagination (-1) 5)) one_document = Panic "slice bounds out of range".
Proof. vm_compute. reflexivity. Qed.

(** What [Get] hands out is the stored document: a caller moves it to another
    tenant without a call to the store. *)
Example callers_change_the_stored_document :
  document_at (write_document 0 (fun d => mkDocument (dm_ID d) EmptyString EmptyString 0 EmptyString EmptyString 0 0 "other" None 0 0) one_document) "d"
    <> document_at one_document "d".
Proof. vm_compute. discriminate. Qed.

(** An update through another pointer forgets when the document was created. *)
Example update_forgets_the_creation :
  let s := fst (UpdateDocument 1 9 (mkDocumentStore (ms_heap one_document ++ [document "d" "acme" None]) (ms_docs one_document))) in
  option_map dm_CreatedAt (document_at one_document "d") = Some 7 /\ option_map dm_CreatedAt (document_at s "d") = Some 0.
Proof. vm_compute. by split. Qed.

(** ** Cache and objects *)

(** A cached value is there until the second of its expiration is over, and not
    after. *)
Theorem cached_value_lives_its_time key data expiration now later s :
  second <= unix_nano now -> 0 < expiration ->
  GetCache key later (fst (SetCache key (Some data) expiration now s)) =
    if (unix_nano now + expiration) / second <? unix_nano later / second then Err (Expired key) else Ok data.
Proof.
  intros Hn He. unfold SetCache. rewrite (proj2 (Z.ltb_lt 0 expiration)) by done. cbn [fst]. unfold GetCache. rewrite lookup_insert_eq.
  unfold stale. cbn [ci_expiration ci_value].
  assert (0 < (unix_nano now + expiration) / second) by (apply Z.div_str_pos; unfold second in *; lia).
  by rewrite (proj2 (Z.ltb_lt _ _)) by done.
Qed.

(** Expiration is by the second: what was to live a nanosecond is there until
    the second is over. *)
Example short_lived_value_stays :
  let s := fst (SetCache "k" (Some "v") 1 (Time 5000000000 0) ∅) in GetCache "k" (Time 5999999999 0) s = Ok "v" /\ GetCache "k" (Time 6000000000 0) s = Err (Expired "k").
Proof. vm_compute. by split. Qed.

Theorem cache_agrees key now s : CacheExists key now s = is_ok (GetCache key now s).
Proof. unfold CacheExists, GetCache. destruct (s !! key); [|done]. by destruct (stale now c). Qed.

(** An object is read back as it was put; of the others nothing changes. *)
Theorem put_object_is_read path data metadata now s path' :
  let s' := fst (PutObject path (Some data) metadata now s) in
  GetObject path s' = Ok data /\ GetObjectMetadata path s' = Ok metadata /\ ObjectExists path s' = true /\
  (path' <> path -> GetObject path' s' = GetObject path' s) /\
  GetObject path (fst (DeleteObject path s')) = Err (NotFound path).
Proof.
  unfold GetObject, GetObjectMetadata, ObjectExists, DeleteObject, PutObject. cbn [fst]. rewrite !lookup_insert_eq. cbn. rewrite lookup_delete_eq.
  split_and!; try done. intros Hn. by rewrite lookup_insert_ne.
Qed.

(** A listing has the paths with the prefix and no others. *)
Theorem listing_has_the_prefix order pre s i :
  (forall path, path ∈ order <-> is_Some (s !! path)) ->
  i ∈ ListObjects order pre s <-> exists path o, s !! path = Some o /\ i = info_of path o /\ (pre = EmptyString \/ HasPrefix path pre = true).
Proof.
  intros Ho. unfold ListObjects. rewrite list_elem_of_omap. split.
  - intros (path & _ & H). apply bind_Some in H as (o & Hs & H). case_match eqn:Hp; simplify_eq. exists path, o. split_and!; [done..|].
    apply orb_prop in Hp as [Hp%String.eqb_eq|Hp]; auto.
  - intros (path & o & Hs & -> & Hp). exists path. split; [apply Ho; by eexists|]. rewrite Hs. cbn.
    destruct Hp as [->|Hp]; [done|]. by rewrite Hp, orb_true_r.
Qed.

(** The in-memory vector store: internal/storage/vector/memory.go, index.go and
    the types of interface.go.

    A call under the store's mutex is one step.  The order in which Go walks a
    map is an argument, [sort] is any function with the contract of
    [sort.Slice]; a vector is taken as it was when it was added, though the
    caller keeps the pointer. *)

Record Index := mkIndex { ix_Name : string; ix_Dimension : Z; ix_Distance : string; ix_Metadata : option (gmap string string) }.

Record Vector := mkVector { vc_ID : string; vc_Values : list float; vc_Metadata : option (gmap string string) }.

Record SearchOptions := mkSearchOptions {
  so_TopK : Z; so_Filter : gmap string string; so_Threshold : float; so_IncludeVectors : bool;
}.

Record SearchResult := mkSearchResult {
  sr_ID : string; sr_Score : float; sr_Metadata : option (gmap string string); sr_Values : option (list float);
}.

(** An index of the store. *)
Record index := mkIndexState { in_index : Index; in_vectors : gmap string Vector; in_dimension : Z }.

Abbreviation VectorStore := (gmap string index).

Inductive vector_error :=
| IndexExists (name : string)
| IndexNotFound (name : string)
| VectorNotFound (id : string)
| VectorDimension (got want : Z)
| QueryDimension (got want : Z).

Definition NewVectorStore : VectorStore := ∅.

Definition CreateIndex (idx : Index) (s : VectorStore) : VectorStore * option vector_error :=
  match s !! ix_Name idx with
  | Some _ => (s, Some (IndexExists (ix_Name idx)))
  | None => (<[ix_Name idx := mkIndexState idx ∅ (ix_Dimension idx)]> s, None)
  end.

Definition dim (values : list float) : Z := Z.of_nat (length values).

(** The loop over the vectors; a nil pointer panics.  What was put in before an
    error stays. *)
Fixpoint add_vectors (dimension : Z) (vectors : list (option Vector)) (m : gmap string Vector) : gmap string Vector * outcome (option vector_error) :=
  match vectors with
  | [] => (m, Ret None)
  | None :: _ => (m, Panic "invalid memory address or nil pointer dereference")
  | Some v :: vectors =>
      if dim (vc_Values v) =? dimension then add_vectors dimension vectors (<[vc_ID v := v]> m)
      else (m, Ret (Some (VectorDimension (dim (vc_Values v)) dimension)))
  end.

Definition AddVectors (indexName : string) (vectors : list (option Vector)) (s : VectorStore) : VectorStore * outcome (option vector_error) :=
  match s !! indexName with
  | None => (s, Ret (Some (IndexNotFound indexName)))
  | Some idx =>
      let '(m, r) := add_vectors (in_dimension idx) vectors (in_vectors idx) in
      (<[indexName := mkIndexState (in_index idx) m (in_dimension idx)]> s, r)
  end.

(** ** Similarity *)

(** [for i := range a]: past the end of [b] it panics, which the test of the
    lengths rules out. *)
Definition cosine_of (a b : list float) : float :=
  if negb (Nat.eqb (length a) (length b)) then of_int 0
  else
    let '(dotProduct, normA, normB) :=
      foldl (fun '(d, na, nb) '(x, y) => (float_add d (float_mul x y), float_add na (float_mul x x), float_add nb (float_mul y y)))
        (of_int 0, of_int 0, of_int 0) (zip a b) in
    if float_eq normA (of_int 0) || float_eq normB (of_int 0) then of_int 0
    else float_div dotProduct (float_mul (Sqrt normA) (Sqrt normB)).

Definition euclideanDistance (a b : list float) : float :=
  if negb (Nat.eqb (length a) (length b)) then of_int 0
  else Sqrt (foldl (fun sum '(x, y) => let diff := float_sub x y in float_add sum (float_mul diff diff)) (of_int 0) (zip a b)).

Definition manhattanDistance (a b : list float) : float :=
  if negb (Nat.eqb (length a) (length b)) then of_int 0
  else foldl (fun sum '(x, y) => float_add sum (float_abs (float_sub x y))) (of_int 0) (zip a b).

Definition calculateSimilarity (query vector : list float) (distance : string) : float :=
  if String.eqb distance "cosine" then cosine_of query vector
  else if String.eqb distance "euclidean" then float_div (of_int 1) (float_add (of_int 1) (euclideanDistance query vector))
  else if String.eqb distance "manhattan" then float_div (of_int 1) (float_add (of_int 1) (manhattanDistance query vector))
  else cosine_of query vector.

(** ** Search *)

Definition default_search : SearchOptions := mkSearchOptions 10 ∅ (of_int 0) false.

(** [vector.Metadata == nil || vector.Metadata[key] != value] for no entry of
    the filter: a missing key reads as the empty string. *)
Definition matches_filter (filter : gmap string string) (metadata : option (gmap string string)) : bool :=
  forallb (fun '(key, value) => match metadata with None => false | Some m => String.eqb (get_default EmptyString m key) value end)
    (map_to_list filter).

Definition result_for (query : list float) (opts : SearchOptions) (idx : index) (id : string) : option SearchResult :=
  match in_vectors idx !! id with
  | None => None
  | Some vector =>
      if matches_filter (so_Filter opts) (vc_Metadata vector) then
        let score := calculateSimilarity query (vc_Values vector) (ix_Distance (in_index idx)) in
        if float_lt score (so_Threshold opts) then None
        else Some (mkSearchResult id score (vc_Metadata vector) (if so_IncludeVectors opts then Some (vc_Values vector) else None))
      else None
  end.

Definition higher_score (a b : SearchResult) : bool := float_lt (sr_Score b) (sr_Score a).

Section Search.
Context (sort : forall A : Type, (A -> A -> bool) -> list A -> list A).

Definition search_index (order : list string) (idx : index) (query : list float) (opts : SearchOptions) : outcome (list SearchResult) :=
  let results := sort _ higher_score (omap (result_for query opts idx) order) in
  if so_TopK opts <? Z.of_nat (length results)
  then if so_TopK opts <? 0 then Panic "slice bounds out of range" else Ret (take (Z.to_nat (so_TopK opts)) results)
  else Ret results.

Definition SearchVectors (order : list string) (indexName : string) (query : list float) (options : option SearchOptions) (s : VectorStore)
  : outcome (result vector_error (list SearchResult)) :=
  match s !! indexName with
  | None => Ret (Err (IndexNotFound indexName))
  | Some idx =>
      if dim query =? in_dimension idx then
        run results <- search_index order idx query (default default_search options);; Ret (Ok results)
      else Ret (Err (QueryDimension (dim query) (in_dimension idx)))
  end.
End Search.

Definition GetVector (indexName id : string) (s : VectorStore) : result vector_error Vector :=
  match s !! indexName with
  | None => Err (IndexNotFound indexName)
  | Some idx => match in_vectors idx !! id with Some v => Ok v | None => Err (VectorNotFound id) end
  end.

Definition DeleteVector (indexName id : string) (s : VectorStore) : VectorStore * option vector_error :=
  match s !! indexName with
  | None => (s, Some (IndexNotFound indexName))
  | Some idx =>
      match in_vectors idx !! id with
      | None => (s, Some (VectorNotFound id))
      | Some _ => (<[indexName := mkIndexState (in_index idx) (delete id (in_vectors idx)) (in_dimension idx)]> s, None)
      end
  end.

Definition DeleteIndex (indexName : string) (s : VectorStore) : VectorStore * option vector_error :=
  match s !! indexName with None => (s, Some (IndexNotFound indexName)) | Some _ => (delete indexName s, None) end.

(** The names, in the order of [order]. *)
Definition ListIndexes (order : list string) (s : VectorStore) : list string := filter (fun n => is_Some (s !! n)) order.

(** Two calls: others may come in between. *)
Definition EnsureIndex (listed : list string) (name : string) (dimension : Z) (distance : string) (s : VectorStore) : VectorStore * option vector_error :=
  let distance := if String.eqb distance EmptyString then "cosine" else distance in
  if existsb (String.eqb name) listed then (s, None) else CreateIndex (mkIndex name dimension distance None) s.

(** ** The store *)

(** The state between calls. *)
Definition sized_index (name : string) (idx : index) : Prop :=
  ix_Name (in_index idx) = name /\ in_dimension idx = ix_Dimension (in_index idx) /\
  map_Forall (fun id v => vc_ID v = id /\ dim (vc_Values v) = in_dimension idx) (in_vectors idx).

Definition sized (s : VectorStore) : Prop := map_Forall sized_index s.

Lemma add_vectors_sized dimension vectors m :
  map_Forall (fun id v => vc_ID v = id /\ dim (vc_Values v) = dimension) m ->
  map_Forall (fun id v => vc_ID v = id /\ dim (vc_Values v) = dimension) (fst (add_vectors dimension vectors m)).
Proof.
  revert m. induction vectors as [|[v|] vectors IH]; intros m Hm; cbn [add_vectors]; [done| |done].
  destruct (Z.eqb_spec (dim (vc_Values v)) dimension); [|done]. apply IH. by apply map_Forall_insert_2.
Qed.

Inductive store_call :=
| CallCreate (idx : Index) | CallAdd (indexName : string) (vectors : list (option Vector))
| CallDelete (indexName id : string) | CallDeleteIndex (indexName : string).

Definition call_store (c : store_call) (s : VectorStore) : VectorStore :=
  match c with
  | CallCreate idx => fst (CreateIndex idx s)
  | CallAdd indexName vectors => fst (AddVectors indexName vectors s)
  | CallDelete indexName id => fst (DeleteVector indexName id s)
  | CallDeleteIndex indexName => fst (DeleteIndex indexName s)
  end.

(** Every vector of an index has the index's dimension and stands under its own
    identifier, whatever calls came before and however they ended. *)
Theorem vectors_fit_their_index calls : sized (foldl (fun s c => call_store c s) NewVectorStore calls).
Proof.
  assert (Hstep : forall c s, sized s -> sized (call_store c s)).
  { intros c s Hs. destruct c as [idx|name vs|name id|name]; cbn [call_store].
    - unfold CreateIndex. case_match; [done|]. apply map_Forall_insert_2; [|done]. split_and!; [done..|apply map_Forall_empty].
    - unfold AddVectors. destruct (s !! name) as [idx|] eqn:Hi; [|done]. destruct (Hs name idx Hi) as (Hn & Hd & Hv).
      pose proof (add_vectors_sized _ vs _ Hv) as Hm. destruct (add_vectors _ _ _) as [m r]. by apply map_Forall_insert_2.
    - unfold DeleteVector. destruct (s !! name) as [idx|] eqn:Hi; [|done]. destruct (Hs name idx Hi) as (Hn & Hd & Hv).
      case_match; [|done]. apply map_Forall_insert_2; [|done]. split_and!; [done..|]. by apply map_Forall_delete.
    - unfold DeleteIndex. case_match; [|done]. by apply map_Forall_delete. }
  assert (Hall : forall s, sized s -> sized (foldl (fun s c => call_store c s) s calls)).
  { induction calls as [|c calls IH]; intros s Hs; [done|]. apply IH, Hstep, Hs. }
  apply Hall, map_Forall_empty.
Qed.

(** An [Add] that meets a vector of the wrong size reports it, and the vectors
    before it stay. *)
Theorem failed_add_keeps_the_first indexName idx before v after s :
  s !! indexName = Some idx -> Forall (fun v => dim (vc_Values v) = in_dimension idx) before -> dim (vc_Values v) <> in_dimension idx ->
  AddVectors indexName (map Some before ++ Some v :: after) s =
  (<[indexName := mkIndexState (in_index idx) (foldl (fun m v => <[vc_ID v := v]> m) (in_vectors idx) before) (in_dimension idx)]> s,
   Ret (Some (VectorDimension (dim (vc_Values v)) (in_dimension idx)))).
Proof.
  intros Hi Hb Hv. unfold AddVectors. rewrite Hi. assert (Ha : forall m, add_vectors (in_dimension idx) (map Some before ++ Some v :: after) m =
    (foldl (fun m v => <[vc_ID v := v]> m) m before, Ret (Some (VectorDimension (dim (vc_Values v)) (in_dimension idx))))).
  { induction Hb as [|w before Hw _ IH]; intros m; cbn [map app add_vectors foldl].
    - by rewrite (proj2 (Z.eqb_neq _ _)).
    - by rewrite (proj2 (Z.eqb_eq _ _)). }
  by rewrite Ha.
Qed.

Theorem added_vector_is_found indexName idx v s :
  s !! indexName = Some idx -> dim (vc_Values v) = in_dimension idx ->
  let s' := fst (AddVectors indexName [Some v] s) in
  GetVector indexName (vc_ID v) s' = Ok v /\
  GetVector indexName (vc_ID v) (fst (DeleteVector indexName (vc_ID v) s')) = Err (VectorNotFound (vc_ID v)).
Proof.
  intros Hi Hv. unfold AddVectors. rewrite Hi. cbn [add_vectors]. rewrite (proj2 (Z.eqb_eq _ _)) by done. cbn [fst].
  unfold GetVector, DeleteVector. rewrite !lookup_insert_eq. cbn. rewrite !lookup_insert_eq. cbn [fst]. rewrite lookup_insert_eq. cbn.
  by rewrite lookup_delete_eq.
Qed.

(** ** What a search answers *)

Lemma better_weak_order l : Forall (fun r => is_nan (sr_Score r) = false) l -> weak_order higher_score l.
Proof.
  intros Hl. rewrite Forall_forall in Hl. split.
  - intros a b _ _. apply float_lt_asym.
  - intros a b c Ha Hb Hc Hab Hbc. unfold higher_score in *.
    by apply (float_lt_negtrans _ (sr_Score b)); [by apply Hl..| |].
Qed.

Section Search_facts.
Context sort `{!SliceSort sort} (order : list string) (idx : index) (query : list float) (opts : SearchOptions).

(** The vectors that qualify, and a first part of them. *)
Definition qualifies (r : SearchResult) : Prop := exists id, id ∈ order /\ result_for query opts idx id = Some r.

Hypothesis Hnumbers : forall r, qualifies r -> is_nan (sr_Score r) = false.

Lemma sorted_results :
  let l := sort _ higher_score (omap (result_for query opts idx) order) in ascending higher_score l /\ forall r, r ∈ l <-> qualifies r.
Proof.
  assert (Hq : forall r, r ∈ omap (result_for query opts idx) order <-> qualifies r).
  { intros r. rewrite list_elem_of_omap. reflexivity. }
  split.
  - apply sort_ascending, better_weak_order, Forall_forall. intros r Hr. by apply Hnumbers, Hq.
  - intros r. by rewrite sort_perm, Hq.
Qed.

(** With scores that are numbers, a search answers the best of the vectors that
    match the filter and reach the threshold, best first, at most [TopK] of
    them; one that is left out is no higher_score than any that is not. *)
Lemma search_index_best results :
  search_index sort order idx query opts = Ret results ->
  ascending higher_score results /\ (forall r, r ∈ results -> qualifies r) /\
  (0 <= so_TopK opts -> Z.of_nat (length results) <= so_TopK opts) /\
  (forall r, qualifies r -> r ∈ results \/ (Z.of_nat (length results) = so_TopK opts /\ forall r', r' ∈ results -> higher_score r r' = false)).
Proof.
  destruct sorted_results as [Hs Hq]. unfold search_index. set (l := sort _ higher_score _) in *.
  destruct (Z.ltb_spec (so_TopK opts) (Z.of_nat (length l))) as [Hcut|Hfit].
  - destruct (Z.ltb_spec (so_TopK opts) 0) as [|Hk]; [done|]. intros [= <-]. rewrite length_take.
    assert (Hsplit : l = take (Z.to_nat (so_TopK opts)) l ++ drop (Z.to_nat (so_TopK opts)) l) by by rewrite take_drop.
    rewrite Hsplit in Hs. apply StronglySorted_app in Hs as (Hcross & Hs & _). split_and!; [done| |lia|].
    + intros r Hr. apply Hq. rewrite Hsplit. apply elem_of_app. by left.
    + intros r Hr. apply Hq in Hr. rewrite Hsplit in Hr. apply elem_of_app in Hr as [Hr|Hr]; [by left|right]. split; [lia|].
      intros r' Hr'. by apply Hcross.
  - intros [= <-]. split_and!; [done|by intros r ?%Hq|lia|]. intros r Hr. left. by apply Hq.
Qed.
End Search_facts.

(** A search of a store with numbers only: an answer, of the vectors of that
    index, ranked as [search_index_best] says. *)
Theorem search_answers_the_best sort `{!SliceSort sort} order s indexName idx query opts :
  s !! indexName = Some idx -> dim query = in_dimension idx -> 0 <= so_TopK opts ->
  (forall id, id ∈ order <-> is_Some (in_vectors idx !! id)) ->
  (forall r, qualifies order idx query opts r -> is_nan (sr_Score r) = false) ->
  exists results, SearchVectors sort order indexName query (Some opts) s = Ret (Ok results) /\
    ascending higher_score results /\ Z.of_nat (length results) <= so_TopK opts /\
    (forall r, r ∈ results -> exists v, in_vectors idx !! sr_ID r = Some v /\ matches_filter (so_Filter opts) (vc_Metadata v) = true) /\
    (forall id v, in_vectors idx !! id = Some v -> matches_filter (so_Filter opts) (vc_Metadata v) = true ->
       let score := calculateSimilarity query (vc_Values v) (ix_Distance (in_index idx)) in
       float_lt score (so_Threshold opts) = false ->
       (exists r, r ∈ results /\ sr_ID r = id) \/ forall r, r ∈ results -> float_lt (sr_Score r) score = false).
Proof.
  intros Hi Hd Hk Ho Hn. unfold SearchVectors. rewrite Hi, Hd, Z.eqb_refl. change (default default_search (Some opts)) with opts.
  assert (Hr : exists results, search_index sort order idx query opts = Ret results).
  { unfold search_index. destruct (_ <? _); [|by eexists]. rewrite (proj2 (Z.ltb_ge (so_TopK opts) 0)) by done. by eexists. }
  destruct Hr as [results Hr]. exists results. rewrite Hr.
  destruct (search_index_best sort order idx query opts Hn results Hr) as (Hs & Hq & Hl & Hc). split_and!; [done|done|by apply Hl| |].
  - intros r (id & _ & Hres)%Hq. unfold result_for in Hres. destruct (in_vectors idx !! id) as [v|] eqn:Hv; [|done].
    destruct (matches_filter _ _) eqn:Hm; [|done]. case_match; simplify_eq/=. by exists v.
  - intros id v Hv Hm. set (score := calculateSimilarity query (vc_Values v) (ix_Distance (in_index idx))). cbv zeta. intros Hscore.
    assert (Hres : exists r, result_for query opts idx id = Some r /\ sr_ID r = id /\ sr_Score r = score).
    { unfold result_for. rewrite Hv, Hm. fold score. rewrite Hscore. by eexists. }
    destruct Hres as (r & Hres & Hid & Hsc). destruct (Hc r) as [Hin|[_ Hbest]].
    + exists id. split; [apply Ho; by eexists|done].
    + left. by exists r.
    + right. intros r' Hr'. rewrite <- Hsc. apply Hbest, Hr'.
Qed.

(** ** Boundary cases *)

Definition vec (id : string) (values : list string) : Vector := mkVector id (map const values) (Some ∅).
Definition store_of (distance : string) (dimension : Z) (vectors : list Vector) : VectorStore :=
  fst (AddVectors "i" (map Some vectors) (fst (CreateIndex (mkIndex "i" dimension distance None) NewVectorStore))).
Definition found (r : outcome (result vector_error (list SearchResult))) : option (list (string * float)) :=
  match r with Ret (Ok l) => Some (map (fun r => (sr_ID r, sr_Score r)) l) | _ => None end.

(** A vector is more than similar to itself: the cosine is rounded and not
    bounded. *)
Example similarity_above_one :
  exists score, found (SearchVectors insertion_sort ["a"] "i" (map const ["1"; "1"; "1"]) None (store_of "cosine" 3 [vec "a" ["1"; "1"; "1"]]))
    = Some [("a", score)] /\ float_lt (of_int 1) score = true.
Proof. eexists. vm_compute. by split. Qed.

(** A vector whose squares overflow has no similarity to anything; it passes
    every threshold and breaks the order the sort needs. *)
Example overflowing_vector_passes_the_threshold :
  found (SearchVectors insertion_sort ["a"] "i" (map const ["1e200"]) (Some (mkSearchOptions 5 ∅ (const "0.9") false))
    (store_of "cosine" 1 [vec "a" ["1e200"]])) = Some [("a", NaN)].
Proof. vm_compute. reflexivity. Qed.

Example negative_limit_panics :
  SearchVectors insertion_sort ["a"] "i" (map const ["1"]) (Some (mkSearchOptions (-1) ∅ (of_int 0) false)) (store_of "cosine" 1 [vec "a" ["1"]])
    = Panic "slice bounds out of range".
Proof. vm_compute. reflexivity. Qed.

(** An index that is there with another dimension is taken for the one asked. *)
Example ensured_index_of_another_size :
  let s := store_of "cosine" 1 [] in EnsureIndex (ListIndexes ["i"] s) "i" 3 "cosine" s = (s, None).
Proof. vm_compute. reflexivity. Qed.
