(* ===== verification/Durability.v ===== *)
(** sdk/durability/core/{types,store,runner}.go and
    sdk/durability/idempotent/tool.go: the standalone durable runner with its
    in-memory store, and the idempotent tool wrapper.

    A program is a computation over the store with a budget of store writes
    (Crash.v).  Step functions and tools are parameters; a run of one is
    logged.  [time.Now()] is one reading per
    call of the runner.  A step function gets a copy of the state and is taken
    to leave what it shares with the original alone; the map of completed
    steps, which the in-memory store shares with the runner, is read by
    neither.  Byte slices are strings, [nil] the empty one; the text of an
    error is the error.  A panic ends the computation like a crash.  Reading
    and writing a job, and reading events, fail only with I/O errors, which the
    in-memory store does not produce: the results carry them. *)

From S2P Require Import Prelude GoTime Json Events Crash.

(** ** Types (types.go:47-121, store.go:44-58) *)

Inductive JobState :=
| StateCreated | StateRunning | StateWaiting | StateCompleted | StateFailed | StateCancelled.

#[export] Instance job_state_eq_dec : EqDecision JobState.
Proof. solve_decision. Defined.

Record SEvent := mkSEvent {
  se_ID : string; se_JobID : string; se_Type : string; se_StepID : string; se_Payload : string;
  se_Version : Z; se_CreatedAt : time; se_PrevHash : string; se_Hash : string;
}.

Definition sevent (type stepID payload : string) : SEvent :=
  mkSEvent EmptyString EmptyString type stepID payload 0 zero_time EmptyString EmptyString.

Record Job := mkDJob {
  dj_ID : string;
  dj_Name : string;
  dj_State : JobState;
  dj_Version : Z;
  dj_Input : string;
  dj_Result : string;
  dj_Error : string;
  dj_CreatedAt : time;
  dj_UpdatedAt : time;
  dj_CompletedSteps : option (gmap string string);
}.

Definition set_dj_State (v : JobState) (r : Job) : Job :=
  mkDJob (dj_ID r) (dj_Name r) v (dj_Version r) (dj_Input r) (dj_Result r) (dj_Error r)
    (dj_CreatedAt r) (dj_UpdatedAt r) (dj_CompletedSteps r).
Definition set_dj_Version (v : Z) (r : Job) : Job :=
  mkDJob (dj_ID r) (dj_Name r) (dj_State r) v (dj_Input r) (dj_Result r) (dj_Error r)
    (dj_CreatedAt r) (dj_UpdatedAt r) (dj_CompletedSteps r).
Definition set_dj_Input (v : string) (r : Job) : Job :=
  mkDJob (dj_ID r) (dj_Name r) (dj_State r) (dj_Version r) v (dj_Result r) (dj_Error r)
    (dj_CreatedAt r) (dj_UpdatedAt r) (dj_CompletedSteps r).
Definition set_dj_Result (v : string) (r : Job) : Job :=
  mkDJob (dj_ID r) (dj_Name r) (dj_State r) (dj_Version r) (dj_Input r) v (dj_Error r)
    (dj_CreatedAt r) (dj_UpdatedAt r) (dj_CompletedSteps r).
Definition set_dj_Error (v : string) (r : Job) : Job :=
  mkDJob (dj_ID r) (dj_Name r) (dj_State r) (dj_Version r) (dj_Input r) (dj_Result r) v
    (dj_CreatedAt r) (dj_UpdatedAt r) (dj_CompletedSteps r).
Definition set_dj_UpdatedAt (v : time) (r : Job) : Job :=
  mkDJob (dj_ID r) (dj_Name r) (dj_State r) (dj_Version r) (dj_Input r) (dj_Result r)
    (dj_Error r) (dj_CreatedAt r) v (dj_CompletedSteps r).
Definition set_dj_CompletedSteps (v : option (gmap string string)) (r : Job) : Job :=
  mkDJob (dj_ID r) (dj_Name r) (dj_State r) (dj_Version r) (dj_Input r) (dj_Result r)
    (dj_Error r) (dj_CreatedAt r) (dj_UpdatedAt r) v.

Record Checkpoint := mkCheckpoint {
  ck_JobID : string; ck_StepID : string; ck_State : string; ck_Version : Z; ck_CreatedAt : time;
}.

(** A [map[string]any]; [None] is the nil map where the code can have one. *)
Definition any_map : Type := gmap string json.

Record StepContext := mkStepContext {
  sx_JobID : string; sx_StepID : string; sx_State : any_map; sx_Version : Z;
}.

Record Step := mkStep {
  st_ID : string; st_Name : string;
  st_Fn : StepContext -> any_map -> result string any_map;
  st_MaxRetries : Z; st_RetryDelay : Z;
}.

(** ** The store interface (store.go:14-42) *)

(** A write returns whether it succeeded; [AppendEvent] the version with it. *)
Class Store (S : Type) := {
  AppendEvent : time -> string -> Z -> SEvent -> S -> S * (Z * bool);
  ListEvents : string -> S -> result string (list SEvent);
  SaveJob : Job -> S -> S * bool;
  LoadJob : string -> S -> result string (option Job);
  SaveCheckpoint : time -> string -> string -> string -> Z -> S -> S * bool;
  LoadCheckpoint : string -> S -> result string (option Checkpoint);
}.

(** What the interface's comments promise, over three views of the store. *)
Definition stored_event (now : time) (jobID : string) (version : Z) (e : SEvent) : SEvent :=
  mkSEvent (if String.eqb (se_ID e) EmptyString then jobID +:+ "-" +:+ itoa version else se_ID e) jobID
    (se_Type e) (se_StepID e) (se_Payload e) version
    (if is_zero (se_CreatedAt e) then now else se_CreatedAt e) (se_PrevHash e) (se_Hash e).

Record views := mkViews {
  v_jobs : gmap string Job; v_events : gmap string (list SEvent); v_checkpoints : gmap string Checkpoint;
}.

Definition append_view now (jobID : string) (expectedVersion : Z) (e : SEvent) (v : views) : views * (Z * bool) :=
  let current := get_default [] (v_events v) jobID in
  let n := Z.of_nat (length current) in
  if negb (n =? expectedVersion) then (v, (n, false))
  else (mkViews (v_jobs v) (<[jobID := current ++ [stored_event now jobID (n + 1) e]]> (v_events v))
          (v_checkpoints v), (n + 1, true)).

Class StoreSpec (S : Type) `{Store S} (view : S -> views) := {
  append_spec now j ver e s :
    (view (fst (AppendEvent now j ver e s)), snd (AppendEvent now j ver e s)) = append_view now j ver e (view s);
  list_spec j s : ListEvents j s = Ok (get_default [] (v_events (view s)) j);
  save_job_spec job s :
    view (fst (SaveJob job s)) = mkViews (<[dj_ID job := job]> (v_jobs (view s))) (v_events (view s)) (v_checkpoints (view s))
    /\ snd (SaveJob job s) = true;
  load_job_spec j s : LoadJob j s = Ok (v_jobs (view s) !! j);
  save_checkpoint_spec now j st data ver s :
    view (fst (SaveCheckpoint now j st data ver s))
    = mkViews (v_jobs (view s)) (v_events (view s)) (<[j := mkCheckpoint j st data ver now]> (v_checkpoints (view s)))
    /\ snd (SaveCheckpoint now j st data ver s) = true;
  load_checkpoint_spec j s : LoadCheckpoint j s = Ok (v_checkpoints (view s) !! j);
}.

(** ** The in-memory store (store.go:62-174) *)

Record MemoryStore := mkMemoryStore {
  ms_jobs : gmap string Job; ms_events : gmap string (list SEvent); ms_checkpoints : gmap string Checkpoint;
}.

Definition NewMemoryStore : MemoryStore := mkMemoryStore ∅ ∅ ∅.

Definition Memory_AppendEvent (now : time) (jobID : string) (expectedVersion : Z) (event : SEvent)
    (s : MemoryStore) : MemoryStore * (Z * bool) :=
  let current := get_default [] (ms_events s) jobID in
  if negb (Z.of_nat (length current) =? expectedVersion)
  then (s, (Z.of_nat (length current), false))
  else
    let version := Z.of_nat (length current) + 1 in
    let created := if is_zero (se_CreatedAt event) then now else se_CreatedAt event in
    let id := if String.eqb (se_ID event) EmptyString then jobID +:+ "-" +:+ itoa version else se_ID event in
    let e := mkSEvent id jobID (se_Type event) (se_StepID event) (se_Payload event) version created
               (se_PrevHash event) (se_Hash event) in
    (mkMemoryStore (ms_jobs s) (<[jobID := current ++ [e]]> (ms_events s)) (ms_checkpoints s), (version, true)).

Definition Memory_SaveJob (job : Job) (s : MemoryStore) : MemoryStore :=
  mkMemoryStore (<[dj_ID job := job]> (ms_jobs s)) (ms_events s) (ms_checkpoints s).

Definition Memory_SaveCheckpoint (now : time) (jobID stepID state : string) (version : Z) (s : MemoryStore)
    : MemoryStore :=
  mkMemoryStore (ms_jobs s) (ms_events s)
    (<[jobID := mkCheckpoint jobID stepID state version now]> (ms_checkpoints s)).

Definition Memory_ListEvents (j : string) (s : MemoryStore) : list SEvent := get_default [] (ms_events s) j.
Definition Memory_LoadJob (j : string) (s : MemoryStore) : option Job := ms_jobs s !! j.
Definition Memory_LoadCheckpoint (j : string) (s : MemoryStore) : option Checkpoint := ms_checkpoints s !! j.

#[export] Instance memory_store : Store MemoryStore := {
  AppendEvent := Memory_AppendEvent;
  ListEvents j s := Ok (Memory_ListEvents j s);
  SaveJob job s := (Memory_SaveJob job s, true);
  LoadJob j s := Ok (Memory_LoadJob j s);
  SaveCheckpoint now j st data ver s := (Memory_SaveCheckpoint now j st data ver s, true);
  LoadCheckpoint j s := Ok (Memory_LoadCheckpoint j s);
}.

#[export] Instance memory_store_spec :
  StoreSpec MemoryStore (fun s => mkViews (ms_jobs s) (ms_events s) (ms_checkpoints s)).
Proof.
  constructor; try done. intros now j ver e s. cbn. unfold Memory_AppendEvent, append_view. cbn.
  by destruct (negb _).
Qed.

(** ** State encoding *)

(** [json.Marshal] of the map: a nil one is [null]. *)
Definition map_text (st : any_map) : string := print (JObj (map_to_list st)).
Definition state_bytes (st : option any_map) : string :=
  match st with Some st => map_text st | None => "null" end.

(** [json.Unmarshal] into a map that is nil: [None] an error, [Some None] the
    map stays nil. *)
Definition decode_state (data : string) : option (option any_map) :=
  match unmarshal data with
  | Some (JObj l) => Some (Some (list_to_map (rev l)))
  | Some JNull => Some None
  | _ => None
  end.

(** A stored result, decoded with the error ignored. *)
Definition stored_result (data : string) : option any_map :=
  match data with EmptyString => None | _ => default None (decode_state data) end.

(** [keys]: the order is the map's. *)
Definition output_keys (m : any_map) : string :=
  obj_text [("output_keys", print (JArr (map JStr (map fst (map_to_list m)))))].

(** ** The runner (runner.go) *)

Record env := mkEnv { env_now : time; env_cancelled : string -> nat -> bool }.

Inductive exec_result :=
| Returned (st : option any_map)     (* a nil map when there is no result *)
| Failure (msg : string).

Definition mismatch : string := "durability: version mismatch on append".

Section runner.
Context {S : Type} `{Store S}.

Definition Start (now : time) (name : string) (input : option any_map) : prog S (result string Job) :=
  let jobID := "job-" +:+ name +:+ "-" +:+ itoa (unix_nano now) in
  let job := mkDJob jobID name StateCreated 0 (match input with Some m => map_text m | None => EmptyString end)
               EmptyString EmptyString now now (Some ∅) in
  do ok <- write (SaveJob job) ;;
  if negb ok then ret (Err "durability: save job: ")
  else
    do r <- write (AppendEvent now jobID 0 (sevent "job_created" EmptyString (obj_text (m_str "name" name)))) ;;
    if negb (snd r) then ret (Err ("durability: append job_created: " +:+ mismatch))
    else
      let job := set_dj_UpdatedAt now (set_dj_Version (fst r) job) in
      do ok <- write (SaveJob job) ;;
      if negb ok then ret (Err "durability: save job version: ") else ret (Ok job).

(** The outcome of one step's attempts. *)
Inductive attempts_result :=
| StepOk (r : any_map)
| StepErr (msg : string)
| StepCancelled.

(** Lines 183-218 from attempt [max - left] on. *)
Fixpoint try_step (ev : env) (jobID : string) (stp : Step) (st : any_map) (max left : nat) (ver : Z)
    : prog S (Z * attempts_result) :=
  match left with
  | O => ret (ver, StepErr EmptyString)
  | Datatypes.S l =>
      let attempt := (max - left)%nat in
      if (0 <? attempt)%nat && (0 <? st_RetryDelay stp) && env_cancelled ev (st_ID stp) attempt
      then ret (ver, StepCancelled)
      else
        do _ <- executed (st_ID stp) ;;
        match st_Fn stp (mkStepContext jobID (st_ID stp) st ver) st with
        | Ok r => ret (ver, StepOk r)
        | Err e =>
            match l with
            | O => ret (ver, StepErr e)
            | _ =>
                do r <- write (AppendEvent (env_now ev) jobID ver (sevent "step_retried" (st_ID stp)
                         (obj_text (m_int "attempt" (Z.of_nat attempt + 1) ++ m_str "error" e
                                    ++ m_int "max_retries" (Z.of_nat max))))) ;;
                try_step ev jobID stp st max l (fst r)
            end
        end
  end.

Definition attempts (stp : Step) : nat :=
  if st_MaxRetries stp <=? 0 then 1%nat else Z.to_nat (st_MaxRetries stp).

(** The loop at line 238: a write to a nil map panics. *)
Definition merge (res : any_map) (st : option any_map) : prog S (option any_map) :=
  match st with
  | Some st => ret (Some (res ∪ st))
  | None => if decide (res = ∅) then ret None else panic
  end.

(** One step of the loop, lines 160-270: the job and state after it, or the
    error returned. *)
Definition run_step (ev : env) (stp : Step) (job : Job) (st : option any_map)
    : prog S (result string (Job * option any_map)) :=
  let jobID := dj_ID job in
  let now := env_now ev in
  do r <- write (AppendEvent now jobID (dj_Version job)
           (sevent "step_started" (st_ID stp) (obj_text (m_str "step_name" (st_Name stp))))) ;;
  if negb (snd r) then ret (Err ("durability: append step_started: " +:+ mismatch))
  else
    do t <- try_step ev jobID stp (default ∅ st) (attempts stp) (attempts stp) (fst r) ;;
    match snd t with
    | StepCancelled => ret (Err "context canceled")
    | StepErr e =>
        do f <- write (AppendEvent now jobID (fst t)
                 (sevent "step_failed" (st_ID stp) (obj_text (m_str "error" e)))) ;;
        do _ <- write (SaveJob (set_dj_UpdatedAt now (set_dj_Error e (set_dj_State StateFailed
                          (set_dj_Version (fst f) job))))) ;;
        ret (Err ("durability: step " +:+ st_ID stp +:+ " failed: " +:+ e))
    | StepOk res =>
        do st' <- merge res st ;;
        do f <- write (AppendEvent now jobID (fst t) (sevent "step_finished" (st_ID stp) (output_keys res))) ;;
        do ok <- write (SaveCheckpoint now jobID (st_ID stp) (state_bytes st') (fst f)) ;;
        if negb ok then ret (Err "durability: save checkpoint: ")
        else
          do c <- write (AppendEvent now jobID (fst f) (sevent "checkpoint_saved" (st_ID stp) EmptyString)) ;;
          match dj_CompletedSteps job with
          | None => panic
          | Some done =>
              let job' := set_dj_UpdatedAt now (set_dj_CompletedSteps
                            (Some (<[st_ID stp := state_bytes st']> done)) (set_dj_Version (fst c) job)) in
              do ok <- write (SaveJob job') ;;
              if negb ok then ret (Err "durability: save job progress: ") else ret (Ok (job', st'))
          end
    end.

Fixpoint run_steps (ev : env) (steps : list Step) (job : Job) (st : option any_map)
    : prog S (result string (Job * option any_map)) :=
  match steps with
  | [] => ret (Ok (job, st))
  | stp :: rest =>
      do r <- run_step ev stp job st ;;
      match r with
      | Ok (job', st') => run_steps ev rest job' st'
      | Err e => ret (Err e)
      end
  end.

(** The steps after the checkpoint's, all of them when it names none. *)
Definition resume_steps (steps : list Step) (stepID : string) : list Step :=
  match list_find (fun s => st_ID s = stepID) steps with
  | Some (i, _) => drop (Datatypes.S i) steps
  | None => steps
  end.

(** Lines 142-148: a nil state is the job's input, the empty map when the
    input does not decode; the input [null] leaves it nil. *)
Definition initial_state (st : option any_map) (input : string) : option any_map :=
  match st with
  | Some st => Some st
  | None => match input with
            | EmptyString => Some ∅
            | _ => default (Some ∅) (decode_state input)
            end
  end.

(** Lines 151-289. *)
Definition execute_from (ev : env) (steps : list Step) (job : Job) (st : option any_map) : prog S exec_result :=
  let now := env_now ev in
  let job := set_dj_UpdatedAt now (set_dj_State StateRunning job) in
  do ok <- write (SaveJob job) ;;
  if negb ok then ret (Failure "durability: save job running: ")
  else
    do r <- run_steps ev steps job st ;;
    match r with
    | Err e => ret (Failure e)
    | Ok (job, st) =>
        do ok <- write (SaveJob (set_dj_UpdatedAt now (set_dj_Result (state_bytes st)
                         (set_dj_State StateCompleted job)))) ;;
        if negb ok then ret (Failure "durability: save job completed: ")
        else
          do _ <- write (AppendEvent now (dj_ID job) (dj_Version job)
                          (sevent "job_completed" EmptyString (output_keys (default ∅ st)))) ;;
          ret (Returned st)
    end.

Definition Execute (ev : env) (jobID : string) (steps : list Step) : prog S exec_result :=
  do lj <- read (LoadJob jobID) ;;
  match lj with
  | Err e => ret (Failure ("durability: load job: " +:+ e))
  | Ok None => ret (Failure "durability: job not found")
  | Ok (Some job) =>
      match dj_State job with
      | StateCompleted =>
          ret (Returned (stored_result (dj_Result job)))
      | StateCancelled => ret (Failure ("durability: job " +:+ jobID +:+ " is cancelled"))
      | _ =>
          do le <- read (ListEvents jobID) ;;
          match le with
          | Err e => ret (Failure ("durability: list events: " +:+ e))
          | Ok events =>
              let job := set_dj_Version (Z.of_nat (length events)) job in
              do lc <- read (LoadCheckpoint jobID) ;;
              match lc with
              | Err e => ret (Failure ("durability: load checkpoint: " +:+ e))
              | Ok None => execute_from ev steps job (initial_state None (dj_Input job))
              | Ok (Some cp) =>
                  match (match ck_State cp with EmptyString => Some None | data => decode_state data end) with
                  | None => ret (Failure "durability: unmarshal checkpoint state: ")
                  | Some st =>
                      execute_from ev (resume_steps steps (ck_StepID cp)) job (initial_state st (dj_Input job))
                  end
              end
          end
      end
  end.

Definition GetJob (jobID : string) : prog S (result string (option Job)) := read (LoadJob jobID).
Definition GetEvents (jobID : string) : prog S (result string (list SEvent)) := read (ListEvents jobID).

Definition Resume (ev : env) (jobID : string) (steps : list Step) : prog S exec_result := Execute ev jobID steps.

(** ** The idempotent tool (tool.go:66-169) *)

Definition ledger_payload (toolName key : string) : string :=
  obj_text (m_str "idempotency_key" key ++ m_str "tool_name" toolName).

Definition ledger_job_id (toolName key : string) : string := "ledger:" +:+ toolName +:+ ":" +:+ key.

(** Lines 86-106: a running job is first saved as created, the result of the
    save ignored; then the job is running. *)
Definition acquire_job (toolName key : string) (found : option Job) : prog S Job :=
  match found with
  | None => ret (mkDJob (ledger_job_id toolName key) ("idempotent:" +:+ toolName) StateRunning 0 EmptyString
                   EmptyString EmptyString zero_time zero_time (Some ∅))
  | Some job =>
      do job <- (if decide (dj_State job = StateRunning)
                 then let job := set_dj_Error EmptyString (set_dj_State StateCreated job) in
                      do _ <- write (SaveJob job) ;; ret job
                 else ret job) ;;
      ret (set_dj_State StateRunning job)
  end.

(** Lines 128-154. *)
Definition finish_call (now : time) (toolName key : string) (job : Job)
    (res : result string (option any_map)) : prog S exec_result :=
  match res with
  | Err e =>
      do _ <- write (SaveJob (set_dj_Error e (set_dj_State StateFailed job))) ;;
      ret (Failure e)
  | Ok m =>
      let job := set_dj_UpdatedAt (dj_CreatedAt job) (set_dj_Result (state_bytes m)
                   (set_dj_State StateCompleted job)) in
      do ok <- write (SaveJob job) ;;
      if negb ok then ret (Failure "idempotent: save committed: ")
      else
        do _ <- write (AppendEvent now (ledger_job_id toolName key) (dj_Version job)
                        (sevent "ledger_committed" EmptyString (ledger_payload toolName key))) ;;
        ret (Returned m)
  end.

Definition Wrap (toolName : string) (fn : option any_map -> result string (option any_map)) (now : time)
    (key : string) (input : option any_map) : prog S exec_result :=
  let ledgerJobID := ledger_job_id toolName key in
  do lj <- read (LoadJob ledgerJobID) ;;
  match lj with
  | Err e => ret (Failure ("idempotent: load ledger: " +:+ e))
  | Ok found =>
      if (match found with Some job => bool_decide (dj_State job = StateCompleted) | None => false end)
      then ret (Returned (match found with Some job => stored_result (dj_Result job) | None => None end))
      else
        do job <- acquire_job toolName key found ;;
        let job := set_dj_Input (state_bytes input) job in
        do ok <- write (SaveJob job) ;;
        if negb ok then ret (Failure "idempotent: save acquired: ")
        else
          do r <- write (AppendEvent now ledgerJobID (dj_Version job)
                          (sevent "ledger_acquired" EmptyString (ledger_payload toolName key))) ;;
          if negb (snd r) then ret (Failure ("idempotent: append acquired: " +:+ mismatch))
          else
            let job := set_dj_Version (dj_Version job + 1) job in
            do _ <- executed ledgerJobID ;;
            finish_call now toolName key job (fn input)
  end.

(** The wrapped function of one value: its result is put in a map. *)
Definition WrapSimple (toolName : string) (fn : option any_map -> result string json) (now : time)
    (key : string) (input : option any_map) : prog S exec_result :=
  Wrap toolName (fun input => match fn input with
                              | Err e => Err e
                              | Ok v => Ok (Some {["result" := v]})
                              end) now key input.
End runner.
