(* ===== verification/DurabilityProps.v ===== *)
(** The durable runner over any store that meets the interface's
    specification: crashes and failures followed by further calls give the
    result of an uninterrupted run, and no step runs after a later one has
    started.  The proofs use triples with a crash condition for the
    computations of Crash.v. *)

From Stdlib Require Import Sorting.Sorted.
From S2P Require Import Prelude GoTime Json Events Crash Durability.

(** ** The runner *)

(** What the steps compute: their names with functions on the state.  A step
    list implements it when a successful run of a step gives the function's
    value, whatever the context; it may also fail. *)
Record pure_step := mkPure { ps_ID : string; ps_f : any_map -> any_map }.

Definition implements (sp : pure_step) (stp : Step) : Prop :=
  st_ID stp = ps_ID sp /\ forall c st r, st_Fn stp c st = Ok r -> r = ps_f sp st.

Definition never_fails (stp : Step) : Prop := forall c st, exists r, st_Fn stp c st = Ok r.

(** The state after the first [k] steps of an uninterrupted run. *)
Definition state_at (spec : list pure_step) (st0 : any_map) (k : nat) : any_map :=
  foldl (fun st sp => ps_f sp st ∪ st) st0 (take k spec).

(** A state that survives encoding. *)
Definition survives (st : any_map) : Prop := decode_state (map_text st) = Some (Some st).

Section resume.
Context {St : Type} `{StoreSpec St view}.
Variables (jobID input : string) (spec : list pure_step) (st0 : any_map).
Hypothesis ids_distinct : NoDup (map ps_ID spec).
Hypothesis input_decodes : initial_state None input = Some st0.
Hypothesis states_survive : forall k, (k <= length spec)%nat -> survives (state_at spec st0 k).

Lemma state_at_S k sp : spec !! k = Some sp ->
  state_at spec st0 (S k) = ps_f sp (state_at spec st0 k) ∪ state_at spec st0 k.
Proof. intros Hk. unfold state_at. by rewrite (take_S_r _ _ _ Hk), foldl_app. Qed.

(** The steps in the log, by position: in order, none after step [k]. *)
Definition log_upto (k : nat) (log : list string) : Prop :=
  exists idxs, StronglySorted le idxs /\ Forall (fun i => (i <= k)%nat) idxs /\
               Forall2 (fun i id => exists sp, spec !! i = Some sp /\ id = ps_ID sp) idxs log.

Definition checkpoint_at (k : nat) (cp : option Checkpoint) : Prop :=
  match k with
  | O => cp = None
  | S i => exists c sp, cp = Some c /\ spec !! i = Some sp /\ ck_StepID c = ps_ID sp /\
                        ck_State c = map_text (state_at spec st0 k)
  end.

(** A job record the runner may save before the last step is done. *)
Definition live_job (job : Job) : Prop :=
  dj_ID job = jobID /\ dj_Input job = input /\ is_Some (dj_CompletedSteps job) /\
  dj_State job <> StateCompleted /\ dj_State job <> StateCancelled.

Definition done_job (job : Job) : Prop :=
  dj_ID job = jobID /\ dj_State job = StateCompleted /\
  dj_Result job = map_text (state_at spec st0 (length spec)).

(** The first [k] steps are checkpointed. *)
Definition at_step (k : nat) (w : world St) : Prop :=
  (k <= length spec)%nat /\
  (exists job, v_jobs (view (w_store w)) !! jobID = Some job /\
               (live_job job \/ k = length spec /\ done_job job)) /\
  checkpoint_at k (v_checkpoints (view (w_store w)) !! jobID) /\
  log_upto k (w_log w).

Definition safe (w : world St) : Prop := exists k, at_step k w.

(** During a call the runner knows the length of the stream. *)
Definition in_call (k : nat) (ver : Z) (w : world St) : Prop :=
  at_step k w /\ Z.of_nat (length (get_default [] (v_events (view (w_store w))) jobID)) = ver.

Lemma log_upto_mono k k' log : (k <= k')%nat -> log_upto k log -> log_upto k' log.
Proof.
  intros Hk (idxs & Hs & Hb & Hl). exists idxs. split_and!; [done| |done].
  eapply Forall_impl; [exact Hb|]. cbn. lia.
Qed.

Lemma log_upto_snoc k sp log : spec !! k = Some sp -> log_upto k log -> log_upto k (log ++ [ps_ID sp]).
Proof.
  intros Hk (idxs & Hs & Hb & Hl). exists (idxs ++ [k]). split_and!.
  - clear Hl. induction idxs as [|i idxs IH]; cbn; [by repeat constructor|].
    inversion Hs as [|? ? Hs' Hi]; inversion Hb as [|? ? Hik Hb']; subst.
    constructor; [by apply IH|]. apply List.Forall_app. split; [done|by repeat constructor].
  - apply Forall_app. split; [done|by repeat constructor].
  - apply Forall2_app; [done|]. constructor; [by exists sp|constructor].
Qed.

(** *** What one store call does to the invariant *)

Lemma append_in_call now k ver e w :
  in_call k ver w ->
  let r := AppendEvent now jobID ver e (w_store w) in
  snd (snd r) = true /\ in_call k (fst (snd r)) (mkWorld (fst r) (w_log w)).
Proof.
  intros [Hk Hver]. cbn zeta.
  pose proof (append_spec now jobID ver e (w_store w)) as Ha.
  unfold append_view in Ha. rewrite Hver, Z.eqb_refl in Ha. cbn [negb] in Ha.
  injection Ha as Hv Hr. rewrite Hr. cbn [fst snd]. split; [done|].
  unfold in_call, at_step in *. cbn [w_store w_log]. rewrite Hv. cbn [v_jobs v_events v_checkpoints].
  split; [done|]. rewrite get_default_insert, decide_True by done. rewrite length_app. cbn [length]. lia.
Qed.

Lemma save_job_in_call k ver job w :
  in_call k ver w -> live_job job \/ k = length spec /\ done_job job ->
  let r := SaveJob job (w_store w) in
  snd r = true /\ in_call k ver (mkWorld (fst r) (w_log w)).
Proof.
  intros [(Hle & _ & Hcp & Hlog) Hver] Hjob. cbn zeta.
  assert (dj_ID job = jobID) as Hid by (destruct Hjob as [Hj|[_ Hj]]; apply Hj).
  destruct (save_job_spec job (w_store w)) as [Hv Hr]. split; [done|].
  unfold in_call, at_step. cbn [w_store w_log]. rewrite Hv. cbn [v_jobs v_events v_checkpoints].
  split_and!; try done. exists job. by rewrite Hid, lookup_insert_eq.
Qed.

Lemma save_checkpoint_in_call now k sp ver ver' w :
  in_call k ver w -> spec !! k = Some sp ->
  let r := SaveCheckpoint now jobID (ps_ID sp) (map_text (state_at spec st0 (S k))) ver' (w_store w) in
  snd r = true /\ in_call (S k) ver (mkWorld (fst r) (w_log w)).
Proof.
  intros [(Hle & (job & Hj & Hjob) & _ & Hlog) Hver] Hsp. cbn zeta.
  pose proof (lookup_lt_Some _ _ _ Hsp) as Hlt.
  destruct (save_checkpoint_spec now jobID (ps_ID sp) (map_text (state_at spec st0 (S k))) ver' (w_store w))
    as [Hv Hr]. split; [done|].
  unfold in_call, at_step. cbn [w_store w_log]. rewrite Hv. cbn [v_jobs v_events v_checkpoints].
  split_and!; try done.
  - exists job. split; [done|]. destruct Hjob as [?|[-> _]]; [by left|lia].
  - rewrite lookup_insert_eq. cbn [checkpoint_at]. by eexists _, sp.
  - by eapply log_upto_mono; [|exact Hlog]; lia.
Qed.

Lemma in_call_safe k ver w : in_call k ver w -> safe w.
Proof. intros [Hk _]. by exists k. Qed.

Lemma triple_append {B} now k ver e (c : Z * bool -> prog St B) Q :
  (forall ver', triple (in_call k ver') (c (ver', true)) Q safe) ->
  triple (in_call k ver) (bind (write (AppendEvent now jobID ver e)) c) Q safe.
Proof.
  intros Hc. apply (triple_bind _ _ _ (fun r w => snd r = true /\ in_call k (fst r) w)).
  - apply triple_write; [apply in_call_safe|]. intros w Hw. by apply append_in_call.
  - intros [ver' ok]. cbn [fst snd]. apply triple_pure. intros ->. apply Hc.
Qed.

Lemma triple_save {B} k ver job (c : bool -> prog St B) Q :
  live_job job \/ k = length spec /\ done_job job ->
  triple (in_call k ver) (c true) Q safe ->
  triple (in_call k ver) (bind (write (SaveJob job)) c) Q safe.
Proof.
  intros Hj Hc. apply (triple_bind _ _ _ (fun ok w => ok = true /\ in_call k ver w)).
  - apply triple_write; [apply in_call_safe|]. intros w Hw. by apply save_job_in_call.
  - intros ok. apply triple_pure. by intros ->.
Qed.

Lemma triple_checkpoint {B} now k sp ver ver' (c : bool -> prog St B) Q :
  spec !! k = Some sp ->
  triple (in_call (S k) ver) (c true) Q safe ->
  triple (in_call k ver)
    (bind (write (SaveCheckpoint now jobID (ps_ID sp) (map_text (state_at spec st0 (S k))) ver')) c) Q safe.
Proof.
  intros Hsp Hc. apply (triple_bind _ _ _ (fun ok w => ok = true /\ in_call (S k) ver w)).
  - apply triple_write; [apply in_call_safe|]. intros w Hw. by apply save_checkpoint_in_call.
  - intros ok. apply triple_pure. by intros ->.
Qed.

Lemma triple_executed k ver sp : spec !! k = Some sp ->
  triple (in_call k ver) (executed (ps_ID sp)) (fun _ => in_call k ver) safe.
Proof.
  intros Hsp n w [(Hle & Hj & Hcp & Hlog) Hver]. unfold executed, in_call, at_step. cbn [w_store w_log].
  split_and!; try done. by apply log_upto_snoc.
Qed.

(** *** One step *)

Section one_step.
Variables (k : nat) (sp : pure_step) (stp : Step) (ev : env).
Hypothesis Hsp : spec !! k = Some sp.
Hypothesis Himpl : implements sp stp.

Lemma try_step_triple max left ver :
  (left <= max)%nat -> (0 < left)%nat -> (left < max -> ~ never_fails stp)%nat ->
  triple (in_call k ver) (try_step ev jobID stp (state_at spec st0 k) max left ver)
    (fun t w => in_call k (fst t) w /\
                match snd t with
                | StepOk r => r = ps_f sp (state_at spec st0 k)
                | _ => ~ never_fails stp
                end) safe.
Proof.
  destruct Himpl as [Hid Hfn]. revert ver. induction left as [|l IH]; intros ver Hl Hpos Hnf; [lia|].
  cbn [try_step]. case_match eqn:Hc.
  - apply triple_ret. intros w Hw. split; [done|]. cbn [snd]. apply Hnf.
    apply andb_prop in Hc as [[Hc _]%andb_prop _]. apply Nat.ltb_lt in Hc. lia.
  - rewrite Hid. eapply triple_bind; [by apply triple_executed|]. intros [].
    destruct (st_Fn stp _ _) as [r|e] eqn:Hf.
    + apply triple_ret. intros w Hw. split; [done|]. cbn [snd]. by eapply Hfn.
    + assert (~ never_fails stp) as Hn by (intros Ht; edestruct Ht as [r Hr]; rewrite Hf in Hr; discriminate Hr).
      destruct l as [|l].
      * apply triple_ret. intros w Hw. split; done.
      * apply triple_append. intros ver'. apply IH; [lia|lia|done].
Qed.
End one_step.
(** The record the runner works on during a call. *)
Definition running_job (job : Job) : Prop := live_job job /\ dj_State job = StateRunning.

Lemma run_step_triple k sp stp ev job :
  spec !! k = Some sp -> implements sp stp -> running_job job ->
  triple (in_call k (dj_Version job)) (run_step ev stp job (Some (state_at spec st0 k)))
    (fun r w => match r with
                | Ok (job', st') => running_job job' /\ st' = Some (state_at spec st0 (S k)) /\
                                    in_call (S k) (dj_Version job') w
                | Err _ => safe w /\ ~ never_fails stp
                end) safe.
Proof.
  intros Hsp Himpl [Hlive Hrun]. pose proof Hlive as (Hid & Hin & [done Hdone] & Hnc & Hnx).
  pose proof Himpl as [Hname _]. unfold run_step. rewrite Hid.
  apply triple_append. intros v1. cbn [negb fst snd default].
  eapply triple_bind.
  { apply (try_step_triple k sp); [done|done|lia| |lia]. unfold attempts. case_match; lia. }
  intros [v2 res]. cbn [fst snd]. destruct res as [r|e|].
  - eapply triple_weaken; [|intros w [Hw Hr]; exact (conj Hr Hw)|intros a w Hq; exact Hq].
    apply triple_pure. intros ->. unfold merge. rewrite <- (state_at_S k sp Hsp), Hdone, Hname.
    eapply (triple_bind _ _ _ (fun st w => st = Some (state_at spec st0 (S k)) /\ in_call k v2 w));
      [by apply triple_ret|].
    intros st'. apply triple_pure. intros ->.
    apply triple_append. intros v3. cbn [fst state_bytes].
    apply triple_checkpoint; [done|]. cbn [negb]. apply triple_append. intros v4. cbn [fst].
    apply triple_save; [left; split_and!; done|]. cbn [negb]. apply triple_ret.
    intros w Hw. split_and!; done.
  - eapply triple_weaken; [|intros w [Hw Hr]; exact (conj Hr Hw)|intros a w Hq; exact Hq].
    apply triple_pure. intros Hn. apply triple_append. intros v3. cbn [fst].
    apply triple_save; [left; split_and!; done|]. apply triple_ret. intros w Hw.
    split; [by eapply in_call_safe|done].
  - apply triple_ret. intros w [Hw Hn]. split; [by eapply in_call_safe|done].
Qed.

Lemma run_steps_triple ev rest k job :
  Forall2 implements (drop k spec) rest -> (k <= length spec)%nat -> running_job job ->
  triple (in_call k (dj_Version job)) (run_steps ev rest job (Some (state_at spec st0 k)))
    (fun r w => match r with
                | Ok (job', st') => running_job job' /\ st' = Some (state_at spec st0 (length spec)) /\
                                    in_call (length spec) (dj_Version job') w
                | Err _ => safe w /\ ~ Forall never_fails rest
                end) safe.
Proof.
  revert k job. induction rest as [|stp rest IH]; intros k job Hall Hk Hrun; cbn [run_steps].
  - apply Forall2_length in Hall. rewrite length_drop in Hall. cbn in Hall.
    replace k with (length spec) by lia. by apply triple_ret.
  - destruct (spec !! k) as [sp|] eqn:Hsp;
      [|apply lookup_ge_None in Hsp; rewrite drop_ge in Hall by done; inversion Hall].
    rewrite (drop_S _ _ _ Hsp) in Hall. inversion Hall as [|? ? ? ? Hi Hall']; subst.
    pose proof (lookup_lt_Some _ _ _ Hsp).
    eapply triple_bind; [by apply (run_step_triple k sp)|]. intros [[job' st']|e];
      [|apply triple_ret; intros w [Hw Hn]; split; [done|]; by intros [? ?]%Forall_cons].
    apply triple_pure. intros Hrun'. apply triple_pure. intros ->.
    eapply triple_weaken; [apply (IH (S k)); [done|lia|done]|done|].
    intros [r|e] w Hq; [done|]. destruct Hq as [Hw Hn]. split; [done|]. by intros [? ?]%Forall_cons.
Qed.

(** *** A call of Execute *)

Lemma implements_ids sps steps : Forall2 implements sps steps -> map st_ID steps = map ps_ID sps.
Proof. induction 1 as [|sp stp sps steps [Hid _] _ IH]; cbn; [done|]. by rewrite Hid, IH. Qed.

Lemma resume_steps_after steps k sp :
  Forall2 implements spec steps -> spec !! k = Some sp -> resume_steps steps (ps_ID sp) = drop (S k) steps.
Proof.
  intros Hall Hsp. pose proof (implements_ids _ _ Hall) as Hids.
  destruct (Forall2_lookup_l _ _ _ _ _ Hall Hsp) as (stp & Hstp & Hid & _).
  unfold resume_steps.
  assert (list_find (fun s => st_ID s = ps_ID sp) steps = Some (k, stp)) as ->; [|done].
  apply list_find_Some. split_and!; [done|done|]. intros j y Hj Hlt Heq.
  assert (NoDup (map st_ID steps)) as Hnd by by rewrite Hids.
  assert (j = k) as ->; [|lia].
  eapply (NoDup_lookup _ _ _ (ps_ID sp) Hnd); rewrite list_lookup_fmap; [by rewrite Hj; cbn; rewrite Heq|].
  by rewrite Hstp; cbn; rewrite Hid.
Qed.

Lemma survives_nonempty st : survives st -> map_text st <> EmptyString.
Proof. unfold survives. intros Hs Hn. rewrite Hn in Hs. discriminate Hs. Qed.

Lemma stored_result_survives st : survives st -> stored_result (map_text st) = Some st.
Proof.
  intros Hs. pose proof (survives_nonempty _ Hs). unfold stored_result.
  destruct (map_text st) eqn:Ht; [done|]. rewrite <- Ht. unfold survives in Hs. by rewrite Hs.
Qed.

(** What a call does first: nothing more for a completed job, else the loop
    from the first step without a checkpoint. *)
Lemma Execute_from k w ev steps :
  at_step k w -> Forall2 implements spec steps ->
  (forall n, Execute ev jobID steps n w = Finished n w (Returned (Some (state_at spec st0 (length spec))))) \/
  (exists job, live_job job /\ in_call k (dj_Version job) w /\ forall n,
    Execute ev jobID steps n w = execute_from ev (drop k steps) job (Some (state_at spec st0 k)) n w).
Proof.
  intros Hat Hall. pose proof Hat as (Hle & (job & Hj & Hjob) & Hcp & _).
  unfold Execute, bind, read. rewrite load_job_spec, Hj.
  destruct Hjob as [Hl|(-> & _ & -> & Hres)].
  2: { left. intros n. rewrite Hres, stored_result_survives; [done|]. by apply states_survive. }
  right. pose proof Hl as (Hid & Hin & Hsome & Hnc & Hnx).
  exists (set_dj_Version (Z.of_nat (length (get_default [] (v_events (view (w_store w))) jobID))) job).
  split; [done|]. split; [by split|]. intros n. cbn [dj_Input set_dj_Version].
  destruct (dj_State job); try done.
  all: unfold ret; rewrite list_spec, load_checkpoint_spec.
  all: destruct k as [|i]; cbn [checkpoint_at] in Hcp;
    [rewrite Hcp, Hin, input_decodes; done|].
  all: destruct Hcp as (c & sp & -> & Hsp & -> & ->);
    pose proof (states_survive (S i) Hle) as Hs; pose proof (survives_nonempty _ Hs);
    rewrite (resume_steps_after steps i sp Hall Hsp);
    destruct (map_text _) eqn:Ht; [done|]; rewrite <- Ht, Hs; done.
Qed.

Lemma execute_from_triple k ev rest job :
  Forall2 implements (drop k spec) rest -> (k <= length spec)%nat -> live_job job ->
  triple (in_call k (dj_Version job)) (execute_from ev rest job (Some (state_at spec st0 k)))
    (fun r w => safe w /\ match r with
                          | Returned st => st = Some (state_at spec st0 (length spec))
                          | Failure _ => ~ Forall never_fails rest
                          end) safe.
Proof.
  intros Hall Hk Hl. pose proof Hl as (Hid & Hin & Hsome & _). unfold execute_from.
  assert (running_job (set_dj_UpdatedAt (env_now ev) (set_dj_State StateRunning job))) as Hrun
    by (split; [by split_and!|done]).
  apply triple_save; [left; by apply Hrun|]. cbn [negb].
  eapply triple_bind; [exact (run_steps_triple ev rest k _ Hall Hk Hrun)|].
  intros [[job' st']|e]; [|apply triple_ret; by intros w [? ?]].
  apply triple_pure. intros [[Hid' _] _]. apply triple_pure. intros ->.
  apply triple_save; [right; split_and!; done|]. cbn [negb]. rewrite Hid'.
  apply triple_append. intros v. apply triple_ret. intros w Hw. split; [by eapply in_call_safe|done].
Qed.

Lemma Execute_triple ev steps :
  Forall2 implements spec steps ->
  triple safe (Execute ev jobID steps)
    (fun r w => safe w /\ match r with
                          | Returned st => st = Some (state_at spec st0 (length spec))
                          | Failure _ => ~ Forall never_fails steps
                          end) safe.
Proof.
  intros Hall n w [k Hk]. pose proof Hk as (Hle & _).
  destruct (Execute_from k w ev steps Hk Hall) as [->|(job & Hl & Hin & ->)]; [split; [by exists k|done]|].
  pose proof (execute_from_triple k ev (drop k steps) job (Forall2_drop _ _ _ k Hall) Hle Hl n w Hin) as Ht.
  destruct (execute_from _ _ _ _ n w) as [n' w' r|w']; [|done]. destruct Ht as [Hs Hr]. split; [done|].
  destruct r as [st|e]; [done|]. intros Hf. by apply Hr, Forall_drop.
Qed.

(** *** Enough budget *)

Definition steps_cost (steps : list Step) : nat :=
  foldr (fun s c => (attempts s + 6 + c)%nat) 0%nat steps.

Lemma try_step_costs ev j stp st max left ver : (0 < left)%nat ->
  costs (try_step (S := St) ev j stp st max left ver) (fun _ => True) left.
Proof.
  revert ver. induction left as [|l IH]; intros ver Hl; [lia|]. cbn [try_step].
  case_match; [by apply costs_ret|]. apply costs_executed_bind. intros _.
  destruct (st_Fn stp _ _) as [r|e]; [by apply costs_ret|].
  destruct l as [|l]; [by apply costs_ret|]. apply costs_write_bind. intros r. apply IH. lia.
Qed.

Definition maps_made (r : result string (Job * option any_map)) : Prop :=
  match r with Ok (job, st) => is_Some (dj_CompletedSteps job) /\ is_Some st | Err _ => True end.

Lemma run_step_costs ev stp job st :
  is_Some (dj_CompletedSteps job) ->
  costs (run_step (S := St) ev stp job (Some st)) maps_made (attempts stp + 6).
Proof.
  intros [done Hdone]. unfold run_step. replace (attempts stp + 6)%nat with (S (attempts stp + 5)) by lia.
  apply costs_write_bind. intros r. case_match; [by apply costs_ret|].
  eapply (costs_bind _ _ (fun _ => True)).
  { apply try_step_costs. unfold attempts. case_match; lia. }
  intros [v res] _. cbn [fst snd]. destruct res as [m|e|]; [| |by apply costs_ret].
  - unfold merge. intros n w Hn. unfold bind at 1, ret at 1. revert n w Hn.
    apply costs_write_bind. intros f. apply costs_write_bind. intros ok. case_match; [by apply costs_ret|].
    apply costs_write_bind. intros c. rewrite Hdone. apply costs_write_bind. intros ok'.
    case_match; apply costs_ret; [done|by split; eexists].
  - apply costs_write_bind. intros f. apply costs_write_bind. intros _. by apply costs_ret.
Qed.

Lemma run_steps_costs ev rest job st :
  is_Some (dj_CompletedSteps job) ->
  costs (run_steps (S := St) ev rest job (Some st)) maps_made (steps_cost rest).
Proof.
  revert job st. induction rest as [|stp rest IH]; intros job st Hd; cbn [run_steps steps_cost foldr].
  - apply costs_ret. by split; [|eexists].
  - eapply costs_bind; [by apply run_step_costs|].
    intros [[job' st']|e] Hm; [destruct Hm as [? [st2 ->]]; by apply IH|by apply costs_ret].
Qed.

Lemma execute_from_costs ev rest job st :
  is_Some (dj_CompletedSteps job) ->
  costs (execute_from (S := St) ev rest job (Some st)) (fun _ => True) (steps_cost rest + 3).
Proof.
  intros Hd. unfold execute_from. replace (steps_cost rest + 3)%nat with (S (steps_cost rest + 2)) by lia.
  apply costs_write_bind. intros ok. case_match; [by apply costs_ret|].
  eapply costs_bind; [by apply run_steps_costs|]. intros [[job' st']|e] _; [|by apply costs_ret].
  apply costs_write_bind. intros ok'. case_match; [by apply costs_ret|].
  apply costs_write_bind. intros _. by apply costs_ret.
Qed.

Lemma steps_cost_drop k steps : (steps_cost (drop k steps) <= steps_cost steps)%nat.
Proof.
  revert k. induction steps as [|s steps IH]; intros [|k]; cbn; [done|done|done|].
  specialize (IH k). unfold steps_cost in *. lia.
Qed.

Lemma Execute_returns ev steps n w :
  safe w -> Forall2 implements spec steps -> Forall never_fails steps -> (steps_cost steps + 3 <= n)%nat ->
  exists n' w', Execute ev jobID steps n w = Finished n' w' (Returned (Some (state_at spec st0 (length spec)))).
Proof.
  intros Hs Hall Hnf Hn.
  assert (exists n' w' r, Execute ev jobID steps n w = Finished n' w' r) as (n' & w' & r & Hr).
  { destruct Hs as [k Hk].
    destruct (Execute_from k w ev steps Hk Hall) as [->|(job & Hl & Hin & ->)]; [by do 3 eexists|].
    pose proof Hl as (_ & _ & Hd & _). pose proof (steps_cost_drop k steps).
    destruct (execute_from_costs ev (drop k steps) job (state_at spec st0 k) Hd n w) as (n' & w' & r & -> & _);
      [lia|by do 3 eexists]. }
  pose proof (Execute_triple ev steps Hall n w Hs) as Ht. rewrite Hr in Ht. destruct Ht as [_ Ht].
  exists n', w'. rewrite Hr. by destruct r as [st|e]; [subst|].
Qed.

(** *** Several calls *)

(** A call with its context, its steps and the number of writes before the
    process crashes. *)
Record attempt := mkAttempt { at_env : env; at_steps : list Step; at_budget : nat }.

Definition call (a : attempt) (w : world St) : option exec_result * world St :=
  match Execute (at_env a) jobID (at_steps a) (at_budget a) w with
  | Finished _ w' r => (Some r, w')
  | Crashed w' => (None, w')
  end.

Fixpoint calls (l : list attempt) (w : world St) : list (option exec_result) * world St :=
  match l with
  | [] => ([], w)
  | a :: l => let '(r, w1) := call a w in let '(rs, w2) := calls l w1 in (r :: rs, w2)
  end.

Lemma calls_safe l w :
  safe w -> Forall (fun a => Forall2 implements spec (at_steps a)) l ->
  safe (snd (calls l w)) /\
  Forall (fun o => forall st, o = Some (Returned st) -> st = Some (state_at spec st0 (length spec))) (fst (calls l w)).
Proof.
  revert w. induction l as [|a l IH]; intros w Hs Hall; cbn [calls]; [split; [done|constructor]|].
  apply Forall_cons in Hall as [Ha Hall].
  pose proof (Execute_triple (at_env a) _ Ha (at_budget a) w Hs) as Ht. unfold call.
  destruct (Execute _ _ _ _ _) as [n' w' r|w'].
  - destruct Ht as [Hs' Hr]. specialize (IH w' Hs' Hall). destruct (calls l w') as [rs w2].
    destruct IH. split; [done|]. constructor; [|done]. by intros st [= ->].
  - specialize (IH w' Ht Hall). destruct (calls l w') as [rs w2]. destruct IH. split; [done|]. by constructor.
Qed.

End resume.

(** *** Starting a job *)

Lemma Start_safe {St} `{StoreSpec St view} now name inp spec n s n' w job :
  survives inp ->
  v_checkpoints (view s) !! ("job-" +:+ name +:+ "-" +:+ itoa (unix_nano now)) = None ->
  Start now name (Some inp) n (mkWorld s []) = Finished n' w (Ok job) ->
  safe (view := view) (dj_ID job) (map_text inp) spec inp w.
Proof.
  set (jobID := "job-" +:+ name +:+ "-" +:+ itoa (unix_nano now)).
  intros Hs Hcp. unfold Start, bind. fold jobID.
  destruct n as [|n]; [done|]. cbn [write w_store].
  set (job0 := mkDJob _ _ _ _ _ _ _ _ _ _).
  destruct (save_job_spec job0 s) as [Hv1 Hr1]. destruct (SaveJob job0 s) as [s1 ok1].
  cbn [fst snd] in Hv1, Hr1. subst ok1. cbn [negb].
  destruct n as [|n]; [done|]. cbn [write w_store w_log].
  set (e := sevent _ _ _).
  pose proof (append_spec now jobID 0 e s1) as Ha. unfold append_view in Ha.
  destruct (AppendEvent now jobID 0 e s1) as [s2 [v2 ok2]]. cbn [fst snd] in *.
  case_match; [injection Ha as _ _ ->; done|]. injection Ha as Hv2 -> ->. cbn [negb].
  destruct n as [|n]; [done|]. cbn [write w_store w_log].
  set (job1 := set_dj_UpdatedAt _ _).
  destruct (save_job_spec job1 s2) as [Hv3 Hr3]. destruct (SaveJob job1 s2) as [s3 ok3].
  cbn [fst snd] in Hv3, Hr3. subst ok3. cbn [negb]. intros [= _ <- <-].
  exists 0%nat. split_and!; [lia| | |].
  - exists job1. split; [|by left; split_and!; [| |eexists| |]]. cbn [w_store]. rewrite Hv3. apply lookup_insert_eq.
  - cbn [w_store checkpoint_at]. rewrite Hv3. cbn [v_checkpoints]. rewrite Hv2. cbn [v_checkpoints].
    by rewrite Hv1.
  - exists []. by repeat constructor.
Qed.

(** C15: crash recovery of the durable runner: after a job is started with an
    input, any number of calls of [Execute] that crash between any two store
    writes, are cancelled, or fail in a step, with step functions that may
    differ in their failures but not in their results: every call that
    returns a state returns the one of an uninterrupted run; the steps have
    run in their order, so none runs once a later one has begun; and one more
    call with steps that do not fail and enough store writes returns that
    state. *)
Theorem resume_equals_uninterrupted {St} `{StoreSpec St view} spec now name inp s n n' w job l :
  NoDup (map ps_ID spec) ->
  (forall k, (k <= length spec)%nat -> survives (state_at spec inp k)) ->
  v_checkpoints (view s) !! ("job-" +:+ name +:+ "-" +:+ itoa (unix_nano now)) = None ->
  Start now name (Some inp) n (mkWorld s []) = Finished n' w (Ok job) ->
  Forall (fun a => Forall2 implements spec (at_steps a)) l ->
  let final := state_at spec inp (length spec) in
  let '(rs, w') := calls (dj_ID job) l w in
  (forall st, Some (Returned st) ∈ rs -> st = Some final) /\
  (exists idxs, StronglySorted le idxs /\
    Forall2 (fun i id => exists sp, spec !! i = Some sp /\ id = ps_ID sp) idxs (w_log w')) /\
  (forall ev steps m, Forall2 implements spec steps -> Forall never_fails steps ->
    (steps_cost steps + 3 <= m)%nat ->
    exists m' w2, Execute ev (dj_ID job) steps m w' = Finished m' w2 (Returned (Some final))).
Proof.
  intros Hnd Hsv Hcp Hst Hl. cbn zeta.
  assert (survives inp) as Hinp by (apply (Hsv 0%nat); lia).
  pose proof (Start_safe now name inp spec n s n' w job Hinp Hcp Hst) as Hsafe.
  assert (initial_state None (map_text inp) = Some inp) as Hinit.
  { pose proof (survives_nonempty _ Hinp). unfold initial_state.
    destruct (map_text inp) eqn:Ht; [done|]. rewrite <- Ht. by rewrite (Hinp : decode_state _ = _). }
  pose proof (calls_safe _ _ spec inp Hnd Hinit Hsv l w Hsafe Hl) as [Hs' Hrs].
  destruct (calls (dj_ID job) l w) as [rs w']. cbn [fst snd] in *.
  split_and!.
  - intros st Hin. rewrite Forall_forall in Hrs. exact (Hrs _ Hin st eq_refl).
  - destruct Hs' as (k & _ & _ & _ & idxs & Hsd & _ & Hlog). by exists idxs.
  - intros ev steps m Hall Hnf Hm. by eapply Execute_returns.
Qed.

Definition mark (k : string) : any_map -> any_map := fun _ => {[k := JBool true]}.
Definition mark_step (k : string) : Step :=
  mkStep k k (fun _ st => Ok (mark k st)) 1 0.
Definition flaky_step (k : string) : Step := mkStep k k (fun _ _ => Err "down") 2 0.

(** An order with two steps: a crash inside the first, a failure of the
    second, and a run to the end. *)
Lemma resume_equals_uninterrupted_witness :
  exists w job, Start (S := MemoryStore) (Time 7 0) "order" (Some {["id" := JStr "42"]}) 3%nat
                  (mkWorld NewMemoryStore []) = Finished 0%nat w (Ok job) /\
    fst (calls (dj_ID job)
           [mkAttempt (mkEnv (Time 8 0) (fun _ _ => false)) [mark_step "a"; mark_step "b"] 2%nat;
            mkAttempt (mkEnv (Time 9 0) (fun _ _ => false)) [mark_step "a"; flaky_step "b"] 50%nat] w)
    = [None; Some (Failure "durability: step b failed: down")] /\
    exists m' w2, Execute (mkEnv (Time 9 0) (fun _ _ => false)) (dj_ID job) [mark_step "a"; mark_step "b"] 17%nat
      (snd (calls (dj_ID job)
           [mkAttempt (mkEnv (Time 8 0) (fun _ _ => false)) [mark_step "a"; mark_step "b"] 2%nat;
            mkAttempt (mkEnv (Time 9 0) (fun _ _ => false)) [mark_step "a"; flaky_step "b"] 50%nat] w))
      = Finished m' w2 (Returned (Some (state_at [mkPure "a" (mark "a"); mkPure "b" (mark "b")] {["id" := JStr "42"]} 2%nat))).
Proof.
  do 2 eexists. split; [vm_compute; reflexivity|]. split; [vm_compute; reflexivity|].
  set (l := [mkAttempt _ _ _; mkAttempt _ _ _]).
  match goal with |- context [calls _ _ ?w0] => set (w := w0) end.
  match goal with |- context [calls (dj_ID ?j0) _ _] => set (job := j0) end.
  assert (forall k, implements (mkPure k (mark k)) (mark_step k)) as Hm
    by (intros k; split; [done|by intros c st r [= <-]]).
  assert (implements (mkPure "b" (mark "b")) (flaky_step "b")) as Hf by (split; [done|by intros c st r]).
  pose proof (resume_equals_uninterrupted (St := MemoryStore)
    [mkPure "a" (mark "a"); mkPure "b" (mark "b")] (Time 7 0) "order" {["id" := JStr "42"]}
    NewMemoryStore 3%nat 0%nat w job l) as Ht.
  cbn zeta in Ht. destruct (calls (dj_ID job) l w) as [rs w'] eqn:Hc. cbn [snd].
  destruct Ht as (_ & _ & Ht).
  - apply (bool_decide_unpack _). vm_compute. exact I.
  - intros [|[|[|k]]] Hk; [vm_compute; reflexivity..|cbn in Hk; lia].
  - reflexivity.
  - vm_compute. reflexivity.
  - constructor; [|constructor; [|constructor]]; cbn;
      (constructor; [auto|constructor; [auto|constructor]]).
  - apply Ht; [constructor; [auto|constructor; [auto|constructor]]| |vm_compute; lia].
    constructor; [|constructor; [|constructor]]; by intros c st; eexists.
Defined.
