(* ===== verification/DurabilityTool.v ===== *)
(** The idempotent tool (sdk/durability/idempotent/tool.go) over any store
    that meets the interface's specification: a run of the function succeeds
    at most once per key, and the window between the two ledger events blocks
    the key.  A key is open, committed or blocked; a call is a triple over
    these phases. *)

From S2P Require Import Prelude GoTime Json Events Crash Durability DurabilityProps.

(** ** The idempotent tool *)

Section idempotent.
Context {St : Type} `{StoreSpec St view}.
Variables (toolName key : string).

#[local] Abbreviation id := (ledger_job_id toolName key).

Definition ledger_events (w : world St) : Z :=
  Z.of_nat (length (get_default [] (v_events (view (w_store w))) id)).

Definition ledger_job (w : world St) : option Job := v_jobs (view (w_store w)) !! id.

Inductive phase :=
| Open                                   (* no run of the function is under way or has succeeded *)
| Committed (m : option any_map)         (* a run's result is stored *)
| Blocked.                               (* a run started and its outcome was not stored *)

Definition in_phase (p : phase) (w : world St) : Prop :=
  match p, ledger_job w with
  | Open, None => ledger_events w = 0
  | Open, Some job => dj_ID job = id /\ dj_State job <> StateCompleted /\ dj_Version job = ledger_events w
  | Committed m, Some job => dj_ID job = id /\ dj_State job = StateCompleted /\ dj_Result job = state_bytes m
  | Blocked, Some job => dj_ID job = id /\ dj_State job <> StateCompleted /\ dj_Version job < ledger_events w
  | _, None => False
  end.

(** The phase and the log. *)
Definition phase_log (p : phase) (L : list string) (w : world St) : Prop := in_phase p w /\ w_log w = L.

(** The stored record is [job], which a call is working on. *)
Definition holding (job : Job) (L : list string) (w : world St) : Prop :=
  ledger_job w = Some job /\ dj_ID job = id /\ w_log w = L.

Lemma save_ledger_job job L w :
  dj_ID job = id -> w_log w = L ->
  let r := SaveJob job (w_store w) in
  let w' := mkWorld (fst r) (w_log w) in
  snd r = true /\ holding job L w' /\ ledger_events w' = ledger_events w.
Proof.
  intros Hid HL. cbn zeta. destruct (save_job_spec job (w_store w)) as [Hv Hr].
  split; [done|]. unfold holding, ledger_job, ledger_events. cbn [w_store w_log]. rewrite Hv.
  cbn [v_jobs v_events]. by rewrite Hid, lookup_insert_eq.
Qed.

Lemma append_ledger now ver e w :
  let r := AppendEvent now id ver e (w_store w) in
  let w' := mkWorld (fst r) (w_log w) in
  ledger_job w' = ledger_job w /\
  (ledger_events w = ver /\ snd (snd r) = true /\ ledger_events w' = ver + 1 \/
   ledger_events w <> ver /\ snd (snd r) = false /\ ledger_events w' = ledger_events w).
Proof.
  cbn zeta. pose proof (append_spec now id ver e (w_store w)) as Ha. unfold append_view in Ha.
  unfold ledger_job, ledger_events. cbn [w_store]. case_match eqn:Hc; injection Ha as Hv Hr; rewrite Hv, Hr.
  - apply negb_true_iff, Z.eqb_neq in Hc. split; [done|]. by right.
  - apply negb_false_iff, Z.eqb_eq in Hc. cbn [v_jobs v_events fst snd].
    split; [done|]. left. split_and!; [done|done|].
    rewrite get_default_insert, decide_True by done. rewrite length_app. cbn [length]. lia.
Qed.

(** *** One call *)

(** How a call that runs the function leaves the key: with the log extended
    and the phase its result gives, or with the record as the crash left it. *)
Definition after_run (res : result string (option any_map)) (L : list string) (w : world St) : Prop :=
  w_log w = L ++ [id] /\
  (in_phase Blocked w \/
   match res with Ok m => in_phase (Committed m) w | Err _ => in_phase Open w end).

Definition step_to (p : phase) (res : result string (option any_map)) (L : list string) (w : world St) : Prop :=
  phase_log p L w \/ p = Open /\ after_run res L w.

(** [P w /\ ledger_events w = n], stable names for the conditions between the
    calls of one run. *)
Definition held_at (job : Job) (n : Z) (L : list string) (w : world St) : Prop :=
  holding job L w /\ ledger_events w = n.

Lemma held_open job L w : dj_State job <> StateCompleted ->
  held_at job (dj_Version job) L w -> phase_log Open L w.
Proof. intros Hs [(Hj & Hid & HL) Hn]. split; [|done]. unfold in_phase. by rewrite Hj. Qed.

Lemma held_blocked job n L w : dj_State job <> StateCompleted -> dj_Version job < n ->
  held_at job n L w -> phase_log Blocked L w.
Proof. intros Hs Hv [(Hj & Hid & HL) Hn]. split; [|done]. unfold in_phase. rewrite Hj, Hn. done. Qed.

Lemma triple_save_ledger {B} (P : world St -> Prop) job n L (c : bool -> prog St B) Q (C : world St -> Prop) :
  dj_ID job = id -> (forall w, P w -> C w /\ w_log w = L /\ ledger_events w = n) ->
  triple (held_at job n L) (c true) Q C ->
  triple P (bind (write (SaveJob job)) c) Q C.
Proof.
  intros Hid HP Hc. apply (triple_bind _ _ _ (fun ok w => ok = true /\ held_at job n L w)).
  - apply triple_write; [intros w Hw; by apply HP|]. intros w (_ & HL & Hn)%HP.
    destruct (save_ledger_job job L w Hid HL) as (Hok & Hh & Hev). split; [done|]. split; [done|]. by rewrite Hev.
  - intros ok. apply triple_pure. by intros ->.
Qed.

Lemma held_at_log job n L w : held_at job n L w -> w_log w = L /\ ledger_events w = n.
Proof. intros [(_ & _ & HL) Hn]. done. Qed.

Lemma finish_call_triple now job n L res :
  dj_ID job = id -> dj_Version job = n -> dj_State job <> StateCompleted ->
  triple (held_at (set_dj_Version (n - 1) job) n (L ++ [id])) (finish_call now toolName key job res)
    (fun r w => after_run res L w /\ in_phase (match res with Ok m => Committed m | Err _ => Open end) w /\
                match res with Ok m => r = Returned m | Err e => r = Failure e end)
    (after_run res L).
Proof.
  intros Hid Hver Hs. unfold finish_call.
  assert (forall w, held_at (set_dj_Version (n - 1) job) n (L ++ [id]) w -> after_run res L w) as Hcrash.
  { intros w Hw. apply (held_blocked _ n) in Hw as [Hb HL]; [|done|cbn; lia]. split; [done|by left]. }
  destruct res as [m|e].
  - apply (triple_save_ledger _ _ n (L ++ [id]));
      [done|intros w Hw; split; [by apply Hcrash|by eapply held_at_log]|]. cbn [negb].
    eapply (triple_bind _ _ _ (fun _ w => after_run (Ok m) L w /\ in_phase (Committed m) w)).
    + apply triple_write.
      * intros w [(Hj & Hid' & HL) Hn]. split; [done|]. right. unfold in_phase. by rewrite Hj.
      * intros w [(Hj & Hid' & HL) Hn].
        match goal with |- context [AppendEvent ?t id ?v ?e _] =>
          destruct (append_ledger t v e w) as [Hj' _] end.
        rewrite Hj in Hj'. split.
        -- split; [done|]. right. unfold in_phase. by rewrite Hj'.
        -- unfold in_phase. by rewrite Hj'.
    + intros a. apply triple_ret. by intros w [? ?].
  - apply (triple_save_ledger _ _ n (L ++ [id]));
      [done|intros w Hw; split; [by apply Hcrash|by eapply held_at_log]|]. apply triple_ret.
    intros w [(Hj & Hid' & HL) Hn].
    assert (in_phase Open w) as Ho.
    { unfold in_phase. rewrite Hj. split_and!; [done|done|]. rewrite Hn. exact Hver. }
    split_and!; [|done|done]. split; [done|by right].
Qed.
(** A record that is not completed, with the version the phase gives it. *)
Definition version_in (p : phase) (n : Z) (job : Job) : Prop :=
  dj_ID job = id /\ dj_State job <> StateCompleted /\
  match p with Open => dj_Version job = n | Blocked => dj_Version job < n | Committed _ => False end.

Lemma held_in_phase p job n L w : version_in p n job -> held_at job n L w -> phase_log p L w.
Proof.
  destruct p; intros (Hid & Hs & Hv) Hh; [subst n; by eapply held_open|done|by eapply held_blocked].
Qed.

Lemma acquire_job_triple p found n L :
  match p, found with
  | Open, None => n = 0
  | _, Some job => version_in p n job
  | _, None => False
  end ->
  triple (fun w => phase_log p L w /\ ledger_events w = n) (acquire_job toolName key found)
    (fun job w => (version_in p n job /\ dj_State job = StateRunning) /\ phase_log p L w /\ ledger_events w = n)
    (phase_log p L).
Proof.
  intros Hf. destruct found as [job|]; cbn [acquire_job].
  2: by destruct p.
  assert (version_in p n job) as (Hid & Hs & Hv) by by destruct p.
  assert (forall w, phase_log p L w /\ ledger_events w = n -> phase_log p L w /\ w_log w = L /\ ledger_events w = n)
    as HP by (intros w [[? ?] ?]; done).
  apply (triple_bind _ _ _ (fun job' w => (version_in p n job') /\ phase_log p L w /\ ledger_events w = n)).
  - case_decide as Hr; [|apply triple_ret; by intros w Hw].
    apply (triple_save_ledger _ _ n L); [done|exact HP|]. apply triple_ret. intros w Hw.
    assert (version_in p n (set_dj_Error EmptyString (set_dj_State StateCreated job))) as Hv' by by split_and!.
    split; [done|]. split; [by eapply held_in_phase|apply Hw].
  - intros job'. apply triple_pure. intros (Hid' & Hs' & Hv'). apply triple_ret. intros w Hw.
    split; [|done]. by split_and!.
Qed.

Definition is_open (p : phase) : bool := match p with Open => true | _ => false end.

(** How a call ends that is not cut off: a stored result is returned without
    a run, a blocked key refuses, and an open one runs the function. *)
Definition call_ends (p : phase) (res : result string (option any_map)) (L : list string)
    (r : exec_result) (w : world St) : Prop :=
  match p with
  | Committed m => r = Returned (stored_result (state_bytes m)) /\ phase_log p L w
  | Blocked => r = Failure ("idempotent: append acquired: " +:+ mismatch) /\ phase_log p L w
  | Open => after_run res L w /\ in_phase (match res with Ok m => Committed m | Err _ => Open end) w /\
            match res with Ok m => r = Returned m | Err e => r = Failure e end
  end.

Lemma started_call_triple p n L res now job :
  version_in p n job -> dj_State job = StateRunning ->
  triple (held_at job n L)
    (do r <- write (AppendEvent now id (dj_Version job)
                     (sevent "ledger_acquired" EmptyString (ledger_payload toolName key))) ;;
     if negb (snd r) then ret (Failure ("idempotent: append acquired: " +:+ mismatch))
     else
       do _ <- executed id ;;
       finish_call now toolName key (set_dj_Version (dj_Version job + 1) job) res)
    (call_ends p res L) (step_to p res L).
Proof.
  intros Hv Hr. pose proof Hv as (Hid & Hs & Hver).
  apply (triple_bind _ _ _ (fun r w =>
    (snd r = is_open p) /\ held_at job (if is_open p then n + 1 else n) L w)).
  - apply triple_write.
    + intros w Hw. left. by eapply held_in_phase.
    + intros w Hw. pose proof Hw as [(Hj & _ & HL) Hn].
      match goal with |- context [AppendEvent ?t id ?v ?e _] =>
        destruct (append_ledger t v e w) as [Hj' Ha] end.
      rewrite Hj in Hj'.
      destruct p; [|done|]; cbn [is_open];
        destruct Ha as [(? & Hok & Hev)|(? & Hok & Hev)]; try lia; split; try done.
      * split; [by split_and!|]. rewrite Hev. lia.
      * split; [by split_and!|]. by rewrite Hev.
  - intros [v ok]. cbn [snd]. apply triple_pure. intros ->.
    destruct p; [|done|]; cbn [is_open negb].
    + eapply triple_bind.
      * instantiate (1 := fun _ => held_at job (n + 1) (L ++ [id])).
        intros b w [(Hj & _ & HL) Hn]. unfold executed, held_at, holding. by rewrite HL.
      * intros []. eapply triple_crash; [|intros w Hw; right; split; [done|exact Hw]].
        eapply triple_weaken;
          [apply (finish_call_triple now _ (n + 1) L res (Hid : dj_ID (set_dj_Version (dj_Version job + 1) job) = id));
             [cbn; lia|done]| |done].
        intros w Hw. replace (n + 1 - 1) with (dj_Version job) by lia. by destruct job.
    + apply triple_ret. intros w Hw. split; [done|]. by eapply held_in_phase.
Qed.

Lemma Wrap_triple p L fn now input :
  triple (phase_log p L) (Wrap toolName fn now key input)
    (call_ends p (fn input) L) (step_to p (fn input) L).
Proof.
  intros b w Hw. pose proof Hw as [Hp HL]. unfold in_phase in Hp.
  unfold Wrap, bind at 1, read. rewrite load_job_spec. fold (ledger_job w).
  destruct (is_open p || match p with Blocked => true | _ => false end) eqn:Hnc.
  2: { destruct p as [|m|]; try done. destruct (ledger_job w) as [job|]; [|done].
       destruct Hp as (Hid & Hs & Hr). rewrite bool_decide_true by done. cbn. by rewrite Hr. }
  assert (match p, ledger_job w with
          | Open, None => ledger_events w = 0
          | _, Some job => version_in p (ledger_events w) job
          | _, None => False
          end) as Hv by (destruct p, (ledger_job w); done).
  assert (match ledger_job w with Some job => bool_decide (dj_State job = StateCompleted) | None => false end = false)
    as ->.
  { destruct (ledger_job w) as [job|]; [|done]. apply bool_decide_false. destruct p; apply Hv. }
  revert b w Hw Hp HL Hv. intros b w Hw _ _ Hv.
  set (n := ledger_events w) in *.
  match goal with |- match ?m b w with _ => _ end =>
    assert (triple (fun w => phase_log p L w /\ ledger_events w = n) m
              (call_ends p (fn input) L) (step_to p (fn input) L)) as Ht end; [|by apply Ht].
  eapply triple_bind.
  - eapply triple_crash; [exact (acquire_job_triple p _ n L Hv)|]. intros w' Hw'. by left.
  - intros job. apply triple_pure. intros [Hvj Hrun].
    assert (version_in p n (set_dj_Input (state_bytes input) job)) as Hvi by by destruct p.
    apply (triple_save_ledger _ _ n L); [apply Hvj|intros w' [[Hp' HL'] Hn']; split_and!; [by left; split|done|done]|].
    cbn [negb]. by apply (started_call_triple p n L).
Qed.

(** *** Several calls *)

Record wrap_call := mkCall {
  wc_fn : option any_map -> result string (option any_map); wc_input : option any_map;
  wc_now : time; wc_budget : nat;
}.

Definition wrap_step (c : wrap_call) (w : world St) : option exec_result * world St :=
  match Wrap toolName (wc_fn c) (wc_now c) key (wc_input c) (wc_budget c) w with
  | Finished _ w' r => (Some r, w')
  | Crashed w' => (None, w')
  end.

(** The results of the runs of the function that succeeded. *)
Definition succeeded (c : wrap_call) (w w' : world St) : list (option any_map) :=
  if (length (w_log w) <? length (w_log w'))%nat
  then match wc_fn c (wc_input c) with Ok m => [m] | Err _ => [] end else [].

Fixpoint wrap_calls (l : list wrap_call) (w : world St)
    : list (option exec_result) * list (option any_map) * world St :=
  match l with
  | [] => ([], [], w)
  | c :: l =>
      let '(r, w1) := wrap_step c w in
      let '(rs, ms, w2) := wrap_calls l w1 in
      (r :: rs, succeeded c w w1 ++ ms, w2)
  end.

(** What is known after the runs that succeeded with [ms]. *)
Definition phase_after (ms : list (option any_map)) (w : world St) : Prop :=
  match ms with
  | [] => in_phase Open w \/ in_phase Blocked w
  | [m] => in_phase (Committed m) w \/ in_phase Blocked w
  | _ => False
  end.

Definition result_of (ms : list (option any_map)) (o : option exec_result) : Prop :=
  forall st, o = Some (Returned st) -> exists m, ms = [m] /\ (st = m \/ st = stored_result (state_bytes m)).

Lemma succeeded_same c w w' : w_log w' = w_log w -> succeeded c w w' = [].
Proof. unfold succeeded. intros ->. by rewrite (proj2 (Nat.ltb_ge _ _) (le_n _)). Qed.

Lemma after_run_phase c w w' :
  after_run (wc_fn c (wc_input c)) (w_log w) w' -> phase_after (succeeded c w w') w'.
Proof.
  intros [HL Hp]. unfold succeeded. rewrite HL, length_app, (proj2 (Nat.ltb_lt _ _)) by (cbn; lia).
  destruct (wc_fn c (wc_input c)) as [m|e]; cbn [phase_after]; tauto.
Qed.

Lemma wrap_step_phase c ms w : phase_after ms w ->
  let '(o, w') := wrap_step c w in
  phase_after (ms ++ succeeded c w w') w' /\ result_of (ms ++ succeeded c w w') o.
Proof.
  intros Hms. unfold wrap_step.
  assert (exists p, in_phase p w /\
            ((ms = [] /\ p = Open) \/ p = Blocked \/ (exists m, ms = [m] /\ p = Committed m))) as (p & Hp & Hcase).
  { destruct ms as [|m [|]]; [| |done]; destruct Hms as [Hp|Hp].
    - exists Open. by split; [|left].
    - exists Blocked. by split; [|right; left].
    - exists (Committed m). split; [done|]. right. right. by exists m.
    - exists Blocked. by split; [|right; left]. }
  pose proof (Wrap_triple p (w_log w) (wc_fn c) (wc_now c) (wc_input c) (wc_budget c) w (conj Hp eq_refl)) as Ht.
  assert (forall w', phase_log p (w_log w) w' -> succeeded c w w' = [] /\ phase_after ms w') as Hsame.
  { intros w' [Hp' HL']. split; [by apply succeeded_same|].
    destruct Hcase as [[-> ->]|[->|(m & -> & ->)]]; [by left| |by left].
    destruct ms as [|m [|]]; [by right|by right|done]. }
  destruct (Wrap _ _ _ _ _ _ _) as [n' w' r|w'].
  - destruct p as [|m|]; cbn [call_ends] in Ht.
    + destruct Hcase as [[-> _]|[?|(m & _ & ?)]]; [|done|done]. destruct Ht as (Hr & Hp' & Ho).
      pose proof (after_run_phase c w w' Hr) as Hph. split; [done|]. destruct Hr as [HL _].
      cbn [app]. unfold succeeded in *. rewrite HL, length_app, (proj2 (Nat.ltb_lt _ _)) by (cbn; lia).
      intros st [= ->]. destruct (wc_fn c (wc_input c)) as [m|e]; [|done]. injection Ho as ->.
      exists m. by split; [|left].
    + destruct Ht as [-> Hpl]. destruct (Hsame w' Hpl) as [-> Hph]. rewrite app_nil_r. split; [done|].
      destruct Hcase as [[_ ?]|[?|(m' & -> & [= <-])]]; [done|done|].
      intros st [= <-]. exists m. by split; [|right].
    + destruct Ht as [-> Hpl]. destruct (Hsame w' Hpl) as [-> Hph]. rewrite app_nil_r. by split.
  - destruct Ht as [Hpl|[-> Hr]].
    + destruct (Hsame w' Hpl) as [-> Hph]. rewrite app_nil_r. by split.
    + destruct Hcase as [[-> _]|[?|(m & _ & ?)]]; [|done|done]. split; [by apply after_run_phase|done].
Qed.

Lemma wrap_calls_phase l ms w : phase_after ms w ->
  let '(rs, ms', w') := wrap_calls l w in
  phase_after (ms ++ ms') w' /\
  (forall i o, rs !! i = Some o -> exists ms1, ms1 `prefix_of` ms ++ ms' /\ result_of ms1 o).
Proof.
  revert ms w. induction l as [|c l IH]; intros ms w Hms; cbn [wrap_calls].
  - rewrite app_nil_r. by split.
  - pose proof (wrap_step_phase c ms w Hms) as Hs. destruct (wrap_step c w) as [r w1]. destruct Hs as [Hp Hr].
    specialize (IH _ _ Hp). destruct (wrap_calls l w1) as [[rs ms'] w2]. destruct IH as [Hp' Hrs].
    rewrite app_assoc. split; [done|]. intros [|i] o Hi; [|by eapply Hrs].
    injection Hi as <-. eexists. split; [|exact Hr]. by exists ms'.
Qed.

(** A key that was never used. *)
Definition unused (w : world St) : Prop := ledger_job w = None /\ ledger_events w = 0.

(** C16: at-most-once of a wrapped tool: over any number of calls with one
    idempotency key, each with its function and input and each possibly cut
    off by a crash between two store writes, at most one run of the function
    succeeds, and every call that returns without an error returns that run's
    result, or what its stored bytes decode to. *)
Theorem wrap_at_most_once l w :
  unused w ->
  let '(rs, ms, w') := wrap_calls l w in
  ms = [] /\ (forall st, Some (Returned st) ∉ rs) \/
  exists m, ms = [m] /\ forall st, Some (Returned st) ∈ rs -> st = m \/ st = stored_result (state_bytes m).
Proof.
  intros [Hj He].
  assert (phase_after [] w) as Hp by (left; unfold in_phase; by rewrite Hj).
  pose proof (wrap_calls_phase l [] w Hp) as Ht. destruct (wrap_calls l w) as [[rs ms] w'].
  destruct Ht as [Hph Hrs]. cbn [app] in *.
  assert (forall st, Some (Returned st) ∈ rs ->
            exists m, [m] `prefix_of` ms /\ (st = m \/ st = stored_result (state_bytes m))) as Hret.
  { intros st [i Hi]%list_elem_of_lookup. destruct (Hrs _ _ Hi) as (ms1 & Hpre & Hres).
    destruct (Hres st eq_refl) as (m & -> & ?). by exists m. }
  destruct ms as [|m [|? ?]]; [left|right|done].
  - split; [done|]. intros st Hin. destruct (Hret st Hin) as (m & [? ?] & _). done.
  - exists m. split; [done|]. intros st Hin. destruct (Hret st Hin) as (m' & [k Hk] & Hst).
    by injection Hk as -> _.
Qed.

Lemma blocked_calls l w : in_phase Blocked w ->
  let '(rs, ms, w') := wrap_calls l w in
  w_log w' = w_log w /\
  Forall (fun o => o = None \/ o = Some (Failure ("idempotent: append acquired: " +:+ mismatch))) rs.
Proof.
  revert w. induction l as [|c l IH]; intros w Hb; cbn [wrap_calls]; [by split|].
  pose proof (Wrap_triple Blocked (w_log w) (wc_fn c) (wc_now c) (wc_input c) (wc_budget c) w (conj Hb eq_refl)) as Ht.
  unfold wrap_step. destruct (Wrap _ _ _ _ _ _ _) as [n' w1 r|w1].
  - destruct Ht as [-> [Hb1 HL1]]. specialize (IH w1 Hb1). destruct (wrap_calls l w1) as [[rs ms] w2].
    destruct IH as [HL2 Hrs]. split; [by rewrite HL2|]. constructor; [by right|done].
  - destruct Ht as [[Hb1 HL1]|[? _]]; [|done]. specialize (IH w1 Hb1).
    destruct (wrap_calls l w1) as [[rs ms] w2]. destruct IH as [HL2 Hrs].
    split; [by rewrite HL2|]. constructor; [by left|done].
Qed.

(** A call with two writes left: the record and the acquired event are
    stored, the function has run. *)
Lemma crash_after_run fn now input w : unused w ->
  exists w1, Wrap toolName fn now key input 2%nat w = Crashed w1 /\
             w_log w1 = w_log w ++ [id] /\ in_phase Blocked w1.
Proof.
  intros [Hj He]. unfold Wrap, bind, read. rewrite load_job_spec.
  assert (v_jobs (view (w_store w)) !! id = None) as -> by exact Hj.
  cbn [acquire_job ret write]. set (job := set_dj_Input _ _).
  destruct (save_job_spec job (w_store w)) as [Hv1 Hok1].
  destruct (SaveJob job (w_store w)) as [s1 ok1]. cbn [fst snd] in Hv1, Hok1. subst ok1.
  cbn [negb write w_store w_log]. set (e := sevent _ _ _).
  pose proof (append_spec now id (dj_Version job) e s1) as Ha. unfold append_view in Ha.
  unfold ledger_events in He. rewrite Hv1 in Ha. cbn [v_events] in Ha. rewrite He in Ha.
  destruct (AppendEvent now id (dj_Version job) e s1) as [s2 [v2 ok2]].
  cbn in Ha. injection Ha as Hv2 -> ->. cbn [snd negb].
  exists (mkWorld s2 (w_log w ++ [id])). split; [by destruct (fn input)|]. split; [done|].
  unfold in_phase, ledger_job, ledger_events. cbn [w_store]. rewrite Hv2. cbn [v_jobs v_events].
  rewrite (lookup_insert_eq (v_jobs _) (dj_ID job) job : _ !! id = _).
  split_and!; [done|done|]. rewrite get_default_insert, decide_True by done. rewrite length_app. cbn. lia.
Qed.

(** The window between the two ledger events: a first call that crashes
    after the acquired event was appended and before its outcome was saved
    has run the function, and blocks the key: no later call runs the function
    or returns a result, each fails with the version mismatch of its acquired
    event or crashes itself.  The comment of [Wrap] says the next call
    re-executes. *)
Theorem wrap_crash_blocks fn now input w l :
  unused w ->
  exists w1, Wrap toolName fn now key input 2%nat w = Crashed w1 /\ w_log w1 = w_log w ++ [id] /\
  let '(rs, ms, w') := wrap_calls l w1 in
  w_log w' = w_log w1 /\
  Forall (fun o => o = None \/ o = Some (Failure ("idempotent: append acquired: " +:+ mismatch))) rs.
Proof.
  intros Hu. destruct (crash_after_run fn now input w Hu) as (w1 & Hr & HL & Hb).
  exists w1. split; [done|]. split; [done|]. by apply blocked_calls.
Qed.
End idempotent.

Definition charge : option any_map -> result string (option any_map) :=
  fun _ => Ok (Some {["charged" := JBool true]}).

Lemma wrap_at_most_once_witness :
  exists rs w', wrap_calls (St := MemoryStore) "pay" "order-1"
    [mkCall (fun _ => Err "down") None (Time 1 0) 9; mkCall charge None (Time 2 0) 9;
     mkCall charge None (Time 3 0) 9] (mkWorld NewMemoryStore [])
    = (rs, [Some {["charged" := JBool true]}], w') /\
    (forall st, Some (Returned st) ∈ rs ->
      st = Some {["charged" := JBool true]} \/ st = stored_result (state_bytes (Some {["charged" := JBool true]}))).
Proof.
  pose proof (wrap_at_most_once (St := MemoryStore) "pay" "order-1"
    [mkCall (fun _ => Err "down") None (Time 1 0) 9; mkCall charge None (Time 2 0) 9;
     mkCall charge None (Time 3 0) 9] (mkWorld NewMemoryStore []) (conj eq_refl eq_refl)) as Ht.
  match type of Ht with context [wrap_calls ?a ?b ?c ?d] => set (t := wrap_calls a b c d) in * end.
  assert (t.1.2 = [Some {["charged" := JBool true]}]) as Hms by (vm_compute; reflexivity).
  destruct t as [[rs ms] w'] eqn:Hc. cbn in Hms. subst ms.
  exists rs, w'. split; [reflexivity|].
  destruct Ht as [Ht|Ht]; [discriminate (proj1 Ht)|].
  destruct Ht as (m & Hm & Hin). injection Hm as <-. exact Hin.
Defined.

Lemma wrap_crash_blocks_witness :
  exists w1, Wrap (S := MemoryStore) "pay" charge (Time 2 0) "order-1" None 2%nat (mkWorld NewMemoryStore []) = Crashed w1 /\
    w_log w1 = ["ledger:pay:order-1"] /\
    fst (fst (wrap_calls "pay" "order-1" [mkCall charge None (Time 3 0) 9] w1))
    = [Some (Failure ("idempotent: append acquired: " +:+ mismatch))].
Proof.
  destruct (wrap_crash_blocks (St := MemoryStore) "pay" "order-1" charge (Time 2 0) None
    (mkWorld NewMemoryStore []) [mkCall charge None (Time 3 0) 9] ltac:(split; reflexivity)) as (w1 & Hw & HL & _).
  exists w1. split; [exact Hw|]. split; [exact HL|].
  assert (w1 = match Wrap (S := MemoryStore) "pay" charge (Time 2 0) "order-1" None 2%nat (mkWorld NewMemoryStore [])
               with Crashed w => w | Finished _ w _ => w end) as -> by by rewrite Hw.
  vm_compute. reflexivity.
Defined.
